(* ===== verification/_CoqProject ===== *)
-Q . S2P
Prelude.v
Types.v
Metric.v
Prefix.v
State.v
Topology.v
Fsm.v
Store.v
Marking.v
Frame.v
Handlers.v
Invariant.v
Distance.v
Dual.v
Network.v
DualProps.v
Completion.v
Table.v
Events.v
NeighborDown.v
NeighborDownProps.v
MetricProps.v
Maintenance.v
TopologyProps.v
PrefixProps.v
Filter.v
FilterProps.v
Summary.v
SummaryProps.v
HashTable.v
HashTableProps.v
Rtt.v
RttProps.v
Transport.v
TransportProps.v
Retransmit.v
Stream.v
Checksum.v
BlockHash.v
Sha256.v
Sha256Props.v
Md5.v
Md5Props.v
Auth.v
AuthProps.v
Ingress.v
IngressProps.v
AfVectors.v
Tlv1.v
Tlv1Props.v
Tlv2.v
Tlv2Props.v
Timers.v
Neighbor.v
NeighborProps.v
Limits.v
LimitsProps.v
AfLimits.v
RedistLimits.v
Hello.v
HelloProps.v
Dispatch.v
AdjacencyProps.v
AdjacencyTrace.v
AdjacencyTheorems.v
Receive.v
Paths.v
ReceiveProps.v
ReceiveWalk.v
Answers.v
Learning.v
ReceiveQuery.v
ReceiveUpdate.v
ReceiveTheorems.v
Packetizer.v
Builder.v
Packing.v
PacketizerProps.v
Retire.v
PacketizerTheorems.v
