(* ===== verification/Prelude.v ===== *)
(** * OpenEIGRP: a verification library for the portable core

    OpenEIGRP (src/eigrp/code) is a C implementation of EIGRP, RFC 7868.  This
    library models its routing core, its neighbor machinery, its transport and
    its wire formats as executable definitions and proves what makes them
    correct.

    ** The program

    One address-family instance owns a topology table of destinations and the
    neighbors of its interfaces.  A datagram is validated and authenticated on
    ingress, queued for the address family's thread, and dispatched: a Hello
    makes and keeps adjacencies; the other opcodes belong to the routing
    protocol.  The TLV codec of the sending neighbor, which uses the vectors of
    the address family, decodes routes from the packet's stream, and each
    decoded route becomes a message to the DUAL state machine.  The machine
    updates the route's distance, selects an event against the feasibility
    condition, dispatches it through the NSM table and, in its handlers, changes
    the destination, marks successors, refreshes the host RIB and queues
    packetizer work (UPDATE, QUERY, REPLY, SIA packets).  The packetizer selects
    the route of each piece of work, applies summaries, poison reverse and
    outbound filters, and packs route TLVs into packets.  Reliable packets wait
    in per-neighbor queues for their acknowledgement and are retransmitted and
    paced.  Timers drive holding, retransmission, stuck-in-active and the
    penalties of prefix limits.

    ** Files

    Shared.
    - Prelude (this file): machine integers with their wrap-around ([u8] to
      [u64]), the state-and-undefined-behaviour monad [M], its weakest
      precondition [wp] with the rules and tactics used everywhere, and generic
      list lemmas.
    - Types: constants and records of eigrp.h, eigrp_const.h, eigrp_structs.h,
      eigrp_fsm.h, eigrp_rib.h and eigrp_packetizer.h.

    Routing.
    - Metric, MetricProps: eigrp_metric.c.
    - Prefix, PrefixProps: eigrp_prefix.c and the key functions of the topology
      table (eigrp_topology.c, eigrp_table.c).
    - HashTable, HashTableProps: eigrp_table.c, the chained hash table with its
      order list on a heap of nodes.
    - State: struct eigrp_instance and the objects its pointers reach as one
      store, with allocation, the host RIB boundary, the change list, the active
      timers (eigrp_timer.c) and the packetizer queue (eigrp_packetizer.c,
      eigrp_query.c, eigrp_reply.c, eigrp_siaquery.c, eigrp_siareply.c,
      eigrp_update.c, send side).
    - Topology, Maintenance: eigrp_topology.c: descriptors, the two queues
      ordered by distance, selection, the distance update, successor marking,
      the RIB refresh, retirement, and the sweeps over the table.
    - Fsm: eigrp_fsm.c, the whole state machine.
    - Store, Marking, Frame, Handlers, Invariant, Distance, Dual: the lemmas on
      which the DUAL theorems rest: accesses to the store, what marking and
      refresh do, what a handler may change, the well-formedness invariant
      [instance_wf], the distance update, and [dual_step], the specification of
      one event.
    - Network: a concrete instance store, the input of the witnesses.
    - DualProps, Completion, TopologyProps: the theorems about them.
    - Table, Events: the table of a store and what one event does to the store.
    - NeighborDown, NeighborDownProps: the loss of a neighbor and of a suspended
      address family (eigrp_topology.c).
    - Filter, FilterProps: eigrp_filter.c.
    - Summary, SummaryProps: eigrp_summary.c.

    Transport and wire formats.
    - Rtt, RttProps: round-trip estimation, pacing and sequence numbers
      (eigrp_neighbor.c, eigrp_packet.c).
    - Transport, TransportProps, Retransmit: the packet queues, reliable unicast
      and multicast, acknowledgement, retransmission and the paced writer
      (eigrp_packet.c).
    - Stream, Checksum: eigrp_stream.c and eigrp_checksum.c.
    - AfVectors: eigrp_ipv4.c and eigrp_ipv6.c as a record of operations, and
      [AfLaws], the interface the codecs rely on, with its two instances.
    - Tlv1, Tlv1Props, Tlv2, Tlv2Props: eigrp_tlv1.c and eigrp_tlv2.c.
    - BlockHash, Sha256, Sha256Props, Md5, Md5Props: eigrp_sha256.c and
      eigrp_md5.c over a shared block-buffer argument.
    - Auth, AuthProps: eigrp_auth.c, signing and checking.
    - Ingress, IngressProps: the validation of a datagram before it is queued
      (eigrp_packet.c, eigrp_hello.c).

    Neighbors.
    - Timers: eigrp_timer.c, the ordered queue of timers with owner slots.
    - Neighbor, NeighborProps: eigrp_neighbor.c: neighbor objects, publication,
      adjacency state, hold timer, teardown, on a state [adj] of neighbors,
      interfaces, timers and counters.
    - Limits, LimitsProps, AfLimits, RedistLimits: eigrp_pfxlimits.c and the
      limit code of eigrp_neighbor.c and eigrp_redistribute.c.
    - Hello, HelloProps: eigrp_hello.c, receive side.
    - Dispatch: the dispatcher and the work after a packet (eigrp_packet.c).
    - AdjacencyProps, AdjacencyTrace, AdjacencyTheorems: the traces of events of
      an address family and the theorems about them.

    Packets of the routing protocol.
    - Receive: the receive functions of eigrp_update.c, eigrp_query.c,
      eigrp_reply.c, eigrp_siaquery.c and eigrp_siareply.c over the packet's
      stream, the instance store and the adjacencies together.
    - Paths: [topo_ok], the invariant under which they run.
    - ReceiveProps, ReceiveWalk, Answers, Learning, ReceiveQuery, ReceiveUpdate:
      their lemmas; ReceiveTheorems: the theorems.
    - Packetizer: eigrp_packetizer.c and the packet creation of eigrp_packet.c.
    - Builder, Packing: the packet builder as an abstract machine on lists of
      TLVs.  PacketizerProps: the routes the packetizer lends itself.  Retire:
      what a store keeps when paths and destinations leave it.
      PacketizerTheorems: the theorems.

    ** How the code is represented

    A C function that touches the instance is a computation in [M eigrp_instance]
    (abbreviated [St]), one that touches a packet in [M eigrp_stream] ([Sm]), one
    of the transport in [M transmit] ([Tx]), one of the neighbor machinery in
    [M adj] ([Ad]); the receive functions run on all of these ([Rx]) and the
    packetizer on the instance and the packets it builds ([Px]).  [ub] is undefined behaviour: a NULL or dangling access, a
    division by zero.  [wp m Q s] says that [m] runs from [s] without undefined
    behaviour and ends in a result and a state satisfying [Q]; every theorem
    about a stateful function is therefore also a theorem that it returns.
    Pointers are natural numbers into finite maps; linked lists are the lists of
    the addresses they link, except in HashTable, whose nodes carry their links.
    The host's answers (allocation, RIB insertion, the clock) are lists or
    arguments, so theorems quantify over them.  Integers are [Z] with the wrap
    of their C width written at the assignments where it happens.

    ** What is proved

    Each theorem's doc comment gives its premises; the common ones are the
    invariants, allocations that succeed ([mem s = []]) and messages as the
    receive functions build them ([msg_ok]).  Outside them the code has
    undefined behaviour at places of its own.

    - DUAL (DualProps, Completion): an event is safe and preserves
      [instance_wf]; it moves the destination along one arrow of the state
      diagram (two arrows wider than the comment of eigrp_fsm.c draws them); a
      PASSIVE destination, with some neighbor UP, only adopts a feasible route
      and never raises its feasible distance; nothing a destination advertises moves while
      it is ACTIVE; the last reply ends the computation, with or without the
      feasibility condition; every QUERY is answered or remembered, and a
      deferred REPLY is never lost by another event; the loss of a neighbor and
      the sending of QUERYs leave no computation stranded, and the ACTIVE timer
      decides stuck-in-active.
    - Topology (TopologyProps): selection is complete and optimal, marking is
      exactly the sets DUAL, variance and maximum-paths define, the RIB refresh
      installs exactly the successors and makes exactly the host call they
      determine (destination, next hops, distance, tag, class), the queue sort
      terminates and is a stable sort.  HashTableProps: the hash table refines a
      list of entries with distinct keys, through growth and failed growth, and
      matches the longest prefix.
    - A lost neighbor (NeighborDownProps) is awaited and owed nothing and each of
      its paths has an infinite distance.  Filters and summaries (FilterProps,
      SummaryProps): the decisions are those of the configured lists while
      the runtime references of the interfaces are in step with them, the commands
      keep this and refine a map of references, a summary answers QUERYs for what
      it covers.
    - Receiving (ReceiveTheorems): the receive functions return on packets of any
      bytes, from a neighbor without an open restart list, and keep every
      invariant; a QUERY is answered, about the
      destination it names, or its REPLY owed; an UPDATE teaches its destination.
    - Sending (Packing, PacketizerTheorems): packing loses, cuts and repeats
      nothing and respects the limit; an answer reaches its neighbor; one UPDATE
      advertises every pending change on every interface with a neighbor, where
      no summary covers one and next-hop-self is off, settles the list and retires what has no path ([shelved], the invariant of
      Retire, ties the table to its destinations).
    - Codecs (Tlv1Props, Tlv2Props): round trips of both route TLVs for every
      family that obeys [AfLaws], and safety, progress and termination of both
      decoders on arbitrary bytes.
    - Transport (Retransmit, TransportProps, RttProps): one retransmission at
      most per neighbor and always of the queue's head; an acknowledgement
      releases exactly the head; multicast admission is all or nothing under
      allocation failure; pacing is a token bucket over any interval and
      the wait it asks for is exact.
    - Authentication and ingress (AuthProps, IngressProps): the digests are those
      of FIPS 180-4, RFC 2104 and RFC 1321, stated with functions and constants
      of their own, however the message is cut; the check
      accepts exactly genuine and newer packets; a signed packet is accepted
      once; ingress admits only complete, well-framed, verified packets and
      refuses replays.
    - Adjacency (Timers, AdjacencyTheorems): the timer queue refines a map of
      deadlines; any sequence of packets, expiries, teardowns and commands keeps
      the adjacency invariant; penalties last until their time while no
      command clears them and no interface goes down; a violation has
      the configured consequence; a receive function runs only behind its
      guards.
    - Stream, Checksum, Metric, Prefix: the stream is a byte queue; a filled
      checksum verifies; the composite metric does not wrap on classic vectors
      and a link never shortens a path; matching, normalisation and table keys
      have their bit-level meaning.

    ** Bounds and fuel

    [nsm_fuel] is 2: only DINC dispatches again, and the state it enters never
    selects DINC.  [stream_double] has 64 rounds, the width of [size_t].
    [checksum_fold] folds twice, enough for the sum of 65535 bytes.
    [extended_loop] has one unit per attribute byte and each round reads two.
    [bubble_sort] has one pass more than the queue has inversions.  The loops
    over hash chains have one unit per node of the heap; the block loops of the
    digests and the TLV walks one unit per byte, of which each round consumes at
    least one ([settle_fuel] is twice the change list, since a visit appends at
    most one entry); the drains of timer and packet queues the length of the queue.
    Where a fuel could run out the definition is [ub], so the theorems exclude
    it.

    ** Not modelled

    Event-log records, statistics and debug lines, which the core writes and
    never reads; sockets, threads and the host ports (src/frr, src/unix: command
    line, YANG callbacks and kernel routes, no routing decision is taken there).
    The encoders of Hello and the table snapshot of a new adjacency, the
    injection of redistributed routes, the life cycle of instances and
    interfaces and their configuration commands: they create and release the
    objects whose operations are modelled. *)

From Stdlib Require Import ZArith Lia.
From stdpp Require Import base gmap list sorting.

Open Scope Z_scope.
#[export] Set Warnings "-clear-no-such-hyp".

(** ** Machine integers

    A [w]-bit unsigned integer is a [Z]; the wrap-around of an assignment or a
    cast is written with [u8], [u16], [u32] and [u64]. *)

Definition u8 (z : Z) : Z := z mod 2 ^ 8.
Definition u16 (z : Z) : Z := z mod 2 ^ 16.
Definition u32 (z : Z) : Z := z mod 2 ^ 32.
Definition u64 (z : Z) : Z := z mod 2 ^ 64.

Definition UINT8_MAX : Z := 255.
Definition UINT16_MAX : Z := 65535.
Definition UINT32_MAX : Z := 4294967295.
Definition UINT64_MAX : Z := 18446744073709551615.

(** A value that fits in one byte. *)
Definition byte (z : Z) : Prop := 0 <= z < 256.

Declare Scope eigrp_scope.
Delimit Scope eigrp_scope with eigrp.
Notation "a .& b" := (Z.land a b) (at level 40, left associativity) : eigrp_scope.
Notation "a .| b" := (Z.lor a b) (at level 50, left associativity) : eigrp_scope.
Notation "a .<< b" := (Z.shiftl a b) (at level 30, right associativity) : eigrp_scope.
Notation "a .>> b" := (Z.shiftr a b) (at level 30, right associativity) : eigrp_scope.
(** [f '.?' b]: the C condition [f & b]. *)
Definition has_flag (f b : Z) : bool := negb (Z.land f b =? 0).
Notation "f .? b" := (has_flag f b) (at level 60) : eigrp_scope.
Open Scope eigrp_scope.

Create HintDb eigrp discriminated.
#[export] Hint Constants Transparent : eigrp.

Section machine_integers.
Lemma wrap_range w z : 0 <= w -> 0 <= z mod 2 ^ w < 2 ^ w.
Proof. intros. apply Z.mod_pos_bound. apply Z.pow_pos_nonneg; lia. Qed.

Lemma u8_range z : 0 <= u8 z < 256.
Proof. apply (wrap_range 8); lia. Qed.
Lemma u16_range z : 0 <= u16 z < 65536.
Proof. apply (wrap_range 16); lia. Qed.
Lemma u32_range z : 0 <= u32 z < 4294967296.
Proof. apply (wrap_range 32); lia. Qed.
Lemma u64_range z : 0 <= u64 z < 18446744073709551616.
Proof. apply (wrap_range 64); lia. Qed.

Lemma u8_small z : 0 <= z < 256 -> u8 z = z.
Proof. intros. apply Z.mod_small. simpl; lia. Qed.
Lemma u16_small z : 0 <= z < 65536 -> u16 z = z.
Proof. intros. apply Z.mod_small. simpl; lia. Qed.
Lemma u32_small z : 0 <= z < 4294967296 -> u32 z = z.
Proof. intros. apply Z.mod_small. simpl; lia. Qed.
Lemma u64_small z : 0 <= z < 18446744073709551616 -> u64 z = z.
Proof. intros. apply Z.mod_small. simpl; lia. Qed.

Lemma u8_byte z : byte (u8 z).
Proof. apply u8_range. Qed.
End machine_integers.

#[export] Hint Resolve u8_range u16_range u32_range u64_range u8_byte : eigrp.

(** ** Flag words *)

Section flag_words.
Lemma has_flag_bit f n : 0 <= n -> has_flag f (2 ^ n) = Z.testbit f n.
Proof.
  intros Hn. unfold has_flag. rewrite Z.land_comm.
  destruct (Z.testbit f n) eqn:E.
  - destruct (Z.eqb_spec (Z.land (2 ^ n) f) 0) as [H|H]; [|done].
    exfalso. assert (Z.testbit (Z.land (2 ^ n) f) n = false) as C
      by (rewrite H; apply Z.bits_0).
    rewrite Z.land_spec, Z.pow2_bits_true, E in C by lia. done.
  - assert (Z.land (2 ^ n) f = 0) as ->; [|done].
    apply Z.bits_inj'. intros i Hi. rewrite Z.land_spec, Z.bits_0.
    destruct (decide (i = n)) as [->|Hne]; [by rewrite E, andb_false_r|].
    rewrite Z.pow2_bits_false by lia. done.
Qed.

Lemma has_flag_lor f g n :
  0 <= n -> has_flag (Z.lor f g) (2 ^ n) = has_flag f (2 ^ n) || has_flag g (2 ^ n).
Proof. intros. rewrite !has_flag_bit by lia. apply Z.lor_spec. Qed.

Lemma has_flag_ldiff f g n :
  0 <= n -> has_flag (Z.ldiff f g) (2 ^ n) = has_flag f (2 ^ n) && negb (has_flag g (2 ^ n)).
Proof. intros. rewrite !has_flag_bit by lia. apply Z.ldiff_spec. Qed.
End flag_words.

(** ** Fallible stateful computations

    [M S A]: code that reads and updates a store [S] and returns an [A].
    [None] is undefined behaviour of the C code: the dereference of a NULL or
    dangling pointer, a failed [assert], a division by zero. *)

Definition M (S A : Type) : Type := S -> option (A * S).

#[export] Instance M_ret {S} : MRet (M S) := fun A a s => Some (a, s).
#[export] Instance M_bind {S} : MBind (M S) := fun A B f m s =>
  match m s with
  | Some (a, s') => f a s'
  | None => None
  end.

Definition ub {S A} : M S A := fun _ => None.
Definition get {S} : M S S := fun s => Some (s, s).
Definition gets {S A} (f : S -> A) : M S A := fun s => Some (f s, s).
Definition modify {S} (f : S -> S) : M S unit := fun s => Some (tt, f s).
(** A pointer that the code dereferences without a test. *)
Definition nonnull {S A} (o : option A) : M S A :=
  match o with Some a => mret a | None => ub end.
Definition when {S} (b : bool) (m : M S unit) : M S unit :=
  if b then m else mret tt.

Fixpoint mfor {S A} (l : list A) (f : A -> M S unit) : M S unit :=
  match l with
  | [] => mret tt
  | a :: l' => f a;; mfor l' f
  end.

(** The first element of a list that satisfies a test made by a computation. *)
Fixpoint mfind {S A} (l : list A) (f : A -> M S bool) : M S (option A) :=
  match l with
  | [] => mret None
  | a :: l' => b ← f a; if b : bool then mret (Some a) else mfind l' f
  end.

(** *** Total correctness: the computation is defined and its outcome satisfies [Q]. *)

Definition wp {S A} (m : M S A) (Q : A -> S -> Prop) (s : S) : Prop :=
  match m s with
  | Some (a, s') => Q a s'
  | None => False
  end.

Section weakest_preconditions.
Context {S : Type}.

Lemma wp_ret {A} (a : A) (Q : A -> S -> Prop) s : wp (mret a) Q s <-> Q a s.
Proof. done. Qed.
Lemma wp_bind {A B} (m : M S A) (f : A -> M S B) Q s :
  wp (m ≫= f) Q s <-> wp m (fun a s' => wp (f a) Q s') s.
Proof. unfold wp, mbind, M_bind. destruct (m s) as [[a s']|]; done. Qed.
Lemma wp_gets {A} (f : S -> A) Q s : wp (gets f) Q s <-> Q (f s) s.
Proof. done. Qed.
Lemma wp_get Q (s : S) : wp get Q s <-> Q s s.
Proof. done. Qed.
Lemma wp_modify (f : S -> S) Q s : wp (modify f) Q s <-> Q tt (f s).
Proof. done. Qed.
Lemma wp_mono {A} (m : M S A) (P Q : A -> S -> Prop) s :
  wp m P s -> (forall a s', P a s' -> Q a s') -> wp m Q s.
Proof. unfold wp. destruct (m s) as [[a s']|]; auto. Qed.
Lemma wp_conj {A} (m : M S A) (P Q : A -> S -> Prop) s :
  wp m P s -> wp m Q s -> wp m (fun a s' => P a s' /\ Q a s') s.
Proof. unfold wp. destruct (m s) as [[a s']|]; auto. Qed.
Lemma wp_some {A} (m : M S A) Q s :
  wp m Q s -> exists a s', m s = Some (a, s') /\ Q a s'.
Proof. unfold wp. destruct (m s) as [[a s']|]; naive_solver. Qed.
Lemma wp_when (b : bool) (m : M S unit) Q s :
  wp (when b m) Q s <-> (if b then wp m Q s else Q tt s).
Proof. by destruct b. Qed.

Lemma wp_mfor {A} (l : list A) (f : A -> M S unit) (I : list A -> S -> Prop)
    (Q : unit -> S -> Prop) s :
  I l s ->
  (forall a l' s', I (a :: l') s' -> wp (f a) (fun _ s'' => I l' s'') s') ->
  (forall s', I [] s' -> Q tt s') ->
  wp (mfor l f) Q s.
Proof.
  intros HI Hstep Hend. revert s HI. induction l as [|a l IH]; intros s HI; simpl.
  - by apply Hend.
  - apply wp_bind. eapply wp_mono; [by apply Hstep|]. intros [] s' H. by apply IH.
Qed.
End weakest_preconditions.

(** *** Frames: a relation between the stores before and after every run. *)

Definition keeps {S A} (R : relation S) (m : M S A) : Prop :=
  forall s a s', m s = Some (a, s') -> R s s'.

Create HintDb keeps discriminated.
#[export] Hint Constants Opaque : keeps.
#[export] Hint Variables Opaque : keeps.

Section frames.
Context {S : Type} (R : relation S) `{!PreOrder R}.

Lemma keeps_ret {A} (a : A) : keeps R (mret a : M S A).
Proof. intros s a' s' H. unfold mret, M_ret, get, gets in H. by simplify_eq. Qed.
Lemma keeps_ub {A} : keeps R (ub : M S A).
Proof. done. Qed.
Lemma keeps_get : keeps R (get : M S S).
Proof. intros s a' s' H. unfold mret, M_ret, get, gets in H. by simplify_eq. Qed.
Lemma keeps_gets {A} (f : S -> A) : keeps R (gets f).
Proof. intros s a' s' H. unfold mret, M_ret, get, gets in H. by simplify_eq. Qed.
Lemma keeps_nonnull {A} (o : option A) : keeps R (nonnull o : M S A).
Proof. destruct o; [apply keeps_ret|apply keeps_ub]. Qed.
Lemma keeps_modify (f : S -> S) : (forall s, R s (f s)) -> keeps R (modify f).
Proof. intros Hf s a' s' H. unfold modify in H. simplify_eq. apply Hf. Qed.
Lemma keeps_bind {A B} (m : M S A) (f : A -> M S B) :
  keeps R m -> (forall a, keeps R (f a)) -> keeps R (m ≫= f).
Proof.
  intros Hm Hf s b s' H. unfold mbind, M_bind in H.
  destruct (m s) as [[a s1]|] eqn:E; [|done].
  transitivity s1; [by eapply Hm|by eapply Hf].
Qed.
Lemma keeps_if {A} (b : bool) (m1 m2 : M S A) :
  keeps R m1 -> keeps R m2 -> keeps R (if b then m1 else m2).
Proof. by destruct b. Qed.
Lemma keeps_when (b : bool) (m : M S unit) : keeps R m -> keeps R (when b m).
Proof. intros. apply keeps_if; [done|apply keeps_ret]. Qed.
Lemma keeps_option {A B} (o : option A) (f : A -> M S B) (m : M S B) :
  (forall a, keeps R (f a)) -> keeps R m ->
  keeps R (match o with Some a => f a | None => m end).
Proof. by destruct o. Qed.
Lemma keeps_mfor {A} (l : list A) (f : A -> M S unit) :
  (forall a, keeps R (f a)) -> keeps R (mfor l f).
Proof. intros Hf. induction l; [apply keeps_ret|by apply keeps_bind]. Qed.
Lemma keeps_mfind {A} (l : list A) (f : A -> M S bool) :
  (forall a, keeps R (f a)) -> keeps R (mfind l f).
Proof.
  intros Hf. induction l as [|a l IH]; [apply keeps_ret|].
  apply keeps_bind; [done|intros b]. apply keeps_if; [apply keeps_ret|done].
Qed.
End frames.

(** Splits a frame goal along the structure of the code; the frames of the
    operations called are found in the database [keeps]. *)
Ltac solve_keeps :=
  repeat first
    [ progress intros
    | solve [eauto with keeps nocore]
    | apply keeps_ret; apply _ | apply keeps_ub
    | apply keeps_get; apply _ | apply keeps_gets; apply _
    | apply keeps_nonnull; apply _
    | apply keeps_bind; [apply _| |]
    | apply keeps_when; [apply _|]
    | apply keeps_mfor; [apply _|]
    | apply keeps_mfind; [apply _|]
    | match goal with
      | |- keeps _ (if ?b then _ else _) => destruct b
      | |- keeps _ (match ?o with _ => _ end) => destruct o
      | |- keeps _ (let '_ := ?p in _) => destruct p
      end ].

(** ** Ordered insertion

    [eigrp_list_insert] walks from the head and stops at the first element that
    compares greater, so equal elements keep their order of arrival. *)

Section ordered_insertion.
Context {A : Type} (key : A -> Z).

Fixpoint insert_by (x : A) (l : list A) : list A :=
  match l with
  | [] => [x]
  | y :: l' => if key x <? key y then x :: y :: l' else y :: insert_by x l'
  end.

Definition key_le (a b : A) : Prop := key a <= key b.

Lemma insert_by_perm x l : insert_by x l ≡ₚ x :: l.
Proof.
  induction l as [|y l IH]; simpl; [done|]. destruct (key x <? key y); [done|].
  rewrite IH. apply Permutation_swap.
Qed.

Lemma insert_by_sorted x l :
  StronglySorted key_le l -> StronglySorted key_le (insert_by x l).
Proof.
  induction 1 as [|y l Hs IH Hy]; simpl; [repeat constructor|].
  destruct (Z.ltb_spec (key x) (key y)) as [Hlt|Hge].
  - constructor; [by constructor|]. constructor; [unfold key_le; lia|].
    eapply Forall_impl; [exact Hy|]. unfold key_le; intros; lia.
  - constructor; [done|]. rewrite insert_by_perm. by constructor.
Qed.

Lemma elem_of_insert_by x y l : y ∈ insert_by x l <-> y = x \/ y ∈ l.
Proof. rewrite insert_by_perm. apply elem_of_cons. Qed.

Lemma sorted_filter (P : A -> Prop) `{forall x, Decision (P x)} l :
  StronglySorted key_le l -> StronglySorted key_le (filter P l).
Proof.
  induction 1 as [|y l Hs IH Hy]; [constructor|].
  rewrite filter_cons. case_decide; [|done]. constructor; [done|].
  apply Forall_forall. intros z [_ Hz]%list_elem_of_filter.
  rewrite Forall_forall in Hy. by apply Hy.
Qed.
End ordered_insertion.

(** ** Lists *)

Section lists.
Context {A : Type}.

Lemma find_first (P : A -> bool) (l : list A) x :
  List.find P l = Some x ->
  exists l1 l2, l = l1 ++ x :: l2 /\ P x = true /\ Forall (fun y => P y = false) l1.
Proof.
  induction l as [|y l IH]; simpl; [done|]. destruct (P y) eqn:E.
  - intros [= ->]. exists [], l. repeat split; [done|constructor].
  - intros H. destruct (IH H) as (l1 & l2 & -> & HP & HF).
    exists (y :: l1), l2. repeat split; [done|]. by constructor.
Qed.

Lemma find_none_forall (P : A -> bool) (l : list A) :
  List.find P l = None <-> Forall (fun y => P y = false) l.
Proof.
  induction l as [|y l IH]; simpl; [by split; constructor|].
  destruct (P y) eqn:E; [split; [done|intros H; inversion H; congruence]|].
  rewrite IH. split; intros H; [by constructor|by inversion H].
Qed.

(** [list_remove_first eqb l]: the unlinking of the first node that matches. *)
Fixpoint remove_first (P : A -> bool) (l : list A) : list A :=
  match l with
  | [] => []
  | y :: l' => if P y then l' else y :: remove_first P l'
  end.

Lemma remove_first_sublist P l : sublist (remove_first P l) l.
Proof.
  induction l as [|y l IH]; simpl; [constructor|].
  destruct (P y); [by apply sublist_cons|by apply sublist_skip].
Qed.

Lemma sorted_sublist (R : relation A) l k :
  sublist l k -> StronglySorted R k -> StronglySorted R l.
Proof.
  induction 1 as [|x l k Hs IH|x l k Hs IH]; intros Hk; [done| |].
  - inversion Hk as [|? ? Hk' Hf]; subst. constructor; [by apply IH|].
    rewrite Forall_forall in *. intros y Hy. apply Hf.
    eapply elem_of_submseteq; [done|by apply sublist_submseteq].
  - inversion Hk; auto.
Qed.
End lists.

(** The first element that satisfies [P], changed in place. *)
Fixpoint alter_first {A} (P : A -> bool) (f : A -> A) (l : list A) : list A :=
  match l with
  | [] => []
  | x :: l' => if P x then f x :: l' else x :: alter_first P f l'
  end.

(** ** Linked lists used as maps

    A list of records searched by a key, the first one found first, read as the
    finite map [amap] from keys to values. *)

Section keyed.
Context {A K V : Type} `{Countable K} (key : A -> K) (val : A -> V).

Definition keyed (k : K) (a : A) : bool := bool_decide (key a = k).
Definition amap (l : list A) : gmap K V := list_to_map ((fun a => (key a, val a)) <$> l).

Lemma amap_cons a l : amap (a :: l) = <[key a := val a]> (amap l).
Proof. done. Qed.

Lemma amap_find k l : amap l !! k = val <$> List.find (keyed k) l.
Proof.
  induction l as [|a l IH]; [done|]. rewrite amap_cons. simpl. unfold keyed at 1.
  case_bool_decide as E; [subst; by rewrite lookup_insert_eq|by rewrite lookup_insert_ne].
Qed.

Lemma amap_none k l : amap l !! k = None -> k ∉ key <$> l.
Proof.
  induction l as [|a l IH]; [intros _; apply not_elem_of_nil|]. rewrite amap_cons, fmap_cons. intros E.
  apply not_elem_of_cons. destruct (decide (key a = k)) as [Ek|Hne]; [subst k; by rewrite lookup_insert_eq in E|].
  rewrite lookup_insert_ne in E by done. split; [done|auto].
Qed.

Lemma amap_notin k l : k ∉ key <$> l -> amap l !! k = None.
Proof.
  induction l as [|a l IH]; [done|]. rewrite fmap_cons. intros [Hne Hn]%not_elem_of_cons.
  rewrite amap_cons, lookup_insert_ne by done. auto.
Qed.

Lemma alter_keys k f l : (forall a, key (f a) = key a) -> key <$> alter_first (keyed k) f l = key <$> l.
Proof.
  intros Hf. induction l as [|a l IH]; [done|]. simpl. destruct (keyed k a); rewrite !fmap_cons; [by rewrite Hf|by rewrite IH].
Qed.

Lemma amap_alter k f v l :
  (forall a, key (f a) = key a) -> (forall a, val (f a) = v) -> is_Some (amap l !! k) ->
  amap (alter_first (keyed k) f l) = <[k := v]> (amap l).
Proof.
  intros Hk Hv. induction l as [|a l IH]; [by intros [? ?]|]. rewrite amap_cons. simpl. unfold keyed at 1.
  case_bool_decide as E; intros Hs.
  - subst. by rewrite amap_cons, Hk, Hv, insert_insert_eq.
  - rewrite lookup_insert_ne in Hs by done. by rewrite amap_cons, IH, insert_insert_ne.
Qed.

Lemma remove_keys (P : A -> bool) l : NoDup (key <$> l) -> NoDup (key <$> remove_first P l).
Proof.
  intros ND. eapply sublist_NoDup; [exact ND|]. apply fmap_sublist, remove_first_sublist.
Qed.

Lemma amap_remove k l : NoDup (key <$> l) -> amap (remove_first (keyed k) l) = delete k (amap l).
Proof.
  induction l as [|a l IH]; [intros _; symmetry; apply delete_empty|]. rewrite fmap_cons. intros [Hn ND]%NoDup_cons.
  simpl. unfold keyed at 1.
  case_bool_decide as E.
  - subst. rewrite amap_cons, delete_insert_id; [done|]. by apply amap_notin.
  - by rewrite !amap_cons, IH, delete_insert_ne.
Qed.
End keyed.
