(* ===== verification/Types.v ===== *)
(** * Data model of the portable core

    The constants of eigrp_const.h, eigrp_metric.h and eigrp_packetizer.h and
    the structures of eigrp.h, eigrp_structs.h, eigrp_neighbor.h, eigrp_fsm.h
    and eigrp_rib.h.  A structure is a record with the fields the modelled
    operations read or write; the pointer fields hold an address of the store
    of [State] or [None] for NULL; an integer field is a [Z] that the code
    keeps in the width of its C type. *)

From Stdlib Require Import ZArith Lia.
From stdpp Require Import base gmap list.
From S2P Require Import Prelude.

(** ** Constants (eigrp_const.h, eigrp_metric.h) *)

Definition EIGRP_MAX_METRIC : Z := 0xffffffff.
Definition EIGRP_METRIC_MAX : Z := 0xffffffffffffffff.
Definition EIGRP_BANDWIDTH_MIN : Z := 1.
Definition EIGRP_BANDWIDTH_SCALER : Z := 10000000.
Definition EIGRP_BANDWIDTH_MAX : Z := 0xffffffffffffffff.
Definition EIGRP_DELAY_MIN : Z := 1.
Definition EIGRP_DELAY_PICO : Z := 1000000.
Definition EIGRP_MAX_LOAD : Z := 256.
Definition EIGRP_METRIC_SCALER : Z := 65536.
Definition EIGRP_CLASSIC_MAX : Z := 0xffffffff.
Definition EIGRP_CLASSIC_SCALER : Z := 256.
Definition EIGRP_TLV_32B_VERSION : Z := 1.
Definition EIGRP_TLV_64B_VERSION : Z := 2.
Definition EIGRP_MAX_PATHS_DEFAULT : Z := 4.
Definition EIGRP_MAX_PATHS_MAX : Z := 32.

Definition EIGRP_NEIGHBOR_DOWN : Z := 0.
Definition EIGRP_NEIGHBOR_PENDING : Z := 1.
Definition EIGRP_NEIGHBOR_UP : Z := 2.

Definition EIGRP_TOPOLOGY_TYPE_CONNECTED : Z := 0.
Definition EIGRP_TOPOLOGY_TYPE_REMOTE : Z := 1.
Definition EIGRP_TOPOLOGY_TYPE_REMOTE_EXTERNAL : Z := 2.

Definition EIGRP_ROUTE_DESCRIPTOR_SUCCESSOR_FLAG : Z := Z.shiftl 1 0.
Definition EIGRP_ROUTE_DESCRIPTOR_FSUCCESSOR_FLAG : Z := Z.shiftl 1 1.
Definition EIGRP_ROUTE_DESCRIPTOR_INTABLE_FLAG : Z := Z.shiftl 1 2.

Definition EIGRP_FSM_NEED_UPDATE : Z := 1.
Definition EIGRP_FSM_NEED_QUERY : Z := 2.

Definition EIGRP_OPC_UPDATE : Z := 1.
Definition EIGRP_OPC_REQUEST : Z := 2.
Definition EIGRP_OPC_QUERY : Z := 3.
Definition EIGRP_OPC_REPLY : Z := 4.
Definition EIGRP_OPC_HELLO : Z := 5.
Definition EIGRP_OPC_SIAQUERY : Z := 10.
Definition EIGRP_OPC_SIAREPLY : Z := 11.

Definition EIGRP_TLV_IPv4_INT : Z := Z.lor 0x0100 0x0002.
Definition EIGRP_TLV_IPv4_EXT : Z := Z.lor 0x0100 0x0003.
Definition EIGRP_TLV_IPv6_INT : Z := Z.lor 0x0400 0x0002.
Definition EIGRP_TLV_IPv6_EXT : Z := Z.lor 0x0400 0x0003.
Definition EIGRP_TLV_MP_INT : Z := Z.lor 0x0600 0x0002.
Definition EIGRP_TLV_MP_EXT : Z := Z.lor 0x0600 0x0003.

Definition EIGRP_OPAQUE_SRCWD : Z := 0x01.
Definition EIGRP_OPAQUE_ACTIVE : Z := 0x04.

Definition EIGRP_AFI_IPV4 : Z := 4.
Definition EIGRP_AFI_IPV6 : Z := 6.
(** The socket address families of the Linux ABI. *)
Definition AF_INET : Z := 2.
Definition AF_INET6 : Z := 10.

(** ** Results and enumerations *)

Inductive eigrp_result :=
  | EIGRP_RESULT_SUCCESS
  | EIGRP_RESULT_NOT_IMPLEMENTED
  | EIGRP_RESULT_INVALID_ARGUMENT
  | EIGRP_RESULT_NOT_FOUND
  | EIGRP_RESULT_CONFLICT
  | EIGRP_RESULT_UNSUPPORTED
  | EIGRP_RESULT_INTERNAL_FAILURE.

Inductive metric_change := METRIC_DECREASE | METRIC_SAME | METRIC_INCREASE.

Inductive eigrp_fsm_states :=
  | EIGRP_FSM_STATE_PASSIVE
  | EIGRP_FSM_STATE_ACTIVE_0
  | EIGRP_FSM_STATE_ACTIVE_1
  | EIGRP_FSM_STATE_ACTIVE_2
  | EIGRP_FSM_STATE_ACTIVE_3.

Inductive eigrp_fsm_events :=
  | EIGRP_FSM_EVENT_NQ_FCN
  | EIGRP_FSM_EVENT_LR
  | EIGRP_FSM_EVENT_Q_FCN
  | EIGRP_FSM_EVENT_LR_FCS
  | EIGRP_FSM_EVENT_DINC
  | EIGRP_FSM_EVENT_QACT
  | EIGRP_FSM_EVENT_LR_FCN
  | EIGRP_FSM_KEEP_STATE.

Inductive msg_data_t := EIGRP_CONNECTED | EIGRP_INT | EIGRP_EXT.

(** The enumerator [EIGRP_EXT] read as the integer it is compared with. *)
Definition EIGRP_EXT_code : Z := 2.

Inductive eigrp_rib_route_type := EIGRP_RIB_ROUTE_INTERNAL | EIGRP_RIB_ROUTE_EXTERNAL.

#[export] Instance eigrp_result_eq_dec : EqDecision eigrp_result.
Proof. solve_decision. Defined.
#[export] Instance metric_change_eq_dec : EqDecision metric_change.
Proof. solve_decision. Defined.
#[export] Instance eigrp_fsm_states_eq_dec : EqDecision eigrp_fsm_states.
Proof. solve_decision. Defined.
#[export] Instance eigrp_fsm_events_eq_dec : EqDecision eigrp_fsm_events.
Proof. solve_decision. Defined.
#[export] Instance msg_data_eq_dec : EqDecision msg_data_t.
Proof. solve_decision. Defined.

(** ** Addresses, prefixes and metric vectors (eigrp.h) *)

(** [bytes] has 16 entries. *)
Record eigrp_address := { afi : Z; bytes : list Z }.

Record eigrp_prefix := { address : eigrp_address; prefix_length : Z }.

(** [struct eigrp_addr]: the socket family and the 16 bytes of the union. *)
Record eigrp_addr := { addr_afi : Z; addr_ip : list Z }.

Record eigrp_metrics := {
  delay : Z;
  bandwidth : Z;
  mtu0 : Z; mtu1 : Z; mtu2 : Z;
  hop_count : Z;
  reliability : Z;
  load : Z;
  tag : Z;
  flags : Z;
}.

Record eigrp_extdata := {
  ext_orig : Z;
  ext_as : Z;
  ext_tag : Z;
  ext_metric : Z;
  ext_reserved : Z;
  ext_protocol : Z;
  ext_flags : Z;
}.

#[export] Instance eigrp_address_eq_dec : EqDecision eigrp_address.
Proof. solve_decision. Defined.
#[export] Instance eigrp_prefix_eq_dec : EqDecision eigrp_prefix.
Proof. solve_decision. Defined.
#[export] Instance eigrp_addr_eq_dec : EqDecision eigrp_addr.
Proof. solve_decision. Defined.
#[export] Instance eigrp_metrics_eq_dec : EqDecision eigrp_metrics.
Proof. solve_decision. Defined.
#[export] Instance eigrp_extdata_eq_dec : EqDecision eigrp_extdata.
Proof. solve_decision. Defined.

(** [calloc]ed objects. *)
Definition zero_bytes (n : nat) : list Z := replicate n 0.
Definition zero_address : eigrp_address := {| afi := 0; bytes := zero_bytes 16 |}.
Definition zero_prefix : eigrp_prefix := {| address := zero_address; prefix_length := 0 |}.
Definition zero_addr : eigrp_addr := {| addr_afi := 0; addr_ip := zero_bytes 16 |}.
Definition zero_metrics : eigrp_metrics :=
  {| delay := 0; bandwidth := 0; mtu0 := 0; mtu1 := 0; mtu2 := 0;
     hop_count := 0; reliability := 0; load := 0; tag := 0; flags := 0 |}.
Definition zero_extdata : eigrp_extdata :=
  {| ext_orig := 0; ext_as := 0; ext_tag := 0; ext_metric := 0;
     ext_reserved := 0; ext_protocol := 0; ext_flags := 0 |}.
Definition unreachable_metrics : eigrp_metrics :=
  {| zero_metrics with delay := EIGRP_MAX_METRIC |}.

(** ** Store objects (eigrp_structs.h, eigrp_neighbor.h, eigrp_packetizer.h) *)

Abbreviation ptr := nat (only parsing).

Record eigrp_route_descriptor := {
  rd_type : Z;
  rd_topology_id : Z;
  rd_dest : eigrp_prefix;
  rd_nexthop : eigrp_addr;
  rd_prefix : option ptr;
  rd_adv_router : option ptr;
  rd_reported_metric : eigrp_metrics;
  rd_reported_distance : Z;
  rd_total_metric : eigrp_metrics;
  rd_distance : Z;
  rd_metric : eigrp_metrics;
  rd_extdata : eigrp_extdata;
  rd_flags : Z;
  rd_ei : option ptr;
}.

Record eigrp_reply_status := {
  rs_neighbor : ptr;
  sia_queries : Z;
  sia_response_received : bool;
}.

Record eigrp_prefix_descriptor := {
  table_node : option ptr;
  retirement_queued : bool;
  internal_routes : list ptr;
  external_routes : list ptr;
  rij : list eigrp_reply_status;
  destination : eigrp_prefix;
  reported_metric : eigrp_metrics;
  fdistance : Z;
  rdistance : Z;
  distance : Z;
  nt : Z;
  pd_state : eigrp_fsm_states;
  req_action : Z;
  t_active : option ptr;
  active_eigrp : bool;
  query_origin : option ptr;
  pd_serno : Z;
}.

Record eigrp_nbr := {
  nbr_ei : option ptr;
  nbr_published : bool;
  nbr_state : Z;
  nbr_limit_state : Z;
  af_suspended : bool;
  topo_batch_seen : bool;
  limit_cleanup_pending : bool;
  limit_prefix_count : Z;
  limit_prefix_count_valid : bool;
  nbr_src : eigrp_addr;
}.

Record eigrp_intf := {
  ifindex : Z;
  if_bandwidth : Z;
  if_delay : Z;
  if_reliability : Z;
  if_load : Z;
  if_split_horizon : bool;
  if_nbrs : list ptr;
}.

Record eigrp_packetizer_work := {
  work_opcode : Z;
  work_prefix : option ptr;
  work_route : option ptr;
  work_exception : option ptr;
  work_nbr : option ptr;
  work_flags : Z;
}.

Definition EIGRP_PACKETIZER_WORK_F_OWN_PREFIX : Z := 0x01.
Definition EIGRP_PACKETIZER_WORK_F_OWN_ROUTE : Z := 0x02.
Definition EIGRP_PACKETIZER_WORK_F_DEFER_FREE : Z := 0x04.
Definition EIGRP_PACKETIZER_WORK_F_ROUTE_ACTIVE : Z := 0x08.
Definition EIGRP_PACKETIZER_WORK_F_POISON : Z := 0x10.

(** The host RIB boundary (eigrp_rib.h). *)
Record eigrp_rib_nexthop := {
  nh_ifindex : Z;
  gateway_present : bool;
  gateway : eigrp_address;
  weight : Z;
}.

Record eigrp_rib_route := {
  rib_prefix : eigrp_prefix;
  nexthops : list eigrp_rib_nexthop;
  rib_metric : Z;
  rib_tag : Z;
  admin_dist : Z;
  rib_type : eigrp_rib_route_type;
}.

(** One call across the boundary. *)
Inductive rib_op :=
  | RibAdd (route : eigrp_rib_route)
  | RibDel (prefix : eigrp_prefix).

(** [eigrp_fsm_action_message_t]; the instance it names is the store. *)
Record eigrp_fsm_action_message := {
  packet_type : Z;
  msg_adv_router : option ptr;
  msg_route : option ptr;
  msg_prefix : ptr;
  data_type : msg_data_t;
  msg_metrics : eigrp_metrics;
  change : metric_change;
  transient_route : bool;
}.

(** ** Flag constants as powers of two, for [has_flag] *)

Lemma successor_flag_pow : EIGRP_ROUTE_DESCRIPTOR_SUCCESSOR_FLAG = 2 ^ 0.
Proof. done. Qed.
Lemma fsuccessor_flag_pow : EIGRP_ROUTE_DESCRIPTOR_FSUCCESSOR_FLAG = 2 ^ 1.
Proof. done. Qed.
Lemma intable_flag_pow : EIGRP_ROUTE_DESCRIPTOR_INTABLE_FLAG = 2 ^ 2.
Proof. done. Qed.
Lemma need_update_pow : EIGRP_FSM_NEED_UPDATE = 2 ^ 0.
Proof. done. Qed.
Lemma need_query_pow : EIGRP_FSM_NEED_QUERY = 2 ^ 1.
Proof. done. Qed.
