(* ===== verification/Metric.v ===== *)
(** * Composite metric (eigrp_metric.c)

    The scaling of bandwidth and delay, the RFC 7868 composite distance and the
    accumulation of a neighbor's vector over the inbound link.  [uint64_t]
    arithmetic wraps ([u64]); a division by zero is [None]. *)

From Stdlib Require Import ZArith Lia.
From stdpp Require Import base gmap list.
From S2P Require Import Prelude Types.

(** The metric parameters an instance keeps ([k_values], [metric_version],
    [max_hops] of [struct eigrp_instance]). *)
Record metric_params := {
  k1 : Z; k2 : Z; k3 : Z; k4 : Z; k5 : Z; k6 : Z;
  metric_version : Z;
  max_hops : Z;
}.

Definition eigrp_bandwidth_to_scaled (bandwidth : Z) : option Z :=
  scaled ← (if bandwidth =? EIGRP_BANDWIDTH_MAX then Some EIGRP_BANDWIDTH_MAX
            else if bandwidth =? 0 then None
            else let scaled := EIGRP_CLASSIC_SCALER * EIGRP_BANDWIDTH_SCALER / bandwidth in
                 Some (if scaled =? 0 then EIGRP_BANDWIDTH_MIN else scaled));
  let scaled := if scaled <? EIGRP_METRIC_MAX then scaled else EIGRP_METRIC_MAX in
  Some (u32 scaled).

Definition eigrp_scaled_to_bandwidth (scaled : Z) : Z :=
  if scaled =? EIGRP_CLASSIC_MAX then EIGRP_BANDWIDTH_MAX
  else
    let bandwidth := EIGRP_CLASSIC_SCALER * EIGRP_BANDWIDTH_SCALER in
    let bandwidth := u64 (scaled * bandwidth) in
    if bandwidth <? EIGRP_METRIC_MAX then bandwidth else EIGRP_BANDWIDTH_MAX.

Definition eigrp_delay_to_scaled (delay : Z) : Z :=
  let delay := if delay =? 0 then EIGRP_DELAY_MIN else delay in
  u32 (u64 (delay * EIGRP_CLASSIC_SCALER)).

Definition eigrp_scaled_to_delay (scaled : Z) : Z :=
  let scaled := scaled / EIGRP_CLASSIC_SCALER in
  if scaled =? 0 then EIGRP_DELAY_MIN else scaled.

Definition eigrp_metric_calculate (eigrp : metric_params) (metric : eigrp_metrics) : Z :=
  if delay metric =? EIGRP_METRIC_MAX then EIGRP_METRIC_MAX
  else if delay metric =? EIGRP_MAX_METRIC then EIGRP_MAX_METRIC
  else
    let scale :=
      if EIGRP_TLV_64B_VERSION <=? metric_version eigrp
      then EIGRP_METRIC_SCALER / EIGRP_CLASSIC_SCALER else 1 in
    let throughput :=
      if k1 eigrp =? 0 then 0 else u64 (u64 (k1 eigrp * bandwidth metric) * scale) in
    let throughput :=
      if k2 eigrp =? 0 then throughput
      else u64 (throughput + u64 (u64 (k2 eigrp * bandwidth metric) * scale)
                             / (EIGRP_MAX_LOAD - load metric)) in
    let latency :=
      if k3 eigrp =? 0 then 0 else u64 (u64 (k3 eigrp * delay metric) * scale) in
    let composite := u64 (throughput + latency) in
    let denominator := u64 (reliability metric + k4 eigrp) in
    if negb (k5 eigrp =? 0) && (denominator =? 0) then EIGRP_METRIC_MAX
    else
      let composite :=
        if k5 eigrp =? 0 then composite else u64 (composite * k5 eigrp) / denominator in
      if (metric_version eigrp <? EIGRP_TLV_64B_VERSION) && (EIGRP_CLASSIC_MAX <? composite)
      then EIGRP_CLASSIC_MAX
      else if EIGRP_METRIC_MAX <? composite then EIGRP_METRIC_MAX else composite.

(** [eigrp_metric_total_calculate]: the accumulated vector written to
    [entry->total_metric] and the distance returned, from the neighbor's vector
    and the parameters of the inbound interface ([None] when [entry->ei] is
    NULL). *)
Definition eigrp_metric_total_calculate (eigrp : metric_params) (ei : option eigrp_intf)
    (reported : eigrp_metrics) : option (eigrp_metrics * Z) :=
  if delay reported =? EIGRP_MAX_METRIC then
    Some ({| reported with delay := EIGRP_MAX_METRIC |}, EIGRP_MAX_METRIC)
  else if delay reported =? EIGRP_METRIC_MAX then
    Some ({| reported with delay := EIGRP_METRIC_MAX |}, EIGRP_METRIC_MAX)
  else
    ei ← ei;
    let link_delay := eigrp_delay_to_scaled (if_delay ei) in
    let total :=
      {| reported with delay :=
           if EIGRP_METRIC_MAX - link_delay <=? delay reported
           then EIGRP_METRIC_MAX else delay reported + link_delay |} in
    let total :=
      if hop_count total =? UINT8_MAX then {| total with delay := EIGRP_METRIC_MAX |}
      else {| total with hop_count := hop_count total + 1 |} in
    let total :=
      if max_hops eigrp <? hop_count total
      then {| total with delay := EIGRP_METRIC_MAX |} else total in
    bw ← eigrp_bandwidth_to_scaled (if_bandwidth ei);
    let total :=
      {| total with bandwidth :=
           if bandwidth total <? bw then bw else bandwidth total |} in
    Some (total, eigrp_metric_calculate eigrp total).

Definition eigrp_metrics_match (metric1 metric2 : eigrp_metrics) : bool :=
  (bandwidth metric1 =? bandwidth metric2)
  && (delay metric1 =? delay metric2)
  && (hop_count metric1 =? hop_count metric2)
  && (load metric1 =? load metric2)
  && (reliability metric1 =? reliability metric2)
  && (mtu0 metric1 =? mtu0 metric2)
  && (mtu1 metric1 =? mtu1 metric2)
  && (mtu2 metric1 =? mtu2 metric2).

Record eigrp_metric_values := {
  val_bandwidth : Z; val_delay : Z; val_reliability : Z; val_load : Z; val_mtu : Z;
}.

Definition eigrp_metric_values_convert (values : eigrp_metric_values) : option eigrp_metrics :=
  bw ← eigrp_bandwidth_to_scaled (val_bandwidth values);
  Some {| zero_metrics with
          bandwidth := bw; delay := val_delay values;
          reliability := val_reliability values; load := val_load values;
          mtu0 := val_mtu values .& 0xff;
          mtu1 := (val_mtu values .>> 8) .& 0xff |}.

Definition eigrp_topology_redistributed_distance (eigrp : metric_params)
    (metric : eigrp_metrics) : Z :=
  if delay metric =? EIGRP_MAX_METRIC then EIGRP_MAX_METRIC
  else
    let calculation := {| metric with delay := eigrp_delay_to_scaled (delay metric) |} in
    let distance := eigrp_metric_calculate eigrp calculation in
    if EIGRP_MAX_METRIC <? distance then EIGRP_MAX_METRIC else distance.

(** ** Ranges of the fields *)

Definition u64_range_ (z : Z) : Prop := 0 <= z < 2 ^ 64.

Record metric_params_wf (p : metric_params) : Prop := {
  wf_k1 : byte (k1 p); wf_k2 : byte (k2 p); wf_k3 : byte (k3 p);
  wf_k4 : byte (k4 p); wf_k5 : byte (k5 p); wf_k6 : byte (k6 p);
  wf_version : byte (metric_version p);
  wf_hops : byte (max_hops p);
}.

Record metrics_wf (m : eigrp_metrics) : Prop := {
  wf_delay : 0 <= delay m < 2 ^ 64;
  wf_bandwidth : 0 <= bandwidth m < 2 ^ 64;
  wf_load : byte (load m);
  wf_reliability : byte (reliability m);
  wf_hop_count : byte (hop_count m);
}.

(** A vector the classic TLV can carry: both scaled components fit 32 bits. *)
Record classic_vector (m : eigrp_metrics) : Prop := {
  cv_wf : metrics_wf m;
  cv_delay : delay m < 2 ^ 32;
  cv_bandwidth : bandwidth m < 2 ^ 32;
}.
