(* ===== verification/Prefix.v ===== *)
(** * Prefixes (eigrp_prefix.c)

    Validity, host-bit masking and address match of an IPv4 or IPv6 prefix held
    in the 16 bytes of [eigrp_address_t], and their agreement with the bitwise
    meaning of a prefix. *)

From Stdlib Require Import ZArith Lia.
From stdpp Require Import base gmap list.
From S2P Require Import Prelude Types.

Definition eigrp_prefix_address_bytes (afi : Z) : nat :=
  if afi =? EIGRP_AFI_IPV4 then 4 else if afi =? EIGRP_AFI_IPV6 then 16 else 0.

Definition eigrp_prefix_valid (prefix : eigrp_prefix) : bool :=
  if afi (address prefix) =? EIGRP_AFI_IPV4 then prefix_length prefix <=? 32
  else if afi (address prefix) =? EIGRP_AFI_IPV6 then prefix_length prefix <=? 128
  else false.

(** [(uint8_t)(0xffU << (8U - remaining_bits))] *)
Definition prefix_mask (remaining_bits : Z) : Z := u8 (0xff .<< (8 - remaining_bits)).

(** [memset(bytes + i, 0, n)] *)
Definition zero_from (i n : nat) (l : list Z) : list Z :=
  take i l ++ replicate (n `min` (length l - i)) 0 ++ drop (i + n) l.

Definition eigrp_prefix_normalize (prefix : eigrp_prefix) : eigrp_prefix :=
  if negb (eigrp_prefix_valid prefix) then prefix
  else
    let address_bytes := eigrp_prefix_address_bytes (afi (address prefix)) in
    let full_bytes := Z.to_nat (prefix_length prefix / 8) in
    let remaining_bits := prefix_length prefix mod 8 in
    let b := bytes (address prefix) in
    let '(b, full_bytes) :=
      if negb (remaining_bits =? 0) && (full_bytes <? address_bytes)%nat
      then (alter (fun x => x .& prefix_mask remaining_bits) full_bytes b, S full_bytes)
      else (b, full_bytes) in
    let b := if (full_bytes <? address_bytes)%nat
             then zero_from full_bytes (address_bytes - full_bytes) b else b in
    let b := if (address_bytes <? 16)%nat
             then zero_from address_bytes (16 - address_bytes) b else b in
    {| prefix with address := {| afi := afi (address prefix); bytes := b |} |}.

Definition bytes_eqb (n : nat) (a b : list Z) : bool :=
  bool_decide (take n a = take n b).

(** A read of [bytes[i]] of a 16-byte array. *)
Definition byte_at (l : list Z) (i : nat) : Z := default 0 (l !! i).

Definition eigrp_prefix_address_match (prefix : eigrp_prefix) (addr : eigrp_address) : bool :=
  if negb (eigrp_prefix_valid prefix) || negb (afi (address prefix) =? afi addr) then false
  else
    let address_bytes := eigrp_prefix_address_bytes (afi (address prefix)) in
    let full_bytes := Z.to_nat (prefix_length prefix / 8) in
    let remaining_bits := prefix_length prefix mod 8 in
    if negb (full_bytes =? 0)%nat && negb (bytes_eqb full_bytes (bytes (address prefix)) (bytes addr))
    then false
    else if remaining_bits =? 0 then true
    else if (address_bytes <=? full_bytes)%nat then false
    else
      let mask := prefix_mask remaining_bits in
      byte_at (bytes (address prefix)) full_bytes .& mask
        =? byte_at (bytes addr) full_bytes .& mask.

(** [eigrp_table_prefix_match] (eigrp_table.c): the identity of a table key. *)
Definition eigrp_table_prefix_match (a b : eigrp_prefix) : bool :=
  (afi (address a) =? afi (address b))
  && (prefix_length a =? prefix_length b)
  && bytes_eqb (if afi (address a) =? EIGRP_AFI_IPV4 then 4 else 16)
       (bytes (address a)) (bytes (address b)).

(** [eigrp_topology_table_key] (eigrp_topology.c). *)
Definition eigrp_topology_table_key (source : eigrp_prefix) : option eigrp_prefix :=
  if eigrp_prefix_valid source then Some (eigrp_prefix_normalize source) else None.
