(* ===== verification/State.v ===== *)
(** * The store of one address-family instance

    [struct eigrp_instance] with the objects its pointers reach.  Addresses are
    natural numbers; [calloc] returns a fresh one, [free] removes the object,
    and every field access of an address that holds no object is undefined
    behaviour ([ub]).  The heap lists [eigrp_list_t] are the lists of the
    addresses they link; the topology table is the list of its nodes in
    insertion order.

    The environment answers through two lists of the store: [mem] holds the
    answers of the next allocations (success once it is exhausted) and
    [rib_answers] those of the next host RIB insertions.  The host RIB calls
    are recorded in [rib_log].  Event-log records and debug lines are not part
    of the store: the code writes them and never reads them back. *)

From Stdlib Require Import ZArith Lia.
From stdpp Require Import base gmap list.
From S2P Require Import Prelude Types Metric.

Record topology_node := { tn_prefix : eigrp_prefix; tn_info : option ptr }.

(** A pending timer; [te_owner] is the prefix whose [t_active] owns it. *)
Record eigrp_timer_event := { te_id : ptr; te_owner : ptr; te_due_msec : Z }.

Record eigrp_instance := {
  params : metric_params;
  variance : Z;
  traffic_share_balanced : bool;
  max_paths : Z;
  distance_internal : Z;
  distance_external : Z;
  shutdown : bool;
  thread_running : bool;
  router_id : Z;
  vrid : Z;
  classic_external_tlv_type : Z;
  active_time_configured : option Z;
  neighbor_self : option ptr;
  eiflist : list ptr;
  topology_changes : list ptr;
  topology_changes_indexed : bool;
  topology_table : list ptr;
  serno : Z;
  redist_prefix_count : Z;
  packetizer_queue : list eigrp_packetizer_work;
  timer_head : list eigrp_timer_event;
  routes : gmap ptr eigrp_route_descriptor;
  prefixes : gmap ptr eigrp_prefix_descriptor;
  nbrs : gmap ptr eigrp_nbr;
  intfs : gmap ptr eigrp_intf;
  table_nodes : gmap ptr topology_node;
  next_addr : ptr;
  mem : list bool;
  rib_answers : list eigrp_result;
  rib_log : list rib_op;
  clock_msec : Z;
}.

Abbreviation St := (M eigrp_instance).

(** ** Memory *)

Definition calloc : St bool := fun s =>
  match mem s with
  | [] => Some (true, s)
  | b :: m => Some (b, {| s with mem := m |})
  end.

Definition fresh : St ptr := fun s =>
  Some (next_addr s, {| s with next_addr := S (next_addr s) |}).

Definition get_route (r : ptr) : St eigrp_route_descriptor :=
  o ← gets (fun s => routes s !! r); nonnull o.
Definition get_prefix (p : ptr) : St eigrp_prefix_descriptor :=
  o ← gets (fun s => prefixes s !! p); nonnull o.
Definition get_nbr (n : ptr) : St eigrp_nbr :=
  o ← gets (fun s => nbrs s !! n); nonnull o.
Definition get_intf (i : ptr) : St eigrp_intf :=
  o ← gets (fun s => intfs s !! i); nonnull o.
Definition get_tnode (t : ptr) : St topology_node :=
  o ← gets (fun s => table_nodes s !! t); nonnull o.

Definition put_route (r : ptr) (d : eigrp_route_descriptor) : St unit :=
  modify (fun s => {| s with routes := <[r := d]> (routes s) |}).
Definition put_prefix (p : ptr) (d : eigrp_prefix_descriptor) : St unit :=
  modify (fun s => {| s with prefixes := <[p := d]> (prefixes s) |}).
Definition put_nbr (n : ptr) (d : eigrp_nbr) : St unit :=
  modify (fun s => {| s with nbrs := <[n := d]> (nbrs s) |}).
Definition put_tnode (t : ptr) (d : topology_node) : St unit :=
  modify (fun s => {| s with table_nodes := <[t := d]> (table_nodes s) |}).

(** Assignment to fields of a live object. *)
Definition upd_route (r : ptr) (f : eigrp_route_descriptor -> eigrp_route_descriptor) : St unit :=
  d ← get_route r; put_route r (f d).
Definition upd_prefix (p : ptr) (f : eigrp_prefix_descriptor -> eigrp_prefix_descriptor) : St unit :=
  d ← get_prefix p; put_prefix p (f d).
Definition upd_nbr (n : ptr) (f : eigrp_nbr -> eigrp_nbr) : St unit :=
  d ← get_nbr n; put_nbr n (f d).
Definition upd_tnode (t : ptr) (f : topology_node -> topology_node) : St unit :=
  d ← get_tnode t; put_tnode t (f d).

Definition free_route (r : ptr) : St unit :=
  modify (fun s => {| s with routes := delete r (routes s) |}).
Definition free_prefix (p : ptr) : St unit :=
  modify (fun s => {| s with prefixes := delete p (prefixes s) |}).
Definition free_tnode (t : ptr) : St unit :=
  modify (fun s => {| s with table_nodes := delete t (table_nodes s) |}).

(** ** The host RIB boundary *)

Definition eigrp_rib_route_add (route : eigrp_rib_route) : St eigrp_result := fun s =>
  let s := {| s with rib_log := rib_log s ++ [RibAdd route] |} in
  match rib_answers s with
  | [] => Some (EIGRP_RESULT_SUCCESS, s)
  | a :: l => Some (a, {| s with rib_answers := l |})
  end.

(** The result of a withdrawal only reaches the event log. *)
Definition eigrp_rib_route_del (prefix : eigrp_prefix) : St unit :=
  modify (fun s => {| s with rib_log := rib_log s ++ [RibDel prefix] |}).

(** ** The pending-change list *)

(** [eigrp_list_add(eigrp->topology_changes, prefix)]: a failed allocation of
    the list item loses the entry. *)
Definition topology_changes_add (p : ptr) : St unit :=
  ok ← calloc;
  when ok (modify (fun s => {| s with topology_changes := topology_changes s ++ [p] |})).

(** The list carries a pointer index whose buckets are filled at the head, so a
    lookup finds the last entry of an indexed list and the first of any other. *)
Definition remove_last {A} (P : A -> bool) (l : list A) : list A :=
  rev (remove_first P (rev l)).

Definition topology_changes_delete_data (p : ptr) : St unit :=
  modify (fun s => {| s with topology_changes :=
    (if topology_changes_indexed s then remove_last else remove_first)
      (Nat.eqb p) (topology_changes s) |}).

(** ** Timers (eigrp_timer.c) *)

Definition eigrp_timer_active_time_seconds : St Z :=
  gets (fun s => match active_time_configured s with None => 180 | Some t => t end).

(** [eigrp_timer_cancel(prefix->active_eigrp, &prefix->t_active)]: nothing
    happens when the prefix names no instance. *)
Definition eigrp_timer_cancel_active (p : ptr) : St unit :=
  d ← get_prefix p;
  if active_eigrp d then
    match t_active d with
    | None => mret tt
    | Some e =>
        put_prefix p {| d with t_active := None |};;
        modify (fun s => {| s with timer_head :=
          remove_first (fun ev => Nat.eqb (te_id ev) e) (timer_head s) |})
    end
  else mret tt.

(** [eigrp_timer_add] for the ACTIVE timer of prefix [p]; the caller has set
    [active_eigrp]. *)
Definition eigrp_timer_add_active (p : ptr) (delay_msec : Z) : St unit :=
  d ← get_prefix p;
  (match t_active d with
   | None => mret tt
   | Some e =>
       put_prefix p {| d with t_active := None |};;
       modify (fun s => {| s with timer_head :=
         remove_first (fun ev => Nat.eqb (te_id ev) e) (timer_head s) |})
   end);;
  ok ← calloc;
  if ok : bool then
    e ← fresh;
    now ← gets clock_msec;
    s ← get;
    if shutdown s || negb (thread_running s) then mret tt
    else
      modify (fun s => {| s with timer_head :=
        insert_by te_due_msec {| te_id := e; te_owner := p; te_due_msec := u64 (now + delay_msec) |}
          (timer_head s) |});;
      upd_prefix p (fun d => {| d with t_active := Some e |})
  else mret tt.

(** ** The packetizer work queue (eigrp_packetizer.c) *)

Definition eigrp_packetizer_opcode_valid (opcode : Z) : bool :=
  (opcode =? EIGRP_OPC_UPDATE) || (opcode =? EIGRP_OPC_QUERY)
  || (opcode =? EIGRP_OPC_REPLY) || (opcode =? EIGRP_OPC_SIAQUERY)
  || (opcode =? EIGRP_OPC_SIAREPLY).

(** The created item is dereferenced at once. *)
Definition eigrp_packetizer_work_create (opcode : Z) : St eigrp_packetizer_work :=
  ok ← calloc;
  if ok : bool then
    mret {| work_opcode := opcode; work_prefix := None; work_route := None;
            work_exception := None; work_nbr := None; work_flags := 0 |}
  else ub.

(** [eigrp_topology_prefix_free]: the routes of both queues, the timer, the
    reply list and the descriptor. *)
Definition eigrp_topology_prefix_free (p : option ptr) : St unit :=
  match p with
  | None => mret tt
  | Some p =>
      d ← get_prefix p;
      mfor (internal_routes d) free_route;;
      mfor (external_routes d) free_route;;
      eigrp_timer_cancel_active p;;
      free_prefix p
  end.

Definition eigrp_packetizer_work_free (work : eigrp_packetizer_work) : St unit :=
  (if work_flags work .? EIGRP_PACKETIZER_WORK_F_OWN_ROUTE then
     match work_route work with Some r => free_route r | None => mret tt end
   else mret tt);;
  (if work_flags work .? EIGRP_PACKETIZER_WORK_F_OWN_PREFIX then
     eigrp_topology_prefix_free (work_prefix work)
   else mret tt).

Definition eigrp_packetizer_enqueue (work : eigrp_packetizer_work) : St unit :=
  if negb (eigrp_packetizer_opcode_valid (work_opcode work)) then
    eigrp_packetizer_work_free work
  else
    s ← get;
    if shutdown s || negb (thread_running s) then eigrp_packetizer_work_free work
    else modify (fun s => {| s with packetizer_queue := packetizer_queue s ++ [work] |}).

Definition eigrp_packetizer_prefix_defer_free (p : ptr) : St unit :=
  work ← eigrp_packetizer_work_create EIGRP_OPC_UPDATE;
  eigrp_packetizer_enqueue
    {| work with work_prefix := Some p;
       work_flags := Z.lor EIGRP_PACKETIZER_WORK_F_OWN_PREFIX
                           EIGRP_PACKETIZER_WORK_F_DEFER_FREE |}.

(** ** The packet producers DUAL calls *)

(** [eigrp_update_send_all] (eigrp_update.c). *)
Definition eigrp_update_send_all (exception : option ptr) : St unit :=
  work ← eigrp_packetizer_work_create EIGRP_OPC_UPDATE;
  eigrp_packetizer_enqueue {| work with work_exception := exception |}.

(** [eigrp_reply_send_route], [eigrp_reply_send] (eigrp_reply.c). *)
Definition eigrp_reply_send_route (nbr : option ptr) (prefix : ptr) (route : option ptr)
    (wflags : Z) : St unit :=
  match nbr with
  | None => mret tt
  | Some n =>
      _ ← get_nbr n;
      work ← eigrp_packetizer_work_create EIGRP_OPC_REPLY;
      eigrp_packetizer_enqueue
        {| work with work_nbr := Some n; work_prefix := Some prefix;
           work_route := route; work_flags := wflags |}
  end.

Definition eigrp_reply_send (nbr : option ptr) (prefix : ptr) : St unit :=
  eigrp_reply_send_route nbr prefix None 0.

(** [eigrp_query_send_route], [eigrp_query_send_all] (eigrp_query.c). *)
Definition eigrp_query_send_route (prefix : ptr) (route : option ptr) (wflags : Z) : St unit :=
  work ← eigrp_packetizer_work_create EIGRP_OPC_QUERY;
  eigrp_packetizer_enqueue
    {| work with work_prefix := Some prefix; work_route := route; work_flags := wflags |}.

Fixpoint count_pending (action : Z) (l : list ptr) : St Z :=
  match l with
  | [] => mret 0
  | p :: l' =>
      d ← get_prefix p;
      n ← count_pending action l';
      mret (if req_action d .? action then u32 (n + 1) else n)
  end.

Definition eigrp_query_send_all : St Z :=
  changes ← gets topology_changes;
  counter ← count_pending EIGRP_FSM_NEED_QUERY changes;
  if counter =? 0 then mret 0
  else
    work ← eigrp_packetizer_work_create EIGRP_OPC_QUERY;
    eigrp_packetizer_enqueue work;;
    mret counter.

(** [eigrp_siaquery_send] (eigrp_siaquery.c), [eigrp_siareply_send]
    (eigrp_siareply.c). *)
Definition eigrp_siaquery_send (nbr : option ptr) (prefix : ptr) : St unit :=
  work ← eigrp_packetizer_work_create EIGRP_OPC_SIAQUERY;
  eigrp_packetizer_enqueue {| work with work_nbr := nbr; work_prefix := Some prefix |}.

Definition eigrp_siareply_send (nbr : option ptr) (prefix : ptr) (active : bool) : St unit :=
  work ← eigrp_packetizer_work_create EIGRP_OPC_SIAREPLY;
  eigrp_packetizer_enqueue
    {| work with work_nbr := nbr; work_prefix := Some prefix;
       work_flags := if active then Z.lor (work_flags work) EIGRP_PACKETIZER_WORK_F_ROUTE_ACTIVE
                     else work_flags work |}.

(** ** Neighbor count (eigrp_neighbor.c) *)

Fixpoint count_up (l : list ptr) : St Z :=
  match l with
  | [] => mret 0
  | n :: l' =>
      d ← get_nbr n;
      c ← count_up l';
      mret (if nbr_state d =? EIGRP_NEIGHBOR_UP then u32 (c + 1) else c)
  end.

Fixpoint count_up_intfs (l : list ptr) : St Z :=
  match l with
  | [] => mret 0
  | i :: l' =>
      d ← get_intf i;
      c1 ← count_up (if_nbrs d);
      c2 ← count_up_intfs l';
      mret (u32 (c1 + c2))
  end.

Definition eigrp_nbr_count : St Z := eifs ← gets eiflist; count_up_intfs eifs.
