(* ===== verification/Topology.v ===== *)
(** * Topology table operations (eigrp_topology.c)

    Route and prefix descriptors, the two distance-ordered route queues of a
    destination, the FC-aware selector, the successor marking, the host RIB
    refresh and the distance update DUAL runs on every event.  Each definition
    is the C function of the same name on the store of [State]. *)

From Stdlib Require Import ZArith Lia.
From stdpp Require Import base gmap list.
From S2P Require Import Prelude Types Metric Prefix State.

(** ** Descriptors *)

Definition new_route (ei : option ptr) : eigrp_route_descriptor :=
  {| rd_type := 0; rd_topology_id := 0; rd_dest := zero_prefix; rd_nexthop := zero_addr;
     rd_prefix := None; rd_adv_router := None;
     rd_reported_metric := zero_metrics; rd_reported_distance := EIGRP_MAX_METRIC;
     rd_total_metric := zero_metrics; rd_distance := EIGRP_MAX_METRIC;
     rd_metric := zero_metrics; rd_extdata := zero_extdata; rd_flags := 0; rd_ei := ei |}.

(** The result of [calloc] is dereferenced without a test. *)
Definition eigrp_topology_route_create (intf : option ptr) : St ptr :=
  ok ← calloc;
  if ok : bool then r ← fresh; put_route r (new_route intf);; mret r else ub.

Definition new_prefix : eigrp_prefix_descriptor :=
  {| table_node := None; retirement_queued := false;
     internal_routes := []; external_routes := []; rij := [];
     destination := zero_prefix; reported_metric := zero_metrics;
     fdistance := EIGRP_MAX_METRIC; rdistance := EIGRP_MAX_METRIC;
     distance := EIGRP_MAX_METRIC;
     nt := 0; pd_state := EIGRP_FSM_STATE_PASSIVE; req_action := 0;
     t_active := None; active_eigrp := false; query_origin := None; pd_serno := 0 |}.

(** Four allocations (descriptor and three lists), none of them tested. *)
Definition eigrp_topology_prefix_create : St ptr :=
  ok1 ← calloc; ok2 ← calloc; ok3 ← calloc; ok4 ← calloc;
  if ok1 && ok2 && ok3 && ok4 then
    p ← fresh; put_prefix p new_prefix;; mret p
  else ub.

Definition eigrp_topology_route_external (route : eigrp_route_descriptor) : bool :=
  (rd_type route =? EIGRP_EXT_code)
  || (rd_type route =? EIGRP_TLV_IPv4_EXT)
  || (rd_type route =? EIGRP_TLV_IPv6_EXT)
  || (rd_type route =? EIGRP_TLV_MP_EXT).

(** [eigrp_topology_route_iterator_first]/[_next]: internal queue, then external. *)
Definition topology_routes (prefix : eigrp_prefix_descriptor) : list ptr :=
  internal_routes prefix ++ external_routes prefix.

Definition queue_of (external : bool) (prefix : eigrp_prefix_descriptor) : list ptr :=
  if external then external_routes prefix else internal_routes prefix.

Definition set_queue (external : bool) (l : list ptr) (prefix : eigrp_prefix_descriptor)
    : eigrp_prefix_descriptor :=
  if external then {| prefix with external_routes := l |}
  else {| prefix with internal_routes := l |}.

(** [eigrp_topology_route_class_queue]: which of the two queues. *)
Definition eigrp_topology_route_class_queue (r : ptr) : St bool :=
  route ← get_route r; mret (eigrp_topology_route_external route).

Definition reachable (route : eigrp_route_descriptor) : bool :=
  negb (rd_distance route =? EIGRP_MAX_METRIC).

Definition eigrp_topology_route_read (p : ptr) : St (option ptr) :=
  prefix ← get_prefix p;
  found ← mfind (topology_routes prefix) (fun r => route ← get_route r; mret (reachable route));
  match found with
  | Some r => mret (Some r)
  | None => mret (head (topology_routes prefix))
  end.

(** The feasibility test of the selector. *)
Definition satisfies_fc (fd : Z) (route : eigrp_route_descriptor) : bool :=
  reachable route && (rd_reported_distance route <? fd).

Definition eigrp_topology_route_select (p : ptr) : St (option ptr) :=
  prefix ← get_prefix p;
  mfind (topology_routes prefix)
    (fun r => route ← get_route r; mret (satisfies_fc (fdistance prefix) route)).

(** ** Queues *)

Definition opt_ptr_eqb (a b : option ptr) : bool := bool_decide (a = b).

Definition eigrp_prefix_descriptor_lookup (p : ptr) (nbr : option ptr) : St (option ptr) :=
  prefix ← get_prefix p;
  mfind (topology_routes prefix)
    (fun r => route ← get_route r; mret (opt_ptr_eqb (rd_adv_router route) nbr)).

Definition eigrp_topology_redist_present (p : ptr) : St bool :=
  prefix ← get_prefix p;
  self ← gets neighbor_self;
  match self with
  | None => mret false
  | Some _ =>
      found ← mfind (external_routes prefix)
        (fun r => route ← get_route r;
                  mret (opt_ptr_eqb (rd_adv_router route) self && negb (bool_decide (is_Some (rd_ei route)))));
      mret (bool_decide (is_Some found))
  end.

(** [eigrp_list_insert] with [eigrp_route_descriptor_cmp]: before the first
    element whose distance is greater. *)
Fixpoint route_list_insert (r : ptr) (d : Z) (l : list ptr) : St (list ptr) :=
  match l with
  | [] => mret [r]
  | y :: l' =>
      route ← get_route y;
      if d <? rd_distance route then mret (r :: y :: l')
      else l'' ← route_list_insert r d l'; mret (y :: l'')
  end.

Definition eigrp_topology_route_insert (p r : ptr) (first_peer_path : bool) : St bool :=
  ext ← eigrp_topology_route_class_queue r;
  route ← get_route r;
  prefix ← get_prefix p;
  l ← route_list_insert r (rd_distance route) (queue_of ext prefix);
  ok ← calloc;
  if negb ok then mret false
  else
    put_prefix p (set_queue ext l prefix);;
    self ← gets neighbor_self;
    (if first_peer_path && negb (opt_ptr_eqb (rd_adv_router route) self) then
       match rd_adv_router route with
       | Some n =>
           nbr ← get_nbr n;
           when (limit_prefix_count_valid nbr)
             (put_nbr n {| nbr with limit_prefix_count := u32 (limit_prefix_count nbr + 1) |})
       | None => mret tt
       end
     else mret tt);;
    mret true.

(** ** Host RIB next hops *)

Definition v4_of (a : eigrp_addr) : list Z := take 4 (addr_ip a).
Definition all_zero (l : list Z) : bool := forallb (Z.eqb 0) l.

Definition eigrp_topology_southbound_nexthop (r : ptr) : St (option eigrp_rib_nexthop) :=
  route ← get_route r;
  match rd_ei route with
  | None => mret None
  | Some i =>
      ei ← get_intf i;
      let base := {| nh_ifindex := ifindex ei; gateway_present := false;
                     gateway := zero_address; weight := 0 |} in
      match rd_adv_router route with
      | None => mret (Some base)
      | Some n =>
          nbr ← get_nbr n;
          let src := nbr_src nbr in
          if (addr_afi src =? AF_INET) && negb (all_zero (v4_of src)) then
            mret (Some {| base with gateway_present := true;
                          gateway := {| afi := EIGRP_AFI_IPV4;
                                        bytes := v4_of src ++ zero_bytes 12 |} |})
          else if (addr_afi src =? AF_INET6) && negb (all_zero (addr_ip src)) then
            mret (Some {| base with gateway_present := true;
                          gateway := {| afi := EIGRP_AFI_IPV6; bytes := addr_ip src |} |})
          else mret (Some base)
      end
  end.

Fixpoint largest_metric (l : list ptr) (acc : Z) : St Z :=
  match l with
  | [] => mret acc
  | r :: l' =>
      route ← get_route r;
      largest_metric l'
        (if reachable route && (acc <? rd_distance route) then rd_distance route else acc)
  end.

Fixpoint southbound_nexthops_loop (balanced : bool) (largest : Z) (l : list ptr)
    (capacity : nat) : St (list eigrp_rib_nexthop) :=
  match l, capacity with
  | [], _ | _, O => mret []
  | r :: l', S capacity' =>
      nh ← eigrp_topology_southbound_nexthop r;
      match nh with
      | None => southbound_nexthops_loop balanced largest l' capacity
      | Some nh =>
          route ← get_route r;
          let nh :=
            if balanced && negb (largest =? 0) && negb (rd_distance route =? 0) && reachable route
            then let w := largest / rd_distance route in
                 {| nh with weight := if w =? 0 then 1 else w |}
            else nh in
          rest ← southbound_nexthops_loop balanced largest l' capacity';
          mret (nh :: rest)
      end
  end.

Definition eigrp_topology_southbound_nexthops (l : list ptr) (capacity : nat)
    : St (list eigrp_rib_nexthop) :=
  balanced ← gets traffic_share_balanced;
  largest ← (if balanced : bool then largest_metric l 0 else mret 0);
  southbound_nexthops_loop balanced largest l capacity.

(** ** Adding and deleting route descriptors *)

Definition in_queue (r : ptr) (l : list ptr) : bool := bool_decide (r ∈ l).

Definition rib_class (external : bool) : eigrp_rib_route_type :=
  if external then EIGRP_RIB_ROUTE_EXTERNAL else EIGRP_RIB_ROUTE_INTERNAL.

Definition eigrp_route_descriptor_add (p r : ptr) : St unit :=
  ext ← eigrp_topology_route_class_queue r;
  prefix ← get_prefix p;
  if in_queue r (queue_of ext prefix) then mret tt
  else
    route ← get_route r;
    self ← gets neighbor_self;
    known ← (if bool_decide (is_Some (rd_adv_router route))
             then eigrp_prefix_descriptor_lookup p (rd_adv_router route) else mret None);
    let first_peer_path := bool_decide (is_Some (rd_adv_router route))
                           && negb (bool_decide (is_Some known)) in
    let local := opt_ptr_eqb (rd_adv_router route) self
                 && negb (bool_decide (is_Some (rd_ei route)))
                 && eigrp_topology_route_external route in
    present ← (if local then eigrp_topology_redist_present p else mret true);
    let first_redist := local && negb present in
    inserted ← eigrp_topology_route_insert p r first_peer_path;
    if negb inserted then mret tt
    else
      upd_route r (fun route => {| route with rd_prefix := Some p |});;
      when first_redist
        (modify (fun s => if redist_prefix_count s <? UINT32_MAX
                          then {| s with redist_prefix_count := redist_prefix_count s + 1 |} else s));;
      best ← eigrp_topology_route_read p;
      if opt_ptr_eqb best (Some r) then
        nh ← eigrp_topology_southbound_nexthop r;
        match nh with
        | None => mret tt
        | Some nh =>
            node ← get_prefix p;
            route ← get_route r;
            d_int ← gets distance_internal;
            d_ext ← gets distance_external;
            let external := eigrp_topology_route_external route in
            result ← eigrp_rib_route_add
              {| rib_prefix := destination node; nexthops := [nh];
                 rib_metric := distance node;
                 rib_tag := ext_tag (rd_extdata route);
                 admin_dist := if external then d_ext else d_int;
                 rib_type := rib_class external |};
            when (bool_decide (result = EIGRP_RESULT_SUCCESS))
              (upd_route r (fun route =>
                 {| route with rd_flags := Z.lor (rd_flags route) EIGRP_ROUTE_DESCRIPTOR_INTABLE_FLAG |}))
        end
      else mret tt.

Definition eigrp_route_descriptor_delete (p r : ptr) : St unit :=
  ext ← eigrp_topology_route_class_queue r;
  prefix ← get_prefix p;
  if negb (in_queue r (queue_of ext prefix)) then mret tt
  else
    route ← get_route r;
    self ← gets neighbor_self;
    let installed := rd_flags route .? EIGRP_ROUTE_DESCRIPTOR_INTABLE_FLAG in
    let owner := rd_adv_router route in
    let was_redist := opt_ptr_eqb owner self && negb (bool_decide (is_Some (rd_ei route)))
                      && eigrp_topology_route_external route in
    put_prefix p (set_queue ext (remove_first (Nat.eqb r) (queue_of ext prefix)) prefix);;
    present ← (if was_redist then eigrp_topology_redist_present p else mret true);
    when (was_redist && negb present)
      (modify (fun s => if redist_prefix_count s =? 0 then s
                        else {| s with redist_prefix_count := redist_prefix_count s - 1 |}));;
    (match owner with
     | None => mret tt
     | Some n =>
         nbr ← get_nbr n;
         if limit_prefix_count_valid nbr && negb (limit_prefix_count nbr =? 0) then
           other ← eigrp_prefix_descriptor_lookup p owner;
           when (negb (bool_decide (is_Some other)))
             (put_nbr n {| nbr with limit_prefix_count := limit_prefix_count nbr - 1 |})
         else mret tt
     end);;
    when installed (eigrp_rib_route_del (destination prefix));;
    free_route r.

(** ** The table of destinations

    The nodes in insertion order; [topology_node_lookup] finds the node whose
    key matches. *)

Definition topology_node_lookup (key : eigrp_prefix) : St (option ptr) :=
  if negb (eigrp_prefix_valid key) then mret None
  else
    nodes ← gets topology_table;
    mfind nodes (fun t => n ← get_tnode t;
                          mret (eigrp_table_prefix_match (tn_prefix n) (eigrp_prefix_normalize key))).

Definition topology_node_lookup_or_create (key : eigrp_prefix) : St (option ptr) :=
  if negb (eigrp_prefix_valid key) then mret None
  else
    found ← topology_node_lookup key;
    match found with
    | Some t => mret (Some t)
    | None =>
        ok ← calloc;
        if ok : bool then
          t ← fresh;
          put_tnode t {| tn_prefix := eigrp_prefix_normalize key; tn_info := None |};;
          modify (fun s => {| s with topology_table := topology_table s ++ [t] |});;
          mret (Some t)
        else mret None
    end.

Definition topology_node_remove (t : ptr) : St unit :=
  modify (fun s => {| s with topology_table := remove_first (Nat.eqb t) (topology_table s) |});;
  free_tnode t.

Definition eigrp_topology_table_lookup (address : eigrp_prefix) : St (option ptr) :=
  match eigrp_topology_table_key address with
  | None => mret None
  | Some key =>
      rn ← topology_node_lookup key;
      match rn with
      | None => mret None
      | Some t => n ← get_tnode t; mret (tn_info n)
      end
  end.

(** [rn->info] is written without a test of [rn]. *)
Definition eigrp_prefix_descriptor_add (pe : ptr) : St unit :=
  prefix ← get_prefix pe;
  match eigrp_topology_table_key (destination prefix) with
  | None => mret tt
  | Some key =>
      rn ← topology_node_lookup_or_create key;
      t ← nonnull rn;
      upd_tnode t (fun n => {| n with tn_info := Some pe |});;
      upd_prefix pe (fun d => {| d with table_node := Some t |})
  end.

(** [rn = pe->table_node ? pe->table_node : lookup(key)] *)
Definition prefix_table_node (prefix : eigrp_prefix_descriptor) (key : eigrp_prefix)
    : St (option ptr) :=
  match table_node prefix with
  | Some t => mret (Some t)
  | None => topology_node_lookup key
  end.

Definition eigrp_topology_prefix_detach (p : ptr) : St bool :=
  prefix ← get_prefix p;
  match eigrp_topology_table_key (destination prefix) with
  | None => mret false
  | Some key =>
      rn ← prefix_table_node prefix key;
      match rn with
      | None => mret false
      | Some t =>
          n ← get_tnode t;
          if negb (opt_ptr_eqb (tn_info n) (Some p)) then mret false
          else
            modify (fun s => {| s with topology_changes :=
              filter (fun q => q <> p) (topology_changes s) |});;
            eigrp_rib_route_del (destination prefix);;
            upd_tnode t (fun n => {| n with tn_info := None |});;
            upd_prefix p (fun d => {| d with table_node := None |});;
            topology_node_remove t;;
            mret true
      end
  end.

Definition eigrp_prefix_descriptor_delete (pe : ptr) : St unit :=
  prefix ← get_prefix pe;
  match eigrp_topology_table_key (destination prefix) with
  | None => mret tt
  | Some key =>
      rn ← prefix_table_node prefix key;
      match rn with
      | None => mret tt
      | Some t =>
          n ← get_tnode t;
          if negb (opt_ptr_eqb (tn_info n) (Some pe)) then mret tt
          else
            topology_changes_delete_data pe;;
            mfor (internal_routes prefix) (eigrp_route_descriptor_delete pe);;
            prefix ← get_prefix pe;
            mfor (external_routes prefix) (eigrp_route_descriptor_delete pe);;
            eigrp_timer_cancel_active pe;;
            eigrp_rib_route_del (destination prefix);;
            upd_tnode t (fun n => {| n with tn_info := None |});;
            topology_node_remove t;;
            free_prefix pe
      end
  end.

Definition eigrp_topology_delete_all : St unit :=
  nodes ← gets topology_table;
  mfor nodes (fun t =>
    n ← get_tnode t;
    match tn_info n with
    | None => mret tt
    | Some pe => eigrp_prefix_descriptor_delete pe
    end).

(** Unreachable paths leave once no withdrawal is pending; a PASSIVE destination
    left without paths leaves the table. *)
Definition eigrp_update_topology_table_prefix (p : ptr) : St unit :=
  prefix ← get_prefix p;
  if req_action prefix .? EIGRP_FSM_NEED_UPDATE then mret tt
  else
    let prune r :=
      route ← get_route r;
      when (negb (reachable route)) (eigrp_route_descriptor_delete p r) in
    mfor (internal_routes prefix) prune;;
    prefix ← get_prefix p;
    mfor (external_routes prefix) prune;;
    prefix ← get_prefix p;
    if bool_decide (pd_state prefix = EIGRP_FSM_STATE_PASSIVE)
       && (req_action prefix =? 0)
       && bool_decide (rij prefix = [])
       && bool_decide (query_origin prefix = None)
       && bool_decide (internal_routes prefix = [])
       && bool_decide (external_routes prefix = [])
    then
      detached ← eigrp_topology_prefix_detach p;
      when detached (eigrp_packetizer_prefix_defer_free p)
    else mret tt.

(** ** Distance update *)

(** [route->metric = route->reported_metric = msg->metrics], RD and the
    accumulated distance over the inbound interface; [reported_distance] and
    [distance] are [uint32_t]. *)
Definition store_reported (r : ptr) (metrics : eigrp_metrics) (new_reported_distance : Z) : St unit :=
  upd_route r (fun route =>
    {| route with rd_metric := metrics; rd_reported_metric := metrics;
       rd_reported_distance := new_reported_distance |});;
  route ← get_route r;
  p ← gets params;
  ei ← (match rd_ei route with
        | None => mret None
        | Some i => ei ← get_intf i; mret (Some ei)
        end);
  match eigrp_metric_total_calculate p ei (rd_reported_metric route) with
  | None => ub
  | Some (total, d) =>
      put_route r {| route with rd_total_metric := total; rd_distance := u32 d |}
  end.

Definition compare_distance (old new : Z) : metric_change :=
  if old <? new then METRIC_INCREASE else if new <? old then METRIC_DECREASE else METRIC_SAME.

(** The [switch (msg->data_type)]: [None] is the early [return change]. *)
Definition update_distance_class (msg : eigrp_fsm_action_message) (r : ptr)
    (stored class_changed : bool) : St (option metric_change) :=
  let metrics := msg_metrics msg in
  prefix ← get_prefix (msg_prefix msg);
  route ← get_route r;
  p ← gets params;
  self ← gets neighbor_self;
  match data_type msg with
  | EIGRP_CONNECTED =>
      mret (if nt prefix =? EIGRP_TOPOLOGY_TYPE_CONNECTED then None else Some METRIC_DECREASE)
  | EIGRP_INT =>
      if stored && negb class_changed && eigrp_metrics_match metrics (rd_reported_metric route)
      then mret None
      else
        let new_reported_distance := u32 (eigrp_metric_calculate p metrics) in
        let change := if rd_reported_distance route <? new_reported_distance
                      then METRIC_INCREASE else METRIC_DECREASE in
        store_reported r metrics new_reported_distance;;
        mret (Some change)
  | EIGRP_EXT =>
      if stored && negb class_changed && eigrp_metrics_match metrics (rd_reported_metric route)
      then mret None
      else if opt_ptr_eqb (rd_adv_router route) self && negb (bool_decide (is_Some (rd_ei route)))
      then
        let new_distance := eigrp_topology_redistributed_distance p metrics in
        put_route r {| route with rd_metric := metrics; rd_reported_metric := metrics;
                       rd_reported_distance := 0; rd_total_metric := metrics;
                       rd_distance := u32 new_distance |};;
        mret (Some (compare_distance (rd_distance route) new_distance))
      else
        let new_reported_distance := u32 (eigrp_metric_calculate p metrics) in
        store_reported r metrics new_reported_distance;;
        mret (Some (compare_distance (rd_reported_distance route) new_reported_distance))
  end.

(** Returns the message with [transient_route] as the code leaves it. *)
Definition eigrp_topology_update_distance (msg : eigrp_fsm_action_message)
    : St (eigrp_fsm_action_message * metric_change) :=
  let p := msg_prefix msg in
  r ← nonnull (msg_route msg);
  if transient_route msg then mret (msg, METRIC_SAME)
  else
    (* fill in the owner, the destination and the inbound interface *)
    route ← get_route r;
    msg_ei ← (match msg_adv_router msg with
              | None => mret None
              | Some n => nbr ← get_nbr n; mret (nbr_ei nbr)
              end);
    let route :=
      {| route with
         rd_adv_router := match rd_adv_router route with
                          | None => msg_adv_router msg | Some n => Some n end;
         rd_prefix := match rd_prefix route with None => Some p | Some q => Some q end;
         rd_ei := match rd_ei route with None => msg_ei | Some i => Some i end |} in
    put_route r route;;
    prefix ← get_prefix p;
    self ← gets neighbor_self;
    let in_ext := in_queue r (external_routes prefix) in
    let stored := in_queue r (internal_routes prefix) || in_ext in
    known ← (if negb stored && bool_decide (is_Some (rd_adv_router route))
                && negb (opt_ptr_eqb (rd_adv_router route) self)
             then k ← eigrp_prefix_descriptor_lookup p (rd_adv_router route);
                  mret (bool_decide (is_Some k))
             else mret true);
    let first_peer_path := negb known in
    let class_changed := negb (Bool.eqb in_ext (eigrp_topology_route_external route)) in
    result ← update_distance_class msg r stored class_changed;
    match result with
    | None => mret (msg, METRIC_SAME)
    | Some change =>
        upd_prefix p (fun d => {| d with internal_routes := remove_first (Nat.eqb r) (internal_routes d) |});;
        upd_prefix p (fun d => {| d with external_routes := remove_first (Nat.eqb r) (external_routes d) |});;
        inserted ← eigrp_topology_route_insert p r first_peer_path;
        if inserted : bool then mret (msg, change)
        else mret ({| msg with transient_route := negb stored |}, METRIC_SAME)
    end.

(** ** Successor marking *)

Definition clear_flags (mask : Z) (r : ptr) : St unit :=
  upd_route r (fun route => {| route with rd_flags := Z.ldiff (rd_flags route) mask |}).
Definition set_flags (mask : Z) (r : ptr) : St unit :=
  upd_route r (fun route => {| route with rd_flags := Z.lor (rd_flags route) mask |}).

(** The marking loop over the eligible queue. *)
Fixpoint mark_successors (fd d var max_paths successor_count : Z) (l : list ptr) : St unit :=
  match l with
  | [] => mret tt
  | r :: l' =>
      route ← get_route r;
      let feasible := rd_reported_distance route <? fd in
      let within_variance := reachable route && (rd_distance route <=? d * var) in
      if feasible then
        if within_variance && (successor_count <? max_paths) then
          set_flags EIGRP_ROUTE_DESCRIPTOR_SUCCESSOR_FLAG r;;
          mark_successors fd d var max_paths (successor_count + 1) l'
        else
          set_flags EIGRP_ROUTE_DESCRIPTOR_FSUCCESSOR_FLAG r;;
          mark_successors fd d var max_paths successor_count l'
      else mark_successors fd d var max_paths successor_count l'
  end.

Definition SUCCESSOR_FLAGS : Z :=
  Z.lor EIGRP_ROUTE_DESCRIPTOR_SUCCESSOR_FLAG EIGRP_ROUTE_DESCRIPTOR_FSUCCESSOR_FLAG.

Definition eigrp_topology_update_node_flags (dest : ptr) : St unit :=
  best ← eigrp_topology_route_select dest;
  prefix ← get_prefix dest;
  eligible ← (match best with
              | None => mret []
              | Some b => ext ← eigrp_topology_route_class_queue b; mret (queue_of ext prefix)
              end);
  s ← get;
  let max_paths := if max_paths s =? 0 then EIGRP_MAX_PATHS_DEFAULT else max_paths s in
  mfor (topology_routes prefix) (clear_flags SUCCESSOR_FLAGS);;
  mark_successors (fdistance prefix) (distance prefix) (variance s) max_paths 0 eligible.

(** ** Host RIB refresh *)

Fixpoint collect_successors (l : list ptr) : St (list ptr) :=
  match l with
  | [] => mret []
  | r :: l' =>
      route ← get_route r;
      if rd_flags route .? EIGRP_ROUTE_DESCRIPTOR_SUCCESSOR_FLAG then
        ok ← calloc;
        rest ← collect_successors l';
        mret (if ok : bool then r :: rest else rest)
      else collect_successors l'
  end.

Definition eigrp_topology_successors_read (p : ptr) : St (option (list ptr)) :=
  ok ← calloc;
  prefix ← get_prefix p;
  if ok : bool then
    l ← collect_successors (topology_routes prefix);
    mret (match l with [] => None | _ => Some l end)
  else ub.

(** The list loses its tail until [count <= maxpaths]. *)
Definition eigrp_topology_successors_max_read (p : ptr) (maxpaths : Z) : St (option (list ptr)) :=
  successors ← eigrp_topology_successors_read p;
  mret (take (Z.to_nat maxpaths) <$> successors).

Definition eigrp_update_routing_table (p : ptr) : St unit :=
  prefix ← get_prefix p;
  mfor (topology_routes prefix) (clear_flags EIGRP_ROUTE_DESCRIPTOR_INTABLE_FLAG);;
  mp ← gets max_paths;
  successors ← eigrp_topology_successors_max_read p mp;
  match successors with
  | Some l =>
      nhs ← eigrp_topology_southbound_nexthops l (Z.to_nat EIGRP_MAX_PATHS_MAX);
      (match nhs with
       | [] => mret tt
       | _ =>
           d_int ← gets distance_internal;
           d_ext ← gets distance_external;
           first ← (match l with
                    | [] => mret None
                    | r :: _ => route ← get_route r; mret (Some route)
                    end);
           let external := match first with
                           | Some route => eigrp_topology_route_external route
                           | None => false end in
           _ ← eigrp_rib_route_add
             {| rib_prefix := destination prefix; nexthops := nhs;
                rib_metric := distance prefix;
                rib_tag := match first with
                           | Some route => if external then ext_tag (rd_extdata route) else 0
                           | None => 0 end;
                admin_dist := if external then d_ext else d_int;
                rib_type := rib_class external |};
           mret tt
       end);;
      mfor l (set_flags EIGRP_ROUTE_DESCRIPTOR_INTABLE_FLAG)
  | None =>
      eigrp_rib_route_del (destination prefix);;
      mfor (topology_routes prefix) (clear_flags EIGRP_ROUTE_DESCRIPTOR_INTABLE_FLAG)
  end.
