(* ===== verification/Fsm.v ===== *)
(** * DUAL finite state machine (eigrp_fsm.c)

    The reply-status list of a diffusing computation, the ACTIVE timer, the
    event selector, the NSM table and its handlers. *)

From Stdlib Require Import ZArith Lia.
From stdpp Require Import base gmap list.
From S2P Require Import Prelude Types Metric Prefix State Topology.

(** ** Reply status *)

Definition rs_for (nbr : ptr) (status : eigrp_reply_status) : bool :=
  Nat.eqb (rs_neighbor status) nbr.

Definition eigrp_fsm_reply_status_lookup (p : ptr) (nbr : option ptr)
    : St (option eigrp_reply_status) :=
  prefix ← get_prefix p;
  mret (n ← nbr; List.find (rs_for n) (rij prefix)).

(** Two allocations: the status and its list item. *)
Definition eigrp_fsm_reply_status_add (p : ptr) (nbr : option ptr) : St unit :=
  known ← eigrp_fsm_reply_status_lookup p nbr;
  match nbr, known with
  | Some n, None =>
      ok ← calloc;
      if ok : bool then
        ok ← calloc;
        when ok
          (upd_prefix p (fun d =>
             {| d with rij := rij d ++ [{| rs_neighbor := n; sia_queries := 0;
                                           sia_response_received := true |}] |}))
      else mret tt
  | _, _ => mret tt
  end.

Definition eigrp_fsm_reply_status_remove (p : ptr) (nbr : option ptr) : St bool :=
  (match nbr with
   | None => mret tt
   | Some n => upd_prefix p (fun d => {| d with rij := remove_first (rs_for n) (rij d) |})
   end);;
  prefix ← get_prefix p;
  mret (negb (bool_decide (rij prefix = []))).

Definition eigrp_fsm_reply_status_pending (p : ptr) (nbr : option ptr) : St bool :=
  status ← eigrp_fsm_reply_status_lookup p nbr;
  mret (bool_decide (is_Some status)).

Definition eigrp_fsm_sia_reply_received (p : ptr) (nbr : option ptr) : St unit :=
  match nbr with
  | None => mret tt
  | Some n =>
      upd_prefix p (fun d =>
        {| d with rij := alter_first (rs_for n)
                           (fun st => {| st with sia_response_received := true |}) (rij d) |})
  end.

Definition eigrp_fsm_reply_status_clear (p : ptr) : St unit :=
  upd_prefix p (fun d => {| d with rij := [] |}).

(** ** ACTIVE timer *)

Definition eigrp_fsm_active_timer_stop (p : ptr) : St unit :=
  eigrp_timer_cancel_active p;;
  upd_prefix p (fun d => {| d with active_eigrp := false |}).

Definition is_passive (st : eigrp_fsm_states) : bool :=
  bool_decide (st = EIGRP_FSM_STATE_PASSIVE).

Definition eigrp_fsm_active_timer_start (p : ptr) : St unit :=
  prefix ← get_prefix p;
  if is_passive (pd_state prefix) || bool_decide (rij prefix = []) then mret tt
  else
    active_time ← eigrp_timer_active_time_seconds;
    if active_time =? 0 then mret tt
    else
      upd_prefix p (fun d => {| d with active_eigrp := true |});;
      eigrp_timer_cancel_active p;;
      eigrp_timer_add_active p (u32 (active_time * 500)).

(** ** Event selection *)

Definition flagged (mask : Z) (r : ptr) : St bool :=
  route ← get_route r; mret (rd_flags route .? mask).

Definition from_successor (r : ptr) : St bool :=
  flagged EIGRP_ROUTE_DESCRIPTOR_SUCCESSOR_FLAG r.

(** ACTIVE 0 and ACTIVE 2: the received REPLY is accounted and, when it is the
    last one, the destination is feasible or not with the current FD. *)
Definition select_reply_fc (p r : ptr) : St eigrp_fsm_events :=
  selected ← eigrp_topology_route_select p;
  route ← get_route r;
  _ ← eigrp_fsm_reply_status_remove p (rd_adv_router route);
  prefix ← get_prefix p;
  mret (if negb (bool_decide (rij prefix = [])) then EIGRP_FSM_KEEP_STATE
        else match selected with
             | Some _ => EIGRP_FSM_EVENT_LR_FCS
             | None => EIGRP_FSM_EVENT_LR_FCN
             end).

(** ACTIVE 1 and ACTIVE 3: the last REPLY resets FD. *)
Definition select_reply_lr (p r : ptr) : St eigrp_fsm_events :=
  route ← get_route r;
  _ ← eigrp_fsm_reply_status_remove p (rd_adv_router route);
  prefix ← get_prefix p;
  mret (if negb (bool_decide (rij prefix = [])) then EIGRP_FSM_KEEP_STATE
        else EIGRP_FSM_EVENT_LR).

Definition select_active_1_3 (msg : eigrp_fsm_action_message) (change : metric_change)
    (p r : ptr) : St eigrp_fsm_events :=
  succ ← from_successor r;
  if (packet_type msg =? EIGRP_OPC_QUERY) && succ then mret EIGRP_FSM_EVENT_QACT
  else if packet_type msg =? EIGRP_OPC_REPLY then select_reply_lr p r
  else if (packet_type msg =? EIGRP_OPC_UPDATE)
          && bool_decide (change = METRIC_INCREASE) && succ
  then mret EIGRP_FSM_EVENT_DINC
  else mret EIGRP_FSM_KEEP_STATE.

Definition select_active_0_2 (msg : eigrp_fsm_action_message) (p r : ptr)
    : St eigrp_fsm_events :=
  if packet_type msg =? EIGRP_OPC_REPLY then select_reply_fc p r
  else
    succ ← from_successor r;
    if (packet_type msg =? EIGRP_OPC_QUERY) && succ then mret EIGRP_FSM_EVENT_QACT
    else mret EIGRP_FSM_KEEP_STATE.

Definition select_passive (msg : eigrp_fsm_action_message) (change : metric_change)
    (p : ptr) : St eigrp_fsm_events :=
  selected ← eigrp_topology_route_select p;
  prefix ← get_prefix p;
  mret (match selected with
        | Some _ => EIGRP_FSM_KEEP_STATE
        | None =>
            if bool_decide (change = METRIC_SAME) || (fdistance prefix =? EIGRP_MAX_METRIC)
            then EIGRP_FSM_KEEP_STATE
            else if packet_type msg =? EIGRP_OPC_QUERY then EIGRP_FSM_EVENT_Q_FCN
            else EIGRP_FSM_EVENT_NQ_FCN
        end).

(** The route the event is about: created when the message names none. *)
Definition event_route (msg : eigrp_fsm_action_message) : St eigrp_fsm_action_message :=
  match msg_route msg with
  | Some _ => mret msg
  | None =>
      n ← nonnull (msg_adv_router msg);
      nbr ← get_nbr n;
      r ← eigrp_topology_route_create (nbr_ei nbr);
      upd_route r (fun route =>
        {| route with rd_adv_router := Some n; rd_prefix := Some (msg_prefix msg) |});;
      mret {| msg with msg_route := Some r |}
  end.

Definition eigrp_fsm_event_select (msg : eigrp_fsm_action_message)
    : St (eigrp_fsm_action_message * eigrp_fsm_events) :=
  let p := msg_prefix msg in
  prefix ← get_prefix p;
  let actual_state := pd_state prefix in
  msg ← event_route msg;
  '(msg, change) ← eigrp_topology_update_distance msg;
  let msg := {| msg with change := change |} in
  r ← nonnull (msg_route msg);
  event ← (match actual_state with
           | EIGRP_FSM_STATE_PASSIVE => select_passive msg change p
           | EIGRP_FSM_STATE_ACTIVE_0 => select_active_0_2 msg p r
           | EIGRP_FSM_STATE_ACTIVE_1 => select_active_1_3 msg change p r
           | EIGRP_FSM_STATE_ACTIVE_2 => select_active_0_2 msg p r
           | EIGRP_FSM_STATE_ACTIVE_3 => select_active_1_3 msg change p r
           end);
  mret (msg, event).

(** ** Handlers *)

Definition set_state (p : ptr) (st : eigrp_fsm_states) : St unit :=
  upd_prefix p (fun d => {| d with pd_state := st |}).

Definition add_action (p : ptr) (action : Z) : St unit :=
  upd_prefix p (fun d => {| d with req_action := Z.lor (req_action d) action |});;
  topology_changes_add p.

(** The tail shared by the transitions to PASSIVE. *)
Definition passive_publish (p : ptr) : St unit :=
  add_action p EIGRP_FSM_NEED_UPDATE;;
  eigrp_topology_update_node_flags p;;
  eigrp_update_routing_table p;;
  eigrp_update_topology_table_prefix p;;
  eigrp_update_send_all None.

Definition set_distances (p : ptr) (d : Z) (m : eigrp_metrics) : St unit :=
  upd_prefix p (fun pd =>
    {| pd with fdistance := d; distance := d; rdistance := d; reported_metric := m |}).

Definition eigrp_fsm_event_lr (msg : eigrp_fsm_action_message) : St unit :=
  let p := msg_prefix msg in
  best ← eigrp_topology_route_read p;
  (match best with
   | Some r =>
       route ← get_route r;
       set_distances p (rd_distance route) (rd_total_metric route)
   | None => set_distances p EIGRP_MAX_METRIC unreachable_metrics
   end);;
  prefix ← get_prefix p;
  when (bool_decide (pd_state prefix = EIGRP_FSM_STATE_ACTIVE_3)
        || bool_decide (pd_state prefix = EIGRP_FSM_STATE_ACTIVE_2))
    (eigrp_reply_send (query_origin prefix) p);;
  upd_prefix p (fun d => {| d with query_origin := None |});;
  eigrp_fsm_active_timer_stop p;;
  eigrp_fsm_reply_status_clear p;;
  set_state p EIGRP_FSM_STATE_PASSIVE;;
  passive_publish p.

(** Start, or restart, a diffusing computation; with no neighbor it is already
    complete. *)
Definition diffuse (msg : eigrp_fsm_action_message) : St unit :=
  let p := msg_prefix msg in
  eigrp_fsm_active_timer_stop p;;
  eigrp_fsm_reply_status_clear p;;
  n ← eigrp_nbr_count;
  if negb (n =? 0) then add_action p EIGRP_FSM_NEED_QUERY
  else eigrp_fsm_event_lr msg.

Definition eigrp_fsm_event_nq_fcn (msg : eigrp_fsm_action_message) : St unit :=
  set_state (msg_prefix msg) EIGRP_FSM_STATE_ACTIVE_1;;
  diffuse msg.

Definition eigrp_fsm_event_q_fcn (msg : eigrp_fsm_action_message) : St unit :=
  let p := msg_prefix msg in
  set_state p EIGRP_FSM_STATE_ACTIVE_3;;
  upd_prefix p (fun d => {| d with query_origin := msg_adv_router msg |});;
  diffuse msg.

(** RFC 7868 3.5 step 6: the reply to a non-successor's QUERY while ACTIVE. *)
Definition eigrp_fsm_active_non_successor_reply_send (nbr : option ptr) (p : ptr) : St unit :=
  match nbr with
  | None => mret tt
  | Some _ =>
      prefix ← get_prefix p;
      found ← mfind (topology_routes prefix) (fun r =>
        route ← get_route r;
        mret ((rd_flags route .? EIGRP_ROUTE_DESCRIPTOR_INTABLE_FLAG) && reachable route));
      match found with
      | Some r =>
          route ← get_route r;
          reply_route ← eigrp_topology_route_create (rd_ei route);
          put_route reply_route {| route with rd_metric := reported_metric prefix |};;
          eigrp_reply_send_route nbr p (Some reply_route) EIGRP_PACKETIZER_WORK_F_OWN_ROUTE
      | None =>
          eigrp_reply_send_route nbr p None EIGRP_PACKETIZER_WORK_F_POISON
      end
  end.

(** The PASSIVE half of [eigrp_fsm_event_keep_state]. *)
Definition keep_state_passive (p : ptr) (best : option ptr) : St unit :=
  prefix ← get_prefix p;
  r ← nonnull best;
  route ← get_route r;
  when (negb (eigrp_metrics_match (reported_metric prefix) (rd_total_metric route)))
    (upd_prefix p (fun d =>
       {| d with distance := rd_distance route; rdistance := rd_distance route;
          fdistance := if rd_distance route <? fdistance d then rd_distance route
                       else fdistance d;
          reported_metric := rd_total_metric route |});;
     add_action p EIGRP_FSM_NEED_UPDATE);;
  eigrp_topology_update_node_flags p;;
  eigrp_update_routing_table p.

Definition eigrp_fsm_event_keep_state (msg : eigrp_fsm_action_message) : St unit :=
  let p := msg_prefix msg in
  selected ← eigrp_topology_route_select p;
  best ← (match selected with Some r => mret (Some r) | None => eigrp_topology_route_read p end);
  prefix ← get_prefix p;
  (if is_passive (pd_state prefix) then keep_state_passive p best else mret tt);;
  if packet_type msg =? EIGRP_OPC_QUERY then
    prefix ← get_prefix p;
    if is_passive (pd_state prefix) then eigrp_reply_send (msg_adv_router msg) p
    else
      r ← nonnull (msg_route msg);
      succ ← from_successor r;
      when (negb succ) (eigrp_fsm_active_non_successor_reply_send (msg_adv_router msg) p)
  else mret tt.

Definition eigrp_fsm_event_lr_fcs (msg : eigrp_fsm_action_message) : St unit :=
  let p := msg_prefix msg in
  selected ← eigrp_topology_route_select p;
  prefix ← get_prefix p;
  let old_state := pd_state prefix in
  eigrp_fsm_active_timer_stop p;;
  eigrp_fsm_reply_status_clear p;;
  set_state p EIGRP_FSM_STATE_PASSIVE;;
  r ← nonnull selected;
  route ← get_route r;
  upd_prefix p (fun d =>
    {| d with distance := rd_distance route; rdistance := rd_distance route;
       reported_metric := rd_total_metric route;
       fdistance := if rd_distance route <? fdistance d then rd_distance route
                    else fdistance d |});;
  prefix ← get_prefix p;
  when (bool_decide (old_state = EIGRP_FSM_STATE_ACTIVE_2))
    (eigrp_reply_send (query_origin prefix) p);;
  upd_prefix p (fun d => {| d with query_origin := None |});;
  passive_publish p.

Definition eigrp_fsm_event_lr_fcn (msg : eigrp_fsm_action_message) : St unit :=
  let p := msg_prefix msg in
  prefix ← get_prefix p;
  set_state p (if bool_decide (pd_state prefix = EIGRP_FSM_STATE_ACTIVE_0)
               then EIGRP_FSM_STATE_ACTIVE_1 else EIGRP_FSM_STATE_ACTIVE_3);;
  diffuse msg.

Definition eigrp_fsm_event_qact (msg : eigrp_fsm_action_message) : St unit :=
  let p := msg_prefix msg in
  set_state p EIGRP_FSM_STATE_ACTIVE_2;;
  upd_prefix p (fun d => {| d with query_origin := msg_adv_router msg |}).

(** ** The NSM table *)

Inductive nsm_func :=
  | F_nq_fcn | F_keep_state | F_q_fcn | F_lr | F_dinc | F_lr_fcs | F_lr_fcn | F_qact.

Definition NSM (st : eigrp_fsm_states) (ev : eigrp_fsm_events) : nsm_func :=
  match st, ev with
  | EIGRP_FSM_STATE_PASSIVE, EIGRP_FSM_EVENT_NQ_FCN => F_nq_fcn
  | EIGRP_FSM_STATE_PASSIVE, EIGRP_FSM_EVENT_Q_FCN => F_q_fcn
  | EIGRP_FSM_STATE_ACTIVE_0, EIGRP_FSM_EVENT_LR_FCS => F_lr_fcs
  | EIGRP_FSM_STATE_ACTIVE_0, EIGRP_FSM_EVENT_QACT => F_qact
  | EIGRP_FSM_STATE_ACTIVE_0, EIGRP_FSM_EVENT_LR_FCN => F_lr_fcn
  | EIGRP_FSM_STATE_ACTIVE_1, EIGRP_FSM_EVENT_LR => F_lr
  | EIGRP_FSM_STATE_ACTIVE_1, EIGRP_FSM_EVENT_DINC => F_dinc
  | EIGRP_FSM_STATE_ACTIVE_1, EIGRP_FSM_EVENT_QACT => F_qact
  | EIGRP_FSM_STATE_ACTIVE_2, EIGRP_FSM_EVENT_LR_FCS => F_lr_fcs
  | EIGRP_FSM_STATE_ACTIVE_2, EIGRP_FSM_EVENT_QACT => F_qact
  | EIGRP_FSM_STATE_ACTIVE_2, EIGRP_FSM_EVENT_LR_FCN => F_lr_fcn
  | EIGRP_FSM_STATE_ACTIVE_3, EIGRP_FSM_EVENT_LR => F_lr
  | EIGRP_FSM_STATE_ACTIVE_3, EIGRP_FSM_EVENT_DINC => F_dinc
  | EIGRP_FSM_STATE_ACTIVE_3, EIGRP_FSM_EVENT_QACT => F_qact
  | _, _ => F_keep_state
  end.

(** [eigrp_fsm_event_dinc] dispatches again when no reply is outstanding; the
    message it leaves is returned. *)
Definition eigrp_fsm_event_dinc
    (nsm_call : nsm_func -> eigrp_fsm_action_message -> St eigrp_fsm_action_message)
    (msg : eigrp_fsm_action_message) : St eigrp_fsm_action_message :=
  let p := msg_prefix msg in
  prefix ← get_prefix p;
  set_state p (if bool_decide (pd_state prefix = EIGRP_FSM_STATE_ACTIVE_1)
               then EIGRP_FSM_STATE_ACTIVE_0 else EIGRP_FSM_STATE_ACTIVE_2);;
  prefix ← get_prefix p;
  if bool_decide (rij prefix = []) then
    '(msg, event) ← eigrp_fsm_event_select msg;
    nsm_call (NSM (pd_state prefix) event) msg
  else mret msg.

(** The call through the table entry; [fuel] bounds the nesting of the
    dispatch made by [eigrp_fsm_event_dinc]. *)
Fixpoint nsm_call (fuel : nat) (func : nsm_func) (msg : eigrp_fsm_action_message)
    : St eigrp_fsm_action_message :=
  match fuel with
  | O => ub
  | S fuel' =>
      match func with
      | F_nq_fcn => eigrp_fsm_event_nq_fcn msg;; mret msg
      | F_keep_state => eigrp_fsm_event_keep_state msg;; mret msg
      | F_q_fcn => eigrp_fsm_event_q_fcn msg;; mret msg
      | F_lr => eigrp_fsm_event_lr msg;; mret msg
      | F_dinc => eigrp_fsm_event_dinc (nsm_call fuel') msg
      | F_lr_fcs => eigrp_fsm_event_lr_fcs msg;; mret msg
      | F_lr_fcn => eigrp_fsm_event_lr_fcn msg;; mret msg
      | F_qact => eigrp_fsm_event_qact msg;; mret msg
      end
  end.

Definition nsm_fuel : nat := 2.

Definition eigrp_fsm_event (msg : eigrp_fsm_action_message) : St eigrp_fsm_action_message :=
  '(msg, event) ← eigrp_fsm_event_select msg;
  prefix ← get_prefix (msg_prefix msg);
  nsm_call nsm_fuel (NSM (pd_state prefix) event) msg.

(** ** Completion without a received REPLY *)

Definition external_tlv_type (t : Z) : bool :=
  (t =? EIGRP_TLV_IPv4_EXT) || (t =? EIGRP_TLV_IPv6_EXT) || (t =? EIGRP_TLV_MP_EXT).

Definition data_type_of (t : Z) : msg_data_t :=
  if external_tlv_type t then EIGRP_EXT else EIGRP_INT.

(** The message [{0}] with the named fields. *)
Definition zero_message (p : ptr) : eigrp_fsm_action_message :=
  {| packet_type := 0; msg_adv_router := None; msg_route := None; msg_prefix := p;
     data_type := EIGRP_CONNECTED; msg_metrics := zero_metrics; change := METRIC_DECREASE;
     transient_route := false |}.

Definition eigrp_fsm_query_sent (p : ptr) : St unit :=
  prefix ← get_prefix p;
  if is_passive (pd_state prefix) then mret tt
  else if negb (bool_decide (rij prefix = [])) then eigrp_fsm_active_timer_start p
  else
    best ← eigrp_topology_route_read p;
    self ← gets neighbor_self;
    match best with
    | Some r =>
        route ← get_route r;
        let m := zero_message p in
        eigrp_fsm_event_lr
          {| m with packet_type := EIGRP_OPC_REPLY;
             msg_adv_router := rd_adv_router route; msg_route := Some r;
             data_type := data_type_of (rd_type route);
             msg_metrics := rd_reported_metric route |}
    | None =>
        let m := zero_message p in
        eigrp_fsm_event_lr
          {| m with packet_type := EIGRP_OPC_REPLY; msg_adv_router := self;
             data_type := EIGRP_INT; msg_metrics := unreachable_metrics |}
    end.

Definition eigrp_fsm_neighbor_down (p nbr : ptr) : St unit :=
  prefix ← get_prefix p;
  if is_passive (pd_state prefix) then mret tt
  else
    pending ← eigrp_fsm_reply_status_pending p (Some nbr);
    if negb pending then mret tt
    else
      outstanding ← eigrp_fsm_reply_status_remove p (Some nbr);
      if outstanding : bool then mret tt
      else
        best ← eigrp_topology_route_read p;
        dt ← (match best with
              | None => mret EIGRP_INT
              | Some r => route ← get_route r; mret (data_type_of (rd_type route))
              end);
        let m := zero_message p in
        let msg := {| m with packet_type := EIGRP_OPC_REPLY; msg_adv_router := Some nbr;
                      msg_route := best; data_type := dt |} in
        match pd_state prefix with
        | EIGRP_FSM_STATE_ACTIVE_0 | EIGRP_FSM_STATE_ACTIVE_2 =>
            selected ← eigrp_topology_route_select p;
            match selected with
            | Some _ => eigrp_fsm_event_lr_fcs msg
            | None => eigrp_fsm_event_lr_fcn msg
            end
        | _ => eigrp_fsm_event_lr msg
        end.

(** ** Stuck-in-active *)

Definition sia_stuck (status : eigrp_reply_status) : bool :=
  negb (sia_response_received status) || (3 <=? sia_queries status).

(** [status->sia_response_received = false; status->sia_queries++] *)
Definition sia_mark (status : eigrp_reply_status) : eigrp_reply_status :=
  {| status with sia_response_received := false; sia_queries := u8 (sia_queries status + 1) |}.

(** The second loop of the expiry handler. *)
Fixpoint sia_query_all (p : ptr) (done todo : list eigrp_reply_status) : St unit :=
  match todo with
  | [] => mret tt
  | status :: todo' =>
      upd_prefix p (fun d => {| d with rij := done ++ sia_mark status :: todo' |});;
      eigrp_siaquery_send (Some (rs_neighbor status)) p;;
      sia_query_all p (done ++ [sia_mark status]) todo'
  end.

(** [teardown] is [eigrp_nbr_state_update_reason] to DOWN followed by
    [eigrp_nbr_delete] of eigrp_neighbor.c. *)
Definition eigrp_fsm_active_timer_expired (teardown : ptr -> St unit) (p : ptr) : St unit :=
  prefix ← get_prefix p;
  if is_passive (pd_state prefix) || bool_decide (rij prefix = []) || negb (active_eigrp prefix)
  then mret tt
  else
    match List.find sia_stuck (rij prefix) with
    | Some status => teardown (rs_neighbor status)
    | None =>
        sia_query_all p [] (rij prefix);;
        active_time ← eigrp_timer_active_time_seconds;
        if active_time =? 0 then mret tt
        else eigrp_timer_add_active p (u32 (active_time * 500))
    end.
