(* ===== verification/Store.v ===== *)
(** * Reasoning about the store

    Total-correctness rules for the primitive operations of [State], the
    reading of the route queues as pure lists, and the frame "only route flags
    and the host RIB changed" shared by the marking and RIB operations. *)

From Stdlib Require Import ZArith Lia.
From stdpp Require Import base gmap list.
From S2P Require Import Prelude Types Metric Prefix State Topology Fsm.

(** ** Reads and writes *)

Definition set_route (s : eigrp_instance) (r : ptr) (d : eigrp_route_descriptor) : eigrp_instance :=
  {| s with routes := <[r := d]> (routes s) |}.
Definition set_prefix (s : eigrp_instance) (p : ptr) (d : eigrp_prefix_descriptor) : eigrp_instance :=
  {| s with prefixes := <[p := d]> (prefixes s) |}.
Definition set_nbr (s : eigrp_instance) (n : ptr) (d : eigrp_nbr) : eigrp_instance :=
  {| s with nbrs := <[n := d]> (nbrs s) |}.

Section primitives.
Implicit Types s : eigrp_instance.

Lemma wp_get_route r d Q s : routes s !! r = Some d -> (wp (get_route r) Q s <-> Q d s).
Proof. intros H. unfold get_route. rewrite wp_bind, wp_gets, H. done. Qed.
Lemma wp_get_prefix p d Q s : prefixes s !! p = Some d -> (wp (get_prefix p) Q s <-> Q d s).
Proof. intros H. unfold get_prefix. rewrite wp_bind, wp_gets, H. done. Qed.
Lemma wp_get_nbr n d Q s : nbrs s !! n = Some d -> (wp (get_nbr n) Q s <-> Q d s).
Proof. intros H. unfold get_nbr. rewrite wp_bind, wp_gets, H. done. Qed.
Lemma wp_get_intf i d Q s : intfs s !! i = Some d -> (wp (get_intf i) Q s <-> Q d s).
Proof. intros H. unfold get_intf. rewrite wp_bind, wp_gets, H. done. Qed.
Lemma wp_get_tnode t d Q s : table_nodes s !! t = Some d -> (wp (get_tnode t) Q s <-> Q d s).
Proof. intros H. unfold get_tnode. rewrite wp_bind, wp_gets, H. done. Qed.

Lemma wp_put_route r d Q s : wp (put_route r d) Q s <-> Q tt (set_route s r d).
Proof. done. Qed.
Lemma wp_put_prefix p d Q s : wp (put_prefix p d) Q s <-> Q tt (set_prefix s p d).
Proof. done. Qed.
Lemma wp_put_nbr n d Q s : wp (put_nbr n d) Q s <-> Q tt (set_nbr s n d).
Proof. done. Qed.

Lemma wp_upd_route r f d Q s :
  routes s !! r = Some d -> (wp (upd_route r f) Q s <-> Q tt (set_route s r (f d))).
Proof. intros H. unfold upd_route. rewrite wp_bind, (wp_get_route r d) by done. done. Qed.
Lemma wp_upd_prefix p f d Q s :
  prefixes s !! p = Some d -> (wp (upd_prefix p f) Q s <-> Q tt (set_prefix s p (f d))).
Proof. intros H. unfold upd_prefix. rewrite wp_bind, (wp_get_prefix p d) by done. done. Qed.

Lemma wp_calloc Q s : mem s = [] -> (wp calloc Q s <-> Q true s).
Proof. intros H. unfold wp, calloc. by rewrite H. Qed.
Lemma wp_nonnull {A} (a : A) Q s : wp (nonnull (Some a)) Q s <-> Q a s.
Proof. done. Qed.

Lemma wp_if {A} (b : bool) (m1 m2 : St A) Q s :
  wp (if b then m1 else m2) Q s <-> (if b then wp m1 Q s else wp m2 Q s).
Proof. by destruct b. Qed.
End primitives.

(** Steps over the primitive operations whose outcome the context determines. *)
Ltac wp_simpl :=
  repeat first
    [ rewrite wp_bind | rewrite wp_ret | rewrite wp_gets | rewrite wp_get
    | rewrite wp_modify | rewrite wp_when | rewrite wp_nonnull
    | rewrite wp_put_route | rewrite wp_put_prefix | rewrite wp_put_nbr
    | erewrite wp_get_route by eassumption
    | erewrite wp_get_prefix by eassumption
    | erewrite wp_get_nbr by eassumption
    | erewrite wp_get_intf by eassumption
    | erewrite wp_get_tnode by eassumption
    | erewrite wp_upd_route by eassumption
    | erewrite wp_upd_prefix by eassumption
    | erewrite wp_calloc by eassumption ].

(** ** Route queues as pure lists *)

Definition live_routes (s : eigrp_instance) (l : list ptr) : Prop :=
  Forall (fun r => is_Some (routes s !! r)) l.

(** A test on the descriptor at an address. *)
Definition on_route (s : eigrp_instance) (P : eigrp_route_descriptor -> bool) (r : ptr) : bool :=
  match routes s !! r with Some d => P d | None => false end.

Definition route_dist (s : eigrp_instance) (r : ptr) : Z :=
  match routes s !! r with Some d => rd_distance d | None => 0 end.

Section queues.
Implicit Types s : eigrp_instance.

Lemma wp_mfind_route l P Q s :
  live_routes s l ->
  Q (List.find (on_route s P) l) s ->
  wp (mfind l (fun r => route ← get_route r; mret (P route))) Q s.
Proof.
  intros Hl HQ. induction Hl as [|r l [d Hd] Hl IH]; simpl in *; [done|].
  wp_simpl. unfold on_route in HQ at 1. rewrite Hd in HQ. destruct (P d); [done|auto].
Qed.

Lemma wp_route_list_insert r d l Q s :
  live_routes s l -> routes s !! r = Some d ->
  Q (insert_by (route_dist s) r l) s ->
  wp (route_list_insert r (rd_distance d) l) Q s.
Proof.
  intros Hl Hr. revert Q. induction Hl as [|y l [e He] Hl IH]; intros Q HQ; simpl in *; [done|].
  wp_simpl. unfold route_dist in HQ at 1 2. rewrite Hr, He in HQ.
  destruct (rd_distance d <? rd_distance e); [done|]. wp_simpl. apply IH. by wp_simpl.
Qed.

(** The selector and the fallback read. *)
Definition select_of s (d : eigrp_prefix_descriptor) : option ptr :=
  List.find (on_route s (satisfies_fc (fdistance d))) (topology_routes d).
Definition read_of s (d : eigrp_prefix_descriptor) : option ptr :=
  match List.find (on_route s reachable) (topology_routes d) with
  | Some r => Some r
  | None => head (topology_routes d)
  end.

Lemma wp_route_select p d Q s :
  prefixes s !! p = Some d -> live_routes s (topology_routes d) ->
  Q (select_of s d) s -> wp (eigrp_topology_route_select p) Q s.
Proof.
  intros Hp Hl HQ. unfold eigrp_topology_route_select. wp_simpl. by apply wp_mfind_route.
Qed.

Lemma wp_route_read p d Q s :
  prefixes s !! p = Some d -> live_routes s (topology_routes d) ->
  Q (read_of s d) s -> wp (eigrp_topology_route_read p) Q s.
Proof.
  intros Hp Hl HQ. unfold eigrp_topology_route_read. wp_simpl.
  apply wp_mfind_route; [done|]. unfold read_of in HQ.
  destruct (List.find _ _); by wp_simpl.
Qed.

Lemma wp_descriptor_lookup p d n Q s :
  prefixes s !! p = Some d -> live_routes s (topology_routes d) ->
  Q (List.find (on_route s (fun route => opt_ptr_eqb (rd_adv_router route) n))
       (topology_routes d)) s ->
  wp (eigrp_prefix_descriptor_lookup p n) Q s.
Proof.
  intros Hp Hl HQ. unfold eigrp_prefix_descriptor_lookup. wp_simpl. by apply wp_mfind_route.
Qed.

Lemma find_live_some s P l r :
  List.find (on_route s P) l = Some r -> r ∈ l /\ exists d, routes s !! r = Some d /\ P d = true.
Proof.
  intros H. apply List.find_some in H as [Hin HP].
  split; [by apply list_elem_of_In|]. unfold on_route in HP.
  destruct (routes s !! r) as [d|] eqn:E; [|done]. eauto.
Qed.

Lemma read_of_live s d r :
  live_routes s (topology_routes d) -> read_of s d = Some r ->
  exists e, routes s !! r = Some e.
Proof.
  intros Hl. unfold read_of. destruct (List.find _ _) as [r'|] eqn:E.
  - intros [= <-]. apply find_live_some in E as (_ & e & ? & _). eauto.
  - destruct (topology_routes d) as [|x l]; simpl; [done|]. intros [= <-].
    by inversion Hl as [|? ? [e ?] ?]; eauto.
Qed.

Lemma read_of_in s d r : read_of s d = Some r -> r ∈ topology_routes d.
Proof.
  unfold read_of. destruct (List.find _ _) as [r'|] eqn:E.
  - intros [= <-]. by apply find_live_some in E as [? _].
  - destruct (topology_routes d); simpl; [done|]. intros [= <-]. by left.
Qed.

Lemma select_of_live s d r :
  select_of s d = Some r ->
  r ∈ topology_routes d /\ exists e, routes s !! r = Some e /\ satisfies_fc (fdistance d) e = true.
Proof. apply find_live_some. Qed.

(** The feasibility condition of RFC 7868, as a specification. *)
Definition feasible (fd : Z) (e : eigrp_route_descriptor) : Prop :=
  rd_distance e <> EIGRP_MAX_METRIC /\ rd_reported_distance e < fd.
Definition none_feasible s (d : eigrp_prefix_descriptor) : Prop :=
  forall r e, r ∈ topology_routes d -> routes s !! r = Some e -> ~ feasible (fdistance d) e.

Lemma satisfies_fc_spec fd e : satisfies_fc fd e = true <-> feasible fd e.
Proof.
  unfold satisfies_fc, reachable, feasible. rewrite andb_true_iff, negb_true_iff, Z.eqb_neq, Z.ltb_lt.
  done.
Qed.

Lemma select_none s d : select_of s d = None <-> none_feasible s d.
Proof.
  unfold select_of, none_feasible. split.
  - intros H r e Hr He Hf. apply satisfies_fc_spec in Hf.
    pose proof (List.find_none _ _ H r) as Hn. unfold on_route in Hn. rewrite He, Hf in Hn.
    discriminate Hn. by apply list_elem_of_In.
  - intros H. destruct (List.find _ _) as [r|] eqn:E; [|done].
    apply find_live_some in E as (Hr & e & He & Hfc). apply satisfies_fc_spec in Hfc. by destruct (H r e).
Qed.
End queues.

(** ** Only route flags and the host RIB changed *)

Definition strip_flags (d : eigrp_route_descriptor) : eigrp_route_descriptor :=
  {| d with rd_flags := 0 |}.

Definition hide_routes (s : eigrp_instance) : eigrp_instance :=
  {| s with routes := ∅; rib_log := []; rib_answers := []; mem := [] |}.

Record upto_flags (s s' : eigrp_instance) : Prop := {
  uf_rest : hide_routes s' = hide_routes s;
  uf_routes : forall r, strip_flags <$> routes s' !! r = strip_flags <$> routes s !! r;
  uf_mem : mem s = [] -> mem s' = [];
}.

#[export] Instance upto_flags_preorder : PreOrder upto_flags.
Proof.
  split.
  - by constructor.
  - intros s1 s2 s3 [H1 R1 M1] [H2 R2 M2]. constructor.
    + by rewrite H2, H1.
    + intros r. by rewrite R2, R1.
    + auto.
Qed.

Section flags_frame.
Implicit Types s : eigrp_instance.

Lemma upto_flags_prefixes s s' : upto_flags s s' -> prefixes s' = prefixes s.
Proof. intros [H _ _]. exact (f_equal prefixes H). Qed.
Lemma upto_flags_nbrs s s' : upto_flags s s' -> nbrs s' = nbrs s.
Proof. intros [H _ _]. exact (f_equal nbrs H). Qed.
Lemma upto_flags_intfs s s' : upto_flags s s' -> intfs s' = intfs s.
Proof. intros [H _ _]. exact (f_equal intfs H). Qed.

Lemma upto_flags_lookup s s' r d :
  upto_flags s s' -> routes s !! r = Some d ->
  exists d', routes s' !! r = Some d' /\ strip_flags d' = strip_flags d.
Proof.
  intros [_ HR _] Hd. specialize (HR r). rewrite Hd in HR.
  destruct (routes s' !! r) as [d'|]; [|done]. apply (inj Some) in HR. eauto.
Qed.

Lemma upto_flags_live s s' l : upto_flags s s' -> live_routes s l -> live_routes s' l.
Proof.
  intros H Hl. eapply Forall_impl; [exact Hl|]. intros r [d Hd].
  edestruct upto_flags_lookup as (d' & -> & _); eauto.
Qed.

Lemma upto_flags_upd r d s f :
  routes s !! r = Some d -> strip_flags (f d) = strip_flags d ->
  upto_flags s (set_route s r (f d)).
Proof.
  intros Hd Hf. constructor; [done| |done].
  intros r'. simpl. destruct (decide (r' = r)) as [->|Hne].
  - rewrite lookup_insert_eq, Hd. simpl. by rewrite Hf.
  - by rewrite lookup_insert_ne.
Qed.

Lemma upto_flags_rib_log s op : upto_flags s {| s with rib_log := rib_log s ++ [op] |}.
Proof. by constructor. Qed.
End flags_frame.
