(* ===== verification/Marking.v ===== *)
(** * Successor marking and host RIB refresh: behaviour

    Exact effect of [eigrp_topology_update_node_flags] and
    [eigrp_update_routing_table] on the flags of the routes, and the DUAL
    properties of the resulting successor set. *)

From Stdlib Require Import ZArith Lia.
From stdpp Require Import base gmap list.
From S2P Require Import Prelude Types Metric Prefix State Topology Fsm Store.

(** ** Flag updates *)

Definition with_flags (g : Z -> Z) (d : eigrp_route_descriptor) : eigrp_route_descriptor :=
  {| d with rd_flags := g (rd_flags d) |}.

(** [s'] is [s] with the flags of every route [r] rewritten by [g r]. *)
Record flags_by (g : ptr -> Z -> Z) (s s' : eigrp_instance) : Prop := {
  fb_upto : upto_flags s s';
  fb_routes : forall r, routes s' !! r = with_flags (g r) <$> routes s !! r;
  fb_log : rib_log s' = rib_log s;
}.

Definition flag_update (l : list ptr) (f : Z -> Z) (r : ptr) : Z -> Z :=
  if bool_decide (r ∈ l) then f else id.

Section flag_updates.
Implicit Types (s : eigrp_instance) (g : ptr -> Z -> Z).

Lemma flags_by_ext g1 g2 s s' :
  flags_by g1 s s' -> (forall r f, is_Some (routes s !! r) -> g1 r f = g2 r f) -> flags_by g2 s s'.
Proof.
  intros [H1 H2 H3] Hg. split; [done| |done]. intros r. rewrite H2.
  destruct (routes s !! r) as [d|] eqn:E; [|done]. simpl. unfold with_flags.
  by rewrite Hg.
Qed.

Lemma flags_by_refl s : flags_by (fun _ => id) s s.
Proof. split; [done| |done]. intros r. destruct (routes s !! r) as [[]|]; done. Qed.

Lemma flags_by_trans g1 g2 s1 s2 s3 :
  flags_by g1 s1 s2 -> flags_by g2 s2 s3 -> flags_by (fun r f => g2 r (g1 r f)) s1 s3.
Proof.
  intros [H1 R1 L1] [H2 R2 L2]. split; [by transitivity s2| |congruence].
  intros r. rewrite R2, R1. by destruct (routes s1 !! r).
Qed.

Lemma flags_by_live g s s' l : flags_by g s s' -> live_routes s l -> live_routes s' l.
Proof. intros [H _ _]. by apply upto_flags_live. Qed.

Lemma wp_flag_route f r d Q s :
  routes s !! r = Some d ->
  (forall s', flags_by (flag_update [r] f) s s' -> Q tt s') ->
  wp (upd_route r (with_flags f)) Q s.
Proof.
  intros Hr HQ. wp_simpl. apply HQ. split; [| |done].
  - by apply (upto_flags_upd r d s).
  - intros r'. unfold flag_update. simpl.
    destruct (decide (r' = r)) as [->|Hne].
    + rewrite lookup_insert_eq, Hr, bool_decide_true by (by apply list_elem_of_singleton). done.
    + rewrite lookup_insert_ne, bool_decide_false by (rewrite ?list_elem_of_singleton; done).
      destruct (routes s !! r') as [[]|]; done.
Qed.

Lemma wp_flag_routes f l Q s :
  (forall x, f (f x) = f x) -> live_routes s l ->
  (forall s', flags_by (flag_update l f) s s' -> Q tt s') ->
  wp (mfor l (fun r => upd_route r (with_flags f))) Q s.
Proof.
  intros Hf Hl HQ. revert s Hl HQ. induction l as [|r l IH]; intros s Hl HQ; simpl.
  - wp_simpl. apply HQ. eapply flags_by_ext; [apply flags_by_refl|]. done.
  - inversion Hl as [|? ? [d Hd] Hl']; subst. rewrite wp_bind.
    eapply wp_flag_route; [done|]. intros s1 H1. apply IH; [by eapply flags_by_live|].
    intros s2 H2. apply HQ. eapply flags_by_ext; [by eapply flags_by_trans|].
    intros x y _. unfold flag_update.
    repeat case_bool_decide; rewrite ?list_elem_of_singleton, ?elem_of_cons in *;
      simpl; rewrite ?Hf; tauto.
Qed.

Lemma clear_flags_idem mask x : Z.ldiff (Z.ldiff x mask) mask = Z.ldiff x mask.
Proof.
  apply Z.bits_inj'. intros n _. rewrite !Z.ldiff_spec.
  destruct (Z.testbit x n), (Z.testbit mask n); done.
Qed.
Lemma set_flags_idem mask x : Z.lor (Z.lor x mask) mask = Z.lor x mask.
Proof. by rewrite <-Z.lor_assoc, Z.lor_diag. Qed.

Lemma wp_clear_all mask l Q s :
  live_routes s l ->
  (forall s', flags_by (flag_update l (fun f => Z.ldiff f mask)) s s' -> Q tt s') ->
  wp (mfor l (clear_flags mask)) Q s.
Proof. apply (wp_flag_routes (fun f => Z.ldiff f mask)). apply clear_flags_idem. Qed.
Lemma wp_set_all mask l Q s :
  live_routes s l ->
  (forall s', flags_by (flag_update l (fun f => Z.lor f mask)) s s' -> Q tt s') ->
  wp (mfor l (set_flags mask)) Q s.
Proof. apply (wp_flag_routes (fun f => Z.lor f mask)). apply set_flags_idem. Qed.
End flag_updates.

(** ** The marks of the loop *)

Section marks.
Context (s : eigrp_instance) (fd d var mp : Z).

Definition feasible_route (route : eigrp_route_descriptor) : bool :=
  rd_reported_distance route <? fd.
Definition within_variance (route : eigrp_route_descriptor) : bool :=
  reachable route && (rd_distance route <=? d * var).

Fixpoint marks (count : Z) (l : list ptr) : list (ptr * Z) :=
  match l with
  | [] => []
  | r :: l' =>
      if on_route s feasible_route r then
        if on_route s within_variance r && (count <? mp)
        then (r, EIGRP_ROUTE_DESCRIPTOR_SUCCESSOR_FLAG) :: marks (count + 1) l'
        else (r, EIGRP_ROUTE_DESCRIPTOR_FSUCCESSOR_FLAG) :: marks count l'
      else (r, 0) :: marks count l'
  end.

Definition mark_of (count : Z) (l : list ptr) (r : ptr) : Z :=
  match List.find (fun m => Nat.eqb (fst m) r) (marks count l) with
  | Some (_, f) => f
  | None => 0
  end.

Lemma marks_fst count l : fst <$> marks count l = l.
Proof.
  revert count. induction l as [|r l IH]; intros count; simpl; [done|].
  destruct (on_route _ _ _); [destruct (_ && _)|]; simpl; by rewrite IH.
Qed.

Lemma mark_of_in count l r :
  r ∈ l -> (r, mark_of count l r) ∈ marks count l.
Proof.
  intros Hr. unfold mark_of. destruct (List.find _ _) as [[x f]|] eqn:E.
  - apply List.find_some in E as [Hin Heq]. apply list_elem_of_In in Hin.
    simpl in Heq. apply Nat.eqb_eq in Heq. by subst.
  - exfalso. rewrite <-(marks_fst count l) in Hr.
    apply list_elem_of_fmap in Hr as ([x f] & -> & Hin). simpl in *.
    apply find_none_forall in E. rewrite Forall_forall in E.
    apply E in Hin. simpl in Hin. by rewrite Nat.eqb_refl in Hin.
Qed.

Lemma mark_of_notin count l r : r ∉ l -> mark_of count l r = 0.
Proof.
  intros Hr. unfold mark_of. destruct (List.find _ _) as [[x f]|] eqn:E; [|done].
  exfalso. apply Hr. apply List.find_some in E as [Hin Heq].
  apply list_elem_of_In in Hin. simpl in Heq. apply Nat.eqb_eq in Heq as <-.
  rewrite <-(marks_fst count l). by apply (list_elem_of_fmap_2 fst _ (x, f)).
Qed.

Lemma mark_of_cons count r l r' :
  r ∉ l ->
  mark_of count (r :: l) r' =
    if Nat.eqb r r' then
      if on_route s feasible_route r then
        if on_route s within_variance r && (count <? mp)
        then EIGRP_ROUTE_DESCRIPTOR_SUCCESSOR_FLAG else EIGRP_ROUTE_DESCRIPTOR_FSUCCESSOR_FLAG
      else 0
    else mark_of (if on_route s feasible_route r && (on_route s within_variance r && (count <? mp))
                  then count + 1 else count) l r'.
Proof.
  intros _. unfold mark_of. simpl.
  destruct (on_route s feasible_route r); simpl;
    [destruct (on_route s within_variance r && (count <? mp)); simpl|];
    destruct (Nat.eqb r r'); done.
Qed.

(** The routes that count as successors: feasible, reachable and within variance. *)
Definition candidate (r : ptr) : bool := on_route s feasible_route r && on_route s within_variance r.

(** The mark of a route by its place in the queue: [mp] candidates become successors, the
    feasible rest feasible successors. *)
Lemma mark_of_at count pre r post :
  NoDup (pre ++ r :: post) ->
  mark_of count (pre ++ r :: post) r =
    if on_route s feasible_route r then
      if on_route s within_variance r && (count + Z.of_nat (length (List.filter candidate pre)) <? mp)
      then EIGRP_ROUTE_DESCRIPTOR_SUCCESSOR_FLAG else EIGRP_ROUTE_DESCRIPTOR_FSUCCESSOR_FLAG
    else 0.
Proof.
  revert count. induction pre as [|x pre IH]; intros count Hnd; simpl app in *; apply NoDup_cons in Hnd as [Hx Hnd].
  - rewrite mark_of_cons, Nat.eqb_refl by done. simpl. by rewrite Z.add_0_r.
  - rewrite mark_of_cons by done. destruct (Nat.eqb_spec x r) as [->|_]; [destruct Hx; apply elem_of_app; right; by left|].
    rewrite IH by done.
    change (List.filter candidate (x :: pre)) with
      (if on_route s feasible_route x && on_route s within_variance x then x :: List.filter candidate pre else List.filter candidate pre).
    destruct (on_route s feasible_route x), (on_route s within_variance x); cbn [andb]; try done.
    destruct (on_route s feasible_route r), (on_route s within_variance r); cbn [andb]; try done.
    simpl length. destruct (Z.ltb_spec count mp).
    + by replace (count + 1 + _) with (count + Z.of_nat (S (length (List.filter candidate pre)))) by lia.
    + rewrite !(proj2 (Z.ltb_ge _ _)) by lia. done.
Qed.

(** What a mark says of the route. *)
Lemma mark_spec count l r f :
  (r, f) ∈ marks count l ->
  (f = EIGRP_ROUTE_DESCRIPTOR_SUCCESSOR_FLAG
     /\ on_route s feasible_route r = true /\ on_route s within_variance r = true)
  \/ (f = EIGRP_ROUTE_DESCRIPTOR_FSUCCESSOR_FLAG /\ on_route s feasible_route r = true)
  \/ (f = 0 /\ on_route s feasible_route r = false).
Proof.
  revert count. induction l as [|x l IH]; intros count; simpl.
  - by intros ?%not_elem_of_nil.
  - destruct (on_route s feasible_route x) eqn:Ef;
      [destruct (on_route s within_variance x) eqn:Ew; [destruct (count <? mp)|]|]; simpl;
      intros [[= <- <-]|H]%elem_of_cons; eauto 8.
Qed.

(** The loop marks at most [mp] successors. *)
Lemma marks_bound count l :
  count <= Z.max count mp ->
  count + Z.of_nat (length (filter (fun m => snd m = EIGRP_ROUTE_DESCRIPTOR_SUCCESSOR_FLAG)
                              (marks count l))) <= Z.max count mp.
Proof.
  revert count. induction l as [|x l IH]; intros count Hc; simpl; [lia|].
  assert (Hrec : forall c, count <= c <= Z.max count mp ->
    c + Z.of_nat (length (filter (fun m => snd m = EIGRP_ROUTE_DESCRIPTOR_SUCCESSOR_FLAG)
      (marks c l))) <= Z.max count mp).
  { intros c Hc'. specialize (IH c). lia. }
  destruct (on_route s feasible_route x); [|rewrite filter_cons_False by done; apply Hrec; lia].
  destruct (on_route s within_variance x && (count <? mp)) eqn:E.
  - rewrite filter_cons_True by done. simpl.
    apply andb_true_iff in E as [_ E%Z.ltb_lt].
    specialize (Hrec (count + 1)). lia.
  - rewrite filter_cons_False by done. apply Hrec; lia.
Qed.
End marks.

Section mark_loop.
Implicit Types s : eigrp_instance.

Lemma on_route_flags g s s' P r :
  flags_by g s s' -> (forall h d, P (with_flags h d) = P d) -> on_route s' P r = on_route s P r.
Proof.
  intros [_ H _] HP. unfold on_route. rewrite H. destruct (routes s !! r); simpl; [apply HP|done].
Qed.

Lemma marks_flags g s s' fd d var mp count l :
  flags_by g s s' -> marks s' fd d var mp count l = marks s fd d var mp count l.
Proof.
  intros H. revert count. induction l as [|r l IH]; intros count; simpl; [done|].
  rewrite !(on_route_flags g s s') by done. by rewrite !IH.
Qed.

Lemma mark_of_flags g s s' fd d var mp count l r :
  flags_by g s s' -> mark_of s' fd d var mp count l r = mark_of s fd d var mp count l r.
Proof. intros H. unfold mark_of. by rewrite (marks_flags g s s'). Qed.

Lemma wp_mark_successors fd d var mp count l Q s :
  NoDup l -> live_routes s l ->
  (forall s', flags_by (fun r f => Z.lor f (mark_of s fd d var mp count l r)) s s' -> Q tt s') ->
  wp (mark_successors fd d var mp count l) Q s.
Proof.
  intros Hnd Hl HQ. revert s count Hl HQ.
  induction Hnd as [|r l Hr Hnd IH]; intros s count Hl HQ; simpl.
  { wp_simpl. apply HQ. eapply flags_by_ext; [apply flags_by_refl|].
    intros r f _. by rewrite Z.lor_0_r. }
  inversion Hl as [|? ? [e He] Hl']; subst. rewrite wp_bind. wp_simpl.
  assert (Hgo : forall m c,
    (forall r', r' <> r -> mark_of s fd d var mp count (r :: l) r' = mark_of s fd d var mp c l r') ->
    mark_of s fd d var mp count (r :: l) r = m ->
    wp (set_flags m r;; mark_successors fd d var mp c l) Q s).
  { intros m c Hne Heq. rewrite wp_bind. unfold set_flags.
    apply (wp_flag_route (fun f => Z.lor f m) r e); [done|]. intros s1 H1.
    apply IH; [by eapply flags_by_live|]. intros s2 H2. apply HQ.
    eapply flags_by_ext; [by eapply flags_by_trans|]. intros r' f _. cbv beta.
    rewrite (mark_of_flags _ _ _ _ _ _ _ _ _ _ H1). unfold flag_update.
    case_bool_decide as Hin; rewrite list_elem_of_singleton in Hin.
    - subst. rewrite (mark_of_notin _ _ _ _ _ c l r Hr), Z.lor_0_r. done.
    - by rewrite Hne. }
  assert (Hcons := mark_of_cons s fd d var mp count r l).
  unfold on_route in Hcons. rewrite He in Hcons.
  change (rd_reported_distance e <? fd) with (feasible_route fd e).
  change (reachable e && (rd_distance e <=? d * var)) with (within_variance d var e).
  destruct (feasible_route fd e); [destruct (within_variance d var e && (count <? mp))|];
    simpl in Hcons.
  1, 2: apply Hgo; [intros r' Hne; rewrite Hcons by done|rewrite Hcons, Nat.eqb_refl by done; done];
    rewrite (proj2 (Nat.eqb_neq r r')) by done; done.
  apply IH; [done|]. intros s' H'. apply HQ. eapply flags_by_ext; [exact H'|].
  intros r' f _. simpl. rewrite Hcons by done.
  destruct (Nat.eqb_spec r r') as [<-|]; [|done]. by rewrite mark_of_notin.
Qed.

(** The queue whose routes may be marked, and the marks of a destination. *)
Definition eligible_queue s (dest : eigrp_prefix_descriptor) : list ptr :=
  match select_of s dest with
  | None => []
  | Some b => queue_of (on_route s eigrp_topology_route_external b) dest
  end.

Definition effective_max_paths s : Z :=
  if max_paths s =? 0 then EIGRP_MAX_PATHS_DEFAULT else max_paths s.

Definition node_mark s (dest : eigrp_prefix_descriptor) (r : ptr) : Z :=
  mark_of s (fdistance dest) (distance dest) (variance s) (effective_max_paths s) 0
    (eligible_queue s dest) r.

Definition node_flags s (dest : eigrp_prefix_descriptor) (r : ptr) (f : Z) : Z :=
  Z.lor (flag_update (topology_routes dest) (fun f => Z.ldiff f SUCCESSOR_FLAGS) r f)
        (node_mark s dest r).

Lemma eligible_sub s dest r : r ∈ eligible_queue s dest -> r ∈ topology_routes dest.
Proof.
  unfold eligible_queue, topology_routes. destruct (select_of s dest); [|set_solver].
  destruct (on_route _ _ _); simpl; set_solver.
Qed.

Lemma eligible_live s dest :
  live_routes s (topology_routes dest) -> live_routes s (eligible_queue s dest).
Proof.
  unfold live_routes. rewrite !Forall_forall. intros H r Hr. by eapply H, eligible_sub.
Qed.

Lemma eligible_nodup s dest : NoDup (topology_routes dest) -> NoDup (eligible_queue s dest).
Proof.
  unfold eligible_queue, topology_routes. intros (H1 & _ & H2)%NoDup_app.
  destruct (select_of s dest); [|constructor]. by destruct (on_route _ _ _).
Qed.

Lemma wp_update_node_flags p dest Q s :
  prefixes s !! p = Some dest -> live_routes s (topology_routes dest) ->
  NoDup (topology_routes dest) ->
  (forall s', flags_by (node_flags s dest) s s' -> Q tt s') ->
  wp (eigrp_topology_update_node_flags p) Q s.
Proof.
  intros Hp Hl Hnd HQ. unfold eigrp_topology_update_node_flags. rewrite wp_bind.
  apply (wp_route_select p dest); [done|done|]. wp_simpl.
  assert (Hel : wp (match select_of s dest with
                    | None => mret []
                    | Some b => ext ← eigrp_topology_route_class_queue b; mret (queue_of ext dest)
                    end) (fun l s' => l = eligible_queue s dest /\ s' = s) s).
  { unfold eligible_queue. destruct (select_of s dest) as [b|] eqn:E; [|done].
    apply select_of_live in E as (_ & e & He & _).
    unfold eigrp_topology_route_class_queue, on_route. wp_simpl. by rewrite He. }
  eapply wp_mono; [exact Hel|]. intros l s1 [-> ->]. wp_simpl.
  apply wp_clear_all; [done|]. intros s1 H1.
  apply wp_mark_successors; [by apply eligible_nodup|by eapply flags_by_live, eligible_live|].
  intros s2 H2. apply HQ. eapply flags_by_ext; [by eapply flags_by_trans|].
  intros r f _. simpl. by rewrite (mark_of_flags _ _ _ _ _ _ _ _ _ _ H1).
Qed.
End mark_loop.

(** ** Host RIB refresh *)

(** The interface and the neighbor a stored route names are live. *)
Definition route_links (s : eigrp_instance) (d : eigrp_route_descriptor) : Prop :=
  (forall i, rd_ei d = Some i -> is_Some (intfs s !! i))
  /\ (forall n, rd_adv_router d = Some n -> is_Some (nbrs s !! n)).

Definition linked_routes (s : eigrp_instance) (l : list ptr) : Prop :=
  Forall (fun r => exists d, routes s !! r = Some d /\ route_links s d) l.

Definition successor_route (d : eigrp_route_descriptor) : bool :=
  rd_flags d .? EIGRP_ROUTE_DESCRIPTOR_SUCCESSOR_FLAG.

Section rib_refresh.
Implicit Types s : eigrp_instance.

Lemma linked_live s l : linked_routes s l -> live_routes s l.
Proof. intros H. eapply Forall_impl; [exact H|]. intros r (d & ? & _). eauto. Qed.

Lemma flags_by_linked g s s' l : flags_by g s s' -> linked_routes s l -> linked_routes s' l.
Proof.
  intros [Hu HR _] H. eapply Forall_impl; [exact H|]. intros r (d & Hd & H1 & H2).
  exists (with_flags (g r) d). split; [by rewrite HR, Hd|]. unfold route_links.
  rewrite (upto_flags_intfs s s'), (upto_flags_nbrs s s') by done. done.
Qed.

Lemma wp_collect_successors l Q s :
  live_routes s l -> mem s = [] ->
  Q (List.filter (on_route s successor_route) l) s -> wp (collect_successors l) Q s.
Proof.
  intros Hl Hm. revert Q. induction Hl as [|r l [d Hd] Hl IH]; intros Q HQ; simpl in *; [done|].
  wp_simpl. unfold on_route in HQ at 1. rewrite Hd in HQ. unfold successor_route in HQ at 1.
  destruct (rd_flags d .? EIGRP_ROUTE_DESCRIPTOR_SUCCESSOR_FLAG); [|by apply IH].
  wp_simpl. apply IH. by wp_simpl.
Qed.

(** The next hops of the host's route: the gateway is the neighbor's address, the weight
    its share when traffic is balanced. *)
Definition nexthop_gateway s (e : eigrp_route_descriptor) : option eigrp_address :=
  n ← rd_adv_router e;
  nb ← nbrs s !! n;
  let src := nbr_src nb in
  if (addr_afi src =? AF_INET) && negb (all_zero (v4_of src)) then
    Some {| afi := EIGRP_AFI_IPV4; bytes := v4_of src ++ zero_bytes 12 |}
  else if (addr_afi src =? AF_INET6) && negb (all_zero (addr_ip src)) then
    Some {| afi := EIGRP_AFI_IPV6; bytes := addr_ip src |}
  else None.

Definition nexthop_weight s (largest : Z) (e : eigrp_route_descriptor) : Z :=
  if traffic_share_balanced s && negb (largest =? 0) && negb (rd_distance e =? 0) && reachable e then
    let share := largest / rd_distance e in if share =? 0 then 1 else share
  else 0.

Definition nexthop_of s (largest : Z) (r : ptr) : option eigrp_rib_nexthop :=
  e ← routes s !! r;
  i ← rd_ei e;
  ei ← intfs s !! i;
  Some {| nh_ifindex := ifindex ei; gateway_present := bool_decide (is_Some (nexthop_gateway s e));
          gateway := default zero_address (nexthop_gateway s e); weight := nexthop_weight s largest e |}.

Definition largest_distance s (l : list ptr) : Z :=
  foldr (fun r acc => if on_route s reachable r then Z.max (route_dist s r) acc else acc) 0 l.

(** The first 32 next hops of [l]; routes without an interface have none. *)
Definition nexthops_of s (l : list ptr) : list eigrp_rib_nexthop :=
  take (Z.to_nat EIGRP_MAX_PATHS_MAX)
    (omap (nexthop_of s (if traffic_share_balanced s then largest_distance s l else 0)) l).

Lemma largest_distance_nonneg s l : 0 <= largest_distance s l.
Proof. induction l; simpl; [done|]. destruct (on_route _ _ _); lia. Qed.

Lemma wp_largest_metric l acc Q s :
  live_routes s l -> 0 <= acc -> Q (Z.max acc (largest_distance s l)) s -> wp (largest_metric l acc) Q s.
Proof.
  intros Hl. revert acc. induction Hl as [|r l [d Hd] Hl IH]; intros acc H0 HQ; simpl in *.
  { rewrite Z.max_l in HQ by lia. by wp_simpl. }
  wp_simpl. unfold on_route, route_dist in HQ. rewrite Hd in HQ. pose proof (largest_distance_nonneg s l).
  destruct (reachable d); cbn [andb]; [|by apply IH].
  destruct (Z.ltb_spec acc (rd_distance d)); apply IH; try lia; [|].
  - by rewrite Z.max_assoc, (Z.max_r acc (rd_distance d)) in HQ by lia.
  - by rewrite Z.max_assoc, (Z.max_l acc (rd_distance d)) in HQ by lia.
Qed.

Lemma wp_southbound_nexthop r (Q : option eigrp_rib_nexthop -> eigrp_instance -> Prop) s :
  linked_routes s [r] -> Q (nexthop_of {| s with traffic_share_balanced := false |} 0 r) s ->
  wp (eigrp_topology_southbound_nexthop r) Q s.
Proof.
  intros H HQ. inversion H as [|? ? (d & Hd & Hi & Hn) _]; subst.
  unfold eigrp_topology_southbound_nexthop. unfold nexthop_of, nexthop_gateway, nexthop_weight in HQ.
  simpl in HQ. rewrite Hd in HQ. simpl in HQ. wp_simpl.
  destruct (rd_ei d) as [i|]; [|by wp_simpl]. destruct (Hi i eq_refl) as [ei Hei]. simpl in HQ. rewrite Hei in HQ. simpl in HQ. wp_simpl.
  destruct (rd_adv_router d) as [n|]; [|by wp_simpl]. destruct (Hn n eq_refl) as [nb Hnb]. simpl in HQ. rewrite Hnb in HQ. simpl in HQ. wp_simpl.
  repeat case_match; wp_simpl; exact HQ.
Qed.

(** The loop sets the weight of each next hop. *)
Lemma nexthop_weighted s lg r d : routes s !! r = Some d ->
  nexthop_of s lg r =
    nh ← nexthop_of {| s with traffic_share_balanced := false |} 0 r;
    Some (if traffic_share_balanced s && negb (lg =? 0) && negb (rd_distance d =? 0) && reachable d
          then let w := lg / rd_distance d in {| nh with weight := if w =? 0 then 1 else w |} else nh).
Proof.
  intros Hd. unfold nexthop_of, nexthop_weight. simpl. rewrite Hd. simpl. destruct (rd_ei d) as [i|]; [|done]. simpl.
  destruct (intfs s !! i); [|done]. simpl. by destruct (_ && _).
Qed.

Lemma wp_nexthops_loop lg l cap (Q : list eigrp_rib_nexthop -> eigrp_instance -> Prop) s :
  linked_routes s l -> Q (take cap (omap (nexthop_of s lg) l)) s ->
  wp (southbound_nexthops_loop (traffic_share_balanced s) lg l cap) Q s.
Proof.
  intros Hl. revert cap Q. induction Hl as [|r l Hr Hl IH]; intros cap Q HQ; simpl.
  { wp_simpl. simpl in HQ; by rewrite take_nil in HQ. }
  destruct cap as [|cap]; [by wp_simpl|]. rewrite wp_bind.
  apply wp_southbound_nexthop; [by constructor|]. destruct Hr as (d & Hd & _).
  change (omap (nexthop_of s lg) (r :: l)) with
    (match nexthop_of s lg r with Some nh => nh :: omap (nexthop_of s lg) l | None => omap (nexthop_of s lg) l end) in HQ.
  rewrite (nexthop_weighted s lg r d Hd) in HQ.
  destruct (nexthop_of _ 0 r) as [nh|]; simpl in HQ; [|by apply IH]. wp_simpl.
  apply IH. by wp_simpl.
Qed.

Lemma wp_southbound_nexthops l (Q : list eigrp_rib_nexthop -> eigrp_instance -> Prop) s :
  linked_routes s l -> Q (nexthops_of s l) s ->
  wp (eigrp_topology_southbound_nexthops l (Z.to_nat EIGRP_MAX_PATHS_MAX)) Q s.
Proof.
  intros Hl HQ. unfold eigrp_topology_southbound_nexthops, nexthops_of in *. wp_simpl.
  destruct (traffic_share_balanced s) eqn:Eb.
  - apply wp_largest_metric; [by apply linked_live|done|]. rewrite Z.max_r by apply largest_distance_nonneg.
    rewrite <-Eb. by apply wp_nexthops_loop.
  - wp_simpl. rewrite <-Eb. by apply wp_nexthops_loop.
Qed.

(** The flags of routes do not matter to the next hops. *)
Lemma nexthops_flags g s s' l : flags_by g s s' -> nexthops_of s' l = nexthops_of s l.
Proof.
  intros F. pose proof (fb_upto _ _ _ F) as U. unfold nexthops_of.
  assert (traffic_share_balanced s' = traffic_share_balanced s) as Eb by (apply (f_equal traffic_share_balanced (uf_rest _ _ U))).
  assert (largest_distance s' l = largest_distance s l) as El.
  { induction l as [|r l IH]; simpl; [done|]. rewrite IH, (on_route_flags g s s') by done.
    unfold route_dist. rewrite (fb_routes _ _ _ F). by destruct (routes s !! r). }
  rewrite Eb, El. f_equal. apply list_omap_ext, Forall_Forall2_diag, Forall_forall. intros r _.
  unfold nexthop_of, nexthop_weight, nexthop_gateway. rewrite (fb_routes _ _ _ F), Eb, (upto_flags_intfs s s'), (upto_flags_nbrs s s') by done.
  by destruct (routes s !! r).
Qed.

(** The routes the refresh leaves in the host RIB. *)
Definition installed_set s (dest : eigrp_prefix_descriptor) : list ptr :=
  take (Z.to_nat (max_paths s)) (List.filter (on_route s successor_route) (topology_routes dest)).

Definition table_flags s (dest : eigrp_prefix_descriptor) (r : ptr) (f : Z) : Z :=
  flag_update (installed_set s dest) (fun f => Z.lor f EIGRP_ROUTE_DESCRIPTOR_INTABLE_FLAG) r
    (flag_update (topology_routes dest)
       (fun f => Z.ldiff f EIGRP_ROUTE_DESCRIPTOR_INTABLE_FLAG) r f).

(** The route of the host: the class of the first installed route gives its type, distance
    and tag. *)
Definition installed_route s (dest : eigrp_prefix_descriptor) : eigrp_rib_route :=
  let first := r ← head (installed_set s dest); routes s !! r in
  let external := match first with Some e => eigrp_topology_route_external e | None => false end in
  {| rib_prefix := destination dest; nexthops := nexthops_of s (installed_set s dest); rib_metric := distance dest;
     rib_tag := match first with Some e => if external then ext_tag (rd_extdata e) else 0 | None => 0 end;
     admin_dist := if external then distance_external s else distance_internal s;
     rib_type := if external then EIGRP_RIB_ROUTE_EXTERNAL else EIGRP_RIB_ROUTE_INTERNAL |}.

(** The call the refresh makes to the host; none when no installed route has an
    interface. *)
Definition rib_refresh s (dest : eigrp_prefix_descriptor) : list rib_op :=
  if bool_decide (List.filter (on_route s successor_route) (topology_routes dest) = []) then [RibDel (destination dest)]
  else if bool_decide (nexthops_of s (installed_set s dest) = []) then []
  else [RibAdd (installed_route s dest)].

Lemma intable_keeps_successor f d :
  f = (fun x => Z.ldiff x EIGRP_ROUTE_DESCRIPTOR_INTABLE_FLAG) \/ f = id ->
  successor_route (with_flags f d) = successor_route d.
Proof.
  intros [->| ->]; [|done]. unfold successor_route; simpl.
  rewrite successor_flag_pow, has_flag_ldiff by lia.
  by rewrite andb_true_r.
Qed.

Lemma filter_successors_cleared s s1 (dest : eigrp_prefix_descriptor) :
  flags_by (flag_update (topology_routes dest)
    (fun f => Z.ldiff f EIGRP_ROUTE_DESCRIPTOR_INTABLE_FLAG)) s s1 ->
  forall l, List.filter (on_route s1 successor_route) l
          = List.filter (on_route s successor_route) l.
Proof.
  intros [_ HR _] l. apply List.filter_ext. intros r. unfold on_route. rewrite HR.
  destruct (routes s !! r) as [d|]; [|done]. simpl.
  apply intable_keeps_successor. unfold flag_update. case_bool_decide; auto.
Qed.

Lemma wp_rib_route_add route Q s :
  (forall a s', upto_flags s s' -> routes s' = routes s ->
     rib_log s' = rib_log s ++ [RibAdd route] -> Q a s') ->
  wp (eigrp_rib_route_add route) Q s.
Proof.
  intros HQ. unfold wp, eigrp_rib_route_add. simpl.
  destruct (rib_answers s) as [|a l] eqn:E; apply HQ; done.
Qed.

Lemma installed_sub s dest r : r ∈ installed_set s dest -> r ∈ topology_routes dest.
Proof.
  intros (i & Hr & _)%elem_of_take. apply list_elem_of_lookup_2 in Hr.
  apply list_elem_of_In, List.filter_In in Hr as [Hr _]. by apply list_elem_of_In.
Qed.

Lemma installed_linked s dest :
  linked_routes s (topology_routes dest) -> linked_routes s (installed_set s dest).
Proof.
  unfold linked_routes. rewrite !Forall_forall. intros H r Hr. by eapply H, installed_sub.
Qed.

Lemma wp_first_route l (Q : option eigrp_route_descriptor -> eigrp_instance -> Prop) s :
  live_routes s l -> Q (r ← head l; routes s !! r) s ->
  wp (match l with [] => mret None | r :: _ => route ← get_route r; mret (Some route) end) Q s.
Proof. destruct 1 as [|r l' [d Hd] _]; simpl; [by wp_simpl|]. rewrite Hd. by wp_simpl. Qed.

(** The call is the same with other flags. *)
Lemma installed_route_flags g s s1 dest : flags_by g s s1 ->
  let first := r ← head (installed_set s dest); routes s1 !! r in
  let external := match first with Some route => eigrp_topology_route_external route | None => false end in
  {| rib_prefix := destination dest; nexthops := nexthops_of s (installed_set s dest); rib_metric := distance dest;
     rib_tag := match first with Some route => if external then ext_tag (rd_extdata route) else 0 | None => 0 end;
     admin_dist := if external then distance_external s1 else distance_internal s1; rib_type := rib_class external |}
  = installed_route s dest.
Proof.
  intros F. pose proof (fb_upto _ _ _ F) as U. unfold installed_route. cbv zeta.
  assert (distance_external s1 = distance_external s) as -> by (apply (f_equal distance_external (uf_rest _ _ U))).
  assert (distance_internal s1 = distance_internal s) as -> by (apply (f_equal distance_internal (uf_rest _ _ U))).
  destruct (head (installed_set s dest)) as [r|]; [|done]. simpl. rewrite (fb_routes _ _ _ F). by destruct (routes s !! r).
Qed.

(** [s'] after the refresh: new flags and one more call in the host log. *)
Record rib_refreshed (dest : eigrp_prefix_descriptor) (s s' : eigrp_instance) : Prop := {
  rr_upto : upto_flags s s';
  rr_routes : forall r, routes s' !! r = with_flags (table_flags s dest r) <$> routes s !! r;
  rr_log : rib_log s' = rib_log s ++ rib_refresh s dest;
}.

Lemma rib_refreshed_compose dest g1 g2 ops s s1 s2 s3 :
  flags_by g1 s s1 -> upto_flags s1 s2 -> routes s2 = routes s1 ->
  rib_log s2 = rib_log s1 ++ ops -> flags_by g2 s2 s3 ->
  (forall r f, g2 r (g1 r f) = table_flags s dest r f) ->
  ops = rib_refresh s dest -> rib_refreshed dest s s3.
Proof.
  intros [U1 R1 L1] U2 R2 L2 [U3 R3 L3] Hg ->. split.
  - by do 2 (etrans; [eassumption|]).
  - intros r. rewrite R3, R2, R1. destruct (routes s !! r) as [d|]; [|done]. simpl.
    unfold with_flags; simpl. by rewrite Hg.
  - by rewrite L3, L2, L1.
Qed.

Lemma wp_update_routing_table p dest Q s :
  prefixes s !! p = Some dest -> linked_routes s (topology_routes dest) -> mem s = [] ->
  (forall s', rib_refreshed dest s s' -> Q tt s') ->
  wp (eigrp_update_routing_table p) Q s.
Proof.
  intros Hp Hlk Hm HQ. assert (Hl := linked_live _ _ Hlk).
  unfold eigrp_update_routing_table. wp_simpl.
  apply wp_clear_all; [done|]. intros s1 H1. wp_simpl.
  assert (Hp1 : prefixes s1 !! p = Some dest)
    by (rewrite (upto_flags_prefixes s s1); [done|apply H1]).
  assert (Hm1 : mem s1 = []) by (by apply H1).
  assert (Hl1 : live_routes s1 (topology_routes dest)) by (by eapply flags_by_live).
  unfold eigrp_topology_successors_max_read, eigrp_topology_successors_read. wp_simpl.
  apply wp_collect_successors; [done|done|]. wp_simpl.
  rewrite (filter_successors_cleared s s1 dest) by done.
  assert (max_paths s1 = max_paths s) as ->
    by (apply (f_equal max_paths (uf_rest _ _ (fb_upto _ _ _ H1)))).
  destruct (List.filter _ (topology_routes dest)) as [|x l] eqn:El; simpl.
  - unfold eigrp_rib_route_del. wp_simpl. apply wp_clear_all; [exact Hl1|].
    intros s3 H3. apply HQ.
    eapply (rib_refreshed_compose dest _ _ [RibDel (destination dest)]);
      [exact H1|apply (upto_flags_rib_log s1)|done|done|exact H3| |].
    + intros r f. unfold table_flags, installed_set. rewrite El, take_nil.
      unfold flag_update. rewrite (bool_decide_false (r ∈ [])) by apply not_elem_of_nil.
      case_bool_decide; [apply clear_flags_idem|done].
    + unfold rib_refresh. by rewrite El.
  - rewrite <-El.
    change (take _ _) with (installed_set s dest).
    assert (Hinst : linked_routes s1 (installed_set s dest))
      by (eapply flags_by_linked; [exact H1|by apply installed_linked]).
    wp_simpl. apply wp_southbound_nexthops; [done|]. rewrite (nexthops_flags _ _ _ _ H1), wp_bind.
    assert (Hend : forall s2 ops, upto_flags s1 s2 -> routes s2 = routes s1 ->
      rib_log s2 = rib_log s1 ++ ops -> ops = rib_refresh s dest ->
      wp (mfor (installed_set s dest) (set_flags EIGRP_ROUTE_DESCRIPTOR_INTABLE_FLAG)) Q s2).
    { intros s2 ops U2 R2 L2 Hops. apply wp_set_all.
      - eapply upto_flags_live; [exact U2|]. by apply linked_live.
      - intros s3 H3. apply HQ. by eapply rib_refreshed_compose. }
    assert (rib_refresh s dest = if bool_decide (nexthops_of s (installed_set s dest) = []) then []
                                 else [RibAdd (installed_route s dest)]) as Er.
    { unfold rib_refresh. by rewrite El. }
    case_bool_decide as Enh.
    + rewrite Enh. wp_simpl. by apply (Hend s1 []); [|rewrite ?app_nil_r..].
    + destruct (nexthops_of s (installed_set s dest)) as [|nh nhs] eqn:En; [done|]. rewrite <-En.
      rewrite wp_bind, wp_gets, wp_bind, wp_gets, wp_bind.
      apply wp_first_route; [by apply linked_live|]. wp_simpl.
      rewrite (installed_route_flags _ _ _ _ H1). apply wp_rib_route_add. intros a s2 U2 R2 L2. wp_simpl. by eapply Hend.
Qed.
End rib_refresh.
