(* ===== verification/Frame.v ===== *)
(** * What a DUAL event may change

    [dual_frame p s s']: outside the descriptor of [p] and the flags of routes,
    an event of destination [p] only appends to the change list and the work
    queue, moves timers, calls the host RIB and allocates.  Rules that run the
    operations of [Fsm] and return the descriptor they leave. *)

From Stdlib Require Import ZArith Lia.
From stdpp Require Import base gmap list.
From S2P Require Import Prelude Types Metric Prefix State Topology Fsm Store Marking.

Definition hide_dual (s : eigrp_instance) : eigrp_instance :=
  {| s with routes := ∅; prefixes := ∅; topology_changes := []; packetizer_queue := [];
     timer_head := []; next_addr := 0%nat; mem := []; rib_answers := []; rib_log := [] |}.

(** Live routes stay, with their fields other than the flags. *)
Definition routes_keep (s s' : eigrp_instance) : Prop :=
  forall r d, routes s !! r = Some d ->
    exists d', routes s' !! r = Some d' /\ strip_flags d' = strip_flags d.

Definition all_below (s : eigrp_instance) : Prop :=
  (forall r : ptr, is_Some (routes s !! r) -> (r < next_addr s)%nat)
  /\ (forall p : ptr, is_Some (prefixes s !! p) -> (p < next_addr s)%nat).

Record dual_frame (p : ptr) (s s' : eigrp_instance) : Prop := {
  df_hide : hide_dual s' = hide_dual s;
  df_others : forall q, q <> p -> prefixes s' !! q = prefixes s !! q;
  df_routes : routes_keep s s';
  df_below : is_Some (prefixes s !! p) -> all_below s -> all_below s';
  df_alive : is_Some (prefixes s !! p) -> is_Some (prefixes s' !! p);
  df_mem : mem s = [] -> mem s' = [];
  df_changes : forall q, q ∈ topology_changes s' -> q ∈ topology_changes s \/ q = p;
  df_pending : forall q, q ∈ topology_changes s -> q ∈ topology_changes s';
  df_next : (next_addr s <= next_addr s')%nat;
}.

#[export] Instance dual_frame_preorder p : PreOrder (dual_frame p).
Proof.
  split.
  - intros s. split; try done; eauto. intros r d Hd. eauto.
  - intros s1 s2 s3 [H1 O1 R1 B1 A1 M1 C1 K1 N1] [H2 O2 R2 B2 A2 M2 C2 K2 N2]. split; auto; [| | | |lia].
    + by rewrite H2.
    + intros q Hq. by rewrite O2, O1.
    + intros r d Hd. destruct (R1 r d Hd) as (d1 & Hd1 & E1).
      destruct (R2 r d1 Hd1) as (d2 & Hd2 & E2). exists d2. by rewrite E2.
    + intros q [Hq| ->]%C2; [by apply C1|by right].
Qed.

Section frame_facts.
Implicit Types s : eigrp_instance.

Lemma frame_nbrs p s s' : dual_frame p s s' -> nbrs s' = nbrs s.
Proof. intros H. exact (f_equal nbrs (df_hide _ _ _ H)). Qed.
Lemma frame_intfs p s s' : dual_frame p s s' -> intfs s' = intfs s.
Proof. intros H. exact (f_equal intfs (df_hide _ _ _ H)). Qed.
Lemma frame_eiflist p s s' : dual_frame p s s' -> eiflist s' = eiflist s.
Proof. intros H. exact (f_equal eiflist (df_hide _ _ _ H)). Qed.
Lemma frame_max_paths p s s' : dual_frame p s s' -> max_paths s' = max_paths s.
Proof. intros H. exact (f_equal max_paths (df_hide _ _ _ H)). Qed.
Lemma frame_shutdown p s s' : dual_frame p s s' -> shutdown s' = shutdown s.
Proof. intros H. exact (f_equal shutdown (df_hide _ _ _ H)). Qed.
Lemma frame_running p s s' : dual_frame p s s' -> thread_running s' = thread_running s.
Proof. intros H. exact (f_equal thread_running (df_hide _ _ _ H)). Qed.
Lemma frame_table p s s' : dual_frame p s s' -> topology_table s' = topology_table s.
Proof. intros H. exact (f_equal topology_table (df_hide _ _ _ H)). Qed.
Lemma frame_table_nodes p s s' : dual_frame p s s' -> table_nodes s' = table_nodes s.
Proof. intros H. exact (f_equal table_nodes (df_hide _ _ _ H)). Qed.
Lemma frame_self p s s' : dual_frame p s s' -> neighbor_self s' = neighbor_self s.
Proof. intros H. exact (f_equal neighbor_self (df_hide _ _ _ H)). Qed.

Lemma strip_flags_eq d d' :
  strip_flags d' = strip_flags d ->
  rd_distance d' = rd_distance d /\ rd_reported_distance d' = rd_reported_distance d
  /\ rd_ei d' = rd_ei d /\ rd_adv_router d' = rd_adv_router d /\ rd_prefix d' = rd_prefix d
  /\ rd_total_metric d' = rd_total_metric d /\ rd_type d' = rd_type d
  /\ rd_reported_metric d' = rd_reported_metric d.
Proof. intros H. destruct d, d'. by simplify_eq/=. Qed.

Lemma frame_linked p s s' l :
  dual_frame p s s' -> linked_routes s l -> linked_routes s' l.
Proof.
  intros F H. eapply Forall_impl; [exact H|]. intros r (d & Hd & Hi & Hn).
  destruct (df_routes _ _ _ F r d Hd) as (d' & Hd' & E). exists d'. split; [done|].
  apply strip_flags_eq in E as (_ & _ & E1 & E2 & _). unfold route_links.
  rewrite (frame_intfs p s s'), (frame_nbrs p s s'), E1, E2 by done. done.
Qed.

Lemma frame_route_dist p s s' r :
  dual_frame p s s' -> is_Some (routes s !! r) -> route_dist s' r = route_dist s r.
Proof.
  intros F [d Hd]. unfold route_dist. destruct (df_routes _ _ _ F r d Hd) as (d' & -> & E).
  rewrite Hd. by apply strip_flags_eq in E as (-> & _).
Qed.

(** A test that does not read the flags. *)
Definition flag_blind (P : eigrp_route_descriptor -> bool) : Prop :=
  forall d d', strip_flags d' = strip_flags d -> P d' = P d.

Lemma frame_find p s s' P l :
  dual_frame p s s' -> flag_blind P -> live_routes s l ->
  List.find (on_route s' P) l = List.find (on_route s P) l.
Proof.
  intros F HP Hl. induction Hl as [|r l [d Hd] Hl IH]; simpl; [done|].
  unfold on_route at 1 3. destruct (df_routes _ _ _ F r d Hd) as (d' & -> & E).
  rewrite Hd, (HP d d' E), IH. done.
Qed.

Lemma reachable_blind : flag_blind reachable.
Proof. intros d d' E. unfold reachable. by apply strip_flags_eq in E as (-> & _). Qed.
Lemma satisfies_fc_blind fd : flag_blind (satisfies_fc fd).
Proof.
  intros d d' E. unfold satisfies_fc. rewrite (reachable_blind d d') by done.
  by apply strip_flags_eq in E as (_ & -> & _).
Qed.

Lemma frame_select p s s' d :
  dual_frame p s s' -> live_routes s (topology_routes d) -> select_of s' d = select_of s d.
Proof. intros F. apply (frame_find p); [done|apply satisfies_fc_blind]. Qed.
Lemma frame_read p s s' d :
  dual_frame p s s' -> live_routes s (topology_routes d) -> read_of s' d = read_of s d.
Proof.
  intros F Hl. unfold read_of. by rewrite (frame_find p s s') by (done || apply reachable_blind).
Qed.
End frame_facts.

(** ** Elementary steps inside the frame *)

Section frame_steps.
Implicit Types s : eigrp_instance.

Lemma frame_upto_flags p s s' : upto_flags s s' -> dual_frame p s s'.
Proof.
  intros [H HR HM].
  assert (Hp : prefixes s' = prefixes s) by exact (f_equal prefixes H).
  split; try (rewrite Hp; done); try done.
  - exact (f_equal hide_dual H).
  - intros r d Hd. by apply (upto_flags_lookup s s').
  - intros _ [B1 B2]. assert (Hn : next_addr s' = next_addr s) by exact (f_equal next_addr H).
    split; rewrite Hn; [|by rewrite Hp]. intros r Hr. apply B1. specialize (HR r).
    destruct Hr as [d Hd]. rewrite Hd in HR. destruct (routes s !! r); [eauto|done].
  - intros q. rewrite (f_equal topology_changes H : topology_changes s' = _). auto.
  - intros q. by rewrite (f_equal topology_changes H : topology_changes s' = _).
  - by rewrite (f_equal next_addr H : next_addr s' = _).
Qed.

Lemma frame_set_prefix p s d : dual_frame p s (set_prefix s p d).
Proof.
  split; try done; simpl.
  - intros q Hq. by rewrite lookup_insert_ne.
  - intros r e He. eauto.
  - intros Hp [B1 B2]. split; [done|]. intros q. simpl.
    destruct (decide (q = p)) as [->|Hne]; [intros _; by apply B2|].
    rewrite lookup_insert_ne by done. apply B2.
  - intros _. by rewrite lookup_insert_eq.
  - auto.
Qed.

Lemma frame_changes p s :
  dual_frame p s {| s with topology_changes := topology_changes s ++ [p] |}.
Proof.
  split; try done; simpl; [intros r d; eauto| |];
    intros q; rewrite elem_of_app, list_elem_of_singleton; tauto.
Qed.

Lemma frame_queue p s ws :
  dual_frame p s {| s with packetizer_queue := packetizer_queue s ++ ws |}.
Proof. split; try done; simpl; [intros r d; eauto|auto]. Qed.

Lemma frame_timers p s l : dual_frame p s {| s with timer_head := l |}.
Proof. split; try done; simpl; [intros r d; eauto|auto]. Qed.
End frame_steps.

(** Work that reaches the packetizer: none once the thread stopped. *)
Definition enqueued (s : eigrp_instance) (w : eigrp_packetizer_work) : list eigrp_packetizer_work :=
  if shutdown s || negb (thread_running s) then [] else [w].

Definition work_of (opcode : Z) : eigrp_packetizer_work :=
  {| work_opcode := opcode; work_prefix := None; work_route := None;
     work_exception := None; work_nbr := None; work_flags := 0 |}.

Definition update_work : eigrp_packetizer_work := work_of EIGRP_OPC_UPDATE.
Definition reply_work (n p : ptr) (route : option ptr) (wflags : Z) : eigrp_packetizer_work :=
  {| work_opcode := EIGRP_OPC_REPLY; work_prefix := Some p; work_route := route;
     work_exception := None; work_nbr := Some n; work_flags := wflags |}.

(** [p] is in the state [d] inside the frame, with [ws] added to the work queue. *)
Record dual_out (p : ptr) (s s' : eigrp_instance) (d : eigrp_prefix_descriptor)
    (ws : list eigrp_packetizer_work) : Prop := {
  do_frame : dual_frame p s s';
  do_prefix : prefixes s' !! p = Some d;
  do_work : packetizer_queue s' = packetizer_queue s ++ ws;
}.

Section dual_steps.
Implicit Types s : eigrp_instance.

Lemma set_prefix_lookup s p d : prefixes (set_prefix s p d) !! p = Some d.
Proof. apply lookup_insert_eq. Qed.

Lemma dual_out_refl p s d : prefixes s !! p = Some d -> dual_out p s s d [].
Proof. intros. split; [done|done|]. by rewrite app_nil_r. Qed.

Lemma dual_out_trans p s1 s2 s3 d d' ws ws' :
  dual_out p s1 s2 d ws -> dual_out p s2 s3 d' ws' -> dual_out p s1 s3 d' (ws ++ ws').
Proof.
  intros [F1 P1 W1] [F2 P2 W2]. split; [by transitivity s2|done|].
  by rewrite W2, W1, app_assoc.
Qed.

(** Chains a step after the steps already made. *)
Lemma wp_dual_step {A} p s s1 d ws (m : St A) (R : A -> eigrp_prefix_descriptor ->
    list eigrp_packetizer_work -> Prop) (Q : A -> eigrp_instance -> Prop) :
  dual_out p s s1 d ws ->
  wp m (fun a s2 => exists d' ws', dual_out p s1 s2 d' ws' /\ R a d' ws') s1 ->
  (forall a s2 d' ws', dual_out p s s2 d' (ws ++ ws') -> R a d' ws' -> Q a s2) ->
  wp m Q s1.
Proof.
  intros H1 Hm HQ. eapply wp_mono; [exact Hm|]. intros a s2 (d' & ws' & H2 & HR).
  eapply HQ; [|exact HR]. by eapply dual_out_trans.
Qed.

Lemma wp_upd_dual p f d s :
  prefixes s !! p = Some d ->
  wp (upd_prefix p f) (fun _ s' => dual_out p s s' (f d) []) s.
Proof.
  intros Hp. wp_simpl.
  split; [apply frame_set_prefix|apply set_prefix_lookup|by rewrite app_nil_r].
Qed.

Lemma wp_changes_add_dual p d s :
  prefixes s !! p = Some d -> mem s = [] ->
  wp (topology_changes_add p)
    (fun _ s' => dual_out p s s' d [] /\ topology_changes s' = topology_changes s ++ [p]) s.
Proof.
  intros Hp Hm. unfold topology_changes_add. wp_simpl.
  split; [|done]. split; [apply frame_changes|done|by rewrite app_nil_r].
Qed.

Lemma wp_enqueue_dual p d w s :
  prefixes s !! p = Some d ->
  eigrp_packetizer_opcode_valid (work_opcode w) = true ->
  has_flag (work_flags w) EIGRP_PACKETIZER_WORK_F_OWN_ROUTE = false ->
  has_flag (work_flags w) EIGRP_PACKETIZER_WORK_F_OWN_PREFIX = false ->
  wp (eigrp_packetizer_enqueue w) (fun _ s' => dual_out p s s' d (enqueued s w)) s.
Proof.
  intros Hp Hv H1 H2. unfold eigrp_packetizer_enqueue, enqueued. rewrite Hv. simpl.
  wp_simpl. destruct (shutdown s || negb (thread_running s)).
  - unfold eigrp_packetizer_work_free. rewrite H1, H2. wp_simpl. by apply dual_out_refl.
  - wp_simpl. split; [apply frame_queue|done|done].
Qed.

Lemma wp_update_send_all p d s :
  prefixes s !! p = Some d -> mem s = [] ->
  wp (eigrp_update_send_all None) (fun _ s' => dual_out p s s' d (enqueued s update_work)) s.
Proof.
  intros Hp Hm. unfold eigrp_update_send_all, eigrp_packetizer_work_create. wp_simpl.
  by apply (wp_enqueue_dual p d).
Qed.

Definition reply_to s (n : option ptr) p (route : option ptr) (wflags : Z)
    : list eigrp_packetizer_work :=
  match n with None => [] | Some n => enqueued s (reply_work n p route wflags) end.

Lemma wp_reply_send p d n s :
  prefixes s !! p = Some d -> mem s = [] ->
  (forall m, n = Some m -> is_Some (nbrs s !! m)) ->
  wp (eigrp_reply_send n p) (fun _ s' => dual_out p s s' d (reply_to s n p None 0)) s.
Proof.
  intros Hp Hm Hn. unfold eigrp_reply_send, eigrp_reply_send_route.
  destruct n as [n|]; [|by apply dual_out_refl]. destruct (Hn n eq_refl) as [nb Hnb].
  unfold eigrp_packetizer_work_create. wp_simpl. by apply (wp_enqueue_dual p d).
Qed.

Definition stop_timer (d : eigrp_prefix_descriptor) : eigrp_prefix_descriptor :=
  {| d with t_active := if active_eigrp d then None else t_active d; active_eigrp := false |}.

Lemma wp_timer_stop p d s :
  prefixes s !! p = Some d ->
  wp (eigrp_fsm_active_timer_stop p) (fun _ s' => dual_out p s s' (stop_timer d) []) s.
Proof.
  intros Hp. unfold eigrp_fsm_active_timer_stop, eigrp_timer_cancel_active, stop_timer.
  wp_simpl. destruct (active_eigrp d) eqn:Ea; [destruct (t_active d) as [e|] eqn:Et|]; wp_simpl.
  - erewrite wp_upd_prefix; [|apply set_prefix_lookup].
    split; [|apply set_prefix_lookup|by rewrite app_nil_r].
    etrans; [|apply frame_set_prefix]. etrans; [|apply frame_timers]. apply frame_set_prefix.
  - rewrite Et. split; [apply frame_set_prefix|apply set_prefix_lookup|by rewrite app_nil_r].
  - split; [apply frame_set_prefix|apply set_prefix_lookup|by rewrite app_nil_r].
Qed.
End dual_steps.
