(* ===== verification/Handlers.v ===== *)
(** * Effect of the NSM handlers

    For every handler of the NSM table: it is defined on a sound destination
    with memory available, and the descriptor and the packet work it leaves. *)

From Stdlib Require Import ZArith Lia.
From stdpp Require Import base gmap list.
From S2P Require Import Prelude Types Metric Prefix State Topology Fsm Store Marking Frame.

(** The pointers a handler follows from a destination are live. *)
Record dest_ok (s : eigrp_instance) (d : eigrp_prefix_descriptor) : Prop := {
  ok_linked : linked_routes s (topology_routes d);
  ok_nodup : NoDup (topology_routes d);
  ok_origin : forall n, query_origin d = Some n -> is_Some (nbrs s !! n);
}.

(** The interfaces of the instance and their neighbors are live. *)
Definition peers_live (s : eigrp_instance) : Prop :=
  Forall (fun i => exists ei, intfs s !! i = Some ei
                 /\ Forall (fun n => is_Some (nbrs s !! n)) (if_nbrs ei)) (eiflist s).

Section stability.
Implicit Types s : eigrp_instance.

Lemma ok_live s d : dest_ok s d -> live_routes s (topology_routes d).
Proof. intros H. apply linked_live, H. Qed.

Lemma dest_ok_frame p s s' d : dual_frame p s s' -> dest_ok s d -> dest_ok s' d.
Proof.
  intros F [H1 H2 H3]. split; [by eapply frame_linked|done|].
  by rewrite (frame_nbrs p s s').
Qed.

(** The queues and the origin decide soundness. *)
Lemma dest_ok_desc s d d' :
  dest_ok s d -> topology_routes d' = topology_routes d ->
  (query_origin d' = query_origin d \/ query_origin d' = None) -> dest_ok s d'.
Proof.
  intros [H1 H2 H3] Hr [Ho|Ho]; split; rewrite ?Hr, ?Ho; done.
Qed.

Lemma peers_live_frame p s s' : dual_frame p s s' -> peers_live s -> peers_live s'.
Proof.
  intros F. unfold peers_live.
  by rewrite (frame_intfs p s s'), (frame_nbrs p s s'), (frame_eiflist p s s').
Qed.

Lemma enqueued_frame p s s' w : dual_frame p s s' -> enqueued s' w = enqueued s w.
Proof.
  intros F. unfold enqueued. by rewrite (frame_shutdown p s s'), (frame_running p s s').
Qed.
Lemma reply_to_frame p s s' n q r f : dual_frame p s s' -> reply_to s' n q r f = reply_to s n q r f.
Proof. intros F. destruct n; simpl; [|done]. by apply (enqueued_frame p). Qed.
End stability.

(** Runs one operation whose rule is [L], keeping one [dual_out] fact about the
    whole run in [Hout]. *)
Ltac dual_facts Hout Hp Hm :=
  match type of Hout with
  | dual_out ?p _ ?s1 ?d _ =>
      pose proof (do_prefix _ _ _ _ _ Hout) as Hp;
      assert (Hm : mem s1 = []) by (apply (df_mem _ _ _ (do_frame _ _ _ _ _ Hout)); assumption)
  end.

Section handlers.
Implicit Types s : eigrp_instance.

Lemma wp_upd_out {p} f {s s1 d ws} {Q : unit -> eigrp_instance -> Prop} :
  dual_out p s s1 d ws ->
  (forall s2, dual_out p s s2 (f d) ws -> Q tt s2) -> wp (upd_prefix p f) Q s1.
Proof.
  intros Ho HQ. eapply wp_mono; [apply wp_upd_dual; apply Ho|]. intros [] s2 H2.
  apply HQ. rewrite <-(app_nil_r ws). by eapply dual_out_trans.
Qed.

Lemma wp_stop_out {p s s1 d ws} {Q : unit -> eigrp_instance -> Prop} :
  dual_out p s s1 d ws ->
  (forall s2, dual_out p s s2 (stop_timer d) ws -> Q tt s2) ->
  wp (eigrp_fsm_active_timer_stop p) Q s1.
Proof.
  intros Ho HQ. eapply wp_mono; [apply wp_timer_stop; apply Ho|]. intros [] s2 H2.
  apply HQ. rewrite <-(app_nil_r ws). by eapply dual_out_trans.
Qed.

Lemma wp_reply_out {p s s1 d ws} n {Q : unit -> eigrp_instance -> Prop} :
  dual_out p s s1 d ws -> mem s = [] ->
  (forall m, n = Some m -> is_Some (nbrs s !! m)) ->
  (forall s2, dual_out p s s2 d (ws ++ reply_to s n p None 0) -> Q tt s2) ->
  wp (eigrp_reply_send n p) Q s1.
Proof.
  intros Ho Hm Hn HQ. pose proof (do_frame _ _ _ _ _ Ho) as F.
  eapply wp_mono; [apply wp_reply_send; [apply Ho|by apply F|]|].
  - by rewrite (frame_nbrs p s s1).
  - intros [] s2 H2. apply HQ. rewrite <-(reply_to_frame p s s1) by done.
    by eapply dual_out_trans.
Qed.

Definition add_req (action : Z) (d : eigrp_prefix_descriptor) : eigrp_prefix_descriptor :=
  {| d with req_action := Z.lor (req_action d) action |}.

Lemma wp_add_action_out {p s s1 d ws} action {Q : unit -> eigrp_instance -> Prop} :
  dual_out p s s1 d ws -> mem s = [] ->
  (forall s2, dual_out p s s2 (add_req action d) ws -> p ∈ topology_changes s2 -> Q tt s2) ->
  wp (add_action p action) Q s1.
Proof.
  intros Ho Hm HQ. unfold add_action. rewrite wp_bind.
  apply (wp_upd_out (add_req action) Ho). intros s2 Ho2. dual_facts Ho2 Hp2 Hm2.
  eapply wp_mono; [by eapply wp_changes_add_dual|]. intros [] s3 [H3 Hc].
  apply HQ; [|rewrite Hc; apply elem_of_app; right; by apply list_elem_of_singleton].
  rewrite <-(app_nil_r ws). by eapply dual_out_trans.
Qed.

Lemma wp_node_flags_out {p s s1 d ws} {Q : unit -> eigrp_instance -> Prop} :
  dual_out p s s1 d ws -> dest_ok s d ->
  (forall s2, dual_out p s s2 d ws -> dual_frame p s1 s2 -> Q tt s2) ->
  wp (eigrp_topology_update_node_flags p) Q s1.
Proof.
  intros [F Hp Hw] Hok%(dest_ok_frame p s s1 d F) HQ. apply (wp_update_node_flags p d);
    [done|by eapply ok_live|by eapply ok_nodup|]. intros s2 H2.
  pose proof (frame_upto_flags p s1 s2 (fb_upto _ _ _ H2)) as F2.
  apply HQ; [split; [by etrans| |]|done].
  - by rewrite (upto_flags_prefixes s1 s2 (fb_upto _ _ _ H2)).
  - rewrite <-Hw. apply (f_equal packetizer_queue (uf_rest _ _ (fb_upto _ _ _ H2))).
Qed.

Lemma wp_routing_table_out {p s s1 d ws} {Q : unit -> eigrp_instance -> Prop} :
  dual_out p s s1 d ws -> dest_ok s d -> mem s = [] ->
  (forall s2, dual_out p s s2 d ws -> dual_frame p s1 s2 -> Q tt s2) ->
  wp (eigrp_update_routing_table p) Q s1.
Proof.
  intros [F Hp Hw] Hok%(dest_ok_frame p s s1 d F) Hm HQ. apply (wp_update_routing_table p d);
    [done|by eapply ok_linked|by apply F|]. intros s2 [U2 _ _].
  pose proof (frame_upto_flags p s1 s2 U2) as F2.
  apply HQ; [split; [by etrans| |]|done].
  - by rewrite (upto_flags_prefixes s1 s2 U2).
  - rewrite <-Hw. apply (f_equal packetizer_queue (uf_rest _ _ U2)).
Qed.

(** While an UPDATE is pending, the destination is not pruned. *)
Lemma wp_table_prefix_pending p d (Q : unit -> eigrp_instance -> Prop) s :
  prefixes s !! p = Some d -> has_flag (req_action d) EIGRP_FSM_NEED_UPDATE = true ->
  Q tt s -> wp (eigrp_update_topology_table_prefix p) Q s.
Proof. intros Hp Hf HQ. unfold eigrp_update_topology_table_prefix. wp_simpl. by rewrite Hf. Qed.

Lemma add_req_has a d : has_flag (req_action (add_req (2 ^ Z.of_nat a) d)) (2 ^ Z.of_nat a) = true.
Proof.
  simpl. rewrite has_flag_lor by lia. apply orb_true_iff. right.
  rewrite has_flag_bit by lia. apply Z.pow2_bits_true. lia.
Qed.

Lemma wp_passive_publish_out {p s s1 d ws} {Q : unit -> eigrp_instance -> Prop} :
  dual_out p s s1 d ws -> dest_ok s d -> mem s = [] ->
  (forall s2, dual_out p s s2 (add_req EIGRP_FSM_NEED_UPDATE d)
                (ws ++ enqueued s update_work) ->
     p ∈ topology_changes s2 -> Q tt s2) ->
  wp (passive_publish p) Q s1.
Proof.
  intros Ho Hok Hm HQ. unfold passive_publish. rewrite wp_bind.
  eapply (wp_add_action_out EIGRP_FSM_NEED_UPDATE Ho Hm). intros s2 Ho2 Hc2.
  assert (Hok' : dest_ok s (add_req EIGRP_FSM_NEED_UPDATE d))
    by (eapply dest_ok_desc; [done|done|by left]).
  rewrite wp_bind. apply (wp_node_flags_out Ho2 Hok'). intros s3 Ho3 Hc3.
  rewrite wp_bind. apply (wp_routing_table_out Ho3 Hok' Hm). intros s4 Ho4 Hc4.
  rewrite wp_bind. eapply wp_table_prefix_pending; [apply Ho4|apply (add_req_has 0)|].
  dual_facts Ho4 Hp4 Hm4.
  eapply wp_mono; [by eapply wp_update_send_all|]. intros [] s5 H5. apply HQ.
  - rewrite <-(enqueued_frame p s s4) by apply Ho4. by eapply dual_out_trans.
  - apply (df_pending _ _ _ (do_frame _ _ _ _ _ H5)), (df_pending _ _ _ Hc4), (df_pending _ _ _ Hc3), Hc2.
Qed.

(** *** Last reply: FD reset *)

(** Distance and vector the destination adopts: the best path, or unreachable. *)
Definition best_metric s (o : option ptr) : Z * eigrp_metrics :=
  match o with
  | None => (EIGRP_MAX_METRIC, unreachable_metrics)
  | Some r => match routes s !! r with
              | Some e => (rd_distance e, rd_total_metric e)
              | None => (EIGRP_MAX_METRIC, unreachable_metrics)
              end
  end.

Definition lr_desc s (d : eigrp_prefix_descriptor) : eigrp_prefix_descriptor :=
  let d1 := stop_timer d in
  {| d1 with
     fdistance := fst (best_metric s (read_of s d));
     distance := fst (best_metric s (read_of s d));
     rdistance := fst (best_metric s (read_of s d));
     reported_metric := snd (best_metric s (read_of s d));
     query_origin := None; rij := []; pd_state := EIGRP_FSM_STATE_PASSIVE;
     req_action := Z.lor (req_action d) EIGRP_FSM_NEED_UPDATE |}.

Definition owes_reply (st : eigrp_fsm_states) : bool :=
  bool_decide (st = EIGRP_FSM_STATE_ACTIVE_3) || bool_decide (st = EIGRP_FSM_STATE_ACTIVE_2).

Definition lr_work s p (d : eigrp_prefix_descriptor) : list eigrp_packetizer_work :=
  (if owes_reply (pd_state d) then reply_to s (query_origin d) p None 0 else [])
  ++ enqueued s update_work.

Lemma dest_ok_closed s d d' :
  dest_ok s d -> topology_routes d' = topology_routes d -> query_origin d' = None -> dest_ok s d'.
Proof. intros. eapply dest_ok_desc; eauto. Qed.

Lemma wp_event_lr msg d s (Q : unit -> eigrp_instance -> Prop) :
  prefixes s !! msg_prefix msg = Some d -> dest_ok s d -> mem s = [] ->
  (forall s', dual_out (msg_prefix msg) s s' (lr_desc s d) (lr_work s (msg_prefix msg) d) ->
     msg_prefix msg ∈ topology_changes s' -> Q tt s') ->
  wp (eigrp_fsm_event_lr msg) Q s.
Proof.
  set (p := msg_prefix msg). intros Hp Hok Hm HQ. unfold eigrp_fsm_event_lr. fold p.
  assert (Hl := ok_live _ _ Hok).
  rewrite wp_bind. apply (wp_route_read p d); [done|done|]. rewrite wp_bind.
  assert (Hset : forall Q', (forall s1, dual_out p s s1
      {| d with fdistance := fst (best_metric s (read_of s d));
         distance := fst (best_metric s (read_of s d));
         rdistance := fst (best_metric s (read_of s d));
         reported_metric := snd (best_metric s (read_of s d)) |} [] -> Q' tt s1) ->
    wp (match read_of s d with
        | Some r => route ← get_route r;
            set_distances p (rd_distance route) (rd_total_metric route)
        | None => set_distances p EIGRP_MAX_METRIC unreachable_metrics
        end) Q' s).
  { intros Q' HQ'. pose proof (dual_out_refl p s d Hp) as Ho.
    destruct (read_of s d) as [r|] eqn:Er; [|by apply (wp_upd_out _ Ho)].
    destruct (read_of_live s d r Hl Er) as [e He]. wp_simpl.
    apply (wp_upd_out _ Ho). intros s1 Ho1. apply HQ'. unfold best_metric. by rewrite He. }
  apply Hset. clear Hset. intros s1 Ho1. dual_facts Ho1 Hp1 Hm1. wp_simpl. simpl.
  assert (Hrep : forall Q', (forall s2, dual_out p s s2
      {| d with fdistance := fst (best_metric s (read_of s d));
         distance := fst (best_metric s (read_of s d));
         rdistance := fst (best_metric s (read_of s d));
         reported_metric := snd (best_metric s (read_of s d)) |}
      (if owes_reply (pd_state d) then reply_to s (query_origin d) p None 0 else []) -> Q' tt s2) ->
    (if owes_reply (pd_state d) then wp (eigrp_reply_send (query_origin d) p) Q' s1 else Q' tt s1)).
  { intros Q' HQ'. destruct (owes_reply (pd_state d)); [|by apply HQ'].
    apply (wp_reply_out (query_origin d) Ho1 Hm (ok_origin _ _ Hok)). apply HQ'. }
  apply Hrep. clear Hrep. intros s2 Ho2. wp_simpl.
  apply (wp_upd_out _ Ho2). intros s3 Ho3. wp_simpl.
  apply (wp_stop_out Ho3). intros s4 Ho4. wp_simpl.
  apply (wp_upd_out _ Ho4). intros s5 Ho5. wp_simpl.
  apply (wp_upd_out _ Ho5). intros s6 Ho6.
  apply (wp_passive_publish_out Ho6); [by eapply dest_ok_closed|done|].
  intros s7 Ho7 Hc. apply HQ; [exact Ho7|done].
Qed.

(** *** Starting a diffusing computation *)

(** Number of UP neighbors. *)
Definition up_count s (l : list ptr) : Z :=
  fold_right (fun n c => match nbrs s !! n with
                         | Some d => if nbr_state d =? EIGRP_NEIGHBOR_UP then u32 (c + 1) else c
                         | None => c end) 0 l.
Definition up_count_intfs s (l : list ptr) : Z :=
  fold_right (fun i c => match intfs s !! i with
                         | Some ei => u32 (up_count s (if_nbrs ei) + c)
                         | None => c end) 0 l.

Lemma wp_count_up l s (Q : Z -> eigrp_instance -> Prop) :
  Forall (fun n => is_Some (nbrs s !! n)) l -> Q (up_count s l) s -> wp (count_up l) Q s.
Proof.
  intros Hl. revert Q. induction Hl as [|n l [d Hd] Hl IH]; intros Q HQ; simpl in *; [done|].
  wp_simpl. apply IH. wp_simpl. by rewrite Hd in HQ.
Qed.

Lemma wp_nbr_count s (Q : Z -> eigrp_instance -> Prop) :
  peers_live s -> Q (up_count_intfs s (eiflist s)) s -> wp eigrp_nbr_count Q s.
Proof.
  unfold eigrp_nbr_count, peers_live. intros Hl HQ. wp_simpl. revert Q HQ.
  induction Hl as [|i l (ei & Hi & Hn) Hl IH]; intros Q HQ; simpl in *; [done|].
  wp_simpl. apply wp_count_up; [done|]. wp_simpl. apply IH. wp_simpl. by rewrite Hi in HQ.
Qed.

Lemma up_count_frame p s s' :
  dual_frame p s s' -> up_count_intfs s' (eiflist s') = up_count_intfs s (eiflist s).
Proof.
  intros F. unfold up_count_intfs, up_count.
  by rewrite (frame_nbrs p s s'), (frame_intfs p s s'), (frame_eiflist p s s').
Qed.

Definition query_desc (d : eigrp_prefix_descriptor) : eigrp_prefix_descriptor :=
  let d1 := stop_timer d in
  {| d1 with rij := []; req_action := Z.lor (req_action d) EIGRP_FSM_NEED_QUERY |}.

Definition idle_desc (d : eigrp_prefix_descriptor) : eigrp_prefix_descriptor :=
  let d1 := stop_timer d in {| d1 with rij := [] |}.

(** Either the QUERY is requested, or there is nobody to ask and the
    computation is complete. *)
Lemma wp_diffuse_out msg s s1 d (Q : unit -> eigrp_instance -> Prop) :
  dual_out (msg_prefix msg) s s1 d [] -> dest_ok s d -> mem s = [] -> peers_live s ->
  (forall s2, up_count_intfs s (eiflist s) <> 0 ->
     dual_out (msg_prefix msg) s s2 (query_desc d) [] ->
     msg_prefix msg ∈ topology_changes s2 -> Q tt s2) ->
  (forall s2, up_count_intfs s (eiflist s) = 0 ->
     dual_out (msg_prefix msg) s s2 (lr_desc s (idle_desc d)) (lr_work s (msg_prefix msg) d) ->
     msg_prefix msg ∈ topology_changes s2 -> Q tt s2) ->
  wp (diffuse msg) Q s1.
Proof.
  set (p := msg_prefix msg). intros Ho Hok Hm Hpe HQ1 HQ2. unfold diffuse. fold p.
  rewrite wp_bind. apply (wp_stop_out Ho). intros s2 Ho2. rewrite wp_bind.
  apply (wp_upd_out _ Ho2). intros s3 Ho3. pose proof (do_frame _ _ _ _ _ Ho3) as F3.
  dual_facts Ho3 Hp3 Hm3.
  rewrite wp_bind. apply wp_nbr_count; [by eapply peers_live_frame|].
  rewrite (up_count_frame p s s3) by done.
  destruct (Z.eqb_spec (up_count_intfs s (eiflist s)) 0) as [E|E]; simpl.
  - assert (Hok3 : dest_ok s (idle_desc d)) by (eapply dest_ok_desc; [done|done|by left]).
    apply (wp_event_lr msg (idle_desc d)); [done|by eapply dest_ok_frame|done|].
    intros s4 Ho4 Hc. apply HQ2; [done| |done].
    assert (lr_desc s3 (idle_desc d) = lr_desc s (idle_desc d)) as <-.
    { unfold lr_desc. rewrite (frame_read p s s3) by (done || by apply ok_live).
      assert (best_metric s3 (read_of s (idle_desc d)) = best_metric s (read_of s (idle_desc d))) as ->;
        [|done].
      unfold best_metric. destruct (read_of s (idle_desc d)) as [r|] eqn:Er; [|done].
      destruct (read_of_live s _ r (ok_live _ _ Hok3) Er) as [e He].
      destruct (df_routes _ _ _ F3 r e He) as (e' & -> & Ee). rewrite He.
      by apply strip_flags_eq in Ee as (-> & _ & _ & _ & _ & -> & _). }
    assert (lr_work s3 p (idle_desc d) = lr_work s p d) as <-.
    { unfold lr_work. simpl.
      by rewrite (reply_to_frame p s s3), (enqueued_frame p s s3) by done. }
    by apply (dual_out_trans p s s3 s4 _ _ _ _ Ho3).
  - apply (wp_add_action_out EIGRP_FSM_NEED_QUERY Ho3 Hm). intros s4 Ho4 Hc.
    by apply HQ1.
Qed.

(** *** The state is kept *)

Definition keep_best s (d : eigrp_prefix_descriptor) : option ptr :=
  match select_of s d with Some r => Some r | None => read_of s d end.

Lemma keep_best_live s d :
  live_routes s (topology_routes d) -> topology_routes d <> [] ->
  exists r e, keep_best s d = Some r /\ routes s !! r = Some e.
Proof.
  intros Hl Hne. unfold keep_best. destruct (select_of s d) as [r|] eqn:E.
  { apply select_of_live in E as (_ & e & ? & _). eauto. }
  destruct (read_of s d) as [r|] eqn:Er.
  { destruct (read_of_live s d r Hl Er) as [e ?]. eauto. }
  unfold read_of in Er. destruct (List.find _ _); [done|].
  by destruct (topology_routes d).
Qed.

(** What PASSIVE adopts from its best route [e]: FD never moves up. *)
Definition passive_desc (e : eigrp_route_descriptor) (d : eigrp_prefix_descriptor)
    : eigrp_prefix_descriptor :=
  if eigrp_metrics_match (reported_metric d) (rd_total_metric e) then d
  else {| d with
          distance := rd_distance e; rdistance := rd_distance e;
          fdistance := if rd_distance e <? fdistance d then rd_distance e else fdistance d;
          reported_metric := rd_total_metric e;
          req_action := Z.lor (req_action d) EIGRP_FSM_NEED_UPDATE |}.

Lemma passive_desc_routes e d : topology_routes (passive_desc e d) = topology_routes d.
Proof. unfold passive_desc. by destruct (eigrp_metrics_match _ _). Qed.
Lemma passive_desc_origin e d : query_origin (passive_desc e d) = query_origin d.
Proof. unfold passive_desc. by destruct (eigrp_metrics_match _ _). Qed.
Lemma passive_desc_state e d : pd_state (passive_desc e d) = pd_state d.
Proof. unfold passive_desc. by destruct (eigrp_metrics_match _ _). Qed.

Lemma wp_keep_passive p d r e s (Q : unit -> eigrp_instance -> Prop) :
  prefixes s !! p = Some d -> dest_ok s d -> mem s = [] -> routes s !! r = Some e ->
  (forall s', dual_out p s s' (passive_desc e d) [] -> Q tt s') ->
  wp (keep_state_passive p (Some r)) Q s.
Proof.
  intros Hp Hok Hm He HQ. unfold keep_state_passive. wp_simpl.
  assert (Hok' : dest_ok s (passive_desc e d)).
  { eapply dest_ok_desc; [done|apply passive_desc_routes|left; apply passive_desc_origin]. }
  assert (Htail : forall s1, dual_out p s s1 (passive_desc e d) [] ->
    wp (eigrp_topology_update_node_flags p;; eigrp_update_routing_table p) Q s1).
  { intros s1 Ho1. rewrite wp_bind. apply (wp_node_flags_out Ho1 Hok'). intros s2 Ho2 _.
    apply (wp_routing_table_out Ho2 Hok' Hm). intros s3 Ho3 _. by apply HQ. }
  unfold passive_desc in Htail. destruct (eigrp_metrics_match _ _); simpl.
  - by apply Htail, dual_out_refl.
  - rewrite wp_bind. apply (wp_upd_out _ (dual_out_refl p s d Hp)). intros s1 Ho1.
    apply (wp_add_action_out EIGRP_FSM_NEED_UPDATE Ho1 Hm). intros s2 Ho2 _.
    by apply Htail.
Qed.

(** The reply sent while ACTIVE to a QUERY of a non-successor. *)
Definition active_reply s p (n : ptr) (ws : list eigrp_packetizer_work) : Prop :=
  exists route wflags, ws = enqueued s (reply_work n p route wflags).

Lemma fresh_ne s r e : all_below s -> routes s !! r = Some e -> next_addr s <> r.
Proof. intros [B1 _] He <-. assert (next_addr s < next_addr s)%nat; [apply B1; eauto|lia]. Qed.

Lemma frame_alloc p s (rs : gmap ptr eigrp_route_descriptor) :
  all_below s -> (forall r, r <> next_addr s -> rs !! r = routes s !! r) ->
  dual_frame p s {| s with routes := rs; next_addr := S (next_addr s) |}.
Proof.
  intros B Hrs. split; try done; simpl.
  - intros r e He. rewrite Hrs; [eauto|]. apply not_eq_sym. by eapply fresh_ne.
  - intros _ [B1 B2]. split; simpl.
    + intros r. destruct (decide (r = next_addr s)) as [->|Hne]; [lia|].
      rewrite Hrs by done. intros ?%B1. lia.
    + intros q ?%B2. lia.
  - auto.
  - lia.
Qed.

Lemma wp_active_reply p n d s (Q : unit -> eigrp_instance -> Prop) :
  prefixes s !! p = Some d -> dest_ok s d -> mem s = [] -> all_below s ->
  is_Some (nbrs s !! n) ->
  (forall s' ws, dual_out p s s' d ws -> active_reply s p n ws -> Q tt s') ->
  wp (eigrp_fsm_active_non_successor_reply_send (Some n) p) Q s.
Proof.
  intros Hp Hok Hm Hb [nb Hn] HQ. unfold eigrp_fsm_active_non_successor_reply_send.
  wp_simpl. apply wp_mfind_route; [by apply ok_live|].
  destruct (List.find _ _) as [r|] eqn:Ef.
  - apply find_live_some in Ef as (_ & e & He & _). wp_simpl.
    unfold eigrp_topology_route_create, fresh. wp_simpl.
    unfold wp at 1. wp_simpl. unfold eigrp_reply_send_route, eigrp_packetizer_work_create.
    wp_simpl. unfold eigrp_packetizer_enqueue. simpl. wp_simpl.
    assert (Hact : forall route f, active_reply s p n (enqueued s (reply_work n p route f)))
      by (intros; eexists _, _; done).
    unfold enqueued in Hact. simpl.
    destruct (shutdown s || negb (thread_running s)); simpl; wp_simpl.
    + eapply (HQ _ []); [|by apply (Hact None 0)]. split; [|done|by rewrite app_nil_r].
      apply (frame_alloc p s); [done|].
      intros r' Hne. simpl. by rewrite lookup_delete_ne, !lookup_insert_ne.
    + eapply HQ; [|apply Hact]. split; [|done|done].
      etrans; [|apply (frame_queue p)]. apply (frame_alloc p s); [done|].
      intros r' Hne. simpl. by rewrite !lookup_insert_ne.
  - eapply wp_mono; [|intros [] s' H; exact H]. unfold eigrp_reply_send_route. wp_simpl.
    unfold eigrp_packetizer_work_create. wp_simpl.
    eapply wp_mono; [by apply (wp_enqueue_dual p d)|].
    intros [] s' H. eapply HQ; [exact H|]. by eexists _, _.
Qed.

Definition adv_live s (msg : eigrp_fsm_action_message) : Prop :=
  forall n, msg_adv_router msg = Some n -> is_Some (nbrs s !! n).

Lemma wp_keep_state_passive msg d r e s (Q : unit -> eigrp_instance -> Prop) :
  let p := msg_prefix msg in
  prefixes s !! p = Some d -> pd_state d = EIGRP_FSM_STATE_PASSIVE ->
  dest_ok s d -> mem s = [] -> adv_live s msg ->
  keep_best s d = Some r -> routes s !! r = Some e ->
  (forall s', dual_out p s s' (passive_desc e d)
     (if packet_type msg =? EIGRP_OPC_QUERY then reply_to s (msg_adv_router msg) p None 0 else []) ->
     Q tt s') ->
  wp (eigrp_fsm_event_keep_state msg) Q s.
Proof.
  intros p Hp Hst Hok Hm Hadv Hb He HQ. unfold eigrp_fsm_event_keep_state. fold p.
  assert (Hl := ok_live _ _ Hok).
  rewrite wp_bind. apply (wp_route_select p d); [done|done|]. rewrite wp_bind.
  assert (Hbest : forall Q', Q' (Some r) s ->
    wp (match select_of s d with Some r => mret (Some r) | None => eigrp_topology_route_read p end) Q' s).
  { intros Q' HQ'. unfold keep_best in Hb. destruct (select_of s d); [by simplify_eq|].
    apply (wp_route_read p d); [done|done|]. by rewrite Hb. }
  apply Hbest. clear Hbest. wp_simpl. rewrite Hst. simpl.
  apply (wp_keep_passive p d r e); try done. intros s1 Ho1.
  destruct (packet_type msg =? EIGRP_OPC_QUERY); [|by apply HQ]. wp_simpl.
  rewrite wp_get_prefix by apply Ho1. rewrite passive_desc_state, Hst. simpl.
  by apply (wp_reply_out (msg_adv_router msg) Ho1 Hm Hadv).
Qed.

Definition is_active (st : eigrp_fsm_states) : Prop := st <> EIGRP_FSM_STATE_PASSIVE.

Lemma wp_keep_state_active msg d r e s (Q : unit -> eigrp_instance -> Prop) :
  let p := msg_prefix msg in
  prefixes s !! p = Some d -> is_active (pd_state d) ->
  dest_ok s d -> mem s = [] -> all_below s -> adv_live s msg ->
  msg_route msg = Some r -> routes s !! r = Some e ->
  (forall s' ws, dual_out p s s' d ws ->
     (packet_type msg <> EIGRP_OPC_QUERY -> ws = []) ->
     (forall n, packet_type msg = EIGRP_OPC_QUERY -> successor_route e = false ->
        msg_adv_router msg = Some n -> active_reply s p n ws) ->
     Q tt s') ->
  wp (eigrp_fsm_event_keep_state msg) Q s.
Proof.
  intros p Hp Hst Hok Hm Hb Hadv Hr He HQ. unfold eigrp_fsm_event_keep_state. fold p.
  assert (Hl := ok_live _ _ Hok).
  rewrite wp_bind. apply (wp_route_select p d); [done|done|]. rewrite wp_bind.
  assert (Hbest : forall Q' : option ptr -> eigrp_instance -> Prop, (forall o, Q' o s) ->
    wp (match select_of s d with Some r => mret (Some r) | None => eigrp_topology_route_read p end) Q' s).
  { intros Q' HQ'. destruct (select_of s d); [by apply HQ'|].
    apply (wp_route_read p d); [done|done|]. apply HQ'. }
  apply Hbest. intros o. wp_simpl. unfold is_passive at 1.
  rewrite bool_decide_false by done. wp_simpl.
  pose proof (dual_out_refl p s d Hp) as Ho.
  destruct (Z.eqb_spec (packet_type msg) EIGRP_OPC_QUERY) as [Eq|Eq]; [|by eapply HQ].
  wp_simpl. unfold is_passive. rewrite bool_decide_false by done. rewrite Hr.
  unfold from_successor, flagged. wp_simpl.
  change (rd_flags e .? EIGRP_ROUTE_DESCRIPTOR_SUCCESSOR_FLAG) with (successor_route e).
  destruct (successor_route e); simpl; [by eapply HQ|].
  destruct (msg_adv_router msg) as [n|] eqn:En; [|by eapply HQ].
  apply (wp_active_reply p n d); try done; [by apply Hadv|].
  intros s' ws Ho' Hact. apply (HQ s' ws); [done|done|]. by intros ? _ _ [= <-].
Qed.

(** *** Last reply with the feasibility condition satisfied *)

Definition fcs_desc (e : eigrp_route_descriptor) (d : eigrp_prefix_descriptor)
    : eigrp_prefix_descriptor :=
  let d1 := stop_timer d in
  {| d1 with rij := []; pd_state := EIGRP_FSM_STATE_PASSIVE;
     distance := rd_distance e; rdistance := rd_distance e;
     reported_metric := rd_total_metric e;
     fdistance := if rd_distance e <? fdistance d then rd_distance e else fdistance d;
     query_origin := None;
     req_action := Z.lor (req_action d) EIGRP_FSM_NEED_UPDATE |}.

Definition fcs_work s p (d : eigrp_prefix_descriptor) : list eigrp_packetizer_work :=
  (if bool_decide (pd_state d = EIGRP_FSM_STATE_ACTIVE_2)
   then reply_to s (query_origin d) p None 0 else [])
  ++ enqueued s update_work.

Lemma wp_event_lr_fcs msg d r e s (Q : unit -> eigrp_instance -> Prop) :
  let p := msg_prefix msg in
  prefixes s !! p = Some d -> dest_ok s d -> mem s = [] ->
  select_of s d = Some r -> routes s !! r = Some e ->
  (forall s', dual_out p s s' (fcs_desc e d) (fcs_work s p d) -> p ∈ topology_changes s' -> Q tt s') ->
  wp (eigrp_fsm_event_lr_fcs msg) Q s.
Proof.
  intros p Hp Hok Hm Hsel He HQ. unfold eigrp_fsm_event_lr_fcs. fold p.
  rewrite wp_bind. apply (wp_route_select p d); [done|by apply ok_live|]. rewrite Hsel. wp_simpl.
  apply (wp_stop_out (dual_out_refl p s d Hp)). intros s1 Ho1. wp_simpl.
  apply (wp_upd_out _ Ho1). intros s2 Ho2. wp_simpl.
  apply (wp_upd_out _ Ho2). intros s3 Ho3. wp_simpl.
  destruct (df_routes _ _ _ (do_frame _ _ _ _ _ Ho3) r e He) as (e3 & He3 & Ee).
  apply strip_flags_eq in Ee as (Ed & _ & _ & _ & _ & Et & _). wp_simpl. rewrite Ed, Et.
  apply (wp_upd_out _ Ho3). intros s4 Ho4. wp_simpl.
  rewrite wp_get_prefix by apply Ho4. simpl. wp_simpl.
  assert (Htail : forall s5 ws, dual_out p s s5
      (let d1 := stop_timer d in
       {| d1 with rij := []; pd_state := EIGRP_FSM_STATE_PASSIVE;
          distance := rd_distance e; rdistance := rd_distance e;
          reported_metric := rd_total_metric e;
          fdistance := if rd_distance e <? fdistance d then rd_distance e else fdistance d |}) ws ->
    ws = (if bool_decide (pd_state d = EIGRP_FSM_STATE_ACTIVE_2)
          then reply_to s (query_origin d) p None 0 else []) ->
    wp (upd_prefix p (fun d => {| d with query_origin := None |});; passive_publish p) Q s5).
  { intros s5 ws Ho5 ->. rewrite wp_bind. apply (wp_upd_out _ Ho5). intros s6 Ho6.
    apply (wp_passive_publish_out Ho6); [by eapply dest_ok_closed|done|].
    intros s7 Ho7 Hc. by apply HQ. }
  case_bool_decide as E.
  - apply (wp_reply_out (query_origin d) Ho4 Hm (ok_origin _ _ Hok)). intros s5 Ho5.
    by eapply Htail.
  - by eapply Htail.
Qed.

(** *** Transitions that start or continue a computation *)

Definition to_state (st : eigrp_fsm_states) (d : eigrp_prefix_descriptor) : eigrp_prefix_descriptor :=
  {| d with pd_state := st |}.
Definition to_origin (n : option ptr) (d : eigrp_prefix_descriptor) : eigrp_prefix_descriptor :=
  {| d with query_origin := n |}.

(** Outcome of [diffuse] from descriptor [d]. *)
Definition diffused s p (d : eigrp_prefix_descriptor) (s' : eigrp_instance) : Prop :=
  p ∈ topology_changes s' /\
  if up_count_intfs s (eiflist s) =? 0
  then dual_out p s s' (lr_desc s (idle_desc d)) (lr_work s p d)
  else dual_out p s s' (query_desc d) [].

Lemma wp_diffused msg s s1 d (Q : unit -> eigrp_instance -> Prop) :
  dual_out (msg_prefix msg) s s1 d [] -> dest_ok s d -> mem s = [] -> peers_live s ->
  (forall s', diffused s (msg_prefix msg) d s' -> Q tt s') -> wp (diffuse msg) Q s1.
Proof.
  intros Ho Hok Hm Hpe HQ. apply (wp_diffuse_out msg s s1 d Q Ho Hok Hm Hpe);
    intros s2 E Ho2 Hc; apply HQ; (split; [done|]).
  - by rewrite (proj2 (Z.eqb_neq _ _)).
  - by rewrite (proj2 (Z.eqb_eq _ _)).
Qed.

Lemma wp_event_nq_fcn msg d s (Q : unit -> eigrp_instance -> Prop) :
  let p := msg_prefix msg in
  prefixes s !! p = Some d -> dest_ok s d -> mem s = [] -> peers_live s ->
  (forall s', diffused s p (to_state EIGRP_FSM_STATE_ACTIVE_1 d) s' -> Q tt s') ->
  wp (eigrp_fsm_event_nq_fcn msg) Q s.
Proof.
  intros p Hp Hok Hm Hpe HQ. unfold eigrp_fsm_event_nq_fcn. rewrite wp_bind. fold p.
  apply (wp_upd_out _ (dual_out_refl p s d Hp)). intros s1 Ho1.
  eapply wp_diffused; [exact Ho1| |done|done|exact HQ].
  eapply dest_ok_desc; [done|done|by left].
Qed.

Lemma wp_event_lr_fcn msg d s (Q : unit -> eigrp_instance -> Prop) :
  let p := msg_prefix msg in
  prefixes s !! p = Some d -> dest_ok s d -> mem s = [] -> peers_live s ->
  (forall s', diffused s p
     (to_state (if bool_decide (pd_state d = EIGRP_FSM_STATE_ACTIVE_0)
                then EIGRP_FSM_STATE_ACTIVE_1 else EIGRP_FSM_STATE_ACTIVE_3) d) s' -> Q tt s') ->
  wp (eigrp_fsm_event_lr_fcn msg) Q s.
Proof.
  intros p Hp Hok Hm Hpe HQ. unfold eigrp_fsm_event_lr_fcn. fold p. wp_simpl.
  eapply wp_mono; [apply (wp_upd_dual p _ d s Hp)|]. intros [] s1 Ho1.
  eapply wp_diffused; [exact Ho1| |done|done|exact HQ].
  eapply dest_ok_desc; [done|done|by left].
Qed.

Lemma wp_event_q_fcn msg d s (Q : unit -> eigrp_instance -> Prop) :
  let p := msg_prefix msg in
  prefixes s !! p = Some d -> dest_ok s d -> mem s = [] -> peers_live s -> adv_live s msg ->
  (forall s', diffused s p (to_origin (msg_adv_router msg) (to_state EIGRP_FSM_STATE_ACTIVE_3 d)) s' ->
     Q tt s') ->
  wp (eigrp_fsm_event_q_fcn msg) Q s.
Proof.
  intros p Hp Hok Hm Hpe Hadv HQ. unfold eigrp_fsm_event_q_fcn. fold p. rewrite wp_bind.
  apply (wp_upd_out _ (dual_out_refl p s d Hp)). intros s1 Ho1. rewrite wp_bind.
  apply (wp_upd_out _ Ho1). intros s2 Ho2.
  eapply wp_diffused; [exact Ho2| |done|done|exact HQ].
  destruct Hok. by split.
Qed.

Lemma wp_event_qact msg d s (Q : unit -> eigrp_instance -> Prop) :
  let p := msg_prefix msg in
  prefixes s !! p = Some d ->
  (forall s', dual_out p s s' (to_origin (msg_adv_router msg) (to_state EIGRP_FSM_STATE_ACTIVE_2 d)) [] ->
     Q tt s') ->
  wp (eigrp_fsm_event_qact msg) Q s.
Proof.
  intros p Hp HQ. unfold eigrp_fsm_event_qact. fold p. rewrite wp_bind.
  apply (wp_upd_out _ (dual_out_refl p s d Hp)). intros s1 Ho1.
  by apply (wp_upd_out _ Ho1).
Qed.

End handlers.
