(* ===== verification/Invariant.v ===== *)
(** * Well-formed stores

    The invariant of the topology store (ownership of routes, ordered duplicate
    free queues, live links, the DUAL origin discipline) and its stability under
    the frame of a DUAL event. *)

From Stdlib Require Import ZArith Lia.
From stdpp Require Import base gmap list sorting.
From S2P Require Import Prelude Types Metric Prefix State Topology Fsm Store Marking Frame Handlers.

(** A deferred REPLY exists only in the states entered by a successor's QUERY. *)
Definition origin_discipline (d : eigrp_prefix_descriptor) : Prop :=
  match pd_state d with
  | EIGRP_FSM_STATE_ACTIVE_2 | EIGRP_FSM_STATE_ACTIVE_3 => True
  | _ => query_origin d = None
  end.

Record dest_wf (s : eigrp_instance) (p : ptr) (d : eigrp_prefix_descriptor) : Prop := {
  dw_nodup : NoDup (topology_routes d);
  dw_routes : forall r, r ∈ topology_routes d ->
    exists e, routes s !! r = Some e /\ route_links s e /\ rd_prefix e = Some p;
  dw_internal : StronglySorted (key_le (route_dist s)) (internal_routes d);
  dw_external : StronglySorted (key_le (route_dist s)) (external_routes d);
  dw_origin : forall n, query_origin d = Some n -> is_Some (nbrs s !! n);
  dw_discipline : origin_discipline d;
  dw_rij : NoDup (rs_neighbor <$> rij d);
}.

Record instance_wf (s : eigrp_instance) : Prop := {
  iw_dests : forall p d, prefixes s !! p = Some d -> dest_wf s p d;
  iw_below : all_below s;
  iw_peers : peers_live s;
  iw_nbr_ei : forall n nb i, nbrs s !! n = Some nb -> nbr_ei nb = Some i -> is_Some (intfs s !! i);
  iw_bandwidth : forall i ei, intfs s !! i = Some ei -> if_bandwidth ei <> 0;
  iw_changes : forall p, p ∈ topology_changes s -> is_Some (prefixes s !! p);
}.

(** What the operations do to a neighbor: nothing but its prefix count. *)
Definition hide_count (n : eigrp_nbr) : eigrp_nbr := {| n with limit_prefix_count := 0 |}.
Definition nbrs_keep (s s' : eigrp_instance) : Prop :=
  forall n, hide_count <$> nbrs s' !! n = hide_count <$> nbrs s !! n.

Section well_formed.
Implicit Types s : eigrp_instance.

Lemma dest_wf_ok s p d : dest_wf s p d -> dest_ok s d.
Proof.
  intros [H1 H2 _ _ H3 _]. split; [|done|done]. apply Forall_forall. intros r Hr.
  destruct (H2 r Hr) as (e & ? & ? & _). eauto.
Qed.

Lemma route_dist_sorted s s' l :
  (forall r, r ∈ l -> route_dist s' r = route_dist s r) ->
  StronglySorted (key_le (route_dist s)) l -> StronglySorted (key_le (route_dist s')) l.
Proof.
  intros Heq. induction 1 as [|r l Hs IH Hf]; [constructor|]. constructor.
  - apply IH. intros x Hx. apply Heq. by right.
  - rewrite Forall_forall in *. intros x Hx. unfold key_le.
    rewrite (Heq r), (Heq x) by (rewrite elem_of_cons; auto). by apply Hf.
Qed.

Lemma in_internal d r : r ∈ internal_routes d -> r ∈ topology_routes d.
Proof. intros. apply elem_of_app. by left. Qed.
Lemma in_external d r : r ∈ external_routes d -> r ∈ topology_routes d.
Proof. intros. apply elem_of_app. by right. Qed.

(** A destination only depends on its own routes, the neighbors and the interfaces. *)
Lemma dest_wf_transfer s s' p d :
  (forall r e, r ∈ topology_routes d -> routes s !! r = Some e ->
     exists e', routes s' !! r = Some e' /\ strip_flags e' = strip_flags e) ->
  (forall i, is_Some (intfs s !! i) -> is_Some (intfs s' !! i)) ->
  (forall n, is_Some (nbrs s !! n) -> is_Some (nbrs s' !! n)) ->
  dest_wf s p d -> dest_wf s' p d.
Proof.
  intros HR HI HN [H1 H2 H3 H4 H5 H6 H7].
  assert (Hd : forall r, r ∈ topology_routes d -> route_dist s' r = route_dist s r).
  { intros r Hr. destruct (H2 r Hr) as (e & He & _).
    destruct (HR r e Hr He) as (e' & He' & E). unfold route_dist. rewrite He, He'.
    by apply strip_flags_eq in E as (-> & _). }
  split; auto.
  - intros r Hr. destruct (H2 r Hr) as (e & He & [L1 L2] & Hp).
    destruct (HR r e Hr He) as (e' & He' & E). exists e'.
    apply strip_flags_eq in E as (_ & _ & E1 & E2 & E3 & _).
    split; [done|]. split; [|congruence]. split; rewrite ?E1, ?E2; eauto.
  - eapply route_dist_sorted; [|done]. intros r Hr. by apply Hd, in_internal.
  - eapply route_dist_sorted; [|done]. intros r Hr. by apply Hd, in_external.
Qed.

Lemma dest_wf_frame p q s s' d : dual_frame p s s' -> dest_wf s q d -> dest_wf s' q d.
Proof.
  intros F. apply dest_wf_transfer.
  - intros r e _. apply (df_routes _ _ _ F).
  - by rewrite (frame_intfs p s s').
  - by rewrite (frame_nbrs p s s').
Qed.

(** The invariant after an event that left the descriptor [d'] at [p]. *)
Lemma instance_wf_frame p s s' d' :
  instance_wf s -> dual_frame p s s' -> is_Some (prefixes s !! p) ->
  prefixes s' !! p = Some d' -> dest_wf s p d' -> instance_wf s'.
Proof.
  intros [W1 W2 W3 W4 W5 W6] F Hp Hp' Hd. split.
  - intros q dq Hq. eapply dest_wf_frame; [exact F|].
    destruct (decide (q = p)) as [->|Hne]; [by simplify_eq|].
    apply W1. by rewrite <-(df_others _ _ _ F).
  - by apply F.
  - by eapply peers_live_frame.
  - by rewrite (frame_nbrs p s s'), (frame_intfs p s s').
  - by rewrite (frame_intfs p s s').
  - intros q [Hq| ->]%(df_changes _ _ _ F); [|by apply F].
    destruct (decide (q = p)) as [->|Hne]; [by apply F|].
    rewrite (df_others _ _ _ F) by done. by apply W6.
Qed.

(** Changing scalar fields of a well-formed destination. *)
Lemma dest_wf_scalars s p d d' :
  dest_wf s p d -> internal_routes d' = internal_routes d ->
  external_routes d' = external_routes d ->
  (forall n, query_origin d' = Some n -> is_Some (nbrs s !! n)) -> origin_discipline d' ->
  (rij d' = rij d \/ rij d' = []) -> dest_wf s p d'.
Proof.
  intros [H1 H2 H3 H4 H5 H6 H7] E1 E2 Ho Hd [Er|Er];
    split; unfold topology_routes; rewrite ?E1, ?E2, ?Er; auto; constructor.
Qed.
End well_formed.

(** ** A decision procedure *)

Section checker.
Context (s : eigrp_instance).

Definition liveb {A} (m : gmap ptr A) (o : option ptr) : bool :=
  match o with None => true | Some x => bool_decide (is_Some (m !! x)) end.

Definition route_linksb (e : eigrp_route_descriptor) : bool :=
  liveb (intfs s) (rd_ei e) && liveb (nbrs s) (rd_adv_router e).

Definition owned_routeb (p r : ptr) : bool :=
  match routes s !! r with
  | Some e => route_linksb e && bool_decide (rd_prefix e = Some p)
  | None => false
  end.

Fixpoint sortedb (key : ptr -> Z) (l : list ptr) : bool :=
  match l with
  | [] => true
  | x :: l' => forallb (fun y => key x <=? key y) l' && sortedb key l'
  end.

Definition origin_disciplineb (d : eigrp_prefix_descriptor) : bool :=
  match pd_state d with
  | EIGRP_FSM_STATE_ACTIVE_2 | EIGRP_FSM_STATE_ACTIVE_3 => true
  | _ => bool_decide (query_origin d = None)
  end.

Definition dest_wfb (p : ptr) (d : eigrp_prefix_descriptor) : bool :=
  bool_decide (NoDup (topology_routes d)) && forallb (owned_routeb p) (topology_routes d)
  && sortedb (route_dist s) (internal_routes d) && sortedb (route_dist s) (external_routes d)
  && liveb (nbrs s) (query_origin d) && origin_disciplineb d
  && bool_decide (NoDup (rs_neighbor <$> rij d)).

Definition every {A} (m : gmap ptr A) (P : ptr -> A -> bool) : bool :=
  forallb (fun x => P x.1 x.2) (map_to_list m).

Definition belowb (x : ptr) : bool := Nat.ltb x (next_addr s).

Definition instance_wfb : bool :=
  every (prefixes s) dest_wfb
  && every (routes s) (fun r _ => belowb r) && every (prefixes s) (fun p _ => belowb p)
  && forallb (fun i => match intfs s !! i with
                       | Some ei => forallb (fun n => liveb (nbrs s) (Some n)) (if_nbrs ei)
                       | None => false end) (eiflist s)
  && every (nbrs s) (fun _ nb => liveb (intfs s) (nbr_ei nb))
  && every (intfs s) (fun _ ei => negb (if_bandwidth ei =? 0))
  && forallb (fun p => liveb (prefixes s) (Some p)) (topology_changes s).

Lemma every_spec {A} (m : gmap ptr A) P k x : every m P = true -> m !! k = Some x -> P k x = true.
Proof.
  intros H Hk. unfold every in H. rewrite forallb_forall in H.
  apply (H (k, x)). by apply list_elem_of_In, elem_of_map_to_list.
Qed.
Lemma forallb_elem {A} (P : A -> bool) l x : forallb P l = true -> x ∈ l -> P x = true.
Proof. rewrite forallb_forall. intros H Hx. by apply H, list_elem_of_In. Qed.
Lemma liveb_spec {A} (m : gmap ptr A) o x : liveb m o = true -> o = Some x -> is_Some (m !! x).
Proof. intros H ->. by apply bool_decide_eq_true in H. Qed.
Lemma sortedb_spec key l : sortedb key l = true -> StronglySorted (key_le key) l.
Proof.
  induction l as [|x l IH]; simpl; [constructor|]. rewrite andb_true_iff. intros [H1 H2].
  constructor; [auto|]. apply Forall_forall. intros y Hy.
  apply (forallb_elem _ _ y) in H1; [|done]. by apply Z.leb_le.
Qed.

Lemma dest_wfb_spec p d : dest_wfb p d = true -> dest_wf s p d.
Proof.
  unfold dest_wfb. rewrite !andb_true_iff, !bool_decide_eq_true.
  intros ((((((H1 & H2) & H3) & H4) & H5) & H6) & H7).
  split; auto using sortedb_spec; [|intros n Hn; exact (liveb_spec _ _ n H5 Hn)|].
  - intros r Hr. apply (forallb_elem _ _ r) in H2; [|done]. unfold owned_routeb in H2.
    destruct (routes s !! r) as [e|]; [|done]. exists e. unfold route_linksb in H2.
    rewrite !andb_true_iff, bool_decide_eq_true in H2. destruct H2 as [[L1 L2] L3].
    split; [done|]. split; [|done]. split; intros x Hx; [exact (liveb_spec _ _ x L1 Hx)|exact (liveb_spec _ _ x L2 Hx)].
  - unfold origin_disciplineb in H6. unfold origin_discipline.
    by destruct (pd_state d); rewrite ?bool_decide_eq_true in H6.
Qed.

Lemma instance_wfb_spec : instance_wfb = true -> instance_wf s.
Proof.
  unfold instance_wfb. rewrite !andb_true_iff.
  intros ((((((H1 & H2) & H3) & H4) & H5) & H6) & H7). split.
  - intros p d Hp. by apply dest_wfb_spec, (every_spec _ _ p d H1).
  - split; intros x [y Hx]; apply Nat.ltb_lt;
      [exact (every_spec _ _ x y H2 Hx)|exact (every_spec _ _ x y H3 Hx)].
  - apply Forall_forall. intros i Hi. pose proof (forallb_elem _ _ i H4 Hi) as Hei. simpl in Hei.
    destruct (intfs s !! i) as [ei|]; [|done]. exists ei. split; [done|].
    apply Forall_forall. intros n Hn. pose proof (forallb_elem _ _ n Hei Hn) as Hl.
    by apply bool_decide_eq_true in Hl.
  - intros n nb i Hn Hi. exact (liveb_spec _ _ i (every_spec _ _ n nb H5 Hn) Hi).
  - intros i ei Hi. pose proof (every_spec _ _ i ei H6 Hi) as H. by apply negb_true_iff, Z.eqb_neq in H.
  - intros p Hp. pose proof (forallb_elem _ _ p H7 Hp) as Hl. by apply bool_decide_eq_true in Hl.
Qed.
End checker.
