(* ===== verification/Distance.v ===== *)
(** * Distance update: behaviour

    [eigrp_topology_update_distance] on a well-formed store: the route adopts
    the advertised vector, moves to its place in the queue of its class, and
    the store stays well formed. *)

From Stdlib Require Import ZArith Lia.
From stdpp Require Import base gmap list sorting.
From S2P Require Import Prelude Types Metric Prefix State Topology Fsm Store Marking Frame Handlers Invariant.

(** ** The route after the update *)

Definition msg_ei (s : eigrp_instance) (msg : eigrp_fsm_action_message) : option ptr :=
  n ← msg_adv_router msg; nb ← nbrs s !! n; nbr_ei nb.

(** Owner, destination and inbound interface filled in. *)
Definition filled (s : eigrp_instance) (msg : eigrp_fsm_action_message)
    (e : eigrp_route_descriptor) : eigrp_route_descriptor :=
  {| e with
     rd_adv_router := match rd_adv_router e with None => msg_adv_router msg | Some n => Some n end;
     rd_prefix := match rd_prefix e with None => Some (msg_prefix msg) | Some q => Some q end;
     rd_ei := match rd_ei e with None => msg_ei s msg | Some i => Some i end |}.

Definition inbound (s : eigrp_instance) (e : eigrp_route_descriptor) : option eigrp_intf :=
  i ← rd_ei e; intfs s !! i.

(** The vector learned from the owner and the distance through its interface. *)
Definition reported_route (s : eigrp_instance) (m : eigrp_metrics) (e : eigrp_route_descriptor)
    : option eigrp_route_descriptor :=
  '(total, d) ← eigrp_metric_total_calculate (params s) (inbound s e) m;
  Some {| e with rd_metric := m; rd_reported_metric := m;
          rd_reported_distance := u32 (eigrp_metric_calculate (params s) m);
          rd_total_metric := total; rd_distance := u32 d |}.

(** A redistributed path: the seed vector is the whole distance. *)
Definition local_route (s : eigrp_instance) (m : eigrp_metrics) (e : eigrp_route_descriptor)
    : eigrp_route_descriptor :=
  {| e with rd_metric := m; rd_reported_metric := m; rd_reported_distance := 0;
     rd_total_metric := m;
     rd_distance := u32 (eigrp_topology_redistributed_distance (params s) m) |}.

Definition is_local (s : eigrp_instance) (e : eigrp_route_descriptor) : bool :=
  opt_ptr_eqb (rd_adv_router e) (neighbor_self s) && negb (bool_decide (is_Some (rd_ei e))).

Definition updated_route (s : eigrp_instance) (msg : eigrp_fsm_action_message)
    (e : eigrp_route_descriptor) : option eigrp_route_descriptor :=
  match data_type msg with
  | EIGRP_CONNECTED => Some e
  | EIGRP_INT => reported_route s (msg_metrics msg) e
  | EIGRP_EXT => if is_local s e then Some (local_route s (msg_metrics msg) e)
                 else reported_route s (msg_metrics msg) e
  end.

(** No change: the early returns of the [switch]. *)
Definition unchanged (msg : eigrp_fsm_action_message) (d : eigrp_prefix_descriptor)
    (e : eigrp_route_descriptor) (stored class_changed : bool) : bool :=
  match data_type msg with
  | EIGRP_CONNECTED => nt d =? EIGRP_TOPOLOGY_TYPE_CONNECTED
  | _ => stored && negb class_changed
         && eigrp_metrics_match (msg_metrics msg) (rd_reported_metric e)
  end.

Definition distance_change (s : eigrp_instance) (msg : eigrp_fsm_action_message)
    (e : eigrp_route_descriptor) : metric_change :=
  let new := u32 (eigrp_metric_calculate (params s) (msg_metrics msg)) in
  match data_type msg with
  | EIGRP_CONNECTED => METRIC_DECREASE
  | EIGRP_INT => if rd_reported_distance e <? new then METRIC_INCREASE else METRIC_DECREASE
  | EIGRP_EXT =>
      if is_local s e
      then compare_distance (rd_distance e)
             (eigrp_topology_redistributed_distance (params s) (msg_metrics msg))
      else compare_distance (rd_reported_distance e) new
  end.

Section class_step.
Implicit Types s : eigrp_instance.

Lemma set_route_twice s r a b : set_route (set_route s r a) r b = set_route s r b.
Proof. unfold set_route. simpl. by rewrite insert_insert_eq. Qed.
Lemma set_prefix_twice s p a b : set_prefix (set_prefix s p a) p b = set_prefix s p b.
Proof. unfold set_prefix. simpl. by rewrite insert_insert_eq. Qed.
Lemma set_route_lookup s r e : routes (set_route s r e) !! r = Some e.
Proof. apply lookup_insert_eq. Qed.

Lemma wp_store_reported r e e' m s (Q : unit -> eigrp_instance -> Prop) :
  routes s !! r = Some e -> (forall i, rd_ei e = Some i -> is_Some (intfs s !! i)) ->
  reported_route s m e = Some e' ->
  Q tt (set_route s r e') ->
  wp (store_reported r m (u32 (eigrp_metric_calculate (params s) m))) Q s.
Proof.
  intros Hr Hi He HQ. unfold store_reported. wp_simpl.
  rewrite wp_get_route by apply set_route_lookup. wp_simpl. simpl.
  assert (Hin : forall Q' : option eigrp_intf -> eigrp_instance -> Prop,
    Q' (inbound s e) (set_route s r
      {| e with rd_metric := m; rd_reported_metric := m;
         rd_reported_distance := u32 (eigrp_metric_calculate (params s) m) |}) ->
    wp (match rd_ei e with None => mret None | Some i => ei ← get_intf i; mret (Some ei) end) Q'
       (set_route s r
         {| e with rd_metric := m; rd_reported_metric := m;
            rd_reported_distance := u32 (eigrp_metric_calculate (params s) m) |})).
  { intros Q' HQ'. unfold inbound in HQ'. destruct (rd_ei e) as [i|]; [|done].
    destruct (Hi i eq_refl) as [ei Hei]. simpl in HQ'. rewrite Hei in HQ'.
    rewrite wp_bind. rewrite (wp_get_intf i ei) by done. done. }
  apply Hin. unfold reported_route in He.
  destruct (eigrp_metric_total_calculate _ _ m) as [[t x]|]; [|done]. simpl in He.
  simplify_eq. wp_simpl. by rewrite set_route_twice.
Qed.

Lemma wp_distance_class msg r d e e' stored cc s
    (Q : option metric_change -> eigrp_instance -> Prop) :
  prefixes s !! msg_prefix msg = Some d -> routes s !! r = Some e ->
  (forall i, rd_ei e = Some i -> is_Some (intfs s !! i)) ->
  (unchanged msg d e stored cc = false -> updated_route s msg e = Some e') ->
  (unchanged msg d e stored cc = true -> Q None s) ->
  (unchanged msg d e stored cc = false ->
     Q (Some (distance_change s msg e)) (set_route s r e')) ->
  wp (update_distance_class msg r stored cc) Q s.
Proof.
  intros Hp Hr Hi Hup HN HS. unfold update_distance_class, unchanged, updated_route,
    distance_change, is_local in *. wp_simpl.
  destruct (data_type msg).
  - destruct (nt d =? EIGRP_TOPOLOGY_TYPE_CONNECTED); wp_simpl; [auto|].
    specialize (Hup eq_refl). simplify_eq. specialize (HS eq_refl).
    replace (set_route s r e') with s in HS; [done|].
    unfold set_route. rewrite insert_id by done. by destruct s.
  - destruct (stored && negb cc && eigrp_metrics_match _ _); wp_simpl; [auto|].
    eapply wp_store_reported; eauto. wp_simpl. auto.
  - destruct (stored && negb cc && eigrp_metrics_match _ _); wp_simpl; [auto|].
    destruct (opt_ptr_eqb _ _ && _); wp_simpl.
    + specialize (Hup eq_refl). simplify_eq. auto.
    + eapply wp_store_reported; eauto. wp_simpl. auto.
Qed.
End class_step.

(** ** Moving the route to its queue *)

Definition requeue (s : eigrp_instance) (r : ptr) (external : bool)
    (d : eigrp_prefix_descriptor) : eigrp_prefix_descriptor :=
  let d1 := {| d with internal_routes := remove_first (Nat.eqb r) (internal_routes d);
               external_routes := remove_first (Nat.eqb r) (external_routes d) |} in
  set_queue external (insert_by (route_dist s) r (queue_of external d1)) d1.

Definition hide_queues (d : eigrp_prefix_descriptor) : eigrp_prefix_descriptor :=
  {| d with internal_routes := []; external_routes := [] |}.

Section requeue.
Implicit Types s : eigrp_instance.

Lemma hide_queues_fields d d' :
  hide_queues d' = hide_queues d ->
  pd_state d' = pd_state d /\ query_origin d' = query_origin d /\ rij d' = rij d
  /\ fdistance d' = fdistance d /\ distance d' = distance d /\ rdistance d' = rdistance d
  /\ reported_metric d' = reported_metric d /\ req_action d' = req_action d
  /\ active_eigrp d' = active_eigrp d /\ t_active d' = t_active d.
Proof. destruct d, d'. intros [= ]. simpl. by subst. Qed.

Lemma elem_of_remove_first r x l :
  NoDup l -> x ∈ remove_first (Nat.eqb r) l <-> x ∈ l /\ x <> r.
Proof.
  induction 1 as [|y l Hy Hl IH]; simpl.
  { split; [by intros ?%not_elem_of_nil|by intros [?%not_elem_of_nil _]]. }
  destruct (Nat.eqb_spec r y) as [->|Hne]; rewrite !elem_of_cons; [|rewrite IH]; naive_solver.
Qed.

Lemma remove_first_nodup r l : NoDup l -> NoDup (remove_first (Nat.eqb r) l).
Proof. intros H. eapply sublist_NoDup; [done|apply remove_first_sublist]. Qed.

Lemma requeue_hide s r b d : hide_queues (requeue s r b d) = hide_queues d.
Proof. by destruct b. Qed.

Lemma requeue_elem s r b d x :
  NoDup (topology_routes d) ->
  x ∈ topology_routes (requeue s r b d) <-> x = r \/ x ∈ topology_routes d.
Proof.
  intros (H1 & _ & H2)%NoDup_app. unfold requeue, topology_routes.
  destruct b; simpl; rewrite !elem_of_app, elem_of_insert_by, !elem_of_remove_first by done;
    destruct (decide (x = r)); tauto.
Qed.

Lemma requeue_nodup s r b d :
  NoDup (topology_routes d) -> NoDup (topology_routes (requeue s r b d)).
Proof.
  intros (H1 & H3 & H2)%NoDup_app. unfold requeue, topology_routes.
  apply NoDup_app.
  destruct b; simpl; (split; [|split]).
  all: try (by apply remove_first_nodup).
  all: try (rewrite insert_by_perm; constructor;
            [rewrite elem_of_remove_first by done; tauto|by apply remove_first_nodup]).
  all: intros x; rewrite elem_of_insert_by, !elem_of_remove_first by done;
    intros Hx Hy; specialize (H3 x); naive_solver.
Qed.

Lemma requeue_sorted s r b d :
  StronglySorted (key_le (route_dist s)) (remove_first (Nat.eqb r) (internal_routes d)) ->
  StronglySorted (key_le (route_dist s)) (remove_first (Nat.eqb r) (external_routes d)) ->
  StronglySorted (key_le (route_dist s)) (internal_routes (requeue s r b d))
  /\ StronglySorted (key_le (route_dist s)) (external_routes (requeue s r b d)).
Proof. intros. destruct b; simpl; (split; [|]); auto using insert_by_sorted. Qed.

(** The neighbor's path count is the only other field an insertion moves. *)
Definition counted s s' : Prop := s' = {| s with nbrs := nbrs s' |} /\ nbrs_keep s s'.

Lemma wp_route_insert p r d e first s (Q : bool -> eigrp_instance -> Prop) :
  prefixes s !! p = Some d -> routes s !! r = Some e -> route_links s e ->
  live_routes s (queue_of (eigrp_topology_route_external e) d) -> mem s = [] ->
  (forall s', counted (set_prefix s p (set_queue (eigrp_topology_route_external e)
       (insert_by (route_dist s) r (queue_of (eigrp_topology_route_external e) d)) d)) s' ->
     Q true s') ->
  wp (eigrp_topology_route_insert p r first) Q s.
Proof.
  intros Hp Hr [_ Hn] Hl Hm HQ. unfold eigrp_topology_route_insert,
    eigrp_topology_route_class_queue. wp_simpl.
  eapply wp_route_list_insert; [done|done|]. wp_simpl. simpl. wp_simpl.
  set (s1 := set_prefix _ _ _).
  assert (Hid : counted s1 s1) by (split; [by destruct s|done]).
  destruct (first && negb (opt_ptr_eqb (rd_adv_router e) (neighbor_self s1))); [|by wp_simpl; auto].
  destruct (rd_adv_router e) as [n|]; [|by wp_simpl; auto].
  destruct (Hn n eq_refl) as [nb Hnb]. rewrite wp_bind.
  rewrite (wp_get_nbr n nb) by done. wp_simpl.
  destruct (limit_prefix_count_valid nb) eqn:Ev; [|by wp_simpl; auto]. wp_simpl. apply HQ.
  split; [done|]. intros n'. simpl. destruct (decide (n' = n)) as [->|Hne].
  - rewrite lookup_insert_eq. change (nbrs s1) with (nbrs s).
    rewrite Hnb. simpl. unfold hide_count. simpl. by rewrite Ev.
  - by rewrite lookup_insert_ne.
Qed.
End requeue.

(** ** The whole update *)

(** An event the receive paths can deliver: it names a live route of its own
    destination, or one not stored yet, and a usable inbound interface unless
    the vector is unreachable. *)
Record msg_ok (s : eigrp_instance) (msg : eigrp_fsm_action_message) (r : ptr)
    (d : eigrp_prefix_descriptor) (e : eigrp_route_descriptor) : Prop := {
  mo_prefix : prefixes s !! msg_prefix msg = Some d;
  mo_route : msg_route msg = Some r;
  mo_desc : routes s !! r = Some e;
  mo_links : route_links s e;
  mo_owner : rd_prefix e = None \/ rd_prefix e = Some (msg_prefix msg);
  mo_adv : adv_live s msg;
  mo_stored : data_type msg = EIGRP_CONNECTED -> r ∈ topology_routes d;
  mo_inbound : is_Some (updated_route s msg (filled s msg e));
  mo_retained : transient_route msg = false;
}.

(** A second run of the update with the same message changes nothing. *)
Record settled (s : eigrp_instance) (msg : eigrp_fsm_action_message) (r : ptr)
    (d : eigrp_prefix_descriptor) (e : eigrp_route_descriptor) : Prop := {
  st_queue : in_queue r (internal_routes d) || in_queue r (external_routes d) = true;
  st_class : in_queue r (external_routes d) = eigrp_topology_route_external e;
  st_metrics : rd_reported_metric e = msg_metrics msg;
  st_filled : filled s msg e = e;
}.

Record distance_updated (s : eigrp_instance) (msg : eigrp_fsm_action_message) (r : ptr)
    (d : eigrp_prefix_descriptor) (e : eigrp_route_descriptor)
    (s' : eigrp_instance) (c : metric_change)
    (d' : eigrp_prefix_descriptor) (e' : eigrp_route_descriptor) : Prop := {
  du_wf : instance_wf s';
  du_mem : mem s' = [];
  du_prefixes : prefixes s' = <[msg_prefix msg := d']> (prefixes s);
  du_scalars : hide_queues d' = hide_queues d;
  du_stored : r ∈ topology_routes d';
  du_queues : forall x, x ∈ topology_routes d' -> x = r \/ x ∈ topology_routes d;
  du_kept : forall x, x ∈ topology_routes d -> x ∈ topology_routes d';
  du_routes : routes s' = <[r := e']> (routes s);
  du_route : e' = filled s msg e /\ c = METRIC_SAME
             /\ (data_type msg = EIGRP_CONNECTED \/ eigrp_metrics_match (msg_metrics msg) (rd_reported_metric e) = true)
             \/ updated_route s msg (filled s msg e) = Some e'
                /\ c = distance_change s msg (filled s msg e);
  du_settled : c <> METRIC_SAME -> data_type msg <> EIGRP_CONNECTED -> settled s' msg r d' e';
  du_nbrs : nbrs_keep s s';
  du_rest : s' = {| s with routes := routes s'; prefixes := prefixes s'; nbrs := nbrs s' |};
}.

Section update.
Implicit Types s : eigrp_instance.

Lemma filled_links s msg e :
  instance_wf s -> adv_live s msg -> route_links s e -> route_links s (filled s msg e).
Proof.
  intros W Ha [L1 L2]. split; simpl.
  - intros i. destruct (rd_ei e); [auto|]. unfold msg_ei.
    destruct (msg_adv_router msg) as [n|]; [|done]. simpl.
    destruct (nbrs s !! n) as [nb|] eqn:E; [|done]. simpl. by eapply iw_nbr_ei.
  - intros n. destruct (rd_adv_router e); [auto|]. apply Ha.
Qed.

Lemma reported_route_fields s m e e' :
  reported_route s m e = Some e' ->
  rd_ei e' = rd_ei e /\ rd_adv_router e' = rd_adv_router e /\ rd_prefix e' = rd_prefix e
  /\ rd_type e' = rd_type e /\ rd_flags e' = rd_flags e.
Proof.
  unfold reported_route. destruct (eigrp_metric_total_calculate _ _ _) as [[t x]|]; [|done].
  intros [= <-]. done.
Qed.

Lemma updated_route_fields s msg e e' :
  updated_route s msg e = Some e' ->
  rd_ei e' = rd_ei e /\ rd_adv_router e' = rd_adv_router e /\ rd_prefix e' = rd_prefix e
  /\ rd_type e' = rd_type e /\ rd_flags e' = rd_flags e.
Proof.
  unfold updated_route. destruct (data_type msg); [by intros [= <-]|apply reported_route_fields|].
  destruct (is_local s e); [by intros [= <-]|apply reported_route_fields].
Qed.

Lemma nbrs_keep_live s s' n : nbrs_keep s s' -> is_Some (nbrs s !! n) -> is_Some (nbrs s' !! n).
Proof.
  intros H [nb Hn]. specialize (H n). rewrite Hn in H. destruct (nbrs s' !! n); [eauto|done].
Qed.

Lemma nbrs_keep_lookup s s' n nb' :
  nbrs_keep s s' -> nbrs s' !! n = Some nb' ->
  exists nb, nbrs s !! n = Some nb /\ hide_count nb' = hide_count nb.
Proof.
  intros H Hn. specialize (H n). rewrite Hn in H. destruct (nbrs s !! n) as [nb|]; [|done].
  apply (inj Some) in H. eauto.
Qed.

(** A store whose destination [p] and route [r] were rewritten. *)
Lemma instance_wf_rewrite s s' p r d d' e e' :
  instance_wf s -> prefixes s !! p = Some d -> routes s !! r = Some e ->
  (rd_prefix e = None \/ rd_prefix e = Some p) ->
  routes s' = <[r := e']> (routes s) -> prefixes s' = <[p := d']> (prefixes s) ->
  nbrs_keep s s' -> s' = {| s with routes := routes s'; prefixes := prefixes s'; nbrs := nbrs s' |} ->
  dest_wf s' p d' -> instance_wf s'.
Proof.
  intros [W1 W2 W3 W4 W5 W6] Hp Hr Hown HR HP HN Hrest Hd'.
  assert (Hint : intfs s' = intfs s) by (by rewrite Hrest).
  split.
  - intros q dq. rewrite HP. destruct (decide (q = p)) as [->|Hne].
    { rewrite lookup_insert_eq. intros [= <-]. done. }
    rewrite lookup_insert_ne by done. intros Hq. specialize (W1 q dq Hq).
    eapply (dest_wf_transfer s); [| | |exact W1].
    + intros x ex Hx Hex. rewrite HR. exists ex. split; [|done]. rewrite lookup_insert_ne; [done|].
      intros <-. destruct (dw_routes _ _ _ W1 r Hx) as (e0 & He0 & _ & Ho). naive_solver.
    + by rewrite Hint.
    + intros n. by apply nbrs_keep_live.
  - destruct W2 as [B1 B2]. assert (next_addr s' = next_addr s) as Hna by (by rewrite Hrest).
    split; rewrite Hna.
    + intros x. rewrite HR. destruct (decide (x = r)) as [->|Hne]; [intros _; apply B1; eauto|].
      rewrite lookup_insert_ne by done. apply B1.
    + intros x. rewrite HP. destruct (decide (x = p)) as [->|Hne]; [intros _; apply B2; eauto|].
      rewrite lookup_insert_ne by done. apply B2.
  - unfold peers_live. rewrite Hint. assert (eiflist s' = eiflist s) as -> by (by rewrite Hrest).
    eapply Forall_impl; [exact W3|]. intros i (ei & Hi & Hn). exists ei. split; [done|].
    eapply Forall_impl; [exact Hn|]. intros n. by apply nbrs_keep_live.
  - intros n nb' i Hn Hi. rewrite Hint.
    destruct (nbrs_keep_lookup s s' n nb' HN Hn) as (nb & Hnb & E).
    eapply W4; [exact Hnb|]. by rewrite <-Hi, <-(f_equal nbr_ei E : nbr_ei nb' = nbr_ei nb).
  - by rewrite Hint.
  - intros q Hq. assert (topology_changes s' = topology_changes s) as Hc by (by rewrite Hrest).
    rewrite Hc in Hq. rewrite HP. destruct (decide (q = p)) as [->|Hne].
    + by rewrite lookup_insert_eq.
    + rewrite lookup_insert_ne by done. by apply W6.
Qed.

Lemma route_dist_other s r e x : x <> r -> route_dist (set_route s r e) x = route_dist s x.
Proof. intros H. unfold route_dist. simpl. by rewrite lookup_insert_ne. Qed.

Lemma sorted_remove s r e l :
  NoDup l -> StronglySorted (key_le (route_dist s)) l ->
  StronglySorted (key_le (route_dist (set_route s r e))) (remove_first (Nat.eqb r) l).
Proof.
  intros Hnd Hs. eapply route_dist_sorted.
  - intros x [_ Hx]%elem_of_remove_first; [|done]. by apply route_dist_other.
  - eapply sorted_sublist; [apply remove_first_sublist|done].
Qed.

Lemma dest_wf_requeue s p r d e b :
  dest_wf s p d -> route_links s e -> rd_prefix e = Some p ->
  dest_wf (set_route s r e) p (requeue (set_route s r e) r b d).
Proof.
  intros [H1 H2 H3 H4 H5 H6 H7] Hl Ho.
  pose proof H1 as (N1 & _ & N2)%NoDup_app.
  destruct (requeue_sorted (set_route s r e) r b d) as [S1 S2]; [by apply sorted_remove..|].
  destruct (hide_queues_fields d _ (requeue_hide (set_route s r e) r b d)) as (E1 & E2 & E3 & _).
  split; [by apply requeue_nodup| |done|done| | |].
  - intros x [->|Hx]%requeue_elem; [|destruct (decide (x = r)) as [->|Hne]|done];
      [exists e; by rewrite set_route_lookup..|].
    destruct (H2 x Hx) as (ex & Hex & Hlx & Hox). exists ex. simpl.
    by rewrite lookup_insert_ne.
  - by rewrite E2.
  - unfold origin_discipline. by rewrite E1, E2.
  - by rewrite E3.
Qed.

(** The same queues when the route kept its distance. *)
Lemma dest_wf_same_distance s p r d e e' :
  dest_wf s p d -> routes s !! r = Some e -> rd_distance e' = rd_distance e ->
  route_links s e' -> rd_prefix e' = Some p -> dest_wf (set_route s r e') p d.
Proof.
  intros [H1 H2 H3 H4 H5 H6 H7] He Hd Hl Ho.
  assert (Hdist : forall x, route_dist (set_route s r e') x = route_dist s x).
  { intros x. destruct (decide (x = r)) as [->|]; [|by apply route_dist_other].
    unfold route_dist. by rewrite set_route_lookup, He. }
  split; auto.
  - intros x Hx. destruct (decide (x = r)) as [->|Hne].
    + exists e'. by rewrite set_route_lookup.
    + destruct (H2 x Hx) as (ex & Hex & Hlx & Hox). exists ex. simpl. by rewrite lookup_insert_ne.
  - eapply route_dist_sorted; [|done]. auto.
  - eapply route_dist_sorted; [|done]. auto.
Qed.

Lemma wp_msg_ei msg s (Q : option ptr -> eigrp_instance -> Prop) :
  adv_live s msg -> Q (msg_ei s msg) s ->
  wp (match msg_adv_router msg with
      | None => mret None | Some n => nbr ← get_nbr n; mret (nbr_ei nbr) end) Q s.
Proof.
  intros Ha HQ. unfold msg_ei in HQ. unfold adv_live in Ha.
  destruct (msg_adv_router msg) as [n|]; [|done]. destruct (Ha n eq_refl) as [nb Hnb].
  simpl in HQ. rewrite Hnb in HQ. by wp_simpl.
Qed.

Lemma stored_in d r :
  in_queue r (internal_routes d) || in_queue r (external_routes d) = true ->
  r ∈ topology_routes d.
Proof.
  unfold in_queue. intros [H|H]%orb_true_iff; apply bool_decide_eq_true in H;
    [by apply in_internal|by apply in_external].
Qed.

Lemma filled_owner s msg e :
  (rd_prefix e = None \/ rd_prefix e = Some (msg_prefix msg)) ->
  rd_prefix (filled s msg e) = Some (msg_prefix msg).
Proof. by intros [H|H]; simpl; rewrite H. Qed.

(** Nothing moved: the invariant and the outcome. *)
Lemma distance_unchanged s msg r d e :
  instance_wf s -> mem s = [] -> msg_ok s msg r d e -> r ∈ topology_routes d ->
  data_type msg = EIGRP_CONNECTED \/ eigrp_metrics_match (msg_metrics msg) (rd_reported_metric e) = true ->
  distance_updated s msg r d e (set_route s r (filled s msg e)) METRIC_SAME d (filled s msg e).
Proof.
  intros W Hm [O1 O2 O3 O4 O5 O6 O7 O8 O9] Hin Hmm.
  assert (HP : prefixes (set_route s r (filled s msg e)) = <[msg_prefix msg := d]> (prefixes s))
    by (by rewrite insert_id).
  split; auto; [|done..].
  eapply instance_wf_rewrite; [done|done|exact O3|done|done|exact HP|done|done|].
  eapply dest_wf_same_distance; [by apply W|done|done|by apply filled_links|by apply filled_owner].
Qed.

Lemma updated_route_metric s msg e e' :
  updated_route s msg e = Some e' -> data_type msg <> EIGRP_CONNECTED ->
  rd_reported_metric e' = msg_metrics msg.
Proof.
  assert (Hrep : forall m, reported_route s m e = Some e' -> rd_reported_metric e' = m).
  { intros m. unfold reported_route.
    destruct (eigrp_metric_total_calculate _ _ _) as [[t x]|]; [|done]. by intros [= <-]. }
  unfold updated_route. destruct (data_type msg); [done|auto|].
  destruct (is_local s e); [by intros [= <-]|auto].
Qed.

Lemma requeue_class s r b d :
  NoDup (topology_routes d) ->
  in_queue r (external_routes (requeue s r b d)) = b
  /\ in_queue r (internal_routes (requeue s r b d)) = negb b.
Proof.
  intros (H1 & _ & H2)%NoDup_app. unfold in_queue, requeue.
  destruct b; simpl; split; apply bool_decide_eq_true || apply bool_decide_eq_false;
    rewrite ?elem_of_insert_by, ?elem_of_remove_first by done; tauto.
Qed.

Lemma filled_idem s s' msg e e' :
  nbrs_keep s s' -> rd_adv_router e' = rd_adv_router (filled s msg e) ->
  rd_prefix e' = rd_prefix (filled s msg e) -> rd_ei e' = rd_ei (filled s msg e) ->
  filled s' msg e' = e'.
Proof.
  intros HN E1 E2 E3. unfold filled in *. simpl in *.
  assert (Hei : msg_ei s' msg = msg_ei s msg).
  { unfold msg_ei. destruct (msg_adv_router msg) as [n|]; [|done]. simpl.
    specialize (HN n). destruct (nbrs s' !! n) as [nb'|], (nbrs s !! n) as [nb|]; try done.
    apply (inj Some) in HN. exact (f_equal nbr_ei HN). }
  assert (Hd : forall o o' : option ptr, let x := match o with None => o' | Some n => Some n end in
    match x with None => o' | Some n => Some n end = x) by (by intros [] []).
  rewrite Hei.
  assert (A1 := Hd (rd_adv_router e) (msg_adv_router msg)).
  assert (A2 := Hd (rd_prefix e) (Some (msg_prefix msg))).
  assert (A3 := Hd (rd_ei e) (msg_ei s msg)). simpl in *.
  rewrite <-E1 in A1. rewrite <-E2 in A2. rewrite <-E3 in A3.
  rewrite A1, A2, A3. by destruct e'.
Qed.

Lemma distance_moved s msg r d e e' s' :
  instance_wf s -> mem s = [] -> msg_ok s msg r d e ->
  updated_route s msg (filled s msg e) = Some e' ->
  counted (set_prefix (set_route s r e') (msg_prefix msg)
             (requeue (set_route s r e') r (eigrp_topology_route_external e') d)) s' ->
  distance_updated s msg r d e s' (distance_change s msg (filled s msg e))
    (requeue (set_route s r e') r (eigrp_topology_route_external e') d) e'.
Proof.
  intros W Hm [O1 O2 O3 O4 O5 O6 O7 O8 O9] Hu [Hc HN].
  destruct (updated_route_fields _ _ _ _ Hu) as (F1 & F2 & F3 & _).
  assert (Hl : route_links s e').
  { unfold route_links. rewrite F1, F2. by apply filled_links. }
  assert (Ho : rd_prefix e' = Some (msg_prefix msg)) by (by rewrite F3; apply filled_owner).
  pose proof (iw_dests _ W _ _ O1) as Hd. pose proof (dw_nodup _ _ _ Hd) as Hnd.
  assert (HR : routes s' = <[r := e']> (routes s)) by (by rewrite Hc).
  assert (HP : prefixes s' = <[msg_prefix msg := requeue (set_route s r e') r
    (eigrp_topology_route_external e') d]> (prefixes s)) by (by rewrite Hc).
  assert (Hrest : s' = {| s with routes := routes s'; prefixes := prefixes s'; nbrs := nbrs s' |}).
  { rewrite HR, HP. exact Hc. }
  assert (Hw : instance_wf s').
  { eapply instance_wf_rewrite; [done|exact O1|exact O3|done|exact HR|exact HP|done|done|].
    eapply dest_wf_transfer; [| | |by eapply dest_wf_requeue].
    + intros x ex _ Hx. exists ex. split; [|done]. by rewrite HR.
    + intros i. by rewrite Hrest.
    + intros n. by apply nbrs_keep_live. }
  split; auto; [by rewrite Hc|apply requeue_hide| | | |].
  - apply requeue_elem; [done|by left].
  - intros x Hx. by apply requeue_elem in Hx.
  - intros x Hx. apply requeue_elem; [done|by right].
  - intros _ Hdt. destruct (requeue_class (set_route s r e') r
      (eigrp_topology_route_external e') d Hnd) as [C1 C2].
    split; [rewrite C1, C2; by destruct (eigrp_topology_route_external e')|done| |].
    + by eapply updated_route_metric.
    + by eapply (filled_idem s).
Qed.

Lemma removed_live s s' r b d :
  (forall x, is_Some (routes s !! x) -> is_Some (routes s' !! x)) ->
  live_routes s (topology_routes d) ->
  live_routes s' (queue_of b
    {| d with internal_routes := remove_first (Nat.eqb r) (internal_routes d);
       external_routes := remove_first (Nat.eqb r) (external_routes d) |}).
Proof.
  intros Hs [H1 H2]%Forall_app.
  destruct b; simpl; apply Forall_forall; intros x Hx;
    eapply elem_of_sublist in Hx; try apply remove_first_sublist; apply Hs.
  - rewrite Forall_forall in H2. by apply H2.
  - rewrite Forall_forall in H1. by apply H1.
Qed.

Lemma wp_update_distance msg r d e s
    (Q : eigrp_fsm_action_message * metric_change -> eigrp_instance -> Prop) :
  instance_wf s -> mem s = [] -> msg_ok s msg r d e ->
  (forall s' c d' e', distance_updated s msg r d e s' c d' e' -> Q (msg, c) s') ->
  wp (eigrp_topology_update_distance msg) Q s.
Proof.
  intros W Hm Hok HQ. pose proof Hok as [O1 O2 O3 O4 O5 O6 O7 O8 O9].
  unfold eigrp_topology_update_distance. rewrite O2, O9. wp_simpl.
  apply wp_msg_ei; [done|]. wp_simpl. fold (filled s msg e).
  set (e1 := filled s msg e) in *. set (s1 := set_route s r e1).
  assert (Hp1 : prefixes s1 !! msg_prefix msg = Some d) by done.
  pose proof (dest_wf_ok _ _ _ (iw_dests _ W _ _ O1)) as Hdok.
  assert (Hl1 : live_routes s1 (topology_routes d)).
  { eapply Forall_impl; [exact (ok_live _ _ Hdok)|]. intros x Hx. simpl.
    destruct (decide (x = r)) as [->|]; [by rewrite lookup_insert_eq|by rewrite lookup_insert_ne]. }
  set (in_ext := in_queue r (external_routes d)).
  set (stored := in_queue r (internal_routes d) || in_ext).
  match goal with |- wp ?m _ _ => assert (Hk : wp m (fun _ s' => s' = s1) s1) end.
  { destruct (negb stored && _ && _); [|done]. wp_simpl.
    apply (wp_descriptor_lookup (msg_prefix msg) d); [done|done|]. by wp_simpl. }
  eapply wp_mono; [exact Hk|]. intros known s' ->. wp_simpl.
  destruct O8 as [e2 He2].
  destruct (updated_route_fields _ _ _ _ He2) as (F1 & F2 & F3 & F4 & _).
  eapply (wp_distance_class msg r d e1 e2); [done|apply set_route_lookup| |intros _; exact He2| |].
  - apply filled_links; [done|done|exact O4].
  - intros Hun. wp_simpl. eapply HQ, distance_unchanged; [done|done|done| |].
    + unfold unchanged in Hun. destruct (data_type msg); [by apply O7| |];
        apply andb_true_iff in Hun as [[Hs _]%andb_true_iff _]; by apply stored_in.
    + unfold unchanged in Hun. destruct (data_type msg); [by left| |];
        apply andb_true_iff in Hun as [_ Hun]; by right.
  - intros _. wp_simpl.
    replace (set_route s1 r e2) with (set_route s r e2) by (symmetry; apply set_route_twice).
    erewrite wp_upd_prefix by apply set_prefix_lookup. wp_simpl.
    rewrite set_prefix_twice. simpl.
    eapply (wp_route_insert _ r _ e2); [apply set_prefix_lookup|apply set_route_lookup| | |done|].
    + assert (L : route_links s e2); [|exact L].
      unfold route_links. rewrite F1, F2. by apply filled_links.
    + apply (removed_live s1); [|exact Hl1]. intros x. simpl.
      destruct (decide (x = r)) as [->|]; [by rewrite !lookup_insert_eq|by rewrite !lookup_insert_ne].
    + intros s' Hs'. wp_simpl. rewrite set_prefix_twice in Hs'.
      by eapply HQ, (distance_moved s msg r d e e2).
Qed.

Lemma metrics_match_refl m : eigrp_metrics_match m m = true.
Proof. unfold eigrp_metrics_match. by rewrite !Z.eqb_refl. Qed.

Lemma wp_update_distance_settled msg r d e s
    (Q : eigrp_fsm_action_message * metric_change -> eigrp_instance -> Prop) :
  prefixes s !! msg_prefix msg = Some d -> msg_route msg = Some r -> routes s !! r = Some e ->
  adv_live s msg -> transient_route msg = false -> data_type msg <> EIGRP_CONNECTED ->
  settled s msg r d e -> Q (msg, METRIC_SAME) s ->
  wp (eigrp_topology_update_distance msg) Q s.
Proof.
  intros Hp Hr He Ha Ht Hdt [S1 S2 S3 S4] HQ.
  unfold eigrp_topology_update_distance. rewrite Hr, Ht. wp_simpl.
  apply wp_msg_ei; [done|]. wp_simpl. fold (filled s msg e). rewrite S4.
  assert (Hid : set_route s r e = s).
  { unfold set_route. rewrite insert_id by done. by destruct s. }
  rewrite Hid, S1, S2. simpl. wp_simpl. rewrite Bool.eqb_reflx. simpl.
  unfold update_distance_class. wp_simpl. rewrite S3, metrics_match_refl. simpl.
  by destruct (data_type msg); wp_simpl.
Qed.
End update.
