(* ===== verification/Dual.v ===== *)
(** * DUAL: the outcome of an event

    One run of [eigrp_fsm_event] on a well-formed store: it is defined, keeps
    the store well formed, and its effect on the destination is one of the
    arrows of the state diagram of eigrp_fsm.c. *)

From Stdlib Require Import ZArith Lia.
From stdpp Require Import base gmap list sorting.
From S2P Require Import Prelude Types Metric Prefix State Topology Fsm Store Marking Frame Handlers Invariant Distance.

(** ** Event selection as a function *)

(** A REPLY received while ACTIVE discharges its sender. *)
Definition settle (msg : eigrp_fsm_action_message) (e : eigrp_route_descriptor)
    (d : eigrp_prefix_descriptor) : eigrp_prefix_descriptor :=
  if (packet_type msg =? EIGRP_OPC_REPLY) && negb (is_passive (pd_state d)) then
    match rd_adv_router e with
    | None => d
    | Some n => {| d with rij := remove_first (rs_for n) (rij d) |}
    end
  else d.

Definition no_reply_due (d : eigrp_prefix_descriptor) : bool := bool_decide (rij d = []).

Definition event_active_0_2 (s : eigrp_instance) (msg : eigrp_fsm_action_message)
    (d : eigrp_prefix_descriptor) (e : eigrp_route_descriptor) : eigrp_fsm_events :=
  if packet_type msg =? EIGRP_OPC_REPLY then
    if no_reply_due (settle msg e d) then
      match select_of s d with
      | Some _ => EIGRP_FSM_EVENT_LR_FCS
      | None => EIGRP_FSM_EVENT_LR_FCN
      end
    else EIGRP_FSM_KEEP_STATE
  else if (packet_type msg =? EIGRP_OPC_QUERY) && successor_route e
  then EIGRP_FSM_EVENT_QACT else EIGRP_FSM_KEEP_STATE.

Definition event_active_1_3 (msg : eigrp_fsm_action_message) (c : metric_change)
    (d : eigrp_prefix_descriptor) (e : eigrp_route_descriptor) : eigrp_fsm_events :=
  if (packet_type msg =? EIGRP_OPC_QUERY) && successor_route e then EIGRP_FSM_EVENT_QACT
  else if packet_type msg =? EIGRP_OPC_REPLY then
    if no_reply_due (settle msg e d) then EIGRP_FSM_EVENT_LR else EIGRP_FSM_KEEP_STATE
  else if (packet_type msg =? EIGRP_OPC_UPDATE) && bool_decide (c = METRIC_INCREASE)
          && successor_route e then EIGRP_FSM_EVENT_DINC
  else EIGRP_FSM_KEEP_STATE.

Definition event_passive (s : eigrp_instance) (msg : eigrp_fsm_action_message)
    (c : metric_change) (d : eigrp_prefix_descriptor) : eigrp_fsm_events :=
  match select_of s d with
  | Some _ => EIGRP_FSM_KEEP_STATE
  | None =>
      if bool_decide (c = METRIC_SAME) || (fdistance d =? EIGRP_MAX_METRIC)
      then EIGRP_FSM_KEEP_STATE
      else if packet_type msg =? EIGRP_OPC_QUERY then EIGRP_FSM_EVENT_Q_FCN
      else EIGRP_FSM_EVENT_NQ_FCN
  end.

Definition event_of (s : eigrp_instance) (msg : eigrp_fsm_action_message) (c : metric_change)
    (d : eigrp_prefix_descriptor) (e : eigrp_route_descriptor) : eigrp_fsm_events :=
  match pd_state d with
  | EIGRP_FSM_STATE_PASSIVE => event_passive s msg c d
  | EIGRP_FSM_STATE_ACTIVE_0 | EIGRP_FSM_STATE_ACTIVE_2 => event_active_0_2 s msg d e
  | EIGRP_FSM_STATE_ACTIVE_1 | EIGRP_FSM_STATE_ACTIVE_3 => event_active_1_3 msg c d e
  end.

(** The [switch (actual_state)] of [eigrp_fsm_event_select]. *)
Definition select_switch (st : eigrp_fsm_states) (msg : eigrp_fsm_action_message)
    (c : metric_change) (p r : ptr) : St eigrp_fsm_events :=
  match st with
  | EIGRP_FSM_STATE_PASSIVE => select_passive msg c p
  | EIGRP_FSM_STATE_ACTIVE_0 => select_active_0_2 msg p r
  | EIGRP_FSM_STATE_ACTIVE_1 => select_active_1_3 msg c p r
  | EIGRP_FSM_STATE_ACTIVE_2 => select_active_0_2 msg p r
  | EIGRP_FSM_STATE_ACTIVE_3 => select_active_1_3 msg c p r
  end.

Section selection.
Implicit Types s : eigrp_instance.

Lemma settle_reply msg e d :
  (packet_type msg =? EIGRP_OPC_REPLY) = true -> is_active (pd_state d) ->
  settle msg e d = match rd_adv_router e with
                   | None => d
                   | Some n => {| d with rij := remove_first (rs_for n) (rij d) |} end.
Proof.
  intros H1 H2. unfold settle, is_passive. rewrite H1, bool_decide_false by done. done.
Qed.

Lemma settle_other msg e d : (packet_type msg =? EIGRP_OPC_REPLY) = false -> settle msg e d = d.
Proof. intros H. unfold settle. by rewrite H. Qed.

Lemma settle_passive msg e d : pd_state d = EIGRP_FSM_STATE_PASSIVE -> settle msg e d = d.
Proof. intros H. unfold settle. rewrite H. simpl. by rewrite andb_false_r. Qed.

Lemma settle_state msg e d : pd_state (settle msg e d) = pd_state d.
Proof. unfold settle. destruct (_ && _), (rd_adv_router e); done. Qed.

(** Selection touches the reply status only. *)
Definition selected (p : ptr) s s' (d : eigrp_prefix_descriptor) : Prop :=
  dual_out p s s' d [] /\ routes s' = routes s.

Lemma selected_refl p s d : prefixes s !! p = Some d -> selected p s s d.
Proof. intros H. split; [by apply dual_out_refl|done]. Qed.

Lemma wp_status_remove msg p d e s (Q : bool -> eigrp_instance -> Prop) :
  prefixes s !! p = Some d -> (packet_type msg =? EIGRP_OPC_REPLY) = true ->
  is_active (pd_state d) ->
  (forall b s', selected p s s' (settle msg e d) -> Q b s') ->
  wp (eigrp_fsm_reply_status_remove p (rd_adv_router e)) Q s.
Proof.
  intros Hp Hm Ha HQ. rewrite settle_reply in HQ by done.
  unfold eigrp_fsm_reply_status_remove. destruct (rd_adv_router e) as [n|]; wp_simpl.
  - rewrite wp_get_prefix by apply set_prefix_lookup. wp_simpl. apply HQ.
    split; [|done]. split; [apply frame_set_prefix|apply set_prefix_lookup|by rewrite app_nil_r].
  - by apply HQ, selected_refl.
Qed.

Lemma wp_select_0_2 msg p r d e s (Q : eigrp_fsm_events -> eigrp_instance -> Prop) :
  prefixes s !! p = Some d -> live_routes s (topology_routes d) -> routes s !! r = Some e ->
  is_active (pd_state d) ->
  (forall s', selected p s s' (settle msg e d) -> Q (event_active_0_2 s msg d e) s') ->
  wp (select_active_0_2 msg p r) Q s.
Proof.
  intros Hp Hl Hr Ha HQ. unfold select_active_0_2, event_active_0_2 in *.
  destruct (packet_type msg =? EIGRP_OPC_REPLY) eqn:Em.
  - unfold select_reply_fc. rewrite wp_bind. apply (wp_route_select p d); [done|done|].
    wp_simpl. apply (wp_status_remove msg p d); [done..|]. intros b s' Ho.
    wp_simpl. rewrite wp_get_prefix by apply (do_prefix _ _ _ _ _ (proj1 Ho)). wp_simpl. specialize (HQ s' Ho).
    unfold no_reply_due in HQ. by destruct (bool_decide (rij (settle msg e d) = [])).
  - unfold from_successor, flagged. wp_simpl. fold (successor_route e).
    specialize (HQ s). rewrite (settle_other _ _ _ Em) in HQ.
    specialize (HQ (selected_refl p s d Hp)). by destruct (_ && _).
Qed.

Lemma wp_select_1_3 msg c p r d e s (Q : eigrp_fsm_events -> eigrp_instance -> Prop) :
  prefixes s !! p = Some d -> routes s !! r = Some e -> is_active (pd_state d) ->
  (forall s', selected p s s' (settle msg e d) -> Q (event_active_1_3 msg c d e) s') ->
  wp (select_active_1_3 msg c p r) Q s.
Proof.
  intros Hp Hr Ha HQ. unfold select_active_1_3, event_active_1_3, from_successor, flagged in *.
  wp_simpl. fold (successor_route e).
  destruct (packet_type msg =? EIGRP_OPC_REPLY) eqn:Em.
  - assert ((packet_type msg =? EIGRP_OPC_QUERY) = false) as Eq.
    { apply Z.eqb_eq in Em. rewrite Em. done. }
    rewrite Eq in *. simpl in *. unfold select_reply_lr. wp_simpl.
    apply (wp_status_remove msg p d); [done..|]. intros b s' Ho.
    wp_simpl. rewrite wp_get_prefix by apply (do_prefix _ _ _ _ _ (proj1 Ho)). wp_simpl. specialize (HQ s' Ho).
    unfold no_reply_due in HQ. by destruct (bool_decide (rij (settle msg e d) = [])).
  - specialize (HQ s). rewrite (settle_other _ _ _ Em) in HQ.
    specialize (HQ (selected_refl p s d Hp)).
    destruct ((packet_type msg =? EIGRP_OPC_QUERY) && successor_route e); [done|].
    by destruct (_ && _ && _).
Qed.

Lemma wp_select_switch msg c p r d e s (Q : eigrp_fsm_events -> eigrp_instance -> Prop) :
  prefixes s !! p = Some d -> live_routes s (topology_routes d) -> routes s !! r = Some e ->
  (forall s', selected p s s' (settle msg e d) -> Q (event_of s msg c d e) s') ->
  wp (select_switch (pd_state d) msg c p r) Q s.
Proof.
  intros Hp Hl Hr HQ. unfold select_switch, event_of in *.
  destruct (pd_state d) eqn:Est;
    try (apply (wp_select_0_2 msg p r d e); by rewrite ?Est);
    try (apply (wp_select_1_3 msg c p r d e); by rewrite ?Est).
  unfold select_passive. rewrite wp_bind. apply (wp_route_select p d); [done|done|]. wp_simpl.
  apply HQ. rewrite settle_passive by done. by apply selected_refl.
Qed.

(** Selection on a message that names its route. *)
Lemma wp_event_select msg r d e s
    (Q : eigrp_fsm_action_message * eigrp_fsm_events -> eigrp_instance -> Prop) :
  instance_wf s -> mem s = [] -> msg_ok s msg r d e ->
  (forall s1 s2 c d1 e1, distance_updated s msg r d e s1 c d1 e1 ->
     selected (msg_prefix msg) s1 s2 (settle msg e1 d1) ->
     Q ({| msg with change := c |}, event_of s1 msg c d1 e1) s2) ->
  wp (eigrp_fsm_event_select msg) Q s.
Proof.
  intros W Hm Hok HQ. pose proof Hok as [O1 O2 O3 _ _ _ _ _ _].
  unfold eigrp_fsm_event_select, event_route. rewrite O2. wp_simpl.
  eapply wp_update_distance; [done..|]. intros s1 c d1 e1 Hu. simpl. rewrite O2. wp_simpl.
  destruct (hide_queues_fields _ _ (du_scalars _ _ _ _ _ _ _ _ _ Hu)) as (Est & _).
  rewrite <-Est.
  assert (Hp1 : prefixes s1 !! msg_prefix msg = Some d1)
    by (rewrite (du_prefixes _ _ _ _ _ _ _ _ _ Hu); apply lookup_insert_eq).
  assert (Hr1 : routes s1 !! r = Some e1)
    by (rewrite (du_routes _ _ _ _ _ _ _ _ _ Hu); apply lookup_insert_eq).
  apply (wp_select_switch {| msg with change := c |} c (msg_prefix msg) r d1 e1); [done| |done|].
  - eapply ok_live, dest_wf_ok, iw_dests; [apply Hu|done].
  - intros s2 Ho. wp_simpl. specialize (HQ s1 s2 c d1 e1 Hu Ho). rewrite O2 in HQ. exact HQ.
Qed.

(** Selection run again on a route whose distance is already stored: the
    change is METRIC_SAME and an UPDATE leaves ACTIVE 0/2 alone. *)
Lemma wp_event_reselect msg r d e s
    (Q : eigrp_fsm_action_message * eigrp_fsm_events -> eigrp_instance -> Prop) :
  prefixes s !! msg_prefix msg = Some d -> msg_route msg = Some r -> routes s !! r = Some e ->
  adv_live s msg -> transient_route msg = false -> data_type msg <> EIGRP_CONNECTED ->
  settled s msg r d e ->
  pd_state d = EIGRP_FSM_STATE_ACTIVE_0 \/ pd_state d = EIGRP_FSM_STATE_ACTIVE_2 ->
  packet_type msg = EIGRP_OPC_UPDATE ->
  Q ({| msg with change := METRIC_SAME |}, EIGRP_FSM_KEEP_STATE) s ->
  wp (eigrp_fsm_event_select msg) Q s.
Proof.
  intros Hp Hr He Ha Ht Hdt Hs Hst Hm HQ.
  assert (Hsel : wp (select_active_0_2 {| msg with change := METRIC_SAME |} (msg_prefix msg) r)
    (fun ev s' => ev = EIGRP_FSM_KEEP_STATE /\ s' = s) s).
  { unfold select_active_0_2. simpl. rewrite Hm. simpl. unfold from_successor, flagged.
    by wp_simpl. }
  unfold eigrp_fsm_event_select, event_route. rewrite wp_bind, wp_get_prefix by exact Hp.
  rewrite Hr. wp_simpl.
  eapply (wp_update_distance_settled _ r); [exact Hp|done|exact He|done..|].
  simpl. rewrite Hr. wp_simpl. rewrite Hr in Hsel, HQ.
  destruct Hst as [-> | ->]; (eapply wp_mono; [exact Hsel|]; by intros ev s' [-> ->]; wp_simpl).
Qed.
End selection.

(** ** Outcomes *)

Definition active_0_2 (st : eigrp_fsm_states) : Prop :=
  st = EIGRP_FSM_STATE_ACTIVE_0 \/ st = EIGRP_FSM_STATE_ACTIVE_2.
Definition active_1_3 (st : eigrp_fsm_states) : Prop :=
  st = EIGRP_FSM_STATE_ACTIVE_1 \/ st = EIGRP_FSM_STATE_ACTIVE_3.

Definition dinc_state (st : eigrp_fsm_states) : eigrp_fsm_states :=
  if bool_decide (st = EIGRP_FSM_STATE_ACTIVE_1)
  then EIGRP_FSM_STATE_ACTIVE_0 else EIGRP_FSM_STATE_ACTIVE_2.
Definition fcn_state (st : eigrp_fsm_states) : eigrp_fsm_states :=
  if bool_decide (st = EIGRP_FSM_STATE_ACTIVE_0)
  then EIGRP_FSM_STATE_ACTIVE_1 else EIGRP_FSM_STATE_ACTIVE_3.

(** A computation was started from [d]: it waits for replies, or it ended at
    once because no neighbor is UP. *)
Definition diffuse_outcome (s : eigrp_instance) (p : ptr) (d d' : eigrp_prefix_descriptor)
    (ws : list eigrp_packetizer_work) : Prop :=
  if up_count_intfs s (eiflist s) =? 0
  then d' = lr_desc s (idle_desc d) /\ ws = lr_work s p d
  else d' = query_desc d /\ ws = [].

(** The arrows: [s1], [d1], [e1] are the store, the destination and the route
    after the distance update, [c] the change it reported; the destination ends
    as [d'] with the packet work [ws] queued. *)
Inductive dual_outcome (s1 : eigrp_instance) (p : ptr) (msg : eigrp_fsm_action_message)
    (c : metric_change) (d1 : eigrp_prefix_descriptor) (e1 : eigrp_route_descriptor)
    : eigrp_prefix_descriptor -> list eigrp_packetizer_work -> Prop :=
  | oc_keep_passive r e :
      pd_state d1 = EIGRP_FSM_STATE_PASSIVE ->
      keep_best s1 d1 = Some r -> routes s1 !! r = Some e ->
      (select_of s1 d1 = None -> c = METRIC_SAME \/ fdistance d1 = EIGRP_MAX_METRIC) ->
      dual_outcome s1 p msg c d1 e1 (passive_desc e d1)
        (if packet_type msg =? EIGRP_OPC_QUERY then reply_to s1 (msg_adv_router msg) p None 0 else [])
  | oc_keep_active ws :
      is_active (pd_state d1) ->
      (packet_type msg = EIGRP_OPC_REPLY -> rij (settle msg e1 d1) <> []) ->
      (packet_type msg = EIGRP_OPC_QUERY -> successor_route e1 = false) ->
      (packet_type msg <> EIGRP_OPC_QUERY -> ws = []) ->
      (forall n, packet_type msg = EIGRP_OPC_QUERY -> msg_adv_router msg = Some n ->
         active_reply s1 p n ws) ->
      (active_1_3 (pd_state d1) -> packet_type msg = EIGRP_OPC_UPDATE -> c = METRIC_INCREASE -> successor_route e1 = false) ->
      dual_outcome s1 p msg c d1 e1 (settle msg e1 d1) ws
  | oc_nq_fcn d' ws :
      pd_state d1 = EIGRP_FSM_STATE_PASSIVE -> select_of s1 d1 = None ->
      c <> METRIC_SAME -> fdistance d1 <> EIGRP_MAX_METRIC ->
      packet_type msg <> EIGRP_OPC_QUERY ->
      diffuse_outcome s1 p (to_state EIGRP_FSM_STATE_ACTIVE_1 d1) d' ws ->
      dual_outcome s1 p msg c d1 e1 d' ws
  | oc_q_fcn d' ws :
      pd_state d1 = EIGRP_FSM_STATE_PASSIVE -> select_of s1 d1 = None ->
      c <> METRIC_SAME -> fdistance d1 <> EIGRP_MAX_METRIC ->
      packet_type msg = EIGRP_OPC_QUERY ->
      diffuse_outcome s1 p (to_origin (msg_adv_router msg) (to_state EIGRP_FSM_STATE_ACTIVE_3 d1)) d' ws ->
      dual_outcome s1 p msg c d1 e1 d' ws
  | oc_lr :
      active_1_3 (pd_state d1) -> packet_type msg = EIGRP_OPC_REPLY ->
      rij (settle msg e1 d1) = [] ->
      dual_outcome s1 p msg c d1 e1 (lr_desc s1 (settle msg e1 d1)) (lr_work s1 p (settle msg e1 d1))
  | oc_lr_fcs r e :
      active_0_2 (pd_state d1) -> packet_type msg = EIGRP_OPC_REPLY ->
      rij (settle msg e1 d1) = [] ->
      select_of s1 d1 = Some r -> routes s1 !! r = Some e ->
      dual_outcome s1 p msg c d1 e1 (fcs_desc e (settle msg e1 d1)) (fcs_work s1 p (settle msg e1 d1))
  | oc_lr_fcn d' ws :
      active_0_2 (pd_state d1) -> packet_type msg = EIGRP_OPC_REPLY ->
      rij (settle msg e1 d1) = [] -> select_of s1 d1 = None ->
      diffuse_outcome s1 p (to_state (fcn_state (pd_state d1)) (settle msg e1 d1)) d' ws ->
      dual_outcome s1 p msg c d1 e1 d' ws
  | oc_qact :
      is_active (pd_state d1) -> packet_type msg = EIGRP_OPC_QUERY -> successor_route e1 = true ->
      dual_outcome s1 p msg c d1 e1
        (to_origin (msg_adv_router msg) (to_state EIGRP_FSM_STATE_ACTIVE_2 d1)) []
  | oc_dinc :
      active_1_3 (pd_state d1) -> packet_type msg = EIGRP_OPC_UPDATE -> c = METRIC_INCREASE ->
      successor_route e1 = true ->
      dual_outcome s1 p msg c d1 e1 (to_state (dinc_state (pd_state d1)) d1) [].

Section outcomes.
Implicit Types s : eigrp_instance.

Lemma lr_desc_frame p s s' d :
  dual_frame p s s' -> live_routes s (topology_routes d) -> lr_desc s' d = lr_desc s d.
Proof.
  intros F Hl. unfold lr_desc. rewrite (frame_read p s s') by done.
  assert (best_metric s' (read_of s d) = best_metric s (read_of s d)) as ->; [|done].
  unfold best_metric. destruct (read_of s d) as [r|] eqn:Er; [|done].
  destruct (read_of_live s d r Hl Er) as [e He].
  destruct (df_routes _ _ _ F r e He) as (e' & -> & Ee). rewrite He.
  by apply strip_flags_eq in Ee as (-> & _ & _ & _ & _ & -> & _).
Qed.

Lemma lr_work_frame p s s' d : dual_frame p s s' -> lr_work s' p d = lr_work s p d.
Proof.
  intros F. unfold lr_work. by rewrite (reply_to_frame p s s'), (enqueued_frame p s s').
Qed.

Lemma diffused_outcome p s s1 s2 d :
  dual_frame p s s1 -> live_routes s (topology_routes d) ->
  forall ws0 d0, dual_out p s s1 d0 ws0 -> diffused s1 p d s2 ->
  exists d' ws, dual_out p s s2 d' (ws0 ++ ws) /\ diffuse_outcome s p d d' ws.
Proof.
  intros F Hl ws0 d0 Ho [_ Hd]. unfold diffuse_outcome.
  rewrite (up_count_frame p s s1) in Hd by done.
  destruct (up_count_intfs s (eiflist s) =? 0).
  - rewrite (lr_desc_frame p s s1), (lr_work_frame p s s1) in Hd by done.
    eexists _, _. split; [by eapply dual_out_trans|done].
  - eexists _, _. split; [by eapply dual_out_trans|done].
Qed.

Lemma active_reply_frame p s s' n ws :
  dual_frame p s s' -> active_reply s' p n ws -> active_reply s p n ws.
Proof.
  intros F (route & f & ->). eexists route, f. by apply (enqueued_frame p).
Qed.

Lemma settle_routes msg e d : topology_routes (settle msg e d) = topology_routes d.
Proof. unfold settle. by destruct (_ && _), (rd_adv_router e). Qed.
Lemma settle_origin msg e d : query_origin (settle msg e d) = query_origin d.
Proof. unfold settle. by destruct (_ && _), (rd_adv_router e). Qed.
Lemma settle_fd msg e d : fdistance (settle msg e d) = fdistance d.
Proof. unfold settle. by destruct (_ && _), (rd_adv_router e). Qed.

Lemma select_settle s msg e d : select_of s (settle msg e d) = select_of s d.
Proof. unfold select_of. by rewrite settle_routes, settle_fd. Qed.

Lemma dest_ok_settle s msg e d : dest_ok s d -> dest_ok s (settle msg e d).
Proof.
  intros H. eapply dest_ok_desc; [done|apply settle_routes|left; apply settle_origin].
Qed.
End outcomes.

(** ** Dispatch *)

Section dispatch.
Context (s1 s2 : eigrp_instance) (msg : eigrp_fsm_action_message) (c : metric_change) (r : ptr).
Context (d1 : eigrp_prefix_descriptor) (e1 : eigrp_route_descriptor).
Let p := msg_prefix msg.
Let msg' := {| msg with change := c |}.
Let d2 := settle msg e1 d1.
Hypothesis Hwf : instance_wf s1.
Hypothesis Hmem : mem s1 = [].
Hypothesis Hp1 : prefixes s1 !! p = Some d1.
Hypothesis Hr1 : routes s1 !! r = Some e1.
Hypothesis Hroute : msg_route msg = Some r.
Hypothesis Hadv : adv_live s1 msg.
Hypothesis Hstored : pd_state d1 = EIGRP_FSM_STATE_PASSIVE -> topology_routes d1 <> [].
Hypothesis Hselected : selected p s1 s2 d2.
Let Hout : dual_out p s1 s2 d2 [] := proj1 Hselected.

Definition dispatched (s' : eigrp_instance) : Prop :=
  exists d' ws, dual_out p s1 s' d' ws /\ dual_outcome s1 p msg c d1 e1 d' ws.

Let HF : dual_frame p s1 s2 := do_frame _ _ _ _ _ Hout.
Let Hp2 : prefixes s2 !! p = Some d2 := do_prefix _ _ _ _ _ Hout.

Lemma disp_mem : mem s2 = [].
Proof. by apply HF. Qed.
Lemma disp_ok1 : dest_ok s1 d1.
Proof. eapply dest_wf_ok, iw_dests; eauto. Qed.
Lemma disp_ok : dest_ok s2 d2.
Proof. eapply dest_ok_frame; [exact HF|]. apply dest_ok_settle, disp_ok1. Qed.
Lemma disp_peers : peers_live s2.
Proof. eapply peers_live_frame; [exact HF|]. apply Hwf. Qed.
Lemma disp_adv : adv_live s2 msg'.
Proof. unfold adv_live. by rewrite (frame_nbrs p s1 s2). Qed.
Lemma disp_select : select_of s2 d2 = select_of s1 d1.
Proof.
  rewrite (frame_select p s1 s2); [apply select_settle|done|].
  unfold d2. rewrite settle_routes. apply ok_live, disp_ok1.
Qed.
Lemma disp_live : live_routes s1 (topology_routes d2).
Proof. unfold d2. rewrite settle_routes. apply ok_live, disp_ok1. Qed.

Lemma disp_diffused d0 s' :
  topology_routes d0 = topology_routes d1 -> diffused s2 p d0 s' ->
  exists d' ws, dual_out p s1 s' d' ws /\ diffuse_outcome s1 p d0 d' ws.
Proof.
  intros Hr Hd. apply (diffused_outcome p s1 s2 s' d0 HF) with (ws0 := []) (d0 := d2);
    [|exact Hout|exact Hd].
  rewrite Hr. apply ok_live, disp_ok1.
Qed.

Lemma disp_route2 : exists e2, routes s2 !! r = Some e2 /\ strip_flags e2 = strip_flags e1.
Proof. by apply (df_routes _ _ _ HF). Qed.

Lemma disp_keep_passive :
  pd_state d1 = EIGRP_FSM_STATE_PASSIVE ->
  (select_of s1 d1 = None -> c = METRIC_SAME \/ fdistance d1 = EIGRP_MAX_METRIC) ->
  wp (eigrp_fsm_event_keep_state msg') (fun _ => dispatched) s2.
Proof.
  intros Hst Hsel. assert (Hd2 : d2 = d1) by (by apply settle_passive).
  destruct (keep_best_live s1 d1) as (b & e & Hb & He); [apply ok_live, disp_ok1|by apply Hstored|].
  destruct (df_routes _ _ _ HF b e He) as (e2 & He2 & Ee).
  apply (wp_keep_state_passive msg' d1 b e2); try done.
  - fold p. by rewrite <-Hd2.
  - rewrite <-Hd2. apply disp_ok.
  - apply disp_mem.
  - apply disp_adv.
  - unfold keep_best in *. rewrite <-Hd2 at 1. rewrite disp_select.
    by rewrite (frame_read p s1 s2) by (done || apply ok_live, disp_ok1).
  - intros s' Ho'. eexists _, _. split; [exact (dual_out_trans _ _ _ _ _ _ _ _ Hout Ho')|].
    simpl. assert (passive_desc e2 d1 = passive_desc e d1) as ->.
    { unfold passive_desc. by apply strip_flags_eq in Ee as (-> & _ & _ & _ & _ & -> & _). }
    rewrite (reply_to_frame p s1 s2) by done. by eapply oc_keep_passive.
Qed.

Lemma disp_keep_active :
  is_active (pd_state d1) ->
  (packet_type msg = EIGRP_OPC_REPLY -> rij d2 <> []) ->
  (packet_type msg = EIGRP_OPC_QUERY -> successor_route e1 = false) ->
  (active_1_3 (pd_state d1) -> packet_type msg = EIGRP_OPC_UPDATE -> c = METRIC_INCREASE -> successor_route e1 = false) ->
  wp (eigrp_fsm_event_keep_state msg') (fun _ => dispatched) s2.
Proof.
  intros Ha Hrep Hq Hinc. apply (wp_keep_state_active msg' d2 r e1); try done.
  - unfold d2. by rewrite settle_state.
  - apply disp_ok.
  - apply disp_mem.
  - apply HF; [eauto|apply Hwf].
  - apply disp_adv.
  - by rewrite (proj2 Hselected).
  - intros s' ws Ho' H1 H2. eexists _, ws. split; [exact (dual_out_trans _ _ _ _ _ _ _ _ Hout Ho')|].
    apply oc_keep_active; try done. intros n Hqn Hn.
    eapply (active_reply_frame p s1 s2); [done|]. apply H2; [done|by apply Hq|done].
Qed.

Lemma disp_nq :
  pd_state d1 = EIGRP_FSM_STATE_PASSIVE -> select_of s1 d1 = None ->
  c <> METRIC_SAME -> fdistance d1 <> EIGRP_MAX_METRIC -> packet_type msg <> EIGRP_OPC_QUERY ->
  wp (eigrp_fsm_event_nq_fcn msg') (fun _ => dispatched) s2.
Proof.
  intros Hst Hsel Hc Hfd Hq. assert (Hd2 : d2 = d1) by (by apply settle_passive).
  apply (wp_event_nq_fcn msg' d2); [exact Hp2|apply disp_ok|apply disp_mem|apply disp_peers|].
  intros s' Hd. rewrite Hd2 in Hd. apply disp_diffused in Hd as (d' & ws & Ho' & Hdo); [|done].
  exists d', ws. split; [done|]. by apply oc_nq_fcn.
Qed.

Lemma disp_q :
  pd_state d1 = EIGRP_FSM_STATE_PASSIVE -> select_of s1 d1 = None ->
  c <> METRIC_SAME -> fdistance d1 <> EIGRP_MAX_METRIC -> packet_type msg = EIGRP_OPC_QUERY ->
  wp (eigrp_fsm_event_q_fcn msg') (fun _ => dispatched) s2.
Proof.
  intros Hst Hsel Hc Hfd Hq. assert (Hd2 : d2 = d1) by (by apply settle_passive).
  apply (wp_event_q_fcn msg' d2);
    [exact Hp2|apply disp_ok|apply disp_mem|apply disp_peers|apply disp_adv|].
  intros s' Hd. rewrite Hd2 in Hd. apply disp_diffused in Hd as (d' & ws & Ho' & Hdo); [|done].
  exists d', ws. split; [done|]. by apply oc_q_fcn.
Qed.

Lemma disp_lr :
  active_1_3 (pd_state d1) -> packet_type msg = EIGRP_OPC_REPLY -> rij d2 = [] ->
  wp (eigrp_fsm_event_lr msg') (fun _ => dispatched) s2.
Proof.
  intros Ha Hm Hr. apply (wp_event_lr msg' d2); [exact Hp2|apply disp_ok|apply disp_mem|].
  intros s' Ho' _. eexists _, _. split; [exact (dual_out_trans _ _ _ _ _ _ _ _ Hout Ho')|].
  simpl. fold p. rewrite (lr_desc_frame p s1 s2), (lr_work_frame p s1 s2) by (done || apply disp_live).
  by apply oc_lr.
Qed.

Lemma disp_lr_fcs b :
  active_0_2 (pd_state d1) -> packet_type msg = EIGRP_OPC_REPLY -> rij d2 = [] ->
  select_of s1 d1 = Some b ->
  wp (eigrp_fsm_event_lr_fcs msg') (fun _ => dispatched) s2.
Proof.
  intros Ha Hm Hr Hsel. destruct (select_of_live s1 d1 b Hsel) as (_ & e & He & _).
  destruct (df_routes _ _ _ HF b e He) as (e2 & He2 & Ee).
  apply (wp_event_lr_fcs msg' d2 b e2);
    [exact Hp2|apply disp_ok|apply disp_mem|by rewrite disp_select|done|].
  intros s' Ho' _. eexists _, _. split; [exact (dual_out_trans _ _ _ _ _ _ _ _ Hout Ho')|].
  simpl. fold p. assert (fcs_desc e2 d2 = fcs_desc e d2) as ->.
  { unfold fcs_desc. by apply strip_flags_eq in Ee as (-> & _ & _ & _ & _ & -> & _). }
  assert (fcs_work s2 p d2 = fcs_work s1 p d2) as ->.
  { unfold fcs_work. by rewrite (reply_to_frame p s1 s2), (enqueued_frame p s1 s2). }
  by eapply oc_lr_fcs.
Qed.

Lemma disp_lr_fcn :
  active_0_2 (pd_state d1) -> packet_type msg = EIGRP_OPC_REPLY -> rij d2 = [] ->
  select_of s1 d1 = None ->
  wp (eigrp_fsm_event_lr_fcn msg') (fun _ => dispatched) s2.
Proof.
  intros Ha Hm Hr Hsel.
  apply (wp_event_lr_fcn msg' d2); [exact Hp2|apply disp_ok|apply disp_mem|apply disp_peers|].
  intros s' Hd. fold (fcn_state (pd_state d2)) in Hd. unfold d2 in Hd at 1.
  rewrite settle_state in Hd.
  apply disp_diffused in Hd as (d' & ws & Ho' & Hdo); [|apply settle_routes].
  exists d', ws. split; [done|]. by apply oc_lr_fcn.
Qed.

Lemma disp_qact :
  is_active (pd_state d1) -> packet_type msg = EIGRP_OPC_QUERY -> successor_route e1 = true ->
  wp (eigrp_fsm_event_qact msg') (fun _ => dispatched) s2.
Proof.
  intros Ha Hm Hs. apply (wp_event_qact msg' d2); [exact Hp2|]. intros s' Ho'.
  eexists _, _. split; [exact (dual_out_trans _ _ _ _ _ _ _ _ Hout Ho')|].
  assert (d2 = d1) as ->; [|exact (oc_qact s1 p msg c d1 e1 Ha Hm Hs)].
  apply settle_other. rewrite Hm. done.
Qed.

Hypothesis Hset : c = METRIC_INCREASE ->
  data_type msg <> EIGRP_CONNECTED /\ settled s1 msg r d1 e1 /\ transient_route msg = false.

Lemma settled_frame s' e' st :
  dual_frame p s1 s' -> strip_flags e' = strip_flags e1 -> settled s1 msg r d1 e1 ->
  settled s' msg' r (to_state st d1) e'.
Proof.
  intros F Ee [S1 S2 S3 S4].
  apply strip_flags_eq in Ee as (_ & _ & E1 & E2 & E3 & _ & E4 & E5). split; [done| |unfold msg'; simpl; rewrite ?E5; exact S3|].
  - unfold eigrp_topology_route_external. rewrite E4. exact S2.
  - apply (filled_idem s1 s' msg e1); [|rewrite S4; congruence..].
    intros n. by rewrite (frame_nbrs p s1 s').
Qed.

(** The dispatch [eigrp_fsm_event_dinc] makes itself, from [s3]. *)
Lemma disp_redispatch fuel s3 d3 :
  d3 = to_state (dinc_state (pd_state d1)) d1 -> dual_out p s1 s3 d3 [] ->
  data_type msg <> EIGRP_CONNECTED -> settled s1 msg r d1 e1 -> transient_route msg = false ->
  packet_type msg = EIGRP_OPC_UPDATE ->
  wp ('(msg, event) ← eigrp_fsm_event_select msg';
      nsm_call (S fuel) (NSM (dinc_state (pd_state d1)) event) msg)
     (fun m s' => transient_route m = transient_route msg /\ dual_out p s1 s' d3 []) s3.
Proof.
  intros E3 Ho3 Hdt Hsd Htr Hm. pose proof (do_frame _ _ _ _ _ Ho3) as F3.
  destruct (df_routes _ _ _ F3 r e1 Hr1) as (e3 & He3 & Ee3).
  pose proof (settled_frame s3 e3 (dinc_state (pd_state d1)) F3 Ee3 Hsd) as Hs3.
  assert (Hadv3 : adv_live s3 msg') by (unfold adv_live; by rewrite (frame_nbrs p s1 s3)).
  assert (Hst3 : active_0_2 (dinc_state (pd_state d1))).
  { unfold dinc_state. case_bool_decide; [by left|by right]. }
  rewrite wp_bind.
  eapply (wp_event_reselect msg' r d3 e3);
    [apply Ho3|done|done|done|done|done|by subst d3|by subst d3|done|].
  assert (NSM (dinc_state (pd_state d1)) EIGRP_FSM_KEEP_STATE = F_keep_state) as Hn
    by (by destruct Hst3 as [-> | ->]).
  simpl. rewrite Hn, wp_bind.
  eapply (wp_keep_state_active _ d3 r e3); [apply Ho3| |..]; simpl.
  - subst d3. simpl. by destruct Hst3 as [-> | ->].
  - eapply dest_ok_frame; [exact F3|]. eapply dest_ok_desc; [apply disp_ok1|by subst d3|by left; subst d3].
  - by apply F3.
  - apply F3; [eauto|apply Hwf].
  - exact Hadv3.
  - done.
  - exact He3.
  - intros s5 ws Ho5 Hws _. rewrite Hws in Ho5 by (rewrite Hm; done). wp_simpl.
    split; [done|exact (dual_out_trans _ _ _ _ _ _ _ _ Ho3 Ho5)].
Qed.

Lemma disp_dinc fuel :
  active_1_3 (pd_state d1) -> packet_type msg = EIGRP_OPC_UPDATE -> c = METRIC_INCREASE ->
  successor_route e1 = true ->
  wp (eigrp_fsm_event_dinc (nsm_call (S fuel)) msg') (fun m s' => transient_route m = transient_route msg /\ dispatched s') s2.
Proof.
  intros Ha Hm Hc Hs. destruct (Hset Hc) as (Hdt & Hsd & Htr).
  assert (Hout1 : dual_out p s1 s2 d1 []).
  { rewrite <-(settle_other msg e1 d1) by (by rewrite Hm). exact Hout. }
  assert (Hdone : forall s', dual_out p s1 s' (to_state (dinc_state (pd_state d1)) d1) [] ->
    dispatched s') by (intros s' Ho'; eexists _, _; split; [exact Ho'|by apply oc_dinc]).
  unfold eigrp_fsm_event_dinc. rewrite wp_bind, wp_get_prefix by exact (do_prefix _ _ _ _ _ Hout1).
  rewrite wp_bind. apply (wp_upd_out (to_state (dinc_state (pd_state d1))) Hout1). intros s3 Ho3.
  rewrite wp_bind, wp_get_prefix by exact (do_prefix _ _ _ _ _ Ho3). simpl.
  destruct (bool_decide (rij d1 = [])); [|by split; [|apply Hdone]].
  eapply wp_mono; [by apply (disp_redispatch fuel s3 _ eq_refl Ho3)|].
  intros ? s' [Et Ho']. by split; [|apply Hdone].
Qed.

(** What the selected event says about the message. *)
Lemma event_0_2_inv :
  match event_active_0_2 s1 msg d1 e1 with
  | EIGRP_FSM_EVENT_LR_FCS => packet_type msg = EIGRP_OPC_REPLY /\ rij d2 = []
      /\ exists b, select_of s1 d1 = Some b
  | EIGRP_FSM_EVENT_LR_FCN => packet_type msg = EIGRP_OPC_REPLY /\ rij d2 = []
      /\ select_of s1 d1 = None
  | EIGRP_FSM_EVENT_QACT => packet_type msg = EIGRP_OPC_QUERY /\ successor_route e1 = true
  | EIGRP_FSM_KEEP_STATE => (packet_type msg = EIGRP_OPC_REPLY -> rij d2 <> [])
      /\ (packet_type msg = EIGRP_OPC_QUERY -> successor_route e1 = false)
  | _ => False
  end.
Proof.
  unfold event_active_0_2, no_reply_due. fold d2.
  destruct (Z.eqb_spec (packet_type msg) EIGRP_OPC_REPLY) as [E|E].
  - rewrite E. case_bool_decide; [|done]. destruct (select_of s1 d1); eauto.
  - destruct (Z.eqb_spec (packet_type msg) EIGRP_OPC_QUERY) as [E'|E']; [|done].
    by destruct (successor_route e1).
Qed.

Lemma event_1_3_inv :
  match event_active_1_3 msg c d1 e1 with
  | EIGRP_FSM_EVENT_LR => packet_type msg = EIGRP_OPC_REPLY /\ rij d2 = []
  | EIGRP_FSM_EVENT_QACT => packet_type msg = EIGRP_OPC_QUERY /\ successor_route e1 = true
  | EIGRP_FSM_EVENT_DINC => packet_type msg = EIGRP_OPC_UPDATE /\ c = METRIC_INCREASE
      /\ successor_route e1 = true
  | EIGRP_FSM_KEEP_STATE => (packet_type msg = EIGRP_OPC_REPLY -> rij d2 <> [])
      /\ (packet_type msg = EIGRP_OPC_QUERY -> successor_route e1 = false)
      /\ (packet_type msg = EIGRP_OPC_UPDATE -> c = METRIC_INCREASE -> successor_route e1 = false)
  | _ => False
  end.
Proof.
  unfold event_active_1_3, no_reply_due. fold d2.
  destruct (Z.eqb_spec (packet_type msg) EIGRP_OPC_REPLY) as [E|E].
  - rewrite E. simpl. by case_bool_decide.
  - destruct (Z.eqb_spec (packet_type msg) EIGRP_OPC_QUERY) as [E'|E'].
    + rewrite E'. by destruct (successor_route e1).
    + simpl. destruct (Z.eqb_spec (packet_type msg) EIGRP_OPC_UPDATE) as [E''|E'']; [|done].
      case_bool_decide; [|done]. by destruct (successor_route e1).
Qed.

Lemma event_passive_inv :
  match event_passive s1 msg c d1 with
  | EIGRP_FSM_KEEP_STATE => select_of s1 d1 = None ->
      c = METRIC_SAME \/ fdistance d1 = EIGRP_MAX_METRIC
  | EIGRP_FSM_EVENT_Q_FCN | EIGRP_FSM_EVENT_NQ_FCN =>
      select_of s1 d1 = None /\ c <> METRIC_SAME /\ fdistance d1 <> EIGRP_MAX_METRIC
      /\ (packet_type msg = EIGRP_OPC_QUERY
          <-> event_passive s1 msg c d1 = EIGRP_FSM_EVENT_Q_FCN)
  | _ => False
  end.
Proof.
  unfold event_passive. destruct (select_of s1 d1); [done|].
  case_bool_decide; simpl; [by left|].
  destruct (Z.eqb_spec (fdistance d1) EIGRP_MAX_METRIC); [by right|].
  by destruct (Z.eqb_spec (packet_type msg) EIGRP_OPC_QUERY).
Qed.

Lemma wp_dispatch fuel :
  wp (nsm_call (S (S fuel)) (NSM (pd_state d1) (event_of s1 msg c d1 e1)) msg')
     (fun m s' => transient_route m = transient_route msg /\ dispatched s') s2.
Proof.
  assert (Hk : forall m : St unit, wp m (fun _ => dispatched) s2 ->
    wp (m;; mret msg') (fun m s' => transient_route m = transient_route msg /\ dispatched s') s2).
  { intros m H. rewrite wp_bind. eapply wp_mono; [exact H|]. done. }
  unfold event_of. assert (exists st, pd_state d1 = st) as [st Est] by eauto. rewrite Est. destruct st.
  1: pose proof event_passive_inv as I; destruct (event_passive _ _ _ _) eqn:Eev; try done;
     simpl; apply Hk; try (by apply disp_keep_passive);
     destruct I as (I1 & I2 & I3 & I4); [by apply disp_nq; rewrite ?I4|by apply disp_q; rewrite ?I4].
  1,3: pose proof event_0_2_inv as I; destruct (event_active_0_2 _ _ _ _) eqn:Eev; try done;
     simpl; apply Hk; try (apply disp_keep_active; [by rewrite Est|apply I|apply I|rewrite Est; by intros [|]]);
     try (apply disp_qact; rewrite ?Est; by try apply I);
     try (apply disp_lr_fcn; unfold active_0_2; rewrite ?Est; by try apply I; auto);
     destruct I as (I1 & I2 & b & I3); apply (disp_lr_fcs b); unfold active_0_2; rewrite ?Est; auto.
  1,2: pose proof event_1_3_inv as I; destruct (event_active_1_3 _ _ _ _) eqn:Eev; try done;
     try (apply disp_dinc; unfold active_1_3; rewrite ?Est; by try apply I; auto);
     simpl; apply Hk; try (apply disp_keep_active; [by rewrite Est|apply I|apply I|intros _; apply I]);
     try (apply disp_qact; rewrite ?Est; by try apply I);
     destruct I as (I1 & I2); apply disp_lr; unfold active_1_3; rewrite ?Est; auto.
Qed.
End dispatch.

(** ** One event *)

(** The result of [eigrp_fsm_event]: the distance update, then an arrow. *)
Definition dual_step (s : eigrp_instance) (msg : eigrp_fsm_action_message) (r : ptr)
    (d : eigrp_prefix_descriptor) (e : eigrp_route_descriptor) (s' : eigrp_instance)
    (c : metric_change) (d1 : eigrp_prefix_descriptor) (e1 : eigrp_route_descriptor)
    (d' : eigrp_prefix_descriptor) (ws : list eigrp_packetizer_work) : Prop :=
  exists s1, distance_updated s msg r d e s1 c d1 e1
    /\ dual_out (msg_prefix msg) s1 s' d' ws
    /\ dual_outcome s1 (msg_prefix msg) msg c d1 e1 d' ws.

Section event.
Implicit Types s : eigrp_instance.

Lemma du_prefix s msg r d e s1 c d1 e1 :
  distance_updated s msg r d e s1 c d1 e1 -> prefixes s1 !! msg_prefix msg = Some d1.
Proof. intros Hu. rewrite (du_prefixes _ _ _ _ _ _ _ _ _ Hu). apply lookup_insert_eq. Qed.
Lemma du_desc s msg r d e s1 c d1 e1 :
  distance_updated s msg r d e s1 c d1 e1 -> routes s1 !! r = Some e1.
Proof. intros Hu. rewrite (du_routes _ _ _ _ _ _ _ _ _ Hu). apply lookup_insert_eq. Qed.
Lemma du_adv s msg r d e s1 c d1 e1 :
  distance_updated s msg r d e s1 c d1 e1 -> adv_live s msg -> adv_live s1 msg.
Proof.
  intros Hu Ha n Hn. destruct (Ha n Hn) as [nb Hnb].
  pose proof (du_nbrs _ _ _ _ _ _ _ _ _ Hu n) as E. rewrite Hnb in E.
  destruct (nbrs s1 !! n); [eauto|done].
Qed.

Lemma du_increase s msg r d e s1 c d1 e1 :
  distance_updated s msg r d e s1 c d1 e1 -> c = METRIC_INCREASE ->
  data_type msg <> EIGRP_CONNECTED /\ settled s1 msg r d1 e1.
Proof.
  intros Hu ->. assert (data_type msg <> EIGRP_CONNECTED) as Hdt.
  { intros E. destruct (du_route _ _ _ _ _ _ _ _ _ Hu) as [(_ & ? & _)|[_ H]]; [done|].
    unfold distance_change in H. by rewrite E in H. }
  split; [done|]. by apply (du_settled _ _ _ _ _ _ _ _ _ Hu).
Qed.

Lemma wp_fsm_event_msg msg r d e s (Q : eigrp_fsm_action_message -> eigrp_instance -> Prop) :
  instance_wf s -> mem s = [] -> msg_ok s msg r d e ->
  (forall m s' c d1 e1 d' ws, transient_route m = transient_route msg -> dual_step s msg r d e s' c d1 e1 d' ws -> Q m s') ->
  wp (eigrp_fsm_event msg) Q s.
Proof.
  intros W Hm Hok HQ. unfold eigrp_fsm_event. rewrite wp_bind.
  eapply wp_event_select; [done..|]. intros s1 s2 c d1 e1 Hu Hs.
  cbv beta iota. change (msg_prefix {| msg with change := c |}) with (msg_prefix msg).
  rewrite wp_bind, wp_get_prefix by apply (do_prefix _ _ _ _ _ (proj1 Hs)).
  rewrite settle_state. eapply wp_mono.
  - apply (wp_dispatch s1 s2 msg c r d1 e1) with (fuel := 0%nat); [apply Hu|by eapply du_mem|by eapply du_prefix|
      by eapply du_desc|apply Hok|eapply du_adv, mo_adv; eauto| |done|].
    + intros _ E. pose proof (du_stored _ _ _ _ _ _ _ _ _ Hu) as H. rewrite E in H. by apply not_elem_of_nil in H.
    + intros Hc. destruct (du_increase _ _ _ _ _ _ _ _ _ Hu Hc). split; [done|]. split; [done|apply Hok].
  - intros m s' [Et (d' & ws & Ho & Hoc)]. eapply HQ; [exact Et|]. exists s1. eauto.
Qed.

Lemma wp_fsm_event msg r d e s (Q : eigrp_fsm_action_message -> eigrp_instance -> Prop) :
  instance_wf s -> mem s = [] -> msg_ok s msg r d e ->
  (forall m s' c d1 e1 d' ws, dual_step s msg r d e s' c d1 e1 d' ws -> Q m s') ->
  wp (eigrp_fsm_event msg) Q s.
Proof. intros W Hm Hok HQ. eapply wp_fsm_event_msg; eauto. Qed.

(** An event whose route is not admitted: nothing is stored, the route only names the
    sender.  A PASSIVE destination needs a route of its own. *)
Record transient_ok (s : eigrp_instance) (msg : eigrp_fsm_action_message) (r : ptr)
    (d : eigrp_prefix_descriptor) (e : eigrp_route_descriptor) : Prop := {
  to_prefix : prefixes s !! msg_prefix msg = Some d;
  to_route : msg_route msg = Some r;
  to_desc : routes s !! r = Some e;
  to_adv : adv_live s msg;
  to_passive : pd_state d = EIGRP_FSM_STATE_PASSIVE -> topology_routes d <> [];
  to_transient : transient_route msg = true;
}.

(** An unchanged distance, with nothing stored: the events depend on the state alone. *)
Lemma wp_update_distance_transient msg r s (Q : eigrp_fsm_action_message * metric_change -> eigrp_instance -> Prop) :
  msg_route msg = Some r -> transient_route msg = true ->
  Q (msg, METRIC_SAME) s -> wp (eigrp_topology_update_distance msg) Q s.
Proof.
  intros Hr Ht HQ. unfold eigrp_topology_update_distance. rewrite Hr, Ht. by wp_simpl.
Qed.

Lemma wp_fsm_event_transient msg r d e s (Q : eigrp_fsm_action_message -> eigrp_instance -> Prop) :
  instance_wf s -> mem s = [] -> transient_ok s msg r d e ->
  (forall m s' d' ws, transient_route m = true -> dual_out (msg_prefix msg) s s' d' ws ->
     dual_outcome s (msg_prefix msg) msg METRIC_SAME d e d' ws -> Q m s') ->
  wp (eigrp_fsm_event msg) Q s.
Proof.
  intros W Hm [Tp Tr Td Ta Ts Tt] HQ.
  unfold eigrp_fsm_event, eigrp_fsm_event_select, event_route. rewrite wp_bind.
  rewrite wp_bind, wp_get_prefix by exact Tp. rewrite Tr. wp_simpl.
  apply (wp_update_distance_transient msg r); [done..|]. simpl. rewrite Tr. wp_simpl.
  apply (wp_select_switch {| msg with change := METRIC_SAME |} METRIC_SAME (msg_prefix msg) r d e); [done| |done|].
  { eapply ok_live, dest_wf_ok, iw_dests; [apply W|done]. }
  intros s2 Hs. wp_simpl. cbv beta iota.
  rewrite wp_get_prefix by apply (do_prefix _ _ _ _ _ (proj1 Hs)).
  rewrite settle_state. rewrite <-Tr. eapply wp_mono.
  - apply (wp_dispatch s s2 msg METRIC_SAME r d e W Hm Tp Td Tr Ta Ts) with (fuel := 0%nat); done.
  - intros m s' [Et (d' & ws & Ho & Hoc)]. eapply HQ; [by rewrite Et|done|done].
Qed.
End event.
