(* ===== verification/Network.v ===== *)
(** * A small network

    One router with two interfaces, a neighbor on each, and one destination
    reached through both; the inputs on which the theorems are instantiated. *)

From Stdlib Require Import ZArith Lia.
From stdpp Require Import base gmap list.
From S2P Require Import Prelude Types Metric Prefix State Topology Fsm Store Marking Frame Handlers Invariant Distance.

Definition net_params : metric_params :=
  {| k1 := 1; k2 := 0; k3 := 1; k4 := 0; k5 := 0; k6 := 0;
     metric_version := 1; max_hops := 100 |}.

Definition net_intf (index n : nat) : eigrp_intf :=
  {| ifindex := Z.of_nat index; if_bandwidth := 100000; if_delay := 10; if_reliability := 255;
     if_load := 1; if_split_horizon := true; if_nbrs := [n] |}.

Definition net_nbr (i : nat) : eigrp_nbr :=
  {| nbr_ei := Some i; nbr_published := true; nbr_state := EIGRP_NEIGHBOR_UP;
     nbr_limit_state := 0; af_suspended := false; topo_batch_seen := false;
     limit_cleanup_pending := false; limit_prefix_count := 1; limit_prefix_count_valid := true;
     nbr_src := {| addr_afi := 2; addr_ip := [10; 0; 0; Z.of_nat i] ++ zero_bytes 12 |} |}.

(** The vector a neighbor reports. *)
Definition net_metric (dly : Z) : eigrp_metrics :=
  {| zero_metrics with delay := dly; bandwidth := 25600; reliability := 255; load := 1;
     mtu0 := 0xdc; mtu1 := 5 |}.

(** A stored route with the given reported vector. *)
Definition net_route (p i n : nat) (dly fl : Z) : eigrp_route_descriptor :=
  let m := net_metric dly in
  let '(total, dist) := match eigrp_metric_total_calculate net_params (Some (net_intf i n)) m with
                        | Some x => x | None => (zero_metrics, 0) end in
  {| rd_type := 0; rd_topology_id := 0; rd_dest := zero_prefix; rd_nexthop := zero_addr;
     rd_prefix := Some p; rd_adv_router := Some n; rd_reported_metric := m;
     rd_reported_distance := eigrp_metric_calculate net_params m;
     rd_total_metric := total; rd_distance := dist; rd_metric := zero_metrics;
     rd_extdata := zero_extdata; rd_flags := fl; rd_ei := Some i |}.

Definition net_prefix : eigrp_prefix :=
  {| address := {| afi := EIGRP_AFI_IPV4; bytes := [10; 1; 0; 0] ++ zero_bytes 12 |};
     prefix_length := 16 |}.

Definition net_best (dly : Z) : eigrp_route_descriptor := net_route 1 10 20 dly 5.
Definition net_alt (dly : Z) : eigrp_route_descriptor := net_route 1 11 21 dly 0.

(** The destination, in state [st], with the distances of the route through
    neighbor 20. *)
Definition net_dest (st : eigrp_fsm_states) (status : list eigrp_reply_status)
    (origin : option ptr) : eigrp_prefix_descriptor :=
  {| table_node := None; retirement_queued := false; internal_routes := [2; 3]%nat;
     external_routes := []; rij := status; destination := net_prefix;
     reported_metric := rd_total_metric (net_best 512);
     fdistance := rd_distance (net_best 512); rdistance := rd_distance (net_best 512);
     distance := rd_distance (net_best 512); nt := EIGRP_TOPOLOGY_TYPE_REMOTE;
     pd_state := st; req_action := 0; t_active := None; active_eigrp := false;
     query_origin := origin; pd_serno := 0 |}.

Definition owing (n : ptr) : eigrp_reply_status :=
  {| rs_neighbor := n; sia_queries := 0; sia_response_received := false |}.

(** The store; the route through neighbor 21 is not feasible when its
    delay [alt] is large. *)
Definition net (d : eigrp_prefix_descriptor) (alt : Z) : eigrp_instance :=
  {| params := net_params; variance := 1; traffic_share_balanced := false; max_paths := 4;
     distance_internal := 90; distance_external := 170; shutdown := false;
     thread_running := true; router_id := 1; vrid := 0;
     classic_external_tlv_type := EIGRP_TLV_IPv4_EXT;
     active_time_configured := None; neighbor_self := None; eiflist := [10; 11]%nat;
     topology_changes := []; topology_changes_indexed := false; topology_table := [];
     serno := 1; redist_prefix_count := 0; packetizer_queue := []; timer_head := [];
     routes := {[ 2%nat := net_best 512; 3%nat := net_alt alt ]};
     prefixes := {[ 1%nat := d ]};
     nbrs := {[ 20%nat := net_nbr 10; 21%nat := net_nbr 11 ]};
     intfs := {[ 10%nat := net_intf 10 20; 11%nat := net_intf 11 21 ]};
     table_nodes := ∅; next_addr := 30%nat; mem := []; rib_answers := []; rib_log := [];
     clock_msec := 0 |}.

(** A message of neighbor [n] about its stored route [r]. *)
Definition net_msg (opcode : Z) (n r : nat) (dly : Z) : eigrp_fsm_action_message :=
  {| packet_type := opcode; msg_adv_router := Some n; msg_route := Some r; msg_prefix := 1%nat;
     data_type := EIGRP_INT; msg_metrics := net_metric dly; change := METRIC_DECREASE;
     transient_route := false |}.

(** Discharges [msg_ok] and [instance_wf] on such a store. *)
Ltac solve_msg_ok :=
  split;
  [reflexivity|reflexivity|reflexivity
  |split; intros ? [= <-]; vm_compute; eauto
  |by right
  |intros ? [= <-]; vm_compute; eauto
  |intros [=]
  |vm_compute; eauto
  |reflexivity].
Ltac solve_net_wf := apply instance_wfb_spec; vm_compute; reflexivity.

Definition net_passive : eigrp_prefix_descriptor := net_dest EIGRP_FSM_STATE_PASSIVE [] None.

Lemma net_passive_wf : instance_wf (net net_passive 4096).
Proof. solve_net_wf. Qed.

Lemma net_msg_ok :
  msg_ok (net net_passive 4096) (net_msg EIGRP_OPC_UPDATE 20 2 100000) 2%nat net_passive (net_best 512).
Proof. solve_msg_ok. Qed.
