(* ===== verification/DualProps.v ===== *)
(** * DUAL: the properties of an event

    Theorems about [eigrp_fsm_event] of eigrp_fsm.c, for a well-formed store and
    a message that names a stored or freshly created route. *)

From Stdlib Require Import ZArith Lia.
From stdpp Require Import base gmap list sorting.
From S2P Require Import Prelude Types Metric Prefix State Topology Fsm Store Marking Frame Handlers Invariant Distance Dual Network.

(** ** The arrows keep a destination well formed *)

Section outcome_wf.
Implicit Types s : eigrp_instance.

Lemma dest_wf_settle s p msg e d : dest_wf s p d -> dest_wf s p (settle msg e d).
Proof.
  intros W. unfold settle. destruct (_ && _), (rd_adv_router e) as [n|]; try done.
  destruct W as [H1 H2 H3 H4 H5 H6 H7]. split; try done. simpl.
  eapply sublist_NoDup; [exact H7|]. apply fmap_sublist, remove_first_sublist.
Qed.

Lemma settle_discipline msg e d : origin_discipline d -> origin_discipline (settle msg e d).
Proof. unfold origin_discipline. by rewrite settle_state, settle_origin. Qed.

Lemma dest_wf_closed s p d d' :
  dest_wf s p d -> internal_routes d' = internal_routes d ->
  external_routes d' = external_routes d -> query_origin d' = None -> rij d' = [] ->
  dest_wf s p d'.
Proof.
  intros W E1 E2 E3 E4. eapply dest_wf_scalars; [exact W|done|done| | |by right].
  - by rewrite E3.
  - unfold origin_discipline. by destruct (pd_state d').
Qed.

Lemma dest_wf_diffuse s p d0 d d' ws :
  dest_wf s p d0 -> internal_routes d = internal_routes d0 ->
  external_routes d = external_routes d0 ->
  (forall n, query_origin d = Some n -> is_Some (nbrs s !! n)) -> origin_discipline d ->
  diffuse_outcome s p d d' ws -> dest_wf s p d'.
Proof.
  intros W E1 E2 Ho Hd. unfold diffuse_outcome.
  destruct (_ =? 0); intros [-> _]; [by eapply dest_wf_closed|].
  eapply dest_wf_scalars; [exact W|done|done|done|done|by right].
Qed.

Lemma outcome_dest_wf s p msg c d1 e1 d' ws :
  dest_wf s p d1 -> adv_live s msg -> dual_outcome s p msg c d1 e1 d' ws -> dest_wf s p d'.
Proof.
  intros W Ha Ho. pose proof (dw_origin _ _ _ W) as Hor.
  pose proof (dw_discipline _ _ _ W) as Hd. pose proof (dest_wf_settle s p msg e1 d1 W) as Ws.
  destruct Ho as [r e Hst|ws Hst|d' ws Hst _ _ _ _ Hdf|d' ws Hst _ _ _ _ Hdf|Hst _ Hr
    |r e Hst _ Hr|d' ws Hst _ Hr _ Hdf|Hst|Hst].
  - unfold passive_desc. destruct (eigrp_metrics_match _ _); [done|].
    eapply dest_wf_scalars; [exact W|done..|by left].
  - done.
  - eapply dest_wf_diffuse; [exact W|..|exact Hdf]; try done.
    unfold origin_discipline in *. by rewrite Hst in Hd.
  - by eapply dest_wf_diffuse; [exact W|..|exact Hdf].
  - by eapply dest_wf_closed.
  - by eapply dest_wf_closed.
  - refine (dest_wf_diffuse s p _ _ d' ws Ws _ _ _ _ Hdf); [done|done| |].
    + by rewrite <-(settle_origin msg e1) in Hor.
    + unfold origin_discipline in *. simpl. rewrite settle_origin.
      destruct Hst as [E|E]; rewrite E in *; done.
  - eapply dest_wf_scalars; [exact W|done..|by left].
  - eapply dest_wf_scalars; [exact W|done|done|done| |by left].
    unfold origin_discipline in *. simpl. destruct Hst as [E|E]; rewrite E in *; done.
Qed.

Lemma step_wf s msg r d e s' c d1 e1 d' ws :
  adv_live s msg -> dual_step s msg r d e s' c d1 e1 d' ws -> instance_wf s'.
Proof.
  intros Ha (s1 & Hu & Ho & Hoc). pose proof (du_prefix _ _ _ _ _ _ _ _ _ Hu) as Hp.
  eapply instance_wf_frame; [apply Hu|apply Ho|eauto|apply Ho|].
  eapply outcome_dest_wf; [|by eapply du_adv|exact Hoc].
  by eapply iw_dests; [apply Hu|].
Qed.

Lemma outcome_routes s p msg c d1 e1 d' ws :
  dual_outcome s p msg c d1 e1 d' ws -> topology_routes d' = topology_routes d1.
Proof.
  assert (Hdf : forall d0 d2 ws0, diffuse_outcome s p d0 d2 ws0 -> topology_routes d2 = topology_routes d0).
  { intros d0 d2 ws0. unfold diffuse_outcome. by destruct (_ =? 0); intros [-> _]. }
  intros [| | ? ? _ _ _ _ _ H| ? ? _ _ _ _ _ H| | |? ? _ _ _ _ H| |]; rewrite ?(Hdf _ _ _ H);
    unfold topology_routes; simpl; rewrite ?passive_desc_routes; try done;
    try apply settle_routes. apply passive_desc_routes.
Qed.
End outcome_wf.

(** ** The state diagram *)

(** The numbered arrows in the head comment of eigrp_fsm.c; arrow 5 also leaves
    ACTIVE 2 and ACTIVE 3, as [NSM] has it. *)
Inductive arrow : eigrp_fsm_states -> nat -> eigrp_fsm_states -> Prop :=
  | arrow_0 : arrow EIGRP_FSM_STATE_PASSIVE 0 EIGRP_FSM_STATE_ACTIVE_1
  | arrow_1 st : active_1_3 st -> arrow st 1 EIGRP_FSM_STATE_PASSIVE
  | arrow_2 : arrow EIGRP_FSM_STATE_PASSIVE 2 EIGRP_FSM_STATE_ACTIVE_3
  | arrow_3 st : active_0_2 st -> arrow st 3 EIGRP_FSM_STATE_PASSIVE
  | arrow_4 st : active_1_3 st -> arrow st 4 (dinc_state st)
  | arrow_5 st : is_active st -> arrow st 5 EIGRP_FSM_STATE_ACTIVE_2
  | arrow_6 st : active_0_2 st -> arrow st 6 (fcn_state st)
  | arrow_7 st : arrow st 7 st.

(** The condition of each arrow, on the destination after its distance update: those
    printed beside the diagram, with the cases in which the code leaves a PASSIVE
    destination alone (nothing changed, or the feasible distance is infinite).  Arrow 2 is
    taken on a QUERY of any neighbor.  Arrow 7 is taken when no other arrow is. *)
Definition arrow_guard (s1 : eigrp_instance) (msg : eigrp_fsm_action_message) (c : metric_change)
    (d1 : eigrp_prefix_descriptor) (e1 : eigrp_route_descriptor) (l : nat) : Prop :=
  let query := packet_type msg = EIGRP_OPC_QUERY in
  let last_reply := packet_type msg = EIGRP_OPC_REPLY /\ rij (settle msg e1 d1) = [] in
  let infeasible := none_feasible s1 d1 in
  let diffuse := infeasible /\ c <> METRIC_SAME /\ fdistance d1 <> EIGRP_MAX_METRIC in
  let increase := packet_type msg = EIGRP_OPC_UPDATE /\ c = METRIC_INCREASE /\ successor_route e1 = true in
  let successor_query := query /\ successor_route e1 = true in
  match l with
  | 0 => ~ query /\ diffuse
  | 1 => last_reply
  | 2 => query /\ diffuse
  | 3 => last_reply /\ ~ infeasible
  | 4 => increase
  | 5 => successor_query
  | 6 => last_reply /\ infeasible
  | _ => match pd_state d1 with
         | EIGRP_FSM_STATE_PASSIVE => ~ diffuse
         | EIGRP_FSM_STATE_ACTIVE_0 | EIGRP_FSM_STATE_ACTIVE_2 => ~ last_reply /\ ~ successor_query
         | EIGRP_FSM_STATE_ACTIVE_1 | EIGRP_FSM_STATE_ACTIVE_3 => ~ last_reply /\ ~ successor_query /\ ~ increase
         end
  end%nat.

(** The arrow [l] from [st]; a computation started with no neighbor UP ends
    at once through arrow 1. *)
Definition arrow_step (s : eigrp_instance) (st : eigrp_fsm_states) (l : nat)
    (st' : eigrp_fsm_states) : Prop :=
  exists mid, arrow st l mid
    /\ if ((l =? 0) || (l =? 2) || (l =? 6))%nat && (up_count_intfs s (eiflist s) =? 0)
       then arrow mid 1 st' else mid = st'.

Section arrows.
Implicit Types s : eigrp_instance.

Lemma diffuse_step s p d d' ws st l :
  diffuse_outcome s p d d' ws -> arrow st l (pd_state d) -> active_1_3 (pd_state d) ->
  ((l =? 0) || (l =? 2) || (l =? 6))%nat = true -> arrow_step s st l (pd_state d').
Proof.
  intros Hd Ha H13 Hl. exists (pd_state d). split; [done|]. rewrite Hl. simpl.
  unfold diffuse_outcome in Hd. destruct (_ =? 0); destruct Hd as [-> _]; [|done].
  by constructor.
Qed.

Lemma plain_step s st l st' :
  arrow st l st' -> ((l =? 0) || (l =? 2) || (l =? 6))%nat = false -> arrow_step s st l st'.
Proof. intros H Hl. exists st'. by rewrite Hl. Qed.

Lemma outcome_arrow s p msg c d1 e1 d' ws :
  dual_outcome s p msg c d1 e1 d' ws ->
  exists l, arrow_guard s msg c d1 e1 l /\ arrow_step s (pd_state d1) l (pd_state d').
Proof.
  intros [r e Hst _ _ Hsel|ws' Hst Hr Hq _ _ Hinc|? ? Hst Hsel Hc Hfd Hq Hdf|? ? Hst Hsel Hc Hfd Hq Hdf|Hst Hq Hr
    |r e Hst Hq Hr Hsel|? ? Hst Hq Hr Hsel Hdf|Hst Hq Hs|Hst Hq Hc Hs].
  - exists 7%nat. split; [simpl; rewrite Hst; intros (Hn%select_none & Hc & Hfd); by destruct (Hsel Hn)|]. apply plain_step; [|done].
    assert (pd_state (passive_desc e d1) = pd_state d1) as ->; [|constructor].
    unfold passive_desc. by destruct (eigrp_metrics_match _ _).
  - exists 7%nat. split.
    + assert (~ (packet_type msg = EIGRP_OPC_REPLY /\ rij (settle msg e1 d1) = [])) as H1 by (intros [? ?]; by apply Hr).
      assert (~ (packet_type msg = EIGRP_OPC_QUERY /\ successor_route e1 = true)) as H2 by (intros [H Hs]; by rewrite Hq in Hs).
      assert (active_1_3 (pd_state d1) -> ~ (packet_type msg = EIGRP_OPC_UPDATE /\ c = METRIC_INCREASE /\ successor_route e1 = true)) as H3
        by (intros H (Hu & Hc & Hs); by rewrite Hinc in Hs).
      cbn. destruct (pd_state d1) eqn:E; [done|..]; (split; [done|]; first [done|split; [done|apply H3; rewrite ?E; by constructor]]).
    + rewrite settle_state. apply plain_step; [constructor|done].
  - apply select_none in Hsel. exists 0%nat. split; [done|]. eapply diffuse_step; [exact Hdf|rewrite Hst; constructor|by left|done].
  - apply select_none in Hsel. exists 2%nat. split; [done|]. eapply diffuse_step; [exact Hdf|rewrite Hst; constructor|by right|done].
  - exists 1%nat. split; [done|]. apply plain_step; [by constructor|done].
  - exists 3%nat. split; [|by apply plain_step; [constructor|]].
    split; [done|]. intros Hn%select_none. by rewrite Hsel in Hn.
  - apply select_none in Hsel. exists 6%nat. split; [done|]. eapply diffuse_step; [exact Hdf|by constructor| |done].
    destruct Hst as [-> | ->]; [by left|by right].
  - exists 5%nat. split; [done|]. apply plain_step; [by constructor|done].
  - exists 4%nat. split; [done|]. apply plain_step; [by constructor|done].
Qed.
End arrows.

(** ** Fields of the outcome *)

Section outcome_fields.
Implicit Types s : eigrp_instance.

Lemma diffuse_frozen s p d d' ws :
  diffuse_outcome s p d d' ws -> is_active (pd_state d') -> d' = query_desc d.
Proof. unfold diffuse_outcome. by destruct (_ =? 0); intros [-> _]. Qed.

Lemma settle_frozen msg e d :
  fdistance (settle msg e d) = fdistance d /\ distance (settle msg e d) = distance d
  /\ rdistance (settle msg e d) = rdistance d
  /\ reported_metric (settle msg e d) = reported_metric d.
Proof. unfold settle. by destruct (_ && _), (rd_adv_router e). Qed.

Lemma outcome_frozen s p msg c d1 e1 d' ws :
  dual_outcome s p msg c d1 e1 d' ws -> is_active (pd_state d') ->
  fdistance d' = fdistance d1 /\ distance d' = distance d1 /\ rdistance d' = rdistance d1
  /\ reported_metric d' = reported_metric d1.
Proof.
  intros [r e Hst| |? ? _ _ _ _ _ H| ? ? _ _ _ _ _ H| | |? ? _ _ _ _ H| |] Ha;
    try done; try (rewrite (diffuse_frozen _ _ _ _ _ H Ha); done); try apply settle_frozen.
  - unfold passive_desc in Ha. by destruct (eigrp_metrics_match _ _); rewrite ?Hst in Ha; simpl in Ha;
      rewrite ?Hst in Ha.
  - rewrite (diffuse_frozen _ _ _ _ _ H Ha). apply (settle_frozen msg e1 d1).
Qed.

Lemma passive_desc_fd e d : fdistance (passive_desc e d) <= fdistance d.
Proof.
  unfold passive_desc. destruct (eigrp_metrics_match _ _); simpl; [done|].
  destruct (Z.ltb_spec (rd_distance e) (fdistance d)); lia.
Qed.
Lemma passive_desc_distance e d :
  distance (passive_desc e d) = distance d \/ distance (passive_desc e d) = rd_distance e.
Proof. unfold passive_desc. destruct (eigrp_metrics_match _ _); auto. Qed.

Lemma keep_best_feasible s d b e :
  live_routes s (topology_routes d) -> keep_best s d = Some b -> routes s !! b = Some e ->
  b ∈ topology_routes d
  /\ (feasible (fdistance d) e \/ select_of s d = None).
Proof.
  intros Hl. unfold keep_best. destruct (select_of s d) as [x|] eqn:E.
  - intros [= <-] He. destruct (select_of_live s d x E) as (Hx & e' & He' & Hfc).
    rewrite He in He'. injection He' as <-. apply satisfies_fc_spec in Hfc. auto.
  - intros Hr _. split; [|by right]. by eapply read_of_in.
Qed.

Lemma outcome_passive s p msg c d1 e1 d' ws :
  dual_outcome s p msg c d1 e1 d' ws -> pd_state d1 = EIGRP_FSM_STATE_PASSIVE ->
  pd_state d' = EIGRP_FSM_STATE_PASSIVE -> up_count_intfs s (eiflist s) <> 0 ->
  exists b eb, keep_best s d1 = Some b /\ routes s !! b = Some eb /\ d' = passive_desc eb d1
    /\ (select_of s d1 = None -> c = METRIC_SAME \/ fdistance d1 = EIGRP_MAX_METRIC).
Proof.
  intros [b eb _ H1 H2 H3|? Hst|? ? _ _ _ _ _ H| ? ? _ _ _ _ _ H|Hst|? ? Hst|? ? Hst|Hst|Hst] E Hst' Hup;
    try (by rewrite E in Hst); try (by destruct Hst as [Hst|Hst]; rewrite E in Hst);
    try (unfold diffuse_outcome in H; rewrite (proj2 (Z.eqb_neq _ _) Hup) in H;
         by destruct H as [-> _]).
  by exists b, eb.
Qed.

Lemma up_count_nbrs s s' l : nbrs_keep s s' -> up_count s' l = up_count s l.
Proof.
  intros H. unfold up_count. induction l as [|n l IH]; [done|]. simpl. rewrite IH.
  specialize (H n). destruct (nbrs s' !! n) as [x|], (nbrs s !! n) as [y|]; try done.
  assert (nbr_state x = nbr_state y) as -> by (by injection H). done.
Qed.

Lemma du_up_count s msg r d e s1 c d1 e1 :
  distance_updated s msg r d e s1 c d1 e1 ->
  up_count_intfs s1 (eiflist s1) = up_count_intfs s (eiflist s).
Proof.
  intros Hu. pose proof (du_rest _ _ _ _ _ _ _ _ _ Hu) as E.
  rewrite (f_equal eiflist E : eiflist s1 = eiflist s). unfold up_count_intfs.
  rewrite (f_equal intfs E : intfs s1 = intfs s). clear E.
  induction (eiflist s) as [|i l IH]; [done|]. simpl. rewrite IH.
  destruct (intfs s !! i); [|done]. by rewrite (up_count_nbrs s s1 _ (du_nbrs _ _ _ _ _ _ _ _ _ Hu)).
Qed.

Lemma du_adv_router s msg r d e s1 c d1 e1 n :
  distance_updated s msg r d e s1 c d1 e1 -> rd_adv_router e = Some n ->
  rd_adv_router e1 = Some n.
Proof.
  intros Hu Hn.
  assert (Hf : rd_adv_router (filled s msg e) = Some n) by (simpl; by rewrite Hn).
  destruct (du_route _ _ _ _ _ _ _ _ _ Hu) as [[-> _]|[H _]]; [done|].
  by apply updated_route_fields in H as (_ & -> & _).
Qed.

Lemma enqueued_running s w :
  shutdown s = false -> thread_running s = true -> enqueued s w = [w].
Proof. intros H1 H2. unfold enqueued. by rewrite H1, H2. Qed.

Lemma du_running s msg r d e s1 c d1 e1 w :
  distance_updated s msg r d e s1 c d1 e1 -> enqueued s1 w = enqueued s w.
Proof.
  intros Hu. pose proof (du_rest _ _ _ _ _ _ _ _ _ Hu) as E. unfold enqueued.
  by rewrite (f_equal shutdown E : shutdown s1 = shutdown s),
    (f_equal thread_running E : thread_running s1 = thread_running s).
Qed.

(** The work an event queues is in the queue it leaves. *)
Lemma step_work s msg r d e s1 c d1 e1 s' d' ws w :
  distance_updated s msg r d e s1 c d1 e1 -> dual_out (msg_prefix msg) s1 s' d' ws ->
  w ∈ ws -> w ∈ packetizer_queue s'.
Proof. intros Hu Ho Hw. rewrite (do_work _ _ _ _ _ Ho). apply elem_of_app. by right. Qed.

(** A REPLY for [n] about [p] among the work. *)
Definition replies (n p : ptr) (ws : list eigrp_packetizer_work) : Prop :=
  exists route wflags, reply_work n p route wflags ∈ ws.

Lemma replies_origin s p n (b : bool) (ws : list eigrp_packetizer_work) :
  (forall w, enqueued s w = [w]) -> b = true ->
  replies n p ((if b then reply_to s (Some n) p None 0 else []) ++ ws).
Proof.
  intros Hrun ->. exists None, 0. apply elem_of_app. left. simpl. rewrite Hrun. by left.
Qed.

Lemma read_settle s msg e d : read_of s (settle msg e d) = read_of s d.
Proof. unfold read_of. by rewrite settle_routes. Qed.

Lemma need_update_set z : (Z.lor z EIGRP_FSM_NEED_UPDATE .? EIGRP_FSM_NEED_UPDATE) = true.
Proof. by rewrite need_update_pow, has_flag_lor, orb_true_r. Qed.

Lemma settle_sender msg e d n :
  packet_type msg = EIGRP_OPC_REPLY -> is_active (pd_state d) -> rd_adv_router e = Some n ->
  rij (settle msg e d) = remove_first (rs_for n) (rij d).
Proof. intros H1 H2 H3. rewrite settle_reply, H3 by (done || by rewrite H1). done. Qed.

Lemma outcome_last_reply s p msg c d1 e1 d' ws n :
  dual_outcome s p msg c d1 e1 d' ws -> packet_type msg = EIGRP_OPC_REPLY ->
  active_1_3 (pd_state d1) -> rd_adv_router e1 = Some n ->
  remove_first (rs_for n) (rij d1) = [] ->
  d' = lr_desc s (settle msg e1 d1) /\ ws = lr_work s p (settle msg e1 d1).
Proof.
  intros Ho Hm Hst Hn Hl.
  assert (Ha : is_active (pd_state d1)) by (by destruct Hst as [-> | ->]).
  assert (Hr : rij (settle msg e1 d1) = []) by (by rewrite (settle_sender _ _ _ n)).
  destruct Ho as [? ? H|? _ H|? ? H|? ? H| |? ? H|? ? H|_ H|_ H]; try done;
    try (by rewrite H in Ha); try (by rewrite Hm in H); try (by destruct (H Hm));
    by destruct H as [H|H], Hst as [Hst|Hst]; rewrite H in Hst.
Qed.

Lemma need_query_set z : (Z.lor z EIGRP_FSM_NEED_QUERY .? EIGRP_FSM_NEED_QUERY) = true.
Proof. by rewrite need_query_pow, has_flag_lor, orb_true_r. Qed.

Lemma outcome_last_reply_fc s p msg c d1 e1 d' ws n :
  dual_outcome s p msg c d1 e1 d' ws -> packet_type msg = EIGRP_OPC_REPLY ->
  active_0_2 (pd_state d1) -> rd_adv_router e1 = Some n ->
  remove_first (rs_for n) (rij d1) = [] -> up_count_intfs s (eiflist s) <> 0 ->
  match select_of s d1 with
  | Some b => exists eb, routes s !! b = Some eb /\ feasible (fdistance d1) eb
      /\ pd_state d' = EIGRP_FSM_STATE_PASSIVE /\ distance d' = rd_distance eb
      /\ rdistance d' = rd_distance eb /\ fdistance d' <= fdistance d1
      /\ rij d' = [] /\ query_origin d' = None
      /\ (req_action d' .? EIGRP_FSM_NEED_UPDATE) = true
  | None => none_feasible s d1 /\ pd_state d' = fcn_state (pd_state d1) /\ fdistance d' = fdistance d1
      /\ distance d' = distance d1 /\ query_origin d' = query_origin d1
      /\ (req_action d' .? EIGRP_FSM_NEED_QUERY) = true
  end.
Proof.
  intros Ho Hm Hst Hn Hl Hup.
  assert (Ha : is_active (pd_state d1)) by (by destruct Hst as [-> | ->]).
  assert (Hr : rij (settle msg e1 d1) = []) by (by rewrite (settle_sender _ _ _ n)).
  destruct (settle_frozen msg e1 d1) as (F1 & F2 & _).
  destruct Ho as [? ? H|? _ H|? ? H|? ? H|H|b eb _ _ _ Hs Hb|? ? _ _ _ Hs H|_ H|_ H]; try done;
    try (by rewrite H in Ha); try (by rewrite Hm in H); try (by destruct (H Hm)).
  - by destruct H as [H|H], Hst as [Hst|Hst]; rewrite H in Hst.
  - rewrite Hs. exists eb. destruct (select_of_live s d1 b Hs) as (_ & e' & He' & Hfc).
    rewrite Hb in He'. injection He' as <-. apply satisfies_fc_spec in Hfc. simpl. rewrite F1.
    repeat (split; [done|]). split; [|by repeat split; apply need_update_set].
    destruct (Z.ltb_spec (rd_distance eb) (fdistance d1)); lia.
  - rewrite Hs. apply select_none in Hs. unfold diffuse_outcome in H.
    rewrite (proj2 (Z.eqb_neq _ _) Hup) in H. split; [done|]. destruct H as [-> _]. simpl. rewrite F1, F2, settle_origin.
    repeat (split; [done|]). apply need_query_set.
Qed.

(** A QUERY is answered or its sender remembered. *)
Lemma outcome_query s p msg c d1 e1 d' ws n :
  dual_outcome s p msg c d1 e1 d' ws -> (forall w, enqueued s w = [w]) ->
  packet_type msg = EIGRP_OPC_QUERY -> msg_adv_router msg = Some n ->
  replies n p ws \/ query_origin d' = Some n.
Proof.
  intros Ho Hrun Hq Hn.
  destruct Ho as [r e Hst|ws Hst Hr Hs _ Har|? ? _ _ _ _ H|? ? _ _ _ _ _ H|_ H|? ? _ H|? ? _ H|_ _ _|_ H];
    try (by rewrite Hq in H).
  - left. exists None, 0. rewrite Hq, Hn. simpl. rewrite Hrun. by left.
  - left. destruct (Har n Hq Hn) as (route & f & ->). exists route, f. rewrite Hrun. by left.
  - unfold diffuse_outcome in H. destruct (_ =? 0); destruct H as [-> ->]; [left|by right].
    unfold lr_work. simpl. rewrite Hn. by apply (replies_origin s p n true).
  - by right.
Qed.

(** A deferred REPLY is kept or sent. *)
Lemma outcome_deferred s p msg c d1 e1 d' ws n :
  dual_outcome s p msg c d1 e1 d' ws -> (forall w, enqueued s w = [w]) ->
  origin_discipline d1 -> packet_type msg <> EIGRP_OPC_QUERY -> query_origin d1 = Some n ->
  query_origin d' = Some n \/ replies n p ws /\ pd_state d' = EIGRP_FSM_STATE_PASSIVE.
Proof.
  intros Ho Hrun Hd Hq Hn. unfold origin_discipline in Hd.
  destruct Ho as [r e Hst|ws Hst|? ? Hst|? ? Hst|Hst _ _|r e Hst _ _|? ? Hst _ _ _ H|_ H|Hst _ _ _];
    try done; try (rewrite Hst, Hn in Hd; done).
  - left. by rewrite settle_origin.
  - right. split; [|done]. unfold lr_work. rewrite settle_origin, settle_state, Hn.
    apply replies_origin; [done|]. destruct Hst as [E|E]; rewrite E in *; [by rewrite Hn in Hd|done].
  - right. split; [|done]. unfold fcs_work. rewrite settle_origin, settle_state, Hn.
    apply replies_origin; [done|]. destruct Hst as [E|E]; rewrite E in *; [by rewrite Hn in Hd|done].
  - unfold diffuse_outcome in H. destruct (_ =? 0); destruct H as [-> ->].
    + right. split; [|done]. unfold lr_work. simpl. rewrite settle_origin, Hn.
      apply replies_origin; [done|].
      destruct Hst as [E|E]; rewrite E in *; [by rewrite Hn in Hd|done].
    + left. simpl. by rewrite settle_origin.
  - left. done.
Qed.
End outcome_fields.

Section event_theorems.
Context (s : eigrp_instance) (msg : eigrp_fsm_action_message) (r : ptr).
Context (d : eigrp_prefix_descriptor) (e : eigrp_route_descriptor).
Hypothesis Hwf : instance_wf s.
Hypothesis Hmem : mem s = [].
Hypothesis Hmsg : msg_ok s msg r d e.

Abbreviation p := (msg_prefix msg).


(** C3: The handlers refine the state diagram as the NSM table realises it.  Every
    event of a well-formed store whose allocations succeed ([msg_ok]) moves the destination
    along one arrow of the diagram whose condition holds after the distance update; the
    arrow that keeps the state is taken only when no other arrow's condition holds; a
    computation started with no neighbor UP completes at once through arrow 1.  The table
    departs from the diagram printed in eigrp_fsm.c in arrow 2, taken on a QUERY of any
    neighbor, and in arrow 5, which a successor's QUERY takes from every ACTIVE state. *)
Theorem fsm_event_diagram :
  wp (eigrp_fsm_event msg) (fun _ s' =>
    exists s1 c d1 e1 d' l,
      distance_updated s msg r d e s1 c d1 e1 /\ prefixes s' !! p = Some d'
      /\ arrow_guard s1 msg c d1 e1 l /\ arrow_step s1 (pd_state d) l (pd_state d')) s.
Proof.
  eapply wp_fsm_event; [done..|]. intros m s' c d1 e1 d' ws (s1 & Hu & Ho & Hoc).
  destruct (outcome_arrow _ _ _ _ _ _ _ _ Hoc) as (l & Hg & Ha).
  destruct (hide_queues_fields _ _ (du_scalars _ _ _ _ _ _ _ _ _ Hu)) as (Est & _).
  rewrite Est in Ha. exists s1, c, d1, e1, d', l. split; [done|]. split; [apply Ho|done].
Qed.

(** C4: while the destination stays in a diffusing computation nothing it
    advertises moves: an event that ends in an ACTIVE state leaves the feasible
    distance, the distance, the reported distance and the reported vector as
    they were. *)
Theorem fsm_event_active_freeze :
  wp (eigrp_fsm_event msg) (fun _ s' =>
    forall d', prefixes s' !! p = Some d' -> is_active (pd_state d') ->
      fdistance d' = fdistance d /\ distance d' = distance d /\ rdistance d' = rdistance d
      /\ reported_metric d' = reported_metric d) s.
Proof.
  eapply wp_fsm_event; [done..|]. intros m s' c d1 e1 d' ws (s1 & Hu & Ho & Hoc) d2 Hp Hact.
  rewrite (do_prefix _ _ _ _ _ Ho) in Hp. injection Hp as <-.
  destruct (hide_queues_fields _ _ (du_scalars _ _ _ _ _ _ _ _ _ Hu))
    as (_ & _ & _ & E1 & E2 & E3 & E4 & _).
  rewrite <-E1, <-E2, <-E3, <-E4. by apply (outcome_frozen _ _ _ _ _ _ _ _ Hoc).
Qed.

(** C2: On a well-formed store whose allocations succeed, and while some neighbor is
    UP, a destination that is PASSIVE before and after an event ([msg_ok]) never raises its
    feasible distance, and its distance either stays or becomes that of a stored route which
    passed the feasibility condition against the feasible distance held before (the
    loop-freedom condition of DUAL), unless the distance update changed nothing or the
    feasible distance was infinite.  With no neighbor UP the event may run a diffusing
    computation to its end at once, which is excluded here. *)
Theorem fsm_event_passive_feasible :
  wp (eigrp_fsm_event msg) (fun _ s' =>
    forall d', prefixes s' !! p = Some d' ->
      pd_state d = EIGRP_FSM_STATE_PASSIVE -> pd_state d' = EIGRP_FSM_STATE_PASSIVE ->
      up_count_intfs s (eiflist s) <> 0 ->
      fdistance d' <= fdistance d
      /\ exists s1 c d1 e1 b eb,
           distance_updated s msg r d e s1 c d1 e1 /\ b ∈ topology_routes d1
           /\ routes s1 !! b = Some eb
           /\ (distance d' = distance d \/ distance d' = rd_distance eb)
           /\ (feasible (fdistance d) eb
               \/ c = METRIC_SAME \/ fdistance d = EIGRP_MAX_METRIC)) s.
Proof.
  eapply wp_fsm_event; [done..|]. intros m s' c d1 e1 d' ws (s1 & Hu & Ho & Hoc) d2 Hp Hst Hst' Hup.
  rewrite (do_prefix _ _ _ _ _ Ho) in Hp. injection Hp as <-.
  destruct (hide_queues_fields _ _ (du_scalars _ _ _ _ _ _ _ _ _ Hu))
    as (E0 & _ & _ & E1 & E2 & _).
  rewrite <-(du_up_count _ _ _ _ _ _ _ _ _ Hu) in Hup.
  rewrite <-E0 in Hst. rewrite <-E1, <-E2.
  destruct (outcome_passive _ _ _ _ _ _ _ _ Hoc Hst Hst' Hup) as (b & eb & Hb & He & -> & Hfc).
  split; [apply passive_desc_fd|]. exists s1, c, d1, e1, b, eb. split; [done|].
  destruct (keep_best_feasible s1 d1 b eb) as [Hin Hok]; [|done|done|].
  { eapply ok_live, dest_wf_ok, iw_dests; [apply Hu|by eapply du_prefix]. }
  split; [done|]. split; [done|]. split; [apply passive_desc_distance|].
  destruct Hok; [by left|right; auto].
Qed.

(** C5: the last REPLY of a computation that left PASSIVE by arrow 0 or 2
    (ACTIVE 1 and 3) ends it: the destination is PASSIVE, its feasible distance
    is reset to the distance of the best route read, which is also its distance
    and reported distance, no reply is awaited, no reply is owed, an UPDATE is
    requested, and the REPLY deferred in ACTIVE 3 is queued. *)
Theorem fsm_event_last_reply n :
  packet_type msg = EIGRP_OPC_REPLY -> active_1_3 (pd_state d) ->
  rd_adv_router e = Some n -> remove_first (rs_for n) (rij d) = [] ->
  wp (eigrp_fsm_event msg) (fun _ s' =>
    exists s1 c d1 e1 d',
      distance_updated s msg r d e s1 c d1 e1 /\ prefixes s' !! p = Some d'
      /\ pd_state d' = EIGRP_FSM_STATE_PASSIVE
      /\ fdistance d' = fst (best_metric s1 (read_of s1 d1))
      /\ distance d' = fdistance d' /\ rdistance d' = fdistance d'
      /\ reported_metric d' = snd (best_metric s1 (read_of s1 d1))
      /\ rij d' = [] /\ query_origin d' = None
      /\ (req_action d' .? EIGRP_FSM_NEED_UPDATE) = true
      /\ (forall m, query_origin d = Some m -> pd_state d = EIGRP_FSM_STATE_ACTIVE_3 ->
           shutdown s = false -> thread_running s = true ->
           replies m p (packetizer_queue s'))) s.
Proof.
  intros Hm Hst Hn Hl. eapply wp_fsm_event; [done..|].
  intros m s' c d1 e1 d' ws (s1 & Hu & Ho & Hoc). exists s1, c, d1, e1, d'.
  destruct (hide_queues_fields _ _ (du_scalars _ _ _ _ _ _ _ _ _ Hu)) as (E0 & E1 & E2 & _).
  rewrite <-E2 in Hl. rewrite <-E0 in Hst. rewrite <-E0, <-E1.
  pose proof (outcome_last_reply _ _ _ _ _ _ _ _ n Hoc Hm Hst
    (du_adv_router _ _ _ _ _ _ _ _ _ _ Hu Hn) Hl) as [-> ->].
  split; [done|]. split; [apply Ho|].
  unfold lr_desc. rewrite !read_settle. simpl.
  do 7 (split; [done|]). split; [by apply need_update_set|].
  intros k Hk Hst3 Hsh Hrun. destruct Hst as [Hst|Hst]; rewrite Hst in Hst3; [done|].
  destruct (replies_origin s1 p k true (enqueued s1 update_work)) as (rt & f & Hin); [|done|].
  { intros w. rewrite (du_running _ _ _ _ _ _ _ _ _ w Hu). by apply enqueued_running. }
  exists rt, f. eapply step_work; [exact Hu|exact Ho|].
  unfold lr_work. by rewrite settle_state, settle_origin, Hst, Hk.
Qed.

(** every QUERY is accounted for: when the event ends, a REPLY to the
    querying neighbor is in the packetizer queue, or the destination remembers
    that neighbor as the one owed the deferred REPLY. *)
Theorem fsm_event_query_accounted n :
  packet_type msg = EIGRP_OPC_QUERY -> msg_adv_router msg = Some n ->
  shutdown s = false -> thread_running s = true ->
  wp (eigrp_fsm_event msg) (fun _ s' =>
    exists d', prefixes s' !! p = Some d'
      /\ (replies n p (packetizer_queue s') \/ query_origin d' = Some n)) s.
Proof.
  intros Hm Hn Hsh Hrun. eapply wp_fsm_event; [done..|].
  intros m s' c d1 e1 d' ws (s1 & Hu & Ho & Hoc). exists d'. split; [apply Ho|].
  destruct (outcome_query _ _ _ _ _ _ _ _ n Hoc) as [(rt & f & H)|H]; [|done|done|left|by right].
  { intros w. rewrite (du_running _ _ _ _ _ _ _ _ _ w Hu). by apply enqueued_running. }
  exists rt, f. by eapply step_work.
Qed.

(** C6: a deferred REPLY is never lost by an event other than a QUERY: the
    destination still owes it, or it returned to PASSIVE and the REPLY to that
    neighbor is in the packetizer queue. *)
Theorem fsm_event_deferred_reply n :
  packet_type msg <> EIGRP_OPC_QUERY -> query_origin d = Some n ->
  shutdown s = false -> thread_running s = true ->
  wp (eigrp_fsm_event msg) (fun _ s' =>
    exists d', prefixes s' !! p = Some d'
      /\ (query_origin d' = Some n
          \/ replies n p (packetizer_queue s') /\ pd_state d' = EIGRP_FSM_STATE_PASSIVE)) s.
Proof.
  intros Hm Hn Hsh Hrun. eapply wp_fsm_event; [done..|].
  intros m s' c d1 e1 d' ws (s1 & Hu & Ho & Hoc). exists d'. split; [apply Ho|].
  destruct (hide_queues_fields _ _ (du_scalars _ _ _ _ _ _ _ _ _ Hu)) as (_ & E1 & _).
  rewrite <-E1 in Hn.
  destruct (outcome_deferred _ _ _ _ _ _ _ _ n Hoc) as [H|[(rt & f & H) ?]];
    [| |done|done|by left|].
  { intros w. rewrite (du_running _ _ _ _ _ _ _ _ _ w Hu). by apply enqueued_running. }
  { eapply dw_discipline, iw_dests; [apply Hu|by eapply du_prefix]. }
  right. split; [|done]. exists rt, f. by eapply step_work.
Qed.

(** the last REPLY received in ACTIVE 0 or 2 is decided by the feasibility
    condition against the feasible distance frozen when the computation began.
    When a stored route passes, the destination returns to PASSIVE with that
    route's distance, without raising the feasible distance; when none does, a
    new computation starts in ACTIVE 1 or 3 with the QUERY requested and the
    reported quantities still frozen (with a neighbor UP). *)
Theorem fsm_event_last_reply_fc n :
  packet_type msg = EIGRP_OPC_REPLY -> active_0_2 (pd_state d) ->
  rd_adv_router e = Some n -> remove_first (rs_for n) (rij d) = [] ->
  up_count_intfs s (eiflist s) <> 0 ->
  wp (eigrp_fsm_event msg) (fun _ s' =>
    exists s1 c d1 e1 d',
      distance_updated s msg r d e s1 c d1 e1 /\ prefixes s' !! p = Some d'
      /\ match select_of s1 d1 with
         | Some b => exists eb, routes s1 !! b = Some eb /\ feasible (fdistance d) eb
             /\ pd_state d' = EIGRP_FSM_STATE_PASSIVE /\ distance d' = rd_distance eb
             /\ rdistance d' = rd_distance eb /\ fdistance d' <= fdistance d
             /\ rij d' = [] /\ query_origin d' = None
             /\ (req_action d' .? EIGRP_FSM_NEED_UPDATE) = true
         | None => none_feasible s1 d1 /\ pd_state d' = fcn_state (pd_state d)
             /\ fdistance d' = fdistance d
             /\ distance d' = distance d /\ query_origin d' = query_origin d
             /\ (req_action d' .? EIGRP_FSM_NEED_QUERY) = true
         end) s.
Proof.
  intros Hm Hst Hn Hl Hup. eapply wp_fsm_event; [done..|].
  intros m s' c d1 e1 d' ws (s1 & Hu & Ho & Hoc). exists s1, c, d1, e1, d'.
  destruct (hide_queues_fields _ _ (du_scalars _ _ _ _ _ _ _ _ _ Hu))
    as (E0 & E1 & E2 & E3 & E4 & _).
  rewrite <-(du_up_count _ _ _ _ _ _ _ _ _ Hu) in Hup.
  rewrite <-E2 in Hl. rewrite <-E0 in Hst. rewrite <-E0, <-E1, <-E3, <-E4.
  split; [done|]. split; [apply Ho|].
  eapply outcome_last_reply_fc; [exact Hoc|done|done| |done|done].
  eapply du_adv_router; [exact Hu|done].
Qed.
End event_theorems.

(** ** Instances *)

Abbreviation net_up := (net_msg EIGRP_OPC_UPDATE 20 2 100000).


(** The event of [net_up] leaves PASSIVE by arrow 0. *)
Lemma fsm_event_diagram_witness :
  wp (eigrp_fsm_event net_up) (fun _ s' => exists d', prefixes s' !! 1%nat = Some d') (net net_passive 4096).
Proof.
  eapply wp_mono; [apply (fsm_event_diagram _ _ _ _ _ net_passive_wf eq_refl net_msg_ok)|].
  intros ? s' (s1 & c & d1 & e1 & d' & l & _ & H & _). eauto.
Defined.

Lemma fsm_event_active_freeze_witness :
  wp (eigrp_fsm_event net_up) (fun _ s' => forall d', prefixes s' !! 1%nat = Some d' ->
    is_active (pd_state d') -> fdistance d' = 28672) (net net_passive 4096).
Proof.
  eapply wp_mono; [apply (fsm_event_active_freeze _ _ _ _ _ net_passive_wf eq_refl net_msg_ok)|].
  intros ? s' H d' Hp Ha. destruct (H d' Hp Ha) as [-> _]. reflexivity.
Defined.

(** The alternative is feasible: a worse report leaves the destination PASSIVE. *)
Lemma net_passive_ok :
  msg_ok (net net_passive 700) net_up 2%nat net_passive (net_best 512).
Proof. solve_msg_ok. Qed.

Lemma fsm_event_passive_feasible_witness :
  wp (eigrp_fsm_event net_up) (fun _ s' => forall d', prefixes s' !! 1%nat = Some d' ->
    pd_state d' = EIGRP_FSM_STATE_PASSIVE -> fdistance d' <= 28672) (net net_passive 700).
Proof.
  eapply wp_mono; [apply (fsm_event_passive_feasible (net net_passive 700) net_up 2%nat net_passive
    (net_best 512)); [solve_net_wf|reflexivity|exact net_passive_ok]|].
  intros ? s' H d' Hp Hst. destruct (H d' Hp eq_refl Hst) as [Hd _]; [vm_compute; done|exact Hd].
Defined.

(** ACTIVE 3 on a QUERY of neighbor 21, waiting for neighbor 20. *)
Definition net_a3 : eigrp_prefix_descriptor :=
  net_dest EIGRP_FSM_STATE_ACTIVE_3 [owing 20%nat] (Some 21%nat).

Lemma net_a3_ok :
  msg_ok (net net_a3 4096) (net_msg EIGRP_OPC_REPLY 20 2 100000) 2%nat net_a3 (net_best 512).
Proof. solve_msg_ok. Qed.

Lemma fsm_event_last_reply_witness :
  wp (eigrp_fsm_event (net_msg EIGRP_OPC_REPLY 20 2 100000)) (fun _ s' =>
    replies 21%nat 1%nat (packetizer_queue s')) (net net_a3 4096).
Proof.
  eapply wp_mono; [apply (fsm_event_last_reply (net net_a3 4096) (net_msg EIGRP_OPC_REPLY 20 2 100000)
    2%nat net_a3 (net_best 512)) with (n := 20%nat);
    [solve_net_wf|reflexivity|exact net_a3_ok|reflexivity|by right|reflexivity|reflexivity]|].
  intros ? s' (s1 & c & d1 & e1 & d' & _ & _ & _ & _ & _ & _ & _ & _ & _ & _ & H).
  by apply H.
Defined.

Lemma fsm_event_query_accounted_witness :
  wp (eigrp_fsm_event (net_msg EIGRP_OPC_QUERY 20 2 100000)) (fun _ s' =>
    exists d', prefixes s' !! 1%nat = Some d'
      /\ (replies 20%nat 1%nat (packetizer_queue s') \/ query_origin d' = Some 20%nat))
    (net net_passive 4096).
Proof.
  apply (fsm_event_query_accounted (net net_passive 4096) (net_msg EIGRP_OPC_QUERY 20 2 100000)
    2%nat net_passive (net_best 512)); [solve_net_wf|reflexivity|solve_msg_ok|reflexivity..].
Defined.

Lemma fsm_event_deferred_reply_witness :
  wp (eigrp_fsm_event (net_msg EIGRP_OPC_REPLY 20 2 100000)) (fun _ s' =>
    exists d', prefixes s' !! 1%nat = Some d'
      /\ (query_origin d' = Some 21%nat
          \/ replies 21%nat 1%nat (packetizer_queue s') /\ pd_state d' = EIGRP_FSM_STATE_PASSIVE))
    (net net_a3 4096).
Proof.
  apply (fsm_event_deferred_reply (net net_a3 4096) (net_msg EIGRP_OPC_REPLY 20 2 100000)
    2%nat net_a3 (net_best 512));
    [solve_net_wf|reflexivity|exact net_a3_ok|done|reflexivity..].
Defined.

Definition net_a0 : eigrp_prefix_descriptor :=
  net_dest EIGRP_FSM_STATE_ACTIVE_0 [owing 20%nat] None.

Lemma fsm_event_last_reply_fc_witness :
  wp (eigrp_fsm_event (net_msg EIGRP_OPC_REPLY 20 2 100000)) (fun _ s' =>
    exists d', prefixes s' !! 1%nat = Some d') (net net_a0 4096).
Proof.
  eapply wp_mono; [apply (fsm_event_last_reply_fc (net net_a0 4096)
    (net_msg EIGRP_OPC_REPLY 20 2 100000) 2%nat net_a0 (net_best 512)) with (n := 20%nat);
    [solve_net_wf|reflexivity|solve_msg_ok|reflexivity|by left|reflexivity|reflexivity|vm_compute; done]|].
  intros ? s' (s1 & c & d1 & e1 & d' & _ & H & _). eauto.
Defined.
