(* ===== verification/Completion.v ===== *)
(** * Completion of a diffusing computation without a received REPLY

    The loss of a neighbor ([eigrp_fsm_neighbor_down]), an empty set of QUERY
    targets ([eigrp_fsm_query_sent]) and the stuck-in-active timer
    ([eigrp_fsm_active_timer_expired]) of eigrp_fsm.c. *)

From Stdlib Require Import ZArith Lia.
From stdpp Require Import base gmap list sorting.
From S2P Require Import Prelude Types Metric Prefix State Topology Fsm Store Marking Frame Handlers Invariant Distance Dual Network DualProps.

(** ** Loss of a neighbor *)

(** The destination once [n] owes it no reply. *)
Definition discharged (n : ptr) (d : eigrp_prefix_descriptor) : eigrp_prefix_descriptor :=
  {| d with rij := remove_first (rs_for n) (rij d) |}.

(** What becomes of a computation whose reply of [n] is counted as received. *)
Inductive completion (s : eigrp_instance) (p : ptr) (d1 : eigrp_prefix_descriptor)
    : eigrp_prefix_descriptor -> list eigrp_packetizer_work -> Prop :=
  | cp_waiting : rij d1 <> [] -> completion s p d1 d1 []
  | cp_reset :
      rij d1 = [] -> active_1_3 (pd_state d1) ->
      completion s p d1 (lr_desc s d1) (lr_work s p d1)
  | cp_feasible r e :
      rij d1 = [] -> active_0_2 (pd_state d1) -> routes s !! r = Some e ->
      r ∈ topology_routes d1 -> feasible (fdistance d1) e ->
      completion s p d1 (fcs_desc e d1) (fcs_work s p d1)
  | cp_restart d' ws :
      rij d1 = [] -> active_0_2 (pd_state d1) -> none_feasible s d1 ->
      diffuse_outcome s p (to_state (fcn_state (pd_state d1)) d1) d' ws ->
      completion s p d1 d' ws.

Section down.
Context (s : eigrp_instance) (p n : ptr) (d : eigrp_prefix_descriptor).
Hypothesis Hwf : instance_wf s.
Hypothesis Hmem : mem s = [].
Hypothesis Hp : prefixes s !! p = Some d.

Abbreviation d1 := (discharged n d).

Lemma discharged_wf : dest_wf s p d1.
Proof.
  destruct (iw_dests _ Hwf p d Hp) as [H1 H2 H3 H4 H5 H6 H7]. split; try done. simpl.
  eapply sublist_NoDup; [exact H7|]. apply fmap_sublist, remove_first_sublist.
Qed.

Lemma discharged_ok : dest_ok s d1.
Proof. eapply dest_wf_ok, discharged_wf. Qed.

(** The dispatch after the last reply, from the store [s1] that holds [d1]. *)
Lemma wp_last_reply msg s1 (Q : unit -> eigrp_instance -> Prop) :
  msg_prefix msg = p -> dual_out p s s1 d1 [] -> rij d1 = [] -> is_active (pd_state d) ->
  (forall s' d' ws, dual_out p s s' d' ws -> completion s p d1 d' ws -> Q tt s') ->
  wp (match pd_state d with
      | EIGRP_FSM_STATE_ACTIVE_0 | EIGRP_FSM_STATE_ACTIVE_2 =>
          selected ← eigrp_topology_route_select p;
          match selected with
          | Some _ => eigrp_fsm_event_lr_fcs msg
          | None => eigrp_fsm_event_lr_fcn msg
          end
      | _ => eigrp_fsm_event_lr msg
      end) Q s1.
Proof.
  intros Em Ho Hr Ha HQ. pose proof (do_frame _ _ _ _ _ Ho) as F.
  pose proof (do_prefix _ _ _ _ _ Ho) as Hp1. pose proof (ok_live _ _ discharged_ok) as Hl.
  assert (Hok1 : dest_ok s1 d1) by (eapply dest_ok_frame, discharged_ok; exact F).
  assert (Hm1 : mem s1 = []) by (by apply F).
  assert (Hlr : active_1_3 (pd_state d) -> wp (eigrp_fsm_event_lr msg) Q s1).
  { intros H13. apply (wp_event_lr msg d1); rewrite ?Em; [done..|]. intros s' Ho' _.
    rewrite (lr_desc_frame p s s1), (lr_work_frame p s s1) in Ho' by done.
    eapply HQ; [exact (dual_out_trans _ _ _ _ _ _ _ _ Ho Ho')|by constructor]. }
  assert (Hfc : active_0_2 (pd_state d) ->
    wp (selected ← eigrp_topology_route_select p;
        match selected with
        | Some _ => eigrp_fsm_event_lr_fcs msg
        | None => eigrp_fsm_event_lr_fcn msg
        end) Q s1).
  { intros H02. rewrite wp_bind. apply (wp_route_select p d1); [done|by eapply ok_live|].
    rewrite (frame_select p s s1) by done. destruct (select_of s d1) as [b|] eqn:Es.
    - destruct (select_of_live s d1 b Es) as (Hb & e & He & Hfe).
      destruct (df_routes _ _ _ F b e He) as (e2 & He2 & Ee).
      apply (wp_event_lr_fcs msg d1 b e2); rewrite ?Em; [done|done|done| |done|].
      { by rewrite (frame_select p s s1). }
      intros s' Ho' _.
      assert (fcs_desc e2 d1 = fcs_desc e d1) as E.
      { unfold fcs_desc. by apply strip_flags_eq in Ee as (-> & _ & _ & _ & _ & -> & _). }
      rewrite E in Ho'. unfold fcs_work in Ho'.
      rewrite (reply_to_frame p s s1), (enqueued_frame p s s1) in Ho' by done.
      eapply HQ; [exact (dual_out_trans _ _ _ _ _ _ _ _ Ho Ho')|].
      by eapply cp_feasible; [done|done|done|done|apply satisfies_fc_spec].
    - apply (wp_event_lr_fcn msg d1); rewrite ?Em; [done|done|done|by eapply peers_live_frame, Hwf|].
      intros s' Hd. fold (fcn_state (pd_state d1)) in Hd.
      eapply (diffused_outcome p s s1) in Hd as (d' & ws & Ho' & Hdo); [|exact F|exact Hl|exact Ho].
      eapply HQ; [exact Ho'|]. apply cp_restart; [done|done|by apply select_none|done]. }
  unfold is_active in Ha. destruct (pd_state d) eqn:E; try done;
    [apply Hfc|apply Hlr|apply Hfc|apply Hlr]; unfold active_0_2, active_1_3; auto.
Qed.
End down.

Section down_step.
Context (s : eigrp_instance) (p n : ptr) (d : eigrp_prefix_descriptor).
Hypothesis Hwf : instance_wf s.
Hypothesis Hmem : mem s = [].
Hypothesis Hp : prefixes s !! p = Some d.

Abbreviation d1 := (discharged n d).
Definition awaits : Prop := is_active (pd_state d) /\ n ∈ rs_neighbor <$> rij d.

Lemma find_pending : is_Some (List.find (rs_for n) (rij d)) <-> n ∈ rs_neighbor <$> rij d.
Proof.
  rewrite list_elem_of_fmap. split.
  - intros [x H]. apply List.find_some in H as [H1 H2]. exists x.
    apply Nat.eqb_eq in H2. split; [done|by apply list_elem_of_In].
  - intros (x & -> & Hx). destruct (List.find _ _) eqn:E; [eauto|].
    pose proof (List.find_none _ _ E x) as H. unfold rs_for in H. rewrite Nat.eqb_refl in H.
    discriminate H. by apply list_elem_of_In.
Qed.

Lemma wp_neighbor_down (Q : unit -> eigrp_instance -> Prop) :
  (~ awaits -> Q tt s) ->
  (forall s' d' ws, awaits -> dual_out p s s' d' ws -> completion s p d1 d' ws -> Q tt s') ->
  wp (eigrp_fsm_neighbor_down p n) Q s.
Proof.
  intros HQ0 HQ. unfold eigrp_fsm_neighbor_down. wp_simpl. unfold is_passive.
  case_bool_decide as Hst; [apply HQ0; by intros [? _]|].
  unfold eigrp_fsm_reply_status_pending, eigrp_fsm_reply_status_lookup. wp_simpl.
  case_bool_decide as Hpend; cbn [negb]; rewrite find_pending in Hpend;
    [|apply HQ0; by intros [_ ?]].
  assert (Haw : awaits) by done. unfold eigrp_fsm_reply_status_remove. wp_simpl.
  rewrite wp_get_prefix by apply set_prefix_lookup. wp_simpl.
  set (s1 := set_prefix s p _).
  assert (Ho : dual_out p s s1 d1 [])
    by (split; [apply frame_set_prefix|apply set_prefix_lookup|by rewrite app_nil_r]).
  case_bool_decide as Hr; cbn [negb].
  2:{ eapply HQ; [done|exact Ho|by constructor]. }
  pose proof (ok_live _ _ (dest_ok_frame _ _ _ _ (do_frame _ _ _ _ _ Ho)
    (discharged_ok s p n d Hwf Hp))) as Hl1.
  rewrite wp_bind. apply (wp_route_read p d1); [apply Ho|done|]. rewrite wp_bind.
  assert (Hdt : forall Q' : msg_data_t -> eigrp_instance -> Prop, (forall t, Q' t s1) ->
    wp (match read_of s1 d1 with
        | None => mret EIGRP_INT
        | Some r => route ← get_route r; mret (data_type_of (rd_type route))
        end) Q' s1).
  { intros Q' HQ'. destruct (read_of s1 d1) as [r|] eqn:Er; [|by wp_simpl].
    destruct (read_of_live s1 d1 r Hl1 Er) as [e He]. by wp_simpl. }
  apply Hdt. intros t. cbv zeta.
  eapply (wp_last_reply s p n d Hwf Hmem Hp); [done|exact Ho|done|apply Haw|].
  intros s' d' ws Ho' Hc. by eapply HQ.
Qed.

Lemma completion_wf d' ws : completion s p d1 d' ws -> dest_wf s p d'.
Proof.
  pose proof (discharged_wf s p n d Hwf Hp) as W. intros [|Hr Hst|r e Hr Hst|? ? Hr Hst Hn Hdf];
    [done|by eapply dest_wf_closed..|].
  refine (dest_wf_diffuse s p _ _ _ _ W _ _ _ _ Hdf); [done|done|apply W|].
  pose proof (dw_discipline _ _ _ W) as Hd. unfold origin_discipline in *. simpl in *.
  destruct Hst as [E|E]; simpl in E; by rewrite E in *.
Qed.
End down_step.

(** ** Consequences of a completion *)

Section completion_facts.
Implicit Types s : eigrp_instance.

Lemma remove_first_notin n (l : list eigrp_reply_status) :
  NoDup (rs_neighbor <$> l) -> n ∉ rs_neighbor <$> remove_first (rs_for n) l.
Proof.
  induction l as [|x l IH]; simpl; [by intros _ ?%not_elem_of_nil|].
  intros [Hx Hn]%NoDup_cons. unfold rs_for at 1.
  destruct (Nat.eqb_spec (rs_neighbor x) n) as [E|Hne]; [by rewrite <-E|].
  simpl. rewrite not_elem_of_cons. split; [congruence|auto].
Qed.

Lemma diffuse_cases s p d d' ws :
  diffuse_outcome s p d d' ws ->
  (pd_state d' = EIGRP_FSM_STATE_PASSIVE \/ d' = query_desc d) /\ rij d' = [].
Proof. unfold diffuse_outcome. destruct (_ =? 0); intros [-> _]; auto. Qed.

Lemma completion_state s p d1 d' ws :
  completion s p d1 d' ws ->
  pd_state d' = EIGRP_FSM_STATE_PASSIVE /\ rij d' = []
  \/ d' = d1 /\ rij d1 <> []
  \/ d' = query_desc (to_state (fcn_state (pd_state d1)) d1).
Proof.
  intros [?|? ?|? ? ? ?|? ? ? ? ? Hdf]; [by right; left|by left..|].
  destruct (diffuse_cases _ _ _ _ _ Hdf) as [[Hst|Hq] Hr]; [by left|by right; right].
Qed.

(** A deferred REPLY stays owed or is queued. *)
Lemma completion_origin s p d1 d' ws n :
  (forall w, enqueued s w = [w]) -> origin_discipline d1 -> query_origin d1 = Some n ->
  completion s p d1 d' ws -> query_origin d' = Some n \/ replies n p ws.
Proof.
  intros Hrun Hd Hn.
  assert (Ho : owes_reply (pd_state d1) = true).
  { unfold origin_discipline in Hd. rewrite Hn in Hd. by destruct (pd_state d1). }
  intros [?|Hr Hst|r e Hr Hst|? ? Hr Hst Hf Hdf]; [by left|right|right|].
  - unfold lr_work. rewrite Hn. by apply replies_origin.
  - unfold fcs_work. rewrite Hn. apply replies_origin; [done|]. apply bool_decide_eq_true.
    unfold origin_discipline in Hd. destruct Hst as [E|E]; rewrite E in *; [congruence|done].
  - unfold diffuse_outcome in Hdf. destruct (_ =? 0); destruct Hdf as [-> ->]; [right|by left].
    unfold lr_work. simpl. rewrite Hn. apply replies_origin; [done|].
    unfold origin_discipline in Hd. destruct Hst as [E|E]; rewrite E in *; [congruence|done].
Qed.
End completion_facts.

(** ** The ACTIVE timer *)

(** The time a computation may stay ACTIVE between two SIA-QUERYs. *)
Definition half_active_time (s : eigrp_instance) : Z :=
  u32 (match active_time_configured s with None => 180 | Some t => t end * 500).

Definition armed_desc (e : ptr) (d : eigrp_prefix_descriptor) : eigrp_prefix_descriptor :=
  {| d with active_eigrp := true; t_active := Some e |}.

(** The timer of [p] is pending, due half an active time from now. *)
Definition armed (s0 : eigrp_instance) (p e : ptr) (s' : eigrp_instance) : Prop :=
  {| te_id := e; te_owner := p; te_due_msec := u64 (clock_msec s0 + half_active_time s0) |}
    ∈ timer_head s'.

Section timer.
Implicit Types s : eigrp_instance.

Lemma frame_fresh p s : all_below s -> dual_frame p s {| s with next_addr := S (next_addr s) |}.
Proof. intros B. by apply (frame_alloc p s (routes s)). Qed.

Lemma frame_env p s s' : dual_frame p s s' ->
  clock_msec s' = clock_msec s /\ active_time_configured s' = active_time_configured s.
Proof.
  intros F. pose proof (df_hide _ _ _ F) as H.
  split; [exact (f_equal clock_msec H)|exact (f_equal active_time_configured H)].
Qed.

Lemma wp_timer_add p d s s1 ws (Q : unit -> eigrp_instance -> Prop) :
  dual_out p s s1 d ws -> all_below s -> is_Some (prefixes s !! p) -> mem s = [] ->
  shutdown s = false -> thread_running s = true -> active_eigrp d = true ->
  (forall s' e, dual_out p s s' (armed_desc e d) ws -> armed s p e s' -> Q tt s') ->
  wp (eigrp_timer_add_active p (half_active_time s)) Q s1.
Proof.
  intros Ho B Hp0 Hm Hsh Hrun Ha HQ. unfold eigrp_timer_add_active.
  rewrite wp_bind, wp_get_prefix by apply Ho. rewrite wp_bind.
  set (d0 := {| d with t_active := None |}).
  assert (Hc : forall Q' : unit -> eigrp_instance -> Prop,
    (forall s2 d2, dual_out p s s2 d2 ws -> {| d2 with t_active := None |} = d0 -> Q' tt s2) ->
    wp (match t_active d with
        | None => mret tt
        | Some e => put_prefix p d0;;
            modify (fun s => {| s with timer_head :=
              remove_first (fun ev => Nat.eqb (te_id ev) e) (timer_head s) |})
        end) Q' s1).
  { intros Q' HQ'. destruct (t_active d) as [e|]; [|rewrite wp_ret; by apply (HQ' s1 d)].
    rewrite wp_bind, wp_put_prefix, wp_modify. eapply (HQ' _ d0); [|done].
    rewrite <-(app_nil_r ws). eapply dual_out_trans; [exact Ho|].
    split; [|apply lookup_insert_eq|by rewrite app_nil_r].
    etrans; [apply (frame_set_prefix p s1 d0)|apply frame_timers]. }
  apply Hc. clear Hc. intros s2 d2 Ho2 Ed. pose proof (do_frame _ _ _ _ _ Ho2) as F2.
  dual_facts Ho2 Hp2 Hm2. destruct (frame_env _ _ _ F2) as [Ec _].
  assert (B2 : all_below s2) by (by apply F2). unfold fresh. wp_simpl.
  assert (Hgo : shutdown s2 || negb (thread_running s2) = false)
    by (by rewrite (frame_shutdown p s s2), (frame_running p s s2), Hsh, Hrun by done).
  unfold wp at 1. wp_simpl. simpl. rewrite Hgo. wp_simpl. apply (HQ _ (next_addr s2)).
  - rewrite <-(app_nil_r ws). eapply dual_out_trans; [exact Ho2|]. split; [| |by rewrite app_nil_r].
    + etrans; [apply frame_fresh, B2|]. etrans; [apply frame_timers|apply frame_set_prefix].
    + rewrite set_prefix_lookup. f_equal. unfold d0 in Ed. unfold armed_desc. destruct d, d2. simpl in *.
      injection Ed. intros. by subst.
  - unfold armed. simpl. rewrite Ec. apply elem_of_insert_by. by left.
Qed.
Definition active_seconds s : Z := match active_time_configured s with None => 180 | Some t => t end.

Lemma wp_active_seconds Q s :
  Q (active_seconds s) s -> wp eigrp_timer_active_time_seconds Q s.
Proof. intros HQ. unfold eigrp_timer_active_time_seconds. by rewrite wp_gets. Qed.

(** [eigrp_timer_cancel] leaves the descriptor as it was but for [t_active]. *)
Lemma wp_timer_cancel p d s s1 ws (Q : unit -> eigrp_instance -> Prop) :
  dual_out p s s1 d ws -> active_eigrp d = true ->
  (forall s', dual_out p s s' {| d with t_active := None |} ws -> Q tt s') ->
  wp (eigrp_timer_cancel_active p) Q s1.
Proof.
  intros Ho Ha HQ. unfold eigrp_timer_cancel_active. rewrite wp_bind, wp_get_prefix by apply Ho.
  rewrite Ha at 1. destruct (t_active d) as [e|] eqn:Et.
  - rewrite wp_bind, wp_put_prefix, wp_modify. apply HQ.
    rewrite <-(app_nil_r ws). eapply dual_out_trans; [exact Ho|].
    split; [|apply lookup_insert_eq|by rewrite app_nil_r].
    etrans; [apply (frame_set_prefix p s1 {| d with t_active := None |})|apply frame_timers].
  - rewrite wp_ret. apply HQ. assert ({| d with t_active := None |} = d) as -> by (by destruct d; simpl in *; subst).
    exact Ho.
Qed.

Lemma wp_timer_start p d s (Q : unit -> eigrp_instance -> Prop) :
  prefixes s !! p = Some d -> all_below s -> mem s = [] -> is_active (pd_state d) -> rij d <> [] ->
  shutdown s = false -> thread_running s = true -> active_seconds s <> 0 ->
  (forall s' e, dual_out p s s' (armed_desc e d) [] -> armed s p e s' -> Q tt s') ->
  wp (eigrp_fsm_active_timer_start p) Q s.
Proof.
  intros Hp B Hm Ha Hr Hsh Hrun Ht HQ. unfold eigrp_fsm_active_timer_start. wp_simpl.
  unfold is_passive. rewrite !bool_decide_false by done. cbn [orb]. rewrite wp_bind.
  apply wp_active_seconds. rewrite (proj2 (Z.eqb_neq _ _) Ht). rewrite wp_bind.
  apply (wp_upd_out _ (dual_out_refl p s d Hp)). intros s1 Ho1. rewrite wp_bind.
  eapply wp_timer_cancel; [exact Ho1|done|]. intros s2 Ho2.
  eapply (wp_timer_add p _ s s2); [exact Ho2|done|eauto|done|done|done|done|].
  intros s' e Ho' He. by apply (HQ s' e).
Qed.

(** [timers active-time disabled]: no timer is armed. *)
Lemma wp_timer_disabled p d s (Q : unit -> eigrp_instance -> Prop) :
  prefixes s !! p = Some d -> active_seconds s = 0 -> Q tt s -> wp (eigrp_fsm_active_timer_start p) Q s.
Proof.
  intros Hp Ht HQ. unfold eigrp_fsm_active_timer_start. rewrite wp_bind, wp_get_prefix by exact Hp.
  destruct (_ || _); [by rewrite wp_ret|]. rewrite wp_bind. apply wp_active_seconds. rewrite Ht. simpl. by rewrite wp_ret.
Qed.
End timer.

(** ** Stuck in active *)

(** The neighbor answered the last SIA-QUERY and was sent fewer than three. *)
Definition responsive (st : eigrp_reply_status) : Prop :=
  sia_response_received st = true /\ 0 <= sia_queries st < 3.

(** [st'] is [st] after one more SIA-QUERY. *)
Definition queried (st st' : eigrp_reply_status) : Prop :=
  rs_neighbor st' = rs_neighbor st /\ sia_response_received st' = false
  /\ sia_queries st' = sia_queries st + 1.

Definition sia_work (p : ptr) (st : eigrp_reply_status) : eigrp_packetizer_work :=
  {| work_opcode := EIGRP_OPC_SIAQUERY; work_prefix := Some p; work_route := None;
     work_exception := None; work_nbr := Some (rs_neighbor st); work_flags := 0 |}.

Section sia.
Implicit Types s : eigrp_instance.

Lemma run_get_prefix {A} p d (f : eigrp_prefix_descriptor -> St A) s :
  prefixes s !! p = Some d -> (x ← get_prefix p; f x) s = f d s.
Proof. intros Hp. unfold get_prefix, gets, mbind, M_bind. by rewrite Hp. Qed.

Lemma responsive_not_stuck st : responsive st -> sia_stuck st = false.
Proof.
  intros [H1 H]. unfold sia_stuck. rewrite H1. apply Z.leb_gt. lia.
Qed.
Lemma stuck_spec st : 0 <= sia_queries st -> ~ responsive st -> sia_stuck st = true.
Proof.
  unfold responsive, sia_stuck. intros H0 H. destruct (sia_response_received st); [|done].
  simpl. apply Z.leb_le. destruct (Z.lt_ge_cases (sia_queries st) 3); [|lia]. destruct H. auto.
Qed.

Lemma find_stuck l1 st l2 :
  Forall responsive l1 -> 0 <= sia_queries st -> ~ responsive st ->
  List.find sia_stuck (l1 ++ st :: l2) = Some st.
Proof.
  intros H1 H0 Hs. induction H1 as [|x l1 Hx H1 IH]; simpl; [by rewrite stuck_spec|].
  by rewrite (responsive_not_stuck x).
Qed.

Lemma find_responsive l : Forall responsive l -> List.find sia_stuck l = None.
Proof. induction 1 as [|x l Hx Hl IH]; simpl; [done|]. by rewrite (responsive_not_stuck x). Qed.

Lemma mark_queried l : Forall responsive l -> Forall2 queried l (sia_mark <$> l).
Proof.
  induction 1 as [|x l [_ Hx] Hl IH]; [constructor|]. constructor; [|exact IH].
  split; [done|]. split; [done|]. simpl. unfold u8. apply Z.mod_small. lia.
Qed.

Lemma wp_sia_query_all p s d todo : forall done s1 ws (Q : unit -> eigrp_instance -> Prop),
  dual_out p s s1 {| d with rij := done ++ todo |} ws ->
  mem s = [] -> shutdown s = false -> thread_running s = true ->
  (forall s', dual_out p s s' {| d with rij := done ++ (sia_mark <$> todo) |}
     (ws ++ (sia_work p <$> todo)) -> Q tt s') ->
  wp (sia_query_all p done todo) Q s1.
Proof.
  induction todo as [|st todo IH]; intros done s1 ws Q Ho Hm Hsh Hrun HQ; cbn [sia_query_all].
  { rewrite wp_ret. apply HQ. simpl. by rewrite !app_nil_r in *. }
  rewrite wp_bind. apply (wp_upd_out _ Ho). intros s2 Ho2. dual_facts Ho2 Hp2 Hm2. rewrite wp_bind.
  unfold eigrp_siaquery_send, eigrp_packetizer_work_create. wp_simpl.
  eapply wp_mono; [eapply (wp_enqueue_dual p); [exact Hp2|done|done|done]|]. intros [] s3 Ho3.
  rewrite (enqueued_frame p s s2), enqueued_running in Ho3 by (done || apply Ho2).
  eapply (IH (done ++ [sia_mark st])); [|done|done|done|].
  - rewrite <-app_assoc. exact (dual_out_trans _ _ _ _ _ _ _ _ Ho2 Ho3).
  - intros s'. rewrite <-!app_assoc. apply HQ.
Qed.
End sia.

(** ** Theorems *)

(** C13: the loss of a neighbor counts as its reply and never strands a computation:
    [eigrp_fsm_neighbor_down] for a neighbor the destination awaits is defined,
    keeps the store well formed and every other destination as it was, the
    neighbor is no longer awaited, and the destination is PASSIVE, or still waits
    for another neighbor in the same state, or has a new QUERY requested; while it
    is ACTIVE nothing it advertises moved, and a deferred REPLY is still owed or is
    in the packetizer queue. *)
Theorem neighbor_down_no_strand s p n d :
  instance_wf s -> mem s = [] -> prefixes s !! p = Some d -> awaits n d ->
  shutdown s = false -> thread_running s = true ->
  wp (eigrp_fsm_neighbor_down p n) (fun _ s' =>
    instance_wf s'
    /\ (forall q, q <> p -> prefixes s' !! q = prefixes s !! q)
    /\ exists d', prefixes s' !! p = Some d' /\ (n ∉ rs_neighbor <$> rij d')
       /\ (pd_state d' = EIGRP_FSM_STATE_PASSIVE
           \/ pd_state d' = pd_state d /\ rij d' <> []
           \/ active_1_3 (pd_state d') /\ (req_action d' .? EIGRP_FSM_NEED_QUERY) = true)
       /\ (is_active (pd_state d') -> fdistance d' = fdistance d /\ distance d' = distance d
             /\ rdistance d' = rdistance d /\ reported_metric d' = reported_metric d)
       /\ (forall m, query_origin d = Some m ->
             query_origin d' = Some m \/ replies m p (packetizer_queue s'))) s.
Proof.
  intros Hwf Hm Hp Haw Hsh Hrun. apply (wp_neighbor_down s p n d); [done..|].
  intros s' d' ws _ Ho Hc. pose proof (iw_dests _ Hwf p d Hp) as W.
  split; [eapply instance_wf_frame; [exact Hwf|apply Ho|eauto|apply Ho|by eapply completion_wf]|].
  split; [apply (df_others _ _ _ (do_frame _ _ _ _ _ Ho))|].
  exists d'. split; [apply Ho|].
  pose proof (remove_first_notin n (rij d) (dw_rij _ _ _ W)) as Hni.
  assert (Horg : forall m, query_origin d = Some m ->
    query_origin d' = Some m \/ replies m p (packetizer_queue s')).
  { intros m Hom. eapply completion_origin in Hc as [H|(rt & f & H)]; [by left| |
      by intros; apply enqueued_running|apply W|exact Hom].
    right. exists rt, f. rewrite (do_work _ _ _ _ _ Ho). apply elem_of_app. by right. }
  apply completion_state in Hc as [[Hst Hr]|[[-> Hr]|Hd]].
  - rewrite Hr, Hst. split; [apply not_elem_of_nil|]. split; [by left|]. by split.
  - split; [done|]. split; [by right; left|]. by split.
  - subst d'. split; [apply not_elem_of_nil|]. split; [|by split]. right; right.
    split; [|apply need_query_set]. simpl. unfold fcn_state. case_bool_decide; [by left|by right].
Qed.

Lemma neighbor_down_no_strand_witness :
  wp (eigrp_fsm_neighbor_down 1%nat 20%nat) (fun _ s' =>
    replies 21%nat 1%nat (packetizer_queue s') \/ exists d', prefixes s' !! 1%nat = Some d'
      /\ query_origin d' = Some 21%nat) (net net_a3 4096).
Proof.
  eapply wp_mono; [apply (neighbor_down_no_strand (net net_a3 4096) 1%nat 20%nat net_a3);
    [solve_net_wf|reflexivity|reflexivity|split; [discriminate|vm_compute; by left]|reflexivity|reflexivity]|].
  intros ? s' (_ & _ & d' & Hp & _ & _ & _ & Ho). destruct (Ho 21%nat eq_refl); [right; eauto|by left].
Defined.

(** C14: after the QUERYs of a destination went out ([eigrp_fsm_query_sent]) its
    computation can proceed: with replies outstanding the ACTIVE timer is
    pending, due half an active time from now, and nothing else of the destination
    changed, or, when the operator disabled the active time, no timer is armed and
    nothing changed at all; with no reply outstanding the computation ends at once as by a last
    reply, PASSIVE at the distance of the best route, with the deferred REPLY and an
    UPDATE queued.  The store stays well formed.  The thread takes work and allocations
    succeed. *)
Theorem query_sent_progress s p d :
  instance_wf s -> mem s = [] -> prefixes s !! p = Some d -> is_active (pd_state d) ->
  shutdown s = false -> thread_running s = true ->
  wp (eigrp_fsm_query_sent p) (fun _ s' =>
    instance_wf s'
    /\ exists d', prefixes s' !! p = Some d'
       /\ if bool_decide (rij d = []) then
            pd_state d' = EIGRP_FSM_STATE_PASSIVE /\ rij d' = [] /\ query_origin d' = None
            /\ fdistance d' = fst (best_metric s (read_of s d))
            /\ (req_action d' .? EIGRP_FSM_NEED_UPDATE) = true
            /\ update_work ∈ packetizer_queue s'
            /\ forall n, query_origin d = Some n -> replies n p (packetizer_queue s')
          else if active_seconds s =? 0 then s' = s
          else exists e, d' = armed_desc e d /\ armed s p e s') s.
Proof.
  intros Hwf Hm Hp Ha Hsh Hrun. pose proof (iw_dests _ Hwf p d Hp) as W.
  pose proof (dest_wf_ok _ _ _ W) as Hok. unfold eigrp_fsm_query_sent. wp_simpl.
  unfold is_passive. rewrite (bool_decide_false (pd_state d = _)) by done.
  case_bool_decide as Hr; cbn [negb].
  2:{ destruct (Z.eqb_spec (active_seconds s) 0) as [Ht|Ht].
      { apply (wp_timer_disabled p d); [done..|]. split; [done|]. by exists d. }
      apply (wp_timer_start p d); [done|apply Hwf|done..|]. intros s' e Ho He.
      split; [|exists (armed_desc e d); split; [apply Ho|by exists e]].
      eapply instance_wf_frame; [exact Hwf|apply Ho|eauto|apply Ho|].
      eapply dest_wf_scalars; [exact W|done|done|apply W|apply W|by left]. }
  assert (Hend : forall msg, msg_prefix msg = p -> wp (eigrp_fsm_event_lr msg) (fun _ s' =>
    instance_wf s' /\ exists d', prefixes s' !! p = Some d'
      /\ pd_state d' = EIGRP_FSM_STATE_PASSIVE /\ rij d' = [] /\ query_origin d' = None
      /\ fdistance d' = fst (best_metric s (read_of s d))
      /\ (req_action d' .? EIGRP_FSM_NEED_UPDATE) = true
      /\ update_work ∈ packetizer_queue s'
      /\ forall n, query_origin d = Some n -> replies n p (packetizer_queue s')) s).
  { intros msg Em. apply (wp_event_lr msg d); rewrite ?Em; [done..|]. intros s' Ho _.
    assert (Hw : forall w, enqueued s w = [w]) by (intros; by apply enqueued_running).
    split; [eapply instance_wf_frame; [exact Hwf|apply Ho|eauto|apply Ho|by eapply dest_wf_closed]|].
    exists (lr_desc s d). split; [apply Ho|]. do 4 (split; [done|]). split; [apply need_update_set|].
    rewrite (do_work _ _ _ _ _ Ho). unfold lr_work. rewrite Hw. split.
    - rewrite !elem_of_app. right; right. by left.
    - intros n Hn. exists None, 0. rewrite !elem_of_app. right; left. rewrite Hn.
      pose proof (dw_discipline _ _ _ W) as Hd. unfold origin_discipline in Hd. rewrite Hn in Hd.
      assert (owes_reply (pd_state d) = true) as -> by (by destruct (pd_state d)).
      simpl. rewrite Hw. by left. }
  rewrite wp_bind. apply (wp_route_read p d); [done|by apply ok_live|]. wp_simpl.
  destruct (read_of s d) as [r|] eqn:Er; [|by apply Hend].
  destruct (read_of_live s d r (ok_live _ _ Hok) Er) as [e He]. wp_simpl. by apply Hend.
Qed.

(** ACTIVE 3 for neighbor 21 with nobody left to ask. *)
Definition net_empty : eigrp_prefix_descriptor :=
  net_dest EIGRP_FSM_STATE_ACTIVE_3 [] (Some 21%nat).

Lemma query_sent_progress_witness :
  wp (eigrp_fsm_query_sent 1%nat) (fun _ s' => replies 21%nat 1%nat (packetizer_queue s'))
     (net net_empty 4096).
Proof.
  eapply wp_mono; [apply (query_sent_progress (net net_empty 4096) 1%nat net_empty);
    [solve_net_wf|reflexivity|reflexivity|discriminate|reflexivity|reflexivity]|].
  intros ? s' (_ & d' & _ & H). by apply H.
Defined.

(** C15: the ACTIVE timer decides stuck-in-active.  When some awaited neighbor left
    the last SIA-QUERY unanswered or was already sent three, the handler is exactly
    the teardown of the first such neighbor.  Otherwise every awaited neighbor gets
    one SIA-QUERY, in order, is marked as not having answered with its count one
    higher (at most three), and the timer is armed again for half an active time; the
    rest of the destination is as it was and the store stays well formed. *)
Theorem active_timer_sia teardown s p d :
  instance_wf s -> mem s = [] -> prefixes s !! p = Some d ->
  is_active (pd_state d) -> rij d <> [] -> active_eigrp d = true ->
  (forall l1 st l2, rij d = l1 ++ st :: l2 -> Forall responsive l1 ->
     0 <= sia_queries st -> ~ responsive st ->
     eigrp_fsm_active_timer_expired teardown p s = teardown (rs_neighbor st) s)
  /\ (Forall responsive (rij d) -> shutdown s = false -> thread_running s = true ->
      active_seconds s <> 0 ->
      wp (eigrp_fsm_active_timer_expired teardown p) (fun _ s' =>
        instance_wf s' /\ exists e rij',
          prefixes s' !! p = Some (armed_desc e {| d with rij := rij' |})
          /\ Forall2 queried (rij d) rij' /\ armed s p e s'
          /\ packetizer_queue s' = packetizer_queue s ++ (sia_work p <$> rij d)) s).
Proof.
  intros Hwf Hm Hp Ha Hr He. pose proof (iw_dests _ Hwf p d Hp) as W.
  assert (Hg : is_passive (pd_state d) || bool_decide (rij d = []) || negb (active_eigrp d) = false)
    by (unfold is_passive; by rewrite !bool_decide_false, He by done).
  split.
  - intros l1 st l2 El H1 H0 Hs. unfold eigrp_fsm_active_timer_expired.
    rewrite (run_get_prefix p d) by done. cbv beta. rewrite Hg, El. by rewrite (find_stuck l1 st l2).
  - intros Hall Hsh Hrun Ht. unfold eigrp_fsm_active_timer_expired. wp_simpl.
    rewrite Hg, find_responsive, wp_bind by done.
    apply (wp_sia_query_all p s d (rij d) [] s []); try done.
    { apply dual_out_refl. rewrite Hp. by destruct d. }
    intros s1 Ho. rewrite wp_bind. destruct (frame_env _ _ _ (do_frame _ _ _ _ _ Ho)) as [_ Et].
    apply wp_active_seconds. unfold active_seconds at 1. rewrite Et. fold (active_seconds s).
    rewrite (proj2 (Z.eqb_neq _ _) Ht).
    change (match active_time_configured s1 with Some t => t | None => 180 end) with (active_seconds s1).
    assert (active_seconds s1 = active_seconds s) as -> by (unfold active_seconds; by rewrite Et).
    eapply (wp_timer_add p _ s s1); [exact Ho|apply Hwf|eauto|done|done|done|exact He|].
    intros s' e Ho' Har. split.
    + eapply instance_wf_frame; [exact Hwf|apply Ho'|eauto|apply Ho'|].
      destruct W as [W1 W2 W3 W4 W5 W6 W7]. split; try done. simpl.
      by rewrite <-list_fmap_compose.
    + exists e, (sia_mark <$> rij d). split; [apply Ho'|]. split; [by apply mark_queried|].
      split; [done|apply Ho'].
Qed.

(** ACTIVE 3 with the timer running and neighbor 20 having answered two SIA-QUERYs. *)
Definition net_sia : eigrp_prefix_descriptor :=
  {| net_a3 with active_eigrp := true;
     rij := [{| rs_neighbor := 20%nat; sia_queries := 2; sia_response_received := true |}] |}.

Lemma active_timer_sia_witness :
  wp (eigrp_fsm_active_timer_expired (fun _ => mret tt) 1%nat)
     (fun _ s' => length (packetizer_queue s') = 1%nat) (net net_sia 4096).
Proof.
  destruct (active_timer_sia (fun _ => mret tt) (net net_sia 4096) 1%nat net_sia) as [_ H];
    [solve_net_wf|reflexivity|reflexivity|discriminate|discriminate|reflexivity|].
  eapply wp_mono; [apply H|]; [by repeat constructor|reflexivity|reflexivity|discriminate|].
  intros ? s' (_ & e & rij' & _ & _ & _ & Hq). by rewrite Hq.
Defined.
