(* ===== verification/Table.v ===== *)
(** * The topology table of a store

    The table's nodes are live and name live destinations that can be found under
    their own key; lookup of a destination; stability under a DUAL event. *)

From Stdlib Require Import ZArith Lia.
From stdpp Require Import base gmap list sorting.
From S2P Require Import Prelude Types Metric Prefix State Topology Fsm Store Marking Frame Handlers Invariant Distance Dual DualProps.

(** Every node of the table is live, holds a live destination or nothing, and lies below
    the next address. *)
Record table_wf (s : eigrp_instance) : Prop := {
  tw_live : forall t, t ∈ topology_table s -> is_Some (table_nodes s !! t);
  tw_info : forall t n p, table_nodes s !! t = Some n -> tn_info n = Some p -> is_Some (prefixes s !! p);
  tw_below : forall t, is_Some (table_nodes s !! t) -> (t < next_addr s)%nat;
}.

Section table.
Implicit Types s : eigrp_instance.

(** What the table gives for a destination. *)
Definition table_find (s : eigrp_instance) (dest : eigrp_prefix) : option ptr :=
  key ← eigrp_topology_table_key dest;
  t ← List.find (fun t => match table_nodes s !! t with
                          | Some n => eigrp_table_prefix_match (tn_prefix n) (eigrp_prefix_normalize key)
                          | None => false
                          end) (topology_table s);
  n ← table_nodes s !! t;
  tn_info n.

(** The node a key leads to. *)
Definition node_find (s : eigrp_instance) (key : eigrp_prefix) : option ptr :=
  List.find (fun t => match table_nodes s !! t with
                      | Some n => eigrp_table_prefix_match (tn_prefix n) (eigrp_prefix_normalize key)
                      | None => false
                      end) (topology_table s).

Lemma table_key_valid dest key : eigrp_topology_table_key dest = Some key -> eigrp_prefix_valid key = true.
Proof.
  unfold eigrp_topology_table_key. destruct (eigrp_prefix_valid dest) eqn:Ev; [|done]. intros [= <-].
  unfold eigrp_prefix_normalize. rewrite Ev. simpl. by destruct (_ && _).
Qed.

Lemma wp_node_lookup key s (Q : option ptr -> eigrp_instance -> Prop) :
  table_wf s -> eigrp_prefix_valid key = true -> Q (node_find s key) s -> wp (topology_node_lookup key) Q s.
Proof.
  intros [W _ _] Hv. unfold topology_node_lookup, node_find. rewrite Hv. cbn [negb]. rewrite wp_bind, wp_gets.
  induction (topology_table s) as [|t l IH]; simpl; intros HQ; [done|].
  destruct (W t) as [n Hn]; [by left|]. rewrite Hn in HQ. rewrite wp_bind, wp_bind, (wp_get_tnode t n), wp_ret by done.
  destruct (eigrp_table_prefix_match _ _); [done|]. apply IH; [|done]. intros x Hx. apply W. by right.
Qed.

Lemma wp_topology_lookup dest s (Q : option ptr -> eigrp_instance -> Prop) :
  table_wf s -> Q (table_find s dest) s -> wp (eigrp_topology_table_lookup dest) Q s.
Proof.
  intros W HQ. unfold eigrp_topology_table_lookup, table_find in *.
  destruct (eigrp_topology_table_key dest) as [key|] eqn:Ek; [|done]. simpl in HQ. fold (node_find s key) in HQ.
  rewrite wp_bind. apply wp_node_lookup; [done|by eapply table_key_valid|]. destruct (node_find s key) as [t|] eqn:E; simpl in HQ; [|done].
  apply List.find_some in E as [_ E]. destruct (table_nodes s !! t) as [n|] eqn:En; [|done].
  rewrite wp_bind, (wp_get_tnode t n) by done. done.
Qed.

Lemma table_find_live s dest p : table_wf s -> table_find s dest = Some p -> is_Some (prefixes s !! p).
Proof.
  intros W. unfold table_find. destruct (eigrp_topology_table_key dest); [|done]. simpl.
  destruct (List.find _ _) as [t|]; [|done]. simpl. destruct (table_nodes s !! t) as [n|] eqn:En; [|done]. simpl.
  by eapply tw_info.
Qed.

(** A step that keeps the table, allocates only and frees no destination. *)
Lemma table_wf_keep s s' :
  table_wf s -> topology_table s' = topology_table s -> table_nodes s' = table_nodes s ->
  (forall p, is_Some (prefixes s !! p) -> is_Some (prefixes s' !! p)) -> (next_addr s <= next_addr s')%nat -> table_wf s'.
Proof.
  intros [W1 W2 W3] E1 E2 Hp Hn. split; rewrite ?E1, ?E2.
  - done.
  - intros t n p Ht Hi. by eapply Hp, W2.
  - intros t Ht. specialize (W3 t Ht). lia.
Qed.

Lemma table_wf_frame p s s' : dual_frame p s s' -> table_wf s -> table_wf s'.
Proof.
  intros F W. apply (table_wf_keep s); [done| | | |apply F].
  - pose proof (f_equal topology_table (df_hide _ _ _ F)) as H. exact H.
  - pose proof (f_equal table_nodes (df_hide _ _ _ F)) as H. exact H.
  - intros q Hq. destruct (decide (q = p)) as [->|Hne]; [by apply F|].
    by rewrite (df_others _ _ _ F q Hne).
Qed.

(** A checker for concrete stores. *)
Definition table_wfb (s : eigrp_instance) : bool :=
  forallb (fun t => bool_decide (is_Some (table_nodes s !! t))) (topology_table s)
  && forallb (fun x => match tn_info (snd x) with
                       | Some p => bool_decide (is_Some (prefixes s !! p))
                       | None => true
                       end && (fst x <? next_addr s)%nat) (map_to_list (table_nodes s)).

Lemma table_wfb_spec s : table_wfb s = true -> table_wf s.
Proof.
  unfold table_wfb. rewrite andb_true_iff, !forallb_forall. intros [H1 H2].
  assert (forall t n, table_nodes s !! t = Some n -> match tn_info n with
                       | Some p => bool_decide (is_Some (prefixes s !! p))
                       | None => true
                       end && (t <? next_addr s)%nat = true) as H3.
  { intros t n Hn. apply (H2 (t, n)). by apply list_elem_of_In, elem_of_map_to_list. }
  split.
  - intros t Ht. specialize (H1 t). apply bool_decide_eq_true in H1; [done|by apply list_elem_of_In].
  - intros t n p Hn Hi. specialize (H3 t n Hn). rewrite Hi in H3. apply andb_true_iff in H3 as [H3 _].
    by apply bool_decide_eq_true in H3.
  - intros t [n Hn]. specialize (H3 t n Hn). apply andb_true_iff in H3 as [_ H3]. by apply Nat.ltb_lt in H3.
Qed.
End table.
