(* ===== verification/Events.v ===== *)
(** * DUAL events and the rest of the store

    What an event of one destination leaves as it was: the table, the other
    destinations, the routes other than its own up to their flags, the neighbors up to
    their path count.  The components that deliver events to many destinations in turn
    (a lost neighbor, a received packet) are verified against this frame. *)

From Stdlib Require Import ZArith Lia.
From stdpp Require Import base gmap list sorting.
From S2P Require Import Prelude Types Metric Prefix State Topology Fsm Store Marking Frame Handlers Invariant Distance Dual DualProps Completion Table.

(** A well-formed instance with its table; allocations succeed. *)
Record store_ok (s : eigrp_instance) : Prop := {
  so_wf : instance_wf s;
  so_table : table_wf s;
  so_mem : mem s = [];
}.

Definition hide_event (s : eigrp_instance) : eigrp_instance :=
  let h := hide_dual s in {| h with nbrs := ∅ |}.

(** An event of destination [p] whose own route is [r]. *)
Record event_frame (p r : ptr) (s s' : eigrp_instance) : Prop := {
  ef_hide : hide_event s' = hide_event s;
  ef_nbrs : nbrs_keep s s';
  ef_others : forall q, q <> p -> prefixes s' !! q = prefixes s !! q;
  ef_dest : forall d', prefixes s' !! p = Some d' ->
    exists d, prefixes s !! p = Some d /\ forall x, x ∈ topology_routes d' -> x = r \/ x ∈ topology_routes d;
  ef_routes : forall x e, x <> r -> routes s !! x = Some e ->
    exists e', routes s' !! x = Some e' /\ strip_flags e' = strip_flags e;
  ef_own : forall e, routes s !! r = Some e -> exists e', routes s' !! r = Some e' /\ rd_type e' = rd_type e;
  ef_alive : forall q, is_Some (prefixes s !! q) -> is_Some (prefixes s' !! q);
  ef_next : (next_addr s <= next_addr s')%nat;
  ef_work : exists ws, packetizer_queue s' = packetizer_queue s ++ ws;
  ef_kept : forall d, prefixes s !! p = Some d ->
    exists d', prefixes s' !! p = Some d' /\ forall x, x ∈ topology_routes d -> x ∈ topology_routes d';
}.

Section events.
Implicit Types s : eigrp_instance.

Lemma nbrs_keep_ei s s' n nb : nbrs_keep s s' -> nbrs s !! n = Some nb ->
  exists nb', nbrs s' !! n = Some nb' /\ nbr_ei nb' = nbr_ei nb.
Proof.
  intros K Hn. specialize (K n). rewrite Hn in K. destruct (nbrs s' !! n) as [nb'|]; [|done].
  exists nb'. split; [done|]. simpl in K. by injection K.
Qed.

Lemma event_table p r s s' : event_frame p r s s' ->
  topology_table s' = topology_table s /\ table_nodes s' = table_nodes s /\ neighbor_self s' = neighbor_self s
  /\ intfs s' = intfs s /\ shutdown s' = shutdown s /\ thread_running s' = thread_running s /\ params s' = params s.
Proof.
  intros F. pose proof (ef_hide _ _ _ _ F) as H.
  repeat split; first [exact (f_equal topology_table H)|exact (f_equal table_nodes H)|exact (f_equal neighbor_self H)
    |exact (f_equal intfs H)|exact (f_equal shutdown H)|exact (f_equal thread_running H)|exact (f_equal params H)].
Qed.

Lemma dual_event_frame p r s s' d d' ws :
  dual_out p s s' d' ws -> prefixes s !! p = Some d -> topology_routes d' = topology_routes d -> event_frame p r s s'.
Proof.
  intros [F Hp Hw] Hd Er. split.
  - unfold hide_event. by rewrite (df_hide _ _ _ F).
  - intros n. by rewrite (frame_nbrs p s s').
  - apply F.
  - intros d0 E. rewrite Hp in E. injection E as <-. exists d. split; [done|]. intros x Hx. right. by rewrite <-Er.
  - intros x e _ Hx. by apply F.
  - intros e He. destruct (df_routes _ _ _ F r e He) as (e' & He' & E). exists e'. split; [done|].
    by apply strip_flags_eq in E as (_ & _ & _ & _ & _ & _ & E & _).
  - intros q Hq. destruct (decide (q = p)) as [->|Hne]; [by apply F|]. by rewrite (df_others _ _ _ F q Hne).
  - apply F.
  - eauto.
  - intros d0 Hd0. rewrite Hd in Hd0. injection Hd0 as <-. exists d'. split; [done|]. by rewrite Er.
Qed.

Lemma updated_event_frame s msg r d e s1 c d1 e1 :
  distance_updated s msg r d e s1 c d1 e1 -> prefixes s !! msg_prefix msg = Some d -> routes s !! r = Some e ->
  event_frame (msg_prefix msg) r s s1.
Proof.
  intros Hu Hd He. pose proof (du_rest _ _ _ _ _ _ _ _ _ Hu) as E. split.
  - unfold hide_event, hide_dual. by rewrite E.
  - apply Hu.
  - intros q Hq. rewrite (du_prefixes _ _ _ _ _ _ _ _ _ Hu). by apply lookup_insert_ne.
  - intros d' Hd'. rewrite (du_prefix _ _ _ _ _ _ _ _ _ Hu) in Hd'. injection Hd' as <-.
    exists d. split; [done|]. apply Hu.
  - intros x ex Hx Hex. exists ex. rewrite (du_routes _ _ _ _ _ _ _ _ _ Hu), lookup_insert_ne by done. done.
  - intros e0 He0. rewrite He in He0. injection He0 as <-. exists e1. split; [by eapply du_desc|].
    destruct (du_route _ _ _ _ _ _ _ _ _ Hu) as [(-> & _)|[H _]]; [done|].
    by apply updated_route_fields in H as (_ & _ & _ & -> & _).
  - intros q Hq. rewrite (du_prefixes _ _ _ _ _ _ _ _ _ Hu). destruct (decide (q = msg_prefix msg)) as [->|Hne].
    + rewrite lookup_insert_eq. eauto.
    + by rewrite lookup_insert_ne.
  - by rewrite E.
  - exists []. rewrite app_nil_r. by rewrite E.
  - intros d0 Hd0. rewrite Hd in Hd0. injection Hd0 as <-. exists d1. split; [by eapply du_prefix|apply Hu].
Qed.

Lemma event_frame_trans p r s1 s2 s3 : event_frame p r s1 s2 -> event_frame p r s2 s3 -> event_frame p r s1 s3.
Proof.
  intros F G. split.
  - by rewrite (ef_hide _ _ _ _ G), (ef_hide _ _ _ _ F).
  - intros n. by rewrite (ef_nbrs _ _ _ _ G n), (ef_nbrs _ _ _ _ F n).
  - intros q Hq. by rewrite (ef_others _ _ _ _ G), (ef_others _ _ _ _ F).
  - intros d3 H3. destruct (ef_dest _ _ _ _ G d3 H3) as (d2 & H2 & E2). destruct (ef_dest _ _ _ _ F d2 H2) as (d1 & H1 & E1).
    exists d1. split; [done|]. intros x [->|Hx]%E2; [by left|by apply E1].
  - intros x e Hx He. destruct (ef_routes _ _ _ _ F x e Hx He) as (e2 & H2 & E2).
    destruct (ef_routes _ _ _ _ G x e2 Hx H2) as (e3 & H3 & E3). exists e3. split; [done|congruence].
  - intros e He. destruct (ef_own _ _ _ _ F e He) as (e2 & H2 & E2). destruct (ef_own _ _ _ _ G e2 H2) as (e3 & H3 & E3).
    exists e3. split; [done|congruence].
  - intros q Hq. by apply (ef_alive _ _ _ _ G), (ef_alive _ _ _ _ F).
  - pose proof (ef_next _ _ _ _ F). pose proof (ef_next _ _ _ _ G). lia.
  - destruct (ef_work _ _ _ _ F) as [w1 E1], (ef_work _ _ _ _ G) as [w2 E2]. exists (w1 ++ w2). by rewrite E2, E1, app_assoc.
  - intros d1 H1. destruct (ef_kept _ _ _ _ F d1 H1) as (d2 & H2 & S2). destruct (ef_kept _ _ _ _ G d2 H2) as (d3 & H3 & S3).
    exists d3. auto.
Qed.

Lemma table_wf_event p r s s' : event_frame p r s s' -> table_wf s -> table_wf s'.
Proof.
  intros F W. destruct (event_table _ _ _ _ F) as (E1 & E2 & _).
  by apply (table_wf_keep s); [| | |apply F|apply F].
Qed.

(** An event that stores its route. *)
Lemma wp_event_ok msg r d e s (Q : eigrp_fsm_action_message -> eigrp_instance -> Prop) :
  store_ok s -> msg_ok s msg r d e ->
  (forall m s' c d1 e1 d' ws, transient_route m = transient_route msg -> store_ok s' -> event_frame (msg_prefix msg) r s s' ->
     dual_step s msg r d e s' c d1 e1 d' ws -> Q m s') ->
  wp (eigrp_fsm_event msg) Q s.
Proof.
  intros [W T M] Hok HQ. eapply wp_fsm_event_msg; [done|done|exact Hok|].
  intros m s' c d1 e1 d' ws Et Hs. pose proof Hs as (s1 & Hu & Ho & Hoc).
  assert (event_frame (msg_prefix msg) r s s') as F.
  { eapply event_frame_trans; [eapply updated_event_frame; [exact Hu|apply Hok|apply Hok]|].
    eapply dual_event_frame; [exact Ho|by eapply du_prefix|by eapply outcome_routes]. }
  eapply HQ; [exact Et| |exact F|exact Hs]. split; [eapply step_wf; [apply Hok|exact Hs]|by eapply table_wf_event|].
  apply (do_frame _ _ _ _ _ Ho), Hu.
Qed.

(** An event whose route is not admitted. *)
Lemma wp_event_transient msg r d e s (Q : eigrp_fsm_action_message -> eigrp_instance -> Prop) :
  store_ok s -> transient_ok s msg r d e ->
  (forall m s' d' ws, transient_route m = true -> store_ok s' -> event_frame (msg_prefix msg) r s s' -> topology_routes d' = topology_routes d ->
     dual_out (msg_prefix msg) s s' d' ws -> dual_outcome s (msg_prefix msg) msg METRIC_SAME d e d' ws -> Q m s') ->
  wp (eigrp_fsm_event msg) Q s.
Proof.
  intros [W T M] Hok HQ. eapply wp_fsm_event_transient; [done|done|exact Hok|].
  intros m s' d' ws Et Ho Hoc. pose proof (outcome_routes _ _ _ _ _ _ _ _ Hoc) as Er.
  assert (event_frame (msg_prefix msg) r s s') as F by (eapply dual_event_frame; [exact Ho|apply Hok|done]).
  eapply HQ; [exact Et| |exact F|done|done|done]. split; [|by eapply table_wf_event|by apply (do_frame _ _ _ _ _ Ho)].
  eapply instance_wf_frame; [done|apply Ho|rewrite (to_prefix _ _ _ _ _ Hok); eauto|apply Ho|].
  eapply outcome_dest_wf; [|apply Hok|exact Hoc]. apply W, Hok.
Qed.

(** ** Changes outside the destinations *)

(** Only the packetizer queue grew. *)
Definition with_queue (s : eigrp_instance) (q : list eigrp_packetizer_work) : eigrp_instance :=
  {| s with packetizer_queue := q |}.

Lemma store_ok_queue s q : store_ok s -> store_ok (with_queue s q).
Proof.
  intros [W T M]. split; [|by apply (table_wf_keep s)|done].
  destruct W as [W1 W2 W3 W4 W5 W6]. split; try done.
  intros p d Hd. destruct (W1 p d Hd) as [H1 H2 H3 H4 H5 H6 H7]. by split.
Qed.

(** A change of scalar fields of one destination. *)
Lemma store_ok_dest s p d d' :
  store_ok s -> prefixes s !! p = Some d -> dest_wf s p d' -> store_ok (set_prefix s p d').
Proof.
  intros [W T M] Hd Hd'. split; [|eapply table_wf_frame; [apply (frame_set_prefix p)|done]|done].
  eapply instance_wf_frame; [exact W|apply frame_set_prefix|eauto|apply set_prefix_lookup|done].
Qed.

Lemma wp_enqueue_plain w s (Q : unit -> eigrp_instance -> Prop) :
  has_flag (work_flags w) EIGRP_PACKETIZER_WORK_F_OWN_ROUTE = false ->
  has_flag (work_flags w) EIGRP_PACKETIZER_WORK_F_OWN_PREFIX = false ->
  eigrp_packetizer_opcode_valid (work_opcode w) = true ->
  Q tt (with_queue s (packetizer_queue s ++ enqueued s w)) -> wp (eigrp_packetizer_enqueue w) Q s.
Proof.
  intros H1 H2 Hv HQ. unfold eigrp_packetizer_enqueue. rewrite Hv. cbn [negb]. wp_simpl.
  unfold enqueued in HQ. destruct (shutdown s || negb (thread_running s)).
  - unfold eigrp_packetizer_work_free. rewrite H1, H2. wp_simpl. rewrite app_nil_r in HQ. by destruct s.
  - by wp_simpl.
Qed.

Lemma wp_count_changes action l s (Q : Z -> eigrp_instance -> Prop) :
  (forall p, p ∈ l -> is_Some (prefixes s !! p)) -> (forall c, Q c s) -> wp (count_pending action l) Q s.
Proof.
  revert Q. induction l as [|p l IH]; intros Q Hl HQ; cbn [count_pending]; [by wp_simpl|].
  destruct (Hl p) as [d Hd]; [by left|]. rewrite wp_bind, wp_get_prefix by exact Hd. rewrite wp_bind.
  apply IH; [intros q Hq; apply Hl; by right|]. intros c. by wp_simpl.
Qed.

Lemma wp_query_send_all s (Q : Z -> eigrp_instance -> Prop) :
  store_ok s -> (forall c ws, Q c (with_queue s (packetizer_queue s ++ ws))) -> wp eigrp_query_send_all Q s.
Proof.
  intros [W T M] HQ. unfold eigrp_query_send_all. rewrite wp_bind, wp_gets, wp_bind.
  apply wp_count_changes; [apply W|]. intros c. destruct (c =? 0).
  - wp_simpl. specialize (HQ 0 []). rewrite app_nil_r in HQ. by destruct s.
  - unfold eigrp_packetizer_work_create. wp_simpl. apply wp_enqueue_plain; [done..|]. wp_simpl. apply HQ.
Qed.

Lemma wp_send_all x s (Q : unit -> eigrp_instance -> Prop) :
  store_ok s -> (forall ws, Q tt (with_queue s (packetizer_queue s ++ ws))) -> wp (eigrp_update_send_all x) Q s.
Proof.
  intros [W T M] HQ. unfold eigrp_update_send_all, eigrp_packetizer_work_create. wp_simpl.
  apply wp_enqueue_plain; [done..|]. apply HQ.
Qed.
End events.
