(* ===== verification/NeighborDown.v ===== *)
(** * The topology's side of a lost neighbor (eigrp_topology.c)

    Every destination is told once that a neighbor is gone: a REPLY it was owed is
    dropped, its path is poisoned through DUAL, or, without a path, its pending REPLY is
    counted as received.  A suspension of the address family does the same for all
    suspended neighbors in one pass over the table. *)

From Stdlib Require Import ZArith Lia.
From stdpp Require Import base gmap list.
From S2P Require Import Prelude Types Metric Prefix State Topology Fsm.

(** The message that poisons route [r] of neighbor [n]. *)
Definition poison_message (p n r : ptr) (prefix : eigrp_prefix_descriptor) (route : eigrp_route_descriptor)
    : eigrp_fsm_action_message :=
  let m := zero_message p in
  {| m with msg_metrics := {| zero_metrics with delay := EIGRP_MAX_METRIC |};
     packet_type := if is_passive (pd_state prefix) then EIGRP_OPC_UPDATE else EIGRP_OPC_REPLY;
     data_type := if eigrp_topology_route_external route then EIGRP_EXT else EIGRP_INT;
     msg_adv_router := Some n; msg_route := Some r |}.

(** The path of [n] is poisoned; without one, its REPLY counts as received. *)
Definition peer_leave (p n : ptr) : St unit :=
  route ← eigrp_prefix_descriptor_lookup p (Some n);
  match route with
  | Some r =>
      prefix ← get_prefix p;
      route ← get_route r;
      _ ← eigrp_fsm_event (poison_message p n r prefix route);
      mret tt
  | None => eigrp_fsm_neighbor_down p n
  end.

(** The loop's body of [eigrp_topology_neighbor_down]. *)
Definition neighbor_down_node (n t : ptr) : St unit :=
  rn ← get_tnode t;
  match tn_info rn with
  | None => mret tt
  | Some p =>
      prefix ← get_prefix p;
      when (opt_ptr_eqb (query_origin prefix) (Some n)) (put_prefix p {| prefix with query_origin := None |});;
      peer_leave p n
  end.

Definition eigrp_topology_neighbor_down (n : ptr) : St unit :=
  nodes ← gets topology_table;
  mfor nodes (neighbor_down_node n);;
  _ ← eigrp_query_send_all;
  nbr ← get_nbr n;
  eigrp_update_send_all (nbr_ei nbr).

(** ** Suspension of the address family *)

(** [limit_state] 0 is [EIGRP_NBR_LIMIT_NONE]. *)
Definition suspended_nbr (nbr : eigrp_nbr) : bool :=
  nbr_published nbr && af_suspended nbr && (nbr_limit_state nbr =? 0).

Definition eigrp_topology_suspended_peer (n : option ptr) : St bool :=
  match n with
  | None => mret false
  | Some n => nbr ← get_nbr n; mret (suspended_nbr nbr)
  end.

(** The assertion that the array has room aborts the process. *)
Definition eigrp_topology_suspended_peer_add (capacity : nat) (peers : list ptr) (n : option ptr) : St (list ptr) :=
  match n with
  | None => mret peers
  | Some n =>
      nbr ← get_nbr n;
      if negb (suspended_nbr nbr) || topo_batch_seen nbr then mret peers
      else if (capacity <=? length peers)%nat then ub
      else put_nbr n {| nbr with topo_batch_seen := true |};; mret (peers ++ [n])
  end.

Fixpoint suspended_owners (capacity : nat) (peers : list ptr) (l : list ptr) : St (list ptr) :=
  match l with
  | [] => mret peers
  | r :: l' =>
      route ← get_route r;
      peers ← eigrp_topology_suspended_peer_add capacity peers (rd_adv_router route);
      suspended_owners capacity peers l'
  end.

Fixpoint suspended_awaited (capacity : nat) (peers : list ptr) (l : list eigrp_reply_status) : St (list ptr) :=
  match l with
  | [] => mret peers
  | status :: l' =>
      peers ← eigrp_topology_suspended_peer_add capacity peers (Some (rs_neighbor status));
      suspended_awaited capacity peers l'
  end.

Definition suspended_down_node (capacity : nat) (t : ptr) : St unit :=
  rn ← get_tnode t;
  match tn_info rn with
  | None => mret tt
  | Some p =>
      prefix ← get_prefix p;
      gone ← eigrp_topology_suspended_peer (query_origin prefix);
      when gone (put_prefix p {| prefix with query_origin := None |});;
      peers ← suspended_owners capacity [] (topology_routes prefix);
      peers ← suspended_awaited capacity peers (rij prefix);
      (* the marks are cleared before any event *)
      mfor peers (fun n => upd_nbr n (fun d => {| d with topo_batch_seen := false |}));;
      mfor peers (peer_leave p)
  end.

Definition eigrp_topology_suspended_neighbors_down (capacity : nat) : St unit :=
  if (capacity =? 0)%nat then mret tt
  else
    nodes ← gets topology_table;
    mfor nodes (suspended_down_node capacity);;
    _ ← eigrp_query_send_all;
    eigrp_update_send_all None.

(** The destinations to which [n] has a path, in table order; an allocation for each
    item. *)
Fixpoint nbr_prefixes (n : ptr) (nodes : list ptr) : St (list ptr) :=
  match nodes with
  | [] => mret []
  | t :: nodes' =>
      rn ← get_tnode t;
      match tn_info rn with
      | None => nbr_prefixes n nodes'
      | Some p =>
          route ← eigrp_prefix_descriptor_lookup p (Some n);
          match route with
          | None => nbr_prefixes n nodes'
          | Some _ =>
              ok ← calloc;
              rest ← nbr_prefixes n nodes';
              mret (if ok : bool then p :: rest else rest)
          end
      end
  end.

(** [None]: the list could not be allocated, and the walk only reads. *)
Definition eigrp_nbr_prefixes_lookup (n : ptr) : St (option (list ptr)) :=
  ok ← calloc;
  if ok : bool then
    nodes ← gets topology_table;
    l ← nbr_prefixes n nodes;
    mret (Some l)
  else mret None.
