(* ===== verification/NeighborDownProps.v ===== *)
(** * Theorems on lost neighbors

    After [eigrp_topology_neighbor_down] no destination of the table owes the neighbor a
    REPLY or awaits one from it, and each of its paths is unreachable. *)

From Stdlib Require Import ZArith Lia.
From stdpp Require Import base gmap list sorting.
From S2P Require Import Prelude Types Metric Prefix State Topology Fsm Store Marking Frame Handlers Invariant Distance Dual Network DualProps Completion Table Events NeighborDown.

(** Destination [d] holds nothing of neighbor [n] but unreachable paths. *)
Record released (n : ptr) (s : eigrp_instance) (d : eigrp_prefix_descriptor) : Prop := {
  rl_origin : query_origin d <> Some n;
  rl_awaited : pd_state d = EIGRP_FSM_STATE_PASSIVE \/ n ∉ rs_neighbor <$> rij d;
  rl_routes : forall x e, x ∈ topology_routes d -> routes s !! x = Some e -> rd_adv_router e = Some n ->
    delay (rd_reported_metric e) = EIGRP_MAX_METRIC;
}.

(** A neighbor has one path to a destination. *)
Definition single_path (n : ptr) (s : eigrp_instance) : Prop :=
  forall p d x y ex ey, prefixes s !! p = Some d -> x ∈ topology_routes d -> y ∈ topology_routes d ->
    routes s !! x = Some ex -> routes s !! y = Some ey ->
    rd_adv_router ex = Some n -> rd_adv_router ey = Some n -> x = y.

(** What the neighbor's destinations and paths keep: a PASSIVE destination does not carry it
    in its reply set, and a path that is reported unreachable is measured so. *)
Record clean (n : ptr) (s : eigrp_instance) : Prop := {
  cl_idle : forall p d, prefixes s !! p = Some d -> pd_state d = EIGRP_FSM_STATE_PASSIVE -> n ∉ rs_neighbor <$> rij d;
  cl_measured : forall p d x e, prefixes s !! p = Some d -> x ∈ topology_routes d -> routes s !! x = Some e ->
    rd_adv_router e = Some n -> delay (rd_reported_metric e) = EIGRP_MAX_METRIC -> rd_distance e = EIGRP_MAX_METRIC;
}.

(** The neighbor is gone from destination [d]: no REPLY is owed to it or awaited from it,
    and the distance of each of its paths is infinite. *)
Record parted (n : ptr) (s : eigrp_instance) (d : eigrp_prefix_descriptor) : Prop := {
  pa_origin : query_origin d <> Some n;
  pa_awaited : n ∉ rs_neighbor <$> rij d;
  pa_routes : forall x e, x ∈ topology_routes d -> routes s !! x = Some e -> rd_adv_router e = Some n ->
    delay (rd_reported_metric e) = EIGRP_MAX_METRIC /\ rd_distance e = EIGRP_MAX_METRIC;
}.

Lemma released_parted n p s d : clean n s -> prefixes s !! p = Some d -> released n s d -> parted n s d.
Proof.
  intros [C1 C2] Hd [R1 R2 R3]. split; [done|destruct R2 as [Hp|]; [by apply (C1 p)|done]|].
  intros x e Hx He Ha. split; [by eapply R3|]. eapply C2; eauto.
Qed.

Section leave.
Implicit Types s : eigrp_instance.

(** [d] does not wait for [n]. *)
Definition unawaited (n : ptr) (d : eigrp_prefix_descriptor) : Prop :=
  pd_state d = EIGRP_FSM_STATE_PASSIVE \/ n ∉ rs_neighbor <$> rij d.

(** No deferred REPLY is added, and no neighbor is awaited that was not. *)
Definition settles (d d' : eigrp_prefix_descriptor) : Prop :=
  (query_origin d' = query_origin d \/ query_origin d' = None) /\ (forall m, unawaited m d -> unawaited m d')
  /\ rs_neighbor <$> rij d' ⊆ rs_neighbor <$> rij d.

Lemma settles_closed d d' :
  (query_origin d' = query_origin d \/ query_origin d' = None) ->
  pd_state d' = EIGRP_FSM_STATE_PASSIVE /\ rij d' = rij d \/ rij d' = [] -> settles d d' /\ forall m, unawaited m d'.
Proof.
  intros Ho Hr. assert (forall m, unawaited m d') by (intros m; destruct Hr as [[? _]|Hr]; [by left|right; rewrite Hr; apply not_elem_of_nil]).
  split; [|done]. split; [done|]. split; [done|]. destruct Hr as [[_ ->]| ->]; [done|]. by intros x ?%not_elem_of_nil.
Qed.

Lemma settles_diffuse s p d d' ws : diffuse_outcome s p d d' ws -> settles d d' /\ forall m, unawaited m d'.
Proof.
  unfold diffuse_outcome. destruct (_ =? 0); intros [-> _]; apply settles_closed;
    [by right|by right|by left|by right].
Qed.

Lemma settles_remove n d d' :
  query_origin d' = query_origin d -> pd_state d' = pd_state d -> NoDup (rs_neighbor <$> rij d) ->
  rij d' = remove_first (rs_for n) (rij d) -> settles d d' /\ unawaited n d'.
Proof.
  intros Eo Es Hnd Er. split; [|right; rewrite Er; by apply remove_first_notin].
  assert (rs_neighbor <$> rij d' ⊆ rs_neighbor <$> rij d) as Hsub.
  { rewrite Er. intros x Hx. eapply elem_of_sublist; [exact Hx|]. apply fmap_sublist, remove_first_sublist. }
  split; [by left|]. split; [|done]. intros m [H|H]; [left; congruence|right]. intros Hm. by apply H, Hsub.
Qed.

(** What an event that is no QUERY leaves of neighbor [n], whose route it is about. *)
Lemma outcome_leaves s p msg c d1 e1 d' ws n :
  dual_outcome s p msg c d1 e1 d' ws -> packet_type msg <> EIGRP_OPC_QUERY ->
  packet_type msg = EIGRP_OPC_REPLY \/ pd_state d1 = EIGRP_FSM_STATE_PASSIVE ->
  rd_adv_router e1 = Some n -> NoDup (rs_neighbor <$> rij d1) -> settles d1 d' /\ unawaited n d'.
Proof.
  intros Hoc Hq Hr Hn Hnd.
  assert (Hcl : forall d2, settles d1 d2 /\ (forall m, unawaited m d2) -> settles d1 d2 /\ unawaited n d2) by (intros d2 [? ?]; auto).
  destruct Hoc as [r e Hst|ws Hst|d' ws Hst ? ? ? ? H|d' ws ? ? ? ? Hp|Hst Hp|r e Hst Hp|d' ws Hst Hp ? ? H|Hst Hp|Hst Hp].
  - apply Hcl, settles_closed; unfold passive_desc; destruct (eigrp_metrics_match _ _); simpl; auto.
  - destruct Hr as [Hr|Hr]; [|by rewrite Hr in Hst].
    apply settles_remove; try done; unfold settle; rewrite Hr, Hn; unfold is_passive; rewrite bool_decide_eq_false_2 by done; done.
  - apply Hcl. apply settles_diffuse in H as [(? & _ & ?) H']. split; [split; [|split]|]; auto.
  - done.
  - apply Hcl, settles_closed; [by right|by right].
  - apply Hcl, settles_closed; [by right|by right].
  - apply Hcl. apply settles_diffuse in H as [(Ho & _ & Hsub) H']. simpl in Ho, Hsub. rewrite settle_origin in Ho.
    split; [split; [|split]|]; auto. intros x Hx%Hsub. eapply elem_of_sublist; [exact Hx|]. apply fmap_sublist.
    unfold settle. destruct (_ && _), (rd_adv_router e1); [apply remove_first_sublist|done..].
  - done.
  - destruct Hr as [Hr|Hr]; [by rewrite Hp in Hr|]. destruct Hst as [E|E]; by rewrite E in Hr.
Qed.

Lemma completion_leaves s p n d d' ws :
  completion s p (discharged n d) d' ws -> NoDup (rs_neighbor <$> rij d) -> settles d d' /\ unawaited n d'.
Proof.
  intros Hc Hnd.
  assert (Hcl : forall d2, settles d d2 /\ (forall m, unawaited m d2) -> settles d d2 /\ unawaited n d2) by (intros d2 [? ?]; auto).
  destruct Hc as [?|? ?|? ? ? ?|? ? ? ? ? Hdf].
  - by apply settles_remove.
  - apply Hcl, settles_closed; [by right|by right].
  - apply Hcl, settles_closed; [by right|by right].
  - apply Hcl. apply settles_diffuse in Hdf as [(? & _ & Hsub) H']. split; [split; [|split]|]; auto.
    intros x Hx%Hsub. eapply elem_of_sublist; [exact Hx|]. apply fmap_sublist, remove_first_sublist.
Qed.

(** A destination that ends PASSIVE has an empty reply set, or was PASSIVE and kept it. *)
Definition idles (d d' : eigrp_prefix_descriptor) : Prop :=
  pd_state d' = EIGRP_FSM_STATE_PASSIVE -> rij d' = [] \/ pd_state d = EIGRP_FSM_STATE_PASSIVE /\ rij d' = rij d.

Lemma diffuse_idles s p d d' ws d0 : diffuse_outcome s p d d' ws -> idles d0 d'.
Proof. unfold diffuse_outcome. destruct (_ =? 0); intros [-> _] _; by left. Qed.

Lemma outcome_idles s p msg c d1 e1 d' ws : dual_outcome s p msg c d1 e1 d' ws -> idles d1 d'.
Proof.
  destruct 1 as [r e Hst|ws Hst|? ? ? ? ? ? ? H|? ? ? ? ? ? ? H| | |? ? ? ? ? ? H|Hst|Hst]; try (by eapply diffuse_idles); try (by left).
  - intros _. right. unfold passive_desc. by destruct (eigrp_metrics_match _ _).
  - intros E. rewrite settle_state in E. by rewrite E in Hst.
  - intros E. unfold dinc_state in E. simpl in E. by case_bool_decide.
Qed.

Lemma completion_idles s p n d d' ws :
  is_active (pd_state d) -> completion s p (discharged n d) d' ws -> idles d d'.
Proof. intros Ha. destruct 1 as [?| | |? ? ? ? ? H]; [intros E; simpl in E; by rewrite E in Ha|by left|by left|by eapply diffuse_idles]. Qed.

(** The poison reaches the route whatever its interface. *)
Lemma poison_inbound s msg e :
  delay (msg_metrics msg) = EIGRP_MAX_METRIC -> is_Some (updated_route s msg e).
Proof.
  intros H. assert (is_Some (reported_route s (msg_metrics msg) e)) as Hr.
  { unfold reported_route, eigrp_metric_total_calculate. rewrite H. simpl. eauto. }
  unfold updated_route. destruct (data_type msg); [eauto|done|]. destruct (is_local s e); eauto.
Qed.

Lemma updated_poison s msg r d e s1 c d1 e1 :
  distance_updated s msg r d e s1 c d1 e1 -> data_type msg <> EIGRP_CONNECTED ->
  delay (msg_metrics msg) = EIGRP_MAX_METRIC -> delay (rd_reported_metric e1) = EIGRP_MAX_METRIC.
Proof.
  intros Hu Hd Hm. destruct (du_route _ _ _ _ _ _ _ _ _ Hu) as [(-> & _ & [?|H])|[H _]]; [done| |].
  - simpl. unfold eigrp_metrics_match in H. rewrite !andb_true_iff, !Z.eqb_eq in H. destruct_and! H. congruence.
  - by rewrite (updated_route_metric _ _ _ _ H).
Qed.

(** A poisoned route is at an infinite distance. *)
Lemma reported_poison s m e e' : delay m = EIGRP_MAX_METRIC -> reported_route s m e = Some e' -> rd_distance e' = EIGRP_MAX_METRIC.
Proof. intros Hm. unfold reported_route, eigrp_metric_total_calculate. rewrite Hm. simpl. by intros [= <-]. Qed.

Lemma distance_poison s msg r d e s1 c d1 e1 :
  distance_updated s msg r d e s1 c d1 e1 -> data_type msg <> EIGRP_CONNECTED -> delay (msg_metrics msg) = EIGRP_MAX_METRIC ->
  (delay (rd_reported_metric e) = EIGRP_MAX_METRIC -> rd_distance e = EIGRP_MAX_METRIC) -> rd_distance e1 = EIGRP_MAX_METRIC.
Proof.
  intros Hu Hd Hm He. destruct (du_route _ _ _ _ _ _ _ _ _ Hu) as [(-> & _ & [?|H])|[H _]]; [done| |].
  - simpl. apply He. unfold eigrp_metrics_match in H. rewrite !andb_true_iff, !Z.eqb_eq in H. destruct_and! H. congruence.
  - unfold updated_route in H. destruct (data_type msg); [done|by eapply reported_poison|]. destruct (is_local _ _); [|by eapply reported_poison].
    injection H as <-. unfold local_route, eigrp_topology_redistributed_distance. simpl. by rewrite Hm.
Qed.

(** Route [r] is of destination [p], if it is live. *)
Definition owned (p r : ptr) s : Prop := forall e, routes s !! r = Some e -> rd_prefix e = Some p.

(** The paths of [s'] are paths of [s], with the same owners. *)
Definition paths_keep s s' : Prop :=
  forall q d' x e', prefixes s' !! q = Some d' -> x ∈ topology_routes d' -> routes s' !! x = Some e' ->
    exists d e, prefixes s !! q = Some d /\ x ∈ topology_routes d /\ routes s !! x = Some e
                /\ rd_adv_router e' = rd_adv_router e.

Lemma single_path_keep n s s' : paths_keep s s' -> single_path n s -> single_path n s'.
Proof.
  intros K S p d' x y ex ey Hd Hx Hy Ex Ey Ax Ay.
  destruct (K p d' x ex Hd Hx Ex) as (d & e1 & Hd1 & Hx1 & Ex1 & E1).
  destruct (K p d' y ey Hd Hy Ey) as (d2 & e2 & Hd2 & Hy2 & Ey2 & E2).
  rewrite Hd1 in Hd2. injection Hd2 as <-. by eapply S; [exact Hd1|exact Hx1|exact Hy2|exact Ex1|exact Ey2|congruence..].
Qed.

(** The same paths up to what events change of them, and the same neighbors. *)
Record paths_same s s' : Prop := {
  pt_keep : paths_keep s s';
  pt_kept : forall q d, prefixes s !! q = Some d ->
    exists d', prefixes s' !! q = Some d' /\ forall x, x ∈ topology_routes d -> x ∈ topology_routes d';
  pt_nbrs : nbrs_keep s s';
}.

Lemma paths_same_refl s : paths_same s s.
Proof. split; [|by eauto|done]. intros q d x e Hd Hx He. by exists d, e. Qed.

Lemma paths_same_trans s1 s2 s3 : paths_same s1 s2 -> paths_same s2 s3 -> paths_same s1 s3.
Proof.
  intros [A1 B1 C1] [A2 B2 C2]. split.
  - intros q d x e Hd Hx He. destruct (A2 q d x e Hd Hx He) as (d2 & e2 & Hd2 & Hx2 & He2 & E2).
    destruct (A1 q d2 x e2 Hd2 Hx2 He2) as (d1 & e1 & Hd1 & Hx1 & He1 & E1). exists d1, e1. split; [done|]. split; [done|]. split; [done|congruence].
  - intros q d Hd. destruct (B1 q d Hd) as (d2 & Hd2 & H2). destruct (B2 q d2 Hd2) as (d3 & Hd3 & H3). exists d3. auto.
  - intros m. by rewrite (C2 m), (C1 m).
Qed.

(** The paths of the destinations an event is not about. *)
Lemma event_other_route p r q d x e s s' :
  store_ok s -> event_frame p r s s' -> owned p r s -> q <> p -> prefixes s !! q = Some d -> x ∈ topology_routes d ->
  routes s !! x = Some e -> exists e', routes s' !! x = Some e' /\ strip_flags e' = strip_flags e.
Proof.
  intros O F Hr Hq Hd Hx He. apply (ef_routes _ _ _ _ F); [|done]. intros ->.
  destruct (dw_routes _ _ _ (iw_dests _ (so_wf _ O) _ _ Hd) _ Hx) as (e0 & He0 & _ & Hp).
  rewrite He0 in He. injection He as <-. rewrite (Hr _ He0) in Hp. by injection Hp.
Qed.

Lemma event_paths_keep p r s s' :
  store_ok s -> event_frame p r s s' -> owned p r s ->
  (forall d' x e', prefixes s' !! p = Some d' -> x ∈ topology_routes d' -> routes s' !! x = Some e' ->
     exists d e, prefixes s !! p = Some d /\ x ∈ topology_routes d /\ routes s !! x = Some e
                 /\ rd_adv_router e' = rd_adv_router e) ->
  paths_keep s s'.
Proof.
  intros O F Hr Hp q d' x e' Hd' Hx He'. destruct (decide (q = p)) as [->|Hne]; [by eapply Hp|].
  rewrite (ef_others _ _ _ _ F q Hne) in Hd'.
  destruct (dw_routes _ _ _ (iw_dests _ (so_wf _ O) _ _ Hd') _ Hx) as (e & He & _).
  destruct (event_other_route p r q d' x e s s' O F Hr Hne Hd' Hx He) as (e2 & He2 & E).
  rewrite He2 in He'. injection He' as <-. exists d', e. split; [done|]. split; [done|]. split; [done|].
  by apply strip_flags_eq in E as (_ & _ & _ & -> & _).
Qed.

(** An event of another destination. *)
Lemma released_other n p r q d s s' :
  store_ok s -> event_frame p r s s' -> owned p r s -> q <> p -> prefixes s !! q = Some d ->
  released n s d -> released n s' d.
Proof.
  intros O F Hr Hne Hd [R1 R2 R3]. split; [done|done|]. intros x e' Hx He' Hn.
  destruct (dw_routes _ _ _ (iw_dests _ (so_wf _ O) _ _ Hd) _ Hx) as (e & He & _).
  destruct (event_other_route p r q d x e s s' O F Hr Hne Hd Hx He) as (e2 & He2 & E).
  rewrite He2 in He'. injection He' as <-. apply strip_flags_eq in E as (_ & _ & _ & Ea & _ & _ & _ & Em).
  rewrite Em. eapply R3; [done|done|congruence].
Qed.

(** An event keeps the neighbor's other destinations and paths as they are. *)
Lemma event_clean p r n d d' s s' :
  store_ok s -> event_frame p r s s' -> owned p r s -> clean n s -> prefixes s !! p = Some d -> prefixes s' !! p = Some d' ->
  idles d d' ->
  (forall x e', x ∈ topology_routes d' -> routes s' !! x = Some e' -> rd_adv_router e' = Some n ->
     delay (rd_reported_metric e') = EIGRP_MAX_METRIC -> rd_distance e' = EIGRP_MAX_METRIC) -> clean n s'.
Proof.
  intros O F Hr [C1 C2] Hd Hd' Hi Hm. split.
  - intros q dq Hq Es. destruct (decide (q = p)) as [->|Hne]; [|rewrite (ef_others _ _ _ _ F q Hne) in Hq; by apply (C1 q)].
    rewrite Hd' in Hq. injection Hq as <-. destruct (Hi Es) as [->|[Ep ->]]; [apply not_elem_of_nil|by apply (C1 p)].
  - intros q dq x e' Hq Hx He' Ha Hdel. destruct (decide (q = p)) as [->|Hne]; [rewrite Hd' in Hq; injection Hq as <-; by eapply Hm|].
    rewrite (ef_others _ _ _ _ F q Hne) in Hq. destruct (dw_routes _ _ _ (iw_dests _ (so_wf _ O) _ _ Hq) _ Hx) as (e & He & _).
    destruct (event_other_route p r q dq x e s s' O F Hr Hne Hq Hx He) as (e2 & He2 & E). rewrite He2 in He'. injection He' as <-.
    apply strip_flags_eq in E as (Ed & _ & _ & Ea & _ & _ & _ & Em). rewrite Ed. eapply (C2 q dq x e); [done..| |]; congruence.
Qed.

Section one_peer.
Context (p n : ptr) (d : eigrp_prefix_descriptor) (s : eigrp_instance).
Hypothesis O : store_ok s.
Hypothesis Hd : prefixes s !! p = Some d.
Hypothesis Hn : is_Some (nbrs s !! n).
Hypothesis Ho : query_origin d <> Some n.
Hypothesis Hs : single_path n s.

Let W : dest_wf s p d := iw_dests _ (so_wf _ O) _ _ Hd.

Definition left_store (s' : eigrp_instance) : Prop :=
  exists r d', store_ok s' /\ event_frame p r s s' /\ owned p r s
    /\ (forall e, routes s !! r = Some e -> rd_adv_router e = Some n) /\ paths_keep s s'
    /\ prefixes s' !! p = Some d' /\ released n s' d' /\ settles d d'.

(** A route of [d] that is not the event's own. *)
Lemma event_path_keep r x ex e2 s' :
  event_frame p r s s' -> x <> r -> x ∈ topology_routes d -> routes s !! x = Some ex -> routes s' !! x = Some e2 ->
  exists d e, prefixes s !! p = Some d /\ x ∈ topology_routes d /\ routes s !! x = Some e /\ rd_adv_router e2 = rd_adv_router e.
Proof.
  intros F Hne Hx Hex He2. destruct (ef_routes _ _ _ _ F x ex Hne Hex) as (e3 & He3 & E). rewrite He3 in He2. injection He2 as <-.
  exists d, ex. split; [done|]. split; [done|]. split; [done|]. by apply strip_flags_eq in E as (_ & _ & _ & -> & _).
Qed.

Lemma wp_peer_poison r e (Q : eigrp_fsm_action_message -> eigrp_instance -> Prop) :
  r ∈ topology_routes d -> routes s !! r = Some e -> rd_adv_router e = Some n ->
  (forall m s', left_store s' -> (clean n s -> clean n s') -> Q m s') -> wp (eigrp_fsm_event (poison_message p n r d e)) Q s.
Proof.
  intros Hr He Ha HQ. destruct (dw_routes _ _ _ W r Hr) as (e0 & He0 & Hlk & Hown). rewrite He in He0. injection He0 as <-.
  set (msg := poison_message p n r d e).
  assert (data_type msg <> EIGRP_CONNECTED) as Hdt by (simpl; by destruct (eigrp_topology_route_external e)).
  assert (msg_ok s msg r d e) as Hok by (split; try done; [by right|by intros m [= <-]|by apply poison_inbound]).
  eapply wp_event_ok; [done|exact Hok|]. change (msg_prefix msg) with p.
  intros m s' c d1 e1 d' ws _ O' F (s1 & Hu & Hout & Hoc). change (msg_prefix msg) with p in *.
  pose proof (outcome_routes _ _ _ _ _ _ _ _ Hoc) as Er.
  destruct (df_routes _ _ _ (do_frame _ _ _ _ _ Hout) r e1) as (e' & He' & E); [by eapply du_desc|].
  apply strip_flags_eq in E as (Ed & _ & _ & Ea & _ & _ & _ & Em).
  rewrite (du_adv_router _ _ _ _ _ _ _ _ _ n Hu Ha) in Ea.
  assert (owned p r s) as Hrown by (intros e0 He0; rewrite He in He0; by injection He0 as <-).
  assert (paths_keep s s') as K.
  { apply (event_paths_keep p r); [done|done|done|]. intros d2 x e2 Hd2 Hx He2.
    rewrite (do_prefix _ _ _ _ _ Hout) in Hd2. injection Hd2 as <-. destruct (decide (x = r)) as [->|Hne].
    - rewrite He' in He2. injection He2 as <-. exists d, e. split; [done|]. split; [done|]. split; [done|]. congruence.
    - rewrite Er in Hx. apply (du_queues _ _ _ _ _ _ _ _ _ Hu) in Hx as [->|Hx]; [done|].
      destruct (dw_routes _ _ _ W x Hx) as (ex & Hex & _). by eapply event_path_keep. }
  assert (single_path n s') as Hs' by (by eapply single_path_keep).
  assert (clean n s -> clean n s') as Hclean.
  { intros C. eapply event_clean; [exact O|exact F|exact Hrown|exact C|exact Hd|apply Hout| |].
    - destruct (hide_queues_fields _ _ (du_scalars _ _ _ _ _ _ _ _ _ Hu)) as (Est & _ & Erij & _).
      intros Ep. destruct (outcome_idles _ _ _ _ _ _ _ _ Hoc Ep) as [?|[E1 E2]]; [by left|right; by rewrite <-Est, <-Erij].
    - intros x e2 Hx He2 Hn2 _. assert (x = r) as ->.
      { eapply (Hs' p d'); [apply Hout|exact Hx| |exact He2|exact He'|done|done]. rewrite Er. apply Hu. }
      rewrite He' in He2. injection He2 as <-. rewrite Ed. eapply distance_poison; [exact Hu|exact Hdt|done|].
      intros Hdel. by eapply (cl_measured _ _ C p d r e). }
  apply HQ; [|done]. exists r, d'. do 3 (split; [done|]). split; [intros e0 He0; rewrite He in He0; by injection He0 as <-|].
  split; [done|]. split; [apply Hout|].
  destruct (hide_queues_fields _ _ (du_scalars _ _ _ _ _ _ _ _ _ Hu)) as (Est & Eo & Erij & _).
  destruct (outcome_leaves _ _ _ _ _ _ _ _ n Hoc) as [(L1 & L3 & L4) L2]; [| |by eapply du_adv_router| |].
  - simpl. by destruct (is_passive (pd_state d)).
  - rewrite Est. simpl. unfold is_passive. case_bool_decide; [by right|by left].
  - apply (dw_rij _ _ _ (iw_dests _ (du_wf _ _ _ _ _ _ _ _ _ Hu) _ _ (du_prefix _ _ _ _ _ _ _ _ _ Hu))).
  - assert (settles d d') as Hset.
    { split; [by rewrite <-Eo|]. split; [|by rewrite <-Erij]. intros m' Hm. apply L3. unfold unawaited in *. by rewrite Est, Erij. }
    split; [|done]. split; [destruct (proj1 Hset) as [->| ->]; done|done|]. intros x e2 Hx He2 Hn2.
    assert (x = r) as ->.
    { eapply (Hs' p d'); [apply Hout|exact Hx| |exact He2|exact He'|done|done]. rewrite Er. apply Hu. }
    rewrite He' in He2. injection He2 as <-. rewrite Em. by eapply updated_poison.
Qed.

Lemma wp_peer_silent (Q : unit -> eigrp_instance -> Prop) :
  (forall x e, x ∈ topology_routes d -> routes s !! x = Some e -> rd_adv_router e <> Some n) ->
  (forall s', left_store s' -> (clean n s -> clean n s') -> Q tt s') -> wp (eigrp_fsm_neighbor_down p n) Q s.
Proof.
  intros Hnone HQ. pose proof (so_wf _ O) as Wf.
  assert (forall e, routes s !! next_addr s <> Some e) as Hfree.
  { intros e He. destruct (iw_below _ Wf) as [B _]. specialize (B (next_addr s) (mk_is_Some _ _ He)). lia. }
  assert (owned p (next_addr s) s) as Hown by (intros e He; by destruct (Hfree e)).
  apply (wp_neighbor_down s p n d Wf (so_mem _ O) Hd).
  - intros Haw. apply HQ; [|done]. exists (next_addr s), d. split; [done|].
    split; [apply (dual_event_frame p (next_addr s) s s d d []); [by apply dual_out_refl|done|done]|].
    split; [done|]. split; [intros e He; by destruct (Hfree e)|].
    split; [intros q d' x e' Hq Hx He'; by exists d', e'|]. split; [done|].
    split; [|by split; [left|split]]. split; [done| |intros x e Hx He Ha; by destruct (Hnone x e)].
    destruct (decide (pd_state d = EIGRP_FSM_STATE_PASSIVE)); [by left|right]. intros Hin. by apply Haw.
  - intros s' d' ws Haw Hout Hc.
    assert (Er : topology_routes d' = topology_routes d).
    { destruct Hc as [?|? ?|? ? ? ?|? ? ? ? ? Hdf]; try done. unfold diffuse_outcome in Hdf.
      destruct (_ =? 0); destruct Hdf as [-> _]; done. }
    assert (event_frame p (next_addr s) s s') as F by (by eapply dual_event_frame).
    assert (paths_keep s s') as K.
    { apply (event_paths_keep p (next_addr s)); [done|done|done|]. intros d2 x e2 Hd2 Hx He2.
      rewrite (do_prefix _ _ _ _ _ Hout) in Hd2. injection Hd2 as <-. rewrite Er in Hx.
      destruct (dw_routes _ _ _ W x Hx) as (ex & Hex & _). eapply event_path_keep; [exact F| |done|exact Hex|done].
      intros ->. by destruct (Hfree ex). }
    apply HQ.
    2:{ intros C. eapply event_clean; [exact O|exact F|exact Hown|exact C|exact Hd|apply Hout|by eapply completion_idles; [apply Haw|]|].
        intros x e' Hx He' Ha. destruct (K p d' x e' (do_prefix _ _ _ _ _ Hout) Hx He') as (d2 & e & Hd2 & Hx2 & He & Ea).
        rewrite Hd in Hd2. injection Hd2 as <-. by destruct (Hnone x e Hx2 He); congruence. }
    exists (next_addr s), d'.
    split; [|do 2 (split; [done|]); split; [intros e He; by destruct (Hfree e)|]; split; [done|]; split; [apply Hout|]].
    + split; [|by eapply table_wf_event, O|by apply (do_frame _ _ _ _ _ Hout), O].
      eapply instance_wf_frame; [exact Wf|apply Hout|eauto|apply Hout|by eapply completion_wf].
    + destruct (completion_leaves _ _ _ _ _ _ Hc (dw_rij _ _ _ W)) as [L1 L2].
      split; [|done]. split; [destruct (proj1 L1) as [->| ->]; done|done|].
      intros x e' Hx He' Hn'. destruct (K p d' x e' (do_prefix _ _ _ _ _ Hout) Hx He') as (d2 & e & Hd2 & Hx2 & He & Ea).
      rewrite Hd in Hd2. injection Hd2 as <-. by destruct (Hnone x e Hx2 He); congruence.
Qed.

Lemma wp_peer_leave (Q : unit -> eigrp_instance -> Prop) :
  (forall s', left_store s' -> (clean n s -> clean n s') -> Q tt s') -> wp (peer_leave p n) Q s.
Proof.
  intros HQ. pose proof (ok_live _ _ (dest_wf_ok _ _ _ W)) as Hl.
  unfold peer_leave. rewrite wp_bind. apply (wp_descriptor_lookup p d); [done|done|].
  destruct (List.find _ _) as [r|] eqn:Ef.
  - apply find_live_some in Ef as (Hr & e & He & Ha). apply bool_decide_eq_true in Ha.
    rewrite wp_bind, wp_get_prefix by exact Hd. rewrite wp_bind, wp_get_route by exact He. rewrite wp_bind.
    apply wp_peer_poison; [done..|]. intros m s' L C. wp_simpl. by apply HQ.
  - apply wp_peer_silent; [|done]. intros x e Hx He Ha. apply find_none_forall in Ef. rewrite Forall_forall in Ef.
    specialize (Ef x Hx). unfold on_route in Ef. rewrite He in Ef. unfold opt_ptr_eqb in Ef. by apply bool_decide_eq_false in Ef.
Qed.
End one_peer.
End leave.

(** ** The pass over the table *)

Section pass.
Implicit Types s : eigrp_instance.

(** The destinations [D] are released; the table is that of [s0]. *)
Record passing (n : ptr) (s0 : eigrp_instance) (D : ptr -> Prop) (s : eigrp_instance) : Prop := {
  ps_ok : store_ok s;
  ps_live : is_Some (nbrs s !! n);
  ps_single : single_path n s;
  ps_table : topology_table s = topology_table s0 /\ table_nodes s = table_nodes s0;
  ps_done : forall p d, D p -> prefixes s !! p = Some d -> released n s d;
  ps_same : paths_same s0 s;
  ps_clean : clean n s0 -> clean n s;
}.

Lemma passing_queue n s0 D s q : passing n s0 D s -> passing n s0 D (with_queue s q).
Proof.
  intros [O L S T R P C]. split; [by apply store_ok_queue|done..| |by destruct P; split|].
  - intros p d HD Hd. destruct (R p d HD Hd). by split.
  - intros [C1 C2]%C. by split.
Qed.

(** After [p] itself was handled. *)
Lemma passing_step n s0 (D : ptr -> Prop) p d s s' :
  passing n s0 D s -> prefixes s !! p = Some d -> left_store p n d s s' -> (clean n s -> clean n s') ->
  passing n s0 (fun q => D q \/ q = p) s'.
Proof.
  intros [O L S T R P C] Hd (r & d' & O' & F & Hown & _ & K & Hd' & Hrel & _). destruct (event_table _ _ _ _ F) as (T1 & T2 & _).
  split; [done|by eapply nbrs_keep_live; [apply F|]|by eapply single_path_keep|by rewrite T1, T2| | |auto].
  2:{ eapply paths_same_trans; [exact P|]. split; [done| |apply F]. intros q dq Hq. destruct (decide (q = p)) as [->|Hne].
      - by apply (ef_kept _ _ _ _ F).
      - exists dq. by rewrite (ef_others _ _ _ _ F q Hne). }
  intros q dq Hq Hdq. destruct (decide (q = p)) as [->|Hne]; [by rewrite Hd' in Hdq; injection Hdq as <-|].
  destruct Hq as [Hq| ->]; [|done]. rewrite (ef_others _ _ _ _ F q Hne) in Hdq. apply (released_other n p r q dq s); try done. by apply (R q dq).
Qed.

Lemma passing_origin n s0 D p d s :
  passing n s0 D s -> prefixes s !! p = Some d -> passing n s0 D (set_prefix s p {| d with query_origin := None |}).
Proof.
  intros [O L S T R P C] Hd. set (d' := {| d with query_origin := None |}).
  assert (dest_wf s p d') as Wd.
  { eapply dest_wf_scalars; [apply (iw_dests _ (so_wf _ O) _ _ Hd)|done..| |by left]. unfold origin_discipline. by destruct (pd_state d'). }
  split; [by eapply store_ok_dest|done| |done| | |].
  4:{ intros [C1 C2]%C. split.
      - intros q dq Hq. simpl in Hq. destruct (decide (q = p)) as [->|Hne]; [|rewrite lookup_insert_ne in Hq by done; by apply (C1 q)].
        rewrite lookup_insert_eq in Hq. injection Hq as <-. by apply (C1 p d).
      - intros q dq x e Hq. simpl in Hq. destruct (decide (q = p)) as [->|Hne]; [|rewrite lookup_insert_ne in Hq by done; by apply (C2 q dq x)].
        rewrite lookup_insert_eq in Hq. injection Hq as <-. by apply (C2 p d). }
  3:{ eapply paths_same_trans; [exact P|]. split; [|intros q dq Hq|done]; [intros q dq x e Hq Hx He|]; simpl in *;
        (destruct (decide (q = p)) as [->|Hne]; [rewrite lookup_insert_eq in *|rewrite lookup_insert_ne in * by done]).
      - injection Hq as <-. by exists d, e.
      - by exists dq, e.
      - rewrite Hd in Hq. injection Hq as <-. by exists d'.
      - by exists dq. }
  - intros q dq x y ex ey Hq Hx Hy. simpl in *. destruct (decide (q = p)) as [->|Hne].
    + rewrite lookup_insert_eq in Hq. injection Hq as <-. by apply (S p d x y ex ey).
    + rewrite lookup_insert_ne in Hq by done. by apply (S q dq x y ex ey).
  - intros q dq HD Hq. simpl in *. destruct (decide (q = p)) as [->|Hne].
    + rewrite lookup_insert_eq in Hq. injection Hq as <-. destruct (R p d HD Hd) as [R1 R2 R3]. by split.
    + rewrite lookup_insert_ne in Hq by done. destruct (R q dq HD Hq). by split.
Qed.

Lemma wp_down_node n s0 (D : ptr -> Prop) t s :
  passing n s0 D s -> t ∈ topology_table s0 ->
  wp (neighbor_down_node n t) (fun _ s' =>
    passing n s0 (fun q => D q \/ exists rn, table_nodes s0 !! t = Some rn /\ tn_info rn = Some q) s') s.
Proof.
  intros I Ht. pose proof I as [O L S [T1 T2] R P C]. unfold neighbor_down_node.
  destruct (tw_live _ (so_table _ O) t) as [rn Hrn]; [by rewrite T1|]. rewrite wp_bind, (wp_get_tnode t rn) by done.
  assert (forall s', passing n s0 (fun q => D q \/ Some q = tn_info rn) s' ->
    passing n s0 (fun q => D q \/ exists rn, table_nodes s0 !! t = Some rn /\ tn_info rn = Some q) s') as Hw.
  { intros s' [? ? ? ? R' ? ?]. split; try done. intros p d [HD|(rn' & H1 & H2)] Hd; apply (R' p d); [by left|done|right|done].
    rewrite <-T2, Hrn in H1. by injection H1 as <-. }
  destruct (tn_info rn) as [p|] eqn:Ei.
  2: { wp_simpl. apply Hw. split; try done. intros p d [HD|?] Hd; [by apply (R p d)|done]. }
  destruct (tw_info _ (so_table _ O) t rn p Hrn Ei) as [d Hd].
  rewrite wp_bind, wp_get_prefix by exact Hd. rewrite wp_bind, wp_when.
  assert (forall s1 d1, passing n s0 D s1 -> prefixes s1 !! p = Some d1 -> query_origin d1 <> Some n ->
    wp (peer_leave p n) (fun _ s' => passing n s0 (fun q => D q \/ exists rn, table_nodes s0 !! t = Some rn /\ tn_info rn = Some q) s') s1) as Hleave.
  { intros s1 d1 I1 Hd1 Ho. eapply (wp_peer_leave p n d1); [apply I1|done|apply I1|done|apply I1|].
    intros s' Hl Hc. apply Hw. eapply passing_step in Hl; [|exact I1|exact Hd1|exact Hc].
    destruct Hl as [? ? ? ? R' ? ?]. split; try done. intros q dq [HD|[= ->]]; apply R'; [by left|by right]. }
  unfold opt_ptr_eqb. case_bool_decide as Eo.
  - wp_simpl. eapply Hleave; [by apply passing_origin|apply set_prefix_lookup|done].
  - by eapply Hleave.
Qed.

Lemma wp_down_nodes n s0 l s (D : ptr -> Prop) (Q : unit -> eigrp_instance -> Prop) :
  passing n s0 D s -> (forall t, t ∈ l -> t ∈ topology_table s0) ->
  (forall s', passing n s0 (fun q => D q \/ exists t rn, t ∈ l /\ table_nodes s0 !! t = Some rn /\ tn_info rn = Some q) s' -> Q tt s') ->
  wp (mfor l (neighbor_down_node n)) Q s.
Proof.
  revert s D. induction l as [|t l IH]; intros s D I Hl HQ; cbn [mfor].
  - wp_simpl. apply HQ. destruct I as [? ? ? ? R ? ?]. split; try done. intros p d [HD|(t & rn & Ht & _)]; [by apply R|by apply not_elem_of_nil in Ht].
  - rewrite wp_bind. eapply wp_mono; [eapply wp_down_node; [exact I|apply Hl; by left]|]. intros [] s1 I1.
    eapply IH; [exact I1|intros x Hx; apply Hl; by right|]. intros s' [? ? ? ? R ? ?]. apply HQ. split; try done.
    intros p d [HD|(x & rn & Hx & Hrn & Hi)] Hd; apply (R p d); try done; [by left; left|].
    apply elem_of_cons in Hx as [->|Hx]; [left; right; eauto|right; eauto].
Qed.
End pass.

(** The destinations of the table. *)
Definition in_table (s : eigrp_instance) (p : ptr) : Prop :=
  exists t rn, t ∈ topology_table s /\ table_nodes s !! t = Some rn /\ tn_info rn = Some p.

Lemma wp_neighbor_down_all s n (Q : unit -> eigrp_instance -> Prop) :
  store_ok s -> is_Some (nbrs s !! n) -> single_path n s ->
  (forall s', passing n s (in_table s) s' -> Q tt s') -> wp (eigrp_topology_neighbor_down n) Q s.
Proof.
  intros O L S HQ. unfold eigrp_topology_neighbor_down. rewrite wp_bind, wp_gets, wp_bind.
  apply (wp_down_nodes n s _ s (fun _ => False)); [split; try done; apply paths_same_refl|done|]. intros s1 I.
  rewrite wp_bind. apply wp_query_send_all; [apply I|]. intros c ws.
  eapply (passing_queue _ _ _ _ (packetizer_queue s1 ++ ws)) in I. set (s2 := with_queue _ _) in *. pose proof (ps_live _ _ _ _ I) as [nb Hnb].
  rewrite wp_bind, (wp_get_nbr n nb) by done. apply wp_send_all; [apply I|]. intros ws'.
  eapply (passing_queue _ _ _ _ (packetizer_queue s2 ++ ws')) in I. set (s3 := with_queue s2 _) in *. apply HQ.
  destruct I as [? ? ? ? R ? ?]. split; try done. intros p d (t & rn & ?). apply R. right. by exists t, rn.
Qed.

(** C16: the topology's side of a lost neighbor.  In a well formed store whose allocations
    succeed, let a live neighbor have at most one path to each destination, each path of it
    that is reported unreachable measured as such, and let no PASSIVE destination carry it in
    its reply set.  Then [eigrp_topology_neighbor_down] is defined, keeps all of this and the
    table, and afterwards no destination of the table owes the neighbor a REPLY or awaits one
    from it, and every path through it has an infinite reported delay and an infinite
    distance. *)
Theorem neighbor_down_releases s n :
  store_ok s -> is_Some (nbrs s !! n) -> single_path n s -> clean n s ->
  wp (eigrp_topology_neighbor_down n) (fun _ s' =>
    store_ok s' /\ single_path n s' /\ clean n s' /\ topology_table s' = topology_table s
    /\ forall p, in_table s p -> exists d, prefixes s' !! p = Some d /\ parted n s' d) s.
Proof.
  intros O L S C. apply wp_neighbor_down_all; [done..|]. intros s' [O' _ S' [T1 T2] R _ C'].
  specialize (C' C). do 4 (split; [done|]). intros p Ht. destruct (Ht) as (t & rn & _ & Hrn & Hi).
  destruct (tw_info _ (so_table _ O') t rn p) as [d Hd]; [by rewrite T2|done|]. exists d. split; [done|].
  by eapply released_parted; [exact C'|exact Hd|apply (R p d)].
Qed.

(** ** All suspended neighbors at once *)

Section suspended.
Implicit Types s : eigrp_instance.

Definition suspended s (n : ptr) : Prop := exists nb, nbrs s !! n = Some nb /\ suspended_nbr nb = true.

(** Between passes no neighbor carries the mark. *)
Definition unmarked s : Prop := forall n nb, nbrs s !! n = Some nb -> topo_batch_seen nb = false.

Definition mark (b : bool) (nb : eigrp_nbr) : eigrp_nbr := {| nb with topo_batch_seen := b |}.

(** The store while [peers] carry the mark. *)
Definition marked (peers : list ptr) s : eigrp_instance :=
  {| s with nbrs := foldr (alter (mark true)) (nbrs s) peers |}.

Lemma marked_lookup peers s n :
  nbrs (marked peers s) !! n = if bool_decide (n ∈ peers) then mark true <$> nbrs s !! n else nbrs s !! n.
Proof.
  simpl. induction peers as [|m peers IH]; simpl; [done|]. destruct (decide (n = m)) as [->|Hne].
  - rewrite lookup_alter_eq, IH, (bool_decide_eq_true_2 (m ∈ m :: peers)) by left.
    case_bool_decide; [|done]. by destruct (nbrs s !! m).
  - rewrite lookup_alter_ne, IH by done. by rewrite (bool_decide_ext (n ∈ m :: peers) (n ∈ peers)) by set_solver.
Qed.

Lemma marked_snoc peers s n nb :
  nbrs s !! n = Some nb ->
  set_nbr (marked peers s) n (mark true nb) = marked (peers ++ [n]) s.
Proof.
  intros Hn. unfold set_nbr, marked. f_equal. apply map_eq. intros m.
  pose proof (marked_lookup peers s m) as H1. pose proof (marked_lookup (peers ++ [n]) s m) as H2. simpl in H1, H2.
  rewrite H2. destruct (decide (m = n)) as [->|Hne].
  - simpl. rewrite lookup_insert_eq, bool_decide_eq_true_2 by set_solver. by rewrite Hn.
  - simpl. rewrite lookup_insert_ne, H1 by done. by rewrite (bool_decide_ext (m ∈ peers ++ [n]) (m ∈ peers)) by set_solver.
Qed.

Lemma wp_unmark peers s (Q : unit -> eigrp_instance -> Prop) :
  NoDup peers -> (forall n, n ∈ peers -> is_Some (nbrs s !! n)) -> unmarked s -> Q tt s ->
  wp (mfor peers (fun n => upd_nbr n (fun d => {| d with topo_batch_seen := false |}))) Q (marked peers s).
Proof.
  intros Hnd. revert Q. induction Hnd as [|n peers Hn Hnd IH]; intros Q Hl U HQ; cbn [mfor]; [destruct s; by wp_simpl|].
  destruct (Hl n) as [nb Hnb]; [by left|]. rewrite wp_bind. unfold upd_nbr.
  rewrite wp_bind, (wp_get_nbr n (mark true nb)).
  2: { rewrite marked_lookup, bool_decide_eq_true_2, Hnb by left. done. }
  rewrite wp_put_nbr.
  replace (set_nbr (marked (n :: peers) s) n _) with (marked peers s).
  { apply IH; [intros m Hm; apply Hl; by right|done|done]. }
  unfold set_nbr, marked. f_equal. apply map_eq. intros m.
  pose proof (marked_lookup peers s m) as H1. simpl in H1. simpl. destruct (decide (m = n)) as [->|Hne].
  - rewrite lookup_insert_eq, H1, bool_decide_eq_false_2, Hnb by done. specialize (U n nb Hnb).
    destruct nb; simpl in *. by rewrite U.
  - by rewrite lookup_insert_ne, lookup_alter_ne.
Qed.

Section collection.
Context (capacity : nat) (s : eigrp_instance).
Hypothesis U : unmarked s.
Hypothesis Hroom : forall l, NoDup l -> (forall n, n ∈ l -> suspended s n) -> (length l <= capacity)%nat.

Record collected (peers : list ptr) (from : ptr -> Prop) : Prop := {
  co_nodup : NoDup peers;
  co_sound : forall n, n ∈ peers -> suspended s n;
  co_complete : forall n, from n -> suspended s n -> n ∈ peers;
}.

Lemma wp_peer_add peers (from : ptr -> Prop) n nb (Q : list ptr -> eigrp_instance -> Prop) :
  collected peers from -> nbrs s !! n = Some nb ->
  (forall peers', collected peers' (fun m => from m \/ m = n) -> Q peers' (marked peers' s)) ->
  wp (eigrp_topology_suspended_peer_add capacity peers (Some n)) Q (marked peers s).
Proof.
  intros [C1 C2 C3] Hn HQ. unfold eigrp_topology_suspended_peer_add. rewrite wp_bind.
  pose proof (marked_lookup peers s n) as Hl. rewrite Hn in Hl.
  destruct (decide (n ∈ peers)) as [Hin|Hin].
  - rewrite bool_decide_eq_true_2 in Hl by done. rewrite (wp_get_nbr n (mark true nb)) by exact Hl.
    simpl. rewrite orb_true_r. wp_simpl. apply HQ. split; [done|done|]. intros m [Hm| ->]; [by apply C3|done].
  - rewrite bool_decide_eq_false_2 in Hl by done. rewrite (wp_get_nbr n nb) by exact Hl.
    rewrite (U n nb Hn), orb_false_r. destruct (suspended_nbr nb) eqn:Es; cbn [negb].
    + assert (collected (peers ++ [n]) (fun m => from m \/ m = n)) as C.
      { split.
        - apply NoDup_app. split; [done|]. split; [|by apply NoDup_singleton]. intros x Hx ->%list_elem_of_singleton. done.
        - intros m [Hm| ->%list_elem_of_singleton]%elem_of_app; [by apply C2|by exists nb].
        - intros m [Hm| ->] Hs; apply elem_of_app; [left; by apply C3|right; by apply list_elem_of_singleton]. }
      pose proof (Hroom _ (co_nodup _ _ C) (co_sound _ _ C)) as Hcap. rewrite length_app in Hcap. simpl in Hcap.
      destruct (Nat.leb_spec capacity (length peers)); [lia|].
      rewrite wp_bind, wp_put_nbr, wp_ret. change {| nb with topo_batch_seen := true |} with (mark true nb).
      rewrite (marked_snoc peers s n nb Hn). by apply HQ.
    + wp_simpl. apply HQ. split; [done|done|]. intros m [Hm| ->] Hs; [by apply C3|].
      destruct Hs as (nb' & Hn' & Es'). rewrite Hn in Hn'. injection Hn' as <-. congruence.
Qed.

Lemma collected_weaken peers (f g : ptr -> Prop) : collected peers f -> (forall n, g n -> f n) -> collected peers g.
Proof. intros [C1 C2 C3] H. split; auto. Qed.

Lemma wp_owners l peers (from : ptr -> Prop) (Q : list ptr -> eigrp_instance -> Prop) :
  collected peers from -> (forall r, r ∈ l -> exists e, routes s !! r = Some e /\ route_links s e) ->
  (forall peers', collected peers' (fun m => from m \/ exists r e, r ∈ l /\ routes s !! r = Some e /\ rd_adv_router e = Some m) ->
     Q peers' (marked peers' s)) ->
  wp (suspended_owners capacity peers l) Q (marked peers s).
Proof.
  revert peers from. induction l as [|r l IH]; intros peers from C Hl HQ; cbn [suspended_owners].
  { wp_simpl. apply HQ. eapply collected_weaken; [exact C|]. intros n [?|(r & e & Hr & _)]; [done|by apply not_elem_of_nil in Hr]. }
  destruct (Hl r) as (e & He & [_ Hlk]); [by left|]. rewrite wp_bind, (wp_get_route r e) by done. rewrite wp_bind.
  assert (forall peers1, collected peers1 (fun m => from m \/ rd_adv_router e = Some m) ->
    wp (suspended_owners capacity peers1 l) Q (marked peers1 s)) as Hrest.
  { intros peers1 C1. eapply IH; [exact C1|intros x Hx; apply Hl; by right|]. intros peers' C'. apply HQ.
    eapply collected_weaken; [exact C'|]. intros n [?|(x & ex & Hx & Hex & Ha)]; [by left; left|].
    apply elem_of_cons in Hx as [->|Hx]; [left; right; congruence|right; eauto]. }
  destruct (rd_adv_router e) as [n|] eqn:Ea.
  - destruct (Hlk n eq_refl) as [nb Hnb]. eapply wp_peer_add; [exact C|exact Hnb|]. intros peers1 C1. apply Hrest.
    eapply collected_weaken; [exact C1|]. intros m [?|[= ->]]; auto.
  - simpl. wp_simpl. apply Hrest. eapply collected_weaken; [exact C|]. intros m [?|?]; done.
Qed.

Lemma wp_awaited l peers (from : ptr -> Prop) (Q : list ptr -> eigrp_instance -> Prop) :
  collected peers from -> (forall st, st ∈ l -> is_Some (nbrs s !! rs_neighbor st)) ->
  (forall peers', collected peers' (fun m => from m \/ m ∈ rs_neighbor <$> l) -> Q peers' (marked peers' s)) ->
  wp (suspended_awaited capacity peers l) Q (marked peers s).
Proof.
  revert peers from. induction l as [|st l IH]; intros peers from C Hl HQ; cbn [suspended_awaited].
  { wp_simpl. apply HQ. eapply collected_weaken; [exact C|]. intros n [?|Hn]; [done|by apply not_elem_of_nil in Hn]. }
  destruct (Hl st) as [nb Hnb]; [by left|]. rewrite wp_bind. eapply wp_peer_add; [exact C|exact Hnb|]. intros peers1 C1.
  eapply IH; [exact C1|intros x Hx; apply Hl; by right|]. intros peers' C'. apply HQ.
  eapply collected_weaken; [exact C'|]. intros n [?|Hn]; [by left; left|]. rewrite fmap_cons in Hn.
  apply elem_of_cons in Hn as [->|Hn]; [by left; right|by right].
Qed.
End collection.

(** ** The pass *)

Definition awaited_live s : Prop :=
  forall p d n, prefixes s !! p = Some d -> n ∈ rs_neighbor <$> rij d -> is_Some (nbrs s !! n).

Record group_ok (s0 s : eigrp_instance) : Prop := {
  gr_ok : store_ok s;
  gr_nbrs : nbrs_keep s0 s;
  gr_table : topology_table s = topology_table s0 /\ table_nodes s = table_nodes s0;
  gr_single : forall n, suspended s0 n -> single_path n s;
  gr_awaited : awaited_live s;
}.

(** [D]: the destinations released by every suspended neighbor. *)
Record group_done (s0 : eigrp_instance) (D : ptr -> Prop) (s : eigrp_instance) : Prop := {
  gd_ok : group_ok s0 s;
  gd_done : forall p d n, D p -> suspended s0 n -> prefixes s !! p = Some d -> released n s d;
}.

(** Destination [p] in work: the neighbors [R] have left it. *)
Record leaving (s0 : eigrp_instance) (D : ptr -> Prop) (p : ptr) (R : ptr -> Prop) (s : eigrp_instance)
    (d : eigrp_prefix_descriptor) : Prop := {
  lv_ok : group_ok s0 s;
  lv_dest : prefixes s !! p = Some d;
  lv_origin : forall n, suspended s0 n -> query_origin d <> Some n;
  lv_others : forall q dq n, D q -> q <> p -> suspended s0 n -> prefixes s !! q = Some dq -> released n s dq;
  lv_left : forall n, R n -> released n s d;
}.

Lemma nbrs_keep_suspended s s' n : nbrs_keep s s' -> suspended s n <-> suspended s' n.
Proof.
  intros K. specialize (K n). unfold suspended.
  split; intros (nb & Hn & E); rewrite Hn in K; [destruct (nbrs s' !! n) as [nb'|] eqn:E'|destruct (nbrs s !! n) as [nb'|] eqn:E']; try done;
    exists nb'; (split; [done|]); simpl in K; injection K; intros; unfold suspended_nbr in *; congruence.
Qed.

Lemma nbrs_keep_unmarked s s' : nbrs_keep s s' -> unmarked s -> unmarked s'.
Proof.
  intros K U n nb Hn. specialize (K n). rewrite Hn in K. destruct (nbrs s !! n) as [nb'|] eqn:E'; [|done].
  specialize (U n nb' E'). simpl in K. injection K. intros. congruence.
Qed.

(** What the others left stays left. *)
Lemma released_same m n p d d' s s' :
  store_ok s -> prefixes s !! p = Some d -> m <> n -> left_store p n d s s' -> prefixes s' !! p = Some d' ->
  released m s d -> released m s' d'.
Proof.
  intros O Hd Hne (r & d2 & O' & F & _ & Hown & K & Hd2 & _ & [So [Sa _]]) Hd' [R1 R2 R3].
  rewrite Hd2 in Hd'. injection Hd' as <-. split; [destruct So as [->| ->]; done|by apply Sa|].
  intros x e' Hx He' Hm. destruct (K p d2 x e' Hd2 Hx He') as (d3 & e & Hd3 & Hx3 & He & Ea).
  rewrite Hd in Hd3. injection Hd3 as <-. assert (x <> r) as Hxr.
  { intros ->. specialize (Hown e He). congruence. }
  destruct (ef_routes _ _ _ _ F x e Hxr He) as (e2 & He2 & E). rewrite He2 in He'. injection He' as <-.
  apply strip_flags_eq in E as (_ & _ & _ & _ & _ & _ & _ & Em). rewrite Em. eapply R3; [done|done|congruence].
Qed.

Lemma awaited_live_left p n d s s' :
  prefixes s !! p = Some d -> left_store p n d s s' -> awaited_live s -> awaited_live s'.
Proof.
  intros Hd (r & d2 & _ & F & _ & _ & _ & Hd2 & _ & [_ [_ Hsub]]) A q dq m Hq Hm.
  eapply nbrs_keep_live; [apply F|]. destruct (decide (q = p)) as [->|Hne].
  - rewrite Hd2 in Hq. injection Hq as <-. by apply (A p d m Hd), Hsub.
  - rewrite (ef_others _ _ _ _ F q Hne) in Hq. by apply (A q dq).
Qed.

Lemma leaving_step s0 D p R n s d s' :
  leaving s0 D p R s d -> suspended s0 n -> left_store p n d s s' ->
  exists d', leaving s0 D p (fun m => R m \/ m = n) s' d'.
Proof.
  intros [[O K T S A] Hd Ho Hq Hl] Hn L. pose proof L as (r & d' & O' & F & Hown & Hadv & Kp & Hd' & Hrel & [So _]).
  destruct (event_table _ _ _ _ F) as (T1 & T2 & _). exists d'. split.
  - split; [done| |by rewrite T1, T2|intros m Hm; eapply single_path_keep; [done|by apply S]|eapply awaited_live_left; [exact Hd|exact L|done]].
    intros m. by rewrite (ef_nbrs _ _ _ _ F m), (K m).
  - done.
  - intros m Hm. destruct So as [->| ->]; [by apply Ho|done].
  - intros q dq m HD Hne Hm Hdq. rewrite (ef_others _ _ _ _ F q Hne) in Hdq.
    apply (released_other m p r q dq s); try done. by apply (Hq q dq m).
  - intros m Hm. destruct (decide (m = n)) as [->|Hne]; [done|]. destruct Hm as [Hm| ->]; [|done].
    eapply released_same; [exact O|exact Hd|exact Hne|exact L|exact Hd'|by apply Hl].
Qed.

Lemma wp_group_leave s0 D p peers R s d (Q : unit -> eigrp_instance -> Prop) :
  leaving s0 D p R s d -> (forall n, n ∈ peers -> suspended s0 n) ->
  (forall s' d', leaving s0 D p (fun m => R m \/ m ∈ peers) s' d' -> Q tt s') ->
  wp (mfor peers (peer_leave p)) Q s.
Proof.
  revert R s d. induction peers as [|n peers IH]; intros R s d I Hp HQ; cbn [mfor].
  { wp_simpl. apply (HQ s d). destruct I as [? ? ? ? Hl]. split; try done. intros m [?|Hm]; [by apply Hl|by apply not_elem_of_nil in Hm]. }
  assert (suspended s0 n) as Hn by (apply Hp; by left). rewrite wp_bind. pose proof I as [[O K T S A] Hd Ho _ _].
  assert (is_Some (nbrs s !! n)) as Hlive.
  { destruct Hn as (nb & Hnb & _). eapply nbrs_keep_live; [exact K|eauto]. }
  apply (wp_peer_leave p n d s O Hd Hlive (Ho n Hn) (S n Hn)). intros s1 L _.
  destruct (leaving_step _ _ _ _ _ _ _ _ I Hn L) as [d1 I1]. eapply IH; [exact I1|intros m Hm; apply Hp; by right|].
  intros s' d' I'. apply (HQ s' d'). destruct I' as [? ? ? ? Hl]. split; try done.
  intros m [?|[->|?]%elem_of_cons]; apply Hl; auto.
Qed.

(** The origin of a suspended neighbor is dropped first. *)
Lemma group_origin s0 D p d s (o : option ptr) :
  group_done s0 D s -> prefixes s !! p = Some d -> (o = query_origin d \/ o = None) ->
  let d' := {| d with query_origin := o |} in
  group_ok s0 (set_prefix s p d')
  /\ forall q dq n, D q -> q <> p -> suspended s0 n -> prefixes (set_prefix s p d') !! q = Some dq -> released n (set_prefix s p d') dq.
Proof.
  intros [[O K T S A] R] Hd Ho d'.
  assert (dest_wf s p d') as Wd.
  { pose proof (iw_dests _ (so_wf _ O) _ _ Hd) as Wd. eapply dest_wf_scalars; [exact Wd|done|done| | |by left].
    - intros n Hn. apply (dw_origin _ _ _ Wd). simpl in Hn. destruct Ho as [->| ->]; [done|done].
    - pose proof (dw_discipline _ _ _ Wd) as H. unfold origin_discipline in *. simpl. destruct Ho as [->| ->]; by destruct (pd_state d). }
  split.
  - split; [by eapply store_ok_dest|done|done| |].
    + intros n Hn q dq x y ex ey Hq Hx Hy. simpl in *. destruct (decide (q = p)) as [->|Hne].
      * rewrite lookup_insert_eq in Hq. injection Hq as <-. by apply (S n Hn p d x y ex ey).
      * rewrite lookup_insert_ne in Hq by done. by apply (S n Hn q dq x y ex ey).
    + intros q dq n Hq Hn. simpl in *. destruct (decide (q = p)) as [->|Hne].
      * rewrite lookup_insert_eq in Hq. injection Hq as <-. by apply (A p d n).
      * rewrite lookup_insert_ne in Hq by done. by apply (A q dq n).
  - intros q dq n HD Hne Hn Hq. simpl in Hq. rewrite lookup_insert_ne in Hq by done. destruct (R q dq n HD Hn Hq). by split.
Qed.

(** A suspended neighbor that owns no path and is not awaited has left. *)
Lemma uncollected_released s p d peers n :
  prefixes s !! p = Some d -> query_origin d <> Some n -> suspended s n -> n ∉ peers ->
  collected s peers (fun m => (False \/ exists r e, r ∈ topology_routes d /\ routes s !! r = Some e /\ rd_adv_router e = Some m)
                              \/ m ∈ rs_neighbor <$> rij d) -> released n s d.
Proof.
  intros Hd Ho Hs Hn [_ _ C]. split; [done| |].
  - right. intros Hin. apply Hn, C; [by right|done].
  - intros x e Hx He Ha. destruct Hn. apply C; [left; right; eauto|done].
Qed.

Section group_pass.
Context (s0 : eigrp_instance) (capacity : nat).
Hypothesis U : unmarked s0.
Hypothesis Hroom : forall l, NoDup l -> (forall n, n ∈ l -> suspended s0 n) -> (length l <= capacity)%nat.

Let node_of (t p : ptr) : Prop := exists rn, table_nodes s0 !! t = Some rn /\ tn_info rn = Some p.

Lemma wp_group_dest (D : ptr -> Prop) p d s (Q : unit -> eigrp_instance -> Prop) :
  group_ok s0 s -> prefixes s !! p = Some d -> (forall n, suspended s0 n -> query_origin d <> Some n) ->
  (forall q dq n, D q -> q <> p -> suspended s0 n -> prefixes s !! q = Some dq -> released n s dq) ->
  (forall s', group_done s0 (fun q => D q \/ q = p) s' -> Q tt s') ->
  wp (peers ← suspended_owners capacity [] (topology_routes d);
      peers ← suspended_awaited capacity peers (rij d);
      mfor peers (fun n => upd_nbr n (fun d => {| d with topo_batch_seen := false |}));;
      mfor peers (peer_leave p)) Q s.
Proof.
  intros G Hd Ho Hq HQ. pose proof G as [O K T S A]. pose proof (iw_dests _ (so_wf _ O) _ _ Hd) as Wd.
  pose proof (nbrs_keep_unmarked _ _ K U) as U1.
  assert (forall l, NoDup l -> (forall n, n ∈ l -> suspended s n) -> (length l <= capacity)%nat) as Hroom1.
  { intros l Hnd Hl. apply Hroom; [done|]. intros n Hn. by apply (nbrs_keep_suspended s0 s n K), Hl. }
  rewrite wp_bind. replace s with (marked [] s) by (by destruct s).
  eapply (wp_owners capacity s U1 Hroom1 _ [] (fun _ => False)).
  { split; [constructor|by intros n ?%not_elem_of_nil|done]. }
  { intros r Hr. destruct (dw_routes _ _ _ Wd r Hr) as (e & He & Hl & _). eauto. }
  intros peers1 C1. rewrite wp_bind. eapply (wp_awaited capacity s U1 Hroom1 _ _ _ _ C1).
  { intros st Hst. apply (A p d); [done|]. apply list_elem_of_fmap. eauto. }
  intros peers C. rewrite wp_bind. apply wp_unmark; [apply C| |done|].
  { intros n Hn. destruct (co_sound _ _ _ C n Hn) as (nb & Hnb & _). eauto. }
  eapply (wp_group_leave s0 D p peers (fun n => suspended s0 n /\ n ∉ peers) s d).
  - split; [done|done|done|done|]. intros n [Hn Hp]. apply (uncollected_released s p d peers); [done|by apply Ho| |done|exact C].
    by apply (nbrs_keep_suspended s0 s n K).
  - intros n Hn. by apply (nbrs_keep_suspended s0 s n K), (co_sound _ _ _ C).
  - intros s' d' [G' Hd' Ho' Hq' Hl']. apply HQ. split; [done|]. intros q dq n HD Hn Hdq.
    destruct (decide (q = p)) as [->|Hne].
    + rewrite Hd' in Hdq. injection Hdq as <-. apply Hl'. destruct (decide (n ∈ peers)); [by right|by left].
    + destruct HD as [HD|?]; [|done]. by apply (Hq' q dq n).
Qed.

Lemma wp_group_node (D : ptr -> Prop) t s :
  group_done s0 D s -> t ∈ topology_table s0 ->
  wp (suspended_down_node capacity t) (fun _ s' => group_done s0 (fun q => D q \/ node_of t q) s') s.
Proof.
  intros I Ht. pose proof I as [G R]. pose proof G as [O K [T1 T2] S A]. unfold suspended_down_node.
  destruct (tw_live _ (so_table _ O) t) as [rn Hrn]; [by rewrite T1|]. rewrite wp_bind, (wp_get_tnode t rn) by done.
  assert (forall q, node_of t q -> tn_info rn = Some q) as Hnode.
  { intros q (rn' & H1 & H2). rewrite <-T2, Hrn in H1. by injection H1 as <-. }
  destruct (tn_info rn) as [p|] eqn:Ei.
  2: { wp_simpl. split; [done|]. intros q dq n [HD|Hq]; [by apply R|by apply Hnode in Hq]. }
  destruct (tw_info _ (so_table _ O) t rn p Hrn Ei) as [d Hd].
  rewrite wp_bind, wp_get_prefix by exact Hd. rewrite wp_bind.
  assert (Hfin : forall o, (o = query_origin d \/ o = None) -> (forall n, suspended s0 n -> o <> Some n) ->
    wp (peers ← suspended_owners capacity [] (topology_routes d);
        peers ← suspended_awaited capacity peers (rij d);
        mfor peers (fun n => upd_nbr n (fun d => {| d with topo_batch_seen := false |}));;
        mfor peers (peer_leave p)) (fun _ s' => group_done s0 (fun q => D q \/ node_of t q) s')
      (set_prefix s p {| d with query_origin := o |})).
  { intros o Ho Hno. destruct (group_origin s0 D p d s o I Hd Ho) as [G1 R1].
    eapply (wp_group_dest D p {| d with query_origin := o |}); [exact G1|apply set_prefix_lookup|exact Hno|exact R1|].
    intros s' [G' R']. split; [done|]. intros q dq n [HD|Hq]; apply R'; [by left|right; apply Hnode in Hq; by injection Hq]. }
  assert (Hsame : query_origin d = query_origin d) by done.
  unfold eigrp_topology_suspended_peer. destruct (query_origin d) as [o|] eqn:Eo.
  - destruct (dw_origin _ _ _ (iw_dests _ (so_wf _ O) _ _ Hd) o Eo) as [nb Hnb].
    rewrite wp_bind, (wp_get_nbr o nb), wp_ret, wp_bind, wp_when by done. destruct (suspended_nbr nb) eqn:Es.
    + rewrite wp_put_prefix. apply Hfin; [by right|done].
    + replace s with (set_prefix s p {| d with query_origin := Some o |}) at 1.
      * apply Hfin; [by left|]. intros n Hn [= ->]. apply (nbrs_keep_suspended s0 s n K) in Hn as (nb' & Hn' & E').
        rewrite Hnb in Hn'. injection Hn' as <-. congruence.
      * unfold set_prefix. rewrite insert_id; [by destruct s|]. rewrite Hd. destruct d; simpl in *. by rewrite Eo.
  - rewrite wp_ret, wp_bind, wp_when. replace s with (set_prefix s p {| d with query_origin := None |}) at 1.
    + apply Hfin; [by left|done].
    + unfold set_prefix. rewrite insert_id; [by destruct s|]. rewrite Hd. destruct d; simpl in *. by rewrite Eo.
Qed.

Lemma wp_group_nodes l s (D : ptr -> Prop) (Q : unit -> eigrp_instance -> Prop) :
  group_done s0 D s -> (forall t, t ∈ l -> t ∈ topology_table s0) ->
  (forall s', group_done s0 (fun q => D q \/ exists t, t ∈ l /\ node_of t q) s' -> Q tt s') ->
  wp (mfor l (suspended_down_node capacity)) Q s.
Proof.
  revert s D. induction l as [|t l IH]; intros s D I Hl HQ; cbn [mfor].
  - wp_simpl. apply HQ. destruct I as [? R]. split; [done|]. intros p d n [HD|(t & Ht & _)]; [by apply R|by apply not_elem_of_nil in Ht].
  - rewrite wp_bind. eapply wp_mono; [eapply wp_group_node; [exact I|apply Hl; by left]|]. intros [] s1 I1.
    eapply IH; [exact I1|intros x Hx; apply Hl; by right|]. intros s' [? R]. apply HQ. split; [done|].
    intros p d n [HD|(x & Hx & Hp)]; apply R; [by left; left|].
    apply elem_of_cons in Hx as [->|Hx]; [left; by right|right; eauto].
Qed.
End group_pass.

(** the pass of an address-family suspension. With room for every suspended neighbor the
    assertion on the capacity never fires, the pass is defined, keeps the store and its table well
    formed, and afterwards no destination of the table owes a suspended neighbor a REPLY, none that
    is ACTIVE awaits one from it, and every path through it is unreachable. *)
Theorem suspended_down_releases s capacity :
  store_ok s -> unmarked s -> awaited_live s -> (forall n, suspended s n -> single_path n s) -> capacity <> 0%nat ->
  (forall l, NoDup l -> (forall n, n ∈ l -> suspended s n) -> (length l <= capacity)%nat) ->
  wp (eigrp_topology_suspended_neighbors_down capacity) (fun _ s' =>
    store_ok s' /\ forall p n, in_table s p -> suspended s n ->
      exists d, prefixes s' !! p = Some d /\ released n s' d) s.
Proof.
  intros O U A S Hc Hroom. unfold eigrp_topology_suspended_neighbors_down.
  destruct (Nat.eqb_spec capacity 0) as [?|_]; [done|]. rewrite wp_bind, wp_gets, wp_bind.
  apply (wp_group_nodes s capacity U Hroom _ s (fun _ => False)); [by split|done|]. intros s1 [[O1 K [T1 T2] S1 A1] R].
  rewrite wp_bind. apply wp_query_send_all; [done|]. intros c ws.
  apply (store_ok_queue _ (packetizer_queue s1 ++ ws)) in O1. set (s2 := with_queue s1 _) in *.
  apply wp_send_all; [done|]. intros ws'. apply (store_ok_queue _ (packetizer_queue s2 ++ ws')) in O1.
  split; [done|]. intros p n (t & rn & Ht & Hrn & Hi) Hn.
  destruct (tw_info _ (so_table _ O1) t rn p) as [d Hd]; [by rewrite <-T2 in Hrn|done|].
  exists d. split; [done|]. destruct (R p d n) as [R1 R2 R3]; [|done|exact Hd|by split].
  right. exists t. split; [done|]. by exists rn.
Qed.
End suspended.

(** ** Instances *)

(** The network of [Network] with its destination in the table. *)
Definition table_net (d : eigrp_prefix_descriptor) (alt : Z) : eigrp_instance :=
  let s := net d alt in
  {| s with topology_table := [25%nat]; table_nodes := {[ 25%nat := {| tn_prefix := net_prefix; tn_info := Some 1%nat |} ]} |}.

(** The same with neighbor 20 suspended with the address family. *)
Definition suspended_net (d : eigrp_prefix_descriptor) (alt : Z) : eigrp_instance :=
  let s := table_net d alt in
  let nb := net_nbr 10 in
  {| s with nbrs := {[ 20%nat := {| nb with af_suspended := true |}; 21%nat := net_nbr 11 ]} |}.

Lemma table_net_ok : store_ok (table_net net_passive 4096).
Proof. split; [solve_net_wf|apply table_wfb_spec; by vm_compute|done]. Qed.

Lemma suspended_net_ok : store_ok (suspended_net net_passive 4096).
Proof. split; [solve_net_wf|apply table_wfb_spec; by vm_compute|done]. Qed.

(** The two paths of the destination have different owners. *)
Lemma net_single_path (s : eigrp_instance) n :
  prefixes s = {[ 1%nat := net_passive ]} -> routes s = {[ 2%nat := net_best 512; 3%nat := net_alt 4096 ]} -> single_path n s.
Proof.
  intros Ep Er p d x y ex ey Hd Hx Hy. rewrite Ep in Hd. apply lookup_singleton_Some in Hd as [<- <-]. rewrite Er.
  change (topology_routes net_passive) with [2; 3]%nat in Hx, Hy.
  repeat (apply elem_of_cons in Hx as [->|Hx]; [|]); try (by apply not_elem_of_nil in Hx);
    repeat (apply elem_of_cons in Hy as [->|Hy]; [|]); try (by apply not_elem_of_nil in Hy);
    intros [= <-] [= <-] [= <-]; done.
Qed.

(** Its paths are measured and it is quiet. *)
Lemma net_clean n : clean n (table_net net_passive 4096).
Proof.
  split.
  - intros p d Hd _. change (prefixes (table_net net_passive 4096)) with ({[ 1%nat := net_passive ]} : gmap nat eigrp_prefix_descriptor) in Hd.
    apply lookup_singleton_Some in Hd as [_ <-]. apply not_elem_of_nil.
  - intros p d x e Hd Hx. change (prefixes (table_net net_passive 4096)) with ({[ 1%nat := net_passive ]} : gmap nat eigrp_prefix_descriptor) in Hd.
    apply lookup_singleton_Some in Hd as [_ <-]. change (topology_routes net_passive) with [2; 3]%nat in Hx.
    change (routes (table_net net_passive 4096)) with ({[ 2%nat := net_best 512; 3%nat := net_alt 4096 ]} : gmap nat eigrp_route_descriptor).
    repeat (apply elem_of_cons in Hx as [->|Hx]; [|]); try (by apply not_elem_of_nil in Hx); by intros [= <-] _ ?.
Qed.

Lemma neighbor_down_releases_witness :
  wp (eigrp_topology_neighbor_down 20%nat) (fun _ s' =>
    exists d, prefixes s' !! 1%nat = Some d /\ parted 20%nat s' d) (table_net net_passive 4096).
Proof.
  eapply wp_mono; [apply (neighbor_down_releases (table_net net_passive 4096) 20%nat);
    [exact table_net_ok|vm_compute; eauto|by apply net_single_path|apply net_clean]|].
  intros [] s' (_ & _ & _ & _ & H). apply H. eexists 25%nat, _. split; [vm_compute; by left|]. split; reflexivity.
Defined.

Lemma suspended_down_releases_witness :
  wp (eigrp_topology_suspended_neighbors_down 2%nat) (fun _ s' =>
    exists d, prefixes s' !! 1%nat = Some d /\ released 20%nat s' d) (suspended_net net_passive 4096).
Proof.
  assert (forall n, suspended (suspended_net net_passive 4096) n -> n = 20%nat) as H20.
  { intros n (nb & Hn & Hs). change (nbrs (suspended_net net_passive 4096)) with
      (<[20%nat := let nb := net_nbr 10 in {| nb with af_suspended := true |}]> ({[21%nat := net_nbr 11]} : gmap nat eigrp_nbr)) in Hn.
    apply lookup_insert_Some in Hn as [[<- _]|[_ Hn]]; [done|]. apply lookup_singleton_Some in Hn as [_ <-]. done. }
  eapply wp_mono; [apply (suspended_down_releases (suspended_net net_passive 4096) 2%nat);
    [exact suspended_net_ok| | |intros n _; by apply net_single_path|done|]|].
  - intros n nb Hn. change (nbrs (suspended_net net_passive 4096)) with
      (<[20%nat := let nb := net_nbr 10 in {| nb with af_suspended := true |}]> ({[21%nat := net_nbr 11]} : gmap nat eigrp_nbr)) in Hn.
    apply lookup_insert_Some in Hn as [[_ <-]|[_ Hn]]; [done|]. by apply lookup_singleton_Some in Hn as [_ <-].
  - intros p d n Hd. change (prefixes (suspended_net net_passive 4096)) with ({[ 1%nat := net_passive ]} : gmap nat eigrp_prefix_descriptor) in Hd.
    apply lookup_singleton_Some in Hd as [_ <-]. by intros Hn%not_elem_of_nil.
  - intros [|x [|y l]] Hnd Hl; simpl; [lia..|]. rewrite (H20 x), (H20 y) in Hnd by (apply Hl; set_solver).
    apply NoDup_cons in Hnd as [Hnd _]. destruct Hnd. by left.
  - intros [] s' (_ & H). apply (H 1%nat 20%nat).
    + eexists 25%nat, _. split; [vm_compute; by left|]. split; reflexivity.
    + eexists. split; reflexivity.
Defined.

(** The neighbor object is freed as soon as its paths are poisoned, while they wait for
    their withdrawal to be sent: the packetizer's retirement of the destination then reads
    the freed neighbor. *)
Lemma deleted_neighbor_used :
  exists s1 d1, eigrp_topology_neighbor_down 20%nat (table_net net_passive 520) = Some (tt, s1)
    /\ prefixes s1 !! 1%nat = Some d1 /\ pd_state d1 = EIGRP_FSM_STATE_PASSIVE /\ req_action d1 = EIGRP_FSM_NEED_UPDATE
    /\ let s2 := {| s1 with nbrs := delete 20%nat (nbrs s1) |} in
       eigrp_update_topology_table_prefix 1%nat (set_prefix s2 1%nat {| d1 with req_action := 0 |}) = None.
Proof. eexists _, _. do 4 (split; [vm_compute; reflexivity|]). vm_compute. reflexivity. Qed.
