(* ===== verification/MetricProps.v ===== *)
(** * Properties of the composite metric (eigrp_metric.c) *)

From Stdlib Require Import ZArith Lia.
From stdpp Require Import base gmap list.
From S2P Require Import Prelude Types Metric.

(** ** Normal form on vectors whose scaled components fit 32 bits

    There no [uint64_t] operation of [eigrp_metric_calculate] wraps. *)

Definition metric_scale (p : metric_params) : Z :=
  if EIGRP_TLV_64B_VERSION <=? metric_version p
  then EIGRP_METRIC_SCALER / EIGRP_CLASSIC_SCALER else 1.

Definition throughput (p : metric_params) (m : eigrp_metrics) : Z :=
  k1 p * bandwidth m * metric_scale p
  + (if k2 p =? 0 then 0
     else k2 p * bandwidth m * metric_scale p / (EIGRP_MAX_LOAD - load m)).

Definition composite (p : metric_params) (m : eigrp_metrics) : Z :=
  let sum := throughput p m + k3 p * delay m * metric_scale p in
  if k5 p =? 0 then sum else sum * k5 p / (reliability m + k4 p).

Definition ceiling (p : metric_params) : Z :=
  if metric_version p <? EIGRP_TLV_64B_VERSION then EIGRP_CLASSIC_MAX else EIGRP_METRIC_MAX.

(** Some component of the vector is infinite, or the reliability term divides by zero. *)
Definition infinite (p : metric_params) (m : eigrp_metrics) : bool :=
  (delay m =? EIGRP_MAX_METRIC) || (negb (k5 p =? 0) && (reliability m + k4 p =? 0)).

Section normal_form.
Context (p : metric_params).
Hypothesis Hp : metric_params_wf p.

Lemma metric_scale_bounds : 1 <= metric_scale p <= 256.
Proof. unfold metric_scale. destruct (_ <=? _); vm_compute; split; congruence. Qed.

Lemma small_u64 z : 0 <= z < 2 ^ 60 -> u64 z = z.
Proof. intros H. unfold u64. apply Z.mod_small. lia. Qed.

Lemma term_bounds k b :
  0 <= k < 256 -> 0 <= b < 2 ^ 32 ->
  0 <= k * b < 2 ^ 40 /\ 0 <= k * b * metric_scale p < 2 ^ 48.
Proof.
  intros Hk Hb. pose proof metric_scale_bounds as Hs.
  assert (k * b <= 255 * (2 ^ 32 - 1)) by nia. assert (0 <= k * b) by nia. split; nia.
Qed.

Lemma throughput_bounds m : classic_vector m -> 0 <= throughput p m < 2 ^ 49.
Proof.
  intros [[W1 W2 W3 W4 W5] C1 C2]. destruct Hp as [K1 K2 K3 K4 K5 K6 _ _].
  unfold byte in *. unfold throughput.
  destruct (term_bounds (k1 p) (bandwidth m)) as [_ T1]; [lia..|].
  destruct (term_bounds (k2 p) (bandwidth m)) as [_ T2]; [lia..|].
  destruct (k2 p =? 0); [lia|].
  assert (1 <= EIGRP_MAX_LOAD - load m) as Hl by (unfold EIGRP_MAX_LOAD; lia).
  pose proof (Z.div_pos (k2 p * bandwidth m * metric_scale p) (EIGRP_MAX_LOAD - load m)).
  pose proof (Z.div_le_upper_bound (k2 p * bandwidth m * metric_scale p)
    (EIGRP_MAX_LOAD - load m) (2 ^ 48 - 1)). nia.
Qed.

Lemma composite_nonneg m : classic_vector m -> 0 <= composite p m.
Proof.
  intros Hm. pose proof (throughput_bounds m Hm) as Ht.
  destruct Hm as [[W1 W2 W3 W4 W5] C1 C2]. destruct Hp as [K1 K2 K3 K4 K5 K6 _ _].
  unfold byte in *. destruct (term_bounds (k3 p) (delay m)) as [_ T3]; [lia..|].
  unfold composite. destruct (k5 p =? 0); [lia|].
  destruct (Z.eq_dec (reliability m + k4 p) 0) as [E|E]; [rewrite E, Z.div_0_r; lia|].
  apply Z.div_pos; nia.
Qed.

(** The whole calculation, without machine arithmetic. *)
Lemma metric_calculate_normal m :
  classic_vector m ->
  eigrp_metric_calculate p m =
    if delay m =? EIGRP_MAX_METRIC then EIGRP_MAX_METRIC
    else if negb (k5 p =? 0) && (reliability m + k4 p =? 0) then EIGRP_METRIC_MAX
    else Z.min (ceiling p) (composite p m).
Proof.
  intros Hm. pose proof (throughput_bounds m Hm) as Ht. pose proof (composite_nonneg m Hm) as Hc.
  destruct Hm as [[W1 W2 W3 W4 W5] C1 C2]. destruct Hp as [K1 K2 K3 K4 K5 K6 _ _].
  unfold byte in *.
  destruct (term_bounds (k1 p) (bandwidth m)) as [A1 A2]; [lia..|].
  destruct (term_bounds (k2 p) (bandwidth m)) as [B1 B2]; [lia..|].
  destruct (term_bounds (k3 p) (delay m)) as [D1 D2]; [lia..|].
  unfold eigrp_metric_calculate. fold (metric_scale p).
  destruct (Z.eqb_spec (delay m) EIGRP_METRIC_MAX) as [E|_]; [unfold EIGRP_METRIC_MAX in E; lia|].
  destruct (delay m =? EIGRP_MAX_METRIC); [done|].
  assert (E1 : (if k1 p =? 0 then 0 else u64 (u64 (k1 p * bandwidth m) * metric_scale p))
               = k1 p * bandwidth m * metric_scale p).
  { destruct (Z.eqb_spec (k1 p) 0) as [->|_]; [lia|]. rewrite !small_u64; rewrite ?small_u64; lia. }
  assert (E3 : (if k3 p =? 0 then 0 else u64 (u64 (k3 p * delay m) * metric_scale p))
               = k3 p * delay m * metric_scale p).
  { destruct (Z.eqb_spec (k3 p) 0) as [->|_]; [lia|]. rewrite !small_u64; rewrite ?small_u64; lia. }
  rewrite E1, E3.
  assert (E2 : (if k2 p =? 0 then k1 p * bandwidth m * metric_scale p
    else u64 (k1 p * bandwidth m * metric_scale p
      + u64 (u64 (k2 p * bandwidth m) * metric_scale p) / (EIGRP_MAX_LOAD - load m)))
    = throughput p m).
  { unfold throughput in *. destruct (k2 p =? 0); [lia|].
    rewrite (small_u64 (k2 p * bandwidth m)), (small_u64 (_ * metric_scale p)) by lia.
    apply small_u64. lia. }
  rewrite E2, (small_u64 (throughput p m + _)), (small_u64 (reliability m + _)) by lia.
  destruct (negb (k5 p =? 0) && (reliability m + k4 p =? 0)); [done|].
  assert (E5 : (if k5 p =? 0 then throughput p m + k3 p * delay m * metric_scale p
    else u64 ((throughput p m + k3 p * delay m * metric_scale p) * k5 p) / (reliability m + k4 p))
    = composite p m).
  { unfold composite. destruct (k5 p =? 0); [done|]. rewrite small_u64; [done|]. nia. }
  rewrite E5. unfold ceiling.
  assert (EIGRP_CLASSIC_MAX <= EIGRP_METRIC_MAX) by (vm_compute; congruence).
  destruct (metric_version p <? EIGRP_TLV_64B_VERSION); simpl.
  - destruct (Z.ltb_spec EIGRP_CLASSIC_MAX (composite p m)); [lia|].
    destruct (Z.ltb_spec EIGRP_METRIC_MAX (composite p m)); lia.
  - destruct (Z.ltb_spec EIGRP_METRIC_MAX (composite p m)); lia.
Qed.
End normal_form.

(** ** The distance follows the vector *)

(** The same link quality, no smaller delay and no smaller scaled bandwidth. *)
Record no_better (m m' : eigrp_metrics) : Prop := {
  nb_delay : delay m <= delay m';
  nb_bandwidth : bandwidth m <= bandwidth m';
  nb_load : load m = load m';
  nb_reliability : reliability m = reliability m';
}.

Section monotonicity.
Context (p : metric_params).
Hypothesis Hp : metric_params_wf p.

Lemma throughput_mono m m' :
  classic_vector m -> no_better m m' -> throughput p m <= throughput p m'.
Proof.
  intros [[W1 W2 W3 W4 W5] C1 C2] [_ N2 N3 _]. destruct Hp as [K1 K2 K3 K4 K5 K6 _ _].
  unfold byte in *. pose proof (metric_scale_bounds p) as Hs. unfold throughput. rewrite <-N3.
  assert (k1 p * bandwidth m * metric_scale p <= k1 p * bandwidth m' * metric_scale p)
    by (apply Z.mul_le_mono_nonneg_r; [lia|]; nia).
  destruct (k2 p =? 0); [lia|].
  enough (k2 p * bandwidth m * metric_scale p / (EIGRP_MAX_LOAD - load m)
          <= k2 p * bandwidth m' * metric_scale p / (EIGRP_MAX_LOAD - load m)) by lia.
  apply Z.div_le_mono; [unfold EIGRP_MAX_LOAD; lia|].
  apply Z.mul_le_mono_nonneg_r; [lia|]. nia.
Qed.

Lemma composite_mono m m' :
  classic_vector m -> no_better m m' -> composite p m <= composite p m'.
Proof.
  intros Hm N. pose proof (throughput_mono m m' Hm N) as Ht.
  pose proof (throughput_bounds p Hp m Hm) as Hb.
  destruct Hm as [[W1 W2 W3 W4 W5] C1 C2]. destruct N as [N1 _ _ N4].
  destruct Hp as [K1 K2 K3 K4 K5 K6 _ _]. unfold byte in *.
  pose proof (metric_scale_bounds p) as Hs.
  assert (k3 p * delay m * metric_scale p <= k3 p * delay m' * metric_scale p)
    by (apply Z.mul_le_mono_nonneg_r; [lia|]; nia).
  unfold composite. rewrite <-N4. destruct (k5 p =? 0); [lia|].
  destruct (Z.eq_dec (reliability m + k4 p) 0) as [E|E]; [rewrite E, !Z.div_0_r; lia|].
  apply Z.div_le_mono; [lia|]. apply Z.mul_le_mono_nonneg_r; lia.
Qed.

Lemma calculate_mono m m' :
  classic_vector m -> classic_vector m' -> no_better m m' ->
  delay m' <> EIGRP_MAX_METRIC ->
  eigrp_metric_calculate p m <= eigrp_metric_calculate p m'.
Proof.
  intros Hm Hm' N Hd. pose proof (composite_mono m m' Hm N) as Hc.
  rewrite !metric_calculate_normal by done. destruct N as [N1 _ _ N4]. rewrite <-N4.
  destruct (Z.eqb_spec (delay m') EIGRP_MAX_METRIC); [done|].
  destruct (Z.eqb_spec (delay m) EIGRP_MAX_METRIC).
  { destruct Hm' as [_ C _]. unfold EIGRP_MAX_METRIC in *. lia. }
  destruct (_ && _); lia.
Qed.

Lemma calculate_max m : classic_vector m -> eigrp_metric_calculate p m <= EIGRP_METRIC_MAX.
Proof.
  intros Hm. rewrite metric_calculate_normal by done.
  destruct (_ =? _); [vm_compute; congruence|]. destruct (_ && _); [done|].
  unfold ceiling. destruct (_ <? _); [|lia].
  assert (EIGRP_CLASSIC_MAX <= EIGRP_METRIC_MAX) by (vm_compute; congruence). lia.
Qed.
End monotonicity.

(** The inbound link as the metric sees it. *)
Definition link_delay (ei : eigrp_intf) : Z := eigrp_delay_to_scaled (if_delay ei).

Section total.
Context (p : metric_params) (ei : eigrp_intf) (m t : eigrp_metrics) (dist : Z).
Hypothesis Hp : metric_params_wf p.
Hypothesis Hm : classic_vector m.
Hypothesis Hadd : delay m + link_delay ei < EIGRP_MAX_METRIC.

Lemma link_delay_nonneg : 0 <= link_delay ei.
Proof. unfold link_delay, eigrp_delay_to_scaled. apply u32_range. Qed.

Lemma bandwidth_to_scaled_range b x : eigrp_bandwidth_to_scaled b = Some x -> 0 <= x < 2 ^ 32.
Proof.
  unfold eigrp_bandwidth_to_scaled. intros H. simpl in H.
  destruct (b =? EIGRP_BANDWIDTH_MAX); [|destruct (b =? 0)]; simplify_eq/=; apply u32_range.
Qed.

Lemma max_delay_calculate x :
  delay x = EIGRP_METRIC_MAX -> eigrp_metric_calculate p x = EIGRP_METRIC_MAX.
Proof. intros H. unfold eigrp_metric_calculate. by rewrite H. Qed.

Lemma le_if_ltb a b : a <= if a <? b then b else a.
Proof. destruct (Z.ltb_spec a b); lia. Qed.

Lemma total_bandwidth_mono bw (x : eigrp_metrics) :
  delay m <= delay x < EIGRP_MAX_METRIC -> bandwidth x = bandwidth m ->
  load x = load m -> reliability x = reliability m -> byte (hop_count x) -> 0 <= bw < 2 ^ 32 ->
  eigrp_metric_calculate p m <= eigrp_metric_calculate p
    {| x with bandwidth := if bandwidth x <? bw then bw else bandwidth x |}.
Proof.
  intros Hd Eb El Er Hh Hbw. destruct Hm as [[W1 W2 W3 W4 W5] C1 C2].
  unfold EIGRP_MAX_METRIC in *.
  assert (Hb : bandwidth m <= (if bandwidth x <? bw then bw else bandwidth x) < 2 ^ 32)
    by (destruct (Z.ltb_spec (bandwidth x) bw); lia).
  apply calculate_mono; [done|done| | |].
  - split; [split|..]; simpl; rewrite ?El, ?Er; try done; lia.
  - split; simpl; try done; lia.
  - simpl. unfold EIGRP_MAX_METRIC. lia.
Qed.
End total.

(** ** Theorems *)

(** C40: on every vector the classic TLV can carry, the [uint64_t] computation of
    [eigrp_metric_calculate] never wraps: it is the RFC 7868 composite over the
    integers, cut at the ceiling of the metric version, with the two infinite
    cases apart. *)
Theorem metric_calculate_composite p m :
  metric_params_wf p -> classic_vector m ->
  eigrp_metric_calculate p m =
    if delay m =? EIGRP_MAX_METRIC then EIGRP_MAX_METRIC
    else if negb (k5 p =? 0) && (reliability m + k4 p =? 0) then EIGRP_METRIC_MAX
    else Z.min (ceiling p) (composite p m).
Proof. intros. by apply metric_calculate_normal. Qed.

(** a link never shortens a path: the distance
    [eigrp_metric_total_calculate] returns is at least the distance of the vector
    the neighbor reported, and the accumulated delay and scaled bandwidth are no
    smaller, whatever the K values, the hop limit and the link. *)
Theorem metric_total_no_shorter p ei m t dist :
  metric_params_wf p -> classic_vector m ->
  delay m + link_delay ei < EIGRP_MAX_METRIC ->
  eigrp_metric_total_calculate p (Some ei) m = Some (t, dist) ->
  eigrp_metric_calculate p m <= dist /\ delay m <= delay t /\ bandwidth m <= bandwidth t.
Proof.
  intros Hp Hm Hadd. pose proof (link_delay_nonneg ei) as Hl.
  pose proof (calculate_max p Hp m Hm) as Hmax. pose proof Hm as [[W1 W2 W3 W4 W5] C1 C2].
  unfold eigrp_metric_total_calculate. unfold EIGRP_MAX_METRIC in Hadd.
  destruct (Z.eqb_spec (delay m) EIGRP_MAX_METRIC) as [E|_]; [unfold EIGRP_MAX_METRIC in E; lia|].
  destruct (Z.eqb_spec (delay m) EIGRP_METRIC_MAX) as [E|_]; [unfold EIGRP_METRIC_MAX in E; lia|].
  cbn [mbind option_bind]. fold (link_delay ei). cbv zeta.
  destruct (eigrp_bandwidth_to_scaled (if_bandwidth ei)) as [bw|] eqn:Ebw; [|done].
  pose proof (bandwidth_to_scaled_range _ _ Ebw) as Hbw.
  assert ((EIGRP_METRIC_MAX - link_delay ei <=? delay m) = false) as ->
    by (apply Z.leb_gt; unfold EIGRP_METRIC_MAX; lia).
  assert (Hinf : delay m <= EIGRP_METRIC_MAX) by (unfold EIGRP_METRIC_MAX; lia).
  cbn [hop_count]. destruct (Z.eqb_spec (hop_count m) UINT8_MAX) as [Hh|Hh]; cbn [hop_count];
    destruct (max_hops p <? _); intros [= <- <-]; simpl;
    (split; [|split; [lia|apply le_if_ltb]]);
    try (by etransitivity; [exact Hmax|]; rewrite max_delay_calculate).
  apply (total_bandwidth_mono p m Hp Hm bw
    {| m with delay := delay m + link_delay ei; hop_count := hop_count m + 1 |}); simpl; try done.
  - unfold EIGRP_MAX_METRIC. lia.
  - unfold byte, UINT8_MAX in *. lia.
Qed.

(** ** Instances *)

Definition ex_params : metric_params :=
  {| k1 := 1; k2 := 0; k3 := 1; k4 := 0; k5 := 0; k6 := 0; metric_version := 1; max_hops := 100 |}.
Definition ex_metric : eigrp_metrics :=
  {| zero_metrics with delay := 512; bandwidth := 25600; reliability := 255; load := 1 |}.
Definition ex_intf : eigrp_intf :=
  {| ifindex := 1; if_bandwidth := 100000; if_delay := 10; if_reliability := 255; if_load := 1;
     if_split_horizon := true; if_nbrs := [] |}.

Lemma ex_params_wf : metric_params_wf ex_params.
Proof. split; vm_compute; split; congruence. Qed.
Lemma ex_metric_classic : classic_vector ex_metric.
Proof. split; [split|..]; vm_compute; try split; congruence. Qed.

Lemma metric_calculate_composite_witness : eigrp_metric_calculate ex_params ex_metric = 26112.
Proof.
  rewrite (metric_calculate_composite ex_params ex_metric ex_params_wf ex_metric_classic).
  reflexivity.
Defined.

Lemma metric_total_no_shorter_witness :
  exists t dist, eigrp_metric_total_calculate ex_params (Some ex_intf) ex_metric = Some (t, dist)
    /\ eigrp_metric_calculate ex_params ex_metric <= dist.
Proof.
  eexists _, _. split; [reflexivity|].
  eapply (metric_total_no_shorter ex_params ex_intf ex_metric);
    [exact ex_params_wf|exact ex_metric_classic|vm_compute; reflexivity|reflexivity].
Defined.

(** ** Observations *)

(** The wide distance does not fit the [uint32_t] fields it is stored in: the
    path over a 64 kbit/s link is longer than the one over 256 kbit/s, and
    shorter once both are stored. *)
Lemma wide_distance_truncated :
  let p := {| ex_params with metric_version := EIGRP_TLV_64B_VERSION |} in
  let path kbit := match eigrp_bandwidth_to_scaled kbit with
                   | Some bw => eigrp_metric_calculate p {| ex_metric with bandwidth := bw |}
                   | None => 0 end in
  path 256 < path 64 /\ u32 (path 64) < u32 (path 256).
Proof. vm_compute. done. Qed.

(** [eigrp_scaled_to_bandwidth] does not undo [eigrp_bandwidth_to_scaled]: it
    multiplies by the scale where the conversion divided. *)
Lemma scaled_to_bandwidth_not_inverse :
  eigrp_bandwidth_to_scaled 100000 = Some 25600
  /\ eigrp_scaled_to_bandwidth 25600 = 65536000000000.
Proof. vm_compute. done. Qed.
