(* ===== verification/Maintenance.v ===== *)
(** * Table-wide maintenance (eigrp_topology.c)

    The sweeps over the topology table run when a configuration value changes:
    successor marking, the RIB refresh of multipath and traffic-share changes,
    and the recalculation of every distance after a metric change, with the
    bubble sort that reorders the route queues. *)

From Stdlib Require Import ZArith Lia.
From stdpp Require Import base gmap list sorting.
From S2P Require Import Prelude Types Metric Prefix State Topology Fsm.

(** ** The queue sort *)

Section bubble.
Context {A : Type} (key : A -> Z).

(** One walk of [a] over the list: the data of [a] and [a->next] are swapped
    when out of order; the flag is [changed]. *)
Fixpoint bubble_pass (a : A) (l : list A) : list A * bool :=
  match l with
  | [] => ([a], false)
  | b :: l' =>
      if key a <=? key b then
        let '(k, changed) := bubble_pass b l' in (a :: k, changed)
      else
        let '(k, _) := bubble_pass a l' in (b :: k, true)
  end.

(** The [do ... while (changed)] loop. *)
Fixpoint bubble_sort (fuel : nat) (l : list A) : option (list A) :=
  match fuel with
  | O => None
  | S fuel' =>
      match l with
      | [] => Some []
      | a :: l' =>
          let '(k, changed) := bubble_pass a l' in
          if changed then bubble_sort fuel' k else Some k
      end
  end.

(** The number of pairs out of order: every pass that changes the list lowers it. *)
Fixpoint inversions (l : list A) : nat :=
  match l with
  | [] => O
  | a :: l' => (length (List.filter (fun b => key b <? key a)%Z l') + inversions l')%nat
  end.
End bubble.

(** Every element is read by the first pass of a queue of two or more. *)
Definition eigrp_topology_route_queue_resort (queue : list ptr) : St (list ptr) :=
  match queue with
  | _ :: _ :: _ =>
      mfor queue (fun r => _ ← get_route r; mret tt);;
      s ← get;
      let dist r := match routes s !! r with Some d => rd_distance d | None => 0 end in
      nonnull (bubble_sort dist (S (inversions dist queue)) queue)
  | _ => mret queue
  end.

(** ** Sweeps *)

(** [for (rn = eigrp_table_first(...); rn; rn = eigrp_table_next(rn))] with
    [prefix = rn->info] tested; the bodies do not link or unlink nodes. *)
Definition table_sweep (body : ptr -> St unit) : St unit :=
  table ← gets topology_table;
  mfor table (fun t =>
    rn ← get_tnode t;
    match tn_info rn with
    | None => mret tt
    | Some p => body p
    end).

Definition passive_sweep (body : ptr -> St unit) : St unit :=
  table_sweep (fun p =>
    prefix ← get_prefix p;
    if bool_decide (pd_state prefix = EIGRP_FSM_STATE_PASSIVE) then body p else mret tt).

Definition eigrp_topology_update_all_node_flags : St unit :=
  table_sweep eigrp_topology_update_node_flags.

Definition eigrp_topology_multipath_update : St unit :=
  passive_sweep (fun p => eigrp_topology_update_node_flags p;; eigrp_update_routing_table p).

Definition eigrp_topology_traffic_share_update : St unit :=
  passive_sweep eigrp_update_routing_table.

(** The new distances of a local route (advertised by [neighbor_self]). *)
Definition metric_update_local (eigrp : metric_params) (ei : option eigrp_intf)
    (route : eigrp_route_descriptor) : option eigrp_route_descriptor :=
  let route := {| route with rd_reported_distance := 0 |} in
  let seed := {| route with rd_reported_metric := rd_metric route;
                 rd_total_metric := rd_metric route |} in
  if delay (rd_metric route) =? EIGRP_MAX_METRIC then
    Some {| seed with rd_distance := EIGRP_MAX_METRIC |}
  else
    match ei with
    | Some ei =>
        bw ← eigrp_bandwidth_to_scaled (if_bandwidth ei);
        let m := rd_metric route in
        let metric := {| m with bandwidth := bw; delay := eigrp_delay_to_scaled (if_delay ei);
                         load := if_load ei; reliability := if_reliability ei; hop_count := 0 |} in
        Some {| route with rd_metric := metric; rd_reported_metric := metric;
                rd_total_metric := metric;
                rd_distance := u32 (eigrp_metric_calculate eigrp metric) |}
    | None =>
        Some {| seed with
                rd_distance := u32 (eigrp_topology_redistributed_distance eigrp (rd_metric route)) |}
    end.

(** The new distances of a route learned from a neighbor. *)
Definition metric_update_remote (eigrp : metric_params) (ei : option eigrp_intf)
    (route : eigrp_route_descriptor) : option eigrp_route_descriptor :=
  let route := {| route with rd_reported_distance :=
                    u32 (eigrp_metric_calculate eigrp (rd_reported_metric route)) |} in
  match ei with
  | Some _ =>
      '(total, dist) ← eigrp_metric_total_calculate eigrp ei (rd_reported_metric route);
      Some {| route with rd_total_metric := total; rd_distance := u32 dist |}
  | None =>
      Some {| route with rd_distance := u32 (eigrp_metric_calculate eigrp (rd_total_metric route)) |}
  end.

(** The loop over the routes; returns whether a local route was seen. *)
Fixpoint metric_update_routes (queue : list ptr) : St bool :=
  match queue with
  | [] => mret false
  | r :: queue' =>
      route ← get_route r;
      ei ← (match rd_ei route with
            | None => mret None
            | Some i => ei ← get_intf i; mret (Some ei)
            end);
      p ← gets params;
      self ← gets neighbor_self;
      let local := bool_decide (rd_adv_router route = self) in
      route' ← nonnull (if local then metric_update_local p ei route
                        else metric_update_remote p ei route);
      put_route r route';;
      rest ← metric_update_routes queue';
      mret (local || rest)
  end.

Definition metric_update_prefix (p : ptr) : St unit :=
  prefix ← get_prefix p;
  let unelected := (distance prefix =? EIGRP_MAX_METRIC) && (fdistance prefix =? EIGRP_MAX_METRIC)
                   && (delay (reported_metric prefix) =? EIGRP_MAX_METRIC) in
  local ← metric_update_routes (topology_routes prefix);
  internal ← eigrp_topology_route_queue_resort (internal_routes prefix);
  external ← eigrp_topology_route_queue_resort (external_routes prefix);
  upd_prefix p (fun d => {| d with internal_routes := internal; external_routes := external |});;
  if unelected && negb local then mret tt
  else
    best ← eigrp_topology_route_read p;
    (match best with
     | None => mret tt
     | Some r =>
         route ← get_route r;
         upd_prefix p (fun d => {| d with
           distance := rd_distance route; fdistance := rd_distance route;
           rdistance := rd_distance route; reported_metric := rd_total_metric route |})
     end);;
    eigrp_topology_update_node_flags p;;
    eigrp_update_routing_table p;;
    upd_prefix p (fun d => {| d with req_action := Z.lor (req_action d) EIGRP_FSM_NEED_UPDATE |});;
    changes ← gets topology_changes;
    if bool_decide (p ∈ changes) then mret tt else topology_changes_add p.

Definition eigrp_topology_metric_update : St unit :=
  passive_sweep metric_update_prefix;;
  eigrp_update_send_all None.

(** ** The sort is a stable sort *)

Section bubble_facts.
Context {A : Type} (key : A -> Z).

Lemma bubble_pass_perm a l : fst (bubble_pass key a l) ≡ₚ a :: l.
Proof.
  revert a. induction l as [|b l IH]; intros a; simpl; [done|].
  destruct (key a <=? key b).
  - specialize (IH b). destruct (bubble_pass key b l). simpl in *. by rewrite IH.
  - specialize (IH a). destruct (bubble_pass key a l). simpl in *. rewrite IH. apply Permutation_swap.
Qed.

Lemma bubble_pass_stable a l k :
  List.filter (fun x => key x =? k) (fst (bubble_pass key a l))
  = List.filter (fun x => key x =? k) (a :: l).
Proof.
  revert a. induction l as [|b l IH]; intros a; [done|].
  simpl bubble_pass. destruct (Z.leb_spec (key a) (key b)).
  - specialize (IH b). destruct (bubble_pass key b l). simpl in *. by rewrite IH.
  - specialize (IH a). destruct (bubble_pass key a l). simpl in *. rewrite IH.
    destruct (Z.eqb_spec (key a) k), (Z.eqb_spec (key b) k); try done. lia.
Qed.

(** A pass that changed nothing saw a sorted list. *)
Lemma bubble_pass_sorted a l :
  snd (bubble_pass key a l) = false ->
  fst (bubble_pass key a l) = a :: l /\ StronglySorted (key_le key) (a :: l).
Proof.
  revert a. induction l as [|b l IH]; intros a; simpl.
  - intros _. split; [done|]. repeat constructor.
  - destruct (Z.leb_spec (key a) (key b)) as [Hab|Hab].
    + specialize (IH b). destruct (bubble_pass key b l) as [k c]. simpl in *.
      intros ->. destruct (IH eq_refl) as [-> Hs]. split; [done|]. constructor; [done|].
      constructor; [done|]. apply StronglySorted_inv in Hs as [_ Hf].
      eapply Forall_impl; [exact Hf|]. unfold key_le. intros x Hx. lia.
    + by destruct (bubble_pass key a l).
Qed.

Lemma filter_length_perm (P : A -> bool) l k :
  l ≡ₚ k -> length (List.filter P l) = length (List.filter P k).
Proof. induction 1; simpl; repeat case_match; simpl; congruence. Qed.

(** A pass never adds an inversion, and removes one when it changes the list. *)
Lemma bubble_pass_inversions a l :
  let '(k, changed) := bubble_pass key a l in
  (inversions key k + (if changed then 1 else 0) <= inversions key (a :: l))%nat.
Proof.
  revert a. induction l as [|b l IH]; intros a; [simpl; lia|].
  simpl bubble_pass. destruct (Z.leb_spec (key a) (key b)) as [Hab|Hab].
  - specialize (IH b). pose proof (bubble_pass_perm b l) as Hp.
    destruct (bubble_pass key b l) as [k c]. simpl fst in Hp.
    change (inversions key (a :: k)) with
      (length (List.filter (fun x => (key x <? key a)%Z) k) + inversions key k)%nat.
    change (inversions key (a :: b :: l)) with
      (length (List.filter (fun x => (key x <? key a)%Z) (b :: l)) + inversions key (b :: l))%nat.
    rewrite (filter_length_perm _ _ _ Hp). lia.
  - specialize (IH a). pose proof (bubble_pass_perm a l) as Hp.
    destruct (bubble_pass key a l) as [k c]. simpl fst in Hp. simpl in IH |- *.
    rewrite (filter_length_perm _ _ _ Hp). simpl.
    destruct (Z.ltb_spec (key a) (key b)); [lia|].
    destruct (Z.ltb_spec (key b) (key a)); [|lia]. simpl. destruct c; lia.
Qed.

Definition stable_sort (l l' : list A) : Prop :=
  l' ≡ₚ l /\ StronglySorted (key_le key) l'
  /\ forall k, List.filter (fun x => key x =? k) l' = List.filter (fun x => key x =? k) l.

Lemma bubble_sort_spec fuel l :
  (inversions key l < fuel)%nat -> exists l', bubble_sort key fuel l = Some l' /\ stable_sort l l'.
Proof.
  revert l. induction fuel as [|fuel IH]; intros l Hf; [lia|].
  destruct l as [|a l]; [exists []; repeat split; constructor|]. simpl bubble_sort.
  pose proof (bubble_pass_inversions a l) as Hi. pose proof (bubble_pass_perm a l) as Hp.
  pose proof (bubble_pass_stable a l) as Hst. pose proof (bubble_pass_sorted a l) as Hs.
  destruct (bubble_pass key a l) as [k changed]. simpl fst in *. simpl snd in *.
  destruct changed.
  - destruct (IH k) as (l' & Hl & P & S & F); [lia|]. exists l'. split; [done|].
    split; [by rewrite P|]. split; [done|]. intros j. by rewrite F, Hst.
  - exists k. split; [done|]. destruct (Hs eq_refl) as [-> Hsorted]. by split.
Qed.
End bubble_facts.
