(* ===== verification/TopologyProps.v ===== *)
(** * Properties of the topology table operations

    Route selection, successor marking, the RIB refresh and the queue sort of
    eigrp_topology.c. *)

From Stdlib Require Import ZArith Lia.
From stdpp Require Import base gmap list sorting.
From S2P Require Import Prelude Types Metric Prefix State Topology Fsm Store Marking Frame Handlers Invariant Distance Network Maintenance.

(** ** Flags of a route *)

Definition marked (flag : Z) (s : eigrp_instance) (r : ptr) : bool :=
  on_route s (fun e => rd_flags e .? flag) r.
Abbreviation is_successor := (marked EIGRP_ROUTE_DESCRIPTOR_SUCCESSOR_FLAG).
Abbreviation is_fsuccessor := (marked EIGRP_ROUTE_DESCRIPTOR_FSUCCESSOR_FLAG).
Abbreviation in_table := (marked EIGRP_ROUTE_DESCRIPTOR_INTABLE_FLAG).

Section marking.
Context (s : eigrp_instance) (dest : eigrp_prefix_descriptor).

Lemma node_mark_cases r :
  r ∈ eligible_queue s dest ->
  let feasible := on_route s (feasible_route (fdistance dest)) r in
  (node_mark s dest r = EIGRP_ROUTE_DESCRIPTOR_SUCCESSOR_FLAG /\ feasible = true
     /\ on_route s (within_variance (distance dest) (variance s)) r = true)
  \/ (node_mark s dest r = EIGRP_ROUTE_DESCRIPTOR_FSUCCESSOR_FLAG /\ feasible = true)
  \/ (node_mark s dest r = 0 /\ feasible = false).
Proof. intros Hr. eapply (mark_spec s _ _ _ (effective_max_paths s) 0), mark_of_in, Hr. Qed.

Lemma node_mark_other r : r ∉ eligible_queue s dest -> node_mark s dest r = 0.
Proof. apply mark_of_notin. Qed.

(** The two marks after the update are exactly the loop's. *)
Lemma node_flags_mark s' r e n :
  flags_by (node_flags s dest) s s' -> routes s !! r = Some e -> r ∈ topology_routes dest ->
  n = 0 \/ n = 1 -> marked (2 ^ n) s' r = (node_mark s dest r .? 2 ^ n).
Proof.
  intros Hf He Hr Hn. unfold marked, on_route. rewrite (fb_routes _ _ _ Hf), He. simpl.
  unfold node_flags, flag_update. rewrite bool_decide_true by done.
  rewrite has_flag_lor, has_flag_ldiff by lia.
  assert (SUCCESSOR_FLAGS .? 2 ^ n = true) as -> by (by destruct Hn as [-> | ->]).
  by rewrite andb_false_r.
Qed.

Lemma successors_length s' l :
  flags_by (node_flags s dest) s s' -> live_routes s l -> NoDup l ->
  (forall r, r ∈ l -> r ∈ topology_routes dest) ->
  (length (List.filter (is_successor s') l)
    <= length (filter (fun m => snd m = EIGRP_ROUTE_DESCRIPTOR_SUCCESSOR_FLAG)
         (marks s (fdistance dest) (distance dest) (variance s) (effective_max_paths s) 0
            (eligible_queue s dest))))%nat.
Proof.
  intros Hf Hl Hnd Hsub.
  set (M := marks _ _ _ _ _ _ _).
  assert (Hincl : incl ((fun r => (r, EIGRP_ROUTE_DESCRIPTOR_SUCCESSOR_FLAG))
            <$> List.filter (is_successor s') l)
          (filter (fun m => snd m = EIGRP_ROUTE_DESCRIPTOR_SUCCESSOR_FLAG) M)).
  { intros [x f] Hx. apply list_elem_of_In. apply list_elem_of_In, list_elem_of_fmap in Hx
      as (y & [= -> ->] & Hy). apply list_elem_of_In, List.filter_In in Hy as [Hin Hm].
    apply list_elem_of_In in Hin. pose proof (Hsub y Hin) as Hy.
    unfold live_routes in Hl. rewrite Forall_forall in Hl. destruct (Hl y Hin) as [e He].
    rewrite successor_flag_pow, (node_flags_mark s' y e 0) in Hm by auto.
    apply list_elem_of_filter. split; [done|].
    destruct (decide (y ∈ eligible_queue s dest)) as [Hq|Hq];
      [|by rewrite node_mark_other in Hm].
    pose proof (mark_of_in s (fdistance dest) (distance dest) (variance s)
      (effective_max_paths s) 0 _ y Hq) as Hmk. fold (node_mark s dest y) in Hmk.
    destruct (node_mark_cases y Hq) as [[E _]|[[E _]|[E _]]]; rewrite E in *; done. }
  rewrite <-(length_fmap (fun r => (r, EIGRP_ROUTE_DESCRIPTOR_SUCCESSOR_FLAG))).
  apply NoDup_incl_length; [|exact Hincl].
  apply NoDup_ListNoDup, NoDup_fmap_2; [by intros ? ? [= ->]|].
  apply NoDup_ListNoDup, List.NoDup_filter, NoDup_ListNoDup, Hnd.
Qed.
End marking.

(** ** Searching a sorted queue *)

Section search.
Context {A : Type} (P : A -> bool).

Lemma find_app (l k : list A) :
  List.find P (l ++ k) = match List.find P l with Some x => Some x | None => List.find P k end.
Proof. induction l as [|x l IH]; simpl; [done|]. by destruct (P x). Qed.

Lemma find_none_elem (l : list A) : List.find P l = None -> forall x, x ∈ l -> P x = false.
Proof. intros H x Hx. eapply List.find_none; [exact H|]. by apply list_elem_of_In. Qed.

Lemma find_least (key : A -> Z) l x y :
  StronglySorted (key_le key) l -> List.find P l = Some x -> y ∈ l -> P y = true -> key x <= key y.
Proof.
  induction 1 as [|z l Hs IH Hf]; simpl; [done|]. destruct (P z) eqn:E.
  - intros [= <-] [->|Hy]%elem_of_cons _; [done|]. rewrite Forall_forall in Hf. by apply Hf.
  - intros Hx [->|Hy]%elem_of_cons HP; [congruence|auto].
Qed.
End search.

Lemma wp_read_all l s (Q : unit -> eigrp_instance -> Prop) :
  live_routes s l -> Q tt s -> wp (mfor l (fun r => _ ← get_route r; mret tt)) Q s.
Proof.
  intros Hl HQ. induction Hl as [|r l [d Hd] Hl IH]; simpl; [done|]. by wp_simpl.
Qed.

(** ** Theorems *)

Section theorems.
Context (s : eigrp_instance) (p : ptr) (dest : eigrp_prefix_descriptor).
Hypothesis Hwf : instance_wf s.
Hypothesis Hp : prefixes s !! p = Some dest.

(** A candidate is feasible, reachable and lies within variance. *)
Definition successor_candidate (e : eigrp_route_descriptor) : Prop :=
  rd_reported_distance e < fdistance dest /\ rd_distance e <> EIGRP_MAX_METRIC
  /\ rd_distance e <= distance dest * variance s.

Lemma candidate_spec r e : routes s !! r = Some e ->
  candidate s (fdistance dest) (distance dest) (variance s) r = true <-> successor_candidate e.
Proof.
  intros He. unfold candidate, on_route, successor_candidate. rewrite He. unfold feasible_route, within_variance, reachable.
  rewrite !andb_true_iff, negb_true_iff, Z.ltb_lt, Z.eqb_neq, Z.leb_le. done.
Qed.

(** C17: [eigrp_topology_update_node_flags] leaves exactly the sets that DUAL, variance and
    maximum-paths define.  Routes outside the queue of the selected class carry neither
    mark.  In that queue a route is a successor exactly when it passed the feasibility
    condition, is reachable, lies within variance and fewer than maximum-paths routes (4
    when unset) that do so precede it; the routes that passed the feasibility condition and
    are no successor are exactly the feasible successors.  Nothing but the flags of routes
    changes, and at most maximum-paths routes are successors. *)
Theorem node_flags_sound :
  wp (eigrp_topology_update_node_flags p) (fun _ s' =>
    upto_flags s s'
    /\ (forall r, r ∈ topology_routes dest -> r ∉ eligible_queue s dest -> is_successor s' r = false /\ is_fsuccessor s' r = false)
    /\ (forall pre r post e, eligible_queue s dest = pre ++ r :: post -> routes s !! r = Some e ->
         (is_successor s' r = true <-> successor_candidate e
            /\ Z.of_nat (length (List.filter (candidate s (fdistance dest) (distance dest) (variance s)) pre)) < effective_max_paths s)
         /\ (is_fsuccessor s' r = true <-> rd_reported_distance e < fdistance dest /\ is_successor s' r = false))
    /\ Z.of_nat (length (List.filter (is_successor s') (topology_routes dest)))
         <= Z.max 0 (effective_max_paths s)) s.
Proof.
  destruct (iw_dests _ Hwf p dest Hp) as [Hnd Hrt _ _ _ _ _].
  assert (Hl : live_routes s (topology_routes dest)).
  { apply Forall_forall. intros r Hr. destruct (Hrt r Hr) as (e & ? & _). eauto. }
  apply (wp_update_node_flags p dest); [done|done|done|]. intros s' Hf.
  split; [apply Hf|]. split; [|split].
  - intros r Hr Hq. destruct (Hrt r Hr) as (e & He & _). rewrite successor_flag_pow, fsuccessor_flag_pow.
    by rewrite !(node_flags_mark s dest s' r e), node_mark_other by auto.
  - intros pre r post e Eq He.
    assert (r ∈ topology_routes dest) as Hr by (apply (eligible_sub s); rewrite Eq; apply elem_of_app; right; by left).
    pose proof (eligible_nodup s dest Hnd) as Hq. rewrite Eq in Hq.
    pose proof (candidate_spec r e He) as Hc. unfold candidate, on_route in Hc. rewrite He in Hc. rewrite <-Hc.
    rewrite successor_flag_pow, fsuccessor_flag_pow, !(node_flags_mark s dest s' r e) by auto.
    unfold node_mark. rewrite Eq, mark_of_at by exact Hq. unfold on_route. rewrite He, <-Z.ltb_lt. cbn [default].
    change (rd_reported_distance e < fdistance dest) with (rd_reported_distance e < fdistance dest).
    unfold feasible_route. rewrite Z.add_0_l.
    destruct (Z.ltb_spec (rd_reported_distance e) (fdistance dest)), (within_variance _ _ e), (_ <? effective_max_paths s);
      simpl; intuition (done || lia).
  - pose proof (successors_length s dest s' (topology_routes dest) Hf Hl Hnd) as H.
    pose proof (marks_bound s (fdistance dest) (distance dest) (variance s)
      (effective_max_paths s) 0 (eligible_queue s dest)). specialize (H (fun _ H => H)). lia.
Qed.

(** No feasible route of [l] is shorter than [eb]. *)
Definition least_feasible (l : list ptr) (eb : eigrp_route_descriptor) : Prop :=
  forall r e, r ∈ l -> routes s !! r = Some e -> feasible (fdistance dest) e ->
    rd_distance eb <= rd_distance e.

Lemma find_least_feasible l b eb :
  StronglySorted (key_le (route_dist s)) l ->
  List.find (on_route s (satisfies_fc (fdistance dest))) l = Some b -> routes s !! b = Some eb ->
  least_feasible l eb.
Proof.
  intros Hs Hf Eb r e Hr Er Hfe.
  pose proof (find_least (on_route s (satisfies_fc (fdistance dest))) _ _ b r Hs Hf Hr) as H.
  unfold on_route, route_dist in H. rewrite Er, Eb in H. by apply H, satisfies_fc_spec.
Qed.

(** C18: the selector shared by the FSM and the marking is complete: it returns
    no route exactly when no stored route is feasible; the route it returns is
    feasible and of least distance among the feasible routes of its class, and an
    external route is returned only when no internal route is feasible. *)
Theorem route_select_best :
  wp (eigrp_topology_route_select p) (fun o s' =>
    s' = s /\
    match o with
    | None => none_feasible s dest
    | Some b =>
        exists eb, routes s !! b = Some eb /\ feasible (fdistance dest) eb
        /\ ((b ∈ internal_routes dest /\ least_feasible (internal_routes dest) eb)
            \/ (b ∈ external_routes dest
                /\ (forall r e, r ∈ internal_routes dest -> routes s !! r = Some e ->
                     ~ feasible (fdistance dest) e)
                /\ least_feasible (external_routes dest) eb))
    end) s.
Proof.
  destruct (iw_dests _ Hwf p dest Hp) as [Hnd Hrt Hi He _ _ _].
  assert (Hl : live_routes s (topology_routes dest)).
  { apply Forall_forall. intros r Hr. destruct (Hrt r Hr) as (e & ? & _). eauto. }
  apply (wp_route_select p dest); [done|done|]. split; [done|].
  destruct (select_of s dest) as [b|] eqn:Es; [|by apply select_none].
  destruct (select_of_live _ _ _ Es) as (_ & eb & Eb & Hfc). exists eb. split; [done|].
  split; [by apply satisfies_fc_spec|].
  unfold select_of, topology_routes in Es. rewrite find_app in Es.
  destruct (List.find _ (internal_routes dest)) as [b'|] eqn:Ei.
  - injection Es as ->. left. pose proof (List.find_some _ _ Ei) as [Hin _].
    split; [by apply list_elem_of_In|by eapply find_least_feasible].
  - right. pose proof (List.find_some _ _ Es) as [Hin _]. split; [by apply list_elem_of_In|].
    split; [|by eapply find_least_feasible]. intros r e Hr Er Hf.
    pose proof (find_none_elem _ _ Ei r Hr) as Hn. unfold on_route in Hn. rewrite Er in Hn.
    apply satisfies_fc_spec in Hf. congruence.
Qed.

(** C19: [eigrp_update_routing_table] leaves the INTABLE flag on exactly the first
    maximum-paths successors in queue order, keeps the successor flags, and makes exactly
    the calls of [rib_refresh] to the host: the withdrawal of the destination when there is
    no successor; otherwise one add of this destination at its distance, whose next hops
    are, in order, those of the first 32 installed routes with an interface (interface
    index, the neighbor's IPv4 or IPv6 address as gateway, and the balanced traffic share
    of the largest distance as weight), and whose class, administrative distance and tag
    are those of the first installed route; no call only when no installed route has an
    interface.  Allocations succeed. *)
Theorem routing_table_refresh :
  mem s = [] ->
  wp (eigrp_update_routing_table p) (fun _ s' =>
    upto_flags s s'
    /\ (forall r, r ∈ topology_routes dest ->
         in_table s' r = bool_decide (r ∈ installed_set s dest))
    /\ (forall r, is_successor s' r = is_successor s r)
    /\ rib_log s' = rib_log s ++ rib_refresh s dest) s.
Proof.
  intros Hm. pose proof (iw_dests _ Hwf p dest Hp) as Hd.
  apply (wp_update_routing_table p dest);
    [done|apply (ok_linked _ _ (dest_wf_ok _ _ _ Hd))|done|].
  intros s' [Hu Hr Hlog]. split; [done|]. split; [|split; [|done]].
  - intros r Hin. destruct (dw_routes _ _ _ Hd r Hin) as (e & He & _).
    unfold marked, on_route. rewrite Hr, He. simpl. unfold table_flags, flag_update.
    rewrite (bool_decide_true (r ∈ topology_routes dest)) by done.
    rewrite intable_flag_pow. case_bool_decide.
    + by rewrite has_flag_lor, orb_true_r by lia.
    + unfold id. by rewrite has_flag_ldiff, andb_false_r by lia.
  - intros r. unfold marked, on_route. rewrite Hr. destruct (routes s !! r) as [e|]; [|done].
    simpl. unfold table_flags, flag_update. rewrite successor_flag_pow.
    repeat case_bool_decide; unfold id; rewrite ?has_flag_lor, ?has_flag_ldiff by lia; simpl;
      by rewrite ?orb_false_r, ?andb_true_r.
Qed.

(** the in-place bubble sort of [eigrp_topology_route_queue_resort] ends, and
    leaves a permutation of the queue ordered by distance in which routes of equal
    distance keep their order. *)
Theorem queue_resort_sorts queue :
  live_routes s queue ->
  wp (eigrp_topology_route_queue_resort queue) (fun queue' s' =>
    s' = s /\ stable_sort (route_dist s) queue queue') s.
Proof.
  intros Hl.
  assert (Hshort : stable_sort (route_dist s) queue queue \/ (exists a b l, queue = a :: b :: l)).
  { destruct queue as [|a [|b l]]; [left|left|right; eauto]; repeat split; repeat constructor. }
  unfold eigrp_topology_route_queue_resort. destruct queue as [|a [|b l]];
    [destruct Hshort as [?|(? & ? & ? & [=])]; by wp_simpl..|].
  rewrite wp_bind. apply wp_read_all; [done|]. wp_simpl. fold (route_dist s).
  destruct (bubble_sort_spec (route_dist s) (S (inversions (route_dist s) (a :: b :: l)))
    (a :: b :: l)) as (l' & E & H); [lia|].
  change (fun r => match routes s !! r with Some d => rd_distance d | None => 0 end)
    with (route_dist s). rewrite E. by wp_simpl.
Qed.
End theorems.

(** ** Instances *)

Lemma node_flags_sound_witness :
  wp (eigrp_topology_update_node_flags 1%nat) (fun _ s' =>
    is_successor s' 2%nat = true /\ is_fsuccessor s' 2%nat = false) (net net_passive 700).
Proof.
  eapply wp_mono; [apply (node_flags_sound (net net_passive 700) 1%nat net_passive);
    [solve_net_wf|reflexivity]|].
  intros ? s' (_ & _ & H & _). destruct (H [] 2%nat [3%nat] (net_best 512)) as [[_ H1] H2]; [reflexivity..|].
  assert (is_successor s' 2%nat = true) as E by (apply H1; vm_compute; repeat split; discriminate).
  split; [exact E|]. destruct (is_fsuccessor s' 2%nat); [|reflexivity]. destruct H2 as [H2 _].
  destruct (H2 eq_refl) as [_ E']. rewrite E in E'. discriminate E'.
Defined.

Lemma route_select_best_witness :
  wp (eigrp_topology_route_select 1%nat) (fun o _ =>
    forall b, o = Some b -> exists eb, routes (net net_passive 700) !! b = Some eb
      /\ feasible (fdistance net_passive) eb)
    (net net_passive 700).
Proof.
  eapply wp_mono; [apply (route_select_best (net net_passive 700) 1%nat net_passive);
    [solve_net_wf|reflexivity]|].
  intros o s' [_ H] b ->. destruct H as (eb & ? & ? & _). eauto.
Defined.

Lemma routing_table_refresh_witness :
  wp (eigrp_update_routing_table 1%nat) (fun _ s' =>
    in_table s' 2%nat = true
    /\ exists route, rib_log s' = [RibAdd route] /\ rib_metric route = 28672 /\ admin_dist route = 90
       /\ nexthops route = [{| nh_ifindex := 10; gateway_present := true; weight := 0;
                              gateway := {| afi := EIGRP_AFI_IPV4; bytes := [10; 0; 0; 10] ++ zero_bytes 12 |} |}])
    (net net_passive 700).
Proof.
  eapply wp_mono; [apply (routing_table_refresh (net net_passive 700) 1%nat net_passive);
    [solve_net_wf|reflexivity|reflexivity]|].
  intros ? s' (_ & H & _ & L). split; [rewrite H by left; reflexivity|].
  rewrite L. eexists. split; [vm_compute; reflexivity|]. repeat split.
Defined.

Lemma queue_resort_sorts_witness :
  wp (eigrp_topology_route_queue_resort [3; 2]%nat) (fun queue' _ =>
    StronglySorted (key_le (route_dist (net net_passive 700))) queue') (net net_passive 700).
Proof.
  eapply wp_mono; [apply (queue_resort_sorts (net net_passive 700) [3; 2]%nat);
    repeat constructor; vm_compute; eauto|].
  intros q s' (_ & _ & H & _). exact H.
Defined.
