(* ===== verification/PrefixProps.v ===== *)
(** * Properties of prefixes (eigrp_prefix.c)

    The byte-wise operations agree with the meaning of a prefix as its leading
    bits. *)

From Stdlib Require Import ZArith Lia.
From stdpp Require Import base gmap list.
From S2P Require Import Prelude Types Prefix.

(** Bit [i] of an address, the most significant bit of the first byte first. *)
Definition addr_bit (l : list Z) (i : nat) : bool :=
  Z.testbit (byte_at l (i / 8)) (7 - Z.of_nat (i mod 8)).

Record address_wf (a : eigrp_address) : Prop := {
  aw_length : length (bytes a) = 16%nat;
  aw_bytes : Forall byte (bytes a);
}.

Record prefix_wf (p : eigrp_prefix) : Prop := {
  pw_address : address_wf (address p);
  pw_length : 0 <= prefix_length p;
}.

(** Two addresses agree on their first [n] bits. *)
Definition same_bits (n : nat) (a b : list Z) : Prop :=
  forall i, (i < n)%nat -> addr_bit a i = addr_bit b i.

Section bits.
Lemma byte_at_wf l i : Forall byte l -> byte (byte_at l i).
Proof.
  intros H. unfold byte_at. destruct (l !! i) as [x|] eqn:E; simpl; [|unfold byte; lia].
  rewrite Forall_forall in H. by apply H, list_elem_of_lookup_2 with i.
Qed.

Lemma byte_ext x y :
  byte x -> byte y -> (forall k, 0 <= k < 8 -> Z.testbit x k = Z.testbit y k) -> x = y.
Proof.
  unfold byte. intros Hx Hy H. apply Z.bits_inj'. intros k Hk.
  destruct (Z.lt_ge_cases k 8) as [Hk8|Hk8]; [by apply H|].
  rewrite !Z.bits_above_log2; [done|lia| |lia|];
    (destruct (Z.eq_dec x 0) as [->|]; destruct (Z.eq_dec y 0) as [->|]; simpl; try lia;
     apply Z.log2_lt_pow2; try lia;
     assert (2 ^ 8 <= 2 ^ k) by (apply Z.pow_le_mono_r; lia); lia).
Qed.

Lemma mask_bit rem k : 0 < rem < 8 -> 0 <= k < 8 -> Z.testbit (prefix_mask rem) k = (8 - rem <=? k).
Proof.
  intros Hr Hk. assert (rem = 1 \/ rem = 2 \/ rem = 3 \/ rem = 4 \/ rem = 5 \/ rem = 6 \/ rem = 7) by lia.
  assert (k = 0 \/ k = 1 \/ k = 2 \/ k = 3 \/ k = 4 \/ k = 5 \/ k = 6 \/ k = 7) by lia.
  destruct_or!; subst; reflexivity.
Qed.

(** Bit [i] of byte [j]. *)
Lemma addr_bit_byte l j k :
  0 <= k < 8 -> addr_bit l (j * 8 + Z.to_nat (7 - k)) = Z.testbit (byte_at l j) k.
Proof.
  intros Hk. unfold addr_bit.
  rewrite Nat.div_add_l by lia. rewrite (Nat.div_small (Z.to_nat (7 - k))) by lia.
  rewrite Nat.add_comm with (n := (j * 8)%nat), Nat.Div0.mod_add, Nat.mod_small by lia.
  f_equal; [|lia]. f_equal. lia.
Qed.

Lemma index_split i : exists j k, i = (j * 8 + Z.to_nat (7 - k))%nat /\ 0 <= k < 8.
Proof.
  exists (i / 8)%nat, (7 - Z.of_nat (i mod 8)).
  pose proof (Nat.mod_upper_bound i 8). pose proof (Nat.div_mod_eq i 8). lia.
Qed.

(** Equal leading bits, byte by byte. *)
Lemma same_bits_bytes n a b :
  Forall byte a -> Forall byte b ->
  same_bits (n * 8) a b <-> forall j, (j < n)%nat -> byte_at a j = byte_at b j.
Proof.
  intros Ha Hb. split.
  - intros H j Hj. apply byte_ext; [by apply byte_at_wf..|]. intros k Hk.
    rewrite <-!addr_bit_byte by done. apply H. lia.
  - intros H i Hi. destruct (index_split i) as (j & k & -> & Hk).
    rewrite !addr_bit_byte by done. rewrite H; [done|lia].
Qed.

Lemma bytes_eqb_spec n a b :
  length a = 16%nat -> length b = 16%nat -> (n <= 16)%nat ->
  bytes_eqb n a b = true <-> forall j, (j < n)%nat -> byte_at a j = byte_at b j.
Proof.
  intros La Lb Hn. unfold bytes_eqb. rewrite bool_decide_eq_true. split.
  - intros E j Hj. unfold byte_at. rewrite <-(lookup_take_lt a n), <-(lookup_take_lt b n) by done.
    by rewrite E.
  - intros H. apply list_eq. intros j. destruct (Nat.lt_ge_cases j n) as [Hj|Hj].
    + rewrite !lookup_take_lt by done. specialize (H j Hj). unfold byte_at in H.
      destruct (lookup_lt_is_Some_2 a j) as [x Hx]; [lia|].
      destruct (lookup_lt_is_Some_2 b j) as [y Hy]; [lia|]. rewrite Hx, Hy in *. by simpl in H; subst.
    + by rewrite !lookup_take_ge.
Qed.

(** The masked comparison of one byte. *)
Lemma masked_eq x y rem :
  0 < rem < 8 -> byte x -> byte y ->
  Z.land x (prefix_mask rem) = Z.land y (prefix_mask rem)
  <-> forall k, 8 - rem <= k < 8 -> Z.testbit x k = Z.testbit y k.
Proof.
  intros Hr Hx Hy. split.
  - intros E k Hk. apply (f_equal (fun z => Z.testbit z k)) in E.
    rewrite !Z.land_spec, mask_bit in E by lia.
    rewrite (proj2 (Z.leb_le _ _)) in E by lia. by rewrite !andb_true_r in E.
  - intros H. apply Z.bits_inj'. intros k Hk. rewrite !Z.land_spec.
    destruct (Z.lt_ge_cases k 8) as [Hk8|Hk8].
    + rewrite mask_bit by lia. destruct (Z.leb_spec (8 - rem) k); [|by rewrite !andb_false_r].
      by rewrite H.
    + assert (Z.testbit (prefix_mask rem) k = false) as ->; [|by rewrite !andb_false_r].
      unfold prefix_mask, u8. apply Z.mod_pow2_bits_high. lia.
Qed.

Lemma same_bits_split n rem a b :
  (0 < rem < 8)%nat ->
  same_bits (n * 8 + rem) a b <->
  same_bits (n * 8) a b /\ forall k, 8 - Z.of_nat rem <= k < 8 ->
    Z.testbit (byte_at a n) k = Z.testbit (byte_at b n) k.
Proof.
  intros Hr. split.
  - intros H. split; [intros i Hi; apply H; lia|]. intros k Hk.
    rewrite <-!addr_bit_byte by lia. apply H. lia.
  - intros [H1 H2] i Hi. destruct (Nat.lt_ge_cases i (n * 8)) as [Hlt|Hge]; [by apply H1|].
    destruct (index_split i) as (j & k & -> & Hk). assert (j = n) as -> by lia.
    rewrite !addr_bit_byte by done. apply H2. lia.
Qed.
End bits.

(** ** Shape of a valid prefix *)

Section shape.
Context (p : eigrp_prefix).
Hypothesis Hwf : prefix_wf p.
Hypothesis Hv : eigrp_prefix_valid p = true.

Abbreviation nbytes := (eigrp_prefix_address_bytes (afi (address p))).
Abbreviation full := (Z.to_nat (prefix_length p / 8)).
Abbreviation rem := (prefix_length p mod 8).

Lemma prefix_shape :
  Z.to_nat (prefix_length p) = (full * 8 + Z.to_nat rem)%nat /\ 0 <= rem < 8
  /\ (Z.to_nat (prefix_length p) <= nbytes * 8)%nat /\ (nbytes <= 16)%nat
  /\ (full <= nbytes)%nat /\ (rem <> 0 -> (full < nbytes)%nat).
Proof.
  destruct Hwf as [_ Hl]. pose proof (Z.div_mod (prefix_length p) 8).
  pose proof (Z.mod_pos_bound (prefix_length p) 8). pose proof (Z.div_pos (prefix_length p) 8).
  unfold eigrp_prefix_valid in Hv. unfold eigrp_prefix_address_bytes.
  destruct (_ =? EIGRP_AFI_IPV4); [|destruct (_ =? EIGRP_AFI_IPV6); [|done]];
    apply Z.leb_le in Hv; repeat split; try lia.
Qed.
End shape.

Section match_bits.
Context (p : eigrp_prefix) (a : eigrp_address).
Hypothesis Hp : prefix_wf p.
Hypothesis Ha : address_wf a.
Hypothesis Hv : eigrp_prefix_valid p = true.

Lemma address_match_bits :
  eigrp_prefix_address_match p a = true <->
  afi (address p) = afi a
  /\ same_bits (Z.to_nat (prefix_length p)) (bytes (address p)) (bytes a).
Proof.
  destruct (prefix_shape p Hp Hv) as (E & Hr & Hlen & Hn & Hf & Hlt).
  pose proof Hp as [[La Ba] _]. pose proof Ha as [Lb Bb].
  unfold eigrp_prefix_address_match. rewrite Hv. simpl.
  destruct (Z.eqb_spec (afi (address p)) (afi a)) as [Eafi|]; simpl; [|by split; [|intros []]].
  rewrite E. set (f := Z.to_nat (prefix_length p / 8)) in *.
  set (m := prefix_length p mod 8) in *.
  assert (Heq : (negb (f =? 0)%nat && negb (bytes_eqb f (bytes (address p)) (bytes a))) = false
    <-> same_bits (f * 8) (bytes (address p)) (bytes a)).
  { rewrite same_bits_bytes, <-bytes_eqb_spec by (done || lia).
    destruct (Nat.eqb_spec f 0) as [->|]; [by unfold bytes_eqb|]. simpl.
    by destruct (bytes_eqb _ _ _). }
  destruct (negb (f =? 0)%nat && _); [|].
  { split; [done|]. intros [_ H]. exfalso. enough (true = false) by done. apply Heq.
    intros i Hi. apply H. lia. }
  assert (Hs := proj1 Heq eq_refl). destruct (Z.eqb_spec m 0) as [->|Hm].
  { rewrite Nat.add_0_r. done. }
  destruct (Nat.leb_spec (eigrp_prefix_address_bytes (afi (address p))) f); [specialize (Hlt Hm); lia|].
  rewrite Z.eqb_eq, masked_eq by (lia || by apply byte_at_wf).
  rewrite same_bits_split by lia. rewrite Z2Nat.id by lia. naive_solver.
Qed.
End match_bits.

(** ** Normalisation *)

Section normalize_bytes.
Lemma zero_from_length i n l : (i + n <= length l)%nat -> length (zero_from i n l) = length l.
Proof.
  intros H. unfold zero_from. rewrite !length_app, length_take, length_replicate, length_drop. lia.
Qed.

Lemma byte_at_zero_from i n l j :
  (i + n <= length l)%nat ->
  byte_at (zero_from i n l) j = if (i <=? j)%nat && (j <? i + n)%nat then 0 else byte_at l j.
Proof.
  intros H. unfold zero_from, byte_at. rewrite Nat.min_l by lia.
  destruct (Nat.leb_spec i j) as [Hi|Hi]; simpl.
  - rewrite lookup_app_r by (rewrite length_take; lia). rewrite length_take, Nat.min_l by lia.
    destruct (Nat.ltb_spec j (i + n)).
    + rewrite lookup_app_l by (rewrite length_replicate; lia).
      by rewrite lookup_replicate_2 by lia.
    + rewrite lookup_app_r by (rewrite length_replicate; lia). rewrite length_replicate, lookup_drop.
      do 2 f_equal. lia.
  - by rewrite lookup_app_l, lookup_take_lt by (rewrite ?length_take; lia).
Qed.

Lemma byte_at_alter f i l j :
  (i < length l)%nat -> byte_at (alter f i l) j = if (j =? i)%nat then f (byte_at l j) else byte_at l j.
Proof.
  intros Hi. unfold byte_at. destruct (Nat.eqb_spec j i) as [->|Hne].
  - rewrite list_lookup_alter_eq. destruct (lookup_lt_is_Some_2 l i Hi) as [x ->]. done.
  - by rewrite list_lookup_alter_ne.
Qed.

Context (p : eigrp_prefix).
Hypothesis Hp : prefix_wf p.
Hypothesis Hv : eigrp_prefix_valid p = true.
Abbreviation full := (Z.to_nat (prefix_length p / 8)).
Abbreviation rem := (prefix_length p mod 8).

(** Each byte of the normalised address. *)
Lemma normalize_byte j :
  byte_at (bytes (address (eigrp_prefix_normalize p))) j =
    if (j <? full)%nat then byte_at (bytes (address p)) j
    else if (j =? full)%nat && negb (rem =? 0)
         then byte_at (bytes (address p)) j .& prefix_mask rem
    else if (16 <=? j)%nat then byte_at (bytes (address p)) j else 0.
Proof.
  destruct (prefix_shape p Hp Hv) as (E & Hr & Hlen & Hn & Hf & Hlt).
  destruct Hp as [[La Ba] _]. unfold eigrp_prefix_normalize. rewrite Hv. cbn [negb].
  set (f := Z.to_nat (prefix_length p / 8)) in *. set (m := prefix_length p mod 8) in *.
  set (n := eigrp_prefix_address_bytes (afi (address p))) in *.
  set (b := bytes (address p)) in *.
  assert (Htail : forall k c, length c = 16%nat -> (k <= n)%nat ->
    byte_at (if (n <? 16)%nat
             then zero_from n (16 - n) (if (k <? n)%nat then zero_from k (n - k) c else c)
             else if (k <? n)%nat then zero_from k (n - k) c else c) j
    = if (j <? k)%nat then byte_at c j else if (16 <=? j)%nat then byte_at c j else 0).
  { intros k c Lc Hk.
    assert (Lz : length (if (k <? n)%nat then zero_from k (n - k) c else c) = 16%nat)
      by (destruct (k <? n)%nat; [rewrite zero_from_length; lia|done]).
    destruct (Nat.ltb_spec n 16);
      [rewrite byte_at_zero_from by lia|];
      (destruct (Nat.ltb_spec k n); [rewrite byte_at_zero_from by lia|]);
      destruct (Nat.ltb_spec j k), (Nat.leb_spec 16 j);
      repeat match goal with |- context [Nat.leb ?x ?y] => destruct (Nat.leb_spec x y)
             | |- context [Nat.ltb ?x ?y] => destruct (Nat.ltb_spec x y) end; simpl; lia || done. }
  destruct (Z.eqb_spec m 0) as [E0|E0]; cbn [negb andb].
  - cbn [address bytes]. rewrite Htail by lia. rewrite andb_false_r.
    by destruct (Nat.ltb_spec j f).
  - destruct (Nat.ltb_spec f n); [|specialize (Hlt E0); lia]. cbn [address bytes].
    rewrite Htail by (rewrite ?length_alter; lia). rewrite byte_at_alter by lia.
    destruct (Nat.eqb_spec j f), (Nat.ltb_spec j f), (Nat.ltb_spec j (S f)); simpl; lia || done.
Qed.
End normalize_bytes.

Section normalized.
Context (p : eigrp_prefix).
Hypothesis Hp : prefix_wf p.
Hypothesis Hv : eigrp_prefix_valid p = true.
Abbreviation q := (eigrp_prefix_normalize p).

Lemma normalize_same_length :
  prefix_length q = prefix_length p /\ afi (address q) = afi (address p)
  /\ length (bytes (address q)) = 16%nat.
Proof.
  destruct (prefix_shape p Hp Hv) as (_ & _ & _ & Hn & Hf & Hlt).
  destruct Hp as [[La _] _]. unfold eigrp_prefix_normalize. rewrite Hv. cbn [negb].
  set (n := eigrp_prefix_address_bytes (afi (address p))) in *.
  assert (Hz : forall k (c : list Z), length c = 16%nat ->
    length (if (k <? n)%nat then zero_from k (n - k) c else c) = 16%nat).
  { intros k c Lc. destruct (Nat.ltb_spec k n); [|done]. rewrite zero_from_length; lia. }
  assert (Hz' : forall c : list Z, length c = 16%nat ->
    length (if (n <? 16)%nat then zero_from n (16 - n) c else c) = 16%nat).
  { intros c Lc. destruct (Nat.ltb_spec n 16); [|done]. rewrite zero_from_length; lia. }
  destruct (_ && _); (split; [done|]; split; [done|]); cbn [address bytes];
    apply Hz', Hz; by rewrite ?length_alter.
Qed.

Lemma normalize_valid : eigrp_prefix_valid q = true.
Proof.
  destruct normalize_same_length as (E1 & E2 & _). unfold eigrp_prefix_valid in *.
  by rewrite E1, E2.
Qed.

Lemma byte_mask x rem : byte x -> byte (Z.land x (prefix_mask rem)).
Proof.
  unfold byte. intros Hx. assert (0 <= Z.land x (prefix_mask rem)) by (apply Z.land_nonneg; lia).
  split; [done|]. assert (H8 : Z.land x (prefix_mask rem) mod 2 ^ 8 = Z.land x (prefix_mask rem)).
  { apply Z.bits_inj'. intros k Hk. destruct (Z.lt_ge_cases k 8).
    - by rewrite Z.mod_pow2_bits_low by lia.
    - rewrite Z.mod_pow2_bits_high by lia. rewrite Z.land_spec. symmetry. apply andb_false_intro2.
      unfold prefix_mask, u8. apply Z.mod_pow2_bits_high. lia. }
  rewrite <-H8. apply Z.mod_pos_bound. lia.
Qed.

Lemma normalize_wf : prefix_wf q.
Proof.
  destruct normalize_same_length as (E1 & E2 & E3). pose proof Hp as [[La Ba] Hl].
  split; [split; [done|]|lia]. apply Forall_lookup. intros j x Hx.
  assert (x = byte_at (bytes (address q)) j) as -> by (unfold byte_at; by rewrite Hx).
  pose proof (byte_at_wf _ j Ba). rewrite (normalize_byte p Hp Hv).
  destruct (_ <? _)%nat; [done|]. destruct (_ && _); [by apply byte_mask|].
  destruct (_ <=? _)%nat; [done|]. unfold byte. lia.
Qed.

(** The leading bits stay, the others are clear. *)
Lemma normalize_bits i :
  (i < 128)%nat ->
  addr_bit (bytes (address q)) i =
    (i <? Z.to_nat (prefix_length p))%nat && addr_bit (bytes (address p)) i.
Proof.
  intros Hi. destruct (prefix_shape p Hp Hv) as (E & Hr & _).
  destruct (index_split i) as (j & k & -> & Hk). rewrite !addr_bit_byte by done.
  rewrite (normalize_byte p Hp Hv), E.
  destruct (Nat.ltb_spec j (Z.to_nat (prefix_length p / 8))) as [Hj|Hj].
  { rewrite (proj2 (Nat.ltb_lt _ _)) by lia. done. }
  destruct (Nat.eqb_spec j (Z.to_nat (prefix_length p / 8))) as [->|Hne]; cbn [andb].
  - destruct (Z.eqb_spec (prefix_length p mod 8) 0) as [E0|E0]; cbn [negb].
    + rewrite E0. rewrite (proj2 (Nat.ltb_ge _ _)) by lia.
      destruct (Nat.leb_spec 16 (Z.to_nat (prefix_length p / 8))); [lia|]. by rewrite Z.bits_0.
    + rewrite Z.land_spec, mask_bit, andb_comm by lia. f_equal.
      destruct (Z.leb_spec (8 - prefix_length p mod 8) k), (Nat.ltb_spec
        (Z.to_nat (prefix_length p / 8) * 8 + Z.to_nat (7 - k))
        (Z.to_nat (prefix_length p / 8) * 8 + Z.to_nat (prefix_length p mod 8))); lia || done.
  - rewrite (proj2 (Nat.ltb_ge _ _)) by lia.
    destruct (Nat.leb_spec 16 j); [lia|]. by rewrite Z.bits_0.
Qed.
End normalized.

Lemma bytes_ext a b :
  length a = 16%nat -> length b = 16%nat -> Forall byte a -> Forall byte b ->
  same_bits 128 a b -> a = b.
Proof.
  intros La Lb Ba Bb H. change 128%nat with (16 * 8)%nat in H; rewrite same_bits_bytes in H by done. apply list_eq. intros j.
  destruct (Nat.lt_ge_cases j 16) as [Hj|Hj]; [|by rewrite !lookup_ge_None_2 by lia].
  specialize (H j Hj). unfold byte_at in H.
  destruct (lookup_lt_is_Some_2 a j) as [x Hx]; [lia|].
  destruct (lookup_lt_is_Some_2 b j) as [y Hy]; [lia|]. rewrite Hx, Hy in *. by simpl in H; subst.
Qed.

Lemma prefix_normalize_idem p :
  prefix_wf p -> eigrp_prefix_valid p = true ->
  eigrp_prefix_normalize (eigrp_prefix_normalize p) = eigrp_prefix_normalize p.
Proof.
  intros Hp Hv.
  pose proof (normalize_wf p Hp Hv) as Hq. pose proof (normalize_valid p Hp Hv) as Hqv.
  destruct (normalize_same_length p Hp Hv) as (E1 & E2 & E3).
  destruct (normalize_same_length _ Hq Hqv) as (F1 & F2 & F3).
  pose proof (normalize_wf _ Hq Hqv) as [[_ B2] _]. pose proof Hq as [[_ B1] _].
  assert (Hb : bytes (address (eigrp_prefix_normalize (eigrp_prefix_normalize p)))
               = bytes (address (eigrp_prefix_normalize p))).
  { apply bytes_ext; [done..|]. intros i Hi. rewrite !normalize_bits, E1 by done.
    by destruct (i <? _)%nat. }
  destruct (eigrp_prefix_normalize (eigrp_prefix_normalize p)) as [[a2 b2] l2].
  destruct (eigrp_prefix_normalize p) as [[a1 b1] l1]. simpl in *. by subst.
Qed.

(** ** Theorems *)

(** [eigrp_prefix_address_match] is the meaning of a prefix: an address
    matches exactly when it has the prefix's family and its first
    [prefix_length] bits. *)
Theorem prefix_match_leading_bits p a :
  prefix_wf p -> address_wf a -> eigrp_prefix_valid p = true ->
  eigrp_prefix_address_match p a = true <->
  afi (address p) = afi a
  /\ same_bits (Z.to_nat (prefix_length p)) (bytes (address p)) (bytes a).
Proof. apply address_match_bits. Qed.

(** [eigrp_prefix_normalize] keeps the leading [prefix_length] bits of a valid
    prefix and clears every other bit of the 16 stored bytes; it is idempotent. *)
Theorem prefix_normalize_canonical p :
  prefix_wf p -> eigrp_prefix_valid p = true ->
  (forall i, (i < 128)%nat ->
     addr_bit (bytes (address (eigrp_prefix_normalize p))) i =
       (i <? Z.to_nat (prefix_length p))%nat && addr_bit (bytes (address p)) i)
  /\ eigrp_prefix_normalize (eigrp_prefix_normalize p) = eigrp_prefix_normalize p.
Proof.
  intros Hp Hv. split; [by apply normalize_bits|by apply prefix_normalize_idem].
Qed.

(** the topology table identifies a destination by its prefix: the keys of two
    valid prefixes are the same node of the table exactly when the prefixes have
    the same family, the same length and the same leading bits, whatever host bits
    they were given with. *)
Theorem topology_key_identity p1 p2 kp kq :
  prefix_wf p1 -> prefix_wf p2 ->
  eigrp_topology_table_key p1 = Some kp -> eigrp_topology_table_key p2 = Some kq ->
  eigrp_table_prefix_match kp kq = true <->
  afi (address p1) = afi (address p2) /\ prefix_length p1 = prefix_length p2
  /\ same_bits (Z.to_nat (prefix_length p1)) (bytes (address p1)) (bytes (address p2)).
Proof.
  intros W1 W2. unfold eigrp_topology_table_key.
  destruct (eigrp_prefix_valid p1) eqn:V1; [|done]. destruct (eigrp_prefix_valid p2) eqn:V2; [|done].
  intros [= <-] [= <-]. unfold eigrp_table_prefix_match.
  destruct (normalize_same_length p1 W1 V1) as (E1 & E2 & E3).
  destruct (normalize_same_length p2 W2 V2) as (F1 & F2 & F3).
  rewrite E1, E2, F1, F2, !andb_true_iff, !Z.eqb_eq.
  pose proof (normalize_wf p1 W1 V1) as [[_ B1] _]. pose proof (normalize_wf p2 W2 V2) as [[_ B2] _].
  assert (Hwidth : (Z.to_nat (prefix_length p1)
    <= (if (afi (address p1) =? EIGRP_AFI_IPV4)%Z then 4 else 16) * 8)%nat).
  { unfold eigrp_prefix_valid in V1. destruct (_ =? EIGRP_AFI_IPV4); [lia|].
    destruct (_ =? EIGRP_AFI_IPV6); [lia|done]. }
  rewrite bytes_eqb_spec by (done || destruct (_ =? _); lia).
  rewrite <-same_bits_bytes by done.
  split; intros H; [destruct H as [[Ha Hl] Hb]|destruct H as (Ha & Hl & Hb)]; repeat split; try done.
  - intros i Hi. assert (Hi' : (i < 128)%nat) by (destruct (_ =? _); lia).
    specialize (Hb i ltac:(lia)). rewrite !normalize_bits in Hb by done.
    rewrite <-Hl, (proj2 (Nat.ltb_lt _ _) Hi) in Hb. exact Hb.
  - intros i Hi. assert (Hi' : (i < 128)%nat) by (destruct (_ =? _); lia).
    rewrite !normalize_bits by done. rewrite <-Hl.
    destruct (Nat.ltb_spec i (Z.to_nat (prefix_length p1))); [|done]. simpl. by apply Hb.
Qed.

(** ** Instances *)

(** 10.1.2.3/16 and 10.1.0.0/16. *)
Definition ex_v4 (b3 b4 : Z) : eigrp_prefix :=
  {| address := {| afi := EIGRP_AFI_IPV4; bytes := [10; 1; b3; b4] ++ zero_bytes 12 |};
     prefix_length := 16 |}.

Lemma ex_v4_wf b3 b4 : byte b3 -> byte b4 -> prefix_wf (ex_v4 b3 b4).
Proof.
  intros. split; [|simpl; lia]. split; [done|].
  simpl. repeat (apply Forall_cons; split; [first [done|unfold byte; lia]|]). by apply Forall_nil.
Qed.

Lemma prefix_match_leading_bits_witness :
  eigrp_prefix_address_match (ex_v4 2 3) (address (ex_v4 0 0)) = true.
Proof.
  apply (prefix_match_leading_bits (ex_v4 2 3) (address (ex_v4 0 0)));
    [by apply ex_v4_wf|apply (ex_v4_wf 0 0); done|reflexivity|].
  split; [reflexivity|]. intros i Hi. do 16 (destruct i as [|i]; [reflexivity|]). simpl in Hi. lia.
Defined.

Lemma prefix_normalize_canonical_witness :
  eigrp_prefix_normalize (eigrp_prefix_normalize (ex_v4 2 3)) = eigrp_prefix_normalize (ex_v4 2 3).
Proof. apply (prefix_normalize_canonical (ex_v4 2 3)); [by apply ex_v4_wf|reflexivity]. Defined.

Lemma topology_key_identity_witness :
  exists kp kq, eigrp_topology_table_key (ex_v4 2 3) = Some kp
    /\ eigrp_topology_table_key (ex_v4 0 0) = Some kq /\ eigrp_table_prefix_match kp kq = true.
Proof.
  eexists _, _. split; [reflexivity|]. split; [reflexivity|].
  apply (topology_key_identity (ex_v4 2 3) (ex_v4 0 0));
    [by apply ex_v4_wf|by apply ex_v4_wf|reflexivity|reflexivity|].
  split; [reflexivity|]. split; [reflexivity|].
  intros i Hi. do 16 (destruct i as [|i]; [reflexivity|]). simpl in Hi. lia.
Defined.
