(* ===== verification/Filter.v ===== *)
(** * Route policy: distribute lists, offset lists, default information

    eigrp_filter.c and the default-information code of eigrp_topology.c: the filters
    and metric offsets applied to received and advertised routes, the commands that
    configure them, and how the runtime references follow the configuration.

    A C string is a [string], NULL is [None].  The evaluation of a named list against a
    prefix is the host's ([eigrp_sys_filter_evaluate]) and an argument: it returns a
    result and the decision it wrote, if any.  A command of another thread is handed to
    the address family's thread, which runs the same function. *)

From Stdlib Require Import ZArith Lia.
From stdpp Require Import base gmap list strings.
From S2P Require Import Prelude Types.

Definition EIGRP_FILTER_IN : Z := 0.
Definition EIGRP_FILTER_OUT : Z := 1.
Definition EIGRP_FILTER_MAX : Z := 2.
Definition EIGRP_DISTRIBUTE_ACCESS_LIST : Z := 0.
Definition EIGRP_DISTRIBUTE_PREFIX_LIST : Z := 1.
Definition EIGRP_OFFSET_IN : Z := 0.
Definition EIGRP_OFFSET_OUT : Z := 1.

Inductive eigrp_filter_decision := EIGRP_FILTER_DECISION_PERMIT | EIGRP_FILTER_DECISION_DENY.
#[export] Instance eigrp_filter_decision_eq_dec : EqDecision eigrp_filter_decision.
Proof. solve_decision. Defined.

Inductive eigrp_operation := EIGRP_SET | EIGRP_RESET.
#[export] Instance eigrp_operation_eq_dec : EqDecision eigrp_operation.
Proof. solve_decision. Defined.

(** ** Data *)

(** The names in force, one per direction. *)
Record eigrp_filter_runtime_state := {
  access_list : list (option string);
  prefix_list : list (option string);
}.

Record eigrp_offset_config := {
  oc_access_list : string;
  oc_direction : Z;
  oc_offset : Z;
  oc_interface_name : option string;
}.

Record eigrp_distribute_list_config := {
  dc_type : Z;
  dc_direction : Z;
  dc_name : string;
  dc_interface_name : option string;
}.

(** The policy part of [eigrp_af_config_t]; a field per direction is a list of two. *)
Record policy_config := {
  pc_offsets : list eigrp_offset_config;
  pc_distribute_lists : list eigrp_distribute_list_config;
  pc_default_information_enabled : list bool;
  pc_default_information_access_list : list (option string);
}.

(** Calls into the timers and the neighbors. *)
Inductive policy_call :=
  | call_distribute_timer
  | call_distribute_intf_timer (i : nat)
  | call_soft_resync (interface_name : option string)
  | call_update_send_process_GR.

(** [po_intfs]: name and filter of the runtime interfaces; [po_config]: the
    configuration bound to the runtime; [po_grants]: the answers of the next
    allocations. *)
Record policy := {
  po_filter : eigrp_filter_runtime_state;
  po_intfs : list (option string * eigrp_filter_runtime_state);
  po_config : option policy_config;
  po_calls : list policy_call;
  po_grants : list bool;
}.

Abbreviation Po := (M policy).

Definition p_malloc : Po bool := fun s =>
  match po_grants s with
  | [] => Some (true, s)
  | b :: g => Some (b, {| s with po_grants := g |})
  end.
Definition policy_call_add (c : policy_call) : Po unit := modify (fun s => {| s with po_calls := c :: po_calls s |}).

(** [array[direction]] of an array of pointers. *)
Definition slot_name (l : list (option string)) (direction : Z) : option string :=
  default None (l !! Z.to_nat direction).

Definition eigrp_filter_string_match (a b : option string) : bool := bool_decide (a = b).

(** The first runtime interface of that name. *)
Definition eigrp_intf_lookup_by_name (s : policy) (name : string) : option nat :=
  fst <$> list_find (eq (Some name)) ((po_intfs s).*1).

(** ** Runtime references *)

Definition eigrp_filter_runtime_state_match (state snapshot : eigrp_filter_runtime_state) : bool :=
  forallb (fun direction =>
    eigrp_filter_string_match (slot_name (access_list state) direction) (slot_name (access_list snapshot) direction)
    && eigrp_filter_string_match (slot_name (prefix_list state) direction) (slot_name (prefix_list snapshot) direction))
    [EIGRP_FILTER_IN; EIGRP_FILTER_OUT].

(** The copies of the names, one allocation for each that is not NULL; the access list
    of a direction before its prefix list. *)
Definition eigrp_filter_string_dup (value : option string) : Po (option (option string)) :=
  match value with
  | None => mret (Some None)
  | Some name => ok ← p_malloc; mret (if ok : bool then Some (Some name) else None)
  end.

Fixpoint state_copy (names : list (option string)) (done : list (option string)) : Po (option (list (option string))) :=
  match names with
  | [] => mret (Some done)
  | name :: names' =>
      copy ← eigrp_filter_string_dup name;
      match copy with
      | None => mret None
      | Some name => state_copy names' (done ++ [name])
      end
  end.

Definition eigrp_filter_runtime_state_copy (snapshot : eigrp_filter_runtime_state)
    : Po (option eigrp_filter_runtime_state) :=
  let at_dir l d := slot_name l d in
  copies ← state_copy [at_dir (access_list snapshot) 0; at_dir (prefix_list snapshot) 0;
                       at_dir (access_list snapshot) 1; at_dir (prefix_list snapshot) 1] [];
  mret (match copies with
        | Some [a0; p0; a1; p1] => Some {| access_list := [a0; a1]; prefix_list := [p0; p1] |}
        | _ => None
        end).

Definition eigrp_filter_runtime_state_active (state : eigrp_filter_runtime_state) : bool :=
  existsb (fun direction => bool_decide (is_Some (slot_name (access_list state) direction))
                            || bool_decide (is_Some (slot_name (prefix_list state) direction)))
    [EIGRP_FILTER_IN; EIGRP_FILTER_OUT].

Definition eigrp_filter_schedule_process : Po unit := policy_call_add call_distribute_timer.
Definition eigrp_filter_intf_schedule (i : nat) : Po unit := policy_call_add (call_distribute_intf_timer i).
Definition eigrp_filter_soft_resync (interface_name : option string) : Po unit :=
  policy_call_add (call_soft_resync interface_name).

(** The filter an interface name selects: [None] when there is no such interface. *)
Definition filter_target (s : policy) (interface_name : option string)
    : option (option nat * eigrp_filter_runtime_state) :=
  match interface_name with
  | None => Some (None, po_filter s)
  | Some name =>
      i ← eigrp_intf_lookup_by_name s name;
      '(_, state) ← po_intfs s !! i;
      Some (Some i, state)
  end.

Definition set_filter (target : option nat) (state : eigrp_filter_runtime_state) (s : policy) : policy :=
  match target with
  | None => {| s with po_filter := state |}
  | Some i => {| s with po_intfs := alter (fun '(name, _) => (name, state)) i (po_intfs s) |}
  end.

Definition eigrp_sys_filter_runtime_replace (interface_name : option string) (snapshot : eigrp_filter_runtime_state)
    : Po eigrp_result :=
  if bool_decide (interface_name = Some EmptyString) then mret EIGRP_RESULT_INVALID_ARGUMENT
  else
    s ← get;
    match filter_target s interface_name with
    | None => mret EIGRP_RESULT_NOT_FOUND
    | Some (target, state) =>
        if eigrp_filter_runtime_state_match state snapshot then mret EIGRP_RESULT_SUCCESS
        else
          replacement ← eigrp_filter_runtime_state_copy snapshot;
          match replacement with
          | None => mret EIGRP_RESULT_INTERNAL_FAILURE
          | Some replacement =>
              modify (set_filter target replacement);;
              (match target with
               | Some i => eigrp_filter_intf_schedule i
               | None => eigrp_filter_schedule_process
               end);;
              eigrp_filter_soft_resync interface_name;;
              mret EIGRP_RESULT_SUCCESS
          end
    end.

(** The body of the loop over the instances in [eigrp_sys_policy_runtime_update]. *)
Definition eigrp_sys_policy_runtime_update : Po unit :=
  s ← get;
  let offset_active := match po_config s with
                       | Some af => negb (bool_decide (pc_offsets af = []))
                       | None => false end in
  when (eigrp_filter_runtime_state_active (po_filter s) || offset_active)
    (eigrp_filter_schedule_process;; eigrp_filter_soft_resync None);;
  mfor (zip (seq 0 (length (po_intfs s))) (po_intfs s)) (fun '(i, (name, state)) =>
    when (eigrp_filter_runtime_state_active state)
      (eigrp_filter_intf_schedule i;; eigrp_filter_soft_resync name)).

(** ** Decisions *)

Section decisions.
(** [eigrp_sys_filter_evaluate]. *)
Context (evaluate : Z -> string -> eigrp_prefix -> eigrp_result * option eigrp_filter_decision).

(** A list that cannot be evaluated denies nothing. *)
Definition eigrp_filter_reference_denies (type : Z) (name : option string) (prefix : eigrp_prefix) : bool :=
  match name with
  | None => false
  | Some name =>
      let '(result, decision) := evaluate type name prefix in
      bool_decide (result = EIGRP_RESULT_SUCCESS)
      && bool_decide (default EIGRP_FILTER_DECISION_PERMIT decision = EIGRP_FILTER_DECISION_DENY)
  end.

Definition eigrp_filter_runtime_state_denies (state : eigrp_filter_runtime_state) (direction : Z)
    (prefix : eigrp_prefix) : bool :=
  if eigrp_filter_reference_denies EIGRP_DISTRIBUTE_ACCESS_LIST (slot_name (access_list state) direction) prefix
  then true
  else eigrp_filter_reference_denies EIGRP_DISTRIBUTE_PREFIX_LIST (slot_name (prefix_list state) direction) prefix.

Definition eigrp_topology_default_prefix (prefix : eigrp_prefix) : bool :=
  (prefix_length prefix =? 0)
  && ((afi (address prefix) =? EIGRP_AFI_IPV4) || (afi (address prefix) =? EIGRP_AFI_IPV6)).

(** A default route needs the command; a list that cannot be evaluated denies it. *)
Definition eigrp_topology_default_information_denies (af : option policy_config) (direction : Z)
    (prefix : eigrp_prefix) : bool :=
  if negb (eigrp_topology_default_prefix prefix) then false
  else if negb ((direction =? EIGRP_FILTER_IN) || (direction =? EIGRP_FILTER_OUT)) then true
  else
    match af with
    | None => true
    | Some af =>
        if negb (default false (pc_default_information_enabled af !! Z.to_nat direction)) then true
        else
          match slot_name (pc_default_information_access_list af) direction with
          | None => false
          | Some name =>
              let '(result, decision) := evaluate EIGRP_DISTRIBUTE_ACCESS_LIST name prefix in
              negb (bool_decide (result = EIGRP_RESULT_SUCCESS))
              || negb (bool_decide (default EIGRP_FILTER_DECISION_DENY decision = EIGRP_FILTER_DECISION_PERMIT))
          end
    end.

(** [true]: the prefix is denied on interface [i]. *)
Definition eigrp_filter_prefix_update (s : policy) (i : option nat) (direction : Z) (prefix : eigrp_prefix) : bool :=
  match i ≫= (po_intfs s !!.) with
  | None => false
  | Some (_, filter) =>
      if (direction <? 0) || (EIGRP_FILTER_MAX <=? direction) then false
      else if eigrp_topology_default_information_denies (po_config s)
                (if direction =? EIGRP_FILTER_IN then EIGRP_FILTER_IN else EIGRP_FILTER_OUT) prefix then true
      else if eigrp_filter_runtime_state_denies (po_filter s) direction prefix then true
      else eigrp_filter_runtime_state_denies filter direction prefix
  end.

(** A list that cannot be evaluated matches nothing. *)
Definition eigrp_offset_acl_permits (name : string) (prefix : eigrp_prefix) : bool :=
  let '(result, decision) := evaluate EIGRP_DISTRIBUTE_ACCESS_LIST name prefix in
  bool_decide (result = EIGRP_RESULT_SUCCESS)
  && bool_decide (default EIGRP_FILTER_DECISION_DENY decision = EIGRP_FILTER_DECISION_PERMIT).

(** The loop over the offsets: the first match of the interface, else the first match
    without interface. *)
Fixpoint offset_select (offsets : list eigrp_offset_config) (wanted : Z) (ifname : option string)
    (prefix : eigrp_prefix) (global : option eigrp_offset_config) : option eigrp_offset_config :=
  match offsets with
  | [] => global
  | config :: offsets' =>
      if negb (oc_direction config =? wanted) then offset_select offsets' wanted ifname prefix global
      else
        match oc_interface_name config with
        | None =>
            offset_select offsets' wanted ifname prefix
              (match global with
               | Some g => Some g
               | None => if eigrp_offset_acl_permits (oc_access_list config) prefix then Some config else None
               end)
        | Some name =>
            if bool_decide (ifname = Some name) && eigrp_offset_acl_permits (oc_access_list config) prefix
            then Some config
            else offset_select offsets' wanted ifname prefix global
        end
  end.

Definition offset_delay (d offset : Z) : Z :=
  let d := u64 (d + offset) in if EIGRP_MAX_METRIC <=? d then EIGRP_MAX_METRIC else d.

Definition eigrp_offset_metric_update (s : policy) (i : option nat) (direction : Z) (prefix : eigrp_prefix)
    (metric : eigrp_metrics) : eigrp_metrics :=
  match i ≫= (po_intfs s !!.), po_config s with
  | Some (ifname, _), Some af =>
      if negb ((direction =? EIGRP_FILTER_IN) || (direction =? EIGRP_FILTER_OUT))
         || (delay metric =? EIGRP_MAX_METRIC) then metric
      else
        let wanted := if direction =? EIGRP_FILTER_OUT then EIGRP_OFFSET_OUT else EIGRP_OFFSET_IN in
        match offset_select (pc_offsets af) wanted ifname prefix None with
        | None => metric
        | Some config => {| metric with delay := offset_delay (delay metric) (oc_offset config) |}
        end
  | _, _ => metric
  end.
End decisions.

(** ** Configuration commands *)

(** [context->config] and [context->runtime] are not NULL. *)
Record policy_context := { cx_config : bool; cx_runtime : bool }.

Definition valid_name (name : option string) : bool :=
  match name with None => false | Some n => negb (bool_decide (n = EmptyString)) end.
Definition empty_name (name : option string) : bool := bool_decide (name = Some EmptyString).
Definition valid_direction (direction : Z) : bool :=
  (direction =? EIGRP_OFFSET_IN) || (direction =? EIGRP_OFFSET_OUT).

Definition upd_config (f : policy_config -> policy_config) : Po unit :=
  modify (fun s => {| s with po_config := f <$> po_config s |}).

(** The key of an offset: list, direction and interface. *)
Definition oc_key (c : eigrp_offset_config) : string * Z * option string :=
  (oc_access_list c, oc_direction c, oc_interface_name c).
(** The key of a distribute list: type, direction and interface. *)
Definition dc_key (c : eigrp_distribute_list_config) : Z * Z * option string :=
  (dc_type c, dc_direction c, dc_interface_name c).

Definition eigrp_offset_config_lookup (af : policy_config) (name : string) (direction : Z)
    (interface_name : option string) : option eigrp_offset_config :=
  List.find (keyed oc_key (name, direction, interface_name)) (pc_offsets af).

(** The checks of both offset commands; [None] when they pass. *)
Definition offset_checks (cx : policy_context) (name : option string) (direction : Z)
    (interface_name : option string) : option eigrp_result :=
  if negb (valid_name name) then Some EIGRP_RESULT_INVALID_ARGUMENT
  else if negb (valid_direction direction) then Some EIGRP_RESULT_INVALID_ARGUMENT
  else if empty_name interface_name then Some EIGRP_RESULT_INVALID_ARGUMENT
  else if negb (cx_config cx) && negb (cx_runtime cx) then Some EIGRP_RESULT_NOT_FOUND
  else None.

(** A new entry: the copy of the list name, of the interface name, and the entry. *)
Definition offset_entry (name : string) (direction offset : Z) (interface_name : option string) : Po bool :=
  ok ← p_malloc;
  if negb ok then mret false
  else
    copy ← eigrp_filter_string_dup interface_name;
    match copy with
    | None => mret false
    | Some interface_copy =>
        ok ← p_malloc;
        if negb ok then mret false
        else
          upd_config (fun af => {| af with pc_offsets :=
            {| oc_access_list := name; oc_direction := direction; oc_offset := offset;
               oc_interface_name := interface_copy |} :: pc_offsets af |});;
          mret true
    end.

Definition eigrp_offset_add (cx : policy_context) (name : option string) (direction offset : Z)
    (interface_name : option string) : Po eigrp_result :=
  match offset_checks cx name direction interface_name, name with
  | Some result, _ => mret result
  | None, None => mret EIGRP_RESULT_INVALID_ARGUMENT
  | None, Some name =>
      stored ← (if cx_config cx then
                  config ← gets po_config;
                  af ← nonnull config;
                  match eigrp_offset_config_lookup af name direction interface_name with
                  | Some _ =>
                      upd_config (fun af => {| af with pc_offsets :=
                        alter_first (keyed oc_key (name, direction, interface_name))
                          (fun c => {| c with oc_offset := offset |}) (pc_offsets af) |});;
                      mret true
                  | None => offset_entry name direction offset interface_name
                  end
                else mret true);
      if negb stored then mret EIGRP_RESULT_INTERNAL_FAILURE
      else
        when (cx_runtime cx) (eigrp_filter_schedule_process;; eigrp_filter_soft_resync interface_name);;
        mret EIGRP_RESULT_SUCCESS
  end.

Definition eigrp_offset_remove (cx : policy_context) (name : option string) (direction offset : Z)
    (interface_name : option string) : Po eigrp_result :=
  match offset_checks cx name direction interface_name, name with
  | Some result, _ => mret result
  | None, None => mret EIGRP_RESULT_INVALID_ARGUMENT
  | None, Some name =>
      if cx_config cx then
        config ← gets po_config;
        af ← nonnull config;
        match eigrp_offset_config_lookup af name direction interface_name with
        | Some _ =>
            upd_config (fun af => {| af with pc_offsets :=
              remove_first (keyed oc_key (name, direction, interface_name)) (pc_offsets af) |});;
            when (cx_runtime cx) (eigrp_filter_schedule_process;; eigrp_filter_soft_resync interface_name);;
            mret EIGRP_RESULT_SUCCESS
        | None => mret EIGRP_RESULT_NOT_FOUND
        end
      else mret EIGRP_RESULT_NOT_FOUND
  end.

Definition eigrp_offset_config_delete_all : Po unit := upd_config (fun af => {| af with pc_offsets := [] |}).

Definition eigrp_distribute_list_config_lookup (af : policy_config) (type direction : Z)
    (interface_name : option string) : option eigrp_distribute_list_config :=
  List.find (keyed dc_key (type, direction, interface_name)) (pc_distribute_lists af).

Definition eigrp_distribute_list_validate (cx : policy_context) (type : Z) (name : option string) (direction : Z)
    (interface_name : option string) : eigrp_result :=
  if negb (valid_name name) then EIGRP_RESULT_INVALID_ARGUMENT
  else if empty_name interface_name then EIGRP_RESULT_INVALID_ARGUMENT
  else if negb ((type =? EIGRP_DISTRIBUTE_ACCESS_LIST) || (type =? EIGRP_DISTRIBUTE_PREFIX_LIST))
  then EIGRP_RESULT_INVALID_ARGUMENT
  else if negb (valid_direction direction) then EIGRP_RESULT_INVALID_ARGUMENT
  else if negb (cx_config cx) && negb (cx_runtime cx) then EIGRP_RESULT_NOT_FOUND
  else EIGRP_RESULT_SUCCESS.

Definition eigrp_distribute_runtime_result_committable (result : eigrp_result) : bool :=
  bool_decide (result = EIGRP_RESULT_SUCCESS).

(** The state with one reference replaced; [name] is NULL for a removal. *)
Definition reference_set (state : eigrp_filter_runtime_state) (type direction : Z) (name : option string)
    : eigrp_filter_runtime_state :=
  if type =? EIGRP_DISTRIBUTE_ACCESS_LIST
  then {| state with access_list := <[Z.to_nat direction := name]> (access_list state) |}
  else {| state with prefix_list := <[Z.to_nat direction := name]> (prefix_list state) |}.

Definition eigrp_filter_runtime_reference_update (type : Z) (name : string) (direction : Z)
    (interface_name : option string) (remove : bool) : Po eigrp_result :=
  let slot := if direction =? EIGRP_OFFSET_OUT then EIGRP_FILTER_OUT else EIGRP_FILTER_IN in
  s ← get;
  match filter_target s interface_name with
  | None => mret (if remove then EIGRP_RESULT_NOT_FOUND else EIGRP_RESULT_SUCCESS)
  | Some (_, state) =>
      eigrp_sys_filter_runtime_replace interface_name
        (reference_set state type slot (if remove then None else Some name))
  end.

(** The allocations before the runtime is touched: the name, and a new entry with its
    interface name; [None] when one fails. *)
Definition distribute_prepare (cx : policy_context) (type direction : Z) (interface_name : option string)
    : Po (option bool) :=
  ok ← p_malloc;
  if negb ok then mret None
  else if cx_config cx then
    config ← gets po_config;
    af ← nonnull config;
    match eigrp_distribute_list_config_lookup af type direction interface_name with
    | Some _ => mret (Some true)
    | None =>
        ok ← p_malloc;
        if negb ok then mret None
        else
          copy ← eigrp_filter_string_dup interface_name;
          mret (match copy with Some _ => Some false | None => None end)
    end
  else mret (Some false).

Definition eigrp_distribute_add (cx : policy_context) (type : Z) (name : option string) (direction : Z)
    (interface_name : option string) : Po eigrp_result :=
  match eigrp_distribute_list_validate cx type name direction interface_name, name with
  | EIGRP_RESULT_SUCCESS, Some name =>
      prepared ← distribute_prepare cx type direction interface_name;
      match prepared with
      | None => mret EIGRP_RESULT_INTERNAL_FAILURE
      | Some known =>
          result ← (if cx_runtime cx
                    then eigrp_filter_runtime_reference_update type name direction interface_name false
                    else mret EIGRP_RESULT_SUCCESS);
          if negb (eigrp_distribute_runtime_result_committable result) then mret result
          else
            when (cx_config cx)
              (upd_config (fun af => {| af with pc_distribute_lists :=
                 if known : bool
                 then alter_first (keyed dc_key (type, direction, interface_name))
                        (fun c => {| c with dc_name := name |}) (pc_distribute_lists af)
                 else {| dc_type := type; dc_direction := direction; dc_name := name;
                         dc_interface_name := interface_name |} :: pc_distribute_lists af |}));;
            mret result
      end
  | result, _ => mret result
  end.

(** The entry the removal names: key and list name. *)
Definition distribute_named (type direction : Z) (name : string) (interface_name : option string)
    (c : eigrp_distribute_list_config) : bool :=
  (dc_type c =? type) && (dc_direction c =? direction) && bool_decide (dc_name c = name)
  && bool_decide (dc_interface_name c = interface_name).

Definition eigrp_distribute_remove (cx : policy_context) (type : Z) (name : option string) (direction : Z)
    (interface_name : option string) : Po eigrp_result :=
  match eigrp_distribute_list_validate cx type name direction interface_name, name with
  | EIGRP_RESULT_SUCCESS, Some name =>
      found ← (if cx_config cx then
                 config ← gets po_config;
                 af ← nonnull config;
                 mret (List.find (distribute_named type direction name interface_name) (pc_distribute_lists af))
               else mret None);
      if cx_config cx && negb (bool_decide (is_Some found)) then mret EIGRP_RESULT_NOT_FOUND
      else
        result ← (if cx_runtime cx
                  then eigrp_filter_runtime_reference_update type name direction interface_name true
                  else mret EIGRP_RESULT_NOT_FOUND);
        if negb (bool_decide (result = EIGRP_RESULT_SUCCESS)) && negb (bool_decide (result = EIGRP_RESULT_NOT_FOUND))
        then mret result
        else if bool_decide (is_Some found) then
          upd_config (fun af => {| af with pc_distribute_lists :=
            remove_first (distribute_named type direction name interface_name) (pc_distribute_lists af) |});;
          mret (if bool_decide (result = EIGRP_RESULT_NOT_FOUND) || negb (cx_runtime cx)
                then EIGRP_RESULT_SUCCESS else result)
        else mret result
  | result, _ => mret result
  end.

Definition eigrp_distribute_list_config_delete_all : Po unit :=
  upd_config (fun af => {| af with pc_distribute_lists := [] |}).

Definition eigrp_topology_default_information_refresh (direction : Z) : Po unit :=
  if direction =? EIGRP_FILTER_OUT then policy_call_add call_update_send_process_GR
  else eigrp_filter_soft_resync None.

(** The configuration is [context->config], else the one bound to the runtime. *)
Definition eigrp_topology_default_information_update (operation : eigrp_operation) (cx : policy_context)
    (direction : Z) (name : option string) : Po eigrp_result :=
  if negb (valid_direction direction) then mret EIGRP_RESULT_INVALID_ARGUMENT
  else if empty_name name then mret EIGRP_RESULT_INVALID_ARGUMENT
  else if negb (cx_config cx) && negb (cx_runtime cx) then mret EIGRP_RESULT_NOT_FOUND
  else
    config ← gets po_config;
    match config with
    | None => mret EIGRP_RESULT_NOT_FOUND
    | Some _ =>
        let enabled := bool_decide (operation = EIGRP_SET) in
        copy ← (if enabled then eigrp_filter_string_dup name else mret (Some None));
        match copy with
        | None => mret EIGRP_RESULT_INTERNAL_FAILURE
        | Some replacement =>
            upd_config (fun af =>
              {| af with
                 pc_default_information_access_list :=
                   <[Z.to_nat direction := replacement]> (pc_default_information_access_list af);
                 pc_default_information_enabled :=
                   <[Z.to_nat direction := enabled]> (pc_default_information_enabled af) |});;
            when (cx_runtime cx) (eigrp_topology_default_information_refresh direction);;
            mret EIGRP_RESULT_SUCCESS
        end
    end.
