(* ===== verification/FilterProps.v ===== *)
(** * Route policy: the commands and their effect

    The configuration as finite maps from the commands' keys, every command as an
    operation on them that leaves the state alone when it fails, and the decision on a
    route as a function of the configuration: the runtime references always name what
    is configured. *)

From Stdlib Require Import ZArith Lia.
From stdpp Require Import base gmap list strings.
From S2P Require Import Prelude Types Filter.

(** ** The abstract configuration *)

Record policy_spec := {
  ps_offsets : gmap (string * Z * option string) Z;
  ps_distribute : gmap (Z * Z * option string) string;
  ps_default : list (bool * option string);
}.

Definition policy_of (af : policy_config) : policy_spec :=
  {| ps_offsets := amap oc_key oc_offset (pc_offsets af);
     ps_distribute := amap dc_key dc_name (pc_distribute_lists af);
     ps_default := zip (pc_default_information_enabled af) (pc_default_information_access_list af) |}.

(** The reference of a type and direction. *)
Definition reference (state : eigrp_filter_runtime_state) (type direction : Z) : option string :=
  slot_name (if type =? EIGRP_DISTRIBUTE_ACCESS_LIST then access_list state else prefix_list state) direction.

Definition list_type (type : Z) : Prop := type = EIGRP_DISTRIBUTE_ACCESS_LIST \/ type = EIGRP_DISTRIBUTE_PREFIX_LIST.
Definition direction_ok (direction : Z) : Prop := direction = EIGRP_OFFSET_IN \/ direction = EIGRP_OFFSET_OUT.

Definition state_wf (state : eigrp_filter_runtime_state) : Prop :=
  length (access_list state) = 2%nat /\ length (prefix_list state) = 2%nat.

(** The runtime references of the existing interfaces are those of the configuration [af].
    The commands keep this; nothing establishes it for an interface that is created later,
    see [late_interface_unfiltered]. *)
Record policy_ok (s : policy) (af : policy_config) : Prop := {
  pk_config : po_config s = Some af;
  pk_offsets : NoDup (oc_key <$> pc_offsets af);
  pk_lists : NoDup (dc_key <$> pc_distribute_lists af);
  pk_default : length (pc_default_information_enabled af) = 2%nat /\ length (pc_default_information_access_list af) = 2%nat;
  pk_target : forall ifn t st, filter_target s ifn = Some (t, st) -> state_wf st;
  pk_sync : forall ifn t st type direction, filter_target s ifn = Some (t, st) -> list_type type ->
    direction_ok direction -> reference st type direction = ps_distribute (policy_of af) !! (type, direction, ifn);
}.

(** ** Targets *)

Section targets.
Implicit Types s : policy.

Lemma lookup_by_name_spec s name i :
  eigrp_intf_lookup_by_name s name = Some i -> exists st, po_intfs s !! i = Some (Some name, st).
Proof.
  unfold eigrp_intf_lookup_by_name. intros ([j x] & Hf & E)%fmap_Some. simpl in E. subst i.
  apply list_find_Some in Hf as (Hj & -> & _). rewrite list_lookup_fmap in Hj.
  destruct (po_intfs s !! j) as [[n st]|]; [|done]. simpl in Hj. injection Hj as ->. eauto.
Qed.

Lemma set_filter_names t st s : (po_intfs (set_filter t st s)).*1 = (po_intfs s).*1.
Proof.
  destruct t as [i|]; [|done]. cbn [set_filter po_intfs]. apply list_eq. intros j. rewrite !list_lookup_fmap.
  destruct (decide (j = i)) as [->|Hne]; [rewrite list_lookup_alter_eq|by rewrite list_lookup_alter_ne].
  by destruct (po_intfs s !! i) as [[]|].
Qed.

Lemma set_filter_target s ifn ifn' t st0 st :
  filter_target s ifn = Some (t, st0) ->
  filter_target (set_filter t st s) ifn' = if decide (ifn' = ifn) then Some (t, st) else filter_target s ifn'.
Proof.
  intros Ht. assert (forall n, eigrp_intf_lookup_by_name (set_filter t st s) n = eigrp_intf_lookup_by_name s n) as Hl.
  { intros n. unfold eigrp_intf_lookup_by_name. by rewrite set_filter_names. }
  destruct ifn as [n|]; simpl in Ht.
  - destruct (eigrp_intf_lookup_by_name s n) as [i|] eqn:Ei; [|done]. simpl in Ht.
    destruct (lookup_by_name_spec _ _ _ Ei) as [x Hx]. rewrite Hx in Ht. simpl in Ht. injection Ht as <- <-.
    destruct ifn' as [n'|]; cbn [filter_target]; [|by rewrite decide_False].
    rewrite Hl. case_decide as E.
    + injection E as ->. rewrite Ei. cbn. rewrite list_lookup_alter_eq, Hx. done.
    + destruct (eigrp_intf_lookup_by_name s n') as [j|] eqn:Ej; [|done]. cbn.
      destruct (lookup_by_name_spec _ _ _ Ej) as [y Hy]. rewrite list_lookup_alter_ne; [done|].
      intros ->. rewrite Hx in Hy. injection Hy as ->. done.
  - injection Ht as <- <-. destruct ifn' as [n'|]; [rewrite decide_False by done|by rewrite decide_True].
    cbn [filter_target]. rewrite Hl. done.
Qed.

Lemma reference_set_spec st type direction name type' direction' :
  state_wf st -> list_type type -> list_type type' -> direction_ok direction -> direction_ok direction' ->
  state_wf (reference_set st type direction name)
  /\ reference (reference_set st type direction name) type' direction' =
       if decide ((type', direction') = (type, direction)) then name else reference st type' direction'.
Proof.
  intros [W1 W2] [-> | ->] [-> | ->] [-> | ->] [-> | ->]; destruct st as [[|a [|b []]] [|c [|d []]]]; done.
Qed.

Lemma reference_ext st st' :
  state_wf st -> state_wf st' ->
  (forall type direction, list_type type -> direction_ok direction -> reference st' type direction = reference st type direction) ->
  st' = st.
Proof.
  intros [W1 W2] [W1' W2'] H.
  pose proof (H 0 0 (or_introl eq_refl) (or_introl eq_refl)) as H00. pose proof (H 0 1 (or_introl eq_refl) (or_intror eq_refl)) as H01.
  pose proof (H 1 0 (or_intror eq_refl) (or_introl eq_refl)) as H10. pose proof (H 1 1 (or_intror eq_refl) (or_intror eq_refl)) as H11.
  destruct st as [[|a [|b []]] [|c [|d []]]], st' as [[|a' [|b' []]] [|c' [|d' []]]]; try done.
  unfold reference, slot_name in *. simpl in *. by subst.
Qed.
End targets.

(** ** Running the operations *)

(** Only the answers of allocations are used up. *)
Definition drawn (s s' : policy) : Prop :=
  s' = {| s with po_grants := po_grants s' |} /\ (po_grants s = [] -> po_grants s' = []).

#[export] Instance drawn_preorder : PreOrder drawn.
Proof.
  split; [by intros []|]. intros s1 s2 s3 [E1 G1] [E2 G2]. split; [by rewrite E2, E1|auto].
Qed.

Lemma drawn_config s s' : drawn s s' -> po_config s' = po_config s.
Proof. by intros [-> _]. Qed.
Lemma drawn_target s s' ifn : drawn s s' -> filter_target s' ifn = filter_target s ifn.
Proof. by intros [-> _]. Qed.

Lemma policy_ok_drawn s s' af : drawn s s' -> policy_ok s af -> policy_ok s' af.
Proof.
  intros D [H1 H2 H3 H4 H5 H6]. split; try done.
  - by rewrite (drawn_config _ _ D).
  - intros ifn t st. rewrite (drawn_target _ _ _ D). apply H5.
  - intros ifn t st ty dir. rewrite (drawn_target _ _ _ D). apply H6.
Qed.

(** A call that is only recorded. *)
Definition noted (s s' : policy) : Prop :=
  s' = {| s with po_calls := po_calls s'; po_grants := po_grants s' |} /\ (po_grants s = [] -> po_grants s' = []).

Lemma policy_ok_noted s s' af : noted s s' -> policy_ok s af -> policy_ok s' af.
Proof.
  intros [E _] [H1 H2 H3 H4 H5 H6]. rewrite E. split; try done.
Qed.

Section operations.
Implicit Types s : policy.

Lemma wp_malloc s (Q : bool -> policy -> Prop) :
  (forall s' b, drawn s s' -> (po_grants s = [] -> b = true) -> Q b s') -> wp p_malloc Q s.
Proof.
  intros HQ. unfold wp, p_malloc. destruct (po_grants s) as [|b g] eqn:E; apply HQ; [done|done| |done].
  split; [done|]. by rewrite E.
Qed.

Lemma wp_string_dup v s (Q : option (option string) -> policy -> Prop) :
  (forall s' r, drawn s s' -> (r = Some v \/ r = None /\ po_grants s <> []) -> Q r s') ->
  wp (eigrp_filter_string_dup v) Q s.
Proof.
  intros HQ. unfold eigrp_filter_string_dup. destruct v as [n|]; [|apply wp_ret, HQ; [done|by left]].
  apply wp_bind, wp_malloc. intros s' b D Hb. apply wp_ret, HQ; [done|]. destruct b; [by left|right].
  split; [done|]. intros E. by specialize (Hb E).
Qed.

Lemma wp_state_copy names done s (Q : option (list (option string)) -> policy -> Prop) :
  (forall s' r, drawn s s' -> (r = Some (done ++ names) \/ r = None /\ po_grants s <> []) -> Q r s') ->
  wp (state_copy names done) Q s.
Proof.
  revert done s. induction names as [|n names IH]; intros done s HQ; cbn [state_copy].
  { apply wp_ret, HQ; [done|left; by rewrite app_nil_r]. }
  apply wp_bind, wp_string_dup. intros s1 r D [->|[-> G]].
  - apply IH. intros s2 r D2 H. apply HQ; [by etrans|]. rewrite <- app_assoc in H. destruct H as [H|[H G]]; [by left|right].
    split; [done|]. intros E. by apply G, D.
  - apply wp_ret, HQ; [done|by right].
Qed.

Lemma wp_runtime_state_copy st s (Q : option eigrp_filter_runtime_state -> policy -> Prop) :
  state_wf st -> (forall s' r, drawn s s' -> (r = Some st \/ r = None /\ po_grants s <> []) -> Q r s') ->
  wp (eigrp_filter_runtime_state_copy st) Q s.
Proof.
  intros [W1 W2] HQ. unfold eigrp_filter_runtime_state_copy. apply wp_bind, wp_state_copy. intros s' r D H.
  apply wp_ret, HQ; [done|]. destruct H as [-> |[-> G]]; [left|by right].
  by destruct st as [[|a [|b []]] [|c [|d []]]].
Qed.

Lemma state_match_eq st st' : state_wf st -> state_wf st' -> eigrp_filter_runtime_state_match st st' = true -> st' = st.
Proof.
  intros [W1 W2] [W1' W2']. unfold eigrp_filter_runtime_state_match, eigrp_filter_string_match.
  destruct st as [[|a [|b []]] [|c [|d []]]], st' as [[|a' [|b' []]] [|c' [|d' []]]]; try done.
  simpl. rewrite !andb_true_iff, !bool_decide_eq_true. unfold slot_name. simpl. intros ((-> & ->) & (-> & ->) & _). done.
Qed.

(** The runtime takes the new references, or nothing changes. *)
Lemma wp_runtime_replace ifn t st0 st s (Q : eigrp_result -> policy -> Prop) :
  ifn <> Some EmptyString -> filter_target s ifn = Some (t, st0) -> state_wf st0 -> state_wf st ->
  (forall s1 s', drawn s s1 -> noted (set_filter t st s1) s' -> Q EIGRP_RESULT_SUCCESS s') ->
  (forall s', po_grants s <> [] -> drawn s s' -> Q EIGRP_RESULT_INTERNAL_FAILURE s') ->
  wp (eigrp_sys_filter_runtime_replace ifn st) Q s.
Proof.
  intros Hne Ht W0 W HS HF. unfold eigrp_sys_filter_runtime_replace. rewrite bool_decide_false by done.
  apply wp_bind, wp_get. rewrite Ht. destruct (eigrp_filter_runtime_state_match st0 st) eqn:Em.
  - apply wp_ret, (HS s); [done|]. apply state_match_eq in Em as ->; [|done|done].
    assert (set_filter t st0 s = s) as ->; [|by destruct s].
    destruct ifn as [n|]; simpl in Ht.
    + destruct (eigrp_intf_lookup_by_name s n) as [i|]; [|done]. simpl in Ht.
      destruct (po_intfs s !! i) as [[nm x]|] eqn:Ei; [|done]. simpl in Ht. injection Ht as <- <-. unfold set_filter.
      rewrite (list_alter_ext _ id (po_intfs s) (po_intfs s)), list_alter_id; [by destruct s|done| |done].
      intros [nm' x'] E. rewrite Ei in E. by injection E as -> ->.
    + injection Ht as <- <-. by destruct s.
  - apply wp_bind, wp_runtime_state_copy; [done|]. intros s1 r D [->|[-> G]]; [|apply wp_ret; auto].
    apply wp_bind, wp_modify, wp_bind. eapply (wp_mono _ (fun _ => noted (set_filter t st s1))).
    { destruct t; apply wp_modify; split; done. }
    intros [] s2 [E2 G2]. apply wp_bind, wp_modify, wp_ret, (HS s1); [done|]. rewrite E2. split; done.
Qed.
End operations.

(** ** The commands as operations on the maps *)

Inductive policy_command :=
  | cmd_offset_add (name : option string) (direction offset : Z) (interface_name : option string)
  | cmd_offset_remove (name : option string) (direction offset : Z) (interface_name : option string)
  | cmd_distribute_add (type : Z) (name : option string) (direction : Z) (interface_name : option string)
  | cmd_distribute_remove (type : Z) (name : option string) (direction : Z) (interface_name : option string)
  | cmd_default_information (operation : eigrp_operation) (direction : Z) (name : option string).

(** The context of a configured and running address family. *)
Definition live_context : policy_context := {| cx_config := true; cx_runtime := true |}.

Definition perform_policy (c : policy_command) : Po eigrp_result :=
  match c with
  | cmd_offset_add name dir offset ifn => eigrp_offset_add live_context name dir offset ifn
  | cmd_offset_remove name dir offset ifn => eigrp_offset_remove live_context name dir offset ifn
  | cmd_distribute_add type name dir ifn => eigrp_distribute_add live_context type name dir ifn
  | cmd_distribute_remove type name dir ifn => eigrp_distribute_remove live_context type name dir ifn
  | cmd_default_information op dir name => eigrp_topology_default_information_update op live_context dir name
  end.

Definition named_command (name : option string) (direction : Z) (ifn : option string) : Prop :=
  is_Some name /\ name <> Some EmptyString /\ direction_ok direction /\ ifn <> Some EmptyString.

(** The arguments the commands accept. *)
Definition command_valid (c : policy_command) : Prop :=
  match c with
  | cmd_offset_add name dir _ ifn | cmd_offset_remove name dir _ ifn => named_command name dir ifn
  | cmd_distribute_add type name dir ifn | cmd_distribute_remove type name dir ifn =>
      named_command name dir ifn /\ list_type type
  | cmd_default_information _ dir name => direction_ok dir /\ name <> Some EmptyString
  end.

(** The entry a removal needs. *)
Definition command_applies (c : policy_command) (ps : policy_spec) : Prop :=
  match c with
  | cmd_offset_remove (Some name) dir _ ifn => is_Some (ps_offsets ps !! (name, dir, ifn))
  | cmd_distribute_remove type name dir ifn => ps_distribute ps !! (type, dir, ifn) = name
  | _ => True
  end.

Definition command_apply (c : policy_command) (ps : policy_spec) : policy_spec :=
  match c with
  | cmd_offset_add (Some name) dir offset ifn => {| ps with ps_offsets := <[(name, dir, ifn) := offset]> (ps_offsets ps) |}
  | cmd_offset_remove (Some name) dir _ ifn => {| ps with ps_offsets := delete (name, dir, ifn) (ps_offsets ps) |}
  | cmd_distribute_add type (Some name) dir ifn =>
      {| ps with ps_distribute := <[(type, dir, ifn) := name]> (ps_distribute ps) |}
  | cmd_distribute_remove type _ dir ifn => {| ps with ps_distribute := delete (type, dir, ifn) (ps_distribute ps) |}
  | cmd_default_information op dir name =>
      {| ps with ps_default := <[Z.to_nat dir := (bool_decide (op = EIGRP_SET),
                                                  if bool_decide (op = EIGRP_SET) then name else None)]> (ps_default ps) |}
  | _ => ps
  end.

(** What a command may do: succeed with its operation, when it is valid and applies; or
    fail and change nothing, for a reason that is not a missing grant of memory unless
    one was missing. *)
Definition command_done (c : policy_command) (s : policy) (af : policy_config) (result : eigrp_result) (s' : policy) : Prop :=
  (result = EIGRP_RESULT_SUCCESS /\ command_valid c /\ command_applies c (policy_of af)
   /\ exists af', policy_ok s' af' /\ policy_of af' = command_apply c (policy_of af))
  \/ (drawn s s'
      /\ (result = EIGRP_RESULT_INVALID_ARGUMENT /\ ~ command_valid c
          \/ result = EIGRP_RESULT_NOT_FOUND /\ command_valid c /\ ~ command_applies c (policy_of af)
          \/ result = EIGRP_RESULT_INTERNAL_FAILURE /\ po_grants s <> [])).

Section commands.
Implicit Types s : policy.

Lemma direction_okb dir : valid_direction dir = true <-> direction_ok dir.
Proof. unfold valid_direction, direction_ok. rewrite orb_true_iff, !Z.eqb_eq. done. Qed.

Lemma offset_checks_spec name dir ifn :
  match offset_checks live_context name dir ifn with
  | Some r => r = EIGRP_RESULT_INVALID_ARGUMENT /\ ~ named_command name dir ifn
  | None => named_command name dir ifn
  end.
Proof.
  unfold offset_checks, named_command. destruct name as [n|]; simpl.
  2: { split; [done|]. by intros ([? ?] & _). }
  case_bool_decide as E; simpl. { split; [done|]. intros (_ & H & _). by subst. }
  destruct (valid_direction dir) eqn:Ed; simpl.
  2: { split; [done|]. intros (_ & _ & H%direction_okb & _). congruence. }
  unfold empty_name. case_bool_decide as Ei. { split; [done|]. tauto. }
  apply direction_okb in Ed. split; [eauto|]. split; [congruence|done].
Qed.

Lemma validate_spec type name dir ifn :
  match eigrp_distribute_list_validate live_context type name dir ifn with
  | EIGRP_RESULT_SUCCESS => named_command name dir ifn /\ list_type type
  | r => r = EIGRP_RESULT_INVALID_ARGUMENT /\ ~ (named_command name dir ifn /\ list_type type)
  end.
Proof.
  unfold eigrp_distribute_list_validate, named_command, list_type. destruct name as [n|]; simpl.
  2: { split; [done|]. by intros (([? ?] & _) & _). }
  case_bool_decide as E; simpl. { split; [done|]. intros ((_ & H & _) & _). by subst. }
  unfold empty_name. case_bool_decide as Ei. { split; [done|]. tauto. }
  destruct ((type =? _) || (type =? _)) eqn:Et; simpl.
  2: { split; [done|]. intros (_ & H). rewrite orb_false_iff, !Z.eqb_neq in Et. tauto. }
  rewrite orb_true_iff, !Z.eqb_eq in Et. destruct (valid_direction dir) eqn:Ed; simpl.
  2: { split; [done|]. intros ((_ & _ & H%direction_okb & _) & _). congruence. }
  apply direction_okb in Ed. split; [|done]. split; [eauto|]. split; [congruence|done].
Qed.

(** Replacing the offsets, or the default information, keeps the rest in step. *)
Lemma policy_ok_config s s' af af' :
  policy_ok s af -> (forall ifn, filter_target s' ifn = filter_target s ifn) -> po_config s' = Some af' ->
  pc_distribute_lists af' = pc_distribute_lists af -> NoDup (oc_key <$> pc_offsets af') ->
  length (pc_default_information_enabled af') = 2%nat -> length (pc_default_information_access_list af') = 2%nat ->
  policy_ok s' af'.
Proof.
  intros [H1 H2 H3 H4 H5 H6] Ht Hc El Ho L1 L2. split; try done.
  - by rewrite El.
  - intros ifn t st. rewrite Ht. apply H5.
  - intros ifn t st ty d. rewrite Ht. simpl. rewrite El. apply H6.
Qed.

Lemma wp_calls (b : bool) ifn s (Q : unit -> policy -> Prop) :
  (forall s', noted s s' -> Q tt s') ->
  wp (when b (eigrp_filter_schedule_process;; eigrp_filter_soft_resync ifn)) Q s.
Proof.
  intros HQ. apply wp_when. destruct b; [|apply HQ; by split; [destruct s|]].
  apply wp_bind, wp_modify, wp_modify, HQ. split; done.
Qed.

Lemma noted_target s s' ifn : noted s s' -> filter_target s' ifn = filter_target s ifn.
Proof. by intros [-> _]. Qed.
Lemma noted_config s s' : noted s s' -> po_config s' = po_config s.
Proof. by intros [-> _]. Qed.

Lemma wp_offset_entry n dir o ifn s (Q : bool -> policy -> Prop) :
  (forall s', drawn s s' -> po_grants s <> [] -> Q false s') ->
  (forall s', drawn s s' -> Q true {| s' with po_config := (fun af => {| af with pc_offsets :=
     {| oc_access_list := n; oc_direction := dir; oc_offset := o; oc_interface_name := ifn |} :: pc_offsets af |})
     <$> po_config s' |}) ->
  wp (offset_entry n dir o ifn) Q s.
Proof.
  intros HF HS. unfold offset_entry. apply wp_bind, wp_malloc. intros s1 b D1 Hb.
  destruct b; simpl; [|apply wp_ret, HF; [done|]; intros E; by specialize (Hb E)].
  apply wp_bind, wp_string_dup. intros s2 r D2 [->|[-> G2]].
  2: { apply wp_ret, HF; [by etrans|]. intros E. by apply G2, D1. }
  apply wp_bind, wp_malloc. intros s3 b3 D3 Hb3. assert (drawn s s3) as D by (transitivity s1; [done|by transitivity s2]).
  destruct b3; simpl; [apply wp_bind, wp_modify, wp_ret; by apply HS|].
  apply wp_ret, HF; [done|]. intros E. assert (false = true) by (apply Hb3, D2, D1, E). done.
Qed.

Lemma offset_add_done name dir o ifn s af :
  policy_ok s af ->
  wp (eigrp_offset_add live_context name dir o ifn) (command_done (cmd_offset_add name dir o ifn) s af) s.
Proof.
  intros O. unfold eigrp_offset_add. pose proof (offset_checks_spec name dir ifn) as C.
  destruct (offset_checks live_context name dir ifn) as [r|].
  { destruct C as [-> C]. apply wp_ret. right. split; [done|by left]. }
  pose proof C as ([n ->] & _). apply wp_bind. cbn [cx_config live_context].
  apply wp_bind, wp_gets. rewrite (pk_config _ _ O). apply wp_bind, wp_ret.
  assert (forall s1 af1, po_config s1 = Some af1 -> (forall i, filter_target s1 i = filter_target s i) ->
    pc_distribute_lists af1 = pc_distribute_lists af -> NoDup (oc_key <$> pc_offsets af1) ->
    pc_default_information_enabled af1 = pc_default_information_enabled af ->
    pc_default_information_access_list af1 = pc_default_information_access_list af ->
    amap oc_key oc_offset (pc_offsets af1) = <[(n, dir, ifn) := o]> (amap oc_key oc_offset (pc_offsets af)) ->
    wp (when (cx_runtime live_context) (eigrp_filter_schedule_process;; eigrp_filter_soft_resync ifn);;
        mret EIGRP_RESULT_SUCCESS) (command_done (cmd_offset_add (Some n) dir o ifn) s af) s1) as Fin.
  { intros s1 af1 E1 E2 E3 E4 E5 E6 E7. apply wp_bind, wp_calls. intros s2 N. apply wp_ret. left.
    split; [done|]. split; [done|]. split; [done|]. exists af1. split.
    - eapply (policy_ok_config s); [done| |rewrite (noted_config _ _ N); done|done|done|rewrite E5; apply O|rewrite E6; apply O].
      intros i. by rewrite (noted_target _ _ _ N).
    - unfold policy_of, command_apply. simpl. by rewrite E3, E5, E6, E7. }
  unfold eigrp_offset_config_lookup. destruct (List.find _ _) as [c|] eqn:Ef.
  - apply wp_bind, wp_modify, wp_ret. apply (Fin _ {| af with pc_offsets := alter_first (keyed oc_key (n, dir, ifn))
      (fun c => {| c with oc_offset := o |}) (pc_offsets af) |}); try done; simpl.
    + by rewrite (pk_config _ _ O).
    + rewrite alter_keys by done. apply O.
    + apply amap_alter; [done|done|]. by rewrite amap_find, Ef.
  - apply wp_offset_entry; [intros s1 D G; apply wp_ret; right; split; [done|by right; right]|].
    intros s1 D. apply (Fin _ {| af with pc_offsets := {| oc_access_list := n; oc_direction := dir; oc_offset := o;
      oc_interface_name := ifn |} :: pc_offsets af |}); try done; simpl.
    + rewrite (drawn_config _ _ D), (pk_config _ _ O). done.
    + intros i. exact (drawn_target _ _ i D).
    + apply NoDup_cons. split; [|apply O]. apply (amap_none oc_key oc_offset (n, dir, ifn)). by rewrite amap_find, Ef.
Qed.

Lemma offset_remove_done name dir o ifn s af :
  policy_ok s af ->
  wp (eigrp_offset_remove live_context name dir o ifn) (command_done (cmd_offset_remove name dir o ifn) s af) s.
Proof.
  intros O. unfold eigrp_offset_remove. pose proof (offset_checks_spec name dir ifn) as C.
  destruct (offset_checks live_context name dir ifn) as [r|].
  { destruct C as [-> C]. apply wp_ret. right. split; [done|by left]. }
  pose proof C as ([n ->] & _). cbn [cx_config live_context].
  apply wp_bind, wp_gets. rewrite (pk_config _ _ O). apply wp_bind, wp_ret.
  unfold eigrp_offset_config_lookup. destruct (List.find _ _) as [c|] eqn:Ef.
  - apply wp_bind, wp_modify, wp_bind, wp_calls. intros s2 N. apply wp_ret. left. split; [done|]. split; [done|].
    split; [simpl; by rewrite amap_find, Ef|].
    exists {| af with pc_offsets := remove_first (keyed oc_key (n, dir, ifn)) (pc_offsets af) |}. split.
    + eapply (policy_ok_config s); [done| |rewrite (noted_config _ _ N); simpl; by rewrite (pk_config _ _ O)|done| |apply O|apply O].
      * intros i. by rewrite (noted_target _ _ _ N).
      * apply remove_keys, O.
    + unfold policy_of, command_apply. simpl. by rewrite amap_remove by apply O.
  - apply wp_ret. right. split; [done|]. right. left. split; [done|]. split; [done|]. simpl.
    rewrite amap_find, Ef. by intros [].
Qed.

(** The runtime and the configuration change together. *)
Lemma policy_ok_reference s s' af af' ifn type dir name :
  policy_ok s af -> list_type type -> direction_ok dir -> po_config s' = Some af' ->
  (forall i, filter_target s' i =
     if decide (i = ifn) then (fun '(t, st) => (t, reference_set st type dir name)) <$> filter_target s i
     else filter_target s i) ->
  pc_offsets af' = pc_offsets af -> NoDup (dc_key <$> pc_distribute_lists af') ->
  pc_default_information_enabled af' = pc_default_information_enabled af ->
  pc_default_information_access_list af' = pc_default_information_access_list af ->
  (forall k, ps_distribute (policy_of af') !! k
     = if decide (k = (type, dir, ifn)) then name else ps_distribute (policy_of af) !! k) ->
  policy_ok s' af'.
Proof.
  intros O Ht Hd Hc Hf Eo ND E1 E2 Hm. split; try done.
  - rewrite Eo. apply O.
  - rewrite E1, E2. apply O.
  - intros i t st. rewrite Hf. case_decide as Ei; [|apply O]. destruct (filter_target s i) as [[t0 st0]|] eqn:E; [|done].
    intros [= <- <-]. eapply (reference_set_spec _ _ _ _ type dir); try done. by eapply (pk_target _ _ O).
  - intros i t st ty d. rewrite Hf, Hm. case_decide as Ei.
    + subst i. destruct (filter_target s ifn) as [[t0 st0]|] eqn:E; [|done]. intros [= <- <-] Hty Hdd.
      assert (state_wf st0) as W by by eapply (pk_target _ _ O).
      rewrite (proj2 (reference_set_spec st0 type dir name ty d W Ht Hty Hd Hdd)).
      case_decide as E'; [injection E' as -> ->; by rewrite decide_True|]. rewrite decide_False by congruence.
      by eapply (pk_sync _ _ O).
    + intros Hi Hty Hdd. rewrite decide_False by congruence. by eapply (pk_sync _ _ O).
Qed.

Lemma direction_slot dir : direction_ok dir -> (if dir =? EIGRP_OFFSET_OUT then EIGRP_FILTER_OUT else EIGRP_FILTER_IN) = dir.
Proof. by intros [-> | ->]. Qed.

(** One reference at the runtime: set or cleared where the interface exists. *)
Lemma wp_reference_update type n dir ifn (remove : bool) s af (Q : eigrp_result -> policy -> Prop) :
  policy_ok s af -> list_type type -> direction_ok dir -> ifn <> Some EmptyString ->
  (forall r s', po_config s' = po_config s -> (po_grants s = [] -> po_grants s' = []) ->
     (forall i, filter_target s' i =
        if decide (i = ifn) then (fun '(t, st) => (t, reference_set st type dir (if remove then None else Some n))) <$> filter_target s i
        else filter_target s i) ->
     (r = EIGRP_RESULT_SUCCESS \/ remove = true /\ r = EIGRP_RESULT_NOT_FOUND) -> Q r s') ->
  (forall s', po_grants s <> [] -> drawn s s' -> Q EIGRP_RESULT_INTERNAL_FAILURE s') ->
  wp (eigrp_filter_runtime_reference_update type n dir ifn remove) Q s.
Proof.
  intros O Ht Hd Hne HS HF. unfold eigrp_filter_runtime_reference_update. rewrite (direction_slot _ Hd).
  apply wp_bind, wp_get. destruct (filter_target s ifn) as [[t st]|] eqn:E.
  - assert (state_wf st) as W by by eapply (pk_target _ _ O).
    eapply (wp_runtime_replace _ t st); [done|done|done|eapply (reference_set_spec _ _ _ _ type dir); done| |done].
    intros s1 s' D N. apply HS; [by rewrite (noted_config _ _ N), <- (drawn_config _ _ D); destruct t| | |by left].
    + intros G. apply N. destruct t; apply D, G.
    + intros i. rewrite (noted_target _ _ _ N), (set_filter_target s1 ifn i t st); [|by rewrite (drawn_target _ _ _ D)].
      case_decide as Ei; [subst i; by rewrite E|by apply drawn_target].
  - apply wp_ret, HS; [done|done| |destruct remove; [by right|by left]].
    intros i. case_decide as Ei; [subst i; by rewrite E|done].
Qed.

Lemma wp_distribute_prepare type dir ifn s af (Q : option bool -> policy -> Prop) :
  policy_ok s af ->
  (forall s', drawn s s' -> po_grants s <> [] -> Q None s') ->
  (forall s', drawn s s' -> Q (Some (bool_decide (is_Some (amap dc_key dc_name (pc_distribute_lists af) !! (type, dir, ifn))))) s') ->
  wp (distribute_prepare live_context type dir ifn) Q s.
Proof.
  intros O HF HS. unfold distribute_prepare. apply wp_bind, wp_malloc. intros s1 b D1 Hb.
  destruct b; simpl; [|apply wp_ret, HF; [done|]; intros E; by specialize (Hb E)].
  apply wp_bind, wp_gets. rewrite (drawn_config _ _ D1), (pk_config _ _ O). apply wp_bind, wp_ret.
  unfold eigrp_distribute_list_config_lookup. specialize (HS) with (1 := D1) as HS1. rewrite amap_find in HS1.
  destruct (List.find _ _) as [c|] eqn:Ef; [by apply wp_ret|]. simpl in HS1.
  apply wp_bind, wp_malloc. intros s2 b2 D2 Hb2. assert (drawn s s2) as D by by transitivity s1.
  destruct b2; simpl; [|apply wp_ret, HF; [done|]; intros E; assert (false = true) by (apply Hb2, D1, E); done].
  apply wp_bind, wp_string_dup. intros s3 r D3 H. assert (drawn s s3) as D' by by transitivity s2.
  apply wp_ret. destruct H as [-> |[-> G]].
  - specialize (HS s3 D'). by rewrite amap_find, Ef in HS.
  - apply HF; [done|]. intros E. by apply G, D2, D1.
Qed.

(** The entry of a key, added or renamed. *)
Definition distribute_put (known : bool) (type dir : Z) (n : string) (ifn : option string)
    (l : list eigrp_distribute_list_config) : list eigrp_distribute_list_config :=
  if known then alter_first (keyed dc_key (type, dir, ifn)) (fun c => {| c with dc_name := n |}) l
  else {| dc_type := type; dc_direction := dir; dc_name := n; dc_interface_name := ifn |} :: l.

Lemma distribute_put_spec type dir n ifn l :
  NoDup (dc_key <$> l) ->
  let l' := distribute_put (bool_decide (is_Some (amap dc_key dc_name l !! (type, dir, ifn)))) type dir n ifn l in
  NoDup (dc_key <$> l') /\ amap dc_key dc_name l' = <[(type, dir, ifn) := n]> (amap dc_key dc_name l).
Proof.
  intros ND. unfold distribute_put. case_bool_decide as E.
  - split; [by rewrite alter_keys|by apply amap_alter].
  - split; [|done]. apply NoDup_cons. split; [|done]. apply (amap_none dc_key dc_name (type, dir, ifn)).
    by apply eq_None_not_Some.
Qed.

Lemma distribute_add_done type name dir ifn s af :
  policy_ok s af ->
  wp (eigrp_distribute_add live_context type name dir ifn) (command_done (cmd_distribute_add type name dir ifn) s af) s.
Proof.
  intros O. unfold eigrp_distribute_add. pose proof (validate_spec type name dir ifn) as C.
  destruct (eigrp_distribute_list_validate live_context type name dir ifn);
    try (destruct C as [C1 C2]; apply wp_ret; right; split; [done|by left]).
  pose proof C as [([n ->] & _ & Hd & Hi) Ht]. apply wp_bind, (wp_distribute_prepare _ _ _ _ af); [done| |].
  { intros s1 D G. apply wp_ret. right. split; [done|by right; right]. }
  intros s1 D. apply wp_bind. cbn [cx_runtime live_context].
  assert (policy_ok s1 af) as O1 by by eapply policy_ok_drawn.
  eapply wp_reference_update; [done|done|done|done| |].
  - intros r s2 Ec _ Hf [->|[? _]]; [|done].
    change (eigrp_distribute_runtime_result_committable EIGRP_RESULT_SUCCESS) with true. cbn [negb]. apply wp_bind, wp_modify, wp_ret. left. split; [done|]. split; [done|]. split; [done|].
    destruct (distribute_put_spec type dir n ifn (pc_distribute_lists af) (pk_lists _ _ O)) as [ND Em].
    eexists {| af with pc_distribute_lists := distribute_put _ type dir n ifn (pc_distribute_lists af) |}.
    split; [eapply (policy_ok_reference s1 _ af _ ifn type dir (Some n)); try done|].
    + simpl. rewrite Ec, (drawn_config _ _ D), (pk_config _ _ O). done.
    + intros k. simpl. rewrite Em. case_decide as E; [subst k; by rewrite lookup_insert_eq|by rewrite lookup_insert_ne].
    + unfold policy_of, command_apply. simpl. by rewrite Em.
  - intros s2 G D2. apply wp_ret. right. split; [by transitivity s1|].
    right. right. split; [done|]. intros E. by apply G, D.
Qed.

Lemma distribute_named_keyed type dir n ifn c :
  distribute_named type dir n ifn c = keyed dc_key (type, dir, ifn) c && bool_decide (dc_name c = n).
Proof.
  unfold distribute_named, keyed, dc_key. apply eq_true_iff_eq.
  rewrite !andb_true_iff, !bool_decide_eq_true, !Z.eqb_eq. split; [intros (((-> & ->) & ->) & ->); done|].
  intros [[= -> -> ->] ->]. done.
Qed.

(** With one entry per key, key and name find the entry of the key that has the name. *)
Lemma distribute_find type dir n ifn l :
  NoDup (dc_key <$> l) ->
  (is_Some (List.find (distribute_named type dir n ifn) l) <-> amap dc_key dc_name l !! (type, dir, ifn) = Some n)
  /\ (amap dc_key dc_name l !! (type, dir, ifn) = Some n ->
      remove_first (distribute_named type dir n ifn) l = remove_first (keyed dc_key (type, dir, ifn)) l).
Proof.
  induction l as [|c l IH]; [intros _; split; [split; [by intros []|done]|done]|].
  rewrite fmap_cons. intros [Hn ND]%NoDup_cons. destruct (IH ND) as [IH1 IH2].
  rewrite amap_cons. simpl. rewrite distribute_named_keyed.
  destruct (keyed dc_key (type, dir, ifn) c) eqn:E; unfold keyed in E.
  - apply bool_decide_eq_true in E. rewrite <- E, lookup_insert_eq. rewrite E in Hn.
    apply (amap_notin dc_key dc_name) in Hn. simpl.
    case_bool_decide as En; [subst n; split; [split; eauto|done]|]. split; [|intros [= ?]; done].
    rewrite IH1, Hn. split; [done|by intros [= ?]].
  - apply bool_decide_eq_false in E. rewrite lookup_insert_ne by done. split; [done|]. intros H. simpl. by rewrite IH2.
Qed.

Lemma distribute_remove_done type name dir ifn s af :
  policy_ok s af ->
  wp (eigrp_distribute_remove live_context type name dir ifn) (command_done (cmd_distribute_remove type name dir ifn) s af) s.
Proof.
  intros O. unfold eigrp_distribute_remove. pose proof (validate_spec type name dir ifn) as C.
  destruct (eigrp_distribute_list_validate live_context type name dir ifn);
    try (destruct C as [C1 C2]; apply wp_ret; right; split; [done|by left]).
  pose proof C as [([n ->] & _ & Hd & Hi) Ht]. apply wp_bind. cbn [cx_config cx_runtime live_context].
  apply wp_bind, wp_gets. rewrite (pk_config _ _ O). apply wp_bind, wp_ret, wp_ret.
  destruct (distribute_find type dir n ifn (pc_distribute_lists af) (pk_lists _ _ O)) as [F1 F2].
  destruct (List.find _ _) as [c|] eqn:Ef; simpl.
  2: { apply wp_ret. right. split; [done|]. right. left. split; [done|]. split; [done|]. simpl. rewrite <- F1. by intros []. }
  assert (amap dc_key dc_name (pc_distribute_lists af) !! (type, dir, ifn) = Some n) as Hk by (apply F1; eauto).
  apply wp_bind. eapply wp_reference_update; [done|done|done|done| |].
  - intros r s2 Ec _ Hf Hr.
    assert (wp (upd_config (fun af => {| af with pc_distribute_lists :=
        remove_first (distribute_named type dir n ifn) (pc_distribute_lists af) |});;
      mret EIGRP_RESULT_SUCCESS) (command_done (cmd_distribute_remove type (Some n) dir ifn) s af) s2) as W.
    { apply wp_bind, wp_modify, wp_ret. left. split; [done|]. split; [done|]. split; [done|].
      exists {| af with pc_distribute_lists := remove_first (distribute_named type dir n ifn) (pc_distribute_lists af) |}.
      split; [eapply (policy_ok_reference s _ af _ ifn type dir None); try done|].
      - simpl. rewrite Ec, (pk_config _ _ O). done.
      - simpl. rewrite F2 by done. apply remove_keys, O.
      - intros k. simpl. rewrite F2, amap_remove by (done || apply O).
        case_decide as E; [subst k; by rewrite lookup_delete_eq|by rewrite lookup_delete_ne].
      - unfold policy_of, command_apply. simpl. by rewrite F2, amap_remove by (done || apply O). }
    destruct Hr as [-> |[_ ->]]; exact W.
  - intros s2 G D2. apply wp_ret. right. split; [done|]. by right; right.
Qed.

Lemma default_information_done op dir name s af :
  policy_ok s af ->
  wp (eigrp_topology_default_information_update op live_context dir name)
    (command_done (cmd_default_information op dir name) s af) s.
Proof.
  intros O. unfold eigrp_topology_default_information_update. destruct (valid_direction dir) eqn:Ed; simpl.
  2: { apply wp_ret. right. split; [done|]. left. split; [done|]. intros [H%direction_okb _]. congruence. }
  apply direction_okb in Ed. unfold empty_name. case_bool_decide as En.
  { apply wp_ret. right. split; [done|]. left. split; [done|]. by intros [_ ?]. }
  apply wp_bind, wp_gets. rewrite (pk_config _ _ O). apply wp_bind.
  eapply (wp_mono _ (fun r s1 => drawn s s1 /\ (r = Some (if bool_decide (op = EIGRP_SET) then name else None)
    \/ r = None /\ po_grants s <> []))).
  { case_bool_decide; [|apply wp_ret; split; [done|by left]]. apply wp_string_dup. done. }
  intros r s1 [D [->|[-> G]]]. 2: { apply wp_ret. right. split; [done|by right; right]. }
  apply wp_bind, wp_modify, wp_bind. cbn [cx_runtime live_context].
  match goal with |- wp _ _ ?s0 => eapply (wp_mono _ (fun _ => noted s0)) end.
  { unfold when, eigrp_topology_default_information_refresh. case_match; apply wp_modify; split; done. }
  intros [] s2 N. apply wp_ret. left. split; [done|]. split; [done|]. split; [done|].
  exists {| af with pc_default_information_access_list :=
              <[Z.to_nat dir := if bool_decide (op = EIGRP_SET) then name else None]> (pc_default_information_access_list af);
            pc_default_information_enabled :=
              <[Z.to_nat dir := bool_decide (op = EIGRP_SET)]> (pc_default_information_enabled af) |}. split.
  - eapply (policy_ok_config s); [done| |rewrite (noted_config _ _ N); simpl;
      rewrite (drawn_config _ _ D), (pk_config _ _ O); done|done|apply O| |].
    + intros i. rewrite (noted_target _ _ _ N). exact (drawn_target _ _ i D).
    + simpl. rewrite length_insert. apply O.
    + simpl. rewrite length_insert. apply O.
  - unfold policy_of, command_apply. simpl. by rewrite insert_zip_with.
Qed.

Lemma command_outcome c s af : policy_ok s af -> wp (perform_policy c) (command_done c s af) s.
Proof.
  destruct c; [apply offset_add_done|apply offset_remove_done|apply distribute_add_done|apply distribute_remove_done
              |apply default_information_done].
Qed.
End commands.

(** ** The decision on a route *)

Section decision.
Context (evaluate : Z -> string -> eigrp_prefix -> eigrp_result * option eigrp_filter_decision).

(** A configured list evaluated to DENY. *)
Definition list_denies (ps : policy_spec) (prefix : eigrp_prefix) (type direction : Z) (ifn : option string) : Prop :=
  exists name, ps_distribute ps !! (type, direction, ifn) = Some name
    /\ evaluate type name prefix = (EIGRP_RESULT_SUCCESS, Some EIGRP_FILTER_DECISION_DENY).

(** A default route is let through by its command only. *)
Definition default_denied (ps : policy_spec) (prefix : eigrp_prefix) (direction : Z) : Prop :=
  eigrp_topology_default_prefix prefix = true
  /\ match ps_default ps !! Z.to_nat direction with
     | Some (true, None) => False
     | Some (true, Some name) =>
         evaluate EIGRP_DISTRIBUTE_ACCESS_LIST name prefix
         <> (EIGRP_RESULT_SUCCESS, Some EIGRP_FILTER_DECISION_PERMIT)
     | _ => True
     end.

Lemma reference_denies_spec type name prefix :
  eigrp_filter_reference_denies evaluate type name prefix = true
  <-> exists n, name = Some n /\ evaluate type n prefix = (EIGRP_RESULT_SUCCESS, Some EIGRP_FILTER_DECISION_DENY).
Proof.
  destruct name as [n|]; simpl; [|by split; [|intros (? & ? & _)]].
  destruct (evaluate type n prefix) as [r d] eqn:E. rewrite andb_true_iff, !bool_decide_eq_true. split.
  - intros [-> H]. exists n. split; [done|]. rewrite E. by destruct d as [[]|].
  - intros (n' & [= <-] & H). rewrite E in H. by injection H as -> ->.
Qed.

Lemma state_denies_spec s af ifn t st direction prefix :
  policy_ok s af -> filter_target s ifn = Some (t, st) -> direction_ok direction ->
  eigrp_filter_runtime_state_denies evaluate st direction prefix = true
  <-> exists type, list_type type /\ list_denies (policy_of af) prefix type direction ifn.
Proof.
  intros O Ht Hd. unfold eigrp_filter_runtime_state_denies, list_denies.
  pose proof (pk_sync _ _ O ifn t st EIGRP_DISTRIBUTE_ACCESS_LIST direction Ht (or_introl eq_refl) Hd) as Ea.
  pose proof (pk_sync _ _ O ifn t st EIGRP_DISTRIBUTE_PREFIX_LIST direction Ht (or_intror eq_refl) Hd) as Ep.
  unfold reference in *. simpl in Ea, Ep. rewrite Ea, Ep.
  match goal with |- (if ?a then true else ?b) = true <-> _ => transitivity (a = true \/ b = true) end.
  { destruct (eigrp_filter_reference_denies _ EIGRP_DISTRIBUTE_ACCESS_LIST _ _); naive_solver. }
  rewrite !reference_denies_spec. unfold list_type. split.
  - intros [(n & H)|(n & H)]; eauto.
  - intros (type & [-> | ->] & n & H); eauto.
Qed.

Lemma default_denies_spec af direction prefix :
  length (pc_default_information_enabled af) = 2%nat -> length (pc_default_information_access_list af) = 2%nat ->
  direction_ok direction ->
  eigrp_topology_default_information_denies evaluate (Some af) direction prefix = true
  <-> default_denied (policy_of af) prefix direction.
Proof.
  intros L1 L2 Hd. unfold eigrp_topology_default_information_denies, default_denied.
  destruct (eigrp_topology_default_prefix prefix); simpl; [|by split; [|intros []]].
  change ((direction =? EIGRP_FILTER_IN) || (direction =? EIGRP_FILTER_OUT)) with (valid_direction direction).
  rewrite (proj2 (direction_okb direction)) by done. simpl. unfold slot_name.
  destruct (lookup_lt_is_Some_2 (pc_default_information_enabled af) (Z.to_nat direction)) as [b Hb].
  { rewrite L1. destruct Hd as [-> | ->]; cbv; lia. }
  destruct (lookup_lt_is_Some_2 (pc_default_information_access_list af) (Z.to_nat direction)) as [o Ho].
  { rewrite L2. destruct Hd as [-> | ->]; cbv; lia. }
  rewrite Hb, Ho, lookup_zip_with, Hb, Ho. simpl. destruct b; simpl; [|done]. destruct o as [n|]; [|by split; [|intros []]].
  destruct (evaluate EIGRP_DISTRIBUTE_ACCESS_LIST n prefix) as [r d].
  rewrite orb_true_iff, !negb_true_iff, !bool_decide_eq_false. split.
  - intros H. split; [done|]. intros [= -> ->]. by destruct H as [H|H]; apply H.
  - intros [_ H]. destruct (decide (r = EIGRP_RESULT_SUCCESS)) as [->|]; [right|by left].
    destruct d as [[]|]; simpl; congruence.
Qed.

(** C35: While the runtime references of the existing interfaces are those of the
    configuration ([policy_ok], which every command keeps), the configuration is enforced
    and nothing else: a route is filtered on a named interface exactly when it is a default
    route that default-information does not let through, or when a distribute list
    configured for its direction, of either type, on this interface or on all, evaluates to
    DENY.  An interface created after its distribute list was configured is outside the
    premise ([late_interface_unfiltered]). *)
Theorem policy_enforced s af i name st direction prefix :
  policy_ok s af -> eigrp_intf_lookup_by_name s name = Some i -> po_intfs s !! i = Some (Some name, st) ->
  direction_ok direction ->
  eigrp_filter_prefix_update evaluate s (Some i) direction prefix = true
  <-> default_denied (policy_of af) prefix direction
      \/ exists type ifn, list_type type /\ (ifn = None \/ ifn = Some name)
           /\ list_denies (policy_of af) prefix type direction ifn.
Proof.
  intros O Hl Hi Hd. unfold eigrp_filter_prefix_update. simpl. rewrite Hi.
  assert (filter_target s (Some name) = Some (Some i, st)) as Ht by (simpl; by rewrite Hl; simpl; rewrite Hi).
  assert ((direction <? 0) || (EIGRP_FILTER_MAX <=? direction) = false) as -> by by destruct Hd as [-> | ->].
  assert ((if direction =? EIGRP_FILTER_IN then EIGRP_FILTER_IN else EIGRP_FILTER_OUT) = direction) as ->
    by by destruct Hd as [-> | ->].
  rewrite (pk_config _ _ O).
  match goal with |- (if ?a then true else if ?b then true else ?c) = true <-> _ =>
    transitivity (a = true \/ b = true \/ c = true) end.
  { destruct (eigrp_topology_default_information_denies _ _ _ _), (eigrp_filter_runtime_state_denies _ (po_filter s) _ _); naive_solver. }
  rewrite default_denies_spec by (done || apply O).
  rewrite (state_denies_spec s af None None (po_filter s)), (state_denies_spec s af (Some name) (Some i) st) by done.
  split.
  - intros [H|[(t & H1 & H2)|(t & H1 & H2)]]; [by left|right..]; eauto 6.
  - intros [H|(t & ifn & H1 & [-> | ->] & H2)]; [by left|right; left|right; right]; eauto.
Qed.
End decision.

(** ** Offsets *)

Section offsets.
Context (evaluate : Z -> string -> eigrp_prefix -> eigrp_result * option eigrp_filter_decision).

(** An offset for the interface name (or for all) that permits the prefix. *)
Definition offset_matches (direction : Z) (ifn : option string) (prefix : eigrp_prefix) (c : eigrp_offset_config) : bool :=
  (oc_direction c =? direction) && bool_decide (oc_interface_name c = ifn)
  && eigrp_offset_acl_permits evaluate (oc_access_list c) prefix.

(** The offset in force: the interface's own, else the general one, else none. *)
Definition offset_in_force (l : list eigrp_offset_config) (direction : Z) (ifn : option string) (prefix : eigrp_prefix)
    : option eigrp_offset_config :=
  match ifn with
  | None => List.find (offset_matches direction None prefix) l
  | Some name =>
      match List.find (offset_matches direction (Some name) prefix) l with
      | Some c => Some c
      | None => List.find (offset_matches direction None prefix) l
      end
  end.

Lemma offset_select_spec l direction ifn prefix global :
  offset_select evaluate l direction ifn prefix global
  = match ifn with
    | None => match global with Some g => Some g | None => List.find (offset_matches direction None prefix) l end
    | Some name =>
        match List.find (offset_matches direction (Some name) prefix) l with
        | Some c => Some c
        | None => match global with Some g => Some g | None => List.find (offset_matches direction None prefix) l end
        end
    end.
Proof.
  revert global. destruct ifn as [name|]; (induction l as [|c l IH]; intros global; simpl; [by destruct global|]).
  - remember (List.find (offset_matches direction (Some name) prefix) l) as f1.
    remember (List.find (offset_matches direction None prefix) l) as f2. unfold offset_matches.
    destruct (oc_direction c =? direction); simpl; [|by rewrite IH].
    destruct (oc_interface_name c) as [n|].
    + rewrite (bool_decide_false (Some n = None)) by done. simpl.
      rewrite (bool_decide_ext (Some name = Some n) (Some n = Some name)) by done.
      destruct (bool_decide _ && _); [done|by rewrite IH].
    + rewrite (bool_decide_false (None = Some name)), (bool_decide_true (None = None)) by done. simpl. rewrite IH.
      destruct global; [done|]. by destruct (eigrp_offset_acl_permits _ _ _).
  - remember (List.find (offset_matches direction None prefix) l) as f2. unfold offset_matches.
    destruct (oc_direction c =? direction); simpl; [|by rewrite IH].
    destruct (oc_interface_name c) as [n|].
    + rewrite (bool_decide_false (Some n = None)) by done. simpl. by rewrite IH.
    + rewrite (bool_decide_true (None = None)) by done. simpl. rewrite IH.
      destruct global; [done|]. by destruct (eigrp_offset_acl_permits _ _ _).
Qed.

Definition offset_value (o : option eigrp_offset_config) : Z := match o with Some c => oc_offset c | None => 0 end.

(** An offset list adds to the delay and nothing else: on a route whose delay is at
    most the infinite metric, the delay grows by the offset in force (the first one of
    the interface that permits the prefix, else the first general one), saturates at
    infinity without wrapping, and an unreachable route stays unreachable. *)
Theorem offset_applied s af i name st direction prefix m :
  po_config s = Some af -> po_intfs s !! i = Some (name, st) -> direction_ok direction ->
  0 <= delay m <= EIGRP_MAX_METRIC -> Forall (fun c => 0 <= oc_offset c <= UINT32_MAX) (pc_offsets af) ->
  let m' := eigrp_offset_metric_update evaluate s (Some i) direction prefix m in
  m' = {| m with delay := delay m' |}
  /\ delay m' = Z.min EIGRP_MAX_METRIC
                  (delay m + offset_value (offset_in_force (pc_offsets af) direction name prefix))
  /\ delay m <= delay m' <= EIGRP_MAX_METRIC.
Proof.
  intros Hc Hi Hd Hm Ho. unfold eigrp_offset_metric_update. simpl. rewrite Hi, Hc.
  assert (0 <= offset_value (offset_in_force (pc_offsets af) direction name prefix) <= UINT32_MAX) as Hv.
  { assert (forall P c, List.find P (pc_offsets af) = Some c -> 0 <= oc_offset c <= UINT32_MAX) as Hf.
    { intros P c [Hin _]%List.find_some. rewrite Forall_forall in Ho. by apply Ho, list_elem_of_In. }
    unfold offset_in_force, offset_value, UINT32_MAX in *. repeat case_match; simplify_eq; eauto; lia. }
  assert ((if direction =? EIGRP_FILTER_OUT then EIGRP_OFFSET_OUT else EIGRP_OFFSET_IN) = direction) as ->
    by by destruct Hd as [-> | ->].
  change ((direction =? EIGRP_FILTER_IN) || (direction =? EIGRP_FILTER_OUT)) with (valid_direction direction).
  rewrite (proj2 (direction_okb direction)) by done. simpl.
  unfold EIGRP_MAX_METRIC, UINT32_MAX in *. destruct (Z.eqb_spec (delay m) 0xffffffff) as [E|E].
  { split; [by destruct m|]. lia. }
  rewrite offset_select_spec.
  change (match name with Some _ => _ | None => _ end) with (offset_in_force (pc_offsets af) direction name prefix).
  destruct (offset_in_force (pc_offsets af) direction name prefix) as [c|]; simpl in *; [|split; [by destruct m|lia]].
  split; [done|]. unfold offset_delay. rewrite u64_small by (unfold UINT32_MAX in *; lia).
  unfold EIGRP_MAX_METRIC. destruct (Z.leb_spec 0xffffffff (delay m + oc_offset c)); lia.
Qed.
End offsets.

(** The multiprotocol TLV carries delays above the classic infinity: an offset list that
    matches such a route makes it unreachable, whatever the offset. *)
Lemma offset_wide_unreachable d o :
  EIGRP_MAX_METRIC < d < 2 ^ 48 -> 0 <= o <= UINT32_MAX -> offset_delay d o = EIGRP_MAX_METRIC.
Proof.
  unfold offset_delay, EIGRP_MAX_METRIC, UINT32_MAX. intros H Ho. rewrite u64_small by lia.
  destruct (Z.leb_spec 0xffffffff (d + o)); lia.
Qed.

(** C36: Every policy command either succeeds, exactly when its arguments are valid and
    (for a removal) its entry exists, with the effect of one map operation on the
    configuration and the runtime references in step with it, or it returns its error
    and changes nothing; memory failures at any point included. *)
Theorem policy_commands_refine c s af :
  policy_ok s af ->
  exists result s', perform_policy c s = Some (result, s') /\ command_done c s af result s'
    /\ (po_grants s = [] -> command_valid c -> command_applies c (policy_of af) -> result = EIGRP_RESULT_SUCCESS).
Proof.
  intros O. pose proof (command_outcome c s af O) as W. unfold wp in W.
  destruct (perform_policy c s) as [[result s']|]; [|done]. exists result, s'. split; [done|]. split; [done|].
  intros G V A. destruct W as [[-> _]|(_ & [[_ H]|[(_ & _ & H)|[_ H]]])]; done.
Qed.

(** ** Instances *)

Definition no_filter : eigrp_filter_runtime_state := {| access_list := [None; None]; prefix_list := [None; None] |}.

(** One interface, eth0; the access list "blue" filters what it receives. *)
Definition demo_config : policy_config :=
  {| pc_offsets := [{| oc_access_list := "slow"; oc_direction := 0; oc_offset := 100; oc_interface_name := Some "eth0"%string |}];
     pc_distribute_lists := [{| dc_type := 0; dc_direction := 0; dc_name := "blue"; dc_interface_name := Some "eth0"%string |}];
     pc_default_information_enabled := [true; false]; pc_default_information_access_list := [None; None] |}.
Definition demo_policy : policy :=
  {| po_filter := no_filter;
     po_intfs := [(Some "eth0"%string, {| no_filter with access_list := [Some "blue"%string; None] |})];
     po_config := Some demo_config; po_calls := []; po_grants := [] |}.

(** The host denies on "blue" and permits on every other list. *)
Definition demo_evaluate (type : Z) (name : string) (prefix : eigrp_prefix) : eigrp_result * option eigrp_filter_decision :=
  (EIGRP_RESULT_SUCCESS,
   Some (if bool_decide (name = "blue"%string) then EIGRP_FILTER_DECISION_DENY else EIGRP_FILTER_DECISION_PERMIT)).

Lemma demo_policy_ok : policy_ok demo_policy demo_config.
Proof.
  assert (forall ifn t st, filter_target demo_policy ifn = Some (t, st) ->
    ifn = None /\ st = no_filter \/ ifn = Some "eth0"%string /\ st = {| no_filter with access_list := [Some "blue"%string; None] |}) as T.
  { intros [n|] t st; simpl; [|by intros [= <- <-]; left]. unfold eigrp_intf_lookup_by_name. simpl.
    case_decide as E; [|done]. intros [= <- <-]. by right. }
  split; try done.
  - apply NoDup_singleton.
  - apply NoDup_singleton.
  - intros ifn t st [[_ ->]|[_ ->]]%T; done.
  - intros ifn t st type direction [[-> ->]|[-> ->]]%T [-> | ->] [-> | ->]; reflexivity.
Qed.

Lemma policy_enforced_witness :
  eigrp_filter_prefix_update demo_evaluate demo_policy (Some 0%nat) EIGRP_FILTER_IN zero_prefix = true
  /\ eigrp_filter_prefix_update demo_evaluate demo_policy (Some 0%nat) EIGRP_FILTER_OUT zero_prefix <> true.
Proof.
  split.
  - apply (policy_enforced demo_evaluate demo_policy demo_config 0 "eth0" _ 0 zero_prefix demo_policy_ok eq_refl eq_refl);
      [by left|]. right. exists 0, (Some "eth0"%string). split; [by left|]. split; [by right|]. by exists "blue"%string.
  - rewrite (policy_enforced demo_evaluate demo_policy demo_config 0 "eth0" _ 1 zero_prefix demo_policy_ok eq_refl eq_refl);
      [|by right]. intros [[H _]|(t & ifn & [-> | ->] & [-> | ->] & n & H & _)]; done.
Defined.

Lemma offset_applied_witness :
  delay (eigrp_offset_metric_update demo_evaluate demo_policy (Some 0%nat) EIGRP_FILTER_IN zero_prefix
    {| zero_metrics with delay := 7 |}) = 107.
Proof.
  destruct (offset_applied demo_evaluate demo_policy demo_config 0 (Some "eth0"%string)
    {| no_filter with access_list := [Some "blue"%string; None] |} 0 zero_prefix {| zero_metrics with delay := 7 |})
    as (_ & -> & _); [reflexivity|reflexivity|by left|by vm_compute|by repeat constructor|reflexivity].
Defined.

Lemma policy_commands_refine_witness :
  exists s', perform_policy (cmd_distribute_remove 0 (Some "blue"%string) 0 (Some "eth0"%string)) demo_policy
             = Some (EIGRP_RESULT_SUCCESS, s')
    /\ slot_name (access_list (default (None, no_filter) (po_intfs s' !! 0%nat)).2) 0 = None.
Proof.
  destruct (policy_commands_refine (cmd_distribute_remove 0 (Some "blue"%string) 0 (Some "eth0"%string))
    demo_policy demo_config demo_policy_ok) as (r & s' & E & _ & H).
  exists s'. rewrite H in E; [|reflexivity| |reflexivity].
  - split; [exact E|]. vm_compute in E. injection E as <-. reflexivity.
  - split; [|by left]. split; [by eexists|]. split; [done|]. split; [by left|done].
Defined.

(** A list configured before its interface exists is accepted and stored, but the interface
    starts without references when it is created, and is not filtered. *)
Lemma late_interface_unfiltered :
  exists s' af', perform_policy (cmd_distribute_add 0 (Some "blue"%string) 0 (Some "eth1"%string)) demo_policy
                 = Some (EIGRP_RESULT_SUCCESS, s')
    /\ po_config s' = Some af' /\ list_denies demo_evaluate (policy_of af') zero_prefix 0 EIGRP_FILTER_IN (Some "eth1"%string)
    /\ let s2 := {| s' with po_intfs := po_intfs s' ++ [(Some "eth1"%string, no_filter)] |} in
       eigrp_filter_prefix_update demo_evaluate s2 (Some 1%nat) EIGRP_FILTER_IN zero_prefix = false.
Proof.
  eexists _, _. split; [vm_compute; reflexivity|]. split; [reflexivity|]. split; [|vm_compute; reflexivity].
  exists "blue"%string. vm_compute. done.
Qed.
