(* ===== verification/Summary.v ===== *)
(** * Summaries (eigrp_summary.c)

    Manual and automatic aggregates: which aggregate covers a destination on an
    interface, the aggregate's route built from its components in the topology table,
    the local answer to a QUERY for an aggregate or for a suppressed specific, and the
    configuration commands with the advertisements they trigger.

    The leak-map evaluation is the host's and an argument; the classful prefix of the
    address family ([af_vectors.summary_auto_prefix], AfVectors) is one as well. *)

From Stdlib Require Import ZArith Lia.
From stdpp Require Import base gmap list strings.
From S2P Require Import Prelude Types Metric Prefix State Topology Filter.

(** ** Configuration *)

Record eigrp_summary_config := {
  sc_prefix : eigrp_prefix;
  sc_administrative_distance : Z;
  sc_leak_map : option string;
}.

Record eigrp_summary_metric_config := {
  sm_metric_configured : bool;
  sm_metric : eigrp_metric_values;
  sm_distance_configured : bool;
  sm_distance : Z;
}.

Record eigrp_summary_state := {
  auto_summary : bool;
  summary_metrics : list (eigrp_prefix * eigrp_summary_metric_config);
}.

(** The parts of [eigrp_af_config_t]: the interface configurations with their
    summaries, and the summary state. *)
Record summary_af := {
  sa_afi : Z;
  sa_interfaces : list (string * list eigrp_summary_config);
  sa_state : option eigrp_summary_state;
}.

(** What the code reads of an interface: address in the store, name, address prefix. *)
Record summary_intf := { si_ptr : ptr; si_name : option string; si_address : eigrp_prefix }.

(** The file's own copies of the prefix functions. *)
Definition eigrp_summary_prefix_valid (prefix : eigrp_prefix) : bool :=
  if afi (address prefix) =? EIGRP_AFI_IPV4 then prefix_length prefix <=? 32
  else if afi (address prefix) =? EIGRP_AFI_IPV6 then prefix_length prefix <=? 128
  else false.

Definition eigrp_summary_prefix_normalize (prefix : eigrp_prefix) : eigrp_prefix :=
  if negb (eigrp_summary_prefix_valid prefix) then prefix
  else
    let address_bytes := if afi (address prefix) =? EIGRP_AFI_IPV4 then 4%nat else 16%nat in
    let full_bytes := Z.to_nat (prefix_length prefix / 8) in
    let remaining_bits := prefix_length prefix mod 8 in
    let b := bytes (address prefix) in
    let '(b, full_bytes) :=
      if negb (remaining_bits =? 0) && (full_bytes <? address_bytes)%nat
      then (alter (fun x => x .& prefix_mask remaining_bits) full_bytes b, S full_bytes)
      else (b, full_bytes) in
    let b := if (full_bytes <? address_bytes)%nat
             then zero_from full_bytes (address_bytes - full_bytes) b else b in
    let b := if (address_bytes <? 16)%nat
             then zero_from address_bytes (16 - address_bytes) b else b in
    {| prefix with address := {| afi := afi (address prefix); bytes := b |} |}.

Definition eigrp_summary_prefix_match (a b : eigrp_prefix) : bool :=
  (afi (address a) =? afi (address b)) && (prefix_length a =? prefix_length b)
  && bytes_eqb 16 (bytes (address a)) (bytes (address b)).

Definition eigrp_intf_config_read (af : summary_af) (name : option string) : option (list eigrp_summary_config) :=
  match name with
  | None => None
  | Some name =>
      if bool_decide (name = EmptyString) then None
      else snd <$> List.find (fun x => bool_decide (fst x = name)) (sa_interfaces af)
  end.

(** The interface's own configuration, else that of "default". *)
Definition eigrp_summary_intf_config (af : option summary_af) (ei : summary_intf) : option (list eigrp_summary_config) :=
  match af with
  | None => None
  | Some af =>
      match eigrp_intf_config_read af (si_name ei) with
      | Some config => Some config
      | None => eigrp_intf_config_read af (Some "default"%string)
      end
  end.

(** The longest summary that is shorter than the destination and covers it. *)
Definition summary_covers_prefix (summary destination : eigrp_prefix) : bool :=
  (afi (address summary) =? afi (address destination))
  && (prefix_length summary <? prefix_length destination)
  && eigrp_prefix_address_match summary (address destination).

Fixpoint summary_best (l : list eigrp_summary_config) (destination : eigrp_prefix)
    (best : option eigrp_summary_config) : option eigrp_summary_config :=
  match l with
  | [] => best
  | summary :: l' =>
      summary_best l' destination
        (if summary_covers_prefix (sc_prefix summary) destination
         then match best with
              | None => Some summary
              | Some b => if prefix_length (sc_prefix b) <? prefix_length (sc_prefix summary)
                          then Some summary else best
              end
         else best)
  end.

Definition eigrp_summary_match (af : option summary_af) (ei : summary_intf) (destination : eigrp_prefix)
    : option eigrp_summary_config :=
  config ← eigrp_summary_intf_config af ei;
  summary_best config destination None.

Definition eigrp_summary_metric_lookup (af : option summary_af) (prefix : eigrp_prefix)
    : option eigrp_summary_metric_config :=
  a ← af;
  state ← sa_state a;
  snd <$> List.find (fun entry => eigrp_summary_prefix_match (fst entry) prefix) (summary_metrics state).

Definition eigrp_summary_auto_enabled (af : option summary_af) : bool :=
  match a ← af; sa_state a with Some state => auto_summary state | None => false end.

Section summaries.
Context (summary_auto_prefix : eigrp_prefix -> eigrp_prefix + eigrp_result).
Context (leak_map_evaluate : string -> eigrp_prefix -> eigrp_result * option eigrp_filter_decision).
Context (classic_internal_tlv_type : Z).

Definition eigrp_summary_auto_match (af : option summary_af) (ei : summary_intf) (component : eigrp_prefix)
    : option eigrp_prefix :=
  if negb (eigrp_summary_auto_enabled af) then None
  else
    match summary_auto_prefix component, summary_auto_prefix (si_address ei) with
    | inl summary, inl interface_major =>
        if eigrp_summary_prefix_match summary interface_major then None else Some summary
    | _, _ => None
    end.

Definition eigrp_summary_covers (af : option summary_af) (ei : summary_intf) (destination : eigrp_prefix) : bool :=
  match eigrp_summary_match af ei destination with
  | Some _ => true
  | None => bool_decide (is_Some (eigrp_summary_auto_match af ei destination))
  end.

(** A missing policy or a failed evaluation leaks nothing. *)
Definition eigrp_summary_specific_leak (af : option summary_af) (ei : summary_intf) (destination : eigrp_prefix) : bool :=
  match eigrp_summary_match af ei destination with
  | Some summary =>
      match sc_leak_map summary with
      | None => false
      | Some leak_map =>
          let '(result, decision) := leak_map_evaluate leak_map destination in
          bool_decide (result = EIGRP_RESULT_SUCCESS)
          && bool_decide (default EIGRP_FILTER_DECISION_DENY decision = EIGRP_FILTER_DECISION_PERMIT)
      end
  | None => false
  end.

(** ** The aggregate's route *)

(** The aggregate [eigrp_summary_route_build] starts from. *)
Definition summary_destination (af : option summary_af) (ei : summary_intf) (component : eigrp_prefix)
    : option eigrp_prefix :=
  match eigrp_summary_match af ei component with
  | Some summary => Some (sc_prefix summary)
  | None => eigrp_summary_auto_match af ei component
  end.

(** A destination that can support the aggregate. *)
Definition component_prefix (summary : eigrp_prefix) (candidate : eigrp_prefix_descriptor) : bool :=
  negb ((distance candidate =? EIGRP_MAX_METRIC) && negb (nt candidate =? EIGRP_TOPOLOGY_TYPE_CONNECTED))
  && (afi (address (destination candidate)) =? afi (address summary))
  && (prefix_length summary <? prefix_length (destination candidate))
  && eigrp_prefix_address_match summary (address (destination candidate)).

(** The route of a component is usable on interface [ei]. *)
Definition component_route (self : option ptr) (ei : ptr) (candidate : eigrp_prefix_descriptor)
    (route : eigrp_route_descriptor) : bool :=
  negb (rd_distance route =? EIGRP_MAX_METRIC)
  && negb ((distance candidate =? EIGRP_MAX_METRIC)
           && (negb (bool_decide (pd_state candidate = EIGRP_FSM_STATE_PASSIVE))
               || (fdistance candidate =? EIGRP_MAX_METRIC)
               || negb (opt_ptr_eqb (rd_adv_router route) self)))
  && negb (delay (rd_metric route) =? EIGRP_MAX_METRIC)
  && negb (delay (rd_total_metric route) =? EIGRP_MAX_METRIC)
  && negb (opt_ptr_eqb (rd_ei route) (Some ei) && negb (opt_ptr_eqb (rd_adv_router route) self)).

(** The loop over the table: the first usable component of least distance. *)
Fixpoint summary_component (nodes : list ptr) (summary : eigrp_prefix) (ei : ptr)
    (best : option eigrp_route_descriptor) : St (option eigrp_route_descriptor) :=
  match nodes with
  | [] => mret best
  | t :: nodes' =>
      n ← get_tnode t;
      match tn_info n with
      | None => summary_component nodes' summary ei best
      | Some p =>
          candidate ← get_prefix p;
          if negb (component_prefix summary candidate) then summary_component nodes' summary ei best
          else
            read ← eigrp_topology_route_read p;
            match read with
            | None => summary_component nodes' summary ei best
            | Some r =>
                route ← get_route r;
                self ← gets neighbor_self;
                if negb (component_route self ei candidate route) then summary_component nodes' summary ei best
                else
                  summary_component nodes' summary ei
                    (match best with
                     | None => Some route
                     | Some b => if rd_distance route <? rd_distance b then Some route else best
                     end)
            end
      end
  end.

(** [memset] and the fields of a local aggregate with metric [m]. *)
Definition summary_objects (p : ptr) (dest : eigrp_prefix) (topology_id : Z) (self : option ptr) (m : eigrp_metrics) (d : Z)
    : eigrp_prefix_descriptor * eigrp_route_descriptor :=
  (let zero := new_prefix in
   {| zero with destination := dest; reported_metric := m; distance := d; fdistance := d; rdistance := d;
      pd_state := EIGRP_FSM_STATE_PASSIVE |},
   let zero := new_route None in
   {| zero with rd_prefix := Some p; rd_dest := dest; rd_topology_id := topology_id; rd_adv_router := self;
      rd_type := classic_internal_tlv_type; rd_metric := m; rd_reported_metric := m; rd_reported_distance := 0;
      rd_total_metric := m; rd_distance := d |}).

(** [sp], [component], [route]: the object the caller made for the aggregate, the
    destination and route it asks for.  [distance] and its copies are [uint32_t]. *)
Definition eigrp_summary_route_build (af : option summary_af) (ei : summary_intf) (sp : ptr)
    (component : eigrp_prefix_descriptor) (route : eigrp_route_descriptor)
    : St (option (eigrp_prefix_descriptor * eigrp_route_descriptor)) :=
  match summary_destination af ei (destination component) with
  | None => mret None
  | Some dest =>
      nodes ← gets topology_table;
      best ← summary_component nodes dest (si_ptr ei) None;
      self ← gets neighbor_self;
      p ← gets params;
      m ← (match best with
           | None => mret {| zero_metrics with delay := EIGRP_MAX_METRIC |}
           | Some b =>
               match eigrp_summary_metric_lookup af dest with
               | Some config =>
                   if sm_metric_configured config
                   then nonnull (eigrp_metric_values_convert (sm_metric config))
                   else mret (rd_total_metric b)
               | None => mret (rd_total_metric b)
               end
           end);
      mret (Some (summary_objects sp dest
                    (match best with Some b => rd_topology_id b | None => rd_topology_id route end)
                    self m (u32 (eigrp_metric_calculate p m))))
  end.

(** ** Answers to QUERYs *)

(** The first component for which an aggregate can be built. *)
Fixpoint summary_query_walk (nodes : list ptr) (af : option summary_af) (ei : summary_intf) (sp : ptr) (dest : eigrp_prefix)
    : St (option (eigrp_prefix_descriptor * eigrp_route_descriptor)) :=
  match nodes with
  | [] => mret None
  | t :: nodes' =>
      n ← get_tnode t;
      match tn_info n with
      | None => summary_query_walk nodes' af ei sp dest
      | Some p =>
          component ← get_prefix p;
          if ((distance component =? EIGRP_MAX_METRIC) && negb (nt component =? EIGRP_TOPOLOGY_TYPE_CONNECTED))
             || (prefix_length (destination component) <=? prefix_length dest)
             || negb (eigrp_prefix_address_match dest (address (destination component)))
          then summary_query_walk nodes' af ei sp dest
          else
            read ← eigrp_topology_route_read p;
            match read with
            | None => summary_query_walk nodes' af ei sp dest
            | Some r =>
                route ← get_route r;
                built ← eigrp_summary_route_build af ei sp component route;
                match built with
                | Some objects => mret (Some objects)
                | None => summary_query_walk nodes' af ei sp dest
                end
            end
      end
  end.

Definition summary_unreachable (sp : ptr) (dest : eigrp_prefix) (self : option ptr)
    : eigrp_prefix_descriptor * eigrp_route_descriptor :=
  summary_objects sp dest 0 self {| zero_metrics with delay := EIGRP_MAX_METRIC |} EIGRP_MAX_METRIC.

Definition eigrp_summary_query_route_build (af : option summary_af) (ei : summary_intf) (sp : ptr) (dest : eigrp_prefix)
    : St (option (eigrp_prefix_descriptor * eigrp_route_descriptor)) :=
  self ← gets neighbor_self;
  let configured := match eigrp_summary_intf_config af ei with
                    | Some config => existsb (fun c => eigrp_summary_prefix_match (sc_prefix c) dest) config
                    | None => false
                    end in
  if configured then
    nodes ← gets topology_table;
    built ← summary_query_walk nodes af ei sp dest;
    mret (match built with
          | Some objects => Some objects
          | None => Some (summary_unreachable sp dest self)
          end)
  else if negb (eigrp_summary_covers af ei dest) || eigrp_summary_specific_leak af ei dest then mret None
  else mret (Some (summary_unreachable sp dest self)).
End summaries.

(** ** Advertising a change *)

(** The loop's body of [eigrp_summary_runtime_update]. *)
Definition summary_mark (t : ptr) : St unit :=
  n ← get_tnode t;
  match tn_info n with
  | None => mret tt
  | Some p =>
      prefix ← get_prefix p;
      if negb (bool_decide (pd_state prefix = EIGRP_FSM_STATE_PASSIVE)) then mret tt
      else
        put_prefix p {| prefix with req_action := Z.lor (req_action prefix) EIGRP_FSM_NEED_UPDATE |};;
        changes ← gets topology_changes;
        when (negb (in_queue p changes)) (topology_changes_add p)
  end.

Definition eigrp_summary_runtime_update : St unit :=
  nodes ← gets topology_table;
  mfor nodes summary_mark;;
  eigrp_update_send_all None.

Definition eigrp_summary_withdraw (classic_internal_tlv_type : Z) (prefix : eigrp_prefix) : St unit :=
  withdraw_prefix ← eigrp_topology_prefix_create;
  withdraw_route ← eigrp_topology_route_create None;
  work ← eigrp_packetizer_work_create EIGRP_OPC_UPDATE;
  upd_prefix withdraw_prefix (fun d =>
    let m := reported_metric d in
    {| d with destination := prefix; pd_state := EIGRP_FSM_STATE_PASSIVE;
       reported_metric := {| m with delay := EIGRP_MAX_METRIC |} |});;
  upd_route withdraw_route (fun r =>
    let m := rd_metric r in
    let rm := rd_reported_metric r in
    {| r with rd_prefix := Some withdraw_prefix; rd_dest := prefix; rd_type := classic_internal_tlv_type;
       rd_metric := {| m with delay := EIGRP_MAX_METRIC |};
       rd_reported_metric := {| rm with delay := EIGRP_MAX_METRIC |} |});;
  eigrp_packetizer_enqueue
    {| work with work_prefix := Some withdraw_prefix; work_route := Some withdraw_route;
       work_flags := Z.lor EIGRP_PACKETIZER_WORK_F_OWN_PREFIX EIGRP_PACKETIZER_WORK_F_OWN_ROUTE |}.

(** ** Commands

    The configuration and the store of the address family; [sx_mem] answers the
    allocations of the configuration. *)

Record summary_ctx := { sx_af : summary_af; sx_store : eigrp_instance; sx_mem : list bool }.
Abbreviation Su := (M summary_ctx).

Definition su_malloc : Su bool := fun s =>
  match sx_mem s with
  | [] => Some (true, s)
  | b :: m => Some (b, {| s with sx_mem := m |})
  end.
Definition su_store {A} (m : St A) : Su A := fun s =>
  match m (sx_store s) with
  | Some (a, st) => Some (a, {| s with sx_store := st |})
  | None => None
  end.
Definition upd_af (f : summary_af -> summary_af) : Su unit := modify (fun s => {| s with sx_af := f (sx_af s) |}).

(** The summaries of interface configuration [name]. *)
Definition upd_summaries (name : string) (f : list eigrp_summary_config -> list eigrp_summary_config) (af : summary_af)
    : summary_af :=
  {| af with sa_interfaces :=
       alter_first (fun x => bool_decide (fst x = name)) (fun x => (fst x, f (snd x))) (sa_interfaces af) |}.

(** [config]: the name of [context->config]; [runtime]: [context->runtime] is not NULL. *)
Record summary_context := { scx_config : option string; scx_runtime : bool }.

(** [options]: administrative distance and leak map. *)
Definition eigrp_summary_create (cx : summary_context) (prefix : eigrp_prefix) (options : option (Z * option string))
    : Su eigrp_result :=
  if bool_decide (scx_config cx = None) && negb (scx_runtime cx) then mret EIGRP_RESULT_NOT_FOUND
  else if negb (eigrp_summary_prefix_valid prefix) then mret EIGRP_RESULT_INVALID_ARGUMENT
  else if bool_decide ((o ← options; snd o) = Some EmptyString) then mret EIGRP_RESULT_INVALID_ARGUMENT
  else
    match scx_config cx with
    | None => mret EIGRP_RESULT_NOT_FOUND
    | Some name =>
        let leak_map := o ← options; snd o in
        copied ← (match leak_map with Some _ => su_malloc | None => mret true end);
        if negb copied then mret EIGRP_RESULT_INTERNAL_FAILURE
        else
          s ← get;
          let normalized := eigrp_summary_prefix_normalize prefix in
          let entry := {| sc_prefix := normalized;
                          sc_administrative_distance := match options with Some (d, _) => d | None => 0 end;
                          sc_leak_map := leak_map |} in
          let known c := eigrp_summary_prefix_match (sc_prefix c) normalized in
          config ← nonnull (eigrp_intf_config_read (sx_af s) (Some name));
          if existsb known config then
            upd_af (upd_summaries name (alter_first known (fun c => {| entry with sc_prefix := sc_prefix c |})));;
            when (scx_runtime cx) (su_store eigrp_summary_runtime_update);;
            mret EIGRP_RESULT_SUCCESS
          else
            ok ← su_malloc;
            if negb ok then mret EIGRP_RESULT_INTERNAL_FAILURE
            else
              upd_af (upd_summaries name (fun l => entry :: l));;
              when (scx_runtime cx) (su_store eigrp_summary_runtime_update);;
              mret EIGRP_RESULT_SUCCESS
    end.

Definition eigrp_summary_delete (classic_internal_tlv_type : Z) (cx : summary_context) (prefix : eigrp_prefix)
    : Su eigrp_result :=
  if negb (eigrp_summary_prefix_valid prefix) then mret EIGRP_RESULT_INVALID_ARGUMENT
  else
    match scx_config cx with
    | None => mret EIGRP_RESULT_NOT_FOUND
    | Some name =>
        s ← get;
        let normalized := eigrp_summary_prefix_normalize prefix in
        let known c := eigrp_summary_prefix_match (sc_prefix c) normalized in
        config ← nonnull (eigrp_intf_config_read (sx_af s) (Some name));
        match List.find known config with
        | None => mret EIGRP_RESULT_NOT_FOUND
        | Some summary =>
            upd_af (upd_summaries name (remove_first known));;
            when (scx_runtime cx)
              (su_store (eigrp_summary_withdraw classic_internal_tlv_type (sc_prefix summary));;
               su_store eigrp_summary_runtime_update);;
            mret EIGRP_RESULT_SUCCESS
        end
    end.

(** [None] when the allocation fails. *)
Definition eigrp_summary_state_create : Su (option eigrp_summary_state) :=
  s ← get;
  match sa_state (sx_af s) with
  | Some state => mret (Some state)
  | None =>
      ok ← su_malloc;
      if negb ok then mret None
      else
        let state := {| auto_summary := false; summary_metrics := [] |} in
        upd_af (fun af => {| af with sa_state := Some state |});;
        mret (Some state)
  end.

(** [runtime_afi]: the address family of the runtime when there is no configuration. *)
Definition eigrp_summary_auto_update (operation : eigrp_operation) (has_config runtime : bool) (runtime_afi : Z)
    : Su eigrp_result :=
  let enabled := bool_decide (operation = EIGRP_SET) in
  if negb has_config && negb runtime then mret EIGRP_RESULT_NOT_FOUND
  else
    s ← get;
    if negb ((if has_config then sa_afi (sx_af s) else runtime_afi) =? EIGRP_AFI_IPV4)
    then mret EIGRP_RESULT_UNSUPPORTED
    else
      stored ← (if has_config then
                  state ← eigrp_summary_state_create;
                  match state with
                  | None => mret false
                  | Some state =>
                      upd_af (fun af => {| af with sa_state := Some {| state with auto_summary := enabled |} |});;
                      mret true
                  end
                else mret true);
      if negb stored then mret EIGRP_RESULT_INTERNAL_FAILURE
      else when runtime (su_store eigrp_summary_runtime_update);; mret EIGRP_RESULT_SUCCESS.

Definition summary_metric_valid (config : eigrp_summary_metric_config) : bool :=
  (sm_metric_configured config || sm_distance_configured config)
  && negb (sm_metric_configured config
           && ((val_bandwidth (sm_metric config) =? 0) || (val_load (sm_metric config) =? 0)
               || (val_mtu (sm_metric config) =? 0)))
  && negb (sm_distance_configured config && (sm_distance config =? 0)).

Definition summary_metric_reset (has_config runtime : bool) (prefix : eigrp_prefix) : Su eigrp_result :=
  if negb (eigrp_summary_prefix_valid prefix) then mret EIGRP_RESULT_INVALID_ARGUMENT
  else if negb has_config && negb runtime then mret EIGRP_RESULT_NOT_FOUND
  else
    s ← get;
    if has_config && negb (afi (address prefix) =? sa_afi (sx_af s)) then mret EIGRP_RESULT_INVALID_ARGUMENT
    else
      match (if has_config then sa_state (sx_af s) else None) with
      | None => mret EIGRP_RESULT_NOT_FOUND
      | Some state =>
          let known (entry : eigrp_prefix * eigrp_summary_metric_config) :=
            eigrp_summary_prefix_match (fst entry) (eigrp_summary_prefix_normalize prefix) in
          if existsb known (summary_metrics state) then
            upd_af (fun af => {| af with sa_state :=
              Some {| state with summary_metrics := remove_first known (summary_metrics state) |} |});;
            when runtime (su_store eigrp_summary_runtime_update);;
            mret EIGRP_RESULT_SUCCESS
          else mret EIGRP_RESULT_NOT_FOUND
      end.

Definition summary_metric_set (has_config runtime : bool) (prefix : eigrp_prefix)
    (config : option eigrp_summary_metric_config) : Su eigrp_result :=
  match config with
  | None => mret EIGRP_RESULT_INVALID_ARGUMENT
  | Some config =>
      if negb (eigrp_summary_prefix_valid prefix) || negb (summary_metric_valid config)
      then mret EIGRP_RESULT_INVALID_ARGUMENT
      else if negb has_config && negb runtime then mret EIGRP_RESULT_NOT_FOUND
      else
        s ← get;
        if has_config && negb (afi (address prefix) =? sa_afi (sx_af s)) then mret EIGRP_RESULT_INVALID_ARGUMENT
        else
          stored ← (if has_config then
            state ← eigrp_summary_state_create;
            match state with
            | None => mret false
            | Some state =>
                let normalized := eigrp_summary_prefix_normalize prefix in
                let known (entry : eigrp_prefix * eigrp_summary_metric_config) :=
                  eigrp_summary_prefix_match (fst entry) normalized in
                if existsb known (summary_metrics state) then
                  upd_af (fun af => {| af with sa_state :=
                    Some {| state with summary_metrics :=
                      alter_first known (fun e => (fst e, config)) (summary_metrics state) |} |});;
                  mret true
                else
                  ok ← su_malloc;
                  if negb ok then mret false
                  else
                    upd_af (fun af => {| af with sa_state :=
                      Some {| state with summary_metrics := (normalized, config) :: summary_metrics state |} |});;
                    mret true
            end
          else mret true);
          if negb stored then mret EIGRP_RESULT_INTERNAL_FAILURE
          else when runtime (su_store eigrp_summary_runtime_update);; mret EIGRP_RESULT_SUCCESS
  end.

Definition eigrp_summary_metric_update (operation : eigrp_operation) (has_config runtime : bool) (prefix : eigrp_prefix)
    (config : option eigrp_summary_metric_config) : Su eigrp_result :=
  match operation with
  | EIGRP_RESET => summary_metric_reset has_config runtime prefix
  | EIGRP_SET => summary_metric_set has_config runtime prefix config
  end.

Definition eigrp_summary_delete_all (name : string) (af : summary_af) : summary_af := upd_summaries name (fun _ => []) af.
Definition eigrp_summary_state_delete_all (af : summary_af) : summary_af := {| af with sa_state := None |}.
