(* ===== verification/SummaryProps.v ===== *)
(** * Theorems on summaries

    The covering summary is the longest configured one; the aggregate's route is that
    of the nearest usable component; QUERYs for an aggregate or a suppressed specific
    are answered here. *)

From Stdlib Require Import ZArith Lia.
From stdpp Require Import base gmap list strings.
From S2P Require Import Prelude Types Metric Prefix PrefixProps State Topology Fsm Store Marking Frame Handlers Invariant Distance Dual Network DualProps Table Filter Summary.

Section best.
Implicit Types (l : list eigrp_summary_config) (c : eigrp_summary_config) (dest : eigrp_prefix).

(** [c] is the longest summary of [l] that covers [dest]. *)
Record longest_cover (l : list eigrp_summary_config) (dest : eigrp_prefix) (c : eigrp_summary_config) : Prop := {
  lc_in : c ∈ l;
  lc_covers : summary_covers_prefix (sc_prefix c) dest = true;
  lc_longest : forall c', c' ∈ l -> summary_covers_prefix (sc_prefix c') dest = true ->
    prefix_length (sc_prefix c') <= prefix_length (sc_prefix c);
}.

Lemma summary_best_none l dest best :
  summary_best l dest best = None <->
  best = None /\ forall c, c ∈ l -> summary_covers_prefix (sc_prefix c) dest = false.
Proof.
  revert best. induction l as [|c l IH]; intros best; simpl.
  { split; [|by intros [? _]]. intros ->. split; [done|]. by intros c Hc%not_elem_of_nil. }
  rewrite IH. split.
  - destruct (summary_covers_prefix (sc_prefix c) dest) eqn:E.
    + destruct best as [b|]; [destruct (_ <? _)|]; by intros [? _].
    + intros [-> H]. split; [done|]. intros c' [->|Hc']%elem_of_cons; [done|by apply H].
  - intros [-> H]. rewrite (H c) by left. split; [done|]. intros c' Hc'. apply H. by right.
Qed.

Lemma summary_best_some l dest best c :
  summary_best l dest best = Some c ->
  (best = Some c \/ c ∈ l /\ summary_covers_prefix (sc_prefix c) dest = true)
  /\ (forall b, best = Some b -> prefix_length (sc_prefix b) <= prefix_length (sc_prefix c))
  /\ (forall c', c' ∈ l -> summary_covers_prefix (sc_prefix c') dest = true ->
        prefix_length (sc_prefix c') <= prefix_length (sc_prefix c)).
Proof.
  revert best. induction l as [|x l IH]; intros best; simpl.
  { intros ->. split; [by left|]. split; [by intros b [= ->]|]. by intros c' Hc'%not_elem_of_nil. }
  intros H. apply IH in H as (H1 & H2 & H3).
  destruct (summary_covers_prefix (sc_prefix x) dest) eqn:E.
  - assert (Hx : prefix_length (sc_prefix x) <= prefix_length (sc_prefix c)
                 /\ forall b, best = Some b -> prefix_length (sc_prefix b) <= prefix_length (sc_prefix c)).
    { destruct best as [b|]; [destruct (Z.ltb_spec (prefix_length (sc_prefix b)) (prefix_length (sc_prefix x)))|];
        (split; [specialize (H2 _ eq_refl); lia|]); intros b' [= <-]; specialize (H2 _ eq_refl); lia. }
    destruct Hx as [Hx Hb]. split; [|split; [done|]].
    + destruct H1 as [H1|[H1 Hc]]; [|right; split; [by right|done]].
      destruct best as [b|]; [destruct (_ <? _)|]; try (by left); injection H1 as ->; right; by split; [left|].
    + intros c' [->|Hc']%elem_of_cons; [done|by apply H3].
  - split; [|split; [done|]].
    + destruct H1 as [H1|[H1 Hc]]; [by left|right; split; [by right|done]].
    + intros c' [->|Hc']%elem_of_cons Hcov; [congruence|by apply H3].
Qed.

Lemma summary_match_longest af ei dest config :
  eigrp_summary_intf_config af ei = Some config ->
  match eigrp_summary_match af ei dest with
  | Some c => longest_cover config dest c
  | None => forall c, c ∈ config -> summary_covers_prefix (sc_prefix c) dest = false
  end.
Proof.
  intros H. unfold eigrp_summary_match. rewrite H. simpl.
  destruct (summary_best config dest None) as [c|] eqn:E.
  - apply summary_best_some in E as ([E|[H1 H2]] & _ & H3); [done|]. by split.
  - by apply summary_best_none in E as [_ ?].
Qed.
End best.

(** ** Components *)

Section components.
Implicit Types s : eigrp_instance.
Context (summary_auto_prefix : eigrp_prefix -> eigrp_prefix + eigrp_result).
Context (leak_map_evaluate : string -> eigrp_prefix -> eigrp_result * option eigrp_filter_decision).
Context (classic_internal_tlv_type : Z).

(** The route a node contributes to the aggregate on interface [ei]. *)
Definition component_of s (summary : eigrp_prefix) (ei t : ptr) : option eigrp_route_descriptor :=
  n ← table_nodes s !! t;
  p ← tn_info n;
  d ← prefixes s !! p;
  r ← read_of s d;
  e ← routes s !! r;
  if component_prefix summary d && component_route (neighbor_self s) ei d e then Some e else None.

Definition components s (summary : eigrp_prefix) (ei : ptr) : list eigrp_route_descriptor :=
  omap (component_of s summary ei) (topology_table s).

Definition nearer (best : option eigrp_route_descriptor) (e : eigrp_route_descriptor) : option eigrp_route_descriptor :=
  match best with
  | None => Some e
  | Some b => if rd_distance e <? rd_distance b then Some e else best
  end.

Lemma nearest_spec l best :
  match foldl nearer best l with
  | None => best = None /\ l = []
  | Some b => (best = Some b \/ b ∈ l) /\ (forall x, best = Some x -> rd_distance b <= rd_distance x)
              /\ forall e, e ∈ l -> rd_distance b <= rd_distance e
  end.
Proof.
  revert best. induction l as [|e l IH]; intros best; simpl.
  { destruct best as [b|]; [|done]. split; [by left|]. split; [by intros x [= ->]|]. by intros e He%not_elem_of_nil. }
  specialize (IH (nearer best e)).
  destruct (foldl nearer (nearer best e) l) as [b|].
  - destruct IH as (H1 & H2 & H3).
    assert (Hx : rd_distance b <= rd_distance e /\ forall x, best = Some x -> rd_distance b <= rd_distance x).
    { unfold nearer in H2. destruct best as [x|]; [destruct (Z.ltb_spec (rd_distance e) (rd_distance x))|];
        (split; [specialize (H2 _ eq_refl); lia|]); intros x' [= <-]; specialize (H2 _ eq_refl); lia. }
    destruct Hx as [He Hb]. split; [|split; [done|]].
    + destruct H1 as [H1|H1]; [|right; by right]. unfold nearer in H1.
      destruct best as [x|]; [destruct (_ <? _)|]; injection H1 as ->; [right; by left|by left|right; by left].
    + intros x [->|Hx]%elem_of_cons; [done|by apply H3].
  - destruct IH as [H _]. unfold nearer in H. destruct best as [x|]; [destruct (_ <? _)|]; done.
Qed.

Lemma wp_summary_component nodes summary ei best s (Q : option eigrp_route_descriptor -> eigrp_instance -> Prop) :
  instance_wf s -> table_wf s -> (forall t, t ∈ nodes -> is_Some (table_nodes s !! t)) ->
  Q (foldl nearer best (omap (component_of s summary ei) nodes)) s ->
  wp (summary_component nodes summary ei best) Q s.
Proof.
  intros W T. revert best. induction nodes as [|t nodes IH]; intros best Hl HQ; [by wp_simpl|].
  assert (Hrest : forall x, x ∈ nodes -> is_Some (table_nodes s !! x)) by (intros x Hx; apply Hl; by right).
  destruct (Hl t) as [n Hn]; [by left|]. cbn [summary_component].
  rewrite wp_bind, (wp_get_tnode t n) by done. cbn [omap list_omap] in HQ. unfold component_of in HQ at 1. rewrite Hn in HQ. simpl in HQ.
  destruct (tn_info n) as [p|] eqn:Ei; simpl in HQ; [|by apply IH].
  destruct (tw_info _ T t n p Hn Ei) as [d Hd]. rewrite Hd in HQ. simpl in HQ.
  pose proof (ok_live _ _ (dest_wf_ok _ _ _ (iw_dests _ W _ _ Hd))) as Hlive.
  rewrite wp_bind, wp_get_prefix by exact Hd.
  destruct (component_prefix summary d); cbn [negb]; simpl in HQ.
  2: { apply IH; [done|]. destruct (read_of s d) as [r|]; simpl in HQ; [|done]. by destruct (routes s !! r). }
  rewrite wp_bind. apply (wp_route_read p d); [done|done|].
  destruct (read_of s d) as [r|] eqn:Er; simpl in HQ; [|by apply IH].
  destruct (read_of_live s d r Hlive Er) as [e He]. rewrite He in HQ. simpl in HQ.
  rewrite wp_bind, wp_get_route by exact He. rewrite wp_bind, wp_gets.
  destruct (component_route _ _ _ _); cbn [negb]; by apply IH.
Qed.

(** A configured aggregate metric has a convertible bandwidth (the command refuses 0). *)
Definition metrics_convertible (af : option summary_af) : Prop :=
  forall dest config, eigrp_summary_metric_lookup af dest = Some config -> sm_metric_configured config = true ->
    is_Some (eigrp_metric_values_convert (sm_metric config)).

(** The vector of an aggregate whose nearest component is [b]. *)
Definition aggregate_metric (af : option summary_af) (dest : eigrp_prefix) (b : eigrp_route_descriptor)
    (m : eigrp_metrics) : Prop :=
  match eigrp_summary_metric_lookup af dest with
  | Some config => if sm_metric_configured config
                   then eigrp_metric_values_convert (sm_metric config) = Some m
                   else m = rd_total_metric b
  | None => m = rd_total_metric b
  end.

(** What is built for the aggregate [dest]. *)
Record aggregate s (af : option summary_af) (ei : summary_intf) (dest : eigrp_prefix)
    (pd : eigrp_prefix_descriptor) (rd : eigrp_route_descriptor) : Prop := {
  ag_prefix : destination pd = dest;
  ag_route : rd_dest rd = dest;
  ag_owner : rd_adv_router rd = neighbor_self s;
  ag_passive : pd_state pd = EIGRP_FSM_STATE_PASSIVE;
  ag_metric : reported_metric pd = rd_total_metric rd;
  ag_distance : distance pd = u32 (eigrp_metric_calculate (params s) (rd_total_metric rd));
  ag_source : match components s dest (si_ptr ei) with
              | [] => delay (rd_total_metric rd) = EIGRP_MAX_METRIC /\ distance pd = EIGRP_MAX_METRIC
              | l => exists b, b ∈ l /\ (forall e, e ∈ l -> rd_distance b <= rd_distance e)
                               /\ aggregate_metric af dest b (rd_total_metric rd)
              end;
}.

Lemma wp_summary_route_build af ei sp component route s
    (Q : option (eigrp_prefix_descriptor * eigrp_route_descriptor) -> eigrp_instance -> Prop) :
  instance_wf s -> table_wf s -> metrics_convertible af ->
  (summary_destination summary_auto_prefix af ei (destination component) = None -> Q None s) ->
  (forall dest pd rd, summary_destination summary_auto_prefix af ei (destination component) = Some dest ->
     aggregate s af ei dest pd rd -> Q (Some (pd, rd)) s) ->
  wp (eigrp_summary_route_build summary_auto_prefix classic_internal_tlv_type af ei sp component route) Q s.
Proof.
  intros W T Hm Hnone Hsome. unfold eigrp_summary_route_build.
  destruct (summary_destination _ _ _ _) as [dest|] eqn:Ed; [|by wp_simpl; apply Hnone].
  rewrite wp_bind, wp_gets, wp_bind. apply wp_summary_component; [done|done|apply T|].
  pose proof (nearest_spec (components s dest (si_ptr ei)) None) as Hn. unfold components in Hn.
  destruct (foldl nearer None _) as [b|].
  - destruct Hn as ([?|Hb] & _ & Hmin); [done|]. rewrite !wp_bind, wp_gets, wp_bind, wp_gets.
    assert (exists m, aggregate_metric af dest b m /\
      (match eigrp_summary_metric_lookup af dest with
       | Some config => if sm_metric_configured config
                        then nonnull (eigrp_metric_values_convert (sm_metric config))
                        else mret (rd_total_metric b)
       | None => mret (rd_total_metric b)
       end : St eigrp_metrics) = mret m) as (m & Hagg & ->).
    { unfold aggregate_metric. destruct (eigrp_summary_metric_lookup af dest) as [config|] eqn:El; [|by eauto].
      destruct (sm_metric_configured config) eqn:Ec; [|by eauto].
      destruct (Hm dest config El Ec) as [m Em]. rewrite Em. by exists m. }
    wp_simpl. apply (Hsome dest); [done|]. split; try done.
    unfold components. destruct (omap _ _) as [|x l]; [by apply not_elem_of_nil in Hb|]. eauto.
  - destruct Hn as [_ Hn]. wp_simpl. apply (Hsome dest); [done|]. split; try done.
    unfold components. by rewrite Hn.
Qed.

(** ** The boundary of a QUERY *)

(** The same network: the length and the leading bits agree. *)
Definition same_network (a b : eigrp_prefix) : Prop :=
  prefix_length a = prefix_length b /\ eigrp_prefix_address_match a (address b) = true.

Definition summaries_wf (config : list eigrp_summary_config) : Prop :=
  forall c, c ∈ config -> prefix_wf (sc_prefix c).

(** Two prefixes that cover the same address: the shorter covers the longer. *)
Lemma covers_nested a b x :
  prefix_wf a -> prefix_wf b -> address_wf x ->
  eigrp_prefix_address_match a x = true -> eigrp_prefix_address_match b x = true ->
  prefix_length a <= prefix_length b -> eigrp_prefix_address_match a (address b) = true.
Proof.
  intros Wa Wb Wx Ha Hb Hlen.
  assert (forall p, eigrp_prefix_address_match p x = true -> eigrp_prefix_valid p = true) as Hv.
  { intros p Hp. unfold eigrp_prefix_address_match in Hp. by destruct (eigrp_prefix_valid p). }
  pose proof (Hv _ Ha) as Va. pose proof (Hv _ Hb) as Vb.
  apply address_match_bits in Ha as [A1 A2]; [|done..]. apply address_match_bits in Hb as [B1 B2]; [|done..].
  apply address_match_bits; [done|apply Wb|done|]. split; [congruence|].
  intros i Hi. rewrite A2 by done. rewrite B2 by lia. done.
Qed.

Definition destinations_wf s : Prop := forall p d, prefixes s !! p = Some d -> prefix_wf (destination d).

(** What a QUERY for the configured aggregate [dest] is answered with. *)
Definition local_answer s (af : option summary_af) (ei : summary_intf) (dest : eigrp_prefix)
    (r : option (eigrp_prefix_descriptor * eigrp_route_descriptor)) : Prop :=
  exists d pd rd, r = Some (pd, rd) /\ summary_covers_prefix dest (destination d) = true
    /\ (exists p, prefixes s !! p = Some d)
    /\ exists dest', summary_destination summary_auto_prefix af ei (destination d) = Some dest' /\ aggregate s af ei dest' pd rd.

Lemma wp_summary_query_walk nodes af ei sp dest s
    (Q : option (eigrp_prefix_descriptor * eigrp_route_descriptor) -> eigrp_instance -> Prop) :
  instance_wf s -> table_wf s -> metrics_convertible af ->
  (forall t, t ∈ nodes -> is_Some (table_nodes s !! t)) ->
  Q None s -> (forall r, local_answer s af ei dest r -> Q r s) ->
  wp (summary_query_walk summary_auto_prefix classic_internal_tlv_type nodes af ei sp dest) Q s.
Proof.
  intros W T Hm. induction nodes as [|t nodes IH]; intros Hl Hnone Hsome; [by wp_simpl|].
  assert (Hrest : forall x, x ∈ nodes -> is_Some (table_nodes s !! x)) by (intros x Hx; apply Hl; by right).
  specialize (IH Hrest Hnone Hsome).
  destruct (Hl t) as [n Hn]; [by left|]. cbn [summary_query_walk].
  rewrite wp_bind, (wp_get_tnode t n) by done.
  destruct (tn_info n) as [p|] eqn:Ei; [|done].
  destruct (tw_info _ T t n p Hn Ei) as [d Hd].
  pose proof (ok_live _ _ (dest_wf_ok _ _ _ (iw_dests _ W _ _ Hd))) as Hlive.
  rewrite wp_bind, wp_get_prefix by exact Hd.
  destruct (_ || _ || _) eqn:Eg; [done|]. apply orb_false_iff in Eg as [Eg Ea]. apply orb_false_iff in Eg as [_ Eg].
  apply negb_false_iff in Ea. apply Z.leb_gt in Eg.
  rewrite wp_bind. apply (wp_route_read p d); [done|done|].
  destruct (read_of s d) as [r|] eqn:Er; [|done].
  destruct (read_of_live s d r Hlive Er) as [e He]. rewrite wp_bind, wp_get_route by exact He.
  rewrite wp_bind. apply wp_summary_route_build; [done..|done|].
  intros dest' pd rd Hdest Hagg. wp_simpl. apply Hsome. exists d, pd, rd. split; [done|]. split; [|by eauto].
  unfold summary_covers_prefix. rewrite Ea, (proj2 (Z.ltb_lt _ _) Eg).
  unfold eigrp_prefix_address_match in Ea. destruct (_ =? _); [done|]. by rewrite orb_true_r in Ea.
Qed.

(** A summary of the interface's configuration is the queried prefix itself. *)
Definition configured (af : option summary_af) (ei : summary_intf) (dest : eigrp_prefix) : bool :=
  match eigrp_summary_intf_config af ei with
  | Some config => existsb (fun c => eigrp_summary_prefix_match (sc_prefix c) dest) config
  | None => false
  end.

Lemma summary_prefix_match_eq a b : prefix_wf a -> prefix_wf b -> eigrp_summary_prefix_match a b = true -> a = b.
Proof.
  intros [[La _] _] [[Lb _] _]. unfold eigrp_summary_prefix_match, bytes_eqb.
  rewrite !andb_true_iff, !Z.eqb_eq, bool_decide_eq_true, !take_ge by lia.
  destruct a as [[? ?] ?], b as [[? ?] ?]; simpl. intros [[-> ->] ->]. done.
Qed.

(** With no configured summary under it, the aggregate that is built is the queried one. *)
Lemma local_answer_network s af ei dest r config :
  destinations_wf s -> prefix_wf dest -> eigrp_summary_intf_config af ei = Some config -> summaries_wf config ->
  configured af ei dest = true ->
  (forall c, c ∈ config -> summary_covers_prefix dest (sc_prefix c) = false) ->
  local_answer s af ei dest r ->
  exists pd rd, r = Some (pd, rd) /\ same_network dest (destination pd) /\ aggregate s af ei (destination pd) pd rd.
Proof.
  intros D Wd Ec Hwf Hconf Hnest (d & pd & rd & -> & Hcov & (p & Hp) & dest' & Hdest & Hagg).
  pose proof (D p d Hp) as Wdd.
  exists pd, rd. split; [done|]. rewrite (ag_prefix _ _ _ _ _ _ Hagg). split; [|done].
  unfold configured in Hconf. rewrite Ec in Hconf. apply existsb_exists in Hconf as (c0 & Hc0 & Em).
  apply list_elem_of_In in Hc0. apply summary_prefix_match_eq in Em; [|by apply Hwf|done].
  unfold summary_destination in Hdest. pose proof (summary_match_longest af ei (destination d) config Ec) as Hmatch.
  destruct (eigrp_summary_match af ei (destination d)) as [c|].
  - injection Hdest as <-. destruct Hmatch as [L1 L2 L3]. specialize (L3 c0 Hc0). rewrite Em in L3. specialize (L3 Hcov).
    unfold summary_covers_prefix in Hcov, L2. rewrite !andb_true_iff in Hcov, L2.
    destruct Hcov as [[C1 C2] C3], L2 as [[D1 D2] D3].
    assert (eigrp_prefix_address_match dest (address (sc_prefix c)) = true) as Ha.
    { apply (covers_nested _ _ (address (destination d))); [done|by apply Hwf|apply Wdd|done..]. }
    split; [|done]. specialize (Hnest c L1). unfold summary_covers_prefix in Hnest. rewrite Ha in Hnest.
    apply Z.eqb_eq in C1, D1. rewrite C1, <-D1, Z.eqb_refl in Hnest. simpl in Hnest. rewrite andb_true_r in Hnest.
    apply Z.ltb_ge in Hnest. lia.
  - specialize (Hmatch c0 Hc0). rewrite Em in Hmatch. congruence.
Qed.
End components.

Section theorems.
Implicit Types s : eigrp_instance.
Context (summary_auto_prefix : eigrp_prefix -> eigrp_prefix + eigrp_result).
Context (leak_map_evaluate : string -> eigrp_prefix -> eigrp_result * option eigrp_filter_decision).
Context (classic_internal_tlv_type : Z).

Let route_build := eigrp_summary_route_build summary_auto_prefix classic_internal_tlv_type.
Let query_build := eigrp_summary_query_route_build summary_auto_prefix leak_map_evaluate classic_internal_tlv_type.

(** building an aggregate for a destination on an interface is defined and leaves the store
    as it was. It builds nothing when no configured summary and no classful network covers the
    destination; otherwise the aggregate is the longest configured summary that covers it (or, with
    none, the classful network), owned by this router and PASSIVE, with the configured vector or the
    accumulated vector of its nearest usable component in the table, and it is unreachable exactly
    when the table holds no usable component. *)
Theorem summary_aggregate af ei sp component route s config :
  instance_wf s -> table_wf s -> metrics_convertible af -> eigrp_summary_intf_config af ei = Some config ->
  exists r, route_build af ei sp component route s = Some (r, s)
    /\ match summary_destination summary_auto_prefix af ei (destination component) with
       | None => r = None /\ forall c, c ∈ config -> summary_covers_prefix (sc_prefix c) (destination component) = false
       | Some dest =>
           (exists pd rd, r = Some (pd, rd) /\ aggregate s af ei dest pd rd)
           /\ ((exists c, sc_prefix c = dest /\ longest_cover config (destination component) c)
               \/ ((forall c, c ∈ config -> summary_covers_prefix (sc_prefix c) (destination component) = false)
                   /\ eigrp_summary_auto_match summary_auto_prefix af ei (destination component) = Some dest))
       end.
Proof.
  intros W T Hm Ec.
  pose proof (wp_summary_route_build summary_auto_prefix classic_internal_tlv_type af ei sp component route s
    (fun r s' => s' = s /\ match summary_destination summary_auto_prefix af ei (destination component) with
                           | None => r = None
                           | Some dest => exists pd rd, r = Some (pd, rd) /\ aggregate s af ei dest pd rd
                           end) W T Hm) as Hwp.
  destruct (wp_some _ _ _ (Hwp ltac:(by intros ->) ltac:(intros dest pd rd -> ?; by eauto))) as (r & s' & E & -> & Hr).
  exists r. split; [exact E|]. pose proof (summary_match_longest af ei (destination component) config Ec) as Hmatch.
  destruct (summary_destination _ _ _ _) as [dest|] eqn:Ed; unfold summary_destination in Ed;
    destruct (eigrp_summary_match _ _ _) as [c|]; try done.
  - injection Ed as <-. split; [done|]. left. by exists c.
  - split; [done|]. by right.
Qed.

(** C37: the answer to a QUERY at a summary boundary. The computation is defined and leaves the
    store as it was. A QUERY for a summary configured on the interface is always answered here, and
    when no other configured summary lies under it the answer is about the queried network; a QUERY
    for a specific the interface suppresses is answered unreachable for exactly that destination; any
    other QUERY, a leaked specific among them, is left to DUAL. *)
Theorem summary_query_boundary af ei sp dest s :
  instance_wf s -> table_wf s -> destinations_wf s -> metrics_convertible af -> prefix_wf dest ->
  (forall config, eigrp_summary_intf_config af ei = Some config -> summaries_wf config) ->
  exists r, query_build af ei sp dest s = Some (r, s)
    /\ if configured af ei dest
       then exists pd rd, r = Some (pd, rd) /\ rd_adv_router rd = neighbor_self s /\ pd_state pd = EIGRP_FSM_STATE_PASSIVE
              /\ ((forall config c, eigrp_summary_intf_config af ei = Some config -> c ∈ config ->
                     summary_covers_prefix dest (sc_prefix c) = false) ->
                  destination pd = dest \/ same_network dest (destination pd))
       else if eigrp_summary_covers summary_auto_prefix af ei dest
               && negb (eigrp_summary_specific_leak leak_map_evaluate af ei dest)
       then exists pd rd, r = Some (pd, rd) /\ destination pd = dest /\ rd_dest rd = dest
              /\ distance pd = EIGRP_MAX_METRIC /\ delay (rd_metric rd) = EIGRP_MAX_METRIC
       else r = None.
Proof.
  intros W T D Hm Wd Hwf. unfold query_build, eigrp_summary_query_route_build.
  change (match eigrp_summary_intf_config af ei with
          | Some config => existsb (fun c => eigrp_summary_prefix_match (sc_prefix c) dest) config
          | None => false end) with (configured af ei dest).
  cbv beta iota zeta delta [mbind M_bind gets]. destruct (configured af ei dest) eqn:Ec.
  - set (unreachable := summary_unreachable classic_internal_tlv_type sp dest (neighbor_self s)).
    pose proof (wp_summary_query_walk summary_auto_prefix classic_internal_tlv_type (topology_table s) af ei sp dest s
      (fun r s' => s' = s /\ (r = None \/ local_answer summary_auto_prefix s af ei dest r)) W T Hm (tw_live _ T)) as Hwp.
    destruct (wp_some _ _ _ (Hwp (conj eq_refl (or_introl eq_refl)) (fun r Hr => conj eq_refl (or_intror Hr)))) as (r & s' & E & -> & Hr).
    exists (match r with Some o => Some o | None => Some unreachable end). split; [simpl; rewrite E; by destruct r|].
    destruct Hr as [->|Hr].
    + exists (fst unreachable), (snd unreachable). split; [done|]. split; [done|]. split; [done|]. intros _. by left.
    + destruct (eigrp_summary_intf_config af ei) as [config|] eqn:Econf; [|by unfold configured in Ec; rewrite Econf in Ec].
      pose proof Hr as (d & pd & rd & -> & _ & _ & dest' & _ & Hagg). exists pd, rd.
      split; [done|]. split; [apply Hagg|]. split; [apply Hagg|]. intros Hn.
      destruct (local_answer_network summary_auto_prefix s af ei dest _ config D Wd Econf (Hwf _ eq_refl) Ec
        (fun c Hc => Hn config c eq_refl Hc) Hr) as (pd' & rd' & [= <- <-] & ? & _). by right.
  - exists (if eigrp_summary_covers summary_auto_prefix af ei dest
               && negb (eigrp_summary_specific_leak leak_map_evaluate af ei dest)
            then Some (summary_unreachable classic_internal_tlv_type sp dest (neighbor_self s)) else None).
    split; [by destruct (eigrp_summary_covers _ _ _ _), (eigrp_summary_specific_leak _ _ _ _)|].
    destruct (_ && _); [|done]. eexists _, _. by split; [reflexivity|].
Qed.
End theorems.

(** ** A router that summarises 10.0.0.0/8 on one interface *)

Definition v4_network (b0 b1 len : Z) : eigrp_prefix :=
  {| address := {| afi := EIGRP_AFI_IPV4; bytes := [b0; b1; 0; 0] ++ zero_bytes 12 |}; prefix_length := len |}.

Definition demo_summary (p : eigrp_prefix) : eigrp_summary_config :=
  {| sc_prefix := p; sc_administrative_distance := 5; sc_leak_map := None |}.

Definition demo_af (l : list eigrp_prefix) : option summary_af :=
  Some {| sa_afi := EIGRP_AFI_IPV4; sa_interfaces := [("eth0"%string, demo_summary <$> l)]; sa_state := None |}.

Definition demo_intf : summary_intf :=
  {| si_ptr := 11%nat; si_name := Some "eth0"%string; si_address := v4_network 192 168 24 |}.

(** The network of [Network] with a table: 10.1.0.0/16 through interface 10. *)
Definition summary_net : eigrp_instance :=
  let s := net net_passive 4096 in
  {| s with topology_table := [25%nat]; table_nodes := {[ 25%nat := {| tn_prefix := net_prefix; tn_info := Some 1%nat |} ]} |}.

Definition no_auto (_ : eigrp_prefix) : eigrp_prefix + eigrp_result := inr EIGRP_RESULT_NOT_FOUND.
Definition no_leak (_ : string) (_ : eigrp_prefix) : eigrp_result * option eigrp_filter_decision :=
  (EIGRP_RESULT_NOT_FOUND, None).

Lemma summary_net_wf : instance_wf summary_net /\ table_wf summary_net /\ destinations_wf summary_net.
Proof.
  split; [apply instance_wfb_spec; by vm_compute|]. split; [apply table_wfb_spec; by vm_compute|].
  intros p d Hd. change (prefixes summary_net) with ({[ 1%nat := net_passive ]} : gmap nat eigrp_prefix_descriptor) in Hd.
  apply lookup_singleton_Some in Hd as [_ <-]. split; [|simpl; lia]. split; [done|].
  simpl. repeat (apply Forall_cons; split; [unfold byte; lia|]). by apply Forall_nil.
Qed.

Lemma demo_convertible l : metrics_convertible (demo_af l).
Proof. by intros dest config [=]. Qed.

Lemma v4_network_wf b0 b1 len : byte b0 -> byte b1 -> 0 <= len -> prefix_wf (v4_network b0 b1 len).
Proof.
  intros. split; [|done]. split; [done|].
  simpl. repeat (apply Forall_cons; split; [first [done|unfold byte; lia]|]). by apply Forall_nil.
Qed.

Lemma summary_aggregate_witness :
  exists pd rd, eigrp_summary_route_build no_auto EIGRP_TLV_IPv4_INT (demo_af [v4_network 10 0 8]) demo_intf 50%nat
      net_passive (net_best 512) summary_net = Some (Some (pd, rd), summary_net)
    /\ destination pd = v4_network 10 0 8 /\ rd_total_metric rd = rd_total_metric (net_best 512).
Proof.
  destruct (summary_aggregate no_auto EIGRP_TLV_IPv4_INT (demo_af [v4_network 10 0 8]) demo_intf 50%nat
    net_passive (net_best 512) summary_net [demo_summary (v4_network 10 0 8)]) as (r & E & Hr);
    [apply summary_net_wf|apply summary_net_wf|apply demo_convertible|reflexivity|].
  change (summary_destination no_auto (demo_af [v4_network 10 0 8]) demo_intf (destination net_passive))
    with (Some (v4_network 10 0 8)) in Hr.
  destruct Hr as [(pd & rd & -> & Hagg) _]. exists pd, rd. split; [exact E|]. split; [apply Hagg|].
  pose proof (ag_source _ _ _ _ _ _ Hagg) as Hs.
  assert (components summary_net (v4_network 10 0 8) 11 = [net_best 512]) as Ec by (vm_compute; reflexivity).
  change (si_ptr demo_intf) with 11%nat in Hs. rewrite Ec in Hs.
  destruct Hs as (b & ->%list_elem_of_singleton & _ & Hm). exact Hm.
Defined.

Lemma summary_query_boundary_witness :
  exists r, eigrp_summary_query_route_build no_auto no_leak EIGRP_TLV_IPv4_INT (demo_af [v4_network 10 0 8]) demo_intf 50%nat
      (v4_network 10 2 16) summary_net = Some (r, summary_net)
    /\ exists pd rd, r = Some (pd, rd) /\ destination pd = v4_network 10 2 16 /\ distance pd = EIGRP_MAX_METRIC.
Proof.
  destruct (summary_query_boundary no_auto no_leak EIGRP_TLV_IPv4_INT (demo_af [v4_network 10 0 8]) demo_intf 50%nat
    (v4_network 10 2 16) summary_net) as (r & E & Hr);
    [apply summary_net_wf|apply summary_net_wf|apply summary_net_wf|apply demo_convertible
    |apply v4_network_wf; first [unfold byte; lia|lia]| |].
  - intros config [= <-] c ->%list_elem_of_singleton. apply v4_network_wf; first [unfold byte; lia|lia].
  - exists r. split; [exact E|]. vm_compute in Hr. destruct Hr as (pd & rd & -> & Hd & _ & Hm & _). by exists pd, rd.
Defined.

(** With 10.0.0.0/8 and 10.1.0.0/16 both configured, and 10.1.2.0/24 the component, a
    QUERY for the /8 is answered with the /16. *)
Lemma nested_summary_answer :
  let d := net_passive in
  let s := summary_net in
  let s := {| s with prefixes := {[ 1%nat := {| d with destination := v4_network 10 1 24 |} ]} |} in
  exists pd rd, eigrp_summary_query_route_build no_auto no_leak EIGRP_TLV_IPv4_INT
      (demo_af [v4_network 10 0 8; v4_network 10 1 16]) demo_intf 50%nat (v4_network 10 0 8) s = Some (Some (pd, rd), s)
    /\ destination pd = v4_network 10 1 16.
Proof. eexists _, _. split; [vm_compute; reflexivity|reflexivity]. Qed.
