(* ===== verification/HashTable.v ===== *)
(** * The prefix table (eigrp_table.c)

    The chained hash table with its insertion-order list, on a heap of nodes.
    The three links of a node are pointers into the heap; the loops over them
    carry the number of live nodes as fuel. *)

From Stdlib Require Import ZArith Lia.
From stdpp Require Import base gmap list.
From S2P Require Import Prelude Types Prefix.

Record eigrp_table_node := {
  nd_next : option ptr;
  nd_previous : option ptr;
  nd_hash_next : option ptr;
  nd_prefix : eigrp_prefix;
  nd_info : option ptr;
}.

(** [eigrp_table_t] with the nodes it reaches; [bucket_count] is the length of
    [t_buckets].  [t_mem] answers the next allocations, success once exhausted. *)
Record eigrp_table := {
  t_head : option ptr;
  t_tail : option ptr;
  t_buckets : list (option ptr);
  t_size : Z;
  t_nodes : gmap ptr eigrp_table_node;
  t_next_addr : ptr;
  t_mem : list bool;
}.

Abbreviation Tm := (M eigrp_table).

Definition EIGRP_TABLE_INITIAL_BUCKETS : nat := 1024.

Definition t_calloc : Tm bool := fun s =>
  match t_mem s with
  | [] => Some (true, s)
  | b :: m => Some (b, {| s with t_mem := m |})
  end.

Definition get_node (x : ptr) : Tm eigrp_table_node := o ← gets (fun s => t_nodes s !! x); nonnull o.
Definition put_node (x : ptr) (n : eigrp_table_node) : Tm unit :=
  modify (fun s => {| s with t_nodes := <[x := n]> (t_nodes s) |}).
Definition upd_node (x : ptr) (f : eigrp_table_node -> eigrp_table_node) : Tm unit :=
  n ← get_node x; put_node x (f n).

(** ** Hashing *)

Definition hash_step (hash b : Z) : Z := u64 (Z.lxor hash b * 16777619).

Definition eigrp_table_prefix_hash (prefix : eigrp_prefix) : Z :=
  let length := if afi (address prefix) =? EIGRP_AFI_IPV4 then 4%nat else 16%nat in
  let hash := hash_step 2166136261 (afi (address prefix)) in
  let hash := hash_step hash (prefix_length prefix) in
  foldl hash_step hash (take length (bytes (address prefix))).

Definition bucket_of (prefix : eigrp_prefix) (count : nat) : nat :=
  Z.to_nat (eigrp_table_prefix_hash prefix mod Z.of_nat count).

(** The node at the head of its chain; a read outside the array is undefined. *)
Definition get_bucket (b : nat) : Tm (option ptr) :=
  o ← gets (fun s => t_buckets s !! b); nonnull o.
Definition set_bucket (b : nat) (x : option ptr) : Tm unit :=
  modify (fun s => {| s with t_buckets := <[b := x]> (t_buckets s) |}).

Definition t_fuel : Tm nat := gets (fun s => S (size (t_nodes s))).

(** ** Resizing *)

(** The loop over the order list: each node is pushed on its new chain. *)
Fixpoint rehash (fuel count : nat) (cur : option ptr) (buckets : list (option ptr))
    : Tm (list (option ptr)) :=
  match cur, fuel with
  | None, _ => mret buckets
  | Some _, O => ub
  | Some x, S fuel' =>
      n ← get_node x;
      let bucket := bucket_of (nd_prefix n) count in
      first ← nonnull (buckets !! bucket);
      put_node x {| n with nd_hash_next := first |};;
      rehash fuel' count (nd_next n) (<[bucket := Some x]> buckets)
  end.

Definition eigrp_table_resize (count : nat) : Tm bool :=
  ok ← t_calloc;
  if negb ok then mret false
  else
    head ← gets t_head;
    fuel ← t_fuel;
    buckets ← rehash fuel count head (replicate count None);
    modify (fun s => {| s with t_buckets := buckets |});;
    mret true.

(** The fresh table of [eigrp_table_create]; [None] is the NULL it returns. *)
Definition eigrp_table_create (mem : list bool) : option eigrp_table :=
  let empty m := {| t_head := None; t_tail := None; t_buckets := []; t_size := 0;
                    t_nodes := ∅; t_next_addr := O; t_mem := m |} in
  match t_calloc (empty mem) with
  | Some (true, s) =>
      match eigrp_table_resize EIGRP_TABLE_INITIAL_BUCKETS s with
      | Some (true, s) => Some s
      | _ => None
      end
  | _ => None
  end.

(** ** Lookup *)

Fixpoint chain_find (fuel : nat) (key : eigrp_prefix) (cur : option ptr) : Tm (option ptr) :=
  match cur, fuel with
  | None, _ => mret None
  | Some _, O => ub
  | Some x, S fuel' =>
      n ← get_node x;
      if eigrp_table_prefix_match (nd_prefix n) key then mret (Some x)
      else chain_find fuel' key (nd_hash_next n)
  end.

Definition eigrp_table_node_lookup (prefix : eigrp_prefix) : Tm (option ptr) :=
  count ← gets (fun s => length (t_buckets s));
  if negb (eigrp_prefix_valid prefix) || (count =? 0)%nat then mret None
  else
    let key := eigrp_prefix_normalize prefix in
    first ← get_bucket (bucket_of key count);
    fuel ← t_fuel;
    chain_find fuel key first.

(** ** Insertion *)

Definition SIZE_MAX_64 : Z := 2 ^ 64 - 1.

Definition eigrp_table_node_lookup_or_create (prefix : eigrp_prefix) : Tm (option ptr) :=
  if negb (eigrp_prefix_valid prefix) then mret None
  else
    found ← eigrp_table_node_lookup prefix;
    match found with
    | Some x => mret (Some x)
    | None =>
        count ← gets (fun s => length (t_buckets s));
        size ← gets t_size;
        (if (u64 (Z.of_nat count * 2) <=? size) && (Z.of_nat count <=? SIZE_MAX_64 / 2)
         then eigrp_table_resize (count * 2) else mret false);;
        ok ← t_calloc;
        if negb ok then mret None
        else
          x ← gets t_next_addr;
          modify (fun s => {| s with t_next_addr := S x |});;
          count ← gets (fun s => length (t_buckets s));
          let key := eigrp_prefix_normalize prefix in
          (if (count =? 0)%nat then ub else mret tt);;
          let bucket := bucket_of key count in
          first ← get_bucket bucket;
          tail ← gets t_tail;
          put_node x {| nd_next := None; nd_previous := tail; nd_hash_next := first;
                        nd_prefix := key; nd_info := None |};;
          set_bucket bucket (Some x);;
          (match tail with
           | Some t => upd_node t (fun n => {| n with nd_next := Some x |})
           | None => modify (fun s => {| s with t_head := Some x |})
           end);;
          modify (fun s => {| s with t_tail := Some x; t_size := u64 (t_size s + 1) |});;
          mret (Some x)
    end.

(** ** Removal *)

(** The walk of [cursor] along a chain: [prev] is the node whose [hash_next] the
    cursor points to, none at the bucket itself. *)
Fixpoint chain_unlink (fuel bucket : nat) (prev cur : option ptr) (node : ptr) : Tm bool :=
  match cur, fuel with
  | None, _ => mret false
  | Some _, O => ub
  | Some x, S fuel' =>
      n ← get_node x;
      if Nat.eqb x node then
        (match prev with
         | None => set_bucket bucket (nd_hash_next n)
         | Some q => upd_node q (fun m => {| m with nd_hash_next := nd_hash_next n |})
         end);;
        mret true
      else chain_unlink fuel' bucket (Some x) (nd_hash_next n) node
  end.

Definition eigrp_table_node_remove (node : ptr) : Tm unit :=
  count ← gets (fun s => length (t_buckets s));
  if (count =? 0)%nat then mret tt
  else
    n ← get_node node;
    let bucket := bucket_of (nd_prefix n) count in
    first ← get_bucket bucket;
    fuel ← t_fuel;
    found ← chain_unlink fuel bucket None first node;
    if negb found then mret tt
    else
      n ← get_node node;
      (match nd_previous n with
       | Some q => upd_node q (fun m => {| m with nd_next := nd_next n |})
       | None => modify (fun s => {| s with t_head := nd_next n |})
       end);;
      (match nd_next n with
       | Some q => upd_node q (fun m => {| m with nd_previous := nd_previous n |})
       | None => modify (fun s => {| s with t_tail := nd_previous n |})
       end);;
      modify (fun s => if t_size s =? 0 then s else {| s with t_size := t_size s - 1 |});;
      modify (fun s => {| s with t_nodes := delete node (t_nodes s) |}).

(** ** Longest-prefix match *)

(** [bitlen] runs from the length of the prefix down to 0; [n] is [bitlen + 1]. *)
Fixpoint match_loop (n : nat) (prefix : eigrp_prefix) : Tm (option ptr) :=
  match n with
  | O => mret None
  | S bitlen =>
      let candidate := {| prefix with prefix_length := Z.of_nat bitlen |} in
      found ← eigrp_table_node_lookup candidate;
      hit ← (match found with
             | None => mret false
             | Some x => n ← get_node x; mret (bool_decide (is_Some (nd_info n)))
             end);
      if hit : bool then mret found else match_loop bitlen prefix
  end.

Definition eigrp_table_node_match (prefix : eigrp_prefix) : Tm (option ptr) :=
  if negb (eigrp_prefix_valid prefix) then mret None
  else match_loop (S (Z.to_nat (prefix_length prefix))) prefix.

(** ** Iteration ([eigrp_table_first], [eigrp_table_next]) *)

Definition eigrp_table_first : Tm (option ptr) := gets t_head.
Definition eigrp_table_next (node : option ptr) : Tm (option ptr) :=
  match node with
  | None => mret None
  | Some x => n ← get_node x; mret (nd_next n)
  end.
