(* ===== verification/HashTableProps.v ===== *)
(** * The prefix table refines a list of entries (eigrp_table.c)

    The linked nodes, the hash chains and the order list implement one abstract
    value: the entries in insertion order, with distinct canonical keys. *)

From Stdlib Require Import ZArith Lia.
From stdpp Require Import base gmap list.
From S2P Require Import Prelude Types Prefix PrefixProps HashTable.

(** ** Canonical keys *)

Section keys.
Record canonical (k : eigrp_prefix) : Prop := {
  ck_wf : prefix_wf k;
  ck_valid : eigrp_prefix_valid k = true;
  ck_normal : eigrp_prefix_normalize k = k;
}.

Lemma normalize_is_canonical p :
  prefix_wf p -> eigrp_prefix_valid p = true -> canonical (eigrp_prefix_normalize p).
Proof.
  intros Hp Hv. split; [by apply normalize_wf|by apply normalize_valid|by apply prefix_normalize_idem].
Qed.

(** The bytes compared by the table decide the whole key. *)
Lemma canonical_match a b :
  canonical a -> canonical b -> eigrp_table_prefix_match a b = bool_decide (a = b).
Proof.
  intros [Wa Va Na] [Wb Vb Nb]. apply eq_bool_prop_intro. rewrite bool_decide_spec.
  split; [|intros <-; unfold eigrp_table_prefix_match, bytes_eqb;
           by rewrite !Z.eqb_refl, bool_decide_true].
  intros H. apply Is_true_true in H. unfold eigrp_table_prefix_match in H.
  rewrite !andb_true_iff, !Z.eqb_eq in H. destruct H as [[Ha Hl] Hb].
  pose proof Wa as [[La Ba] _]. pose proof Wb as [[Lb Bb] _].
  rewrite bytes_eqb_spec, <-same_bits_bytes in Hb by (done || destruct (_ =? _); lia).
  assert (Hw : (Z.to_nat (prefix_length a)
    <= (if (afi (address a) =? EIGRP_AFI_IPV4)%Z then 4 else 16) * 8)%nat).
  { unfold eigrp_prefix_valid in Va. destruct (_ =? EIGRP_AFI_IPV4); [lia|].
    destruct (_ =? EIGRP_AFI_IPV6); [lia|done]. }
  assert (E : bytes (address a) = bytes (address b)).
  { apply bytes_ext; [done..|]. intros i Hi. rewrite <-Na, <-Nb, !normalize_bits, <-Hl by done.
    destruct (Nat.ltb_spec i (Z.to_nat (prefix_length a))); [|done]. apply Hb. lia. }
  destruct a as [[aa ab] al], b as [[ba bb] bl]. simpl in *. by subst.
Qed.
End keys.

(** ** Linked segments *)

(** The pointers [l] lie on the path of the link [f] from [p] to [q]. *)
Fixpoint seg (f : eigrp_table_node -> option ptr) (N : gmap ptr eigrp_table_node)
    (p : option ptr) (l : list ptr) (q : option ptr) : Prop :=
  match l with
  | [] => p = q
  | x :: l' => p = Some x /\ exists n, N !! x = Some n /\ seg f N (f n) l' q
  end.

Section segments.
Context (f : eigrp_table_node -> option ptr).

Lemma seg_app N p l1 l2 q :
  seg f N p (l1 ++ l2) q <-> exists r, seg f N p l1 r /\ seg f N r l2 q.
Proof.
  revert p. induction l1 as [|x l1 IH]; intros p; simpl; [naive_solver|].
  setoid_rewrite IH. naive_solver.
Qed.

Lemma seg_snoc N p l t q :
  seg f N p (l ++ [t]) q <-> seg f N p l (Some t) /\ exists n, N !! t = Some n /\ f n = q.
Proof. rewrite seg_app. simpl. naive_solver. Qed.

(** Nodes outside the segment, and other links, do not matter. *)
Lemma seg_frame N N' p l q :
  (forall x, x ∈ l -> f <$> N' !! x = f <$> N !! x) -> seg f N p l q -> seg f N' p l q.
Proof.
  revert p. induction l as [|x l IH]; intros p H; simpl; [done|].
  intros (-> & n & Hn & Hs). split; [done|]. pose proof (H x ltac:(set_solver)) as E.
  rewrite Hn in E. apply fmap_Some in E as (n' & Hn' & En).
  exists n'. split; [done|]. rewrite <-En. apply IH; [|done]. intros y Hy. apply H. set_solver.
Qed.

Lemma seg_live N p l q x : seg f N p l q -> x ∈ l -> is_Some (N !! x).
Proof.
  revert p. induction l as [|y l IH]; intros p; simpl; [set_solver|].
  intros (-> & n & Hn & Hs) [->|Hx]%elem_of_cons; [by eexists|eauto].
Qed.

(** The last link of a segment redirected. *)
Lemma seg_relink N p l t q n' :
  seg f N p (l ++ [t]) q -> (t ∉ l) -> seg f (<[t := n']> N) p (l ++ [t]) (f n').
Proof.
  rewrite !seg_snoc. intros (Hs & _) Ht. split.
  - eapply seg_frame; [|done]. intros x Hx. rewrite lookup_insert_ne; [done|set_solver].
  - exists n'. by rewrite lookup_insert_eq.
Qed.

Lemma seg_head N p l q : seg f N p l q -> p = match l with [] => q | x :: _ => Some x end.
Proof. destruct l; simpl; naive_solver. Qed.

(** A segment that ends in NULL is determined by its first pointer. *)
Lemma seg_first_none N p l : seg f N p l None -> p = head l.
Proof. by destruct l; simpl; [|intros [-> _]]. Qed.
End segments.

(** ** The abstract table *)

Record entry := { e_node : ptr; e_key : eigrp_prefix; e_info : option ptr }.

Definition spec_find (key : eigrp_prefix) (l : list entry) : option ptr :=
  e_node <$> List.find (fun e => bool_decide (e_key e = key)) l.

(** The answer to a lookup: an invalid prefix has no entry, host bits are ignored. *)
Definition spec_lookup (p : eigrp_prefix) (l : list entry) : option ptr :=
  if eigrp_prefix_valid p then spec_find (eigrp_prefix_normalize p) l else None.

Abbreviation nodes_of l := (e_node <$> l).

(** The chain of bucket [b]: its entries, the newest first. *)
Definition chain (count b : nat) (l : list entry) : list ptr :=
  reverse (nodes_of (filter (fun e => bucket_of (e_key e) count = b) l)).

Definition entry_at (N : gmap ptr eigrp_table_node) (e : entry) : Prop :=
  exists n, N !! e_node e = Some n /\ nd_prefix n = e_key e /\ nd_info n = e_info e.

(** Each bucket of [B] is the chain of the entries [l]. *)
Definition chained (N : gmap ptr eigrp_table_node) (B : list (option ptr)) (l : list entry) : Prop :=
  forall b, (b < length B)%nat ->
    exists first, B !! b = Some first /\ seg nd_hash_next N first (chain (length B) b l) None.

Record table_is (s : eigrp_table) (l : list entry) : Prop := {
  ti_next : seg nd_next (t_nodes s) (t_head s) (nodes_of l) None;
  ti_prev : seg nd_previous (t_nodes s) (t_tail s) (reverse (nodes_of l)) None;
  ti_chain : chained (t_nodes s) (t_buckets s) l;
  ti_count : (0 < length (t_buckets s))%nat;
  ti_entry : Forall (entry_at (t_nodes s)) l;
  ti_dom : forall x, is_Some (t_nodes s !! x) <-> x ∈ nodes_of l;
  ti_nodup : NoDup (nodes_of l);
  ti_keys : NoDup (e_key <$> l);
  ti_canon : Forall (fun e => canonical (e_key e)) l;
  ti_size : t_size s = Z.of_nat (length l);
  ti_fresh : Forall (fun e => (e_node e < t_next_addr s)%nat) l;
}.

Section store_rules.
Context (Q : eigrp_table_node -> eigrp_table -> Prop) (R : unit -> eigrp_table -> Prop).

Lemma wp_get_node x s n : t_nodes s !! x = Some n -> Q n s -> wp (get_node x) Q s.
Proof. intros H. unfold get_node, wp. simpl. unfold mbind, M_bind, gets. by rewrite H. Qed.

Lemma wp_put_node x n s :
  R tt {| s with t_nodes := <[x := n]> (t_nodes s) |} -> wp (put_node x n) R s.
Proof. done. Qed.

Lemma wp_upd_node x f s n :
  t_nodes s !! x = Some n ->
  R tt {| s with t_nodes := <[x := f n]> (t_nodes s) |} -> wp (upd_node x f) R s.
Proof.
  intros H. unfold upd_node, get_node, wp. simpl. unfold mbind, M_bind, gets. by rewrite H.
Qed.
End store_rules.

Section lists_of_entries.
Lemma bucket_lt k count : (0 < count)%nat -> (bucket_of k count < count)%nat.
Proof.
  intros H. unfold bucket_of.
  pose proof (Z.mod_pos_bound (eigrp_table_prefix_hash k) (Z.of_nat count)). lia.
Qed.

Lemma chain_elem count b l x :
  x ∈ chain count b l <-> exists e, e ∈ l /\ e_node e = x /\ bucket_of (e_key e) count = b.
Proof.
  unfold chain. rewrite elem_of_reverse, list_elem_of_fmap. setoid_rewrite list_elem_of_filter.
  naive_solver.
Qed.

Lemma chain_app count b l1 l2 : chain count b (l1 ++ l2) = chain count b l2 ++ chain count b l1.
Proof. unfold chain. by rewrite filter_app, fmap_app, reverse_app. Qed.

Lemma chain_single count b e :
  chain count b [e] = if decide (bucket_of (e_key e) count = b) then [e_node e] else [].
Proof. unfold chain. rewrite filter_cons, filter_nil. by case_decide. Qed.

Lemma chain_nodup count b l : NoDup (nodes_of l) -> NoDup (chain count b l).
Proof.
  intros H. unfold chain. rewrite reverse_Permutation. eapply sublist_NoDup; [done|].
  apply fmap_sublist, sublist_filter.
Qed.

Lemma chain_length count b l : (length (chain count b l) <= length l)%nat.
Proof. unfold chain. rewrite length_reverse, length_fmap. apply length_filter. Qed.

Lemma node_entry N l e :
  Forall (entry_at N) l -> e ∈ l ->
  exists n, N !! e_node e = Some n /\ nd_prefix n = e_key e /\ nd_info n = e_info e.
Proof. rewrite Forall_forall. intros H He. by apply (H e). Qed.

Lemma entry_inj l e e' :
  NoDup (nodes_of l) -> e ∈ l -> e' ∈ l -> e_node e = e_node e' -> e = e'.
Proof.
  intros Hn [i Hi]%list_elem_of_lookup [j Hj]%list_elem_of_lookup E.
  assert (i = j) as ->; [|congruence].
  apply (NoDup_lookup (nodes_of l) i j (e_node e)); [done| |]; rewrite list_lookup_fmap;
    [by rewrite Hi|rewrite Hj; simpl; by rewrite E].
Qed.

Lemma key_inj l e e' : NoDup (e_key <$> l) -> e ∈ l -> e' ∈ l -> e_key e = e_key e' -> e = e'.
Proof.
  intros Hn [i Hi]%list_elem_of_lookup [j Hj]%list_elem_of_lookup E.
  assert (i = j) as ->; [|congruence].
  apply (NoDup_lookup (e_key <$> l) i j (e_key e)); [done| |]; rewrite list_lookup_fmap;
    [by rewrite Hi|rewrite Hj; simpl; by rewrite E].
Qed.

(** With distinct keys the entry found is the only one with the key. *)
Lemma spec_find_some key l x :
  NoDup (e_key <$> l) ->
  spec_find key l = Some x <-> exists e, e ∈ l /\ e_key e = key /\ e_node e = x.
Proof.
  intros Hn. unfold spec_find. rewrite fmap_Some. split.
  - intros (e & (l1 & l2 & -> & He & _)%find_first & ->). rewrite bool_decide_eq_true in He.
    exists e. set_solver.
  - intros (e & He & Hk & <-). destruct (List.find _ l) as [e'|] eqn:E.
    + pose proof (find_first _ _ _ E) as (l1 & l2 & -> & He' & _). rewrite bool_decide_eq_true in He'.
      exists e'. split; [done|]. f_equal. eapply key_inj; [done|done|set_solver|congruence].
    + apply find_none_forall in E. rewrite Forall_forall in E. specialize (E e He).
      rewrite bool_decide_eq_false in E. done.
Qed.

Lemma spec_find_none key l : spec_find key l = None <-> (key ∉ e_key <$> l).
Proof.
  unfold spec_find. rewrite fmap_None, find_none_forall, Forall_forall, list_elem_of_fmap.
  setoid_rewrite bool_decide_eq_false. naive_solver.
Qed.
End lists_of_entries.

(** ** Lookup *)

Section lookup.
Context (s : eigrp_table) (l : list entry) (key : eigrp_prefix).
Hypothesis T : table_is s l.
Hypothesis Hkey : canonical key.

Lemma table_nodes_size : size (t_nodes s) = length l.
Proof.
  assert (E : dom (t_nodes s) = list_to_set (nodes_of l) :> gset ptr).
  { apply set_eq. intros x. rewrite elem_of_dom, elem_of_list_to_set. apply T. }
  rewrite <-size_dom, E, size_list_to_set by apply T. by rewrite length_fmap.
Qed.

Lemma wp_chain_find fuel cur c (Q : option ptr -> eigrp_table -> Prop) :
  (length c <= fuel)%nat -> seg nd_hash_next (t_nodes s) cur c None ->
  (forall x, x ∈ c -> exists e, e ∈ l /\ e_node e = x) ->
  (forall r, (match r with
              | Some x => exists e, e ∈ l /\ e_node e = x /\ e_key e = key
              | None => forall e, e ∈ l -> e_node e ∈ c -> e_key e <> key
              end) -> Q r s) ->
  wp (chain_find fuel key cur) Q s.
Proof.
  revert fuel cur Q. induction c as [|x c IH]; intros fuel cur Q Hf Hs Hin HQ.
  - simpl in Hs. subst. destruct fuel; apply HQ; set_solver.
  - destruct Hs as (-> & n & Hn & Hs). destruct fuel as [|fuel]; [simpl in Hf; lia|].
    cbn [chain_find]. apply wp_bind. eapply wp_get_node; [done|].
    destruct (Hin x ltac:(set_solver)) as (e & He & <-).
    destruct (node_entry _ _ _ (ti_entry _ _ T) He) as (n' & Hn' & Hp & _).
    rewrite Hn in Hn'. injection Hn' as <-.
    rewrite canonical_match; [|rewrite Hp; by apply (proj1 (Forall_forall _ l) (ti_canon _ _ T))|done].
    rewrite Hp. case_bool_decide as E.
    + apply wp_ret, HQ. eauto.
    + apply (IH fuel); [simpl in Hf; lia|done|set_solver|]. intros r Hr. apply HQ.
      destruct r as [y|]; [done|]. intros e' He' Hc'.
      apply elem_of_cons in Hc' as [Ex|Hc']; [|by apply Hr].
      assert (e' = e) as -> by (eapply entry_inj; [apply T|done..]). done.
Qed.
End lookup.

Section lookup_spec.
Context (s : eigrp_table) (l : list entry).
Hypothesis T : table_is s l.

Lemma wp_table_lookup p (Q : option ptr -> eigrp_table -> Prop) :
  prefix_wf p -> Q (spec_lookup p l) s -> wp (eigrp_table_node_lookup p) Q s.
Proof.
  intros Hp HQ. pose proof (ti_count _ _ T) as Hc. unfold eigrp_table_node_lookup, spec_lookup in *.
  apply wp_bind, wp_gets. rewrite (proj2 (Nat.eqb_neq _ 0)) by lia. rewrite orb_false_r.
  destruct (eigrp_prefix_valid p) eqn:Hv; cbn [negb]; [|done].
  pose proof (normalize_is_canonical p Hp Hv) as Hk. set (key := eigrp_prefix_normalize p) in *.
  set (b := bucket_of key (length (t_buckets s))).
  destruct (ti_chain _ _ T b) as (first & Hb & Hs); [by apply bucket_lt|].
  apply wp_bind. unfold get_bucket. apply wp_bind, wp_gets. rewrite Hb. apply wp_ret.
  apply wp_bind. apply wp_gets.
  eapply (wp_chain_find s l key T Hk _ _ (chain (length (t_buckets s)) b l)); [|done| |].
  - rewrite (table_nodes_size s l T). pose proof (chain_length (length (t_buckets s)) b l). lia.
  - intros x (e & He & Hx & _)%chain_elem. eauto.
  - intros r Hr. enough (r = spec_find key l) as -> by done. destruct r as [x|]; symmetry.
    + apply spec_find_some; [apply T|]. naive_solver.
    + apply spec_find_none. rewrite list_elem_of_fmap. intros (e & Ek & He).
      apply (Hr e); [done| |done]. apply chain_elem. exists e. by rewrite <-Ek.
Qed.
End lookup_spec.

(** ** Rehashing *)

Definition strip_chain (n : eigrp_table_node) : eigrp_table_node := {| n with nd_hash_next := None |}.

(** The two heaps differ at most in the chain links. *)
Definition same_but_chain (N N' : gmap ptr eigrp_table_node) : Prop :=
  forall x, strip_chain <$> N' !! x = strip_chain <$> N !! x.

Section chain_frame.
Context (N N' : gmap ptr eigrp_table_node).
Hypothesis HN : same_but_chain N N'.

Lemma chain_frame_field {A} (f : eigrp_table_node -> A) x :
  (forall n, f (strip_chain n) = f n) -> f <$> N' !! x = f <$> N !! x.
Proof.
  intros Hf. specialize (HN x). destruct (N' !! x), (N !! x); simpl in *; try done.
  injection HN as E1 E2 E3 E4. f_equal. rewrite <-Hf, <-(Hf e0). unfold strip_chain.
  by rewrite E1, E2, E3, E4.
Qed.

Lemma chain_frame_live x : is_Some (N' !! x) <-> is_Some (N !! x).
Proof. specialize (HN x). destruct (N' !! x), (N !! x); simpl in *; naive_solver. Qed.

Lemma chain_frame_entry e : entry_at N e -> entry_at N' e.
Proof.
  intros (n & Hn & Hp & Hi).
  pose proof (chain_frame_field nd_prefix (e_node e) ltac:(done)) as Ep.
  pose proof (chain_frame_field nd_info (e_node e) ltac:(done)) as Ei.
  rewrite Hn in Ep, Ei. apply fmap_Some in Ep as (n' & Hn' & Ep). rewrite Hn' in Ei.
  injection Ei as Ei. exists n'. split; [done|]. split; congruence.
Qed.
End chain_frame.

Section push.
Context (N N' : gmap ptr eigrp_table_node) (B : list (option ptr)) (l : list entry).
Context (e : entry) (n : eigrp_table_node).
Hypothesis Hchained : chained N B l.
Hypothesis Hnode : N' !! e_node e = Some n.
Hypothesis Hlink : B !! bucket_of (e_key e) (length B) = Some (nd_hash_next n).
Hypothesis Hother : forall x, x ∈ nodes_of l -> nd_hash_next <$> N' !! x = nd_hash_next <$> N !! x.

(** A node put at the head of its chain. *)
Lemma chained_push :
  chained N' (<[bucket_of (e_key e) (length B) := Some (e_node e)]> B) (l ++ [e]).
Proof.
  set (b0 := bucket_of (e_key e) (length B)) in *.
  intros b Hb. rewrite length_insert in Hb |- *.
  destruct (Hchained b Hb) as (first & HB & Hs).
  assert (Hs' : seg nd_hash_next N' first (chain (length B) b l) None).
  { eapply seg_frame; [|done]. intros x (e' & He' & <- & _)%chain_elem. apply Hother.
    apply list_elem_of_fmap. eauto. }
  rewrite chain_app, chain_single. case_decide as E.
  - fold b0 in E. subst b. rewrite Hlink in HB. injection HB as <-. exists (Some (e_node e)).
    rewrite list_lookup_insert_eq by done. split; [done|]. split; [done|]. eauto.
  - exists first. rewrite list_lookup_insert_ne by done. done.
Qed.
End push.

Section rehash.
Context (s : eigrp_table) (count : nat).
Hypothesis Hcount : (0 < count)%nat.

Lemma same_but_chain_refl N : same_but_chain N N.
Proof. by intros x. Qed.

Lemma same_but_chain_upd N N1 x n first :
  same_but_chain N N1 -> N1 !! x = Some n ->
  same_but_chain N (<[x := {| n with nd_hash_next := first |}]> N1).
Proof.
  intros H Hn y. destruct (decide (y = x)) as [->|Hne].
  - rewrite lookup_insert_eq, <-H, Hn. done.
  - by rewrite lookup_insert_ne.
Qed.

Lemma wp_rehash l1 l2 fuel cur B N1 (Q : list (option ptr) -> eigrp_table -> Prop) :
  (length l2 <= fuel)%nat -> NoDup (nodes_of (l1 ++ l2)) -> length B = count ->
  same_but_chain (t_nodes s) N1 -> Forall (entry_at (t_nodes s)) l2 ->
  seg nd_next (t_nodes s) cur (nodes_of l2) None -> chained N1 B l1 ->
  (forall B' N', same_but_chain (t_nodes s) N' -> length B' = count -> chained N' B' (l1 ++ l2) ->
     Q B' {| s with t_nodes := N' |}) ->
  wp (rehash fuel count cur B) Q {| s with t_nodes := N1 |}.
Proof.
  revert l1 fuel cur B N1. induction l2 as [|e l2 IH]; intros l1 fuel cur B N1 Hf Hnd HB HN He Hs Hc HQ.
  - simpl in Hs. subst cur. rewrite app_nil_r in HQ. destruct fuel; by apply wp_ret, HQ.
  - destruct fuel as [|fuel]; [simpl in Hf; lia|].
    destruct Hs as (-> & n & Hn & Hs). cbn [rehash].
    apply Forall_cons in He as [He Hel]. destruct (chain_frame_entry _ _ HN e He) as (n1 & Hn1 & Hp1 & _).
    pose proof (chain_frame_field _ _ HN nd_next (e_node e) ltac:(done)) as En.
    rewrite Hn1, Hn in En. injection En as En.
    apply wp_bind. eapply wp_get_node; [done|]. rewrite <-En in Hs.
    destruct (Hc (bucket_of (nd_prefix n1) count)) as (first & Hfirst & _); [rewrite HB; by apply bucket_lt|].
    apply wp_bind. rewrite Hfirst. apply wp_ret. apply wp_bind, wp_put_node.
    assert (Hout : (e_node e ∉ nodes_of l1)).
    { rewrite fmap_app, fmap_cons, NoDup_app in Hnd. intros Hx. destruct Hnd as (_ & H & _).
      apply (H _ Hx). set_solver. }
    apply (IH (l1 ++ [e])); [simpl in Hf; lia|by rewrite <-app_assoc|by rewrite length_insert| |done|done| |].
    + apply same_but_chain_upd; done.
    + rewrite Hp1 in Hfirst. replace (bucket_of (nd_prefix n1) count) with (bucket_of (e_key e) count) by (by rewrite Hp1).
      rewrite <-HB in Hfirst |- *. eapply chained_push;
        [exact Hc|apply lookup_insert_eq|exact Hfirst|].
      intros x Hx. rewrite lookup_insert_ne; [done|]. by intros <-.
    + intros B' N' H1 H2 H3. apply HQ; [done..|]. by rewrite <-app_assoc in H3.
Qed.

Lemma chained_empty N : chained N (replicate count None) [].
Proof.
  intros b Hb. rewrite length_replicate in Hb. exists None. by rewrite lookup_replicate_2.
Qed.
End rehash.

Lemma wp_t_calloc s (Q : bool -> eigrp_table -> Prop) :
  Q (default true (head (t_mem s))) {| s with t_mem := tail (t_mem s) |} -> wp t_calloc Q s.
Proof. unfold wp, t_calloc. destruct s as [? ? ? ? ? ? [|]]; done. Qed.

Section resize.
Context (s : eigrp_table) (l : list entry) (count : nat).
Hypothesis T : table_is s l.
Hypothesis Hcount : (0 < count)%nat.

Lemma table_is_mem m : table_is {| s with t_mem := m |} l.
Proof. destruct T. by split. Qed.

Lemma wp_resize (Q : bool -> eigrp_table -> Prop) :
  (forall r s', table_is s' l -> t_next_addr s' = t_next_addr s -> t_mem s' = tail (t_mem s) ->
     r = default true (head (t_mem s)) -> Q r s') ->
  wp (eigrp_table_resize count) Q s.
Proof.
  intros HQ. unfold eigrp_table_resize. apply wp_bind, wp_t_calloc.
  destruct (default true (head (t_mem s))) eqn:Em; cbn [negb].
  2: { apply wp_ret, HQ; [apply table_is_mem|done..]. }
  apply wp_bind, wp_gets. apply wp_bind, wp_gets. apply wp_bind.
  set (s1 := {| s with t_mem := tail (t_mem s) |}).
  pose proof (table_is_mem (tail (t_mem s))) as T1. fold s1 in T1.
  eapply (wp_rehash s1 count Hcount [] l _ _ _ (t_nodes s1)).
  - pose proof (table_nodes_size s1 l T1). lia.
  - apply T.
  - apply length_replicate.
  - apply same_but_chain_refl.
  - apply T.
  - apply T.
  - apply chained_empty.
  - intros B' N' HN HB Hc. apply wp_bind, wp_modify, wp_ret, HQ; [|done..].
    destruct T1 as [A1 A2 A3 A4 A5 A6 A7 A8 A9 A10 A11]. split; simpl; try done.
    + eapply seg_frame; [|exact A1]. intros x _. by apply (chain_frame_field _ _ HN).
    + eapply seg_frame; [|exact A2]. intros x _. by apply (chain_frame_field _ _ HN).
    + lia.
    + eapply Forall_impl; [exact A5|]. intros e. by apply chain_frame_entry.
    + intros x. rewrite (chain_frame_live _ _ HN). apply A6.
Qed.
End resize.

(** ** Insertion *)

Section link.
Context (N : gmap ptr eigrp_table_node) (x : ptr) (n : eigrp_table_node) (tl : option ptr).

(** The heap after the new node was appended to the order list. *)
Definition link_nodes : gmap ptr eigrp_table_node :=
  match tl with
  | Some t => alter (fun m => {| m with nd_next := Some x |}) t (<[x := n]> N)
  | None => <[x := n]> N
  end.

Lemma link_nodes_field {A} (f : eigrp_table_node -> A) y :
  (forall m p, f {| m with nd_next := p |} = f m) -> y <> x ->
  f <$> link_nodes !! y = f <$> N !! y.
Proof.
  intros Hf Hy. unfold link_nodes. destruct tl as [t|]; [|by rewrite lookup_insert_ne].
  rewrite lookup_alter. case_decide as E; [subst y|]; rewrite lookup_insert_ne by done; [|done].
  destruct (N !! t) as [m|]; simpl; [|done]. f_equal. apply Hf.
Qed.

Lemma link_nodes_other y : y <> x -> tl <> Some y -> link_nodes !! y = N !! y.
Proof.
  intros Hy Ht. unfold link_nodes. destruct tl as [t|]; [rewrite lookup_alter_ne by congruence|];
    by rewrite lookup_insert_ne.
Qed.

Hypothesis Hx : N !! x = None.
Hypothesis Htl : forall t, tl = Some t -> is_Some (N !! t).

Lemma link_tail_ne t : tl = Some t -> t <> x.
Proof. intros E ->. destruct (Htl x E). congruence. Qed.

Lemma link_nodes_new : link_nodes !! x = Some n.
Proof.
  pose proof link_tail_ne as Hne. unfold link_nodes.
  destruct tl as [t|] eqn:E; [|by rewrite lookup_insert_eq].
  rewrite lookup_alter_ne by (by apply Hne). by rewrite lookup_insert_eq.
Qed.

Lemma link_nodes_next t m :
  tl = Some t -> N !! t = Some m -> link_nodes !! t = Some {| m with nd_next := Some x |}.
Proof.
  intros E Hm. unfold link_nodes. rewrite E, lookup_alter_eq.
  rewrite lookup_insert_ne by (symmetry; by apply link_tail_ne). by rewrite Hm.
Qed.

Lemma link_nodes_live y : is_Some (link_nodes !! y) <-> y = x \/ is_Some (N !! y).
Proof.
  destruct (decide (y = x)) as [->|Hy].
  - rewrite link_nodes_new. split; [by left|by eexists].
  - pose proof (link_nodes_field (fun _ => tt) y ltac:(done) Hy) as E.
    destruct (link_nodes !! y), (N !! y); simpl in E; naive_solver.
Qed.

Lemma link_nodes_entry e : e_node e <> x -> entry_at N e -> entry_at link_nodes e.
Proof.
  intros Hne (m & Hm & Hp & Hi). unfold entry_at.
  pose proof (link_nodes_field (fun m => (nd_prefix m, nd_info m)) (e_node e) ltac:(done) Hne) as E.
  rewrite Hm in E. apply fmap_Some in E as (m' & Hm' & E).
  injection E as E1 E2. exists m'. split; [done|]. split; congruence.
Qed.
End link.

Lemma insert_as_alter (N : gmap ptr eigrp_table_node) x m (f : eigrp_table_node -> eigrp_table_node) :
  N !! x = Some m -> <[x := f m]> N = alter f x N.
Proof.
  intros H. apply map_eq. intros y. rewrite lookup_insert, lookup_alter.
  case_decide; subst; [|done]. by rewrite H.
Qed.

Section append.
Context (s : eigrp_table) (l : list entry) (key : eigrp_prefix) (first : option ptr).
Hypothesis T : table_is s l.
Hypothesis Hk : canonical key.
Hypothesis Hnew : (key ∉ e_key <$> l).
Abbreviation x := (t_next_addr s).
Abbreviation bucket := (bucket_of key (length (t_buckets s))).
Hypothesis Hfirst : t_buckets s !! bucket = Some first.
Hypothesis Hroom : Z.of_nat (length l) < 2 ^ 64 - 1.

Definition new_entry : entry := {| e_node := x; e_key := key; e_info := None |}.
Definition new_node : eigrp_table_node :=
  {| nd_next := None; nd_previous := t_tail s; nd_hash_next := first;
     nd_prefix := key; nd_info := None |}.
Abbreviation N' := (link_nodes (t_nodes s) x new_node (t_tail s)).

Definition appended_table : eigrp_table :=
  {| s with t_head := (match t_tail s with None => Some x | Some _ => t_head s end);
            t_tail := Some x; t_buckets := <[bucket := Some x]> (t_buckets s);
            t_size := t_size s + 1; t_nodes := N'; t_next_addr := S x |}.

Lemma fresh_entry e : e ∈ l -> e_node e <> x.
Proof. intros He. pose proof (proj1 (Forall_forall _ l) (ti_fresh _ _ T) e He). simpl in *. lia. Qed.

Lemma fresh_ptr y : y ∈ nodes_of l -> y <> x.
Proof. intros (e & -> & He)%list_elem_of_fmap. by apply fresh_entry. Qed.

Lemma fresh_none : t_nodes s !! x = None.
Proof.
  destruct (t_nodes s !! x) eqn:E; [|done]. exfalso.
  apply (fresh_ptr x); [|done]. apply T. by eexists.
Qed.

Lemma tail_live t : t_tail s = Some t -> is_Some (t_nodes s !! t).
Proof.
  intros E. eapply seg_live; [apply (ti_prev _ _ T)|]. pose proof (seg_head _ _ _ _ _ (ti_prev _ _ T)) as H.
  destruct (reverse (nodes_of l)) as [|y r] eqn:Er; [congruence|]. rewrite E in H.
  injection H as ->. apply elem_of_cons. by left.
Qed.

Lemma append_order : seg nd_next N' (t_head appended_table) (nodes_of l ++ [x]) None.
Proof.
  apply seg_snoc. split; [|exists new_node; split; [|done]; apply link_nodes_new;
    [apply fresh_none|apply tail_live]].
  pose proof (ti_next _ _ T) as Hn. pose proof (ti_prev _ _ T) as Hp. cbn [t_head appended_table].
  pose proof (ti_nodup _ _ T) as Hnd. pose proof fresh_ptr as Hfr.
  pose proof (link_nodes_next (t_nodes s) x new_node (t_tail s) fresh_none tail_live) as Hlink.
  destruct l as [|e0 l0 _] using rev_ind.
  - simpl in Hp. rewrite Hp. done.
  - rewrite fmap_app in *. simpl in *. rewrite reverse_app in Hp. simpl in Hp.
    destruct Hp as (Et & m & Hm & _). rewrite Et in Hlink |- *.
    rewrite seg_snoc in Hn |- *. destruct Hn as (Hn & _). split.
    + eapply seg_frame; [|exact Hn]. intros y Hy. rewrite link_nodes_other; [done| |].
      * apply Hfr. set_solver.
      * intros [= <-]. apply NoDup_app in Hnd as (_ & H & _). apply (H _ Hy). set_solver.
    + eexists. split; [by apply Hlink|done].
Qed.

Lemma append_is : table_is appended_table (l ++ [new_entry]).
Proof.
  pose proof fresh_none as Hx. pose proof tail_live as Ht.
  assert (Ex : nodes_of (l ++ [new_entry]) = nodes_of l ++ [x]) by by rewrite fmap_app.
  split.
  - rewrite Ex. apply append_order.
  - rewrite Ex, reverse_app. simpl. split; [done|]. exists new_node. split; [by apply link_nodes_new|].
    eapply seg_frame; [|apply (ti_prev _ _ T)]. intros y Hy. rewrite elem_of_reverse in Hy.
    apply link_nodes_field; [done|by apply fresh_ptr].
  - apply (chained_push (t_nodes s) N' (t_buckets s) l new_entry new_node);
      [apply T|by apply link_nodes_new|exact Hfirst|].
    intros y Hy. apply link_nodes_field; [done|by apply fresh_ptr].
  - simpl. rewrite length_insert. apply T.
  - apply Forall_app. split; [|apply Forall_singleton; exists new_node; split;
      [by apply link_nodes_new|done]].
    apply Forall_forall. intros e He. apply link_nodes_entry; [by apply fresh_entry|].
    by apply (proj1 (Forall_forall _ l) (ti_entry _ _ T)).
  - intros y. rewrite Ex. simpl. rewrite link_nodes_live by done. rewrite (ti_dom _ _ T). set_solver.
  - rewrite Ex. apply NoDup_app. split; [apply T|]. split; [|apply NoDup_singleton].
    intros y Hy ->%list_elem_of_singleton. by apply (fresh_ptr x).
  - rewrite fmap_app. apply NoDup_app. split; [apply T|]. split; [|apply NoDup_singleton].
    intros y Hy ->%list_elem_of_singleton. done.
  - apply Forall_app. split; [apply T|by apply Forall_singleton].
  - simpl. rewrite (ti_size _ _ T), length_app. simpl. lia.
  - apply Forall_app. split; [|apply Forall_singleton; simpl; lia].
    eapply Forall_impl; [apply (ti_fresh _ _ T)|]. simpl. intros. lia.
Qed.
End append.

Section insert.
Context (p : eigrp_prefix).
Hypothesis Hp : prefix_wf p.
Hypothesis Hv : eigrp_prefix_valid p = true.
Abbreviation key := (eigrp_prefix_normalize p).

(** The part of [eigrp_table_node_lookup_or_create] from the node's allocation on. *)
Lemma wp_append s l (Q : option ptr -> eigrp_table -> Prop) :
  table_is s l -> (key ∉ e_key <$> l) -> Z.of_nat (length l) < 2 ^ 64 - 1 ->
  (forall first, t_buckets s !! bucket_of key (length (t_buckets s)) = Some first ->
     Q (Some (t_next_addr s)) (appended_table s key first)) ->
  wp (x ← gets t_next_addr;
      modify (fun s => {| s with t_next_addr := S x |});;
      count ← gets (fun s => length (t_buckets s));
      (if (count =? 0)%nat then ub else mret tt);;
      first ← get_bucket (bucket_of key count);
      tail ← gets t_tail;
      put_node x {| nd_next := None; nd_previous := tail; nd_hash_next := first;
                    nd_prefix := key; nd_info := None |};;
      set_bucket (bucket_of key count) (Some x);;
      (match tail with
       | Some t => upd_node t (fun n => {| n with nd_next := Some x |})
       | None => modify (fun s => {| s with t_head := Some x |})
       end);;
      modify (fun s => {| s with t_tail := Some x; t_size := u64 (t_size s + 1) |});;
      mret (Some x)) Q s.
Proof.
  intros T Hnew Hroom HQ. pose proof (ti_count _ _ T) as Hc.
  destruct (ti_chain _ _ T (bucket_of key (length (t_buckets s)))) as (first & Hfirst & _);
    [by apply bucket_lt|].
  assert (Hsz : u64 (t_size s + 1) = t_size s + 1).
  { rewrite (ti_size _ _ T). apply u64_small. lia. }
  specialize (HQ first Hfirst). unfold appended_table, link_nodes in HQ.
  apply wp_bind, wp_gets. apply wp_bind, wp_modify. apply wp_bind, wp_gets. cbn [t_buckets].
  apply wp_bind. rewrite (proj2 (Nat.eqb_neq _ 0)) by lia. apply wp_ret.
  apply wp_bind. unfold get_bucket. apply wp_bind, wp_gets. cbn [t_buckets]. rewrite Hfirst. apply wp_ret.
  apply wp_bind, wp_gets. apply wp_bind, wp_put_node. apply wp_bind, wp_modify.
  apply wp_bind. cbn [t_tail t_nodes] in *. destruct (t_tail s) as [t|] eqn:Et.
  - destruct (tail_live s l T t Et) as [m Hm].
    assert (Hne : t_next_addr s <> t) by (intros <-; rewrite (fresh_none s l T) in Hm; done).
    eapply wp_upd_node; cbn [t_nodes]; [by rewrite lookup_insert_ne|].
    rewrite (insert_as_alter _ _ m (fun n => {| n with nd_next := _ |})) by (by rewrite lookup_insert_ne).
    apply wp_bind, wp_modify, wp_ret. cbn [t_size]. rewrite Hsz. unfold new_node in HQ. rewrite Et in HQ.
    exact HQ.
  - apply wp_modify, wp_bind, wp_modify, wp_ret. cbn [t_size]. rewrite Hsz.
    unfold new_node in HQ. rewrite Et in HQ. exact HQ.
Qed.

Lemma wp_table_insert s l (Q : option ptr -> eigrp_table -> Prop) :
  table_is s l -> Z.of_nat (length l) < 2 ^ 64 - 1 ->
  (forall x, spec_find key l = Some x -> Q (Some x) s) ->
  (spec_find key l = None ->
     (forall s', false ∈ t_mem s -> table_is s' l -> Q None s')
     /\ forall s', table_is s' (l ++ [{| e_node := t_next_addr s; e_key := key; e_info := None |}]) ->
          Q (Some (t_next_addr s)) s') ->
  wp (eigrp_table_node_lookup_or_create p) Q s.
Proof.
  intros T Hroom Hfound Hnone. unfold eigrp_table_node_lookup_or_create. rewrite Hv. cbn [negb].
  apply wp_bind. apply (wp_table_lookup s l T); [done|]. unfold spec_lookup. rewrite Hv.
  destruct (spec_find key l) as [x|] eqn:E; [by apply wp_ret, Hfound|]. specialize (Hnone eq_refl).
  destruct Hnone as [Hoom Hok].
  apply wp_bind, wp_gets. apply wp_bind, wp_gets. apply wp_bind.
  apply wp_mono with (P := fun _ s1 => table_is s1 l /\ t_next_addr s1 = t_next_addr s
                             /\ (t_mem s1 = t_mem s \/ t_mem s1 = tail (t_mem s))).
  { destruct (_ && _); [|by apply wp_ret; auto].
    apply (wp_resize s l _ T); [pose proof (ti_count _ _ T); lia|]. auto. }
  intros _ s1 (T1 & Ex & Hm). apply wp_bind, wp_t_calloc.
  set (s2 := {| s1 with t_mem := tail (t_mem s1) |}).
  pose proof (table_is_mem s1 l T1 (tail (t_mem s1))) as T2. fold s2 in T2.
  destruct (head (t_mem s1)) as [[]|] eqn:Eh; cbn [default from_option negb id].
  2: { apply wp_ret, Hoom; [|done]. destruct (t_mem s1) as [|b m] eqn:Em; [done|].
       injection Eh as ->. destruct Hm as [<-|Hm]; [set_solver|].
       destruct (t_mem s); simpl in Hm; [done|]. subst. set_solver. }
  all: apply (wp_append s2 l); [done|by apply spec_find_none|done|]; intros first Hfirst.
  all: change (t_next_addr s2) with (t_next_addr s1); rewrite Ex; apply Hok.
  all: rewrite <-Ex; change (t_next_addr s1) with (t_next_addr s2).
  all: apply append_is; [done|by apply normalize_is_canonical|by apply spec_find_none|done..].
Qed.
End insert.

(** ** Removal *)

(** An assignment through a pointer that may be the list's own head. *)
Definition relink (g : eigrp_table_node -> eigrp_table_node) (o : option ptr)
    (N : gmap ptr eigrp_table_node) : gmap ptr eigrp_table_node :=
  match o with Some q => alter g q N | None => N end.

Section relinked.
Context (g : eigrp_table_node -> eigrp_table_node) (o : option ptr) (N : gmap ptr eigrp_table_node).

Lemma relink_field {A} (f : eigrp_table_node -> A) y :
  (forall m, f (g m) = f m) -> f <$> relink g o N !! y = f <$> N !! y.
Proof.
  intros Hf. unfold relink. destruct o as [q|]; [|done]. rewrite lookup_alter.
  case_decide; [subst q|done]. destruct (N !! y); simpl; [|done]. by rewrite Hf.
Qed.

Lemma relink_other y : o <> Some y -> relink g o N !! y = N !! y.
Proof. intros H. unfold relink. destruct o; [|done]. apply lookup_alter_ne. congruence. Qed.

Lemma relink_live y : is_Some (relink g o N !! y) <-> is_Some (N !! y).
Proof.
  pose proof (relink_field (fun _ => tt) y ltac:(done)) as E.
  destruct (relink g o N !! y), (N !! y); simpl in E; naive_solver.
Qed.
End relinked.

Lemma last_of_snoc (l : list ptr) q : last l = Some q -> exists l', l = l' ++ [q].
Proof. intros H. apply last_Some in H. done. Qed.

(** A node taken out of a segment. *)
Lemma seg_unlink f g N p l1 x l2 n :
  (forall m, f (g m) = f n) -> NoDup (l1 ++ x :: l2) -> N !! x = Some n ->
  seg f N p (l1 ++ x :: l2) None ->
  seg f (relink g (last l1) N) (match last l1 with None => f n | Some _ => p end) (l1 ++ l2) None
  /\ f n = head l2.
Proof.
  intros Hg Hnd Hn (r & H1 & -> & n' & Hn' & H2)%seg_app. rewrite Hn in Hn'. injection Hn' as <-.
  split; [|by apply (seg_first_none f N)].
  destruct (last l1) as [q|] eqn:El.
  - apply last_of_snoc in El as (l' & ->). simpl.
    assert (Hq : (q ∉ l') /\ (q ∉ l2)).
    { rewrite <-app_assoc in Hnd. apply NoDup_app in Hnd as (_ & Ha & Hb).
      split; [intros Hq; apply (Ha q Hq); set_solver|].
      simpl in Hb. apply NoDup_cons in Hb as [Hb _]. set_solver. }
    pose proof H1 as (_ & m & Hm & _)%seg_snoc.
    rewrite <-(insert_as_alter N q m g Hm). apply seg_app. exists (f (g m)). split.
    + apply (seg_relink f N p l' q (Some x) (g m)); [done|apply Hq].
    + rewrite Hg. eapply seg_frame; [|exact H2]. intros y Hy. rewrite lookup_insert_ne; [done|].
      intros <-. by apply Hq.
  - apply last_None in El as ->. simpl. done.
Qed.

Section unlink_chain.
Context (s : eigrp_table) (b : nat) (x : ptr) (n : eigrp_table_node).
Hypothesis Hn : t_nodes s !! x = Some n.

Definition set_hash_next (r : option ptr) (m : eigrp_table_node) : eigrp_table_node :=
  {| m with nd_hash_next := r |}.

Lemma wp_chain_unlink pre c1 c2 fuel cur (Q : bool -> eigrp_table -> Prop) :
  (length c1 < fuel)%nat -> (x ∉ c1) ->
  seg nd_hash_next (t_nodes s) cur (c1 ++ x :: c2) None ->
  (forall q, q ∈ pre -> is_Some (t_nodes s !! q)) ->
  Q true {| s with t_buckets := (match last (pre ++ c1) with
                                 | None => <[b := nd_hash_next n]> (t_buckets s)
                                 | Some _ => t_buckets s end);
                   t_nodes := relink (set_hash_next (nd_hash_next n)) (last (pre ++ c1)) (t_nodes s) |} ->
  wp (chain_unlink fuel b (last pre) cur x) Q s.
Proof.
  revert pre fuel cur. induction c1 as [|y c1 IH]; intros pre fuel cur Hf Hx Hs Hpre HQ.
  - destruct fuel as [|fuel]; [simpl in Hf; lia|]. destruct Hs as (-> & n' & Hn' & _).
    rewrite Hn in Hn'. injection Hn' as <-. rewrite app_nil_r in HQ.
    cbn [chain_unlink]. apply wp_bind. eapply wp_get_node; [done|]. rewrite Nat.eqb_refl.
    apply wp_bind. destruct (last pre) as [q|] eqn:El.
    + destruct (Hpre q) as [m Hm]; [apply last_of_snoc in El as (l' & ->); set_solver|].
      eapply wp_upd_node; [exact Hm|]. apply wp_ret.
      rewrite (insert_as_alter _ q m (fun m => {| m with nd_hash_next := nd_hash_next n |})) by done.
      simpl in HQ. destruct s; exact HQ.
    + unfold set_bucket. apply wp_modify, wp_ret. destruct s. exact HQ.
  - destruct fuel as [|fuel]; [simpl in Hf; lia|]. destruct Hs as (-> & m & Hm & Hs).
    cbn [chain_unlink]. apply wp_bind. eapply wp_get_node; [done|].
    rewrite (proj2 (Nat.eqb_neq y x)) by set_solver.
    replace (Some y) with (last (pre ++ [y])) by (by rewrite last_snoc).
    apply IH; [simpl in Hf; lia|set_solver|done| |by rewrite <-app_assoc].
    intros q Hq. rewrite elem_of_app, list_elem_of_singleton in Hq. destruct Hq as [Hq| ->]; eauto.
Qed.
End unlink_chain.

Section remove.
Context (s : eigrp_table) (l1 l2 : list entry) (e : entry) (n : eigrp_table_node).
Abbreviation l := (l1 ++ e :: l2).
Abbreviation x := (e_node e).
Hypothesis T : table_is s l.
Hypothesis Hn : t_nodes s !! x = Some n.
Abbreviation count := (length (t_buckets s)).
Abbreviation b0 := (bucket_of (e_key e) count).
Abbreviation before := (last (chain count b0 l2)).

Definition set_next (r : option ptr) (m : eigrp_table_node) : eigrp_table_node :=
  {| m with nd_next := r |}.
Definition set_previous (r : option ptr) (m : eigrp_table_node) : eigrp_table_node :=
  {| m with nd_previous := r |}.

Definition unchained : gmap ptr eigrp_table_node :=
  relink (set_hash_next (nd_hash_next n)) before (t_nodes s).
Definition unlinked : gmap ptr eigrp_table_node :=
  relink (set_previous (nd_previous n)) (nd_next n)
    (relink (set_next (nd_next n)) (nd_previous n) unchained).

Definition removed_table : eigrp_table :=
  {| s with t_buckets := (match before with
                          | None => <[b0 := nd_hash_next n]> (t_buckets s)
                          | Some _ => t_buckets s end);
            t_head := (match nd_previous n with None => nd_next n | Some _ => t_head s end);
            t_tail := (match nd_next n with None => nd_previous n | Some _ => t_tail s end);
            t_size := t_size s - 1;
            t_nodes := delete x unlinked |}.

Lemma remove_key : nd_prefix n = e_key e.
Proof.
  destruct (node_entry _ l e (ti_entry _ _ T)) as (n' & Hn' & Hp & _); [set_solver|]. congruence.
Qed.

Lemma remove_nodup : NoDup (nodes_of l1 ++ x :: nodes_of l2).
Proof. pose proof (ti_nodup _ _ T) as H. by rewrite fmap_app in H. Qed.

Lemma remove_out y : y ∈ nodes_of (l1 ++ l2) -> y <> x.
Proof.
  intros Hy ->. pose proof remove_nodup as (_ & Ha & Hb%NoDup_cons)%NoDup_app.
  rewrite fmap_app in Hy. apply elem_of_app in Hy as [Hy|Hy]; [apply (Ha _ Hy)|]; set_solver.
Qed.

Lemma remove_order :
  seg nd_next (relink (set_next (nd_next n)) (last (nodes_of l1)) (t_nodes s))
    (match last (nodes_of l1) with None => nd_next n | Some _ => t_head s end)
    (nodes_of l1 ++ nodes_of l2) None
  /\ nd_next n = head (nodes_of l2).
Proof.
  apply (seg_unlink nd_next _ _ _ _ x); [done|apply remove_nodup|done|].
  pose proof (ti_next _ _ T) as H. by rewrite fmap_app in H.
Qed.

Lemma remove_back :
  seg nd_previous (relink (set_previous (nd_previous n)) (head (nodes_of l2)) (t_nodes s))
    (match head (nodes_of l2) with None => nd_previous n | Some _ => t_tail s end)
    (reverse (nodes_of l1 ++ nodes_of l2)) None
  /\ nd_previous n = last (nodes_of l1).
Proof.
  pose proof (ti_prev _ _ T) as H. rewrite fmap_app, fmap_cons, reverse_app, reverse_cons, <-app_assoc in H.
  rewrite reverse_app, <-head_reverse. rewrite <-(last_reverse (nodes_of l2)).
  apply (seg_unlink nd_previous _ _ _ _ x); [done| |done|done].
  pose proof remove_nodup as Hnd. rewrite <-reverse_Permutation in Hnd.
  by rewrite reverse_app, reverse_cons, <-app_assoc in Hnd.
Qed.

Lemma remove_chain :
  seg nd_hash_next unchained (match before with
                              | None => nd_hash_next n
                              | Some _ => default None (t_buckets s !! b0) end)
    (chain count b0 (l1 ++ l2)) None.
Proof.
  destruct (ti_chain _ _ T b0) as (first & Hfirst & Hs); [apply bucket_lt, T|].
  rewrite chain_app. rewrite Hfirst. simpl.
  pose proof (chain_nodup count b0 l (ti_nodup _ _ T)) as Hnd.
  replace l with (l1 ++ [e] ++ l2) in Hs, Hnd by done.
  rewrite !chain_app, chain_single, decide_True, <-app_assoc in Hs, Hnd by done.
  by apply (seg_unlink nd_hash_next _ _ _ _ x).
Qed.

(** Fields other than the three links survive everywhere else. *)
Lemma unlinked_field {A} (f : eigrp_table_node -> A) y :
  (forall m r, f (set_next r m) = f m) -> (forall m r, f (set_previous r m) = f m) ->
  (forall m r, f (set_hash_next r m) = f m) ->
  f <$> unlinked !! y = f <$> t_nodes s !! y.
Proof. intros. unfold unlinked, unchained. by rewrite !relink_field. Qed.

(** One link of the final heap: the other two assignments and the deletion keep it. *)
Lemma removed_seg f N p c :
  (forall y, f <$> unlinked !! y = f <$> N !! y) -> (x ∉ c) ->
  seg f N p c None -> seg f (delete x unlinked) p c None.
Proof.
  intros HN Hx. apply seg_frame. intros y Hy. rewrite lookup_delete_ne; [apply HN|]. by intros <-.
Qed.

Lemma unlinked_hash y : nd_hash_next <$> unlinked !! y = nd_hash_next <$> unchained !! y.
Proof. unfold unlinked. by rewrite !relink_field. Qed.

Lemma chain_out b : (x ∉ chain count b (l1 ++ l2)).
Proof.
  intros (e' & He' & Ex & _)%chain_elem. apply (remove_out x); [|done]. rewrite <-Ex.
  by apply list_elem_of_fmap_2.
Qed.

(** The other chains do not contain the node whose link was redirected. *)
Lemma other_chain b y : b <> b0 -> y ∈ chain count b (l1 ++ l2) -> before <> Some y.
Proof.
  intros Hb (e1 & H1 & <- & E1)%chain_elem [c' Hc]%last_of_snoc.
  assert (H2 : e_node e1 ∈ chain count b0 l2) by (rewrite Hc; set_solver).
  apply chain_elem in H2 as (e2 & H2 & E2 & E3). apply Hb. rewrite <-E1, <-E3.
  do 2 f_equal. eapply entry_inj; [apply T| | |done]; set_solver.
Qed.

Lemma removed_chained : chained (delete x unlinked) (t_buckets removed_table) (l1 ++ l2).
Proof.
  assert (Hlen : length (t_buckets removed_table) = count).
  { simpl. destruct before; by rewrite ?length_insert. }
  intros b Hb. rewrite Hlen in Hb |- *. destruct (decide (b = b0)) as [->|Hne].
  - destruct (ti_chain _ _ T b0 Hb) as (first & Hfirst & _). pose proof remove_chain as Hs.
    eexists. split; [|eapply removed_seg; [apply unlinked_hash|apply chain_out|exact Hs]].
    simpl. rewrite Hfirst. destruct before; [done|]. by apply list_lookup_insert_eq.
  - destruct (ti_chain _ _ T b Hb) as (first & Hfirst & Hs). exists first. split.
    + simpl. destruct before; [done|]. by rewrite list_lookup_insert_ne.
    + assert (Ec : chain count b l = chain count b (l1 ++ l2)).
      { change l with (l1 ++ [e] ++ l2). rewrite !chain_app, chain_single, decide_False by done.
        by rewrite app_nil_r. }
      rewrite Ec in Hs. eapply seg_frame; [|exact Hs]. intros y Hy.
      rewrite lookup_delete_ne by (intros <-; by apply (chain_out b)).
      rewrite unlinked_hash. unfold unchained. rewrite relink_other; [done|]. by apply (other_chain b).
Qed.

Lemma removed_is : table_is removed_table (l1 ++ l2).
Proof.
  destruct remove_order as [Ho En]. destruct remove_back as [Hb Ep]. pose proof remove_out as Hout.
  assert (Hsub : forall P, Forall P l -> Forall P (l1 ++ l2)).
  { intros P. rewrite !Forall_app, Forall_cons. naive_solver. }
  assert (Hx : (x ∉ nodes_of (l1 ++ l2))) by (intros Hy; by apply (Hout _ Hy)).
  split.
  - rewrite fmap_app in *. simpl. rewrite Ep.
    eapply removed_seg; [|done|exact Ho]. intros y. unfold unlinked, unchained.
    rewrite relink_field by done. rewrite Ep. unfold relink at 1 3.
    destruct (last (nodes_of l1)); [|by rewrite relink_field].
    rewrite !lookup_alter. case_decide; [subst|]; [|by rewrite relink_field].
    pose proof (relink_field (set_hash_next (nd_hash_next n)) before (t_nodes s) (fun _ => tt) y ltac:(done)) as E.
    destruct (relink _ _ _ !! y), (t_nodes s !! y); simpl in *; done.
  - rewrite fmap_app in *. simpl. rewrite En.
    eapply removed_seg; [|by rewrite elem_of_reverse|exact Hb]. intros y. unfold unlinked, unchained.
    rewrite En. unfold relink at 1 4.
    destruct (head (nodes_of l2)); [|by rewrite !relink_field].
    rewrite !lookup_alter. case_decide; [subst|]; [|by rewrite !relink_field].
    match goal with |- context [relink ?g1 ?o1 (relink ?g2 ?o2 ?N) !! ?y] =>
      pose proof (relink_field g1 o1 (relink g2 o2 N) (fun _ => tt) y ltac:(done)) as E;
      rewrite (relink_field g2 o2 N (fun _ => tt) y ltac:(done)) in E end.
    destruct (relink _ _ (relink _ _ _) !! y), (t_nodes s !! y); simpl in *; done.
  - apply removed_chained.
  - simpl. destruct before; [|rewrite length_insert]; apply T.
  - apply Forall_forall. intros e' He'. pose proof (Hsub _ (ti_entry _ _ T)) as Hent.
    rewrite Forall_forall in Hent. destruct (Hent e' He') as (m & Hm & Hp & Hi). unfold entry_at. simpl.
    rewrite lookup_delete_ne by (intros E; apply Hx; rewrite E; by apply list_elem_of_fmap_2).
    pose proof (unlinked_field (fun m => (nd_prefix m, nd_info m)) (e_node e') ltac:(done) ltac:(done) ltac:(done)) as E.
    rewrite Hm in E. apply fmap_Some in E as (m' & Hm' & E). injection E as E1 E2.
    exists m'. split; [done|]. split; congruence.
  - intros y. simpl. rewrite lookup_delete_is_Some. unfold unlinked, unchained. rewrite !relink_live.
    rewrite (ti_dom _ _ T), !fmap_app, fmap_cons, !elem_of_app, elem_of_cons.
    rewrite fmap_app, elem_of_app in Hx. split; [naive_solver|]. intros Hy. split; [|naive_solver]. by intros <-.
  - rewrite fmap_app. pose proof remove_nodup as H. rewrite <-Permutation_middle in H. by inversion H.
  - pose proof (ti_keys _ _ T) as H. rewrite fmap_app, fmap_cons, <-Permutation_middle in H.
    rewrite fmap_app. by inversion H.
  - apply Hsub, T.
  - simpl. rewrite (ti_size _ _ T), !length_app. simpl. lia.
  - apply Hsub, T.
Qed.
End remove.

Lemma wp_relink o g h s (Q : unit -> eigrp_table -> Prop) :
  (forall q, o = Some q -> is_Some (t_nodes s !! q)) ->
  Q tt (match o with Some _ => {| s with t_nodes := relink g o (t_nodes s) |} | None => h s end) ->
  wp (match o with Some q => upd_node q g | None => modify h end) Q s.
Proof.
  intros Ho HQ. destruct o as [q|]; [|done]. destruct (Ho q eq_refl) as [m Hm].
  eapply wp_upd_node; [done|]. by rewrite (insert_as_alter _ q m g).
Qed.

Lemma wp_table_remove s l1 l2 e (Q : unit -> eigrp_table -> Prop) :
  table_is s (l1 ++ e :: l2) -> (forall s', table_is s' (l1 ++ l2) -> Q tt s') ->
  wp (eigrp_table_node_remove (e_node e)) Q s.
Proof.
  intros T HQ. pose proof (ti_count _ _ T) as Hc.
  destruct (node_entry _ _ e (ti_entry _ _ T)) as (n & Hn & Hp & _); [set_solver|].
  specialize (HQ _ (removed_is s l1 l2 e n T Hn)).
  destruct (remove_order s l1 l2 e n T Hn) as [_ En]. destruct (remove_back s l1 l2 e n T Hn) as [_ Ep].
  unfold eigrp_table_node_remove. apply wp_bind, wp_gets. rewrite (proj2 (Nat.eqb_neq _ 0)) by lia.
  apply wp_bind. eapply wp_get_node; [done|]. rewrite Hp.
  set (count := length (t_buckets s)) in *. set (b0 := bucket_of (e_key e) count) in *.
  destruct (ti_chain _ _ T b0) as (first & Hfirst & Hs); [by apply bucket_lt|]. fold count in Hs.
  apply wp_bind. unfold get_bucket. apply wp_bind, wp_gets. rewrite Hfirst. apply wp_ret.
  apply wp_bind, wp_gets. apply wp_bind.
  pose proof (chain_nodup count b0 _ (ti_nodup _ _ T)) as Hnd.
  change (l1 ++ e :: l2) with (l1 ++ [e] ++ l2) in Hs, Hnd.
  rewrite !chain_app, chain_single, decide_True, <-app_assoc in Hs, Hnd by done.
  assert (Hx : (e_node e ∉ chain count b0 l2)).
  { apply NoDup_app in Hnd as (_ & H & _). intros Hx. apply (H _ Hx). set_solver. }
  change (None : option ptr) with (last ([] : list ptr)).
  eapply (wp_chain_unlink s b0 (e_node e) n Hn [] (chain count b0 l2)); [|done|exact Hs|set_solver|].
  { rewrite (table_nodes_size s _ T), length_app. simpl. pose proof (chain_length count b0 l2). lia. }
  cbn [negb app]. fold (unchained s l2 e n).
  assert (Hbx : last (chain count b0 l2) <> Some (e_node e)).
  { intros (c' & Ec)%last_of_snoc. apply Hx. rewrite Ec. set_solver. }
  apply wp_bind. eapply wp_get_node; [cbn [t_nodes]; unfold unchained; rewrite relink_other by done; exact Hn|].
  assert (Hlive : forall y, y ∈ nodes_of (l1 ++ l2) -> is_Some (t_nodes s !! y)).
  { intros y Hy. apply (ti_dom _ _ T). rewrite fmap_app in *. set_solver. }
  assert (Hprev : forall q, nd_previous n = Some q -> is_Some (t_nodes s !! q)).
  { rewrite Ep. intros q (c' & Ec)%last_of_snoc. apply Hlive. rewrite fmap_app, Ec. set_solver. }
  assert (Hnext : forall q, nd_next n = Some q -> is_Some (t_nodes s !! q)).
  { rewrite En. intros q Hq. apply Hlive. rewrite fmap_app.
    destruct (nodes_of l2); [done|]. injection Hq as ->. set_solver. }
  assert (Hsz : (t_size s =? 0) = false).
  { rewrite (ti_size _ _ T), length_app. simpl. apply Z.eqb_neq. lia. }
  unfold removed_table, unlinked in HQ. fold count b0 in HQ.
  apply wp_bind, wp_relink; cbn [t_nodes]; [intros q Hq; unfold unchained; rewrite relink_live; by apply Hprev|].
  apply wp_bind, wp_relink; [intros q Hq; destruct (nd_previous n); cbn [t_nodes];
    unfold unchained; rewrite ?relink_live; by apply Hnext|].
  apply wp_bind, wp_modify, wp_modify.
  destruct (nd_previous n), (nd_next n); cbn [t_size t_nodes t_head t_tail t_buckets t_next_addr t_mem relink] in *;
    rewrite Hsz; exact HQ.
Qed.

(** ** Longest-prefix match *)

Definition covers (k p : eigrp_prefix) : Prop :=
  prefix_length k <= prefix_length p /\ eigrp_prefix_address_match k (address p) = true.

Definition shortened (p : eigrp_prefix) (bitlen : Z) : eigrp_prefix :=
  {| p with prefix_length := bitlen |}.

Section covering.
Context (p : eigrp_prefix).
Hypothesis Hp : prefix_wf p.
Hypothesis Hv : eigrp_prefix_valid p = true.

Lemma shortened_ok len :
  0 <= len <= prefix_length p ->
  prefix_wf (shortened p len) /\ eigrp_prefix_valid (shortened p len) = true.
Proof.
  intros H. destruct Hp as [Ha _]. split; [by split; simpl; [|lia]|].
  unfold eigrp_prefix_valid in *. simpl.
  destruct (_ =? EIGRP_AFI_IPV4); [|destruct (_ =? EIGRP_AFI_IPV6); [|done]];
    apply Z.leb_le in Hv; apply Z.leb_le; lia.
Qed.

(** A canonical key covers the prefix exactly when a probe of its length finds it. *)
Lemma covers_key k :
  canonical k -> prefix_length k <= prefix_length p ->
  eigrp_prefix_address_match k (address p) = true
  <-> k = eigrp_prefix_normalize (shortened p (prefix_length k)).
Proof.
  intros [Wk Vk Nk] Hle. pose proof Wk as [Ak Lk]. pose proof Hp as [Ap _].
  destruct (shortened_ok (prefix_length k) ltac:(lia)) as [Wc Vc].
  rewrite address_match_bits by done.
  destruct (normalize_same_length _ Wc Vc) as (E1 & E2 & E3).
  pose proof (normalize_wf _ Wc Vc) as [[_ Bc] _].
  split.
  - intros [Ea Hb]. assert (E : bytes (address k) = bytes (address (eigrp_prefix_normalize (shortened p (prefix_length k))))).
    { apply bytes_ext; [apply Ak|done|apply Ak|done|]. intros i Hi. rewrite <-Nk at 1.
      rewrite !normalize_bits by done. simpl. destruct (Nat.ltb_spec i (Z.to_nat (prefix_length k))); [|done].
      simpl. by apply Hb. }
    destruct (eigrp_prefix_normalize (shortened p (prefix_length k))) as [[ca cb] cl], k as [[ka kb] kl].
    simpl in *. by subst.
  - intros E. split; [rewrite E; by rewrite E2|]. intros i Hi.
    rewrite E at 1. rewrite normalize_bits; [|done|done|].
    + simpl. by rewrite (proj2 (Nat.ltb_lt _ _) Hi).
    + destruct (prefix_shape k Wk Vk) as (_ & _ & Hlen & H16 & _). lia.
Qed.

Context (s : eigrp_table) (l : list entry).
Hypothesis T : table_is s l.

(** What the probes of lengths [0] to [k - 1] find. *)
Definition best_cover (k : nat) (r : option ptr) : Prop :=
  match r with
  | Some x => exists e, e ∈ l /\ e_node e = x /\ is_Some (e_info e) /\ covers (e_key e) p
                /\ prefix_length (e_key e) < Z.of_nat k
                /\ forall e', e' ∈ l -> is_Some (e_info e') -> covers (e_key e') p ->
                     prefix_length (e_key e') < Z.of_nat k ->
                     prefix_length (e_key e') <= prefix_length (e_key e)
  | None => forall e, e ∈ l -> is_Some (e_info e) -> prefix_length (e_key e) < Z.of_nat k ->
              ~ covers (e_key e) p
  end.

Lemma probe_found k e :
  Z.of_nat k <= prefix_length p -> e ∈ l ->
  spec_find (eigrp_prefix_normalize (shortened p (Z.of_nat k))) l = Some (e_node e)
  <-> covers (e_key e) p /\ prefix_length (e_key e) = Z.of_nat k.
Proof.
  intros Hk He. pose proof (proj1 (Forall_forall _ l) (ti_canon _ _ T) e He) as Hc.
  destruct (shortened_ok (Z.of_nat k) ltac:(lia)) as [Wc Vc].
  rewrite spec_find_some by apply T. split.
  - intros (e' & He' & Ek & Ex).
    assert (e' = e) as -> by (eapply entry_inj; [apply T|done..]).
    destruct (normalize_same_length _ Wc Vc) as (E1 & _). rewrite <-Ek in E1. simpl in E1.
    split; [|done]. split; [lia|]. apply covers_key; [done|lia|]. by rewrite E1.
  - intros [[Hle Hm] E]. exists e. split; [done|]. split; [|done].
    rewrite <-E. by apply covers_key.
Qed.

Lemma wp_match_loop k (Q : option ptr -> eigrp_table -> Prop) :
  Z.of_nat k <= prefix_length p + 1 -> (forall r, best_cover k r -> Q r s) ->
  wp (match_loop k p) Q s.
Proof.
  revert Q. induction k as [|k IH]; intros Q Hk HQ; cbn [match_loop].
  { apply wp_ret, HQ. intros e He _ Hl. pose proof (proj1 (Forall_forall _ l) (ti_canon _ _ T) e He) as [[_ H] _ _]. lia. }
  destruct (shortened_ok (Z.of_nat k) ltac:(lia)) as [Wc Vc].
  apply wp_bind. apply (wp_table_lookup s l T); [done|]. unfold spec_lookup. fold (shortened p (Z.of_nat k)).
  rewrite Vc. set (probe := spec_find _ _). apply wp_bind.
  assert (Hskip : (forall e, e ∈ l -> is_Some (e_info e) -> covers (e_key e) p ->
                     prefix_length (e_key e) = Z.of_nat k -> False) ->
                  wp (match_loop k p) Q s).
  { intros Hno. apply IH; [lia|]. intros r Hr. apply HQ. destruct r as [x|]; simpl in *.
    - destruct Hr as (e & He & Hx & Hi & Hc & Hl & Hmax). exists e. do 4 (split; [done|]). split; [lia|].
      intros e' He' Hi' Hc' Hl'. destruct (Z.eq_dec (prefix_length (e_key e')) (Z.of_nat k)) as [E|E].
      + by destruct (Hno e' He' Hi' Hc' E).
      + apply Hmax; [done..|lia].
    - intros e He Hi Hl Hc. destruct (Z.eq_dec (prefix_length (e_key e)) (Z.of_nat k)) as [E|E].
      + by apply (Hno e).
      + apply (Hr e); [done..|lia|done]. }
  destruct probe as [x|] eqn:E.
  - pose proof E as (e & He & Ek & <-)%spec_find_some; [|apply T].
    destruct (node_entry _ _ e (ti_entry _ _ T) He) as (n & Hn & Hpf & Hi).
    apply wp_bind. eapply wp_get_node; [done|]. apply wp_ret. rewrite Hi.
    apply probe_found in E as [Hc Hl]; [|lia|done]. case_bool_decide as Hsome.
    + apply wp_ret, HQ. exists e. do 4 (split; [done|]). split; [lia|]. intros e' _ _ _ Hl'. lia.
    + apply Hskip. intros e' He' Hi' Hc' Hl'. apply Hsome.
      assert (e = e') as ->; [|done]. apply (key_inj l); [apply T|done..|].
      destruct Hc as [Hle Hm], Hc' as [Hle' Hm'].
      apply covers_key in Hm; [|by apply (proj1 (Forall_forall _ l) (ti_canon _ _ T))|done].
      apply covers_key in Hm'; [|by apply (proj1 (Forall_forall _ l) (ti_canon _ _ T))|done].
      rewrite Hm, Hm', Hl, Hl'. done.
  - apply wp_ret, Hskip. intros e He Hi Hc Hl.
    assert (probe = Some (e_node e)) as Ep by (apply probe_found; [lia|done|done]). congruence.
Qed.
End covering.

Lemma created_is mem s : eigrp_table_create mem = Some s -> table_is s [].
Proof.
  assert (Hpos : (0 < EIGRP_TABLE_INITIAL_BUCKETS)%nat) by (apply Nat.ltb_lt; reflexivity).
  unfold eigrp_table_create. revert Hpos. generalize EIGRP_TABLE_INITIAL_BUCKETS as count.
  intros count Hpos.
  assert (H : forall m, table_is {| t_head := None; t_tail := None;
      t_buckets := replicate count None; t_size := 0;
      t_nodes := ∅; t_next_addr := O; t_mem := m |} []).
  { intros m. split; simpl; try constructor; try done.
    - apply chained_empty.
    - by rewrite length_replicate.
    - intros [? H]. by rewrite lookup_empty in H.
    - set_solver. }
  unfold t_calloc, eigrp_table_resize. cbn [t_mem].
  destruct mem as [|[] [|[] m]]; cbn; intros [= <-]; apply H.
Qed.

(** ** Theorems *)

(** C38: the hash table refines a list of entries in insertion order with distinct
    canonical keys.  A created table is empty.  A lookup answers exactly the entry
    of the normalised prefix and changes nothing.  [lookup_or_create] answers the
    entry that exists; otherwise it appends one, with a fresh node, whether or not
    the buckets had to grow or that growth failed, and only a failed allocation
    makes it answer NULL, with the entries as they were.  A removal drops exactly
    the entry of the node.  No operation follows a dangling link. *)
Theorem prefix_table_refines :
  (forall mem s, eigrp_table_create mem = Some s -> table_is s [])
  /\ forall s l p, table_is s l -> prefix_wf p ->
     wp (eigrp_table_node_lookup p) (fun r s' => s' = s /\ r = spec_lookup p l) s
     /\ (Z.of_nat (length l) < 2 ^ 64 - 1 ->
         wp (eigrp_table_node_lookup_or_create p) (fun r s' =>
           match spec_lookup p l with
           | Some x => r = Some x /\ s' = s
           | None =>
               if eigrp_prefix_valid p then
                 (r = None /\ false ∈ t_mem s /\ table_is s' l)
                 \/ exists x, r = Some x /\ (x ∉ e_node <$> l)
                    /\ table_is s' (l ++ [{| e_node := x; e_key := eigrp_prefix_normalize p;
                                             e_info := None |}])
               else r = None /\ s' = s
           end) s)
     /\ forall l1 e l2, l = l1 ++ e :: l2 ->
        wp (eigrp_table_node_remove (e_node e)) (fun _ s' => table_is s' (l1 ++ l2)) s.
Proof.
  split; [by apply created_is|]. intros s l p T Hp. split; [by apply (wp_table_lookup s l T)|].
  split; [intros Hroom|intros l1 e l2 ->; by apply (wp_table_remove s l1 l2)].
  unfold spec_lookup. destruct (eigrp_prefix_valid p) eqn:Hv.
  2: { unfold eigrp_table_node_lookup_or_create. rewrite Hv. by apply wp_ret. }
  apply (wp_table_insert p Hp Hv s l); [done..| |].
  - intros x ->. done.
  - intros ->. split; [intros s' Hm Ts; by left|]. intros s' Ts. right.
    exists (t_next_addr s). split; [done|]. split; [|done].
    intros Hx. by apply (fresh_ptr s l T _ Hx).
Qed.

(** [eigrp_table_node_match] is longest-prefix match: it returns the longest
    entry with data whose prefix contains the address, among those no longer than
    the prefix given, and NULL only when there is none; the table is unchanged. *)
Theorem table_longest_match s l p :
  table_is s l -> prefix_wf p -> eigrp_prefix_valid p = true ->
  wp (eigrp_table_node_match p) (fun r s' => s' = s /\
    match r with
    | Some x => exists e, e ∈ l /\ e_node e = x /\ is_Some (e_info e) /\ covers (e_key e) p
                  /\ forall e', e' ∈ l -> is_Some (e_info e') -> covers (e_key e') p ->
                       prefix_length (e_key e') <= prefix_length (e_key e)
    | None => forall e, e ∈ l -> is_Some (e_info e) -> ~ covers (e_key e) p
    end) s.
Proof.
  intros T Hp Hv. unfold eigrp_table_node_match. rewrite Hv. cbn [negb].
  pose proof (pw_length _ Hp) as Hl.
  apply (wp_match_loop p Hp Hv s l T); [lia|]. intros r Hr. split; [done|].
  destruct r as [x|]; simpl in Hr.
  - destruct Hr as (e & He & Hx & Hi & Hc & _ & Hmax). exists e. do 4 (split; [done|]).
    intros e' He' Hi' Hc'. apply Hmax; [done..|]. destruct Hc' as [? _]. lia.
  - intros e He Hi Hc. apply (Hr e); [done|done| |done]. destruct Hc as [? _]. lia.
Qed.

(** ** Instances *)

(** A table with the routes 10.0.0.0/8 and 10.1.0.0/16, both with data. *)
Definition ex_key8 : eigrp_prefix :=
  {| address := {| afi := EIGRP_AFI_IPV4; bytes := [10; 0; 0; 0] ++ zero_bytes 12 |};
     prefix_length := 8 |}.

Definition ex_entries : list entry :=
  [{| e_node := 0%nat; e_key := ex_key8; e_info := Some 7%nat |};
   {| e_node := 1%nat; e_key := ex_v4 0 0; e_info := Some 8%nat |}].

Definition ex_table : eigrp_table :=
  {| t_head := Some 0%nat; t_tail := Some 1%nat; t_buckets := [Some 1%nat]; t_size := 2;
     t_nodes := {[ 0%nat := {| nd_next := Some 1%nat; nd_previous := None; nd_hash_next := None;
                               nd_prefix := ex_key8; nd_info := Some 7%nat |};
                   1%nat := {| nd_next := None; nd_previous := Some 0%nat; nd_hash_next := Some 0%nat;
                               nd_prefix := ex_v4 0 0; nd_info := Some 8%nat |} ]};
     t_next_addr := 2%nat; t_mem := [] |}.

Lemma ex_key8_canonical : canonical ex_key8.
Proof.
  split; [|reflexivity|reflexivity]. split; [|simpl; lia]. split; [done|].
  simpl. repeat (apply Forall_cons; split; [first [done|unfold byte; lia]|]). by apply Forall_nil.
Qed.

Lemma ex_table_is : table_is ex_table ex_entries.
Proof.
  assert (Hk : canonical (ex_v4 0 0)) by (split; [by apply ex_v4_wf|reflexivity..]).
  pose proof ex_key8_canonical as Hk8. split.
  - repeat (split; [reflexivity|]; eexists; split; [reflexivity|]). reflexivity.
  - repeat (split; [reflexivity|]; eexists; split; [reflexivity|]). reflexivity.
  - intros b Hb. assert (b = 0%nat) as -> by (simpl in Hb; lia). eexists. split; [reflexivity|].
    change (chain _ _ _) with (chain 1 0 ex_entries).
    assert (chain 1 0 ex_entries = [1%nat; 0%nat]) as -> by (vm_compute; reflexivity).
    repeat (split; [reflexivity|]; eexists; split; [reflexivity|]). reflexivity.
  - simpl. lia.
  - repeat (apply Forall_cons; split; [eexists; split; [reflexivity|done]|]). by apply Forall_nil.
  - intros x. rewrite <-elem_of_dom. unfold ex_table. cbn [t_nodes].
    rewrite dom_insert_L, dom_singleton_L. simpl. set_solver.
  - apply (bool_decide_unpack _). by vm_compute.
  - apply NoDup_cons; split; [|apply NoDup_singleton]. rewrite list_elem_of_singleton. done.
  - by repeat apply Forall_cons_2.
  - reflexivity.
  - repeat (apply Forall_cons; split; [simpl; lia|]). by apply Forall_nil.
Qed.

Lemma prefix_table_refines_witness :
  wp (eigrp_table_node_lookup (ex_v4 2 3)) (fun r s' => s' = ex_table /\ r = Some 1%nat) ex_table.
Proof.
  exact (proj1 (proj2 prefix_table_refines ex_table ex_entries (ex_v4 2 3) ex_table_is
                  (ex_v4_wf 2 3 ltac:(done) ltac:(done)))).
Defined.

(** 10.1.2.3/16 is matched by the second entry although the first covers it too. *)
Lemma table_longest_match_witness :
  fst <$> eigrp_table_node_match (ex_v4 2 3) ex_table = Some (Some 1%nat)
  /\ wp (eigrp_table_node_match (ex_v4 2 3)) (fun r s' => s' = ex_table) ex_table.
Proof.
  split; [vm_compute; reflexivity|].
  eapply wp_mono; [apply (table_longest_match ex_table ex_entries (ex_v4 2 3)); 
    [exact ex_table_is|by apply ex_v4_wf|reflexivity]|].
  intros r s' [H _]. exact H.
Defined.
