(* ===== verification/Rtt.v ===== *)
(** * Retransmission timing, pacing and sequence numbers

    The round-trip estimator of a neighbor (eigrp_neighbor.c), the bandwidth
    budget of an interface and the reservation and comparison of RTP sequence
    numbers (eigrp_packet.c, eigrp_packet.h). *)

From Stdlib Require Import ZArith Lia.
From stdpp Require Import base list.
From S2P Require Import Prelude Types.

Definition EIGRP_TRANSPORT_RTO_INITIAL_MSEC : Z := 2000.
Definition EIGRP_TRANSPORT_RTO_MIN_MSEC : Z := 200.
Definition EIGRP_TRANSPORT_RTO_MAX_MSEC : Z := 5000.
Definition EIGRP_TRANSPORT_RTO_SRTT_MULTIPLIER : Z := 6.
Definition EIGRP_NEIGHBOR_SRTT_ALPHA_SHIFT : Z := 3.
Definition EIGRP_NEIGHBOR_RTTVAR_BETA_SHIFT : Z := 2.
Definition EIGRP_BANDWIDTH_DEFAULT : Z := 100000.

(** ** The round-trip estimator *)

Record eigrp_rtt := { srtt_valid : bool; srtt_msec : Z; rttvar_msec : Z; rto_msec : Z }.

Definition eigrp_nbr_rto_calculate (srtt : Z) : Z :=
  let rto := u64 (srtt * EIGRP_TRANSPORT_RTO_SRTT_MULTIPLIER) in
  if rto <? EIGRP_TRANSPORT_RTO_MIN_MSEC then EIGRP_TRANSPORT_RTO_MIN_MSEC
  else if EIGRP_TRANSPORT_RTO_MAX_MSEC <? rto then EIGRP_TRANSPORT_RTO_MAX_MSEC
  else u32 rto.

Definition eigrp_nbr_rtt_clear : eigrp_rtt :=
  {| srtt_valid := false; srtt_msec := 0; rttvar_msec := 0;
     rto_msec := EIGRP_TRANSPORT_RTO_INITIAL_MSEC |}.

(** The division of a signed 64-bit value truncates towards zero. *)
Definition eigrp_nbr_rtt_sample (r : eigrp_rtt) (sample_msec : Z) : eigrp_rtt :=
  if negb (srtt_valid r) then
    {| srtt_valid := true; srtt_msec := sample_msec; rttvar_msec := sample_msec / 2;
       rto_msec := eigrp_nbr_rto_calculate sample_msec |}
  else
    let error := sample_msec - srtt_msec r in
    let variance_error := (if error <? 0 then - error else error) - rttvar_msec r in
    let rttvar := rttvar_msec r + Z.quot variance_error (1 .<< EIGRP_NEIGHBOR_RTTVAR_BETA_SHIFT) in
    let rttvar := if rttvar <? 0 then 0 else rttvar in
    let srtt := srtt_msec r + Z.quot error (1 .<< EIGRP_NEIGHBOR_SRTT_ALPHA_SHIFT) in
    let srtt := u32 (if srtt <? 0 then 0 else srtt) in
    {| srtt_valid := true; srtt_msec := srtt; rttvar_msec := u32 rttvar;
       rto_msec := eigrp_nbr_rto_calculate srtt |}.

Definition eigrp_nbr_rto (r : eigrp_rtt) : Z :=
  if rto_msec r =? 0 then EIGRP_TRANSPORT_RTO_INITIAL_MSEC else rto_msec r.

Definition eigrp_nbr_rto_backoff (r : eigrp_rtt) : eigrp_rtt :=
  let rto := u64 (eigrp_nbr_rto r * 2) in
  let rto := if EIGRP_TRANSPORT_RTO_MAX_MSEC <? rto then EIGRP_TRANSPORT_RTO_MAX_MSEC else rto in
  {| r with rto_msec := u32 rto |}.

(** [eigrp_nbr_srtt_update]: Karn's rule and the clock test before the sample. *)
Definition eigrp_nbr_srtt_update (r : eigrp_rtt) (retrans_counter sent_msec now_msec : Z) : eigrp_rtt :=
  if negb (retrans_counter =? 0) || (sent_msec =? 0) then r
  else if now_msec <? sent_msec then r
  else
    let sample_msec := now_msec - sent_msec in
    eigrp_nbr_rtt_sample r (if UINT32_MAX <? sample_msec then UINT32_MAX else sample_msec).

(** ** The transmit budget of an interface *)

Record eigrp_pacing := {
  pacing_initialized : bool;
  pacing_last_msec : Z;
  pacing_rate : Z;
  pacing_credit : Z;
}.

(** [ei->params.bandwidth], [ei->curr_bandwidth] and [ei->bandwidth_percent]. *)
Definition eigrp_packet_pacing_rate (bw curr_bw percent : Z) : Z :=
  let bw := if bw =? 0 then (if curr_bw =? 0 then EIGRP_BANDWIDTH_DEFAULT else curr_bw) else bw in
  let percent := if percent =? 0 then 50 else percent in
  u64 (bw * percent).

(** The wait and the refreshed budget.  [rate] is that of the interface; the two
    divisions by it are undefined when it is 0. *)
Definition eigrp_packet_pacing_delay_msec (ei : eigrp_pacing) (rate packet_length now_msec : Z)
    : option (Z * eigrp_pacing) :=
  if packet_length =? 0 then Some (0, ei)
  else
    let charge := packet_length * 800 in
    let capacity := if charge <? rate then rate else charge in
    let finish ei :=
      if charge <=? pacing_credit ei then Some (0, ei)
      else if rate =? 0 then None
      else
        let needed := charge - pacing_credit ei in
        let elapsed := u64 (needed + rate - 1) / rate in
        Some (if UINT32_MAX <? elapsed then UINT32_MAX else elapsed, ei) in
    if negb (pacing_initialized ei) || negb (pacing_rate ei =? rate)
       || (now_msec <? pacing_last_msec ei)
    then finish {| pacing_initialized := true; pacing_last_msec := now_msec;
                   pacing_rate := rate; pacing_credit := capacity |}
    else if rate =? 0 then None
    else
      let elapsed := now_msec - pacing_last_msec ei in
      let credit :=
        if u64 (capacity + rate - 1) / rate <=? elapsed then capacity
        else
          let credit := u64 (pacing_credit ei + elapsed * rate) in
          if credit <? capacity then credit else capacity in
      let credit := if capacity <? credit then capacity else credit in
      finish {| ei with pacing_last_msec := now_msec; pacing_credit := credit |}.

Definition eigrp_packet_pacing_charge (ei : eigrp_pacing) (packet_length : Z) : eigrp_pacing :=
  let charge := packet_length * 800 in
  if negb (pacing_initialized ei) then ei
  else {| ei with pacing_credit :=
            if charge <=? pacing_credit ei then pacing_credit ei - charge else 0 |}.

(** ** Sequence numbers *)

Definition eigrp_packet_sequence_before (first second : Z) : bool :=
  negb (first =? second) && (u32 (second - first) <? 0x80000000).

(** The reserved number and the next value of [eigrp->sequence_number]. *)
Definition eigrp_packet_sequence_reserve (sequence_number : Z) : Z * Z :=
  let n := if sequence_number =? 0 then 1 else sequence_number in
  let next := u32 (n + 1) in
  (n, if next =? 0 then 1 else next).

(** Successive reservations. *)
Fixpoint reserve_many (count : nat) (sequence_number : Z) : list Z :=
  match count with
  | O => []
  | S count' =>
      let '(n, next) := eigrp_packet_sequence_reserve sequence_number in
      n :: reserve_many count' next
  end.
