(* ===== verification/RttProps.v ===== *)
(** * Properties of the retransmission timing, the pacing and the sequence numbers *)

From Stdlib Require Import ZArith Lia Sorted.
From stdpp Require Import base list.
From S2P Require Import Prelude Types Rtt.

(** ** The estimator *)

Record rtt_wf (r : eigrp_rtt) : Prop := {
  rw_srtt : 0 <= srtt_msec r < 2 ^ 32;
  rw_var : 0 <= rttvar_msec r < 2 ^ 32;
  rw_rto : EIGRP_TRANSPORT_RTO_MIN_MSEC <= rto_msec r <= EIGRP_TRANSPORT_RTO_MAX_MSEC;
}.

Definition clamp_rto (z : Z) : Z :=
  Z.max EIGRP_TRANSPORT_RTO_MIN_MSEC (Z.min EIGRP_TRANSPORT_RTO_MAX_MSEC z).

Section estimator.
Lemma rto_calculate_clamp srtt :
  0 <= srtt < 2 ^ 32 -> eigrp_nbr_rto_calculate srtt = clamp_rto (6 * srtt).
Proof.
  intros H. unfold eigrp_nbr_rto_calculate, clamp_rto, EIGRP_TRANSPORT_RTO_SRTT_MULTIPLIER,
    EIGRP_TRANSPORT_RTO_MIN_MSEC, EIGRP_TRANSPORT_RTO_MAX_MSEC.
  rewrite u64_small by lia. destruct (Z.ltb_spec (srtt * 6) 200), (Z.ltb_spec 5000 (srtt * 6));
    try lia. rewrite u32_small; lia.
Qed.

Lemma clamp_rto_range z :
  EIGRP_TRANSPORT_RTO_MIN_MSEC <= clamp_rto z <= EIGRP_TRANSPORT_RTO_MAX_MSEC.
Proof. unfold clamp_rto, EIGRP_TRANSPORT_RTO_MIN_MSEC, EIGRP_TRANSPORT_RTO_MAX_MSEC. lia. Qed.

(** The smoothed value before it is narrowed, between the old value and the sample. *)
Lemma smooth_range old s :
  0 <= old -> 0 <= s ->
  let v := old + Z.quot (s - old) 8 in
  Z.min old s <= v <= Z.max old s /\ 8 * Z.abs (s - v) <= 7 * Z.abs (s - old) + 8.
Proof. intros Ho Hs v. subst v. Z.to_euclidean_division_equations. lia. Qed.

Lemma variance_range old e :
  0 <= old < 2 ^ 32 -> 0 <= e < 2 ^ 32 -> 0 <= old + Z.quot (e - old) 4 < 2 ^ 32.
Proof. intros Ho He. Z.to_euclidean_division_equations. lia. Qed.

Lemma backoff_step r :
  rtt_wf r ->
  rtt_wf (eigrp_nbr_rto_backoff r)
  /\ rto_msec (eigrp_nbr_rto_backoff r) = Z.min EIGRP_TRANSPORT_RTO_MAX_MSEC (2 * rto_msec r).
Proof.
  intros [H1 H2 H3].
  assert (E : rto_msec (eigrp_nbr_rto_backoff r) = Z.min EIGRP_TRANSPORT_RTO_MAX_MSEC (2 * rto_msec r)).
  { unfold eigrp_nbr_rto_backoff, eigrp_nbr_rto, EIGRP_TRANSPORT_RTO_MIN_MSEC,
      EIGRP_TRANSPORT_RTO_MAX_MSEC in *. cbn [rto_msec].
    rewrite (proj2 (Z.eqb_neq (rto_msec r) 0)) by lia. rewrite u64_small by lia.
    destruct (Z.ltb_spec 5000 (rto_msec r * 2)); rewrite u32_small; lia. }
  split; [|done]. split; [done|done|]. rewrite E.
  unfold EIGRP_TRANSPORT_RTO_MIN_MSEC, EIGRP_TRANSPORT_RTO_MAX_MSEC in *. lia.
Qed.

Lemma backoff_iter r k :
  rtt_wf r ->
  rtt_wf (Nat.iter k eigrp_nbr_rto_backoff r)
  /\ rto_msec (Nat.iter k eigrp_nbr_rto_backoff r)
     = Z.min EIGRP_TRANSPORT_RTO_MAX_MSEC (2 ^ Z.of_nat k * rto_msec r).
Proof.
  intros H. induction k as [|k [IHw IHr]].
  - destruct H as [? ? Hr]. split; [by split|]. change (Nat.iter 0 eigrp_nbr_rto_backoff r) with r. rewrite Z.pow_0_r.
    unfold EIGRP_TRANSPORT_RTO_MAX_MSEC in *. lia.
  - rewrite Nat.iter_succ. destruct (backoff_step _ IHw) as [Hw Hr]. split; [done|]. rewrite Hr, IHr.
    rewrite Nat2Z.inj_succ, Z.pow_succ_r, <-Z.mul_assoc by lia.
    generalize (2 ^ Z.of_nat k * rto_msec r). intros z.
    unfold EIGRP_TRANSPORT_RTO_MIN_MSEC, EIGRP_TRANSPORT_RTO_MAX_MSEC in *. lia.
Qed.
End estimator.

(** ** The budget *)

(** What the scheduler does with the budget: a data packet offered at a time is
    sent when no wait is asked for; a HELLO goes out at once.  Both are charged. *)
Inductive pacing_event :=
  | Offer (now packet_length : Z)
  | Hello (packet_length : Z).

(** The charge of the data packets sent by a run, with the final budget. *)
Fixpoint pacing_run (rate : Z) (ei : eigrp_pacing) (l : list pacing_event)
    : option (Z * eigrp_pacing) :=
  match l with
  | [] => Some (0, ei)
  | Hello len :: l' => pacing_run rate (eigrp_packet_pacing_charge ei len) l'
  | Offer now len :: l' =>
      match eigrp_packet_pacing_delay_msec ei rate len now with
      | None => None
      | Some (wait, ei) =>
          if wait =? 0 then
            match pacing_run rate (eigrp_packet_pacing_charge ei len) l' with
            | Some (sent, ei) => Some (len * 800 + sent, ei)
            | None => None
            end
          else pacing_run rate ei l'
      end
  end.

(** Offers in time order, of packets no longer than [maxlen]. *)
Fixpoint timely (maxlen now : Z) (l : list pacing_event) : Prop :=
  match l with
  | [] => True
  | Offer t len :: l' => now <= t /\ 0 < len <= maxlen /\ timely maxlen t l'
  | Hello len :: l' => 0 <= len /\ timely maxlen now l'
  end.

Fixpoint last_time (now : Z) (l : list pacing_event) : Z :=
  match l with
  | [] => now
  | Offer t _ :: l' => last_time t l'
  | Hello _ :: l' => last_time now l'
  end.

Definition max_capacity (rate maxlen : Z) : Z := Z.max rate (maxlen * 800).

Section pacing.
Context (rate maxlen : Z).
Hypothesis Hrate : 0 < rate < 2 ^ 62.
Hypothesis Hmax : 0 < maxlen < 2 ^ 16.

(** A budget in use at [now], never above the capacity. *)
Definition budget_ok (now : Z) (ei : eigrp_pacing) : Prop :=
  pacing_initialized ei = true /\ pacing_rate ei = rate /\ 0 <= pacing_last_msec ei <= now
  /\ 0 <= pacing_credit ei <= max_capacity rate maxlen.

(** One offer to a budget in use: the credit grows by at most the elapsed time's
    share, and no wait means the charge is covered. *)
Lemma delay_step ei now len :
  budget_ok now ei -> 0 < len <= maxlen -> 0 <= now < 2 ^ 64 ->
  exists wait ei', eigrp_packet_pacing_delay_msec ei rate len now = Some (wait, ei')
    /\ budget_ok now ei' /\ pacing_last_msec ei' = now
    /\ pacing_credit ei' <= pacing_credit ei + (now - pacing_last_msec ei) * rate
    /\ Z.min (len * 800) (pacing_credit ei + (now - pacing_last_msec ei) * rate) <= pacing_credit ei'
    /\ 0 <= wait /\ (wait = 0 <-> len * 800 <= pacing_credit ei')
    /\ (wait < UINT32_MAX -> len * 800 <= pacing_credit ei' + wait * rate).
Proof.
  intros (Hi & Hr & Hl & Hc) Hlen Hnow. unfold eigrp_packet_pacing_delay_msec, max_capacity in *.
  rewrite (proj2 (Z.eqb_neq len 0)) by lia. rewrite Hi, Hr, Z.eqb_refl.
  rewrite (proj2 (Z.ltb_ge now _)) by lia. cbn [negb orb].
  rewrite (proj2 (Z.eqb_neq rate 0)) by lia.
  set (charge := len * 800). set (cap := if charge <? rate then rate else charge).
  set (el := now - pacing_last_msec ei).
  assert (Hcap : charge <= cap /\ rate <= cap /\ cap <= Z.max rate (maxlen * 800)).
  { subst cap charge. destruct (Z.ltb_spec (len * 800) rate); lia. }
  rewrite (u64_small (cap + rate - 1)) by lia.
  set (credit0 := if (cap + rate - 1) / rate <=? el then cap else _).
  set (credit := if cap <? credit0 then cap else credit0).
  assert (Hcredit : 0 <= credit <= cap /\ credit <= pacing_credit ei + el * rate
                   /\ Z.min charge (pacing_credit ei + el * rate) <= credit).
  { assert (Hcr0 : 0 <= credit0 <= cap /\ credit0 <= pacing_credit ei + el * rate
                   /\ Z.min charge (pacing_credit ei + el * rate) <= credit0).
    { subst credit0. destruct (Z.leb_spec ((cap + rate - 1) / rate) el) as [Hle|Hgt].
      - assert (cap <= (cap + rate - 1) / rate * rate) by (Z.to_euclidean_division_equations; nia). nia.
      - assert (el * rate < cap).
        { assert (el <= (cap + rate - 1) / rate - 1) by lia.
          assert ((cap + rate - 1) / rate * rate <= cap + rate - 1) by (Z.to_euclidean_division_equations; nia). nia. }
        assert (0 <= el * rate) by (apply Z.mul_nonneg_nonneg; subst el; lia).
        rewrite u64_small by lia. destruct (Z.ltb_spec (pacing_credit ei + el * rate) cap); lia. }
    subst credit. destruct (Z.ltb_spec cap credit0); lia. }
  assert (Hok : budget_ok now {| pacing_initialized := true; pacing_last_msec := now;
                                 pacing_rate := rate; pacing_credit := credit |}).
  { split; [done|]. split; [done|]. split; simpl; [lia|]. unfold max_capacity. lia. }
  cbn [pacing_credit]. destruct (Z.leb_spec charge credit) as [Hle|Hgt].
  - eexists _, _. split; [reflexivity|]. split; [exact Hok|]. cbn [pacing_last_msec pacing_credit].
    split; [done|]. split; [lia|]. split; [lia|]. split; [lia|]. split; [by split|]. lia.
  - eexists _, _. split; [reflexivity|]. split; [exact Hok|]. cbn [pacing_last_msec pacing_credit].
    split; [done|]. split; [lia|]. split; [lia|]. rewrite u64_small by lia.
    assert (charge - credit <= (charge - credit + rate - 1) / rate * rate)
      by (Z.to_euclidean_division_equations; nia).
    assert (1 <= (charge - credit + rate - 1) / rate) by (apply Z.div_le_lower_bound; lia).
    destruct (Z.ltb_spec UINT32_MAX ((charge - credit + rate - 1) / rate)); unfold UINT32_MAX in *; lia.
Qed.

Lemma charge_step now ei len :
  budget_ok now ei -> 0 <= len ->
  budget_ok now (eigrp_packet_pacing_charge ei len)
  /\ pacing_last_msec (eigrp_packet_pacing_charge ei len) = pacing_last_msec ei
  /\ pacing_credit (eigrp_packet_pacing_charge ei len) <= pacing_credit ei
  /\ (len * 800 <= pacing_credit ei ->
      pacing_credit (eigrp_packet_pacing_charge ei len) = pacing_credit ei - len * 800).
Proof.
  intros (Hi & Hr & Hl & Hc) Hlen. unfold eigrp_packet_pacing_charge. rewrite Hi. cbn [negb].
  unfold budget_ok. cbn [pacing_initialized pacing_rate pacing_last_msec pacing_credit].
  destruct (Z.leb_spec (len * 800) (pacing_credit ei)); repeat split; try done; lia.
Qed.

Lemma timely_last m t0 : timely maxlen t0 m -> t0 <= last_time t0 m.
Proof.
  clear. revert t0. induction m as [|[t' ?|?] m IHm]; simpl; intros t0 Hm; [lia| |].
  - destruct Hm as (? & _ & Hm). specialize (IHm _ Hm). lia.
  - destruct Hm as [_ Hm]. by apply IHm.
Qed.

(** The data sent by a run is paid by the credit at its start and the time it took. *)
Lemma run_conforms l now ei :
  budget_ok now ei -> timely maxlen now l -> last_time now l < 2 ^ 64 ->
  exists sent ei', pacing_run rate ei l = Some (sent, ei')
    /\ sent + pacing_credit ei' <= pacing_credit ei + (last_time now l - pacing_last_msec ei) * rate
    /\ budget_ok (last_time now l) ei' /\ now <= last_time now l.
Proof.
  revert now ei. induction l as [|[t len|len] l IH]; intros now ei Hok Ht Hlast; cbn [timely last_time pacing_run] in *.
  - eexists _, _. split; [done|]. destruct Hok as (? & ? & ? & ?). split; [nia|]. split; [done|lia].
  - destruct Ht as (Hnow & Hlen & Ht).
    pose proof (timely_last _ _ Ht) as Htl.
    assert (Hok' : budget_ok t ei) by (destruct Hok as (? & ? & ? & ?); repeat split; try done; lia).
    destruct (delay_step ei t len Hok' Hlen) as (wait & ei1 & E & Hok1 & El & Hc1 & _ & Hw0 & Hw & _);
      [destruct Hok as (_ & _ & ? & _); lia|].
    rewrite E. destruct (Z.eqb_spec wait 0) as [Ew|Ew].
    + destruct (charge_step t ei1 len Hok1) as (Hok2 & El2 & _ & Hc2); [lia|].
      specialize (Hc2 (proj1 Hw Ew)).
      destruct (IH t _ Hok2 Ht Hlast) as (sent & ei' & -> & Hs & Hok3 & _).
      eexists _, _. split; [done|]. rewrite El2, El in Hs. split; [nia|]. split; [done|lia].
    + destruct (IH t _ Hok1 Ht Hlast) as (sent & ei' & -> & Hs & Hok3 & _).
      eexists _, _. split; [done|]. rewrite El in Hs. split; [nia|]. split; [done|lia].
  - destruct Ht as [Hlen Ht].
    destruct (charge_step now ei len Hok Hlen) as (Hok2 & El2 & Hc2 & _).
    destruct (IH now _ Hok2 Ht Hlast) as (sent & ei' & -> & Hs & Hok3 & Hl).
    eexists _, _. split; [done|]. rewrite El2 in Hs. split; [lia|]. done.
Qed.

(** An offer to any budget, whatever it holds, leaves one in use; a wait below the cap is
    the least number of milliseconds whose share covers what is missing. *)
Lemma delay_any ei now len :
  0 < len <= maxlen -> 0 <= now < 2 ^ 64 ->
  exists wait ei', eigrp_packet_pacing_delay_msec ei rate len now = Some (wait, ei')
    /\ budget_ok now ei' /\ pacing_last_msec ei' = now /\ 0 <= wait
    /\ (wait = 0 <-> len * 800 <= pacing_credit ei')
    /\ (wait <> 0 -> wait = Z.min UINT32_MAX ((len * 800 - pacing_credit ei' + rate - 1) / rate)).
Proof.
  intros Hlen Hnow. unfold eigrp_packet_pacing_delay_msec. rewrite (proj2 (Z.eqb_neq len 0)) by lia.
  set (charge := len * 800). set (cap := if charge <? rate then rate else charge). cbv zeta.
  assert (Hcap : charge <= cap /\ rate <= cap /\ cap <= max_capacity rate maxlen).
  { subst cap charge. unfold max_capacity. destruct (Z.ltb_spec (len * 800) rate); lia. }
  rewrite (proj2 (Z.eqb_neq rate 0)) by lia.
  assert (Hfin : forall e1, budget_ok now e1 -> pacing_last_msec e1 = now ->
    exists wait ei', (if charge <=? pacing_credit e1 then Some (0, e1)
       else Some (if UINT32_MAX <? u64 (charge - pacing_credit e1 + rate - 1) / rate then UINT32_MAX
                  else u64 (charge - pacing_credit e1 + rate - 1) / rate, e1)) = Some (wait, ei')
      /\ budget_ok now ei' /\ pacing_last_msec ei' = now /\ 0 <= wait
      /\ (wait = 0 <-> charge <= pacing_credit ei')
      /\ (wait <> 0 -> wait = Z.min UINT32_MAX ((charge - pacing_credit ei' + rate - 1) / rate))).
  { intros e1 Hok El. destruct (Z.leb_spec charge (pacing_credit e1)) as [Hle|Hgt].
    - exists 0, e1. repeat split; try done; try apply Hok; lia.
    - destruct (Hok) as (_ & _ & _ & Hc). unfold max_capacity in *. rewrite u64_small by lia.
      assert (1 <= (charge - pacing_credit e1 + rate - 1) / rate) by (apply Z.div_le_lower_bound; lia).
      eexists _, e1. split; [done|]. split; [done|]. split; [done|].
      destruct (Z.ltb_spec UINT32_MAX ((charge - pacing_credit e1 + rate - 1) / rate)); unfold UINT32_MAX in *; lia. }
  destruct (negb (pacing_initialized ei) || negb (pacing_rate ei =? rate) || (now <? pacing_last_msec ei)) eqn:Er.
  - apply Hfin; [|done]. repeat split; simpl; lia.
  - apply orb_false_iff in Er as [[Ei%negb_false_iff Er%negb_false_iff]%orb_false_iff El%Z.ltb_ge]. apply Z.eqb_eq in Er.
    apply Hfin; [|done]. split; [done|]. split; [done|]. cbn [pacing_last_msec pacing_credit]. split; [lia|].
    assert (0 <= u64 (pacing_credit ei + (now - pacing_last_msec ei) * rate)) by (apply Z.mod_pos_bound; done).
    destruct (_ <=? _); [|destruct (Z.ltb_spec (u64 (pacing_credit ei + (now - pacing_last_msec ei) * rate)) cap)];
      repeat match goal with |- context [cap <? ?x] => destruct (Z.ltb_spec cap x) end; lia.
Qed.

(** The wait is exact: offered again [u] milliseconds later, the packet has to wait for
    what is left of it. *)
Lemma wait_remaining now ei len wait ei' u :
  0 < len <= maxlen -> 0 <= now -> now + UINT32_MAX < 2 ^ 64 ->
  eigrp_packet_pacing_delay_msec ei rate len now = Some (wait, ei') -> wait < UINT32_MAX -> 0 <= u <= wait ->
  exists ei'', eigrp_packet_pacing_delay_msec ei' rate len (now + u) = Some (wait - u, ei'').
Proof.
  intros Hlen Hnow Hb E Hw Hu. unfold UINT32_MAX in *.
  destruct (delay_any ei now len Hlen) as (w1 & e1 & E1 & Hok1 & El1 & Hw0 & Hz1 & Heq1); [lia|].
  rewrite E in E1. injection E1 as <- <-.
  assert (budget_ok (now + u) ei') as Hok1' by (destruct Hok1 as (? & ? & ? & ?); repeat split; try done; lia).
  destruct (delay_step ei' (now + u) len Hok1' Hlen) as (w2 & e2 & E2 & _ & _ & Hup & Hlow & _ & Hz2 & _); [lia|].
  destruct (delay_any ei' (now + u) len Hlen) as (w3 & e3 & E3 & Hok3 & _ & Hw3 & _ & Heq3); [lia|].
  rewrite E2 in E3. injection E3 as <- <-. rewrite E2. exists e2. do 2 f_equal.
  rewrite El1 in Hup, Hlow. replace (now + u - now) with u in Hup, Hlow by lia.
  destruct (Z.eq_dec wait 0) as [->|Hne].
  - assert (u = 0) as -> by lia. apply Hz2. pose proof (proj1 Hz1 eq_refl). lia.
  - assert (wait = (len * 800 - pacing_credit ei' + rate - 1) / rate) as Ew by (specialize (Heq1 Hne); unfold UINT32_MAX in Heq1; lia).
    set (need := len * 800 - pacing_credit ei') in *.
    assert (need <= wait * rate /\ (wait - 1) * rate < need) as [Hn1 Hn2].
    { rewrite Ew. Z.to_euclidean_division_equations; nia. }
    destruct (Z.eq_dec u wait) as [->|Hlt].
    + rewrite Z.sub_diag. apply Hz2. lia.
    + assert (u * rate < need) by nia.
      assert (pacing_credit e2 = pacing_credit ei' + u * rate) as Ec by lia.
      assert (w2 <> 0) by (intros E0; apply Hz2 in E0; lia).
      assert ((len * 800 - pacing_credit e2 + rate - 1) / rate = wait - u) as Er.
      { rewrite Ec. replace (len * 800 - (pacing_credit ei' + u * rate) + rate - 1) with (need + rate - 1 + (- u) * rate) by (unfold need; lia).
        rewrite Z.div_add, <-Ew by lia. lia. }
      rewrite Heq3, Er by done. unfold UINT32_MAX. lia.
Qed.
End pacing.

(** ** Sequence numbers *)

Section sequence.
(** The [k]-th reservation from [n]: the numbers 1 to 2^32 - 1 in a cycle. *)
Definition nth_sequence (n : Z) (k : nat) : Z :=
  ((if n =? 0 then 1 else n) - 1 + Z.of_nat k) mod UINT32_MAX + 1.

Lemma reserve_many_lookup count n k :
  0 <= n < 2 ^ 32 -> (k < count)%nat -> reserve_many count n !! k = Some (nth_sequence n k).
Proof.
  revert n k. induction count as [|count IH]; intros n k Hn Hk; [lia|].
  unfold nth_sequence, UINT32_MAX in *. cbn [reserve_many eigrp_packet_sequence_reserve].
  set (m := if n =? 0 then 1 else n).
  assert (Hm : 1 <= m < 2 ^ 32) by (subst m; destruct (Z.eqb_spec n 0); lia).
  destruct k as [|k]; simpl.
  - f_equal. rewrite Z.add_0_r, Z.mod_small by lia. lia.
  - assert (Hnext : 1 <= (if u32 (m + 1) =? 0 then 1 else u32 (m + 1)) < 2 ^ 32
      /\ ((if u32 (m + 1) =? 0 then 1 else u32 (m + 1)) = m + 1
          \/ (m = 2 ^ 32 - 1 /\ (if u32 (m + 1) =? 0 then 1 else u32 (m + 1)) = 1))).
    { destruct (Z.eq_dec m (2 ^ 32 - 1)) as [->|Hne].
      - assert (u32 (2 ^ 32 - 1 + 1) = 0) as -> by reflexivity. simpl. lia.
      - rewrite u32_small by lia. rewrite (proj2 (Z.eqb_neq (m + 1) 0)) by lia. lia. }
    destruct Hnext as [Hr Hnext]. rewrite IH by lia. f_equal. f_equal.
    rewrite (proj2 (Z.eqb_neq (if u32 (m + 1) =? 0 then 1 else _) 0)) by lia.
    destruct Hnext as [->|[-> ->]].
    + f_equal. lia.
    + rewrite <-(Z_mod_plus_full _ 1). f_equal. lia.
Qed.

Lemma nth_sequence_range n k : 0 <= n -> 1 <= nth_sequence n k < 2 ^ 32.
Proof.
  intros Hn. unfold nth_sequence, UINT32_MAX.
  pose proof (Z.mod_pos_bound ((if n =? 0 then 1 else n) - 1 + Z.of_nat k) 4294967295). lia.
Qed.

Lemma nth_sequence_before n i j :
  0 <= n -> (i < j)%nat -> Z.of_nat j - Z.of_nat i < 2 ^ 31 - 1 ->
  eigrp_packet_sequence_before (nth_sequence n i) (nth_sequence n j) = true
  /\ eigrp_packet_sequence_before (nth_sequence n j) (nth_sequence n i) = false.
Proof.
  intros Hn Hij Hd.
  assert (Hdiff : nth_sequence n j - nth_sequence n i = Z.of_nat j - Z.of_nat i
    \/ nth_sequence n j - nth_sequence n i = Z.of_nat j - Z.of_nat i - (2 ^ 32 - 1)).
  { unfold nth_sequence, UINT32_MAX. set (s := (if n =? 0 then 1 else n) - 1).
    Z.to_euclidean_division_equations. lia. }
  unfold eigrp_packet_sequence_before, u32.
  rewrite !(proj2 (Z.eqb_neq _ _)) by lia. cbn [negb andb]. rewrite Z.ltb_lt, Z.ltb_ge.
  Z.to_euclidean_division_equations. lia.
Qed.
End sequence.

(** ** Theorems *)

(** the retransmission timeout is always between 200 and 5000 ms and every
    estimate fits its 32 bits.  A sample moves the smoothed round trip towards it,
    never past it, closing at least an eighth of the distance (up to the truncated
    millisecond); the timeout is six times the result, clamped.  [k] successive
    backoffs multiply the timeout by 2^k up to the ceiling. *)
Theorem rto_estimator_bounds r :
  rtt_wf r ->
  (forall s, 0 <= s < 2 ^ 32 ->
     let r' := eigrp_nbr_rtt_sample r s in
     rtt_wf r' /\ srtt_valid r' = true
     /\ (if srtt_valid r
         then Z.min (srtt_msec r) s <= srtt_msec r' <= Z.max (srtt_msec r) s
              /\ 8 * Z.abs (s - srtt_msec r') <= 7 * Z.abs (s - srtt_msec r) + 8
         else srtt_msec r' = s)
     /\ rto_msec r' = clamp_rto (6 * srtt_msec r'))
  /\ (forall k, rto_msec (Nat.iter k eigrp_nbr_rto_backoff r)
                = Z.min EIGRP_TRANSPORT_RTO_MAX_MSEC (2 ^ Z.of_nat k * rto_msec r))
  /\ rtt_wf eigrp_nbr_rtt_clear.
Proof.
  intros Hr. split; [|split; [intros k; by apply backoff_iter|]].
  2: { split; simpl; unfold EIGRP_TRANSPORT_RTO_MIN_MSEC, EIGRP_TRANSPORT_RTO_MAX_MSEC,
         EIGRP_TRANSPORT_RTO_INITIAL_MSEC; lia. }
  intros s Hs r'. destruct Hr as [Hsr Hv _]. subst r'. unfold eigrp_nbr_rtt_sample.
  destruct (srtt_valid r); cbn [negb srtt_msec rto_msec rttvar_msec srtt_valid].
  - change (1 .<< EIGRP_NEIGHBOR_RTTVAR_BETA_SHIFT) with 4.
    change (1 .<< EIGRP_NEIGHBOR_SRTT_ALPHA_SHIFT) with 8.
    destruct (smooth_range (srtt_msec r) s) as [Hb Hc]; [lia|lia|].
    rewrite (proj2 (Z.ltb_ge (srtt_msec r + _) 0)) by lia. rewrite u32_small by lia.
    pose proof (variance_range (rttvar_msec r) (Z.abs (s - srtt_msec r)) Hv ltac:(lia)) as Hvar.
    replace (if s - srtt_msec r <? 0 then - (s - srtt_msec r) else s - srtt_msec r)
      with (Z.abs (s - srtt_msec r)) by (destruct (Z.ltb_spec (s - srtt_msec r) 0); lia).
    rewrite (proj2 (Z.ltb_ge (rttvar_msec r + _) 0)) by lia.
    rewrite rto_calculate_clamp by lia. repeat split; cbn [srtt_msec rto_msec rttvar_msec]; try lia;
      try apply u32_range; apply clamp_rto_range.
  - rewrite rto_calculate_clamp by lia.
    repeat split; cbn [srtt_msec rto_msec rttvar_msec]; try lia; try apply clamp_rto_range;
      Z.to_euclidean_division_equations; lia.
Qed.

(** C39: the pacing is a token bucket.  From any budget whatever, and so over any interval
    that begins with an offer, whatever data packets are offered in time order and with
    HELLOs in between, the bytes of data that go out cost no more than the interface's rate
    times the elapsed time and one bucket (a millisecond of bandwidth or one packet).  The
    wait asked for is exact: below its 32-bit cap, offered again [u] milliseconds later the
    packet has to wait for exactly what is left of it, so that it is sent after the wait
    and not a millisecond earlier. *)
Theorem pacing_conforms rate maxlen ei now len l :
  0 < rate < 2 ^ 62 -> 0 < maxlen < 2 ^ 16 ->
  timely maxlen now (Offer now len :: l) -> 0 <= now -> last_time now l < 2 ^ 64 ->
  (exists sent ei', pacing_run rate ei (Offer now len :: l) = Some (sent, ei')
     /\ sent <= (last_time now l - now) * rate + max_capacity rate maxlen)
  /\ forall t len' wait e e' u, 0 < len' <= maxlen -> 0 <= t -> t + UINT32_MAX < 2 ^ 64 ->
       eigrp_packet_pacing_delay_msec e rate len' t = Some (wait, e') -> wait < UINT32_MAX -> 0 <= u <= wait ->
       exists e'', eigrp_packet_pacing_delay_msec e' rate len' (t + u) = Some (wait - u, e'').
Proof.
  intros Hr Hm Ht Hnow Hlast. split; [|intros; by eapply (wait_remaining rate maxlen)].
  cbn [timely] in Ht. destruct Ht as (_ & Hlen & Ht). cbn [pacing_run].
  pose proof (timely_last maxlen l now Ht) as Hle.
  destruct (delay_any rate maxlen Hr Hm ei now len Hlen) as (wait & e1 & -> & Hok & El & _ & Hz & _); [lia|].
  assert (pacing_credit e1 <= max_capacity rate maxlen) by apply Hok.
  destruct (Z.eqb_spec wait 0) as [Ew|Ew].
  - destruct (charge_step rate maxlen now e1 len Hok) as (Hok2 & El2 & _ & Hc); [lia|].
    destruct (run_conforms rate maxlen Hr Hm l now _ Hok2 Ht Hlast) as (sent & ei' & -> & Hs & (_ & _ & _ & Hc') & _).
    eexists _, _. split; [done|]. rewrite El2, El, Hc in Hs by (by apply Hz). lia.
  - destruct (run_conforms rate maxlen Hr Hm l now _ Hok Ht Hlast) as (sent & ei' & -> & Hs & (_ & _ & _ & Hc') & _).
    eexists _, _. split; [done|]. rewrite El in Hs. lia.
Qed.

(** RTP sequence numbers are never 0, and within any run of fewer than 2^31 - 1
    reservations a number handed out earlier compares as earlier, never as later,
    across the wrap of the 32-bit counter included. *)
Theorem sequence_numbers_ordered n count i j a b :
  0 <= n < 2 ^ 32 -> Z.of_nat count < 2 ^ 31 -> (i < j)%nat ->
  reserve_many count n !! i = Some a -> reserve_many count n !! j = Some b ->
  0 < a < 2 ^ 32 /\ 0 < b < 2 ^ 32
  /\ eigrp_packet_sequence_before a b = true /\ eigrp_packet_sequence_before b a = false.
Proof.
  intros Hn Hc Hij Ha Hb.
  assert (Hlen : forall k x m, reserve_many m n !! k = Some x -> (k < length (reserve_many m n))%nat)
    by (intros; by eapply lookup_lt_Some).
  assert (El : length (reserve_many count n) = count).
  { clear. revert n. induction count; intros n; simpl; [done|]. by rewrite IHcount. }
  pose proof (Hlen _ _ _ Ha). pose proof (Hlen _ _ _ Hb).
  rewrite reserve_many_lookup in Ha, Hb by lia. injection Ha as <-. injection Hb as <-.
  pose proof (nth_sequence_range n i). pose proof (nth_sequence_range n j).
  split; [lia|]. split; [lia|]. apply nth_sequence_before; lia.
Qed.

(** ** Instances *)

Lemma rto_estimator_bounds_witness :
  let r := eigrp_nbr_rtt_sample eigrp_nbr_rtt_clear 100 in
  rto_msec r = 600 /\ rto_msec (Nat.iter 5 eigrp_nbr_rto_backoff r) = 5000.
Proof.
  assert (Hc : rtt_wf eigrp_nbr_rtt_clear) by (split; simpl; unfold EIGRP_TRANSPORT_RTO_MIN_MSEC,
    EIGRP_TRANSPORT_RTO_MAX_MSEC, EIGRP_TRANSPORT_RTO_INITIAL_MSEC; lia).
  destruct (rto_estimator_bounds _ Hc) as [Hs _]. destruct (Hs 100 ltac:(lia)) as (Hw & _ & _ & Hr).
  split; [exact Hr|]. destruct (rto_estimator_bounds _ Hw) as [_ [Hk _]]. exact (Hk 5%nat).
Defined.

(** 100 Mb/s at 50%: two full packets in the same millisecond; and a packet of 1500 bytes
    that finds the budget empty at 50000 credits a millisecond. *)
Lemma pacing_conforms_witness :
  (exists sent ei',
    pacing_run 5000000 {| pacing_initialized := false; pacing_last_msec := 0; pacing_rate := 0;
                          pacing_credit := 0 |} [Offer 10 1500; Offer 10 1500] = Some (sent, ei')
    /\ sent <= (10 - 10) * 5000000 + max_capacity 5000000 1500)
  /\ exists e'', eigrp_packet_pacing_delay_msec {| pacing_initialized := true; pacing_last_msec := 10; pacing_rate := 50000;
                          pacing_credit := 0 |} 50000 1500 (10 + 23) = Some (24 - 23, e'').
Proof.
  split.
  - apply (pacing_conforms 5000000 1500 _ 10 1500 [Offer 10 1500]); simpl; lia || reflexivity.
  - destruct (pacing_conforms 50000 1500 {| pacing_initialized := true; pacing_last_msec := 10; pacing_rate := 50000; pacing_credit := 0 |}
      10 1500 []) as [_ H]; [simpl; lia..|].
    apply (H 10 1500 24 {| pacing_initialized := true; pacing_last_msec := 10; pacing_rate := 50000; pacing_credit := 0 |});
      [lia|lia|unfold UINT32_MAX; lia|vm_compute; reflexivity|unfold UINT32_MAX; lia|lia].
Defined.

(** The wrap: the number after 2^32 - 1 is 1 and counts as later. *)
Lemma sequence_numbers_ordered_witness :
  eigrp_packet_sequence_before 4294967295 1 = true.
Proof.
  refine (proj1 (proj2 (proj2 (sequence_numbers_ordered 4294967295 2 0 1 4294967295 1 _ _ _ _ _))));
    lia || reflexivity.
Defined.
