(* ===== verification/Transport.v ===== *)
(** * The transmit path and the reliable transport (eigrp_packet.c)

    Packet queues, reliable unicast with acknowledgement and retransmission, the
    deferred reliable multicast with its admission, and the paced writer, on a
    store of neighbors and interfaces.

    A queue is the list of its packets, the oldest (the C queue's tail) first; a
    packet is on one queue only, so the queue holds its value.  The stream of a
    packet is the header laid over its first bytes and the bytes after it. *)

From Stdlib Require Import ZArith Lia.
From stdpp Require Import base gmap list.
From S2P Require Import Prelude Types Rtt.

Definition EIGRP_HEADER_LEN : Z := 20.
Definition EIGRP_CR_FLAG : Z := 0x02.
Definition EIGRP_TRANSPORT_RETRANS_MAX : Z := 16.
Definition EIGRP_MULTICAST_RELIABLE_MAX : Z := 4.
Definition EIGRP_PACKET_ALLOCATION_RETRY_MSEC : Z := 250.
Definition EIGRP_MULTICAST_RETRY_MSEC : Z := 250.

(** ** Data *)

Record eigrp_header := {
  hd_version : Z; hd_opcode : Z; hd_checksum : Z; hd_flags : Z;
  hd_sequence : Z; hd_ack : Z; hd_vrid : Z; hd_ASNumber : Z;
}.

(** [t_retrans_timer] is the due time of the pending timer. *)
Record eigrp_packet := {
  pk_header : eigrp_header;
  pk_body : list Z;
  pk_dst : eigrp_addr;
  t_retrans_timer : option Z;
  retrans_counter : Z;
  pk_nbr : option ptr;
  sequence_number : Z;
  retransmission : bool;
  retry_queued : bool;
  multicast_exception : bool;
  pk_epoch : Z;
  sent_msec : Z;
  pk_length : Z;
}.

(** The neighbor fields the transport uses. *)
Record tx_nbr := {
  xn_ei : ptr;
  xn_state : Z;
  xn_epoch : Z;
  init_sequence_number : Z;
  recv_sequence_number : Z;
  xn_rtt : eigrp_rtt;
  xn_src : eigrp_addr;
  retrans_queue : list eigrp_packet;
}.

(** The interface fields the transport uses; [hello_overhead] is the length of a
    sequence HELLO before its addresses, authentication included. *)
Record tx_intf := {
  xi_nbrs : list ptr;
  obuf : list eigrp_packet;
  multicast_pending : list eigrp_packet;
  xi_epoch : Z;
  multicast_backoff : bool;
  multicast_waiting : bool;
  multicast_backoff_count : Z;
  t_multicast_retry : option Z;
  on_write_q : bool;
  xi_bandwidth : Z;
  xi_curr_bandwidth : Z;
  xi_percent : Z;
  xi_pacing : eigrp_pacing;
  pacing_tx_bytes : Z;
  pacing_defer_count : Z;
  pacing_defer_msec : Z;
  xi_mtu : Z;
  hello_overhead : Z;
}.

(** [tx_mem] answers the next allocations, [tx_sends] the next packets handed to
    the host after authentication; both mean success once exhausted.  [tx_wire] is
    what was handed over successfully. *)
Record transmit := {
  tx_nbrs : gmap ptr tx_nbr;
  tx_intfs : gmap ptr tx_intf;
  oi_write_q : list ptr;
  t_write : bool;
  t_pacing : option Z;
  tx_multicast : eigrp_addr;
  packet_address_bytes : Z;
  tx_clock : Z;
  tx_stopped : bool;
  tx_mem : list bool;
  tx_sends : list bool;
  tx_wire : list (ptr * eigrp_packet);
}.

Abbreviation Tx := (M transmit).

Definition x_calloc : Tx bool := fun s =>
  match tx_mem s with
  | [] => Some (true, s)
  | b :: m => Some (b, {| s with tx_mem := m |})
  end.

Definition host_send : Tx bool := fun s =>
  match tx_sends s with
  | [] => Some (true, s)
  | b :: m => Some (b, {| s with tx_sends := m |})
  end.

Definition get_xn (n : ptr) : Tx tx_nbr := o ← gets (fun s => tx_nbrs s !! n); nonnull o.
Definition get_xi (i : ptr) : Tx tx_intf := o ← gets (fun s => tx_intfs s !! i); nonnull o.
Definition upd_xn (n : ptr) (f : tx_nbr -> tx_nbr) : Tx unit :=
  d ← get_xn n; modify (fun s => {| s with tx_nbrs := <[n := f d]> (tx_nbrs s) |}).
Definition upd_xi (i : ptr) (f : tx_intf -> tx_intf) : Tx unit :=
  d ← get_xi i; modify (fun s => {| s with tx_intfs := <[i := f d]> (tx_intfs s) |}).

(** [eigrp_timer_add]: the new value of the owner's timer field. *)
Definition timer_add (delay_msec : Z) : Tx (option Z) :=
  ok ← x_calloc;
  if negb ok then mret None
  else
    now ← gets tx_clock;
    stopped ← gets tx_stopped;
    mret (if stopped : bool then None else Some (u64 (now + delay_msec))).

(** ** Queues *)

Definition eigrp_packet_enqueue (queue : list eigrp_packet) (packet : eigrp_packet)
    : list eigrp_packet := queue ++ [packet].

Definition eigrp_packet_queue_next (queue : list eigrp_packet) : option eigrp_packet := head queue.

Definition eigrp_packet_dequeue (queue : list eigrp_packet)
    : option eigrp_packet * list eigrp_packet := (head queue, tail queue).

Fixpoint eigrp_packet_reliable_ordered_enqueue (queue : list eigrp_packet) (packet : eigrp_packet)
    : list eigrp_packet :=
  match queue with
  | [] => eigrp_packet_enqueue [] packet
  | at_ :: queue' =>
      if negb (eigrp_packet_sequence_before (sequence_number at_) (sequence_number packet))
      then packet :: queue
      else at_ :: eigrp_packet_reliable_ordered_enqueue queue' packet
  end.

Fixpoint prior_count (queue : list eigrp_packet) (sequence : Z) : Z :=
  match queue with
  | [] => 0
  | queued :: queue' =>
      if negb (eigrp_packet_sequence_before (sequence_number queued) sequence) then 0
      else 1 + prior_count queue' sequence
  end.

Definition eigrp_packet_reliable_prior_count (nbr : tx_nbr) (sequence : Z) : Z :=
  prior_count (retrans_queue nbr) sequence.

Definition eigrp_packet_multicast_peer_eligible (nbr : tx_nbr) (epoch : Z) : bool :=
  (xn_state nbr =? EIGRP_NEIGHBOR_UP) && negb (xn_epoch nbr =? 0) && (xn_epoch nbr <=? epoch).

Definition is_hello (packet : eigrp_packet) : bool :=
  (EIGRP_HEADER_LEN <=? pk_length packet) && (hd_opcode (pk_header packet) =? EIGRP_OPC_HELLO).

(** [224.0.0.10] or an IPv6 multicast address. *)
Definition eigrp_packet_destination_is_multicast (packet : eigrp_packet) : bool :=
  if addr_afi (pk_dst packet) =? AF_INET
  then bool_decide (take 4 (addr_ip (pk_dst packet)) = [224; 0; 0; 10])
  else if addr_afi (pk_dst packet) =? AF_INET6
  then bool_decide (head (addr_ip (pk_dst packet)) = Some 0xff)
  else false.

(** [eigrp_packet_create] and the copy of [eigrp_packet_dup]: the packet, its stream
    and the stream's data are allocated. *)
Definition eigrp_packet_dup (old : eigrp_packet) (nbr : ptr) : Tx (option eigrp_packet) :=
  ok ← x_calloc;
  if negb ok then mret None
  else
    ok ← x_calloc;
    if negb ok then mret None
    else
      ok ← (if pk_length old =? 0 then mret true else x_calloc);
      if negb ok then mret None
      else
        mret (Some {| pk_header := pk_header old; pk_body := pk_body old; pk_dst := pk_dst old;
                      t_retrans_timer := None; retrans_counter := retrans_counter old;
                      pk_nbr := Some nbr; sequence_number := sequence_number old;
                      retransmission := false; retry_queued := false;
                      multicast_exception := false; pk_epoch := 0; sent_msec := 0;
                      pk_length := pk_length old |}).

(** ** Output *)

Definition eigrp_packet_write_schedule : Tx unit :=
  modify (fun s => {| s with t_write := true |}).

(** [eigrp_list_add(oi_write_q, ei); ei->on_write_q = 1]: the result of the
    allocation is not tested. *)
Definition write_q_add (ei : ptr) : Tx unit :=
  ok ← x_calloc;
  when ok (modify (fun s => {| s with oi_write_q := oi_write_q s ++ [ei] |}));;
  upd_xi ei (fun d => {| d with on_write_q := true |}).

Definition eigrp_packet_output_enqueue (ei : ptr) (packet : eigrp_packet) : Tx unit :=
  upd_xi ei (fun d => {| d with obuf :=
    if is_hello packet then packet :: obuf d else eigrp_packet_enqueue (obuf d) packet |});;
  d ← get_xi ei;
  when (negb (on_write_q d)) (write_q_add ei);;
  eigrp_packet_write_schedule.

Definition output_match (nbr : ptr) (sequence : Z) (retries_only : bool) (packet : eigrp_packet) : bool :=
  bool_decide (pk_nbr packet = Some nbr)
  && (negb retries_only || (retransmission packet && (sequence_number packet =? sequence))).

Definition eigrp_packet_neighbor_output_drop (nbr : ptr) (sequence : Z) (retries_only : bool) : Tx unit :=
  n ← get_xn nbr;
  upd_xi (xn_ei n) (fun d => {| d with obuf :=
    List.filter (fun p => negb (output_match nbr sequence retries_only p)) (obuf d) |});;
  d ← get_xi (xn_ei n);
  when (bool_decide (obuf d = []) && on_write_q d)
    (modify (fun s => {| s with oi_write_q := remove_first (Nat.eqb (xn_ei n)) (oi_write_q s) |});;
     upd_xi (xn_ei n) (fun d => {| d with on_write_q := false |})).

Definition eigrp_packet_neighbor_output_clear (nbr : ptr) : Tx unit :=
  eigrp_packet_neighbor_output_drop nbr 0 false.

Definition eigrp_packet_neighbor_retry_cancel (nbr : ptr) (sequence : Z) : Tx unit :=
  eigrp_packet_neighbor_output_drop nbr sequence true.

Definition eigrp_packet_interface_output_clear (ei : ptr) : Tx unit :=
  d ← get_xi ei;
  when (on_write_q d)
    (modify (fun s => {| s with oi_write_q := remove_first (Nat.eqb ei) (oi_write_q s) |}));;
  upd_xi ei (fun d => {| d with on_write_q := false; obuf := [] |}).

(** ** Reliable unicast *)

(** Assignment to the packet at the head of a neighbor's reliable queue. *)
Definition upd_head (nbr : ptr) (f : eigrp_packet -> eigrp_packet) : Tx unit :=
  upd_xn nbr (fun d => {| d with retrans_queue :=
    match retrans_queue d with [] => [] | p :: q => f p :: q end |}).

Definition eigrp_packet_retransmit_timer_start (nbr : ptr) : Tx unit :=
  n ← get_xn nbr;
  match eigrp_packet_queue_next (retrans_queue n) with
  | None => mret tt
  | Some _ =>
      due ← timer_add (eigrp_nbr_rto (xn_rtt n));
      upd_head nbr (fun p => {| p with t_retrans_timer := due |})
  end.

Definition eigrp_packet_allocation_retry (nbr : ptr) : Tx unit :=
  due ← timer_add EIGRP_PACKET_ALLOCATION_RETRY_MSEC;
  upd_head nbr (fun p => {| p with t_retrans_timer := due |}).

Fixpoint behind_multicast (nbr : tx_nbr) (pending : list eigrp_packet) (sequence : Z) : bool :=
  match pending with
  | [] => false
  | p :: pending' =>
      if negb (eigrp_packet_sequence_before (sequence_number p) sequence) then false
      else if eigrp_packet_multicast_peer_eligible nbr (pk_epoch p) then true
      else behind_multicast nbr pending' sequence
  end.

Definition eigrp_packet_unicast_behind_multicast (nbr : tx_nbr) (sequence : Z) : Tx bool :=
  ei ← get_xi (xn_ei nbr); mret (behind_multicast nbr (multicast_pending ei) sequence).

Definition eigrp_packet_send_reliably (nbr : ptr) : Tx unit :=
  n ← get_xn nbr;
  match eigrp_packet_queue_next (retrans_queue n) with
  | None => mret tt
  | Some packet =>
      behind ← eigrp_packet_unicast_behind_multicast n (sequence_number packet);
      if behind : bool then mret tt
      else
        duplicate ← eigrp_packet_dup packet nbr;
        match duplicate with
        | None => eigrp_packet_allocation_retry nbr
        | Some duplicate =>
            eigrp_packet_output_enqueue (xn_ei n)
              {| duplicate with multicast_exception := eigrp_packet_destination_is_multicast packet;
                                pk_dst := xn_src n |}
        end
  end.

(** [eigrp_update_neighbor_packet_queue] (eigrp_update.c): a new reliable unicast. *)
Definition eigrp_update_neighbor_packet_queue (nbr : ptr) (packet : eigrp_packet) : Tx unit :=
  n ← get_xn nbr;
  upd_xn nbr (fun d => {| d with retrans_queue := eigrp_packet_enqueue (retrans_queue d) packet |});;
  when (bool_decide (retrans_queue n = [])) (eigrp_packet_send_reliably nbr).

(** The timer callback.  [teardown] is [eigrp_packet_retransmit_limit_exceeded]: the
    neighbor is taken down and deleted. *)
Definition eigrp_packet_unack_retrans (teardown : ptr -> Tx unit) (nbr : ptr) : Tx unit :=
  n ← get_xn nbr;
  match eigrp_packet_queue_next (retrans_queue n) with
  | None => mret tt
  | Some packet =>
      if retry_queued packet then mret tt
      else if EIGRP_TRANSPORT_RETRANS_MAX <=? retrans_counter packet then teardown nbr
      else
        duplicate ← eigrp_packet_dup packet nbr;
        match duplicate with
        | None => eigrp_packet_allocation_retry nbr
        | Some duplicate =>
            when (negb (sent_msec packet =? 0))
              (upd_xn nbr (fun d => {| d with xn_rtt := eigrp_nbr_rto_backoff (xn_rtt d) |}));;
            upd_head nbr (fun p => {| p with retry_queued := true |});;
            eigrp_packet_output_enqueue (xn_ei n)
              {| duplicate with retransmission := negb (sent_msec packet =? 0);
                                multicast_exception := eigrp_packet_destination_is_multicast packet;
                                pk_dst := xn_src n |}
        end
  end.

(** *** What the wire send reports back *)

Definition eigrp_packet_reliable_neighbor_send_update (nbr : ptr) (sequence now_msec : Z) : Tx unit :=
  if sequence =? 0 then mret tt
  else
    n ← get_xn nbr;
    match eigrp_packet_queue_next (retrans_queue n) with
    | None => mret tt
    | Some queued =>
        if negb (sequence_number queued =? sequence) || negb (sent_msec queued =? 0) then mret tt
        else
          upd_head nbr (fun p => {| p with sent_msec := now_msec |});;
          eigrp_packet_retransmit_timer_start nbr
    end.

Definition eigrp_packet_reliable_first_send_update (ei : ptr) (packet : eigrp_packet) : Tx unit :=
  if (sequence_number packet =? 0) || retransmission packet then mret tt
  else
    now ← gets tx_clock;
    match pk_nbr packet with
    | Some nbr => eigrp_packet_reliable_neighbor_send_update nbr (sequence_number packet) now
    | None =>
        d ← get_xi ei;
        mfor (xi_nbrs d) (fun nbr =>
          eigrp_packet_reliable_neighbor_send_update nbr (sequence_number packet) now)
    end.

Definition eigrp_packet_reliable_send_update (ei : ptr) (packet : eigrp_packet) : Tx unit :=
  if sequence_number packet =? 0 then mret tt
  else if negb (retransmission packet) then eigrp_packet_reliable_first_send_update ei packet
  else
    match pk_nbr packet with
    | None => mret tt
    | Some nbr =>
        n ← get_xn nbr;
        match eigrp_packet_queue_next (retrans_queue n) with
        | None => mret tt
        | Some head_ =>
            if negb (sequence_number head_ =? sequence_number packet) then mret tt
            else
              upd_head nbr (fun p => {| p with retry_queued := false;
                                               retrans_counter := u8 (retrans_counter p + 1) |});;
              eigrp_packet_retransmit_timer_start nbr
        end
    end.

(** The timer is started again for a head with the packet's sequence number. *)
Definition restart_if_head (nbr : ptr) (sequence : Z) : Tx unit :=
  n ← get_xn nbr;
  match eigrp_packet_queue_next (retrans_queue n) with
  | None => mret tt
  | Some queued =>
      when (sequence_number queued =? sequence) (eigrp_packet_retransmit_timer_start nbr)
  end.

Definition eigrp_packet_reliable_send_failure_update (ei : ptr) (packet : eigrp_packet) : Tx unit :=
  if sequence_number packet =? 0 then mret tt
  else if retransmission packet then
    match pk_nbr packet with
    | None => mret tt
    | Some nbr =>
        n ← get_xn nbr;
        match eigrp_packet_queue_next (retrans_queue n) with
        | None => mret tt
        | Some queued =>
            when (sequence_number queued =? sequence_number packet)
              (upd_head nbr (fun p => {| p with retry_queued := false |});;
               eigrp_packet_retransmit_timer_start nbr)
        end
    end
  else
    match pk_nbr packet with
    | Some nbr => restart_if_head nbr (sequence_number packet)
    | None =>
        d ← get_xi ei;
        mfor (xi_nbrs d) (fun nbr => restart_if_head nbr (sequence_number packet))
    end.

(** ** Reliable multicast *)

(** The eligible receivers of the packet, in the order of the interface's list. *)
Fixpoint eligible_peers (nbrs : list ptr) (epoch : Z) : Tx (list (ptr * tx_nbr)) :=
  match nbrs with
  | [] => mret []
  | nbr :: nbrs' =>
      n ← get_xn nbr;
      rest ← eligible_peers nbrs' epoch;
      mret (if eigrp_packet_multicast_peer_eligible n epoch then (nbr, n) :: rest else rest)
  end.

Definition eigrp_packet_multicast_resume (ei : ptr) : Tx unit :=
  d ← get_xi ei;
  match multicast_pending d, t_multicast_retry d with
  | packet :: _, None =>
      peers ← eligible_peers (xi_nbrs d) (pk_epoch packet);
      let busy n := negb (eigrp_packet_reliable_prior_count n (sequence_number packet) =? 0) in
      let any_outstanding := existsb (fun '(_, n) => busy n) peers in
      let any_ready := existsb (fun '(_, n) => negb (busy n)) peers in
      let any_receivers := negb (bool_decide (peers = [])) in
      if multicast_backoff d && any_outstanding then mret tt
      else
        upd_xi ei (fun d => {| d with multicast_backoff := false |});;
        if multicast_waiting d && any_receivers && negb any_ready then mret tt
        else
          upd_xi ei (fun d => {| d with multicast_waiting := false |});;
          when (negb (on_write_q d)) (write_q_add ei);;
          eigrp_packet_write_schedule
  | _, _ => mret tt
  end.

Definition eigrp_packet_multicast_reliable_enqueue (ei : ptr) (packet : eigrp_packet) : Tx bool :=
  if sequence_number packet =? 0 then mret false
  else
    upd_xi ei (fun d => {| d with multicast_pending :=
      eigrp_packet_enqueue (multicast_pending d) {| packet with pk_epoch := xi_epoch d |} |});;
    eigrp_packet_multicast_resume ei;;
    mret true.

(** [eigrp_hello_sequence_fits] (eigrp_hello.c). *)
Definition eigrp_packet_payload_limit (interface_mtu : Z) : Z :=
  if interface_mtu <=? 20 then 0 else interface_mtu - 20.

Definition eigrp_hello_sequence_fits (d : tx_intf) (address_length : Z)
    (peers : list (ptr * tx_nbr)) (sequence : Z) : bool :=
  let busy := List.filter (fun '(_, n) =>
                negb (eigrp_packet_reliable_prior_count n sequence =? 0)) peers in
  hello_overhead d + address_length * Z.of_nat (length busy) <=? eigrp_packet_payload_limit (xi_mtu d).

(** The copies for the receivers; [None] when one could not be allocated. *)
Fixpoint dup_all (packet : eigrp_packet) (peers : list (ptr * tx_nbr)) : Tx (option (list eigrp_packet)) :=
  match peers with
  | [] => mret (Some [])
  | (nbr, _) :: peers' =>
      c ← eigrp_packet_dup packet nbr;
      match c with
      | None => mret None
      | Some c =>
          rest ← dup_all packet peers';
          mret (match rest with None => None | Some l => Some (c :: l) end)
      end
  end.

Definition set_cr (packet : eigrp_packet) : eigrp_packet :=
  let header := pk_header packet in
  {| packet with pk_header := {| header with hd_flags := hd_flags header .| EIGRP_CR_FLAG |} |}.

(** The reliable queue of each receiver gets its copy. *)
Definition enqueue_copies (copies : list eigrp_packet) (peers : list (ptr * tx_nbr)) : Tx unit :=
  mfor (zip peers copies) (fun '((nbr, _), c) =>
    upd_xn nbr (fun d => {| d with retrans_queue :=
      eigrp_packet_reliable_ordered_enqueue (retrans_queue d) c |})).

Definition admission_failed (ei : ptr) : Tx bool :=
  due ← timer_add EIGRP_MULTICAST_RETRY_MSEC;
  upd_xi ei (fun d => {| d with t_multicast_retry := due |});;
  mret false.

Definition admission_backoff (ei : ptr) : Tx bool :=
  upd_xi ei (fun d => {| d with multicast_backoff := true;
                               multicast_backoff_count := u64 (multicast_backoff_count d + 1) |});;
  mret false.

Section admission.
(** [eigrp_hello_encode] for the sequence HELLO (eigrp_hello.c): the packet, or no
    memory for it. *)
Context (hello_encode : ptr -> Z -> Z -> Tx (option eigrp_packet)).

Definition eigrp_hello_send_sequence (ei : ptr) (sequence epoch : Z) : Tx bool :=
  if sequence =? 0 then mret false
  else
    packet ← hello_encode ei sequence epoch;
    match packet with
    | None => mret false
    | Some packet =>
        upd_xi ei (fun d => {| d with obuf := eigrp_packet_enqueue (obuf d) packet |});;
        d ← get_xi ei;
        when (negb (on_write_q d)) (write_q_add ei);;
        eigrp_packet_write_schedule;;
        mret true
    end.

Definition eigrp_packet_multicast_admit (ei : ptr) : Tx bool :=
  d ← get_xi ei;
  if multicast_backoff d || multicast_waiting d || bool_decide (is_Some (t_multicast_retry d))
  then mret false
  else
    match multicast_pending d with
    | [] => mret false
    | packet :: pending =>
        peers ← eligible_peers (xi_nbrs d) (pk_epoch packet);
        let prior n := eigrp_packet_reliable_prior_count n (sequence_number packet) in
        let busy := existsb (fun '(_, n) => negb (prior n =? 0)) peers in
        let ready := existsb (fun '(_, n) => prior n =? 0) peers in
        if existsb (fun '(_, n) => EIGRP_MULTICAST_RELIABLE_MAX <=? prior n) peers
        then admission_backoff ei
        else if bool_decide (peers = []) then
          upd_xi ei (fun d => {| d with multicast_pending := pending |});;
          eigrp_packet_multicast_resume ei;;
          mret false
        else if negb ready then
          upd_xi ei (fun d => {| d with multicast_waiting := true |});;
          mret false
        else
          address_bytes ← gets packet_address_bytes;
          if busy && negb (eigrp_hello_sequence_fits d (address_bytes + 1) peers (sequence_number packet))
          then admission_backoff ei
          else
            group ← gets tx_multicast;
            let packet := {| packet with pk_dst := group |} in
            upd_xi ei (fun d => {| d with multicast_pending := packet :: pending |});;
            receivers_ok ← x_calloc;
            copies_ok ← x_calloc;
            if negb receivers_ok || negb copies_ok then admission_failed ei
            else
              copies ← dup_all packet peers;
              match copies with
              | None => admission_failed ei
              | Some copies =>
                  sent ← (if busy then eigrp_hello_send_sequence ei (sequence_number packet) (pk_epoch packet)
                          else mret true);
                  if negb sent then admission_failed ei
                  else
                    let packet := if busy then set_cr packet else packet in
                    let copies := if busy then set_cr <$> copies else copies in
                    enqueue_copies copies peers;;
                    upd_xi ei (fun d => {| d with multicast_pending := pending |});;
                    eigrp_packet_output_enqueue ei packet;;
                    mret true
              end
    end.
End admission.

(** ** Acknowledgement *)

Section acknowledgement.
(** The transition of the neighbor to UP ([eigrp_nbr_state_update]) and the calls
    into the update module: the end-of-table packet and the table snapshot. *)
Context (nbr_up send_EOT sync_continue : ptr -> Tx unit).

Definition eigrp_packet_ack (nbr : ptr) (ack sequence : Z) : Tx unit :=
  n ← get_xn nbr;
  match eigrp_packet_queue_next (retrans_queue n) with
  | None => mret tt
  | Some packet =>
      if negb (ack =? sequence_number packet) then mret tt
      else
        now ← gets tx_clock;
        upd_xn nbr (fun d => {| d with xn_rtt :=
          eigrp_nbr_srtt_update (xn_rtt d) (retrans_counter packet) (sent_msec packet) now |});;
        when (retry_queued packet) (eigrp_packet_neighbor_retry_cancel nbr ack);;
        upd_xn nbr (fun d => {| d with retrans_queue := snd (eigrp_packet_dequeue (retrans_queue d)) |});;
        eigrp_packet_multicast_resume (xn_ei n);;
        if (xn_state n =? EIGRP_NEIGHBOR_PENDING) && (ack =? init_sequence_number n) then
          nbr_up nbr;;
          upd_xn nbr (fun d => {| d with init_sequence_number := 0; recv_sequence_number := sequence |});;
          send_EOT nbr
        else
          eigrp_packet_send_reliably nbr;;
          sync_continue nbr
  end.
End acknowledgement.

(** ** The writer *)

Definition intf_rate (d : tx_intf) : Z :=
  eigrp_packet_pacing_rate (xi_bandwidth d) (xi_curr_bandwidth d) (xi_percent d).

(** [eigrp_packet_wire_send]: the authentication and the host's send answer once. *)
Definition eigrp_packet_wire_send (ei : ptr) (packet : eigrp_packet) : Tx unit :=
  ret ← host_send;
  (if ret : bool then
     upd_xi ei (fun d => {| d with pacing_tx_bytes := u64 (pacing_tx_bytes d + pk_length packet) |});;
     modify (fun s => {| s with tx_wire := tx_wire s ++ [(ei, packet)] |});;
     eigrp_packet_reliable_send_update ei packet
   else eigrp_packet_reliable_send_failure_update ei packet);;
  upd_xi ei (fun d => {| d with xi_pacing := eigrp_packet_pacing_charge (xi_pacing d) (pk_length packet) |}).

(** The last HELLO of an interface, sent past the queue. *)
Definition eigrp_packet_goodbye_send (ei : ptr) (packet : eigrp_packet) : Tx unit :=
  when (is_hello packet && (hd_sequence (pk_header packet) =? 0)) (eigrp_packet_wire_send ei packet).

Section writer.
Context (hello_encode : ptr -> Z -> Z -> Tx (option eigrp_packet)).

(** One candidate interface: its next packet and the wait it asks for. *)
Definition candidate_wait (ei : ptr) (now : Z) : Tx (option Z) :=
  d ← get_xi ei;
  (if bool_decide (obuf d = []) && negb (bool_decide (multicast_pending d = []))
      && negb (multicast_backoff d) && negb (multicast_waiting d)
      && bool_decide (t_multicast_retry d = None)
   then eigrp_packet_multicast_admit hello_encode ei else mret false);;
  d ← get_xi ei;
  match eigrp_packet_queue_next (obuf d) with
  | None => mret None
  | Some pending =>
      if is_hello pending then mret (Some 0)
      else
        '(wait, pacing) ← nonnull (eigrp_packet_pacing_delay_msec (xi_pacing d) (intf_rate d)
                                     (pk_length pending) now);
        upd_xi ei (fun d => {| d with xi_pacing := pacing |});;
        mret (Some wait)
  end.

(** The walk over the write queue: the first interface that need not wait, or the
    shortest wait and its interface. *)
Fixpoint write_select (q : list ptr) (now earliest : Z) (earliest_ei : option ptr)
    : Tx (option ptr * (Z * option ptr)) :=
  match q with
  | [] => mret (None, (earliest, earliest_ei))
  | ei :: q' =>
      wait ← candidate_wait ei now;
      match wait with
      | None => write_select q' now earliest earliest_ei
      | Some wait =>
          if wait =? 0 then mret (Some ei, (earliest, earliest_ei))
          else if wait <? earliest then write_select q' now wait (Some ei)
          else write_select q' now earliest earliest_ei
      end
  end.

Definition wants_write (d : tx_intf) : bool :=
  negb (bool_decide (obuf d = []))
  || (negb (bool_decide (multicast_pending d = [])) && negb (multicast_backoff d)
      && negb (multicast_waiting d) && bool_decide (t_multicast_retry d = None)).

Definition write_reschedule : Tx unit :=
  q ← gets oi_write_q;
  found ← mfind q (fun ei => d ← get_xi ei; mret (wants_write d));
  when (bool_decide (is_Some found)) eigrp_packet_write_schedule.

Definition eigrp_packet_write : Tx unit :=
  now ← gets tx_clock;
  q ← gets oi_write_q;
  '(node, (earliest, earliest_ei)) ← write_select q now UINT32_MAX None;
  match node with
  | None =>
      when (negb (earliest =? UINT32_MAX))
        (pacing ← gets t_pacing;
         (match pacing, earliest_ei with
          | None, Some ei =>
              upd_xi ei (fun d => {| d with pacing_defer_count := u64 (pacing_defer_count d + 1);
                                            pacing_defer_msec := u64 (pacing_defer_msec d + earliest) |})
          | _, _ => mret tt
          end);;
         due ← timer_add earliest;
         modify (fun s => {| s with t_pacing := due |}))
  | Some ei =>
      modify (fun s => {| s with t_pacing := None |});;
      d ← get_xi ei;
      packet ← nonnull (eigrp_packet_queue_next (obuf d));
      when (EIGRP_HEADER_LEN <=? pk_length packet) (eigrp_packet_wire_send ei packet);;
      upd_xi ei (fun d => {| d with obuf := snd (eigrp_packet_dequeue (obuf d)) |});;
      d ← get_xi ei;
      when (bool_decide (obuf d = []) && bool_decide (multicast_pending d = []))
        (upd_xi ei (fun d => {| d with on_write_q := false |});;
         modify (fun s => {| s with oi_write_q := remove_first (Nat.eqb ei) (oi_write_q s) |}));;
      d ← get_xi ei;
      when (on_write_q d)
        (modify (fun s => {| s with oi_write_q := remove_first (Nat.eqb ei) (oi_write_q s) ++ [ei] |}));;
      write_reschedule
  end.
End writer.
