(* ===== verification/TransportProps.v ===== *)
(** * Properties of the transmit path (eigrp_packet.c) *)

From Stdlib Require Import ZArith Lia Sorted.
From stdpp Require Import base gmap list.
From S2P Require Import Prelude Types Rtt RttProps Transport.

(** ** Rules of the store *)

Definition set_xn (s : transmit) (n : ptr) (d : tx_nbr) : transmit :=
  {| s with tx_nbrs := <[n := d]> (tx_nbrs s) |}.
Definition set_xi (s : transmit) (i : ptr) (d : tx_intf) : transmit :=
  {| s with tx_intfs := <[i := d]> (tx_intfs s) |}.

Section store_rules.
(** Two statements before a third. *)
Lemma wp_two {S} (a b : M S unit) {A} (k : M S A) Q s :
  wp (a;; b;; k) Q s <-> wp (a;; b) (fun _ s' => wp k Q s') s.
Proof. rewrite !wp_bind. unfold wp at 1 3. destruct (a s) as [[u s1]|]; [|done]. by rewrite wp_bind. Qed.

Lemma wp_get_xn n s d (Q : tx_nbr -> transmit -> Prop) :
  tx_nbrs s !! n = Some d -> Q d s -> wp (get_xn n) Q s.
Proof. intros H. unfold get_xn, wp, mbind, M_bind, gets. by rewrite H. Qed.
Lemma wp_get_xi i s d (Q : tx_intf -> transmit -> Prop) :
  tx_intfs s !! i = Some d -> Q d s -> wp (get_xi i) Q s.
Proof. intros H. unfold get_xi, wp, mbind, M_bind, gets. by rewrite H. Qed.
Lemma wp_upd_xn n f s d (Q : unit -> transmit -> Prop) :
  tx_nbrs s !! n = Some d -> Q tt (set_xn s n (f d)) -> wp (upd_xn n f) Q s.
Proof. intros H HQ. apply wp_bind. by eapply wp_get_xn. Qed.
Lemma wp_upd_xi i f s d (Q : unit -> transmit -> Prop) :
  tx_intfs s !! i = Some d -> Q tt (set_xi s i (f d)) -> wp (upd_xi i f) Q s.
Proof. intros H HQ. apply wp_bind. by eapply wp_get_xi. Qed.

Lemma wp_x_calloc s (Q : bool -> transmit -> Prop) :
  (forall b m, (tx_mem s = [] -> b = true /\ m = []) -> Q b {| s with tx_mem := m |}) ->
  wp x_calloc Q s.
Proof.
  intros HQ. unfold wp, x_calloc. destruct s as [? ? ? ? ? ? ? ? ? [|b m] ? ?]; simpl in *.
  - by apply (HQ true []).
  - apply (HQ b m). discriminate.
Qed.

(** A timer only consumes an allocation. *)
Lemma wp_tx_timer_add delay s (Q : option Z -> transmit -> Prop) :
  (forall due m, Q due {| s with tx_mem := m |}) -> wp (timer_add delay) Q s.
Proof.
  intros HQ. unfold timer_add. apply wp_bind, wp_x_calloc. intros b m _.
  destruct b; cbn [negb]; [|by apply wp_ret].
  apply wp_bind, wp_gets. apply wp_bind, wp_gets. by apply wp_ret.
Qed.

(** A copy only consumes allocations; what it is made of. *)
Definition copy_of (old : eigrp_packet) (nbr : ptr) : eigrp_packet :=
  {| pk_header := pk_header old; pk_body := pk_body old; pk_dst := pk_dst old;
     t_retrans_timer := None; retrans_counter := retrans_counter old;
     pk_nbr := Some nbr; sequence_number := sequence_number old;
     retransmission := false; retry_queued := false;
     multicast_exception := false; pk_epoch := 0; sent_msec := 0; pk_length := pk_length old |}.

Lemma wp_packet_dup old nbr s (Q : option eigrp_packet -> transmit -> Prop) :
  (forall m, Q (Some (copy_of old nbr)) {| s with tx_mem := m |}) ->
  (forall m, tx_mem s <> [] -> Q None {| s with tx_mem := m |}) ->
  wp (eigrp_packet_dup old nbr) Q s.
Proof.
  intros HS HN. unfold eigrp_packet_dup.
  apply wp_bind, wp_x_calloc. intros [] m1 H1; cbn [negb]; [|apply wp_ret, HN; naive_solver].
  apply wp_bind, wp_x_calloc. intros [] m2 H2; cbn [negb tx_mem] in *; [|apply wp_ret, HN; naive_solver].
  apply wp_bind. destruct (pk_length old =? 0); [apply wp_ret; cbn [negb]; by apply wp_ret, HS|].
  apply wp_x_calloc. intros [] m3 H3; cbn [negb tx_mem] in *; [by apply wp_ret, HS|].
  apply wp_ret, HN. naive_solver.
Qed.
End store_rules.

(** ** What scheduling changes *)

(** The interface [ei] rewritten, with the write queue and the allocator moved on. *)
Definition resched (s : transmit) (ei : ptr) (d : tx_intf) (wq : list ptr) (tw : bool) (m : list bool)
    : transmit :=
  {| s with tx_intfs := <[ei := d]> (tx_intfs s); oi_write_q := wq; t_write := tw; tx_mem := m |}.

(** The scheduling flags of an interface. *)
Definition reflag (d : tx_intf) (w b a : bool) : tx_intf :=
  {| d with on_write_q := w; multicast_backoff := b; multicast_waiting := a |}.

Section scheduling.
Context (s : transmit) (ei : ptr) (d : tx_intf).
Hypothesis Hei : tx_intfs s !! ei = Some d.

Lemma wp_write_q_add (Q : unit -> transmit -> Prop) :
  (forall wq m, Q tt (resched s ei (reflag d true (multicast_backoff d) (multicast_waiting d)) wq (t_write s) m)) ->
  wp (write_q_add ei) Q s.
Proof.
  intros HQ. unfold write_q_add. apply wp_bind, wp_x_calloc. intros b m _. apply wp_bind.
  apply wp_when. destruct b; [apply wp_modify|]; (eapply wp_upd_xi; [exact Hei|]); apply HQ.
Qed.

(** The tail of an output: the interface joins the write queue and the writer wakes. *)
Lemma wp_wake (Q : unit -> transmit -> Prop) :
  (forall w wq m, Q tt (resched s ei (reflag d w (multicast_backoff d) (multicast_waiting d)) wq true m)) ->
  wp (when (negb (on_write_q d)) (write_q_add ei);; eigrp_packet_write_schedule) Q s.
Proof.
  intros HQ. apply wp_bind, wp_when. destruct (on_write_q d) eqn:E; cbn [negb].
  - apply wp_modify. specialize (HQ true (oi_write_q s) (tx_mem s)).
    unfold resched in HQ. rewrite insert_id in HQ; [exact HQ|]. rewrite Hei. f_equal.
    destruct d. simpl in *. by subst.
  - apply wp_write_q_add. intros wq m. apply wp_modify, HQ.
Qed.
End scheduling.

Section output.
Context (s : transmit) (ei : ptr) (d : tx_intf).
Hypothesis Hei : tx_intfs s !! ei = Some d.

Lemma resched_set d' d'' wq tw m : resched (set_xi s ei d') ei d'' wq tw m = resched s ei d'' wq tw m.
Proof. unfold resched, set_xi. simpl. by rewrite insert_insert_eq. Qed.

Lemma set_xi_set d' d'' : set_xi (set_xi s ei d') ei d'' = set_xi s ei d''.
Proof. unfold set_xi. simpl. by rewrite insert_insert_eq. Qed.

Lemma set_xi_lookup d' : tx_intfs (set_xi s ei d') !! ei = Some d'.
Proof. apply lookup_insert_eq. Qed.

(** Where a packet goes in the output queue. *)
Definition output_insert (q : list eigrp_packet) (packet : eigrp_packet) : list eigrp_packet :=
  if is_hello packet then packet :: q else q ++ [packet].

Lemma wp_output_enqueue packet (Q : unit -> transmit -> Prop) :
  (forall w wq m, Q tt (resched s ei (reflag {| d with obuf := output_insert (obuf d) packet |}
                                      w (multicast_backoff d) (multicast_waiting d)) wq true m)) ->
  wp (eigrp_packet_output_enqueue ei packet) Q s.
Proof.
  intros HQ. unfold eigrp_packet_output_enqueue. apply wp_bind. eapply wp_upd_xi; [exact Hei|].
  apply wp_bind. eapply wp_get_xi; [apply set_xi_lookup|].
  apply wp_wake; [apply set_xi_lookup|]. intros w wq m. rewrite resched_set. apply HQ.
Qed.

Lemma wp_eligible_peers nbrs epoch (Q : list (ptr * tx_nbr) -> transmit -> Prop) :
  (forall n, n ∈ nbrs -> is_Some (tx_nbrs s !! n)) ->
  (forall peers,
     (forall n dn, (n, dn) ∈ peers <-> n ∈ nbrs /\ tx_nbrs s !! n = Some dn
                                 /\ eigrp_packet_multicast_peer_eligible dn epoch = true) ->
     sublist (fst <$> peers) nbrs -> Q peers s) ->
  wp (eligible_peers nbrs epoch) Q s.
Proof.
  revert Q. induction nbrs as [|x nbrs IH]; intros Q Hlive HQ; cbn [eligible_peers].
  - apply wp_ret, HQ; [set_solver|constructor].
  - destruct (Hlive x ltac:(set_solver)) as [dx Hx]. apply wp_bind. eapply wp_get_xn; [done|].
    apply wp_bind, IH; [set_solver|]. intros peers Hp Hs. apply wp_ret, HQ.
    + intros n dn. destruct (eigrp_packet_multicast_peer_eligible dx epoch) eqn:E.
      * rewrite elem_of_cons, Hp. split; [intros [[= -> ->]|]; set_solver|].
        intros ([->|Hn]%elem_of_cons & Hl & He); [left; congruence|right; done].
      * rewrite Hp. split; [set_solver|]. intros ([->|Hn]%elem_of_cons & Hl & He); [congruence|done].
    + destruct (eigrp_packet_multicast_peer_eligible dx epoch); simpl;
        [by apply sublist_skip|by apply sublist_cons].
Qed.

Lemma wp_multicast_resume (Q : unit -> transmit -> Prop) :
  (forall n, n ∈ xi_nbrs d -> is_Some (tx_nbrs s !! n)) ->
  (forall w b a wq tw m, Q tt (resched s ei (reflag d w b a) wq tw m)) ->
  wp (eigrp_packet_multicast_resume ei) Q s.
Proof.
  intros Hlive HQ. unfold eigrp_packet_multicast_resume. apply wp_bind. eapply wp_get_xi; [exact Hei|].
  assert (Hid : Q tt s).
  { specialize (HQ (on_write_q d) (multicast_backoff d) (multicast_waiting d) (oi_write_q s) (t_write s) (tx_mem s)).
    unfold resched in HQ. rewrite insert_id in HQ by (rewrite Hei; by destruct d). by destruct s. }
  destruct (multicast_pending d) as [|packet pending]; [by apply wp_ret|].
  destruct (t_multicast_retry d) eqn:Et; [by apply wp_ret|].
  apply wp_bind, wp_eligible_peers; [done|]. intros peers _ _. cbv zeta.
  destruct (_ && _); [by apply wp_ret|].
  apply wp_bind. eapply wp_upd_xi; [exact Hei|].
  destruct (_ && _ && _).
  { apply wp_ret. specialize (HQ (on_write_q d) false (multicast_waiting d) (oi_write_q s) (t_write s) (tx_mem s)).
    by destruct s. }
  apply wp_bind. eapply wp_upd_xi; [apply set_xi_lookup|]. rewrite set_xi_set.
  apply (wp_wake _ ei (reflag d (on_write_q d) false false)); [apply set_xi_lookup|].
  intros w wq m. rewrite resched_set. apply HQ.
Qed.
End output.

(** ** Admission of a reliable multicast *)

Section copies.
Context (c : ptr -> eigrp_packet).

Lemma wp_dup_all packet peers s (Q : option (list eigrp_packet) -> transmit -> Prop) :
  (forall m, Q (Some ((fun '(n, _) => copy_of packet n) <$> peers)) {| s with tx_mem := m |}) ->
  (forall m, Q None {| s with tx_mem := m |}) ->
  wp (dup_all packet peers) Q s.
Proof.
  revert s Q. induction peers as [|[n dn] peers IH]; intros s Q HS HN; cbn [dup_all].
  - apply wp_ret. specialize (HS (tx_mem s)). by destruct s.
  - apply wp_bind, wp_packet_dup; [|intros; by apply wp_ret]. intros m. apply wp_bind, IH; intros m';
      apply wp_ret; [apply HS|apply HN].
Qed.

(** The neighbor with its copy put in its place. *)
Definition with_copy (dn : tx_nbr) (p : eigrp_packet) : tx_nbr :=
  {| dn with retrans_queue := eigrp_packet_reliable_ordered_enqueue (retrans_queue dn) p |}.

Lemma wp_enqueue_copies peers s (Q : unit -> transmit -> Prop) :
  NoDup (fst <$> peers) -> (forall n dn, (n, dn) ∈ peers -> tx_nbrs s !! n = Some dn) ->
  (forall N', (forall n dn, (n, dn) ∈ peers -> N' !! n = Some (with_copy dn (c n))) ->
     (forall n, (n ∉ fst <$> peers) -> N' !! n = tx_nbrs s !! n) ->
     Q tt {| s with tx_nbrs := N' |}) ->
  wp (enqueue_copies ((fun '(n, _) => c n) <$> peers) peers) Q s.
Proof.
  unfold enqueue_copies. revert s Q. induction peers as [|[n dn] peers IH]; intros s Q Hnd Hl HQ.
  - apply wp_ret. specialize (HQ (tx_nbrs s)). destruct s. apply HQ; set_solver.
  - apply NoDup_cons in Hnd as [Hn Hnd]. simpl. apply wp_bind.
    eapply wp_upd_xn; [apply (Hl n dn); set_solver|]. apply IH; [done| |].
    + intros n' dn' Hin. simpl. rewrite lookup_insert_ne; [apply Hl; set_solver|].
      intros <-. apply Hn, (list_elem_of_fmap_2 fst _ _ Hin).
    + intros N' H1 H2. apply (HQ N').
      * intros n' dn' [[= -> ->]|Hin]%elem_of_cons; [|by apply H1].
        rewrite H2 by done. simpl. by rewrite lookup_insert_eq.
      * intros n' Hn'. simpl in Hn'. rewrite H2 by set_solver. simpl.
        rewrite lookup_insert_ne; [done|set_solver].
Qed.
End copies.

(** An encoder of the sequence HELLO that does nothing but allocate. *)
Definition only_allocates (hello_encode : ptr -> Z -> Z -> Tx (option eigrp_packet)) : Prop :=
  forall ei q e s, wp (hello_encode ei q e) (fun _ s' => exists m, s' = {| s with tx_mem := m |}) s.

(** The packet as it leaves: addressed to the group, with the CR flag when some
    receiver is busy. *)
Definition leaving (group : eigrp_addr) (busy : bool) (packet : eigrp_packet) : eigrp_packet :=
  let p := {| packet with pk_dst := group |} in if busy then set_cr p else p.

Section admission.
Context (hello_encode : ptr -> Z -> Z -> Tx (option eigrp_packet)).
Hypothesis Hhello : only_allocates hello_encode.
Context (s : transmit) (ei : ptr) (d : tx_intf) (packet : eigrp_packet) (pending : list eigrp_packet).
Hypothesis Hei : tx_intfs s !! ei = Some d.
Hypothesis Hpend : multicast_pending d = packet :: pending.
Hypothesis Hlive : forall n, n ∈ xi_nbrs d -> is_Some (tx_nbrs s !! n).
Hypothesis Hnd : NoDup (xi_nbrs d).

Definition receives (n : ptr) (dn : tx_nbr) : Prop :=
  n ∈ xi_nbrs d /\ tx_nbrs s !! n = Some dn
  /\ eigrp_packet_multicast_peer_eligible dn (pk_epoch packet) = true.

(** The copy a receiver gets. *)
Definition receiver_copy (busy : bool) (n : ptr) : eigrp_packet :=
  let p := copy_of {| packet with pk_dst := tx_multicast s |} n in
  if busy then set_cr p else p.

(** Admitted: every receiver has its copy, nobody else changed, and the packet moved
    from the pending queue to the output. *)
Definition admitted (s' : transmit) : Prop :=
  exists busy d', tx_intfs s' !! ei = Some d' /\ multicast_pending d' = pending
    /\ (busy = true <-> exists n dn, receives n dn
          /\ eigrp_packet_reliable_prior_count dn (sequence_number packet) <> 0)
    /\ leaving (tx_multicast s) busy packet ∈ obuf d'
    /\ (forall n dn, receives n dn -> tx_nbrs s' !! n = Some (with_copy dn (receiver_copy busy n)))
    /\ (forall n, (forall dn, ~ receives n dn) -> tx_nbrs s' !! n = tx_nbrs s !! n).

(** Not admitted: no reliable queue changed; the packet is still the next one, or
    nobody is left to receive it. *)
Definition not_admitted (s' : transmit) : Prop :=
  exists d', tx_intfs s' !! ei = Some d' /\ tx_nbrs s' = tx_nbrs s
    /\ ((multicast_pending d' = pending /\ forall n dn, ~ receives n dn)
        \/ exists g, multicast_pending d' = {| packet with pk_dst := g |} :: pending).

Definition outcome (r : bool) (s' : transmit) : Prop :=
  if r then admitted s' else not_admitted s'.

(** The interface keeps its first pending packet, possibly addressed already. *)
Lemma still_pending s' d' g :
  tx_intfs s' !! ei = Some d' -> tx_nbrs s' = tx_nbrs s ->
  multicast_pending d' = {| packet with pk_dst := g |} :: pending -> outcome false s'.
Proof. intros H1 H2 H3. exists d'. split; [done|]. split; [done|]. right. by exists g. Qed.

Lemma packet_same : {| packet with pk_dst := pk_dst packet |} = packet.
Proof. by destruct packet. Qed.

Lemma wp_admission_backoff : wp (admission_backoff ei) outcome s.
Proof.
  apply wp_bind. eapply wp_upd_xi; [exact Hei|]. apply wp_ret.
  eapply (still_pending _ _ (pk_dst packet)); [apply set_xi_lookup|done|].
  simpl. by rewrite packet_same.
Qed.

Lemma wp_admission_failed s1 d1 :
  tx_intfs s1 !! ei = Some d1 -> tx_nbrs s1 = tx_nbrs s ->
  multicast_pending d1 = {| packet with pk_dst := tx_multicast s |} :: pending ->
  wp (admission_failed ei) outcome s1.
Proof.
  intros H1 H2 H3. apply wp_bind, wp_tx_timer_add. intros due m. apply wp_bind.
  eapply wp_upd_xi; [exact H1|]. apply wp_ret.
  eapply (still_pending _ _ (tx_multicast s)); [apply lookup_insert_eq|done|done].
Qed.

(** The sequence HELLO is added to the output, or nothing happened. *)
Lemma wp_send_sequence s1 d1 q e (Q : bool -> transmit -> Prop) :
  tx_intfs s1 !! ei = Some d1 ->
  (forall m, Q false {| s1 with tx_mem := m |}) ->
  (forall h w wq m, Q true (resched s1 ei (reflag {| d1 with obuf := obuf d1 ++ [h] |} w
                              (multicast_backoff d1) (multicast_waiting d1)) wq true m)) ->
  wp (eigrp_hello_send_sequence hello_encode ei q e) Q s1.
Proof.
  intros H1 HF HT. unfold eigrp_hello_send_sequence.
  destruct (q =? 0); [apply wp_ret; specialize (HF (tx_mem s1)); by destruct s1|].
  apply wp_bind. eapply wp_mono; [apply Hhello|]. intros r s2 [m ->].
  destruct r as [h|]; [|by apply wp_ret].
  apply wp_bind. eapply wp_upd_xi; [exact H1|]. apply wp_bind. eapply wp_get_xi; [apply lookup_insert_eq|].
  set (s2 := set_xi {| s1 with tx_mem := m |} ei {| d1 with obuf := obuf d1 ++ [h] |}).
  assert (Hw := wp_wake s2 ei _ (lookup_insert_eq _ _ _) (fun _ => Q true)).
  apply wp_bind. apply wp_bind in Hw; [eapply wp_mono; [exact Hw|]; intros u s3 H3; apply wp_bind, H3|].
  intros w wq m'. unfold s2. rewrite resched_set. apply HT.
Qed.

Lemma send_if_busy (busy : bool) s1 d1 (Q : bool -> transmit -> Prop) :
  tx_intfs s1 !! ei = Some d1 ->
  (forall s2, tx_intfs s2 !! ei = Some d1 -> tx_nbrs s2 = tx_nbrs s1 -> Q false s2) ->
  (forall s2 d2, tx_intfs s2 !! ei = Some d2 -> tx_nbrs s2 = tx_nbrs s1 ->
     multicast_pending d2 = multicast_pending d1 -> Q true s2) ->
  wp (if busy then eigrp_hello_send_sequence hello_encode ei (sequence_number packet) (pk_epoch packet)
      else mret true) Q s1.
Proof.
  intros H1 HF HT. destruct busy; [|by apply wp_ret, (HT s1 d1)].
  eapply wp_send_sequence; [done|intros m; by apply HF|].
  intros h w wq m. eapply HT; [apply lookup_insert_eq|done|done].
Qed.

(** The last stage: the copies are queued and the packet goes to the output. *)
Lemma wp_commit busy peers s1 d1 :
  (forall n dn, (n, dn) ∈ peers <-> receives n dn) -> NoDup (fst <$> peers) ->
  (busy = existsb (fun '(_, n) =>
     negb (eigrp_packet_reliable_prior_count n (sequence_number packet) =? 0)) peers) ->
  tx_intfs s1 !! ei = Some d1 -> tx_nbrs s1 = tx_nbrs s ->
  wp (enqueue_copies ((fun '(n, _) => receiver_copy busy n) <$> peers) peers;;
      upd_xi ei (fun d => {| d with multicast_pending := pending |});;
      eigrp_packet_output_enqueue ei (leaving (tx_multicast s) busy packet);;
      mret true) outcome s1.
Proof.
  intros Hp Hnp Hb H1 HN. apply wp_bind. apply (wp_enqueue_copies (receiver_copy busy)); [done| |].
  { intros n dn Hin. rewrite HN. by apply Hp in Hin as (_ & ? & _). }
  intros N' HN1 HN2. apply wp_bind. eapply wp_upd_xi; [exact H1|].
  apply wp_bind. eapply wp_output_enqueue; [apply lookup_insert_eq|]. intros w wq m. apply wp_ret.
  exists busy. eexists. split; [apply lookup_insert_eq|]. split; [done|]. split.
  { rewrite Hb, existsb_exists. split.
    - intros ([n dn] & Hin & Hpr). rewrite negb_true_iff, Z.eqb_neq in Hpr.
      exists n, dn. split; [|done]. apply Hp. by apply list_elem_of_In.
    - intros (n & dn & Hr & Hpr). exists (n, dn). split; [by apply list_elem_of_In, Hp|].
      by rewrite negb_true_iff, Z.eqb_neq. }
  split; [simpl; unfold output_insert; destruct (is_hello _); set_solver|]. split.
  - intros n dn Hr. by apply HN1, Hp.
  - intros n Hr. simpl. rewrite HN2, HN; [done|]. intros ([n' dn] & -> & Hin)%list_elem_of_fmap.
    by apply (Hr dn), Hp.
Qed.

Lemma copies_shape busy peers :
  (if busy : bool then set_cr <$> ((fun '(n, _) => copy_of {| packet with pk_dst := tx_multicast s |} n) <$> peers)
   else (fun '(n, _) => copy_of {| packet with pk_dst := tx_multicast s |} n) <$> peers)
  = (fun '(n, _) => receiver_copy busy n) <$> (peers : list (ptr * tx_nbr)).
Proof.
  unfold receiver_copy. destruct busy; [rewrite <-list_fmap_compose|]; apply list_fmap_ext; by intros ? [] ?.
Qed.

Lemma wp_multicast_admit :
  multicast_backoff d = false -> multicast_waiting d = false -> t_multicast_retry d = None ->
  wp (eigrp_packet_multicast_admit hello_encode ei) outcome s.
Proof.
  intros Hb Hw Ht. unfold eigrp_packet_multicast_admit. apply wp_bind. eapply wp_get_xi; [exact Hei|].
  rewrite Hb, Hw, Ht, Hpend. cbn [orb]. rewrite bool_decide_false by (by intros [? ?]).
  apply wp_bind, (wp_eligible_peers s ei d); [done..|]. intros peers Hp Hsub. cbv zeta.
  assert (Hnp : NoDup (fst <$> peers)) by (by eapply sublist_NoDup).
  destruct (existsb _ peers) eqn:E1; [by apply wp_admission_backoff|]. clear E1.
  case_bool_decide as Hnil.
  { apply wp_bind. eapply wp_upd_xi; [exact Hei|]. apply wp_bind.
    eapply wp_multicast_resume; [apply set_xi_lookup|done|]. intros. apply wp_ret.
    eexists. split; [apply lookup_insert_eq|]. split; [done|]. left. split; [done|].
    intros n dn Hr. apply Hp in Hr. subst peers. set_solver. }
  destruct (negb (existsb _ peers)) eqn:E2.
  { apply wp_bind. eapply wp_upd_xi; [exact Hei|]. apply wp_ret.
    eapply (still_pending _ _ (pk_dst packet)); [apply set_xi_lookup|done|]. simpl. by rewrite packet_same. }
  clear E2. apply wp_bind, wp_gets. set (busy := existsb _ peers).
  destruct (_ && negb _); [by apply wp_admission_backoff|].
  apply wp_bind, wp_gets. apply wp_bind. eapply wp_upd_xi; [exact Hei|].
  apply wp_bind, wp_x_calloc. intros b1 m1 _. apply wp_bind, wp_x_calloc. intros b2 m2 _.
  destruct (_ || _); [by eapply wp_admission_failed; [apply lookup_insert_eq|..]|].
  apply wp_bind, wp_dup_all; intros m3; [|by eapply wp_admission_failed; [apply lookup_insert_eq|..]].
  apply wp_bind. eapply send_if_busy; [apply lookup_insert_eq| |].
  - intros s2 H2 HN. by eapply wp_admission_failed; [exact H2|..].
  - intros s2 d2 H2 HN _. cbn [negb]. rewrite copies_shape. by eapply wp_commit.
Qed.
End admission.


(** ** The order of a reliable queue *)

(** The distance of a sequence number from [base], modulo 2^32. *)
Definition offset (base : Z) (p : eigrp_packet) : Z := u32 (sequence_number p - base).

Definition in_window (base : Z) (p : eigrp_packet) : Prop :=
  0 <= sequence_number p < 2 ^ 32 /\ offset base p < 2 ^ 31.

(** The packets of a queue in the order their numbers were reserved. *)
Definition in_order (base : Z) (q : list eigrp_packet) : Prop :=
  StronglySorted (fun a b => offset base a < offset base b) q.

Section order.
Context (base : Z).

Lemma before_offset a b :
  in_window base a -> in_window base b ->
  eigrp_packet_sequence_before (sequence_number a) (sequence_number b)
  = (offset base a <? offset base b).
Proof.
  unfold in_window, offset. intros [Ha Wa] [Hb Wb].
  set (x := sequence_number a) in *. set (y := sequence_number b) in *.
  unfold eigrp_packet_sequence_before. apply eq_bool_prop_intro.
  rewrite !Is_true_true, andb_true_iff, negb_true_iff, Z.eqb_neq, !Z.ltb_lt.
  unfold u32 in *. Z.to_euclidean_division_equations. lia.
Qed.

Lemma ordered_enqueue_perm q p : eigrp_packet_reliable_ordered_enqueue q p ≡ₚ p :: q.
Proof.
  induction q as [|a q IH]; cbn [eigrp_packet_reliable_ordered_enqueue]; [done|].
  destruct (negb _); [done|]. rewrite IH. by apply Permutation_swap.
Qed.

Lemma ordered_enqueue_order q p :
  Forall (in_window base) q -> in_window base p -> in_order base q ->
  Forall (fun a => offset base a <> offset base p) q ->
  in_order base (eigrp_packet_reliable_ordered_enqueue q p).
Proof.
  unfold in_order. induction q as [|a q IH]; intros Hw Hp Hs Hne; cbn [eigrp_packet_reliable_ordered_enqueue].
  - by repeat constructor.
  - apply Forall_cons in Hw as [Ha Hw]. apply Forall_cons in Hne as [Na Hne].
    apply StronglySorted_inv in Hs as [Hs Hall]. rewrite before_offset by done.
    destruct (Z.ltb_spec (offset base a) (offset base p)) as [Hlt|Hge]; cbn [negb].
    + constructor; [by apply IH|]. rewrite ordered_enqueue_perm. by apply Forall_cons.
    + constructor; [by constructor|]. apply Forall_cons. split; [lia|].
      eapply Forall_impl; [exact Hall|]. simpl. intros. lia.
Qed.
End order.

(** C23: the admission of a reliable multicast is all or nothing.  When it succeeds,
    every neighbor that was UP before the packet was handed over, and no other, gets
    one copy of it in its reliable queue, carrying the CR flag exactly when some
    receiver is still busy with earlier packets, and the packet moves from the
    pending queue to the output.  When it does not succeed, for lack of memory at any
    point included, no reliable queue changed and the packet is still the next one
    pending, unless nobody is left to receive it.  A copy takes its place in the order
    of sequence numbers, across the wrap of the counter included. *)
Theorem multicast_admission_atomic hello_encode s ei d packet pending :
  only_allocates hello_encode -> tx_intfs s !! ei = Some d ->
  multicast_pending d = packet :: pending ->
  (forall n, n ∈ xi_nbrs d -> is_Some (tx_nbrs s !! n)) -> NoDup (xi_nbrs d) ->
  multicast_backoff d = false -> multicast_waiting d = false -> t_multicast_retry d = None ->
  wp (eigrp_packet_multicast_admit hello_encode ei)
     (fun r s' => if r then admitted s ei d packet pending s' else not_admitted s ei d packet pending s') s
  /\ forall base q p, Forall (in_window base) q -> in_window base p -> in_order base q ->
       Forall (fun a => offset base a <> offset base p) q ->
       in_order base (eigrp_packet_reliable_ordered_enqueue q p)
       /\ eigrp_packet_reliable_ordered_enqueue q p ≡ₚ p :: q.
Proof.
  intros Hh Hei Hp Hl Hnd Hb Hw Ht. split; [by apply wp_multicast_admit|].
  intros base q p H1 H2 H3 H4. split; [by apply ordered_enqueue_order|apply ordered_enqueue_perm].
Qed.

(** ** Instances *)

Definition ex_multicast (epoch : Z) : eigrp_packet :=
  {| pk_header := {| hd_version := 2; hd_opcode := EIGRP_OPC_UPDATE; hd_checksum := 0; hd_flags := 0;
                     hd_sequence := 9; hd_ack := 0; hd_vrid := 0; hd_ASNumber := 1 |};
     pk_body := []; pk_dst := zero_addr; t_retrans_timer := None; retrans_counter := 0; pk_nbr := None;
     sequence_number := 9; retransmission := false; retry_queued := false;
     multicast_exception := false; pk_epoch := epoch; sent_msec := 0; pk_length := 20 |}.

Definition ex_receiver : tx_nbr :=
  {| xn_ei := 0%nat; xn_state := EIGRP_NEIGHBOR_UP; xn_epoch := 1; init_sequence_number := 0;
     recv_sequence_number := 3; xn_rtt := eigrp_nbr_rtt_clear; xn_src := zero_addr; retrans_queue := [] |}.

Definition ex_segment : tx_intf :=
  {| xi_nbrs := [1%nat; 2%nat]; obuf := []; multicast_pending := [ex_multicast 2]; xi_epoch := 2;
     multicast_backoff := false; multicast_waiting := false; multicast_backoff_count := 0;
     t_multicast_retry := None; on_write_q := true; xi_bandwidth := 100000; xi_curr_bandwidth := 100000;
     xi_percent := 50; xi_pacing := {| pacing_initialized := false; pacing_last_msec := 0;
                                       pacing_rate := 0; pacing_credit := 0 |};
     pacing_tx_bytes := 0; pacing_defer_count := 0; pacing_defer_msec := 0; xi_mtu := 1500;
     hello_overhead := 52 |}.

(** The second copy cannot be allocated. *)
Definition ex_short_memory : transmit :=
  {| tx_nbrs := {[ 1%nat := ex_receiver; 2%nat := ex_receiver ]}; tx_intfs := {[ 0%nat := ex_segment ]};
     oi_write_q := [0%nat]; t_write := false; t_pacing := None; tx_multicast := zero_addr;
     packet_address_bytes := 4; tx_clock := 1000; tx_stopped := false;
     tx_mem := [true; true; true; true; true; false]; tx_sends := []; tx_wire := [] |}.

Lemma multicast_admission_atomic_witness :
  (fst <$> eigrp_packet_multicast_admit (fun _ _ _ => mret None) 0%nat ex_short_memory) = Some false
  /\ wp (eigrp_packet_multicast_admit (fun _ _ _ => mret None) 0%nat)
       (fun r s' => if r then admitted ex_short_memory 0%nat ex_segment (ex_multicast 2) [] s'
                    else not_admitted ex_short_memory 0%nat ex_segment (ex_multicast 2) [] s') ex_short_memory.
Proof.
  split; [vm_compute; reflexivity|].
  refine (proj1 (multicast_admission_atomic (fun _ _ _ => mret None) ex_short_memory 0%nat ex_segment
    (ex_multicast 2) [] _ eq_refl eq_refl _ _ eq_refl eq_refl eq_refl)).
  - intros ei q e s. exists (tx_mem s). by destruct s.
  - intros n Hn. cbn [ex_segment xi_nbrs] in Hn. rewrite !elem_of_cons in Hn.
    destruct Hn as [->|[->|Hn]]; [by eexists|by eexists|by apply not_elem_of_nil in Hn].
  - apply (bool_decide_unpack _). vm_compute. exact I.
Defined.
