(* ===== verification/Retransmit.v ===== *)
(** * The retransmission discipline (eigrp_packet.c)

    A retransmission waiting in an output queue always belongs to the packet at
    the head of its neighbor's reliable queue, there is at most one per neighbor,
    and no packet is retransmitted more than the transport's limit. *)

From Stdlib Require Import ZArith Lia.
From stdpp Require Import base gmap list.
From S2P Require Import Prelude Types Rtt RttProps Transport TransportProps.

(** ** The invariant *)

(** A waiting retransmission of [p] is justified by the neighbor [dn]. *)
Definition justifies (dn : tx_nbr) (p : eigrp_packet) : Prop :=
  exists h, head (retrans_queue dn) = Some h /\ sequence_number h = sequence_number p
    /\ retry_queued h = true /\ retrans_counter h < EIGRP_TRANSPORT_RETRANS_MAX
    /\ sent_msec h <> 0.

Definition retry_ok (N : gmap ptr tx_nbr) (i : ptr) (p : eigrp_packet) : Prop :=
  exists n dn, pk_nbr p = Some n /\ N !! n = Some dn /\ xn_ei dn = i /\ justifies dn p.

Definition retry_for (n : ptr) (p : eigrp_packet) : bool :=
  retransmission p && bool_decide (pk_nbr p = Some n).

Definition within_limit (p : eigrp_packet) : Prop :=
  0 <= retrans_counter p <= EIGRP_TRANSPORT_RETRANS_MAX.

Record nbr_ok (I : gmap ptr tx_intf) (dn : tx_nbr) : Prop := {
  no_ei : is_Some (I !! xn_ei dn);
  no_counted : Forall within_limit (retrans_queue dn);
  no_rtt : rtt_wf (xn_rtt dn);
}.

Record intf_ok (N : gmap ptr tx_nbr) (i : ptr) (d : tx_intf) : Prop := {
  io_nbrs : forall n, n ∈ xi_nbrs d -> is_Some (N !! n);
  io_live : forall p n, p ∈ obuf d -> pk_nbr p = Some n -> is_Some (N !! n);
  io_retry : forall p, p ∈ obuf d -> retransmission p = true -> retry_ok N i p;
  io_once : forall n, (length (List.filter (retry_for n) (obuf d)) <= 1)%nat;
}.

Record tx_inv (s : transmit) : Prop := {
  ti_nbr : forall n dn, tx_nbrs s !! n = Some dn -> nbr_ok (tx_intfs s) dn;
  ti_intf : forall i d, tx_intfs s !! i = Some d -> intf_ok (tx_nbrs s) i d;
}.

Section invariant.
Lemma tx_inv_ext s s' :
  tx_nbrs s' = tx_nbrs s -> tx_intfs s' = tx_intfs s -> tx_inv s -> tx_inv s'.
Proof. intros E1 E2 [H1 H2]. split; rewrite E1, E2; done. Qed.

Lemma nbr_ok_live I I' dn :
  (forall i, is_Some (I !! i) -> is_Some (I' !! i)) -> nbr_ok I dn -> nbr_ok I' dn.
Proof. intros H [H1 H2 H3]. split; auto. Qed.

(** A rewritten neighbor that still justifies its waiting retransmission. *)
Lemma tx_inv_nbr s n dn dn' :
  tx_inv s -> tx_nbrs s !! n = Some dn -> xn_ei dn' = xn_ei dn ->
  Forall within_limit (retrans_queue dn') -> rtt_wf (xn_rtt dn') ->
  (forall d p, tx_intfs s !! xn_ei dn = Some d -> p ∈ obuf d -> retry_for n p = true ->
     justifies dn p -> justifies dn' p) ->
  tx_inv (set_xn s n dn').
Proof.
  intros [Hn Hi] Hl Ee Hc Hr Hj. split.
  - intros n' dn0 Hl'. simpl in *. destruct (decide (n' = n)) as [->|Hne].
    + rewrite lookup_insert_eq in Hl'. injection Hl' as <-. split; [|done|done].
      rewrite Ee. by apply (no_ei _ _ (Hn n dn Hl)).
    + rewrite lookup_insert_ne in Hl' by done. by apply (Hn n').
  - intros i d Hd. simpl in *. destruct (Hi i d Hd) as [H1 H2 H3 H4].
    assert (Hlive : forall x, is_Some (tx_nbrs s !! x) -> is_Some (<[n := dn']> (tx_nbrs s) !! x)).
    { intros x Hx. rewrite lookup_insert. case_decide; [by eexists|done]. }
    split; [by intros; apply Hlive, H1|by intros; eapply Hlive, H2| |done].
    intros p Hp Hret. destruct (H3 p Hp Hret) as (n0 & dn0 & En & Hn0 & Ei & Hjust).
    exists n0. destruct (decide (n0 = n)) as [->|Hne].
    + exists dn'. rewrite lookup_insert_eq. split; [done|]. split; [done|].
      rewrite Hl in Hn0. injection Hn0 as <-. split; [congruence|].
      apply (Hj d p); [by rewrite Ei|done| |done]. unfold retry_for. rewrite Hret.
      by rewrite bool_decide_true.
    + exists dn0. by rewrite lookup_insert_ne.
Qed.

(** A rewritten interface. *)
Lemma tx_inv_intf s i d :
  tx_inv s -> intf_ok (tx_nbrs s) i d -> tx_inv (set_xi s i d).
Proof.
  intros [Hn Hi] Hd. split; simpl.
  - intros n dn Hl. eapply nbr_ok_live; [|by apply (Hn n)]. intros j Hj.
    rewrite lookup_insert. case_decide; [by eexists|done].
  - intros j d'. rewrite lookup_insert. case_decide; [intros [= <-]; by subst|apply Hi].
Qed.

Lemma filter_retry_app (n : ptr) (l k : list eigrp_packet) :
  length (List.filter (retry_for n) (l ++ k))
  = (length (List.filter (retry_for n) l) + length (List.filter (retry_for n) k))%nat.
Proof. by rewrite List.filter_app, length_app. Qed.

(** An interface whose output gained a packet that is no retransmission. *)
Lemma intf_ok_insert N i d p w b a :
  intf_ok N i d -> retransmission p = false -> (forall n, pk_nbr p = Some n -> is_Some (N !! n)) ->
  intf_ok N i (reflag {| d with obuf := output_insert (obuf d) p |} w b a).
Proof.
  intros [H1 H2 H3 H4] Hp Hn. unfold output_insert.
  assert (Hin : forall q, q ∈ (if is_hello p then p :: obuf d else obuf d ++ [p]) <-> q = p \/ q ∈ obuf d)
    by (intros q; destruct (is_hello p); set_solver).
  split; simpl; [done| | |].
  - intros q n [->|Hq]%Hin; eauto.
  - intros q [->|Hq]%Hin Hr; [congruence|auto].
  - intros n. destruct (is_hello p).
    + simpl. unfold retry_for at 1. rewrite Hp. apply H4.
    + rewrite filter_retry_app. simpl. unfold retry_for at 2. rewrite Hp. simpl. specialize (H4 n). lia.
Qed.

(** Fewer packets in the output, and the same reliable queues. *)
Lemma intf_ok_sublist N i d q w b a :
  intf_ok N i d -> sublist q (obuf d) -> intf_ok N i (reflag {| d with obuf := q |} w b a).
Proof.
  intros [H1 H2 H3 H4] Hs.
  assert (Hin : forall p, p ∈ q -> p ∈ obuf d)
    by (intros p Hp; eapply elem_of_submseteq; [done|by apply sublist_submseteq]).
  split; simpl; eauto. intros n. etrans; [|apply (H4 n)].
  clear -Hs. induction Hs; simpl; [done| |]; destruct (retry_for n x); simpl; lia.
Qed.

Lemma intf_ok_reflag N i d w b a : intf_ok N i d -> intf_ok N i (reflag d w b a).
Proof. intros [H1 H2 H3 H4]. by split. Qed.

Lemma tx_inv_resched s i d wq tw m :
  tx_inv s -> intf_ok (tx_nbrs s) i d -> tx_inv (resched s i d wq tw m).
Proof. intros H Hd. eapply (tx_inv_ext (set_xi s i d)); [done..|]. by apply tx_inv_intf. Qed.
End invariant.

(** ** The head of a reliable queue *)

Definition set_head (f : eigrp_packet -> eigrp_packet) (dn : tx_nbr) : tx_nbr :=
  {| dn with retrans_queue := match retrans_queue dn with [] => [] | p :: q => f p :: q end |}.

Definition with_mem (s : transmit) (m : list bool) : transmit := {| s with tx_mem := m |}.

Definition timed (due : option Z) (p : eigrp_packet) : eigrp_packet :=
  {| p with t_retrans_timer := due |}.

Section heads.
Context (s : transmit) (n : ptr) (dn : tx_nbr).
Hypothesis Hn : tx_nbrs s !! n = Some dn.

Lemma set_xn_id : set_xn s n dn = s.
Proof. unfold set_xn. rewrite insert_id by done. by destruct s. Qed.

Lemma set_xn_lookup d' : tx_nbrs (set_xn s n d') !! n = Some d'.
Proof. apply lookup_insert_eq. Qed.

Lemma set_xn_set d' d'' : set_xn (set_xn s n d') n d'' = set_xn s n d''.
Proof. unfold set_xn. simpl. by rewrite insert_insert_eq. Qed.

Lemma wp_upd_head f (Q : unit -> transmit -> Prop) :
  Q tt (set_xn s n (set_head f dn)) -> wp (upd_head n f) Q s.
Proof. intros HQ. eapply wp_upd_xn; [exact Hn|]. exact HQ. Qed.

Lemma wp_tx_timer_start (Q : unit -> transmit -> Prop) :
  (forall due m, Q tt (with_mem (set_xn s n (set_head (timed due) dn)) m)) ->
  wp (eigrp_packet_retransmit_timer_start n) Q s.
Proof.
  intros HQ. unfold eigrp_packet_retransmit_timer_start. apply wp_bind. eapply wp_get_xn; [exact Hn|].
  unfold eigrp_packet_queue_next. destruct (retrans_queue dn) as [|p q] eqn:Eq; cbn [head].
  - apply wp_ret. specialize (HQ None (tx_mem s)). replace (set_head (timed None) dn) with dn in HQ.
    + rewrite set_xn_id in HQ. by destruct s.
    + unfold set_head. rewrite Eq. destruct dn. simpl in *. by subst.
  - apply wp_bind, wp_tx_timer_add. intros due m. eapply wp_upd_xn; [exact Hn|].
    specialize (HQ due m). exact HQ.
Qed.

Lemma wp_allocation_retry (Q : unit -> transmit -> Prop) :
  (forall due m, Q tt (with_mem (set_xn s n (set_head (timed due) dn)) m)) ->
  wp (eigrp_packet_allocation_retry n) Q s.
Proof.
  intros HQ. apply wp_bind, wp_tx_timer_add. intros due m. eapply wp_upd_xn; [exact Hn|]. apply HQ.
Qed.

(** A change of the head that keeps the number, the retry mark, the count and the
    time of the first send. *)
Lemma tx_inv_head f :
  tx_inv s ->
  (forall p, sequence_number (f p) = sequence_number p /\ retrans_counter (f p) = retrans_counter p
     /\ (retry_queued p = true -> sent_msec p <> 0 -> retry_queued (f p) = true /\ sent_msec (f p) <> 0)) ->
  tx_inv (set_xn s n (set_head f dn)).
Proof.
  intros H Hf. pose proof (ti_nbr _ H n dn Hn) as [H1 H2 H3].
  eapply tx_inv_nbr; [done|exact Hn|done| |done|].
  - simpl. destruct (retrans_queue dn) as [|p q]; [done|]. apply Forall_cons in H2 as [Hp Hq].
    apply Forall_cons. split; [|done]. unfold within_limit. by rewrite (proj1 (proj2 (Hf p))).
  - intros d p _ _ _ (h & Eh & Es & Er & Ec & Et). unfold justifies. simpl.
    destruct (retrans_queue dn) as [|h' q]; [done|]. injection Eh as ->. exists (f h).
    destruct (Hf h) as (F1 & F2 & F3). destruct (F3 Er Et). rewrite F1, F2. done.
Qed.

Lemma tx_inv_timed due m :
  tx_inv s -> tx_inv (with_mem (set_xn s n (set_head (timed due) dn)) m).
Proof.
  intros H. eapply (tx_inv_ext (set_xn s n (set_head (timed due) dn))); [done..|].
  apply tx_inv_head; [done|]. by intros p.
Qed.
End heads.

(** ** Sending *)

Section sending.
Context (s : transmit) (n : ptr) (dn : tx_nbr).
Hypothesis H : tx_inv s.
Hypothesis Hn : tx_nbrs s !! n = Some dn.

(** The neighbor's interface, and the invariant after a packet joined its output. *)
Lemma nbr_intf : exists d, tx_intfs s !! xn_ei dn = Some d /\ intf_ok (tx_nbrs s) (xn_ei dn) d.
Proof.
  destruct (no_ei _ _ (ti_nbr _ H n dn Hn)) as [d Hd]. exists d. split; [done|]. by apply (ti_intf _ H).
Qed.

(** The state after a reliable packet went to the output for the first time: only
    the neighbor's head timer, or its interface, changed. *)
Lemma wp_send_reliably (Q : unit -> transmit -> Prop) :
  (forall s', tx_inv s' ->
     (tx_nbrs s' = tx_nbrs s
      \/ exists due, tx_nbrs s' = <[n := set_head (timed due) dn]> (tx_nbrs s)) -> Q tt s') ->
  wp (eigrp_packet_send_reliably n) Q s.
Proof.
  intros HQ. unfold eigrp_packet_send_reliably. apply wp_bind. eapply wp_get_xn; [exact Hn|].
  unfold eigrp_packet_queue_next. destruct (head (retrans_queue dn)) as [p|]; [|apply wp_ret, HQ; auto].
  destruct nbr_intf as (d & Hd & Hok).
  apply wp_bind. unfold eigrp_packet_unicast_behind_multicast. apply wp_bind. eapply wp_get_xi; [exact Hd|].
  apply wp_ret. destruct (behind_multicast _ _ _); [apply wp_ret, HQ; auto|].
  apply wp_bind, wp_packet_dup.
  - intros m. eapply wp_output_enqueue; [exact Hd|]. intros w wq m'. apply HQ; [|by left].
    eapply (tx_inv_resched (with_mem s m)); [exact (tx_inv_ext s (with_mem s m) eq_refl eq_refl H)|].
    apply intf_ok_insert; [done|done|]. simpl. intros n' [= <-]. by eexists.
  - intros m _. eapply wp_allocation_retry; [exact Hn|]. intros due m'. apply HQ; [|right; by exists due].
    eapply (tx_inv_ext (with_mem (set_xn s n (set_head (timed due) dn)) m')); [done..|].
    by apply tx_inv_timed.
Qed.

End sending.

(** A new reliable unicast. *)
Lemma wp_packet_queue s n dn packet (Q : unit -> transmit -> Prop) :
  tx_inv s -> tx_nbrs s !! n = Some dn ->
  within_limit packet -> (forall s', tx_inv s' -> Q tt s') ->
  wp (eigrp_update_neighbor_packet_queue n packet) Q s.
Proof.
  intros H Hn Hc HQ. unfold eigrp_update_neighbor_packet_queue. apply wp_bind. eapply wp_get_xn; [exact Hn|].
  apply wp_bind. eapply wp_upd_xn; [exact Hn|].
  set (dn' := {| dn with retrans_queue := eigrp_packet_enqueue (retrans_queue dn) packet |}).
  assert (H' : tx_inv (set_xn s n dn')).
  { pose proof (ti_nbr _ H n dn Hn) as [H1 H2 H3]. eapply tx_inv_nbr; [done|exact Hn|done| |done|].
    - simpl. apply Forall_app. split; [done|by apply Forall_singleton].
    - intros d p _ _ _ (h & Eh & Hh). exists h. split; [|done]. simpl. unfold eigrp_packet_enqueue.
      by destruct (retrans_queue dn). }
  apply wp_when. case_bool_decide; [|by apply HQ].
  eapply (wp_send_reliably _ n dn'); [done|apply set_xn_lookup|]. auto.
Qed.

(** ** The retransmission timer *)

Lemma with_mem_inv s m : tx_inv s -> tx_inv (with_mem s m).
Proof. by apply tx_inv_ext. Qed.

(** The output gained a justified retransmission, the only one for its neighbor. *)
Lemma intf_ok_insert_retry N i d p n w b a :
  intf_ok N i d -> pk_nbr p = Some n -> retry_ok N i p -> List.filter (retry_for n) (obuf d) = [] ->
  intf_ok N i (reflag {| d with obuf := output_insert (obuf d) p |} w b a).
Proof.
  intros [H1 H2 H3 H4] Hp Hr Hnone. unfold output_insert.
  assert (Hin : forall q, q ∈ (if is_hello p then p :: obuf d else obuf d ++ [p]) <-> q = p \/ q ∈ obuf d)
    by (intros q; destruct (is_hello p); set_solver).
  split; simpl; [done| | |].
  - intros q n' [->|Hq]%Hin; [|eauto]. destruct Hr as (n0 & dn0 & E & Hl & _). intros E'.
    rewrite E in E'. injection E' as <-. by eexists.
  - intros q [->|Hq]%Hin Hret; [done|auto].
  - intros n'. assert (Hle : (length (List.filter (retry_for n') (obuf d))
        + length (List.filter (retry_for n') [p]) <= 1)%nat).
    { destruct (decide (n' = n)) as [->|Hne].
      - rewrite Hnone. simpl. destruct (retry_for n p); simpl; lia.
      - specialize (H4 n'). simpl. unfold retry_for at 2. rewrite Hp.
        rewrite bool_decide_false by congruence. rewrite andb_false_r. simpl. lia. }
    destruct (is_hello p); [|by rewrite filter_retry_app].
    change (p :: obuf d) with ([p] ++ obuf d). rewrite filter_retry_app. lia.
Qed.

(** A head without a queued retry has no retransmission waiting. *)
Lemma no_retry_waiting s n dn h d :
  tx_inv s -> tx_nbrs s !! n = Some dn -> head (retrans_queue dn) = Some h -> retry_queued h = false ->
  tx_intfs s !! xn_ei dn = Some d -> List.filter (retry_for n) (obuf d) = [].
Proof.
  intros H Hn Hh Hq Hd. destruct (List.filter (retry_for n) (obuf d)) as [|p l] eqn:E; [done|]. exfalso.
  assert (Hp : In p (List.filter (retry_for n) (obuf d))) by (rewrite E; by left).
  apply filter_In in Hp as [Hp Hr]. apply list_elem_of_In in Hp. unfold retry_for in Hr.
  apply andb_true_iff in Hr as [Hr1 Hr2]. apply bool_decide_eq_true in Hr2.
  destruct (io_retry _ _ _ (ti_intf _ H _ _ Hd) p Hp Hr1) as (n0 & dn0 & E0 & Hn0 & _ & h0 & Hh0 & _ & Hq0 & _).
  rewrite Hr2 in E0. injection E0 as <-. rewrite Hn in Hn0. injection Hn0 as <-.
  rewrite Hh in Hh0. injection Hh0 as <-. congruence.
Qed.

Definition mark_retry (p : eigrp_packet) : eigrp_packet := {| p with retry_queued := true |}.

Section timer.
Context (teardown : ptr -> Tx unit) (s : transmit) (n : ptr) (dn : tx_nbr).
Hypothesis H : tx_inv s.
Hypothesis Hn : tx_nbrs s !! n = Some dn.

(** The duplicate joins the output after its head was marked. *)
Lemma wp_queue_retry h dn' dup m (Q : unit -> transmit -> Prop) :
  head (retrans_queue dn) = Some h -> retry_queued h = false ->
  retrans_counter h < EIGRP_TRANSPORT_RETRANS_MAX ->
  dn' = set_head mark_retry dn
  \/ (sent_msec h <> 0 /\ dn' = set_head mark_retry {| dn with xn_rtt := eigrp_nbr_rto_backoff (xn_rtt dn) |}) ->
  pk_nbr dup = Some n -> sequence_number dup = sequence_number h ->
  retransmission dup = negb (sent_msec h =? 0) ->
  (forall s', tx_inv s' -> Q tt s') ->
  wp (eigrp_packet_output_enqueue (xn_ei dn) dup) Q (with_mem (set_xn s n dn') m).
Proof.
  intros Hh Hq Hc Hdn Hd1 Hd2 Hd3 HQ. destruct (nbr_intf s n dn H Hn) as (d & Hd & Hok).
  pose proof (no_retry_waiting s n dn h d H Hn Hh Hq Hd) as Hnone.
  pose proof (ti_nbr _ H n dn Hn) as [Hei Hcnt Hrtt].
  destruct (retrans_queue dn) as [|h' q] eqn:Eq; [done|]. injection Hh as ->.
  assert (Eq' : retrans_queue dn' = mark_retry h :: q /\ xn_ei dn' = xn_ei dn /\ rtt_wf (xn_rtt dn')).
  { destruct Hdn as [->|[_ ->]]; cbn [set_head retrans_queue xn_ei xn_rtt]; rewrite ?Eq;
      (split; [done|]; split; [done|]); [done|by apply backoff_step]. }
  destruct Eq' as (Eq' & Eei & Ertt).
  assert (H' : tx_inv (with_mem (set_xn s n dn') m)).
  { apply with_mem_inv. eapply tx_inv_nbr; [done|exact Hn|done| |done|].
    - rewrite Eq'. apply Forall_cons in Hcnt as [Hc0 Hcq]. by apply Forall_cons.
    - intros d0 p Hd0 Hp Hr _. exfalso. rewrite Hd in Hd0. injection Hd0 as <-.
      assert (In p (List.filter (retry_for n) (obuf d))) by (apply filter_In; by rewrite <-list_elem_of_In).
      rewrite Hnone in *. done. }
  eapply wp_output_enqueue; [exact Hd|]. intros w wq m'. apply HQ.
  apply tx_inv_resched; [done|].
  assert (Hok' : intf_ok (tx_nbrs (with_mem (set_xn s n dn') m)) (xn_ei dn) d) by by apply (ti_intf _ H').
  destruct (Z.eqb_spec (sent_msec h) 0) as [E0|E0]; cbn [negb] in Hd3.
  - apply intf_ok_insert; [done|done|]. intros n' E'. rewrite Hd1 in E'. injection E' as <-.
    exists dn'. simpl. by rewrite lookup_insert_eq.
  - apply (intf_ok_insert_retry _ _ _ _ n); [done|done| |done].
    exists n, dn'. split; [done|]. split; [simpl; by rewrite lookup_insert_eq|]. split; [done|].
    exists (mark_retry h). rewrite Eq'. done.
Qed.

Lemma wp_unack_retrans (Q : unit -> transmit -> Prop) :
  (forall h, head (retrans_queue dn) = Some h -> retry_queued h = false ->
     EIGRP_TRANSPORT_RETRANS_MAX <= retrans_counter h -> wp (teardown n) Q s) ->
  (forall s', tx_inv s' -> Q tt s') ->
  wp (eigrp_packet_unack_retrans teardown n) Q s.
Proof.
  intros Htd HQ. unfold eigrp_packet_unack_retrans. apply wp_bind. eapply wp_get_xn; [exact Hn|].
  unfold eigrp_packet_queue_next. destruct (head (retrans_queue dn)) as [h|] eqn:Eh; [|by apply wp_ret, HQ].
  destruct (retry_queued h) eqn:Eq; [by apply wp_ret, HQ|].
  destruct (Z.leb_spec EIGRP_TRANSPORT_RETRANS_MAX (retrans_counter h)); [by apply (Htd h)|].
  apply wp_bind, wp_packet_dup.
  - intros m. apply wp_bind, wp_when. destruct (Z.eqb_spec (sent_msec h) 0) as [E0|E0]; cbn [negb].
    + apply wp_bind. eapply wp_upd_head; [exact Hn|].
      eapply (wp_queue_retry h (set_head mark_retry dn) _ m); auto. simpl. by rewrite E0.
    + eapply wp_upd_xn; [exact Hn|]. apply wp_bind.
      eapply wp_upd_head; [apply lookup_insert_eq|]. rewrite set_xn_set.
      eapply (wp_queue_retry h _ _ m); [done|done|done|right; by split|done|done|simpl|done].
      by rewrite (proj2 (Z.eqb_neq _ _) E0).
  - intros m _. eapply wp_allocation_retry; [exact Hn|]. intros due m'. apply HQ.
    exact (tx_inv_timed s n dn Hn due m' H).
Qed.
End timer.

(** ** The wire send *)

(** The state with other interfaces: the send reports touch only neighbors, so the
    invariant is kept for the output queue as it will be once the packet left it. *)
Definition view (s : transmit) (I : gmap ptr tx_intf) : transmit := {| s with tx_intfs := I |}.

Definition reported (I : gmap ptr tx_intf) (s s' : transmit) : Prop :=
  tx_inv (view s' I) /\ tx_intfs s' = tx_intfs s
  /\ forall n, is_Some (tx_nbrs s !! n) -> is_Some (tx_nbrs s' !! n).

Section reports.
Context (I : gmap ptr tx_intf).

Lemma reported_refl s : tx_inv (view s I) -> reported I s s.
Proof. by split. Qed.

Lemma reported_trans s1 s2 s3 : reported I s1 s2 -> reported I s2 s3 -> reported I s1 s3.
Proof. intros (_ & E1 & L1) (H & E2 & L2). split; [done|]. split; [congruence|auto]. Qed.

Lemma reported_set s n dn' m :
  tx_inv (view (set_xn s n dn') I) -> reported I s (with_mem (set_xn s n dn') m).
Proof.
  intros H. split; [by eapply tx_inv_ext; [| |exact H]|]. split; [done|].
  intros x Hx. simpl. rewrite lookup_insert. case_decide; [by eexists|done].
Qed.

(** The head rewritten and its timer started. *)
Lemma wp_report_head s n dn f :
  tx_nbrs s !! n = Some dn -> tx_inv (view (set_xn s n (set_head f dn)) I) ->
  wp (upd_head n f;; eigrp_packet_retransmit_timer_start n) (fun _ => reported I s) s.
Proof.
  intros Hn H. apply wp_bind. eapply wp_upd_head; [exact Hn|].
  eapply wp_tx_timer_start; [apply set_xn_lookup|]. intros due m. rewrite set_xn_set.
  apply reported_set. rewrite <-(set_xn_set s n (set_head f dn)).
  exact (tx_inv_timed (view (set_xn s n (set_head f dn)) I) n _ (lookup_insert_eq _ _ _) due
           (tx_mem s) H).
Qed.

Lemma wp_report_timer s n dn :
  tx_nbrs s !! n = Some dn -> tx_inv (view s I) ->
  wp (eigrp_packet_retransmit_timer_start n) (fun _ => reported I s) s.
Proof.
  intros Hn H. eapply wp_tx_timer_start; [exact Hn|]. intros due m. apply reported_set.
  exact (tx_inv_timed (view s I) n dn Hn due (tx_mem s) H).
Qed.

Lemma wp_neighbor_send_update s n sequence now :
  tx_inv (view s I) -> is_Some (tx_nbrs s !! n) ->
  wp (eigrp_packet_reliable_neighbor_send_update n sequence now) (fun _ => reported I s) s.
Proof.
  intros H [dn Hn]. unfold eigrp_packet_reliable_neighbor_send_update.
  destruct (sequence =? 0); [by apply wp_ret, reported_refl|].
  apply wp_bind. eapply wp_get_xn; [exact Hn|]. unfold eigrp_packet_queue_next.
  destruct (head (retrans_queue dn)) as [h|] eqn:Eh; [|by apply wp_ret, reported_refl].
  destruct (Z.eqb_spec (sent_msec h) 0) as [E0|E0]; cbn [negb];
    [|rewrite orb_true_r; by apply wp_ret, reported_refl].
  rewrite orb_false_r. destruct (negb _); [by apply wp_ret, reported_refl|].
  eapply wp_report_head; [exact Hn|].
  pose proof (ti_nbr _ H n dn Hn) as [H1 H2 H3].
  eapply (tx_inv_nbr (view s I)); [done|exact Hn|done| |done|].
  - simpl. destruct (retrans_queue dn) as [|p q]; [done|]. apply Forall_cons in H2 as [? ?]. by apply Forall_cons.
  - intros d p _ _ _ (h' & Eh' & _ & _ & _ & Et). rewrite Eh in Eh'. congruence.
Qed.

Lemma wp_report_all s l (f : ptr -> Tx unit) :
  tx_inv (view s I) -> (forall n, n ∈ l -> is_Some (tx_nbrs s !! n)) ->
  (forall s' n, tx_inv (view s' I) -> is_Some (tx_nbrs s' !! n) -> wp (f n) (fun _ => reported I s') s') ->
  wp (mfor l f) (fun _ => reported I s) s.
Proof.
  intros H Hl Hf.
  apply (wp_mfor l f (fun l' s' => reported I s s' /\ forall n, n ∈ l' -> is_Some (tx_nbrs s' !! n))).
  - split; [by apply reported_refl|done].
  - intros n l' s' [Hr Hl']. eapply wp_mono; [apply Hf; [apply Hr|apply Hl'; set_solver]|].
    intros u s'' Hr'. split; [by eapply reported_trans|]. intros x Hx.
    apply Hr', Hl'. set_solver.
  - by intros s' [Hr _].
Qed.

Lemma wp_restart_if_head s n sequence :
  tx_inv (view s I) -> is_Some (tx_nbrs s !! n) -> wp (restart_if_head n sequence) (fun _ => reported I s) s.
Proof.
  intros H [dn Hn]. unfold restart_if_head. apply wp_bind. eapply wp_get_xn; [exact Hn|].
  unfold eigrp_packet_queue_next. destruct (head (retrans_queue dn)); [|by apply wp_ret, reported_refl].
  apply wp_when. destruct (_ =? _); [by eapply wp_report_timer|by apply reported_refl].
Qed.

(** A reported retransmission: no other one waits for its neighbor. *)
Lemma retry_reported s n dn f h :
  tx_inv (view s I) -> tx_nbrs s !! n = Some dn -> head (retrans_queue dn) = Some h ->
  (forall d p, I !! xn_ei dn = Some d -> p ∈ obuf d -> retry_for n p = true -> False) ->
  within_limit (f h) -> tx_inv (view (set_xn s n (set_head f dn)) I).
Proof.
  intros H Hn Hh Hnone Hc. pose proof (ti_nbr _ H n dn Hn) as [H1 H2 H3].
  eapply (tx_inv_nbr (view s I)); [done|exact Hn|done| |done|].
  - simpl. destruct (retrans_queue dn) as [|p q]; [done|]. injection Hh as ->.
    apply Forall_cons in H2 as [? ?]. by apply Forall_cons.
  - intros d p Hd Hp Hr _. by destruct (Hnone d p).
Qed.
End reports.

(** ** One packet of an output queue is sent *)

Section wire.
Context (s : transmit) (i : ptr) (d : tx_intf) (p : eigrp_packet) (q : list eigrp_packet).
Hypothesis H : tx_inv s.
Hypothesis Hi : tx_intfs s !! i = Some d.
Hypothesis Hq : obuf d = p :: q.

Definition sent_intf : tx_intf := {| d with obuf := q |}.
Definition sent_intfs : gmap ptr tx_intf := <[i := sent_intf]> (tx_intfs s).

Lemma sent_inv : tx_inv (view s sent_intfs).
Proof.
  apply (tx_inv_intf s i sent_intf H).
  pose proof (ti_intf _ H i d Hi) as Hd.
  pose proof (intf_ok_sublist _ _ _ q (on_write_q d) (multicast_backoff d) (multicast_waiting d) Hd) as Hs.
  rewrite Hq in Hs. specialize (Hs ltac:(by apply sublist_cons)).
  unfold sent_intf. destruct d. exact Hs.
Qed.

Lemma view_inv s1 : tx_nbrs s1 = tx_nbrs s -> tx_inv (view s1 sent_intfs).
Proof. intros EN. exact (tx_inv_ext (view s sent_intfs) (view s1 sent_intfs) EN eq_refl sent_inv). Qed.

(** The retransmission at the front is the only one of its neighbor. *)
Lemma front_only n dn :
  retransmission p = true -> pk_nbr p = Some n -> tx_nbrs s !! n = Some dn ->
  xn_ei dn = i /\ justifies dn p
  /\ forall d' p', sent_intfs !! xn_ei dn = Some d' -> p' ∈ obuf d' -> retry_for n p' = true -> False.
Proof.
  intros Hr Hp Hn. pose proof (ti_intf _ H i d Hi) as Hd.
  destruct (io_retry _ _ _ Hd p) as (n0 & dn0 & E0 & Hn0 & Ei & Hj); [rewrite Hq; set_solver|done|].
  rewrite Hp in E0. injection E0 as <-. rewrite Hn in Hn0. injection Hn0 as <-.
  split; [done|]. split; [done|]. intros d' p' Hd' Hp' Hr'. rewrite Ei in Hd'. unfold sent_intfs in Hd'.
  rewrite lookup_insert_eq in Hd'. injection Hd' as <-. simpl in Hp'.
  pose proof (io_once _ _ _ Hd n) as Ho. rewrite Hq in Ho. simpl in Ho.
  assert (retry_for n p = true) as Ep by (unfold retry_for; rewrite Hr; by rewrite bool_decide_true).
  rewrite Ep in Ho. simpl in Ho.
  assert (Hin : In p' (List.filter (retry_for n) q)) by (apply filter_In; by rewrite <-list_elem_of_In).
  destruct (List.filter (retry_for n) q); [done|]. simpl in Ho. lia.
Qed.

(** The two reports on a retransmission. *)
Lemma wp_report_retry (s1 : transmit) n f :
  tx_nbrs s1 = tx_nbrs s -> retransmission p = true -> pk_nbr p = Some n ->
  (forall h, 0 <= retrans_counter h < EIGRP_TRANSPORT_RETRANS_MAX -> within_limit (f h)) ->
  forall dn h, tx_nbrs s !! n = Some dn -> head (retrans_queue dn) = Some h ->
  wp (upd_head n f;; eigrp_packet_retransmit_timer_start n) (fun _ => reported sent_intfs s1) s1.
Proof.
  intros EN Hr Hp Hf dn h Hn Hh. destruct (front_only n dn Hr Hp Hn) as (Ei & (h' & Hh' & _ & _ & Hc & _) & Hno).
  rewrite Hh in Hh'. injection Hh' as <-.
  eapply wp_report_head; [rewrite EN; exact Hn|].
  apply (retry_reported sent_intfs s1 n dn f h);
    [by apply view_inv|by rewrite EN|done|done|].
  apply Hf. split; [|done]. pose proof (ti_nbr _ H n dn Hn) as [_ Hcnt _].
  destruct (retrans_queue dn); [done|]. injection Hh as ->. apply Forall_cons in Hcnt as [[? _] _]. done.
Qed.

Lemma front_live n : pk_nbr p = Some n -> exists dn, tx_nbrs s !! n = Some dn.
Proof.
  intros E. destruct (io_live _ _ _ (ti_intf _ H i d Hi) p n) as [dn Hdn]; [rewrite Hq; set_solver|done|eauto].
Qed.

Lemma wp_send_update (s1 : transmit) :
  tx_nbrs s1 = tx_nbrs s -> (exists d1, tx_intfs s1 !! i = Some d1 /\ xi_nbrs d1 = xi_nbrs d) ->
  wp (eigrp_packet_reliable_send_update i p) (fun _ => reported sent_intfs s1) s1.
Proof.
  intros EN (d1 & Hd1 & En). unfold eigrp_packet_reliable_send_update.
  pose proof (view_inv s1 EN) as Hv.
  destruct (sequence_number p =? 0) eqn:Eseq; [by apply wp_ret, reported_refl|].
  destruct (retransmission p) eqn:Er; cbn [negb].
  - destruct (pk_nbr p) as [n|] eqn:Ep; [|by apply wp_ret, reported_refl].
    destruct (front_live n Ep) as [dn Hn]. apply wp_bind. eapply wp_get_xn; [rewrite EN; exact Hn|].
    unfold eigrp_packet_queue_next. destruct (head (retrans_queue dn)) as [h|] eqn:Eh; [|by apply wp_ret, reported_refl].
    destruct (negb _); [by apply wp_ret, reported_refl|].
    eapply wp_report_retry; [done|done|done| |exact Hn|exact Eh].
    intros h' Hh'. unfold within_limit in *. simpl. unfold EIGRP_TRANSPORT_RETRANS_MAX in *.
    rewrite u8_small; lia.
  - unfold eigrp_packet_reliable_first_send_update. rewrite Eseq, Er. cbn [orb]. apply wp_bind, wp_gets.
    destruct (pk_nbr p) as [n|] eqn:Ep.
    + apply wp_neighbor_send_update; [done|]. rewrite EN. destruct (front_live n Ep) as [dn Hn]. by eexists.
    + apply wp_bind. eapply wp_get_xi; [exact Hd1|]. apply wp_report_all; [done| |].
      * rewrite En, EN. apply (io_nbrs _ _ _ (ti_intf _ H i d Hi)).
      * intros s' n Hs' Hn'. by apply wp_neighbor_send_update.
Qed.

Lemma wp_send_failure (s1 : transmit) :
  tx_nbrs s1 = tx_nbrs s -> (exists d1, tx_intfs s1 !! i = Some d1 /\ xi_nbrs d1 = xi_nbrs d) ->
  wp (eigrp_packet_reliable_send_failure_update i p) (fun _ => reported sent_intfs s1) s1.
Proof.
  intros EN (d1 & Hd1 & En). unfold eigrp_packet_reliable_send_failure_update.
  pose proof (view_inv s1 EN) as Hv.
  destruct (sequence_number p =? 0); [by apply wp_ret, reported_refl|].
  destruct (retransmission p) eqn:Er.
  - destruct (pk_nbr p) as [n|] eqn:Ep; [|by apply wp_ret, reported_refl].
    destruct (front_live n Ep) as [dn Hn]. apply wp_bind. eapply wp_get_xn; [rewrite EN; exact Hn|].
    unfold eigrp_packet_queue_next. destruct (head (retrans_queue dn)) as [h|] eqn:Eh; [|by apply wp_ret, reported_refl].
    apply wp_when. destruct (_ =? _); [|by apply reported_refl].
    eapply wp_report_retry; [done|done|done| |exact Hn|exact Eh].
    intros h' Hh'. unfold within_limit. simpl. lia.
  - destruct (pk_nbr p) as [n|] eqn:Ep.
    + apply wp_restart_if_head; [done|]. rewrite EN. destruct (front_live n Ep) as [dn Hn]. by eexists.
    + apply wp_bind. eapply wp_get_xi; [exact Hd1|]. apply wp_report_all; [done| |].
      * rewrite En, EN. apply (io_nbrs _ _ _ (ti_intf _ H i d Hi)).
      * intros s' n Hs' Hn'. by apply wp_restart_if_head.
Qed.

(** The send and the removal from the queue. *)
Lemma wp_wire_send :
  wp (eigrp_packet_wire_send i p;;
      upd_xi i (fun d => {| d with obuf := snd (eigrp_packet_dequeue (obuf d)) |}))
     (fun _ => tx_inv) s.
Proof.
  assert (Hfin : forall s1 d1, tx_intfs s1 = <[i := d1]> (tx_intfs s) -> xi_nbrs d1 = xi_nbrs d ->
    obuf d1 = obuf d -> tx_inv (view s1 sent_intfs) ->
    wp (upd_xi i (fun d => {| d with xi_pacing := eigrp_packet_pacing_charge (xi_pacing d) (pk_length p) |});;
        upd_xi i (fun d => {| d with obuf := snd (eigrp_packet_dequeue (obuf d)) |}))
       (fun _ => tx_inv) s1).
  { intros s1 d1 EI En Eo Hv. apply wp_bind. eapply wp_upd_xi; [rewrite EI; apply lookup_insert_eq|].
    eapply wp_upd_xi; [apply lookup_insert_eq|]. rewrite set_xi_set.
    pose proof (ti_intf _ Hv i sent_intf (lookup_insert_eq _ _ _)) as [K1 K2 K3 K4].
    eapply (tx_inv_ext (set_xi (view s1 sent_intfs) i _)).
    - reflexivity.
    - simpl. rewrite EI. unfold sent_intfs. by rewrite !insert_insert_eq.
    - apply tx_inv_intf; [done|]. simpl in *.
      split; simpl; rewrite ?En, ?Eo, ?Hq; simpl; auto. }
  unfold eigrp_packet_wire_send. apply wp_bind, wp_bind. unfold wp at 1, host_send.
  assert (Hgo : forall m (b : bool),
    wp ((if b then
           upd_xi i (fun d => {| d with pacing_tx_bytes := u64 (pacing_tx_bytes d + pk_length p) |});;
           modify (fun s => {| s with tx_wire := tx_wire s ++ [(i, p)] |});;
           eigrp_packet_reliable_send_update i p
         else eigrp_packet_reliable_send_failure_update i p);;
        upd_xi i (fun d => {| d with xi_pacing := eigrp_packet_pacing_charge (xi_pacing d) (pk_length p) |}))
       (fun _ s' => wp (upd_xi i (fun d => {| d with obuf := snd (eigrp_packet_dequeue (obuf d)) |}))
                       (fun _ => tx_inv) s') {| s with tx_sends := m |}).
  { intros m b. apply wp_bind. destruct b.
    - apply wp_bind. eapply wp_upd_xi; [exact Hi|]. apply wp_bind, wp_modify.
      eapply wp_mono; [apply wp_send_update; [done|eexists; split; [apply lookup_insert_eq|done]]|].
      intros u s2 (Hv & EI & _). eapply (proj1 (wp_bind _ _ _ _)), Hfin; [rewrite EI; reflexivity|done|done|done].
    - eapply wp_mono; [apply wp_send_failure; [done|by exists d]|].
      intros u s2 (Hv & EI & _). eapply (proj1 (wp_bind _ _ _ _)), (Hfin _ d); [|done|done|done].
      rewrite EI. simpl. by rewrite insert_id. }
  destruct (tx_sends s) as [|b m] eqn:Es; [specialize (Hgo [] true)|exact (Hgo m b)].
  rewrite <-Es in Hgo. by destruct s.
Qed.
End wire.

(** ** Acknowledgement *)

(** The estimator after one sample; [rto_estimator_bounds] says what it holds. *)
Lemma rtt_sample_wf r x : rtt_wf r -> 0 <= x < 2 ^ 32 -> rtt_wf (eigrp_nbr_rtt_sample r x).
Proof.
  intros [Hs Hv Hr] Hx. unfold eigrp_nbr_rtt_sample.
  assert (Hc : forall z, 0 <= z < 2 ^ 32 ->
    EIGRP_TRANSPORT_RTO_MIN_MSEC <= eigrp_nbr_rto_calculate z <= EIGRP_TRANSPORT_RTO_MAX_MSEC)
    by (intros z Hz; rewrite rto_calculate_clamp by done; apply clamp_rto_range).
  destruct (srtt_valid r); cbn [negb];
    split; cbn [srtt_msec rttvar_msec rto_msec]; try apply u32_range; try apply Hc, u32_range; auto.
  Z.to_euclidean_division_equations. lia.
Qed.

Lemma srtt_update_wf r c sent now : rtt_wf r -> rtt_wf (eigrp_nbr_srtt_update r c sent now).
Proof.
  intros H. unfold eigrp_nbr_srtt_update. destruct (_ || _); [done|].
  destruct (Z.ltb_spec now sent); [done|]. apply rtt_sample_wf; [done|].
  unfold UINT32_MAX. destruct (Z.ltb_spec 4294967295 (now - sent)); lia.
Qed.

Lemma sublist_filter_bool {A} (f : A -> bool) (l : list A) : sublist (List.filter f l) l.
Proof. induction l as [|x l IH]; simpl; [done|]. destruct (f x); by constructor. Qed.

Section drop.
Context (s : transmit) (n : ptr) (dn : tx_nbr) (d : tx_intf).
Hypothesis Hn : tx_nbrs s !! n = Some dn.
Hypothesis Hd : tx_intfs s !! xn_ei dn = Some d.

Lemma wp_output_drop sequence retries_only (Q : unit -> transmit -> Prop) :
  (forall w wq, Q tt (resched s (xn_ei dn) (reflag {| d with obuf :=
       List.filter (fun p => negb (output_match n sequence retries_only p)) (obuf d) |}
       w (multicast_backoff d) (multicast_waiting d)) wq (t_write s) (tx_mem s))) ->
  wp (eigrp_packet_neighbor_output_drop n sequence retries_only) Q s.
Proof.
  intros HQ. unfold eigrp_packet_neighbor_output_drop. apply wp_bind. eapply wp_get_xn; [exact Hn|].
  apply wp_bind. eapply wp_upd_xi; [exact Hd|]. apply wp_bind. eapply wp_get_xi; [apply set_xi_lookup|].
  apply wp_when. destruct (_ && _).
  - apply wp_bind, wp_modify. eapply wp_upd_xi; [apply lookup_insert_eq|].
    match goal with |- Q tt ?x => match type of HQ with forall w wq, Q tt (@?f w wq) =>
      replace x with (f false (remove_first (Nat.eqb (xn_ei dn)) (oi_write_q s))); [apply HQ|] end end.
    unfold resched, set_xi. simpl. by rewrite insert_insert_eq.
  - specialize (HQ (on_write_q d) (oi_write_q s)). unfold resched in HQ. destruct s, d. exact HQ.
Qed.
End drop.

(** A call that keeps the invariant and the neighbor. *)
Definition preserving (f : ptr -> Tx unit) : Prop :=
  forall n s, tx_inv s -> is_Some (tx_nbrs s !! n) ->
    wp (f n) (fun _ s' => tx_inv s' /\ is_Some (tx_nbrs s' !! n)) s.

Section ack.
Context (s : transmit) (n : ptr) (dn : tx_nbr) (h : eigrp_packet) (q : list eigrp_packet) (rtt' : eigrp_rtt).
Hypothesis H : tx_inv s.
Hypothesis Hn : tx_nbrs s !! n = Some dn.
Hypothesis Hq : retrans_queue dn = h :: q.
Hypothesis Hrtt : rtt_wf rtt'.

(** The neighbor once its head was acknowledged. *)
Definition acked : tx_nbr := {| dn with xn_rtt := rtt'; retrans_queue := q |}.

(** The cancelled retries and the removal of the head. *)
Lemma wp_unlink (Q : unit -> transmit -> Prop) :
  (forall s', tx_inv s' -> tx_nbrs s' = <[n := acked]> (tx_nbrs s) -> Q tt s') ->
  wp (when (retry_queued h) (eigrp_packet_neighbor_retry_cancel n (sequence_number h));;
      upd_xn n (fun d => {| d with retrans_queue := snd (eigrp_packet_dequeue (retrans_queue d)) |}))
     Q (set_xn s n {| dn with xn_rtt := rtt' |}).
Proof.
  intros HQ. destruct (nbr_intf s n dn H Hn) as (d & Hd & Hok).
  pose proof (ti_nbr _ H n dn Hn) as [He Hc _].
  set (dn1 := {| dn with xn_rtt := rtt' |}).
  assert (H1 : tx_inv (set_xn s n dn1)) by (by eapply tx_inv_nbr; [|exact Hn|..]).
  assert (Hfin : forall s2, tx_inv s2 -> tx_nbrs s2 = tx_nbrs (set_xn s n dn1) ->
    (forall d' p, tx_intfs s2 !! xn_ei dn = Some d' -> p ∈ obuf d' -> retry_for n p = true ->
       justifies dn1 p -> False) ->
    wp (upd_xn n (fun d => {| d with retrans_queue := snd (eigrp_packet_dequeue (retrans_queue d)) |})) Q s2).
  { intros s2 H2 EN Hno. assert (Hn2 : tx_nbrs s2 !! n = Some dn1) by (rewrite EN; apply set_xn_lookup).
    eapply wp_upd_xn; [exact Hn2|]. apply HQ.
    - eapply tx_inv_nbr; [done|exact Hn2|done| |done|].
      + simpl. rewrite Hq in Hc |- *. by apply Forall_cons in Hc as [_ Hc].
      + intros d' p Hd' Hp Hr Hj. by destruct (Hno d' p).
    - simpl. rewrite EN. simpl. rewrite insert_insert_eq. unfold acked. by rewrite Hq. }
  apply wp_bind, wp_when. destruct (retry_queued h) eqn:Er.
  - eapply (wp_output_drop _ n dn1 d); [apply set_xn_lookup|exact Hd|]. intros w wq. apply Hfin; [|done|].
    + apply tx_inv_resched; [done|]. apply intf_ok_sublist; [by apply (ti_intf _ H1)|].
      apply sublist_filter_bool.
    + intros d' p Hd' Hp Hr (h' & Hh' & Es & _). simpl in Hd', Hh'. rewrite lookup_insert_eq in Hd'.
      injection Hd' as <-. simpl in Hp. apply list_elem_of_In, filter_In in Hp as [_ Hp].
      rewrite Hq in Hh'. injection Hh' as <-. unfold output_match in Hp. unfold retry_for in Hr.
      apply andb_true_iff in Hr as [Hr1 Hr2]. rewrite Hr1, Hr2, Es, Z.eqb_refl in Hp. done.
  - apply Hfin; [done|done|]. intros d' p _ _ _ (h' & Hh' & _ & Eq & _). simpl in Hh'.
    rewrite Hq in Hh'. injection Hh' as <-. congruence.
Qed.
End ack.

Section acknowledged.
Context (nbr_up send_EOT sync_continue : ptr -> Tx unit) (s : transmit) (n : ptr) (dn : tx_nbr).
Hypothesis H : tx_inv s.
Hypothesis Hn : tx_nbrs s !! n = Some dn.

(** Anything but the number of the head is ignored. *)
Lemma ack_unmatched ack sequence :
  (forall h, head (retrans_queue dn) = Some h -> sequence_number h <> ack) ->
  eigrp_packet_ack nbr_up send_EOT sync_continue n ack sequence s = Some (tt, s).
Proof.
  intros Hh. unfold eigrp_packet_ack, get_xn, mbind, M_bind, gets. rewrite Hn. simpl.
  unfold eigrp_packet_queue_next. destruct (head (retrans_queue dn)) as [h|]; [|done].
  rewrite (proj2 (Z.eqb_neq ack (sequence_number h))); [done|]. specialize (Hh h eq_refl). congruence.
Qed.

(** The acknowledged head leaves the queue; the calls that follow start from there. *)
Lemma wp_ack h q sequence (Q : unit -> transmit -> Prop) :
  retrans_queue dn = h :: q ->
  (forall s' dn', tx_inv s' -> tx_nbrs s' !! n = Some dn' -> retrans_queue dn' = q ->
     (forall x, x <> n -> tx_nbrs s' !! x = tx_nbrs s !! x) ->
     wp (if (xn_state dn =? EIGRP_NEIGHBOR_PENDING) && (sequence_number h =? init_sequence_number dn)
         then nbr_up n;;
              upd_xn n (fun d => {| d with init_sequence_number := 0; recv_sequence_number := sequence |});;
              send_EOT n
         else eigrp_packet_send_reliably n;; sync_continue n) Q s') ->
  wp (eigrp_packet_ack nbr_up send_EOT sync_continue n (sequence_number h) sequence) Q s.
Proof.
  intros Hq HQ. unfold eigrp_packet_ack. apply wp_bind. eapply wp_get_xn; [exact Hn|].
  unfold eigrp_packet_queue_next. rewrite Hq. cbn [head]. rewrite Z.eqb_refl. cbn [negb].
  apply wp_bind, wp_gets. apply wp_bind. eapply wp_upd_xn; [exact Hn|].
  pose proof (srtt_update_wf _ (retrans_counter h) (sent_msec h) (tx_clock s) (no_rtt _ _ (ti_nbr _ H n dn Hn))) as Hr.
  apply wp_two. eapply (wp_unlink s n dn h q); [done|done|done|exact Hr|].
  intros s2 H2 EN. set (dn2 := acked dn q _) in EN.
  assert (Hn2 : tx_nbrs s2 !! n = Some dn2) by (rewrite EN; apply lookup_insert_eq).
  destruct (nbr_intf s2 n dn2 H2 Hn2) as (d2 & Hd2 & Hok2).
  apply wp_bind. eapply (wp_multicast_resume s2 (xn_ei dn) d2); [exact Hd2|apply (io_nbrs _ _ _ Hok2)|].
  intros w b a wq tw m. eapply (HQ _ dn2); [|exact Hn2|done|].
  - apply tx_inv_resched; [done|]. by apply intf_ok_reflag.
  - intros x Hx. simpl. rewrite EN. by rewrite lookup_insert_ne.
Qed.

Lemma wp_ack_inv h q sequence :
  preserving nbr_up -> preserving send_EOT -> preserving sync_continue -> retrans_queue dn = h :: q ->
  wp (eigrp_packet_ack nbr_up send_EOT sync_continue n (sequence_number h) sequence) (fun _ => tx_inv) s.
Proof.
  intros Hup Heot Hsync Hq. apply (wp_ack h q); [done|]. intros s' dn' H' Hn' _ _.
  destruct (_ && _).
  - apply wp_bind. eapply wp_mono; [apply Hup; [done|by eexists]|]. intros u s2 (H2 & dn2 & Hn2).
    apply wp_bind. eapply wp_upd_xn; [exact Hn2|].
    eapply wp_mono; [apply Heot|by intros ? ? [? _]].
    + pose proof (ti_nbr _ H2 n dn2 Hn2) as [? ? ?]. by eapply tx_inv_nbr; [|exact Hn2|..].
    + simpl. rewrite lookup_insert_eq. by eexists.
  - apply wp_bind. eapply wp_send_reliably; [done|exact Hn'|]. intros s2 H2 HN.
    eapply wp_mono; [apply Hsync; [done|]|by intros ? ? [? _]].
    destruct HN as [->|(due & ->)]; [by eexists|rewrite lookup_insert_eq; by eexists].
Qed.
End acknowledged.

(** ** Theorems *)

(** C22: the transport's retransmission discipline is an invariant.  A retransmission
    that waits in an output queue is always for the packet at the head of its
    neighbor's reliable queue, which is sent and not acknowledged; a neighbor has at
    most one; a packet is retransmitted at most 16 times; the timeout stays in its
    bounds.  The timer callback keeps this or, after the 16th retry, is exactly the
    teardown of the neighbor; an acknowledgement keeps it, whatever the update module
    does with it that keeps it; so does a packet sent from the front of an output
    queue, by the host's success or its failure; and so does a new packet.  None of
    them follows a dangling pointer. *)
Theorem retransmission_discipline teardown nbr_up send_EOT sync_continue s n dn :
  tx_inv s -> tx_nbrs s !! n = Some dn ->
  preserving nbr_up -> preserving send_EOT -> preserving sync_continue ->
  (if existsb (fun h => negb (retry_queued h) && (EIGRP_TRANSPORT_RETRANS_MAX <=? retrans_counter h))
        (take 1 (retrans_queue dn))
   then eigrp_packet_unack_retrans teardown n s = teardown n s
   else wp (eigrp_packet_unack_retrans teardown n) (fun _ => tx_inv) s)
  /\ (forall ack sequence,
        wp (eigrp_packet_ack nbr_up send_EOT sync_continue n ack sequence) (fun _ => tx_inv) s)
  /\ (forall i d p q, tx_intfs s !! i = Some d -> obuf d = p :: q ->
        wp (eigrp_packet_wire_send i p;;
            upd_xi i (fun d => {| d with obuf := snd (eigrp_packet_dequeue (obuf d)) |}))
           (fun _ => tx_inv) s)
  /\ (forall packet, retrans_counter packet = 0 ->
        wp (eigrp_update_neighbor_packet_queue n packet) (fun _ => tx_inv) s).
Proof.
  intros H Hn Hup Heot Hsync. split; [|split; [|split]].
  - destruct (existsb _ _) eqn:E.
    + unfold eigrp_packet_unack_retrans, get_xn, mbind, M_bind, gets. rewrite Hn. simpl.
      unfold eigrp_packet_queue_next. destruct (retrans_queue dn) as [|h q]; [done|]. simpl in E |- *.
      rewrite orb_false_r in E. apply andb_true_iff in E as [E1 E2]. apply negb_true_iff in E1.
      by rewrite E1, E2.
    + apply (wp_unack_retrans teardown s n dn H Hn); [|done]. intros h Hh Hq Hc. exfalso.
      destruct (retrans_queue dn) as [|h' q]; [done|]. injection Hh as ->. simpl in E.
      rewrite Hq, (proj2 (Z.leb_le _ _) Hc) in E. done.
  - intros ack sequence. destruct (retrans_queue dn) as [|h q] eqn:Eq.
    + unfold wp. rewrite (ack_unmatched _ _ _ s n dn Hn); [done|]. by rewrite Eq.
    + destruct (Z.eq_dec ack (sequence_number h)) as [->|Hne]; [by eapply wp_ack_inv|].
      unfold wp. rewrite (ack_unmatched _ _ _ s n dn Hn); [done|]. rewrite Eq. intros h' [= <-]. done.
  - intros i d p q Hi Hq. by eapply wp_wire_send.
  - intros packet Hc. eapply wp_packet_queue; [done|exact Hn| |done].
    unfold within_limit, EIGRP_TRANSPORT_RETRANS_MAX. lia.
Qed.

(** an acknowledgement releases exactly one packet.  One that does not carry the
    number of the head of the neighbor's reliable queue changes nothing at all; one
    that does removes the head and keeps every later packet in its order (the timer
    of the new head apart), and no retransmission of the acknowledged packet is left
    in the output. *)
Theorem ack_releases_head s n dn ack sequence :
  tx_inv s -> tx_nbrs s !! n = Some dn -> xn_state dn = EIGRP_NEIGHBOR_UP ->
  let run := eigrp_packet_ack (fun _ => mret tt) (fun _ => mret tt) (fun _ => mret tt) n ack sequence in
  match retrans_queue dn with
  | h :: q =>
      if ack =? sequence_number h then
        wp run (fun _ s' =>
          tx_inv s'
          /\ (forall x, x <> n -> tx_nbrs s' !! x = tx_nbrs s !! x)
          /\ exists dn' due, tx_nbrs s' !! n = Some dn'
             /\ (retrans_queue dn' = q
                 \/ retrans_queue dn' = match q with [] => [] | p :: q' => timed due p :: q' end)) s
      else run s = Some (tt, s)
  | [] => run s = Some (tt, s)
  end.
Proof.
  intros H Hn Hup run. destruct (retrans_queue dn) as [|h q] eqn:Eq.
  { apply (ack_unmatched _ _ _ s n dn Hn). by rewrite Eq. }
  destruct (Z.eqb_spec ack (sequence_number h)) as [->|Hne].
  2: { apply (ack_unmatched _ _ _ s n dn Hn). rewrite Eq. intros h' [= <-]. congruence. }
  apply (wp_ack _ _ _ s n dn H Hn h q); [done|]. intros s' dn' H' Hn' Eq' Hx. rewrite Hup. cbn.
  apply wp_bind. eapply wp_send_reliably; [done|exact Hn'|]. intros s2 H2 HN. apply wp_ret.
  split; [done|]. destruct HN as [EN|(due & EN)]; rewrite EN.
  - split; [done|]. exists dn', None. split; [done|by left].
  - split; [intros x Hne; rewrite lookup_insert_ne; auto|]. exists (set_head (timed due) dn'), due.
    rewrite lookup_insert_eq. split; [done|]. right. simpl. by rewrite Eq'.
Qed.

(** a first transmission repeated after a failure is never retransmitted.  A head
    that was not sent yet ([sent_msec] 0) and whose timer fires is queued again with
    its [retry_queued] mark set; when that send succeeds the timer is started but the
    mark stays, so the next expiry of the timer does nothing: it neither queues the
    packet nor starts a timer nor counts a retry, although the packet is unacknowledged. *)
Theorem first_send_retry_stalls teardown s n dn h q d :
  tx_nbrs s !! n = Some dn -> retrans_queue dn = h :: q -> tx_intfs s !! xn_ei dn = Some d ->
  sent_msec h = 0 -> retry_queued h = false -> retrans_counter h = 0 -> sequence_number h <> 0 ->
  obuf d = [] -> tx_mem s = [] ->
  wp (eigrp_packet_unack_retrans teardown n) (fun _ s1 =>
    exists d1 dup, tx_intfs s1 !! xn_ei dn = Some d1 /\ obuf d1 = [dup]
      /\ wp (eigrp_packet_reliable_send_update (xn_ei dn) dup) (fun _ s2 =>
           (exists dn2 h2, tx_nbrs s2 !! n = Some dn2 /\ retrans_queue dn2 = h2 :: q
              /\ sequence_number h2 = sequence_number h /\ sent_msec h2 = tx_clock s)
           /\ eigrp_packet_unack_retrans teardown n s2 = Some (tt, s2)) s1) s.
Proof.
  intros Hn Hq Hd Hs Hr Hc Hseq Ho Hm. unfold eigrp_packet_unack_retrans at 1.
  apply wp_bind. eapply wp_get_xn; [exact Hn|]. unfold eigrp_packet_queue_next. rewrite Hq. cbn [head].
  rewrite Hr, Hc. cbn [Z.leb Z.compare EIGRP_TRANSPORT_RETRANS_MAX].
  apply wp_bind, wp_packet_dup; [|congruence]. intros m. rewrite Hs. cbn [Z.eqb negb].
  apply wp_bind, wp_when, wp_bind. eapply wp_upd_head; [exact Hn|].
  eapply wp_output_enqueue; [exact Hd|]. intros w wq m'.
  eexists _, _. split; [apply lookup_insert_eq|]. split.
  { simpl. unfold output_insert. rewrite Ho. by destruct (is_hello _). }
  unfold eigrp_packet_reliable_send_update, eigrp_packet_reliable_first_send_update.
  cbn [sequence_number retransmission pk_nbr copy_of negb orb].
  rewrite (proj2 (Z.eqb_neq _ _) Hseq). cbn [orb]. apply wp_bind, wp_gets.
  unfold eigrp_packet_reliable_neighbor_send_update. rewrite (proj2 (Z.eqb_neq _ _) Hseq).
  set (dn1 := set_head mark_retry dn).
  assert (Eq1 : retrans_queue dn1 = mark_retry h :: q) by (simpl; by rewrite Hq).
  apply wp_bind. eapply (wp_get_xn n _ dn1); [apply lookup_insert_eq|].
  unfold eigrp_packet_queue_next. rewrite Eq1. cbn [head mark_retry sequence_number sent_msec].
  rewrite Hs, Z.eqb_refl. cbn [negb orb Z.eqb].
  apply wp_bind. eapply (wp_upd_head _ n dn1); [apply lookup_insert_eq|].
  eapply wp_tx_timer_start; [apply set_xn_lookup|]. intros due m2. rewrite set_xn_set.
  set (dn2 := set_head (timed due) _).
  assert (E2 : exists h2, retrans_queue dn2 = h2 :: q /\ sequence_number h2 = sequence_number h
                 /\ sent_msec h2 = tx_clock s /\ retry_queued h2 = true)
    by (unfold dn2, dn1, set_head; cbn [retrans_queue]; rewrite Hq; eexists; split; [reflexivity|done]).
  clearbody dn2. destruct E2 as (h2 & E2 & E3 & E4 & E5). split.
  - exists dn2, h2. split; [apply lookup_insert_eq|done].
  - unfold eigrp_packet_unack_retrans, get_xn, mbind, M_bind, gets. cbn [with_mem set_xn tx_nbrs].
    rewrite lookup_insert_eq. simpl. unfold eigrp_packet_queue_next. rewrite E2. simpl. by rewrite E5.
Qed.

(** ** Instances *)

(** One interface with one neighbor that is UP and has two packets to acknowledge,
    the first one sent. *)
Definition ex_header : eigrp_header :=
  {| hd_version := 2; hd_opcode := EIGRP_OPC_UPDATE; hd_checksum := 0; hd_flags := 0;
     hd_sequence := 7; hd_ack := 0; hd_vrid := 0; hd_ASNumber := 1 |}.

Definition ex_packet (seq sent : Z) : eigrp_packet :=
  {| pk_header := ex_header; pk_body := []; pk_dst := zero_addr; t_retrans_timer := None;
     retrans_counter := 0; pk_nbr := Some 1%nat; sequence_number := seq; retransmission := false;
     retry_queued := false; multicast_exception := false; pk_epoch := 0; sent_msec := sent;
     pk_length := 20 |}.

Definition ex_nbr (sent : Z) : tx_nbr :=
  {| xn_ei := 0%nat; xn_state := EIGRP_NEIGHBOR_UP; xn_epoch := 1; init_sequence_number := 0;
     recv_sequence_number := 3; xn_rtt := eigrp_nbr_rtt_clear; xn_src := zero_addr;
     retrans_queue := [ex_packet 7 sent; ex_packet 8 0] |}.

Definition ex_link (out : list eigrp_packet) : tx_intf :=
  {| xi_nbrs := [1%nat]; obuf := out; multicast_pending := []; xi_epoch := 1;
     multicast_backoff := false; multicast_waiting := false; multicast_backoff_count := 0;
     t_multicast_retry := None; on_write_q := false; xi_bandwidth := 100000;
     xi_curr_bandwidth := 100000; xi_percent := 50;
     xi_pacing := {| pacing_initialized := false; pacing_last_msec := 0; pacing_rate := 0;
                     pacing_credit := 0 |};
     pacing_tx_bytes := 0; pacing_defer_count := 0; pacing_defer_msec := 0; xi_mtu := 1500;
     hello_overhead := 52 |}.

Definition ex_transmit (sent : Z) : transmit :=
  {| tx_nbrs := {[ 1%nat := ex_nbr sent ]}; tx_intfs := {[ 0%nat := ex_link [] ]}; oi_write_q := [];
     t_write := false; t_pacing := None; tx_multicast := zero_addr; packet_address_bytes := 4;
     tx_clock := 1000; tx_stopped := false; tx_mem := []; tx_sends := []; tx_wire := [] |}.

Lemma ex_transmit_inv sent : tx_inv (ex_transmit sent).
Proof.
  split.
  - intros n dn Hn. cbn [ex_transmit tx_nbrs] in Hn. apply lookup_singleton_Some in Hn as [<- <-]. split.
    + exists (ex_link []). reflexivity.
    + repeat (apply Forall_cons; split; [unfold within_limit; simpl; unfold EIGRP_TRANSPORT_RETRANS_MAX; lia|]).
      by apply Forall_nil.
    + split; simpl; unfold EIGRP_TRANSPORT_RTO_MIN_MSEC, EIGRP_TRANSPORT_RTO_MAX_MSEC,
        EIGRP_TRANSPORT_RTO_INITIAL_MSEC; lia.
  - intros i d Hd. cbn [ex_transmit tx_intfs] in Hd. apply lookup_singleton_Some in Hd as [<- <-]. split; simpl; [|set_solver..|lia].
    intros n ->%list_elem_of_singleton. exists (ex_nbr sent). reflexivity.
Qed.

Lemma idle_preserving : preserving (fun _ => mret tt).
Proof. intros n s H Hn. by apply wp_ret. Qed.

(** The expiry of the timer of a sent head queues its first retransmission. *)
Lemma retransmission_discipline_witness :
  wp (eigrp_packet_unack_retrans (fun _ => mret tt) 1%nat) (fun _ => tx_inv) (ex_transmit 900).
Proof.
  exact (proj1 (retransmission_discipline (fun _ => mret tt) (fun _ => mret tt) (fun _ => mret tt)
    (fun _ => mret tt) (ex_transmit 900) 1%nat (ex_nbr 900) (ex_transmit_inv 900) eq_refl
    idle_preserving idle_preserving idle_preserving)).
Defined.

Lemma ack_releases_head_witness :
  wp (eigrp_packet_ack (fun _ => mret tt) (fun _ => mret tt) (fun _ => mret tt) 1%nat 7 0)
     (fun _ s' => tx_inv s') (ex_transmit 900).
Proof.
  pose proof (ack_releases_head (ex_transmit 900) 1%nat (ex_nbr 900) 7 0
    (ex_transmit_inv 900) eq_refl eq_refl) as H. cbv zeta in H.
  cbn [ex_nbr retrans_queue ex_packet sequence_number Z.eqb Pos.eqb] in H.
  eapply wp_mono; [exact H|]. intros u s' [Hs _]. exact Hs.
Defined.

Lemma first_send_retry_stalls_witness :
  wp (eigrp_packet_unack_retrans (fun _ => mret tt) 1%nat) (fun _ s1 =>
    exists d1 dup, tx_intfs s1 !! 0%nat = Some d1 /\ obuf d1 = [dup]) (ex_transmit 0).
Proof.
  eapply wp_mono; [apply (first_send_retry_stalls (fun _ => mret tt) (ex_transmit 0) 1%nat (ex_nbr 0)
    (ex_packet 7 0) [ex_packet 8 0] (ex_link [])); reflexivity || done|].
  intros u s1 (d1 & dup & H1 & H2 & _). exists d1, dup. split; [exact H1|exact H2].
Defined.
