(* ===== verification/Stream.v ===== *)
(** * Byte stream (eigrp_stream.c)

    The growable packet buffer: a read position, an end position and the bytes.
    The operations, the byte queue they implement, and the rules by which the
    codecs are verified. *)

From Stdlib Require Import ZArith Lia.
From stdpp Require Import base gmap list.
From S2P Require Import Prelude Types.

(** The allocator: whether each [realloc]/[calloc] to come succeeds (all do once
    the list is empty), and the bytes of memory it hands out. *)
Record eigrp_heap := { grants : list bool; garbage : nat -> Z }.

(** [struct eigrp_stream]; [size] is the length of [data]. *)
Record eigrp_stream := {
  data : list Z;
  getp : nat;
  endp : nat;
  heap : eigrp_heap;
}.

Abbreviation Sm := (M eigrp_stream).

Definition SIZE_MAX : Z := 2 ^ 64 - 1.

(** ** Big-endian integers ([htons], [htonl], [ntohs], [ntohl]) *)

Fixpoint to_be (n : nat) (v : Z) : list Z :=
  match n with
  | O => []
  | S n' => to_be n' (v / 256) ++ [v mod 256]
  end.

Definition from_be (l : list Z) : Z := foldl (fun acc b => acc * 256 + b) 0 l.

(** ** Operations *)

Definition allocate : Sm bool := fun s =>
  match grants (heap s) with
  | [] => Some (true, s)
  | b :: g => let h := heap s in Some (b, {| s with heap := {| h with grants := g |} |})
  end.

(** [while (size < needed)] with the overflow test; the fuel is the width of
    [size_t]. *)
Fixpoint stream_double (fuel size needed : nat) : option nat :=
  if (size <? needed)%nat then
    if SIZE_MAX / 2 <? Z.of_nat size then None
    else match fuel with
         | O => None
         | S fuel' => stream_double fuel' (size * 2) needed
         end
  else Some size.

Definition eigrp_stream_ensure (needed : nat) : Sm bool :=
  stream ← get;
  let size := length (data stream) in
  if (needed <=? size)%nat then mret true
  else
    match stream_double 64 (if (size =? 0)%nat then 64 else size) needed with
    | None => mret false
    | Some size' =>
        ok ← allocate;
        if ok : bool then
          modify (fun s => {| s with data :=
            data s ++ ((fun i => u8 (garbage (heap s) i)) <$> seq size (size' - size)) |});;
          mret true
        else mret false
    end.

Definition eigrp_stream_clear : Sm unit := modify (fun s => {| s with getp := 0; endp := 0 |}).

(** [memcpy] out of the buffer. *)
Definition stream_read (pos size : nat) : Sm (list Z) :=
  stream ← get;
  if (pos + size <=? length (data stream))%nat
  then mret (take size (drop pos (data stream))) else ub.

(** [memcpy] into the buffer. *)
Definition stream_write (pos : nat) (src : list Z) : Sm unit :=
  stream ← get;
  if (pos + length src <=? length (data stream))%nat
  then modify (fun s => {| s with data :=
         take pos (data s) ++ src ++ drop (pos + length src) (data s) |})
  else ub.

(** The bytes copied to [dst]; their number is the result of the C function. *)
Definition eigrp_stream_get (size : nat) : Sm (list Z) :=
  stream ← get;
  let available := if (getp stream <? endp stream)%nat then (endp stream - getp stream)%nat else O in
  let size := if (available <? size)%nat then available else size in
  if (size =? 0)%nat then mret []
  else
    bs ← stream_read (getp stream) size;
    modify (fun s => {| s with getp := (getp s + size)%nat |});;
    mret bs.

(** [value] is zero before the copy. *)
Definition get_be (width : nat) : Sm Z :=
  bs ← eigrp_stream_get width;
  mret (from_be (bs ++ replicate (width - length bs) 0)).
Definition eigrp_stream_getc : Sm Z := get_be 1.
Definition eigrp_stream_getw : Sm Z := get_be 2.
Definition eigrp_stream_getl : Sm Z := get_be 4.

Definition eigrp_stream_put (src : list Z) : Sm nat :=
  stream ← get;
  ok ← eigrp_stream_ensure (endp stream + length src);
  if ok : bool then
    (if (length src =? 0)%nat then mret tt
     else stream_write (endp stream) src;;
          modify (fun s => {| s with endp := (endp s + length src)%nat |}));;
    mret (length src)
  else mret O.

Definition eigrp_stream_putc (value : Z) : Sm nat := eigrp_stream_put (to_be 1 (u8 value)).
Definition eigrp_stream_putw (value : Z) : Sm nat := eigrp_stream_put (to_be 2 (u16 value)).
Definition eigrp_stream_putl (value : Z) : Sm nat := eigrp_stream_put (to_be 4 (u32 value)).
(** The argument is in network order: its four bytes as they lie in memory. *)
Definition eigrp_stream_put_ipv4 (address : list Z) : Sm nat := eigrp_stream_put address.

Definition eigrp_stream_forward_getp (size : nat) : Sm unit :=
  modify (fun s => {| s with getp :=
    if (endp s <? getp s + size)%nat then endp s else (getp s + size)%nat |}).

Definition eigrp_stream_forward_endp (size : nat) : Sm unit :=
  stream ← get;
  ok ← eigrp_stream_ensure (endp stream + size);
  if ok : bool then modify (fun s => {| s with endp := (endp s + size)%nat |}) else mret tt.

Definition eigrp_stream_set_getp (position : nat) : Sm unit :=
  modify (fun s => {| s with getp := if (position <=? endp s)%nat then position else endp s |}).

Definition eigrp_stream_set_endp (position : nat) : Sm unit :=
  ok ← eigrp_stream_ensure position;
  if ok : bool then
    modify (fun s => {| s with endp := position;
      getp := if (position <? getp s)%nat then position else getp s |})
  else mret tt.

(** [eigrp_stream_copy]; [src] is another stream. *)
Definition eigrp_stream_copy (src : eigrp_stream) : Sm unit :=
  ok ← eigrp_stream_ensure (endp src);
  if ok : bool then
    (if (endp src =? 0)%nat then mret tt
     else if (endp src <=? length (data src))%nat
          then stream_write 0 (take (endp src) (data src)) else ub);;
    modify (fun s => {| s with getp := getp src; endp := endp src |})
  else mret tt.

Definition eigrp_stream_create (h : eigrp_heap) (size : nat) : option eigrp_stream :=
  match allocate {| data := []; getp := 0; endp := 0; heap := h |} with
  | Some (true, stream) =>
      if (size =? 0)%nat then Some stream
      else match eigrp_stream_ensure size stream with
           | Some (true, stream) => Some stream
           | _ => None
           end
  | _ => None
  end.

(** ** The byte queue *)

(** The bytes written so far, and those not yet read. *)
Definition written (s : eigrp_stream) : list Z := take (endp s) (data s).
Definition unread (s : eigrp_stream) : list Z := drop (getp s) (written s).

Record stream_wf (s : eigrp_stream) : Prop := {
  sw_getp : (getp s <= endp s)%nat;
  sw_endp : (endp s <= length (data s))%nat;
  sw_bytes : Forall byte (data s);
}.

(** Memory is granted and the positions are far from [SIZE_MAX]. *)
Record stream_room (s : eigrp_stream) (n : nat) : Prop := {
  sr_grants : grants (heap s) = [];
  sr_size : Z.of_nat (endp s + n) <= SIZE_MAX / 2;
}.

Section big_endian.
Lemma to_be_length n v : length (to_be n v) = n.
Proof. revert v. induction n as [|n IH]; intros v; simpl; [done|]. rewrite length_app, IH. simpl. lia. Qed.

Lemma to_be_bytes n v : Forall byte (to_be n v).
Proof.
  revert v. induction n as [|n IH]; intros v; simpl; [constructor|].
  apply Forall_app. split; [apply IH|]. apply Forall_cons. split; [|constructor].
  unfold byte. apply Z.mod_pos_bound. lia.
Qed.

Lemma from_be_snoc l b : from_be (l ++ [b]) = from_be l * 256 + b.
Proof. unfold from_be. by rewrite foldl_app. Qed.

Lemma from_to_be n v : 0 <= v < 256 ^ Z.of_nat n -> from_be (to_be n v) = v.
Proof.
  revert v. induction n as [|n IH]; intros v Hv; [simpl in *; unfold from_be; simpl; lia|].
  simpl to_be. rewrite from_be_snoc, IH.
  - pose proof (Z.div_mod v 256). lia.
  - rewrite Nat2Z.inj_succ, Z.pow_succ_r in Hv by lia. split; [apply Z.div_pos; lia|].
    apply Z.div_lt_upper_bound; lia.
Qed.

Lemma word_lor b0 b1 : byte b1 -> (b0 .<< 8) .| b1 = b0 * 256 + b1.
Proof.
  intros Hb. unfold byte in Hb. rewrite Z.shiftl_mul_pow2 by lia. change (2 ^ 8) with 256.
  symmetry. apply Z.add_nocarry_lor. apply Z.bits_inj'. intros k Hk.
  rewrite Z.land_spec, Z.bits_0. change (b0 * 256) with (b0 * 2 ^ 8).
  destruct (Z.lt_ge_cases k 8) as [Hk8|Hk8]; [by rewrite Z.mul_pow2_bits_low|].
  rewrite <-(Z.mod_small b1 (2 ^ 8)) by lia. by rewrite Z.mod_pow2_bits_high, andb_false_r by lia.
Qed.
End big_endian.

(** ** Rules *)

Ltac sm_simpl := repeat (rewrite ?wp_bind, ?wp_ret, ?wp_get, ?wp_modify; simpl).

Definition advance (n : nat) (s : eigrp_stream) : eigrp_stream :=
  {| s with getp := (getp s + n)%nat |}.

Section stream_rules.
Implicit Types s : eigrp_stream.

Lemma stream_double_spec fuel size needed :
  (0 < size)%nat -> Z.of_nat needed <= Z.of_nat size * 2 ^ Z.of_nat fuel ->
  Z.of_nat needed <= SIZE_MAX / 2 ->
  exists size', stream_double fuel size needed = Some size' /\ (needed <= size')%nat
                /\ (size <= size')%nat.
Proof.
  intros Hs Hn Hm. revert size Hs Hn. induction fuel as [|fuel IH]; intros size Hs Hn; simpl.
  - destruct (Nat.ltb_spec size needed) as [H|H]; [simpl in Hn; lia|eauto].
  - destruct (Nat.ltb_spec size needed) as [H|H]; [|eauto].
    destruct (Z.ltb_spec (SIZE_MAX / 2) (Z.of_nat size)); [lia|].
    destruct (IH (size * 2)%nat) as (size' & E & H1 & H2); [lia| |exists size'; split; [done|lia]].
    rewrite Nat2Z.inj_succ, Z.pow_succ_r in Hn by lia. lia.
Qed.

#[local] Arguments stream_double : simpl never.

Lemma wp_allocate s (Q : bool -> eigrp_stream -> Prop) :
  grants (heap s) = [] -> Q true s -> wp allocate Q s.
Proof. intros Hg HQ. unfold wp, allocate. by rewrite Hg. Qed.

(** Growing only appends memory behind the buffer. *)
Lemma wp_ensure needed s (Q : bool -> eigrp_stream -> Prop) :
  stream_wf s -> grants (heap s) = [] -> Z.of_nat needed <= SIZE_MAX / 2 ->
  (forall extra, Forall byte extra -> (needed <= length (data s) + length extra)%nat ->
     Q true {| s with data := data s ++ extra |}) ->
  wp (eigrp_stream_ensure needed) Q s.
Proof.
  intros W Hg Hn HQ. unfold eigrp_stream_ensure. sm_simpl.
  destruct (Nat.leb_spec needed (length (data s))) as [H|H].
  - rewrite wp_ret. specialize (HQ []). rewrite app_nil_r in HQ.
    replace s with {| data := data s; getp := getp s; endp := endp s; heap := heap s |}
      by (by destruct s). apply HQ; [constructor|simpl; lia].
  - set (size := if (length (data s) =? 0)%nat then 64%nat else length (data s)).
    assert (Hsz : (0 < size)%nat /\ (length (data s) <= size)%nat)
      by (unfold size; destruct (Nat.eqb_spec (length (data s)) 0); lia).
    destruct (stream_double_spec 64 size needed) as (size' & -> & H1 & H2); [lia| |done|].
    { change (2 ^ Z.of_nat 64) with 18446744073709551616.
      change (SIZE_MAX / 2) with 9223372036854775807 in Hn. clearbody size. lia. }
    rewrite wp_bind. apply wp_allocate; [done|]. rewrite wp_bind, wp_modify, wp_ret. apply HQ.
    + apply Forall_fmap, Forall_forall. intros i _. unfold compose, byte, u8.
      apply Z.mod_pos_bound. lia.
    + rewrite length_fmap, length_seq. lia.
Qed.

Lemma unread_length s : stream_wf s -> length (unread s) = (endp s - getp s)%nat.
Proof. intros [H1 H2 _]. unfold unread, written. rewrite length_drop, length_take. lia. Qed.

Lemma wp_stream_get n s (Q : list Z -> eigrp_stream -> Prop) :
  stream_wf s -> Q (take n (unread s)) (advance (min n (length (unread s))) s) ->
  wp (eigrp_stream_get n) Q s.
Proof.
  intros W HQ. pose proof (unread_length s W) as Hl. rewrite Hl in HQ.
  destruct W as [H1 H2 H3]. unfold eigrp_stream_get. sm_simpl.
  assert (Hav : (if (getp s <? endp s)%nat then (endp s - getp s)%nat else O) = (endp s - getp s)%nat)
    by (destruct (Nat.ltb_spec (getp s) (endp s)); lia).
  rewrite Hav. set (k := if (endp s - getp s <? n)%nat then (endp s - getp s)%nat else n).
  assert (Hk : k = min n (endp s - getp s)%nat)
    by (unfold k; destruct (Nat.ltb_spec (endp s - getp s) n); lia).
  assert (Hread : take n (unread s) = take k (drop (getp s) (data s))).
  { unfold unread, written. rewrite skipn_firstn_comm, take_take, Hk. f_equal. }
  rewrite Hread, <-Hk in HQ. destruct (Nat.eqb_spec k 0) as [E|E].
  - rewrite wp_ret. rewrite E in HQ. unfold advance in HQ. rewrite Nat.add_0_r in HQ.
    by destruct s.
  - unfold stream_read. sm_simpl. rewrite (proj2 (Nat.leb_le _ _)) by lia. sm_simpl. exact HQ.
Qed.

Lemma advance_wf n s : stream_wf s -> (n <= length (unread s))%nat -> stream_wf (advance n s).
Proof.
  intros W. rewrite unread_length by done. intros Hn. destruct W as [H1 H2 H3].
  split; simpl; [lia|done|done].
Qed.

Lemma unread_advance n s : unread (advance n s) = drop n (unread s).
Proof. unfold unread, advance, written. simpl. by rewrite drop_drop. Qed.

(** Reading bytes that are there. *)
Lemma wp_get_exact bs rest s (Q : list Z -> eigrp_stream -> Prop) n :
  stream_wf s -> unread s = bs ++ rest -> n = length bs ->
  (stream_wf (advance n s) -> unread (advance n s) = rest -> Q bs (advance n s)) ->
  wp (eigrp_stream_get n) Q s.
Proof.
  intros W Hu -> HQ. assert (Hlen : (length bs <= length (unread s))%nat)
    by (rewrite Hu, length_app; lia).
  apply wp_stream_get; [done|]. rewrite Nat.min_l by done. rewrite Hu, take_app_length.
  apply HQ; [by apply advance_wf|]. by rewrite unread_advance, Hu, drop_app_length.
Qed.

Lemma wp_get_be w v rest s (Q : Z -> eigrp_stream -> Prop) :
  stream_wf s -> unread s = to_be w v ++ rest -> 0 <= v < 256 ^ Z.of_nat w ->
  (stream_wf (advance w s) -> unread (advance w s) = rest -> Q v (advance w s)) ->
  wp (get_be w) Q s.
Proof.
  intros W Hu Hv HQ. unfold get_be. rewrite wp_bind.
  eapply wp_get_exact; [done|exact Hu|by rewrite to_be_length|]. intros W' Hu'.
  rewrite wp_ret, to_be_length, Nat.sub_diag, app_nil_r, from_to_be by done. by apply HQ.
Qed.

(** Writing at the end. *)
Lemma wp_put bs s (Q : nat -> eigrp_stream -> Prop) :
  stream_wf s -> stream_room s (length bs) -> Forall byte bs ->
  (forall s', stream_wf s' -> written s' = written s ++ bs -> getp s' = getp s ->
     endp s' = (endp s + length bs)%nat -> heap s' = heap s -> Q (length bs) s') ->
  wp (eigrp_stream_put bs) Q s.
Proof.
  intros W [R1 R2] Hbs HQ. unfold eigrp_stream_put. sm_simpl.
  apply wp_ensure; [done|done|done|]. intros extra Hx Hlen. pose proof W as [W1 W2 W3].
  assert (Hb : Forall byte (data s ++ extra)) by (by apply Forall_app).
  destruct (Nat.eqb_spec (length bs) 0) as [E|E]; sm_simpl.
  - rewrite E. assert (bs = []) as -> by (by apply nil_length_inv). apply HQ; simpl; try done; try lia.
    + split; simpl; [lia|rewrite length_app; lia|done].
    + unfold written. simpl. by rewrite take_app_le, app_nil_r by lia.
  - unfold stream_write. sm_simpl. rewrite (proj2 (Nat.leb_le _ _)) by (rewrite length_app; lia).
    sm_simpl. apply HQ; simpl; try done.
    + split; simpl; [lia| |].
      * rewrite !length_app, length_take, length_drop, length_app. lia.
      * rewrite !Forall_app. split; [by apply Forall_take|]. split; [done|by apply Forall_drop].
    + unfold written. simpl. rewrite (take_app_le (data s)) by lia.
      rewrite app_assoc, take_app_length'; [done|]. rewrite length_app, length_take. lia.
Qed.

Lemma unread_put s s' bs :
  stream_wf s -> written s' = written s ++ bs -> getp s' = getp s -> unread s' = unread s ++ bs.
Proof.
  intros [H1 H2 _] E1 E2. unfold unread. rewrite E1, E2. apply drop_app_le.
  unfold written. rewrite length_take. lia.
Qed.

(** Moving the end inside the buffer, as the decoders do. *)
Lemma wp_set_endp n s (Q : unit -> eigrp_stream -> Prop) :
  (n <= length (data s))%nat ->
  Q tt {| s with endp := n; getp := if (n <? getp s)%nat then n else getp s |} ->
  wp (eigrp_stream_set_endp n) Q s.
Proof.
  intros Hn HQ. unfold eigrp_stream_set_endp, eigrp_stream_ensure.
  rewrite !wp_bind, wp_get. cbv zeta. rewrite (proj2 (Nat.leb_le _ _)) by done. exact HQ.
Qed.

Lemma wp_set_getp n s (Q : unit -> eigrp_stream -> Prop) :
  Q tt {| s with getp := if (n <=? endp s)%nat then n else endp s |} ->
  wp (eigrp_stream_set_getp n) Q s.
Proof. done. Qed.

Lemma from_be_bounds l : Forall byte l -> 0 <= from_be l < 256 ^ Z.of_nat (length l).
Proof.
  induction l as [|b l IH] using rev_ind; intros H; [unfold from_be; simpl; lia|].
  apply Forall_app in H as [H1 H2]. inversion H2 as [|? ? Hb _]; subst. specialize (IH H1).
  rewrite from_be_snoc, length_app. simpl. rewrite Nat.add_1_r, Nat2Z.inj_succ, Z.pow_succ_r by lia.
  unfold byte in Hb. lia.
Qed.

Lemma unread_bytes s : stream_wf s -> Forall byte (unread s).
Proof. intros [_ _ H]. by apply Forall_drop, Forall_take. Qed.

(** Reading whatever is there: the value has its width. *)
Lemma wp_get_be_any w s (Q : Z -> eigrp_stream -> Prop) :
  stream_wf s ->
  (forall v n, 0 <= v < 256 ^ Z.of_nat w -> n = min w (length (unread s)) ->
     stream_wf (advance n s) -> Q v (advance n s)) ->
  wp (get_be w) Q s.
Proof.
  intros W HQ. unfold get_be. rewrite wp_bind. apply wp_stream_get; [done|]. rewrite wp_ret.
  apply HQ; [|done|apply advance_wf; [done|lia]].
  pose proof (from_be_bounds (take w (unread s) ++ replicate (w - length (take w (unread s))) 0)) as Hb.
  rewrite length_app, length_replicate in Hb. rewrite !length_take in *.
  replace (min w (length (unread s)) + (w - min w (length (unread s))))%nat with w in Hb by lia.
  apply Hb. apply Forall_app. split; [by apply Forall_take, unread_bytes|].
  apply Forall_replicate. unfold byte. lia.
Qed.
End stream_rules.

(** ** Chains of writes *)

Record appended (s s' : eigrp_stream) (bs : list Z) : Prop := {
  ap_wf : stream_wf s';
  ap_written : written s' = written s ++ bs;
  ap_getp : getp s' = getp s;
  ap_endp : endp s' = (endp s + length bs)%nat;
  ap_heap : heap s' = heap s;
}.

Section writes.
Implicit Types s : eigrp_stream.

Lemma appended_refl s : stream_wf s -> appended s s [].
Proof. intros W. split; simpl; rewrite ?app_nil_r, ?Nat.add_0_r; done. Qed.

Lemma appended_trans s1 s2 s3 a b :
  appended s1 s2 a -> appended s2 s3 b -> appended s1 s3 (a ++ b).
Proof.
  intros [A1 A2 A3 A4 A5] [B1 B2 B3 B4 B5]. split; try congruence.
  - by rewrite B2, A2, app_assoc.
  - rewrite B4, A4, length_app. lia.
Qed.

Lemma room_less s n m : stream_room s n -> (m <= n)%nat -> stream_room s m.
Proof. intros [H1 H2] H. split; [done|lia]. Qed.

Lemma appended_room s s' bs n m :
  appended s s' bs -> stream_room s n -> (length bs + m <= n)%nat -> stream_room s' m.
Proof. intros [_ _ _ E H] [R1 R2] Hl. split; [by rewrite H|]. rewrite E. lia. Qed.

(** One more put after those already made from [s0]. *)
Lemma wp_put_chain bs s0 s done n (Q : nat -> eigrp_stream -> Prop) :
  appended s0 s done -> stream_room s0 n -> (length done + length bs <= n)%nat -> Forall byte bs ->
  (forall s', appended s0 s' (done ++ bs) -> Q (length bs) s') ->
  wp (eigrp_stream_put bs) Q s.
Proof.
  intros A R Hn Hb HQ. apply wp_put; [apply A|by eapply appended_room|done|].
  intros s' W E1 E2 E3 E4. apply HQ. eapply appended_trans; [exact A|by split].
Qed.

Lemma to_be_mod n v : to_be n (v mod 256 ^ Z.of_nat n) = to_be n v.
Proof.
  revert v. induction n as [|n IH]; intros v; [done|]. simpl to_be.
  rewrite Nat2Z.inj_succ, Z.pow_succ_r by lia.
  pose proof (Z.pow_pos_nonneg 256 (Z.of_nat n)) as Hp.
  assert (E : v mod (256 * 256 ^ Z.of_nat n) = v mod 256 + 256 * (v / 256 mod 256 ^ Z.of_nat n)).
  { rewrite Z.rem_mul_r by lia. lia. }
  rewrite E. f_equal.
  - rewrite <-(IH (v / 256)), <-(IH (_ / 256)). f_equal.
    rewrite Z.mul_comm, Z.div_add, (Z.div_small (v mod 256)), Z.add_0_l by
      (try apply Z.mod_pos_bound; lia).
    by rewrite Z.mod_mod by lia.
  - f_equal. rewrite Z.mul_comm, Z.mod_add, Z.mod_mod by lia. done.
Qed.

Lemma wp_put_be_chain w v u s0 s done n (Q : nat -> eigrp_stream -> Prop) :
  u = v mod 256 ^ Z.of_nat w ->
  appended s0 s done -> stream_room s0 n -> (length done + w <= n)%nat ->
  (forall s', appended s0 s' (done ++ to_be w v) -> Q w s') ->
  wp (eigrp_stream_put (to_be w u)) Q s.
Proof.
  intros -> A R Hn HQ. rewrite to_be_mod. rewrite <-(to_be_length w v) in Hn.
  eapply wp_put_chain; [exact A|exact R|done|apply to_be_bytes|].
  intros s' A'. rewrite to_be_length. by apply HQ.
Qed.
End writes.

(** ** Theorems *)

(** the stream is a byte queue: a put appends its bytes behind those still
    unread without disturbing them or the read position, growing the buffer as
    needed, and a get removes and returns the first [n] unread bytes, or all of
    them when there are fewer; both leave the positions ordered inside the buffer. *)
Theorem stream_is_queue s bs n :
  stream_wf s -> stream_room s (length bs) -> Forall byte bs ->
  wp (eigrp_stream_put bs) (fun k s' => stream_wf s' /\ k = length bs
        /\ unread s' = unread s ++ bs /\ getp s' = getp s) s
  /\ wp (eigrp_stream_get n) (fun out s' => stream_wf s' /\ out = take n (unread s)
        /\ unread s' = drop n (unread s) /\ written s' = written s) s.
Proof.
  intros W R Hbs. split.
  - apply wp_put; [done|done|done|]. intros s' W' E1 E2 _ _.
    split; [done|]. split; [done|]. split; [|done]. by apply unread_put.
  - apply wp_stream_get; [done|]. split; [apply advance_wf; [done|lia]|]. split; [done|].
    split; [|done]. rewrite unread_advance. destruct (Nat.le_ge_cases n (length (unread s))).
    + by rewrite Nat.min_l.
    + rewrite Nat.min_r by done. rewrite !drop_ge by done. done.
Qed.

Definition ex_stream : eigrp_stream :=
  {| data := [1; 2; 3; 4]; getp := 1; endp := 3;
     heap := {| grants := []; garbage := fun _ => 0 |} |}.

Lemma ex_stream_wf : stream_wf ex_stream.
Proof.
  split; simpl; [lia|lia|]. repeat (apply Forall_cons; split; [unfold byte; lia|]). by apply Forall_nil.
Qed.

Lemma stream_is_queue_witness :
  wp (eigrp_stream_get 1) (fun out _ => out = [2]) ex_stream.
Proof.
  destruct (stream_is_queue ex_stream [7; 8; 9] 1%nat) as [_ H].
  - exact ex_stream_wf.
  - split; [reflexivity|vm_compute; congruence].
  - repeat (apply Forall_cons; split; [unfold byte; lia|]). by apply Forall_nil.
  - eapply wp_mono; [exact H|]. intros out s' (_ & -> & _). reflexivity.
Defined.
