(* ===== verification/Checksum.v ===== *)
(** * Internet checksum (eigrp_checksum.c) *)

From Stdlib Require Import ZArith Lia.
From stdpp Require Import base list.
From S2P Require Import Prelude Types Stream.

(** The sum of the 16-bit words, an odd last byte padded; [uint32_t]. *)
Fixpoint checksum_sum (p : list Z) (sum : Z) : Z :=
  match p with
  | b0 :: b1 :: p' => checksum_sum p' (u32 (sum + ((b0 .<< 8) .| b1)))
  | [b0] => u32 (sum + (b0 .<< 8))
  | [] => sum
  end.

(** [while (sum >> 16)]: two rounds bring a [uint32_t] below 2^16. *)
Fixpoint checksum_fold (fuel : nat) (sum : Z) : Z :=
  match fuel with
  | O => sum
  | S fuel' => if (sum .>> 16) =? 0 then sum
               else checksum_fold fuel' (u32 ((sum .& 0xffff) + (sum .>> 16)))
  end.

Definition eigrp_checksum (data : list Z) : Z := u16 (Z.lnot (checksum_fold 2 (checksum_sum data 0))).

(** ** The sum as a function of the words *)

Section words.
Fixpoint words (p : list Z) : Z :=
  match p with
  | b0 :: b1 :: p' => b0 * 256 + b1 + words p'
  | [b0] => b0 * 256
  | [] => 0
  end.

Lemma pair_ind (P : list Z -> Prop) :
  P [] -> (forall a, P [a]) -> (forall a b l, P l -> P (a :: b :: l)) -> forall l, P l.
Proof.
  intros H0 H1 H2 l. enough (P l /\ forall a, P (a :: l)) by tauto.
  induction l as [|x l [IH1 IH2]]; split; auto.
Qed.

Lemma words_bounds l : Forall byte l -> 0 <= words l /\ 2 * words l <= 65535 * (Z.of_nat (length l) + 1).
Proof.
  induction l as [|a|a b l IH] using pair_ind; intros H.
  - vm_compute. split; congruence.
  - inversion H as [|? ? Ha _]; subst. unfold byte in Ha. cbn [words length]. rewrite ?Nat2Z.inj_succ. lia.
  - inversion H as [|? ? Ha H']; subst. inversion H' as [|? ? Hb Hl]; subst. specialize (IH Hl).
    unfold byte in *. cbn [words length]. rewrite ?Nat2Z.inj_succ. lia.
Qed.

Lemma checksum_sum_words l acc :
  Forall byte l -> 0 <= acc -> acc + words l < 2 ^ 32 -> checksum_sum l acc = acc + words l.
Proof.
  revert acc. induction l as [|a|a b l IH] using pair_ind; intros acc H Ha Hs; simpl in *.
  - lia.
  - inversion H as [|? ? Hb _]; subst. unfold byte in Hb.
    rewrite Z.shiftl_mul_pow2 by lia. change (2 ^ 8) with 256. apply u32_small. lia.
  - inversion H as [|? ? Hx H']; subst. inversion H' as [|? ? Hy Hl]; subst.
    pose proof (words_bounds l Hl). rewrite word_lor by done. unfold byte in *.
    rewrite u32_small by lia. rewrite IH by (done || lia). lia.
Qed.

Lemma words_app l k : Nat.Even (length l) -> words (l ++ k) = words l + words k.
Proof.
  induction l as [|a|a b l IH] using pair_ind; intros [m Hm]; simpl in *; [done|lia|].
  rewrite IH; [lia|]. exists (m - 1)%nat. lia.
Qed.
End words.

(** ** Ones' complement *)

Section fold.
Lemma shiftr_16 z : z .>> 16 = z / 65536.
Proof. by rewrite Z.shiftr_div_pow2. Qed.
Lemma land_ffff z : z .& 0xffff = z mod 65536.
Proof. exact (Z.land_ones z 16 ltac:(lia)). Qed.

(** The folded sum: congruent modulo 65535, and zero only for zero. *)
Lemma checksum_fold_spec sum :
  0 <= sum < 2 ^ 32 ->
  0 <= checksum_fold 2 sum <= 65535
  /\ (exists k, sum = checksum_fold 2 sum + 65535 * k)
  /\ (checksum_fold 2 sum = 0 <-> sum = 0).
Proof.
  intros Hs. unfold checksum_fold. rewrite !land_ffff, !shiftr_16.
  pose proof (Z.div_mod sum 65536). pose proof (Z.mod_pos_bound sum 65536).
  assert (0 <= sum / 65536 < 65536) by (split; [apply Z.div_pos; lia|apply Z.div_lt_upper_bound; lia]).
  destruct (Z.eqb_spec (sum / 65536) 0) as [E|E].
  { split; [lia|]. split; [exists 0; lia|lia]. }
  rewrite (u32_small (sum mod 65536 + sum / 65536)) by lia.
  set (t := sum mod 65536 + sum / 65536) in *.
  pose proof (Z.div_mod t 65536). pose proof (Z.mod_pos_bound t 65536).
  assert (0 <= t / 65536 < 2) by (split; [apply Z.div_pos; lia|apply Z.div_lt_upper_bound; lia]).
  destruct (Z.eqb_spec (t / 65536) 0) as [E'|E'].
  { split; [lia|]. split; [exists (sum / 65536); lia|lia]. }
  rewrite u32_small by lia.
  split; [lia|]. split; [exists (sum / 65536 + t / 65536); lia|lia].
Qed.

Lemma not_u16 z : 0 <= z <= 65535 -> u16 (Z.lnot z) = 65535 - z.
Proof.
  intros H. unfold u16, Z.lnot. replace (Z.pred (- z)) with (65535 - z + (-1) * 65536) by lia.
  change (2 ^ 16) with 65536. rewrite Z.mod_add by lia. apply Z.mod_small. lia.
Qed.
End fold.

Lemma checksum_filled pre post :
  Forall byte pre -> Forall byte post -> Nat.Even (length pre) ->
  Z.of_nat (length pre + 2 + length post) <= 65535 ->
  eigrp_checksum (pre ++ to_be 2 (eigrp_checksum (pre ++ [0; 0] ++ post)) ++ post) = 0.
Proof.
  intros Hpre Hpost Hev Hlen.
  assert (H0 : Forall byte [0; 0]) by (repeat (apply Forall_cons; split; [unfold byte; lia|]); constructor).
  pose proof (words_bounds pre Hpre) as B1. pose proof (words_bounds post Hpost) as B2.
  assert (Hz : checksum_sum (pre ++ [0; 0] ++ post) 0 = words pre + words post).
  { assert (Hw : words ([0; 0] ++ post) = words post) by (cbn [words app]; lia).
    rewrite checksum_sum_words; [|by rewrite !Forall_app|lia|];
      rewrite (words_app pre ([0; 0] ++ post)), Hw by done; lia. }
  destruct (checksum_fold_spec (words pre + words post)) as (F1 & (k & F2) & F3); [lia|].
  unfold eigrp_checksum at 2. rewrite Hz, not_u16 by done.
  set (f := checksum_fold 2 (words pre + words post)) in *.
  assert (Hc : checksum_sum (pre ++ to_be 2 (65535 - f) ++ post) 0
               = words pre + words post + (65535 - f)).
  { assert (Hw : words (to_be 2 (65535 - f) ++ post) = 65535 - f + words post).
    { simpl. pose proof (Z.div_mod (65535 - f) 256).
      rewrite (Z.mod_small ((65535 - f) / 256) 256); [lia|].
      split; [apply Z.div_pos; lia|apply Z.div_lt_upper_bound; lia]. }
    rewrite checksum_sum_words;
      [|by rewrite !Forall_app; auto using to_be_bytes|lia|];
      rewrite (words_app pre (to_be 2 (65535 - f) ++ post)), Hw by done; lia. }
  unfold eigrp_checksum. rewrite Hc.
  destruct (checksum_fold_spec (words pre + words post + (65535 - f))) as (G1 & (j & G2) & G3); [lia|].
  rewrite not_u16 by done. lia.
Qed.

(** a packet whose checksum field was filled with [eigrp_checksum] of the packet
    with that field zero verifies: the checksum computed over the whole packet is
    zero, for any packet of at most 65535 bytes with the field on an even offset. *)
Theorem checksum_verifies pre post :
  Forall byte pre -> Forall byte post -> Nat.Even (length pre) ->
  Z.of_nat (length pre + 2 + length post) <= 65535 ->
  eigrp_checksum (pre ++ to_be 2 (eigrp_checksum (pre ++ [0; 0] ++ post)) ++ post) = 0.
Proof. apply checksum_filled. Qed.

Lemma checksum_verifies_witness :
  eigrp_checksum ([2; 3] ++ to_be 2 (eigrp_checksum ([2; 3] ++ [0; 0] ++ [255; 254; 7])) ++ [255; 254; 7]) = 0.
Proof.
  apply (checksum_verifies [2; 3] [255; 254; 7]).
  - repeat (apply Forall_cons; split; [unfold byte; lia|]). constructor.
  - repeat (apply Forall_cons; split; [unfold byte; lia|]). constructor.
  - exists 1%nat. reflexivity.
  - vm_compute. congruence.
Defined.
