(* ===== verification/BlockHash.v ===== *)
(** * Block hashes

    What the two digests of the repository share: a chaining value, a compression
    function on 64-byte blocks and a buffer for the bytes of an unfinished block.
    [absorb] is the chaining value after the complete blocks of a message and
    [residue] the bytes left over; the lemmas say how both grow when bytes are
    appended, in the two cases the update functions distinguish. *)

From Stdlib Require Import ZArith Lia.
From stdpp Require Import base list.
From S2P Require Import Prelude.

(** [memcpy (dst + pos, src, length src)]. *)
Definition splice (dst : list Z) (pos : nat) (src : list Z) : list Z :=
  take pos dst ++ src ++ drop (pos + length src) dst.

Section splices.
Lemma length_splice dst pos src :
  (pos + length src <= length dst)%nat -> length (splice dst pos src) = length dst.
Proof. intros H. unfold splice. rewrite !length_app, length_take, length_drop. lia. Qed.
Lemma take_splice dst pos src :
  (pos + length src <= length dst)%nat ->
  take (pos + length src) (splice dst pos src) = take pos dst ++ src.
Proof.
  intros H. unfold splice. rewrite app_assoc, take_app_length'; [done|].
  rewrite length_app, length_take. lia.
Qed.
Lemma splice_full dst pos src :
  (pos + length src = length dst)%nat -> splice dst pos src = take pos dst ++ src.
Proof. intros H. unfold splice. rewrite H, drop_all, app_nil_r. done. Qed.

Lemma lookup_splice dst pos src i :
  (pos + length src <= length dst)%nat ->
  splice dst pos src !! i
  = if decide (pos <= i < pos + length src)%nat then src !! (i - pos)%nat else dst !! i.
Proof.
  intros H. unfold splice. assert (length (take pos dst) = pos) as Ht by (rewrite length_take; lia).
  case_decide as Hd.
  - rewrite lookup_app_r, Ht, lookup_app_l by lia. done.
  - destruct (decide (i < pos)%nat).
    + rewrite lookup_app_l, lookup_take by lia. by rewrite decide_True.
    + rewrite lookup_app_r, Ht, lookup_app_r, lookup_drop by lia. f_equal. lia.
Qed.
Lemma splice_bytes dst pos src : Forall byte dst -> Forall byte src -> Forall byte (splice dst pos src).
Proof.
  intros H1 H2. unfold splice. rewrite !Forall_app. split; [by apply Forall_take|].
  split; [done|by apply Forall_drop].
Qed.
End splices.

(** The [n] bytes at [pos]. *)
Definition slice (l : list Z) (pos n : nat) : list Z := take n (drop pos l).

Section slices.
Lemma length_slice l pos n : (pos + n <= length l)%nat -> length (slice l pos n) = n.
Proof. intros H. unfold slice. rewrite length_take, length_drop. lia. Qed.
Lemma lookup_slice l pos n i :
  slice l pos n !! i = if decide (i < n)%nat then l !! (pos + i)%nat else None.
Proof. unfold slice. rewrite lookup_take. case_decide; [by rewrite lookup_drop|done]. Qed.
Lemma slice_bytes l pos n : Forall byte l -> Forall byte (slice l pos n).
Proof. intros H. by apply Forall_take, Forall_drop. Qed.

(** Nothing is lost by writing back what was read. *)
Lemma splice_slice l pos n : (pos + n <= length l)%nat -> splice l pos (slice l pos n) = l.
Proof.
  intros H. apply list_eq. intros i. rewrite lookup_splice by (rewrite length_slice; lia).
  rewrite length_slice by done. case_decide; [|done]. rewrite lookup_slice, decide_True by lia.
  f_equal. lia.
Qed.
Lemma splice_splice l pos a b :
  length a = length b -> (pos + length a <= length l)%nat -> splice (splice l pos a) pos b = splice l pos b.
Proof.
  intros E H. apply list_eq. intros i.
  rewrite !lookup_splice by (rewrite ?length_splice; lia). rewrite E. by case_decide.
Qed.
Lemma splice_comm l p a q b :
  (p + length a <= q)%nat -> (q + length b <= length l)%nat ->
  splice (splice l q b) p a = splice (splice l p a) q b.
Proof.
  intros E H. apply list_eq. intros i.
  rewrite !lookup_splice by (rewrite ?length_splice; lia). repeat case_decide; try done; lia.
Qed.
Lemma slice_splice l p src : (p + length src <= length l)%nat -> slice (splice l p src) p (length src) = src.
Proof.
  intros H. apply list_eq. intros i. rewrite lookup_slice, lookup_splice by done.
  case_decide as Hi; [|symmetry; apply lookup_ge_None; lia].
  rewrite decide_True by lia. f_equal. lia.
Qed.
Lemma slice_splice_other l p src q n :
  (p + length src <= length l)%nat -> (q + n <= p \/ p + length src <= q)%nat ->
  slice (splice l p src) q n = slice l q n.
Proof.
  intros H Hd. apply list_eq. intros i. rewrite !lookup_slice, lookup_splice by done.
  case_decide; [|done]. rewrite decide_False by lia. done.
Qed.
Lemma take_splice_comm l n p src :
  (p + length src <= n)%nat -> (n <= length l)%nat -> take n (splice l p src) = splice (take n l) p src.
Proof.
  intros H1 H2. apply list_eq. intros i.
  rewrite lookup_splice by (rewrite length_take; lia). rewrite !lookup_take.
  case_decide as Hi; [by rewrite lookup_splice by lia|].
  rewrite decide_False by lia. done.
Qed.
End slices.

Section block_hash.
Context {H : Type} (compress : H -> list Z -> H).

Fixpoint compress_blocks (n : nat) (h : H) (l : list Z) : H :=
  match n with
  | O => h
  | S n' => compress_blocks n' (compress h (take 64 l)) (drop 64 l)
  end.

Definition absorb (h : H) (l : list Z) : H := compress_blocks (length l / 64) h l.
Definition residue (l : list Z) : list Z := drop (64 * (length l / 64)) l.

Lemma length_residue l : length (residue l) = (length l mod 64)%nat.
Proof. unfold residue. rewrite length_drop. pose proof (Nat.div_mod_eq (length l) 64). lia. Qed.

Lemma compress_blocks_app n h l k :
  (64 * n <= length l)%nat -> compress_blocks n h (l ++ k) = compress_blocks n h l.
Proof.
  revert h l. induction n as [|n IH]; intros h l Hl; simpl; [done|].
  rewrite take_app_le, drop_app_le by lia. apply IH. rewrite length_drop. lia.
Qed.

Lemma compress_blocks_add n m h l :
  (64 * n <= length l)%nat ->
  compress_blocks (n + m) h l = compress_blocks m (compress_blocks n h l) (drop (64 * n) l).
Proof.
  revert h l. induction n as [|n IH]; intros h l Hl; simpl; [done|].
  rewrite IH by (rewrite length_drop; lia). rewrite drop_drop. do 2 f_equal. lia.
Qed.

Lemma div_64_app a b : Nat.divide 64 a -> ((a + b) / 64 = a / 64 + b / 64)%nat.
Proof.
  intros [q ->]. rewrite Nat.div_mul by lia. rewrite Nat.add_comm, Nat.div_add by lia. lia.
Qed.

(** What is absorbed first may be dropped: only the residue matters for what follows. *)
Lemma absorb_app h l k : absorb h (l ++ k) = absorb (absorb h l) (residue l ++ k).
Proof.
  pose proof (Nat.div_mod_eq (length l) 64) as E. unfold absorb, residue.
  rewrite !length_app, length_drop.
  set (n := (length l / 64)%nat) in *.
  assert (((length l + length k) / 64)%nat = (n + (length l - 64 * n + length k) / 64)%nat) as ->.
  { replace (length l + length k)%nat with (64 * n + (length l - 64 * n + length k))%nat by lia.
    rewrite div_64_app by (exists n; lia). f_equal. rewrite Nat.mul_comm, Nat.div_mul; lia. }
  rewrite compress_blocks_add by (rewrite length_app; lia).
  rewrite compress_blocks_app by lia. rewrite drop_app_le by lia. done.
Qed.

Lemma residue_app l k : residue (l ++ k) = residue (residue l ++ k).
Proof.
  pose proof (Nat.div_mod_eq (length l) 64) as E. unfold residue at 1 2.
  rewrite !length_app, length_residue.
  set (n := (length l / 64)%nat) in *. set (r := (length l mod 64)%nat) in *.
  assert (((length l + length k) / 64)%nat = (n + (r + length k) / 64)%nat) as ->.
  { rewrite E. replace (64 * n + r + length k)%nat with (64 * n + (r + length k))%nat by lia.
    rewrite div_64_app by (exists n; lia). f_equal. rewrite Nat.mul_comm, Nat.div_mul; lia. }
  rewrite Nat.mul_add_distr_l. rewrite <- drop_drop. rewrite drop_app_le by lia.
  fold n. done.
Qed.

Lemma absorb_short h l : (length l < 64)%nat -> absorb h l = h.
Proof. intros Hl. unfold absorb. rewrite Nat.div_small by lia. done. Qed.
Lemma residue_short l : (length l < 64)%nat -> residue l = l.
Proof. intros Hl. unfold residue. rewrite Nat.div_small by lia. done. Qed.
Lemma absorb_block h l k :
  length l = 64%nat -> absorb h (l ++ k) = absorb (compress h l) k.
Proof.
  intros Hl. rewrite absorb_app. unfold absorb at 2, residue. rewrite Hl. simpl.
  rewrite take_ge, drop_ge by lia. done.
Qed.
Lemma absorb_one h l : length l = 64%nat -> absorb h l = compress h l.
Proof.
  intros Hl. rewrite <- (app_nil_r l) at 1. rewrite absorb_block by done. apply absorb_short. simpl. lia.
Qed.
Lemma residue_block l k : length l = 64%nat -> residue (l ++ k) = residue k.
Proof. intros Hl. rewrite residue_app. unfold residue at 2. rewrite Hl. rewrite drop_ge by (simpl; lia). done. Qed.
End block_hash.
