(* ===== verification/Sha256.v ===== *)
(** * SHA-256 and HMAC-SHA-256 (eigrp_sha256.c)

    The digest as the code computes it: a context with the chaining value, the bit
    count in two words and the block buffer, the compression function on a rotating
    working array, and the three operations.  Sha256Props.v relates it to the
    standard. *)

From Stdlib Require Import ZArith Lia.
From stdpp Require Import base list.
From S2P Require Import Prelude Stream BlockHash.

(** [eigrp_sha256_ctx_t] and [eigrp_hmac_sha256_ctx_t]. *)
Record eigrp_sha256_ctx := {
  sha_state : list Z;
  sha_count0 : Z;
  sha_count1 : Z;
  sha_buf : list Z;
}.
Record eigrp_hmac_sha256_ctx := { ictx : eigrp_sha256_ctx; octx : eigrp_sha256_ctx }.

(** ** Words *)

Definition be32dec (p : list Z) : Z :=
  u32 (nth 3 p 0 + (nth 2 p 0 .<< 8) + (nth 1 p 0 .<< 16) + (nth 0 p 0 .<< 24)).
Definition be32enc (x : Z) : list Z :=
  [(x .>> 24) .& 0xff; (x .>> 16) .& 0xff; (x .>> 8) .& 0xff; x .& 0xff].
Definition be32enc_vect (src : list Z) : list Z := src ≫= be32enc.
Definition be32dec_vect (src : list Z) (len : nat) : list Z :=
  (fun i => be32dec (drop (i * 4) src)) <$> seq 0 (len / 4).

(** Arguments are [uint32_t]; the left shift of [ROTR] drops the high bits. *)
Definition Ch (x y z : Z) : Z := Z.lxor (x .& Z.lxor y z) z.
Definition Maj (x y z : Z) : Z := (x .& (y .| z)) .| (y .& z).
Definition SHR (x n : Z) : Z := x .>> n.
Definition ROTR (x n : Z) : Z := (x .>> n) .| u32 (x .<< (32 - n)).
Definition S0 (x : Z) : Z := Z.lxor (Z.lxor (ROTR x 2) (ROTR x 13)) (ROTR x 22).
Definition S1 (x : Z) : Z := Z.lxor (Z.lxor (ROTR x 6) (ROTR x 11)) (ROTR x 25).
Definition s0 (x : Z) : Z := Z.lxor (Z.lxor (ROTR x 7) (ROTR x 18)) (SHR x 3).
Definition s1 (x : Z) : Z := Z.lxor (Z.lxor (ROTR x 17) (ROTR x 19)) (SHR x 10).

(** ** Block compression *)

(** [RND] on the working array, the variables at their indices. *)
Definition RND (S : list Z) (a b c d e f g h : nat) (k : Z) : list Z :=
  let v i := nth i S 0 in
  let t0 := u32 (v h + S1 (v e) + Ch (v e) (v f) (v g) + k) in
  let t1 := u32 (S0 (v a) + Maj (v a) (v b) (v c)) in
  let S := <[d := u32 (v d + t0)]> S in
  <[h := u32 (t0 + t1)]> S.

(** The rotation of the working array: round [i] finds [a] at index (64 - i) % 8. *)
Definition rotated (i j : nat) : nat := (64 + j - i) mod 8.
Definition RNDr (S W : list Z) (i : nat) (k : Z) : list Z :=
  RND S (rotated i 0) (rotated i 1) (rotated i 2) (rotated i 3)
        (rotated i 4) (rotated i 5) (rotated i 6) (rotated i 7) (u32 (nth i W 0 + k)).

(** The constants of the 64 [RNDr] lines. *)
Definition round_lines : list (nat * Z) :=
  [(0%nat, 0x428a2f98); (1%nat, 0x71374491); (2%nat, 0xb5c0fbcf); (3%nat, 0xe9b5dba5);
   (4%nat, 0x3956c25b); (5%nat, 0x59f111f1); (6%nat, 0x923f82a4); (7%nat, 0xab1c5ed5);
   (8%nat, 0xd807aa98); (9%nat, 0x12835b01); (10%nat, 0x243185be); (11%nat, 0x550c7dc3);
   (12%nat, 0x72be5d74); (13%nat, 0x80deb1fe); (14%nat, 0x9bdc06a7); (15%nat, 0xc19bf174);
   (16%nat, 0xe49b69c1); (17%nat, 0xefbe4786); (18%nat, 0x0fc19dc6); (19%nat, 0x240ca1cc);
   (20%nat, 0x2de92c6f); (21%nat, 0x4a7484aa); (22%nat, 0x5cb0a9dc); (23%nat, 0x76f988da);
   (24%nat, 0x983e5152); (25%nat, 0xa831c66d); (26%nat, 0xb00327c8); (27%nat, 0xbf597fc7);
   (28%nat, 0xc6e00bf3); (29%nat, 0xd5a79147); (30%nat, 0x06ca6351); (31%nat, 0x14292967);
   (32%nat, 0x27b70a85); (33%nat, 0x2e1b2138); (34%nat, 0x4d2c6dfc); (35%nat, 0x53380d13);
   (36%nat, 0x650a7354); (37%nat, 0x766a0abb); (38%nat, 0x81c2c92e); (39%nat, 0x92722c85);
   (40%nat, 0xa2bfe8a1); (41%nat, 0xa81a664b); (42%nat, 0xc24b8b70); (43%nat, 0xc76c51a3);
   (44%nat, 0xd192e819); (45%nat, 0xd6990624); (46%nat, 0xf40e3585); (47%nat, 0x106aa070);
   (48%nat, 0x19a4c116); (49%nat, 0x1e376c08); (50%nat, 0x2748774c); (51%nat, 0x34b0bcb5);
   (52%nat, 0x391c0cb3); (53%nat, 0x4ed8aa4a); (54%nat, 0x5b9cca4f); (55%nat, 0x682e6ff3);
   (56%nat, 0x748f82ee); (57%nat, 0x78a5636f); (58%nat, 0x84c87814); (59%nat, 0x8cc70208);
   (60%nat, 0x90befffa); (61%nat, 0xa4506ceb); (62%nat, 0xbef9a3f7); (63%nat, 0xc67178f2)].

Definition round_constants : list Z := round_lines.*2.

(** [W[i]] for [i] from [16] to [63]; [W] holds the words below [i]. *)
Definition schedule_word (W : list Z) (i : nat) : Z :=
  u32 (s1 (nth (i - 2) W 0) + nth (i - 7) W 0 + s0 (nth (i - 15) W 0) + nth (i - 16) W 0).
Definition schedule (block : list Z) : list Z :=
  foldl (fun W i => W ++ [schedule_word W i]) (be32dec_vect block 64) (seq 16 48).

Definition SHA256_Transform (state block : list Z) : list Z :=
  let W := schedule block in
  let S := foldl (fun S '(i, k) => RNDr S W i k) state round_lines in
  zip_with (fun x y => u32 (x + y)) state S.

(** ** Operations *)

Definition PAD : list Z := 0x80 :: replicate 63 0.

(** The magic constants; the buffer keeps what it held. *)
Definition sha256_iv : list Z :=
  [0x6A09E667; 0xBB67AE85; 0x3C6EF372; 0xA54FF53A; 0x510E527F; 0x9B05688C; 0x1F83D9AB; 0x5BE0CD19].
Definition eigrp_sha256_init (ctx : eigrp_sha256_ctx) : eigrp_sha256_ctx :=
  {| ctx with sha_count0 := 0; sha_count1 := 0; sha_state := sha256_iv |}.

(** [while (len >= 64)]: the state and the bytes left; one unit of fuel per byte is
    more than the loop uses. *)
Fixpoint complete_blocks (fuel : nat) (state src : list Z) : list Z * list Z :=
  match fuel with
  | O => (state, src)
  | S fuel' =>
      if (64 <=? length src)%nat
      then complete_blocks fuel' (SHA256_Transform state (take 64 src)) (drop 64 src)
      else (state, src)
  end.

(** Number of bytes left in the buffer from previous updates. *)
Definition buffered (ctx : eigrp_sha256_ctx) : nat := Z.to_nat ((sha_count1 ctx .>> 3) .& 0x3f).

(** The bit count: [bitlen] added with its carry. *)
Definition count_add (ctx : eigrp_sha256_ctx) (len : nat) : eigrp_sha256_ctx :=
  let bitlen1 := u32 (u32 (Z.of_nat len) .<< 3) in
  let bitlen0 := u32 (Z.of_nat len .>> 29) in
  let count1 := u32 (sha_count1 ctx + bitlen1) in
  let count0 := if count1 <? bitlen1 then u32 (sha_count0 ctx + 1) else sha_count0 ctx in
  {| ctx with sha_count1 := count1; sha_count0 := u32 (count0 + bitlen0) |}.

Definition eigrp_sha256_update (ctx : eigrp_sha256_ctx) (src : list Z) : eigrp_sha256_ctx :=
  let r := buffered ctx in
  let len := length src in
  let ctx := count_add ctx len in
  if (len <? 64 - r)%nat
  then {| ctx with sha_buf := splice (sha_buf ctx) r src |}
  else
    let buf := splice (sha_buf ctx) r (take (64 - r) src) in
    let state := SHA256_Transform (sha_state ctx) buf in
    let '(state, src) := complete_blocks len state (drop (64 - r) src) in
    {| ctx with sha_state := state; sha_buf := splice buf 0 src |}.

Definition SHA256_Pad (ctx : eigrp_sha256_ctx) : eigrp_sha256_ctx :=
  let len := be32enc_vect [sha_count0 ctx; sha_count1 ctx] in
  let r := buffered ctx in
  let plen := if (r <? 56)%nat then (56 - r)%nat else (120 - r)%nat in
  let ctx := eigrp_sha256_update ctx (take plen PAD) in
  eigrp_sha256_update ctx len.

(** The digest and the wiped context. *)
Definition sha256_wiped : eigrp_sha256_ctx :=
  {| sha_state := replicate 8 0; sha_count0 := 0; sha_count1 := 0; sha_buf := replicate 64 0 |}.
Definition eigrp_sha256_final (ctx : eigrp_sha256_ctx) : list Z * eigrp_sha256_ctx :=
  let ctx := SHA256_Pad ctx in
  (be32enc_vect (sha_state ctx), sha256_wiped).

(** ** HMAC *)

(** [memset (pad, byte, 64); for (...) pad[i] ^= K[i]]. *)
Definition hmac_pad (b : Z) (K : list Z) : list Z :=
  zip_with Z.lxor (replicate (length K) b) K ++ replicate (64 - length K) b.

Definition eigrp_hmac_sha256_init (ctx : eigrp_hmac_sha256_ctx) (K : list Z) : eigrp_hmac_sha256_ctx :=
  let '(K, i0) :=
    if (64 <? length K)%nat
    then eigrp_sha256_final (eigrp_sha256_update (eigrp_sha256_init (ictx ctx)) K)
    else (K, ictx ctx) in
  {| ictx := eigrp_sha256_update (eigrp_sha256_init i0) (hmac_pad 0x36 K);
     octx := eigrp_sha256_update (eigrp_sha256_init (octx ctx)) (hmac_pad 0x5c K) |}.

Definition eigrp_hmac_sha256_update (ctx : eigrp_hmac_sha256_ctx) (src : list Z) : eigrp_hmac_sha256_ctx :=
  let i := ictx ctx in {| ctx with ictx := eigrp_sha256_update i src |}.

Definition eigrp_hmac_sha256_final (ctx : eigrp_hmac_sha256_ctx) : list Z * eigrp_hmac_sha256_ctx :=
  let '(ihash, i) := eigrp_sha256_final (ictx ctx) in
  let '(digest, o) := eigrp_sha256_final (eigrp_sha256_update (octx ctx) ihash) in
  (digest, {| ictx := i; octx := o |}).

(** ** PBKDF2 *)

(** [for (j = 2; j <= c; j++)]: [n] rounds on [U] and [T]. *)
Fixpoint pbkdf2_rounds (n : nat) (passwd U T : list Z) (hctx : eigrp_hmac_sha256_ctx)
  : list Z * eigrp_hmac_sha256_ctx :=
  match n with
  | O => (T, hctx)
  | S n' =>
      let hctx := eigrp_hmac_sha256_update (eigrp_hmac_sha256_init hctx passwd) U in
      let '(U, hctx) := eigrp_hmac_sha256_final hctx in
      pbkdf2_rounds n' passwd U (zip_with Z.lxor T U) hctx
  end.

(** The blocks [i], [i + 1], ... until [dkLen] bytes are written. *)
Fixpoint pbkdf2_blocks (fuel i : nat) (PShctx : eigrp_hmac_sha256_ctx) (passwd : list Z)
    (c : Z) (dkLen : nat) : list Z :=
  match fuel with
  | O => []
  | S fuel' =>
      if (i * 32 <? dkLen)%nat then
        let ivec := be32enc (u32 (Z.of_nat (i + 1))) in
        let '(U, hctx) := eigrp_hmac_sha256_final (eigrp_hmac_sha256_update PShctx ivec) in
        let '(T, _) := pbkdf2_rounds (Z.to_nat (c - 1)) passwd U U hctx in
        let clen := (if (32 <? dkLen - i * 32)%nat then 32 else (dkLen - i * 32))%nat in
        take clen T ++ pbkdf2_blocks fuel' (i + 1) PShctx passwd c dkLen
      else []
  end.

(** [PShctx] starts zeroed. *)
Definition eigrp_pbkdf2_sha256 (passwd salt : list Z) (c : Z) (dkLen : nat) : list Z :=
  let PShctx := {| ictx := sha256_wiped; octx := sha256_wiped |} in
  let PShctx := eigrp_hmac_sha256_update (eigrp_hmac_sha256_init PShctx passwd) salt in
  pbkdf2_blocks (S dkLen) 0 PShctx passwd c dkLen.
