(* ===== verification/Sha256Props.v ===== *)
(** * SHA-256 and HMAC-SHA-256: correctness

    [Fips] is the hash as FIPS 180-4 defines it, on a whole message: the padding,
    the blocks, the functions and constants, and a round on eight working variables that
    shift; it shares no definition of the code.  The theorems
    say that the context operations compute it whatever way the message is cut
    into updates, and that HMAC is RFC 2104's. *)

From Stdlib Require Import ZArith Lia.
From stdpp Require Import base list.
From S2P Require Import Prelude Stream BlockHash Sha256.

(** ** The standard *)

Module Fips.
(** Section 3.2: rotation and shift of a 32-bit word. *)
Definition rotate (n x : Z) : Z := Z.lor (Z.shiftr x n) (Z.shiftl x (32 - n) mod 2 ^ 32).
Definition shift (n x : Z) : Z := Z.shiftr x n.

(** Section 4.1.2: the six functions. *)
Definition upper_sigma0 (x : Z) : Z := Z.lxor (Z.lxor (rotate 2 x) (rotate 13 x)) (rotate 22 x).
Definition upper_sigma1 (x : Z) : Z := Z.lxor (Z.lxor (rotate 6 x) (rotate 11 x)) (rotate 25 x).
Definition lower_sigma0 (x : Z) : Z := Z.lxor (Z.lxor (rotate 7 x) (rotate 18 x)) (shift 3 x).
Definition lower_sigma1 (x : Z) : Z := Z.lxor (Z.lxor (rotate 17 x) (rotate 19 x)) (shift 10 x).
Definition choose (x y z : Z) : Z := Z.lxor (x .& y) (Z.lnot x .& z).
Definition majority (x y z : Z) : Z := Z.lxor (Z.lxor (x .& y) (x .& z)) (y .& z).

(** One round on (a, ..., h) with its constant and its schedule word. *)
Definition round (v : list Z) (k w : Z) : list Z :=
  match v with
  | [a; b; c; d; e; f; g; h] =>
      let T1 := u32 (h + upper_sigma1 e + choose e f g + k + w) in
      let T2 := u32 (upper_sigma0 a + majority a b c) in
      [u32 (T1 + T2); a; b; c; u32 (d + T1); e; f; g]
  | _ => v
  end.

(** The constants: the first 32 bits of the fractional parts of the cube roots of the
    first 64 primes, and of the square roots of the first 8. *)
Definition prime (n : Z) : bool :=
  forallb (fun d => negb (n mod Z.of_nat d =? 0)) (seq 2 (Z.to_nat n - 2)).
Definition primes : list Z := List.filter prime (Z.of_nat <$> seq 2 310).
Definition cube_root (n : Z) : Z :=
  foldl (fun r b => let r' := r + 2 ^ (40 - Z.of_nat b) in if r' ^ 3 <=? n then r' else r) 0 (seq 0 41).
Definition K : list Z := (fun p => u32 (cube_root (p * 2 ^ 96))) <$> primes.
Definition initial_hash : list Z := (fun p => u32 (Z.sqrt (p * 2 ^ 64))) <$> take 8 primes.

Definition block_words (block : list Z) : list Z := (fun i => from_be (take 4 (drop (i * 4) block))) <$> seq 0 16.
Definition message_schedule (block : list Z) : list Z :=
  foldl (fun W t => W ++ [u32 (lower_sigma1 (nth (t - 2) W 0) + nth (t - 7) W 0
                               + lower_sigma0 (nth (t - 15) W 0) + nth (t - 16) W 0)])
        (block_words block) (seq 16 48).

Definition compress (H block : list Z) : list Z :=
  let W := message_schedule block in
  let v := foldl (fun v t => round v (nth t K 0) (nth t W 0)) H (seq 0 64) in
  zip_with (fun x y => u32 (x + y)) H v.

(** A one bit, zeros up to 448 modulo 512, and the length in bits. *)
Definition padding (len : nat) : list Z :=
  0x80 :: replicate (Z.to_nat ((55 - Z.of_nat len) mod 64)) 0 ++ to_be 8 (8 * Z.of_nat len).

Definition sha256 (m : list Z) : list Z :=
  absorb compress initial_hash (m ++ padding (length m)) ≫= to_be 4.

(** RFC 2104: the key is hashed when longer than a block and padded with zeros. *)
Definition hmac_key (key : list Z) : list Z :=
  let key := if (64 <? length key)%nat then sha256 key else key in key ++ replicate (64 - length key) 0.
Definition hmac (key m : list Z) : list Z :=
  sha256 ((Z.lxor 0x5c <$> hmac_key key) ++ sha256 ((Z.lxor 0x36 <$> hmac_key key) ++ m)).
End Fips.

(** ** The compression function *)

Section compression.
Lemma round_constants_fips : round_constants = Fips.K.
Proof. by vm_compute. Qed.
Lemma sha256_iv_fips : sha256_iv = Fips.initial_hash.
Proof. by vm_compute. Qed.
Lemma round_lines_zip : round_lines = zip (seq 0 64) round_constants.
Proof. by vm_compute. Qed.

#[global] Opaque Fips.K Fips.initial_hash.

Lemma S0_fips x : S0 x = Fips.upper_sigma0 x.
Proof. reflexivity. Qed.
Lemma S1_fips x : S1 x = Fips.upper_sigma1 x.
Proof. reflexivity. Qed.
Lemma s0_fips x : s0 x = Fips.lower_sigma0 x.
Proof. reflexivity. Qed.
Lemma s1_fips x : s1 x = Fips.lower_sigma1 x.
Proof. reflexivity. Qed.

Lemma Ch_fips x y z : Ch x y z = Fips.choose x y z.
Proof.
  unfold Ch, Fips.choose. apply Z.bits_inj'. intros n Hn.
  rewrite !Z.lxor_spec, !Z.land_spec, !Z.lxor_spec, Z.lnot_spec by lia.
  by destruct (Z.testbit x n), (Z.testbit y n), (Z.testbit z n).
Qed.

Lemma Maj_fips x y z : Maj x y z = Fips.majority x y z.
Proof.
  unfold Maj, Fips.majority. apply Z.bits_inj'. intros n Hn.
  rewrite !Z.lxor_spec, !Z.lor_spec, !Z.land_spec, !Z.lor_spec.
  by destruct (Z.testbit x n), (Z.testbit y n), (Z.testbit z n).
Qed.

(** The working variables as round [i] finds them in the rotating array. *)
Definition view (i : nat) (S : list Z) : list Z := (fun j => nth (rotated i j) S 0) <$> seq 0 8.

Lemma length_RNDr S W i k : length (RNDr S W i k) = length S.
Proof. unfold RNDr, RND. by rewrite !length_insert. Qed.

Lemma view_insert i S x y :
  (i < 64)%nat -> length S = 8%nat ->
  view (i + 1) (<[rotated i 7 := x]> (<[rotated i 3 := y]> S))
  = match view i S with [a; b; c; d; e; f; g; h] => [x; a; b; c; y; e; f; g] | v => v end.
Proof.
  intros Hi HS. do 8 (destruct S as [|? S]; [done|]). destruct S; [|done].
  do 64 (destruct i as [|i]; [reflexivity|]). lia.
Qed.

Lemma view_round i S W k :
  (i < 64)%nat -> length S = 8%nat ->
  view (i + 1) (RNDr S W i k) = Fips.round (view i S) k (nth i W 0).
Proof.
  intros Hi HS. unfold RNDr, RND. rewrite view_insert by done.
  unfold view. cbn [seq fmap list_fmap]. unfold Fips.round.
  assert (forall a b c d e, u32 (a + b + c + u32 (d + e)) = u32 (a + b + c + e + d)) as Hu.
  { intros. unfold u32. rewrite Zplus_mod_idemp_r. f_equal. lia. }
  rewrite Ch_fips, Maj_fips, S0_fips, S1_fips, Hu. done.
Qed.

Lemma view_all S : length S = 8%nat -> view 0 S = S /\ view 64 S = S.
Proof. intros HS. do 8 (destruct S as [|? S]; [done|]). destruct S; done. Qed.

Lemma rounds_fips W n V i :
  (i + n <= 64)%nat -> length V = 8%nat ->
  let V' := foldl (fun V '(i, k) => RNDr V W i k) V (zip (seq i n) (drop i round_constants)) in
  length V' = 8%nat
  /\ view (i + n) V' = foldl (fun v t => Fips.round v (nth t round_constants 0) (nth t W 0)) (view i V) (seq i n).
Proof.
  revert V i. induction n as [|n IH]; intros V i Hi HS; cbn [seq].
  - by rewrite Nat.add_0_r.
  - assert (exists k, drop i round_constants = k :: drop (S i) round_constants
                      /\ nth i round_constants 0 = k) as (k & E & Hk).
    { assert (i < length round_constants)%nat as Hl by (vm_compute length; lia).
      destruct (lookup_lt_is_Some_2 _ _ Hl) as [k Hk]. exists k. split.
      - by apply drop_S. - by apply nth_lookup_Some. }
    rewrite E. cbn [zip zip_with foldl]. rewrite Hk. replace (i + S n)%nat with (i + 1 + n)%nat by lia.
    replace (S i) with (i + 1)%nat by lia.
    rewrite <- view_round by (done || lia). apply IH; [lia|]. by rewrite length_RNDr.
Qed.
End compression.

(** ** Words *)

Section words.
Lemma be32dec_from_be p :
  Forall byte p -> (4 <= length p)%nat -> be32dec p = from_be (take 4 p).
Proof.
  intros Hb Hl. do 4 (destruct p as [|? p]; [simpl in Hl; lia|]).
  rewrite !Forall_cons in Hb. unfold byte in Hb. destruct Hb as (? & ? & ? & ? & _).
  unfold be32dec, from_be. simpl nth. simpl take. simpl foldl.
  rewrite !Z.shiftl_mul_pow2 by lia. change (2 ^ 8) with 256. change (2 ^ 16) with 65536.
  change (2 ^ 24) with 16777216. rewrite u32_small by lia. lia.
Qed.

Lemma land_ff x : x .& 0xff = x mod 256.
Proof. exact (Z.land_ones x 8 ltac:(lia)). Qed.

Lemma be32enc_to_be x : be32enc x = to_be 4 x.
Proof.
  unfold be32enc. simpl. rewrite !land_ff, !Z.shiftr_div_pow2 by lia.
  rewrite !Z.div_div by lia. done.
Qed.

Lemma schedule_fips block :
  Forall byte block -> length block = 64%nat -> schedule block = Fips.message_schedule block.
Proof.
  intros Hb Hl. unfold schedule, Fips.message_schedule. f_equal.
  unfold be32dec_vect, Fips.block_words. unfold schedule_word. change (64 / 4)%nat with 16%nat.
  apply list_fmap_ext. intros i n Hn. apply lookup_seq in Hn as [-> Hn]. simpl.
  apply be32dec_from_be; [by apply Forall_drop|]. rewrite length_drop. lia.
Qed.

Lemma transform_fips state block :
  Forall byte block -> length block = 64%nat -> length state = 8%nat ->
  SHA256_Transform state block = Fips.compress state block.
Proof.
  intros Hb Hl Hs. unfold SHA256_Transform, Fips.compress. rewrite round_lines_zip, <- round_constants_fips.
  pose proof (rounds_fips (schedule block) 64 state 0 ltac:(lia) Hs) as [H8 H].
  rewrite drop_0 in H, H8. rewrite (proj1 (view_all _ Hs)) in H.
  change (0 + 64)%nat with 64%nat in H. rewrite (proj2 (view_all _ H8)) in H.
  rewrite H. by rewrite schedule_fips.
Qed.

Lemma length_compress state block :
  length state = 8%nat -> length block = 64%nat -> Forall byte block ->
  length (Fips.compress state block) = 8%nat.
Proof.
  intros Hs Hl Hb. rewrite <- transform_fips by done. unfold SHA256_Transform. rewrite round_lines_zip.
  pose proof (rounds_fips (schedule block) 64 state 0 ltac:(lia) Hs) as [H8 _].
  rewrite drop_0 in H8. rewrite length_zip_with. lia.
Qed.
End words.

(** ** A context holds what was fed to it *)

Record fed (ctx : eigrp_sha256_ctx) (m : list Z) : Prop := {
  fed_state : sha_state ctx = absorb SHA256_Transform sha256_iv m;
  fed_buf : take (length m mod 64) (sha_buf ctx) = residue m;
  fed_size : length (sha_buf ctx) = 64%nat;
  fed_count1 : 0 <= sha_count1 ctx < 2 ^ 32;
  fed_count : sha_count0 ctx * 2 ^ 32 + sha_count1 ctx = (8 * Z.of_nat (length m)) mod 2 ^ 64;
}.

Section streaming.
Lemma fed_init ctx : length (sha_buf ctx) = 64%nat -> fed (eigrp_sha256_init ctx) [].
Proof. intros H. by split. Qed.

Lemma buffered_fed ctx m : fed ctx m -> buffered ctx = (length m mod 64)%nat.
Proof.
  intros F. unfold buffered. pose proof (fed_count _ _ F) as Hc. pose proof (fed_count1 _ _ F) as H1.
  rewrite Z.shiftr_div_pow2 by lia. change 0x3f with (Z.ones 6). rewrite Z.land_ones by lia.
  apply Nat2Z.inj. rewrite Z2Nat.id by (apply Z.mod_pos_bound; lia). rewrite Nat2Z.inj_mod.
  set (c0 := sha_count0 ctx) in *. set (c1 := sha_count1 ctx) in *.
  set (n := Z.of_nat (length m)) in *. change (2 ^ 3) with 8. change (2 ^ 6) with 64.
  change (2 ^ 32) with 4294967296 in *. change (2 ^ 64) with 18446744073709551616 in *.
  change (Z.of_nat 64) with 64. Z.div_mod_to_equations. lia.
Qed.

Lemma count_add_fed ctx len c :
  0 <= sha_count1 ctx < 2 ^ 32 ->
  sha_count0 ctx * 2 ^ 32 + sha_count1 ctx = c mod 2 ^ 64 ->
  let ctx' := count_add ctx len in
  0 <= sha_count1 ctx' < 2 ^ 32
  /\ sha_count0 ctx' * 2 ^ 32 + sha_count1 ctx' = (c + 8 * Z.of_nat len) mod 2 ^ 64.
Proof.
  intros H1 Hc. unfold count_add. cbn [sha_count0 sha_count1]. split; [apply u32_range|].
  set (c0 := sha_count0 ctx) in *. set (c1 := sha_count1 ctx) in *. set (n := Z.of_nat len) in *.
  assert (0 <= n) by lia. assert (u32 (u32 n .<< 3) = 8 * n mod 2 ^ 32) as ->.
  { unfold u32. rewrite Z.shiftl_mul_pow2, Zmult_mod_idemp_l by lia. f_equal. lia. }
  rewrite Z.shiftr_div_pow2 by lia. unfold u32.
  change (2 ^ 32) with 4294967296 in *. change (2 ^ 64) with 18446744073709551616 in *.
  change (2 ^ 29) with 536870912.
  case Z.ltb_spec; intros; Z.div_mod_to_equations; lia.
Qed.

Lemma complete_blocks_absorb fuel h l :
  (length l <= fuel)%nat ->
  complete_blocks fuel h l = (absorb SHA256_Transform h l, residue l).
Proof.
  revert h l. induction fuel as [|fuel IH]; intros h l Hl; cbn [complete_blocks].
  - destruct l; [done|simpl in Hl; lia].
  - destruct (Nat.leb_spec 64 (length l)) as [H|H].
    + rewrite IH by (rewrite length_drop; lia).
      assert (length (take 64 l) = 64%nat) as H64 by (rewrite length_take; lia).
      pose proof (absorb_block SHA256_Transform h _ (drop 64 l) H64) as E1.
      pose proof (residue_block _ (drop 64 l) H64) as E2.
      rewrite take_drop in E1, E2. rewrite E1, E2. done.
    + by rewrite absorb_short, residue_short.
Qed.

Lemma fed_update ctx m src : fed ctx m -> fed (eigrp_sha256_update ctx src) (m ++ src).
Proof.
  intros F. unfold eigrp_sha256_update. rewrite (buffered_fed _ _ F).
  pose proof (fed_size _ _ F) as Hs. pose proof (fed_buf _ _ F) as Hb.
  destruct (count_add_fed ctx (length src) _ (fed_count1 _ _ F) (fed_count _ _ F)) as [H1 Hc].
  replace (8 * Z.of_nat (length m) + 8 * Z.of_nat (length src))
    with (8 * Z.of_nat (length (m ++ src))) in Hc by (rewrite length_app; lia).
  pose proof (length_residue m) as Hr. pose proof (Nat.mod_upper_bound (length m) 64 ltac:(lia)) as Hlt.
  set (r := (length m mod 64)%nat) in *. pose proof (fed_state _ _ F) as Hst.
  destruct (Nat.ltb_spec (length src) (64 - r)) as [Hl|Hl].
  - assert ((length (m ++ src)) mod 64 = r + length src)%nat as Hm.
    { rewrite length_app. rewrite <- Nat.Div0.add_mod_idemp_l. fold r. apply Nat.mod_small. lia. }
    split; cbn [sha_state sha_buf sha_count0 sha_count1]; try done.
    + rewrite absorb_app, absorb_short by (rewrite length_app; lia). exact Hst.
    + rewrite Hm. change (sha_buf (count_add ctx (length src))) with (sha_buf ctx).
      rewrite take_splice by lia. rewrite residue_app, residue_short by (rewrite length_app; lia).
      by rewrite Hb.
    + rewrite length_splice; [done|]. change (sha_buf (count_add ctx (length src))) with (sha_buf ctx). lia.
  - change (sha_buf (count_add ctx (length src))) with (sha_buf ctx).
    change (sha_state (count_add ctx (length src))) with (sha_state ctx).
    rewrite complete_blocks_absorb by (rewrite length_drop; lia).
    rewrite splice_full by (rewrite length_take; lia). rewrite Hb.
    assert (length (residue m ++ take (64 - r) src) = 64%nat) as H64
      by (rewrite length_app, length_take; lia).
    assert (residue m ++ src = (residue m ++ take (64 - r) src) ++ drop (64 - r) src) as Hsplit
      by (by rewrite <- app_assoc, take_drop).
    pose proof (length_residue (drop (64 - r) src)) as Hr'.
    pose proof (Nat.mod_upper_bound (length (drop (64 - r) src)) 64 ltac:(lia)).
    assert (residue (m ++ src) = residue (drop (64 - r) src)) as Hres
      by (by rewrite residue_app, Hsplit, residue_block).
    split; cbn [sha_state sha_buf sha_count0 sha_count1]; try done.
    + rewrite absorb_app, Hsplit, absorb_block by done. by rewrite Hst.
    + rewrite <- length_residue, Hres. apply (take_splice _ 0). lia.
    + rewrite length_splice; [done|lia].
Qed.

Lemma fed_updates ctx m chunks :
  fed ctx m -> fed (foldl eigrp_sha256_update ctx chunks) (m ++ concat chunks).
Proof.
  revert ctx m. induction chunks as [|c chunks IH]; intros ctx m F; simpl; [by rewrite app_nil_r|].
  rewrite app_assoc. by apply IH, fed_update.
Qed.
End streaming.

(** ** The digest *)

Section digest.
Lemma to_be_8 hi lo : 0 <= lo < 2 ^ 32 -> to_be 8 (hi * 2 ^ 32 + lo) = to_be 4 hi ++ to_be 4 lo.
Proof.
  intros H. change (2 ^ 32) with (256 * 256 * 256 * 256) in *. simpl.
  rewrite !Z.div_div by lia. simpl (256 * _).
  repeat (apply (f_equal2 cons); [change (256 * 256 * 256 * 256) with 4294967296 in *; Z.div_mod_to_equations; lia|]).
  done.
Qed.

(** The bytes [SHA256_Pad] adds are the padding of the standard. *)
Lemma pad_padding ctx m :
  fed ctx m ->
  take (if (buffered ctx <? 56)%nat then 56 - buffered ctx else 120 - buffered ctx)%nat PAD
    ++ be32enc_vect [sha_count0 ctx; sha_count1 ctx] = Fips.padding (length m).
Proof.
  intros F. rewrite (buffered_fed _ _ F). unfold Fips.padding, be32enc_vect, PAD.
  cbn [mbind list_bind]. rewrite app_nil_r, !be32enc_to_be, <- to_be_8 by apply F.
  rewrite (fed_count _ _ F). change (2 ^ 64) with (256 ^ Z.of_nat 8). rewrite to_be_mod.
  pose proof (Nat.mod_upper_bound (length m) 64 ltac:(lia)) as Hr.
  set (r := (length m mod 64)%nat) in *.
  assert (Z.to_nat ((55 - Z.of_nat (length m)) mod 64) = (if (r <? 56)%nat then 55 - r else 119 - r)%nat) as ->.
  { assert (Z.of_nat r = Z.of_nat (length m) mod 64) as E by (unfold r; by rewrite Nat2Z.inj_mod).
    apply Nat2Z.inj. rewrite Z2Nat.id by (apply Z.mod_pos_bound; lia).
    case Nat.ltb_spec; intros; Z.div_mod_to_equations; lia. }
  destruct (Nat.ltb_spec r 56).
  - replace (56 - r)%nat with (S (55 - r)) by lia. cbn [take]. rewrite take_replicate, Nat.min_l by lia. done.
  - replace (120 - r)%nat with (S (119 - r)) by lia. cbn [take]. rewrite take_replicate, Nat.min_l by lia. done.
Qed.

Lemma blocks_fips n h l :
  Forall byte l -> length h = 8%nat -> (64 * n <= length l)%nat ->
  compress_blocks SHA256_Transform n h l = compress_blocks Fips.compress n h l
  /\ length (compress_blocks Fips.compress n h l) = 8%nat.
Proof.
  revert h l. induction n as [|n IH]; intros h l Hb Hh Hl; cbn [compress_blocks]; [done|].
  assert (length (take 64 l) = 64%nat) by (rewrite length_take; lia).
  rewrite transform_fips by (done || by apply Forall_take).
  apply IH; [by apply Forall_drop| |rewrite length_drop; lia].
  apply length_compress; [done|done|by apply Forall_take].
Qed.

Lemma absorb_fips h l :
  Forall byte l -> length h = 8%nat ->
  absorb SHA256_Transform h l = absorb Fips.compress h l /\ length (absorb Fips.compress h l) = 8%nat.
Proof.
  intros Hb Hh. apply blocks_fips; [done|done|]. pose proof (Nat.div_mod_eq (length l) 64). lia.
Qed.

Lemma padding_bytes n : Forall byte (Fips.padding n).
Proof.
  unfold Fips.padding. constructor; [unfold byte; lia|]. apply Forall_app. split.
  - apply Forall_replicate. unfold byte. lia.
  - apply to_be_bytes.
Qed.

Lemma final_fed ctx m :
  fed ctx m -> Forall byte m -> (eigrp_sha256_final ctx).1 = Fips.sha256 m.
Proof.
  intros F Hb. unfold eigrp_sha256_final, SHA256_Pad, Fips.sha256. rewrite <- sha256_iv_fips. cbn [fst].
  pose proof (fed_update _ _ (be32enc_vect [sha_count0 ctx; sha_count1 ctx])
    (fed_update _ _ (take (if (buffered ctx <? 56)%nat then 56 - buffered ctx else 120 - buffered ctx)%nat PAD) F)) as F2.
  rewrite <- app_assoc, (pad_padding _ _ F) in F2. rewrite (fed_state _ _ F2).
  rewrite (proj1 (absorb_fips sha256_iv (m ++ Fips.padding (length m))
    ltac:(apply Forall_app; split; [exact Hb|apply padding_bytes]) eq_refl)).
  unfold be32enc_vect. apply list_bind_ext; [|done]. intros x. apply be32enc_to_be.
Qed.

Lemma length_sha256 m : Forall byte m -> length (Fips.sha256 m) = 32%nat.
Proof.
  intros Hb. unfold Fips.sha256. rewrite <- sha256_iv_fips.
  destruct (absorb_fips sha256_iv (m ++ Fips.padding (length m))
    ltac:(apply Forall_app; split; [exact Hb|apply padding_bytes]) eq_refl) as [_ H8].
  revert H8. generalize (absorb Fips.compress sha256_iv (m ++ Fips.padding (length m))). intros l H8.
  do 8 (destruct l as [|? l]; [done|]). destruct l; [|done].
  cbn [mbind list_bind]. rewrite !length_app, !to_be_length. done.
Qed.

Lemma sha256_bytes m : Forall byte (Fips.sha256 m).
Proof.
  unfold Fips.sha256. generalize (absorb Fips.compress Fips.initial_hash (m ++ Fips.padding (length m))).
  intros l. induction l as [|x l IH]; cbn [mbind list_bind]; [constructor|].
  apply Forall_app. split; [apply to_be_bytes|exact IH].
Qed.
End digest.

(** ** HMAC *)

Section hmac.
Lemma length_hmac_pad b K : (length K <= 64)%nat -> length (hmac_pad b K) = 64%nat.
Proof. intros H. unfold hmac_pad. rewrite length_app, length_zip_with, !length_replicate. lia. Qed.

Lemma hmac_pad_xor b K : hmac_pad b K = Z.lxor b <$> (K ++ replicate (64 - length K) 0).
Proof.
  unfold hmac_pad. rewrite fmap_app, fmap_replicate, Z.lxor_0_r. f_equal.
  induction K as [|k K IH]; [done|]. cbn. by f_equal.
Qed.

Lemma xor_byte b l : byte b -> Forall byte l -> Forall byte (Z.lxor b <$> l).
Proof.
  intros Hb Hl. apply Forall_fmap. eapply Forall_impl; [exact Hl|]. intros x Hx. cbn.
  unfold byte in *. assert (0 <= Z.lxor b x) by (apply Z.lxor_nonneg; lia).
  destruct (Z.eq_dec (Z.lxor b x) 0) as [->|]; [lia|].
  assert (Z.log2 (Z.lxor b x) < 8); [|split; [done|]; change 256 with (2 ^ 8); apply Z.log2_lt_pow2; lia].
  assert (forall y, 0 <= y < 256 -> Z.log2 y < 8) as Hlog.
  { intros y Hy. destruct (Z.eq_dec y 0) as [->|]; [done|]. apply Z.log2_lt_pow2; lia. }
  pose proof (Z.log2_lxor b x). pose proof (Hlog b). pose proof (Hlog x). lia.
Qed.

(** The inner and the outer context after [eigrp_hmac_sha256_init]. *)
Record hmac_fed (ctx : eigrp_hmac_sha256_ctx) (K m : list Z) : Prop := {
  hmac_inner : fed (ictx ctx) ((Z.lxor 0x36 <$> Fips.hmac_key K) ++ m);
  hmac_outer : fed (octx ctx) (Z.lxor 0x5c <$> Fips.hmac_key K);
}.

Definition buffers_ok (ctx : eigrp_hmac_sha256_ctx) : Prop :=
  length (sha_buf (ictx ctx)) = 64%nat /\ length (sha_buf (octx ctx)) = 64%nat.

Lemma hmac_init_fed ctx K :
  buffers_ok ctx -> Forall byte K -> hmac_fed (eigrp_hmac_sha256_init ctx K) K [].
Proof.
  intros [Hi Ho] HK. unfold eigrp_hmac_sha256_init.
  destruct (64 <? length K)%nat eqn:Eb.
  - pose proof (final_fed _ _ (fed_update _ _ K (fed_init _ Hi)) HK) as E. simpl app in E.
    destruct (eigrp_sha256_final _) as [K' c] eqn:Ef. cbn [fst] in E. subst K'.
    assert (c = sha256_wiped) as -> by (unfold eigrp_sha256_final in Ef; by injection Ef).
    split; cbn [ictx octx]; unfold Fips.hmac_key; rewrite Eb, hmac_pad_xor, ?app_nil_r; by apply (fed_update _ []), fed_init.
  - split; cbn [ictx octx]; unfold Fips.hmac_key; rewrite Eb, hmac_pad_xor, ?app_nil_r; by apply (fed_update _ []), fed_init.
Qed.

Lemma hmac_update_fed ctx K m src :
  hmac_fed ctx K m -> hmac_fed (eigrp_hmac_sha256_update ctx src) K (m ++ src).
Proof.
  intros [Hi Ho]. split; cbn; [|done]. rewrite app_assoc. by apply fed_update.
Qed.

Lemma hmac_updates_fed ctx K m chunks :
  hmac_fed ctx K m -> hmac_fed (foldl eigrp_hmac_sha256_update ctx chunks) K (m ++ concat chunks).
Proof.
  revert ctx m. induction chunks as [|c chunks IH]; intros ctx m F; simpl; [by rewrite app_nil_r|].
  rewrite app_assoc. by apply IH, hmac_update_fed.
Qed.

Lemma hmac_key_bytes K : Forall byte K -> Forall byte (Fips.hmac_key K).
Proof.
  intros HK. unfold Fips.hmac_key. apply Forall_app. split.
  - destruct (64 <? length K)%nat; [apply sha256_bytes|done].
  - apply Forall_replicate. unfold byte. lia.
Qed.

Lemma hmac_final_fed ctx K m :
  hmac_fed ctx K m -> Forall byte K -> Forall byte m ->
  (eigrp_hmac_sha256_final ctx).1 = Fips.hmac K m.
Proof.
  intros [Hi Ho] HK Hm. unfold eigrp_hmac_sha256_final, Fips.hmac.
  pose proof (xor_byte 0x36 _ ltac:(unfold byte; lia) (hmac_key_bytes K HK)) as B1.
  pose proof (xor_byte 0x5c _ ltac:(unfold byte; lia) (hmac_key_bytes K HK)) as B2.
  pose proof (final_fed _ _ Hi ltac:(apply Forall_app; by split)) as E.
  destruct (eigrp_sha256_final (ictx ctx)) as [ih i]. cbn [fst] in E. subst ih.
  pose proof (final_fed _ _ (fed_update _ _
    (Fips.sha256 ((Z.lxor 0x36 <$> Fips.hmac_key K) ++ m)) Ho)
    ltac:(apply Forall_app; split; [exact B2|apply sha256_bytes])) as E2.
  destruct (eigrp_sha256_final (eigrp_sha256_update _ _)) as [d o]. exact E2.
Qed.

Lemma length_hmac K m : Forall byte K -> length (Fips.hmac K m) = 32%nat.
Proof.
  intros HK. apply length_sha256. apply Forall_app. split; [|apply sha256_bytes].
  apply xor_byte; [unfold byte; lia|by apply hmac_key_bytes].
Qed.
End hmac.

(** ** The two digests of a message fed in pieces *)

(** The rotating working array, the split bit count with its carry and the block
    buffer implement the padding, the blocks and the rounds of the standard. *)
Lemma sha256_streaming ctx chunks :
  length (sha_buf ctx) = 64%nat -> Forall byte (concat chunks) ->
  (eigrp_sha256_final (foldl eigrp_sha256_update (eigrp_sha256_init ctx) chunks)).1
  = Fips.sha256 (concat chunks).
Proof. intros Hs Hb. apply final_fed; [|done]. by apply (fed_updates _ []), fed_init. Qed.

Lemma hmac_sha256_rfc2104 ctx K chunks :
  length (sha_buf (ictx ctx)) = 64%nat -> length (sha_buf (octx ctx)) = 64%nat ->
  Forall byte K -> Forall byte (concat chunks) ->
  (eigrp_hmac_sha256_final (foldl eigrp_hmac_sha256_update (eigrp_hmac_sha256_init ctx K) chunks)).1
  = Fips.hmac K (concat chunks).
Proof.
  intros Hi Ho HK Hm. apply hmac_final_fed; [|done|done].
  apply (hmac_updates_fed _ _ []). by apply hmac_init_fed.
Qed.

(** "abc": the digest of FIPS 180-4. *)
Example sha256_abc :
  Fips.sha256 [97; 98; 99] =
    [186; 120; 22; 191; 143; 1; 207; 234; 65; 65; 64; 222; 93; 174; 34; 35; 176; 3; 97; 163; 150; 23;
     122; 156; 180; 16; 255; 97; 242; 0; 21; 173].
Proof. vm_compute. reflexivity. Qed.
