(* ===== verification/Md5Props.v ===== *)
(** * MD5: correctness

    [Rfc1321.md5] is the digest of a whole message as the RFC has it: the sine table,
    the functions, the sixty-four operations on four shifting variables, padding, output;
    it shares no definition of the code.  The
    context operations compute it for every division of a message of less than
    2^29 bytes (the bit length of one update is an [unsigned int]). *)

From Stdlib Require Import ZArith Lia.
From stdpp Require Import base list.
From S2P Require Import Prelude Stream BlockHash Md5.

Module Rfc1321.
(** [T[i]], the integer part of 4294967296 times abs(sin(i)): the sine by its series,
    in fixed point with 256 fractional bits (the terms grow to e^64, below 2^93). *)
Definition fraction_bits : Z := 256.
Fixpoint sine (terms : nat) (k term x2 : Z) : Z :=
  match terms with
  | O => 0
  | S terms' => term + sine terms' (k + 2) (- (term * x2 / ((k + 1) * (k + 2)))) x2
  end.
Definition T (i : nat) : Z :=
  let x := Z.of_nat i in Z.abs (sine 200 1 (x .<< fraction_bits) (x * x)) .>> (fraction_bits - 32).

(** The auxiliary functions and the rotation of 32-bit words, and words A to D. *)
Definition complement (x : Z) : Z := (2 ^ 32 - 1 - x) mod 2 ^ 32.
Definition F (x y z : Z) : Z := Z.lor (Z.land x y) (Z.land (complement x) z).
Definition G (x y z : Z) : Z := Z.lor (Z.land x z) (Z.land y (complement z)).
Definition H (x y z : Z) : Z := Z.lxor (Z.lxor x y) z.
Definition I (x y z : Z) : Z := Z.lxor y (Z.lor x (complement z)).
Definition rotate_left (x s : Z) : Z := Z.lor (Z.shiftl x s mod 2 ^ 32) (Z.shiftr x (32 - s)).
Definition initial : list Z :=
  from_le <$> [[0x01; 0x23; 0x45; 0x67]; [0x89; 0xab; 0xcd; 0xef]; [0xfe; 0xdc; 0xba; 0x98]; [0x76; 0x54; 0x32; 0x10]].

(** Operation [i] of 64: the round's function, the word it adds and its shift. *)
Definition function (i : nat) : Z -> Z -> Z -> Z := nth (i / 16) [F; G; H; I] F.
Definition word (i : nat) : nat := nth (i / 16) [i; 5 * i + 1; 3 * i + 5; 7 * i]%nat 0%nat mod 16.
Definition rotation (i : nat) : Z :=
  nth (i mod 4) (nth (i / 16) [[7; 12; 17; 22]; [5; 9; 14; 20]; [4; 11; 16; 23]; [6; 10; 15; 21]] []) 0.
Definition operation (X v : list Z) (i : nat) : list Z :=
  match v with
  | [a; b; c; d] =>
      [d; u32 (b + rotate_left (u32 (a + function i b c d + nth (word i) X 0 + T (S i))) (rotation i)); b; c]
  | _ => v
  end.
Definition compress (st block : list Z) : list Z :=
  let X := (fun i => from_le (take 4 (drop (4 * i) block))) <$> seq 0 16 in
  zip_with (fun x y => u32 (x + y)) st (foldl (operation X) st (seq 0 64)).

Definition md5_padding (len : nat) : list Z :=
  0x80 :: replicate (Z.to_nat ((55 - Z.of_nat len) mod 64)) 0 ++ to_le 8 (8 * Z.of_nat len).
Definition md5 (m : list Z) : list Z := absorb compress initial (m ++ md5_padding (length m)) ≫= to_le 4.

(** RFC 2104 with MD5. *)
Definition hmac_md5_key (K : list Z) : list Z :=
  let K := if (64 <? length K)%nat then md5 K else K in K ++ replicate (64 - length K) 0.
Definition hmac_md5 (K m : list Z) : list Z :=
  md5 (((fun b => Z.lxor b 0x5c) <$> hmac_md5_key K) ++ md5 (((fun b => Z.lxor b 0x36) <$> hmac_md5_key K) ++ m)).
End Rfc1321.

(** ** The compression function *)

Section compression.
Lemma mod_S4 i :
  (i mod 4 = 0 /\ S i mod 4 = 1 \/ i mod 4 = 1 /\ S i mod 4 = 2
   \/ i mod 4 = 2 /\ S i mod 4 = 3 \/ i mod 4 = 3 /\ S i mod 4 = 0)%nat.
Proof.
  pose proof (Nat.div_mod_eq i 4). pose proof (Nat.mod_upper_bound i 4).
  pose proof (Nat.div_mod_eq (S i) 4). pose proof (Nat.mod_upper_bound (S i) 4). lia.
Qed.

Lemma md5_T_sine : md5_T = Rfc1321.T <$> seq 0 65.
Proof. by vm_compute. Qed.

#[global] Opaque Rfc1321.T.

Lemma md5_iv_rfc : md5_iv = Rfc1321.initial.
Proof. by vm_compute. Qed.

Lemma complement_lnot x : u32 (Z.lnot x) = Rfc1321.complement x.
Proof.
  unfold Rfc1321.complement, u32. replace (2 ^ 32 - 1 - x) with (Z.lnot x + 1 * 2 ^ 32) by (unfold Z.lnot; lia). by rewrite Z_mod_plus_full.
Qed.

(** The function of the round of line [i]. *)
Definition line_function (i : nat) : Z -> Z -> Z -> Z := nth (i / 16) [md5_F; md5_G; md5_H; md5_I] md5_F.

Lemma line_function_rfc i x y z : line_function i x y z = Rfc1321.function i x y z.
Proof.
  unfold line_function, Rfc1321.function. destruct (i / 16)%nat as [|[|[|[|[|k]]]]]; cbn [nth];
    unfold md5_F, md5_G, md5_H, md5_I, Rfc1321.F, Rfc1321.G, Rfc1321.H, Rfc1321.I; by rewrite ?complement_lnot.
Qed.

Lemma SHIFT_rfc x s : SHIFT x s = Rfc1321.rotate_left x s.
Proof. reflexivity. Qed.

(** The 64 lines of [md5_calc] in order, with the functions of their rounds. *)
Definition line_of (i : nat) : (Z -> Z -> Z -> Z) * (nat * nat * Z * nat) :=
  (line_function i, ((4 - i mod 4) mod 4, Rfc1321.word i, Rfc1321.rotation i, S i)%nat).

Lemma lines_rfc :
  (pair md5_F <$> round1) ++ (pair md5_G <$> round2) ++ (pair md5_H <$> round3) ++ (pair md5_I <$> round4)
  = line_of <$> seq 0 64.
Proof. reflexivity. Qed.

(** The four variables as operation [i] names them. *)
Definition md5_view (i : nat) (V : list Z) : list Z :=
  (fun t => nth ((4 - i mod 4 + t) mod 4) V 0) <$> seq 0 4.

Definition line (X V : list Z) (l : (Z -> Z -> Z -> Z) * (nat * nat * Z * nat)) : list Z :=
  let '(f, (a, k, s, i)) := l in ROUND f X V a k s i.

Lemma run_lines f X lines V : run f X lines V = foldl (line X) V (pair f <$> lines).
Proof.
  unfold run. revert V. induction lines as [|[[[a k] s] i] lines IH]; intros V; [done|]. apply IH.
Qed.

Lemma calc_lines X V :
  run md5_I X round4 (run md5_H X round3 (run md5_G X round2 (run md5_F X round1 V)))
  = foldl (line X) V (line_of <$> seq 0 64).
Proof. rewrite <- lines_rfc, !foldl_app, !run_lines. done. Qed.

Lemma line_operation X V i :
  (i < 64)%nat -> length V = 4%nat ->
  length (line X V (line_of i)) = 4%nat
  /\ md5_view (S i) (line X V (line_of i)) = Rfc1321.operation X (md5_view i V) i.
Proof.
  intros Hi HV. assert (nth (S i) md5_T 0 = Rfc1321.T (S i)) as ET.
  { rewrite md5_T_sine. apply nth_lookup_Some. rewrite list_lookup_fmap, lookup_seq_lt by lia. done. }
  do 4 (destruct V as [|? V]; [done|]). destruct V; [|done].
  unfold line, line_of, ROUND. cbv beta zeta. rewrite ET, line_function_rfc, SHIFT_rfc. rewrite length_insert. split; [done|].
  unfold md5_view. destruct (mod_S4 i) as [[E E']|[[E E']|[[E E']|[E E']]]]; rewrite E, E'; reflexivity.
Qed.

Lemma lines_operations X n V i :
  (i + n <= 64)%nat -> length V = 4%nat ->
  let V' := foldl (line X) V (line_of <$> seq i n) in
  length V' = 4%nat /\ md5_view (i + n) V' = foldl (Rfc1321.operation X) (md5_view i V) (seq i n).
Proof.
  revert V i. induction n as [|n IH]; intros V i Hi HV; cbn [seq fmap list_fmap foldl].
  - by rewrite Nat.add_0_r.
  - destruct (line_operation X V i ltac:(lia) HV) as [HV' <-].
    replace (i + S n)%nat with (S i + n)%nat by lia. apply IH; [lia|done].
Qed.

Lemma md5_calc_rfc st block : length st = 4%nat -> md5_calc st block = Rfc1321.compress st block.
Proof.
  intros Hs. unfold md5_calc, Rfc1321.compress. cbv zeta.
  set (X := (fun i => from_le (take 4 (drop (4 * i) block))) <$> seq 0 16).
  rewrite calc_lines.
  pose proof (lines_operations X 64 st 0 ltac:(lia) Hs) as H.
  revert H. cbv zeta. generalize (foldl (line X) st (line_of <$> seq 0 64)).
  generalize (foldl (Rfc1321.operation X)). intros ops V' [H4 E].
  assert (forall V, length V = 4%nat -> md5_view 0 V = V /\ md5_view 64 V = V) as Hv.
  { intros V HV. do 4 (destruct V as [|? V]; [done|]). by destruct V. }
  rewrite (proj1 (Hv _ Hs)) in E. change (0 + 64)%nat with 64%nat in E. rewrite (proj2 (Hv _ H4)) in E.
  by rewrite E.
Qed.

Lemma length_md5_calc st b : length st = 4%nat -> length (md5_calc st b) = 4%nat.
Proof.
  intros Hs. rewrite md5_calc_rfc by done. unfold Rfc1321.compress. cbv zeta. rewrite length_zip_with, Hs.
  assert (forall X l V, length V = 4%nat -> length (foldl (Rfc1321.operation X) V l) = 4%nat) as H.
  { intros X l. induction l as [|i l IH]; intros V HV; [done|]. cbn [foldl]. apply IH.
    do 4 (destruct V as [|? V]; [done|]). by destruct V. }
  rewrite H by done. done.
Qed.

(** A digest by blocks is four words and is the standard's. *)
Lemma md5_blocks_rfc n st l :
  length st = 4%nat -> compress_blocks md5_calc n st l = compress_blocks Rfc1321.compress n st l
                       /\ length (compress_blocks md5_calc n st l) = 4%nat.
Proof.
  revert st l. induction n as [|n IH]; intros st l Hs; cbn [compress_blocks]; [done|].
  rewrite <- md5_calc_rfc by done. by apply IH, length_md5_calc.
Qed.

Lemma md5_digest m :
  Rfc1321.md5 m = absorb md5_calc md5_iv (m ++ Rfc1321.md5_padding (length m)) ≫= to_le 4.
Proof. unfold Rfc1321.md5, absorb. rewrite <-md5_iv_rfc. by rewrite (proj1 (md5_blocks_rfc _ md5_iv _ eq_refl)). Qed.
End compression.

(** What a context holds after the bytes [m]. *)
Record md5_fed (ctxt : eigrp_md5_ctx) (m : list Z) : Prop := {
  md5_fed_st : md5_st ctxt = absorb md5_calc md5_iv m;
  md5_fed_i : md5_i ctxt = (length m mod 64)%nat;
  md5_fed_buf : take (length m mod 64) (md5_buf ctxt) = residue m;
  md5_fed_size : length (md5_buf ctxt) = 64%nat;
  md5_fed_n : md5_n ctxt = 8 * Z.of_nat (length m);
}.

Section streaming.
Lemma md5_fed_init : md5_fed eigrp_md5_init [].
Proof. by split. Qed.

Lemma md5_blocks_absorb fuel st input i :
  0 <= i <= Z.of_nat (length input) -> Z.of_nat (length input) < 2 ^ 31 ->
  (length input <= Z.to_nat i + fuel)%nat ->
  let '(st', i') := md5_blocks fuel st input i in
  st' = absorb md5_calc st (drop (Z.to_nat i) input)
  /\ drop (Z.to_nat i') input = residue (drop (Z.to_nat i) input).
Proof.
  revert st i. induction fuel as [|fuel IH]; intros st i Hi Hl Hf; cbn [md5_blocks].
  - rewrite drop_ge by lia. done.
  - rewrite u32_small by lia. destruct (Z.leb_spec (i + 64) (Z.of_nat (length input))) as [H|H].
    + specialize (IH (md5_calc st (take 64 (drop (Z.to_nat i) input))) (i + 64) ltac:(lia) Hl ltac:(lia)).
      destruct (md5_blocks _ _ _ _) as [st' i']. destruct IH as [-> ->].
      replace (Z.to_nat (i + 64)) with (Z.to_nat i + 64)%nat by lia. rewrite <- drop_drop.
      set (l := drop (Z.to_nat i) input).
      assert (length (take 64 l) = 64%nat) as H64 by (unfold l; rewrite length_take, length_drop; lia).
      pose proof (absorb_block md5_calc st _ (drop 64 l) H64) as E1.
      pose proof (residue_block _ (drop 64 l) H64) as E2.
      rewrite take_drop in E1, E2. rewrite E1, E2. done.
    + rewrite absorb_short, residue_short by (rewrite length_drop; lia). done.
Qed.

Lemma md5_fed_update ctxt m src :
  md5_fed ctxt m -> Z.of_nat (length (m ++ src)) < 2 ^ 29 ->
  md5_fed (eigrp_md5_update ctxt src) (m ++ src).
Proof.
  intros F Hlen. rewrite length_app in Hlen. unfold eigrp_md5_update, MD5_BUFLEN. cbn [md5_i md5_buf md5_st].
  pose proof (md5_fed_size _ _ F) as Hs. pose proof (md5_fed_buf _ _ F) as Hb.
  pose proof (md5_fed_st _ _ F) as Hst. rewrite (md5_fed_i _ _ F).
  assert (u64 (md5_n ctxt + u32 (Z.of_nat (length src) * 8)) = 8 * Z.of_nat (length (m ++ src))) as Hn.
  { rewrite (md5_fed_n _ _ F), length_app. rewrite u32_small, u64_small by lia. lia. }
  pose proof (length_residue m) as Hr. pose proof (Nat.mod_upper_bound (length m) 64 ltac:(lia)) as Hlt.
  set (r := (length m mod 64)%nat) in *.
  destruct (Nat.leb_spec (64 - r) (length src)) as [Hl|Hl].
  - pose proof (md5_blocks_absorb (length src)
      (md5_calc (md5_st ctxt) (splice (md5_buf ctxt) r (take (64 - r) src))) src
      (Z.of_nat (64 - r)) ltac:(lia) ltac:(lia) ltac:(lia)) as Hbl.
    destruct (md5_blocks _ _ _ _) as [st i]. destruct Hbl as [-> Hi]. rewrite Nat2Z.id in *. rewrite Hi.
    rewrite splice_full by (rewrite length_take; lia). rewrite Hb.
    assert (length (residue m ++ take (64 - r) src) = 64%nat) as H64
      by (rewrite length_app, length_take; lia).
    assert (residue m ++ src = (residue m ++ take (64 - r) src) ++ drop (64 - r) src) as Hsplit
      by (by rewrite <- app_assoc, take_drop).
    pose proof (length_residue (drop (64 - r) src)) as Hr'.
    pose proof (Nat.mod_upper_bound (length (drop (64 - r) src)) 64 ltac:(lia)).
    assert (residue (m ++ src) = residue (drop (64 - r) src)) as Hres
      by (by rewrite residue_app, Hsplit, residue_block).
    split; cbn [md5_st md5_buf md5_i md5_n]; try done.
    + rewrite absorb_app, Hsplit, absorb_block by done. by rewrite Hst.
    + by rewrite <- length_residue, Hres.
    + rewrite <- length_residue, Hres. apply (take_splice _ 0). lia.
    + rewrite length_splice; [done|lia].
  - assert ((length (m ++ src)) mod 64 = r + length src)%nat as Hm.
    { rewrite length_app. rewrite <- Nat.Div0.add_mod_idemp_l. fold r. apply Nat.mod_small. lia. }
    split; cbn [md5_st md5_buf md5_i md5_n]; try done.
    + rewrite absorb_app, absorb_short by (rewrite length_app; lia). exact Hst.
    + rewrite Hm, take_splice by lia. rewrite residue_app, residue_short by (rewrite length_app; lia).
      by rewrite Hb.
    + rewrite length_splice; lia.
Qed.

Lemma md5_fed_updates ctxt m chunks :
  md5_fed ctxt m -> Z.of_nat (length (m ++ concat chunks)) < 2 ^ 29 ->
  md5_fed (foldl eigrp_md5_update ctxt chunks) (m ++ concat chunks).
Proof.
  revert ctxt m. induction chunks as [|c chunks IH]; intros ctxt m F Hl; simpl; [by rewrite app_nil_r|].
  simpl in Hl. rewrite app_assoc in *. apply IH; [|done]. apply md5_fed_update; [done|].
  rewrite length_app in Hl. lia.
Qed.
End streaming.

Section digest.
Lemma length_to_le n v : length (to_le n v) = n.
Proof. unfold to_le. by rewrite length_rev, to_be_length. Qed.

(** The two blocks [eigrp_md5_pad] may complete are those of the padded message. *)
Lemma md5_pad_absorb ctxt m :
  md5_fed ctxt m -> md5_st (eigrp_md5_pad ctxt) = absorb md5_calc md5_iv (m ++ Rfc1321.md5_padding (length m)).
Proof.
  intros F. unfold eigrp_md5_pad, MD5_BUFLEN, Rfc1321.md5_padding.
  rewrite (md5_fed_i _ _ F), (md5_fed_st _ _ F), (md5_fed_n _ _ F).
  rewrite absorb_app. pose proof (length_residue m) as Hr. pose proof (md5_fed_buf _ _ F) as Hb.
  pose proof (md5_fed_size _ _ F) as Hs.
  pose proof (Nat.mod_upper_bound (length m) 64 ltac:(lia)) as Hlt.
  assert (Z.of_nat (length m mod 64) = Z.of_nat (length m) mod 64) as E by (by rewrite Nat2Z.inj_mod).
  set (r := (length m mod 64)%nat) in *. set (h := absorb md5_calc md5_iv m).
  set (L := to_le 8 (8 * Z.of_nat (length m))). assert (length L = 8%nat) as HL by apply length_to_le.
  assert (Z.to_nat ((55 - Z.of_nat (length m)) mod 64) = (if (r <? 56)%nat then 55 - r else 119 - r)%nat) as ->.
  { apply Nat2Z.inj. rewrite Z2Nat.id by (apply Z.mod_pos_bound; lia).
    case Nat.ltb_spec; intros; Z.div_mod_to_equations; lia. }
  assert (forall b l, length b = 64%nat -> length l = 56%nat -> splice (splice b 0 l) 56 L = l ++ L) as Hz.
  { intros b l H1 H2. rewrite splice_full by (rewrite length_splice; lia). f_equal.
    rewrite <- H2. apply (take_splice b 0 l). lia. }
  unfold eigrp_md5_paddat. destruct (Nat.ltb_spec r 56) as [Hlt56|Hge56].
  - destruct (Nat.ltb_spec 8 (64 - r)); [|lia]. cbn [md5_st].
    replace (64 - r - 8)%nat with (S (55 - r)) by lia. cbn [take]. rewrite take_replicate, Nat.min_l by lia.
    rewrite splice_full by (rewrite length_splice; cbn [length]; rewrite ?length_replicate; lia).
    set (p := 128 :: replicate (55 - r) 0). assert (length p = (56 - r)%nat) as Hp
      by (unfold p; cbn [length]; rewrite length_replicate; lia).
    pose proof (take_splice (md5_buf ctxt) r p ltac:(lia)) as Et.
    replace (r + length p)%nat with 56%nat in Et by lia. rewrite Et, Hb.
    change (128 :: replicate (55 - r) 0 ++ L) with (p ++ L). rewrite app_assoc.
    rewrite absorb_one by (rewrite !length_app; lia). done.
  - destruct (Nat.ltb_spec 8 (64 - r)); [lia|]. cbn [md5_st].
    replace (64 - r)%nat with (S (63 - r)) by lia. cbn [take drop]. rewrite take_replicate, Nat.min_l by lia.
    rewrite drop_replicate, take_replicate. rewrite (Nat.min_l 56) by lia.
    rewrite splice_full by (cbn [length]; rewrite length_replicate; lia). rewrite Hb.
    set (p := 128 :: replicate (63 - r) 0). assert (length p = (64 - r)%nat) as Hp
      by (unfold p; cbn [length]; rewrite length_replicate; lia).
    rewrite Hz by (rewrite ?length_app, ?length_replicate; lia).
    replace (119 - r)%nat with (63 - r + 56)%nat by lia. rewrite replicate_add.
    change (128 :: (replicate (63 - r) 0 ++ replicate 56 0) ++ L) with ((p ++ replicate 56 0) ++ L).
    rewrite <- app_assoc, app_assoc, absorb_block by (rewrite !length_app; lia).
    rewrite absorb_one by (rewrite length_app, length_replicate; lia). done.
Qed.

Lemma md5_final_fed ctxt m : md5_fed ctxt m -> eigrp_md5_final ctxt = Rfc1321.md5 m.
Proof. intros F. unfold eigrp_md5_final, eigrp_md5_result. by rewrite (md5_pad_absorb _ _ F), md5_digest. Qed.

Lemma to_le_bytes n v : Forall byte (to_le n v).
Proof. unfold to_le. apply Forall_rev, to_be_bytes. Qed.

Lemma length_md5 m : length (Rfc1321.md5 m) = 16%nat.
Proof.
  rewrite md5_digest. unfold absorb.
  pose proof (proj2 (md5_blocks_rfc (length (m ++ Rfc1321.md5_padding (length m)) / 64) md5_iv
    (m ++ Rfc1321.md5_padding (length m)) eq_refl)) as H4.
  revert H4. generalize (compress_blocks md5_calc (length (m ++ Rfc1321.md5_padding (length m)) / 64) md5_iv
    (m ++ Rfc1321.md5_padding (length m))). intros l H4.
  do 4 (destruct l as [|? l]; [done|]). destruct l; [|done].
  cbn [mbind list_bind]. rewrite !length_app, !length_to_le. done.
Qed.

Lemma md5_bytes m : Forall byte (Rfc1321.md5 m).
Proof.
  rewrite md5_digest. generalize (absorb md5_calc md5_iv (m ++ Rfc1321.md5_padding (length m))).
  intros l. induction l as [|x l IH]; cbn [mbind list_bind]; [constructor|].
  apply Forall_app. split; [apply to_le_bytes|exact IH].
Qed.

Lemma md5_chunks chunks :
  Z.of_nat (length (concat chunks)) < 2 ^ 29 ->
  eigrp_md5_final (foldl eigrp_md5_update eigrp_md5_init chunks) = Rfc1321.md5 (concat chunks).
Proof. intros H. apply md5_final_fed. exact (md5_fed_updates _ [] chunks md5_fed_init H). Qed.
End digest.

(** ** HMAC-MD5 *)

Section hmac_md5.
Lemma length_hmac_md5_key K : length (Rfc1321.hmac_md5_key K) = 64%nat.
Proof.
  unfold Rfc1321.hmac_md5_key. rewrite length_app, length_replicate.
  destruct (Nat.ltb_spec 64 (length K)); [rewrite length_md5|]; lia.
Qed.

Lemma md5_two a b :
  Z.of_nat (length (a ++ b)) < 2 ^ 29 ->
  eigrp_md5_final (eigrp_md5_update (eigrp_md5_update eigrp_md5_init a) b) = Rfc1321.md5 (a ++ b).
Proof.
  intros H. pose proof (md5_chunks [a; b]) as E. simpl concat in E. rewrite app_nil_r in E. by apply E.
Qed.

Lemma hmac_md5_rfc2104 text key :
  Z.of_nat (length text) < 2 ^ 29 - 64 -> Z.of_nat (length key) < 2 ^ 29 ->
  eigrp_hmac_md5 text key = Rfc1321.hmac_md5 key text.
Proof.
  intros Ht Hk. unfold eigrp_hmac_md5, Rfc1321.hmac_md5.
  assert ((if (64 <? length key)%nat then eigrp_md5_final (eigrp_md5_update eigrp_md5_init key) else key)
          = (if (64 <? length key)%nat then Rfc1321.md5 key else key)) as ->.
  { destruct (64 <? length key)%nat; [|done]. pose proof (md5_chunks [key]) as E. simpl concat in E.
    rewrite app_nil_r in E. by apply E. }
  pose proof (length_hmac_md5_key key) as HL. unfold Rfc1321.hmac_md5_key in *.
  rewrite (md5_two _ text) by (rewrite length_app, length_fmap, HL; lia).
  rewrite md5_two by (rewrite length_app, length_fmap, HL, length_md5; lia). done.
Qed.
End hmac_md5.

(** "message digest": the digest of RFC 1321, appendix A.5. *)
Example md5_rfc_vector :
  Rfc1321.md5 [109; 101; 115; 115; 97; 103; 101; 32; 100; 105; 103; 101; 115; 116]
  = [249; 107; 105; 125; 124; 183; 147; 141; 82; 90; 47; 49; 170; 241; 97; 208].
Proof. vm_compute. reflexivity. Qed.
