(* ===== verification/Auth.v ===== *)
(** * Packet authentication (eigrp_auth.c)

    Signing at the end of the transmit path and checking on receipt, for MD5 and
    HMAC-SHA-256.  A packet is the stream that holds it; fields of the header and of
    the authentication TLV, which the code reaches through a struct pointer into
    [s->data], are read and written at their offsets.  Strings are their bytes
    without the terminator.  The key chain of the host and [inet_ntop] are
    arguments. *)

From Stdlib Require Import ZArith Lia.
From stdpp Require Import base list.
From S2P Require Import Prelude Types Stream Checksum BlockHash Sha256 Md5.

Definition EIGRP_AUTH_TYPE_NONE : Z := 0.
Definition EIGRP_AUTH_TYPE_MD5 : Z := 2.
Definition EIGRP_AUTH_TYPE_SHA256 : Z := 3.
Definition EIGRP_AUTH_TYPE_MD5_LEN : nat := 16.
Definition EIGRP_AUTH_TYPE_SHA256_LEN : nat := 32.
Definition EIGRP_AUTH_MD5_TLV_SIZE : nat := 40.
Definition EIGRP_AUTH_SHA256_TLV_SIZE : nat := 56.
Definition EIGRP_MD5_BASIC_COMPUTE : nat := 44.
Definition EIGRP_AUTH_BASIC_HELLO_FLAG : Z := 0x01.
Definition EIGRP_AUTH_UPDATE_INIT_FLAG : Z := 0x04.
Definition EIGRP_AUTH_UPDATE_FLAG : Z := 0x08.
Definition EIGRP_TLV_AUTH : Z := 0x0002.
Definition PLAINTEXT_LENGTH : nat := 81.
Definition INET6_ADDRSTRLEN : nat := 46.
Definition EIGRP_INIT_FLAG : Z := 0x01.

(** Offsets in [struct eigrp_header] and, behind it, in the authentication TLV; the
    two TLVs differ in the size of [digest] only. *)
Definition header_len : nat := 20.
Definition off_opcode : nat := 1.
Definition off_checksum : nat := 2.
Definition off_flags : nat := 4.
Definition off_type : nat := 20.
Definition off_length : nat := 22.
Definition off_auth_type : nat := 24.
Definition off_auth_length : nat := 26.
Definition off_key_sequence : nat := 32.
Definition off_digest : nat := 44.

(** [ei->params] and [ei->address] as far as authentication reads them, and the
    interface's sequence counter. *)
Record auth_intf := {
  auth_type : Z;
  auth_password : option (list Z);
  auth_keychain : option (list Z);
  address_afi : Z;
  address_bytes : list Z;
}.

(** A neighbor: its source address; [crypt_seqnum] is kept in network order, here
    the four bytes of the field. *)
Record auth_nbr := {
  an_ei : auth_intf;
  src_afi : Z;
  src_bytes : list Z;
  crypt_seqnum : list Z;
}.

Definition zeropad : list Z := replicate 16 0.

(** ** Sequence numbers *)

Definition eigrp_auth_sequence_newer (received_wire stored_wire : list Z) : bool :=
  let received := from_be received_wire in
  let stored := from_be stored_wire in
  let delta := u32 (received - stored) in
  if received =? 0 then false
  else if stored =? 0 then true
  else negb (delta =? 0) && (delta <? 0x80000000).

(** [ei->crypt_seqnum] after the increments. *)
Definition eigrp_auth_sequence_next (seqnum : Z) : Z :=
  let seqnum := u32 (seqnum + 1) in
  if seqnum =? 0 then u32 (seqnum + 1) else seqnum.

Definition eigrp_auth_discovery_sequence_accept (nbr : auth_nbr) (packet : list Z) : bool * auth_nbr :=
  if auth_type (an_ei nbr) =? EIGRP_AUTH_TYPE_NONE then (true, nbr)
  else
    let key_sequence := take 4 (drop off_key_sequence packet) in
    if eigrp_auth_sequence_newer key_sequence (crypt_seqnum nbr)
    then (true, {| nbr with crypt_seqnum := key_sequence |}) else (false, nbr).

Definition eigrp_auth_material_available (ei : auth_intf) : bool :=
  match auth_password ei, auth_keychain ei with None, None => false | _, _ => true end.

(** [memset] of a field. *)
Definition clear_field (pos size : nat) : Sm unit := stream_write pos (replicate size 0).

(** A big-endian field of the packet ([ntohs], [ntohl]). *)
Definition read_be (pos size : nat) : Sm Z := bs ← stream_read pos size; mret (from_be bs).

(** ** MD5 *)

Definition eigrp_auth_md5_compute (packet key : list Z) (flags : Z) : option (list Z) :=
  let tlv_end := (header_len + EIGRP_AUTH_MD5_TLV_SIZE)%nat in
  if (length packet <? tlv_end)%nat || (UINT32_MAX <? Z.of_nat (length packet))
     || negb (flags .? (EIGRP_AUTH_BASIC_HELLO_FLAG .| EIGRP_AUTH_UPDATE_INIT_FLAG .| EIGRP_AUTH_UPDATE_FLAG))
  then None
  else
    let key_len := length key in
    let ctx := eigrp_md5_init in
    let ctx := eigrp_md5_update ctx (take EIGRP_MD5_BASIC_COMPUTE packet) in
    let ctx := eigrp_md5_update ctx key in
    let ctx := if (key_len <? length zeropad)%nat
               then eigrp_md5_update ctx (take (length zeropad - key_len) zeropad) else ctx in
    let ctx := if negb (flags .? EIGRP_AUTH_BASIC_HELLO_FLAG) && (tlv_end <? length packet)%nat
               then eigrp_md5_update ctx (drop tlv_end packet) else ctx in
    Some (eigrp_md5_final ctx).

Section auth.
(** [eigrp_sys_auth_key_lookup (chain, size)]: the identifier and the key of the chain. *)
Context (eigrp_sys_auth_key_lookup : list Z -> nat -> option (Z * list Z)).
(** [inet_ntop (af, address, size)]: the text of an address. *)
Context (inet_ntop : Z -> list Z -> nat -> option (list Z)).

Definition eigrp_auth_key_get (ei : auth_intf) (key_size : nat) : option (Z * list Z) :=
  match (if auth_type ei =? EIGRP_AUTH_TYPE_SHA256 then auth_password ei else None) with
  | Some password => if (key_size <=? length password)%nat then None else Some (0, password)
  | None =>
      match auth_keychain ei with
      | Some chain => eigrp_sys_auth_key_lookup chain key_size
      | None => None
      end
  end.

Definition eigrp_auth_sha256_source (ei : auth_intf) (nbr : option auth_nbr) (text_size : nat)
  : option (list Z) :=
  match nbr with
  | Some nbr => inet_ntop (src_afi nbr) (src_bytes nbr) text_size
  | None => inet_ntop (if address_afi ei =? EIGRP_AFI_IPV6 then AF_INET6 else AF_INET)
                      (address_bytes ei) text_size
  end.

(** The number of digest bytes, 0 on failure. *)
Definition eigrp_make_md5_digest (ei : auth_intf) (flags : Z) : Sm nat :=
  s ← get;
  if (endp s <? header_len + EIGRP_AUTH_MD5_TLV_SIZE)%nat || (length (data s) <? endp s)%nat
  then mret O
  else
    match eigrp_auth_key_get ei (PLAINTEXT_LENGTH + 1) with
    | None => mret O
    | Some (_, key_string) =>
        packet ← stream_read 0 (endp s);
        match eigrp_auth_md5_compute packet key_string flags with
        | None => mret O
        | Some digest => stream_write off_digest digest;; mret EIGRP_AUTH_TYPE_MD5_LEN
        end
    end.

(** The result (1 accepted, 0 refused) and the neighbor's sequence number. *)
Definition eigrp_check_md5_digest (nbr : auth_nbr) (flags : Z) : Sm (Z * list Z) :=
  let refuse : Sm (Z * list Z) := mret (0, crypt_seqnum nbr) in
  s ← get;
  if (endp s <? header_len + EIGRP_AUTH_MD5_TLV_SIZE)%nat || (length (data s) <? endp s)%nat then refuse
  else
    type ← read_be off_type 2;
    tlv_length ← read_be off_length 2;
    tlv_auth_type ← read_be off_auth_type 2;
    auth_length ← read_be off_auth_length 2;
    if negb (type =? EIGRP_TLV_AUTH) || negb (tlv_length =? Z.of_nat EIGRP_AUTH_MD5_TLV_SIZE)
       || negb (tlv_auth_type =? EIGRP_AUTH_TYPE_MD5)
       || negb (auth_length =? Z.of_nat EIGRP_AUTH_TYPE_MD5_LEN)
    then refuse
    else
      key_sequence ← stream_read off_key_sequence 4;
      if negb (eigrp_auth_sequence_newer key_sequence (crypt_seqnum nbr)) then refuse
      else
        match eigrp_auth_key_get (an_ei nbr) (PLAINTEXT_LENGTH + 1) with
        | None => refuse
        | Some (_, key_string) =>
            saved_checksum ← stream_read off_checksum 2;
            clear_field off_checksum 2;;
            original ← stream_read off_digest EIGRP_AUTH_TYPE_MD5_LEN;
            clear_field off_digest EIGRP_AUTH_TYPE_MD5_LEN;;
            packet ← stream_read 0 (endp s);
            let computed := eigrp_auth_md5_compute packet key_string flags in
            stream_write off_digest original;;
            stream_write off_checksum saved_checksum;;
            match computed with
            | Some digest =>
                if bool_decide (original = digest) then mret (1, key_sequence) else refuse
            | None => refuse
            end
        end.

(** ** HMAC-SHA-256 *)

(** [key_buffer]: a newline, the key and the address; a longer text than the array
    is undefined behaviour. *)
Definition sha256_key (key_string source_ip : list Z) : Sm (list Z) :=
  let key_buffer := 10 :: key_string ++ source_ip in
  if (length key_buffer <=? 1 + PLAINTEXT_LENGTH + INET6_ADDRSTRLEN)%nat then mret key_buffer else ub.

(** The context is on the stack; what it holds before [init] does not matter. *)
Definition hmac_of (key packet : list Z) : list Z :=
  let ctx := {| ictx := sha256_wiped; octx := sha256_wiped |} in
  let ctx := eigrp_hmac_sha256_init ctx key in
  let ctx := eigrp_hmac_sha256_update ctx packet in
  (eigrp_hmac_sha256_final ctx).1.

(** [memset]/[memcpy] of the [digest] member of the copied TLV. *)
Definition tlv_with_digest (auth_tlv digest : list Z) : list Z :=
  take (off_digest - header_len) auth_tlv ++ digest.

Definition eigrp_make_sha256_digest (ei : auth_intf) : Sm nat :=
  s ← get;
  if (endp s <? header_len + EIGRP_AUTH_SHA256_TLV_SIZE)%nat then mret O
  else
    let backup_end := endp s in
    let backup_get := getp s in
    created ← allocate;
    if negb created then mret O
    else
      eigrp_stream_set_getp header_len;;
      auth_tlv ← eigrp_stream_get EIGRP_AUTH_SHA256_TLV_SIZE;
      eigrp_stream_set_getp backup_get;;
      match eigrp_auth_key_get ei (PLAINTEXT_LENGTH + 1), eigrp_auth_sha256_source ei None INET6_ADDRSTRLEN with
      | Some (_, key_string), Some source_ip =>
          eigrp_stream_set_endp header_len;;
          eigrp_stream_put (tlv_with_digest auth_tlv (replicate EIGRP_AUTH_TYPE_SHA256_LEN 0));;
          eigrp_stream_set_endp backup_end;;
          key_buffer ← sha256_key key_string source_ip;
          packet ← stream_read 0 backup_end;
          let digest := hmac_of key_buffer packet in
          eigrp_stream_set_endp header_len;;
          eigrp_stream_put (tlv_with_digest auth_tlv digest);;
          eigrp_stream_set_endp backup_end;;
          mret EIGRP_AUTH_TYPE_SHA256_LEN
      | _, _ => mret O
      end.

Definition eigrp_check_sha256_digest (nbr : auth_nbr) : Sm (Z * list Z) :=
  let refuse : Sm (Z * list Z) := mret (0, crypt_seqnum nbr) in
  s ← get;
  if (endp s <? header_len + EIGRP_AUTH_SHA256_TLV_SIZE)%nat then refuse
  else
    type ← read_be off_type 2;
    tlv_length ← read_be off_length 2;
    tlv_auth_type ← read_be off_auth_type 2;
    auth_length ← read_be off_auth_length 2;
    if negb (type =? EIGRP_TLV_AUTH) || negb (tlv_length =? Z.of_nat EIGRP_AUTH_SHA256_TLV_SIZE)
       || negb (tlv_auth_type =? EIGRP_AUTH_TYPE_SHA256)
       || negb (auth_length =? Z.of_nat EIGRP_AUTH_TYPE_SHA256_LEN)
    then refuse
    else
      key_sequence ← stream_read off_key_sequence 4;
      if negb (eigrp_auth_sequence_newer key_sequence (crypt_seqnum nbr)) then refuse
      else
        match eigrp_auth_key_get (an_ei nbr) (PLAINTEXT_LENGTH + 1),
              eigrp_auth_sha256_source (an_ei nbr) (Some nbr) INET6_ADDRSTRLEN with
        | Some (_, key_string), Some source_ip =>
            saved_checksum ← stream_read off_checksum 2;
            clear_field off_checksum 2;;
            original ← stream_read off_digest EIGRP_AUTH_TYPE_SHA256_LEN;
            clear_field off_digest EIGRP_AUTH_TYPE_SHA256_LEN;;
            key_buffer ← sha256_key key_string source_ip;
            packet ← stream_read 0 (endp s);
            let digest := hmac_of key_buffer packet in
            stream_write off_digest original;;
            stream_write off_checksum saved_checksum;;
            if bool_decide (original = digest) then mret (1, key_sequence) else refuse
        | _, _ => refuse
        end.

(** ** The placeholder TLV *)

(** [auth_type], the TLV size and the digest length of one of the two TLVs; the
    result is the number of bytes added. *)
Definition auth_tlv_encode (a_type : Z) (size len : nat) (key_id : Z -> Z) (ei : auth_intf) : Sm nat :=
  created ← allocate;
  if negb created then mret O
  else
    match eigrp_auth_key_get ei (PLAINTEXT_LENGTH + 1) with
    | Some (id, _) =>
        eigrp_stream_put (to_be 2 EIGRP_TLV_AUTH ++ to_be 2 (Z.of_nat size) ++ to_be 2 a_type
          ++ to_be 2 (Z.of_nat len) ++ to_be 4 (key_id id) ++ to_be 4 0 ++ replicate 8 0 ++ replicate len 0);;
        mret size
    | None => mret O
    end.
Definition eigrp_auth_tlv_md5_encode : auth_intf -> Sm nat :=
  auth_tlv_encode EIGRP_AUTH_TYPE_MD5 EIGRP_AUTH_MD5_TLV_SIZE EIGRP_AUTH_TYPE_MD5_LEN (fun id => id).
Definition eigrp_auth_tlv_sha256_encode : auth_intf -> Sm nat :=
  auth_tlv_encode EIGRP_AUTH_TYPE_SHA256 EIGRP_AUTH_SHA256_TLV_SIZE EIGRP_AUTH_TYPE_SHA256_LEN (fun _ => 0).

(** ** Signing a packet as it leaves *)

(** The flags of the digest: [eigrp_packet_auth_flags] on receipt and the same
    expression when signing. *)
Definition eigrp_packet_auth_flags (opcode flags : Z) : Z :=
  if opcode =? EIGRP_OPC_HELLO then EIGRP_AUTH_BASIC_HELLO_FLAG
  else if (opcode =? EIGRP_OPC_UPDATE) && (flags .? EIGRP_INIT_FLAG) then EIGRP_AUTH_UPDATE_INIT_FLAG
  else EIGRP_AUTH_UPDATE_FLAG.

(** The digest check of a received packet, as the interface selects it. *)
Definition digest_check (nbr : auth_nbr) (flags : Z) : Sm (Z * list Z) :=
  if auth_type (an_ei nbr) =? EIGRP_AUTH_TYPE_SHA256
  then eigrp_check_sha256_digest nbr else eigrp_check_md5_digest nbr flags.

Definition checksum_fill (packet_length : nat) : Sm unit :=
  bytes ← stream_read 0 packet_length;
  stream_write off_checksum (to_be 2 (eigrp_checksum bytes)).

(** Whether the packet is ready to send, and the interface's sequence counter. *)
Definition eigrp_auth_transmit_finalize (ei : auth_intf) (seqnum : Z) (packet_length : nat) : Sm (bool * Z) :=
  stream ← get;
  if (packet_length <? header_len)%nat || negb (endp stream =? packet_length)%nat
     || (length (data stream) <? packet_length)%nat
  then mret (false, seqnum)
  else if auth_type ei =? EIGRP_AUTH_TYPE_NONE then
    clear_field off_checksum 2;;
    checksum_fill packet_length;;
    mret (true, seqnum)
  else
    match (if auth_type ei =? EIGRP_AUTH_TYPE_MD5 then Some EIGRP_AUTH_MD5_TLV_SIZE
           else if auth_type ei =? EIGRP_AUTH_TYPE_SHA256 then Some EIGRP_AUTH_SHA256_TLV_SIZE
           else None) with
    | None => mret (false, seqnum)
    | Some auth_size =>
        if (packet_length <? header_len + auth_size)%nat then mret (false, seqnum)
        else
          match eigrp_auth_key_get ei (PLAINTEXT_LENGTH + 1) with
          | None => mret (false, seqnum)
          | Some _ =>
              type ← read_be off_type 2;
              tlv_length ← read_be off_length 2;
              tlv_auth_type ← read_be off_auth_type 2;
              if negb (type =? EIGRP_TLV_AUTH) || negb (tlv_length =? Z.of_nat auth_size)
                 || negb (tlv_auth_type =? auth_type ei)
              then mret (false, seqnum)
              else
                let seqnum := eigrp_auth_sequence_next seqnum in
                stream_write off_key_sequence (to_be 4 seqnum);;
                clear_field off_checksum 2;;
                opcode ← read_be off_opcode 1;
                hflags ← read_be off_flags 4;
                let flags := eigrp_packet_auth_flags opcode hflags in
                success ←
                  (if auth_type ei =? EIGRP_AUTH_TYPE_MD5 then
                     clear_field off_digest EIGRP_AUTH_TYPE_MD5_LEN;;
                     n ← eigrp_make_md5_digest ei flags;
                     mret (n =? EIGRP_AUTH_TYPE_MD5_LEN)%nat
                   else
                     clear_field off_digest EIGRP_AUTH_TYPE_SHA256_LEN;;
                     n ← eigrp_make_sha256_digest ei;
                     mret (n =? EIGRP_AUTH_TYPE_SHA256_LEN)%nat);
                if (success : bool) then
                  checksum_fill packet_length;;
                  mret (true, seqnum)
                else mret (false, seqnum)
          end
    end.
End auth.
