(* ===== verification/AuthProps.v ===== *)
(** * Packet authentication: correctness

    What a check accepts, stated with the digests of the standards; that a signed
    packet is accepted by a neighbor holding the same key, once. *)

From Stdlib Require Import ZArith Lia.
From stdpp Require Import base list.
From S2P Require Import Prelude Types Stream Checksum BlockHash Sha256 Sha256Props Md5 Md5Props Auth.

(** ** Reading and writing fields *)

Section fields.
Lemma wp_stream_read pos n s (Q : list Z -> eigrp_stream -> Prop) :
  (pos + n <= length (data s))%nat -> Q (slice (data s) pos n) s -> wp (stream_read pos n) Q s.
Proof.
  intros H HQ. unfold stream_read. rewrite wp_bind, wp_get. by rewrite (proj2 (Nat.leb_le _ _)) by done.
Qed.
Lemma wp_stream_write pos src s (Q : unit -> eigrp_stream -> Prop) :
  (pos + length src <= length (data s))%nat ->
  Q tt {| s with data := splice (data s) pos src |} -> wp (stream_write pos src) Q s.
Proof.
  intros H HQ. unfold stream_write. rewrite wp_bind, wp_get. by rewrite (proj2 (Nat.leb_le _ _)) by done.
Qed.
Lemma wp_clear_field pos n s (Q : unit -> eigrp_stream -> Prop) :
  (pos + n <= length (data s))%nat ->
  Q tt {| s with data := splice (data s) pos (replicate n 0) |} -> wp (clear_field pos n) Q s.
Proof. intros H HQ. apply wp_stream_write; [by rewrite length_replicate|done]. Qed.
Lemma wp_read_be pos n s (Q : Z -> eigrp_stream -> Prop) :
  (pos + n <= length (data s))%nat -> Q (from_be (slice (data s) pos n)) s -> wp (read_be pos n) Q s.
Proof. intros H HQ. unfold read_be. rewrite wp_bind. by apply wp_stream_read. Qed.

(** A put inside the buffer overwrites it in place. *)
Lemma wp_put_inside bs s (Q : nat -> eigrp_stream -> Prop) :
  (endp s + length bs <= length (data s))%nat -> (0 < length bs)%nat ->
  Q (length bs) {| s with data := splice (data s) (endp s) bs; endp := (endp s + length bs)%nat |} ->
  wp (eigrp_stream_put bs) Q s.
Proof.
  intros H H0 HQ. unfold eigrp_stream_put, eigrp_stream_ensure.
  rewrite !wp_bind, wp_get. rewrite !wp_bind, wp_get. cbv zeta. rewrite (proj2 (Nat.leb_le _ _)) by done.
  rewrite wp_ret. rewrite (proj2 (Nat.eqb_neq _ _)) by lia. rewrite !wp_bind.
  apply wp_stream_write; [done|]. exact HQ.
Qed.
End fields.

(** ** What is signed *)

(** The packet with the checksum and the digest zero. *)
Definition cleared (len : nat) (l : list Z) : list Z :=
  splice (splice l off_checksum (replicate 2 0)) off_digest (replicate len 0).

(** The bytes covered by MD5: up to the digest, the key padded to 16 bytes, and the
    TLVs behind the authentication TLV unless the packet is a basic Hello. *)
Definition md5_covered (packet key : list Z) (flags : Z) : list Z :=
  take 44 packet ++ key ++ replicate (16 - length key) 0
  ++ (if flags .? EIGRP_AUTH_BASIC_HELLO_FLAG then [] else drop 60 packet).

(** The four constant fields of the TLV. *)
Definition tlv_fields (l : list Z) (size a_type len : Z) : bool :=
  (from_be (slice l off_type 2) =? EIGRP_TLV_AUTH) && (from_be (slice l off_length 2) =? size)
  && (from_be (slice l off_auth_type 2) =? a_type) && (from_be (slice l off_auth_length 2) =? len).

Definition auth_flags_ok (flags : Z) : bool :=
  flags .? (EIGRP_AUTH_BASIC_HELLO_FLAG .| EIGRP_AUTH_UPDATE_INIT_FLAG .| EIGRP_AUTH_UPDATE_FLAG).

Section covered.
Lemma length_cleared len l :
  (off_digest + len <= length l)%nat -> length (cleared len l) = length l.
Proof.
  unfold off_digest. intros H. unfold cleared, off_checksum, off_digest.
  assert (length (splice l 2 (replicate 2 0)) = length l) as E by (apply length_splice; simpl; lia).
  rewrite length_splice, E; [done|]. rewrite length_replicate, E. lia.
Qed.

(** Clearing for the check and restoring leaves the packet as it was. *)
Lemma restore_cleared len l :
  (off_digest + len <= length l)%nat ->
  splice (splice (cleared len l) off_digest (slice l off_digest len)) off_checksum (slice l off_checksum 2) = l.
Proof.
  intros H. unfold cleared. unfold off_digest, off_checksum in *.
  assert (length (splice l 2 (replicate 2 0)) = length l) as E by (apply length_splice; simpl; lia).
  assert (length (slice l 44 len) = len) as E1 by (apply length_slice; lia).
  assert (length (slice l 2 2) = 2%nat) as E2 by (apply length_slice; lia).
  rewrite splice_splice by (rewrite ?E1, ?length_replicate, ?E; lia).
  rewrite <- (splice_comm l 2 (replicate 2 0) 44 (slice l 44 len)) by (rewrite ?E1, ?length_replicate; lia).
  rewrite (splice_slice l 44) by lia.
  rewrite splice_splice by (rewrite ?E2, ?length_replicate; lia). apply splice_slice. lia.
Qed.

Lemma md5_compute_covered packet key flags :
  (length key <= 81)%nat -> Z.of_nat (length packet) <= 65535 -> (60 <= length packet)%nat ->
  eigrp_auth_md5_compute packet key flags
  = if auth_flags_ok flags then Some (Rfc1321.md5 (md5_covered packet key flags)) else None.
Proof.
  intros Hk Hp H60. unfold eigrp_auth_md5_compute, auth_flags_ok, UINT32_MAX.
  change (header_len + EIGRP_AUTH_MD5_TLV_SIZE)%nat with 60%nat.
  destruct (Nat.ltb_spec (length packet) 60); [lia|].
  destruct (Z.ltb_spec 4294967295 (Z.of_nat (length packet))); [lia|]. cbn [orb].
  destruct (flags .? _); [|done]. cbn [negb]. f_equal. unfold md5_covered.
  change (length zeropad) with 16%nat. unfold EIGRP_MD5_BASIC_COMPUTE, zeropad.
  set (tail := if negb (flags .? EIGRP_AUTH_BASIC_HELLO_FLAG) && (60 <? length packet)%nat
               then [drop 60 packet] else []).
  set (pad := if (length key <? 16)%nat then [replicate (16 - length key) 0] else []).
  assert (concat tail = if flags .? EIGRP_AUTH_BASIC_HELLO_FLAG then [] else drop 60 packet) as Et.
  { unfold tail. destruct (flags .? _); cbn [negb andb]; [done|].
    destruct (Nat.ltb_spec 60 (length packet)); cbn [concat]; [apply app_nil_r|].
    by rewrite drop_ge by lia. }
  assert (concat pad = replicate (16 - length key) 0) as Ep.
  { unfold pad. destruct (Nat.ltb_spec (length key) 16); cbn [concat]; [apply app_nil_r|].
    by replace (16 - length key)%nat with O by lia. }
  rewrite <- Et, <- Ep. rewrite <- concat_app.
  replace (take 44 packet ++ key ++ concat (pad ++ tail)) with (concat ([take 44 packet; key] ++ pad ++ tail))
    by (rewrite concat_app; cbn [concat]; by rewrite app_nil_r, <- app_assoc).
  rewrite <- md5_chunks.
  - rewrite !foldl_app. f_equal. unfold tail, pad. cbn [foldl].
    destruct (Nat.ltb_spec (length key) 16); destruct (negb _ && _); cbn [foldl];
      rewrite ?take_replicate, ?Nat.min_l by lia; done.
  - rewrite !concat_app, Et, Ep. cbn [concat]. rewrite app_nil_r, !length_app, length_take, length_replicate.
    destruct (flags .? _); rewrite ?length_drop; cbn [length]; lia.
Qed.
End covered.

(** ** The host *)

(** What the code relies on of the key chain and of [inet_ntop]: the text returned
    fits the buffer with its terminator. *)
Class AuthHost (lookup : list Z -> nat -> option (Z * list Z))
    (ntop : Z -> list Z -> nat -> option (list Z)) : Prop := {
  lookup_fits chain size id k : lookup chain size = Some (id, k) -> (length k < size)%nat /\ Forall byte k;
  ntop_fits af a size t : ntop af a size = Some t -> (length t < size)%nat /\ Forall byte t;
}.

Definition password_ok (ei : auth_intf) : Prop :=
  match auth_password ei with Some p => Forall byte p | None => True end.

Section checks.
Context (lookup : list Z -> nat -> option (Z * list Z)) (ntop : Z -> list Z -> nat -> option (list Z)).
Context `{!AuthHost lookup ntop}.
Implicit Types s : eigrp_stream.

Lemma key_get_fits ei size id k :
  password_ok ei -> eigrp_auth_key_get lookup ei size = Some (id, k) -> (length k < size)%nat /\ Forall byte k.
Proof.
  unfold eigrp_auth_key_get, password_ok. intros Hp H.
  destruct (auth_type ei =? EIGRP_AUTH_TYPE_SHA256).
  - destruct (auth_password ei) as [p|].
    + destruct (Nat.leb_spec size (length p)); [done|]. by injection H as <- <-.
    + destruct (auth_keychain ei); [|done]. by eapply lookup_fits.
  - destruct (auth_keychain ei); [|done]. by eapply lookup_fits.
Qed.

(** The key of the HMAC: a newline, the key and the address of the source. *)
Definition hmac_key_of (k source_ip : list Z) : list Z := 10 :: k ++ source_ip.

Lemma hmac_of_rfc key packet :
  Forall byte key -> Forall byte packet -> hmac_of key packet = Fips.hmac key packet.
Proof.
  intros Hk Hp. unfold hmac_of. apply hmac_final_fed; [|done|done].
  apply (hmac_update_fed _ _ []). by apply hmac_init_fed.
Qed.

Lemma slice_take l n p k : (p + k <= n)%nat -> slice (take n l) p k = slice l p k.
Proof.
  intros H. apply list_eq. intros i. rewrite !lookup_slice. case_decide; [|done].
  rewrite lookup_take. by rewrite decide_True by lia.
Qed.

Lemma take_cleared len l n :
  (off_digest + len <= n)%nat -> (n <= length l)%nat -> take n (cleared len l) = cleared len (take n l).
Proof.
  unfold off_digest. intros H1 H2. unfold cleared, off_digest, off_checksum.
  assert (length (splice l 2 (replicate 2 0)) = length l) as E by (apply length_splice; simpl; lia).
  rewrite take_splice_comm by (rewrite ?length_replicate, ?E; lia). f_equal.
  apply take_splice_comm; simpl; lia.
Qed.

Lemma cleared_bytes len l : Forall byte l -> Forall byte (cleared len l).
Proof.
  intros H. assert (forall n, Forall byte (replicate n 0)) by (intros; apply Forall_replicate; unfold byte; lia).
  by repeat apply splice_bytes.
Qed.

(** What the two checks accept. *)
Definition md5_accepts (nbr : auth_nbr) (flags : Z) (packet : list Z) : bool :=
  tlv_fields packet 40 EIGRP_AUTH_TYPE_MD5 16
  && eigrp_auth_sequence_newer (slice packet off_key_sequence 4) (crypt_seqnum nbr)
  && match eigrp_auth_key_get lookup (an_ei nbr) 82 with
     | Some (_, k) =>
         auth_flags_ok flags
         && bool_decide (slice packet off_digest 16 = Rfc1321.md5 (md5_covered (cleared 16 packet) k flags))
     | None => false
     end.

Definition sha256_accepts (nbr : auth_nbr) (packet : list Z) : bool :=
  tlv_fields packet 56 EIGRP_AUTH_TYPE_SHA256 32
  && eigrp_auth_sequence_newer (slice packet off_key_sequence 4) (crypt_seqnum nbr)
  && match eigrp_auth_key_get lookup (an_ei nbr) 82, ntop (src_afi nbr) (src_bytes nbr) 46 with
     | Some (_, k), Some ip =>
         bool_decide (slice packet off_digest 32 = Fips.hmac (hmac_key_of k ip) (cleared 32 packet))
     | _, _ => false
     end.

(** The outcome of a check: the verdict and the sequence number kept. *)
Definition verdict (nbr : auth_nbr) (packet : list Z) (ok : bool) : Z * list Z :=
  if ok then (1, slice packet off_key_sequence 4) else (0, crypt_seqnum nbr).

(** The fields read by both checks. *)
Lemma tlv_fields_negb l size a_type len :
  negb (from_be (slice l off_type 2) =? EIGRP_TLV_AUTH) || negb (from_be (slice l off_length 2) =? size)
  || negb (from_be (slice l off_auth_type 2) =? a_type) || negb (from_be (slice l off_auth_length 2) =? len)
  = negb (tlv_fields l size a_type len).
Proof. unfold tlv_fields. by rewrite !negb_andb. Qed.

Lemma tlv_fields_take l n size a_type len :
  (28 <= n)%nat -> tlv_fields (take n l) size a_type len = tlv_fields l size a_type len.
Proof.
  intros H. unfold tlv_fields, off_type, off_length, off_auth_type, off_auth_length.
  by rewrite !slice_take by lia.
Qed.

Lemma data_id s : {| s with data := data s |} = s.
Proof. by destruct s. Qed.

Lemma wp_check_md5 nbr flags s :
  stream_wf s -> password_ok (an_ei nbr) -> (60 <= endp s)%nat -> Z.of_nat (endp s) <= 65535 ->
  wp (eigrp_check_md5_digest lookup nbr flags) (fun r s' =>
    s' = s /\ r = verdict nbr (written s) (md5_accepts nbr flags (written s))) s.
Proof.
  intros [_ Hend Hb] Hpw H60 Hmax. unfold eigrp_check_md5_digest. rewrite wp_bind, wp_get.
  destruct (Nat.ltb_spec (endp s) (header_len + EIGRP_AUTH_MD5_TLV_SIZE)); [unfold header_len, EIGRP_AUTH_MD5_TLV_SIZE in *; lia|].
  destruct (Nat.ltb_spec (length (data s)) (endp s)); [lia|]. cbn [orb].
  unfold written, verdict, md5_accepts. rewrite tlv_fields_take by lia.
  change (Z.of_nat EIGRP_AUTH_MD5_TLV_SIZE) with 40. change (Z.of_nat EIGRP_AUTH_TYPE_MD5_LEN) with 16.
  change (PLAINTEXT_LENGTH + 1)%nat with 82%nat. unfold EIGRP_AUTH_TYPE_MD5_LEN.
  do 4 (apply wp_bind, wp_read_be; [unfold off_type, off_length, off_auth_type, off_auth_length; lia|]).
  rewrite tlv_fields_negb. destruct (tlv_fields (data s) 40 EIGRP_AUTH_TYPE_MD5 16); cbn [negb]; [|done].
  apply wp_bind, wp_stream_read; [unfold off_key_sequence; lia|].
  unfold off_key_sequence. rewrite slice_take by lia.
  destruct (eigrp_auth_sequence_newer _ _); cbn [negb]; [|done].
  destruct (eigrp_auth_key_get lookup (an_ei nbr) 82) as [[id k]|] eqn:Ek; [|done].
  destruct (key_get_fits _ _ _ _ Hpw Ek) as [Hk Hkb].
  unfold off_checksum, off_digest. rewrite slice_take by lia.
  assert (length (splice (data s) 2 (replicate 2 0)) = length (data s)) as E2 by (apply length_splice; simpl; lia).
  apply wp_bind, wp_stream_read; [lia|]. apply wp_bind, wp_clear_field; [lia|].
  apply wp_bind, wp_stream_read; [cbn [data]; lia|]. apply wp_bind, wp_clear_field; [cbn [data]; lia|].
  cbn [data]. rewrite slice_splice_other by (simpl; lia).
  change (splice (splice (data s) 2 (replicate 2 0)) 44 (replicate 16 0)) with (cleared 16 (data s)).
  pose proof (length_cleared 16 (data s) ltac:(unfold off_digest; lia)) as Ec.
  assert (length (slice (data s) 44 16) = 16%nat) as E16 by (apply length_slice; lia).
  assert (length (slice (data s) 2 2) = 2%nat) as E22 by (apply length_slice; lia).
  apply wp_bind, wp_stream_read; [cbn [data]; lia|].
  apply wp_bind, wp_stream_write; [cbn [data]; lia|].
  apply wp_bind, wp_stream_write; [cbn [data]; rewrite length_splice; lia|]. cbn [data].
  pose proof (restore_cleared 16 (data s) ltac:(unfold off_digest; lia)) as Er.
  unfold off_digest, off_checksum in Er. rewrite Er.
  change (slice (cleared 16 (data s)) 0 (endp s)) with (take (endp s) (cleared 16 (data s))).
  rewrite take_cleared by (unfold off_digest; lia).
  assert (length (cleared 16 (take (endp s) (data s))) = endp s) as El.
  { rewrite length_cleared; rewrite length_take; unfold off_digest; lia. }
  rewrite md5_compute_covered by (rewrite ?El; lia).
  destruct (auth_flags_ok flags); [|by split; [destruct s|]]. cbn [andb].
  case_bool_decide; by split; [destruct s|].
Qed.

Lemma wp_check_sha256 nbr s :
  stream_wf s -> password_ok (an_ei nbr) -> (76 <= endp s)%nat ->
  wp (eigrp_check_sha256_digest lookup ntop nbr) (fun r s' =>
    s' = s /\ r = verdict nbr (written s) (sha256_accepts nbr (written s))) s.
Proof.
  intros [_ Hend Hb] Hpw H76. unfold eigrp_check_sha256_digest. rewrite wp_bind, wp_get.
  destruct (Nat.ltb_spec (endp s) (header_len + EIGRP_AUTH_SHA256_TLV_SIZE)); [unfold header_len, EIGRP_AUTH_SHA256_TLV_SIZE in *; lia|].
  unfold written, verdict, sha256_accepts. rewrite tlv_fields_take by lia.
  change (Z.of_nat EIGRP_AUTH_SHA256_TLV_SIZE) with 56. change (Z.of_nat EIGRP_AUTH_TYPE_SHA256_LEN) with 32.
  change (PLAINTEXT_LENGTH + 1)%nat with 82%nat. unfold EIGRP_AUTH_TYPE_SHA256_LEN, INET6_ADDRSTRLEN.
  do 4 (apply wp_bind, wp_read_be; [unfold off_type, off_length, off_auth_type, off_auth_length; lia|]).
  rewrite tlv_fields_negb. destruct (tlv_fields (data s) 56 EIGRP_AUTH_TYPE_SHA256 32); cbn [negb]; [|done].
  apply wp_bind, wp_stream_read; [unfold off_key_sequence; lia|].
  unfold off_key_sequence. rewrite slice_take by lia.
  destruct (eigrp_auth_sequence_newer _ _); cbn [negb]; [|done]. cbn [eigrp_auth_sha256_source].
  destruct (eigrp_auth_key_get lookup (an_ei nbr) 82) as [[id k]|] eqn:Ek; [|done].
  destruct (ntop _ _ 46) as [ip|] eqn:Ei; [|done].
  destruct (key_get_fits _ _ _ _ Hpw Ek) as [Hk Hkb]. destruct (ntop_fits _ _ _ _ Ei) as [Hi Hib].
  unfold off_checksum, off_digest. rewrite slice_take by lia.
  assert (length (splice (data s) 2 (replicate 2 0)) = length (data s)) as E2 by (apply length_splice; simpl; lia).
  apply wp_bind, wp_stream_read; [lia|]. apply wp_bind, wp_clear_field; [lia|].
  apply wp_bind, wp_stream_read; [cbn [data]; lia|]. apply wp_bind, wp_clear_field; [cbn [data]; lia|].
  cbn [data]. rewrite slice_splice_other by (simpl; lia).
  change (splice (splice (data s) 2 (replicate 2 0)) 44 (replicate 32 0)) with (cleared 32 (data s)).
  pose proof (length_cleared 32 (data s) ltac:(unfold off_digest; lia)) as Ec.
  assert (length (slice (data s) 44 32) = 32%nat) as E32 by (apply length_slice; lia).
  assert (length (slice (data s) 2 2) = 2%nat) as E22 by (apply length_slice; lia).
  unfold sha256_key. rewrite (proj2 (Nat.leb_le _ _))
    by (unfold PLAINTEXT_LENGTH, INET6_ADDRSTRLEN; cbn [length]; rewrite length_app; lia).
  rewrite wp_bind, wp_ret. apply wp_bind, wp_stream_read; [cbn [data]; lia|].
  apply wp_bind, wp_stream_write; [cbn [data]; lia|].
  apply wp_bind, wp_stream_write; [cbn [data]; rewrite length_splice; lia|]. cbn [data].
  pose proof (restore_cleared 32 (data s) ltac:(unfold off_digest; lia)) as Er.
  unfold off_digest, off_checksum in Er. rewrite Er.
  change (slice (cleared 32 (data s)) 0 (endp s)) with (take (endp s) (cleared 32 (data s))).
  rewrite take_cleared by (unfold off_digest; lia). rewrite hmac_of_rfc.
  - unfold hmac_key_of. case_bool_decide; by split; [destruct s|].
  - constructor; [unfold byte; lia|]. by apply Forall_app.
  - by apply cleared_bytes, Forall_take.
Qed.
End checks.

(** ** Sequence numbers *)

Section sequences.
(** The next number is newer than the last, also when the counter wraps past zero. *)
Lemma sequence_next_newer c :
  0 <= c < 2 ^ 32 ->
  eigrp_auth_sequence_newer (to_be 4 (eigrp_auth_sequence_next c)) (to_be 4 c) = true
  /\ 0 < eigrp_auth_sequence_next c < 2 ^ 32.
Proof.
  intros Hc. unfold eigrp_auth_sequence_newer, eigrp_auth_sequence_next.
  change (2 ^ 32) with 4294967296 in *.
  assert (exists c', (if u32 (c + 1) =? 0 then u32 (u32 (c + 1) + 1) else u32 (c + 1)) = c'
            /\ 0 < c' < 4294967296 /\ (c' = c + 1 \/ (c = 4294967295 /\ c' = 1))) as (c' & -> & H1 & H2).
  { unfold u32. change (2 ^ 32) with 4294967296. destruct (Z.eq_dec c 4294967295) as [->|].
    - exists 1. split; [reflexivity|lia].
    - exists (c + 1). rewrite (Z.mod_small (c + 1)) by lia. destruct (Z.eqb_spec (c + 1) 0); lia. }
  rewrite !from_to_be by (change (256 ^ Z.of_nat 4) with 4294967296; lia).
  split; [|done]. destruct (Z.eqb_spec c' 0); [lia|]. destruct (Z.eqb_spec c 0); [done|].
  assert (u32 (c' - c) = 1 \/ u32 (c' - c) = 2) as E.
  { destruct H2 as [->|[-> ->]]; [left|right]; [unfold u32; change (2 ^ 32) with 4294967296; rewrite Z.mod_small; lia|done]. }
  by destruct E as [-> | ->].
Qed.

(** No number is newer than itself. *)
Lemma sequence_newer_irrefl w : eigrp_auth_sequence_newer w w = false.
Proof.
  unfold eigrp_auth_sequence_newer. rewrite Z.sub_diag. destruct (from_be w =? 0); done.
Qed.
End sequences.

(** ** Signing *)

Section signing.
Context (lookup : list Z -> nat -> option (Z * list Z)) (ntop : Z -> list Z -> nat -> option (list Z)).
Context `{!AuthHost lookup ntop}.
Implicit Types s : eigrp_stream.

(** A signed packet: the sequence number, the digest, then the checksum, on a packet [l]. *)
Definition stamped (l : list Z) (seq : Z) : list Z := splice l off_key_sequence (to_be 4 seq).
Definition digested (l digest : list Z) : list Z := splice (cleared (length digest) l) off_digest digest.
Definition summed (l : list Z) : list Z := splice l off_checksum (to_be 2 (eigrp_checksum l)).

Lemma slice_from_zero (l : list Z) n : slice l 0 n = take n l.
Proof. done. Qed.

Lemma wp_make_md5 ei flags s id k :
  stream_wf s -> password_ok ei -> (60 <= endp s)%nat -> Z.of_nat (endp s) <= 65535 ->
  eigrp_auth_key_get lookup ei 82 = Some (id, k) -> auth_flags_ok flags = true ->
  wp (eigrp_make_md5_digest lookup ei flags) (fun n s' =>
    n = 16%nat /\ s' = {| s with data := splice (data s) off_digest (Rfc1321.md5 (md5_covered (written s) k flags)) |}) s.
Proof.
  intros [_ Hend Hb] Hpw H60 Hmax Ek Hf. unfold eigrp_make_md5_digest. rewrite wp_bind, wp_get.
  destruct (Nat.ltb_spec (endp s) (header_len + EIGRP_AUTH_MD5_TLV_SIZE)); [unfold header_len, EIGRP_AUTH_MD5_TLV_SIZE in *; lia|].
  destruct (Nat.ltb_spec (length (data s)) (endp s)); [lia|]. cbn [orb].
  change (PLAINTEXT_LENGTH + 1)%nat with 82%nat. rewrite Ek.
  destruct (key_get_fits lookup ntop _ _ _ _ Hpw Ek) as [Hk _].
  apply wp_bind, wp_stream_read; [lia|]. rewrite slice_from_zero.
  rewrite md5_compute_covered by (rewrite ?length_take; lia). rewrite Hf.
  apply wp_bind, wp_stream_write; [rewrite length_md5; unfold off_digest; lia|]. done.
Qed.

Lemma tlv_splice l dg :
  length dg = 32%nat -> (76 <= length l)%nat ->
  splice l 20 (tlv_with_digest (slice l 20 56) dg) = splice l 44 dg.
Proof.
  intros Hd Hl. unfold tlv_with_digest, off_digest, header_len.
  assert (length (slice l 20 56) = 56%nat) as E by (apply length_slice; lia).
  change (44 - 20)%nat with 24%nat.
  assert (length (take 24 (slice l 20 56) ++ dg) = 56%nat) as E2
    by (rewrite length_app, length_take, E, Hd; lia).
  apply list_eq. intros i. rewrite !lookup_splice by (rewrite ?E2, ?Hd; lia). rewrite E2, Hd.
  destruct (decide (44 <= i < 44 + 32)%nat).
  - rewrite decide_True by lia. rewrite lookup_app_r; rewrite length_take, E; [f_equal|]; lia.
  - case_decide; [|done]. rewrite lookup_app_l by (rewrite length_take, E; lia).
    rewrite lookup_take, decide_True by lia. rewrite lookup_slice, decide_True by lia. f_equal. lia.
Qed.

Lemma length_tlv_with_digest l dg : length l = 56%nat -> length dg = 32%nat -> length (tlv_with_digest l dg) = 56%nat.
Proof. intros H1 H2. unfold tlv_with_digest. rewrite length_app, length_take, H1, H2. done. Qed.

(** The digest is computed over the packet with the digest field zero. *)
Lemma wp_make_sha256 ei s id k ip :
  stream_wf s -> password_ok ei -> grants (heap s) = [] -> (76 <= endp s)%nat ->
  eigrp_auth_key_get lookup ei 82 = Some (id, k) -> eigrp_auth_sha256_source ntop ei None 46 = Some ip ->
  wp (eigrp_make_sha256_digest lookup ntop ei) (fun n s' =>
    n = 32%nat /\ stream_wf s' /\ endp s' = endp s
    /\ data s' = splice (data s) off_digest
         (Fips.hmac (hmac_key_of k ip) (take (endp s) (splice (data s) off_digest (replicate 32 0))))) s.
Proof.
  intros W Hpw Hg H76 Ek Ei. pose proof W as [Hget Hend Hb]. unfold eigrp_make_sha256_digest.
  rewrite wp_bind, wp_get.
  destruct (Nat.ltb_spec (endp s) (header_len + EIGRP_AUTH_SHA256_TLV_SIZE)); [unfold header_len, EIGRP_AUTH_SHA256_TLV_SIZE in *; lia|].
  destruct (key_get_fits lookup ntop _ _ _ _ Hpw Ek) as [Hk Hkb].
  assert ((length ip < 46)%nat /\ Forall byte ip) as [Hi Hib] by (by eapply ntop_fits).
  change (PLAINTEXT_LENGTH + 1)%nat with 82%nat. unfold INET6_ADDRSTRLEN at 1. rewrite Ek, Ei.
  apply wp_bind, wp_allocate; [done|]. cbn [negb].
  apply wp_bind, wp_set_getp. unfold header_len. rewrite (proj2 (Nat.leb_le _ _)) by lia.
  set (s1 := {| data := data s; getp := 20; endp := endp s; heap := heap s |}).
  assert (stream_wf s1) as W1 by (split; simpl; [lia|done|done]).
  apply wp_bind, wp_stream_get; [exact W1|].
  assert (take EIGRP_AUTH_SHA256_TLV_SIZE (unread s1) = slice (data s) 20 56) as ->.
  { unfold unread, written, s1. cbn [data getp endp]. apply list_eq. intros i.
    rewrite lookup_slice, lookup_take. unfold EIGRP_AUTH_SHA256_TLV_SIZE. case_decide; [|done].
    rewrite lookup_drop, lookup_take, decide_True by lia. done. }
  apply wp_bind, wp_set_getp. cbn [advance getp endp data heap s1].
  rewrite (proj2 (Nat.leb_le _ _)) by lia.
  set (zeros := replicate EIGRP_AUTH_TYPE_SHA256_LEN 0).
  set (tlv := slice (data s) 20 56).
  assert (length tlv = 56%nat) as Htlv by (apply length_slice; lia).
  assert (length (tlv_with_digest tlv zeros) = 56%nat) as Hz by (by apply length_tlv_with_digest).
  apply wp_bind, wp_set_endp; [cbn [data]; lia|].
  apply wp_bind, wp_put_inside; [cbn [data endp]; lia|lia|]. cbn [data endp getp heap].
  pose proof (tlv_splice (data s) zeros eq_refl ltac:(lia)) as Hts. fold tlv in Hts. rewrite Hts.
  assert (length (splice (data s) 44 zeros) = length (data s)) as E1 by (apply length_splice; unfold zeros; rewrite length_replicate; unfold EIGRP_AUTH_TYPE_SHA256_LEN; lia).
  apply wp_bind, wp_set_endp; [cbn [data]; lia|]. cbn [data endp getp heap].
  unfold sha256_key. rewrite (proj2 (Nat.leb_le _ _))
    by (unfold PLAINTEXT_LENGTH, INET6_ADDRSTRLEN; cbn [length]; rewrite length_app; lia).
  rewrite wp_bind, wp_ret. apply wp_bind, wp_stream_read; [cbn [data]; lia|]. cbn [data].
  rewrite slice_from_zero, hmac_of_rfc.
  2: { constructor; [unfold byte; lia|]. by apply Forall_app. }
  2: { apply Forall_take, splice_bytes; [done|]. apply Forall_replicate. unfold byte. lia. }
  set (dg := Fips.hmac (10 :: k ++ ip) (take (endp s) (splice (data s) 44 zeros))).
  assert (length dg = 32%nat) as Hdg.
  { apply length_hmac. constructor; [unfold byte; lia|]. by apply Forall_app. }
  assert (tlv_with_digest tlv dg = tlv_with_digest (slice (splice (data s) 44 zeros) 20 56) dg) as ->.
  { unfold tlv_with_digest, off_digest, header_len. f_equal. unfold tlv. change (44 - 20)%nat with 24%nat.
    unfold slice. rewrite !take_take. change (24 `min` 56)%nat with 24%nat.
    symmetry. apply (slice_splice_other (data s) 44 zeros 20 24); unfold zeros, EIGRP_AUTH_TYPE_SHA256_LEN; rewrite length_replicate; lia. }
  assert (length (slice (splice (data s) 44 zeros) 20 56) = 56%nat) as Hs by (apply length_slice; lia).
  pose proof (length_tlv_with_digest _ dg Hs Hdg) as Hl2.
  apply wp_bind, wp_set_endp; [cbn [data]; lia|].
  apply wp_bind, wp_put_inside; [cbn [data endp]; lia|lia|]. cbn [data endp getp heap].
  rewrite tlv_splice by lia.
  apply wp_bind, wp_set_endp; [cbn [data]; rewrite length_splice; lia|].
  split; [done|]. assert (length zeros = 32%nat) as Hzl by done. split; [split; cbn [data getp endp]|split; [done|]].
  - repeat (case_match; try lia).
  - rewrite length_splice; rewrite E1; [done|lia].
  - apply splice_bytes; [apply splice_bytes; [done|]|apply sha256_bytes].
    apply Forall_replicate. unfold byte. lia.
  - cbn [data]. rewrite splice_splice; [done|lia|lia].
Qed.

(** *** The signed packet *)

Definition packet_flags (l : list Z) : Z :=
  eigrp_packet_auth_flags (from_be (slice l off_opcode 1)) (from_be (slice l off_flags 4)).

Lemma packet_flags_ok l : auth_flags_ok (packet_flags l) = true.
Proof. unfold packet_flags, eigrp_packet_auth_flags. by repeat case_match. Qed.

Lemma length_to_be_2 v : length (to_be 2 v) = 2%nat.
Proof. done. Qed.

Section signed_packet.
Context (l dg : list Z) (seq : Z).
Context (Hl : (44 + length dg <= length l)%nat) (Hb : Forall byte l) (Hdb : Forall byte dg).
Let B := stamped l seq.
Let C := cleared (length dg) B.
Let P := summed (digested B dg).

Lemma length_stamped : length B = length l.
Proof. unfold B, stamped, off_key_sequence. apply length_splice. rewrite to_be_length. lia. Qed.
Lemma length_C : length C = length l.
Proof. unfold C. rewrite length_cleared; rewrite length_stamped; [done|unfold off_digest; lia]. Qed.
Lemma length_digested : length (digested B dg) = length l.
Proof.
  unfold digested. fold C. unfold off_digest. rewrite length_splice; rewrite length_C; [done|lia].
Qed.
Lemma length_signed : length P = length l.
Proof.
  unfold P, summed, off_checksum. rewrite length_splice; rewrite length_digested; [done|].
  rewrite length_to_be_2. lia.
Qed.

(** What lies outside the fields written is that of the packet given. *)
Lemma slice_signed p n :
  (4 <= p \/ p + n <= 2)%nat -> (p + n <= 32 \/ 36 <= p)%nat -> (p + n <= 44)%nat ->
  slice P p n = slice l p n.
Proof.
  intros H1 H2 H3. unfold P, summed, digested, off_checksum, off_digest. fold C.
  rewrite slice_splice_other by (rewrite ?length_to_be_2, ?length_splice; rewrite ?length_C; lia).
  rewrite slice_splice_other by (rewrite ?length_C; lia). unfold C, cleared, off_checksum, off_digest.
  assert (length (splice B 2 (replicate 2 0)) = length l) as E
    by (rewrite length_splice; rewrite length_stamped; [done|simpl; lia]).
  rewrite slice_splice_other by (rewrite ?length_replicate, ?E; lia).
  rewrite slice_splice_other by (simpl; rewrite ?length_stamped; lia).
  unfold B, stamped, off_key_sequence. apply slice_splice_other; rewrite to_be_length; lia.
Qed.

Lemma slice_signed_sequence : slice P off_key_sequence 4 = to_be 4 seq.
Proof.
  unfold P, summed, digested, off_checksum, off_digest, off_key_sequence. fold C.
  rewrite slice_splice_other by (rewrite ?length_to_be_2, ?length_splice; rewrite ?length_C; lia).
  rewrite slice_splice_other by (rewrite ?length_C; lia). unfold C, cleared, off_checksum, off_digest.
  assert (length (splice B 2 (replicate 2 0)) = length l) as E
    by (rewrite length_splice; rewrite length_stamped; [done|simpl; lia]).
  rewrite slice_splice_other by (rewrite ?length_replicate, ?E; lia).
  rewrite slice_splice_other by (simpl; rewrite ?length_stamped; lia).
  unfold B, stamped, off_key_sequence. apply (slice_splice l 32 (to_be 4 seq)). rewrite to_be_length. lia.
Qed.

Lemma slice_signed_digest : slice P off_digest (length dg) = dg.
Proof.
  unfold P, summed, digested, off_checksum, off_digest. fold C.
  rewrite slice_splice_other by (rewrite ?length_to_be_2, ?length_splice; rewrite ?length_C; lia).
  apply slice_splice. rewrite length_C. lia.
Qed.

Lemma tlv_fields_signed size a_type len : tlv_fields P size a_type len = tlv_fields l size a_type len.
Proof.
  unfold tlv_fields, off_type, off_length, off_auth_type, off_auth_length.
  by rewrite !slice_signed by lia.
Qed.

Lemma packet_flags_signed : packet_flags P = packet_flags l.
Proof. unfold packet_flags, off_opcode, off_flags. by rewrite !slice_signed by lia. Qed.

Lemma splice_C_zero : splice C off_checksum (replicate 2 0) = C.
Proof.
  unfold C, cleared, off_checksum, off_digest.
  rewrite splice_comm; rewrite ?length_replicate, ?length_splice; rewrite ?length_stamped; try (simpl; lia).
  rewrite (splice_splice B 2) by (rewrite ?length_replicate, ?length_stamped; lia). done.
Qed.

(** The receiver clears the packet to what the sender signed. *)
Lemma cleared_signed : cleared (length dg) P = cleared (length dg) (stamped l seq).
Proof.
  change (cleared (length dg) (stamped l seq)) with C. unfold cleared at 1, P, summed, digested. fold C.
  pose proof length_C as EC. pose proof splice_C_zero as Ez. unfold off_checksum, off_digest in *.
  rewrite (splice_splice _ 2) by (rewrite ?length_splice; rewrite ?EC; simpl; lia).
  rewrite (splice_comm C 2 (replicate 2 0) 44 dg) by (rewrite ?EC; simpl; lia). rewrite Ez.
  rewrite splice_splice by (rewrite ?length_replicate, ?EC; lia).
  unfold C, cleared, off_checksum, off_digest. apply splice_splice; rewrite ?length_replicate; [done|].
  rewrite length_splice; rewrite length_stamped; simpl; lia.
Qed.

Lemma signed_bytes : Forall byte P.
Proof.
  unfold P, summed, digested. apply splice_bytes; [|apply to_be_bytes]. apply splice_bytes; [|done].
  apply cleared_bytes. unfold B, stamped. apply splice_bytes; [done|apply to_be_bytes].
Qed.

Lemma checksum_signed : Z.of_nat (length l) <= 65535 -> eigrp_checksum P = 0.
Proof.
  intros Hmax. unfold P, summed. set (X := digested B dg). pose proof length_digested as HX. fold X in HX.
  assert (Forall byte X) as Xb.
  { unfold X, digested. apply splice_bytes; [|done]. apply cleared_bytes. unfold B, stamped.
    apply splice_bytes; [done|apply to_be_bytes]. }
  assert (splice X 2 [0; 0] = X) as Ez.
  { unfold X, digested. fold C. unfold off_digest.
    rewrite splice_comm by (rewrite ?length_C; simpl; lia). f_equal. apply splice_C_zero. }
  assert (X = take 2 X ++ [0; 0] ++ drop 4 X) as E by (rewrite <- Ez at 1; done).
  unfold splice, off_checksum. rewrite length_to_be_2. change (2 + 2)%nat with 4%nat.
  rewrite E at 2. apply checksum_filled; [by apply Forall_take|by apply Forall_drop| |].
  - rewrite length_take, HX. exists 1%nat. lia.
  - rewrite length_take, length_drop, HX. lia.
Qed.
End signed_packet.
End signing.

(** ** The whole signature *)

Definition digest_len (a_type : Z) : nat := if a_type =? EIGRP_AUTH_TYPE_SHA256 then 32 else 16.

(** The digest of a packet [l] under a key and, for SHA-256, the text of the source. *)
Definition signature (a_type : Z) (k ip l : list Z) : list Z :=
  if a_type =? EIGRP_AUTH_TYPE_SHA256 then Fips.hmac (hmac_key_of k ip) (cleared 32 l)
  else Rfc1321.md5 (md5_covered (cleared 16 l) k (packet_flags l)).

Definition signed (a_type : Z) (k ip l : list Z) (seq : Z) : list Z :=
  summed (digested (stamped l seq) (signature a_type k ip (stamped l seq))).

(** A packet with the placeholder the encoders leave. *)
Definition signable (a_type : Z) (l : list Z) : Prop :=
  (a_type = EIGRP_AUTH_TYPE_MD5 \/ a_type = EIGRP_AUTH_TYPE_SHA256)
  /\ (44 + digest_len a_type <= length l)%nat /\ Z.of_nat (length l) <= 65535 /\ Forall byte l
  /\ tlv_fields l (24 + Z.of_nat (digest_len a_type)) a_type (Z.of_nat (digest_len a_type)) = true.

Section finalize.
Context (lookup : list Z -> nat -> option (Z * list Z)) (ntop : Z -> list Z -> nat -> option (list Z)).
Context `{!AuthHost lookup ntop}.
Implicit Types s : eigrp_stream.

Lemma length_signature a_type k ip l :
  Forall byte k -> Forall byte ip -> length (signature a_type k ip l) = digest_len a_type.
Proof.
  intros Hk Hi. unfold signature, digest_len. destruct (a_type =? _); [|apply length_md5].
  apply length_hmac. constructor; [unfold byte; lia|]. by apply Forall_app.
Qed.
Lemma signature_bytes a_type k ip l : Forall byte (signature a_type k ip l).
Proof. unfold signature. destruct (a_type =? _); [apply sha256_bytes|apply md5_bytes]. Qed.

Lemma slice_data_written s p n :
  stream_wf s -> (p + n <= endp s)%nat -> slice (data s) p n = slice (written s) p n.
Proof. intros _ H. unfold written. by rewrite slice_take. Qed.

Lemma wp_checksum_fill s n :
  stream_wf s -> endp s = n -> (4 <= n)%nat ->
  wp (checksum_fill n) (fun _ s' => stream_wf s' /\ endp s' = n /\ written s' = summed (written s)) s.
Proof.
  intros [Hg He Hb] <- Hn. unfold checksum_fill. apply wp_bind, wp_stream_read; [lia|].
  apply wp_stream_write; [rewrite length_to_be_2; unfold off_checksum; lia|].
  split; [|split; [done|]].
  - split; cbn [data getp endp]; [done| |apply splice_bytes; [done|apply to_be_bytes]].
    rewrite length_splice; rewrite ?length_to_be_2; unfold off_checksum; lia.
  - unfold written, summed. cbn [data endp]. rewrite slice_from_zero.
    apply take_splice_comm; rewrite ?length_to_be_2; unfold off_checksum; lia.
Qed.

(** Writing into the packet, in terms of the packet. *)
Lemma written_splice s p src :
  stream_wf s -> (p + length src <= endp s)%nat -> Forall byte src ->
  let s' := {| s with data := splice (data s) p src |} in
  stream_wf s' /\ written s' = splice (written s) p src.
Proof.
  intros [Hg He Hb] Hp Hs. split; [split; cbn [data getp endp]; [done| |by apply splice_bytes]|].
  - rewrite length_splice; lia.
  - unfold written. cbn [data endp]. apply take_splice_comm; lia.
Qed.

(** Where finalize stands when it asks for the digest. *)
Lemma prepared s seq len :
  stream_wf s -> (44 + len <= endp s)%nat ->
  let d := cleared len (stamped (data s) seq) in
  let s' := {| s with data := d |} in
  stream_wf s' /\ written s' = cleared len (stamped (written s) seq)
  /\ (forall p n, (4 <= p \/ p + n <= 2)%nat -> (p + n <= 32)%nat ->
        slice (splice (stamped (data s) seq) off_checksum (replicate 2 0)) p n = slice (written s) p n).
Proof.
  intros W Hlen. pose proof W as [Hg He Hb]. unfold cleared, stamped.
  assert (forall n, Forall byte (replicate n 0)) as Hz by (intros; apply Forall_replicate; unfold byte; lia).
  unfold off_key_sequence, off_checksum, off_digest.
  destruct (written_splice s 32 (to_be 4 seq) W ltac:(rewrite to_be_length; lia) (to_be_bytes _ _)) as [W1 E1].
  destruct (written_splice _ 2 (replicate 2 0) W1 ltac:(simpl; lia) (Hz 2%nat)) as [W2 E2].
  destruct (written_splice _ 44 (replicate len 0) W2 ltac:(rewrite length_replicate; simpl; lia) (Hz len)) as [W3 E3].
  split; [exact W3|]. split; [by rewrite <- E1, <- E2|].
  intros p n H1 H2.
  assert (length (splice (data s) 32 (to_be 4 seq)) = length (data s)) as E
    by (apply length_splice; rewrite to_be_length; lia).
  rewrite slice_splice_other by (rewrite ?length_replicate, ?E; lia).
  rewrite slice_splice_other by (rewrite ?to_be_length; lia). apply slice_data_written; [done|lia].
Qed.

Lemma tlv_fields_sent l size a_type len :
  tlv_fields l size a_type len = true ->
  negb (from_be (slice l off_type 2) =? EIGRP_TLV_AUTH) || negb (from_be (slice l off_length 2) =? size)
  || negb (from_be (slice l off_auth_type 2) =? a_type) = false.
Proof. unfold tlv_fields. intros H. by destruct (_ =? _), (_ =? _), (_ =? _). Qed.

Lemma packet_flags_cleared l seq len :
  (44 + len <= length l)%nat -> packet_flags (stamped l seq) = packet_flags l.
Proof.
  intros H. unfold packet_flags, stamped, off_opcode, off_flags, off_key_sequence.
  rewrite !slice_splice_other by (rewrite ?to_be_length; lia). done.
Qed.

Lemma length_stamped_cleared l seq :
  (36 <= length l)%nat -> length (splice (stamped l seq) off_checksum (replicate 2 0)) = length l.
Proof.
  intros H. unfold stamped, off_key_sequence, off_checksum.
  assert (length (splice l 32 (to_be 4 seq)) = length l) as E by (apply length_splice; rewrite to_be_length; lia).
  rewrite length_splice; rewrite E; [done|]. rewrite length_replicate. lia.
Qed.

(** The packet when the digest is asked for, its digest field not yet cleared. *)
Definition stamped_stream (s : eigrp_stream) (seq : Z) : eigrp_stream :=
  {| s with data := splice (stamped (data s) seq) off_checksum (replicate 2 0) |}.

(** Up to the digest. *)
Lemma wp_finalize_prefix ei seq s id k Q :
  stream_wf s -> signable (auth_type ei) (written s) ->
  eigrp_auth_key_get lookup ei 82 = Some (id, k) ->
  (let seq' := eigrp_auth_sequence_next seq in
   wp (success ←
        (if auth_type ei =? EIGRP_AUTH_TYPE_MD5 then
           clear_field off_digest EIGRP_AUTH_TYPE_MD5_LEN;;
           n ← eigrp_make_md5_digest lookup ei (packet_flags (written s));
           mret (n =? EIGRP_AUTH_TYPE_MD5_LEN)%nat
         else
           clear_field off_digest EIGRP_AUTH_TYPE_SHA256_LEN;;
           n ← eigrp_make_sha256_digest lookup ntop ei;
           mret (n =? EIGRP_AUTH_TYPE_SHA256_LEN)%nat);
      if (success : bool) then checksum_fill (endp s);; mret (true, seq') else mret (false, seq')) Q
     (stamped_stream s seq')) ->
  wp (eigrp_auth_transmit_finalize lookup ntop ei seq (endp s)) Q s.
Proof.
  intros W (Ht & Hlen & Hmax & Hb & Hf) Ek HQ. pose proof W as [_ Hend _].
  assert (length (written s) = endp s) as HL by (unfold written; rewrite length_take; lia). rewrite HL in Hlen.
  unfold eigrp_auth_transmit_finalize. rewrite wp_bind, wp_get.
  destruct (Nat.ltb_spec (endp s) header_len); [unfold header_len in *; lia|].
  rewrite Nat.eqb_refl. destruct (Nat.ltb_spec (length (data s)) (endp s)); [lia|]. cbn [negb orb].
  change (PLAINTEXT_LENGTH + 1)%nat with 82%nat. rewrite Ek.
  replace (auth_type ei =? EIGRP_AUTH_TYPE_NONE) with false by (by destruct Ht as [-> | ->]).
  replace (if auth_type ei =? EIGRP_AUTH_TYPE_MD5 then Some EIGRP_AUTH_MD5_TLV_SIZE
           else if auth_type ei =? EIGRP_AUTH_TYPE_SHA256 then Some EIGRP_AUTH_SHA256_TLV_SIZE else None)
    with (Some (24 + digest_len (auth_type ei))%nat) by (by destruct Ht as [-> | ->]).
  destruct (Nat.ltb_spec (endp s) (header_len + (24 + digest_len (auth_type ei)))); [unfold header_len in *; lia|].
  do 3 (apply wp_bind, wp_read_be; [unfold off_type, off_length, off_auth_type; lia|]).
  rewrite !(slice_data_written s) by (done || unfold off_type, off_length, off_auth_type; lia).
  rewrite Nat2Z.inj_add. change (Z.of_nat 24) with 24. rewrite (tlv_fields_sent _ _ _ _ Hf).
  apply wp_bind, wp_stream_write; [rewrite to_be_length; unfold off_key_sequence; lia|].
  pose proof (length_stamped_cleared (data s) (eigrp_auth_sequence_next seq) ltac:(lia)) as E2.
  apply wp_bind, wp_clear_field.
  { cbn [data]. unfold off_checksum, off_key_sequence. rewrite length_splice; rewrite ?to_be_length; lia. }
  do 2 (apply wp_bind, wp_read_be; [cbn [data]; fold (stamped (data s) (eigrp_auth_sequence_next seq)); rewrite E2; unfold off_opcode, off_flags; lia|]).
  cbn [data]. fold (stamped (data s) (eigrp_auth_sequence_next seq)).
  destruct (prepared s (eigrp_auth_sequence_next seq) _ W Hlen) as (_ & _ & Hsm).
  rewrite !Hsm by (unfold off_opcode, off_flags; lia). exact HQ.
Qed.

Lemma wp_finalize ei seq s id k ip :
  stream_wf s -> grants (heap s) = [] -> password_ok ei -> signable (auth_type ei) (written s) ->
  eigrp_auth_key_get lookup ei 82 = Some (id, k) -> Forall byte ip ->
  (auth_type ei = EIGRP_AUTH_TYPE_SHA256 -> eigrp_auth_sha256_source ntop ei None 46 = Some ip) ->
  wp (eigrp_auth_transmit_finalize lookup ntop ei seq (endp s)) (fun r s' =>
    r = (true, eigrp_auth_sequence_next seq) /\ stream_wf s' /\ endp s' = endp s
    /\ written s' = signed (auth_type ei) k ip (written s) (eigrp_auth_sequence_next seq)) s.
Proof.
  intros W Hg Hpw Hsg Ek Hip Hsrc. eapply wp_finalize_prefix; [done|done|exact Ek|]. cbv zeta.
  destruct Hsg as (Ht & Hlen & Hmax & Hb & Hf). pose proof W as [_ Hend _].
  assert (length (written s) = endp s) as HL by (unfold written; rewrite length_take; lia). rewrite HL in Hlen, Hmax.
  set (seq' := eigrp_auth_sequence_next seq).
  destruct (prepared s seq' _ W Hlen) as (W3 & E3 & _).
  pose proof (length_stamped_cleared (data s) seq' ltac:(lia)) as E2.
  destruct (key_get_fits lookup ntop _ _ _ _ Hpw Ek) as [Hk Hkb].
  pose proof (length_signature (auth_type ei) k ip (stamped (written s) seq') Hkb Hip) as Hsig.
  set (sg := signature (auth_type ei) k ip (stamped (written s) seq')) in *.
  assert (forall s4, stream_wf s4 -> endp s4 = endp s -> written s4 = digested (stamped (written s) seq') sg ->
    wp (checksum_fill (endp s);; mret (true, seq')) (fun r s' =>
      r = (true, seq') /\ stream_wf s' /\ endp s' = endp s
      /\ written s' = signed (auth_type ei) k ip (written s) seq') s4) as Htail.
  { intros s4 W4 He4 Hw4. apply wp_bind. eapply wp_mono; [apply wp_checksum_fill; [done|exact He4|lia]|].
    intros [] s5 (W5 & He5 & Hw5). rewrite wp_ret. by rewrite Hw5, Hw4. }
  assert (36 <= length (written s))%nat as H36 by lia.
  destruct Ht as [Ht|Ht].
  - assert (digest_len (auth_type ei) = 16%nat) as Hd by (by rewrite Ht). rewrite Hd in *.
    assert (sg = Rfc1321.md5 (md5_covered (cleared 16 (stamped (written s) seq')) k (packet_flags (written s)))) as Esg.
    { unfold sg, signature. rewrite Ht. change (EIGRP_AUTH_TYPE_MD5 =? EIGRP_AUTH_TYPE_SHA256) with false. cbv iota. by rewrite (packet_flags_cleared _ _ 16) by lia. }
    replace (auth_type ei =? EIGRP_AUTH_TYPE_MD5) with true by (by rewrite Ht). rewrite !wp_bind.
    apply wp_clear_field; [unfold stamped_stream; cbn [data]; rewrite E2; unfold off_digest, EIGRP_AUTH_TYPE_MD5_LEN; lia|].
    match goal with |- wp ?m ?Q _ => change (wp m Q {| data := cleared 16 (stamped (data s) seq');
      getp := getp s; endp := endp s; heap := heap s |}) end.
    apply wp_bind. eapply wp_mono; [apply (wp_make_md5 lookup ntop ei _ _ id k W3 Hpw); [cbn [endp]; lia|done|done|apply packet_flags_ok]|].
    intros n s4 [-> ->]. rewrite wp_ret. cbn [Nat.eqb EIGRP_AUTH_TYPE_MD5_LEN]. rewrite E3, <- Esg.
    destruct (written_splice _ off_digest sg W3) as [W4 E4];
      [cbn [endp]; rewrite Hsig; unfold off_digest; lia|apply signature_bytes|].
    apply Htail; [exact W4|done|]. unfold digested. rewrite Hsig, <- E3. exact E4.
  - assert (digest_len (auth_type ei) = 32%nat) as Hd by (by rewrite Ht). rewrite Hd in *.
    assert (sg = Fips.hmac (hmac_key_of k ip) (cleared 32 (stamped (written s) seq'))) as Esg
      by (unfold sg, signature; by rewrite Ht).
    replace (auth_type ei =? EIGRP_AUTH_TYPE_MD5) with false by (by rewrite Ht). rewrite !wp_bind.
    apply wp_clear_field; [unfold stamped_stream; cbn [data]; rewrite E2; unfold off_digest, EIGRP_AUTH_TYPE_SHA256_LEN; lia|].
    match goal with |- wp ?m ?Q _ => change (wp m Q {| data := cleared 32 (stamped (data s) seq');
      getp := getp s; endp := endp s; heap := heap s |}) end.
    apply wp_bind. eapply wp_mono; [apply (wp_make_sha256 lookup ntop ei _ id k ip W3 Hpw); [done|cbn [endp]; lia|done|by apply Hsrc]|].
    intros n s4 (-> & W4 & He4 & Hd4). rewrite wp_ret. cbn [Nat.eqb EIGRP_AUTH_TYPE_SHA256_LEN].
    cbn [data endp] in Hd4, He4. apply Htail; [exact W4|exact He4|].
    pose proof (splice_splice (splice (stamped (data s) seq') off_checksum (replicate 2 0)) off_digest
      (replicate 32 0) (replicate 32 0) eq_refl ltac:(rewrite E2, length_replicate; unfold off_digest; lia)) as Ez.
    change (splice (splice (stamped (data s) seq') off_checksum (replicate 2 0)) off_digest (replicate 32 0))
      with (cleared 32 (stamped (data s) seq')) in Ez. rewrite Ez in Hd4.
    change (take (endp s) (cleared 32 (stamped (data s) seq'))) with (written
      {| data := cleared 32 (stamped (data s) seq'); getp := getp s; endp := endp s; heap := heap s |}) in Hd4.
    rewrite E3, <- Esg in Hd4.
    destruct (written_splice _ off_digest sg W3) as [_ E4];
      [cbn [endp]; rewrite Hsig; unfold off_digest; lia|apply signature_bytes|].
    unfold digested. rewrite Hsig, <- E3, <- E4. unfold written. by rewrite He4, Hd4.
Qed.
End finalize.

(** ** Theorems *)

(** A packet [l] is genuine for a neighbor: complete, with the constant fields of the
    authentication TLV, a newer sequence number, and the digest its key gives. *)
Record genuine (lookup : list Z -> nat -> option (Z * list Z)) (ntop : Z -> list Z -> nat -> option (list Z))
    (nbr : auth_nbr) (l : list Z) : Prop := {
  gn_length : (44 + digest_len (auth_type (an_ei nbr)) <= length l)%nat;
  gn_fields : tlv_fields l (24 + Z.of_nat (digest_len (auth_type (an_ei nbr)))) (auth_type (an_ei nbr))
                (Z.of_nat (digest_len (auth_type (an_ei nbr)))) = true;
  gn_newer : eigrp_auth_sequence_newer (slice l off_key_sequence 4) (crypt_seqnum nbr) = true;
  gn_digest : exists id k ip, eigrp_auth_key_get lookup (an_ei nbr) 82%nat = Some (id, k)
    /\ (auth_type (an_ei nbr) = EIGRP_AUTH_TYPE_SHA256 -> ntop (src_afi nbr) (src_bytes nbr) 46%nat = Some ip)
    /\ slice l off_digest (digest_len (auth_type (an_ei nbr))) = signature (auth_type (an_ei nbr)) k ip l;
}.

Section theorems.
Context (lookup : list Z -> nat -> option (Z * list Z)) (ntop : Z -> list Z -> nat -> option (list Z)).
Context `{!AuthHost lookup ntop}.
Implicit Types s : eigrp_stream.

Lemma md5_genuine nbr l :
  auth_type (an_ei nbr) = EIGRP_AUTH_TYPE_MD5 -> (60 <= length l)%nat ->
  md5_accepts lookup nbr (packet_flags l) l = true <-> genuine lookup ntop nbr l.
Proof.
  intros Ht Hl. unfold md5_accepts. rewrite packet_flags_ok, !andb_true_iff. split.
  - intros [[Hf Hn] Hd]. split; rewrite ?Ht; [exact Hl|exact Hf|exact Hn|].
    destruct (eigrp_auth_key_get lookup (an_ei nbr) 82%nat) as [[id k]|]; [|done].
    exists id, k, []. split; [done|]. split; [done|]. apply bool_decide_eq_true in Hd. exact Hd.
  - intros [_ Hf Hn (id & k & ip & Ek & _ & Hd)]. rewrite Ht in Hf, Hd. split; [by split|].
    rewrite Ek. cbn [andb]. apply bool_decide_eq_true. exact Hd.
Qed.

Lemma sha256_genuine nbr l :
  auth_type (an_ei nbr) = EIGRP_AUTH_TYPE_SHA256 -> (76 <= length l)%nat ->
  sha256_accepts lookup ntop nbr l = true <-> genuine lookup ntop nbr l.
Proof.
  intros Ht Hl. unfold sha256_accepts. rewrite !andb_true_iff. split.
  - intros [[Hf Hn] Hd]. split; rewrite ?Ht; [exact Hl|exact Hf|exact Hn|].
    destruct (eigrp_auth_key_get lookup (an_ei nbr) 82%nat) as [[id k]|]; [|done].
    destruct (ntop _ _ _) as [ip|]; [|done].
    exists id, k, ip. split; [done|]. split; [done|]. apply bool_decide_eq_true in Hd. exact Hd.
  - intros [_ Hf Hn (id & k & ip & Ek & Ei & Hd)]. rewrite Ht in Hf, Hd. split; [by split|].
    rewrite Ek, (Ei Ht). apply bool_decide_eq_true. exact Hd.
Qed.

(** The check decides whether the packet is genuine, and leaves the packet as it was. *)
Lemma wp_digest_check nbr s :
  stream_wf s -> password_ok (an_ei nbr) -> Z.of_nat (endp s) <= 65535 ->
  auth_type (an_ei nbr) = EIGRP_AUTH_TYPE_MD5 \/ auth_type (an_ei nbr) = EIGRP_AUTH_TYPE_SHA256 ->
  wp (digest_check lookup ntop nbr (packet_flags (written s))) (fun r s' =>
    s' = s /\ ((r = (1, slice (written s) off_key_sequence 4) /\ genuine lookup ntop nbr (written s))
               \/ (r = (0, crypt_seqnum nbr) /\ ~ genuine lookup ntop nbr (written s)))) s.
Proof.
  intros W Hpw Hmax Ht. pose proof W as [_ Hend _].
  assert (length (written s) = endp s) as HL by (unfold written; rewrite length_take; lia).
  assert (forall b, (b = true <-> genuine lookup ntop nbr (written s)) -> forall r, r = verdict nbr (written s) b ->
    (r = (1, slice (written s) off_key_sequence 4) /\ genuine lookup ntop nbr (written s))
    \/ (r = (0, crypt_seqnum nbr) /\ ~ genuine lookup ntop nbr (written s))) as Hv.
  { intros [] Hb r ->; [left; tauto|right; split; [done|intros H%Hb; done]]. }
  unfold digest_check. destruct Ht as [Ht|Ht].
  - replace (auth_type (an_ei nbr) =? EIGRP_AUTH_TYPE_SHA256) with false by (by rewrite Ht).
    destruct (le_lt_dec 60 (endp s)) as [Hlen|Hlen].
    + eapply wp_mono; [by apply (wp_check_md5 lookup ntop)|]. intros r s' [-> Hr]. split; [done|].
      eapply Hv; [|exact Hr]. apply md5_genuine; [done|lia].
    + unfold eigrp_check_md5_digest. rewrite wp_bind, wp_get.
      destruct (Nat.ltb_spec (endp s) (header_len + EIGRP_AUTH_MD5_TLV_SIZE)); [|unfold header_len, EIGRP_AUTH_MD5_TLV_SIZE in *; lia].
      split; [done|]. right. split; [done|]. intros [Hg _ _ _]. rewrite Ht, HL in Hg. change (44 + digest_len EIGRP_AUTH_TYPE_MD5)%nat with 60%nat in Hg. lia.
  - replace (auth_type (an_ei nbr) =? EIGRP_AUTH_TYPE_SHA256) with true by (by rewrite Ht).
    destruct (le_lt_dec 76 (endp s)) as [Hlen|Hlen].
    + eapply wp_mono; [by apply (wp_check_sha256 lookup ntop)|]. intros r s' [-> Hr]. split; [done|].
      eapply Hv; [|exact Hr]. apply sha256_genuine; [done|lia].
    + unfold eigrp_check_sha256_digest. rewrite wp_bind, wp_get.
      destruct (Nat.ltb_spec (endp s) (header_len + EIGRP_AUTH_SHA256_TLV_SIZE)); [|unfold header_len, EIGRP_AUTH_SHA256_TLV_SIZE in *; lia].
      split; [done|]. right. split; [done|]. intros [Hg _ _ _]. rewrite Ht, HL in Hg. change (44 + digest_len EIGRP_AUTH_TYPE_SHA256)%nat with 76%nat in Hg. lia.
Qed.

(** A signed packet is genuine for a neighbor record with the key of the sender. *)
Lemma signed_genuine nbr l seq id k ip :
  signable (auth_type (an_ei nbr)) l -> Forall byte k -> Forall byte ip ->
  eigrp_auth_key_get lookup (an_ei nbr) 82%nat = Some (id, k) ->
  (auth_type (an_ei nbr) = EIGRP_AUTH_TYPE_SHA256 -> ntop (src_afi nbr) (src_bytes nbr) 46%nat = Some ip) ->
  eigrp_auth_sequence_newer (to_be 4 seq) (crypt_seqnum nbr) = true ->
  genuine lookup ntop nbr (signed (auth_type (an_ei nbr)) k ip l seq).
Proof.
  intros (Ht & Hlen & Hmax & Hb & Hf) Hk Hip Ek Hsrc Hnew. unfold signed.
  set (a := auth_type (an_ei nbr)) in *. set (sg := signature a k ip (stamped l seq)).
  pose proof (length_signature a k ip (stamped l seq) Hk Hip) as Hsig. fold sg in Hsig.
  assert (44 + length sg <= length l)%nat as Hl by lia.
  split; fold a.
  - by rewrite length_signed.
  - by rewrite tlv_fields_signed.
  - by rewrite slice_signed_sequence.
  - exists id, k, ip. split; [done|]. split; [done|]. rewrite <- Hsig, slice_signed_digest by done.
    pose proof (packet_flags_signed l sg seq Hl) as Ef. pose proof (cleared_signed l sg seq Hl) as Ec.
    rewrite <- (packet_flags_cleared l seq (length sg)) in Ef by lia. rewrite Hsig in Ec.
    unfold digest_len in Ec. revert Ec Ef. generalize (summed (digested (stamped l seq) sg)). intros P Ec Ef.
    unfold sg, signature. destruct (a =? EIGRP_AUTH_TYPE_SHA256); by rewrite ?Ec, ?Ef.
Qed.

(** C31: what authentication accepts.  On any packet of at most 65535 bytes the digest
    check accepts exactly the genuine ones: complete, with the constant TLV fields, a
    sequence number newer than the last accepted in serial arithmetic, and the MD5 or
    HMAC-SHA-256 digest, under the neighbor's key, of the packet with its checksum and
    digest zero.  The neighbor's sequence number advances only on acceptance, and the
    packet is left byte for byte as it was received. *)
Theorem auth_check_exact nbr s :
  stream_wf s -> password_ok (an_ei nbr) -> Z.of_nat (endp s) <= 65535 ->
  auth_type (an_ei nbr) = EIGRP_AUTH_TYPE_MD5 \/ auth_type (an_ei nbr) = EIGRP_AUTH_TYPE_SHA256 ->
  wp (digest_check lookup ntop nbr (packet_flags (written s))) (fun r s' =>
    s' = s /\ ((r = (1, slice (written s) off_key_sequence 4) /\ genuine lookup ntop nbr (written s))
               \/ (r = (0, crypt_seqnum nbr) /\ ~ genuine lookup ntop nbr (written s)))) s.
Proof. apply wp_digest_check. Qed.

(** C32: a signed packet is accepted once.  Signing a packet that carries the
    placeholder TLV succeeds, advances the interface's sequence number, and gives a
    packet whose checksum verifies; a neighbor record with the same key (and, for
    SHA-256, the same text of the source address) whose last sequence number is the
    sender's previous one, or any older one, accepts it, also when the counter wraps;
    the same packet a second time is refused. *)
Theorem auth_signed_accepted_once ei seq s id k ip :
  stream_wf s -> grants (heap s) = [] -> password_ok ei -> signable (auth_type ei) (written s) ->
  0 <= seq < 2 ^ 32 -> eigrp_auth_key_get lookup ei 82 = Some (id, k) -> Forall byte ip ->
  (auth_type ei = EIGRP_AUTH_TYPE_SHA256 -> eigrp_auth_sha256_source ntop ei None 46 = Some ip) ->
  wp (eigrp_auth_transmit_finalize lookup ntop ei seq (endp s)) (fun r s' =>
    r = (true, eigrp_auth_sequence_next seq) /\ eigrp_checksum (written s') = 0
    /\ forall nbr, password_ok (an_ei nbr) -> auth_type (an_ei nbr) = auth_type ei ->
       (exists id', eigrp_auth_key_get lookup (an_ei nbr) 82 = Some (id', k)) ->
       (auth_type ei = EIGRP_AUTH_TYPE_SHA256 -> ntop (src_afi nbr) (src_bytes nbr) 46%nat = Some ip) ->
       crypt_seqnum nbr = to_be 4 seq
       \/ eigrp_auth_sequence_newer (to_be 4 (eigrp_auth_sequence_next seq)) (crypt_seqnum nbr) = true ->
       wp (digest_check lookup ntop nbr (packet_flags (written s'))) (fun r2 s2 =>
         r2 = (1, to_be 4 (eigrp_auth_sequence_next seq)) /\ s2 = s'
         /\ wp (digest_check lookup ntop {| nbr with crypt_seqnum := r2.2 |} (packet_flags (written s2)))
              (fun r3 _ => r3.1 = 0) s2) s') s.
Proof.
  intros W Hg Hpw Hs Hseq Ek Hip Hsrc. pose proof W as [_ Hend _].
  assert (length (written s) = endp s) as HL by (unfold written; rewrite length_take; lia).
  destruct (key_get_fits lookup ntop _ _ _ _ Hpw Ek) as [_ Hkb].
  destruct (sequence_next_newer seq Hseq) as [Hnew Hrange].
  eapply wp_mono; [by apply (wp_finalize lookup ntop ei seq s id k ip)|]. intros r s' (-> & W' & He & Hw). split; [done|].
  destruct (Hs) as (Ht & Hlen & Hmax & Hb & _). rewrite HL in Hmax.
  assert (44 + length (signature (auth_type ei) k ip (stamped (written s) (eigrp_auth_sequence_next seq)))
          <= length (written s))%nat as Hfit by (by rewrite length_signature).
  assert (slice (written s') off_key_sequence 4 = to_be 4 (eigrp_auth_sequence_next seq)) as Hsl
    by (rewrite Hw; by apply slice_signed_sequence).
  split; [rewrite Hw; apply checksum_signed; [done|done|apply signature_bytes|lia]|].
  intros nbr Hp2 Ha (id' & Ek2) Hsrc2 Hold.
  assert (genuine lookup ntop nbr (written s')) as Hgen.
  { rewrite Hw, <- Ha. rewrite <- Ha in Hs, Hsrc2. eapply signed_genuine; eauto.
    destruct Hold as [-> | ]; done. }
  rewrite <- Ha in Ht.
  eapply wp_mono; [apply wp_digest_check; [done|done|lia|exact Ht]|].
  intros r2 s2 [-> [[-> _]|[_ Hn]]]; [|done]. rewrite Hsl. split; [done|]. split; [done|].
  eapply wp_mono; [apply wp_digest_check; [done|done|lia|exact Ht]|].
  intros r3 s3 [_ [[_ G3]|[-> _]]]; [|done].
  pose proof (gn_newer _ _ _ _ G3) as Hirr. cbn [crypt_seqnum snd] in Hirr.
  by rewrite Hsl, sequence_newer_irrefl in Hirr.
Qed.
End theorems.

(** C30: the digests are the standard ones.  Whatever way a message is cut into
    updates, and whatever the contexts held before, the SHA-256 context yields FIPS
    180-4's digest, the HMAC context RFC 2104's for a key of any length, and the MD5
    context RFC 1321's for messages below 2^29 bytes (the bit length of an update is
    an [unsigned int] there): the rotating working array, the bit count split in two
    words, the block buffers and both ways of padding implement the standards, which
    [Fips] and [Rfc1321] state with functions, rotations, constants and initial values of
    their own. *)
Theorem digests_conform ctx hctx K chunks :
  length (sha_buf ctx) = 64%nat -> buffers_ok hctx ->
  Forall byte K -> Forall byte (concat chunks) -> Z.of_nat (length (concat chunks)) < 2 ^ 29 ->
  (eigrp_sha256_final (foldl eigrp_sha256_update (eigrp_sha256_init ctx) chunks)).1 = Fips.sha256 (concat chunks)
  /\ (eigrp_hmac_sha256_final (foldl eigrp_hmac_sha256_update (eigrp_hmac_sha256_init hctx K) chunks)).1
     = Fips.hmac K (concat chunks)
  /\ eigrp_md5_final (foldl eigrp_md5_update eigrp_md5_init chunks) = Rfc1321.md5 (concat chunks).
Proof.
  intros Hc [Hi Ho] HK Hb Hl. split; [by apply sha256_streaming|].
  split; [by apply hmac_sha256_rfc2104|by apply md5_chunks].
Qed.

Lemma digests_conform_witness :
  let zero := sha256_wiped in
  let chunks := [[97]; [98; 99]; replicate 59 7] in
  (eigrp_sha256_final (foldl eigrp_sha256_update (eigrp_sha256_init zero) chunks)).1 = Fips.sha256 (concat chunks)
  /\ (eigrp_hmac_sha256_final (foldl eigrp_hmac_sha256_update
       (eigrp_hmac_sha256_init {| ictx := zero; octx := zero |} (replicate 70 170)) chunks)).1
     = Fips.hmac (replicate 70 170) (concat chunks)
  /\ eigrp_md5_final (foldl eigrp_md5_update eigrp_md5_init chunks) = Rfc1321.md5 (concat chunks).
Proof.
  apply (digests_conform sha256_wiped {| ictx := sha256_wiped; octx := sha256_wiped |} (replicate 70 170)
           [[97]; [98; 99]; replicate 59 7]).
  - reflexivity.
  - split; reflexivity.
  - apply Forall_replicate. vm_compute. split; congruence.
  - repeat constructor; vm_compute; congruence.
  - vm_compute. reflexivity.
Defined.

(** ** A concrete key, packet and neighbor *)

Definition ex_lookup (chain : list Z) (size : nat) : option (Z * list Z) :=
  if (4 <? size)%nat then Some (7, [107; 101; 121; 49]) else None.
(** "10.0.0.1" *)
Definition ex_ntop (af : Z) (a : list Z) (size : nat) : option (list Z) :=
  if (8 <? size)%nat then Some [49; 48; 46; 48; 46; 48; 46; 49] else None.

#[export] Instance ex_host : AuthHost ex_lookup ex_ntop.
Proof.
  split.
  - intros chain size id k. unfold ex_lookup. destruct (Nat.ltb_spec 4 size); [|done].
    intros [= <- <-]. split; [done|]. repeat constructor; vm_compute; congruence.
  - intros af a size t. unfold ex_ntop. destruct (Nat.ltb_spec 8 size); [|done].
    intros [= <-]. split; [done|]. repeat constructor; vm_compute; congruence.
Qed.

Definition ex_auth (a_type : Z) : auth_intf :=
  {| auth_type := a_type; auth_password := None; auth_keychain := Some [99];
     address_afi := EIGRP_AFI_IPV4; address_bytes := [10; 0; 0; 1] |}.
Definition ex_auth_nbr (a_type seq : Z) : auth_nbr :=
  {| an_ei := ex_auth a_type; src_afi := AF_INET; src_bytes := [10; 0; 0; 1]; crypt_seqnum := to_be 4 seq |}.

(** An UPDATE with the placeholder TLV and an empty TLV behind it. *)
Definition ex_packet (a_type : Z) : eigrp_stream :=
  let bytes := [2; 1] ++ replicate 18 0
    ++ to_be 2 EIGRP_TLV_AUTH ++ to_be 2 (24 + Z.of_nat (digest_len a_type)) ++ to_be 2 a_type
    ++ to_be 2 (Z.of_nat (digest_len a_type)) ++ replicate 16 0 ++ replicate (digest_len a_type) 0
    ++ [1; 2; 0; 4] in
  {| data := bytes; getp := 0; endp := length bytes;
     heap := {| grants := []; garbage := fun _ => 0 |} |}.

Lemma ex_packet_wf a_type :
  a_type = EIGRP_AUTH_TYPE_MD5 \/ a_type = EIGRP_AUTH_TYPE_SHA256 ->
  stream_wf (ex_packet a_type) /\ signable a_type (written (ex_packet a_type)).
Proof.
  intros H. assert (forall n, Forall byte (replicate n 0)) as Hz by (intros; apply Forall_replicate; unfold byte; lia).
  assert (Forall byte (data (ex_packet a_type))) as Hb.
  { unfold ex_packet. cbn [data]. rewrite !Forall_app. repeat split; try apply to_be_bytes; try apply Hz;
      repeat constructor; vm_compute; congruence. }
  split; [split; cbn; [lia|done|exact Hb]|].
  split; [exact H|]. destruct H as [-> | ->]; (split; [vm_compute; lia|]); (split; [vm_compute; congruence|]);
    (split; [exact Hb|vm_compute; reflexivity]).
Qed.

Lemma auth_check_exact_witness :
  wp (digest_check ex_lookup ex_ntop (ex_auth_nbr EIGRP_AUTH_TYPE_MD5 41)
        (packet_flags (written (ex_packet EIGRP_AUTH_TYPE_MD5))))
     (fun r s' => s' = ex_packet EIGRP_AUTH_TYPE_MD5 /\ r = (0, to_be 4 41)) (ex_packet EIGRP_AUTH_TYPE_MD5).
Proof.
  eapply wp_mono.
  - apply (auth_check_exact ex_lookup ex_ntop (ex_auth_nbr EIGRP_AUTH_TYPE_MD5 41) (ex_packet EIGRP_AUTH_TYPE_MD5)).
    + apply ex_packet_wf. by left.
    + exact I.
    + vm_compute. congruence.
    + left. reflexivity.
  - intros r s' [-> [[_ G]|[-> _]]]; [|done]. exfalso.
    pose proof (gn_newer _ _ _ _ G) as Hn. vm_compute in Hn. congruence.
Defined.

(** The counter of the sender wraps. *)
Lemma auth_signed_accepted_once_witness :
  wp (eigrp_auth_transmit_finalize ex_lookup ex_ntop (ex_auth EIGRP_AUTH_TYPE_SHA256) 4294967295
        (endp (ex_packet EIGRP_AUTH_TYPE_SHA256)))
     (fun r s' => r = (true, 1) /\ eigrp_checksum (written s') = 0
        /\ wp (digest_check ex_lookup ex_ntop (ex_auth_nbr EIGRP_AUTH_TYPE_SHA256 4294967295)
                 (packet_flags (written s'))) (fun r2 _ => r2 = (1, to_be 4 1)) s')
     (ex_packet EIGRP_AUTH_TYPE_SHA256).
Proof.
  eapply wp_mono.
  - apply (auth_signed_accepted_once ex_lookup ex_ntop (ex_auth EIGRP_AUTH_TYPE_SHA256) 4294967295
      (ex_packet EIGRP_AUTH_TYPE_SHA256) 7 [107; 101; 121; 49] [49; 48; 46; 48; 46; 48; 46; 49]).
    + apply ex_packet_wf. by right.
    + reflexivity.
    + exact I.
    + apply ex_packet_wf. by right.
    + lia.
    + reflexivity.
    + repeat constructor; vm_compute; congruence.
    + reflexivity.
  - intros r s' (-> & Hc & Hn). split; [reflexivity|]. split; [exact Hc|].
    eapply wp_mono; [apply (Hn (ex_auth_nbr EIGRP_AUTH_TYPE_SHA256 4294967295))|].
    + exact I.
    + reflexivity.
    + exists 7. reflexivity.
    + reflexivity.
    + left. reflexivity.
    + intros r2 s2 [-> _]. reflexivity.
Defined.
