(* ===== verification/Ingress.v ===== *)
(** * Ingress: validation and authentication of received packets (eigrp_packet.c)

    What the receive thread does with a packet before it enters the queue of an
    address family: bounds, header, TLV framing, authentication, Hello TLVs and the
    neighbor it belongs to.  The packet is the bytes of the stream that the metadata
    delimit; a read behind its last byte is undefined behaviour ([None]). *)

From Stdlib Require Import ZArith Lia.
From stdpp Require Import base list.
From S2P Require Import Prelude Types Stream Checksum BlockHash Auth.

Definition EIGRP_HEADER_VERSION : Z := 2.
Definition tlv_hdr_size : nat := 4.
Definition EIGRP_TLV_PARAMETER : Z := 0x0001.
Definition EIGRP_TLV_SEQ : Z := 0x0003.
Definition EIGRP_TLV_SW_VERSION : Z := 0x0004.
Definition EIGRP_TLV_NEXT_MCAST_SEQ : Z := 0x0005.
Definition EIGRP_TLV_PEER_TERMINATION : Z := 0x0007.
Definition EIGRP_TLV_PARAMETER_LEN : nat := 12.
Definition EIGRP_TLV_SW_VERSION_LEN : nat := 8.
Definition EIGRP_NEXT_SEQUENCE_TLV_SIZE : nat := 8.
Definition EIGRP_NEIGHBOR_MAX_PER_INTERFACE : Z := 2048.
Definition EIGRP_NEIGHBOR_MAX_PER_INSTANCE : Z := 8192.
Definition off_sequence : nat := 8.
Definition off_ack : nat := 12.
Definition off_vrid : nat := 16.
Definition off_ASNumber : nat := 18.
(** [hold_time] in [struct TLV_Parameter_Type]. *)
Definition off_hold_time : nat := 10.

(** The neighbor as ingress sees it. *)
Record in_nbr := {
  in_src : eigrp_addr;
  in_crypt_seqnum : list Z;
  in_published : bool;
  in_limit_state : Z;
  in_limit_cleanup_pending : bool;
  in_af_suspended : bool;
  in_state : Z;
  in_generation : Z;
  in_v_holddown : Z;
  in_t_holddown : option Z;
}.

Record in_intf := {
  in_ifindex : Z;
  in_name : list Z;
  in_passive : bool;
  in_auth : auth_intf;
  in_nbrs : list in_nbr;
}.

(** [static_nbrs]: the address family of the retained configuration and its static
    neighbors (interface name, address), if there is one. *)
Record in_instance := {
  in_AS : Z;
  in_vrid : Z;
  in_af_state : Z;
  in_address_bytes : nat;
  in_intfs : list in_intf;
  in_static_nbrs : option (Z * list (list Z * list Z));
  in_clock : Z;
  in_heap : eigrp_heap;
  in_timer_grants : list bool;
}.

(** [eigrp_packet_input_t]. *)
Record packet_input := {
  pi_data : list Z;
  pi_endp : nat;
  pi_network_header_length : nat;
  pi_eigrp_length : nat;
  pi_ifindex : Z;
  pi_source : eigrp_addr;
  ingress_authenticated : bool;
  ingress_neighbor_generation : Z;
  ingress_discovery : bool;
}.

(** ** Bounds *)

(** The offset and the length of the EIGRP packet. *)
Definition eigrp_packet_input_bounds_validate (endp network_header_length declared_eigrp_length : nat)
  : option (nat * nat) :=
  if (endp <? network_header_length)%nat then None
  else
    let remaining := (endp - network_header_length)%nat in
    if (declared_eigrp_length <? header_len)%nat || (remaining <? declared_eigrp_length)%nat
       || (UINT16_MAX <? Z.of_nat declared_eigrp_length)
    then None
    else Some (network_header_length, declared_eigrp_length).

(** ** Reading the packet *)

Definition rd (packet : list Z) (pos n : nat) : option (list Z) :=
  if (pos + n <=? length packet)%nat then Some (slice packet pos n) else None.
Definition rd_be (packet : list Z) (pos n : nat) : option Z := from_be <$> rd packet pos n.

(** ** TLV framing *)

(** The walk of [eigrp_packet_auth_tlv_lookup]: whether the framing is sound, the
    offset of the last authentication TLV and whether it is the first TLV. *)
Fixpoint auth_tlv_walk (fuel : nat) (packet : list Z) (offset : nat) (auth_tlv : option nat)
    (auth_first : bool) : option (bool * option nat * bool) :=
  let length := length packet in
  if (offset <? length)%nat then
    match fuel with
    | O => None
    | S fuel' =>
        if (length - offset <? tlv_hdr_size)%nat then Some (false, auth_tlv, auth_first)
        else
          tlv_type ← rd_be packet offset 2;
          tlv_length ← rd_be packet (offset + 2) 2;
          if (tlv_length <? Z.of_nat tlv_hdr_size) || (Z.of_nat (length - offset) <? tlv_length)
          then Some (false, auth_tlv, auth_first)
          else
            let offset' := Z.to_nat (u16 (Z.of_nat offset + tlv_length)) in
            if tlv_type =? EIGRP_TLV_AUTH
            then auth_tlv_walk fuel' packet offset' (Some offset) (offset =? header_len)%nat
            else auth_tlv_walk fuel' packet offset' auth_tlv auth_first
    end
  else Some (true, auth_tlv, auth_first).

Definition eigrp_packet_auth_tlv_lookup (packet : list Z) : option (bool * option nat * bool) :=
  if (length packet <? header_len)%nat then Some (false, None, false)
  else auth_tlv_walk (length packet) packet header_len None false.

(** [auth_tlv] is the offset of the TLV and [tlv_length] its length. *)
Definition eigrp_packet_auth_tlv_validate (ei : auth_intf) (packet : list Z) (auth_tlv : nat) (tlv_length : Z)
  : option bool :=
  if tlv_length <? Z.of_nat EIGRP_AUTH_MD5_TLV_SIZE then Some false
  else
    a_type ← rd_be packet (auth_tlv + 4) 2;
    auth_length ← rd_be packet (auth_tlv + 6) 2;
    if negb (a_type =? auth_type ei) then Some false
    else if a_type =? EIGRP_AUTH_TYPE_MD5 then
      Some (negb (negb (tlv_length =? Z.of_nat EIGRP_AUTH_MD5_TLV_SIZE)
                  || negb (auth_length =? Z.of_nat EIGRP_AUTH_TYPE_MD5_LEN)))
    else if a_type =? EIGRP_AUTH_TYPE_SHA256 then
      Some (negb (negb (tlv_length =? Z.of_nat EIGRP_AUTH_SHA256_TLV_SIZE)
                  || negb (auth_length =? Z.of_nat EIGRP_AUTH_TYPE_SHA256_LEN)))
    else Some false.

Definition eigrp_packet_auth_header_validate (ei : auth_intf) (packet : list Z) : option bool :=
  '(framed, auth_tlv, auth_first) ← eigrp_packet_auth_tlv_lookup packet;
  if negb framed then Some false
  else if auth_type ei =? EIGRP_AUTH_TYPE_NONE then
    match auth_tlv with Some _ => Some false | None => Some true end
  else if negb (eigrp_auth_material_available ei) then Some false
  else
    match auth_tlv with
    | None => Some false
    | Some tlv =>
        if negb auth_first then Some false
        else
          tlv_length ← rd_be packet (tlv + 2) 2;
          eigrp_packet_auth_tlv_validate ei packet tlv tlv_length
    end.

(** [on_link] is the answer of [af_vectors.packet_source_on_link]. *)
Definition eigrp_packet_header_validate (eigrp : in_instance) (ei : in_intf) (on_link : bool) (packet : list Z)
  : option bool :=
  if (length packet <? header_len)%nat then Some false
  else
    version ← rd_be packet 0 1;
    if negb (version =? EIGRP_HEADER_VERSION) then Some false
    else
      as_number ← rd_be packet off_ASNumber 2;
      if negb (as_number =? in_AS eigrp) then Some false
      else
        vrid ← rd_be packet off_vrid 2;
        if negb (vrid =? in_vrid eigrp) then Some false
        else if negb (eigrp_checksum packet =? 0) then Some false
        else
          auth ← eigrp_packet_auth_header_validate (in_auth ei) packet;
          Some (auth && on_link).

(** ** Hello TLVs *)

(** The addresses of a SEQUENCE or PEER_TERMINATION TLV at [cursor], from [offset]. *)
Fixpoint hello_addresses (fuel : nat) (payload : list Z) (cursor offset length expected : nat) : option bool :=
  if (offset <? length)%nat then
    match fuel with
    | O => None
    | S fuel' =>
        encoded ← rd_be payload (cursor + offset) 1;
        if negb (encoded =? Z.of_nat expected) || (Z.of_nat length <? Z.of_nat (offset + 1) + encoded)
        then Some false
        else hello_addresses fuel' payload cursor (offset + 1 + Z.to_nat encoded) length expected
    end
  else Some true.

(** The body of the switch: [None] inside is a refusal, otherwise whether the TLV is
    the Parameter TLV. *)
Definition hello_tlv_check (payload : list Z) (cursor : nat) (type : Z) (length expected : nat)
  : option (option bool) :=
  if type =? EIGRP_TLV_PARAMETER then
    if (length <? EIGRP_TLV_PARAMETER_LEN)%nat then Some None
    else
      hold_time ← rd_be payload (cursor + off_hold_time) 2;
      Some (if hold_time =? 0 then None else Some true)
  else if type =? EIGRP_TLV_SW_VERSION then
    Some (if (length <? EIGRP_TLV_SW_VERSION_LEN)%nat then None else Some false)
  else if type =? EIGRP_TLV_NEXT_MCAST_SEQ then
    Some (if negb (length =? EIGRP_NEXT_SEQUENCE_TLV_SIZE)%nat then None else Some false)
  else if (type =? EIGRP_TLV_SEQ) || (type =? EIGRP_TLV_PEER_TERMINATION) then
    framed ← hello_addresses length payload cursor tlv_hdr_size length expected;
    Some (if negb framed then None
          else if (type =? EIGRP_TLV_PEER_TERMINATION) && (length <? tlv_hdr_size + 1 + expected)%nat
          then None else Some false)
  else Some (Some false).

Fixpoint hello_tlvs_walk (fuel : nat) (payload : list Z) (cursor remaining expected : nat)
    (parameter_seen : bool) : option bool :=
  if (remaining =? 0)%nat then Some parameter_seen
  else
    match fuel with
    | O => None
    | S fuel' =>
        if (remaining <? tlv_hdr_size)%nat then Some false
        else
          type ← rd_be payload cursor 2;
          len ← rd_be payload (cursor + 2) 2;
          let length := Z.to_nat len in
          if (length <? tlv_hdr_size)%nat || (remaining <? length)%nat then Some false
          else
            checked ← hello_tlv_check payload cursor type length expected;
            match checked with
            | None => Some false
            | Some seen =>
                hello_tlvs_walk fuel' payload (cursor + length) (remaining - length) expected
                  (parameter_seen || seen)
            end
    end.

Definition eigrp_hello_tlvs_validate (payload : list Z) (expected : nat) : option bool :=
  hello_tlvs_walk (length payload) payload 0 (length payload) expected false.

(** ** Neighbors *)

Definition eigrp_nbr_is_eligible (eigrp : in_instance) (nbr : in_nbr) : bool :=
  (in_limit_state nbr =? 0) && negb (in_limit_cleanup_pending nbr) && negb (in_af_suspended nbr)
  && (in_af_state eigrp =? 0).

(** The walk over the interfaces with [total], which stays below the maximum. *)
Fixpoint admit_total (intfs : list in_intf) (total : Z) : bool :=
  match intfs with
  | [] => true
  | iface :: intfs' =>
      if EIGRP_NEIGHBOR_MAX_PER_INSTANCE - total <=? Z.of_nat (length (in_nbrs iface)) then false
      else admit_total intfs' (total + Z.of_nat (length (in_nbrs iface)))
  end.
Definition eigrp_nbr_admit_locked (eigrp : in_instance) (ei : in_intf) : bool :=
  if EIGRP_NEIGHBOR_MAX_PER_INTERFACE <=? Z.of_nat (length (in_nbrs ei)) then false
  else admit_total (in_intfs eigrp) 0.

(** The walk over the static neighbors with [has_static]. *)
Fixpoint static_source_walk (neighbors : list (list Z * list Z)) (name source : list Z) (n : nat)
    (has_static : bool) : bool :=
  match neighbors with
  | [] => negb has_static
  | (ifname, addr) :: neighbors' =>
      if negb (bool_decide (ifname = name)) then static_source_walk neighbors' name source n has_static
      else if bool_decide (take n addr = take n source) then true
      else static_source_walk neighbors' name source n true
  end.
Definition eigrp_nbr_static_source_allowed (eigrp : in_instance) (ei : in_intf) (src : eigrp_addr) : bool :=
  match in_static_nbrs eigrp with
  | None => true
  | Some (afi, neighbors) =>
      if ((afi =? EIGRP_AFI_IPV4) && negb (addr_afi src =? AF_INET))
         || ((afi =? EIGRP_AFI_IPV6) && negb (addr_afi src =? AF_INET6))
      then false
      else static_source_walk neighbors (in_name ei) (addr_ip src) (in_address_bytes eigrp) false
  end.

Definition eigrp_nbr_lookup (ei : in_intf) (src : eigrp_addr) : option (nat * in_nbr) :=
  list_find (fun nbr => in_src nbr = src) (in_nbrs ei).

(** The neighbor of a source, if it is published. *)
Definition published_nbr (ei : in_intf) (src : eigrp_addr) : option (nat * in_nbr) :=
  match eigrp_nbr_lookup ei src with
  | Some (i, nbr) => if in_published nbr then Some (i, nbr) else None
  | None => None
  end.

(** The timer is replaced when memory allows. *)
Definition eigrp_nbr_holddown_update (eigrp : in_instance) (nbr : in_nbr) : in_nbr * list bool :=
  if negb (eigrp_nbr_is_eligible eigrp nbr) || (in_state nbr =? EIGRP_NEIGHBOR_DOWN)
  then ({| nbr with in_t_holddown := None |}, in_timer_grants eigrp)
  else if (in_state nbr =? EIGRP_NEIGHBOR_PENDING) || (in_state nbr =? EIGRP_NEIGHBOR_UP)
  then
    let granted := match in_timer_grants eigrp with [] => true | b :: _ => b end in
    ({| nbr with in_t_holddown :=
          if granted then Some (in_clock eigrp + u32 (in_v_holddown nbr * 1000)) else None |},
     tail (in_timer_grants eigrp))
  else (nbr, in_timer_grants eigrp).

(** ** Admission *)

Section ingress.
Context (eigrp_sys_auth_key_lookup : list Z -> nat -> option (Z * list Z)).
Context (inet_ntop : Z -> list Z -> nat -> option (list Z)).
(** [af_vectors.packet_source_on_link]. *)
Context (packet_source_on_link : in_intf -> eigrp_addr -> bool).

(** The neighbor record the digest is checked against: the published neighbor or, for
    a discovery Hello, a temporary one with the source and no sequence number. *)
Definition digest_nbr (ei : auth_intf) (nbr : option in_nbr) (source : eigrp_addr) : auth_nbr :=
  match nbr with
  | Some nbr => {| an_ei := ei; src_afi := addr_afi (in_src nbr); src_bytes := addr_ip (in_src nbr);
                   crypt_seqnum := in_crypt_seqnum nbr |}
  | None => {| an_ei := ei; src_afi := addr_afi source; src_bytes := addr_ip source;
               crypt_seqnum := replicate 4 0 |}
  end.

(** Whether the digest is valid, and the sequence number of the neighbor record. *)
Definition eigrp_packet_auth_digest_validate (h : eigrp_heap) (ei : auth_intf) (nbr : option in_nbr)
    (source : eigrp_addr) (packet : list Z) : option (bool * list Z) :=
  let n := digest_nbr ei nbr source in
  if auth_type ei =? EIGRP_AUTH_TYPE_NONE then Some (true, crypt_seqnum n)
  else
    '(framed, auth_tlv, auth_first) ← eigrp_packet_auth_tlv_lookup packet;
    if negb framed || negb (bool_decide (is_Some auth_tlv)) || negb auth_first then Some (false, crypt_seqnum n)
    else if negb (auth_type ei =? EIGRP_AUTH_TYPE_MD5) && negb (auth_type ei =? EIGRP_AUTH_TYPE_SHA256)
    then Some (false, crypt_seqnum n)
    else
      match eigrp_stream_create h (length packet) with
      | None => Some (false, crypt_seqnum n)
      | Some auth_stream =>
          '(put, auth_stream) ← eigrp_stream_put packet auth_stream;
          if negb (put =? length packet)%nat then Some (false, crypt_seqnum n)
          else
            opcode ← rd_be packet off_opcode 1;
            flags ← rd_be packet off_flags 4;
            '((ret, seq), _) ← digest_check eigrp_sys_auth_key_lookup inet_ntop n
                                 (eigrp_packet_auth_flags opcode flags) auth_stream;
            Some (negb (ret =? 0), seq)
      end.

Definition ingress_opcode (opcode : Z) : bool :=
  existsb (Z.eqb opcode) [EIGRP_OPC_HELLO; EIGRP_OPC_UPDATE; EIGRP_OPC_QUERY; EIGRP_OPC_REPLY;
                          EIGRP_OPC_SIAQUERY; EIGRP_OPC_SIAREPLY].

(** Replaces the neighbor [i] of the interface [k]. *)
Definition update_nbr (eigrp : in_instance) (k i : nat) (nbr : in_nbr) (grants : list bool) : in_instance :=
  {| eigrp with
     in_intfs := alter (fun ei => {| ei with in_nbrs := <[i := nbr]> (in_nbrs ei) |}) k (in_intfs eigrp);
     in_timer_grants := grants |}.

(** Whether the packet is admitted, its input record and the instance afterwards. *)
Definition eigrp_packet_ingress_authenticate (instance : in_instance) (input : packet_input)
  : option (bool * packet_input * in_instance) :=
  let refuse := Some (false, input, instance) in
  match eigrp_packet_input_bounds_validate (pi_endp input) (pi_network_header_length input) (pi_eigrp_length input) with
  | None => refuse
  | Some (offset, length) =>
      match list_find (fun ei => in_ifindex ei = pi_ifindex input) (in_intfs instance) with
      | None => refuse
      | Some (k, ei) =>
          if in_passive ei then refuse
          else
            let packet := slice (pi_data input) offset length in
            valid ← eigrp_packet_header_validate instance ei (packet_source_on_link ei (pi_source input)) packet;
            if negb valid then refuse
            else
              opcode ← rd_be packet off_opcode 1;
              ack ← rd_be packet off_ack 4;
              if negb (ingress_opcode opcode) then refuse
              else
                hello ← (if (opcode =? EIGRP_OPC_HELLO) && (ack =? 0) then
                           tlvs ← eigrp_hello_tlvs_validate (drop header_len packet) (in_address_bytes instance);
                           Some (tlvs && eigrp_nbr_static_source_allowed instance ei (pi_source input))
                         else Some true);
                if negb hello then refuse
                else
                  let found := published_nbr ei (pi_source input) in
                  if match found with Some (_, nbr) => negb (eigrp_nbr_is_eligible instance nbr) | None => false end
                  then refuse
                  else if negb (bool_decide (is_Some found)) && (negb (opcode =? EIGRP_OPC_HELLO) || negb (ack =? 0))
                  then refuse
                  else if negb (bool_decide (is_Some found)) && negb (eigrp_nbr_admit_locked instance ei)
                  then refuse
                  else
                    '(genuine, seq) ← eigrp_packet_auth_digest_validate (in_heap instance) (in_auth ei)
                                        (snd <$> found) (pi_source input) packet;
                    (* the digest check writes nbr->crypt_seqnum *)
                    let instance := match found with
                                    | Some (i, nbr) => update_nbr instance k i {| nbr with in_crypt_seqnum := seq |} (in_timer_grants instance)
                                    | None => instance
                                    end in
                    if negb genuine then Some (false, input, instance)
                    else
                      let input := {| input with
                        ingress_authenticated := true;
                        ingress_neighbor_generation := match found with Some (_, nbr) => in_generation nbr | None => 0 end;
                        ingress_discovery := match found with
                                             | Some (_, nbr) => negb (in_state nbr =? EIGRP_NEIGHBOR_UP)
                                             | None => true
                                             end |} in
                      match found with
                      | Some (i, nbr) =>
                          let nbr := {| nbr with in_crypt_seqnum := seq |} in
                          let '(nbr, grants) := eigrp_nbr_holddown_update instance nbr in
                          Some (true, input, update_nbr instance k i nbr grants)
                      | None => Some (true, input, instance)
                      end
      end
  end.
End ingress.
