(* ===== verification/IngressProps.v ===== *)
(** * Ingress: correctness

    On every packet and every metadata the admission is defined: no byte behind the
    packet is read and every walk ends; what is admitted is framed, verified and,
    where the interface asks for it, authenticated, and is admitted once. *)

From Stdlib Require Import ZArith Lia.
From stdpp Require Import base list.
From S2P Require Import Prelude Types Stream Checksum BlockHash Sha256 Sha256Props Md5 Md5Props Auth AuthProps Ingress.

(** ** Reads *)

Section reads.
Lemma rd_some packet pos n : (pos + n <= length packet)%nat -> rd packet pos n = Some (slice packet pos n).
Proof. intros H. unfold rd. by rewrite (proj2 (Nat.leb_le _ _)). Qed.
Lemma rd_be_some packet pos n :
  (pos + n <= length packet)%nat -> rd_be packet pos n = Some (from_be (slice packet pos n)).
Proof. intros H. unfold rd_be. by rewrite rd_some. Qed.
Lemma slice_be_bounds packet pos n :
  Forall byte packet -> (pos + n <= length packet)%nat -> 0 <= from_be (slice packet pos n) < 256 ^ Z.of_nat n.
Proof.
  intros Hb H. pose proof (from_be_bounds (slice packet pos n) (slice_bytes _ _ _ Hb)) as B.
  by rewrite length_slice in B.
Qed.
End reads.

(** Closes the branches that refuse: the claim about acceptance is void. *)
Ltac refused :=
  repeat eexists; [done|..]; repeat split; intros; (congruence || done).

(** ** Framing *)

(** A sequence of complete TLVs from [offset] to the end of the packet. *)
Inductive framed (packet : list Z) : nat -> Prop :=
  | framed_end : framed packet (length packet)
  | framed_tlv offset :
      (offset + 4 <= length packet)%nat ->
      4 <= from_be (slice packet (offset + 2) 2) ->
      framed packet (offset + Z.to_nat (from_be (slice packet (offset + 2) 2))) ->
      framed packet offset.

(** The authentication TLV is the first TLV of the packet and inside it. *)
Definition auth_tlv_at (packet : list Z) (t : nat) : Prop :=
  t = header_len /\ from_be (slice packet t 2) = EIGRP_TLV_AUTH
  /\ Z.of_nat t + from_be (slice packet (t + 2) 2) <= Z.of_nat (length packet)
  /\ 4 <= from_be (slice packet (t + 2) 2).

Section framing.
Context (packet : list Z) (Hb : Forall byte packet) (Hmax : Z.of_nat (length packet) <= 65535).

Lemma auth_tlv_walk_spec fuel offset tlv first :
  (length packet <= offset + fuel)%nat -> (header_len <= offset <= length packet)%nat ->
  exists r tlv' first', auth_tlv_walk fuel packet offset tlv first = Some (r, tlv', first')
    /\ (r = true -> framed packet offset)
    /\ (r = true -> first' = true ->
          (tlv' = tlv /\ first = true) \/ exists t, tlv' = Some t /\ auth_tlv_at packet t)
    /\ (r = true -> tlv' = None -> tlv = None).
Proof.
  revert offset tlv first. induction fuel as [|fuel IH]; intros offset tlv first Hf Ho; cbn [auth_tlv_walk].
  - destruct (Nat.ltb_spec offset (length packet)); [lia|].
    exists true, tlv, first. assert (offset = length packet) as -> by lia.
    split; [done|]. split; [intros; constructor|]. split; [auto|done].
  - destruct (Nat.ltb_spec offset (length packet)) as [Hlt|Hge].
    2: { exists true, tlv, first. assert (offset = length packet) as -> by lia.
         split; [done|]. split; [intros; constructor|]. split; [auto|done]. }
    destruct (Nat.ltb_spec (length packet - offset) tlv_hdr_size) as [Hs|Hs]; [refused|].
    unfold tlv_hdr_size in *. rewrite !rd_be_some by lia. cbn [mbind option_bind].
    pose proof (slice_be_bounds packet (offset + 2) 2 Hb ltac:(lia)) as Hl.
    change (256 ^ Z.of_nat 2) with 65536 in Hl.
    set (l := from_be (slice packet (offset + 2) 2)) in *.
    destruct (Z.ltb_spec l (Z.of_nat 4)) as [H4|H4]; cbn [orb]; [refused|].
    destruct (Z.ltb_spec (Z.of_nat (length packet - offset)) l) as [H5|H5]; [refused|].
    rewrite u16_small by lia.
    replace (Z.to_nat (Z.of_nat offset + l)) with (offset + Z.to_nat l)%nat by lia.
    assert (forall tlv1 first1, exists r tlv' first',
      auth_tlv_walk fuel packet (offset + Z.to_nat l) tlv1 first1 = Some (r, tlv', first')
      /\ (r = true -> framed packet offset)
      /\ (r = true -> first' = true -> (tlv' = tlv1 /\ first1 = true) \/ exists t, tlv' = Some t /\ auth_tlv_at packet t)
      /\ (r = true -> tlv' = None -> tlv1 = None)) as Hstep.
    { intros tlv1 first1. destruct (IH (offset + Z.to_nat l)%nat tlv1 first1) as (r & t' & f' & E & H1 & H2 & H3); [lia|lia|].
      exists r, t', f'. split; [done|]. split; [|by split]. intros Hr. apply framed_tlv; [lia|fold l; lia|]. by apply H1. }
    destruct (Z.eqb_spec (from_be (slice packet offset 2)) EIGRP_TLV_AUTH) as [Ht|Ht]; [|by apply Hstep].
    destruct (Hstep (Some offset) (offset =? header_len)%nat) as (r & t' & f' & E & H1 & H2 & H3).
    exists r, t', f'. split; [done|]. split; [done|]. split.
    + intros Hr Hf'. right. destruct (H2 Hr Hf') as [[-> Heq]|?]; [|done].
      apply Nat.eqb_eq in Heq. exists offset. split; [done|]. split; [done|]. split; [done|]. fold l. lia.
    + intros Hr Hn. by specialize (H3 Hr Hn).
Qed.

Lemma auth_tlv_lookup_spec :
  exists r tlv first, eigrp_packet_auth_tlv_lookup packet = Some (r, tlv, first)
    /\ (r = true -> (header_len <= length packet)%nat /\ framed packet header_len)
    /\ (r = true -> first = true -> exists t, tlv = Some t /\ auth_tlv_at packet t).
Proof.
  unfold eigrp_packet_auth_tlv_lookup. destruct (Nat.ltb_spec (length packet) header_len); [refused|].
  destruct (auth_tlv_walk_spec (length packet) header_len None false) as (r & t & f & E & H1 & H2 & _); [lia|lia|].
  exists r, t, f. split; [done|]. split; [auto|]. intros Hr Hf.
  destruct (H2 Hr Hf) as [[_ ?]|?]; done.
Qed.

(** The authentication TLV of a valid packet has the size and the type of its digest. *)
Lemma auth_header_validate_spec ei :
  exists b, eigrp_packet_auth_header_validate ei packet = Some b
    /\ (b = true -> (header_len <= length packet)%nat /\ framed packet header_len).
Proof.
  destruct auth_tlv_lookup_spec as (r & tlv & first & E & H1 & H2).
  unfold eigrp_packet_auth_header_validate. rewrite E. cbn [mbind option_bind].
  destruct r; cbn [negb]; [|refused]. specialize (H1 eq_refl).
  destruct (auth_type ei =? EIGRP_AUTH_TYPE_NONE); [destruct tlv; by eauto|].
  destruct (eigrp_auth_material_available ei); cbn [negb]; [|by eauto].
  destruct tlv as [t|]; [|by eauto]. destruct first; cbn [negb]; [|by eauto].
  destruct (H2 eq_refl eq_refl) as (t' & [= <-] & -> & Ht & Hin & H4).
  assert (header_len + 4 <= length packet)%nat as Hlen by lia.
  rewrite rd_be_some by lia. cbn [mbind option_bind]. unfold eigrp_packet_auth_tlv_validate.
  set (l := from_be (slice packet (header_len + 2) 2)) in *.
  destruct (Z.ltb_spec l (Z.of_nat EIGRP_AUTH_MD5_TLV_SIZE)) as [?|H40]; [by eauto|].
  change (Z.of_nat EIGRP_AUTH_MD5_TLV_SIZE) with 40 in *.
  rewrite !rd_be_some by lia. cbn [mbind option_bind]. repeat case_match; by eauto.
Qed.
End framing.

(** ** The header *)

Lemma header_validate_spec eigrp ei on_link packet :
  Forall byte packet -> Z.of_nat (length packet) <= 65535 ->
  exists b, eigrp_packet_header_validate eigrp ei on_link packet = Some b
    /\ (b = true -> (header_len <= length packet)%nat /\ framed packet header_len
          /\ from_be (slice packet 0 1) = EIGRP_HEADER_VERSION /\ from_be (slice packet off_ASNumber 2) = in_AS eigrp
          /\ from_be (slice packet off_vrid 2) = in_vrid eigrp /\ eigrp_checksum packet = 0 /\ on_link = true).
Proof.
  intros Hb Hmax. unfold eigrp_packet_header_validate.
  destruct (Nat.ltb_spec (length packet) header_len) as [?|Hl]; [refused|]. unfold header_len in Hl.
  rewrite !rd_be_some by (unfold off_ASNumber, off_vrid; lia). cbn [mbind option_bind].
  destruct (Z.eqb_spec (from_be (slice packet 0 1)) EIGRP_HEADER_VERSION) as [Hv|]; cbn [negb]; [|refused].
  destruct (Z.eqb_spec (from_be (slice packet off_ASNumber 2)) (in_AS eigrp)) as [Ha|]; cbn [negb]; [|refused].
  destruct (Z.eqb_spec (from_be (slice packet off_vrid 2)) (in_vrid eigrp)) as [Hr|]; cbn [negb]; [|refused].
  destruct (Z.eqb_spec (eigrp_checksum packet) 0) as [Hc|]; cbn [negb]; [|refused].
  destruct (auth_header_validate_spec packet Hb Hmax (in_auth ei)) as (b & -> & Hf). cbn [mbind option_bind].
  exists (b && on_link). split; [done|]. intros [-> ->]%andb_true_iff. destruct (Hf eq_refl). done.
Qed.

(** ** Hello TLVs *)

Section hello.
Context (payload : list Z) (Hb : Forall byte payload).

Lemma hello_addresses_total fuel cursor offset len expected :
  (len <= offset + fuel)%nat -> (cursor + len <= length payload)%nat -> (offset <= len)%nat ->
  exists b, hello_addresses fuel payload cursor offset len expected = Some b.
Proof.
  revert offset. induction fuel as [|fuel IH]; intros offset Hf Hc Ho; cbn [hello_addresses].
  - destruct (Nat.ltb_spec offset len); [lia|by eauto].
  - destruct (Nat.ltb_spec offset len); [|by eauto]. rewrite rd_be_some by lia. cbn [mbind option_bind].
    pose proof (slice_be_bounds payload (cursor + offset) 1 Hb ltac:(lia)) as He.
    destruct (negb _); cbn [orb]; [by eauto|].
    destruct (Z.ltb_spec (Z.of_nat len) (Z.of_nat (offset + 1) + from_be (slice payload (cursor + offset) 1))); [by eauto|].
    apply IH; lia.
Qed.

Lemma hello_tlv_check_total cursor type len expected :
  (4 <= len)%nat -> (cursor + len <= length payload)%nat ->
  exists b, hello_tlv_check payload cursor type len expected = Some b.
Proof.
  intros H4 Hc. unfold hello_tlv_check.
  destruct (type =? EIGRP_TLV_PARAMETER).
  { destruct (Nat.ltb_spec len EIGRP_TLV_PARAMETER_LEN); [by eauto|]. unfold EIGRP_TLV_PARAMETER_LEN in *.
    rewrite rd_be_some by (unfold off_hold_time; lia). by eauto. }
  destruct (type =? EIGRP_TLV_SW_VERSION); [by eauto|].
  destruct (type =? EIGRP_TLV_NEXT_MCAST_SEQ); [by eauto|].
  destruct (_ || _); [|by eauto].
  destruct (hello_addresses_total len cursor tlv_hdr_size len expected) as [b ->];
    [lia|lia|unfold tlv_hdr_size; lia|]. by eauto.
Qed.

Lemma hello_tlvs_walk_total fuel cursor remaining expected seen :
  (remaining <= fuel)%nat -> (cursor + remaining = length payload)%nat ->
  exists b, hello_tlvs_walk fuel payload cursor remaining expected seen = Some b.
Proof.
  revert cursor remaining seen. induction fuel as [|fuel IH]; intros cursor remaining seen Hf Hc; cbn [hello_tlvs_walk].
  - destruct (Nat.eqb_spec remaining 0); [by eauto|lia].
  - destruct (Nat.eqb_spec remaining 0); [by eauto|].
    destruct (Nat.ltb_spec remaining tlv_hdr_size) as [?|H4]; [by eauto|]. unfold tlv_hdr_size in *.
    rewrite !rd_be_some by lia. cbn [mbind option_bind].
    set (l := Z.to_nat (from_be (slice payload (cursor + 2) 2))).
    destruct (Nat.ltb_spec l 4); cbn [orb]; [by eauto|]. destruct (Nat.ltb_spec remaining l); [by eauto|].
    destruct (hello_tlv_check_total cursor (from_be (slice payload cursor 2)) l expected) as [c ->]; [lia|lia|].
    cbn [mbind option_bind]. destruct c as [c|]; [|by eauto]. apply IH; lia.
Qed.

Lemma hello_tlvs_validate_total expected : exists b, eigrp_hello_tlvs_validate payload expected = Some b.
Proof. apply hello_tlvs_walk_total; lia. Qed.
End hello.

(** ** The digest *)

Section digest.
Context (lookup : list Z -> nat -> option (Z * list Z)) (ntop : Z -> list Z -> nat -> option (list Z)).
Context `{!AuthHost lookup ntop}.

Lemma stream_double_reaches fuel size needed size' :
  stream_double fuel size needed = Some size' -> (needed <= size' /\ size <= size')%nat.
Proof.
  revert size. induction fuel as [|fuel IH]; intros size H; cbn [stream_double] in H.
  - destruct (Nat.ltb_spec size needed); [by destruct (_ <? _)|]. injection H as <-. lia.
  - destruct (Nat.ltb_spec size needed); [|injection H as <-; lia].
    destruct (_ <? _); [done|]. apply IH in H. lia.
Qed.

Lemma stream_create_spec h n s :
  eigrp_stream_create h n = Some s -> (0 < n)%nat ->
  getp s = 0%nat /\ endp s = 0%nat /\ (n <= length (data s))%nat /\ Forall byte (data s).
Proof.
  intros H Hn. unfold eigrp_stream_create in H.
  destruct (allocate _) as [[[] s0]|] eqn:Ea; [|done|done].
  assert (data s0 = [] /\ getp s0 = 0%nat /\ endp s0 = 0%nat) as (E1 & E2 & E3).
  { unfold allocate in Ea. cbn in Ea. destruct (grants h); by simplify_eq. }
  destruct (Nat.eqb_spec n 0); [lia|].
  destruct (eigrp_stream_ensure n s0) as [[[] s1]|] eqn:Ee; [|done|done]. injection H as <-.
  unfold eigrp_stream_ensure, mbind, M_bind, get in Ee. rewrite E1 in Ee. cbn [length] in Ee.
  destruct (Nat.leb_spec n 0); [lia|]. cbn [Nat.eqb] in Ee.
  destruct (stream_double 64 64 n) as [size'|] eqn:Ed; [|done]. apply stream_double_reaches in Ed as [Ed _].
  destruct (allocate s0) as [[[] s2]|] eqn:Ea2; [| |done]; [|by simplify_eq].
  assert (data s2 = [] /\ getp s2 = 0%nat /\ endp s2 = 0%nat) as (F1 & F2 & F3).
  { unfold allocate in Ea2. destruct (grants (heap s0)); by simplify_eq. }
  unfold modify in Ee. injection Ee as <-. cbn [getp endp data]. rewrite F1. split; [done|]. split; [done|].
  split; [rewrite length_app, length_fmap, length_seq; simpl; lia|].
  simpl. apply Forall_fmap, Forall_forall. intros i _. unfold compose. apply u8_byte.
Qed.

Lemma digest_validate_spec h ei nbr source packet :
  Forall byte packet -> (header_len <= length packet)%nat -> Z.of_nat (length packet) <= 65535 -> password_ok ei ->
  exists b seq, eigrp_packet_auth_digest_validate lookup ntop h ei nbr source packet = Some (b, seq)
    /\ (b = true -> if auth_type ei =? EIGRP_AUTH_TYPE_NONE then seq = crypt_seqnum (digest_nbr ei nbr source)
                    else genuine lookup ntop (digest_nbr ei nbr source) packet
                         /\ seq = slice packet off_key_sequence 4)
    /\ (b = false -> seq = crypt_seqnum (digest_nbr ei nbr source)).
Proof.
  intros Hb H20 Hmax Hpw. unfold header_len in H20. unfold eigrp_packet_auth_digest_validate.
  destruct (auth_type ei =? EIGRP_AUTH_TYPE_NONE) eqn:En; [by eexists _, _|].
  destruct (auth_tlv_lookup_spec packet Hb Hmax) as (r & tlv & first & -> & _ & _). cbn [mbind option_bind].
  destruct (_ || _); [by exists false, (crypt_seqnum (digest_nbr ei nbr source))|].
  destruct (negb (auth_type ei =? EIGRP_AUTH_TYPE_MD5) && negb (auth_type ei =? EIGRP_AUTH_TYPE_SHA256)) eqn:Et; [by exists false, (crypt_seqnum (digest_nbr ei nbr source))|].
  destruct (eigrp_stream_create h (length packet)) as [s|] eqn:Ec; [|by exists false, (crypt_seqnum (digest_nbr ei nbr source))].
  destruct (stream_create_spec _ _ _ Ec ltac:(lia)) as (Hg & He & Hl & Hsb).
  pose (s' := {| data := splice (data s) 0 packet; getp := getp s; endp := length packet; heap := heap s |}).
  assert (eigrp_stream_put packet s = Some (length packet, s')) as ->.
  { pose proof (wp_put_inside packet s (fun n t => n = length packet /\ t = s')) as Hput.
    rewrite He in Hput. specialize (Hput ltac:(lia) ltac:(lia) (conj eq_refl eq_refl)).
    unfold wp in Hput. destruct (eigrp_stream_put packet s) as [[n t]|]; [|done]. by destruct Hput as [-> ->]. }
  cbn [mbind option_bind]. rewrite Nat.eqb_refl. cbn [negb]. rewrite !rd_be_some by (unfold off_opcode, off_flags; lia).
  assert (written s' = packet) as Hw by (unfold written, s'; cbn [data endp]; apply (take_splice _ 0); lia).
  assert (stream_wf s') as W'.
  { split; unfold s'; cbn [data getp endp]; [lia|rewrite length_splice; lia|by apply splice_bytes]. }
  pose proof (wp_digest_check lookup ntop (digest_nbr ei nbr source) s' W') as Hck.
  assert (an_ei (digest_nbr ei nbr source) = ei) as Ean by (by destruct nbr). rewrite Ean, Hw in Hck.
  specialize (Hck Hpw ltac:(unfold s'; cbn [endp]; lia)).
  assert (auth_type ei = EIGRP_AUTH_TYPE_MD5 \/ auth_type ei = EIGRP_AUTH_TYPE_SHA256) as Htype.
  { apply andb_false_iff in Et as [Et|Et]; apply negb_false_iff, Z.eqb_eq in Et; auto. }
  specialize (Hck Htype). unfold wp, packet_flags in Hck.
  revert Hck. cbn [mbind option_bind]. destruct (digest_check _ _ _ _ s') as [[r2 s2]|]; [|done].
  intros [_ [[-> Hgen]|[-> _]]]; [|by exists false, (crypt_seqnum (digest_nbr ei nbr source))].
  exists true, (slice packet off_key_sequence 4). split; [done|]; by split; [intros _|].
Qed.
End digest.

(** ** Admission *)

(** What is known of an admitted packet. *)
Record verified (lookup : list Z -> nat -> option (Z * list Z)) (ntop : Z -> list Z -> nat -> option (list Z))
    (on_link : in_intf -> eigrp_addr -> bool) (instance : in_instance) (input : packet_input)
    (ei : in_intf) (packet : list Z) : Prop := {
  vf_header : (header_len <= length packet)%nat;
  vf_framed : framed packet header_len;
  vf_version : from_be (slice packet 0 1) = EIGRP_HEADER_VERSION;
  vf_AS : from_be (slice packet off_ASNumber 2) = in_AS instance;
  vf_vrid : from_be (slice packet off_vrid 2) = in_vrid instance;
  vf_checksum : eigrp_checksum packet = 0;
  vf_on_link : on_link ei (pi_source input) = true;
  vf_active : in_passive ei = false;
  vf_opcode : ingress_opcode (from_be (slice packet off_opcode 1)) = true;
  vf_auth : auth_type (in_auth ei) <> EIGRP_AUTH_TYPE_NONE ->
    genuine lookup ntop (digest_nbr (in_auth ei) (snd <$> published_nbr ei (pi_source input)) (pi_source input)) packet;
  vf_eligible : forall i nbr, published_nbr ei (pi_source input) = Some (i, nbr) -> eigrp_nbr_is_eligible instance nbr = true;
  vf_discovery : published_nbr ei (pi_source input) = None ->
    from_be (slice packet off_opcode 1) = EIGRP_OPC_HELLO /\ from_be (slice packet off_ack 4) = 0
    /\ eigrp_nbr_admit_locked instance ei = true
    /\ eigrp_nbr_static_source_allowed instance ei (pi_source input) = true;
}.

(** The interface and the bytes of an input. *)
Definition ingress_target (instance : in_instance) (input : packet_input) : option (nat * in_intf * list Z) :=
  match eigrp_packet_input_bounds_validate (pi_endp input) (pi_network_header_length input) (pi_eigrp_length input),
        list_find (fun ei => in_ifindex ei = pi_ifindex input) (in_intfs instance) with
  | Some (offset, length), Some (k, ei) => Some (k, ei, slice (pi_data input) offset length)
  | _, _ => None
  end.

(** The host adapter's stream: bytes, the end inside the buffer. *)
Definition input_ok (input : packet_input) : Prop :=
  Forall byte (pi_data input) /\ (pi_endp input <= length (pi_data input))%nat.

Definition keys_ok (instance : in_instance) : Prop :=
  Forall (fun ei => password_ok (in_auth ei)) (in_intfs instance).

Section admission.
Context (lookup : list Z -> nat -> option (Z * list Z)) (ntop : Z -> list Z -> nat -> option (list Z)).
Context (on_link : in_intf -> eigrp_addr -> bool).
Context `{!AuthHost lookup ntop}.

Lemma ingress_target_bytes instance input k ei packet :
  input_ok input -> ingress_target instance input = Some (k, ei, packet) ->
  Forall byte packet /\ Z.of_nat (length packet) <= 65535 /\ in_intfs instance !! k = Some ei.
Proof.
  intros [Hb He] H. unfold ingress_target in H.
  destruct (eigrp_packet_input_bounds_validate _ _ _) as [[o n]|] eqn:Ev; [|done].
  destruct (list_find _ _) as [[k' ei']|] eqn:Ef; [|done]. injection H as <- <- <-.
  apply list_find_Some in Ef as (Hk & _ & _).
  unfold eigrp_packet_input_bounds_validate, UINT16_MAX in Ev.
  destruct (Nat.ltb_spec (pi_endp input) (pi_network_header_length input)); [done|].
  destruct (Nat.ltb_spec (pi_eigrp_length input) header_len); [done|].
  destruct (Nat.ltb_spec (pi_endp input - pi_network_header_length input) (pi_eigrp_length input)); [done|].
  destruct (Z.ltb_spec 65535 (Z.of_nat (pi_eigrp_length input))); [done|]. injection Ev as <- <-.
  split; [by apply slice_bytes|]. split; [|done]. rewrite length_slice by lia. done.
Qed.

(** Writing a neighbor back, and twice. *)
Lemma update_nbr_same instance k i ei nbr :
  in_intfs instance !! k = Some ei -> in_nbrs ei !! i = Some nbr -> update_nbr instance k i nbr (in_timer_grants instance) = instance.
Proof.
  intros Hk Hi. unfold update_nbr.
  replace (alter _ k (in_intfs instance)) with (in_intfs instance); [by destruct instance|].
  apply list_eq. intros j. destruct (decide (j = k)) as [->|Hne]; [|by rewrite list_lookup_alter_ne].
  rewrite list_lookup_alter_eq, Hk. simpl. rewrite list_insert_id by done. by destruct ei.
Qed.

Lemma update_nbr_twice instance k i n1 n2 g1 g2 :
  update_nbr (update_nbr instance k i n1 g1) k i n2 g2 = update_nbr instance k i n2 g2.
Proof.
  unfold update_nbr. simpl. f_equal. apply list_eq. intros j.
  destruct (decide (j = k)) as [->|Hne]; [|by rewrite !list_lookup_alter_ne].
  rewrite !list_lookup_alter_eq. destruct (in_intfs instance !! k); [|done]. simpl. by rewrite list_insert_insert_eq.
Qed.

Lemma published_lookup ei src i nbr : published_nbr ei src = Some (i, nbr) -> in_nbrs ei !! i = Some nbr.
Proof.
  unfold published_nbr, eigrp_nbr_lookup. destruct (list_find _ _) as [[j n]|] eqn:E; [|done].
  destruct (in_published n); [|done]. intros [= <- <-]. by apply list_find_Some in E as (? & _).
Qed.

(** The outcome: refused without a trace, or admitted with what that entails. *)
Lemma ingress_outcome instance input :
  input_ok input -> keys_ok instance ->
  eigrp_packet_ingress_authenticate lookup ntop on_link instance input = Some (false, input, instance)
  \/ exists k ei packet input' instance',
       eigrp_packet_ingress_authenticate lookup ntop on_link instance input = Some (true, input', instance')
       /\ ingress_target instance input = Some (k, ei, packet)
       /\ verified lookup ntop on_link instance input ei packet
       /\ match published_nbr ei (pi_source input) with
          | Some (i, nbr) =>
              exists t gr, let seq := if auth_type (in_auth ei) =? EIGRP_AUTH_TYPE_NONE then in_crypt_seqnum nbr
                                      else slice packet off_key_sequence 4 in
              instance' = update_nbr instance k i {| nbr with in_crypt_seqnum := seq; in_t_holddown := t |} gr
              /\ ingress_neighbor_generation input' = in_generation nbr
          | None => instance' = instance /\ ingress_neighbor_generation input' = 0
          end.
Proof.
  intros Hi Hk. unfold eigrp_packet_ingress_authenticate.
  destruct (eigrp_packet_input_bounds_validate _ _ _) as [[o n]|] eqn:Ev; [|by left].
  destruct (list_find _ _) as [[k ei]|] eqn:Ef; [|by left].
  destruct (in_passive ei) eqn:Ep; [by left|].
  assert (ingress_target instance input = Some (k, ei, slice (pi_data input) o n)) as Et
    by (unfold ingress_target; by rewrite Ev, Ef).
  destruct (ingress_target_bytes _ _ _ _ _ Hi Et) as (Hb & Hmax & Hei).
  set (packet := slice (pi_data input) o n) in *.
  assert (password_ok (in_auth ei)) as Hpw by (eapply Forall_lookup_1 in Hk; done).
  destruct (header_validate_spec instance ei (on_link ei (pi_source input)) packet Hb Hmax) as (b & -> & Hv).
  cbn [mbind option_bind]. destruct b; cbn [negb]; [|by left]. specialize (Hv eq_refl).
  destruct Hv as (V1 & V2 & V3 & V4 & V5 & V6 & V7).
  rewrite !rd_be_some by (unfold off_opcode, off_ack, header_len in *; lia). cbn [mbind option_bind].
  set (opcode := from_be (slice packet off_opcode 1)). set (ack := from_be (slice packet off_ack 4)).
  destruct (ingress_opcode opcode) eqn:Eo; cbn [negb]; [|by left].
  destruct (hello_tlvs_validate_total (drop header_len packet) ltac:(by apply Forall_drop)
    (in_address_bytes instance)) as [tl Etl]. rewrite Etl.
  set (hello := if (opcode =? EIGRP_OPC_HELLO) && (ack =? 0)
                then tl && eigrp_nbr_static_source_allowed instance ei (pi_source input) else true).
  replace (if (opcode =? EIGRP_OPC_HELLO) && (ack =? 0) then _ else Some true) with (Some hello)
    by (unfold hello; by destruct (_ && _)).
  cbn [mbind option_bind]. destruct hello eqn:Eh; cbn [negb]; [|by left]. unfold hello in Eh.
  destruct (match published_nbr ei (pi_source input) with Some (_, nbr) => _ | None => false end) eqn:Eel; [by left|].
  destruct (negb (bool_decide (is_Some (published_nbr ei (pi_source input))))
            && (negb (opcode =? EIGRP_OPC_HELLO) || negb (ack =? 0))) eqn:E1; [by left|].
  destruct (negb (bool_decide (is_Some (published_nbr ei (pi_source input))))
            && negb (eigrp_nbr_admit_locked instance ei)) eqn:E2; [by left|].
  destruct (digest_validate_spec lookup ntop (in_heap instance) (in_auth ei)
    (snd <$> published_nbr ei (pi_source input)) (pi_source input) packet Hb V1 Hmax Hpw) as (g & seq & -> & Hg & Hsame).
  cbn [mbind option_bind]. destruct g; cbn [negb].
  2:{ left. specialize (Hsame eq_refl). destruct (published_nbr ei (pi_source input)) as [[i nbr]|] eqn:En; [|done].
      cbn [fmap option_fmap option_map snd digest_nbr crypt_seqnum] in Hsame. subst seq. do 2 f_equal.
      eapply update_nbr_same; [exact Hei|]. rewrite (published_lookup _ _ _ _ En). by destruct nbr. }
  specialize (Hg eq_refl). right.
  assert (verified lookup ntop on_link instance input ei packet) as V.
  { split; try done.
    - intros Hn. apply Z.eqb_neq in Hn. rewrite Hn in Hg. apply Hg.
    - intros i nbr En. rewrite En in Eel. by apply negb_false_iff in Eel.
    - intros En. rewrite En in E1, E2. rewrite bool_decide_eq_false_2 in E1, E2 by (intros [? [=]]).
      cbn [negb andb] in E1, E2. apply orb_false_iff in E1 as [Ea Eb].
      apply negb_false_iff in Ea, Eb, E2. fold opcode ack. rewrite Ea, Eb in Eh. cbn [andb] in Eh.
      apply andb_true_iff in Eh as [_ Eh]. apply Z.eqb_eq in Ea, Eb. auto. }
  destruct (published_nbr ei (pi_source input)) as [[i nbr]|] eqn:En.
  - cbn [fmap option_fmap option_map snd digest_nbr crypt_seqnum] in Hg.
    assert (seq = if auth_type (in_auth ei) =? EIGRP_AUTH_TYPE_NONE then in_crypt_seqnum nbr
                  else slice packet off_key_sequence 4) as Hseq.
    { destruct (auth_type (in_auth ei) =? EIGRP_AUTH_TYPE_NONE); [done|apply Hg]. }
    cbv zeta. destruct (eigrp_nbr_holddown_update _ _) as [nbr' gr] eqn:Eh'. rewrite update_nbr_twice.
    assert (exists t, nbr' = {| nbr with in_crypt_seqnum := seq; in_t_holddown := t |}) as [t ->].
    { unfold eigrp_nbr_holddown_update in Eh'. repeat case_match; simplify_eq; by eexists. }
    eexists k, ei, packet, _, _. split; [reflexivity|]. split; [done|]. split; [done|].
    rewrite En. exists t, gr. cbv zeta. rewrite <- Hseq. done.
  - eexists k, ei, packet, _, _. split; [reflexivity|]. split; [done|]. split; [done|]. by rewrite En.
Qed.

(** *** Replay *)

Lemma list_find_alter {A} (P : A -> Prop) `{forall x, Decision (P x)} (f : A -> A) (l : list A) k x :
  (forall y, P (f y) <-> P y) -> list_find P l = Some (k, x) -> list_find P (alter f k l) = Some (k, f x).
Proof.
  intros Hf (Hk & HP & Hfirst)%list_find_Some. apply list_find_Some. split.
  - by rewrite list_lookup_alter_eq, Hk.
  - split; [by apply Hf|]. intros j y Hj Hlt. rewrite list_lookup_alter_ne in Hj by lia. by eapply Hfirst.
Qed.

Lemma list_find_insert {A} (P : A -> Prop) `{forall x, Decision (P x)} (l : list A) k x y :
  P y -> list_find P l = Some (k, x) -> list_find P (<[k := y]> l) = Some (k, y).
Proof.
  intros HP (Hk & _ & Hfirst)%list_find_Some. apply list_find_Some. split.
  - apply list_lookup_insert_eq. by eapply lookup_lt_Some.
  - split; [done|]. intros j z Hj Hlt. rewrite list_lookup_insert_ne in Hj by lia. by eapply Hfirst.
Qed.

Lemma set_nbr_target instance input k ei packet i nbr nbr' gr :
  ingress_target instance input = Some (k, ei, packet) ->
  published_nbr ei (pi_source input) = Some (i, nbr) -> in_src nbr' = in_src nbr -> in_published nbr' = true ->
  exists ei', ingress_target (update_nbr instance k i nbr' gr) input = Some (k, ei', packet)
    /\ in_auth ei' = in_auth ei /\ published_nbr ei' (pi_source input) = Some (i, nbr').
Proof.
  intros Ht Hp Hs Hpub. unfold ingress_target in *.
  destruct (eigrp_packet_input_bounds_validate _ _ _) as [[o n]|]; [|done].
  destruct (list_find _ (in_intfs instance)) as [[k' e]|] eqn:Ef; [|done]. injection Ht as -> -> <-.
  unfold update_nbr. cbn [in_intfs].
  exists {| ei with in_nbrs := <[i := nbr']> (in_nbrs ei) |}. split; [|split; [done|]].
  - rewrite (list_find_alter (fun e => in_ifindex e = pi_ifindex input)
      (fun e => {| e with in_nbrs := <[i := nbr']> (in_nbrs e) |}) _ k ei (fun y => conj (fun H => H) (fun H => H)) Ef).
    done.
  - unfold published_nbr, eigrp_nbr_lookup in *. cbn [in_nbrs].
    destruct (list_find _ (in_nbrs ei)) as [[i0 n0]|] eqn:En; [|done].
    destruct (in_published n0); [|done]. injection Hp as -> ->.
    assert (in_src nbr = pi_source input) as Hsrc by (by apply list_find_Some in En as (_ & ? & _)).
    apply (list_find_insert _ _ _ _ nbr') in En; [|congruence]. by rewrite En, Hpub.
Qed.

Lemma keys_ok_set_nbr instance k i nbr gr : keys_ok instance -> keys_ok (update_nbr instance k i nbr gr).
Proof.
  unfold keys_ok, update_nbr. cbn [in_intfs]. intros H. apply Forall_alter; [done|]. done.
Qed.

Lemma published_is ei src i nbr : published_nbr ei src = Some (i, nbr) -> in_published nbr = true.
Proof. unfold published_nbr. repeat case_match; by intros; simplify_eq. Qed.

(** ** Theorems *)

(** C33: what ingress admits.  For any bytes and any metadata with the end inside the
    buffer, admission is defined (no read behind the packet, every TLV walk ends)
    and either refuses the packet without changing anything, or admits one that is
    complete and framed by whole TLVs, with this instance's version, AS and virtual
    router, a checksum that verifies, an active interface and an on-link source; on an
    authenticating interface its digest is genuine under the neighbor's key; a packet
    of an unknown source is a discovery Hello, from a permitted source and within the
    neighbor limits; a known neighbor is eligible. *)
Theorem ingress_admits_verified instance input :
  input_ok input -> keys_ok instance ->
  exists ok input' instance',
    eigrp_packet_ingress_authenticate lookup ntop on_link instance input = Some (ok, input', instance')
    /\ (ok = false -> input' = input /\ instance' = instance)
    /\ (ok = true -> exists k ei packet, ingress_target instance input = Some (k, ei, packet)
          /\ verified lookup ntop on_link instance input ei packet).
Proof.
  intros Hi Hk. destruct (ingress_outcome instance input Hi Hk) as [E|(k & ei & packet & i' & n' & E & Ht & V & _)].
  - exists false, input, instance. split; [done|]. split; [done|]. congruence.
  - exists true, i', n'. split; [done|]. split; [done|]. eauto.
Qed.

(** C34: an authenticated packet of a neighbor is admitted once: after it was admitted
    the same packet, whenever its bytes and its source come again, is refused, for the
    neighbor's cryptographic sequence number has moved to that of the packet. *)
Theorem ingress_refuses_replay instance input input' instance' k ei packet i nbr :
  input_ok input -> keys_ok instance ->
  eigrp_packet_ingress_authenticate lookup ntop on_link instance input = Some (true, input', instance') ->
  ingress_target instance input = Some (k, ei, packet) ->
  auth_type (in_auth ei) <> EIGRP_AUTH_TYPE_NONE -> published_nbr ei (pi_source input) = Some (i, nbr) ->
  eigrp_packet_ingress_authenticate lookup ntop on_link instance' input = Some (false, input, instance').
Proof.
  intros Hi Hk E Ht Ha Hp.
  destruct (ingress_outcome instance input Hi Hk) as [E'|(k1 & ei1 & p1 & i1 & n1 & E' & Ht1 & _ & Hn)];
    [congruence|]. rewrite E in E'. injection E' as <- <-. rewrite Ht in Ht1. injection Ht1 as <- <- <-.
  rewrite Hp in Hn. destruct Hn as (t & gr & -> & _). apply Z.eqb_neq in Ha. rewrite Ha.
  set (nbr' := {| nbr with in_crypt_seqnum := slice packet off_key_sequence 4; in_t_holddown := t |}).
  destruct (set_nbr_target instance input k ei packet i nbr nbr' gr Ht Hp eq_refl (published_is _ _ _ _ Hp))
    as (ei' & Ht' & Ha' & Hp').
  destruct (ingress_outcome (update_nbr instance k i nbr' gr) input Hi (keys_ok_set_nbr _ _ _ _ _ Hk))
    as [?|(k2 & ei2 & p2 & i2 & n2 & _ & Ht2 & V & _)]; [done|].
  rewrite Ht' in Ht2. injection Ht2 as <- <- <-. apply Z.eqb_neq in Ha. rewrite <- Ha' in Ha.
  pose proof (gn_newer _ _ _ _ (vf_auth _ _ _ _ _ _ _ V Ha)) as Hnew. rewrite Hp' in Hnew.
  cbn [fmap option_fmap option_map snd digest_nbr crypt_seqnum] in Hnew.
  change (in_crypt_seqnum nbr') with (slice packet off_key_sequence 4) in Hnew.
  by rewrite sequence_newer_irrefl in Hnew.
Qed.
End admission.

(** ** A concrete instance *)

Definition ex_source : eigrp_addr := {| addr_afi := AF_INET; addr_ip := [10; 0; 0; 1] ++ zero_bytes 12 |}.
Definition ex_ingress : in_instance :=
  {| in_AS := 0; in_vrid := 0; in_af_state := 0; in_address_bytes := 4;
     in_intfs := [{| in_ifindex := 3; in_name := [101]; in_passive := false; in_auth := ex_auth EIGRP_AUTH_TYPE_MD5;
       in_nbrs := [{| in_src := ex_source; in_crypt_seqnum := to_be 4 41; in_published := true; in_limit_state := 0;
         in_limit_cleanup_pending := false; in_af_suspended := false; in_state := EIGRP_NEIGHBOR_UP;
         in_generation := 5; in_v_holddown := 15; in_t_holddown := Some 100 |}] |}];
     in_static_nbrs := None; in_clock := 1000; in_heap := {| grants := []; garbage := fun _ => 0 |};
     in_timer_grants := [] |}.

(** The packet of [ex_packet], signed with the number 42. *)
Definition ex_signed : list Z :=
  match eigrp_auth_transmit_finalize ex_lookup ex_ntop (ex_auth EIGRP_AUTH_TYPE_MD5) 41
          (endp (ex_packet EIGRP_AUTH_TYPE_MD5)) (ex_packet EIGRP_AUTH_TYPE_MD5) with
  | Some (_, s) => written s
  | None => []
  end.
Definition ex_input : packet_input :=
  {| pi_data := replicate 20 69 ++ ex_signed; pi_endp := 20 + length ex_signed;
     pi_network_header_length := 20; pi_eigrp_length := length ex_signed; pi_ifindex := 3; pi_source := ex_source;
     ingress_authenticated := false; ingress_neighbor_generation := 0; ingress_discovery := false |}.
Definition ex_admitted : bool * packet_input * in_instance :=
  match eigrp_packet_ingress_authenticate ex_lookup ex_ntop (fun _ _ => true) ex_ingress ex_input with
  | Some r => r
  | None => (false, ex_input, ex_ingress)
  end.

Lemma ex_input_ok : input_ok ex_input.
Proof.
  assert (forallb (fun b => (0 <=? b) && (b <? 256)) (pi_data ex_input) = true) as H by (vm_compute; reflexivity).
  split; [|vm_compute; lia]. apply Forall_forall. intros x Hx. rewrite forallb_forall in H.
  apply list_elem_of_In in Hx. specialize (H x Hx). unfold byte. lia.
Qed.

Lemma ingress_admits_verified_witness :
  exists ok input' instance',
    eigrp_packet_ingress_authenticate ex_lookup ex_ntop (fun _ _ => true) ex_ingress ex_input = Some (ok, input', instance')
    /\ ok = true.
Proof.
  destruct (ingress_admits_verified ex_lookup ex_ntop (fun _ _ => true) ex_ingress ex_input) as (ok & i' & n' & E & _).
  - exact ex_input_ok.
  - repeat constructor.
  - exists ok, i', n'. split; [exact E|].
    assert (fst (fst ex_admitted) = true) as H by (vm_compute; reflexivity).
    unfold ex_admitted in H. rewrite E in H. exact H.
Defined.

Lemma ingress_refuses_replay_witness :
  eigrp_packet_ingress_authenticate ex_lookup ex_ntop (fun _ _ => true) (snd ex_admitted) ex_input
  = Some (false, ex_input, snd ex_admitted).
Proof.
  refine (ingress_refuses_replay ex_lookup ex_ntop (fun _ _ => true) ex_ingress ex_input (snd (fst ex_admitted))
    (snd ex_admitted) 0 (hd (Build_in_intf 0 [] true (ex_auth 0) []) (in_intfs ex_ingress)) ex_signed 0
    (hd (Build_in_nbr ex_source [] false 0 false false 0 0 0 None)
       (in_nbrs (hd (Build_in_intf 0 [] true (ex_auth 0) []) (in_intfs ex_ingress)))) _ _ _ _ _ _).
  - exact ex_input_ok.
  - repeat constructor.
  - vm_compute. reflexivity.
  - vm_compute. reflexivity.
  - vm_compute. congruence.
  - vm_compute. reflexivity.
Defined.
