(* ===== verification/AfVectors.v ===== *)
(** * Address-family vectors (eigrp_ipv4.c, eigrp_ipv6.c)

    The table of wire primitives an address family binds ([eigrp_af_vectors_t]),
    its two implementations, and the class of laws the TLV codecs rely on. *)

From Stdlib Require Import ZArith Lia.
From stdpp Require Import base gmap list.
From S2P Require Import Prelude Types Prefix PrefixProps Stream.

Definition EIGRP_AF_IPv4 : Z := 1.
Definition EIGRP_AF_IPv6 : Z := 2.
Definition EIGRP_IPV4_MAX_BITLEN : Z := 32.
Definition EIGRP_IPV6_MAX_BITLEN : Z := 128.
Definition EIGRP_IPV4_ADDRESS_BYTES : nat := 4.
Definition EIGRP_IPV6_ADDRESS_BYTES : nat := 16.

(** The members used by packet processing.  An output argument is an argument
    (its value before the call) and a component of the result. *)
Record eigrp_af_vectors := {
  v_afi : Z;
  packet_address_bytes : nat;
  packet_address_decode : eigrp_addr -> Sm (nat * eigrp_addr);
  packet_address_encode : eigrp_addr -> Sm nat;
  packet_prefix_decode : eigrp_prefix -> Sm (nat * eigrp_prefix);
  packet_prefix_encode : eigrp_prefix -> Sm nat;
  v_internal_tlv_type : Z;
  v_external_tlv_type : Z;
  multiprotocol_afi : Z;
}.

(** [stream_has] of both files. *)
Definition stream_has (needed : nat) : Sm bool :=
  s ← get;
  mret (if (endp s <=? getp s)%nat then (needed =? 0)%nat else (needed <=? endp s - getp s)%nat).

(** ** The code the two files share, up to the constants *)

Section shared.
Context (family socket_family : Z) (address_bytes : nat) (max_bits : Z).
Context (prefix_bytes : Z -> nat).

(** A zeroed [eigrp_addr_t] with the bytes copied into its union. *)
Definition addr_of (bs : list Z) : eigrp_addr :=
  {| addr_afi := socket_family; addr_ip := bs ++ zero_bytes (16 - length bs) |}.

Definition address_decode (address : eigrp_addr) : Sm (nat * eigrp_addr) :=
  ok ← stream_has address_bytes;
  if negb ok then mret (O, address)
  else bs ← eigrp_stream_get address_bytes; mret (address_bytes, addr_of bs).

Definition address_encode (address : eigrp_addr) : Sm nat :=
  if negb (addr_afi address =? 0) && negb (addr_afi address =? socket_family) then mret O
  else _ ← eigrp_stream_put (take address_bytes (addr_ip address)); mret address_bytes.

Definition prefix_decode (prefix : eigrp_prefix) : Sm (nat * eigrp_prefix) :=
  ok ← stream_has 1;
  if negb ok then mret (O, prefix)
  else
    start ← gets getp;
    len ← eigrp_stream_getc;
    if max_bits <? len then eigrp_stream_set_getp start;; mret (O, prefix)
    else
      let address_length := prefix_bytes len in
      ok ← stream_has address_length;
      if negb ok then eigrp_stream_set_getp start;; mret (O, prefix)
      else
        bs ← (if (address_length =? 0)%nat then mret [] else eigrp_stream_get address_length);
        let prefix := {| address := {| afi := family; bytes := bs ++ zero_bytes (16 - length bs) |};
                         prefix_length := len |} in
        mret ((1 + address_length)%nat, eigrp_prefix_normalize prefix).

(** After the guard of the caller. *)
Definition prefix_encode (prefix : eigrp_prefix) : Sm nat :=
  let normalized := eigrp_prefix_normalize prefix in
  let address_length := prefix_bytes (prefix_length normalized) in
  _ ← eigrp_stream_putc (prefix_length normalized);
  (if (address_length =? 0)%nat then mret tt
   else _ ← eigrp_stream_put (take address_length (bytes (address normalized))); mret tt);;
  mret (1 + address_length)%nat.
End shared.

(** ** IPv4 *)

Definition eigrp_ipv4_prefix_bytes (prefix_length : Z) : nat :=
  if prefix_length =? 0 then 0 else Z.to_nat ((prefix_length - 1) / 8 + 1).

Definition eigrp_ipv4_packet_address_decode : eigrp_addr -> Sm (nat * eigrp_addr) :=
  address_decode AF_INET EIGRP_IPV4_ADDRESS_BYTES.
Definition eigrp_ipv4_packet_address_encode : eigrp_addr -> Sm nat :=
  address_encode AF_INET EIGRP_IPV4_ADDRESS_BYTES.
Definition eigrp_ipv4_packet_prefix_decode : eigrp_prefix -> Sm (nat * eigrp_prefix) :=
  prefix_decode EIGRP_AFI_IPV4 EIGRP_IPV4_MAX_BITLEN eigrp_ipv4_prefix_bytes.
Definition eigrp_ipv4_packet_prefix_encode (prefix : eigrp_prefix) : Sm nat :=
  if negb (afi (address prefix) =? EIGRP_AFI_IPV4) || (EIGRP_IPV4_MAX_BITLEN <? prefix_length prefix)
  then mret O else prefix_encode eigrp_ipv4_prefix_bytes prefix.

Definition eigrp_ipv4_init : eigrp_af_vectors :=
  {| v_afi := EIGRP_AFI_IPV4;
     packet_address_bytes := EIGRP_IPV4_ADDRESS_BYTES;
     packet_address_decode := eigrp_ipv4_packet_address_decode;
     packet_address_encode := eigrp_ipv4_packet_address_encode;
     packet_prefix_decode := eigrp_ipv4_packet_prefix_decode;
     packet_prefix_encode := eigrp_ipv4_packet_prefix_encode;
     v_internal_tlv_type := EIGRP_TLV_IPv4_INT;
     v_external_tlv_type := EIGRP_TLV_IPv4_EXT;
     multiprotocol_afi := EIGRP_AF_IPv4 |}.

(** [point_to_point] is [ei->type == EIGRP_IFTYPE_POINTOPOINT], [local] is
    [ei->address]. *)
Definition eigrp_ipv4_packet_source_on_link (point_to_point : bool) (local : eigrp_prefix)
    (source : eigrp_addr) : bool :=
  if negb (addr_afi source =? AF_INET) then false
  else if point_to_point then true
  else if negb (afi (address local) =? EIGRP_AFI_IPV4) || (32 <? prefix_length local) then false
  else
    let here := from_be (take 4 (bytes (address local))) in
    let remote := from_be (take 4 (addr_ip source)) in
    let mask := if prefix_length local =? 0 then 0
                else u32 (0xffffffff .<< (32 - prefix_length local)) in
    here .& mask =? remote .& mask.

(** The classful network of a component; [inr] is the error returned. *)
Definition eigrp_ipv4_summary_auto_prefix (component : eigrp_prefix) : eigrp_prefix + eigrp_result :=
  if negb (afi (address component) =? EIGRP_AFI_IPV4) || negb (eigrp_prefix_valid component)
  then inr EIGRP_RESULT_INVALID_ARGUMENT
  else
    let first_octet := byte_at (bytes (address component)) 0 in
    let summary classful_length :=
      if prefix_length component <? classful_length then inr EIGRP_RESULT_NOT_FOUND
      else inl {| address := {| afi := EIGRP_AFI_IPV4;
                    bytes := take (Z.to_nat (classful_length / 8)) (bytes (address component))
                             ++ zero_bytes (16 - Z.to_nat (classful_length / 8)) |};
                  prefix_length := classful_length |} in
    if first_octet <? 128 then summary 8
    else if first_octet <? 192 then summary 16
    else if first_octet <? 224 then summary 24
    else inr EIGRP_RESULT_UNSUPPORTED.

(** ** IPv6 *)

Definition eigrp_ipv6_prefix_bytes (prefix_length : Z) : nat :=
  if prefix_length =? 0 then 0
  else if prefix_length =? EIGRP_IPV6_MAX_BITLEN then EIGRP_IPV6_ADDRESS_BYTES
  else Z.to_nat (prefix_length / 8 + 1).

Definition eigrp_ipv6_packet_address_decode : eigrp_addr -> Sm (nat * eigrp_addr) :=
  address_decode AF_INET6 EIGRP_IPV6_ADDRESS_BYTES.
Definition eigrp_ipv6_packet_address_encode : eigrp_addr -> Sm nat :=
  address_encode AF_INET6 EIGRP_IPV6_ADDRESS_BYTES.
Definition eigrp_ipv6_packet_prefix_decode : eigrp_prefix -> Sm (nat * eigrp_prefix) :=
  prefix_decode EIGRP_AFI_IPV6 EIGRP_IPV6_MAX_BITLEN eigrp_ipv6_prefix_bytes.
Definition eigrp_ipv6_packet_prefix_encode (prefix : eigrp_prefix) : Sm nat :=
  if negb (afi (address prefix) =? EIGRP_AFI_IPV6) || negb (eigrp_prefix_valid prefix)
  then mret O else prefix_encode eigrp_ipv6_prefix_bytes prefix.

(** [IN6_IS_ADDR_LINKLOCAL]: fe80::/10. *)
Definition eigrp_ipv6_packet_source_on_link (source : eigrp_addr) : bool :=
  (addr_afi source =? AF_INET6) && (byte_at (addr_ip source) 0 =? 0xfe)
  && (byte_at (addr_ip source) 1 .& 0xc0 =? 0x80).

Definition eigrp_ipv6_summary_auto_prefix (component : eigrp_prefix) : eigrp_prefix + eigrp_result :=
  inr EIGRP_RESULT_UNSUPPORTED.

Definition eigrp_ipv6_init : eigrp_af_vectors :=
  {| v_afi := EIGRP_AFI_IPV6;
     packet_address_bytes := EIGRP_IPV6_ADDRESS_BYTES;
     packet_address_decode := eigrp_ipv6_packet_address_decode;
     packet_address_encode := eigrp_ipv6_packet_address_encode;
     packet_prefix_decode := eigrp_ipv6_packet_prefix_decode;
     packet_prefix_encode := eigrp_ipv6_packet_prefix_encode;
     v_internal_tlv_type := EIGRP_TLV_IPv6_INT;
     v_external_tlv_type := EIGRP_TLV_IPv6_EXT;
     multiprotocol_afi := EIGRP_AF_IPv6 |}.

(** ** The laws of an address family *)

Section wire_format.
Context (v : eigrp_af_vectors).

Definition socket_family : Z := if v_afi v =? EIGRP_AFI_IPV4 then AF_INET else AF_INET6.
Definition prefix_octets : Z -> nat :=
  if v_afi v =? EIGRP_AFI_IPV4 then eigrp_ipv4_prefix_bytes else eigrp_ipv6_prefix_bytes.

(** An address of the family: its bytes, then zeros. *)
Record addr_ok (a : eigrp_addr) : Prop := {
  ao_family : addr_afi a = socket_family;
  ao_bytes : Forall byte (addr_ip a);
  ao_split : addr_ip a = take (packet_address_bytes v) (addr_ip a)
                         ++ zero_bytes (16 - packet_address_bytes v);
  ao_length : length (addr_ip a) = 16%nat;
}.

Record prefix_ok (p : eigrp_prefix) : Prop := {
  po_wf : prefix_wf p;
  po_valid : eigrp_prefix_valid p = true;
  po_family : afi (address p) = v_afi v;
}.

(** A next hop as the code keeps it: an address of the family, or one whose family is
    not set. *)
Definition socketed (a : eigrp_addr) : eigrp_addr := {| a with addr_afi := socket_family |}.
Definition nexthop_ok (a : eigrp_addr) : Prop :=
  addr_ok (socketed a) /\ (addr_afi a = 0 \/ addr_afi a = socket_family).

Definition addr_wire (a : eigrp_addr) : list Z := take (packet_address_bytes v) (addr_ip a).
Definition prefix_wire (p : eigrp_prefix) : list Z :=
  to_be 1 (prefix_length p)
  ++ take (prefix_octets (prefix_length p)) (bytes (address (eigrp_prefix_normalize p))).
End wire_format.

(** What [eigrp_af_vectors_t] promises to the TLV codecs. *)
Class AfLaws (v : eigrp_af_vectors) : Prop := {
  al_width : (0 < packet_address_bytes v <= 16)%nat;
  al_even : Nat.even (packet_address_bytes v) = true;
  al_types : 0 < v_internal_tlv_type v < 2 ^ 16 /\ 0 < v_external_tlv_type v < 2 ^ 16
    /\ v_internal_tlv_type v <> v_external_tlv_type v /\ 0 <= multiprotocol_afi v < 2 ^ 16;
  al_unset a : addr_afi a = 0 -> packet_address_encode v a = packet_address_encode v (socketed v a);
  al_address_encode a s (Q : nat -> eigrp_stream -> Prop) :
    addr_ok v a -> stream_wf s -> stream_room s (packet_address_bytes v) ->
    (forall s', appended s s' (addr_wire v a) -> Q (packet_address_bytes v) s') ->
    wp (packet_address_encode v a) Q s;
  al_address_decode a old rest s (Q : nat * eigrp_addr -> eigrp_stream -> Prop) :
    addr_ok v a -> stream_wf s -> unread s = addr_wire v a ++ rest ->
    (let s' := advance (packet_address_bytes v) s in
     stream_wf s' -> unread s' = rest -> Q (packet_address_bytes v, a) s') ->
    wp (packet_address_decode v old) Q s;
  al_prefix_encode p s (Q : nat -> eigrp_stream -> Prop) :
    prefix_ok v p -> stream_wf s -> stream_room s 17 ->
    (forall s', appended s s' (prefix_wire v p) -> Q (length (prefix_wire v p)) s') ->
    wp (packet_prefix_encode v p) Q s;
  al_prefix_decode p old rest s (Q : nat * eigrp_prefix -> eigrp_stream -> Prop) :
    prefix_ok v p -> stream_wf s -> unread s = prefix_wire v p ++ rest ->
    (let s' := advance (length (prefix_wire v p)) s in
     stream_wf s' -> unread s' = rest ->
     Q (length (prefix_wire v p), eigrp_prefix_normalize p) s') ->
    wp (packet_prefix_decode v old) Q s;
  al_wire_length p : prefix_ok v p -> (1 <= length (prefix_wire v p) <= 17)%nat;
  (** On any input: only the read position moves, and not past the end. *)
  al_address_safe old s (Q : nat * eigrp_addr -> eigrp_stream -> Prop) :
    stream_wf s ->
    (forall a n, (n <= length (unread s))%nat -> a.1 = n ->
       stream_wf (advance n s) -> Q a (advance n s)) ->
    wp (packet_address_decode v old) Q s;
  al_prefix_safe old s (Q : nat * eigrp_prefix -> eigrp_stream -> Prop) :
    stream_wf s ->
    (forall a n, (n <= length (unread s))%nat -> a.1 = n -> stream_wf (advance n s) ->
       (n <> O -> prefix_ok v a.2) -> Q a (advance n s)) ->
    wp (packet_prefix_decode v old) Q s;
}.

(** ** The shared code satisfies the laws *)

Section shared_laws.
Lemma wp_stream_has n s (Q : bool -> eigrp_stream -> Prop) :
  stream_wf s -> Q (n <=? length (unread s))%nat s -> wp (stream_has n) Q s.
Proof.
  intros W HQ. rewrite (unread_length s W) in HQ. destruct W as [W _ _].
  unfold stream_has. rewrite wp_bind, wp_get, wp_ret.
  destruct (Nat.leb_spec (endp s) (getp s)); [|done].
  replace (endp s - getp s)%nat with O in HQ by lia. by destruct n.
Qed.

Lemma take_min {A} (l : list A) n : (n <= length l)%nat -> length (take n l) = n.
Proof. intros H. rewrite length_take. lia. Qed.

Lemma advance_0 s : advance 0 s = s.
Proof. destruct s. unfold advance. simpl. by rewrite Nat.add_0_r. Qed.

Lemma advance_advance n m s : advance m (advance n s) = advance (n + m) s.
Proof. unfold advance. simpl. by rewrite Nat.add_assoc. Qed.

(** A decoder that gives up rewinds to where it began. *)
Lemma wp_rewind n s (Q : unit -> eigrp_stream -> Prop) :
  stream_wf s -> Q tt s -> wp (eigrp_stream_set_getp (getp s)) Q (advance n s).
Proof.
  intros [H _ _] HQ. apply wp_set_getp. simpl. rewrite (proj2 (Nat.leb_le _ _)) by done.
  by destruct s.
Qed.

Context (sock : Z) (width : nat).
Hypothesis Hwidth : (0 < width <= 16)%nat.

Lemma wp_address_encode a s (Q : nat -> eigrp_stream -> Prop) :
  addr_afi a = sock -> Forall byte (addr_ip a) -> length (addr_ip a) = 16%nat ->
  stream_wf s -> stream_room s width ->
  (forall s', appended s s' (take width (addr_ip a)) -> Q width s') ->
  wp (address_encode sock width a) Q s.
Proof.
  intros Hs Hb Hl W R HQ. unfold address_encode. rewrite Hs, Z.eqb_refl, andb_false_r, wp_bind.
  eapply wp_put_chain; [by apply appended_refl|exact R| |by apply Forall_take|].
  - rewrite length_take. simpl. lia.
  - intros s' A. rewrite wp_ret. by apply HQ.
Qed.

Lemma wp_address_decode bs old rest s (Q : nat * eigrp_addr -> eigrp_stream -> Prop) :
  length bs = width -> stream_wf s -> unread s = bs ++ rest ->
  (stream_wf (advance width s) -> unread (advance width s) = rest ->
     Q (width, addr_of sock bs) (advance width s)) ->
  wp (address_decode sock width old) Q s.
Proof.
  intros Hl W Hu HQ. unfold address_decode. rewrite wp_bind. apply wp_stream_has; [done|].
  rewrite Hu, length_app, (proj2 (Nat.leb_le _ _)) by lia. simpl. rewrite wp_bind.
  eapply wp_get_exact; [done|exact Hu|done|]. intros W' Hu'. rewrite wp_ret. by apply HQ.
Qed.

Lemma wp_address_safe old s (Q : nat * eigrp_addr -> eigrp_stream -> Prop) :
  stream_wf s ->
  (forall a n, (n <= length (unread s))%nat -> a.1 = n -> stream_wf (advance n s) ->
     Q a (advance n s)) ->
  wp (address_decode sock width old) Q s.
Proof.
  intros W HQ. unfold address_decode. rewrite wp_bind. apply wp_stream_has; [done|].
  destruct (Nat.leb_spec width (length (unread s))) as [H|H]; simpl.
  - rewrite wp_bind. apply wp_stream_get; [done|]. rewrite wp_ret, Nat.min_l by done.
    apply HQ; [done|done|by apply advance_wf].
  - rewrite wp_ret. rewrite <-(advance_0 s). apply HQ; [lia|done|by rewrite advance_0].
Qed.

End shared_laws.

Section prefix_laws.
Context (family max_bits : Z) (octets : Z -> nat).
Hypothesis Hoctets : forall len, 0 <= len <= max_bits ->
  len <= 8 * Z.of_nat (octets len) /\ (octets len <= 16)%nat.
Hypothesis Hvalid : forall p, afi (address p) = family ->
  eigrp_prefix_valid p = (prefix_length p <=? max_bits).

(** The bytes dropped from the wire are zero in a normalised prefix. *)
Lemma normalized_tail p k :
  prefix_wf p -> eigrp_prefix_valid p = true -> prefix_length p <= 8 * Z.of_nat k -> (k <= 16)%nat ->
  take k (bytes (address (eigrp_prefix_normalize p))) ++ zero_bytes (16 - k)
  = bytes (address (eigrp_prefix_normalize p)).
Proof.
  intros W V Hk Hk16. pose proof (normalize_same_length p W V) as (_ & _ & Hl).
  pose proof (normalize_byte p W V) as Hb. set (b := bytes _) in *.
  apply list_eq. intros j. destruct (Nat.lt_ge_cases j k) as [Hj|Hj].
  { rewrite lookup_app_l by (rewrite length_take; lia). by rewrite lookup_take_lt. }
  rewrite lookup_app_r by (rewrite length_take; lia). rewrite length_take, Nat.min_l by lia.
  destruct (Nat.lt_ge_cases j 16) as [Hj'|Hj'].
  - unfold zero_bytes. rewrite lookup_replicate_2 by lia.
    destruct (lookup_lt_is_Some_2 b j) as [x Hx]; [lia|]. rewrite Hx. f_equal.
    specialize (Hb j). unfold byte_at at 1 in Hb. rewrite Hx in Hb. change (default 0 (Some x)) with x in Hb. subst x.
    destruct W as [_ W0]. pose proof (Z.div_mod (prefix_length p) 8).
    pose proof (Z.mod_pos_bound (prefix_length p) 8).
    destruct (Nat.ltb_spec j (Z.to_nat (prefix_length p / 8))) as [H1|H1]; [lia|].
    destruct (Nat.eqb_spec j (Z.to_nat (prefix_length p / 8))) as [H2|H2]; cbn [andb].
    + destruct (Z.eqb_spec (prefix_length p mod 8) 0) as [H3|H3]; cbn [negb]; [|lia].
      destruct (Nat.leb_spec 16 j); [lia|done].
    + destruct (Nat.leb_spec 16 j); [lia|done].
  - rewrite !lookup_ge_None_2; [done|lia|unfold zero_bytes; rewrite length_replicate; lia].
Qed.

Abbreviation wire p :=
  (to_be 1 (prefix_length p) ++ take (octets (prefix_length p)) (bytes (address (eigrp_prefix_normalize p)))).

Lemma wp_prefix_encode p s (Q : nat -> eigrp_stream -> Prop) :
  prefix_wf p -> eigrp_prefix_valid p = true -> prefix_length p <= max_bits ->
  stream_wf s -> stream_room s 17 ->
  (forall s', appended s s' (wire p) -> Q (length (wire p)) s') ->
  wp (prefix_encode octets p) Q s.
Proof.
  intros Wp V Hlen W R HQ. destruct (normalize_same_length p Wp V) as (E1 & _ & E3).
  destruct (normalize_wf p Wp V) as [[_ B] _]. pose proof (pw_length _ Wp) as H0.
  destruct (Hoctets (prefix_length p)) as [Ho1 Ho2]; [lia|].
  unfold prefix_encode. rewrite E1, wp_bind. unfold eigrp_stream_putc.
  rewrite length_app, to_be_length, take_min in HQ by lia.
  eapply (wp_put_be_chain 1 (prefix_length p));
    [done|by apply appended_refl|exact R|simpl; lia|]. intros s1 A1. rewrite wp_bind.
  destruct (Nat.eqb_spec (octets (prefix_length p)) 0) as [E|E]; rewrite ?wp_ret, ?wp_bind.
  - apply HQ. by rewrite E, app_nil_r in *.
  - eapply wp_put_chain; [exact A1|exact R| |by apply Forall_take|].
    + rewrite take_min by lia. simpl. lia.
    + intros s2 A2. rewrite !wp_ret. by apply HQ.
Qed.

Lemma wp_prefix_decode p old rest s (Q : nat * eigrp_prefix -> eigrp_stream -> Prop) :
  prefix_wf p -> eigrp_prefix_valid p = true -> afi (address p) = family ->
  stream_wf s -> unread s = wire p ++ rest ->
  (let s' := advance (length (wire p)) s in
   stream_wf s' -> unread s' = rest -> Q (length (wire p), eigrp_prefix_normalize p) s') ->
  wp (prefix_decode family max_bits octets old) Q s.
Proof.
  intros Wp V Hf W Hu HQ. destruct (normalize_same_length p Wp V) as (E1 & E2 & E3).
  pose proof (pw_length _ Wp) as H0. pose proof V as V'. rewrite Hvalid in V' by done.
  apply Z.leb_le in V'. destruct (Hoctets (prefix_length p)) as [Ho1 Ho2]; [lia|].
  rewrite length_app, to_be_length, take_min in HQ by lia. cbv zeta in HQ.
  unfold prefix_decode. rewrite wp_bind. apply wp_stream_has; [done|].
  rewrite Hu, !length_app, to_be_length, (proj2 (Nat.leb_le _ _)) by lia. simpl negb.
  cbv iota. rewrite wp_bind, wp_gets, wp_bind. rewrite <-app_assoc in Hu.
  eapply (wp_get_be 1 (prefix_length p)); [done|exact Hu|simpl; lia|]. intros W1 Hu1.
  rewrite (proj2 (Z.ltb_ge _ _)) by lia. rewrite wp_bind. apply wp_stream_has; [done|].
  rewrite Hu1, length_app, take_min, (proj2 (Nat.leb_le _ _)) by lia. simpl negb. cbv iota.
  rewrite wp_bind. set (bs := take _ _) in *.
  assert (Hbs : length bs = octets (prefix_length p)) by (apply take_min; lia).
  assert (Hn : eigrp_prefix_normalize {| address := {| afi := family;
      bytes := bs ++ zero_bytes (16 - length bs) |}; prefix_length := prefix_length p |}
    = eigrp_prefix_normalize p).
  { unfold bs at 1. rewrite Hbs, normalized_tail by (done || lia).
    pose proof (prefix_normalize_idem p Wp V) as Hi. rewrite <-Hi. f_equal.
    rewrite Hi, <-E1, <-Hf, <-E2. by destruct (eigrp_prefix_normalize p) as [[a b] l]. }
  assert (Hfin : stream_wf (advance (octets (prefix_length p)) (advance 1 s)) ->
    unread (advance (octets (prefix_length p)) (advance 1 s)) = rest ->
    wp (mret ((1 + octets (prefix_length p))%nat, eigrp_prefix_normalize {| address := {| afi := family;
      bytes := bs ++ zero_bytes (16 - length bs) |}; prefix_length := prefix_length p |})) Q
      (advance (octets (prefix_length p)) (advance 1 s))).
  { intros W2 Hu2. rewrite wp_ret, Hn. rewrite advance_advance in *. by apply HQ. }
  destruct (Nat.eqb_spec (octets (prefix_length p)) 0) as [E|E].
  - rewrite wp_ret. assert (bs = []) as Eb by (apply nil_length_inv; lia).
    rewrite E, Eb, advance_0 in Hfin. rewrite E. apply Hfin; [done|].
    rewrite Hu1, Eb. done.
  - eapply wp_get_exact; [done|exact Hu1|done|]. exact Hfin.
Qed.

Lemma wp_prefix_safe old s (Q : nat * eigrp_prefix -> eigrp_stream -> Prop) :
  stream_wf s ->
  (forall a n, (n <= length (unread s))%nat -> a.1 = n -> stream_wf (advance n s) ->
     (n <> O -> prefix_wf a.2 /\ eigrp_prefix_valid a.2 = true /\ afi (address a.2) = family) ->
     Q a (advance n s)) ->
  wp (prefix_decode family max_bits octets old) Q s.
Proof.
  intros W HQ.
  assert (Hfail : Q (O, old) s).
  { rewrite <-(advance_0 s). apply HQ; [lia|done|by rewrite advance_0|done]. }
  unfold prefix_decode. rewrite wp_bind. apply wp_stream_has; [done|].
  destruct (Nat.leb_spec 1 (length (unread s))) as [H1|H1]; cbn [negb]; [|done].
  rewrite wp_bind, wp_gets, wp_bind. apply wp_get_be_any; [done|].
  intros len n Hlen En W1. rewrite Nat.min_l in En by done. subst n.
  destruct (Z.ltb_spec max_bits len) as [Hm|Hm].
  { rewrite wp_bind. by apply wp_rewind. }
  destruct (Hoctets len) as [Ho1 Ho2]; [lia|]. rewrite wp_bind. apply wp_stream_has; [done|].
  destruct (Nat.leb_spec (octets len) (length (unread (advance 1 s)))) as [H2|H2]; cbn [negb].
  2:{ rewrite wp_bind. by apply wp_rewind. }
  assert (Hfin : forall bs, length bs = octets len -> Forall byte bs ->
    Q ((1 + octets len)%nat, eigrp_prefix_normalize {| address := {| afi := family;
      bytes := bs ++ zero_bytes (16 - length bs) |}; prefix_length := len |})
      (advance (octets len) (advance 1 s))).
  { intros bs Hbs Bbs. set (p := {| address := _; prefix_length := _ |}).
    assert (Wp : prefix_wf p).
    { split; [split|simpl; lia]; simpl; unfold zero_bytes.
      - rewrite length_app, length_replicate. lia.
      - apply Forall_app. split; [done|]. apply Forall_replicate. unfold byte. lia. }
    assert (Vp : eigrp_prefix_valid p = true) by (rewrite Hvalid; [apply Z.leb_le|]; done).
    rewrite advance_advance. rewrite unread_advance, length_drop in H2.
    apply HQ; [lia|done|apply advance_wf; [done|lia]|]. intros _.
    split; [by apply normalize_wf|]. split; [by apply normalize_valid|].
    exact (proj1 (proj2 (normalize_same_length p Wp Vp))). }
  rewrite wp_bind. destruct (Nat.eqb_spec (octets len) 0) as [E|E].
  - rewrite !wp_ret. specialize (Hfin [] (eq_sym E) (Forall_nil_2 _)).
    rewrite E, advance_0 in Hfin. by rewrite E.
  - apply wp_stream_get; [done|]. rewrite wp_ret, Nat.min_l by done.
    apply Hfin; [by apply take_min|by apply Forall_take, unread_bytes].
Qed.
End prefix_laws.

(** ** Both families satisfy the laws *)

Lemma addr_of_wire v a :
  addr_ok v a -> (packet_address_bytes v <= 16)%nat ->
  addr_of (socket_family v) (addr_wire v a) = a.
Proof.
  intros [H1 H2 H3 H4] Hw. unfold addr_of, addr_wire. rewrite length_take, H4, Nat.min_l by done.
  rewrite <-H3, <-H1. by destruct a.
Qed.

Lemma ipv4_octets len : 0 <= len <= EIGRP_IPV4_MAX_BITLEN ->
  len <= 8 * Z.of_nat (eigrp_ipv4_prefix_bytes len) /\ (eigrp_ipv4_prefix_bytes len <= 16)%nat.
Proof.
  unfold eigrp_ipv4_prefix_bytes, EIGRP_IPV4_MAX_BITLEN. intros H.
  destruct (Z.eqb_spec len 0); [simpl; lia|].
  pose proof (Z.div_mod (len - 1) 8). pose proof (Z.mod_pos_bound (len - 1) 8).
  pose proof (Z.div_pos (len - 1) 8). lia.
Qed.
Lemma ipv6_octets len : 0 <= len <= EIGRP_IPV6_MAX_BITLEN ->
  len <= 8 * Z.of_nat (eigrp_ipv6_prefix_bytes len) /\ (eigrp_ipv6_prefix_bytes len <= 16)%nat.
Proof.
  unfold eigrp_ipv6_prefix_bytes, EIGRP_IPV6_MAX_BITLEN, EIGRP_IPV6_ADDRESS_BYTES. intros H.
  destruct (Z.eqb_spec len 0); [simpl; lia|]. destruct (Z.eqb_spec len 128); [simpl; lia|].
  pose proof (Z.div_mod len 8). pose proof (Z.mod_pos_bound len 8). pose proof (Z.div_pos len 8). lia.
Qed.

Lemma ipv4_valid p : afi (address p) = EIGRP_AFI_IPV4 ->
  eigrp_prefix_valid p = (prefix_length p <=? EIGRP_IPV4_MAX_BITLEN).
Proof. intros E. unfold eigrp_prefix_valid. by rewrite E. Qed.
Lemma ipv6_valid p : afi (address p) = EIGRP_AFI_IPV6 ->
  eigrp_prefix_valid p = (prefix_length p <=? EIGRP_IPV6_MAX_BITLEN).
Proof. intros E. unfold eigrp_prefix_valid. by rewrite E. Qed.

Lemma wire_length v p :
  prefix_ok v p -> (prefix_octets v (prefix_length p) <= 16)%nat ->
  (1 <= length (prefix_wire v p) <= 17)%nat.
Proof.
  intros [W V _] Ho. destruct (normalize_same_length p W V) as (_ & _ & E).
  unfold prefix_wire. rewrite length_app, to_be_length, length_take. lia.
Qed.

#[export] Instance ipv4_laws : AfLaws eigrp_ipv4_init.
Proof.
  assert (Hw : (0 < EIGRP_IPV4_ADDRESS_BYTES <= 16)%nat) by (unfold EIGRP_IPV4_ADDRESS_BYTES; lia).
  assert (Hlen : forall p, prefix_ok eigrp_ipv4_init p -> prefix_length p <= EIGRP_IPV4_MAX_BITLEN).
  { intros p [W V F]. rewrite ipv4_valid in V by done. lia. }
  split; [done|done|vm_compute; repeat split; congruence|by intros [f ip] E; simpl in E; subst f| | | | | | |].
  - intros a s Q [A1 A2 A3 A4] W R HQ. by apply wp_address_encode.
  - intros a old rest s Q A W Hu HQ. pose proof (addr_of_wire _ a A ltac:(apply Hw)) as Ea.
    eapply (wp_address_decode _ _ Hw (addr_wire eigrp_ipv4_init a)); [|done|exact Hu|].
    + destruct A as [_ _ _ A]. unfold addr_wire. rewrite length_take, A. done.
    + intros W' Hu'. unfold socket_family in Ea. simpl in Ea. rewrite Ea. by apply HQ.
  - intros p s Q P W R HQ. pose proof (Hlen p P). destruct P as [Wp V F].
    simpl. unfold eigrp_ipv4_packet_prefix_encode. rewrite F, Z.eqb_refl, (proj2 (Z.ltb_ge _ _)) by done.
    by apply (wp_prefix_encode EIGRP_IPV4_MAX_BITLEN _ ipv4_octets).
  - intros p old rest s Q [Wp V F] W Hu HQ.
    by apply (wp_prefix_decode _ _ _ ipv4_octets ipv4_valid p old rest).
  - intros p P. apply wire_length; [done|]. apply ipv4_octets.
    pose proof (pw_length _ (po_wf _ _ P)). auto.
  - intros old s Q W HQ. by apply wp_address_safe.
  - intros old s Q W HQ. apply (wp_prefix_safe _ _ _ ipv4_octets ipv4_valid); [done|].
    intros a n H1 H2 H3 H4. apply HQ; [done..|]. intros Hn. by destruct (H4 Hn) as (? & ? & ?).
Qed.

#[export] Instance ipv6_laws : AfLaws eigrp_ipv6_init.
Proof.
  assert (Hw : (0 < EIGRP_IPV6_ADDRESS_BYTES <= 16)%nat) by (unfold EIGRP_IPV6_ADDRESS_BYTES; lia).
  assert (Hlen : forall p, prefix_ok eigrp_ipv6_init p -> prefix_length p <= EIGRP_IPV6_MAX_BITLEN).
  { intros p [W V F]. rewrite ipv6_valid in V by done. lia. }
  split; [done|done|vm_compute; repeat split; congruence|by intros [f ip] E; simpl in E; subst f| | | | | | |].
  - intros a s Q [A1 A2 A3 A4] W R HQ. by apply wp_address_encode.
  - intros a old rest s Q A W Hu HQ. pose proof (addr_of_wire _ a A ltac:(apply Hw)) as Ea.
    eapply (wp_address_decode _ _ Hw (addr_wire eigrp_ipv6_init a)); [|done|exact Hu|].
    + destruct A as [_ _ _ A]. unfold addr_wire. rewrite length_take, A. done.
    + intros W' Hu'. unfold socket_family in Ea. simpl in Ea. rewrite Ea. by apply HQ.
  - intros p s Q P W R HQ. pose proof (Hlen p P). destruct P as [Wp V F].
    simpl. unfold eigrp_ipv6_packet_prefix_encode. rewrite F, Z.eqb_refl, V.
    by apply (wp_prefix_encode EIGRP_IPV6_MAX_BITLEN _ ipv6_octets).
  - intros p old rest s Q [Wp V F] W Hu HQ.
    by apply (wp_prefix_decode _ _ _ ipv6_octets ipv6_valid p old rest).
  - intros p P. apply wire_length; [done|]. apply ipv6_octets.
    pose proof (pw_length _ (po_wf _ _ P)). auto.
  - intros old s Q W HQ. by apply wp_address_safe.
  - intros old s Q W HQ. apply (wp_prefix_safe _ _ _ ipv6_octets ipv6_valid); [done|].
    intros a n H1 H2 H3 H4. apply HQ; [done..|]. intros Hn. by destruct (H4 Hn) as (? & ? & ?).
Qed.

(** ** Next hops *)

Section nexthops.
Context (v : eigrp_af_vectors) `{!AfLaws v}.

Lemma addr_nexthop a : addr_ok v a -> nexthop_ok v a.
Proof.
  intros H. split; [|right; apply H]. destruct H as [H1 H2 H3 H4]. by split.
Qed.

Lemma wp_nexthop_encode a s (Q : nat -> eigrp_stream -> Prop) :
  nexthop_ok v a -> stream_wf s -> stream_room s (packet_address_bytes v) ->
  (forall s', appended s s' (addr_wire v a) -> Q (packet_address_bytes v) s') ->
  wp (packet_address_encode v a) Q s.
Proof.
  intros [H Hf] W R HQ.
  assert (packet_address_encode v a = packet_address_encode v (socketed v a)) as ->.
  { destruct Hf as [E|E]; [by apply al_unset|]. destruct a as [f ip]. simpl in E. by subst f. }
  by apply al_address_encode.
Qed.

Lemma addr_wire_length a : nexthop_ok v a -> length (addr_wire v a) = packet_address_bytes v.
Proof.
  intros [[_ _ _ H] _]. unfold addr_wire. simpl in H. rewrite length_take, H.
  pose proof (al_width (v := v)). lia.
Qed.
End nexthops.
#[export] Hint Resolve addr_nexthop : eigrp.
