(* ===== verification/Tlv1.v ===== *)
(** * Classic route TLV (eigrp_tlv1.c)

    Encoder and decoder of the 32-bit metric TLV over the byte stream, for any
    address family that satisfies [AfLaws]. *)

From Stdlib Require Import ZArith Lia.
From stdpp Require Import base gmap list.
From S2P Require Import Prelude Types Metric Prefix PrefixProps Stream AfVectors.

Definition EIGRP_TLV_HDR_SIZE : nat := 4.
Definition EIGRP_TLV1_METRIC_SIZE : nat := 16.
Definition EIGRP_TLV1_EXTDATA_SIZE : nat := 20.
Definition EIGRP_TLV1_DEST_PREFIX_SIZE : nat := 1.

(** [EIGRP_INT] and [EIGRP_EXT] of [msg_data_t] as values of [route->type]. *)
Definition EIGRP_INT_TYPE : Z := 1.
Definition EIGRP_EXT_TYPE : Z := 2.

(** [eigrp_topology_route_create]: the result of [calloc] is written without a
    test, so the NULL tests of the decoders never see a failure. *)
Definition tlv_route_create (ei : option ptr) : Sm eigrp_route_descriptor :=
  ok ← allocate;
  if ok : bool then
    mret {| rd_type := 0; rd_topology_id := 0; rd_dest := zero_prefix; rd_nexthop := zero_addr;
            rd_prefix := None; rd_adv_router := None;
            rd_reported_metric := zero_metrics; rd_reported_distance := EIGRP_MAX_METRIC;
            rd_total_metric := zero_metrics; rd_distance := EIGRP_MAX_METRIC;
            rd_metric := zero_metrics; rd_extdata := zero_extdata; rd_flags := 0; rd_ei := ei |}
  else ub.

(** ** Shared by the two codecs *)

Definition stream_remaining : Sm nat :=
  s ← get; mret (if (endp s <=? getp s)%nat then O else (endp s - getp s)%nat).
Definition tlv_stream_has (needed : nat) : Sm bool :=
  r ← stream_remaining; mret (needed <=? r)%nat.
Definition decode_abort : Sm unit := e ← gets endp; eigrp_stream_set_getp e.
Definition decode_skip (tlv_end : nat) : Sm unit :=
  e ← gets endp;
  if (tlv_end <=? e)%nat then eigrp_stream_set_getp tlv_end else decode_abort.

(** ** Sections of the TLV *)

Definition eigrp_tlv1_min_length (v : eigrp_af_vectors) (external : bool) : nat :=
  (EIGRP_TLV_HDR_SIZE + packet_address_bytes v + EIGRP_TLV1_METRIC_SIZE
   + EIGRP_TLV1_DEST_PREFIX_SIZE + (if external then EIGRP_TLV1_EXTDATA_SIZE else 0))%nat.

Definition eigrp_tlv1_external_decode : Sm (option eigrp_extdata) :=
  ok ← tlv_stream_has EIGRP_TLV1_EXTDATA_SIZE;
  if negb ok then mret None
  else
    orig ← eigrp_stream_getl; as_ ← eigrp_stream_getl; tag_ ← eigrp_stream_getl;
    metric ← eigrp_stream_getl; reserved ← eigrp_stream_getw;
    protocol ← eigrp_stream_getc; fl ← eigrp_stream_getc;
    mret (Some {| ext_orig := orig; ext_as := as_; ext_tag := tag_; ext_metric := metric;
                  ext_reserved := reserved; ext_protocol := protocol; ext_flags := fl |}).

Definition eigrp_tlv1_external_encode (x : eigrp_extdata) : Sm unit :=
  eigrp_stream_putl (ext_orig x);; eigrp_stream_putl (ext_as x);; eigrp_stream_putl (ext_tag x);;
  eigrp_stream_putl (ext_metric x);; eigrp_stream_putw (ext_reserved x);;
  eigrp_stream_putc (ext_protocol x);; eigrp_stream_putc (ext_flags x);; mret tt.

Definition eigrp_tlv1_metric_decode : Sm (option eigrp_metrics) :=
  ok ← tlv_stream_has EIGRP_TLV1_METRIC_SIZE;
  if negb ok then mret None
  else
    scaled ← eigrp_stream_getl; bw ← eigrp_stream_getl;
    m2 ← eigrp_stream_getc; m1 ← eigrp_stream_getc; m0 ← eigrp_stream_getc;
    hops ← eigrp_stream_getc; rel ← eigrp_stream_getc; ld ← eigrp_stream_getc;
    tg ← eigrp_stream_getc; fl ← eigrp_stream_getc;
    mret (Some {| delay := eigrp_scaled_to_delay scaled; bandwidth := bw;
                  mtu0 := m0; mtu1 := m1; mtu2 := m2; hop_count := hops;
                  reliability := rel; load := ld; tag := tg; flags := fl |}).

Definition eigrp_tlv1_metric_encode (m : eigrp_metrics) : Sm unit :=
  eigrp_stream_putl (eigrp_delay_to_scaled (delay m));; eigrp_stream_putl (bandwidth m);;
  eigrp_stream_putc (mtu2 m);; eigrp_stream_putc (mtu1 m);; eigrp_stream_putc (mtu0 m);;
  eigrp_stream_putc (hop_count m);; eigrp_stream_putc (reliability m);; eigrp_stream_putc (load m);;
  eigrp_stream_putc (tag m);; eigrp_stream_putc (flags m);; mret tt.

Definition eigrp_tlv1_route_tlv_type (v : eigrp_af_vectors) (route : eigrp_route_descriptor) : Z :=
  if (rd_type route =? EIGRP_INT_TYPE) || (rd_type route =? v_internal_tlv_type v)
  then v_internal_tlv_type v
  else if (rd_type route =? EIGRP_EXT_TYPE) || (rd_type route =? v_external_tlv_type v)
  then v_external_tlv_type v
  else 0.

(** ** Decoder *)

(** The sections after the header; [None] is [goto malformed]. *)
Definition tlv1_sections (v : eigrp_af_vectors) (external : bool) (length : nat)
    (route : eigrp_route_descriptor) : Sm (option eigrp_route_descriptor) :=
  '(decoded, nexthop) ← packet_address_decode v (rd_nexthop route);
  if negb (decoded =? packet_address_bytes v)%nat then mret None
  else
    let bytes := (EIGRP_TLV_HDR_SIZE + decoded)%nat in
    x ← (if external then
           x ← eigrp_tlv1_external_decode; mret (x ← x; Some (x, EIGRP_TLV1_EXTDATA_SIZE))
         else mret (Some (rd_extdata route, O)));
    match x with
    | None => mret None
    | Some (extdata, decoded) =>
        let bytes := (bytes + decoded)%nat in
        m ← eigrp_tlv1_metric_decode;
        match m with
        | None => mret None
        | Some metric =>
            let bytes := (bytes + EIGRP_TLV1_METRIC_SIZE)%nat in
            '(decoded, dest) ← packet_prefix_decode v (rd_dest route);
            if (decoded =? 0)%nat then mret None
            else
              let bytes := (bytes + decoded)%nat in
              if (length <? bytes)%nat || (bytes =? EIGRP_TLV_HDR_SIZE)%nat then mret None
              else mret (Some {| route with rd_nexthop := nexthop; rd_extdata := extdata;
                                 rd_metric := metric; rd_dest := dest |})
        end
    end.

Definition eigrp_tlv1_decoder (v : eigrp_af_vectors) (ei : option ptr)
    : Sm (option eigrp_route_descriptor) :=
  tlv_start ← gets getp;
  remaining ← stream_remaining;
  if (remaining <? EIGRP_TLV_HDR_SIZE)%nat then decode_abort;; mret None
  else
    type ← eigrp_stream_getw;
    len ← eigrp_stream_getw;
    let length := Z.to_nat len in
    match (if type =? v_internal_tlv_type v then Some false
           else if type =? v_external_tlv_type v then Some true else None) with
    | None =>
        (if (EIGRP_TLV_HDR_SIZE <=? length)%nat && (length <=? remaining)%nat
         then decode_skip (tlv_start + length) else decode_abort);;
        mret None
    | Some external =>
        if (length <? eigrp_tlv1_min_length v external)%nat || (remaining <? length)%nat
        then decode_abort;; mret None
        else
          let tlv_end := (tlv_start + length)%nat in
          packet_end ← gets endp;
          eigrp_stream_set_endp tlv_end;;
          route ← tlv_route_create ei;
          result ← tlv1_sections v external length {| route with rd_type := type |};
          eigrp_stream_set_endp packet_end;;
          (match result with
           | Some _ => decode_skip tlv_end
           | None => decode_abort
           end);;
          mret result
    end.

(** ** Encoder *)

(** Writes the TLV length behind the type and restores the end. *)
Definition length_patch (tlv_start tlv_end length : nat) : Sm unit :=
  eigrp_stream_set_endp (tlv_start + 2);;
  eigrp_stream_putw (Z.of_nat length);;
  eigrp_stream_set_endp tlv_end.

(** The end of both encoders; the length of a TLV is far below 2^16. *)
Definition tlv_finish (tlv_start : nat) (route : eigrp_route_descriptor)
    : Sm (nat * eigrp_route_descriptor) :=
  tlv_end ← gets endp;
  let length := (tlv_end - tlv_start)%nat in
  length_patch tlv_start tlv_end length;;
  mret (length, route).

(** [target] is [route->prefix->destination], or [route->dest] when the route has
    no prefix; [filtered] the answer of [eigrp_filter_prefix_update] (false without
    an interface).  Returns the length and the route, whose delay the filter
    rewrites. *)
Definition eigrp_tlv1_encoder (v : eigrp_af_vectors) (filtered : bool) (target : eigrp_prefix)
    (route : eigrp_route_descriptor) : Sm (nat * eigrp_route_descriptor) :=
  let metric := rd_metric route in
  let route := if filtered
               then {| route with rd_metric := {| metric with delay := EIGRP_MAX_METRIC |} |}
               else route in
  let type := eigrp_tlv1_route_tlv_type v route in
  if type =? 0 then mret (O, route)
  else
    tlv_start ← gets endp;
    eigrp_stream_putw type;;
    eigrp_stream_putw 0;;
    encoded ← packet_address_encode v (rd_nexthop route);
    if negb (encoded =? packet_address_bytes v)%nat
    then eigrp_stream_set_endp tlv_start;; mret (O, route)
    else
      (if type =? v_external_tlv_type v then eigrp_tlv1_external_encode (rd_extdata route)
       else mret tt);;
      eigrp_tlv1_metric_encode (rd_metric route);;
      encoded ← packet_prefix_encode v target;
      if (encoded =? 0)%nat then eigrp_stream_set_endp tlv_start;; mret (O, route)
      else tlv_finish tlv_start route.
