(* ===== verification/Tlv1Props.v ===== *)
(** * Properties of the classic route TLV

    The wire image of a route, what the encoder writes and the decoder reads, the
    round trip, and the behaviour of the decoder on arbitrary bytes. *)

From Stdlib Require Import ZArith Lia.
From stdpp Require Import base gmap list.
From S2P Require Import Prelude Types Metric Prefix PrefixProps Stream AfVectors Tlv1.

(** ** Wire image *)

Definition extdata_wire (x : eigrp_extdata) : list Z :=
  to_be 4 (ext_orig x) ++ to_be 4 (ext_as x) ++ to_be 4 (ext_tag x) ++ to_be 4 (ext_metric x)
  ++ to_be 2 (ext_reserved x) ++ to_be 1 (ext_protocol x) ++ to_be 1 (ext_flags x).

Definition metric_wire (m : eigrp_metrics) : list Z :=
  to_be 4 (eigrp_delay_to_scaled (delay m)) ++ to_be 4 (bandwidth m)
  ++ to_be 1 (mtu2 m) ++ to_be 1 (mtu1 m) ++ to_be 1 (mtu0 m)
  ++ to_be 1 (hop_count m) ++ to_be 1 (reliability m) ++ to_be 1 (load m)
  ++ to_be 1 (tag m) ++ to_be 1 (flags m).

Record extdata_wf (x : eigrp_extdata) : Prop := {
  xw_orig : 0 <= ext_orig x < 2 ^ 32; xw_as : 0 <= ext_as x < 2 ^ 32;
  xw_tag : 0 <= ext_tag x < 2 ^ 32; xw_metric : 0 <= ext_metric x < 2 ^ 32;
  xw_reserved : 0 <= ext_reserved x < 2 ^ 16;
  xw_protocol : byte (ext_protocol x); xw_flags : byte (ext_flags x);
}.

(** The byte fields of a vector. *)
Record metric_bytes_wf (m : eigrp_metrics) : Prop := {
  mb_mtu : byte (mtu0 m) /\ byte (mtu1 m) /\ byte (mtu2 m);
  mb_hops : byte (hop_count m); mb_rel : byte (reliability m); mb_load : byte (load m);
  mb_tag : byte (tag m); mb_flags : byte (flags m);
}.

(** A vector the classic TLV carries exactly: a delay of 1 to 2^24-1 units. *)
Record metric_classic (m : eigrp_metrics) : Prop := {
  mc_delay : 1 <= delay m < 2 ^ 24;
  mc_bandwidth : 0 <= bandwidth m < 2 ^ 32;
  mc_bytes : metric_bytes_wf m;
}.

(** ** Steps *)

Lemma byte_be z : byte z -> 0 <= z < 256 ^ Z.of_nat 1.
Proof. done. Qed.
#[export] Hint Resolve byte_be : eigrp.

Ltac be_range := first [done|by apply byte_be|lia].

(** One [get_be] of a decoder, one [put] of an encoder. *)
Ltac get_step :=
  rewrite wp_bind; eapply wp_get_be; [eassumption|eassumption|be_range|];
  let W := fresh "W" in let U := fresh "U" in intros W U.
Ltac put_step :=
  rewrite wp_bind;
  eapply wp_put_be_chain;
  [reflexivity|eassumption|eassumption|rewrite ?length_app, ?to_be_length; simpl; lia|];
  let s := fresh "s" in let A := fresh "A" in intros s A.

Section steps.
Implicit Types s : eigrp_stream.

Lemma wp_remaining s (Q : nat -> eigrp_stream -> Prop) :
  stream_wf s -> Q (length (unread s)) s -> wp stream_remaining Q s.
Proof.
  intros W HQ. rewrite unread_length in HQ by done. destruct W as [H _ _].
  unfold stream_remaining. rewrite wp_bind, wp_get, wp_ret.
  destruct (Nat.leb_spec (endp s) (getp s)); [|done].
  by replace (endp s - getp s)%nat with O in HQ by lia.
Qed.

Lemma wp_tlv_has n s (Q : bool -> eigrp_stream -> Prop) :
  stream_wf s -> Q (n <=? length (unread s))%nat s -> wp (tlv_stream_has n) Q s.
Proof. intros W HQ. unfold tlv_stream_has. rewrite wp_bind. by apply wp_remaining. Qed.

Lemma wp_abort s (Q : unit -> eigrp_stream -> Prop) :
  stream_wf s -> Q tt (advance (length (unread s)) s) -> wp decode_abort Q s.
Proof.
  intros W HQ. rewrite unread_length in HQ by done. destruct W as [H _ _].
  unfold decode_abort. rewrite wp_bind, wp_gets. apply wp_set_getp.
  rewrite Nat.leb_refl. unfold advance in HQ.
  by replace (getp s + (endp s - getp s))%nat with (endp s) in HQ by lia.
Qed.

Lemma wp_skip n s (Q : unit -> eigrp_stream -> Prop) :
  stream_wf s -> (n <= length (unread s))%nat -> Q tt (advance n s) ->
  wp (decode_skip (getp s + n)) Q s.
Proof.
  intros W Hn HQ. rewrite unread_length in Hn by done. destruct W as [H _ _].
  unfold decode_skip. rewrite wp_bind, wp_gets, (proj2 (Nat.leb_le _ _)) by lia.
  apply wp_set_getp. by rewrite (proj2 (Nat.leb_le _ _)) by lia.
Qed.

Lemma wp_skip_here n s (Q : unit -> eigrp_stream -> Prop) :
  stream_wf s -> n = getp s -> Q tt s -> wp (decode_skip n) Q s.
Proof.
  intros W -> HQ. rewrite <-(Nat.add_0_r (getp s)). apply wp_skip; [done|lia|].
  by rewrite advance_0.
Qed.

(** The fields written by the section encoders. *)
Lemma wp_external_encode x s0 s pre n (Q : unit -> eigrp_stream -> Prop) :
  appended s0 s pre -> stream_room s0 n -> (length pre + 20 <= n)%nat ->
  (forall s', appended s0 s' (pre ++ extdata_wire x) -> Q tt s') ->
  wp (eigrp_tlv1_external_encode x) Q s.
Proof.
  intros A R Hn HQ. unfold eigrp_tlv1_external_encode, eigrp_stream_putl, eigrp_stream_putw,
    eigrp_stream_putc. do 7 put_step. rewrite wp_ret. apply HQ.
  unfold extdata_wire. rewrite !app_assoc in *. assumption.
Qed.

Lemma wp_metric_encode m s0 s pre n (Q : unit -> eigrp_stream -> Prop) :
  appended s0 s pre -> stream_room s0 n -> (length pre + 16 <= n)%nat ->
  (forall s', appended s0 s' (pre ++ metric_wire m) -> Q tt s') ->
  wp (eigrp_tlv1_metric_encode m) Q s.
Proof.
  intros A R Hn HQ. unfold eigrp_tlv1_metric_encode, eigrp_stream_putl, eigrp_stream_putc.
  do 10 put_step. rewrite wp_ret. apply HQ. unfold metric_wire. rewrite !app_assoc in *. assumption.
Qed.

Lemma wire_lengths x m : length (extdata_wire x) = 20%nat /\ length (metric_wire m) = 16%nat.
Proof. unfold extdata_wire, metric_wire. rewrite !length_app, !to_be_length. done. Qed.

Lemma wp_external_decode x rest s (Q : option eigrp_extdata -> eigrp_stream -> Prop) :
  extdata_wf x -> stream_wf s -> unread s = extdata_wire x ++ rest ->
  (let s' := advance 20 s in stream_wf s' -> unread s' = rest -> Q (Some x) s') ->
  wp eigrp_tlv1_external_decode Q s.
Proof.
  intros [X1 X2 X3 X4 X5 X6 X7] W U HQ. unfold eigrp_tlv1_external_decode. rewrite wp_bind.
  apply wp_tlv_has; [done|].
  rewrite U, length_app, (proj1 (wire_lengths x zero_metrics)), (proj2 (Nat.leb_le _ _))
    by (unfold EIGRP_TLV1_EXTDATA_SIZE; lia). cbn [negb].
  unfold extdata_wire in U. rewrite <-!app_assoc in U.
  do 7 get_step. rewrite wp_ret. rewrite !advance_advance in *. destruct x. by apply HQ.
Qed.

Lemma delay_round_trip d : 1 <= d < 2 ^ 24 -> eigrp_scaled_to_delay (eigrp_delay_to_scaled d) = d.
Proof.
  intros H. unfold eigrp_delay_to_scaled, eigrp_scaled_to_delay, EIGRP_CLASSIC_SCALER.
  destruct (Z.eqb_spec d 0); [lia|]. rewrite (u64_small (d * 256)), u32_small by lia.
  rewrite Z.div_mul by lia. destruct (Z.eqb_spec d 0); lia.
Qed.

Lemma wp_metric_decode m rest s (Q : option eigrp_metrics -> eigrp_stream -> Prop) :
  metric_classic m -> stream_wf s -> unread s = metric_wire m ++ rest ->
  (let s' := advance 16 s in stream_wf s' -> unread s' = rest -> Q (Some m) s') ->
  wp eigrp_tlv1_metric_decode Q s.
Proof.
  intros [M1 M2 [(M3 & M4 & M5) M6 M7 M8 M9 M10]] W U HQ.
  unfold eigrp_tlv1_metric_decode. rewrite wp_bind. apply wp_tlv_has; [done|].
  rewrite U, length_app, (proj2 (wire_lengths zero_extdata m)), (proj2 (Nat.leb_le _ _))
    by (unfold EIGRP_TLV1_METRIC_SIZE; lia). cbn [negb].
  assert (Hd : 0 <= eigrp_delay_to_scaled (delay m) < 256 ^ Z.of_nat 4) by (apply u32_range).
  unfold metric_wire in U. rewrite <-!app_assoc in U.
  do 10 get_step. rewrite wp_ret, delay_round_trip by done. rewrite !advance_advance in *.
  destruct m. by apply HQ.
Qed.
End steps.

(** ** The length patch *)

Section patch.
Implicit Types s : eigrp_stream.

Lemma written_length s : stream_wf s -> length (written s) = endp s.
Proof. intros [_ H _]. unfold written. rewrite length_take. lia. Qed.

Lemma wp_length_patch pre hole body len s (Q : unit -> eigrp_stream -> Prop) :
  stream_wf s -> written s = pre ++ hole ++ body -> length hole = 2%nat ->
  (getp s <= length pre)%nat -> (2 <= length pre)%nat ->
  (forall s', stream_wf s' -> written s' = pre ++ to_be 2 (Z.of_nat len) ++ body ->
     getp s' = getp s -> endp s' = endp s -> heap s' = heap s -> Q tt s') ->
  wp (length_patch (length pre - 2) (endp s) len) Q s.
Proof.
  intros W Hw Hh Hg Hp HQ. pose proof (written_length s W) as Hl. rewrite Hw, !length_app, Hh in Hl.
  destruct W as [W1 W2 W3]. unfold length_patch.
  replace (length pre - 2 + 2)%nat with (length pre) by lia. rewrite wp_bind.
  apply wp_set_endp; [lia|]. rewrite (proj2 (Nat.ltb_ge _ _)) by done. rewrite wp_bind.
  unfold eigrp_stream_putw, eigrp_stream_put, eigrp_stream_ensure.
  do 3 (rewrite ?wp_bind, ?wp_get; cbv zeta). cbn [data endp getp heap]. rewrite to_be_length, (proj2 (Nat.leb_le _ _)) by lia.
  rewrite wp_ret, wp_bind. cbn [Nat.eqb]. rewrite wp_bind. unfold stream_write.
  rewrite wp_bind, wp_get. cbn [data]. rewrite to_be_length, (proj2 (Nat.leb_le _ _)) by lia.
  rewrite !wp_modify, wp_ret. cbn [data endp getp heap].
  assert (Hld : length (take (length pre) (data s) ++ to_be 2 (u16 (Z.of_nat len))
    ++ drop (length pre + 2) (data s)) = length (data s))
    by (rewrite !length_app, to_be_length, length_take, length_drop; lia).
  apply wp_set_endp; [cbn [data]; lia|]. cbn [getp data endp heap].
  rewrite (proj2 (Nat.ltb_ge _ _)) by lia. apply HQ; cbn [getp data endp heap]; try done.
  - split; cbn [getp data endp heap]; [lia|lia|]. rewrite !Forall_app.
    split; [by apply Forall_take|]. split; [apply to_be_bytes|by apply Forall_drop].
  - unfold written in *. cbn [data endp].
    assert (E1 : take (length pre) (data s) = pre).
    { transitivity (take (length pre) (take (endp s) (data s)));
        [by rewrite take_take, Nat.min_l by lia|rewrite Hw; apply take_app_length]. }
    assert (E2 : take (length body) (drop (length pre + 2) (data s)) = body).
    { replace (length body) with (endp s - (length pre + 2))%nat by lia.
      rewrite <-skipn_firstn_comm, Hw, app_assoc. apply drop_app_length'. rewrite length_app. lia. }
    rewrite E1. change (u16 (Z.of_nat len)) with (Z.of_nat len mod 256 ^ Z.of_nat 2).
    rewrite to_be_mod, app_assoc.
    replace (endp s) with (length (pre ++ to_be 2 (Z.of_nat len)) + length body)%nat
      by (rewrite length_app, to_be_length; lia).
    rewrite take_app_add, E2. by rewrite <-app_assoc.
Qed.
End patch.

(** ** What the encoder writes *)

Definition tlv_frame (type : Z) (body : list Z) : list Z :=
  to_be 2 type ++ to_be 2 (Z.of_nat (4 + length body)) ++ body.

Lemma wp_tlv_finish type body s route s1 (Q : nat * eigrp_route_descriptor -> eigrp_stream -> Prop) :
  stream_wf s -> appended s s1 (to_be 2 type ++ to_be 2 0 ++ body) ->
  (forall s2, appended s s2 (tlv_frame type body) -> Q (length (tlv_frame type body), route) s2) ->
  wp (tlv_finish (endp s) route) Q s1.
Proof.
  intros W A HQ. unfold tlv_finish. rewrite wp_bind, wp_gets, wp_bind.
  pose proof (written_length s W) as Hws. pose proof A as [P1 P2 P3 P4 P5].
  rewrite !length_app, !to_be_length in P4.
  replace (endp s) with (length (written s ++ to_be 2 type) - 2)%nat at 1
    by (rewrite length_app, to_be_length; lia).
  eapply wp_length_patch; [done| |by rewrite to_be_length| | |].
  - rewrite P2, <-!app_assoc. reflexivity.
  - rewrite P3, length_app. destruct W as [W1 _ _]. lia.
  - rewrite length_app, to_be_length. lia.
  - intros s6 W6 K1 K2 K3 K4. rewrite wp_ret.
    assert (El : (endp s1 - endp s)%nat = length (tlv_frame type body)).
    { unfold tlv_frame. rewrite !length_app, !to_be_length. lia. }
    rewrite El in *. apply HQ. split; [done| |congruence| |congruence].
    + rewrite K1, <-app_assoc. by do 3 f_equal.
    + rewrite K3, P4. lia.
Qed.

Definition tlv1_body (v : eigrp_af_vectors) (external : bool) (target : eigrp_prefix)
    (route : eigrp_route_descriptor) : list Z :=
  addr_wire v (rd_nexthop route) ++ (if external then extdata_wire (rd_extdata route) else [])
  ++ metric_wire (rd_metric route) ++ prefix_wire v target.

Definition tlv1_type (v : eigrp_af_vectors) (external : bool) : Z :=
  if external then v_external_tlv_type v else v_internal_tlv_type v.

Record tlv1_encodable (v : eigrp_af_vectors) (external : bool) (target : eigrp_prefix)
    (route : eigrp_route_descriptor) : Prop := {
  te_nexthop : addr_ok v (rd_nexthop route);
  te_extdata : extdata_wf (rd_extdata route);
  te_metric : metric_classic (rd_metric route);
  te_target : prefix_ok v target;
  te_type : eigrp_tlv1_route_tlv_type v route = tlv1_type v external;
}.

(** What the encoder needs of a route, whatever its other fields are. *)
Record tlv1_sendable (v : eigrp_af_vectors) (external : bool) (target : eigrp_prefix)
    (route : eigrp_route_descriptor) : Prop := {
  ts_nexthop : nexthop_ok v (rd_nexthop route);
  ts_target : prefix_ok v target;
  ts_type : eigrp_tlv1_route_tlv_type v route = tlv1_type v external;
}.

Lemma encodable_sendable v external target route :
  tlv1_encodable v external target route -> tlv1_sendable v external target route.
Proof. intros [? _ _ ? ?]. split; [by apply addr_nexthop|done..]. Qed.
#[export] Hint Resolve encodable_sendable : eigrp.

Section encoder.
Context (v : eigrp_af_vectors) `{!AfLaws v}.

Lemma type_external external : (tlv1_type v external =? v_external_tlv_type v) = external.
Proof.
  destruct (al_types (v := v)) as (_ & _ & H & _). unfold tlv1_type.
  destruct external; [apply Z.eqb_refl|by apply Z.eqb_neq].
Qed.

Lemma tlv1_body_length external target route :
  tlv1_sendable v external target route ->
  length (tlv1_body v external target route)
  = (packet_address_bytes v + (if external then 20 else 0) + 16
     + length (prefix_wire v target))%nat.
Proof.
  intros [H1 _ _]. unfold tlv1_body. rewrite !length_app, addr_wire_length by done.
  destruct (wire_lengths (rd_extdata route) (rd_metric route)) as [L1 L2].
  destruct external; rewrite ?L1, ?L2; simpl; lia.
Qed.

(** Room for the longest TLV: 4 + 16 + 20 + 16 + 17 bytes. *)
Lemma wp_tlv1_encoder external target route s
    (Q : nat * eigrp_route_descriptor -> eigrp_stream -> Prop) :
  tlv1_sendable v external target route -> stream_wf s -> stream_room s 73 ->
  (forall s' wire, wire = tlv_frame (tlv1_type v external) (tlv1_body v external target route) ->
     appended s s' wire -> Q (length wire, route) s') ->
  wp (eigrp_tlv1_encoder v false target route) Q s.
Proof.
  intros E W R HQ. pose proof E as [E1 E4 E5].
  pose proof (al_width (v := v)) as Hw. pose proof (al_wire_length (v := v) target E4) as Hpl.
  pose proof (tlv1_body_length _ _ _ E) as Hbl.
  destruct (al_types (v := v)) as (T1 & T2 & _).
  unfold eigrp_tlv1_encoder. rewrite E5. cbv zeta.
  destruct (Z.eqb_spec (tlv1_type v external) 0) as [H0|_];
    [unfold tlv1_type in H0; destruct external; lia|].
  rewrite wp_bind, wp_gets. unfold eigrp_stream_putw.
  pose proof (appended_refl s W) as A0. put_step. put_step. rewrite app_nil_l in A1.
  rewrite wp_bind. apply wp_nexthop_encode; [done..|apply A1|by eapply appended_room; [exact A1|exact R|simpl; lia]|].
  intros s2 B2. pose proof (appended_trans _ _ _ _ _ A1 B2) as A2.
  rewrite Nat.eqb_refl. cbn [negb]. rewrite type_external, wp_bind.
  assert (Hext : wp (if external then eigrp_tlv1_external_encode (rd_extdata route) else mret tt)
    (fun _ s' => appended s s' ((to_be 2 (tlv1_type v external) ++ to_be 2 0)
       ++ addr_wire v (rd_nexthop route)
       ++ (if external then extdata_wire (rd_extdata route) else []))) s2).
  { destruct external; [|rewrite wp_ret, app_nil_r; exact A2].
    eapply wp_external_encode; [exact A2|exact R| |].
    - rewrite !length_app, addr_wire_length, !to_be_length by done. lia.
    - intros s' A'. by rewrite <-app_assoc in A'. }
  eapply wp_mono; [exact Hext|]. intros [] s3 A3. rewrite wp_bind.
  eapply wp_metric_encode; [exact A3|exact R| |].
  { rewrite !length_app, addr_wire_length, !to_be_length by done.
    destruct external; rewrite ?(proj1 (wire_lengths (rd_extdata route) zero_metrics)); simpl; lia. }
  intros s4 A4. rewrite wp_bind. apply al_prefix_encode; [done|apply A4| |].
  { eapply appended_room; [exact A4|exact R|].
    rewrite !length_app, addr_wire_length, !to_be_length, (proj2 (wire_lengths zero_extdata _)) by done.
    destruct external; rewrite ?(proj1 (wire_lengths (rd_extdata route) zero_metrics)); simpl; lia. }
  intros s5 B5. pose proof (appended_trans _ _ _ _ _ A4 B5) as A5.
  destruct (Nat.eqb_spec (length (prefix_wire v target)) 0); [lia|].
  apply (wp_tlv_finish (tlv1_type v external) (tlv1_body v external target route) s); [done| |].
  - unfold tlv1_body. rewrite <-!app_assoc in *. exact A5.
  - intros s6 A6. by apply HQ.
Qed.
End encoder.

(** ** What the decoder reads *)

Section trim.
Implicit Types s : eigrp_stream.

(** The view of a decoder between the two [eigrp_stream_set_endp]. *)
Definition trim (n : nat) s : eigrp_stream := {| s with endp := (getp s + n)%nat |}.

Lemma trim_unread n s : stream_wf s -> (n <= length (unread s))%nat ->
  stream_wf (trim n s) /\ unread (trim n s) = take n (unread s).
Proof.
  intros W Hn. rewrite unread_length in Hn by done. destruct W as [W1 W2 W3]. split.
  - split; simpl; [lia|lia|done].
  - unfold unread, written, trim. simpl. rewrite !skipn_firstn_comm, take_take. f_equal. lia.
Qed.

Lemma wp_trim n s (Q : unit -> eigrp_stream -> Prop) :
  stream_wf s -> (n <= length (unread s))%nat -> Q tt (trim n s) ->
  wp (eigrp_stream_set_endp (getp s + n)) Q s.
Proof.
  intros W Hn HQ. rewrite unread_length in Hn by done. destruct W as [W1 W2 W3].
  apply wp_set_endp; [lia|]. rewrite (proj2 (Nat.ltb_ge _ _)) by lia. by destruct s.
Qed.

(** Restoring the end of the packet after [k] bytes of the view were read. *)
Lemma wp_untrim k n s (Q : unit -> eigrp_stream -> Prop) :
  stream_wf s -> (k <= n)%nat -> (n <= length (unread s))%nat -> Q tt (advance k s) ->
  wp (eigrp_stream_set_endp (endp s)) Q (advance k (trim n s)).
Proof.
  intros W Hk Hn HQ. rewrite unread_length in Hn by done. destruct W as [W1 W2 W3].
  apply wp_set_endp; [simpl; lia|]. simpl. rewrite (proj2 (Nat.ltb_ge _ _)) by lia. by destruct s.
Qed.

Lemma wp_route_create ei s (Q : eigrp_route_descriptor -> eigrp_stream -> Prop) :
  grants (heap s) = [] -> (forall r, rd_ei r = ei -> Q r s) -> wp (tlv_route_create ei) Q s.
Proof.
  intros Hg HQ. unfold tlv_route_create. rewrite wp_bind. apply wp_allocate; [done|].
  rewrite wp_ret. by apply HQ.
Qed.
End trim.

(** The route the decoder builds. *)
Definition tlv1_decoded (type : Z) (external : bool) (target : eigrp_prefix)
    (sent got : eigrp_route_descriptor) : Prop :=
  rd_type got = type /\ rd_nexthop got = rd_nexthop sent /\ rd_metric got = rd_metric sent
  /\ rd_dest got = eigrp_prefix_normalize target
  /\ (external = true -> rd_extdata got = rd_extdata sent).

Section decoder.
Context (v : eigrp_af_vectors) `{!AfLaws v}.

Lemma wp_tlv1_sections external target route fresh s
    (Q : option eigrp_route_descriptor -> eigrp_stream -> Prop) :
  let body := tlv1_body v external target route in
  tlv1_encodable v external target route -> stream_wf s -> unread s = body ->
  (forall got, tlv1_decoded (rd_type fresh) external target route got -> rd_ei got = rd_ei fresh ->
     Q (Some got) (advance (length body) s)) ->
  wp (tlv1_sections v external (4 + length body) fresh) Q s.
Proof.
  intros body E W U HQ. pose proof (tlv1_body_length v _ _ _ (encodable_sendable _ _ _ _ E)) as Hbl. fold body in Hbl.
  destruct E as [E1 E2 E3 E4 E5].
  pose proof (al_wire_length (v := v) target E4) as Hpl.
  assert (Hlen : ((4 + length body <? 4 + packet_address_bytes v + (if external then 20 else 0) + 16
    + length (prefix_wire v target)) || (4 + packet_address_bytes v + (if external then 20 else 0) + 16
    + length (prefix_wire v target) =? 4))%nat = false).
  { apply orb_false_iff. split; [apply Nat.ltb_ge|apply Nat.eqb_neq]; destruct external; lia. }
  unfold tlv1_sections. rewrite wp_bind.
  unfold body, tlv1_body in U. eapply al_address_decode; [exact E1|done|exact U|].
  intros s1 W1 U1. rewrite Nat.eqb_refl. cbn [negb]. rewrite wp_bind.
  set (en := if external then 20%nat else 0%nat) in *.
  assert (Hx : wp (if external
     then x ← eigrp_tlv1_external_decode; mret (x ← x; Some (x, EIGRP_TLV1_EXTDATA_SIZE))
     else mret (Some (rd_extdata fresh, O)))
     (fun o s2 => (exists x, o = Some (x, en) /\ (external = true -> x = rd_extdata route))
        /\ s2 = advance en s1 /\ stream_wf s2
        /\ unread s2 = metric_wire (rd_metric route) ++ prefix_wire v target) s1).
  { unfold en. destruct external.
    - rewrite wp_bind. eapply wp_external_decode; [exact E2|done|exact U1|].
      intros s2 W2 U2. rewrite wp_ret. split; [by eexists|done].
    - rewrite wp_ret, advance_0. split; [by eexists|done]. }
  eapply wp_mono; [exact Hx|]. intros o s2 ((x & -> & Ex) & Es2 & W2 & U2). rewrite wp_bind.
  eapply wp_metric_decode; [exact E3|done|exact U2|]. intros s3 W3 U3. rewrite wp_bind.
  rewrite <-(app_nil_r (prefix_wire v target)) in U3.
  eapply al_prefix_decode; [exact E4|done|exact U3|]. intros s4 W4 U4.
  destruct (Nat.eqb_spec (length (prefix_wire v target)) 0); [lia|].
  unfold EIGRP_TLV_HDR_SIZE, EIGRP_TLV1_METRIC_SIZE. rewrite Hlen, wp_ret.
  assert (s4 = advance (length body) s) as ->.
  { unfold s4, s3. rewrite Es2. unfold s1. rewrite !advance_advance. f_equal. lia. }
  by apply HQ.
Qed.
End decoder.

Section decoder_frame.
Context (v : eigrp_af_vectors) `{!AfLaws v}.

Lemma tlv1_min_le external target route :
  tlv1_encodable v external target route ->
  (eigrp_tlv1_min_length v external <= 4 + length (tlv1_body v external target route) <= 73)%nat.
Proof.
  intros E. rewrite (tlv1_body_length v _ _ _ (encodable_sendable _ _ _ _ E)). destruct E as [_ _ _ E4 _].
  pose proof (al_wire_length (v := v) target E4). pose proof (al_width (v := v)).
  unfold eigrp_tlv1_min_length, EIGRP_TLV_HDR_SIZE, EIGRP_TLV1_METRIC_SIZE,
    EIGRP_TLV1_DEST_PREFIX_SIZE, EIGRP_TLV1_EXTDATA_SIZE. destruct external; lia.
Qed.

Lemma wp_tlv1_decoder external target route ei rest s
    (Q : option eigrp_route_descriptor -> eigrp_stream -> Prop) :
  let wire := tlv_frame (tlv1_type v external) (tlv1_body v external target route) in
  tlv1_encodable v external target route -> stream_wf s -> grants (heap s) = [] ->
  unread s = wire ++ rest ->
  (forall got, tlv1_decoded (tlv1_type v external) external target route got -> rd_ei got = ei ->
     Q (Some got) (advance (length wire) s)) ->
  wp (eigrp_tlv1_decoder v ei) Q s.
Proof.
  intros wire E W Hg U HQ. pose proof (tlv1_min_le _ _ _ E) as [Hmin Hmax].
  set (body := tlv1_body v external target route) in *.
  assert (Hwl : length wire = (4 + length body)%nat)
    by (unfold wire, tlv_frame; rewrite !length_app, !to_be_length; done).
  destruct (al_types (v := v)) as (T1 & T2 & T3 & _).
  assert (HT : 0 <= tlv1_type v external < 256 ^ Z.of_nat 2) by (destruct external; simpl; lia).
  unfold eigrp_tlv1_decoder. rewrite wp_bind, wp_gets, wp_bind. apply wp_remaining; [done|].
  assert (Hul : length (unread s) = (4 + length body + length rest)%nat)
    by (rewrite U, length_app; lia).
  rewrite Hul, (proj2 (Nat.ltb_ge _ _)) by (unfold EIGRP_TLV_HDR_SIZE; lia).
  pose proof U as U0. unfold wire, tlv_frame in U0. rewrite <-!app_assoc in U0.
  assert (HL : 0 <= Z.of_nat (4 + length body) < 256 ^ Z.of_nat 2) by (simpl; lia).
  unfold eigrp_stream_getw. get_step. get_step. rewrite advance_advance in *. change (2 + 2)%nat with 4%nat in *.
  rewrite Nat2Z.id.
  assert (Hsel : (if tlv1_type v external =? v_internal_tlv_type v then Some false
    else if tlv1_type v external =? v_external_tlv_type v then Some true else None) = Some external).
  { rewrite type_external by done. unfold tlv1_type. destruct external; [|by rewrite Z.eqb_refl].
    by rewrite (proj2 (Z.eqb_neq _ _)) by congruence. }
  rewrite Hsel, (proj2 (Nat.ltb_ge _ _)) by done. rewrite (proj2 (Nat.ltb_ge _ _)) by lia. cbn [orb].
  rewrite wp_bind, wp_gets, wp_bind.
  replace (getp s + (4 + length body))%nat with (getp (advance 4 s) + length body)%nat by (simpl; lia).
  assert (Hub : (length body <= length (unread (advance 4 s)))%nat) by (rewrite U2, length_app; lia).
  apply wp_trim; [done|done|]. destruct (trim_unread _ _ W1 Hub) as [Wt Ut].
  rewrite U2, take_app_length in Ut. rewrite wp_bind. apply wp_route_create; [done|].
  intros fresh Hei. rewrite wp_bind.
  eapply wp_tlv1_sections; [done|exact E|exact Wt|exact Ut|]. intros got Hgot Hgei. fold body.
  rewrite wp_bind. apply wp_untrim; [done|done|done|]. rewrite wp_bind.
  assert (Hfin : advance (length body) (advance 4 s) = advance (length wire) s)
    by (rewrite advance_advance; f_equal; lia).
  rewrite Hfin. apply wp_skip_here; [apply advance_wf; [done|lia]|simpl; lia|]. rewrite wp_ret.
  apply HQ; [done|]. by rewrite Hgei.
Qed.
End decoder_frame.

(** ** The decoder on arbitrary bytes *)

(** Only the read position moved, forward and not past the end. *)
Definition moved (s s' : eigrp_stream) : Prop :=
  exists k, (k <= length (unread s))%nat /\ s' = advance k s.

#[export] Instance moved_preorder : PreOrder moved.
Proof.
  split.
  - intros s. exists O. split; [lia|]. by rewrite advance_0.
  - intros s1 s2 s3 (k & Hk & ->) (j & Hj & ->). rewrite unread_advance, length_drop in Hj.
    exists (k + j)%nat. split; [lia|]. apply advance_advance.
Qed.

Section arbitrary.
Implicit Types s : eigrp_stream.

Lemma moved_wf s s' : stream_wf s -> moved s s' -> stream_wf s'.
Proof. intros W (k & Hk & ->). by apply advance_wf. Qed.

Lemma wp_get_moved w s0 s (Q : Z -> eigrp_stream -> Prop) :
  stream_wf s0 -> moved s0 s -> (forall x s', moved s0 s' -> Q x s') -> wp (get_be w) Q s.
Proof.
  intros W M HQ. pose proof (moved_wf _ _ W M) as Ws. apply wp_get_be_any; [done|].
  intros x n _ -> _. apply HQ. etrans; [exact M|]. exists (min w (length (unread s))). split; [lia|done].
Qed.

Lemma wp_has_moved n s0 s (Q : bool -> eigrp_stream -> Prop) :
  stream_wf s0 -> moved s0 s -> (forall b, Q b s) -> wp (tlv_stream_has n) Q s.
Proof. intros W M HQ. apply wp_tlv_has; [by eapply moved_wf|]. apply HQ. Qed.
End arbitrary.

(** One read of a decoder whose input is unknown. *)
Ltac any_step :=
  rewrite wp_bind; eapply wp_get_moved; [eassumption|eassumption|];
  let x := fresh "x" in let s := fresh "s" in let M := fresh "M" in intros x s M.

Section arbitrary_sections.
Implicit Types s : eigrp_stream.

Lemma wp_external_any s0 s (Q : option eigrp_extdata -> eigrp_stream -> Prop) :
  stream_wf s0 -> moved s0 s -> (forall o s', moved s0 s' -> Q o s') ->
  wp eigrp_tlv1_external_decode Q s.
Proof.
  intros W M HQ. unfold eigrp_tlv1_external_decode, eigrp_stream_getl, eigrp_stream_getw,
    eigrp_stream_getc. rewrite wp_bind. eapply wp_has_moved; [done|done|]. intros [|]; cbn [negb].
  - do 7 any_step. rewrite wp_ret. by apply HQ.
  - rewrite wp_ret. by apply HQ.
Qed.

Lemma wp_metric_any s0 s (Q : option eigrp_metrics -> eigrp_stream -> Prop) :
  stream_wf s0 -> moved s0 s -> (forall o s', moved s0 s' -> Q o s') ->
  wp eigrp_tlv1_metric_decode Q s.
Proof.
  intros W M HQ. unfold eigrp_tlv1_metric_decode, eigrp_stream_getl, eigrp_stream_getc.
  rewrite wp_bind. eapply wp_has_moved; [done|done|]. intros [|]; cbn [negb].
  - do 10 any_step. rewrite wp_ret. by apply HQ.
  - rewrite wp_ret. by apply HQ.
Qed.

Context (v : eigrp_af_vectors) `{!AfLaws v}.

Lemma wp_sections_any external len route s (Q : option eigrp_route_descriptor -> eigrp_stream -> Prop) :
  stream_wf s ->
  (forall o s', moved s s' -> (forall r, o = Some r -> prefix_ok v (rd_dest r)) -> Q o s') ->
  wp (tlv1_sections v external len route) Q s.
Proof.
  intros W HQ. assert (Hnone : forall s', moved s s' -> wp (mret None) Q s') by (intros; by apply HQ).
  unfold tlv1_sections. rewrite wp_bind. apply al_address_safe; [done|].
  intros [dn nh] n Hn _ W1. assert (M1 : moved s (advance n s)) by (by exists n).
  destruct (negb _); [by apply Hnone|]. rewrite wp_bind.
  assert (Hx : wp (if external
     then x ← eigrp_tlv1_external_decode; mret (x ← x; Some (x, EIGRP_TLV1_EXTDATA_SIZE))
     else mret (Some (rd_extdata route, O))) (fun _ s' => moved s s') (advance n s)).
  { destruct external; [|by rewrite wp_ret]. rewrite wp_bind.
    eapply wp_external_any; [exact W|exact M1|]. intros o s' M. by rewrite wp_ret. }
  eapply wp_mono; [exact Hx|]. intros [[x xl]|] s2 M2; [|by apply Hnone]. rewrite wp_bind.
  eapply wp_metric_any; [exact W|exact M2|]. intros [m|] s3 M3; [|by apply Hnone]. rewrite wp_bind.
  apply al_prefix_safe; [exact (moved_wf _ _ W M3)|]. intros [pn dest] k Hk Ek W4 Hok. simpl in Ek, Hok. subst pn.
  assert (M4 : moved s (advance k s3)) by (etrans; [exact M3|by exists k]).
  destruct (Nat.eqb_spec k 0) as [|Hk0]; [by apply Hnone|].
  destruct (_ || _); [by apply Hnone|]. rewrite wp_ret. apply HQ; [done|].
  intros r [= <-]. by apply Hok.
Qed.

(** The sections read inside the view of the TLV. *)
Lemma moved_trim n s s' : stream_wf s -> (n <= length (unread s))%nat -> moved (trim n s) s' ->
  exists k, (k <= n)%nat /\ s' = advance k (trim n s).
Proof.
  intros W Hn (k & Hk & ->). exists k. split; [|done].
  rewrite (proj2 (trim_unread n s W Hn)), length_take in Hk. lia.
Qed.
End arbitrary_sections.

(** ** Consumption *)

(** What a decoder may do to a packet, with the route it returns. *)
Definition consumed (v : eigrp_af_vectors) (s : eigrp_stream) (o : option eigrp_route_descriptor)
    (s' : eigrp_stream) : Prop :=
  exists n, s' = advance n s /\ (n <= length (unread s))%nat
    /\ (unread s <> [] -> (0 < n)%nat)
    /\ forall r, o = Some r -> prefix_ok v (rd_dest r).

Section consumption.
Context (v : eigrp_af_vectors).
Implicit Types s : eigrp_stream.

Lemma consumed_at s o k :
  (0 < k <= length (unread s))%nat -> (forall r, o = Some r -> prefix_ok v (rd_dest r)) ->
  consumed v s o (advance k s).
Proof. intros Hk Ho. exists k. split; [done|]. split; [lia|]. by split; [lia|]. Qed.

Lemma consumed_all s : consumed v s None (advance (length (unread s)) s).
Proof.
  exists (length (unread s)). split; [done|]. split; [lia|]. split; [|done].
  destruct (unread s); simpl; [done|lia].
Qed.

Lemma wp_abort_consumed s k :
  stream_wf s -> (k <= length (unread s))%nat -> stream_wf (advance k s) ->
  wp (decode_abort;; mret None) (consumed v s) (advance k s).
Proof.
  intros W Hk Wk. rewrite wp_bind. apply wp_abort; [done|].
  rewrite wp_ret, advance_advance, unread_advance, length_drop.
  replace (k + (length (unread s) - k))%nat with (length (unread s)) by lia. apply consumed_all.
Qed.

Lemma wp_skip_consumed s n :
  stream_wf s -> stream_wf (advance 4 s) -> (4 <= n)%nat -> (n <= length (unread s))%nat ->
  wp (decode_skip (getp s + n)) (fun _ s' => wp (mret None) (consumed v s) s') (advance 4 s).
Proof.
  intros W W4 H1 H2. replace (getp s + n)%nat with (getp (advance 4 s) + (n - 4))%nat by (simpl; lia).
  apply wp_skip; [done|rewrite unread_advance, length_drop; lia|].
  rewrite wp_ret, advance_advance. apply consumed_at; [lia|done].
Qed.

(** The part of both decoders between the two [eigrp_stream_set_endp]. *)
Lemma wp_body_any ei s n (sections : eigrp_route_descriptor -> Sm (option eigrp_route_descriptor)) :
  stream_wf s -> grants (heap s) = [] -> (n <= length (unread s))%nat -> (4 < n)%nat ->
  (forall fresh s' (Q : option eigrp_route_descriptor -> eigrp_stream -> Prop), stream_wf s' ->
     (forall o s'', moved s' s'' -> (forall r, o = Some r -> prefix_ok v (rd_dest r)) -> Q o s'') ->
     wp (sections fresh) Q s') ->
  wp (packet_end ← gets endp;
      eigrp_stream_set_endp (getp s + n);;
      route ← tlv_route_create ei;
      result ← sections route;
      eigrp_stream_set_endp packet_end;;
      (match result with Some _ => decode_skip (getp s + n) | None => decode_abort end);;
      mret result) (consumed v s) (advance 4 s).
Proof.
  intros W Hg Hn H4 Hsec. assert (W4 : stream_wf (advance 4 s)) by (apply advance_wf; [done|lia]).
  assert (Hu4 : length (unread (advance 4 s)) = (length (unread s) - 4)%nat)
    by (by rewrite unread_advance, length_drop).
  rewrite wp_bind, wp_gets, wp_bind. cbn [endp advance].
  replace (getp s + n)%nat with (getp (advance 4 s) + (n - 4))%nat by (simpl; lia).
  apply wp_trim; [done|lia|]. destruct (trim_unread (n - 4) _ W4 ltac:(lia)) as [Wt _].
  rewrite wp_bind. apply wp_route_create; [done|]. intros fresh _. rewrite wp_bind.
  apply Hsec; [done|]. intros o s' M Ho.
  destruct (moved_trim (n - 4) (advance 4 s) s' W4 ltac:(lia) M) as (k & Hk & ->).
  rewrite wp_bind. change (endp s) with (endp (advance 4 s)). apply wp_untrim; [done|done|lia|].
  rewrite wp_bind, advance_advance.
  assert (Wk : stream_wf (advance (4 + k) s)) by (apply advance_wf; [done|lia]).
  destruct o as [r|].
  - replace (getp (advance 4 s) + (n - 4))%nat with (getp (advance (4 + k) s) + (n - 4 - k))%nat
      by (simpl; lia).
    apply wp_skip; [done|rewrite unread_advance, length_drop; lia|].
    rewrite wp_ret, advance_advance. apply consumed_at; [lia|done].
  - pose proof (wp_abort_consumed s (4 + k) W ltac:(lia) Wk) as H. by rewrite wp_bind in H.
Qed.
End consumption.

(** ** Theorems *)

(** C20: The classic TLV round trip for reachable routes: a route that is not filtered,
    whose vector the classic form can carry (a delay between 1 and 2^24 - 1, so no poisoned
    route: it is written with another delay than it is read with), written by
    [eigrp_tlv1_encoder] at the end of a packet with room and read back by
    [eigrp_tlv1_decoder], yields its type, next hop, vector, external data and destination
    (with host bits cleared), and the decoder consumes exactly the bytes the encoder wrote;
    for any address family obeying [AfLaws]. *)
Theorem tlv1_round_trip v external target route ei s :
  AfLaws v -> tlv1_encodable v external target route ->
  stream_wf s -> stream_room s 73 -> unread s = [] ->
  wp ('(len, _) ← eigrp_tlv1_encoder v false target route;
      got ← eigrp_tlv1_decoder v ei; mret (len, got))
     (fun '(len, got) s' => exists g, got = Some g
        /\ tlv1_decoded (tlv1_type v external) external target route g
        /\ getp s' = (getp s + len)%nat /\ unread s' = []) s.
Proof.
  intros L E W R U. rewrite wp_bind. apply (wp_tlv1_encoder v external); [by apply encodable_sendable|done|done|].
  intros s1 wire Ew A. rewrite wp_bind.
  assert (U1 : unread s1 = wire).
  { rewrite (unread_put s s1 wire), U; [done|done|apply A|apply A]. }
  eapply (wp_tlv1_decoder v external target route ei []); [done|apply A| | |].
  - rewrite (ap_heap _ _ _ A). apply R.
  - by rewrite app_nil_r, U1, Ew.
  - intros got Hgot _. rewrite wp_ret, <-Ew. exists got. split; [done|]. split; [done|]. split.
    + simpl. by rewrite (ap_getp _ _ _ A).
    + rewrite unread_advance, U1. by apply drop_ge.
Qed.

(** [eigrp_tlv1_decoder] is safe on arbitrary bytes: it reads nothing outside
    the packet, leaves the bytes and the end of the packet as they were, always
    consumes input when there is some (so the loop over the TLVs of a packet ends),
    and returns a route only with a valid destination of its family. *)
Theorem tlv1_decoder_safe v ei s :
  AfLaws v -> stream_wf s -> grants (heap s) = [] ->
  wp (eigrp_tlv1_decoder v ei) (consumed v s) s.
Proof.
  intros L W Hg. unfold eigrp_tlv1_decoder. rewrite wp_bind, wp_gets, wp_bind.
  apply wp_remaining; [done|].
  destruct (Nat.ltb_spec (length (unread s)) EIGRP_TLV_HDR_SIZE) as [Hs|Hs].
  { rewrite wp_bind. apply wp_abort; [done|]. rewrite wp_ret. by apply consumed_all. }
  unfold EIGRP_TLV_HDR_SIZE in Hs. rewrite wp_bind. apply wp_get_be_any; [done|].
  intros type n1 _ En1 W1. rewrite Nat.min_l in En1 by lia. subst n1. rewrite wp_bind.
  apply wp_get_be_any; [done|]. rewrite unread_advance, length_drop.
  intros len n2 _ En2 W2. rewrite Nat.min_l in En2 by lia. subst n2. cbv zeta.
  rewrite advance_advance in *. change (2 + 2)%nat with 4%nat in *.
  pose proof (wp_abort_consumed v s 4 W Hs) as Hab.
  destruct (if type =? v_internal_tlv_type v then _ else _) as [external|].
  - destruct (_ || _) eqn:Eg; [by apply Hab|]. apply orb_false_iff in Eg as [G1 G2].
    apply Nat.ltb_ge in G1, G2. pose proof (al_width (v := v)).
    apply (wp_body_any v ei s (Z.to_nat len) (fun fresh =>
      tlv1_sections v external (Z.to_nat len) {| fresh with rd_type := type |})); [done|done|lia| |].
    + unfold eigrp_tlv1_min_length, EIGRP_TLV_HDR_SIZE, EIGRP_TLV1_METRIC_SIZE in G1. lia.
    + intros fresh s' W'. by apply (wp_sections_any v).
  - destruct (Nat.leb_spec EIGRP_TLV_HDR_SIZE (Z.to_nat len)) as [H4|H4]; [|by apply Hab].
    destruct (Nat.leb_spec (Z.to_nat len) (length (unread s))) as [H5|H5]; [|by apply Hab].
    cbn [andb]. unfold EIGRP_TLV_HDR_SIZE in H4. rewrite wp_bind. by apply wp_skip_consumed.
Qed.

(** ** Instances *)

Definition ex_route : eigrp_route_descriptor :=
  {| rd_type := EIGRP_EXT_TYPE; rd_topology_id := 0; rd_dest := zero_prefix;
     rd_nexthop := {| addr_afi := AF_INET; addr_ip := [10; 0; 0; 1] ++ zero_bytes 12 |};
     rd_prefix := None; rd_adv_router := None; rd_reported_metric := zero_metrics;
     rd_reported_distance := 0; rd_total_metric := zero_metrics; rd_distance := 0;
     rd_metric := {| delay := 512; bandwidth := 25600; mtu0 := 220; mtu1 := 5; mtu2 := 0;
                     hop_count := 1; reliability := 255; load := 1; tag := 0; flags := 0 |};
     rd_extdata := {| ext_orig := 1; ext_as := 100; ext_tag := 7; ext_metric := 20;
                      ext_reserved := 0; ext_protocol := 3; ext_flags := 0 |};
     rd_flags := 0; rd_ei := None |}.

Definition ex_target : eigrp_prefix :=
  {| address := {| afi := EIGRP_AFI_IPV4; bytes := [10; 1; 2; 3] ++ zero_bytes 12 |};
     prefix_length := 16 |}.

Ltac solve_bytes :=
  repeat (apply Forall_cons; split; [unfold byte; lia|]); first [by apply Forall_nil|idtac].

Lemma ex_target_ok : prefix_ok eigrp_ipv4_init ex_target.
Proof. split; [|done|done]. split; [|simpl; lia]. split; [done|]. simpl. solve_bytes. Qed.

Lemma ex_route_encodable : tlv1_encodable eigrp_ipv4_init true ex_target ex_route.
Proof.
  split; [|split; unfold byte; simpl; lia| |exact ex_target_ok|done].
  - split; [done| |done|done]. simpl. solve_bytes.
  - split; [simpl; lia|simpl; lia|]. split; unfold byte; simpl; lia.
Qed.

Definition empty_stream : eigrp_stream :=
  {| data := []; getp := 0; endp := 0; heap := {| grants := []; garbage := fun _ => 0 |} |}.
Lemma empty_stream_wf : stream_wf empty_stream.
Proof. split; simpl; [lia|lia|constructor]. Qed.

Lemma tlv1_round_trip_witness :
  wp ('(len, _) ← eigrp_tlv1_encoder eigrp_ipv4_init false ex_target ex_route;
      got ← eigrp_tlv1_decoder eigrp_ipv4_init None; mret (len, got))
     (fun '(len, got) s' => exists g, got = Some g /\ ext_tag (rd_extdata g) = 7) empty_stream.
Proof.
  eapply wp_mono; [apply (tlv1_round_trip eigrp_ipv4_init true ex_target ex_route None empty_stream);
    [exact ipv4_laws|exact ex_route_encodable|exact empty_stream_wf| |reflexivity]|].
  - split; [reflexivity|vm_compute; congruence].
  - intros [len got] s' (g & -> & (_ & _ & _ & _ & Hx) & _). exists g. split; [done|].
    rewrite (Hx eq_refl). reflexivity.
Defined.

Lemma tlv1_decoder_safe_witness :
  wp (eigrp_tlv1_decoder eigrp_ipv4_init None) (fun _ s' => (getp s' <= 3)%nat) ex_stream.
Proof.
  eapply wp_mono; [apply (tlv1_decoder_safe eigrp_ipv4_init None ex_stream ipv4_laws ex_stream_wf eq_refl)|].
  intros o s' (n & -> & Hn & _). simpl in *. lia.
Defined.

(** ** Observation *)

(** A poisoned delay does not survive the classic TLV: the infinite delay is scaled
    and truncated to 32 bits, and what the peer reads back is a finite delay. *)
Lemma tlv1_poison_lost :
  eigrp_scaled_to_delay (eigrp_delay_to_scaled EIGRP_MAX_METRIC) = 0xffffff
  /\ 0xffffff <> EIGRP_MAX_METRIC.
Proof. split; [reflexivity|done]. Qed.
