(* ===== verification/Tlv2.v ===== *)
(** * Multiprotocol route TLV (eigrp_tlv2.c)

    Encoder and decoder of the wide metric TLV, with the extended attributes. *)

From Stdlib Require Import ZArith Lia.
From stdpp Require Import base gmap list.
From S2P Require Import Prelude Types Metric Prefix PrefixProps Stream AfVectors Tlv1.

Definition EIGRP_TLV2_HEADER_EXT_SIZE : nat := 8.
Definition EIGRP_TLV2_METRIC_SIZE : nat := 24.
Definition EIGRP_TLV2_DEST_PREFIX_SIZE : nat := 1.
Definition EIGRP_TLV2_EXTDATA_SIZE : nat := 16.
Definition EIGRP_TLV2_INACCESSIBLE : Z := 0xffffffffffff.
Definition EIGRP_TLV2_EXTATTR_ADDPATH : Z := 0x07.
Definition EIGRP_TLV2_EXTATTR_HEADER_SIZE : nat := 2.
Definition EIGRP_TLV2_ADDPATH_COMMON_SIZE : nat := 8.
Definition EIGRP_TLV2_ADDPATH_EXTERNAL_SIZE : nat := 2.
Definition EIGRP_TLV2_INT_MIN_TLV : nat := 37.
Definition EIGRP_TLV2_EXT_MIN_TLV : nat := 53.

(** What the codec reads of [eigrp_instance_t]: the vectors and the router id in
    host order ([eigrp_tlv2_router_id_host]). *)
Record tlv2_instance := { vectors : eigrp_af_vectors; router_id_host : Z }.

Definition eigrp_tlv2_get48 : Sm Z :=
  let step value := b ← eigrp_stream_getc; mret (u64 ((value .<< 8) .| b)) in
  v ← step 0; v ← step v; v ← step v; v ← step v; v ← step v; step v.

Definition eigrp_tlv2_put48 (value : Z) : Sm unit :=
  mfor [40; 32; 24; 16; 8; 0] (fun shift =>
    eigrp_stream_putc ((value .>> shift) .& 0xff);; mret tt).

Definition eigrp_tlv2_addr_is_zero (eigrp : tlv2_instance) (address : eigrp_addr) : bool :=
  let address_bytes := packet_address_bytes (vectors eigrp) in
  if (address_bytes =? 0)%nat || (16 <? address_bytes)%nat then true
  else bool_decide (take address_bytes (addr_ip address) = zero_bytes address_bytes).

(** ** Extended attributes *)

Definition addpath_size (eigrp : tlv2_instance) (external : bool) : nat :=
  (packet_address_bytes (vectors eigrp) + EIGRP_TLV2_ADDPATH_COMMON_SIZE
   + (if external then EIGRP_TLV2_ADDPATH_EXTERNAL_SIZE else 0))%nat.

(** The payload of the add-path attribute; [None] is [return UINT16_MAX]. *)
Definition addpath_decode (eigrp : tlv2_instance) (external : bool) (data_len : nat)
    (route : eigrp_route_descriptor) : Sm (option eigrp_route_descriptor) :=
  if negb (data_len =? addpath_size eigrp external)%nat then mret None
  else
    '(decoded, nexthop) ← packet_address_decode (vectors eigrp) (rd_nexthop route);
    if (decoded =? 0)%nat then mret None
    else
      orig ← eigrp_stream_getl;
      tag_ ← eigrp_stream_getl;
      let x := rd_extdata route in
      let x := {| x with ext_orig := orig; ext_tag := tag_ |} in
      x ← (if external then
             protocol ← eigrp_stream_getc; fl ← eigrp_stream_getc;
             mret {| x with ext_protocol := protocol; ext_flags := fl |}
           else mret x);
      mret (Some {| route with rd_nexthop := nexthop; rd_extdata := x |}).

(** The loop over the attributes up to [attr_end]; every round consumes two bytes
    or more. *)
Fixpoint extended_loop (fuel : nat) (eigrp : tlv2_instance) (external : bool) (attr_end : nat)
    (route : eigrp_route_descriptor) : Sm (option eigrp_route_descriptor) :=
  pos ← gets getp;
  if (attr_end <=? pos)%nat then mret (Some route)
  else
    match fuel with
    | O => ub
    | S fuel' =>
        if (attr_end - pos <? EIGRP_TLV2_EXTATTR_HEADER_SIZE)%nat then mret None
        else
          opcode ← eigrp_stream_getc;
          words ← eigrp_stream_getc;
          let data_len := (Z.to_nat words * 2)%nat in
          pos ← gets getp;
          if (attr_end - pos <? data_len)%nat then mret None
          else
            let data_end := (pos + data_len)%nat in
            r ← (if opcode =? EIGRP_TLV2_EXTATTR_ADDPATH
                 then addpath_decode eigrp external data_len route
                 else eigrp_stream_set_getp data_end;; mret (Some route));
            match r with
            | None => mret None
            | Some route =>
                pos ← gets getp;
                if negb (pos =? data_end)%nat then mret None
                else extended_loop fuel' eigrp external attr_end route
            end
    end.

Definition eigrp_tlv2_extended_decode (eigrp : tlv2_instance) (route : eigrp_route_descriptor)
    (attr_len : nat) (external : bool) : Sm (option eigrp_route_descriptor) :=
  if (attr_len =? 0)%nat then mret (Some route)
  else
    ok ← tlv_stream_has attr_len;
    if negb ok then mret None
    else
      start ← gets getp;
      extended_loop attr_len eigrp external (start + attr_len) route.

(** ** Sections *)

(** The route and the bytes decoded; [None] is [return 0]. *)
Definition eigrp_tlv2_metric_decode (eigrp : tlv2_instance) (route : eigrp_route_descriptor)
    (external : bool) : Sm (option (eigrp_route_descriptor * nat)) :=
  ok ← tlv_stream_has EIGRP_TLV2_METRIC_SIZE;
  if negb ok then mret None
  else
    attr_words ← eigrp_stream_getc;
    tg ← eigrp_stream_getc; rel ← eigrp_stream_getc; ld ← eigrp_stream_getc;
    m2 ← eigrp_stream_getc; m1 ← eigrp_stream_getc; m0 ← eigrp_stream_getc;
    hops ← eigrp_stream_getc;
    dly ← eigrp_tlv2_get48;
    bw ← eigrp_tlv2_get48;
    reserved ← eigrp_stream_getw;
    opaque ← eigrp_stream_getw;
    let metric :=
      {| delay := if dly =? EIGRP_TLV2_INACCESSIBLE then EIGRP_MAX_METRIC else dly;
         bandwidth := if bw =? EIGRP_TLV2_INACCESSIBLE then EIGRP_MAX_METRIC else bw;
         mtu0 := m0; mtu1 := m1; mtu2 := m2; hop_count := hops;
         reliability := rel; load := ld; tag := tg; flags := opaque .& 0xff |} in
    let attr_len := (Z.to_nat attr_words * 2)%nat in
    r ← eigrp_tlv2_extended_decode eigrp {| route with rd_metric := metric |} attr_len external;
    mret (r ← r; Some (r, (EIGRP_TLV2_METRIC_SIZE + attr_len)%nat)).

Definition route_orig (eigrp : tlv2_instance) (x : eigrp_extdata) : Z :=
  if ext_orig x =? 0 then router_id_host eigrp else ext_orig x.

Definition eigrp_tlv2_addpath_encode (eigrp : tlv2_instance) (route : eigrp_route_descriptor)
    (external : bool) : Sm nat :=
  if negb (v_afi (vectors eigrp) =? EIGRP_AFI_IPV6) then mret O
  else
    let data_len := addpath_size eigrp external in
    if negb (Nat.even data_len) || (255 <? data_len / 2)%nat then mret O
    else
      eigrp_stream_putc EIGRP_TLV2_EXTATTR_ADDPATH;;
      eigrp_stream_putc (Z.of_nat (data_len / 2));;
      encoded ← packet_address_encode (vectors eigrp) (rd_nexthop route);
      if (encoded =? 0)%nat then mret O
      else
        eigrp_stream_putl (route_orig eigrp (rd_extdata route));;
        eigrp_stream_putl (ext_tag (rd_extdata route));;
        (if external then
           eigrp_stream_putc (ext_protocol (rd_extdata route));;
           eigrp_stream_putc (ext_flags (rd_extdata route));; mret tt
         else mret tt);;
        mret (EIGRP_TLV2_EXTATTR_HEADER_SIZE + data_len)%nat.

Definition wide_value (z : Z) : Z := if z =? EIGRP_MAX_METRIC then EIGRP_TLV2_INACCESSIBLE else z.

Definition eigrp_tlv2_metric_encode (eigrp : tlv2_instance) (route : eigrp_route_descriptor)
    (external : bool) : Sm nat :=
  let metric := rd_metric route in
  metric_start ← gets endp;
  eigrp_stream_putc 0;;
  eigrp_stream_putc (tag metric);; eigrp_stream_putc (reliability metric);;
  eigrp_stream_putc (load metric);;
  eigrp_stream_putc (mtu2 metric);; eigrp_stream_putc (mtu1 metric);; eigrp_stream_putc (mtu0 metric);;
  eigrp_stream_putc (hop_count metric);;
  eigrp_tlv2_put48 (wide_value (delay metric));;
  eigrp_tlv2_put48 (wide_value (bandwidth metric));;
  eigrp_stream_putw 0;;
  eigrp_stream_putw (flags metric);;
  attr_len ← eigrp_tlv2_addpath_encode eigrp route external;
  if (v_afi (vectors eigrp) =? EIGRP_AFI_IPV6) && (attr_len =? 0)%nat then mret O
  else if (255 <? attr_len / 2)%nat then mret O
  else
    stream_write metric_start [u8 (Z.of_nat (attr_len / 2))];;
    mret (EIGRP_TLV2_METRIC_SIZE + attr_len)%nat.

Definition eigrp_tlv2_external_decode (x : eigrp_extdata) : Sm (option eigrp_extdata) :=
  ok ← tlv_stream_has EIGRP_TLV2_EXTDATA_SIZE;
  if negb ok then mret None
  else
    orig ← eigrp_stream_getl; as_ ← eigrp_stream_getl; metric ← eigrp_stream_getl;
    reserved ← eigrp_stream_getw; protocol ← eigrp_stream_getc; fl ← eigrp_stream_getc;
    mret (Some {| ext_orig := orig; ext_as := as_; ext_tag := ext_tag x; ext_metric := metric;
                  ext_reserved := reserved; ext_protocol := protocol; ext_flags := fl |}).

Definition eigrp_tlv2_external_encode (eigrp : tlv2_instance) (x : eigrp_extdata) : Sm unit :=
  eigrp_stream_putl (route_orig eigrp x);;
  eigrp_stream_putl (ext_as x);; eigrp_stream_putl (ext_metric x);;
  eigrp_stream_putw (ext_reserved x);; eigrp_stream_putc (ext_protocol x);;
  eigrp_stream_putc (ext_flags x);; mret tt.

Definition eigrp_tlv2_route_tlv_type (eigrp : tlv2_instance) (route : eigrp_route_descriptor) : Z :=
  if (rd_type route =? EIGRP_TLV_MP_EXT) || (rd_type route =? EIGRP_EXT_TYPE)
     || (rd_type route =? v_external_tlv_type (vectors eigrp)) then EIGRP_TLV_MP_EXT
  else if (rd_type route =? EIGRP_TLV_MP_INT) || (rd_type route =? EIGRP_INT_TYPE)
     || (rd_type route =? v_internal_tlv_type (vectors eigrp)) then EIGRP_TLV_MP_INT
  else 0.

(** ** Decoder *)

(** The sections after the header extension; [src] is [nbr->src]. *)
Definition tlv2_sections (eigrp : tlv2_instance) (src : eigrp_addr) (external : bool) (length : nat)
    (route : eigrp_route_descriptor) : Sm (option eigrp_route_descriptor) :=
  let bytes := (EIGRP_TLV_HDR_SIZE + EIGRP_TLV2_HEADER_EXT_SIZE)%nat in
  r ← eigrp_tlv2_metric_decode eigrp route external;
  match r with
  | None => mret None
  | Some (route, decoded) =>
      let bytes := (bytes + decoded)%nat in
      x ← (if external then
             x ← eigrp_tlv2_external_decode (rd_extdata route);
             mret (x ← x; Some (x, EIGRP_TLV2_EXTDATA_SIZE))
           else mret (Some (rd_extdata route, O)));
      match x with
      | None => mret None
      | Some (extdata, decoded) =>
          let bytes := (bytes + decoded)%nat in
          let nexthop := if eigrp_tlv2_addr_is_zero eigrp (rd_nexthop route)
                         then src else rd_nexthop route in
          '(decoded, dest) ← packet_prefix_decode (vectors eigrp) (rd_dest route);
          if (decoded =? 0)%nat then mret None
          else
            let bytes := (bytes + decoded)%nat in
            if (length <? bytes)%nat || (bytes =? EIGRP_TLV_HDR_SIZE)%nat then mret None
            else mret (Some {| route with rd_nexthop := nexthop; rd_extdata := extdata;
                               rd_dest := dest |})
      end
  end.

Definition eigrp_tlv2_decoder (eigrp : tlv2_instance) (ei : option ptr) (src : eigrp_addr)
    : Sm (option eigrp_route_descriptor) :=
  tlv_start ← gets getp;
  remaining ← stream_remaining;
  if (remaining <? EIGRP_TLV_HDR_SIZE)%nat then decode_abort;; mret None
  else
    type ← eigrp_stream_getw;
    len ← eigrp_stream_getw;
    let length := Z.to_nat len in
    match (if type =? EIGRP_TLV_MP_INT then Some (false, EIGRP_TLV2_INT_MIN_TLV)
           else if type =? EIGRP_TLV_MP_EXT then Some (true, EIGRP_TLV2_EXT_MIN_TLV) else None) with
    | None =>
        (if (EIGRP_TLV_HDR_SIZE <=? length)%nat && (length <=? remaining)%nat
         then decode_skip (tlv_start + length) else decode_abort);;
        mret None
    | Some (external, min_length) =>
        if (length <? min_length)%nat || (remaining <? length)%nat
        then decode_abort;; mret None
        else
          let tlv_end := (tlv_start + length)%nat in
          packet_end ← gets endp;
          eigrp_stream_set_endp tlv_end;;
          ok ← tlv_stream_has EIGRP_TLV2_HEADER_EXT_SIZE;
          if negb ok then eigrp_stream_set_endp packet_end;; decode_abort;; mret None
          else
            af ← eigrp_stream_getw;
            tid ← eigrp_stream_getw;
            rid ← eigrp_stream_getl;
            if negb (af =? multiprotocol_afi (vectors eigrp)) then
              eigrp_stream_set_endp packet_end;; decode_skip tlv_end;; mret None
            else
              route ← tlv_route_create ei;
              let x := rd_extdata route in
              let route := {| route with rd_topology_id := tid;
                rd_type := if external then v_external_tlv_type (vectors eigrp)
                           else v_internal_tlv_type (vectors eigrp);
                rd_extdata := {| x with ext_orig := rid |} |} in
              result ← tlv2_sections eigrp src external length route;
              eigrp_stream_set_endp packet_end;;
              (match result with
               | Some _ => decode_skip tlv_end
               | None => decode_abort
               end);;
              mret result
    end.

(** ** Encoder *)

(** With an interface; without one the C function returns 0.  [target] and
    [filtered] are as for [eigrp_tlv1_encoder]. *)
Definition eigrp_tlv2_encoder (eigrp : tlv2_instance) (filtered : bool) (target : eigrp_prefix)
    (route : eigrp_route_descriptor) : Sm (nat * eigrp_route_descriptor) :=
  let metric := rd_metric route in
  let route := if filtered
               then {| route with rd_metric := {| metric with delay := EIGRP_MAX_METRIC |} |}
               else route in
  let type := eigrp_tlv2_route_tlv_type eigrp route in
  if type =? 0 then mret (O, route)
  else
    tlv_start ← gets endp;
    eigrp_stream_putw type;;
    eigrp_stream_putw 0;;
    eigrp_stream_putw (multiprotocol_afi (vectors eigrp));;
    eigrp_stream_putw (rd_topology_id route);;
    eigrp_stream_putl (router_id_host eigrp);;
    encoded ← eigrp_tlv2_metric_encode eigrp route (type =? EIGRP_TLV_MP_EXT);
    if (encoded =? 0)%nat then eigrp_stream_set_endp tlv_start;; mret (O, route)
    else
      (if type =? EIGRP_TLV_MP_EXT then eigrp_tlv2_external_encode eigrp (rd_extdata route)
       else mret tt);;
      encoded ← packet_prefix_encode (vectors eigrp) target;
      if (encoded =? 0)%nat then eigrp_stream_set_endp tlv_start;; mret (O, route)
      else tlv_finish tlv_start route.
