(* ===== verification/Tlv2Props.v ===== *)
(** * Properties of the multiprotocol route TLV *)

From Stdlib Require Import ZArith Lia.
From stdpp Require Import base gmap list.
From S2P Require Import Prelude Types Metric Prefix PrefixProps Stream AfVectors Tlv1 Tlv1Props Tlv2.

(** ** 48-bit integers *)

Section int48.
Lemma wp_getc b rest s (Q : Z -> eigrp_stream -> Prop) :
  stream_wf s -> byte b -> unread s = b :: rest ->
  (stream_wf (advance 1 s) -> unread (advance 1 s) = rest -> Q b (advance 1 s)) ->
  wp eigrp_stream_getc Q s.
Proof.
  intros W Hb U HQ. eapply (wp_get_be 1 b rest); [done| |by apply byte_be|done].
  rewrite U. simpl. by rewrite Z.mod_small.
Qed.

Lemma accumulate acc b : 0 <= acc < 2 ^ 40 -> byte b -> u64 ((acc .<< 8) .| b) = acc * 256 + b.
Proof. intros Ha Hb. rewrite word_lor by done. unfold byte in Hb. apply u64_small. lia. Qed.

Lemma wp_get48 v rest s (Q : Z -> eigrp_stream -> Prop) :
  stream_wf s -> 0 <= v < 2 ^ 48 -> unread s = to_be 6 v ++ rest ->
  (stream_wf (advance 6 s) -> unread (advance 6 s) = rest -> Q v (advance 6 s)) ->
  wp eigrp_tlv2_get48 Q s.
Proof.
  intros W Hv U HQ. pose proof (from_to_be 6 v Hv) as E. pose proof (to_be_bytes 6 v) as B.
  pose proof (to_be_length 6 v) as L.
  destruct (to_be 6 v) as [|b5 [|b4 [|b3 [|b2 [|b1 [|b0 [|]]]]]]]; try done.
  repeat (apply Forall_cons in B as [? B]).
  unfold from_be in E. simpl in E, U. unfold eigrp_tlv2_get48.
  do 6 (rewrite ?wp_bind; eapply wp_getc; [eassumption| |eassumption|]; [assumption|];
    let W := fresh "W" in let U := fresh "U" in
    intros W U; rewrite wp_ret, accumulate by (unfold byte in *; lia)).
  rewrite !advance_advance in *. simpl Nat.add in *. rewrite E. by apply HQ.
Qed.

Lemma byte_of_shift v k : 0 <= k -> to_be 1 ((v .>> k) .& 0xff) = [v / 2 ^ k mod 256].
Proof.
  intros Hk. simpl. rewrite Z.shiftr_div_pow2 by done.
  change 0xff with (Z.ones 8). rewrite Z.land_ones by lia. by rewrite Z.mod_mod.
Qed.

Lemma to_be_6 v :
  to_be 6 v = [v / 2 ^ 40 mod 256] ++ [v / 2 ^ 32 mod 256] ++ [v / 2 ^ 24 mod 256]
              ++ [v / 2 ^ 16 mod 256] ++ [v / 2 ^ 8 mod 256] ++ [v / 2 ^ 0 mod 256].
Proof. simpl. rewrite !Z.div_div by lia. by rewrite Z.div_1_r. Qed.

Lemma wp_put48 v s0 s pre n (Q : unit -> eigrp_stream -> Prop) :
  appended s0 s pre -> stream_room s0 n -> (length pre + 6 <= n)%nat ->
  (forall s', appended s0 s' (pre ++ to_be 6 v) -> Q tt s') ->
  wp (eigrp_tlv2_put48 v) Q s.
Proof.
  intros A R Hn HQ. unfold eigrp_tlv2_put48, eigrp_stream_putc. cbn [mfor].
  do 6 (rewrite wp_bind; put_step; rewrite wp_ret).
  rewrite wp_ret. apply HQ. rewrite to_be_6, <-!byte_of_shift by lia.
  rewrite !app_assoc. assumption.
Qed.
End int48.

(** ** Wire image *)

Definition metric2_wire (words : Z) (m : eigrp_metrics) : list Z :=
  to_be 1 words ++ to_be 1 (tag m) ++ to_be 1 (reliability m) ++ to_be 1 (load m)
  ++ to_be 1 (mtu2 m) ++ to_be 1 (mtu1 m) ++ to_be 1 (mtu0 m) ++ to_be 1 (hop_count m)
  ++ to_be 6 (wide_value (delay m)) ++ to_be 6 (wide_value (bandwidth m))
  ++ to_be 2 0 ++ to_be 2 (flags m).

Definition external2_wire (eigrp : tlv2_instance) (x : eigrp_extdata) : list Z :=
  to_be 4 (route_orig eigrp x) ++ to_be 4 (ext_as x) ++ to_be 4 (ext_metric x)
  ++ to_be 2 (ext_reserved x) ++ to_be 1 (ext_protocol x) ++ to_be 1 (ext_flags x).

(** The add-path attribute, sent for IPv6. *)
Definition addpath_payload (eigrp : tlv2_instance) (external : bool) (route : eigrp_route_descriptor)
    : list Z :=
  let x := rd_extdata route in
  addr_wire (vectors eigrp) (rd_nexthop route)
  ++ to_be 4 (route_orig eigrp x) ++ to_be 4 (ext_tag x)
  ++ (if external then to_be 1 (ext_protocol x) ++ to_be 1 (ext_flags x) else []).

Definition addpath_wire (eigrp : tlv2_instance) (external : bool) (route : eigrp_route_descriptor)
    : list Z :=
  to_be 1 EIGRP_TLV2_EXTATTR_ADDPATH ++ to_be 1 (Z.of_nat (addpath_size eigrp external / 2))
  ++ addpath_payload eigrp external route.

Definition attributes_wire (eigrp : tlv2_instance) (external : bool) (route : eigrp_route_descriptor)
    : list Z :=
  if v_afi (vectors eigrp) =? EIGRP_AFI_IPV6 then addpath_wire eigrp external route else [].

(** A component of a vector the wide form carries exactly: infinite, or of 48 bits
    and neither of the two infinities. *)
Definition wide_exact (z : Z) : Prop :=
  z = EIGRP_MAX_METRIC \/ 0 <= z < EIGRP_TLV2_INACCESSIBLE.

Record metric_wide (m : eigrp_metrics) : Prop := {
  mw_delay : wide_exact (delay m);
  mw_bandwidth : wide_exact (bandwidth m);
  mw_bytes : metric_bytes_wf m;
}.

Section wide_steps.
Lemma wide_value_range z : wide_exact z -> 0 <= wide_value z < 2 ^ 48.
Proof.
  unfold wide_exact, wide_value, EIGRP_TLV2_INACCESSIBLE, EIGRP_MAX_METRIC.
  intros H. destruct (Z.eqb_spec z 0xffffffff); lia.
Qed.

Lemma wide_value_back z :
  wide_exact z ->
  (if wide_value z =? EIGRP_TLV2_INACCESSIBLE then EIGRP_MAX_METRIC else wide_value z) = z.
Proof.
  unfold wide_exact, wide_value, EIGRP_TLV2_INACCESSIBLE, EIGRP_MAX_METRIC.
  intros H. destruct (Z.eqb_spec z 0xffffffff); [done|].
  destruct (Z.eqb_spec z 0xffffffffffff); lia.
Qed.

Lemma metric2_length w m : length (metric2_wire w m) = 24%nat.
Proof. unfold metric2_wire. rewrite !length_app, !to_be_length. done. Qed.
Lemma external2_length eigrp x : length (external2_wire eigrp x) = 16%nat.
Proof. unfold external2_wire. rewrite !length_app, !to_be_length. done. Qed.

Lemma wp_external2_encode eigrp x s0 s pre n (Q : unit -> eigrp_stream -> Prop) :
  appended s0 s pre -> stream_room s0 n -> (length pre + 16 <= n)%nat ->
  (forall s', appended s0 s' (pre ++ external2_wire eigrp x) -> Q tt s') ->
  wp (eigrp_tlv2_external_encode eigrp x) Q s.
Proof.
  intros A R Hn HQ. unfold eigrp_tlv2_external_encode, eigrp_stream_putl, eigrp_stream_putw,
    eigrp_stream_putc. do 6 put_step. rewrite wp_ret. apply HQ.
  unfold external2_wire. rewrite !app_assoc. assumption.
Qed.

Lemma route_orig_range eigrp x :
  0 <= router_id_host eigrp < 2 ^ 32 -> extdata_wf x -> 0 <= route_orig eigrp x < 256 ^ Z.of_nat 4.
Proof. intros H [X1 _ _ _ _ _ _]. unfold route_orig. simpl. destruct (_ =? 0); lia. Qed.

Lemma wp_external2_decode eigrp x old rest s (Q : option eigrp_extdata -> eigrp_stream -> Prop) :
  0 <= router_id_host eigrp < 2 ^ 32 -> extdata_wf x -> stream_wf s ->
  unread s = external2_wire eigrp x ++ rest ->
  (let s' := advance 16 s in stream_wf s' -> unread s' = rest ->
   Q (Some {| x with ext_orig := route_orig eigrp x; ext_tag := ext_tag old |}) s') ->
  wp (eigrp_tlv2_external_decode old) Q s.
Proof.
  intros Hr X W U HQ. pose proof (route_orig_range eigrp x Hr X) as Ho.
  destruct X as [X1 X2 X3 X4 X5 X6 X7].
  unfold eigrp_tlv2_external_decode. rewrite wp_bind. apply wp_tlv_has; [done|].
  rewrite U, length_app, external2_length, (proj2 (Nat.leb_le _ _))
    by (unfold EIGRP_TLV2_EXTDATA_SIZE; lia). cbn [negb].
  unfold external2_wire in U. rewrite <-!app_assoc in U.
  do 6 get_step. rewrite wp_ret. rewrite !advance_advance in *. by apply HQ.
Qed.
End wide_steps.

(** ** Extended attributes *)

(** What the codec needs of the instance. *)
Record tlv2_ok (eigrp : tlv2_instance) : Prop := {
  to_laws : AfLaws (vectors eigrp);
  to_rid : 0 <= router_id_host eigrp < 2 ^ 32;
}.

(** The route after the attributes of [sent] were read into [got]. *)
Definition with_attributes (eigrp : tlv2_instance) (external : bool)
    (sent got : eigrp_route_descriptor) : eigrp_route_descriptor :=
  if v_afi (vectors eigrp) =? EIGRP_AFI_IPV6 then
    let x := rd_extdata got in
    let y := rd_extdata sent in
    {| got with
       rd_nexthop := rd_nexthop sent;
       rd_extdata :=
         {| x with
            ext_orig := route_orig eigrp y; ext_tag := ext_tag y;
            ext_protocol := if external then ext_protocol y else ext_protocol x;
            ext_flags := if external then ext_flags y else ext_flags x |} |}
  else got.

Section attributes.
Context (eigrp : tlv2_instance).
Hypothesis Hok : tlv2_ok eigrp.
Let Hlaws : AfLaws (vectors eigrp) := to_laws _ Hok.
Local Existing Instance Hlaws.
Context (external : bool) (route : eigrp_route_descriptor).
Hypothesis Hnh : nexthop_ok (vectors eigrp) (rd_nexthop route).
Hypothesis Hx : extdata_wf (rd_extdata route).

Lemma addpath_size_even :
  Nat.even (addpath_size eigrp external) = true /\ (addpath_size eigrp external <= 26)%nat.
Proof.
  pose proof (al_width (v := vectors eigrp)). unfold addpath_size,
    EIGRP_TLV2_ADDPATH_COMMON_SIZE, EIGRP_TLV2_ADDPATH_EXTERNAL_SIZE.
  rewrite !Nat.even_add, (al_even (v := vectors eigrp)). split; destruct external; done || lia.
Qed.

Lemma addpath_half : (2 * (addpath_size eigrp external / 2))%nat = addpath_size eigrp external
  /\ (addpath_size eigrp external / 2 <= 13)%nat /\ (addpath_size eigrp external <= 26)%nat.
Proof.
  destruct addpath_size_even as [E H]. apply Nat.even_spec in E as [k E]. rewrite E in *.
  assert ((2 * k) / 2 = k)%nat as -> by (rewrite Nat.mul_comm; apply Nat.div_mul; lia). lia.
Qed.

Lemma addpath_length :
  length (addpath_wire eigrp external route) = (2 + addpath_size eigrp external)%nat.
Proof.
  unfold addpath_wire, addpath_payload, addpath_size. rewrite !length_app, addr_wire_length, !to_be_length by done.
  unfold EIGRP_TLV2_ADDPATH_COMMON_SIZE, EIGRP_TLV2_ADDPATH_EXTERNAL_SIZE.
  destruct external; rewrite ?length_app, ?to_be_length; simpl; lia.
Qed.

Lemma wp_addpath_encode s0 s pre n (Q : nat -> eigrp_stream -> Prop) :
  appended s0 s pre -> stream_room s0 n -> (length pre + 28 <= n)%nat ->
  (forall s', appended s0 s' (pre ++ attributes_wire eigrp external route) ->
     Q (length (attributes_wire eigrp external route)) s') ->
  wp (eigrp_tlv2_addpath_encode eigrp route external) Q s.
Proof.
  intros A R Hn HQ. unfold eigrp_tlv2_addpath_encode, attributes_wire in *.
  destruct (v_afi (vectors eigrp) =? EIGRP_AFI_IPV6); cbn [negb];
    [|rewrite wp_ret; apply HQ; by rewrite app_nil_r].
  destruct addpath_half as (Hh & Hh' & Hs). pose proof addpath_length as Hl.
  rewrite (proj1 addpath_size_even).
  rewrite (proj2 (Nat.ltb_ge _ _)) by lia. cbn [negb orb].
  pose proof (al_width (v := vectors eigrp)) as Hw.
  assert (Haw : length (addr_wire (vectors eigrp) (rd_nexthop route))
    = packet_address_bytes (vectors eigrp)) by (by apply addr_wire_length).
  unfold eigrp_stream_putc, eigrp_stream_putl. put_step. put_step. rewrite wp_bind.
  apply wp_nexthop_encode; [done..|apply A1| |].
  { eapply appended_room; [exact A1|exact R|]. rewrite !length_app, !to_be_length. lia. }
  intros s3 B. pose proof (appended_trans _ _ _ _ _ A1 B) as A3.
  destruct (Nat.eqb_spec (packet_address_bytes (vectors eigrp)) 0); [lia|].
  rewrite wp_bind. eapply wp_put_be_chain; [reflexivity|exact A3|exact R|
    rewrite !length_app, !to_be_length, Haw; lia|]. intros s4 A4.
  rewrite wp_bind. eapply wp_put_be_chain; [reflexivity|exact A4|exact R|
    rewrite !length_app, !to_be_length, Haw; lia|]. intros s5 A5. rewrite wp_bind.
  assert (Hfin : wp (if external then
      eigrp_stream_put (to_be 1 (u8 (ext_protocol (rd_extdata route))));;
      eigrp_stream_put (to_be 1 (u8 (ext_flags (rd_extdata route))));; mret tt else mret tt)
    (fun _ s' => appended s0 s' (pre ++ addpath_wire eigrp external route)) s5).
  { unfold addpath_wire, addpath_payload. destruct external; [|rewrite wp_ret, app_nil_r, !app_assoc; exact A5].
    rewrite wp_bind. eapply wp_put_be_chain; [reflexivity|exact A5|exact R|
      rewrite !length_app, !to_be_length, Haw; lia|]. intros s6 A6.
    rewrite wp_bind. eapply wp_put_be_chain; [reflexivity|exact A6|exact R|
      rewrite !length_app, !to_be_length, Haw; lia|]. intros s7 A7.
    rewrite wp_ret, !app_assoc. exact A7. }
  eapply wp_mono; [exact Hfin|]. intros [] s' A'. rewrite wp_ret.
  unfold EIGRP_TLV2_EXTATTR_HEADER_SIZE. rewrite <-Hl. by apply HQ.
Qed.

Hypothesis Hna : addr_ok (vectors eigrp) (rd_nexthop route).

Lemma wp_addpath_decode got rest s (Q : option eigrp_route_descriptor -> eigrp_stream -> Prop) :
  v_afi (vectors eigrp) = EIGRP_AFI_IPV6 -> stream_wf s ->
  unread s = addpath_payload eigrp external route ++ rest ->
  (let s' := advance (addpath_size eigrp external) s in stream_wf s' -> unread s' = rest ->
   Q (Some (with_attributes eigrp external route got)) s') ->
  wp (addpath_decode eigrp external (addpath_size eigrp external) got) Q s.
Proof.
  intros H6 W U HQ. unfold addpath_decode. rewrite Nat.eqb_refl. cbn [negb]. rewrite wp_bind.
  pose proof (route_orig_range eigrp _ (to_rid _ Hok) Hx) as Ho. destruct Hx as [_ _ X3 _ _ X6 X7].
  pose proof (al_width (v := vectors eigrp)) as Hw.
  unfold addpath_payload in U. rewrite <-!app_assoc in U.
  eapply al_address_decode; [exact Hna|done|exact U|]. intros s1 W1 U1.
  destruct (Nat.eqb_spec (packet_address_bytes (vectors eigrp)) 0); [lia|].
  get_step. get_step. rewrite wp_bind. unfold with_attributes in HQ.
  rewrite (proj2 (Z.eqb_eq _ _) H6) in HQ. unfold addpath_size,
    EIGRP_TLV2_ADDPATH_COMMON_SIZE, EIGRP_TLV2_ADDPATH_EXTERNAL_SIZE in HQ.
  destruct external.
  - rewrite <-app_assoc in U2. get_step. get_step. rewrite !wp_ret. unfold s1 in *.
    rewrite !advance_advance in *.
    replace (packet_address_bytes (vectors eigrp) + (4 + (4 + (1 + 1))))%nat
      with (packet_address_bytes (vectors eigrp) + 8 + 2)%nat in * by lia. by apply HQ.
  - rewrite !wp_ret. unfold s1 in *. rewrite !advance_advance in *.
    replace (packet_address_bytes (vectors eigrp) + (4 + 4))%nat
      with (packet_address_bytes (vectors eigrp) + 8 + 0)%nat in * by lia. by apply HQ.
Qed.

Lemma wp_extended_decode got rest s (Q : option eigrp_route_descriptor -> eigrp_stream -> Prop) :
  let attrs := attributes_wire eigrp external route in
  stream_wf s -> unread s = attrs ++ rest ->
  (let s' := advance (length attrs) s in stream_wf s' -> unread s' = rest ->
   Q (Some (with_attributes eigrp external route got)) s') ->
  wp (eigrp_tlv2_extended_decode eigrp got (length attrs) external) Q s.
Proof.
  intros attrs W U HQ. unfold attrs, attributes_wire in *. unfold eigrp_tlv2_extended_decode.
  destruct (Z.eqb_spec (v_afi (vectors eigrp)) EIGRP_AFI_IPV6) as [H6|H6].
  2:{ cbn [length Nat.eqb]. rewrite wp_ret. cbn [length] in HQ. rewrite advance_0 in HQ.
      unfold with_attributes in HQ. rewrite (proj2 (Z.eqb_neq _ _) H6) in HQ. by apply HQ. }
  destruct addpath_half as (Hh & Hh' & Hs). rewrite addpath_length in *.
  assert (Hpos : (0 < addpath_size eigrp external)%nat)
    by (unfold addpath_size, EIGRP_TLV2_ADDPATH_COMMON_SIZE; lia).
  destruct (Nat.eqb_spec (2 + addpath_size eigrp external) 0); [lia|].
  rewrite wp_bind. apply wp_tlv_has; [done|].
  rewrite U, length_app, addpath_length, (proj2 (Nat.leb_le _ _)) by lia. cbn [negb].
  rewrite wp_bind, wp_gets. cbn [Nat.add extended_loop]. rewrite wp_bind, wp_gets.
  rewrite (proj2 (Nat.leb_gt _ _)) by lia. unfold EIGRP_TLV2_EXTATTR_HEADER_SIZE.
  rewrite (proj2 (Nat.ltb_ge _ _)) by lia. unfold eigrp_stream_getc.
  pose proof U as U'. unfold addpath_wire in U'. rewrite <-!app_assoc in U'.
  assert (H7 : 0 <= EIGRP_TLV2_EXTATTR_ADDPATH < 256 ^ Z.of_nat 1) by done.
  assert (Hwords : 0 <= Z.of_nat (addpath_size eigrp external / 2) < 256 ^ Z.of_nat 1)
    by (change (256 ^ Z.of_nat 1) with 256; lia).
  get_step. get_step. rewrite advance_advance in *. change (1 + 1)%nat with 2%nat in *.
  rewrite wp_bind, wp_gets, Nat2Z.id.
  rewrite (Nat.mul_comm (addpath_size eigrp external / 2) 2), Hh.
  cbn [getp advance]. rewrite (proj2 (Nat.ltb_ge _ _)) by lia. rewrite Z.eqb_refl, wp_bind.
  eapply wp_addpath_decode; [done|done|exact U1|].
  intros s3 W3 U3. rewrite wp_bind, wp_gets. unfold s3 in *. rewrite advance_advance in *.
  cbn [getp advance]. rewrite (proj2 (Nat.eqb_eq _ _)) by lia. cbn [negb].
  destruct (addpath_size eigrp external) as [|k] eqn:Ek; [lia|]. cbn [extended_loop].
  rewrite wp_bind, wp_gets, (proj2 (Nat.leb_le _ _)) by (simpl; lia). rewrite wp_ret. by apply HQ.
Qed.
End attributes.

(** ** The wide metric section *)

Section wide_metric.
Lemma wp_write_at a old new c s (Q : unit -> eigrp_stream -> Prop) :
  stream_wf s -> written s = a ++ old ++ c -> length old = length new -> Forall byte new ->
  (forall s', stream_wf s' -> written s' = a ++ new ++ c -> getp s' = getp s -> endp s' = endp s ->
     heap s' = heap s -> Q tt s') ->
  wp (stream_write (length a) new) Q s.
Proof.
  intros W Hw Hl Hb HQ. pose proof (written_length s W) as Hwl. rewrite Hw, !length_app in Hwl.
  destruct W as [W1 W2 W3]. unfold stream_write. rewrite wp_bind, wp_get.
  rewrite (proj2 (Nat.leb_le _ _)) by lia. rewrite wp_modify.
  assert (E1 : take (length a) (data s) = a).
  { transitivity (take (length a) (written s)); [|rewrite Hw; apply take_app_length].
    unfold written. by rewrite take_take, Nat.min_l by lia. }
  assert (E2 : take (length c) (drop (length a + length new) (data s)) = c).
  { replace (length c) with (endp s - (length a + length new))%nat by lia.
    rewrite <-skipn_firstn_comm. fold (written s). rewrite Hw, app_assoc.
    apply drop_app_length'. rewrite length_app. lia. }
  apply HQ; try done.
  - split; simpl; [done| |].
    + rewrite !length_app, length_take, length_drop. lia.
    + rewrite !Forall_app. split; [by apply Forall_take|]. split; [done|by apply Forall_drop].
  - unfold written. cbn [data endp]. rewrite E1, app_assoc.
    replace (endp s) with (length (a ++ new) + length c)%nat by (rewrite length_app; lia).
    rewrite take_app_add, E2. by rewrite <-app_assoc.
Qed.

Context (eigrp : tlv2_instance).
Hypothesis Hok : tlv2_ok eigrp.
Let Hlaws : AfLaws (vectors eigrp) := to_laws _ Hok.
Local Existing Instance Hlaws.
Context (external : bool) (route : eigrp_route_descriptor).
Hypothesis Hnh : nexthop_ok (vectors eigrp) (rd_nexthop route).
Hypothesis Hx : extdata_wf (rd_extdata route).

Abbreviation attrs := (attributes_wire eigrp external route).
Abbreviation words := (Z.of_nat (length attrs / 2)).

Lemma attrs_length : (2 * (length attrs / 2))%nat = length attrs /\ (length attrs <= 28)%nat
  /\ (v_afi (vectors eigrp) = EIGRP_AFI_IPV6 -> (0 < length attrs)%nat).
Proof.
  destruct (addpath_half eigrp Hok external) as (H1 & H2 & H3).
  unfold attributes_wire. destruct (Z.eqb_spec (v_afi (vectors eigrp)) EIGRP_AFI_IPV6) as [E|E].
  - rewrite (addpath_length eigrp Hok external route Hnh).
    assert ((2 + addpath_size eigrp external) / 2 = 1 + addpath_size eigrp external / 2)%nat as ->.
    { change (2 + addpath_size eigrp external)%nat with (1 * 2 + addpath_size eigrp external)%nat.
      by rewrite Nat.div_add_l by lia. }
    lia.
  - simpl. split; [done|]. split; [lia|]. done.
Qed.

Lemma wp_metric2_encode s0 s pre n (Q : nat -> eigrp_stream -> Prop) :
  stream_wf s0 -> appended s0 s pre -> stream_room s0 n -> (length pre + 52 <= n)%nat ->
  (forall s', appended s0 s' (pre ++ metric2_wire words (rd_metric route) ++ attrs) ->
     Q (24 + length attrs)%nat s') ->
  wp (eigrp_tlv2_metric_encode eigrp route external) Q s.
Proof.
  intros W0 A R Hn HQ. destruct attrs_length as (Hh & Hl & Hp).
  unfold eigrp_tlv2_metric_encode. rewrite wp_bind, wp_gets.
  unfold eigrp_stream_putw, eigrp_stream_putc. do 8 put_step.
  rewrite wp_bind. eapply wp_put48; [eassumption|exact R|rewrite !length_app, !to_be_length; lia|].
  intros s9 A9. rewrite wp_bind.
  eapply wp_put48; [exact A9|exact R|rewrite !length_app, !to_be_length; lia|].
  intros s10 A10. do 2 put_step. rewrite wp_bind.
  eapply (wp_addpath_encode eigrp Hok external route Hnh); [eassumption|exact R|
    rewrite !length_app, !to_be_length; lia|]. intros s13 A13.
  assert (((v_afi (vectors eigrp) =? EIGRP_AFI_IPV6) && (length attrs =? 0)%nat) = false) as ->.
  { destruct (Z.eqb_spec (v_afi (vectors eigrp)) EIGRP_AFI_IPV6) as [E|E]; [|done].
    specialize (Hp E). simpl. apply Nat.eqb_neq. lia. }
  rewrite (proj2 (Nat.ltb_ge _ _)) by lia. rewrite wp_bind.
  assert (A' : appended s0 s13 (pre ++ metric2_wire 0 (rd_metric route) ++ attrs)).
  { unfold metric2_wire. rewrite !app_assoc. exact A13. }
  pose proof A' as [P1 P2 P3 P4 P5].
  replace (endp s) with (length (written s0 ++ pre))
    by (rewrite length_app, (written_length s0 W0), (ap_endp _ _ _ A); done).
  eapply (wp_write_at (written s0 ++ pre) (to_be 1 0) [u8 words]);
    [done| |done|apply Forall_cons; split; [apply Z.mod_pos_bound; lia|constructor]|].
  - rewrite P2. unfold metric2_wire. rewrite <-!app_assoc. reflexivity.
  - intros s14 W14 K1 K2 K3 K4. rewrite wp_ret. apply HQ. split; [done| |congruence| |congruence].
    + rewrite K1. unfold metric2_wire. rewrite <-!app_assoc. do 2 f_equal.
    + rewrite K3, P4. rewrite !length_app, !metric2_length. done.
Qed.

Hypothesis Hna : addr_ok (vectors eigrp) (rd_nexthop route).

Lemma wp_metric2_decode got rest s (Q : option (eigrp_route_descriptor * nat) -> eigrp_stream -> Prop) :
  metric_wide (rd_metric route) -> stream_wf s ->
  unread s = metric2_wire words (rd_metric route) ++ attrs ++ rest ->
  (let s' := advance (24 + length attrs) s in stream_wf s' -> unread s' = rest ->
   Q (Some (with_attributes eigrp external route {| got with rd_metric := rd_metric route |},
            (24 + length attrs)%nat)) s') ->
  wp (eigrp_tlv2_metric_decode eigrp got external) Q s.
Proof.
  intros [M1 M2 [(M3 & M4 & M5) M6 M7 M8 M9 M10]] W U HQ. destruct attrs_length as (Hh & Hl & _).
  pose proof (wide_value_range _ M1) as V1. pose proof (wide_value_range _ M2) as V2.
  unfold eigrp_tlv2_metric_decode. rewrite wp_bind. apply wp_tlv_has; [done|].
  rewrite U, length_app, metric2_length, (proj2 (Nat.leb_le _ _))
    by (unfold EIGRP_TLV2_METRIC_SIZE; lia). cbn [negb].
  unfold metric2_wire in U. rewrite <-!app_assoc in U.
  assert (Hwords : 0 <= words < 256 ^ Z.of_nat 1) by (change (256 ^ Z.of_nat 1) with 256; lia).
  unfold eigrp_stream_getw, eigrp_stream_getc. do 8 get_step.
  rewrite wp_bind. eapply wp_get48; [eassumption|exact V1|eassumption|]. intros W9 U9.
  rewrite wp_bind. eapply wp_get48; [exact W9|exact V2|exact U9|]. intros W10 U10.
  assert (Hz : 0 <= 0 < 256 ^ Z.of_nat 2) by done.
  assert (Hf : 0 <= flags (rd_metric route) < 256 ^ Z.of_nat 2)
    by (unfold byte in M10; change (256 ^ Z.of_nat 2) with 65536; lia).
  do 2 get_step. rewrite !wide_value_back, Nat2Z.id, (Nat.mul_comm _ 2), Hh by done.
  assert (Hfl : flags (rd_metric route) .& 0xff = flags (rd_metric route)).
  { change 0xff with (Z.ones 8). rewrite Z.land_ones by lia. by apply Z.mod_small. }
  rewrite Hfl, wp_bind.
  match goal with |- wp (eigrp_tlv2_extended_decode _ {| rd_metric := ?m |} _ _) _ _ =>
    replace m with (rd_metric route) by (by destruct (rd_metric route)) end.
  eapply (wp_extended_decode eigrp Hok external route Hnh Hx Hna); [eassumption|eassumption|].
  intros s' W' U'. rewrite wp_ret. unfold s' in *. rewrite !advance_advance in *. by apply HQ.
Qed.
End wide_metric.

(** ** The whole TLV *)

Definition tlv2_type (external : bool) : Z := if external then EIGRP_TLV_MP_EXT else EIGRP_TLV_MP_INT.

Definition tlv2_ext_wire (eigrp : tlv2_instance) (external : bool) (x : eigrp_extdata) : list Z :=
  if external then external2_wire eigrp x else [].

Definition header2_wire (eigrp : tlv2_instance) (route : eigrp_route_descriptor) : list Z :=
  to_be 2 (multiprotocol_afi (vectors eigrp)) ++ to_be 2 (rd_topology_id route)
  ++ to_be 4 (router_id_host eigrp).

(** What follows the header extension. *)
Definition sections2_wire (eigrp : tlv2_instance) (external : bool) (target : eigrp_prefix)
    (route : eigrp_route_descriptor) : list Z :=
  let attrs := attributes_wire eigrp external route in
  (metric2_wire (Z.of_nat (length attrs / 2)) (rd_metric route) ++ attrs)
  ++ tlv2_ext_wire eigrp external (rd_extdata route) ++ prefix_wire (vectors eigrp) target.

Record tlv2_encodable (eigrp : tlv2_instance) (external : bool) (target : eigrp_prefix)
    (route : eigrp_route_descriptor) : Prop := {
  t2_ok : tlv2_ok eigrp;
  t2_nexthop : addr_ok (vectors eigrp) (rd_nexthop route);
  t2_extdata : extdata_wf (rd_extdata route);
  t2_metric : metric_wide (rd_metric route);
  t2_target : prefix_ok (vectors eigrp) target;
  t2_topology : 0 <= rd_topology_id route < 2 ^ 16;
  t2_type : eigrp_tlv2_route_tlv_type eigrp route = tlv2_type external;
}.

(** What the encoder needs of a route, whatever its other fields are. *)
Record tlv2_sendable (eigrp : tlv2_instance) (external : bool) (target : eigrp_prefix)
    (route : eigrp_route_descriptor) : Prop := {
  s2_ok : tlv2_ok eigrp;
  s2_nexthop : nexthop_ok (vectors eigrp) (rd_nexthop route);
  s2_target : prefix_ok (vectors eigrp) target;
  s2_type : eigrp_tlv2_route_tlv_type eigrp route = tlv2_type external;
}.

Lemma encodable_sendable2 eigrp external target route :
  tlv2_encodable eigrp external target route -> tlv2_sendable eigrp external target route.
Proof. intros [? ? _ _ ? _ ?]. split; [done|by apply addr_nexthop|done..]. Qed.
#[export] Hint Resolve encodable_sendable2 : eigrp.

Section whole.
Context (eigrp : tlv2_instance) (external : bool) (target : eigrp_prefix)
  (route : eigrp_route_descriptor).
Hypothesis E : tlv2_sendable eigrp external target route.
Let Hok : tlv2_ok eigrp := s2_ok _ _ _ _ E.
Let Hlaws : AfLaws (vectors eigrp) := to_laws _ Hok.
Local Existing Instance Hlaws.

Lemma header2_length : length (header2_wire eigrp route) = 8%nat.
Proof. unfold header2_wire. by rewrite !length_app, !to_be_length. Qed.

Lemma ext2_length :
  length (tlv2_ext_wire eigrp external (rd_extdata route)) = (if external then 16 else 0)%nat.
Proof. unfold tlv2_ext_wire. destruct external; [apply external2_length|done]. Qed.

Lemma sections2_length :
  length (sections2_wire eigrp external target route)
  = (24 + length (attributes_wire eigrp external route) + (if external then 16 else 0)
     + length (prefix_wire (vectors eigrp) target))%nat
  /\ (length (attributes_wire eigrp external route) <= 28)%nat
  /\ (1 <= length (prefix_wire (vectors eigrp) target) <= 17)%nat.
Proof.
  destruct (attrs_length eigrp Hok external route (s2_nexthop _ _ _ _ E)) as (_ & Hl & _).
  pose proof (al_wire_length (v := vectors eigrp) target (s2_target _ _ _ _ E)).
  unfold sections2_wire. rewrite !length_app, metric2_length, ext2_length. split; lia.
Qed.

Lemma tlv2_type_external : (tlv2_type external =? EIGRP_TLV_MP_EXT) = external.
Proof. by destruct external. Qed.

Lemma wp_ext2_encode s0 s pre n (Q : unit -> eigrp_stream -> Prop) :
  appended s0 s pre -> stream_room s0 n -> (length pre + 16 <= n)%nat ->
  (forall s', appended s0 s' (pre ++ tlv2_ext_wire eigrp external (rd_extdata route)) -> Q tt s') ->
  wp (if external then eigrp_tlv2_external_encode eigrp (rd_extdata route) else mret tt) Q s.
Proof.
  intros A R Hn HQ. unfold tlv2_ext_wire in HQ. destruct external.
  - eapply wp_external2_encode; [exact A|exact R|done|exact HQ].
  - rewrite wp_ret. apply HQ. by rewrite app_nil_r.
Qed.

(** Room for the longest TLV: 4 + 8 + 24 + 28 + 16 + 17 bytes. *)
Lemma wp_tlv2_encoder s (Q : nat * eigrp_route_descriptor -> eigrp_stream -> Prop) :
  stream_wf s -> stream_room s 97 ->
  (forall s' wire, wire = tlv_frame (tlv2_type external)
       (header2_wire eigrp route ++ sections2_wire eigrp external target route) ->
     appended s s' wire -> Q (length wire, route) s') ->
  wp (eigrp_tlv2_encoder eigrp false target route) Q s.
Proof.
  intros W R HQ. destruct sections2_length as (_ & Ha & Hp).
  unfold eigrp_tlv2_encoder. rewrite (s2_type _ _ _ _ E). cbv zeta.
  assert ((tlv2_type external =? 0) = false) as -> by (by destruct external).
  rewrite tlv2_type_external, wp_bind, wp_gets. unfold eigrp_stream_putw, eigrp_stream_putl.
  pose proof (appended_refl s W) as A0. do 5 put_step. rewrite app_nil_l in *. rewrite wp_bind.
  eapply (wp_metric2_encode eigrp Hok external route (s2_nexthop _ _ _ _ E));
    [exact W|exact A4|exact R|rewrite !length_app, !to_be_length; lia|]. intros s6 A6.
  cbn [Nat.eqb Nat.add]. rewrite wp_bind.
  eapply wp_ext2_encode; [exact A6|exact R|
    rewrite !length_app, !to_be_length, metric2_length; lia|]. intros s7 A7. rewrite wp_bind.
  apply al_prefix_encode; [apply (s2_target _ _ _ _ E)|apply A7| |].
  { eapply appended_room; [exact A7|exact R|].
    rewrite !length_app, !to_be_length, metric2_length, ext2_length. destruct external; lia. }
  intros s8 B8. pose proof (appended_trans _ _ _ _ _ A7 B8) as A8.
  destruct (Nat.eqb_spec (length (prefix_wire (vectors eigrp) target)) 0); [lia|].
  apply (wp_tlv_finish (tlv2_type external)
    (header2_wire eigrp route ++ sections2_wire eigrp external target route) s); [done| |].
  - unfold header2_wire, sections2_wire. rewrite <-!app_assoc in *. exact A8.
  - intros s9 A9. by apply HQ.
Qed.
End whole.

(** ** What the decoder builds *)

(** IPv6 carries the next hop and the tag in the add-path attribute; without it the
    next hop is the neighbor's address and the tag of an external route is 0. *)
Definition tlv2_decoded (eigrp : tlv2_instance) (external : bool) (src : eigrp_addr)
    (target : eigrp_prefix) (sent got : eigrp_route_descriptor) : Prop :=
  let v := vectors eigrp in
  let ipv6 := v_afi v =? EIGRP_AFI_IPV6 in
  let x := rd_extdata sent in
  rd_type got = (if external then v_external_tlv_type v else v_internal_tlv_type v)
  /\ rd_topology_id got = rd_topology_id sent
  /\ rd_nexthop got = (if ipv6 && negb (eigrp_tlv2_addr_is_zero eigrp (rd_nexthop sent))
                       then rd_nexthop sent else src)
  /\ rd_metric got = rd_metric sent
  /\ rd_dest got = eigrp_prefix_normalize target
  /\ (external = true -> rd_extdata got =
        {| x with ext_orig := route_orig eigrp x; ext_tag := if ipv6 then ext_tag x else 0 |}).

Section tlv2_decode.
Context (eigrp : tlv2_instance) (external : bool) (target : eigrp_prefix)
  (route : eigrp_route_descriptor).
Hypothesis E : tlv2_encodable eigrp external target route.
Let Hok : tlv2_ok eigrp := t2_ok _ _ _ _ E.
Let Hlaws : AfLaws (vectors eigrp) := to_laws _ Hok.
Local Existing Instance Hlaws.

Lemma zero_addr_is_zero : eigrp_tlv2_addr_is_zero eigrp zero_addr = true.
Proof.
  unfold eigrp_tlv2_addr_is_zero. destruct (_ || _) eqn:G; [done|].
  apply orb_false_iff in G as [_ G]. apply Nat.ltb_ge in G. apply bool_decide_eq_true_2.
  change (addr_ip zero_addr) with (replicate 16 0). unfold zero_bytes.
  rewrite <-(Nat.min_l _ _ G) at 2. apply take_replicate.
Qed.

Lemma wp_ext2_decode old rest s (Q : option (eigrp_extdata * nat) -> eigrp_stream -> Prop) :
  let n := (if external then 16 else 0)%nat in
  let x := rd_extdata route in
  stream_wf s -> unread s = tlv2_ext_wire eigrp external x ++ rest ->
  (let s' := advance n s in stream_wf s' -> unread s' = rest ->
   Q (Some (if external then {| x with ext_orig := route_orig eigrp x; ext_tag := ext_tag old |}
            else old, n)) s') ->
  wp (if external
      then x ← eigrp_tlv2_external_decode old; mret (x ← x; Some (x, EIGRP_TLV2_EXTDATA_SIZE))
      else mret (Some (old, O))) Q s.
Proof.
  intros n x W U HQ. unfold tlv2_ext_wire in U. unfold n in *. destruct external.
  - rewrite wp_bind. eapply (wp_external2_decode eigrp x old);
      [apply (to_rid _ Hok)|apply (t2_extdata _ _ _ _ E)|done|exact U|].
    intros s' W' U'. rewrite wp_ret. by apply HQ.
  - rewrite wp_ret. rewrite advance_0 in HQ. by apply HQ.
Qed.

Lemma wp_tlv2_sections src fresh s (Q : option eigrp_route_descriptor -> eigrp_stream -> Prop) :
  let wire := sections2_wire eigrp external target route in
  rd_nexthop fresh = zero_addr -> ext_tag (rd_extdata fresh) = 0 ->
  rd_topology_id fresh = rd_topology_id route ->
  rd_type fresh = (if external then v_external_tlv_type (vectors eigrp)
                   else v_internal_tlv_type (vectors eigrp)) ->
  stream_wf s -> unread s = wire ->
  (forall got, tlv2_decoded eigrp external src target route got ->
     Q (Some got) (advance (length wire) s)) ->
  wp (tlv2_sections eigrp src external (12 + length wire) fresh) Q s.
Proof.
  intros wire F1 F2 F3 F4 W U HQ.
  destruct (sections2_length eigrp external target route (encodable_sendable2 _ _ _ _ E)) as (Hl & Ha & Hp). fold wire in Hl.
  pose proof E as [_ E2 E3 E4 E5 _ _].
  unfold tlv2_sections. rewrite wp_bind. unfold wire, sections2_wire in U. cbv zeta in U.
  rewrite <-app_assoc in U.
  eapply (wp_metric2_decode eigrp Hok external route (addr_nexthop _ _ E2) E3 E2); [exact E4|exact W|exact U|].
  intros s1 W1 U1. rewrite wp_bind.
  eapply wp_ext2_decode; [exact W1|exact U1|]. intros s2 W2 U2. rewrite wp_bind.
  rewrite <-(app_nil_r (prefix_wire (vectors eigrp) target)) in U2.
  eapply al_prefix_decode; [exact E5|exact W2|exact U2|]. intros s3 W3 U3.
  destruct (Nat.eqb_spec (length (prefix_wire (vectors eigrp) target)) 0); [lia|].
  unfold EIGRP_TLV_HDR_SIZE, EIGRP_TLV2_HEADER_EXT_SIZE.
  rewrite (proj2 (Nat.ltb_ge _ _)) by lia. rewrite (proj2 (Nat.eqb_neq _ _)) by lia.
  cbn [orb]. rewrite wp_ret.
  assert (s3 = advance (length wire) s) as ->.
  { unfold s3, s2, s1. rewrite !advance_advance. f_equal. lia. }
  apply HQ. unfold tlv2_decoded, with_attributes.
  destruct (v_afi (vectors eigrp) =? EIGRP_AFI_IPV6); cbn [andb]; simpl.
  - repeat (split; [done|]). split; [by destruct (eigrp_tlv2_addr_is_zero _ _)|].
    do 2 (split; [done|]). by intros ->.
  - repeat (split; [done|]). rewrite F1, zero_addr_is_zero. do 3 (split; [done|]).
    intros ->. by rewrite F2.
Qed.
Lemma wp_route_fresh ei s (Q : eigrp_route_descriptor -> eigrp_stream -> Prop) :
  grants (heap s) = [] ->
  (forall r, rd_ei r = ei -> rd_nexthop r = zero_addr -> ext_tag (rd_extdata r) = 0 -> Q r s) ->
  wp (tlv_route_create ei) Q s.
Proof.
  intros Hg HQ. unfold tlv_route_create. rewrite wp_bind. apply wp_allocate; [done|].
  rewrite wp_ret. by apply HQ.
Qed.

(** The header extension and the sections, in the view of the TLV. *)
Lemma wp_tlv2_view ei src tlv_end packet_end s (Q : option eigrp_route_descriptor -> eigrp_stream -> Prop) :
  let wire := header2_wire eigrp route ++ sections2_wire eigrp external target route in
  stream_wf s -> grants (heap s) = [] -> unread s = wire ->
  (forall got, tlv2_decoded eigrp external src target route got ->
     wp (eigrp_stream_set_endp packet_end;; decode_skip tlv_end;; mret (Some got)) Q
        (advance (length wire) s)) ->
  wp (ok ← tlv_stream_has EIGRP_TLV2_HEADER_EXT_SIZE;
      if negb ok then eigrp_stream_set_endp packet_end;; decode_abort;; mret None
      else
        af ← eigrp_stream_getw; tid ← eigrp_stream_getw; rid ← eigrp_stream_getl;
        if negb (af =? multiprotocol_afi (vectors eigrp)) then
          eigrp_stream_set_endp packet_end;; decode_skip tlv_end;; mret None
        else
          route ← tlv_route_create ei;
          let x := rd_extdata route in
          let route := {| route with rd_topology_id := tid;
            rd_type := if external then v_external_tlv_type (vectors eigrp)
                       else v_internal_tlv_type (vectors eigrp);
            rd_extdata := {| x with ext_orig := rid |} |} in
          result ← tlv2_sections eigrp src external (4 + length wire) route;
          eigrp_stream_set_endp packet_end;;
          (match result with Some _ => decode_skip tlv_end | None => decode_abort end);;
          mret result) Q s.
Proof.
  intros wire W Hg U HQ. destruct (al_types (v := vectors eigrp)) as (_ & _ & _ & Hafi).
  pose proof (header2_length eigrp route) as Hh. pose proof E as [_ _ _ _ _ Ht _].
  pose proof (to_rid _ Hok) as Hrid.
  rewrite wp_bind. apply wp_tlv_has; [done|].
  rewrite U. unfold wire. rewrite length_app, Hh, (proj2 (Nat.leb_le _ _))
    by (unfold EIGRP_TLV2_HEADER_EXT_SIZE; lia). cbn [negb].
  unfold wire, header2_wire in U. rewrite <-!app_assoc in U.
  do 3 get_step. rewrite !advance_advance in *. change (2 + (2 + 4))%nat with 8%nat in *.
  rewrite Z.eqb_refl. cbn [negb]. rewrite wp_bind. apply wp_route_fresh; [done|].
  intros fresh Fei Fnh Ftag. cbv zeta. rewrite wp_bind.
  change (4 + (8 + length (sections2_wire eigrp external target route)))%nat
    with (12 + length (sections2_wire eigrp external target route))%nat.
  apply wp_tlv2_sections; [done..|exact W2|exact U2|]. intros got Hgot.
  rewrite advance_advance. specialize (HQ got Hgot). unfold wire in HQ.
  by rewrite length_app, Hh in HQ.
Qed.
End tlv2_decode.

Section tlv2_decoder_frame.
Context (eigrp : tlv2_instance) (external : bool) (target : eigrp_prefix)
  (route : eigrp_route_descriptor).
Hypothesis E : tlv2_encodable eigrp external target route.

Lemma wp_tlv2_decoder ei src rest s (Q : option eigrp_route_descriptor -> eigrp_stream -> Prop) :
  let wire := tlv_frame (tlv2_type external)
    (header2_wire eigrp route ++ sections2_wire eigrp external target route) in
  stream_wf s -> grants (heap s) = [] -> unread s = wire ++ rest ->
  (forall got, tlv2_decoded eigrp external src target route got ->
     Q (Some got) (advance (length wire) s)) ->
  wp (eigrp_tlv2_decoder eigrp ei src) Q s.
Proof.
  intros wire W Hg U HQ.
  destruct (sections2_length eigrp external target route (encodable_sendable2 _ _ _ _ E)) as (Hl & Ha & Hp).
  pose proof (header2_length eigrp route) as Hh.
  set (body := header2_wire eigrp route ++ sections2_wire eigrp external target route) in *.
  assert (Hbl : length body = (8 + length (sections2_wire eigrp external target route))%nat)
    by (unfold body; by rewrite length_app, Hh).
  assert (Hb : (length body <= 93 /\ (if external then 49 else 33) <= length body)%nat)
    by (rewrite Hbl; destruct external; lia).
  assert (Hwl : length wire = (4 + length body)%nat)
    by (unfold wire, tlv_frame; rewrite !length_app, !to_be_length; done).
  assert (HT : 0 <= tlv2_type external < 256 ^ Z.of_nat 2) by (by destruct external).
  unfold eigrp_tlv2_decoder. rewrite wp_bind, wp_gets, wp_bind. apply wp_remaining; [done|].
  assert (Hul : length (unread s) = (4 + length body + length rest)%nat)
    by (rewrite U, length_app; lia).
  rewrite Hul, (proj2 (Nat.ltb_ge _ _)) by (unfold EIGRP_TLV_HDR_SIZE; lia).
  pose proof U as U0. unfold wire, tlv_frame in U0. rewrite <-!app_assoc in U0.
  assert (HL : 0 <= Z.of_nat (4 + length body) < 256 ^ Z.of_nat 2) by (change (256 ^ Z.of_nat 2) with 65536; lia).
  unfold eigrp_stream_getw. get_step. get_step. rewrite advance_advance in *.
  change (2 + 2)%nat with 4%nat in *. rewrite Nat2Z.id.
  assert (Hsel : (if tlv2_type external =? EIGRP_TLV_MP_INT then Some (false, EIGRP_TLV2_INT_MIN_TLV)
    else if tlv2_type external =? EIGRP_TLV_MP_EXT then Some (true, EIGRP_TLV2_EXT_MIN_TLV) else None)
    = Some (external, if external then 53 else 37)%nat) by (by destruct external).
  assert (Hmin : ((4 + length body <? (if external then 53 else 37))%nat = false))
    by (apply Nat.ltb_ge; destruct external; lia).
  rewrite Hsel, Hmin, (proj2 (Nat.ltb_ge _ _)) by lia. cbn [orb]. rewrite wp_bind, wp_gets, wp_bind.
  replace (getp s + (4 + length body))%nat with (getp (advance 4 s) + length body)%nat by (simpl; lia).
  assert (Hub : (length body <= length (unread (advance 4 s)))%nat) by (rewrite U2, length_app; lia).
  apply wp_trim; [done|done|]. destruct (trim_unread _ _ W1 Hub) as [Wt Ut].
  rewrite U2, take_app_length in Ut.
  apply (wp_tlv2_view eigrp external target route E ei src); [exact Wt|exact Hg|exact Ut|].
  intros got Hgot. fold body. rewrite wp_bind. apply wp_untrim; [done|done|done|]. rewrite wp_bind.
  assert (Hfin : advance (length body) (advance 4 s) = advance (length wire) s)
    by (rewrite advance_advance; f_equal; lia).
  rewrite Hfin. apply wp_skip_here; [apply advance_wf; [done|lia]|simpl; lia|]. rewrite wp_ret.
  by apply HQ.
Qed.
End tlv2_decoder_frame.

(** ** The decoder on arbitrary bytes *)

Section arbitrary2.
Context (eigrp : tlv2_instance) (Hok : tlv2_ok eigrp).
Let Hlaws : AfLaws (vectors eigrp) := to_laws _ Hok.
Local Existing Instance Hlaws.
Implicit Types s : eigrp_stream.

Lemma wp_get48_any s0 s (Q : Z -> eigrp_stream -> Prop) :
  stream_wf s0 -> moved s0 s -> (forall x s', moved s0 s' -> Q x s') -> wp eigrp_tlv2_get48 Q s.
Proof.
  intros W M HQ. unfold eigrp_tlv2_get48, eigrp_stream_getc.
  do 6 (rewrite ?wp_bind; eapply wp_get_moved; [exact W|eassumption|];
    let M := fresh "M" in intros ? ? M; rewrite wp_ret). by apply HQ.
Qed.

Lemma wp_getc_some s (Q : Z -> eigrp_stream -> Prop) :
  stream_wf s -> (getp s < endp s)%nat -> (forall x, Q x (advance 1 s)) -> wp eigrp_stream_getc Q s.
Proof.
  intros W H HQ. apply wp_get_be_any; [done|]. intros x n _ -> _.
  rewrite (unread_length s W), Nat.min_l by lia. apply HQ.
Qed.

Lemma wp_addpath_any external data_len route s0 s
    (Q : option eigrp_route_descriptor -> eigrp_stream -> Prop) :
  stream_wf s0 -> moved s0 s -> (forall o s', moved s0 s' -> Q o s') ->
  wp (addpath_decode eigrp external data_len route) Q s.
Proof.
  intros W M HQ. unfold addpath_decode, eigrp_stream_getl, eigrp_stream_getc.
  destruct (negb _); [rewrite wp_ret; by apply HQ|]. rewrite wp_bind.
  apply al_address_safe; [exact (moved_wf _ _ W M)|]. intros [dn nh] n Hn _ _.
  assert (M1 : moved s0 (advance n s)) by (etrans; [exact M|by exists n]).
  destruct (_ =? _)%nat; [rewrite wp_ret; by apply HQ|].
  do 2 any_step. rewrite wp_bind. destruct external.
  - do 2 any_step. rewrite !wp_ret. by apply HQ.
  - rewrite !wp_ret. by apply HQ.
Qed.

Lemma moved_endp s s' : moved s s' -> endp s' = endp s.
Proof. by intros (k & _ & ->). Qed.
Lemma moved_getp s s' : moved s s' -> (getp s <= getp s')%nat.
Proof. intros (k & _ & ->). simpl. lia. Qed.
Lemma moved_advance s0 s n : stream_wf s0 -> moved s0 s -> (getp s + n <= endp s)%nat ->
  moved s0 (advance n s).
Proof.
  intros W M H. etrans; [exact M|]. exists n. split; [|done].
  rewrite (unread_length s (moved_wf _ _ W M)). lia.
Qed.

(** The attribute loop never runs out of fuel: each round reads its two-byte header. *)
Lemma wp_extended_loop_any fuel external attr_end s0 :
  stream_wf s0 -> (attr_end <= endp s0)%nat ->
  forall route s (Q : option eigrp_route_descriptor -> eigrp_stream -> Prop),
  moved s0 s -> (attr_end <= getp s + fuel)%nat -> (forall o s', moved s0 s' -> Q o s') ->
  wp (extended_loop fuel eigrp external attr_end route) Q s.
Proof.
  intros W Hend. induction fuel as [|fuel IH]; intros route s Q M Hf HQ; cbn [extended_loop];
    rewrite wp_bind, wp_gets;
    (destruct (Nat.leb_spec attr_end (getp s)) as [H|H]; [rewrite wp_ret; by apply HQ|]); [lia|].
  pose proof (moved_wf _ _ W M) as Ws. pose proof (moved_endp _ _ M) as He.
  destruct (Nat.ltb_spec (attr_end - getp s) EIGRP_TLV2_EXTATTR_HEADER_SIZE) as [H2|H2];
    [rewrite wp_ret; by apply HQ|]. unfold EIGRP_TLV2_EXTATTR_HEADER_SIZE in H2.
  rewrite wp_bind. apply wp_getc_some; [done|lia|]. intros opcode.
  assert (M1 : moved s0 (advance 1 s)) by (apply moved_advance; [done|done|lia]).
  rewrite wp_bind. apply wp_getc_some; [exact (moved_wf _ _ W M1)|simpl; lia|]. intros words.
  rewrite advance_advance. change (1 + 1)%nat with 2%nat. rewrite wp_bind, wp_gets. cbv zeta.
  assert (M2 : moved s0 (advance 2 s)) by (apply moved_advance; [done|done|lia]).
  set (s2 := advance 2 s) in *. assert (Hg : getp s2 = (getp s + 2)%nat) by done.
  assert (He2 : endp s2 = endp s0) by (by apply moved_endp).
  destruct (Nat.ltb_spec (attr_end - getp s2) (Z.to_nat words * 2)) as [H3|H3];
    [rewrite wp_ret; by apply HQ|]. set (n := (Z.to_nat words * 2)%nat) in *. rewrite wp_bind.
  assert (Hr : wp (if opcode =? EIGRP_TLV2_EXTATTR_ADDPATH
      then addpath_decode eigrp external n route
      else eigrp_stream_set_getp (getp s2 + n);; mret (Some route)) (fun _ s' => moved s0 s') s2).
  { destruct (opcode =? EIGRP_TLV2_EXTATTR_ADDPATH);
      [by eapply wp_addpath_any; [exact W|exact M2|]|].
    rewrite wp_bind. apply wp_set_getp. rewrite (proj2 (Nat.leb_le _ _)) by lia. rewrite wp_ret.
    apply (moved_advance s0 s2 n); [done|done|lia]. }
  eapply wp_mono; [exact Hr|]. intros [r|] s3 M3; [|rewrite wp_ret; by apply HQ].
  rewrite wp_bind, wp_gets. destruct (Nat.eqb_spec (getp s3) (getp s2 + n)) as [H4|H4]; cbn [negb].
  - apply IH; [done|lia|done].
  - rewrite wp_ret. by apply HQ.
Qed.

Lemma wp_extended_any external attr_len route s0 s
    (Q : option eigrp_route_descriptor -> eigrp_stream -> Prop) :
  stream_wf s0 -> moved s0 s -> (forall o s', moved s0 s' -> Q o s') ->
  wp (eigrp_tlv2_extended_decode eigrp route attr_len external) Q s.
Proof.
  intros W M HQ. unfold eigrp_tlv2_extended_decode.
  destruct (attr_len =? 0)%nat; [rewrite wp_ret; by apply HQ|].
  pose proof (moved_wf _ _ W M) as Ws. rewrite wp_bind. apply wp_tlv_has; [done|].
  destruct (Nat.leb_spec attr_len (length (unread s))) as [H|H]; cbn [negb];
    [|rewrite wp_ret; by apply HQ].
  rewrite (unread_length s Ws) in H. rewrite wp_bind, wp_gets.
  pose proof (moved_endp _ _ M). destruct Ws as [Ws1 _ _].
  eapply wp_extended_loop_any; [exact W|lia|exact M|lia|exact HQ].
Qed.

Lemma wp_metric2_any external route s0 s
    (Q : option (eigrp_route_descriptor * nat) -> eigrp_stream -> Prop) :
  stream_wf s0 -> moved s0 s -> (forall o s', moved s0 s' -> Q o s') ->
  wp (eigrp_tlv2_metric_decode eigrp route external) Q s.
Proof.
  intros W M HQ. unfold eigrp_tlv2_metric_decode, eigrp_stream_getc, eigrp_stream_getw.
  rewrite wp_bind. eapply wp_has_moved; [done|done|].
  intros [|]; cbn [negb]; [|rewrite wp_ret; by apply HQ].
  do 8 any_step. do 2 (rewrite wp_bind; eapply wp_get48_any; [exact W|eassumption|]; intros ? ? ?).
  do 2 any_step. cbv zeta. rewrite wp_bind. eapply wp_extended_any; [exact W|eassumption|].
  intros o t M'. rewrite wp_ret. by apply HQ.
Qed.

Lemma wp_ext2_any (external : bool) old s0 s (Q : option (eigrp_extdata * nat) -> eigrp_stream -> Prop) :
  stream_wf s0 -> moved s0 s -> (forall o s', moved s0 s' -> Q o s') ->
  wp (if external
      then x ← eigrp_tlv2_external_decode old; mret (x ← x; Some (x, EIGRP_TLV2_EXTDATA_SIZE))
      else mret (Some (old, O))) Q s.
Proof.
  intros W M HQ. destruct external; [|rewrite wp_ret; by apply HQ].
  unfold eigrp_tlv2_external_decode, eigrp_stream_getc, eigrp_stream_getw, eigrp_stream_getl.
  rewrite !wp_bind. eapply wp_has_moved; [done|done|]. intros [|]; cbn [negb].
  - do 6 any_step. rewrite !wp_ret. by apply HQ.
  - rewrite !wp_ret. by apply HQ.
Qed.

Lemma wp_sections2_any src external len route s0 s
    (Q : option eigrp_route_descriptor -> eigrp_stream -> Prop) :
  stream_wf s0 -> moved s0 s ->
  (forall o s', moved s0 s' -> (forall r, o = Some r -> prefix_ok (vectors eigrp) (rd_dest r)) -> Q o s') ->
  wp (tlv2_sections eigrp src external len route) Q s.
Proof.
  intros W M HQ. assert (Hnone : forall s', moved s0 s' -> wp (mret None) Q s') by (intros; by apply HQ).
  unfold tlv2_sections. cbv zeta. rewrite wp_bind. eapply wp_metric2_any; [exact W|exact M|].
  intros [[r k]|] s1 M1; [|by apply Hnone]. rewrite wp_bind.
  eapply wp_ext2_any; [exact W|exact M1|]. intros [[x xl]|] s2 M2; [|by apply Hnone]. rewrite wp_bind.
  apply al_prefix_safe; [exact (moved_wf _ _ W M2)|]. intros [pn dest] n Hn En _ Hd.
  simpl in En, Hd. subst pn.
  assert (M3 : moved s0 (advance n s2)) by (etrans; [exact M2|by exists n]).
  destruct (Nat.eqb_spec n 0) as [|Hn0]; [by apply Hnone|].
  destruct (_ || _); [by apply Hnone|]. rewrite wp_ret. apply HQ; [done|].
  intros r' [= <-]. by apply Hd.
Qed.

(** After the view of the TLV is left, the rest of it, or of the packet, is skipped. *)
Lemma wp_leave_view s n s' o :
  stream_wf s -> (4 < n <= length (unread s))%nat -> moved (trim (n - 4) (advance 4 s)) s' ->
  (forall r, o = Some r -> prefix_ok (vectors eigrp) (rd_dest r)) ->
  wp (eigrp_stream_set_endp (endp s);;
      (match o with Some _ => decode_skip (getp s + n) | None => decode_abort end);;
      mret o) (consumed (vectors eigrp) s) s'
  /\ wp (eigrp_stream_set_endp (endp s);; decode_skip (getp s + n);; mret None)
      (consumed (vectors eigrp) s) s'.
Proof.
  intros W Hn M Ho. assert (W4 : stream_wf (advance 4 s)) by (apply advance_wf; [done|lia]).
  assert (Hu4 : length (unread (advance 4 s)) = (length (unread s) - 4)%nat)
    by (by rewrite unread_advance, length_drop).
  destruct (moved_trim (n - 4) (advance 4 s) s' W4 ltac:(lia) M) as (k & Hk & ->).
  assert (Wk : stream_wf (advance (4 + k) s)) by (apply advance_wf; [done|lia]).
  assert (Hskip : forall o', (forall r, o' = Some r -> prefix_ok (vectors eigrp) (rd_dest r)) ->
    wp (decode_skip (getp s + n);; mret o') (consumed (vectors eigrp) s) (advance (4 + k) s)).
  { intros o' Ho'. rewrite wp_bind.
    replace (getp s + n)%nat with (getp (advance (4 + k) s) + (n - 4 - k))%nat by (simpl; lia).
    apply wp_skip; [done|rewrite unread_advance, length_drop; lia|].
    rewrite wp_ret, advance_advance. apply consumed_at; [lia|done]. }
  change (endp s) with (endp (advance 4 s)).
  split; rewrite wp_bind; (apply wp_untrim; [done|done|lia|]); rewrite advance_advance.
  - destruct o as [r|]; [by apply Hskip|]. by apply wp_abort_consumed; [|lia|].
  - by apply Hskip.
Qed.
End arbitrary2.

(** ** Theorems *)

(** C21: the multiprotocol TLV round trip: a route whose vector the wide form can
    carry, written by [eigrp_tlv2_encoder] and read back by [eigrp_tlv2_decoder],
    yields the same vector (an infinite delay or bandwidth stays infinite), topology
    id and destination, the family's internal or external type, the external data
    (its originator defaulted to the router id; its tag for IPv6 only), and as next
    hop the one sent for IPv6 and the neighbor's address otherwise; the decoder
    consumes exactly the bytes written. *)
Theorem tlv2_round_trip eigrp external target route ei src s :
  tlv2_encodable eigrp external target route ->
  stream_wf s -> stream_room s 97 -> unread s = [] ->
  wp ('(len, _) ← eigrp_tlv2_encoder eigrp false target route;
      got ← eigrp_tlv2_decoder eigrp ei src; mret (len, got))
     (fun '(len, got) s' => exists g, got = Some g
        /\ tlv2_decoded eigrp external src target route g
        /\ getp s' = (getp s + len)%nat /\ unread s' = []) s.
Proof.
  intros E W R U. rewrite wp_bind. apply (wp_tlv2_encoder eigrp external target route (encodable_sendable2 _ _ _ _ E)); [done|done|].
  intros s1 wire Ew A. rewrite wp_bind.
  assert (U1 : unread s1 = wire).
  { rewrite (unread_put s s1 wire), U; [done|done|apply A|apply A]. }
  eapply (wp_tlv2_decoder eigrp external target route E ei src []); [apply A| | |].
  - rewrite (ap_heap _ _ _ A). apply R.
  - by rewrite app_nil_r, U1, Ew.
  - intros got Hgot. rewrite wp_ret, <-Ew. exists got. split; [done|]. split; [done|]. split.
    + simpl. by rewrite (ap_getp _ _ _ A).
    + rewrite unread_advance, U1. by apply drop_ge.
Qed.

(** [eigrp_tlv2_decoder] is safe on arbitrary bytes: it terminates (the attribute
    loop included), reads nothing outside the packet, leaves the bytes and the end
    of the packet as they were, always consumes input when there is some, and
    returns a route only with a valid destination of its family. *)
Theorem tlv2_decoder_safe eigrp ei src s :
  tlv2_ok eigrp -> stream_wf s -> grants (heap s) = [] ->
  wp (eigrp_tlv2_decoder eigrp ei src) (consumed (vectors eigrp) s) s.
Proof.
  intros Hok W Hg. unfold eigrp_tlv2_decoder. rewrite wp_bind, wp_gets, wp_bind.
  apply wp_remaining; [done|].
  destruct (Nat.ltb_spec (length (unread s)) EIGRP_TLV_HDR_SIZE) as [Hs|Hs].
  { rewrite wp_bind. apply wp_abort; [done|]. rewrite wp_ret. by apply consumed_all. }
  unfold EIGRP_TLV_HDR_SIZE in Hs. rewrite wp_bind. apply wp_get_be_any; [done|].
  intros type n1 _ En1 W1. rewrite Nat.min_l in En1 by lia. subst n1. rewrite wp_bind.
  apply wp_get_be_any; [done|]. rewrite unread_advance, length_drop.
  intros len n2 _ En2 W2. rewrite Nat.min_l in En2 by lia. subst n2. cbv zeta.
  rewrite advance_advance in *. change (2 + 2)%nat with 4%nat in *.
  pose proof (wp_abort_consumed (vectors eigrp) s 4 W Hs) as Hab.
  destruct (if type =? EIGRP_TLV_MP_INT then _ else _) as [[external m]|] eqn:Esel.
  - destruct (_ || _) eqn:Eg; [by apply Hab|]. apply orb_false_iff in Eg as [G1 G2].
    apply Nat.ltb_ge in G1, G2. set (n := Z.to_nat len) in *.
    assert (Hn : (4 < n <= length (unread s))%nat).
    { split; [|done]. destruct (type =? EIGRP_TLV_MP_INT), (type =? EIGRP_TLV_MP_EXT);
        simplify_eq; unfold EIGRP_TLV2_INT_MIN_TLV, EIGRP_TLV2_EXT_MIN_TLV in *; lia. }
    rewrite wp_bind, wp_gets, wp_bind. cbn [endp advance].
    replace (getp s + n)%nat with (getp (advance 4 s) + (n - 4))%nat at 1 by (simpl; lia).
    apply wp_trim; [done|rewrite unread_advance, length_drop; lia|].
    destruct (trim_unread (n - 4) _ W2 ltac:(rewrite unread_advance, length_drop; lia)) as [Wt _].
    assert (Mt : moved (trim (n - 4) (advance 4 s)) (trim (n - 4) (advance 4 s))) by done.
    rewrite wp_bind. eapply wp_has_moved; [exact Wt|exact Mt|]. intros [|]; cbn [negb].
    2:{ by apply (proj1 (wp_leave_view eigrp s n _ None W Hn Mt ltac:(done))). }
    unfold eigrp_stream_getw, eigrp_stream_getl.
    do 3 (rewrite wp_bind; eapply wp_get_moved; [exact Wt|eassumption|]; intros ? ? ?).
    destruct (negb _).
    { by apply (proj2 (wp_leave_view eigrp s n _ None W Hn ltac:(eassumption) ltac:(done))). }
    rewrite wp_bind. apply wp_route_create.
    { destruct (ltac:(eassumption) : moved (trim (n - 4) (advance 4 s)) _) as (? & _ & ->). done. }
    intros fresh _. cbv zeta. rewrite wp_bind.
    eapply wp_sections2_any; [exact Hok|exact Wt|eassumption|]. intros o t M' Ho.
    by apply (proj1 (wp_leave_view eigrp s n _ o W Hn M' Ho)).
  - destruct (Nat.leb_spec EIGRP_TLV_HDR_SIZE (Z.to_nat len)) as [H4|H4]; [|by apply Hab].
    destruct (Nat.leb_spec (Z.to_nat len) (length (unread s))) as [H5|H5]; [|by apply Hab].
    cbn [andb]. unfold EIGRP_TLV_HDR_SIZE in H4. rewrite wp_bind. by apply wp_skip_consumed.
Qed.

(** ** Instances *)

Definition ex2_instance : tlv2_instance := {| vectors := eigrp_ipv6_init; router_id_host := 0x0a000001 |}.

Definition ex2_route : eigrp_route_descriptor :=
  {| ex_route with
     rd_topology_id := 3;
     rd_nexthop := {| addr_afi := AF_INET6; addr_ip := [0xfe; 0x80] ++ zero_bytes 13 ++ [1] |};
     rd_metric := {| delay := EIGRP_MAX_METRIC; bandwidth := 0x123456789abc; mtu0 := 220; mtu1 := 5;
                     mtu2 := 0; hop_count := 1; reliability := 255; load := 1; tag := 0; flags := 0 |} |}.

Definition ex2_target : eigrp_prefix :=
  {| address := {| afi := EIGRP_AFI_IPV6; bytes := [0x20; 0x01; 0x0d; 0xb8] ++ zero_bytes 12 |};
     prefix_length := 32 |}.

Lemma ex2_ok : tlv2_ok ex2_instance.
Proof. split; [exact ipv6_laws|simpl; lia]. Qed.

Lemma ex2_encodable : tlv2_encodable ex2_instance true ex2_target ex2_route.
Proof.
  split; [exact ex2_ok| |split; unfold byte; simpl; lia| | |simpl; lia|done].
  - split; [done| |done|done]. simpl. solve_bytes.
  - split; [by left|right; vm_compute; split; congruence|split; unfold byte; simpl; lia].
  - split; [|done|done]. split; [|simpl; lia]. split; [done|]. simpl. solve_bytes.
Qed.

Lemma tlv2_round_trip_witness :
  wp ('(len, _) ← eigrp_tlv2_encoder ex2_instance false ex2_target ex2_route;
      got ← eigrp_tlv2_decoder ex2_instance None zero_addr; mret (len, got))
     (fun '(len, got) s' => exists g, got = Some g /\ rd_nexthop g = rd_nexthop ex2_route
        /\ delay (rd_metric g) = EIGRP_MAX_METRIC /\ ext_tag (rd_extdata g) = 7) empty_stream.
Proof.
  eapply wp_mono; [apply (tlv2_round_trip ex2_instance true ex2_target ex2_route None zero_addr empty_stream);
    [exact ex2_encodable|exact empty_stream_wf| |reflexivity]|].
  - split; [reflexivity|vm_compute; congruence].
  - intros [len got] s' (g & -> & (_ & _ & Hn & Hm & _ & Hx) & _). exists g. split; [done|].
    rewrite Hn, Hm, (Hx eq_refl). repeat split.
Defined.

Lemma tlv2_decoder_safe_witness :
  wp (eigrp_tlv2_decoder ex2_instance None zero_addr) (fun _ s' => (getp s' <= 3)%nat) ex_stream.
Proof.
  eapply wp_mono; [apply (tlv2_decoder_safe ex2_instance None zero_addr ex_stream ex2_ok ex_stream_wf eq_refl)|].
  intros o s' (n & -> & Hn & _). simpl in *. lia.
Defined.
