(* ===== verification/Timers.v ===== *)
(** * The timer queue of an instance

    eigrp_timer.c and the timer dequeue of the instance thread (eigrp_packet.c): one
    list of events ordered by due time, and for each event the owner's pointer that
    refers to it.  A slot of type [K] names such a pointer (a [t_...] field of an
    instance, an interface or a neighbor); the owners' pointers are a map from slots
    to the addresses of events.  Every operation runs under [work_lock]. *)

From Stdlib Require Import ZArith Lia.
From stdpp Require Import base gmap list sorting.
From S2P Require Import Prelude.

(** ** Data *)

Record timer_event (K C : Type) := {
  te_addr : nat;
  te_owner : K;
  te_callback : C;
  te_due : Z;
}.
Arguments te_addr {K C}.
Arguments te_owner {K C}.
Arguments te_callback {K C}.
Arguments te_due {K C}.

(** [next_addr]: where the next [calloc] puts an event. *)
Record timers (K C : Type) `{Countable K} := {
  timer_head : list (timer_event K C);
  owners : gmap K nat;
  next_addr : nat;
  tm_shutdown : bool;
  tm_thread_running : bool;
}.
Arguments timer_head {K C _ _}.
Arguments owners {K C _ _}.
Arguments next_addr {K C _ _}.
Arguments tm_shutdown {K C _ _}.
Arguments tm_thread_running {K C _ _}.

Section operations.
Context {K C : Type} `{Countable K}.
Implicit Types (q : timers K C) (owner : K).

(** ** Operations *)

Definition eigrp_timer_unlink_locked q (event : nat) : timers K C :=
  {| q with timer_head := remove_first (fun e => Nat.eqb (te_addr e) event) (timer_head q) |}.

Definition eigrp_timer_cancel q owner : timers K C :=
  match owners q !! owner with
  | Some event =>
      let q := {| q with owners := delete owner (owners q) |} in
      eigrp_timer_unlink_locked q event
  | None => q
  end.

(** [now]: the reading of the clock; [granted]: whether [calloc] succeeds. *)
Definition eigrp_timer_add q owner (callback : C) (now delay_msec : Z) (granted : bool) : timers K C :=
  let q := eigrp_timer_cancel q owner in
  if negb granted then q
  else
    let event := {| te_addr := next_addr q; te_owner := owner; te_callback := callback;
                    te_due := u64 (now + delay_msec) |} in
    if tm_shutdown q || negb (tm_thread_running q) then q
    else {| q with timer_head := insert_by te_due event (timer_head q);
                   owners := <[owner := te_addr event]> (owners q);
                   next_addr := S (next_addr q) |}.

(** [event]'s owner is cleared when it still refers to [event]. *)
Definition release_owner (event : timer_event K C) (m : gmap K nat) : gmap K nat :=
  match m !! te_owner event with
  | Some a => if Nat.eqb a (te_addr event) then delete (te_owner event) m else m
  | None => m
  end.

Definition eigrp_instance_timer_due_dequeue q (now : Z) : option (timer_event K C) * timers K C :=
  match timer_head q with
  | timer :: next =>
      if te_due timer <=? now
      then (Some timer, {| q with timer_head := next; owners := release_owner timer (owners q) |})
      else (None, q)
  | [] => (None, q)
  end.

Definition eigrp_timer_remaining_seconds (event : timer_event K C) (now : Z) : Z :=
  if now <? te_due event then u32 (u64 (te_due event - now + 999) / 1000) else 0.

Definition eigrp_timer_cancel_all q : timers K C :=
  {| q with timer_head := []; owners := foldl (fun m e => release_owner e m) (owners q) (timer_head q) |}.

(** The instance thread takes the due events one by one; one unit of fuel each. *)
Fixpoint drain (fuel : nat) q (now : Z) : list (timer_event K C) * timers K C :=
  match fuel with
  | O => ([], q)
  | S fuel' =>
      match eigrp_instance_timer_due_dequeue q now with
      | (Some e, q') => let '(l, q'') := drain fuel' q' now in (e :: l, q'')
      | (None, q') => ([], q')
      end
  end.

(** ** Well-formed queues *)

(** Earlier due first; of two events due together the one armed first. *)
Definition fires_before (a b : timer_event K C) : Prop :=
  te_due a < te_due b \/ te_due a = te_due b /\ (te_addr a < te_addr b)%nat.

Record timers_wf q : Prop := {
  tw_sorted : StronglySorted fires_before (timer_head q);
  tw_addrs : NoDup (te_addr <$> timer_head q);
  tw_owner : forall e, e ∈ timer_head q -> owners q !! te_owner e = Some (te_addr e);
  tw_armed : forall k a, owners q !! k = Some a ->
               exists e, e ∈ timer_head q /\ te_owner e = k /\ te_addr e = a;
  tw_fresh : forall e, e ∈ timer_head q -> (te_addr e < next_addr q)%nat;
}.

(** What a slot's pointer refers to: its callback and due time. *)
Definition armed q owner : option (C * Z) :=
  e ← List.find (fun e => bool_decide (te_owner e = owner)) (timer_head q);
  Some (te_callback e, te_due e).

Lemma addr_unique q a b :
  timers_wf q -> a ∈ timer_head q -> b ∈ timer_head q -> te_addr a = te_addr b -> a = b.
Proof.
  intros [_ Hn _ _ _] [i Hi]%list_elem_of_lookup [j Hj]%list_elem_of_lookup E.
  assert (i = j) as ->; [|by simplify_eq].
  eapply NoDup_lookup; [exact Hn| |]; rewrite list_lookup_fmap, ?Hi, ?Hj; simpl; [done|by rewrite E].
Qed.

Lemma owner_unique q a b :
  timers_wf q -> a ∈ timer_head q -> b ∈ timer_head q -> te_owner a = te_owner b -> a = b.
Proof.
  intros W Ha Hb E. eapply addr_unique; eauto.
  pose proof (tw_owner _ W _ Ha) as Oa. pose proof (tw_owner _ W _ Hb) as Ob. rewrite E in Oa. congruence.
Qed.

Lemma armed_spec q k c d :
  timers_wf q ->
  armed q k = Some (c, d) <-> exists e, e ∈ timer_head q /\ te_owner e = k /\ te_callback e = c /\ te_due e = d.
Proof.
  intros W. unfold armed. split.
  - destruct (List.find _ _) as [e|] eqn:E; [|done]. simpl. intros [= <- <-].
    apply find_first in E as (l1 & l2 & E & HP & _). exists e. apply bool_decide_eq_true in HP.
    repeat split; [|done]. rewrite E. set_solver.
  - intros (e & He & Ho & <- & <-). destruct (List.find _ _) as [e'|] eqn:E; simpl.
    + apply find_first in E as (l1 & l2 & E & HP & _). apply bool_decide_eq_true in HP.
      assert (e' = e) as ->; [|done]. eapply owner_unique; [done| |done|congruence]. rewrite E. set_solver.
    + apply find_none_forall in E. rewrite Forall_forall in E. apply E in He.
      by apply bool_decide_eq_false in He.
Qed.

Lemma armed_none q k :
  armed q k = None <-> forall e, e ∈ timer_head q -> te_owner e <> k.
Proof.
  unfold armed. split.
  - destruct (List.find _ _) as [e|] eqn:E; [done|]. intros _ e He.
    apply find_none_forall in E. rewrite Forall_forall in E. by apply E, bool_decide_eq_false in He.
  - intros Hn. destruct (List.find _ _) as [e|] eqn:E; [|done].
    apply find_first in E as (l1 & l2 & E & HP & _). apply bool_decide_eq_true in HP.
    destruct (Hn e); [|done]. rewrite E. set_solver.
Qed.

(** Two queues with the same answer for every triple agree on a slot. *)
Lemma armed_ext q q' k :
  timers_wf q -> timers_wf q' ->
  (forall e, te_owner e = k -> e ∈ timer_head q' <-> e ∈ timer_head q) -> armed q' k = armed q k.
Proof.
  intros W W' Hk. destruct (armed q k) as [[c d]|] eqn:E.
  - apply armed_spec in E as (e & He & Ho & ? & ?); [|done]. apply armed_spec; [done|].
    exists e. split; [by apply Hk|done].
  - apply armed_none. rewrite armed_none in E. intros e He Ho. apply (E e); [by apply Hk|done].
Qed.

(** ** Unlinking *)

Lemma filter_ext_elem (P Q : timer_event K C -> Prop) `{forall x, Decision (P x)} `{forall x, Decision (Q x)} (l : list (timer_event K C)) :
  (forall x, x ∈ l -> P x <-> Q x) -> filter P l = filter Q l.
Proof.
  induction l as [|x l IH]; intros Hx; [done|]. rewrite !filter_cons.
  assert (P x <-> Q x) as Hpq by (apply Hx; set_solver).
  rewrite IH by (intros; apply Hx; set_solver). do 2 case_decide; tauto.
Qed.

Lemma filter_keep (P : timer_event K C -> Prop) `{forall x, Decision (P x)} (l : list (timer_event K C)) :
  (forall x, x ∈ l -> P x) -> filter P l = l.
Proof.
  induction l as [|x l IH]; intros Hx; [done|]. rewrite filter_cons_True by (apply Hx; set_solver).
  f_equal. apply IH. intros y Hy. apply Hx. set_solver.
Qed.

Lemma unlink_filter q event :
  timers_wf q ->
  timer_head (eigrp_timer_unlink_locked q event) = filter (fun e => te_addr e <> event) (timer_head q).
Proof.
  intros W. simpl. destruct W as [_ Hn _ _ _]. induction (timer_head q) as [|e l IH]; [done|].
  simpl in Hn. apply NoDup_cons in Hn as [Hnot Hn]. simpl. rewrite filter_cons.
  destruct (Nat.eqb_spec (te_addr e) event) as [<-|Hne].
  - rewrite decide_False by tauto. symmetry. apply filter_keep.
    intros x Hx Hex. apply Hnot. rewrite <- Hex. apply list_elem_of_fmap. by exists x.
  - rewrite decide_True by done. f_equal. by apply IH.
Qed.

Lemma sorted_filter_fires (P : timer_event K C -> Prop) `{forall x, Decision (P x)} (l : list (timer_event K C)) :
  StronglySorted fires_before l -> StronglySorted fires_before (filter P l).
Proof.
  induction 1 as [|y l Hs IH Hy]; [constructor|].
  rewrite filter_cons. case_decide; [|done]. constructor; [done|].
  apply Forall_forall. intros z [_ Hz]%list_elem_of_filter. rewrite Forall_forall in Hy. by apply Hy.
Qed.

Lemma addrs_filter (P : timer_event K C -> Prop) `{forall x, Decision (P x)} (l : list (timer_event K C)) :
  NoDup (te_addr <$> l) -> NoDup (te_addr <$> filter P l).
Proof.
  induction l as [|e l IH]; [done|]. simpl. intros [Hn HN]%NoDup_cons. rewrite filter_cons.
  case_decide; [|by apply IH]. simpl. apply NoDup_cons. split; [|by apply IH].
  intros (x & Ex & [_ Hx]%list_elem_of_filter)%list_elem_of_fmap. apply Hn. rewrite Ex.
  apply list_elem_of_fmap. eauto.
Qed.

(** Dropping the event of one owner together with the owner's pointer. *)
Lemma drop_owner_wf q q' k :
  timers_wf q ->
  timer_head q' = filter (fun e => te_owner e <> k) (timer_head q) ->
  owners q' = delete k (owners q) -> next_addr q' = next_addr q -> timers_wf q'.
Proof.
  intros W Eh Eo En. destruct (W) as [Hs Hn Ho Ha Hf]. split; rewrite ?Eh, ?Eo, ?En.
  - by apply sorted_filter_fires.
  - by apply addrs_filter.
  - intros e [Hne He]%list_elem_of_filter. rewrite lookup_delete_ne by done. by apply Ho.
  - intros k' a Hk. apply lookup_delete_Some in Hk as [Hne Hk]. destruct (Ha _ _ Hk) as (e & He & <- & <-).
    exists e. split; [|done]. apply list_elem_of_filter. done.
  - intros e [_ He]%list_elem_of_filter. by apply Hf.
Qed.

Lemma drop_owner_armed q q' k k' :
  timers_wf q -> timers_wf q' ->
  timer_head q' = filter (fun e => te_owner e <> k) (timer_head q) ->
  armed q' k' = if decide (k = k') then None else armed q k'.
Proof.
  intros W W' Eh. case_decide as Hk.
  - subst. apply armed_none. rewrite Eh. by intros e [Hne _]%list_elem_of_filter.
  - apply armed_ext; [done|done|]. intros e He. rewrite Eh, list_elem_of_filter. naive_solver.
Qed.

(** ** Cancelling *)

Lemma cancel_drops q k :
  timers_wf q ->
  timer_head (eigrp_timer_cancel q k) = filter (fun e => te_owner e <> k) (timer_head q)
  /\ owners (eigrp_timer_cancel q k) = delete k (owners q)
  /\ next_addr (eigrp_timer_cancel q k) = next_addr q
  /\ tm_shutdown (eigrp_timer_cancel q k) = tm_shutdown q
  /\ tm_thread_running (eigrp_timer_cancel q k) = tm_thread_running q.
Proof.
  intros W. unfold eigrp_timer_cancel. destruct (owners q !! k) as [a|] eqn:E.
  - split; [|done].
    pose proof (unlink_filter q a W) as Eu. simpl in Eu |- *. rewrite Eu.
    apply filter_ext_elem. intros e He. split; intros Hne Eq; apply Hne.
    + pose proof (tw_owner _ W _ He) as Ho. congruence.
    + destruct (tw_armed _ W _ _ E) as (e' & He' & Ho' & Ha').
      rewrite <- Ho'. f_equal. eapply addr_unique; [exact W|done|done|congruence].
  - repeat split; [|by rewrite delete_id].
    symmetry. apply filter_keep. intros e He Eo. pose proof (tw_owner _ W _ He) as Ho. congruence.
Qed.

Lemma cancel_wf q k : timers_wf q -> timers_wf (eigrp_timer_cancel q k).
Proof. intros W. destruct (cancel_drops q k W) as (Eh & Eo & En & _). by eapply drop_owner_wf. Qed.

Lemma armed_cancel q k k' :
  timers_wf q -> armed (eigrp_timer_cancel q k) k' = if decide (k = k') then None else armed q k'.
Proof.
  intros W. destruct (cancel_drops q k W) as (Eh & _). eapply drop_owner_armed; [done|by apply cancel_wf|done].
Qed.

(** ** Arming *)

Lemma insert_fires e l :
  StronglySorted fires_before l -> (forall x, x ∈ l -> (te_addr x < te_addr e)%nat) ->
  StronglySorted fires_before (insert_by te_due e l).
Proof.
  induction 1 as [|y l Hs IH Hy]; intros Hf; simpl; [repeat constructor|].
  assert (te_addr y < te_addr e)%nat by (apply Hf; set_solver).
  destruct (Z.ltb_spec (te_due e) (te_due y)) as [Hlt|Hge].
  - constructor; [by constructor|]. constructor; [by left|].
    eapply Forall_impl; [exact Hy|]. unfold fires_before. intros x [?|[? ?]]; left; lia.
  - constructor; [apply IH; intros; apply Hf; set_solver|]. rewrite insert_by_perm. constructor; [|done].
    unfold fires_before. lia.
Qed.

Lemma add_link_wf q k c due :
  timers_wf q -> owners q !! k = None ->
  timers_wf {| q with timer_head := insert_by te_due {| te_addr := next_addr q; te_owner := k;
                        te_callback := c; te_due := due |} (timer_head q);
                      owners := <[k := next_addr q]> (owners q); next_addr := S (next_addr q) |}.
Proof.
  intros W Hk. destruct (W) as [Hs Hn Ho Ha Hf]. set (e := {| te_addr := next_addr q; te_owner := k; te_callback := c; te_due := due |}).
  split; cbn [timer_head owners next_addr].
  - apply insert_fires; [done|]. apply Hf.
  - rewrite insert_by_perm. simpl. apply NoDup_cons. split; [|done].
    intros (x & Ex & Hx)%list_elem_of_fmap. apply Hf in Hx. simpl in Ex. lia.
  - intros x [->|Hx]%elem_of_insert_by; [by rewrite lookup_insert_eq|].
    rewrite lookup_insert_ne; [by apply Ho|]. intros ->. apply Ho in Hx. congruence.
  - intros k' a Hk'. destruct (decide (k = k')) as [<-|Hne].
    + rewrite lookup_insert_eq in Hk'. injection Hk' as <-. exists e. rewrite elem_of_insert_by. eauto.
    + rewrite lookup_insert_ne in Hk' by done. destruct (Ha _ _ Hk') as (x & Hx & ? & ?).
      exists x. rewrite elem_of_insert_by. eauto.
  - intros x [->|Hx]%elem_of_insert_by; simpl; [lia|]. apply Hf in Hx. lia.
Qed.

Definition accepts q : bool := negb (tm_shutdown q) && tm_thread_running q.

Lemma add_wf q k c now delay granted : timers_wf q -> timers_wf (eigrp_timer_add q k c now delay granted).
Proof.
  intros W. pose proof (cancel_wf q k W) as Wc. unfold eigrp_timer_add.
  destruct granted; [|done]. simpl negb. cbv iota zeta. case_match; [done|].
  apply add_link_wf; [done|]. destruct (cancel_drops q k W) as (_ & -> & _). apply lookup_delete_eq.
Qed.

Lemma armed_add q k c now delay granted k' :
  timers_wf q ->
  armed (eigrp_timer_add q k c now delay granted) k'
  = if decide (k = k') then (if granted && accepts q then Some (c, u64 (now + delay)) else None) else armed q k'.
Proof.
  intros W. pose proof (cancel_wf q k W) as Wc. pose proof (add_wf q k c now delay granted W) as Wa.
  pose proof (armed_cancel q k k' W) as Ec. unfold accepts.
  destruct (cancel_drops q k W) as (_ & _ & _ & Es & Er). rewrite <- Es, <- Er. revert Wa.
  unfold eigrp_timer_add. destruct granted; simpl; [|by intros _; rewrite Ec; case_decide].
  destruct (tm_shutdown _), (tm_thread_running _) eqn:Et; simpl; intros Wa; try by rewrite Ec; case_decide.
  case_decide as Hk.
  - apply armed_spec; [done|]. eexists. cbn [timer_head]. rewrite elem_of_insert_by. split; [by left|]. done.
  - assert (armed (eigrp_timer_cancel q k) k' = armed q k') as <- by done.
    apply armed_ext; [done|done|]. intros e He. cbn [timer_head]. rewrite elem_of_insert_by.
    split; [|by right]. intros [->|]; [|done]. done.
Qed.

(** ** Firing *)

Lemma dequeue_spec q now :
  timers_wf q ->
  match eigrp_instance_timer_due_dequeue q now with
  | (None, q') => q' = q /\ forall e, e ∈ timer_head q -> now < te_due e
  | (Some e, q') => timer_head q = e :: timer_head q' /\ te_due e <= now /\ timers_wf q'
      /\ (forall x, x ∈ timer_head q' -> fires_before e x)
      /\ (forall k, armed q' k = if decide (te_owner e = k) then None else armed q k)
  end.
Proof.
  intros W. unfold eigrp_instance_timer_due_dequeue. destruct (W) as [Hs Hn Ho Ha Hf].
  destruct (timer_head q) as [|e l] eqn:Eh; [by split; [|intros ? ?%not_elem_of_nil]|].
  inversion Hs as [|? ? Hsl He]; subst. rewrite Forall_forall in He.
  destruct (Z.leb_spec (te_due e) now) as [Hd|Hd].
  - assert (owners q !! te_owner e = Some (te_addr e)) as Oe by (apply Ho; set_solver).
    assert (l = filter (fun x => te_owner x <> te_owner e) (timer_head q)) as El.
    { rewrite Eh, filter_cons_False by tauto. symmetry. apply filter_keep. intros x Hx Ex.
      apply NoDup_cons in Hn as [Hn _]. apply Hn. apply list_elem_of_fmap. exists x. split; [|done].
      assert (owners q !! te_owner x = Some (te_addr x)) by (apply Ho; set_solver). congruence. }
    set (q' := {| q with timer_head := l; owners := release_owner e (owners q) |}).
    assert (timers_wf q') as W'.
    { eapply (drop_owner_wf q); [done|exact El| |done]. simpl. unfold release_owner. by rewrite Oe, Nat.eqb_refl. }
    repeat split; try done; try apply W'. intros k. by eapply drop_owner_armed.
  - split; [done|]. intros x [->|Hx]%elem_of_cons; [done|]. apply He in Hx as [?|[? ?]]; lia.
Qed.

Definition due_events (now : Z) (l : list (timer_event K C)) : list (timer_event K C) :=
  filter (fun e => te_due e <= now) l.

Lemma due_none now l : (forall e, e ∈ l -> now < te_due e) -> due_events now l = [].
Proof.
  induction l as [|e l IH]; intros Hl; [done|]. unfold due_events. rewrite filter_cons_False.
  - apply IH. intros; apply Hl; set_solver.
  - specialize (Hl e). set_solver by lia.
Qed.

Lemma drain_spec fuel q now :
  timers_wf q -> (length (timer_head q) <= fuel)%nat ->
  let '(fired, q') := drain fuel q now in
  fired = due_events now (timer_head q) /\ timers_wf q'
  /\ (forall k, armed q' k = match armed q k with Some (c, d) => if d <=? now then None else Some (c, d) | None => None end).
Proof.
  revert q. induction fuel as [|fuel IH]; intros q W Hl; cbn [drain].
  - destruct (timer_head q) eqn:E; [|simpl in Hl; lia]. repeat split; try apply W.
    intros k. unfold armed. by rewrite E.
  - pose proof (dequeue_spec q now W) as D. destruct (eigrp_instance_timer_due_dequeue q now) as [[e|] q'].
    + destruct D as (Eh & Hd & W' & _ & Ha). specialize (IH q' W' ltac:(rewrite Eh in Hl; simpl in Hl; lia)).
      destruct (drain fuel q' now) as [fired q'']. destruct IH as (-> & W'' & Ha'').
      split; [|split; [done|]].
      * rewrite Eh. unfold due_events. by rewrite filter_cons_True.
      * intros k. rewrite Ha'', Ha. case_decide as Hk; [|done].
        assert (armed q k = Some (te_callback e, te_due e)) as ->.
        { apply armed_spec; [done|]. exists e. rewrite Eh. set_solver. }
        destruct (Z.leb_spec (te_due e) now); [done|lia].
    + destruct D as [-> Hn]. split; [by rewrite due_none|]. split; [done|]. intros k.
      destruct (armed q k) as [[c d]|] eqn:E; [|done].
      apply armed_spec in E as (e & He & _ & _ & <-); [|done]. apply Hn in He.
      destruct (Z.leb_spec (te_due e) now); [lia|done].
Qed.

Lemma drain_fired fuel q now k c d :
  timers_wf q -> (length (timer_head q) <= fuel)%nat ->
  (exists e, e ∈ (drain fuel q now).1 /\ te_owner e = k /\ te_callback e = c /\ te_due e = d)
  <-> armed q k = Some (c, d) /\ d <= now.
Proof.
  intros W Hl. pose proof (drain_spec fuel q now W Hl) as D. destruct (drain fuel q now) as [fired q'].
  destruct D as (-> & _). unfold due_events. simpl. setoid_rewrite list_elem_of_filter.
  rewrite armed_spec by done. naive_solver.
Qed.

(** ** Shutdown *)

Lemma release_all_lookup l (m : gmap K nat) k a :
  foldl (fun m e => release_owner e m) m l !! k = Some a ->
  m !! k = Some a /\ forall e, e ∈ l -> te_owner e = k -> te_addr e <> a.
Proof.
  revert m. induction l as [|e l IH]; intros m; simpl.
  - intros Hk. split; [done|]. by intros e ?%not_elem_of_nil.
  - intros [Hm Hl]%IH. unfold release_owner in Hm. destruct (m !! te_owner e) as [b|] eqn:Eb.
    + destruct (Nat.eqb_spec b (te_addr e)) as [->|Hne].
      * apply lookup_delete_Some in Hm as [Hk Hm]. split; [done|].
        intros x [->|Hx]%elem_of_cons; [done|]. by apply Hl.
      * split; [done|]. intros x [->|Hx]%elem_of_cons; [|by apply Hl]. intros <-. congruence.
    + split; [done|]. intros x [->|Hx]%elem_of_cons; [|by apply Hl]. intros <-. congruence.
Qed.

Lemma cancel_all_spec q :
  timers_wf q -> timers_wf (eigrp_timer_cancel_all q) /\ owners (eigrp_timer_cancel_all q) = ∅.
Proof.
  intros W. assert (owners (eigrp_timer_cancel_all q) = ∅) as E.
  { apply map_eq. intros k. rewrite lookup_empty. destruct (owners _ !! k) as [a|] eqn:Ek; [|done].
    apply release_all_lookup in Ek as [Ek Hl]. destruct (tw_armed _ W _ _ Ek) as (e & He & Ho & Ha).
    by destruct (Hl e). }
  split; [|done]. split; rewrite ?E; simpl; try (by intros e ?%not_elem_of_nil); [constructor|constructor|].
  intros k a. by rewrite lookup_empty.
Qed.

Definition timers_empty : timers K C :=
  {| timer_head := []; owners := ∅; next_addr := 0; tm_shutdown := false; tm_thread_running := true |}.

Lemma timers_empty_wf : timers_wf timers_empty.
Proof.
  split; simpl; try (by intros e ?%not_elem_of_nil); [constructor|constructor|].
  intros k a. by rewrite lookup_empty.
Qed.

Lemma remaining_rounds_up (e : timer_event K C) now :
  now < te_due e -> te_due e - now <= 1000 * UINT32_MAX ->
  let seconds := eigrp_timer_remaining_seconds e now in
  1000 * (seconds - 1) < te_due e - now <= 1000 * seconds.
Proof.
  intros Hd Hm. unfold eigrp_timer_remaining_seconds, UINT32_MAX in *.
  destruct (Z.ltb_spec now (te_due e)); [|lia]. rewrite u64_small by lia.
  pose proof (Z.div_mod (te_due e - now + 999) 1000). pose proof (Z.mod_pos_bound (te_due e - now + 999) 1000).
  rewrite u32_small; lia.
Qed.
End operations.

(** ** Theorems *)

(** C29: the timer queue is a map from owners to armed timers.  Cancelling disarms the
    owner's timer and no other; arming replaces it by one due after the delay, or by
    none when there is no memory or the thread does not run; the due events the thread
    takes are exactly the armed timers that are due, in the order of their due times
    and, for equal ones, of their arming, and each is disarmed as it is taken; after
    shutdown no owner refers to an event.  The queue stays ordered with one live event
    for each owner's pointer throughout. *)
Theorem timer_queue_refines {K C : Type} `{Countable K} (q : timers K C) (k : K) (c : C) (now delay : Z) (granted : bool) :
  timers_wf q ->
  (timers_wf (eigrp_timer_cancel q k)
   /\ forall k', armed (eigrp_timer_cancel q k) k' = if decide (k = k') then None else armed q k')
  /\ (timers_wf (eigrp_timer_add q k c now delay granted)
      /\ forall k', armed (eigrp_timer_add q k c now delay granted) k'
                    = if decide (k = k') then (if granted && accepts q then Some (c, u64 (now + delay)) else None)
                      else armed q k')
  /\ (let '(fired, q') := drain (length (timer_head q)) q now in
      timers_wf q' /\ StronglySorted fires_before fired
      /\ (forall k c d, (exists e, e ∈ fired /\ te_owner e = k /\ te_callback e = c /\ te_due e = d)
                        <-> armed q k = Some (c, d) /\ d <= now)
      /\ (forall k, armed q' k = match armed q k with
                                 | Some (c, d) => if d <=? now then None else Some (c, d)
                                 | None => None
                                 end))
  /\ timers_wf (eigrp_timer_cancel_all q) /\ owners (eigrp_timer_cancel_all q) = ∅.
Proof.
  intros W. split; [split; [by apply cancel_wf|intros; by apply armed_cancel]|].
  split; [split; [by apply add_wf|intros; by apply armed_add]|].
  split; [|by apply cancel_all_spec].
  pose proof (drain_fired (length (timer_head q)) q now) as Hfired.
  pose proof (drain_spec (length (timer_head q)) q now W ltac:(lia)) as D.
  destruct (drain _ q now) as [fired q']. destruct D as (E & W' & Ha). split; [done|].
  split; [rewrite E; apply sorted_filter_fires, W|]. split; [|done]. intros. by apply Hfired.
Qed.

Lemma timer_queue_refines_witness :
  let q := eigrp_timer_add (eigrp_timer_add (eigrp_timer_add timers_empty 1%nat true 100 50 true)
             2%nat false 100 20 true) 3%nat true 100 50 true in
  te_owner <$> (drain 3 q 150).1 = [2; 1; 3]%nat
  /\ forall k', armed (eigrp_timer_cancel q 1%nat) k' = if decide (1%nat = k') then None else armed q k'.
Proof.
  split; [by vm_compute|].
  apply (timer_queue_refines (eigrp_timer_add (eigrp_timer_add (eigrp_timer_add timers_empty 1%nat true 100 50 true)
             2%nat false 100 20 true) 3%nat true 100 50 true) 1%nat true 0 0 true).
  do 3 apply add_wf. apply timers_empty_wf.
Defined.
