(* ===== verification/Neighbor.v ===== *)
(** * Neighbors and adjacency

    The neighbor objects of an instance, their adjacency state, hold timer, route
    codec and prefix-limit status (eigrp_neighbor.c), and the encoder an interface
    selects for its neighbors (eigrp_interface.c).  The state is a heap of neighbors
    reached from the interfaces' lists, with the timer queue of the instance; a freed
    neighbor leaves the heap, so a later access is undefined behaviour.  Work handed
    to the topology table, the transport and the update sender is recorded in
    [ad_calls], newest first. *)

From Stdlib Require Import ZArith Lia.
From stdpp Require Import base gmap list.
From S2P Require Import Prelude Types Metric Rtt Timers.

Definition EIGRP_HOLD_INTERVAL_DEFAULT : Z := 15.
Definition EIGRP_NEIGHBOR_MAX_PER_INTERFACE : Z := 2048.
Definition EIGRP_NEIGHBOR_MAX_PER_INSTANCE : Z := 8192.

(** [EIGRP_K1_DEFAULT] to [EIGRP_K6_DEFAULT]. *)
Definition K_DEFAULT : list Z := [1; 0; 1; 0; 0; 0].

(** ** Data *)

Inductive eigrp_nbr_limit_state :=
  | EIGRP_NBR_LIMIT_NONE
  | EIGRP_NBR_LIMIT_SUSPENDED
  | EIGRP_NBR_LIMIT_LOCKED.
#[export] Instance eigrp_nbr_limit_state_eq_dec : EqDecision eigrp_nbr_limit_state.
Proof. solve_decision. Defined.

Record eigrp_prefix_limit := {
  maximum : Z;
  threshold : Z;
  warning_only : bool;
  dampened : bool;
  reset_time_minutes : Z;
  restart_minutes : Z;
  restart_count : Z;
}.
Definition no_limit : eigrp_prefix_limit :=
  {| maximum := 0; threshold := 0; warning_only := false; dampened := false;
     reset_time_minutes := 0; restart_minutes := 0; restart_count := 0 |}.

(** The history of a limit: the same five fields of an instance (twice) and of a
    neighbor. *)
Record penalty := {
  restart_cnt : Z;
  penalty_q16 : Z;
  decay_msec : Z;
  restart_due_msec : Z;
  reset_due_msec : Z;
}.
Definition no_penalty : penalty :=
  {| restart_cnt := 0; penalty_q16 := 0; decay_msec := 0; restart_due_msec := 0; reset_due_msec := 0 |}.

(** The encoders an interface can use. *)
Inductive encoder := eigrp_packet_encoder_safe | tlv1_encoder | tlv2_encoder | eigrp_packet_encoder_both.

(** [nb_retrans_queue]: [None] when it could not be allocated; [nb_K]: K1 to K6. *)
Record nbr := {
  nb_ei : nat;
  nb_src : eigrp_addr;
  nb_published : bool;
  nb_generation : Z;
  nb_epoch : Z;
  nb_state : Z;
  nb_limit_state : eigrp_nbr_limit_state;
  nb_af_suspended : bool;
  nb_cleanup_pending : bool;
  nb_prev_state : Z;
  nb_pending_cfg : eigrp_prefix_limit;
  nb_penalty : penalty;
  nb_prefix_count : Z;
  nb_prefix_count_valid : bool;
  nb_recv_sequence : Z;
  nb_peer_init_sequence : Z;
  nb_peer_init_retransmit_eligible : bool;
  nb_peer_init_resync_pending : bool;
  nb_peer_init_resync_prefixes : option (list ptr);
  nb_init_sequence : Z;
  nb_retrans_counter : Z;
  nb_retransmissions : Z;
  nb_up_since_msec : Z;
  nb_rtt : eigrp_rtt;
  nb_v_holddown : Z;
  nb_retrans_queue : option (list Z);
  nb_cr_mode : bool;
  nb_cr_sequence : Z;
  nb_crypt_seqnum : list Z;
  nb_K : list Z;
  nb_tlv_version : Z;
  nb_os_rel : Z * Z;
  nb_tlv_rel : Z * Z;
  nb_gr_prefixes : option (list ptr);
  nb_gr_prefixes_send : option (list ptr);
}.

Record adj_intf := {
  ai_nbrs : list ptr;
  ai_epoch : Z;
  ai_tlv1_peers : Z;
  ai_tlv2_peers : Z;
  ai_encoder : encoder;
  ai_operative : bool;
  ai_passive : bool;
  ai_auth : bool;
  ai_address : list Z;
}.

(** The owners of timers and the callbacks, each with its neighbor. *)
Inductive slot :=
  | t_holddown (n : ptr) | t_limit_restart (n : ptr) | t_limit_reset (n : ptr) | t_nbr_send_gr (n : ptr)
  | t_pfxlimits_af_restart | t_pfxlimits_af_reset | t_redist_limit_restart | t_redist_limit_reset.
#[export] Instance slot_eq_dec : EqDecision slot.
Proof. solve_decision. Defined.

Definition slot_code (k : slot) : nat * nat :=
  match k with
  | t_holddown n => (0, n) | t_limit_restart n => (1, n) | t_limit_reset n => (2, n) | t_nbr_send_gr n => (3, n)
  | t_pfxlimits_af_restart => (4, 0) | t_pfxlimits_af_reset => (4, 1)
  | t_redist_limit_restart => (4, 2) | t_redist_limit_reset => (4, 3)
  end%nat.
Definition slot_of_code (c : nat * nat) : slot :=
  match c with
  | (0, n) => t_holddown n | (1, n) => t_limit_restart n | (2, n) => t_limit_reset n | (3, n) => t_nbr_send_gr n
  | (_, 0) => t_pfxlimits_af_restart | (_, 1) => t_pfxlimits_af_reset
  | (_, 2) => t_redist_limit_restart | (_, _) => t_redist_limit_reset
  end%nat.
#[export] Instance slot_countable : Countable slot.
Proof. refine (inj_countable' slot_code slot_of_code _). by intros []. Defined.

Inductive callback :=
  | eigrp_nbr_holddown_expired_cb (n : ptr) | eigrp_nbr_limit_restart_expired_cb (n : ptr)
  | eigrp_nbr_limit_reset_expired_cb (n : ptr) | eigrp_update_send_GR_cb (n : ptr)
  | eigrp_pfxlimits_restart_expired_cb | eigrp_pfxlimits_reset_expired_cb
  | eigrp_redist_limit_restart_expired_cb | eigrp_redist_limit_reset_expired_cb.

(** Calls into the other components. *)
Inductive call :=
  | eigrp_update_sync_cancel (n : ptr)
  | eigrp_packet_multicast_resume (i : nat)
  | eigrp_packet_neighbor_output_clear (n : ptr)
  | eigrp_topology_neighbor_down (n : ptr)
  | eigrp_topology_suspended_neighbors_down (capacity : nat)
  | eigrp_hello_send (i : nat) (to : option eigrp_addr) (goodbye : bool)
  | eigrp_update_send_init (n : ptr)
  | eigrp_update_send_GR_thread (n : ptr)
  | eigrp_update_send_GR (n : ptr)
  | eigrp_update_send_EOT (n : ptr)
  | eigrp_redist_routes_withdraw
  | eigrp_redist_routes_replay.

(** The prefix limits of the address family's configuration. *)
Record limit_config := {
  lc_topology : option eigrp_prefix_limit;
  lc_redistribute : option eigrp_prefix_limit;
  lc_neighbor_all : option eigrp_prefix_limit;
  lc_neighbors : list (eigrp_address * option eigrp_prefix_limit);
}.

(** [ad_ticks]: how far the clock advances before each of its next readings;
    [ad_grants]: the answers of the next allocations.  The states of the two instance
    limits are 0 (normal), 1 (suspended) and 2 (locked). *)
Record adj := {
  ad_nbrs : gmap ptr nbr;
  ad_intfs : list adj_intf;
  ad_next_nbr : ptr;
  ad_next_generation : Z;
  ad_k_values : list Z;
  ad_metric_version : Z;
  ad_config : option limit_config;
  ad_af_state : Z;
  ad_af_cleanup_pending : bool;
  ad_af_pkt_active : bool;
  ad_af_penalty : penalty;
  ad_redist_state : Z;
  ad_redist_penalty : penalty;
  ad_timers : timers slot callback;
  ad_clock : Z;
  ad_ticks : list Z;
  ad_grants : list bool;
  ad_calls : list call;
}.

Abbreviation Ad := (M adj).

(** ** Memory, clock and timers *)

Definition a_calloc : Ad bool := fun s =>
  match ad_grants s with
  | [] => Some (true, s)
  | b :: g => Some (b, {| s with ad_grants := g |})
  end.

Definition monotime : Ad Z := fun s =>
  match ad_ticks s with
  | [] => Some (ad_clock s, s)
  | t :: ts => let now := ad_clock s + t in Some (now, {| s with ad_clock := now; ad_ticks := ts |})
  end.

Definition get_nbr (n : ptr) : Ad nbr := o ← gets (fun s => ad_nbrs s !! n); nonnull o.
Definition upd_nbr (n : ptr) (f : nbr -> nbr) : Ad unit :=
  d ← get_nbr n; modify (fun s => {| s with ad_nbrs := <[n := f d]> (ad_nbrs s) |}).
Definition get_intf (i : nat) : Ad adj_intf := o ← gets (fun s => ad_intfs s !! i); nonnull o.
Definition upd_intf (i : nat) (f : adj_intf -> adj_intf) : Ad unit :=
  d ← get_intf i; modify (fun s => {| s with ad_intfs := <[i := f d]> (ad_intfs s) |}).
Definition record_call (c : call) : Ad unit := modify (fun s => {| s with ad_calls := c :: ad_calls s |}).

Definition cancel_timer (k : slot) : Ad unit :=
  modify (fun s => {| s with ad_timers := eigrp_timer_cancel (ad_timers s) k |}).
Definition arm_timer (k : slot) (c : callback) (delay_msec : Z) : Ad unit :=
  ok ← a_calloc;
  now ← (if ok : bool then monotime else gets ad_clock);
  modify (fun s => {| s with ad_timers := eigrp_timer_add (ad_timers s) k c now delay_msec ok |}).

(** [++eigrp->next_neighbor_generation == 0] and the second increment. *)
Definition generation_next : Ad Z :=
  g ← gets ad_next_generation;
  let g := u64 (g + 1) in
  let g := if g =? 0 then u64 (g + 1) else g in
  modify (fun s => {| s with ad_next_generation := g |});;
  mret g.

(** ** The encoder of an interface *)

Definition eigrp_intf_encoder_select (ei : adj_intf) : adj_intf :=
  {| ei with ai_encoder :=
       if negb (ai_tlv1_peers ei =? 0) && negb (ai_tlv2_peers ei =? 0) then eigrp_packet_encoder_both
       else if negb (ai_tlv1_peers ei =? 0) then tlv1_encoder
       else if negb (ai_tlv2_peers ei =? 0) then tlv2_encoder
       else eigrp_packet_encoder_safe |}.

(** The counts are [uint16_t]. *)
Definition eigrp_intf_encoder_peer_add (tlv_version : Z) (ei : adj_intf) : adj_intf :=
  if tlv_version =? EIGRP_TLV_32B_VERSION then
    eigrp_intf_encoder_select {| ei with ai_tlv1_peers := u16 (ai_tlv1_peers ei + 1) |}
  else if tlv_version =? EIGRP_TLV_64B_VERSION then
    eigrp_intf_encoder_select {| ei with ai_tlv2_peers := u16 (ai_tlv2_peers ei + 1) |}
  else ei.

Definition eigrp_intf_encoder_peer_remove (tlv_version : Z) (ei : adj_intf) : adj_intf :=
  if tlv_version =? EIGRP_TLV_32B_VERSION then
    eigrp_intf_encoder_select {| ei with ai_tlv1_peers :=
      if ai_tlv1_peers ei =? 0 then ai_tlv1_peers ei else ai_tlv1_peers ei - 1 |}
  else if tlv_version =? EIGRP_TLV_64B_VERSION then
    eigrp_intf_encoder_select {| ei with ai_tlv2_peers :=
      if ai_tlv2_peers ei =? 0 then ai_tlv2_peers ei else ai_tlv2_peers ei - 1 |}
  else ei.

Definition eigrp_intf_encoder_clear (ei : adj_intf) : adj_intf :=
  {| ei with ai_tlv1_peers := 0; ai_tlv2_peers := 0; ai_encoder := eigrp_packet_encoder_safe |}.

(** ** Route codecs *)

Definition eigrp_metric_version_select (local_version peer_version : Z) : Z :=
  if (EIGRP_TLV_64B_VERSION <=? local_version) && (EIGRP_TLV_64B_VERSION <=? peer_version)
  then EIGRP_TLV_64B_VERSION else EIGRP_TLV_32B_VERSION.

(** The decoder and the encoder of a neighbor are those of its version. *)
Definition eigrp_nbr_codec_select (n : ptr) (tlv_version : Z) : Ad unit :=
  _ ← get_nbr n;
  if (tlv_version =? EIGRP_TLV_32B_VERSION) || (tlv_version =? EIGRP_TLV_64B_VERSION)
  then upd_nbr n (fun d => {| d with nb_tlv_version := tlv_version |})
  else mret tt.

(** The loop's body: neighbor [n] of interface [i]. *)
Definition codec_step (i : nat) (n : ptr) : Ad unit :=
  nbr ← get_nbr n;
  if fst (nb_tlv_rel nbr) =? 0 then mret tt
  else
    version ← gets ad_metric_version;
    let selected := eigrp_metric_version_select version (fst (nb_tlv_rel nbr)) in
    if selected =? nb_tlv_version nbr then mret tt
    else
      when (nb_state nbr =? EIGRP_NEIGHBOR_UP)
        (upd_intf i (eigrp_intf_encoder_peer_remove (nb_tlv_version nbr)));;
      eigrp_nbr_codec_select n selected;;
      when (nb_state nbr =? EIGRP_NEIGHBOR_UP)
        (nbr ← get_nbr n; upd_intf i (eigrp_intf_encoder_peer_add (nb_tlv_version nbr))).

Definition eigrp_nbr_codec_update : Ad unit :=
  intfs ← gets ad_intfs;
  mfor (zip (seq 0 (length intfs)) intfs) (fun '(i, ei) => mfor (ai_nbrs ei) (codec_step i)).

(** ** Eligibility *)

Definition eigrp_nbr_is_eligible (n : ptr) : Ad bool :=
  nbr ← get_nbr n;
  af_state ← gets ad_af_state;
  mret (bool_decide (nb_limit_state nbr = EIGRP_NBR_LIMIT_NONE) && negb (nb_cleanup_pending nbr)
        && negb (nb_af_suspended nbr) && (af_state =? 0)).

(** ['D'], ['P'], ['A'] or 0. *)
Definition eigrp_nbr_limit_status (nbr : nbr) : Z :=
  if bool_decide (nb_limit_state nbr = EIGRP_NBR_LIMIT_LOCKED) then 68
  else if bool_decide (nb_limit_state nbr = EIGRP_NBR_LIMIT_SUSPENDED)
          || nb_cleanup_pending nbr || nb_af_suspended nbr then 80
  else if nb_state nbr =? EIGRP_NEIGHBOR_UP then 65 else 0.

(** ** Adjacency state *)

(** The reset of a neighbor that is down. *)
Definition nbr_reset (nbr : nbr) : Neighbor.nbr :=
  {| nbr with nb_recv_sequence := 0; nb_peer_init_sequence := 0; nb_peer_init_retransmit_eligible := false;
              nb_peer_init_resync_pending := false; nb_peer_init_resync_prefixes := None;
              nb_init_sequence := 0; nb_retrans_counter := 0; nb_cr_mode := false; nb_cr_sequence := 0;
              nb_rtt := eigrp_nbr_rtt_clear; nb_K := K_DEFAULT; nb_v_holddown := EIGRP_HOLD_INTERVAL_DEFAULT |}.

(** A neighbor that comes up takes the interface's next multicast epoch. *)
Definition nbr_up (n : ptr) : Ad unit :=
  nbr ← get_nbr n;
  ei ← get_intf (nb_ei nbr);
  let epoch := u64 (ai_epoch ei + 1) in
  let epoch := if epoch =? 0 then u64 (epoch + 1) else epoch in
  upd_intf (nb_ei nbr) (fun ei => {| ei with ai_epoch := epoch |});;
  upd_nbr n (fun d => {| d with nb_epoch := epoch |});;
  upd_intf (nb_ei nbr) (eigrp_intf_encoder_peer_add (nb_tlv_version nbr));;
  now ← monotime;
  upd_nbr n (fun d => {| d with nb_up_since_msec := now; nb_retransmissions := 0 |}).

Definition nbr_down_reset (n : ptr) : Ad unit :=
  upd_nbr n nbr_reset;;
  cancel_timer (t_holddown n);;
  nbr ← get_nbr n;
  match nb_retrans_queue nbr with
  | Some _ => upd_nbr n (fun d => {| d with nb_retrans_queue := Some [] |})
  | None => ok ← a_calloc;
            upd_nbr n (fun d => {| d with nb_retrans_queue := if ok : bool then Some [] else None |})
  end;;
  record_call (eigrp_packet_multicast_resume (nb_ei nbr));;
  upd_nbr n (fun d => {| d with nb_crypt_seqnum := [0; 0; 0; 0] |}).

(** [operation] is [EIGRP_SET]; the reason is only logged. *)
Definition eigrp_nbr_state_update_reason (n : ptr) (state : Z) : Ad unit :=
  nbr ← get_nbr n;
  if (negb (bool_decide (nb_limit_state nbr = EIGRP_NBR_LIMIT_NONE)) || nb_af_suspended nbr)
     && negb (state =? EIGRP_NEIGHBOR_DOWN)
  then mret tt
  else
    let old_state := nb_state nbr in
    let leaves_up := (old_state =? EIGRP_NEIGHBOR_UP) && negb (state =? EIGRP_NEIGHBOR_UP) in
    when leaves_up (record_call (eigrp_update_sync_cancel n));;
    when leaves_up (upd_intf (nb_ei nbr) (eigrp_intf_encoder_peer_remove (nb_tlv_version nbr)));;
    upd_nbr n (fun d => {| d with nb_state := state |});;
    (if (state =? EIGRP_NEIGHBOR_UP) && negb (old_state =? EIGRP_NEIGHBOR_UP) then nbr_up n
     else when leaves_up (upd_nbr n (fun d => {| d with nb_up_since_msec := 0 |})));;
    nbr ← get_nbr n;
    when (nb_state nbr =? EIGRP_NEIGHBOR_DOWN) (nbr_down_reset n).

Definition eigrp_nbr_state_update (n : ptr) (state : Z) : Ad unit := eigrp_nbr_state_update_reason n state.

(** ** Teardown *)

(** The prefix lists of a graceful restart are the neighbor's own here; that the list may
    be freed already, [restart_list_freed] of ReceiveTheorems.v, is outside this model. *)
Definition eigrp_nbr_down_deferred (n : ptr) : Ad unit :=
  nbr ← get_nbr n;
  when (nb_cleanup_pending nbr)
    (when (nb_prev_state nbr =? EIGRP_NEIGHBOR_UP)
       (upd_intf (nb_ei nbr) (eigrp_intf_encoder_peer_remove (nb_tlv_version nbr));;
        upd_nbr n (fun d => {| d with nb_up_since_msec := 0 |}));;
     upd_nbr n (fun d => {| d with nb_cleanup_pending := false |}));;
  record_call (eigrp_packet_neighbor_output_clear n);;
  eigrp_nbr_state_update n EIGRP_NEIGHBOR_DOWN;;
  record_call (eigrp_update_sync_cancel n);;
  cancel_timer (t_nbr_send_gr n);;
  upd_nbr n (fun d => {| d with nb_gr_prefixes := None; nb_gr_prefixes_send := None |}).

Definition eigrp_nbr_down (n : ptr) : Ad unit :=
  eigrp_nbr_down_deferred n;;
  record_call (eigrp_topology_neighbor_down n).

Definition eigrp_nbr_limit_timers_cancel (n : ptr) : Ad unit :=
  cancel_timer (t_limit_restart n);;
  cancel_timer (t_limit_reset n);;
  upd_nbr n (fun d => let p := nb_penalty d in
    {| d with nb_penalty := {| p with restart_due_msec := 0; reset_due_msec := 0 |} |}).

(** Removal from the interface's list; the neighbor is no longer found by ingress. *)
Definition unpublish (n : ptr) : Ad unit :=
  nbr ← get_nbr n;
  upd_intf (nb_ei nbr) (fun ei => {| ei with ai_nbrs := remove_first (Nat.eqb n) (ai_nbrs ei) |});;
  upd_nbr n (fun d => {| d with nb_published := false |}).

Definition eigrp_nbr_delete (n : ptr) : Ad unit :=
  nbr ← get_nbr n;
  when (nb_published nbr) (unpublish n);;
  eigrp_nbr_limit_timers_cancel n;;
  eigrp_nbr_down n;;
  modify (fun s => {| s with ad_nbrs := delete n (ad_nbrs s) |}).

(** ** The hold timer *)

Definition eigrp_nbr_holddown_update (n : ptr) : Ad unit :=
  eligible ← eigrp_nbr_is_eligible n;
  if negb eligible then cancel_timer (t_holddown n)
  else
    nbr ← get_nbr n;
    if nb_state nbr =? EIGRP_NEIGHBOR_DOWN then cancel_timer (t_holddown n)
    else if (nb_state nbr =? EIGRP_NEIGHBOR_PENDING) || (nb_state nbr =? EIGRP_NEIGHBOR_UP) then
      cancel_timer (t_holddown n);;
      arm_timer (t_holddown n) (eigrp_nbr_holddown_expired_cb n) (u32 (nb_v_holddown nbr * 1000))
    else mret tt.

(** [stale]: another timer was armed after this expiry was taken from the queue. *)
Definition eigrp_nbr_holddown_expired (n : ptr) : Ad unit :=
  nbr ← get_nbr n;
  if negb (nb_published nbr) then mret tt
  else
    stale ← gets (fun s => bool_decide (is_Some (owners (ad_timers s) !! t_holddown n)));
    if stale : bool then mret tt
    else
      unpublish n;;
      eigrp_nbr_state_update_reason n EIGRP_NEIGHBOR_DOWN;;
      eigrp_nbr_delete n.

(** ** Creation *)

Fixpoint admit_total (intfs : list adj_intf) (total : Z) : bool :=
  match intfs with
  | [] => true
  | iface :: intfs' =>
      let count := Z.of_nat (length (ai_nbrs iface)) in
      if EIGRP_NEIGHBOR_MAX_PER_INSTANCE - total <=? count then false
      else admit_total intfs' (total + count)
  end.

Definition eigrp_nbr_admit_locked (i : nat) : Ad bool :=
  ei ← get_intf i;
  intfs ← gets ad_intfs;
  mret (if EIGRP_NEIGHBOR_MAX_PER_INTERFACE <=? Z.of_nat (length (ai_nbrs ei)) then false
        else admit_total intfs 0).

(** [calloc] and [eigrp_nbr_init]: every other field is zero. *)
Definition eigrp_nbr_init (i : nat) (src : eigrp_addr) : nbr :=
  {| nb_ei := i; nb_src := src; nb_published := false; nb_generation := 0; nb_epoch := 0;
     nb_state := EIGRP_NEIGHBOR_DOWN; nb_limit_state := EIGRP_NBR_LIMIT_NONE; nb_af_suspended := false;
     nb_cleanup_pending := false; nb_prev_state := 0; nb_pending_cfg := no_limit; nb_penalty := no_penalty;
     nb_prefix_count := 0; nb_prefix_count_valid := false; nb_recv_sequence := 0; nb_peer_init_sequence := 0;
     nb_peer_init_retransmit_eligible := false; nb_peer_init_resync_pending := false;
     nb_peer_init_resync_prefixes := None; nb_init_sequence := 0; nb_retrans_counter := 0;
     nb_retransmissions := 0; nb_up_since_msec := 0;
     nb_rtt := {| srtt_valid := false; srtt_msec := 0; rttvar_msec := 0; rto_msec := 0 |};
     nb_v_holddown := EIGRP_HOLD_INTERVAL_DEFAULT; nb_retrans_queue := None; nb_cr_mode := false;
     nb_cr_sequence := 0; nb_crypt_seqnum := [0; 0; 0; 0]; nb_K := K_DEFAULT; nb_tlv_version := 0;
     nb_os_rel := (0, 0); nb_tlv_rel := (0, 0); nb_gr_prefixes := None; nb_gr_prefixes_send := None |}.

Definition nbr_free (n : ptr) : Ad unit := modify (fun s => {| s with ad_nbrs := delete n (ad_nbrs s) |}).

Definition nbr_alloc (i : nat) (src : eigrp_addr) : Ad ptr :=
  n ← gets ad_next_nbr;
  modify (fun s => {| s with ad_nbrs := <[n := eigrp_nbr_init i src]> (ad_nbrs s); ad_next_nbr := S n |});;
  mret n.

(** The second admission test and the insertion in the interface's list. *)
Definition nbr_publish (n : ptr) (i : nat) : Ad bool :=
  admitted ← eigrp_nbr_admit_locked i;
  linked ← (if admitted : bool then a_calloc else mret false);
  if linked : bool then
    upd_intf i (fun ei => {| ei with ai_nbrs := ai_nbrs ei ++ [n] |});;
    g ← generation_next;
    upd_nbr n (fun d => {| d with nb_generation := g; nb_published := true |});;
    mret true
  else mret false.

Definition eigrp_nbr_create (i : nat) (src : eigrp_addr) : Ad (option ptr) :=
  if negb ((addr_afi src =? AF_INET) || (addr_afi src =? AF_INET6)) then mret None
  else
    admitted ← eigrp_nbr_admit_locked i;
    if negb admitted then mret None
    else
      ok ← a_calloc;
      if negb ok then mret None
      else
        n ← nbr_alloc i src;
        upd_nbr n (fun d => {| d with nb_prefix_count_valid := true |});;
        eigrp_nbr_state_update n EIGRP_NEIGHBOR_DOWN;;
        nbr ← get_nbr n;
        match nb_retrans_queue nbr with
        | None => nbr_free n;; mret None
        | Some _ =>
            published ← nbr_publish n i;
            if published : bool then mret (Some n) else nbr_free n;; mret None
        end.

(** [memcmp] of the two structures. *)
Definition eigrp_addr_match (dst src : eigrp_addr) : bool := bool_decide (dst = src).

Definition eigrp_nbr_lookup (i : nat) (src : eigrp_addr) : Ad (option ptr) :=
  ei ← get_intf i;
  mfind (ai_nbrs ei) (fun n => nbr ← get_nbr n; mret (eigrp_addr_match src (nb_src nbr))).
