(* ===== verification/NeighborProps.v ===== *)
(** * Neighbors: the adjacency invariant

    [adj_ok]: the interfaces' lists and the heap of neighbors agree, every armed timer
    belongs to a live neighbor and runs the callback of its slot, and a neighbor under
    a penalty is down.  Every operation on neighbors is defined on such a state and
    preserves it. *)

From Stdlib Require Import ZArith Lia.
From stdpp Require Import base gmap list.
From S2P Require Import Prelude Types Metric Rtt Timers Neighbor.

(** ** The invariant *)

Definition slot_nbr (k : slot) : option ptr :=
  match k with
  | t_holddown n | t_limit_restart n | t_limit_reset n | t_nbr_send_gr n => Some n
  | _ => None
  end.

Definition callback_of (k : slot) : callback :=
  match k with
  | t_holddown n => eigrp_nbr_holddown_expired_cb n
  | t_limit_restart n => eigrp_nbr_limit_restart_expired_cb n
  | t_limit_reset n => eigrp_nbr_limit_reset_expired_cb n
  | t_nbr_send_gr n => eigrp_update_send_GR_cb n
  | t_pfxlimits_af_restart => eigrp_pfxlimits_restart_expired_cb
  | t_pfxlimits_af_reset => eigrp_pfxlimits_reset_expired_cb
  | t_redist_limit_restart => eigrp_redist_limit_restart_expired_cb
  | t_redist_limit_reset => eigrp_redist_limit_reset_expired_cb
  end.

(** Under a penalty of its own, of the address family, or marked for one. *)
Definition penalized (d : nbr) : Prop :=
  nb_limit_state d <> EIGRP_NBR_LIMIT_NONE \/ nb_af_suspended d = true \/ nb_cleanup_pending d = true.

(** Its penalty has taken effect: no hold timer runs for it. *)
Definition restrained (d : nbr) : Prop := nb_limit_state d <> EIGRP_NBR_LIMIT_NONE \/ nb_af_suspended d = true.

Record adj_ok (s : adj) : Prop := {
  ao_timers : timers_wf (ad_timers s);
  ao_links : forall i ei n, ad_intfs s !! i = Some ei -> n ∈ ai_nbrs ei ->
               exists d, ad_nbrs s !! n = Some d /\ nb_ei d = i /\ nb_published d = true;
  ao_nodup : forall i ei, ad_intfs s !! i = Some ei -> NoDup (ai_nbrs ei);
  ao_listed : forall n d, ad_nbrs s !! n = Some d ->
                exists ei, ad_intfs s !! nb_ei d = Some ei /\ (nb_published d = true -> n ∈ ai_nbrs ei);
  ao_fresh : forall n d, ad_nbrs s !! n = Some d -> (n < ad_next_nbr s)%nat;
  ao_slots : forall k c t, armed (ad_timers s) k = Some (c, t) ->
               c = callback_of k /\ (forall n, slot_nbr k = Some n -> is_Some (ad_nbrs s !! n));
  ao_down : forall n d, ad_nbrs s !! n = Some d -> penalized d -> nb_state d = EIGRP_NEIGHBOR_DOWN;
  ao_queue : forall n d, ad_nbrs s !! n = Some d -> nb_published d = true -> is_Some (nb_retrans_queue d);
  ao_ticks : Forall (fun t => 0 <= t) (ad_ticks s);
  ao_pend : forall n d, ad_nbrs s !! n = Some d -> nb_cleanup_pending d = true -> ~ restrained d;
  ao_hold : forall n d, ad_nbrs s !! n = Some d -> restrained d -> armed (ad_timers s) (t_holddown n) = None;
}.

(** ** Frames of the operations on one neighbor *)

(** An interface after an operation on one of its neighbors. *)
Record intf_same (a b : adj_intf) : Prop := {
  is_nbrs : ai_nbrs b = ai_nbrs a;
  is_rest : (ai_operative b, ai_passive b, ai_auth b, ai_address b)
            = (ai_operative a, ai_passive a, ai_auth a, ai_address a);
}.

(** The fields of an instance that the neighbors' operations do not write. *)
Definition instance_part (s : adj) :=
  (ad_next_nbr s, ad_k_values s, ad_metric_version s, ad_config s,
   (ad_af_state s, ad_af_cleanup_pending s, ad_af_pkt_active s, ad_af_penalty s),
   (ad_redist_state s, ad_redist_penalty s)).

Record touch (n : ptr) (s s' : adj) : Prop := {
  th_nbrs : forall m, m <> n -> ad_nbrs s' !! m = ad_nbrs s !! m;
  th_intfs : Forall2 intf_same (ad_intfs s) (ad_intfs s');
  th_part : instance_part s' = instance_part s;
  th_timers : timers_wf (ad_timers s) -> timers_wf (ad_timers s')
    /\ (forall k, slot_nbr k <> Some n -> armed (ad_timers s') k = armed (ad_timers s) k)
    /\ (forall k c t, armed (ad_timers s') k = Some (c, t) -> armed (ad_timers s) k = Some (c, t) \/ c = callback_of k);
  th_clock : Forall (fun t => 0 <= t) (ad_ticks s) ->
    Forall (fun t => 0 <= t) (ad_ticks s') /\ ad_clock s <= ad_clock s';
}.

#[export] Instance intf_same_preorder : PreOrder intf_same.
Proof. split; [by split|]. intros a b c [E1 F1] [E2 F2]. split; congruence. Qed.

#[export] Instance touch_preorder n : PreOrder (touch n).
Proof.
  split.
  - intros s. split; [done|reflexivity|done| |].
    + intros W. split; [done|split; [done|by left]].
    + intros F. split; [done|lia].
  - intros s s' s'' A B. split.
    + intros m Hm. by rewrite (th_nbrs _ _ _ B), (th_nbrs _ _ _ A).
    + etrans; [apply (th_intfs _ _ _ A)|apply (th_intfs _ _ _ B)].
    + by rewrite (th_part _ _ _ B), (th_part _ _ _ A).
    + intros W. destruct (th_timers _ _ _ A W) as (W' & Ha & Hc).
      destruct (th_timers _ _ _ B W') as (W'' & Ha' & Hc'). split; [done|]. split.
      * intros k Hk. by rewrite Ha', Ha.
      * intros k c t E. destruct (Hc' _ _ _ E) as [E'|]; [by apply Hc|by right].
    + intros F. destruct (th_clock _ _ _ A F) as [F' ?]. destruct (th_clock _ _ _ B F') as [F'' ?].
      split; [done|lia].
Qed.

(** A change outside the heap, the interfaces, the timers and the clock. *)
Lemma touch_aux n s s' :
  ad_nbrs s' = ad_nbrs s -> ad_intfs s' = ad_intfs s -> instance_part s' = instance_part s ->
  ad_timers s' = ad_timers s -> ad_clock s' = ad_clock s -> ad_ticks s' = ad_ticks s -> touch n s s'.
Proof.
  intros E1 E2 E3 E4 E5 E6. split; rewrite ?E1, ?E2, ?E4, ?E5, ?E6; try done.
  intros W. split; [done|split; [done|by left]].
Qed.

Section touches.
Context (n : ptr).

Lemma touch_calloc : keeps (touch n) a_calloc.
Proof.
  intros s a s'. unfold a_calloc. destruct (ad_grants s); intros [= _ <-]; [done|]. by apply touch_aux.
Qed.

Lemma touch_monotime : keeps (touch n) monotime.
Proof.
  intros s a s'. unfold monotime. destruct (ad_ticks s) as [|t ts] eqn:E; intros [= _ <-]; [done|].
  split; simpl; try done; [intros W; split; [done|split; [done|by left]]|].
  rewrite E. intros [? ?]%Forall_cons. split; [done|lia].
Qed.

Lemma touch_record_call c : keeps (touch n) (record_call c).
Proof. intros s [] s' [= <-]. by apply touch_aux. Qed.

Lemma touch_generation_next : keeps (touch n) generation_next.
Proof. intros s a s' [= _ <-]. by apply touch_aux. Qed.

Lemma touch_upd_nbr f : keeps (touch n) (upd_nbr n f).
Proof.
  intros s [] s'. unfold upd_nbr, get_nbr, gets, nonnull, modify, mbind, M_bind.
  destruct (ad_nbrs s !! n) as [d|]; [|done]. intros [= <-]. split; simpl; try done.
  - intros m Hm. by rewrite lookup_insert_ne.
  - intros W. split; [done|split; [done|by left]].
Qed.

Lemma touch_upd_intf i f : (forall a, intf_same a (f a)) -> keeps (touch n) (upd_intf i f).
Proof.
  intros Hf s [] s'. unfold upd_intf, get_intf, gets, nonnull, modify, mbind, M_bind.
  destruct (ad_intfs s !! i) as [d|] eqn:E; [|done]. intros [= <-]. split; simpl; try done.
  - rewrite <- (list_insert_id (ad_intfs s) i d) at 1 by done. apply Forall2_insert; [done|apply Hf].
  - intros W. split; [done|split; [done|by left]].
Qed.

Lemma touch_cancel k : slot_nbr k = Some n -> keeps (touch n) (cancel_timer k).
Proof.
  intros Hk s [] s' [= <-]. split; simpl; try done. intros W. split; [by apply cancel_wf|]. split.
  - intros k' Hk'. rewrite armed_cancel by done. rewrite decide_False by congruence. done.
  - intros k' c t. rewrite armed_cancel by done. case_decide; [done|by left].
Qed.

Lemma touch_arm k c delay : slot_nbr k = Some n -> c = callback_of k -> keeps (touch n) (arm_timer k c delay).
Proof.
  intros Hk -> s [] s' E. unfold arm_timer in E.
  assert (exists ok now s1, touch n s s1 /\ s' = {| s1 with ad_timers := eigrp_timer_add (ad_timers s1) k (callback_of k) now delay ok |})
    as (ok & now & s1 & T & ->).
  { revert E. unfold mbind, M_bind. destruct (a_calloc s) as [[ok s0]|] eqn:E0; [|done].
    pose proof (touch_calloc _ _ _ E0). destruct ok; simpl.
    - destruct (monotime s0) as [[now s1]|] eqn:E1; [|done]. pose proof (touch_monotime _ _ _ E1).
      intros [= <-]. exists true, now, s1. split; [by etrans|done].
    - intros [= <-]. exists false, (ad_clock s0), s0. done. }
  etrans; [exact T|]. split; simpl; try done. intros W. split; [by apply add_wf|]. split.
  - intros k' Hk'. rewrite armed_add by done. rewrite decide_False by congruence. done.
  - intros k' c' t. rewrite armed_add by done. case_decide as Ek; [|by left]. subst.
    case_match; [|done]. intros [= <- _]. by right.
Qed.
End touches.

#[export] Hint Resolve touch_calloc touch_monotime touch_record_call touch_generation_next touch_upd_nbr : keeps.
#[export] Hint Extern 1 (keeps _ (upd_intf _ _)) => apply touch_upd_intf : keeps.
#[export] Hint Extern 1 (keeps _ (cancel_timer _)) => apply touch_cancel; reflexivity : keeps.
#[export] Hint Extern 1 (keeps _ (arm_timer _ _ _)) => apply touch_arm; reflexivity : keeps.

Lemma encoder_add_same v a : intf_same a (eigrp_intf_encoder_peer_add v a).
Proof. unfold eigrp_intf_encoder_peer_add. by repeat case_match. Qed.
Lemma encoder_remove_same v a : intf_same a (eigrp_intf_encoder_peer_remove v a).
Proof. unfold eigrp_intf_encoder_peer_remove. by repeat case_match. Qed.
Lemma epoch_same e (a : adj_intf) : intf_same a {| a with ai_epoch := e |}.
Proof. done. Qed.
#[export] Hint Resolve encoder_add_same encoder_remove_same epoch_same : keeps.

Section operations.
Context (n : ptr).

Lemma touch_get_nbr m : keeps (touch n) (get_nbr m).
Proof. unfold get_nbr. solve_keeps. Qed.
Lemma touch_get_intf i : keeps (touch n) (get_intf i).
Proof. unfold get_intf. solve_keeps. Qed.
Hint Resolve touch_get_nbr touch_get_intf : keeps.

Lemma touch_nbr_up : keeps (touch n) (nbr_up n).
Proof. unfold nbr_up. solve_keeps. Qed.
Lemma touch_down_reset : keeps (touch n) (nbr_down_reset n).
Proof. unfold nbr_down_reset. solve_keeps. Qed.
Hint Resolve touch_nbr_up touch_down_reset : keeps.

Lemma touch_state_update state : keeps (touch n) (eigrp_nbr_state_update_reason n state).
Proof. unfold eigrp_nbr_state_update_reason. solve_keeps. Qed.
Hint Resolve touch_state_update : keeps.

Lemma touch_down_deferred : keeps (touch n) (eigrp_nbr_down_deferred n).
Proof. unfold eigrp_nbr_down_deferred, eigrp_nbr_state_update. solve_keeps. Qed.
Hint Resolve touch_down_deferred : keeps.
Lemma touch_nbr_down : keeps (touch n) (eigrp_nbr_down n).
Proof. unfold eigrp_nbr_down. solve_keeps. Qed.
Lemma touch_limit_timers_cancel : keeps (touch n) (eigrp_nbr_limit_timers_cancel n).
Proof. unfold eigrp_nbr_limit_timers_cancel. solve_keeps. Qed.
Lemma touch_is_eligible : keeps (touch n) (eigrp_nbr_is_eligible n).
Proof. unfold eigrp_nbr_is_eligible. solve_keeps. Qed.
Hint Resolve touch_is_eligible : keeps.
Lemma touch_holddown_update : keeps (touch n) (eigrp_nbr_holddown_update n).
Proof. unfold eigrp_nbr_holddown_update. solve_keeps. Qed.
Lemma touch_codec_select v : keeps (touch n) (eigrp_nbr_codec_select n v).
Proof. unfold eigrp_nbr_codec_select. solve_keeps. Qed.
End operations.
#[export] Hint Resolve touch_get_nbr touch_get_intf touch_nbr_up touch_down_reset touch_state_update
  touch_down_deferred touch_nbr_down touch_limit_timers_cancel touch_is_eligible touch_holddown_update
  touch_codec_select : keeps.

(** ** Symbolic execution on one neighbor *)

(** The neighbor [n] is live with the fields [d]; the armed timers are [A]. *)
Record at_nbr (n : ptr) (d : nbr) (A : slot -> option (callback * Z)) (s : adj) : Prop := {
  an_rec : ad_nbrs s !! n = Some d;
  an_intf : is_Some (ad_intfs s !! nb_ei d);
  an_wf : timers_wf (ad_timers s);
  an_armed : forall k, armed (ad_timers s) k = A k;
}.

Definition without (k : slot) (A : slot -> option (callback * Z)) : slot -> option (callback * Z) :=
  fun k' => if decide (k = k') then None else A k'.

Lemma at_nbr_ext n d A A' s : at_nbr n d A s -> (forall k, A k = A' k) -> at_nbr n d A' s.
Proof. intros [] HA. split; try done. intros k. by rewrite <- HA. Qed.

Section rules.
Context (n : ptr) (d : nbr) (A : slot -> option (callback * Z)) (s : adj).
Hypothesis H : at_nbr n d A s.

Lemma wp_adj_nbr Q : Q d s -> wp (get_nbr n) Q s.
Proof. intros HQ. unfold get_nbr. apply wp_bind, wp_gets. rewrite (an_rec _ _ _ _ H). by apply wp_ret. Qed.

Lemma wp_upd_nbr f (Q : unit -> adj -> Prop) :
  nb_ei (f d) = nb_ei d -> (forall s', at_nbr n (f d) A s' -> Q tt s') -> wp (upd_nbr n f) Q s.
Proof.
  intros Hf HQ. unfold upd_nbr. apply wp_bind, wp_adj_nbr, wp_modify. apply HQ. destruct H as [Hr Hi Hw Ha].
  split; simpl; [by rewrite lookup_insert_eq|by rewrite Hf|done|done].
Qed.

Lemma wp_upd_intf i f (Q : unit -> adj -> Prop) :
  i = nb_ei d -> (forall s', at_nbr n d A s' -> Q tt s') -> wp (upd_intf i f) Q s.
Proof.
  intros -> HQ. destruct H as [Hr [ei Hi] Hw Ha]. unfold upd_intf, get_intf.
  apply wp_bind, wp_bind, wp_gets. rewrite Hi. apply wp_ret, wp_modify. apply HQ.
  split; simpl; [done| |done|done]. rewrite list_lookup_insert_eq; [done|]. by eapply lookup_lt_Some.
Qed.

Lemma wp_adj_intf i Q : i = nb_ei d -> (forall ei, Q ei s) -> wp (get_intf i) Q s.
Proof.
  intros -> HQ. destruct H as [Hr [ei Hi] Hw Ha]. unfold get_intf. apply wp_bind, wp_gets. rewrite Hi. by apply wp_ret.
Qed.

Lemma wp_record_call c (Q : unit -> adj -> Prop) : (forall s', at_nbr n d A s' -> Q tt s') -> wp (record_call c) Q s.
Proof. intros HQ. apply wp_modify, HQ. by destruct H. Qed.

Lemma wp_a_calloc Q : (forall b s', at_nbr n d A s' -> Q b s') -> wp a_calloc Q s.
Proof.
  intros HQ. unfold wp, a_calloc. destruct (ad_grants s); apply HQ; [done|]. by destruct H.
Qed.

Lemma wp_monotime Q : (forall now s', at_nbr n d A s' -> Q now s') -> wp monotime Q s.
Proof.
  intros HQ. unfold wp, monotime. destruct (ad_ticks s); apply HQ; [done|]. by destruct H.
Qed.

Lemma wp_generation_next Q : (forall g s', at_nbr n d A s' -> Q g s') -> wp generation_next Q s.
Proof. intros HQ. unfold wp, generation_next. simpl. apply HQ. by destruct H. Qed.

Lemma wp_cancel k (Q : unit -> adj -> Prop) :
  (forall s', at_nbr n d (without k A) s' -> Q tt s') -> wp (cancel_timer k) Q s.
Proof.
  intros HQ. apply wp_modify, HQ. destruct H as [Hr Hi Hw Ha]. split; simpl; [done|done|by apply cancel_wf|].
  intros k'. rewrite armed_cancel by done. unfold without. by rewrite Ha.
Qed.

End rules.

Lemma wp_arm n d A s k c delay (Q : unit -> adj -> Prop) :
  at_nbr n d A s ->
  (forall s' o, (o = None \/ exists t, o = Some (c, t)) ->
     at_nbr n d (fun k' => if decide (k = k') then o else A k') s' -> Q tt s') ->
  wp (arm_timer k c delay) Q s.
Proof.
  intros H HQ. unfold arm_timer.
  assert (forall ok now s1, at_nbr n d A s1 ->
            Q tt {| s1 with ad_timers := eigrp_timer_add (ad_timers s1) k c now delay ok |}) as Hadd.
  { intros ok now s1 [Hr Hi Hw Ha].
    apply (HQ _ (if ok && accepts (ad_timers s1) then Some (c, u64 (now + delay)) else None)); [case_match; eauto|].
    split; simpl; [done|done|by apply add_wf|]. intros k'. rewrite armed_add by done. by rewrite Ha. }
  apply wp_bind. apply (wp_a_calloc _ _ _ _ H). clear H. intros ok s1 H. apply wp_bind. destruct ok.
  - apply (wp_monotime _ _ _ _ H). clear H. intros now s2 H. apply wp_modify. by apply Hadd.
  - apply wp_gets, wp_modify. by apply Hadd.
Qed.

(** Runs the next operation on the neighbor. *)
Ltac step_nbr :=
  match goal with
  | |- wp (mret _) _ _ => apply wp_ret
  | |- wp (when ?b _) _ _ => apply wp_when; destruct b eqn:?
  | |- wp (mbind _ _) _ _ => apply wp_bind
  | |- wp (gets _) _ _ => apply wp_gets
  | H : at_nbr ?n _ _ ?s |- wp (get_nbr ?n) _ ?s => apply (wp_adj_nbr _ _ _ _ H)
  | H : at_nbr ?n _ _ ?s |- wp (upd_nbr ?n _) _ ?s =>
      apply (wp_upd_nbr _ _ _ _ H); [reflexivity|clear H; intros ? H]
  | H : at_nbr ?n _ _ ?s |- wp (upd_intf _ _) _ ?s =>
      apply (wp_upd_intf _ _ _ _ H); [reflexivity|clear H; intros ? H]
  | H : at_nbr ?n _ _ ?s |- wp (get_intf _) _ ?s => apply (wp_adj_intf _ _ _ _ H); [reflexivity|intros ?]
  | H : at_nbr ?n _ _ ?s |- wp (record_call _) _ ?s => apply (wp_record_call _ _ _ _ H); clear H; intros ? H
  | H : at_nbr ?n _ _ ?s |- wp a_calloc _ ?s => apply (wp_a_calloc _ _ _ _ H); clear H; intros ? ? H
  | H : at_nbr ?n _ _ ?s |- wp monotime _ ?s => apply (wp_monotime _ _ _ _ H); clear H; intros ? ? H
  | H : at_nbr ?n _ _ ?s |- wp generation_next _ ?s => apply (wp_generation_next _ _ _ _ H); clear H; intros ? ? H
  | H : at_nbr ?n _ _ ?s |- wp (cancel_timer _) _ ?s => apply (wp_cancel _ _ _ _ H); clear H; intros ? H
  end.

(** What an operation on the adjacency leaves of a neighbor's identity and penalty. *)
Definition identity (d : nbr) :=
  (nb_ei d, nb_src d, nb_published d, nb_generation d, nb_limit_state d, nb_af_suspended d, nb_penalty d,
   nb_pending_cfg d, nb_prefix_count d).

Lemma identity_ei d d' : identity d' = identity d -> nb_ei d' = nb_ei d.
Proof. by intros [= ->]. Qed.

(** [nbr_up] and [nbr_down_reset]. *)
Lemma wp_nbr_up n d A s :
  at_nbr n d A s ->
  wp (nbr_up n) (fun _ s' => exists d', at_nbr n d' A s' /\ identity d' = identity d
    /\ nb_state d' = nb_state d /\ nb_cleanup_pending d' = nb_cleanup_pending d
    /\ nb_retrans_queue d' = nb_retrans_queue d /\ nb_prev_state d' = nb_prev_state d) s.
Proof. intros H. unfold nbr_up. repeat step_nbr. eexists. split; [exact H|done]. Qed.

Lemma wp_down_reset n d A s :
  at_nbr n d A s ->
  wp (nbr_down_reset n) (fun _ s' => exists d', at_nbr n d' (without (t_holddown n) A) s'
    /\ identity d' = identity d /\ nb_state d' = nb_state d /\ nb_cleanup_pending d' = nb_cleanup_pending d
    /\ nb_prev_state d' = nb_prev_state d
    /\ (is_Some (nb_retrans_queue d) -> nb_retrans_queue d' = Some [])) s.
Proof.
  intros H. unfold nbr_down_reset. repeat step_nbr. cbn [nbr_reset nb_retrans_queue].
  destruct (nb_retrans_queue d) eqn:Eq.
  - repeat step_nbr. eexists. split; [exact H|]. done.
  - repeat step_nbr. eexists. split; [exact H|]. split; [done|]. split; [done|]. split; [done|]. split; [done|].
    by intros [? ?].
Qed.

Definition blocked (d : nbr) (state : Z) : bool :=
  (negb (bool_decide (nb_limit_state d = EIGRP_NBR_LIMIT_NONE)) || nb_af_suspended d)
  && negb (state =? EIGRP_NEIGHBOR_DOWN).

Lemma wp_state_update n d A s state :
  at_nbr n d A s ->
  wp (eigrp_nbr_state_update_reason n state) (fun _ s' => exists d',
    at_nbr n d' (if blocked d state then A else if state =? EIGRP_NEIGHBOR_DOWN then without (t_holddown n) A else A) s'
    /\ identity d' = identity d /\ nb_cleanup_pending d' = nb_cleanup_pending d /\ nb_prev_state d' = nb_prev_state d
    /\ nb_state d' = (if blocked d state then nb_state d else state)
    /\ (is_Some (nb_retrans_queue d) -> is_Some (nb_retrans_queue d'))) s.
Proof.
  intros H. unfold eigrp_nbr_state_update_reason. step_nbr. step_nbr.
  fold (blocked d state). destruct (blocked d state).
  { step_nbr. exists d. done. }
  set (leaves := (nb_state d =? EIGRP_NEIGHBOR_UP) && negb (state =? EIGRP_NEIGHBOR_UP)).
  assert (forall s, at_nbr n {| d with nb_state := state |} A s ->
    wp ((if (state =? EIGRP_NEIGHBOR_UP) && negb (nb_state d =? EIGRP_NEIGHBOR_UP) then nbr_up n
         else when leaves (upd_nbr n (fun d => {| d with nb_up_since_msec := 0 |})));;
        nbr ← get_nbr n; when (nb_state nbr =? EIGRP_NEIGHBOR_DOWN) (nbr_down_reset n))
     (fun _ s' => exists d',
    at_nbr n d' (if state =? EIGRP_NEIGHBOR_DOWN then without (t_holddown n) A else A) s'
    /\ identity d' = identity d /\ nb_cleanup_pending d' = nb_cleanup_pending d /\ nb_prev_state d' = nb_prev_state d
    /\ nb_state d' = state /\ (is_Some (nb_retrans_queue d) -> is_Some (nb_retrans_queue d'))) s) as Hrest.
  { clear s H. intros s H. apply wp_bind.
    eapply (wp_mono _ (fun _ s' => exists d', at_nbr n d' A s' /\ identity d' = identity d
      /\ nb_state d' = state /\ nb_cleanup_pending d' = nb_cleanup_pending d
      /\ nb_prev_state d' = nb_prev_state d /\ nb_retrans_queue d' = nb_retrans_queue d)).
    { case_match.
      - eapply wp_mono; [by apply wp_nbr_up|]. intros [] s' (d' & H' & Hi & Hs & Hc & Hq & Hp). exists d'. done.
      - repeat step_nbr; eexists; (split; [exact H|done]). }
    intros [] s1 (d1 & H1 & Hi & Hs & Hc & Hp & Hq). step_nbr. step_nbr. rewrite Hs.
    destruct (state =? EIGRP_NEIGHBOR_DOWN).
    - cbn [when]. eapply wp_mono; [by apply wp_down_reset|]. intros [] s2 (d2 & H2 & Hi2 & Hs2 & Hc2 & Hp2 & Hq2).
      exists d2. split; [done|]. split; [congruence|]. split; [congruence|]. split; [congruence|]. split; [congruence|].
      rewrite Hq in Hq2. intros Hd. by rewrite Hq2.
    - cbn [when]. step_nbr. exists d1. split; [done|]. repeat split; try congruence. }
  cbv zeta. fold leaves. destruct leaves; cbn [when].
  - do 6 step_nbr. by apply Hrest.
  - do 6 step_nbr. by apply Hrest.
Qed.

Lemma wp_down_deferred n d A s :
  at_nbr n d A s ->
  wp (eigrp_nbr_down_deferred n) (fun _ s' => exists d',
    at_nbr n d' (without (t_nbr_send_gr n) (without (t_holddown n) A)) s'
    /\ identity d' = identity d /\ nb_cleanup_pending d' = false /\ nb_state d' = EIGRP_NEIGHBOR_DOWN
    /\ (is_Some (nb_retrans_queue d) -> is_Some (nb_retrans_queue d'))) s.
Proof.
  intros H. unfold eigrp_nbr_down_deferred, eigrp_nbr_state_update. step_nbr. step_nbr. apply wp_bind.
  eapply (wp_mono _ (fun _ s' => exists d', at_nbr n d' A s' /\ identity d' = identity d
      /\ nb_cleanup_pending d' = false /\ nb_retrans_queue d' = nb_retrans_queue d)).
  { destruct (nb_cleanup_pending d) eqn:Ec; cbn [when]; [|step_nbr; by exists d].
    destruct (nb_prev_state d =? EIGRP_NEIGHBOR_UP); cbn [when]; repeat step_nbr; (eexists; split; [exact H|done]). }
  intros [] s1 (d1 & H1 & Hi1 & Hc1 & Hq1). clear H. step_nbr. step_nbr. step_nbr.
  eapply wp_mono; [by apply wp_state_update|]. intros [] s2 (d2 & H2 & Hi2 & Hc2 & _ & Hs2 & Hq2).
  unfold blocked in H2, Hs2. change (EIGRP_NEIGHBOR_DOWN =? EIGRP_NEIGHBOR_DOWN) with true in H2, Hs2.
  cbn [negb] in H2, Hs2. rewrite andb_false_r in H2, Hs2. clear H1.
  repeat step_nbr. eexists. split; [exact H2|]. rewrite Hq1 in Hq2.
  split; [etrans; [exact Hi2|exact Hi1]|]. cbn. split; [congruence|]. split; [done|]. done.
Qed.

Lemma wp_nbr_down n d A s :
  at_nbr n d A s ->
  wp (eigrp_nbr_down n) (fun _ s' => exists d',
    at_nbr n d' (without (t_nbr_send_gr n) (without (t_holddown n) A)) s'
    /\ identity d' = identity d /\ nb_cleanup_pending d' = false /\ nb_state d' = EIGRP_NEIGHBOR_DOWN
    /\ (is_Some (nb_retrans_queue d) -> is_Some (nb_retrans_queue d'))) s.
Proof.
  intros H. unfold eigrp_nbr_down. apply wp_bind. eapply wp_mono; [by apply wp_down_deferred|].
  intros [] s' (d' & H' & Hi). clear H. step_nbr. exists d'. split; [exact H'|done].
Qed.

(** ** The invariant and operations on one neighbor *)

Lemma ok_at s n d : adj_ok s -> ad_nbrs s !! n = Some d -> at_nbr n d (armed (ad_timers s)) s.
Proof. intros O Hn. destruct (ao_listed _ O _ _ Hn) as (ei & Hi & _). split; [done|done|apply O|done]. Qed.

Lemma touch_intf n s s' i ei :
  touch n s s' -> ad_intfs s' !! i = Some ei -> exists ei0, ad_intfs s !! i = Some ei0 /\ intf_same ei0 ei.
Proof. intros T E. destruct (Forall2_lookup_r _ _ _ _ _ (th_intfs _ _ _ T) E) as (x & ? & ?). eauto. Qed.

Lemma touch_intf_fwd n s s' i ei :
  touch n s s' -> ad_intfs s !! i = Some ei -> exists ei', ad_intfs s' !! i = Some ei' /\ intf_same ei ei'.
Proof. intros T E. destruct (Forall2_lookup_l _ _ _ _ _ (th_intfs _ _ _ T) E) as (x & ? & ?). eauto. Qed.

(** What the fields of the changed neighbor must satisfy. *)
Record nbr_fine (hold : option (callback * Z)) (d d' : nbr) : Prop := {
  nf_ei : nb_ei d' = nb_ei d;
  nf_published : nb_published d' = nb_published d;
  nf_down : penalized d' -> nb_state d' = EIGRP_NEIGHBOR_DOWN;
  nf_queue : nb_published d' = true -> is_Some (nb_retrans_queue d');
  nf_hold : restrained d' -> hold = None;
  nf_pend : nb_cleanup_pending d' = true -> ~ restrained d';
}.

Lemma ok_touch n s s' d d' :
  adj_ok s -> touch n s s' -> ad_nbrs s !! n = Some d -> ad_nbrs s' !! n = Some d' ->
  nbr_fine (armed (ad_timers s') (t_holddown n)) d d' -> adj_ok s'.
Proof.
  intros O T Hn Hn' [Fe Fp Fd Fq Fh Fc]. destruct (O) as [Ot Ol On Op Of Os Od Oq Oc Oe Oh].
  destruct (th_timers _ _ _ T Ot) as (W & Ha & Hc).
  assert (forall m x, ad_nbrs s' !! m = Some x -> exists y, ad_nbrs s !! m = Some y
            /\ nb_ei x = nb_ei y /\ nb_published x = nb_published y) as Hback.
  { intros m x Hx. destruct (decide (m = n)) as [->|Hm].
    - rewrite Hn' in Hx. injection Hx as <-. exists d. done.
    - rewrite (th_nbrs _ _ _ T _ Hm) in Hx. by exists x. }
  split; [done| | | | | | | | | |].
  - intros i ei m Hi Hm. destruct (touch_intf _ _ _ _ _ T Hi) as (ei0 & Hi0 & [En _]). rewrite En in Hm.
    destruct (Ol _ _ _ Hi0 Hm) as (x & Hx & ? & ?). destruct (decide (m = n)) as [->|Hne].
    + exists d'. rewrite Hn in Hx. simplify_eq. split; [done|]. split; congruence.
    + exists x. by rewrite (th_nbrs _ _ _ T _ Hne).
  - intros i ei Hi. destruct (touch_intf _ _ _ _ _ T Hi) as (ei0 & Hi0 & [En _]). rewrite En. by eapply On.
  - intros m x Hx. destruct (Hback _ _ Hx) as (y & Hy & Ee & Ep). destruct (Op _ _ Hy) as (ei & Hi & Hin).
    destruct (touch_intf_fwd _ _ _ _ _ T Hi) as (ei' & Hi' & [En _]). exists ei'. rewrite Ee, Ep, En. done.
  - intros m x Hx. destruct (Hback _ _ Hx) as (y & Hy & _). apply Of in Hy.
    pose proof (th_part _ _ _ T) as [= -> _]. done.
  - intros k c t Hk. assert (forall m, slot_nbr k = Some m -> is_Some (ad_nbrs s' !! m)) as Hlive.
    { intros m Hm. destruct (decide (m = n)) as [->|Hne]; [by rewrite Hn'|]. rewrite (th_nbrs _ _ _ T _ Hne).
      rewrite Ha in Hk by congruence. by eapply Os. }
    split; [|done]. destruct (Hc _ _ _ Hk) as [E|]; [|done]. by eapply Os.
  - intros m x Hx. destruct (decide (m = n)) as [->|Hne]; [rewrite Hn' in Hx; by simplify_eq|].
    rewrite (th_nbrs _ _ _ T _ Hne) in Hx. by eapply Od.
  - intros m x Hx. destruct (decide (m = n)) as [->|Hne]; [rewrite Hn' in Hx; by simplify_eq|].
    rewrite (th_nbrs _ _ _ T _ Hne) in Hx. by eapply Oq.
  - by apply (th_clock _ _ _ T).
  - intros m x Hx. destruct (decide (m = n)) as [->|Hne]; [rewrite Hn' in Hx; by simplify_eq|].
    rewrite (th_nbrs _ _ _ T _ Hne) in Hx. by eapply Oe.
  - intros m x Hx. destruct (decide (m = n)) as [->|Hne]; [rewrite Hn' in Hx; by simplify_eq|].
    rewrite (th_nbrs _ _ _ T _ Hne) in Hx. rewrite Ha by (simpl; congruence). by eapply Oh.
Qed.

(** An operation with the frame [touch] that ends with a sound record. *)
Lemma wp_ok_op {B} n (m : Ad B) s d (Q : B -> adj -> Prop) :
  adj_ok s -> ad_nbrs s !! n = Some d -> keeps (touch n) m -> wp m Q s ->
  (forall a s', Q a s' -> exists d', ad_nbrs s' !! n = Some d'
     /\ nbr_fine (armed (ad_timers s') (t_holddown n)) d d') ->
  wp m (fun a s' => adj_ok s' /\ touch n s s' /\ Q a s') s.
Proof.
  intros O Hn K W HQ. unfold wp in *. destruct (m s) as [[a s']|] eqn:E; [|done].
  pose proof (K _ _ _ E) as T. destruct (HQ _ _ W) as (d' & Hd' & F). split; [|done]. by eapply ok_touch.
Qed.

Lemma penalized_identity d d' :
  identity d' = identity d -> nb_cleanup_pending d' = nb_cleanup_pending d -> penalized d' -> penalized d.
Proof. intros [= E1 E2 E3 E4 E5 E6 E7 E8 E9] Ec. unfold penalized. by rewrite E5, E6, Ec. Qed.

Lemma ok_queue s n d : adj_ok s -> ad_nbrs s !! n = Some d -> nb_published d = true -> is_Some (nb_retrans_queue d).
Proof. intros O. apply (ao_queue _ O). Qed.

(** A change of state of a neighbor that awaits no prefix-limit cleanup. *)
Lemma ok_state_update n d s state :
  adj_ok s -> ad_nbrs s !! n = Some d ->
  (state = EIGRP_NEIGHBOR_DOWN \/ nb_cleanup_pending d = false) ->
  wp (eigrp_nbr_state_update_reason n state) (fun _ s' => adj_ok s' /\ touch n s s' /\ exists d',
    ad_nbrs s' !! n = Some d' /\ identity d' = identity d /\ nb_cleanup_pending d' = nb_cleanup_pending d
    /\ nb_prev_state d' = nb_prev_state d
    /\ nb_state d' = (if blocked d state then nb_state d else state)
    /\ (state = EIGRP_NEIGHBOR_DOWN -> forall k, armed (ad_timers s') k = without (t_holddown n) (armed (ad_timers s)) k)) s.
Proof.
  intros O Hn Hc. eapply wp_mono; [eapply (wp_ok_op n)|].
  - done.
  - exact Hn.
  - apply touch_state_update.
  - apply wp_state_update. by apply ok_at.
  - intros [] s' (d' & H' & Hi & Hcl & Hp & Hs & Hq). exists d'. split; [apply H'|].
    pose proof Hi as [= E1 E2 E3 E4 E5 E6 E7 E8 E9]. split; [done|done| | | |].
    + intros P. pose proof (penalized_identity _ _ Hi Hcl P) as P0. pose proof (ao_down _ O _ _ Hn P0) as D0.
      rewrite Hs. destruct (blocked d state) eqn:Eb; [done|].
      destruct Hc as [->|Hc]; [done|]. unfold blocked in Eb.
      assert ((negb (bool_decide (nb_limit_state d = EIGRP_NBR_LIMIT_NONE)) || nb_af_suspended d) = true) as E.
      { destruct P0 as [P0|[P0|P0]]; [rewrite bool_decide_false by done; done| |congruence].
        rewrite P0. apply orb_true_r. }
      rewrite E in Eb. simpl in Eb. apply negb_false_iff, Z.eqb_eq in Eb. done.
    + intros Hpub. apply Hq, (ok_queue _ _ _ O Hn). congruence.
    + intros R. rewrite (an_armed _ _ _ _ H'). assert (armed (ad_timers s) (t_holddown n) = None) as Eh.
      { apply (ao_hold _ O _ _ Hn). unfold restrained in *. by rewrite <- E5, <- E6. }
      unfold without. repeat case_match; done.
    + intros Hpd R. rewrite Hcl in Hpd. apply (ao_pend _ O _ _ Hn Hpd). unfold restrained in *. by rewrite <- E5, <- E6.
  - intros [] s' (O' & T & d' & H' & Hi & Hcl & Hp & Hs & Hq). split; [done|]. split; [done|].
    exists d'. repeat split; try done; [apply H'|]. intros -> k. rewrite (an_armed _ _ _ _ H').
    unfold blocked. change (EIGRP_NEIGHBOR_DOWN =? EIGRP_NEIGHBOR_DOWN) with true. by rewrite andb_false_r.
Qed.

Lemma without_down n (A : slot -> option (callback * Z)) :
  without (t_nbr_send_gr n) (without (t_holddown n) A) (t_holddown n) = None.
Proof. unfold without. by repeat case_decide. Qed.

Lemma fine_down d d' :
  identity d' = identity d -> nb_cleanup_pending d' = false -> nb_state d' = EIGRP_NEIGHBOR_DOWN ->
  (nb_published d = true -> is_Some (nb_retrans_queue d)) ->
  (is_Some (nb_retrans_queue d) -> is_Some (nb_retrans_queue d')) -> nbr_fine None d d'.
Proof.
  intros [= E1 E2 E3 E4 E5 E6 E7 E8 E9] Hc Hs Hq Hq'. split; [done|done|done| |done|congruence]. intros Hp. apply Hq', Hq. congruence.
Qed.

Lemma ok_nbr_down n d s :
  adj_ok s -> ad_nbrs s !! n = Some d ->
  wp (eigrp_nbr_down n) (fun _ s' => adj_ok s' /\ touch n s s' /\ exists d', ad_nbrs s' !! n = Some d'
    /\ identity d' = identity d /\ nb_cleanup_pending d' = false /\ nb_state d' = EIGRP_NEIGHBOR_DOWN
    /\ forall k, armed (ad_timers s') k = without (t_nbr_send_gr n) (without (t_holddown n) (armed (ad_timers s))) k) s.
Proof.
  intros O Hn. eapply wp_mono; [eapply (wp_ok_op n)|].
  - done.
  - exact Hn.
  - apply touch_nbr_down.
  - apply wp_nbr_down. by apply ok_at.
  - intros [] s' (d' & H' & Hi & Hc & Hs & Hq). exists d'. split; [apply H'|].
    rewrite (an_armed _ _ _ _ H'), without_down. apply fine_down; try done. by eapply ok_queue.
  - intros [] s' (O' & T & d' & H' & Hi & Hc & Hs & Hq). split; [done|]. split; [done|].
    exists d'. repeat split; try done; apply H'.
Qed.

Lemma ok_down_deferred n d s :
  adj_ok s -> ad_nbrs s !! n = Some d ->
  wp (eigrp_nbr_down_deferred n) (fun _ s' => adj_ok s' /\ touch n s s' /\ exists d', ad_nbrs s' !! n = Some d'
    /\ identity d' = identity d /\ nb_cleanup_pending d' = false /\ nb_state d' = EIGRP_NEIGHBOR_DOWN) s.
Proof.
  intros O Hn. eapply wp_mono; [eapply (wp_ok_op n)|].
  - done.
  - exact Hn.
  - apply touch_down_deferred.
  - apply wp_down_deferred. by apply ok_at.
  - intros [] s' (d' & H' & Hi & Hc & Hs & Hq). exists d'. split; [apply H'|].
    rewrite (an_armed _ _ _ _ H'), without_down. apply fine_down; try done. by eapply ok_queue.
  - intros [] s' (O' & T & d' & H' & Hi & Hc & Hs & Hq). split; [done|]. split; [done|].
    exists d'. repeat split; try done; apply H'.
Qed.

(** ** Unpublishing and deletion *)

Lemma remove_first_neq (n : ptr) l : NoDup l -> remove_first (Nat.eqb n) l = filter (fun m => m <> n) l.
Proof.
  induction l as [|m l IH]; [done|]. intros [Hm HN]%NoDup_cons. simpl. rewrite filter_cons.
  destruct (Nat.eqb_spec n m) as [->|Hne].
  - rewrite decide_False by tauto. clear IH. induction l as [|x l IH]; [done|]. rewrite filter_cons_True.
    + f_equal. apply NoDup_cons in HN as [_ HN]. apply IH; [|done]. set_solver.
    + set_solver.
  - rewrite decide_True by done. f_equal. by apply IH.
Qed.

(** The state after a neighbor has left its interface's list. *)
Definition unlisted (n : ptr) (i : nat) (ei : adj_intf) (d : nbr) (s : adj) : adj :=
  {| s with ad_intfs := <[i := {| ei with ai_nbrs := filter (fun m => m <> n) (ai_nbrs ei) |}]> (ad_intfs s);
            ad_nbrs := <[n := {| d with nb_published := false |}]> (ad_nbrs s) |}.

Lemma wp_unpublish n d ei s (Q : unit -> adj -> Prop) :
  adj_ok s -> ad_nbrs s !! n = Some d -> ad_intfs s !! nb_ei d = Some ei ->
  Q tt (unlisted n (nb_ei d) ei d s) -> wp (unpublish n) Q s.
Proof.
  intros O Hn Hi HQ. unfold unpublish, upd_intf, get_intf, upd_nbr, get_nbr.
  apply wp_bind, wp_bind, wp_gets. rewrite Hn. apply wp_ret.
  apply wp_bind, wp_bind, wp_bind, wp_gets. rewrite Hi. apply wp_ret, wp_modify.
  apply wp_bind, wp_bind, wp_gets. cbn [ad_nbrs]. rewrite Hn. apply wp_ret, wp_modify.
  unfold unlisted in HQ. rewrite remove_first_neq by (by eapply (ao_nodup _ O)). exact HQ.
Qed.

Lemma ok_unlisted n d ei s :
  adj_ok s -> ad_nbrs s !! n = Some d -> ad_intfs s !! nb_ei d = Some ei -> adj_ok (unlisted n (nb_ei d) ei d s).
Proof.
  intros O Hn Hi. destruct (O) as [Ot Ol On Op Of Os Od Oq Oc Oe Oh]. unfold unlisted. split; cbn -[filter]; try done.
  - intros i ei' m Hl Hm. destruct (decide (i = nb_ei d)) as [->|Hne].
    + rewrite list_lookup_insert_eq in Hl by (by eapply lookup_lt_Some). injection Hl as <-.
      cbn -[filter] in Hm. apply list_elem_of_filter in Hm as [Hmn Hm].
      destruct (Ol _ _ _ Hi Hm) as (x & Hx & ? & ?). exists x. by rewrite lookup_insert_ne.
    + rewrite list_lookup_insert_ne in Hl by done. destruct (Ol _ _ _ Hl Hm) as (x & Hx & E & ?).
      exists x. rewrite lookup_insert_ne; [done|]. intros <-. rewrite Hn in Hx. by simplify_eq.
  - intros i ei' Hl. destruct (decide (i = nb_ei d)) as [->|Hne].
    + rewrite list_lookup_insert_eq in Hl by (by eapply lookup_lt_Some). injection Hl as <-. cbn -[filter].
      apply NoDup_filter. by eapply On.
    + rewrite list_lookup_insert_ne in Hl by done. by eapply On.
  - intros m x Hm. destruct (decide (m = n)) as [->|Hmn].
    + rewrite lookup_insert_eq in Hm. injection Hm as <-. cbn -[filter].
      rewrite list_lookup_insert_eq by (by eapply lookup_lt_Some). eexists. split; [done|]. done.
    + rewrite lookup_insert_ne in Hm by done. destruct (Op _ _ Hm) as (ei' & Hei & Hin).
      destruct (decide (nb_ei x = nb_ei d)) as [E|Hne].
      * rewrite E, list_lookup_insert_eq by (by eapply lookup_lt_Some). eexists. split; [done|].
        intros Hp. cbn -[filter]. apply list_elem_of_filter. split; [done|]. rewrite E in Hei. rewrite Hi in Hei.
        simplify_eq. auto.
      * rewrite list_lookup_insert_ne by done. eauto.
  - intros m x Hm. destruct (decide (m = n)) as [->|Hmn]; [by eapply Of|].
    rewrite lookup_insert_ne in Hm by done. by eapply Of.
  - intros k c t Hk. destruct (Os _ _ _ Hk) as [Hc Hl]. split; [done|]. intros m Hm.
    destruct (decide (m = n)) as [->|Hmn]; [by rewrite lookup_insert_eq|]. rewrite lookup_insert_ne by done. auto.
  - intros m x Hm. destruct (decide (m = n)) as [->|Hmn].
    + rewrite lookup_insert_eq in Hm. injection Hm as <-. apply (Od n d Hn).
    + rewrite lookup_insert_ne in Hm by done. by eapply Od.
  - intros m x Hm. destruct (decide (m = n)) as [->|Hmn].
    + rewrite lookup_insert_eq in Hm. injection Hm as <-. done.
    + rewrite lookup_insert_ne in Hm by done. by eapply Oq.
  - intros m x [[<- <-]|[Hmn Hx]]%lookup_insert_Some; [apply (Oe n d Hn)|by eapply Oe].
  - intros m x [[<- <-]|[Hmn Hx]]%lookup_insert_Some; [apply (Oh n d Hn)|by eapply Oh].
Qed.

Lemma wp_limit_timers_cancel n d A s :
  at_nbr n d A s ->
  wp (eigrp_nbr_limit_timers_cancel n) (fun _ s' => exists d',
    at_nbr n d' (without (t_limit_reset n) (without (t_limit_restart n) A)) s'
    /\ d' = (let p := nb_penalty d in
             {| d with nb_penalty := {| p with restart_due_msec := 0; reset_due_msec := 0 |} |})) s.
Proof. intros H. unfold eigrp_nbr_limit_timers_cancel. repeat step_nbr. eexists. split; [exact H|done]. Qed.

Lemma ok_limit_timers_cancel n d s :
  adj_ok s -> ad_nbrs s !! n = Some d ->
  wp (eigrp_nbr_limit_timers_cancel n) (fun _ s' => adj_ok s' /\ touch n s s'
    /\ ad_nbrs s' !! n = Some (let p := nb_penalty d in
         {| d with nb_penalty := {| p with restart_due_msec := 0; reset_due_msec := 0 |} |})
    /\ forall k, armed (ad_timers s') k
                 = without (t_limit_reset n) (without (t_limit_restart n) (armed (ad_timers s))) k) s.
Proof.
  intros O Hn. eapply wp_mono; [eapply (wp_ok_op n)|].
  - done.
  - exact Hn.
  - apply touch_limit_timers_cancel.
  - apply wp_limit_timers_cancel. by apply ok_at.
  - intros [] s' (d' & H' & ->). eexists. split; [apply H'|]. split; cbn; [done|done| |by eapply ok_queue| |by apply (ao_pend _ O n d Hn)].
    + apply (ao_down _ O n d Hn).
    + intros R. rewrite (an_armed _ _ _ _ H'). unfold without. repeat case_decide; try done. by apply (ao_hold _ O n d Hn).
  - intros [] s' (O' & T & d' & H' & ->). split; [done|]. split; [done|]. split; apply H'.
Qed.

Record gone (n : ptr) (s s' : adj) : Prop := {
  gn_gone : ad_nbrs s' !! n = None;
  gn_nbrs : forall m, m <> n -> ad_nbrs s' !! m = ad_nbrs s !! m;
  gn_lists : forall i, ai_nbrs <$> ad_intfs s' !! i = (fun ei => filter (fun m => m <> n) (ai_nbrs ei)) <$> ad_intfs s !! i;
  gn_part : instance_part s' = instance_part s;
  gn_own : forall k, slot_nbr k = Some n -> armed (ad_timers s') k = None;
  gn_armed : forall k, slot_nbr k <> Some n -> armed (ad_timers s') k = armed (ad_timers s) k;
}.

Lemma ok_free n d s :
  adj_ok s -> ad_nbrs s !! n = Some d -> nb_published d = false ->
  (forall k, slot_nbr k = Some n -> armed (ad_timers s) k = None) ->
  adj_ok {| s with ad_nbrs := delete n (ad_nbrs s) |}.
Proof.
  intros O Hn Hp Hs. destruct (O) as [Ot Ol On Op Of Os Od Oq Oc Oe Oh].
  split; cbn; try done.
  - intros i ei m Hi Hm. destruct (Ol _ _ _ Hi Hm) as (x & Hx & ? & ?). exists x.
    rewrite lookup_delete_ne; [done|]. intros ->. congruence.
  - intros m x [? Hx]%lookup_delete_Some. by eapply Op.
  - intros m x [? Hx]%lookup_delete_Some. by eapply Of.
  - intros k c t Hk. destruct (Os _ _ _ Hk) as [Hc Hl]. split; [done|]. intros m Hm.
    destruct (decide (m = n)) as [->|Hmn]; [rewrite Hs in Hk by done; done|]. rewrite lookup_delete_ne by done. auto.
  - intros m x [? Hx]%lookup_delete_Some. by eapply Od.
  - intros m x [? Hx]%lookup_delete_Some. by eapply Oq.
  - intros m x [? Hx]%lookup_delete_Some. by eapply Oe.
  - intros m x [? Hx]%lookup_delete_Some. by eapply Oh.
Qed.

Lemma filter_absent (n : ptr) (l : list ptr) : n ∉ l -> filter (fun m => m <> n) l = l.
Proof.
  induction l as [|m l IH]; [done|]. intros Hn. rewrite filter_cons_True by set_solver. f_equal. apply IH. set_solver.
Qed.

Lemma unlisted_absent n d s i ei :
  adj_ok s -> ad_nbrs s !! n = Some d -> nb_published d = false -> ad_intfs s !! i = Some ei -> n ∉ ai_nbrs ei.
Proof. intros O Hn Hp Hi Hin. destruct (ao_links _ O _ _ _ Hi Hin) as (x & Hx & _ & ?). congruence. Qed.

(** The first part of a deletion: the neighbor is in no list. *)
Lemma wp_withdraw n d s :
  adj_ok s -> ad_nbrs s !! n = Some d ->
  wp (when (nb_published d) (unpublish n)) (fun _ s' => adj_ok s'
    /\ ad_nbrs s' !! n = Some {| d with nb_published := false |}
    /\ (forall m, m <> n -> ad_nbrs s' !! m = ad_nbrs s !! m)
    /\ (forall i, ai_nbrs <$> ad_intfs s' !! i = (fun ei => filter (fun m => m <> n) (ai_nbrs ei)) <$> ad_intfs s !! i)
    /\ instance_part s' = instance_part s /\ ad_timers s' = ad_timers s) s.
Proof.
  intros O Hn. destruct (ao_listed _ O _ _ Hn) as (ei & Hi & _). apply wp_when.
  destruct (nb_published d) eqn:Hp.
  - eapply wp_unpublish; [done|done|exact Hi|]. split; [by apply ok_unlisted|]. unfold unlisted.
    cbn -[filter]. split; [by rewrite lookup_insert_eq|]. split; [intros; by rewrite lookup_insert_ne|].
    split; [|done]. intros i. destruct (decide (i = nb_ei d)) as [->|Hne].
    + rewrite list_lookup_insert_eq by (by eapply lookup_lt_Some). by rewrite Hi.
    + rewrite list_lookup_insert_ne by done. destruct (ad_intfs s !! i) as [ei'|] eqn:Ei; [|done]. cbn -[filter].
      f_equal. symmetry. apply filter_absent. intros Hin. destruct (ao_links _ O _ _ _ Ei Hin) as (x & Hx & E & _).
      rewrite Hn in Hx. by simplify_eq.
  - split; [done|]. split; [rewrite Hn, <- Hp; clear; by destruct d|]. split; [done|]. split; [|done].
    intros i. destruct (ad_intfs s !! i) as [ei'|] eqn:Ei; [|done]. cbn -[filter]. f_equal. symmetry.
    apply filter_absent. by eapply unlisted_absent.
Qed.

Lemma touch_lists n s s' i : touch n s s' -> ai_nbrs <$> ad_intfs s' !! i = ai_nbrs <$> ad_intfs s !! i.
Proof.
  intros T. destruct (ad_intfs s !! i) as [ei|] eqn:E.
  - destruct (touch_intf_fwd _ _ _ _ _ T E) as (ei' & -> & [En _]). simpl. by rewrite En.
  - destruct (ad_intfs s' !! i) as [ei'|] eqn:E'; [|done].
    destruct (touch_intf _ _ _ _ _ T E') as (? & ? & _). congruence.
Qed.

Lemma ok_delete n d s :
  adj_ok s -> ad_nbrs s !! n = Some d -> wp (eigrp_nbr_delete n) (fun _ s' => adj_ok s' /\ gone n s s') s.
Proof.
  intros O Hn. unfold eigrp_nbr_delete. apply wp_bind. apply (wp_adj_nbr _ _ _ _ (ok_at _ _ _ O Hn)).
  apply wp_bind. eapply wp_mono; [by apply wp_withdraw|].
  intros [] s1 (O1 & Hn1 & Hm1 & Hl1 & Hp1 & Ht1). apply wp_bind.
  eapply wp_mono; [by apply ok_limit_timers_cancel|]. intros [] s2 (O2 & T2 & Hn2 & Ha2). apply wp_bind.
  eapply wp_mono; [by apply ok_nbr_down|]. intros [] s3 (O3 & T3 & d3 & Hn3 & Hi3 & _ & _ & Ha3).
  assert (forall k, slot_nbr k = Some n -> armed (ad_timers s3) k = None) as Hown.
  { intros k Hk. rewrite Ha3. unfold without. rewrite Ha2. unfold without.
    destruct k; simpl in Hk; simplify_eq; repeat case_decide; congruence. }
  apply wp_modify. split.
  - eapply ok_free; [done|exact Hn3| |done]. by pose proof (f_equal (fun i => i.1.1.1.1.1.1.2) Hi3).
  - split; cbn.
    + apply lookup_delete_eq.
    + intros m Hm. rewrite lookup_delete_ne by done. by rewrite (th_nbrs _ _ _ T3), (th_nbrs _ _ _ T2), Hm1.
    + intros i. by rewrite (touch_lists _ _ _ _ T3), (touch_lists _ _ _ _ T2), Hl1.
    + transitivity (instance_part s3); [done|]. by rewrite (th_part _ _ _ T3), (th_part _ _ _ T2).
    + done.
    + intros k Hk. destruct (th_timers _ _ _ T3 (ao_timers _ O2)) as (_ & Ha & _).
      destruct (th_timers _ _ _ T2 (ao_timers _ O1)) as (_ & Hb & _). by rewrite Ha, Hb, Ht1.
Qed.

(** A state change to DOWN followed by the deletion, as every teardown does. *)
Lemma ok_down_delete n d s :
  adj_ok s -> ad_nbrs s !! n = Some d ->
  wp (eigrp_nbr_state_update_reason n EIGRP_NEIGHBOR_DOWN;; eigrp_nbr_delete n) (fun _ s' => adj_ok s' /\ gone n s s') s.
Proof.
  intros O Hn. apply wp_bind. eapply wp_mono; [apply (ok_state_update n d s); eauto|].
  intros [] s1 (O1 & T1 & d1 & Hn1 & _). eapply wp_mono; [by eapply ok_delete|]. intros [] s2 (O2 & G).
  split; [done|]. destruct G as [G1 G2 G3 G4 G5 G6]. split; [done| | | |done|].
  - intros m Hm. by rewrite G2, (th_nbrs _ _ _ T1).
  - intros i. rewrite G3. pose proof (touch_lists _ _ _ i T1) as E.
    destruct (ad_intfs s1 !! i), (ad_intfs s !! i); try done. injection E as E. cbn -[filter]. by rewrite E.
  - by rewrite G4, (th_part _ _ _ T1).
  - intros k Hk. destruct (th_timers _ _ _ T1 (ao_timers _ O)) as (_ & Ha & _). by rewrite G6, Ha.
Qed.

(** ** The hold timer *)

Lemma wp_is_eligible n d A s Q :
  at_nbr n d A s ->
  Q (bool_decide (nb_limit_state d = EIGRP_NBR_LIMIT_NONE) && negb (nb_cleanup_pending d)
     && negb (nb_af_suspended d) && (ad_af_state s =? 0)) s ->
  wp (eigrp_nbr_is_eligible n) Q s.
Proof. intros H HQ. unfold eigrp_nbr_is_eligible. by do 5 step_nbr. Qed.

(** A penalized neighbor, and one that is down, has no hold timer afterwards. *)
Definition rests (n : ptr) (d : nbr) (s' : adj) : Prop :=
  ad_nbrs s' !! n = Some d
  /\ (nb_state d = EIGRP_NEIGHBOR_DOWN \/ restrained d -> armed (ad_timers s') (t_holddown n) = None).

Lemma ok_holddown_update n d s :
  adj_ok s -> ad_nbrs s !! n = Some d ->
  wp (eigrp_nbr_holddown_update n) (fun _ s' => adj_ok s' /\ touch n s s' /\ rests n d s') s.
Proof.
  intros O Hn. eapply wp_mono; [eapply (wp_ok_op n _ _ _ (fun _ s' => rests n d s'))|].
  - done.
  - exact Hn.
  - apply touch_holddown_update.
  - pose proof (ok_at _ _ _ O Hn) as H. unfold eigrp_nbr_holddown_update. step_nbr.
    eapply wp_is_eligible; [exact H|].
    assert (wp (cancel_timer (t_holddown n)) (fun _ s' => rests n d s') s) as Hcancel.
    { step_nbr. split; [apply H|]. intros _. rewrite (an_armed _ _ _ _ H). unfold without. by rewrite decide_True. }
    match goal with |- context [negb ?b] => destruct b eqn:El end; cbn [negb]; [|done].
    assert (~ restrained d) as Hfree.
    { repeat (apply andb_true_iff in El as [El ?]). apply bool_decide_eq_true in El. apply negb_true_iff in H1.
      intros [?|?]; congruence. }
    step_nbr. step_nbr. destruct (Z.eqb_spec (nb_state d) EIGRP_NEIGHBOR_DOWN) as [E|E]; [done|].
    case_match.
    + step_nbr. step_nbr. eapply wp_arm; [exact H|]. intros s2 o _ H'. split; [apply H'|]. tauto.
    + step_nbr. split; [apply H|]. tauto.
  - intros [] s' (Hn' & Hh). exists d. split; [done|].
    split; [done|done|by apply (ao_down _ O _ _ Hn)|by eapply ok_queue|auto|by apply (ao_pend _ O n d Hn)].
  - done.
Qed.

Lemma gone_trans_unlisted n d ei s s' :
  adj_ok s -> ad_nbrs s !! n = Some d -> ad_intfs s !! nb_ei d = Some ei ->
  gone n (unlisted n (nb_ei d) ei d s) s' -> gone n s s'.
Proof.
  intros O Hn Hi [G1 G2 G3 G4 G5 G6]. split; [done| | |done|done|done].
  - intros m Hm. rewrite G2 by done. unfold unlisted. cbn -[filter]. by rewrite lookup_insert_ne.
  - intros i. rewrite G3. unfold unlisted. cbn -[filter]. destruct (decide (i = nb_ei d)) as [->|Hne].
    + rewrite list_lookup_insert_eq by (by eapply lookup_lt_Some). rewrite Hi. cbn -[filter]. f_equal.
      rewrite list_filter_filter. apply list_filter_iff. tauto.
    + by rewrite list_lookup_insert_ne.
Qed.

Lemma ok_holddown_expired n d s :
  adj_ok s -> ad_nbrs s !! n = Some d ->
  wp (eigrp_nbr_holddown_expired n) (fun _ s' => adj_ok s' /\ (s' = s \/ gone n s s')) s.
Proof.
  intros O Hn. unfold eigrp_nbr_holddown_expired. apply wp_bind. apply (wp_adj_nbr _ _ _ _ (ok_at _ _ _ O Hn)).
  case_match; [apply wp_ret; eauto|]. apply wp_bind, wp_gets. case_match; [apply wp_ret; eauto|].
  destruct (ao_listed _ O _ _ Hn) as (ei & Hi & _). apply wp_bind. eapply wp_unpublish; [done|done|exact Hi|].
  eapply wp_mono; [eapply ok_down_delete|].
  - by apply ok_unlisted.
  - unfold unlisted. cbn -[filter]. by rewrite lookup_insert_eq.
  - intros [] s' [O' G]. split; [done|]. right. by eapply gone_trans_unlisted.
Qed.

(** ** Creation *)

Lemma ok_aux s s' :
  adj_ok s -> ad_nbrs s' = ad_nbrs s -> ad_intfs s' = ad_intfs s -> ad_next_nbr s' = ad_next_nbr s ->
  ad_timers s' = ad_timers s -> ad_ticks s' = ad_ticks s -> adj_ok s'.
Proof. intros [] E1 E2 E3 E4 E5. split; rewrite ?E1, ?E2, ?E3, ?E4, ?E5; done. Qed.

Lemma wp_calloc_ok s (Q : bool -> adj -> Prop) :
  adj_ok s -> (forall b g, adj_ok {| s with ad_grants := g |} -> Q b {| s with ad_grants := g |}) -> wp a_calloc Q s.
Proof.
  intros O HQ. unfold wp, a_calloc. destruct (ad_grants s) as [|b g] eqn:E.
  - specialize (HQ true []). rewrite <- E in HQ. destruct s. by apply HQ.
  - apply HQ. by eapply ok_aux.
Qed.

Lemma wp_admit_locked i ei s Q :
  ad_intfs s !! i = Some ei ->
  (forall b, (b = true -> Z.of_nat (length (ai_nbrs ei)) < EIGRP_NEIGHBOR_MAX_PER_INTERFACE) -> Q b s) ->
  wp (eigrp_nbr_admit_locked i) Q s.
Proof.
  intros Hi HQ. unfold eigrp_nbr_admit_locked, get_intf. apply wp_bind, wp_bind, wp_gets. rewrite Hi.
  apply wp_ret, wp_bind, wp_gets, wp_ret, HQ.
  destruct (Z.leb_spec EIGRP_NEIGHBOR_MAX_PER_INTERFACE (Z.of_nat (length (ai_nbrs ei)))); [done|]. auto.
Qed.

Lemma fresh_slots s n k : adj_ok s -> ad_nbrs s !! n = None -> slot_nbr k = Some n -> armed (ad_timers s) k = None.
Proof.
  intros O Hn Hk. destruct (armed (ad_timers s) k) as [[c t]|] eqn:E; [|done].
  destruct (ao_slots _ O _ _ _ E) as [_ Hl]. destruct (Hl _ Hk). congruence.
Qed.

Lemma next_nbr_free s : adj_ok s -> ad_nbrs s !! ad_next_nbr s = None.
Proof. intros O. destruct (ad_nbrs s !! ad_next_nbr s) eqn:E; [|done]. apply (ao_fresh _ O) in E. lia. Qed.

Lemma ok_alloc s i src ei :
  adj_ok s -> ad_intfs s !! i = Some ei ->
  adj_ok {| s with ad_nbrs := <[ad_next_nbr s := eigrp_nbr_init i src]> (ad_nbrs s); ad_next_nbr := S (ad_next_nbr s) |}.
Proof.
  intros O Hi. pose proof (next_nbr_free s O) as Hf. destruct (O) as [Ot Ol On Op Of Os Od Oq Oc Oe Oh]. split; cbn; try done.
  - intros j ei' m Hj Hm. destruct (Ol _ _ _ Hj Hm) as (x & Hx & ?). exists x.
    rewrite lookup_insert_ne; [done|congruence].
  - intros m x [[<- <-]|[Hm Hx]]%lookup_insert_Some; [by exists ei|by apply Op].
  - intros m x [[<- <-]|[Hm Hx]]%lookup_insert_Some; [lia|]. apply Of in Hx. lia.
  - intros k c t Hk. destruct (Os _ _ _ Hk) as [Hc Hl]. split; [done|]. intros m Hm.
    rewrite lookup_insert_ne; [auto|]. intros <-. by destruct (Hl _ Hm) as [? ?]; congruence.
  - intros m x [[<- <-]|[Hm Hx]]%lookup_insert_Some; [done|by eapply Od].
  - intros m x [[<- <-]|[Hm Hx]]%lookup_insert_Some; [done|by eapply Oq].
  - intros m x [[<- <-]|[Hm Hx]]%lookup_insert_Some; [done|by eapply Oe].
  - intros m x [[<- <-]|[Hm Hx]]%lookup_insert_Some; [by intros [?|?]|by eapply Oh].
Qed.

Lemma ok_publish s n i ei d g :
  adj_ok s -> ad_intfs s !! i = Some ei -> ad_nbrs s !! n = Some d -> nb_ei d = i -> nb_published d = false ->
  is_Some (nb_retrans_queue d) ->
  adj_ok {| s with ad_intfs := <[i := {| ei with ai_nbrs := ai_nbrs ei ++ [n] |}]> (ad_intfs s);
                   ad_next_generation := g;
                   ad_nbrs := <[n := {| d with nb_generation := g; nb_published := true |}]> (ad_nbrs s) |}.
Proof.
  intros O Hi Hn He Hp Hq. destruct (O) as [Ot Ol On Op Of Os Od Oq Oc Oe Oh].
  assert (forall j ej, ad_intfs s !! j = Some ej -> n ∉ ai_nbrs ej) as Habs.
  { intros j ej Hj. by eapply unlisted_absent. }
  split; cbn; try done.
  - intros j ei' m Hj Hm. apply list_lookup_insert_Some in Hj as [(-> & <- & _)|[Hne Hj]].
    + cbn in Hm. apply elem_of_app in Hm as [Hm|Hm%list_elem_of_singleton].
      * destruct (Ol _ _ _ Hi Hm) as (x & Hx & ?). exists x. rewrite lookup_insert_ne; [done|].
        intros ->. by apply (Habs _ _ Hi).
      * subst m. rewrite lookup_insert_eq. eexists. split; [done|]. done.
    + destruct (Ol _ _ _ Hj Hm) as (x & Hx & ?). exists x. rewrite lookup_insert_ne; [done|].
      intros ->. by apply (Habs _ _ Hj).
  - intros j ei' Hj. apply list_lookup_insert_Some in Hj as [(-> & <- & _)|[Hne Hj]]; [|by eapply On].
    cbn. apply NoDup_app. split; [by eapply On|]. split; [|apply NoDup_singleton].
    intros m Hm ->%list_elem_of_singleton. by apply (Habs _ _ Hi).
  - intros m x [[<- <-]|[Hm Hx]]%lookup_insert_Some.
    + cbn. rewrite He, list_lookup_insert_eq by (by eapply lookup_lt_Some). eexists. split; [done|].
      intros _. cbn. set_solver.
    + destruct (Op _ _ Hx) as (ex & Hex & Hin). destruct (decide (i = nb_ei x)) as [->|Hne].
      * rewrite list_lookup_insert_eq by (by eapply lookup_lt_Some). eexists. split; [done|]. cbn.
        intros Hpx. rewrite Hi in Hex. simplify_eq. set_solver.
      * rewrite list_lookup_insert_ne by done. eauto.
  - intros m x [[<- <-]|[Hm Hx]]%lookup_insert_Some; by eapply Of.
  - intros k c t Hk. destruct (Os _ _ _ Hk) as [Hc Hl]. split; [done|]. intros m Hm.
    destruct (decide (m = n)) as [->|Hne]; [by rewrite lookup_insert_eq|]. rewrite lookup_insert_ne by done. auto.
  - intros m x [[<- <-]|[Hm Hx]]%lookup_insert_Some; [by apply (Od n d Hn)|by eapply Od].
  - intros m x [[<- <-]|[Hm Hx]]%lookup_insert_Some; [done|by eapply Oq].
  - intros m x [[<- <-]|[Hm Hx]]%lookup_insert_Some; [by apply (Oe n d Hn)|by eapply Oe].
  - intros m x [[<- <-]|[Hm Hx]]%lookup_insert_Some; [by apply (Oh n d Hn)|by eapply Oh].
Qed.

(** A neighbor that was just created: published, down, without a penalty. *)
Record newborn (i : nat) (src : eigrp_addr) (d : nbr) : Prop := {
  nw_ei : nb_ei d = i;
  nw_src : nb_src d = src;
  nw_published : nb_published d = true;
  nw_state : nb_state d = EIGRP_NEIGHBOR_DOWN;
  nw_clean : ~ penalized d;
}.

(** The part of an instance no operation on neighbors writes. *)
Definition config_part (s : adj) :=
  (ad_k_values s, ad_metric_version s, ad_config s,
   (ad_af_state s, ad_af_cleanup_pending s, ad_af_pkt_active s, ad_af_penalty s),
   (ad_redist_state s, ad_redist_penalty s)).

Lemma touch_config n s s' : touch n s s' -> config_part s' = config_part s.
Proof. intros T. pose proof (th_part _ _ _ T) as [=]. unfold config_part. congruence. Qed.

Record created (i : nat) (src : eigrp_addr) (s : adj) (o : option ptr) (s' : adj) : Prop := {
  cr_ok : adj_ok s';
  cr_others : forall m, m <> ad_next_nbr s -> ad_nbrs s' !! m = ad_nbrs s !! m;
  cr_config : config_part s' = config_part s;
  cr_new : match o with
           | Some n => n = ad_next_nbr s /\ exists d, ad_nbrs s' !! n = Some d /\ newborn i src d
           | None => ad_nbrs s' !! ad_next_nbr s = None
           end;
}.

Lemma ok_nbr_publish n i src d ei s0 s :
  adj_ok s -> ad_intfs s !! i = Some ei -> ad_nbrs s !! n = Some d -> nb_ei d = i -> nb_published d = false ->
  is_Some (nb_retrans_queue d) -> nb_src d = src -> nb_state d = EIGRP_NEIGHBOR_DOWN -> ~ penalized d ->
  n = ad_next_nbr s0 -> (forall m, m <> n -> ad_nbrs s !! m = ad_nbrs s0 !! m) -> config_part s = config_part s0 ->
  (forall k, slot_nbr k = Some n -> armed (ad_timers s) k = None) ->
  wp (published ← nbr_publish n i; if published : bool then mret (Some n) else nbr_free n;; mret None)
    (created i src s0) s.
Proof.
  intros O Hi Hn He Hp Hq Hs Hst Hpen Hn0 Hoth Hcfg Hslots. unfold nbr_publish.
  assert (forall g, created i src s0 None {| s with ad_grants := g; ad_nbrs := delete n (ad_nbrs s) |}) as Hfree.
  { intros g. split; cbn.
    - eapply ok_aux; [by eapply (ok_free n d s)|done..].
    - intros m Hm. rewrite lookup_delete_ne; [apply Hoth; congruence|congruence].
    - done.
    - rewrite <- Hn0. apply lookup_delete_eq. }
  apply wp_bind, wp_bind. eapply wp_admit_locked; [exact Hi|]. intros b _. apply wp_bind. destruct b.
  - apply wp_calloc_ok; [done|]. intros b g O1. destruct b.
    + unfold upd_intf, get_intf, upd_nbr, get_nbr, generation_next.
      apply wp_bind, wp_bind, wp_bind, wp_gets. cbn [ad_intfs]. rewrite Hi. apply wp_ret, wp_modify.
      apply wp_bind, wp_bind, wp_gets, wp_bind, wp_modify, wp_ret.
      apply wp_bind, wp_bind, wp_bind, wp_gets. cbn [ad_nbrs]. rewrite Hn. apply wp_ret, wp_modify.
      apply wp_ret, wp_ret. split.
      * eapply (ok_aux _ _ (ok_publish s n i ei d _ O Hi Hn He Hp Hq)); done.
      * cbn. intros m Hm. rewrite lookup_insert_ne; [apply Hoth; congruence|congruence].
      * done.
      * split; [done|]. cbn. rewrite lookup_insert_eq. eexists. split; [done|]. by split.
    + apply wp_ret, wp_bind. unfold nbr_free. apply wp_modify, wp_ret. apply Hfree.
  - apply wp_ret, wp_ret, wp_bind. unfold nbr_free. apply wp_modify, wp_ret.
    specialize (Hfree (ad_grants s)). by destruct s.
Qed.

Lemma ok_create i src s ei :
  adj_ok s -> ad_intfs s !! i = Some ei -> wp (eigrp_nbr_create i src) (created i src s) s.
Proof.
  intros O Hi. pose proof (next_nbr_free s O) as Hfresh.
  assert (forall s', adj_ok s' -> ad_nbrs s' = ad_nbrs s -> config_part s' = config_part s -> created i src s None s') as Hnone.
  { intros s' O' En Ec. split; [done|by rewrite En|done|by rewrite En]. }
  unfold eigrp_nbr_create. case_match; [apply wp_ret; by apply Hnone|].
  apply wp_bind. eapply wp_admit_locked; [exact Hi|]. intros b _. destruct b; [|apply wp_ret; by apply Hnone].
  cbn [negb]. apply wp_bind, wp_calloc_ok; [done|]. intros b g O1. destruct b; [|apply wp_ret; by apply Hnone].
  cbn [negb]. set (n := ad_next_nbr s). unfold nbr_alloc. apply wp_bind, wp_bind, wp_gets, wp_bind, wp_modify, wp_ret.
  cbn [ad_next_nbr]. fold n.
  pose proof (ok_alloc _ i src ei O1 Hi) as O2. cbn in O2. fold n in O2.
  set (s2 := {| ad_nbrs := <[n := eigrp_nbr_init i src]> (ad_nbrs s) |}) in O2.
  assert (ad_nbrs s2 !! n = Some (eigrp_nbr_init i src)) as H2 by apply lookup_insert_eq.
  apply wp_bind. eapply wp_mono.
  { eapply (wp_ok_op n _ s2 _ (fun _ s' => ad_nbrs s' !! n
      = Some (let d := eigrp_nbr_init i src in {| d with nb_prefix_count_valid := true |})
      /\ ad_timers s' = ad_timers s2)); [exact O2|exact H2|apply touch_upd_nbr| |].
    - unfold upd_nbr, get_nbr. apply wp_bind, wp_bind, wp_gets. rewrite H2. apply wp_ret, wp_modify.
      cbn [ad_nbrs]. rewrite lookup_insert_eq. done.
    - intros [] s' [Hs' _]. eexists. split; [exact Hs'|]. split; [done|done|done|done|by intros [?|?]|done]. }
  intros [] s3 (O3 & T3 & H3 & Et3). apply wp_bind. unfold eigrp_nbr_state_update.
  eapply wp_mono; [eapply ok_state_update; [exact O3|exact H3|by left]|].
  intros [] s4 (O4 & T4 & d4 & H4 & Hi4 & Hc4 & Hp4 & Hs4 & Ha4). specialize (Ha4 eq_refl).
  assert (nb_state d4 = EIGRP_NEIGHBOR_DOWN) as Hdown.
  { rewrite Hs4. unfold blocked. change (EIGRP_NEIGHBOR_DOWN =? EIGRP_NEIGHBOR_DOWN) with true. by rewrite andb_false_r. }
  assert (forall m, m <> n -> ad_nbrs s4 !! m = ad_nbrs s !! m) as Hoth.
  { intros m Hm. rewrite (th_nbrs _ _ _ T4), (th_nbrs _ _ _ T3) by done. cbn. by rewrite lookup_insert_ne. }
  assert (config_part s4 = config_part s) as Hcfg.
  { by rewrite (touch_config _ _ _ T4), (touch_config _ _ _ T3). }
  assert (forall k, slot_nbr k = Some n -> armed (ad_timers s4) k = None) as Hslots.
  { intros k Hk. rewrite Ha4. unfold without. case_decide; [done|]. rewrite Et3. by apply (fresh_slots s n k). }
  assert (~ penalized d4) as Hpen.
  { intros P. apply (penalized_identity _ _ Hi4 Hc4) in P. destruct P as [P|[P|P]]; by cbn in P. }
  pose proof Hi4 as [= E1 E2 E3 E4 E5 E6 E7 E8 E9].
  apply wp_bind. apply (wp_adj_nbr _ _ _ _ (ok_at _ _ _ O4 H4)).
  destruct (nb_retrans_queue d4) eqn:Eq.
  - destruct (ao_listed _ O4 _ _ H4) as (ei4 & Hi4' & _). rewrite E1 in Hi4'.
    by eapply ok_nbr_publish.
  - apply wp_bind. unfold nbr_free. apply wp_modify, wp_ret. split; cbn.
    + by eapply ok_free.
    + intros m Hm. rewrite lookup_delete_ne; [by apply Hoth|done].
    + done.
    + apply lookup_delete_eq.
Qed.
