(* ===== verification/Limits.v ===== *)
(** * Prefix limits

    The three limits on the number of prefixes and their penalties: of the topology
    of an address family (eigrp_pfxlimits.c, eigrp_topology.c), of one neighbor
    (eigrp_neighbor.c) and of redistribution (eigrp_redistribute.c).  A violation
    suspends its subject for a time that grows with the recent violations, and locks
    it when they reach a count; the restart timer releases a suspension, the reset
    timer forgets the history. *)

From Stdlib Require Import ZArith Lia.
From stdpp Require Import base gmap list.
From S2P Require Import Prelude Types Metric Rtt Timers Neighbor.

Definition MINUTE_MSEC : Z := 60000.
Definition Q16 : Z := 65536.

(** ** Penalty decay *)

Definition decay_factor : list Z := [46341; 55109; 60097; 62758; 64132; 64830; 65182; 65359].

(** The loop over the eight bits of [fraction], the highest first. *)
Fixpoint decay_loop (factors : list Z) (bit fraction score : Z) : Z :=
  match factors with
  | [] => score
  | factor :: factors' =>
      decay_loop factors' (bit .>> 1) fraction
        (if negb (fraction .& bit =? 0) then u32 (u64 (score * factor) .>> 16) else score)
  end.

Definition eigrp_pfxlimits_penalty_decay (score elapsed half_life : Z) : Z :=
  if (score =? 0) || (elapsed =? 0) || (half_life =? 0) then score
  else if 32 <=? elapsed / half_life then 0
  else
    let score := score .>> (elapsed / half_life) in
    let fraction := u32 (u64 ((elapsed mod half_life) * 256) / half_life) in
    decay_loop decay_factor 128 fraction score.

(** The same text in eigrp_neighbor.c and in eigrp_redistribute.c. *)
Definition eigrp_nbr_limit_decay (score elapsed half_life : Z) : Z :=
  eigrp_pfxlimits_penalty_decay score elapsed half_life.
Definition eigrp_redist_limit_decay (score elapsed half_life : Z) : Z :=
  eigrp_pfxlimits_penalty_decay score elapsed half_life.

(** One violation of a dampened limit: decay, then one more unit, saturating. *)
Definition penalize (decay : Z -> Z -> Z -> Z) (is_dampened : bool) (now half_life : Z) (p : penalty) : penalty :=
  if is_dampened then
    let score := if negb (decay_msec p =? 0) && (decay_msec p <? now)
                 then decay (penalty_q16 p) (u64 (now - decay_msec p)) half_life else penalty_q16 p in
    {| p with penalty_q16 := if UINT32_MAX - Q16 <? score then UINT32_MAX else u32 (score + Q16);
              decay_msec := now |}
  else {| p with penalty_q16 := 0; decay_msec := 0 |}.

Definition count_incident (p : penalty) : penalty :=
  {| p with restart_cnt := if restart_cnt p <? UINT16_MAX then restart_cnt p + 1 else restart_cnt p |}.

Definition forget (p : penalty) : penalty :=
  {| p with restart_cnt := 0; penalty_q16 := 0; decay_msec := 0 |}.

(** The delay of a timer for a deadline: the queue takes 32-bit milliseconds. *)
Definition deadline_delay (now deadline : Z) : Z :=
  let delta := if now <? deadline then deadline - now else 1 in
  if UINT32_MAX <? delta then UINT32_MAX else delta.

Definition or_default (value default : Z) : Z := if value =? 0 then default else value.

(** ** The limit of a neighbor *)

Definition eigrp_nbr_limit_timer_arm (k : slot) (c : callback) (deadline : Z) : Ad unit :=
  now ← monotime;
  arm_timer k c (deadline_delay now deadline).

Definition eigrp_nbr_limit_state_update (n : ptr) (state : eigrp_nbr_limit_state) : Ad bool :=
  if bool_decide (state = EIGRP_NBR_LIMIT_NONE) then mret false
  else
    nbr ← get_nbr n;
    if negb (nb_published nbr)
       || (bool_decide (nb_limit_state nbr = EIGRP_NBR_LIMIT_LOCKED)
           && bool_decide (state = EIGRP_NBR_LIMIT_SUSPENDED))
    then mret false
    else
      let first := bool_decide (nb_limit_state nbr = EIGRP_NBR_LIMIT_NONE) in
      upd_nbr n (fun d => {| d with nb_limit_state := state |});;
      when first (g ← generation_next; upd_nbr n (fun d => {| d with nb_generation := g |}));;
      when first (eigrp_nbr_down n);;
      when (bool_decide (state = EIGRP_NBR_LIMIT_LOCKED)) (eigrp_nbr_limit_timers_cancel n);;
      mret true.

Definition eigrp_nbr_limit_release (n : ptr) : Ad unit :=
  nbr ← get_nbr n;
  when (nb_published nbr && bool_decide (nb_limit_state nbr = EIGRP_NBR_LIMIT_SUSPENDED))
    (upd_nbr n (fun d => {| d with nb_limit_state := EIGRP_NBR_LIMIT_NONE |});;
     g ← generation_next;
     upd_nbr n (fun d => {| d with nb_generation := g |})).

(** The value of the limit, else of neighbor-all, else of the process, else the default. *)
Definition inherited (field : eigrp_prefix_limit -> Z) (all process : option eigrp_prefix_limit) (default : Z) : Z :=
  let value (o : option eigrp_prefix_limit) := match o with Some l => field l | None => 0 end in
  or_default (value all) (or_default (value process) default).

Definition eigrp_nbr_limit_values_read (config : option limit_config) (limit : eigrp_prefix_limit) : eigrp_prefix_limit :=
  let all := config ≫= lc_neighbor_all in
  let process := config ≫= lc_topology in
  {| limit with
     restart_minutes := or_default (restart_minutes limit) (inherited restart_minutes all process 5);
     reset_time_minutes := or_default (reset_time_minutes limit) (inherited reset_time_minutes all process 15);
     restart_count := or_default (restart_count limit) (inherited restart_count all process 3);
     dampened := dampened limit || match all with Some l => dampened l | None => false end
                 || match process with Some l => dampened l | None => false end |}.

Definition upd_penalty (n : ptr) (f : penalty -> penalty) : Ad unit :=
  upd_nbr n (fun d => {| d with nb_penalty := f (nb_penalty d) |}).

Definition eigrp_nbr_limit_exceeded (n : ptr) (limit : eigrp_prefix_limit) : Ad bool :=
  nbr ← get_nbr n;
  if (maximum limit =? 0) || warning_only limit || negb (nb_published nbr)
     || negb (bool_decide (nb_limit_state nbr = EIGRP_NBR_LIMIT_NONE))
  then mret false
  else
    config ← gets ad_config;
    let effective := eigrp_nbr_limit_values_read config limit in
    now ← monotime;
    let base := u64 (restart_minutes effective * MINUTE_MSEC) in
    let half_life := u64 (base + base / 2) in
    upd_penalty n (penalize eigrp_nbr_limit_decay (dampened effective) now half_life);;
    upd_penalty n count_incident;;
    nbr ← get_nbr n;
    if restart_count effective <=? restart_cnt (nb_penalty nbr) then
      eigrp_nbr_limit_timers_cancel n;;
      eigrp_nbr_limit_state_update n EIGRP_NBR_LIMIT_LOCKED
    else
      let restart := if dampened effective then u64 (base * penalty_q16 (nb_penalty nbr)) / Q16 else base in
      if (UINT64_MAX - now <? restart) || (base =? 0) then mret false
      else
        suspended ← eigrp_nbr_limit_state_update n EIGRP_NBR_LIMIT_SUSPENDED;
        if negb suspended then mret false
        else
          let restart_due := u64 (now + restart) in
          let reset_due := u64 (now + u64 (reset_time_minutes effective * MINUTE_MSEC)) in
          upd_penalty n (fun p => {| p with restart_due_msec := restart_due; reset_due_msec := reset_due |});;
          eigrp_nbr_limit_timer_arm (t_limit_restart n) (eigrp_nbr_limit_restart_expired_cb n) restart_due;;
          eigrp_nbr_limit_timer_arm (t_limit_reset n) (eigrp_nbr_limit_reset_expired_cb n) reset_due;;
          timers ← gets ad_timers;
          if bool_decide (owners timers !! t_limit_restart n = None)
             || bool_decide (owners timers !! t_limit_reset n = None)
          then
            eigrp_nbr_limit_timers_cancel n;;
            _ ← eigrp_nbr_limit_state_update n EIGRP_NBR_LIMIT_LOCKED;
            mret false
          else mret true.

Definition eigrp_nbr_limit_restart_expired (n : ptr) : Ad unit :=
  nbr ← get_nbr n;
  if negb (bool_decide (nb_limit_state nbr = EIGRP_NBR_LIMIT_SUSPENDED))
     || (restart_due_msec (nb_penalty nbr) =? 0)
  then mret tt
  else
    now ← monotime;
    if now <? restart_due_msec (nb_penalty nbr) then
      eigrp_nbr_limit_timer_arm (t_limit_restart n) (eigrp_nbr_limit_restart_expired_cb n)
        (restart_due_msec (nb_penalty nbr))
    else
      upd_penalty n (fun p => {| p with restart_due_msec := 0 |});;
      eigrp_nbr_limit_release n.

Definition eigrp_nbr_limit_reset_expired (n : ptr) : Ad unit :=
  nbr ← get_nbr n;
  if reset_due_msec (nb_penalty nbr) =? 0 then mret tt
  else
    now ← monotime;
    if now <? reset_due_msec (nb_penalty nbr) then
      eigrp_nbr_limit_timer_arm (t_limit_reset n) (eigrp_nbr_limit_reset_expired_cb n)
        (reset_due_msec (nb_penalty nbr))
    else
      upd_penalty n (fun p => {| p with reset_due_msec := 0 |});;
      when (negb (bool_decide (nb_limit_state nbr = EIGRP_NBR_LIMIT_LOCKED))) (upd_penalty n forget).

(** The violation is recorded while the packet is walked; the work follows in
    [eigrp_nbr_limit_cleanup]. *)
Definition eigrp_nbr_limit_mark_down (n : ptr) (limit : eigrp_prefix_limit) : Ad bool :=
  nbr ← get_nbr n;
  eligible ← eigrp_nbr_is_eligible n;
  if warning_only limit || negb (nb_published nbr) || negb eligible then mret false
  else
    upd_nbr n (fun d => {| d with nb_cleanup_pending := true; nb_prev_state := nb_state d;
                                 nb_pending_cfg := limit; nb_state := EIGRP_NEIGHBOR_DOWN |});;
    mret true.

Definition eigrp_nbr_limit_cleanup (n : ptr) : Ad unit :=
  nbr ← get_nbr n;
  if negb (nb_cleanup_pending nbr) then mret tt
  else
    ok ← eigrp_nbr_limit_exceeded n (nb_pending_cfg nbr);
    when (negb ok)
      (nbr ← get_nbr n;
       when (nb_cleanup_pending nbr) (eigrp_nbr_down n);;
       _ ← eigrp_nbr_limit_state_update n EIGRP_NBR_LIMIT_LOCKED;
       mret tt).

(** ** The limit of the topology *)

Definition eigrp_pfxlimits_timers_cancel : Ad unit :=
  cancel_timer t_pfxlimits_af_restart;;
  cancel_timer t_pfxlimits_af_reset;;
  modify (fun s => let p := ad_af_penalty s in
    {| s with ad_af_penalty := {| p with restart_due_msec := 0; reset_due_msec := 0 |} |}).

Definition eigrp_pfxlimits_timer_arm (k : slot) (c : callback) (due : Z) : Ad unit :=
  now ← monotime;
  arm_timer k c (deadline_delay now due).

(** Neighbors that an address-family suspension takes down, counted before any of
    them changes. *)
Definition suspension_capacity (s : adj) : nat :=
  length (List.filter (fun n => match ad_nbrs s !! n with
                                | Some d => nb_published d && bool_decide (nb_limit_state d = EIGRP_NBR_LIMIT_NONE)
                                | None => false
                                end) (ad_intfs s ≫= ai_nbrs)).

Definition nbr_new_generation (n : ptr) (f : nbr -> nbr) : Ad unit :=
  upd_nbr n f;;
  g ← generation_next;
  upd_nbr n (fun d => {| d with nb_generation := g |}).

Definition pfxlimits_nbr_step (release batched : bool) (n : ptr) : Ad unit :=
  nbr ← get_nbr n;
  if negb (nb_published nbr) then mret tt
  else if release then
    when (nb_af_suspended nbr) (nbr_new_generation n (fun d => {| d with nb_af_suspended := false |}))
  else if nb_af_suspended nbr then mret tt
  else
    nbr_new_generation n (fun d => {| d with nb_af_suspended := true |});;
    when (bool_decide (nb_limit_state nbr = EIGRP_NBR_LIMIT_NONE))
      (if batched then eigrp_nbr_down_deferred n else eigrp_nbr_down n).

Definition eigrp_pfxlimits_nbr_update (release : bool) : Ad unit :=
  s ← get;
  let capacity := if release then O else suspension_capacity s in
  batched ← (if Nat.eqb capacity 0 then mret false else a_calloc);
  mfor (ad_intfs s) (fun intf => mfor (ai_nbrs intf) (pfxlimits_nbr_step release batched));;
  when batched (record_call (eigrp_topology_suspended_neighbors_down capacity)).

Definition eigrp_pfxlimits_state_cleanup : Ad unit :=
  s ← get;
  if negb (ad_af_cleanup_pending s) then mret tt
  else
    modify (fun s => {| s with ad_af_cleanup_pending := false |});;
    mfor (zip (seq 0 (length (ad_intfs s))) (ad_intfs s)) (fun '(i, intf) =>
      when (ai_operative intf && negb (ai_passive intf)) (record_call (eigrp_hello_send i None true)));;
    eigrp_pfxlimits_nbr_update false;;
    record_call eigrp_redist_routes_withdraw.

Definition af_replay : Ad unit :=
  s ← get; when (ad_redist_state s =? 0) (record_call eigrp_redist_routes_replay).

Definition eigrp_pfxlimits_state_release (reset : bool) : Ad unit :=
  eigrp_pfxlimits_timers_cancel;;
  modify (fun s => {| s with ad_af_state := 0; ad_af_cleanup_pending := false |});;
  when reset (modify (fun s => {| s with ad_af_penalty := forget (ad_af_penalty s) |}));;
  eigrp_pfxlimits_nbr_update true;;
  af_replay.

Definition eigrp_pfxlimits_restart_expired : Ad unit :=
  s ← get;
  let due := restart_due_msec (ad_af_penalty s) in
  if negb (ad_af_state s =? 1) || (due =? 0) then mret tt
  else
    now ← monotime;
    if now <? due then eigrp_pfxlimits_timer_arm t_pfxlimits_af_restart eigrp_pfxlimits_restart_expired_cb due
    else
      modify (fun s => let p := ad_af_penalty s in
        {| s with ad_af_penalty := {| p with restart_due_msec := 0 |}; ad_af_state := 0 |});;
      eigrp_pfxlimits_nbr_update true;;
      af_replay.

Definition eigrp_pfxlimits_reset_expired : Ad unit :=
  s ← get;
  let due := reset_due_msec (ad_af_penalty s) in
  if due =? 0 then mret tt
  else
    now ← monotime;
    if now <? due then eigrp_pfxlimits_timer_arm t_pfxlimits_af_reset eigrp_pfxlimits_reset_expired_cb due
    else
      modify (fun s => let p := ad_af_penalty s in
        {| s with ad_af_penalty := {| p with reset_due_msec := 0 |} |});;
      when (negb (ad_af_state s =? 2)) (modify (fun s => {| s with ad_af_penalty := forget (ad_af_penalty s) |})).

Definition eigrp_pfxlimits_prefix_exceeded (limit : eigrp_prefix_limit) : Ad unit :=
  s ← get;
  if warning_only limit || negb (ad_af_state s =? 0) then mret tt
  else
    let restart := or_default (restart_minutes limit) 5 in
    let reset := or_default (reset_time_minutes limit) 15 in
    let count := or_default (restart_count limit) 3 in
    now ← monotime;
    let base := u64 (restart * MINUTE_MSEC) in
    let half_life := u64 (base + base / 2) in
    modify (fun s => {| s with ad_af_penalty :=
      count_incident (penalize eigrp_pfxlimits_penalty_decay (dampened limit) now half_life (ad_af_penalty s)) |});;
    modify (fun s => {| s with ad_af_state := if count <=? restart_cnt (ad_af_penalty s) then 2 else 1 |});;
    eigrp_pfxlimits_timers_cancel;;
    modify (fun s => {| s with ad_af_cleanup_pending := true |});;
    s ← get;
    when (negb (ad_af_pkt_active s)) eigrp_pfxlimits_state_cleanup;;
    s ← get;
    if ad_af_state s =? 2 then mret tt
    else
      let score := penalty_q16 (ad_af_penalty s) in
      let interval :=
        if dampened limit then
          if negb (score =? 0) && (UINT64_MAX / score <? base) then UINT64_MAX else u64 (base * score) / Q16
        else base in
      if (UINT64_MAX - now <? interval) || (UINT64_MAX - now <? u64 (reset * MINUTE_MSEC))
      then modify (fun s => {| s with ad_af_state := 2 |})
      else
        let restart_due := u64 (now + interval) in
        let reset_due := u64 (now + u64 (reset * MINUTE_MSEC)) in
        modify (fun s => let p := ad_af_penalty s in
          {| s with ad_af_penalty := {| p with restart_due_msec := restart_due; reset_due_msec := reset_due |} |});;
        eigrp_pfxlimits_timer_arm t_pfxlimits_af_restart eigrp_pfxlimits_restart_expired_cb restart_due;;
        eigrp_pfxlimits_timer_arm t_pfxlimits_af_reset eigrp_pfxlimits_reset_expired_cb reset_due;;
        timers ← gets ad_timers;
        when (bool_decide (owners timers !! t_pfxlimits_af_restart = None)
              || bool_decide (owners timers !! t_pfxlimits_af_reset = None))
          (eigrp_pfxlimits_timers_cancel;; modify (fun s => {| s with ad_af_state := 2 |})).

(** [foreign]: the caller is not the thread of the address family; [false] is
    [EIGRP_RESULT_CONFLICT]. *)
Definition eigrp_pfxlimits_state_clear (foreign : bool) : Ad bool :=
  if foreign then mret false
  else
    s ← get;
    (if negb (ad_af_state s =? 0) then eigrp_pfxlimits_state_release true
     else
       eigrp_pfxlimits_timers_cancel;;
       modify (fun s => {| s with ad_af_penalty := forget (ad_af_penalty s) |}));;
    mret true.

(** ** The limit of redistribution *)

Definition eigrp_redist_limit_timers_cancel : Ad unit :=
  cancel_timer t_redist_limit_restart;;
  cancel_timer t_redist_limit_reset;;
  modify (fun s => let p := ad_redist_penalty s in
    {| s with ad_redist_penalty := {| p with restart_due_msec := 0; reset_due_msec := 0 |} |}).

Definition eigrp_redist_limit_timer_arm (k : slot) (c : callback) (deadline : Z) : Ad unit :=
  now ← monotime;
  arm_timer k c (deadline_delay now deadline).

Definition eigrp_redist_limit_release (reset_history : bool) : Ad unit :=
  eigrp_redist_limit_timers_cancel;;
  modify (fun s => {| s with ad_redist_state := 0 |});;
  when reset_history (modify (fun s => {| s with ad_redist_penalty := forget (ad_redist_penalty s) |}));;
  record_call eigrp_redist_routes_replay.

Definition eigrp_redist_limit_restart_expired : Ad unit :=
  s ← get;
  let due := restart_due_msec (ad_redist_penalty s) in
  if negb (ad_redist_state s =? 1) || (due =? 0) then mret tt
  else
    now ← monotime;
    if now <? due
    then eigrp_redist_limit_timer_arm t_redist_limit_restart eigrp_redist_limit_restart_expired_cb due
    else
      modify (fun s => let p := ad_redist_penalty s in
        {| s with ad_redist_penalty := {| p with restart_due_msec := 0 |}; ad_redist_state := 0 |});;
      record_call eigrp_redist_routes_replay.

Definition eigrp_redist_limit_reset_expired : Ad unit :=
  s ← get;
  let due := reset_due_msec (ad_redist_penalty s) in
  if due =? 0 then mret tt
  else
    now ← monotime;
    if now <? due
    then eigrp_redist_limit_timer_arm t_redist_limit_reset eigrp_redist_limit_reset_expired_cb due
    else
      modify (fun s => let p := ad_redist_penalty s in
        {| s with ad_redist_penalty := {| p with reset_due_msec := 0 |} |});;
      when (negb (ad_redist_state s =? 2))
        (modify (fun s => {| s with ad_redist_penalty := forget (ad_redist_penalty s) |})).

Definition eigrp_redist_limit_exceeded (limit : eigrp_prefix_limit) : Ad unit :=
  s ← get;
  if negb (ad_redist_state s =? 0) then mret tt
  else
    let process := ad_config s ≫= lc_topology in
    let inherit (field : eigrp_prefix_limit -> Z) (default : Z) := inherited field None process default in
    let restart := or_default (restart_minutes limit) (inherit restart_minutes 5) in
    let reset := or_default (reset_time_minutes limit) (inherit reset_time_minutes 15) in
    let count := or_default (restart_count limit) (inherit restart_count 3) in
    let is_dampened := dampened limit || match process with Some l => dampened l | None => false end in
    now ← monotime;
    let base := u64 (restart * MINUTE_MSEC) in
    let half_life := u64 (base + base / 2) in
    modify (fun s => {| s with ad_redist_penalty :=
      count_incident (penalize eigrp_redist_limit_decay is_dampened now half_life (ad_redist_penalty s)) |});;
    modify (fun s => {| s with ad_redist_state := if count <=? restart_cnt (ad_redist_penalty s) then 2 else 1 |});;
    eigrp_redist_limit_timers_cancel;;
    record_call eigrp_redist_routes_withdraw;;
    s ← get;
    if ad_redist_state s =? 2 then mret tt
    else
      let interval := if is_dampened then u64 (base * penalty_q16 (ad_redist_penalty s)) / Q16 else base in
      let restart_due := u64 (now + interval) in
      let reset_due := u64 (now + u64 (reset * MINUTE_MSEC)) in
      modify (fun s => let p := ad_redist_penalty s in
        {| s with ad_redist_penalty := {| p with restart_due_msec := restart_due; reset_due_msec := reset_due |} |});;
      eigrp_redist_limit_timer_arm t_redist_limit_restart eigrp_redist_limit_restart_expired_cb restart_due;;
      eigrp_redist_limit_timer_arm t_redist_limit_reset eigrp_redist_limit_reset_expired_cb reset_due;;
      timers ← gets ad_timers;
      when (bool_decide (owners timers !! t_redist_limit_restart = None)
            || bool_decide (owners timers !! t_redist_limit_reset = None))
        (eigrp_redist_limit_timers_cancel;; modify (fun s => {| s with ad_redist_state := 2 |})).

Definition eigrp_redist_limit_clear (foreign : bool) : Ad bool :=
  if foreign then mret false
  else
    s ← get;
    (if negb (ad_redist_state s =? 0) then eigrp_redist_limit_release true
     else
       eigrp_redist_limit_timers_cancel;;
       modify (fun s => {| s with ad_redist_penalty := forget (ad_redist_penalty s) |}));;
    mret true.

(** ** Admission *)

Definition eigrp_prefix_limit_threshold_crossed (limit : eigrp_prefix_limit) (current : Z) : bool :=
  if maximum limit <=? current then false
  else
    let percent := if threshold limit =? 0 then 75 else threshold limit in
    let before := u64 (current * 100) in
    let after := u64 (u32 (current + 1) * 100) in
    let boundary := u64 (maximum limit * percent) in
    (before <? boundary) && (boundary <=? after).

(** [known]: the prefix is in the topology table; [count]: the size of the table. *)
Definition eigrp_topology_prefix_admit (known : bool) (count : Z) : Ad bool :=
  s ← get;
  if negb (ad_af_state s =? 0) then mret false
  else if known then mret true
  else
    match ad_config s ≫= lc_topology with
    | None => mret true
    | Some limit =>
        if negb (warning_only limit) && (maximum limit <=? count)
        then eigrp_pfxlimits_prefix_exceeded limit;; mret false
        else mret true
    end.

(** The neighbor's source as a configuration address. *)
Definition eigrp_nbr_runtime_address (nbr : nbr) : eigrp_address :=
  if addr_afi (nb_src nbr) =? AF_INET6
  then {| afi := EIGRP_AFI_IPV6; bytes := take 16 (addr_ip (nb_src nbr)) |}
  else {| afi := EIGRP_AFI_IPV4; bytes := take 4 (addr_ip (nb_src nbr)) ++ replicate 12 0 |}.

Definition eigrp_nbr_address_match (a b : eigrp_address) : bool :=
  if negb (afi a =? afi b) then false
  else let len := if afi a =? EIGRP_AFI_IPV4 then 4%nat else 16%nat in
       bool_decide (take len (bytes a) = take len (bytes b)).

Definition eigrp_nbr_policy_entry_lookup (config : limit_config) (address : eigrp_address)
  : option (eigrp_address * option eigrp_prefix_limit) :=
  List.find (fun '(a, _) => eigrp_nbr_address_match a address) (lc_neighbors config).

Definition eigrp_nbr_limit_lookup (config : option limit_config) (address : eigrp_address) : option eigrp_prefix_limit :=
  c ← config;
  match eigrp_nbr_policy_entry_lookup c address with
  | Some (_, Some limit) => Some limit
  | _ => lc_neighbor_all c
  end.

(** [present]: the topology holds a path of the neighbor to the prefix. *)
Definition eigrp_nbr_prefix_admit (n : ptr) (present : bool) : Ad bool :=
  eligible ← eigrp_nbr_is_eligible n;
  if negb eligible then mret false
  else if present then mret true
  else
    nbr ← get_nbr n;
    config ← gets ad_config;
    match eigrp_nbr_limit_lookup config (eigrp_nbr_runtime_address nbr) with
    | None => mret true
    | Some limit =>
        if negb (warning_only limit) && (maximum limit <=? nb_prefix_count nbr)
        then _ ← eigrp_nbr_limit_mark_down n limit; mret false
        else mret true
    end.

Definition eigrp_redist_prefix_admit (present : bool) (redist_prefix_count : Z) : Ad bool :=
  s ← get;
  if negb (ad_redist_state s =? 0) || negb (ad_af_state s =? 0) then mret false
  else
    match ad_config s ≫= lc_redistribute with
    | None => mret true
    | Some limit =>
        if present then mret true
        else if negb (warning_only limit) && (maximum limit <=? redist_prefix_count)
        then eigrp_redist_limit_exceeded limit;; mret false
        else mret true
    end.

(** ** The timers of the instance thread *)

Definition run_callback (c : callback) : Ad unit :=
  match c with
  | eigrp_nbr_holddown_expired_cb n => eigrp_nbr_holddown_expired n
  | eigrp_nbr_limit_restart_expired_cb n => eigrp_nbr_limit_restart_expired n
  | eigrp_nbr_limit_reset_expired_cb n => eigrp_nbr_limit_reset_expired n
  | eigrp_update_send_GR_cb n => _ ← get_nbr n; record_call (eigrp_update_send_GR_thread n)
  | eigrp_pfxlimits_restart_expired_cb => eigrp_pfxlimits_restart_expired
  | eigrp_pfxlimits_reset_expired_cb => eigrp_pfxlimits_reset_expired
  | eigrp_redist_limit_restart_expired_cb => eigrp_redist_limit_restart_expired
  | eigrp_redist_limit_reset_expired_cb => eigrp_redist_limit_reset_expired
  end.

(** One due event, if there is one. *)
Definition eigrp_instance_timer_service : Ad unit :=
  now ← monotime;
  s ← get;
  let '(event, timers) := eigrp_instance_timer_due_dequeue (ad_timers s) now in
  modify (fun s => {| s with ad_timers := timers |});;
  match event with
  | Some e => run_callback (te_callback e)
  | None => mret tt
  end.
