(* ===== verification/LimitsProps.v ===== *)
(** * Prefix limits: penalties and suspensions

    The penalty of repeated violations decays by halves and never wraps; a violation
    suspends or locks its subject; a suspension ends at its due time and a lock only by
    command.  All operations preserve the adjacency invariant. *)

From Stdlib Require Import ZArith Lia.
From stdpp Require Import base gmap list.
From S2P Require Import Prelude Types Metric Rtt Timers Neighbor NeighborProps Limits.

(** ** Penalty decay *)

Section decay.
Lemma decay_step s factor (b : bool) :
  0 <= s < 2 ^ 32 -> 0 < factor <= 65536 ->
  let s' := if b then u32 (u64 (s * factor) .>> 16) else s in
  0 <= s' <= s /\ factor * s - 65536 < 65536 * s'.
Proof.
  intros Hs Hf. cbv zeta. destruct b; [|nia].
  rewrite u64_small by nia. rewrite Z.shiftr_div_pow2 by lia. change (2 ^ 16) with 65536.
  pose proof (Z.div_mod (s * factor) 65536 ltac:(lia)). pose proof (Z.mod_pos_bound (s * factor) 65536 ltac:(lia)).
  assert (0 <= s * factor / 65536 <= s) by nia. rewrite u32_small by lia. nia.
Qed.

Definition product (factors : list Z) : Z := foldr Z.mul 1 factors.

Lemma product_bound factors :
  Forall (fun f => 0 < f <= 65536) factors -> 0 < product factors <= 65536 ^ Z.of_nat (length factors).
Proof.
  induction 1 as [|f l Hf _ IH]; [done|]. cbn [product foldr length]. fold (product l).
  rewrite Nat2Z.inj_succ, Z.pow_succ_r by lia. nia.
Qed.

Lemma decay_loop_bounds factors bit fraction s :
  0 <= s < 2 ^ 32 -> Forall (fun f => 0 < f <= 65536) factors ->
  let r := decay_loop factors bit fraction s in
  let D := 65536 ^ Z.of_nat (length factors) in
  0 <= r <= s /\ product factors * s - Z.of_nat (length factors) * D <= D * r.
Proof.
  intros Hs F. revert bit s Hs. induction F as [|f l Hf Fl IH]; intros bit s Hs; cbn [decay_loop]; cbv zeta.
  { cbn. lia. }
  pose proof (decay_step s f (negb (fraction .& bit =? 0)) Hs Hf) as Hstep. cbv zeta in Hstep.
  set (s1 := if negb (fraction .& bit =? 0) then u32 (u64 (s * f) .>> 16) else s) in *.
  destruct Hstep as [H1 H2]. specialize (IH (bit .>> 1) s1 ltac:(lia)). cbv zeta in IH.
  destruct IH as [IHb IHl]. pose proof (product_bound l Fl) as Hp.
  cbn [product foldr length]. fold (product l). rewrite Nat2Z.inj_succ, Z.pow_succ_r by lia.
  set (r := decay_loop l (bit .>> 1) fraction s1) in *. set (D := 65536 ^ Z.of_nat (length l)) in *.
  split; [lia|]. assert (product l * (f * s - 65536) <= product l * (65536 * s1)) by (apply Z.mul_le_mono_nonneg_l; lia).
  nia.
Qed.

(** The penalty after [elapsed]: at most what whole half-lives leave, and less than
    one more half-life below it, up to the roundings of the eight factors. *)
Lemma decay_bounds score elapsed half_life :
  0 <= score < 2 ^ 32 -> 0 <= elapsed -> 0 < half_life < 2 ^ 55 ->
  let r := eigrp_pfxlimits_penalty_decay score elapsed half_life in
  let whole := score / 2 ^ (elapsed / half_life) in
  0 <= r <= whole /\ whole <= 2 * r + 16.
Proof.
  intros Hs He Hh. unfold eigrp_pfxlimits_penalty_decay. cbv zeta.
  assert (0 <= elapsed / half_life) by (apply Z.div_pos; lia).
  destruct (Z.eqb_spec score 0) as [->|Hs0]; cbn [orb].
  { rewrite Z.div_0_l by (apply Z.pow_nonzero; lia). lia. }
  destruct (Z.eqb_spec elapsed 0) as [->|He0]; cbn [orb].
  { rewrite Z.div_0_l by lia. rewrite Z.pow_0_r, Z.div_1_r. lia. }
  destruct (Z.eqb_spec half_life 0) as [->|_]; [lia|]. cbn [orb].
  destruct (Z.leb_spec 32 (elapsed / half_life)) as [H32|H32].
  - rewrite Z.div_small; [lia|]. split; [lia|]. apply Z.lt_le_trans with (2 ^ 32); [lia|].
    apply Z.pow_le_mono_r; lia.
  - rewrite Z.shiftr_div_pow2 by lia. set (w := score / 2 ^ (elapsed / half_life)).
    assert (0 < 2 ^ (elapsed / half_life)) by (apply Z.pow_pos_nonneg; lia).
    assert (0 <= w < 2 ^ 32) as Hw.
    { unfold w. split; [apply Z.div_pos; lia|]. apply Z.le_lt_trans with score; [|lia]. apply Z.div_le_upper_bound; nia. }
    pose proof (decay_loop_bounds decay_factor 128
      (u32 (u64 (elapsed mod half_life * 256) / half_life)) w Hw) as Hd.
    assert (Forall (fun f => 0 < f <= 65536) decay_factor) as F by (unfold decay_factor; repeat constructor; lia).
    specialize (Hd F). cbv zeta in Hd. destruct Hd as [Hb Hl]. split; [done|].
    assert (65536 ^ Z.of_nat (length decay_factor) <= 2 * product decay_factor) as Hp by (by vm_compute).
    assert (0 < 65536 ^ Z.of_nat (length decay_factor)) as HD by done.
    change (Z.of_nat (length decay_factor)) with 8 in *. set (r := decay_loop _ _ _ _) in *.
    set (D := 65536 ^ 8) in *. set (P := product decay_factor) in *. clearbody P D r w. nia.
Qed.
End decay.

(** ** Frames *)

Section frames.
Context (n : ptr).

Lemma touch_limit_state_update state : keeps (touch n) (eigrp_nbr_limit_state_update n state).
Proof. unfold eigrp_nbr_limit_state_update. solve_keeps. Qed.
Hint Resolve touch_limit_state_update : keeps.
Lemma touch_limit_release : keeps (touch n) (eigrp_nbr_limit_release n).
Proof. unfold eigrp_nbr_limit_release. solve_keeps. Qed.
Hint Resolve touch_limit_release : keeps.
Lemma touch_upd_penalty f : keeps (touch n) (upd_penalty n f).
Proof. unfold upd_penalty. solve_keeps. Qed.
Hint Resolve touch_upd_penalty : keeps.
Lemma touch_limit_exceeded limit : keeps (touch n) (eigrp_nbr_limit_exceeded n limit).
Proof. unfold eigrp_nbr_limit_exceeded, eigrp_nbr_limit_timer_arm. solve_keeps. Qed.
Hint Resolve touch_limit_exceeded : keeps.
Lemma touch_restart_expired : keeps (touch n) (eigrp_nbr_limit_restart_expired n).
Proof. unfold eigrp_nbr_limit_restart_expired, eigrp_nbr_limit_timer_arm. solve_keeps. Qed.
Lemma touch_reset_expired : keeps (touch n) (eigrp_nbr_limit_reset_expired n).
Proof. unfold eigrp_nbr_limit_reset_expired, eigrp_nbr_limit_timer_arm. solve_keeps. Qed.
Lemma touch_mark_down limit : keeps (touch n) (eigrp_nbr_limit_mark_down n limit).
Proof. unfold eigrp_nbr_limit_mark_down. solve_keeps. Qed.
Lemma touch_limit_cleanup : keeps (touch n) (eigrp_nbr_limit_cleanup n).
Proof. unfold eigrp_nbr_limit_cleanup. solve_keeps. Qed.
End frames.
#[export] Hint Resolve touch_limit_state_update touch_limit_release touch_upd_penalty touch_limit_exceeded
  touch_restart_expired touch_reset_expired touch_mark_down touch_limit_cleanup : keeps.

(** ** The interval of a suspension *)

Definition counts_ok (p : penalty) : Prop :=
  0 <= restart_cnt p <= UINT16_MAX /\ 0 <= penalty_q16 p <= Q16 * restart_cnt p.

Definition suspension (is_dampened : bool) (base : Z) (p : penalty) : Z :=
  if is_dampened then u64 (base * penalty_q16 p) / Q16 else base.

(** A violation adds one unit to what the decay left; the interval is at least the
    configured time and at most that time for each violation counted. *)
Lemma violation_interval is_dampened minutes now p :
  0 < minutes <= UINT16_MAX -> counts_ok p -> restart_cnt p < UINT16_MAX ->
  let base := u64 (minutes * MINUTE_MSEC) in
  let p' := count_incident (penalize eigrp_pfxlimits_penalty_decay is_dampened now (u64 (base + base / 2)) p) in
  base = minutes * MINUTE_MSEC /\ counts_ok p' /\ restart_cnt p' = restart_cnt p + 1
  /\ base <= suspension is_dampened base p' <= base * restart_cnt p'.
Proof.
  unfold UINT16_MAX, MINUTE_MSEC. intros Hm [Hc Hp] Hlt. cbv zeta.
  assert (u64 (minutes * 60000) = minutes * 60000) as Hb by (apply u64_small; lia). rewrite Hb.
  set (base := minutes * 60000) in *.
  assert (0 <= base / 2 <= base) as Hhalf by (split; [apply Z.div_pos; lia|apply Z.div_le_upper_bound; lia]).
  assert (u64 (base + base / 2) = base + base / 2) as Hh by (apply u64_small; lia). rewrite Hh.
  unfold count_incident, penalize, suspension, counts_ok, UINT16_MAX, Q16 in *. destruct is_dampened; cbn [restart_cnt penalty_q16].
  - rewrite (proj2 (Z.ltb_lt _ _)) by lia.
    set (score := if _ && _ then _ else _).
    assert (0 <= score <= penalty_q16 p) as Hscore.
    { unfold score. case_match eqn:E; [|lia]. apply andb_true_iff in E as [_ E%Z.ltb_lt].
      destruct (decay_bounds (penalty_q16 p) (u64 (now - decay_msec p)) (base + base / 2)) as [Hr _];
        [lia|apply u64_range|lia|].
      split; [lia|]. etrans; [apply Hr|]. pose proof (u64_range (now - decay_msec p)).
      apply Z.div_le_upper_bound; [apply Z.pow_pos_nonneg; [lia|apply Z.div_pos; lia]|].
      assert (1 <= 2 ^ (u64 (now - decay_msec p) / (base + base / 2))) by (apply (Z.pow_le_mono_r 2 0); [lia|apply Z.div_pos; lia]). nia. }
    unfold UINT32_MAX. destruct (Z.ltb_spec (4294967295 - 65536) score) as [Hsat|Hsat]; [lia|].
    rewrite u32_small by lia. split; [done|]. split; [lia|]. split; [done|].
    rewrite u64_small by nia. split; [apply Z.div_le_lower_bound; nia|apply Z.div_le_upper_bound; nia].
  - rewrite (proj2 (Z.ltb_lt _ _)) by lia. split; [done|]. split; [lia|]. split; [done|]. nia.
Qed.

(** ** Limit state of a neighbor *)

(** The fields a limit operation keeps. *)
Definition persona (d : nbr) := (nb_ei d, nb_src d, nb_published d, nb_af_suspended d, nb_pending_cfg d, nb_prefix_count d).

Lemma identity_persona d d' : identity d' = identity d -> persona d' = persona d.
Proof. intros [= E1 E2 E3 E4 E5 E6 E7 E8 E9]. unfold persona. congruence. Qed.

Definition undue (p : penalty) : penalty := {| p with restart_due_msec := 0; reset_due_msec := 0 |}.

Record limited (n : ptr) (state : eigrp_nbr_limit_state) (d : nbr) (A : slot -> option (callback * Z))
    (d' : nbr) (A' : slot -> option (callback * Z)) : Prop := {
  lt_persona : persona d' = persona d;
  lt_state : nb_limit_state d' = state;
  lt_first : nb_limit_state d = EIGRP_NBR_LIMIT_NONE -> nb_state d' = EIGRP_NEIGHBOR_DOWN /\ nb_cleanup_pending d' = false;
  lt_again : nb_limit_state d <> EIGRP_NBR_LIMIT_NONE ->
               nb_state d' = nb_state d /\ nb_cleanup_pending d' = nb_cleanup_pending d;
  lt_queue : is_Some (nb_retrans_queue d) -> is_Some (nb_retrans_queue d');
  lt_hold : nb_limit_state d = EIGRP_NBR_LIMIT_NONE -> A' (t_holddown n) = None;
  lt_held : nb_limit_state d <> EIGRP_NBR_LIMIT_NONE -> A' (t_holddown n) = A (t_holddown n);
  lt_locked : state = EIGRP_NBR_LIMIT_LOCKED ->
                nb_penalty d' = undue (nb_penalty d) /\ A' (t_limit_restart n) = None /\ A' (t_limit_reset n) = None;
  lt_suspended : state = EIGRP_NBR_LIMIT_SUSPENDED ->
                   nb_penalty d' = nb_penalty d /\ A' (t_limit_restart n) = A (t_limit_restart n)
                   /\ A' (t_limit_reset n) = A (t_limit_reset n);
}.

Lemma wp_limit_state_update n d A s state :
  at_nbr n d A s -> state <> EIGRP_NBR_LIMIT_NONE -> nb_published d = true ->
  (nb_limit_state d = EIGRP_NBR_LIMIT_LOCKED -> state = EIGRP_NBR_LIMIT_LOCKED) ->
  wp (eigrp_nbr_limit_state_update n state)
    (fun b s' => b = true /\ exists d' A', at_nbr n d' A' s' /\ limited n state d A d' A') s.
Proof.
  intros H Hst Hp Hl. unfold eigrp_nbr_limit_state_update. rewrite bool_decide_false by done.
  step_nbr. step_nbr. rewrite Hp. cbn [negb orb].
  replace (bool_decide (nb_limit_state d = EIGRP_NBR_LIMIT_LOCKED) && bool_decide (state = EIGRP_NBR_LIMIT_SUSPENDED))
    with false; cycle 1.
  { symmetry. apply andb_false_iff. destruct (decide (nb_limit_state d = EIGRP_NBR_LIMIT_LOCKED)) as [E|E];
      [right; rewrite Hl by done; done|left; by apply bool_decide_false]. }
  cbv zeta. step_nbr. step_nbr. set (d1 := {| nb_ei := _ |}) in H.
  assert (forall d2 A2 s2, at_nbr n d2 A2 s2 -> persona d2 = persona d -> nb_limit_state d2 = state ->
    (nb_limit_state d = EIGRP_NBR_LIMIT_NONE -> nb_state d2 = EIGRP_NEIGHBOR_DOWN /\ nb_cleanup_pending d2 = false) ->
    (nb_limit_state d <> EIGRP_NBR_LIMIT_NONE ->
       nb_state d2 = nb_state d /\ nb_cleanup_pending d2 = nb_cleanup_pending d) ->
    (is_Some (nb_retrans_queue d) -> is_Some (nb_retrans_queue d2)) -> nb_penalty d2 = nb_penalty d ->
    A2 (t_limit_restart n) = A (t_limit_restart n) -> A2 (t_limit_reset n) = A (t_limit_reset n) ->
    A2 (t_holddown n) = (if decide (nb_limit_state d = EIGRP_NBR_LIMIT_NONE) then None else A (t_holddown n)) ->
    wp (when (bool_decide (state = EIGRP_NBR_LIMIT_LOCKED)) (eigrp_nbr_limit_timers_cancel n);; mret true)
      (fun b s' => b = true /\ exists d' A', at_nbr n d' A' s' /\ limited n state d A d' A') s2) as Hend.
  { clear s H d1. intros d2 A2 s2 H P L F G Q E Hr Hs Hh. apply wp_bind, wp_when.
    destruct (decide (state = EIGRP_NBR_LIMIT_LOCKED)) as [El|El].
    - rewrite bool_decide_true by done. eapply wp_mono; [by apply wp_limit_timers_cancel|].
      intros [] s3 (d3 & H3 & ->). step_nbr. split; [done|]. do 2 eexists. split; [exact H3|].
      split; try done.
      + intros En. unfold without. repeat case_decide; congruence.
      + intros En. unfold without. repeat case_decide; congruence.
      + intros _. cbn. rewrite E. split; [done|]. unfold without. split; repeat case_decide; congruence.
      + intros Es. congruence.
    - rewrite bool_decide_false by done. step_nbr. split; [done|]. exists d2, A2. split; [done|].
      split; try done; intros En; rewrite Hh; [by rewrite decide_True|by rewrite decide_False]. }
  destruct (decide (nb_limit_state d = EIGRP_NBR_LIMIT_NONE)) as [Ef|Ef].
  - rewrite (bool_decide_true (nb_limit_state d = EIGRP_NBR_LIMIT_NONE)) by done. cbn [when]. do 5 step_nbr. set (d2 := {| nb_ei := _ |}) in H.
    eapply wp_mono; [by apply wp_nbr_down|]. intros [] s3 (d3 & H3 & Hi & Hc & Hs & Hq).
    apply (Hend d3 _ s3 H3); try done.
    + rewrite (identity_persona _ _ Hi). done.
    + by pose proof (f_equal (fun i => i.1.1.1.1.2) Hi).
    + by pose proof (f_equal (fun i => i.1.1.2) Hi).
    + rewrite without_down. by repeat case_decide.
  - rewrite (bool_decide_false (nb_limit_state d = EIGRP_NBR_LIMIT_NONE)) by done. cbn [when]. do 4 step_nbr.
    apply (Hend d1 A); try done; by repeat case_decide.
Qed.

(** ** A violation by a neighbor *)

Lemma wp_upd_penalty n d A s f (Q : unit -> adj -> Prop) :
  at_nbr n d A s -> (forall s', at_nbr n {| d with nb_penalty := f (nb_penalty d) |} A s' -> Q tt s') ->
  wp (upd_penalty n f) Q s.
Proof. intros H HQ. unfold upd_penalty. by apply (wp_upd_nbr _ _ _ _ H). Qed.

Lemma wp_limit_timer_arm n d A s k c deadline (Q : unit -> adj -> Prop) :
  at_nbr n d A s ->
  (forall s' o, (o = None \/ exists t, o = Some (c, t)) ->
     at_nbr n d (fun k' => if decide (k = k') then o else A k') s' -> Q tt s') ->
  wp (eigrp_nbr_limit_timer_arm k c deadline) Q s.
Proof.
  intros H HQ. unfold eigrp_nbr_limit_timer_arm. step_nbr. step_nbr. eapply wp_arm; [exact H|]. intros s2 o. apply HQ.
Qed.

Lemma armed_owner s k : timers_wf (ad_timers s) -> owners (ad_timers s) !! k = None <-> armed (ad_timers s) k = None.
Proof.
  intros W. rewrite armed_none. split.
  - intros E e He <-. apply (tw_owner _ W) in He. congruence.
  - intros E. destruct (owners _ !! k) as [a|] eqn:Ek; [|done].
    destruct (tw_armed _ W _ _ Ek) as (e & He & Ho & _). by destruct (E e).
Qed.

(** What a hard limit makes of a violating neighbor: locked without timers, or
    suspended until [now + suspension] with both timers armed. *)
Inductive violation (n : ptr) (eff : eigrp_prefix_limit) (now : Z) (p0 : penalty) (d' : nbr)
    (A' : slot -> option (callback * Z)) : Prop :=
  | violation_locked :
      nb_limit_state d' = EIGRP_NBR_LIMIT_LOCKED -> A' (t_holddown n) = None ->
      A' (t_limit_restart n) = None -> A' (t_limit_reset n) = None -> violation n eff now p0 d' A'
  | violation_suspended base p :
      nb_limit_state d' = EIGRP_NBR_LIMIT_SUSPENDED -> A' (t_holddown n) = None ->
      base = u64 (restart_minutes eff * MINUTE_MSEC) ->
      p = count_incident (penalize eigrp_nbr_limit_decay (dampened eff) now (u64 (base + base / 2)) p0) ->
      restart_cnt p < restart_count eff ->
      nb_penalty d' = {| p with restart_due_msec := u64 (now + suspension (dampened eff) base p);
                                reset_due_msec := u64 (now + u64 (reset_time_minutes eff * MINUTE_MSEC)) |} ->
      is_Some (A' (t_limit_restart n)) -> is_Some (A' (t_limit_reset n)) -> violation n eff now p0 d' A'.

Lemma limited_down n state d A d' A' :
  limited n state d A d' A' -> nb_limit_state d = EIGRP_NBR_LIMIT_NONE ->
  nb_state d' = EIGRP_NEIGHBOR_DOWN /\ nb_cleanup_pending d' = false.
Proof. intros L. apply (lt_first _ _ _ _ _ _ L). Qed.

Definition hard (limit : eigrp_prefix_limit) : Prop := warning_only limit = false /\ maximum limit <> 0.

Lemma hard_dec limit : {hard limit} + {~ hard limit}.
Proof. unfold hard. destruct (warning_only limit), (Z.eq_dec (maximum limit) 0); [right; naive_solver..|by left]. Qed.

Lemma wp_limit_exceeded n d A s limit :
  at_nbr n d A s -> hard limit -> nb_published d = true -> nb_limit_state d = EIGRP_NBR_LIMIT_NONE ->
  let eff := eigrp_nbr_limit_values_read (ad_config s) limit in
  wp (eigrp_nbr_limit_exceeded n limit) (fun b s' => exists d' A', at_nbr n d' A' s' /\ persona d' = persona d
    /\ (is_Some (nb_retrans_queue d) -> is_Some (nb_retrans_queue d'))
    /\ ((exists now, violation n eff now (nb_penalty d) d' A' /\ nb_state d' = EIGRP_NEIGHBOR_DOWN /\ nb_cleanup_pending d' = false)
        \/ (b = false /\ nb_limit_state d' = EIGRP_NBR_LIMIT_NONE /\ nb_state d' = nb_state d
            /\ nb_cleanup_pending d' = nb_cleanup_pending d))) s.
Proof.
  intros H [Hw Hm] Hp Hl eff. unfold eigrp_nbr_limit_exceeded. step_nbr. step_nbr.
  rewrite Hw, Hp, bool_decide_true by done. rewrite (proj2 (Z.eqb_neq _ _)) by done. cbn [orb negb].
  step_nbr. step_nbr. fold eff. step_nbr. step_nbr. cbv zeta.
  set (base := u64 (restart_minutes eff * MINUTE_MSEC)).
  set (p := count_incident (penalize eigrp_nbr_limit_decay (dampened eff) now (u64 (base + base / 2)) (nb_penalty d))).
  step_nbr. eapply wp_upd_penalty; [exact H|]. clear s' H. intros s1 H. step_nbr.
  eapply wp_upd_penalty; [exact H|]. clear s1 H. intros s1 H. cbn [nb_penalty] in H. fold p in H.
  set (d1 := {| nb_ei := _ |}) in H. step_nbr. step_nbr. change (nb_penalty d1) with p.
  assert (persona d1 = persona d) as P1 by done.
  destruct (Z.leb_spec (restart_count eff) (restart_cnt p)) as [Hc|Hc].
  - step_nbr. eapply wp_mono; [by apply wp_limit_timers_cancel|]. intros [] s2 (d2 & H2 & E2). clear H.
    eapply wp_mono; [eapply (wp_limit_state_update n d2); [exact H2|done|by rewrite E2|by rewrite E2; cbn; congruence]|].
    intros b s3 (-> & d3 & A3 & H3 & L3). exists d3, A3. split; [done|].
    split; [by rewrite (lt_persona _ _ _ _ _ _ L3), E2|].
    split; [intros Hq; apply (lt_queue _ _ _ _ _ _ L3); by rewrite E2|]. left. exists now.
    destruct (limited_down _ _ _ _ _ _ L3) as [Hs Hcl]; [by rewrite E2|].
    destruct (lt_locked _ _ _ _ _ _ L3 eq_refl) as (_ & Hr & Hs').
    split; [|done]. apply violation_locked; [apply L3|by apply L3; rewrite E2|done|done].
  - fold (suspension (dampened eff) base p). case_match.
    { step_nbr. exists d1, A. split; [done|]. split; [done|]. split; [done|]. right. done. }
    step_nbr. eapply wp_mono; [eapply (wp_limit_state_update n d1); [exact H|done|done|by cbn; congruence]|].
    intros b s2 (-> & d2 & A2 & H2 & L2). clear H. cbn [negb].
    destruct (limited_down _ _ _ _ _ _ L2) as [Hs2 Hcl2]; [done|].
    destruct (lt_suspended _ _ _ _ _ _ L2 eq_refl) as (Hpen & _ & _). change (nb_penalty d1) with p in Hpen.
    step_nbr. eapply wp_upd_penalty; [exact H2|]. clear s2 H2. intros s2 H2. rewrite Hpen in H2.
    set (d3 := {| nb_ei := _ |}) in H2. step_nbr. eapply wp_limit_timer_arm; [exact H2|].
    clear s2 H2. intros s2 o1 Ho1 H2. step_nbr. eapply wp_limit_timer_arm; [exact H2|].
    clear s2 H2. intros s2 o2 Ho2 H2. step_nbr. step_nbr.
    assert (persona d3 = persona d) as P3 by (rewrite <- P1; apply L2).
    assert (is_Some (nb_retrans_queue d) -> is_Some (nb_retrans_queue d3)) as Q3 by (apply (lt_queue _ _ _ _ _ _ L2)).
    set (A3 := fun k' => _) in H2.
    assert (A3 (t_limit_restart n) = o1) as E1.
    { unfold A3. rewrite decide_False by done. by rewrite decide_True. }
    assert (A3 (t_limit_reset n) = o2) as E2 by (unfold A3; by rewrite decide_True).
    assert (A3 (t_holddown n) = None) as Eh.
    { unfold A3. rewrite !decide_False by done. by apply (lt_hold _ _ _ _ _ _ L2). }
    case_match eqn:Eo.
    + step_nbr. eapply wp_mono; [by apply wp_limit_timers_cancel|]. intros [] s3 (d4 & H4 & E4). clear H2.
      step_nbr. eapply wp_mono; [eapply (wp_limit_state_update n d4); [exact H4|done| |]|].
      * rewrite E4. cbn. pose proof (lt_persona _ _ _ _ _ _ L2) as [= _ _ E _ _ _]. congruence.
      * rewrite E4. cbn. pose proof (lt_state _ _ _ _ _ _ L2). congruence.
      * intros b s4 (-> & d5 & A5 & H5 & L5). step_nbr. exists d5, A5. split; [done|].
        split; [by rewrite (lt_persona _ _ _ _ _ _ L5), E4|].
        split; [intros Hq; apply (lt_queue _ _ _ _ _ _ L5); rewrite E4; by apply Q3|]. left. exists now.
        destruct (lt_locked _ _ _ _ _ _ L5 eq_refl) as (_ & Hr & Hs').
        destruct (lt_again _ _ _ _ _ _ L5) as [Hst Hcl].
        { rewrite E4. cbn. rewrite (lt_state _ _ _ _ _ _ L2). done. }
        rewrite E4 in Hst, Hcl. cbn in Hst, Hcl. split; [|split; congruence].
        apply violation_locked; [apply L5| |done|done]. rewrite (lt_held _ _ _ _ _ _ L5).
        { unfold without. by repeat case_decide. }
        rewrite E4. cbn. rewrite (lt_state _ _ _ _ _ _ L2). done.
    + step_nbr. exists d3, A3. split; [done|]. split; [done|]. split; [done|]. left. exists now.
      apply orb_false_iff in Eo as [Eo1%bool_decide_eq_false Eo2%bool_decide_eq_false].
      rewrite armed_owner, (an_armed _ _ _ _ H2), E1 in Eo1 by apply H2.
      rewrite armed_owner, (an_armed _ _ _ _ H2), E2 in Eo2 by apply H2.
      split; [|done]. eapply (violation_suspended _ _ _ _ _ _ base p); try done.
      * apply L2.
      * rewrite E1. by destruct o1.
      * rewrite E2. by destruct o2.
Qed.

Lemma violation_penalized n eff now p0 d' A' : violation n eff now p0 d' A' -> nb_limit_state d' <> EIGRP_NBR_LIMIT_NONE.
Proof. intros [-> _ _ _|base p -> _ _ _ _ _ _ _]; done. Qed.

Lemma violation_hold n eff now p0 d' A' : violation n eff now p0 d' A' -> A' (t_holddown n) = None.
Proof. by intros [_ H _ _|base p _ H _ _ _ _ _ _]. Qed.

Lemma violation_ext n eff now p0 d' A B :
  violation n eff now p0 d' A -> (forall k, A k = B k) -> violation n eff now p0 d' B.
Proof.
  intros [Hl Hh Hr Hs|base p Hl Hh Hb Hp Hc He Hr Hs] E; [apply violation_locked|eapply (violation_suspended _ _ _ _ _ _ base p)];
    rewrite <- ?E; done.
Qed.

Lemma wp_limit_cleanup n d A s :
  at_nbr n d A s -> nb_cleanup_pending d = true -> nb_published d = true -> nb_limit_state d = EIGRP_NBR_LIMIT_NONE ->
  let eff := eigrp_nbr_limit_values_read (ad_config s) (nb_pending_cfg d) in
  wp (eigrp_nbr_limit_cleanup n) (fun _ s' => exists d' A' now, at_nbr n d' A' s' /\ persona d' = persona d
    /\ (is_Some (nb_retrans_queue d) -> is_Some (nb_retrans_queue d'))
    /\ violation n eff now (nb_penalty d) d' A' /\ nb_state d' = EIGRP_NEIGHBOR_DOWN /\ nb_cleanup_pending d' = false) s.
Proof.
  intros H Hcl Hp Hl eff. unfold eigrp_nbr_limit_cleanup. step_nbr. step_nbr. rewrite Hcl. cbn [negb].
  assert (forall d1 A1 s1, at_nbr n d1 A1 s1 -> persona d1 = persona d -> nb_limit_state d1 = EIGRP_NBR_LIMIT_NONE ->
    (is_Some (nb_retrans_queue d) -> is_Some (nb_retrans_queue d1)) -> nb_cleanup_pending d1 = true ->
    wp (nbr ← get_nbr n; when (nb_cleanup_pending nbr) (eigrp_nbr_down n);;
        _ ← eigrp_nbr_limit_state_update n EIGRP_NBR_LIMIT_LOCKED; mret tt)
      (fun _ s' => exists d' A' now, at_nbr n d' A' s' /\ persona d' = persona d
    /\ (is_Some (nb_retrans_queue d) -> is_Some (nb_retrans_queue d'))
    /\ violation n eff now (nb_penalty d) d' A' /\ nb_state d' = EIGRP_NEIGHBOR_DOWN /\ nb_cleanup_pending d' = false) s1) as Hlock.
  { clear H. clearbody eff. intros d1 A1 s1 H1 P1 L1 Q1 C1. step_nbr. step_nbr. rewrite C1. cbn [when]. step_nbr.
    eapply wp_mono; [by apply wp_nbr_down|]. intros [] s2 (d2 & H2 & Hi & Hc & Hs & Hq). clear H1.
    pose proof Hi as [= E1 E2 E3 E4 E5 E6 E7 E8 E9]. pose proof P1 as [= F1 F2 F3 F4 F5 F6].
    step_nbr. eapply wp_mono; [eapply (wp_limit_state_update n d2); [exact H2|done|congruence|congruence]|].
    intros b s3 (-> & d3 & A3 & H3 & L3). step_nbr. exists d3, A3, 0. split; [done|].
    split; [rewrite (lt_persona _ _ _ _ _ _ L3), (identity_persona _ _ Hi); done|].
    split; [intros ?; apply (lt_queue _ _ _ _ _ _ L3), Hq, Q1; done|].
    destruct (lt_locked _ _ _ _ _ _ L3 eq_refl) as (_ & Hr & Hs').
    split; [apply violation_locked; [apply L3|apply L3; congruence|done|done]|]. apply (limited_down _ _ _ _ _ _ L3). congruence. }
  step_nbr. destruct (hard_dec (nb_pending_cfg d)) as [Hh|Hh].
  - eapply wp_mono; [eapply wp_limit_exceeded; [exact H|done..]|]. intros b s1 (d1 & A1 & H1 & P1 & Q1 & Hv).
    destruct Hv as [(now & V & Hs & Hc)|(-> & Hl1 & Hs & Hc)].
    + apply wp_when. destruct b; cbn [negb]; [exists d1, A1, now; done|].
      step_nbr. step_nbr. rewrite Hc. cbn [when]. step_nbr. step_nbr. pose proof P1 as [= F1 F2 F3 F4 F5 F6].
      step_nbr. eapply wp_mono; [eapply (wp_limit_state_update n d1); [exact H1|done|congruence|done]|].
      intros b s3 (-> & d3 & A3 & H3 & L3). step_nbr. exists d3, A3, now. split; [done|].
      split; [rewrite (lt_persona _ _ _ _ _ _ L3); done|].
      split; [intros ?; apply (lt_queue _ _ _ _ _ _ L3), Q1; done|].
      destruct (lt_locked _ _ _ _ _ _ L3 eq_refl) as (_ & Hr & Hs').
      destruct (lt_again _ _ _ _ _ _ L3) as [Hst Hcl3]; [by eapply violation_penalized|].
      split; [apply violation_locked; [apply L3| |done|done]|split; congruence].
      rewrite (lt_held _ _ _ _ _ _ L3) by (by eapply violation_penalized). by eapply violation_hold.
    + cbn [negb when]. eapply Hlock; [exact H1|done|done|done|congruence].
  - assert (forall s, at_nbr n d A s -> wp (eigrp_nbr_limit_exceeded n (nb_pending_cfg d)) (fun b s' => b = false /\ s' = s) s) as Hno.
    { clear Hlock eff H s. intros s H. unfold eigrp_nbr_limit_exceeded. step_nbr. step_nbr.
      replace ((maximum (nb_pending_cfg d) =? 0) || warning_only (nb_pending_cfg d)) with true; [by apply wp_ret|].
      symmetry. unfold hard in Hh. destruct (Z.eqb_spec (maximum (nb_pending_cfg d)) 0); [done|].
      destruct (warning_only (nb_pending_cfg d)); [done|]. tauto. }
    eapply wp_mono; [by apply Hno|]. intros b s1 [-> ->]. cbn [negb when]. by eapply Hlock.
Qed.

Lemma fine_limited d d' :
  persona d' = persona d -> nb_state d' = EIGRP_NEIGHBOR_DOWN -> nb_cleanup_pending d' = false ->
  (nb_published d = true -> is_Some (nb_retrans_queue d)) ->
  (is_Some (nb_retrans_queue d) -> is_Some (nb_retrans_queue d')) -> nbr_fine None d d'.
Proof.
  intros [= E1 E2 E3 E4 E5 E6] Hs Hc Hq Hq'. split; [done|done|done| |done|congruence]. intros Hp. apply Hq', Hq. congruence.
Qed.

(** The deferred work of a violation ends in a suspension or a lock. *)
Lemma ok_limit_cleanup n d s :
  adj_ok s -> ad_nbrs s !! n = Some d -> nb_cleanup_pending d = true -> nb_published d = true ->
  nb_limit_state d = EIGRP_NBR_LIMIT_NONE ->
  wp (eigrp_nbr_limit_cleanup n) (fun _ s' => adj_ok s' /\ touch n s s' /\ exists d' now, ad_nbrs s' !! n = Some d'
    /\ persona d' = persona d
    /\ violation n (eigrp_nbr_limit_values_read (ad_config s) (nb_pending_cfg d)) now (nb_penalty d) d' (armed (ad_timers s'))
    /\ nb_state d' = EIGRP_NEIGHBOR_DOWN /\ nb_cleanup_pending d' = false) s.
Proof.
  intros O Hn Hc Hp Hl. eapply wp_mono; [eapply (wp_ok_op n)|].
  - done.
  - exact Hn.
  - apply touch_limit_cleanup.
  - eapply wp_limit_cleanup; [by apply ok_at|done|done|done].
  - intros [] s' (d' & A' & now & H' & P & Q & V & Hs & Hcl). exists d'. split; [apply H'|].
    rewrite (an_armed _ _ _ _ H'), (violation_hold _ _ _ _ _ _ V). apply fine_limited; try done. by eapply ok_queue.
  - intros [] s' (O' & T & d' & A' & now & H' & P & Q & V & Hs & Hcl). split; [done|]. split; [done|].
    exists d', now. split; [apply H'|]. split; [done|]. split; [|done].
    eapply violation_ext; [exact V|]. intros k. by rewrite (an_armed _ _ _ _ H').
Qed.

Lemma ok_mark_down n d s limit :
  adj_ok s -> ad_nbrs s !! n = Some d ->
  wp (eigrp_nbr_limit_mark_down n limit) (fun b s' => adj_ok s' /\ touch n s s' /\
    if b : bool then ad_nbrs s' !! n = Some {| d with nb_cleanup_pending := true; nb_prev_state := nb_state d;
                                               nb_pending_cfg := limit; nb_state := EIGRP_NEIGHBOR_DOWN |}
                     /\ nb_published d = true /\ nb_limit_state d = EIGRP_NBR_LIMIT_NONE /\ warning_only limit = false
                     /\ nb_cleanup_pending d = false /\ nb_af_suspended d = false
    else s' = s) s.
Proof.
  intros O Hn. eapply wp_mono; [eapply (wp_ok_op n _ _ _ (fun b s' =>
    if b : bool then ad_nbrs s' !! n = Some {| d with nb_cleanup_pending := true; nb_prev_state := nb_state d;
                                               nb_pending_cfg := limit; nb_state := EIGRP_NEIGHBOR_DOWN |}
                     /\ nb_published d = true /\ nb_limit_state d = EIGRP_NBR_LIMIT_NONE /\ warning_only limit = false
                     /\ nb_cleanup_pending d = false /\ nb_af_suspended d = false
    else s' = s))|].
  - done.
  - exact Hn.
  - apply touch_mark_down.
  - pose proof (ok_at _ _ _ O Hn) as H. unfold eigrp_nbr_limit_mark_down. step_nbr. step_nbr. step_nbr.
    eapply wp_is_eligible; [exact H|].
    match goal with |- context [if ?b then _ else _] => destruct b eqn:E end; [by step_nbr|].
    repeat (apply orb_false_iff in E as [E ?]). do 3 step_nbr. split; [apply H|].
    repeat match goal with
           | E : negb _ = false |- _ => apply negb_false_iff in E
           | E : negb _ = true |- _ => apply negb_true_iff in E
           | E : _ && _ = true |- _ => apply andb_true_iff in E as [? ?]
           end. split; [done|]. split; [by eapply bool_decide_eq_true|done].
  - intros [] s'; [|intros ->; exists d; split; [done|]; split;
      [done|done|by apply (ao_down _ O n d Hn)|by eapply ok_queue|by apply (ao_hold _ O n d Hn)|by apply (ao_pend _ O n d Hn)]].
    intros (Hn' & Hp & Hl & _ & _ & Hs). eexists. split; [exact Hn'|].
    split; cbn; [done|done|done|by eapply ok_queue|intros [?|?]|intros _ [?|?]]; cbn in *; congruence.
  - done.
Qed.

(** ** The timers of a neighbor's limit *)

Lemma wp_touch {B} n (m : Ad B) (Q : B -> adj -> Prop) s :
  keeps (touch n) m -> wp m Q s -> wp m (fun a s' => touch n s s' /\ Q a s') s.
Proof. intros K W. unfold wp in *. destruct (m s) as [[a s']|] eqn:E; [|done]. split; [by eapply K|done]. Qed.

Lemma wp_monotime_clock n d A s Q :
  at_nbr n d A s -> (forall s', at_nbr n d A s' -> touch n s s' -> Q (ad_clock s') s') -> wp monotime Q s.
Proof.
  intros H HQ. assert (wp monotime (fun now s' => now = ad_clock s' /\ at_nbr n d A s') s) as W.
  { unfold wp, monotime. destruct (ad_ticks s); (split; [done|]); [done|]. by destruct H. }
  eapply wp_mono; [eapply (wp_touch n); [apply touch_monotime|exact W]|]. intros now s' (T & -> & H'). by apply HQ.
Qed.

(** The suspension of [d] ended between the two states. *)
Definition released (d d' : nbr) (s' : adj) : Prop :=
  nb_limit_state d = EIGRP_NBR_LIMIT_SUSPENDED /\ restart_due_msec (nb_penalty d) <> 0
  /\ restart_due_msec (nb_penalty d) <= ad_clock s'
  /\ nb_penalty d' = (let p := nb_penalty d in {| p with restart_due_msec := 0 |})
  /\ nb_limit_state d' = (if nb_published d then EIGRP_NBR_LIMIT_NONE else EIGRP_NBR_LIMIT_SUSPENDED).

Definition live_same (d d' : nbr) : Prop :=
  nb_state d' = nb_state d /\ nb_cleanup_pending d' = nb_cleanup_pending d
  /\ nb_retrans_queue d' = nb_retrans_queue d /\ persona d' = persona d.

Lemma wp_restart_expired n d A s :
  at_nbr n d A s -> Forall (fun t => 0 <= t) (ad_ticks s) ->
  wp (eigrp_nbr_limit_restart_expired n) (fun _ s' => exists d', ad_nbrs s' !! n = Some d' /\ live_same d d'
    /\ (d' = d \/ released d d' s') /\ armed (ad_timers s') (t_holddown n) = A (t_holddown n)) s.
Proof.
  intros H F. unfold eigrp_nbr_limit_restart_expired. step_nbr. step_nbr.
  assert (forall s, at_nbr n d A s -> exists d', ad_nbrs s !! n = Some d' /\ live_same d d' /\ (d' = d \/ released d d' s)
    /\ armed (ad_timers s) (t_holddown n) = A (t_holddown n)) as Hsame.
  { intros s1 H1. exists d. split; [apply H1|]. split; [done|]. split; [by left|apply H1]. }
  destruct (bool_decide_reflect (nb_limit_state d = EIGRP_NBR_LIMIT_SUSPENDED)) as [El|El]; cbn [negb orb]; [|step_nbr; eauto].
  destruct (Z.eqb_spec (restart_due_msec (nb_penalty d)) 0) as [E0|E0]; [step_nbr; eauto|].
  step_nbr. eapply wp_monotime_clock; [exact H|]. intros s1 H1 T1.
  destruct (Z.ltb_spec (ad_clock s1) (restart_due_msec (nb_penalty d))) as [Hlt|Hge].
  - eapply wp_limit_timer_arm; [exact H1|]. intros s2 o _ H2. exists d. split; [apply H2|]. split; [done|].
    split; [by left|]. by rewrite (an_armed _ _ _ _ H2).
  - eapply wp_mono; [eapply (wp_touch n)|].
    + solve_keeps.
    + instantiate (1 := fun _ s' => exists d', ad_nbrs s' !! n = Some d' /\ live_same d d'
        /\ nb_penalty d' = (let p := nb_penalty d in {| p with restart_due_msec := 0 |})
        /\ nb_limit_state d' = (if nb_published d then EIGRP_NBR_LIMIT_NONE else EIGRP_NBR_LIMIT_SUSPENDED)
        /\ armed (ad_timers s') (t_holddown n) = A (t_holddown n)).
      step_nbr. eapply wp_upd_penalty; [exact H1|]. intros s2 H2. unfold eigrp_nbr_limit_release. step_nbr. step_nbr.
      cbn [nb_published nb_limit_state]. rewrite El, bool_decide_true, andb_true_r by done.
      destruct (nb_published d) eqn:Ep; cbn [when].
      * do 5 step_nbr. eexists. split; [apply H2|]. split; [unfold live_same, persona; cbn; by rewrite ?Ep|].
        split; [done|]. split; [done|]. apply H2.
      * step_nbr. eexists. split; [apply H2|]. split; [unfold live_same, persona; cbn; by rewrite ?Ep|].
        split; [done|]. split; [done|]. apply H2.
    + intros [] s2 (T2 & d' & Hn' & L & Hp & Hs & Hh). exists d'. split; [done|]. split; [done|]. split; [|done]. right.
      split; [done|]. split; [done|]. split; [|done].
      destruct (th_clock _ _ _ T1 F) as [F1 _]. destruct (th_clock _ _ _ T2 F1) as [_ Hle]. lia.
Qed.

(** An operation that keeps the adjacency state and the penalties at most loosens. *)
Lemma fine_loosened s n d d' :
  adj_ok s -> ad_nbrs s !! n = Some d -> live_same d d' ->
  (nb_limit_state d' <> EIGRP_NBR_LIMIT_NONE -> nb_limit_state d <> EIGRP_NBR_LIMIT_NONE) ->
  nbr_fine (armed (ad_timers s) (t_holddown n)) d d'.
Proof.
  intros O Hn (Hs & Hc & Hq & P) Hl. pose proof P as [= E1 E2 E3 E4 E5 E6].
  assert (restrained d' -> restrained d) as Hres by (intros [?|?]; [left; auto|right; congruence]). split; [done|done| | | |].
  - intros Pen. rewrite Hs. apply (ao_down _ O _ _ Hn). destruct Pen as [?|[?|?]]; [left; auto|right; left|right; right]; congruence.
  - rewrite Hq, E3. by eapply ok_queue.
  - intros R. by apply (ao_hold _ O _ _ Hn), Hres.
  - rewrite Hc. intros Hp R. by apply (ao_pend _ O _ _ Hn Hp), Hres.
Qed.

Lemma ok_restart_expired n d s :
  adj_ok s -> ad_nbrs s !! n = Some d ->
  wp (eigrp_nbr_limit_restart_expired n) (fun _ s' => adj_ok s' /\ touch n s s' /\ exists d',
    ad_nbrs s' !! n = Some d' /\ live_same d d' /\ (d' = d \/ released d d' s')) s.
Proof.
  intros O Hn. eapply wp_mono; [eapply (wp_ok_op n)|].
  - done.
  - exact Hn.
  - apply touch_restart_expired.
  - eapply wp_restart_expired; [by apply ok_at|apply O].
  - intros [] s' (d' & Hn' & L & R & Hh). exists d'. split; [done|]. rewrite Hh. eapply fine_loosened; [done|done|done|].
    destruct R as [->|(E & _)]; [done|]. by rewrite E.
  - intros [] s' (O' & T & d' & Hn' & L & R & _). split; [done|]. split; [done|]. eauto.
Qed.

Lemma wp_reset_expired n d A s :
  at_nbr n d A s ->
  wp (eigrp_nbr_limit_reset_expired n) (fun _ s' => exists d', ad_nbrs s' !! n = Some d' /\ live_same d d'
    /\ nb_limit_state d' = nb_limit_state d
    /\ (d' = d \/ nb_penalty d' = (let p := nb_penalty d in
          let q := {| p with reset_due_msec := 0 |} in
          if bool_decide (nb_limit_state d = EIGRP_NBR_LIMIT_LOCKED) then q else forget q))
    /\ armed (ad_timers s') (t_holddown n) = A (t_holddown n)) s.
Proof.
  intros H. unfold eigrp_nbr_limit_reset_expired. step_nbr. step_nbr.
  case_match; [step_nbr; exists d; split; [apply H|]; split; [done|]; split; [done|]; split; [by left|apply H]|].
  step_nbr. step_nbr. case_match.
  - eapply wp_limit_timer_arm; [exact H|]. intros s2 o _ H2. exists d. split; [apply H2|].
    split; [done|]. split; [done|]. split; [by left|]. by rewrite (an_armed _ _ _ _ H2).
  - step_nbr. eapply wp_upd_penalty; [exact H|]. intros s2 H2.
    destruct (bool_decide_reflect (nb_limit_state d = EIGRP_NBR_LIMIT_LOCKED)) as [El|El]; cbn [negb when].
    + step_nbr. eexists. split; [apply H2|]. split; [done|]. split; [done|]. split; [by right|apply H2].
    + eapply wp_upd_penalty; [exact H2|]. intros s3 H3. eexists. split; [apply H3|]. split; [done|].
      split; [done|]. split; [by right|apply H3].
Qed.

Lemma ok_reset_expired n d s :
  adj_ok s -> ad_nbrs s !! n = Some d ->
  wp (eigrp_nbr_limit_reset_expired n) (fun _ s' => adj_ok s' /\ touch n s s' /\ exists d',
    ad_nbrs s' !! n = Some d' /\ live_same d d' /\ nb_limit_state d' = nb_limit_state d
    /\ restart_due_msec (nb_penalty d') = restart_due_msec (nb_penalty d)) s.
Proof.
  intros O Hn. eapply wp_mono; [eapply (wp_ok_op n)|].
  - done.
  - exact Hn.
  - apply touch_reset_expired.
  - eapply wp_reset_expired. by apply ok_at.
  - intros [] s' (d' & Hn' & L & E & _ & Hh). exists d'. split; [done|]. rewrite Hh. eapply fine_loosened; [done|done|done|]. by rewrite E.
  - intros [] s' (O' & T & d' & Hn' & L & E & Hp & _). split; [done|]. split; [done|]. exists d'. do 3 (split; [done|]).
    destruct Hp as [->|Hp]; [done|]. rewrite Hp. cbv zeta. by case_match.
Qed.
