(* ===== verification/AfLimits.v ===== *)
(** * The limits of an address family: suspension of all its neighbors

    A violation of the topology's limit takes every neighbor down and keeps it down
    until the suspension ends; the penalties of the neighbors themselves are not
    touched. *)

From Stdlib Require Import ZArith Lia.
From stdpp Require Import base gmap list.
From S2P Require Import Prelude Types Metric Rtt Timers Neighbor NeighborProps Limits LimitsProps.

(** ** Operations on all neighbors *)

(** What such an operation keeps of a neighbor. *)
Definition kept (d : nbr) := (nb_ei d, nb_src d, nb_published d, nb_limit_state d, nb_penalty d).

(** Not marked for a prefix-limit cleanup. *)
Definition quiet (n : ptr) (s : adj) : Prop :=
  forall d, ad_nbrs s !! n = Some d -> nb_published d = true -> nb_cleanup_pending d = false.
Definition no_pending (s : adj) : Prop := forall n, quiet n s.

Record sweep (s s' : adj) : Prop := {
  sw_nbrs : forall n, kept <$> ad_nbrs s' !! n = kept <$> ad_nbrs s !! n;
  sw_pending : forall n, quiet n s -> quiet n s';
  sw_intfs : Forall2 intf_same (ad_intfs s) (ad_intfs s');
  sw_part : instance_part s' = instance_part s;
  sw_armed : timers_wf (ad_timers s) -> forall k, slot_nbr k = None -> armed (ad_timers s') k = armed (ad_timers s) k;
  sw_wf : timers_wf (ad_timers s) -> timers_wf (ad_timers s');
  sw_clock : Forall (fun t => 0 <= t) (ad_ticks s) ->
    Forall (fun t => 0 <= t) (ad_ticks s') /\ ad_clock s <= ad_clock s';
}.

#[export] Instance sweep_preorder : PreOrder sweep.
Proof.
  split.
  - intros s. split; [done|done|reflexivity|done|done|done|]. intros F. split; [done|lia].
  - intros s s' s'' [A1 A0 A2 A3 A4 A5 A6] [B1 B0 B2 B3 B4 B5 B6]. split.
    + intros n. by rewrite B1.
    + auto.
    + by etrans.
    + congruence.
    + intros W k Hk. rewrite B4 by auto. auto.
    + auto.
    + intros F. destruct (A6 F) as [F' ?]. destruct (B6 F') as [F'' ?]. split; [done|lia].
Qed.

Lemma touch_sweep n d d' s s' :
  touch n s s' -> ad_nbrs s !! n = Some d -> ad_nbrs s' !! n = Some d' -> kept d' = kept d ->
  (nb_cleanup_pending d' = true -> nb_cleanup_pending d = true) -> sweep s s'.
Proof.
  intros T Hn Hn' K Hc. split.
  - intros m. destruct (decide (m = n)) as [->|Hm]; [rewrite Hn, Hn'; simpl; by rewrite K|by rewrite (th_nbrs _ _ _ T)].
  - intros m Q x. destruct (decide (m = n)) as [->|Hm]; [|rewrite (th_nbrs _ _ _ T) by done; apply Q].
    rewrite Hn'. intros [= <-] Hp. pose proof K as [= _ _ E3 _ _]. specialize (Q d Hn ltac:(congruence)).
    destruct (nb_cleanup_pending d'); [|done]. rewrite Hc in Q by done. done.
  - apply T.
  - apply T.
  - intros W k Hk. destruct (th_timers _ _ _ T W) as (_ & Ha & _). apply Ha. by rewrite Hk.
  - intros W. apply (th_timers _ _ _ T W).
  - apply T.
Qed.

Lemma identity_kept d d' : identity d' = identity d -> kept d' = kept d.
Proof. intros [= E1 E2 E3 E4 E5 E6 E7 E8 E9]. unfold kept. congruence. Qed.

(** ** One neighbor *)

Lemma touch_new_generation n f : keeps (touch n) (nbr_new_generation n f).
Proof. unfold nbr_new_generation. solve_keeps. Qed.
#[export] Hint Resolve touch_new_generation : keeps.

Lemma touch_pfx_step release batched n : keeps (touch n) (pfxlimits_nbr_step release batched n).
Proof. unfold pfxlimits_nbr_step. solve_keeps. Qed.

Lemma wp_pfx_step release batched n d A s :
  at_nbr n d A s -> (penalized d -> nb_state d = EIGRP_NEIGHBOR_DOWN) -> (restrained d -> A (t_holddown n) = None) ->
  (nb_cleanup_pending d = true -> ~ restrained d) ->
  wp (pfxlimits_nbr_step release batched n) (fun _ s' => exists d', ad_nbrs s' !! n = Some d' /\ kept d' = kept d
    /\ nb_af_suspended d' = (if nb_published d then negb release else nb_af_suspended d)
    /\ (penalized d' -> nb_state d' = EIGRP_NEIGHBOR_DOWN)
    /\ (is_Some (nb_retrans_queue d) -> is_Some (nb_retrans_queue d'))
    /\ (restrained d' -> armed (ad_timers s') (t_holddown n) = None)
    /\ (nb_cleanup_pending d' = true -> nb_cleanup_pending d = true /\ ~ restrained d')) s.
Proof.
  intros H Hd Hr Hc0. unfold pfxlimits_nbr_step. step_nbr. step_nbr.
  destruct (nb_published d) eqn:Ep; cbn [negb];
    [|step_nbr; exists d; split; [apply H|]; rewrite (an_armed _ _ _ _ H); do 5 (split; [done|]); auto].
  destruct release.
  - destruct (nb_af_suspended d) eqn:Es; cbn [when].
    + unfold nbr_new_generation. do 5 step_nbr. eexists. split; [apply H|]. split; [unfold kept; by rewrite Ep|].
      split; [done|]. rewrite (an_armed _ _ _ _ H). split; [|split; [done|]].
      * intros P. apply Hd. unfold penalized in *. cbn in P. naive_solver.
      * split; [intros _; apply Hr; by right|]. cbn. intros Hp. exfalso. apply Hc0; [done|by right].
    + step_nbr. exists d. split; [apply H|]. rewrite (an_armed _ _ _ _ H). do 5 (split; [done|]); auto.
  - destruct (nb_af_suspended d) eqn:Es; [step_nbr; exists d; split; [apply H|]; rewrite (an_armed _ _ _ _ H); do 5 (split; [done|]); auto|].
    unfold nbr_new_generation. step_nbr. do 5 step_nbr. set (d1 := {| nb_ei := _ |}) in H.
    assert (kept d1 = kept d) as K1 by (unfold kept; cbn; by rewrite Ep).
    destruct (decide (nb_limit_state d = EIGRP_NBR_LIMIT_NONE)) as [El|El].
    + rewrite bool_decide_true by done. cbn [when].
      assert (forall s', (exists d', at_nbr n d' (without (t_nbr_send_gr n) (without (t_holddown n) A)) s'
                /\ identity d' = identity d1 /\ nb_cleanup_pending d' = false /\ nb_state d' = EIGRP_NEIGHBOR_DOWN
                /\ (is_Some (nb_retrans_queue d1) -> is_Some (nb_retrans_queue d'))) ->
              exists d', ad_nbrs s' !! n = Some d' /\ kept d' = kept d /\ nb_af_suspended d' = true
                /\ (penalized d' -> nb_state d' = EIGRP_NEIGHBOR_DOWN)
                /\ (is_Some (nb_retrans_queue d) -> is_Some (nb_retrans_queue d'))
                /\ (restrained d' -> armed (ad_timers s') (t_holddown n) = None)
                /\ (nb_cleanup_pending d' = true -> nb_cleanup_pending d = true /\ ~ restrained d')) as Hout.
      { intros s2 (d' & H' & Hi & Hc & Hs & Hq). exists d'. split; [apply H'|].
        split; [rewrite (identity_kept _ _ Hi); done|].
        split; [by pose proof (f_equal (fun i => i.1.1.1.2) Hi)|].
        rewrite (an_armed _ _ _ _ H'), without_down, Hc. done. }
      destruct batched.
      * eapply wp_mono; [by apply wp_down_deferred|]. intros [] s2 (d' & H' & Hx). apply Hout. exists d'. done.
      * eapply wp_mono; [by apply wp_nbr_down|]. intros [] s2 (d' & H' & Hx). apply Hout. exists d'. done.
    + rewrite bool_decide_false by done. cbn [when]. step_nbr. exists d1. split; [apply H|]. split; [done|].
      split; [done|]. rewrite (an_armed _ _ _ _ H). split; [intros _; apply Hd; by left|]. split; [done|].
      split; [intros _; apply Hr; by left|]. cbn. intros Hp. exfalso. apply Hc0; [done|by left].
Qed.

Lemma ok_pfx_step release batched n d s :
  adj_ok s -> ad_nbrs s !! n = Some d ->
  wp (pfxlimits_nbr_step release batched n) (fun _ s' => adj_ok s' /\ touch n s s' /\ sweep s s' /\
    exists d', ad_nbrs s' !! n = Some d'
      /\ nb_af_suspended d' = (if nb_published d then negb release else nb_af_suspended d)) s.
Proof.
  intros O Hn. eapply wp_mono; [eapply (wp_ok_op n)|].
  - done.
  - exact Hn.
  - apply touch_pfx_step.
  - eapply wp_pfx_step; [by apply ok_at|by apply (ao_down _ O n d)|by apply (ao_hold _ O n d)|by apply (ao_pend _ O n d)].
  - intros [] s' (d' & Hn' & K & Hs & Hp & Hq & Hh & Hc). exists d'. split; [done|]. pose proof K as [= E1 E2 E3 E4 E5].
    split; [done|done|done| |done|intros Hx; by apply Hc]. intros Hpub. apply Hq, (ok_queue _ _ _ O Hn). congruence.
  - intros [] s' (O' & T & d' & Hn' & K & Hs & _ & _ & _ & Hc). split; [done|]. split; [done|].
    split; [eapply touch_sweep; [done|done|done|done|intros Hx; by apply Hc]|]. eauto.
Qed.

(** ** All neighbors *)

Lemma wp_mfor_app {B} (l k : list B) (f : B -> Ad unit) Q s :
  wp (mfor (l ++ k) f) Q s <-> wp (mfor l f) (fun _ => wp (mfor k f) Q) s.
Proof.
  revert s. induction l as [|a l IH]; intros s; cbn [mfor app]; [by rewrite wp_ret|].
  rewrite !wp_bind. split; intros W; (eapply wp_mono; [exact W|]); intros [] s' W'; by apply IH.
Qed.

Lemma wp_mfor_bind {B C} (l : list B) (g : B -> list C) (f : C -> Ad unit) Q s :
  wp (mfor (l ≫= g) f) Q s -> wp (mfor l (fun a => mfor (g a) f)) Q s.
Proof.
  revert s. induction l as [|a l IH]; intros s; cbn [mfor mbind list_bind]; [done|].
  intros W. apply wp_bind. apply wp_mfor_app in W. eapply wp_mono; [exact W|]. intros [] s'. apply IH.
Qed.

Definition suspended_as (b : bool) (n : ptr) (s : adj) : Prop :=
  exists d, ad_nbrs s !! n = Some d /\ nb_af_suspended d = b.

Lemma ok_pfx_steps release batched (ns : list ptr) s :
  adj_ok s -> (forall n, n ∈ ns -> exists d, ad_nbrs s !! n = Some d /\ nb_published d = true) ->
  wp (mfor ns (pfxlimits_nbr_step release batched)) (fun _ s' => adj_ok s' /\ sweep s s'
    /\ (forall n, n ∈ ns -> suspended_as (negb release) n s')
    /\ (forall n, n ∉ ns -> ad_nbrs s' !! n = ad_nbrs s !! n)) s.
Proof.
  revert s. induction ns as [|n ns IH]; intros s O Hl; cbn [mfor].
  - apply wp_ret. split; [done|]. split; [reflexivity|]. split; [|done]. by intros n ?%not_elem_of_nil.
  - destruct (Hl n) as (d & Hn & Hp); [set_solver|]. apply wp_bind.
    eapply wp_mono; [by eapply ok_pfx_step|]. intros [] s1 (O1 & T1 & S1 & d1 & Hn1 & Hs1). rewrite Hp in Hs1.
    eapply wp_mono; [apply IH; [done|]|].
    + intros m Hm. destruct (Hl m) as (x & Hx & Hpx); [set_solver|]. pose proof (sw_nbrs _ _ S1 m) as E. rewrite Hx in E.
      destruct (ad_nbrs s1 !! m) as [y|]; [|done]. injection E as _ _ E _ _. exists y. split; [done|congruence].
    + intros [] s2 (O2 & S2 & Hin & Hout). split; [done|]. split; [by etrans|]. split.
      * intros m [->|Hm]%elem_of_cons; [|by apply Hin]. destruct (decide (n ∈ ns)) as [Hd|Hd]; [by apply Hin|].
        exists d1. by rewrite Hout.
      * intros m Hm. rewrite Hout by set_solver. apply (th_nbrs _ _ _ T1). set_solver.
Qed.

(** Every published neighbor is suspended, or none is. *)
Lemma ok_nbr_update release s :
  adj_ok s ->
  wp (eigrp_pfxlimits_nbr_update release) (fun _ s' => adj_ok s' /\ sweep s s'
    /\ (forall n d, ad_nbrs s' !! n = Some d -> nb_published d = true -> nb_af_suspended d = negb release)) s.
Proof.
  intros O. unfold eigrp_pfxlimits_nbr_update. apply wp_bind, wp_get. cbv zeta. apply wp_bind.
  assert (forall batched s1, adj_ok s1 -> ad_nbrs s1 = ad_nbrs s -> ad_intfs s1 = ad_intfs s -> sweep s s1 ->
    wp (mfor (ad_intfs s) (fun intf => mfor (ai_nbrs intf) (pfxlimits_nbr_step release batched));;
        when batched (record_call (eigrp_topology_suspended_neighbors_down (if release then 0%nat else suspension_capacity s))))
      (fun _ s' => adj_ok s' /\ sweep s s'
    /\ (forall n d, ad_nbrs s' !! n = Some d -> nb_published d = true -> nb_af_suspended d = negb release)) s1) as Hrun.
  { intros batched s1 O1 En Ei S1. apply wp_bind, wp_mfor_bind. eapply wp_mono; [apply ok_pfx_steps; [done|]|].
    - intros n (ei & Hn & Hin)%list_elem_of_bind. apply list_elem_of_lookup in Hin as [i Hin]. rewrite <- Ei in Hin.
      destruct (ao_links _ O1 _ _ _ Hin Hn) as (d & ? & ? & ?). eauto.
    - intros [] s2 (O2 & S2 & Hin & _).
      assert (forall n d, ad_nbrs s2 !! n = Some d -> nb_published d = true -> nb_af_suspended d = negb release) as Hall.
      { intros n d Hn Hp. pose proof (sw_nbrs _ _ S2 n) as E. rewrite Hn in E. destruct (ad_nbrs s1 !! n) as [x|] eqn:Hx; [|done].
        injection E as E1 _ E3 _ _. destruct (ao_listed _ O1 _ _ Hx) as (ei & Hei & Hli).
        destruct (Hin n) as (y & Hy & Hs).
        - apply list_elem_of_bind. exists ei. split; [apply Hli; congruence|]. rewrite <- Ei. by eapply list_elem_of_lookup_2.
        - congruence. }
      apply wp_when. destruct batched; [|split; [done|]; split; [by etrans|done]].
      apply wp_modify. split; [by eapply ok_aux|]. split; [|done]. etrans; [exact S1|]. etrans; [exact S2|].
      by split. }
  destruct (Nat.eqb _ 0).
  - apply wp_ret. apply Hrun; [done|done|done|reflexivity].
  - apply wp_calloc_ok; [done|]. intros b g O1. apply Hrun; [done|done|done|].
    by split.
Qed.

(** ** Operations that touch no neighbor *)

Record aside (s s' : adj) : Prop := {
  as_nbrs : ad_nbrs s' = ad_nbrs s;
  as_intfs : ad_intfs s' = ad_intfs s;
  as_next : ad_next_nbr s' = ad_next_nbr s;
  as_config : ad_config s' = ad_config s;
  as_timers : timers_wf (ad_timers s) -> timers_wf (ad_timers s')
    /\ (forall k, slot_nbr k <> None -> armed (ad_timers s') k = armed (ad_timers s) k)
    /\ (forall k c t, armed (ad_timers s') k = Some (c, t) -> armed (ad_timers s) k = Some (c, t) \/ c = callback_of k);
  as_clock : Forall (fun t => 0 <= t) (ad_ticks s) ->
    Forall (fun t => 0 <= t) (ad_ticks s') /\ ad_clock s <= ad_clock s';
}.

#[export] Instance aside_preorder : PreOrder aside.
Proof.
  split.
  - intros s. split; try done. intros W. split; [done|split; [done|by left]].
  - intros s s' s'' [A1 A2 A3 A4 A5 A6] [B1 B2 B3 B4 B5 B6]. split; try congruence.
    + intros W. destruct (A5 W) as (W' & Ha & Hc). destruct (B5 W') as (W'' & Ha' & Hc').
      split; [done|]. split.
      * intros k Hk. by rewrite Ha', Ha.
      * intros k c t E. destruct (Hc' _ _ _ E) as [E'|]; [by apply Hc|by right].
    + intros F. destruct (A6 F) as [F' ?]. destruct (B6 F') as [F'' ?]. split; [done|lia].
Qed.

(** A change outside the neighbors, the timers and the clock. *)
Lemma aside_aux s s' :
  ad_nbrs s' = ad_nbrs s -> ad_intfs s' = ad_intfs s -> ad_next_nbr s' = ad_next_nbr s ->
  ad_config s' = ad_config s -> ad_timers s' = ad_timers s -> ad_clock s' = ad_clock s -> ad_ticks s' = ad_ticks s ->
  aside s s'.
Proof.
  intros E1 E2 E3 E4 E5 E6 E7. split; rewrite ?E1, ?E2, ?E5, ?E6, ?E7; try done.
  intros W. split; [done|split; [done|by left]].
Qed.

Lemma ok_aside s s' : adj_ok s -> aside s s' -> adj_ok s'.
Proof.
  intros O A. destruct (O) as [Ot Ol On Op Of Os Od Oq Oc Oe Oh]. destruct A as [A1 A2 A3 A4 A5 A6].
  destruct (A5 Ot) as (W & Ha & Hc). split; rewrite ?A1, ?A2, ?A3; try done.
  - intros k c t E. split.
    + destruct (Hc _ _ _ E) as [E'|]; [|done]. by eapply Os.
    + intros n Hn. rewrite Ha in E by (by rewrite Hn). by eapply Os.
  - by apply A6.
  - intros n d Hn R. rewrite Ha by done. by eapply Oh.
Qed.

Lemma aside_modify (f : adj -> adj) :
  (forall s, aside s (f s)) -> keeps aside (modify f).
Proof. intros Hf s [] s' [= <-]. apply Hf. Qed.

Lemma aside_calloc : keeps aside a_calloc.
Proof. intros s a s'. unfold a_calloc. destruct (ad_grants s); intros [= _ <-]; [done|]. by apply aside_aux. Qed.

Lemma aside_monotime : keeps aside monotime.
Proof.
  intros s a s'. unfold monotime. destruct (ad_ticks s) as [|t ts] eqn:E; intros [= _ <-]; [done|].
  split; simpl; try done; [intros W; split; [done|split; [done|by left]]|].
  rewrite E. intros [? ?]%Forall_cons. split; [done|lia].
Qed.

Lemma aside_record_call c : keeps aside (record_call c).
Proof. apply aside_modify. intros s. by apply aside_aux. Qed.

Lemma aside_cancel k : slot_nbr k = None -> keeps aside (cancel_timer k).
Proof.
  intros Hk. apply aside_modify. intros s. split; simpl; try done. intros W. split; [by apply cancel_wf|]. split.
  - intros k' Hk'. rewrite armed_cancel by done. rewrite decide_False by congruence. done.
  - intros k' c t. rewrite armed_cancel by done. case_decide; [done|by left].
Qed.

Lemma aside_arm k c delay : slot_nbr k = None -> c = callback_of k -> keeps aside (arm_timer k c delay).
Proof.
  intros Hk ->. unfold arm_timer. apply keeps_bind; [apply _|apply aside_calloc|]. intros ok.
  apply keeps_bind; [apply _|destruct ok; [apply aside_monotime|solve_keeps]|]. intros now.
  apply aside_modify. intros s. split; simpl; try done. intros W. split; [by apply add_wf|]. split.
  - intros k' Hk'. rewrite armed_add by done. rewrite decide_False by congruence. done.
  - intros k' c' t. rewrite armed_add by done. case_decide as Ek; [|by left]. subst.
    case_match; [|done]. intros [= <- _]. by right.
Qed.

#[export] Hint Resolve aside_calloc aside_monotime aside_record_call : keeps.
#[export] Hint Extern 1 (keeps _ (cancel_timer _)) => apply aside_cancel; reflexivity : keeps.

(** ** Timers of the instance *)

(** The registers of the two limits of an instance. *)
Definition registers (s : adj) :=
  (ad_af_state s, ad_af_cleanup_pending s, ad_af_pkt_active s, ad_af_penalty s, (ad_redist_state s, ad_redist_penalty s)).

Definition still (s s' : adj) : Prop := registers s' = registers s.

#[export] Instance still_preorder : PreOrder still.
Proof. split; [done|]. unfold still. intros s s' s''. congruence. Qed.

Lemma still_arm k c delay : keeps still (arm_timer k c delay).
Proof.
  unfold arm_timer, a_calloc, monotime. intros s a s' E. revert E. unfold mbind, M_bind, modify, gets.
  destruct (ad_grants s) as [|[] g]; simpl; repeat case_match; intros [= _ <-]; simplify_eq; done.
Qed.
Lemma still_monotime : keeps still monotime.
Proof. unfold monotime. intros s a s' E. repeat case_match; by simplify_eq. Qed.

(** Arming one timer of the instance. *)
Record armed_one (k : slot) (s s' : adj) : Prop := {
  ae_aside : aside s s';
  ae_still : still s s';
  ae_other : forall k', k' <> k -> armed (ad_timers s') k' = armed (ad_timers s) k';
  ae_one : forall c t, armed (ad_timers s') k = Some (c, t) -> c = callback_of k;
  ae_calls : ad_calls s' = ad_calls s;
}.

Lemma wp_arm_one k delay s :
  timers_wf (ad_timers s) -> slot_nbr k = None ->
  wp (arm_timer k (callback_of k) delay) (fun _ s' => armed_one k s s') s.
Proof.
  intros W Hk. unfold arm_timer. apply wp_bind.
  assert (forall ok now s1, aside s s1 -> still s s1 -> ad_timers s1 = ad_timers s -> ad_calls s1 = ad_calls s ->
    armed_one k s {| s1 with ad_timers := eigrp_timer_add (ad_timers s1) k (callback_of k) now delay ok |}) as Hadd.
  { intros ok now s1 A1 S1 E1 C1.
    assert (forall k', armed (eigrp_timer_add (ad_timers s1) k (callback_of k) now delay ok) k'
      = if decide (k = k') then if ok && accepts (ad_timers s1) then Some (callback_of k, u64 (now + delay)) else None
        else armed (ad_timers s) k') as Harm.
    { intros k'. rewrite armed_add by (by rewrite E1). by rewrite E1. }
    split.
    - etrans; [exact A1|]. split; simpl; try done. intros _. split; [apply add_wf; by rewrite E1|]. split.
      + intros k' Hk'. rewrite Harm, E1, decide_False by congruence. done.
      + intros k' c t. rewrite Harm, E1. case_decide; [|by left]. subst. destruct (ok && accepts (ad_timers s)); [|done]. intros [= <- _]. by right.
    - exact S1.
    - intros k' Hk'. simpl. by rewrite Harm, decide_False.
    - intros c t. simpl. rewrite Harm, decide_True by done. destruct (ok && accepts (ad_timers s1)); [|done]. by intros [= <- _].
    - exact C1. }
  unfold wp at 1. destruct (a_calloc s) as [[ok s0]|] eqn:E0; [|revert E0; unfold a_calloc; by case_match].
  pose proof (aside_calloc _ _ _ E0) as A0.
  assert (still s s0 /\ ad_timers s0 = ad_timers s /\ ad_calls s0 = ad_calls s) as (S0 & T0 & C0)
    by (revert E0; unfold a_calloc; case_match; intros [= _ <-]; done).
  apply wp_bind. destruct ok; [|apply wp_gets, wp_modify; by apply Hadd].
  unfold wp at 1. destruct (monotime s0) as [[now s1]|] eqn:E; [|revert E; unfold monotime; by case_match].
  apply wp_modify, Hadd; [etrans; [exact A0|by apply aside_monotime in E]|etrans; [exact S0|by apply still_monotime in E]|rewrite <- T0|rewrite <- C0].
  all: revert E; unfold monotime; case_match; intros [= _ <-]; done.
Qed.

Lemma wp_arm_deadline k due s :
  timers_wf (ad_timers s) -> slot_nbr k = None ->
  wp (now ← monotime; arm_timer k (callback_of k) (deadline_delay now due)) (fun _ s' => armed_one k s s') s.
Proof.
  intros W Hk. apply wp_bind. unfold wp at 1. destruct (monotime s) as [[now s1]|] eqn:E; [|].
  - pose proof (aside_monotime _ _ _ E) as A1. pose proof (still_monotime _ _ _ E) as S1.
    assert (ad_timers s1 = ad_timers s /\ ad_calls s1 = ad_calls s) as [Et Ec]
      by (revert E; unfold monotime; case_match; intros [= _ <-]; done).
    eapply wp_mono; [apply wp_arm_one; [by rewrite Et|done]|]. intros [] s2 [A2 S2 O2 N2 C2].
    split; [by etrans|by etrans| |done|congruence]. intros k' Hk'. by rewrite O2, Et.
  - revert E. unfold monotime. by case_match.
Qed.

(** Both timers of a limit, and the test of the code that both were armed. *)
Definition both_armed (k1 k2 : slot) (s : adj) : Prop :=
  (exists t, armed (ad_timers s) k1 = Some (callback_of k1, t)) /\ (exists t, armed (ad_timers s) k2 = Some (callback_of k2, t)).

Lemma wp_arm_both {B} k1 k2 due1 due2 s (rest : timers slot callback -> Ad B) Q :
  timers_wf (ad_timers s) -> slot_nbr k1 = None -> slot_nbr k2 = None -> k1 <> k2 ->
  (forall s' b, aside s s' -> still s s' -> ad_calls s' = ad_calls s -> (b = false -> both_armed k1 k2 s') ->
     b = bool_decide (owners (ad_timers s') !! k1 = None) || bool_decide (owners (ad_timers s') !! k2 = None) ->
     wp (rest (ad_timers s')) Q s') ->
  wp ((now ← monotime; arm_timer k1 (callback_of k1) (deadline_delay now due1));;
      (now ← monotime; arm_timer k2 (callback_of k2) (deadline_delay now due2));;
      timers ← gets ad_timers; rest timers) Q s.
Proof.
  intros W H1 H2 Hne HQ. apply wp_bind. eapply wp_mono; [by apply wp_arm_deadline|]. intros [] s1 [A1 S1 O1 N1 C1].
  destruct (as_timers _ _ A1 W) as (W1 & _). apply wp_bind. eapply wp_mono; [by apply wp_arm_deadline|].
  intros [] s2 [A2 S2 O2 N2 C2]. destruct (as_timers _ _ A2 W1) as (W2 & _). apply wp_bind, wp_gets.
  eapply HQ; [by etrans|by etrans|congruence| |reflexivity].
  intros [E1%bool_decide_eq_false E2%bool_decide_eq_false]%orb_false_iff. rewrite armed_owner in E1, E2 by done.
  split.
  - destruct (armed (ad_timers s2) k1) as [[c t]|] eqn:E; [|done]. exists t. f_equal. f_equal. eapply N1. rewrite <- O2 by congruence. done.
  - destruct (armed (ad_timers s2) k2) as [[c t]|] eqn:E; [|done]. exists t. f_equal. f_equal. by eapply N2.
Qed.

(** ** The limit of the topology *)

Definition all_suspended (b : bool) (s : adj) : Prop :=
  forall n d, ad_nbrs s !! n = Some d -> nb_published d = true -> nb_af_suspended d = b.

(** A suspension leaves no violation of a neighbor unfinished. *)
Lemma suspended_no_pending s : adj_ok s -> all_suspended true s -> no_pending s.
Proof.
  intros O H n d Hn Hp. destruct (nb_cleanup_pending d) eqn:E; [|done]. exfalso.
  apply (ao_pend _ O _ _ Hn E). right. by eapply H.
Qed.

(** The registers after [eigrp_pfxlimits_timers_cancel]. *)
Definition af_cancelled (s : adj) : adj :=
  let p := ad_af_penalty s in
  {| s with ad_timers := eigrp_timer_cancel (eigrp_timer_cancel (ad_timers s) t_pfxlimits_af_restart) t_pfxlimits_af_reset;
            ad_af_penalty := undue p |}.

Lemma af_timers_cancel_eq s : eigrp_pfxlimits_timers_cancel s = Some (tt, af_cancelled s).
Proof. done. Qed.

Lemma wp_af_timers_cancel s (Q : unit -> adj -> Prop) : Q tt (af_cancelled s) -> wp eigrp_pfxlimits_timers_cancel Q s.
Proof. intros HQ. unfold wp. by rewrite af_timers_cancel_eq. Qed.

Lemma aside_cancelled (k1 k2 : slot) (s s' : adj) :
  slot_nbr k1 = None -> slot_nbr k2 = None ->
  ad_nbrs s' = ad_nbrs s -> ad_intfs s' = ad_intfs s -> ad_next_nbr s' = ad_next_nbr s ->
  ad_config s' = ad_config s -> ad_timers s' = eigrp_timer_cancel (eigrp_timer_cancel (ad_timers s) k1) k2 ->
  ad_clock s' = ad_clock s -> ad_ticks s' = ad_ticks s -> aside s s'.
Proof.
  intros H1 H2 E1 E2 E3 E4 E5 E6 E7. split; rewrite ?E1, ?E2, ?E5, ?E6, ?E7; try done. intros W.
  assert (timers_wf (eigrp_timer_cancel (ad_timers s) k1)) as W1 by by apply cancel_wf.
  split; [by apply cancel_wf|]. split.
  - intros k Hk. rewrite !armed_cancel by done. rewrite !decide_False by congruence. done.
  - intros k c t. rewrite !armed_cancel by done. repeat case_decide; try done. by left.
Qed.

Lemma af_cancelled_aside s : aside s (af_cancelled s).
Proof. by apply (aside_cancelled t_pfxlimits_af_restart t_pfxlimits_af_reset). Qed.

Lemma af_cancelled_armed s :
  timers_wf (ad_timers s) ->
  armed (ad_timers (af_cancelled s)) t_pfxlimits_af_restart = None
  /\ armed (ad_timers (af_cancelled s)) t_pfxlimits_af_reset = None.
Proof.
  intros W. assert (timers_wf (eigrp_timer_cancel (ad_timers s) t_pfxlimits_af_restart)) as W1 by by apply cancel_wf.
  unfold af_cancelled. simpl. rewrite !armed_cancel by done. by repeat case_decide.
Qed.

(** Work handed to the senders. *)
Definition said (s s' : adj) : Prop := exists l, s' = {| s with ad_calls := l |}.
#[export] Instance said_preorder : PreOrder said.
Proof.
  split.
  - intros s. exists (ad_calls s). by destruct s.
  - intros s s' s'' [l ->] [k ->]. by exists k.
Qed.
Lemma said_record_call c : keeps said (record_call c).
Proof. intros s [] s' [= <-]. by eexists. Qed.
#[export] Hint Resolve said_record_call : keeps.
Lemma said_aside s s' : said s s' -> aside s s' /\ still s s' /\ ad_timers s' = ad_timers s.
Proof. intros [l ->]. split; [by apply aside_aux|done]. Qed.
Lemma aside_settle s : aside s {| s with ad_af_cleanup_pending := false |}.
Proof. by apply aside_aux. Qed.

Lemma wp_said (m : Ad unit) s (Q : unit -> adj -> Prop) :
  keeps said m -> is_Some (m s) -> (forall s', said s s' -> Q tt s') -> wp m Q s.
Proof. intros K [[[] s'] E] HQ. unfold wp. rewrite E. apply HQ. by eapply K. Qed.

Lemma goodbyes_defined l (s : adj) :
  is_Some (mfor l (fun '(i, intf) =>
      when (ai_operative intf && negb (ai_passive intf)) (record_call (eigrp_hello_send i None true))) s).
Proof.
  revert s. induction l as [|[i ei] l IH]; intros s; cbn [mfor]; [done|]. unfold mbind, M_bind.
  destruct (ai_operative ei && negb (ai_passive ei)); simpl; apply IH.
Qed.

Lemma said_goodbyes l :
  keeps said (mfor l (fun '(i, intf) =>
      when (ai_operative intf && negb (ai_passive intf)) (record_call (eigrp_hello_send i None true)))).
Proof. solve_keeps. Qed.

(** A violation's work on the neighbors: everyone is suspended. *)
Lemma ok_state_cleanup s :
  adj_ok s ->
  wp eigrp_pfxlimits_state_cleanup (fun _ s' => adj_ok s'
    /\ if ad_af_cleanup_pending s
       then sweep {| s with ad_af_cleanup_pending := false |} s' /\ all_suspended true s'
       else s' = s) s.
Proof.
  intros O. unfold eigrp_pfxlimits_state_cleanup. apply wp_bind, wp_get.
  destruct (ad_af_cleanup_pending s) eqn:Ep; cbn [negb]; [|by apply wp_ret].
  apply wp_bind, wp_modify. set (s0 := {| ad_nbrs := _ |}). assert (adj_ok s0) as O0 by (by eapply ok_aside, aside_settle).
  apply wp_bind. eapply wp_said; [apply said_goodbyes|apply goodbyes_defined|]. intros s1 Sd1.
  destruct (said_aside _ _ Sd1) as (A1 & S1 & T1). pose proof (ok_aside _ _ O0 A1) as O1.
  apply wp_bind. eapply wp_mono; [by apply ok_nbr_update|]. intros [] s2 (O2 & S2 & Hall).
  apply wp_modify. split; [by eapply ok_aux|]. split; [|done].
  destruct Sd1 as [l ->]. destruct S2 as [A2 P2 B2 C2 D2 E2 F2]. by split.
Qed.

(** The history after a violation at [now]. *)
Definition af_counted (limit : eigrp_prefix_limit) (now : Z) (p : penalty) : penalty :=
  let base := u64 (or_default (restart_minutes limit) 5 * MINUTE_MSEC) in
  count_incident (penalize eigrp_pfxlimits_penalty_decay (dampened limit) now (u64 (base + base / 2)) p).

(** The outcome of a violation: locked without timers, or suspended with deadlines
    that do not wrap and with both timers armed. *)
Inductive af_violation (limit : eigrp_prefix_limit) (now : Z) (p0 : penalty) (s' : adj) : Prop :=
  | af_locked :
      ad_af_state s' = 2 ->
      armed (ad_timers s') t_pfxlimits_af_restart = None -> armed (ad_timers s') t_pfxlimits_af_reset = None ->
      af_violation limit now p0 s'
  | af_suspended base p interval reset :
      ad_af_state s' = 1 ->
      p = af_counted limit now p0 ->
      restart_cnt p < or_default (restart_count limit) 3 ->
      base = u64 (or_default (restart_minutes limit) 5 * MINUTE_MSEC) ->
      (0 <= penalty_q16 p -> base * penalty_q16 p <= UINT64_MAX -> interval = suspension (dampened limit) base p) ->
      reset = u64 (or_default (reset_time_minutes limit) 15 * MINUTE_MSEC) ->
      ad_af_penalty s' = {| p with restart_due_msec := now + interval; reset_due_msec := now + reset |} ->
      now + interval <= UINT64_MAX -> now + reset <= UINT64_MAX ->
      both_armed t_pfxlimits_af_restart t_pfxlimits_af_reset s' ->
      af_violation limit now p0 s'.

(** The part of the instance the tail of a violation does not write. *)
Definition beside (s s' : adj) : Prop :=
  aside s s' /\ ad_af_cleanup_pending s' = ad_af_cleanup_pending s /\ ad_af_pkt_active s' = ad_af_pkt_active s
  /\ (ad_redist_state s', ad_redist_penalty s') = (ad_redist_state s, ad_redist_penalty s).

Lemma still_beside s s' : aside s s' -> still s s' -> beside s s'.
Proof. intros A [= E1 E2 E3 E4 E5 E6]. split; [done|]. split; [done|]. split; [done|]. congruence. Qed.

Lemma wp_af_deadlines limit now p0 s :
  timers_wf (ad_timers s) -> 0 <= now <= UINT64_MAX ->
  ad_af_penalty s = undue (af_counted limit now p0) ->
  ad_af_state s = (if or_default (restart_count limit) 3 <=? restart_cnt (af_counted limit now p0) then 2 else 1) ->
  armed (ad_timers s) t_pfxlimits_af_restart = None -> armed (ad_timers s) t_pfxlimits_af_reset = None ->
  wp (s ← get;
    if ad_af_state s =? 2 then mret tt
    else
      let base := u64 (or_default (restart_minutes limit) 5 * MINUTE_MSEC) in
      let score := penalty_q16 (ad_af_penalty s) in
      let interval :=
        if dampened limit then
          if negb (score =? 0) && (UINT64_MAX / score <? base) then UINT64_MAX else u64 (base * score) / Q16
        else base in
      if (UINT64_MAX - now <? interval)
         || (UINT64_MAX - now <? u64 (or_default (reset_time_minutes limit) 15 * MINUTE_MSEC))
      then modify (fun s => {| s with ad_af_state := 2 |})
      else
        let restart_due := u64 (now + interval) in
        let reset_due := u64 (now + u64 (or_default (reset_time_minutes limit) 15 * MINUTE_MSEC)) in
        modify (fun s => let p := ad_af_penalty s in
          {| s with ad_af_penalty := {| p with restart_due_msec := restart_due; reset_due_msec := reset_due |} |});;
        eigrp_pfxlimits_timer_arm t_pfxlimits_af_restart eigrp_pfxlimits_restart_expired_cb restart_due;;
        eigrp_pfxlimits_timer_arm t_pfxlimits_af_reset eigrp_pfxlimits_reset_expired_cb reset_due;;
        timers ← gets ad_timers;
        when (bool_decide (owners timers !! t_pfxlimits_af_restart = None)
              || bool_decide (owners timers !! t_pfxlimits_af_reset = None))
          (eigrp_pfxlimits_timers_cancel;; modify (fun s => {| s with ad_af_state := 2 |})))
    (fun _ s' => beside s s' /\ af_violation limit now p0 s') s.
Proof.
  intros W Hnow Ep Es R1 R2. set (p := af_counted limit now p0) in *. apply wp_bind, wp_get.
  destruct (Z.eqb_spec (ad_af_state s) 2) as [E2|E2].
  { apply wp_ret. split; [by apply still_beside|]. by apply af_locked. }
  assert (restart_cnt p < or_default (restart_count limit) 3 /\ ad_af_state s = 1) as [Hcnt Hst].
  { rewrite Es in E2 |- *. destruct (Z.leb_spec (or_default (restart_count limit) 3) (restart_cnt p)); done. }
  cbv zeta. rewrite Ep. cbn [undue penalty_q16].
  set (base := u64 (or_default (restart_minutes limit) 5 * MINUTE_MSEC)). set (interval := if dampened limit then _ else base).
  set (reset := u64 (or_default (reset_time_minutes limit) 15 * MINUTE_MSEC)).
  destruct (Z.ltb_spec (UINT64_MAX - now) interval) as [Hov|Hi]; cbn [orb];
    [|destruct (Z.ltb_spec (UINT64_MAX - now) reset) as [Hov|Hr]].
  1, 2: apply wp_modify; split; [split; [by apply aside_aux|done]|by apply af_locked].
  assert (0 <= base) by apply u64_range. assert (0 <= reset) by apply u64_range.
  assert (0 <= interval) as Hi0.
  { unfold interval. destruct (dampened limit); [|done]. destruct (_ && _); [done|]. apply Z.div_pos; [apply u64_range|done]. }
  rewrite !u64_small by (unfold UINT64_MAX in *; lia).
  apply wp_bind, wp_modify. unfold eigrp_pfxlimits_timer_arm.
  eapply (wp_arm_both t_pfxlimits_af_restart t_pfxlimits_af_reset); [done|done|done|done|].
  cbv zeta. set (s0 := {| ad_nbrs := _ |}). intros s' b A S _ Hb Eb.
  assert (beside s s') as B.
  { destruct (still_beside _ _ A S) as (A' & B1 & B2 & B3). split; [|done]. etrans; [|exact A]. by apply aside_aux. }
  rewrite <- Eb. apply wp_when. destruct b.
  - apply wp_bind, wp_af_timers_cancel, wp_modify. destruct (as_timers _ _ A W) as (W' & _). split.
    + destruct B as (B0 & B1 & B2 & B3). split; [|done].
      etrans; [exact B0|]. etrans; [apply af_cancelled_aside|]. by apply aside_aux.
    + destruct (af_cancelled_armed s' W') as [N1 N2]. by apply af_locked.
  - split; [done|]. eapply (af_suspended limit now p0 s' base p interval reset); try done.
    + unfold still, registers in S. injection S as S1 S2 S3 S4 S5 S6. by rewrite S1.
    + intros Hp Hfit. unfold interval, suspension. destruct (dampened limit); [|done].
      destruct (Z.eqb_spec (penalty_q16 p) 0) as [->|Hz]; [done|]. cbn [negb andb].
      destruct (Z.ltb_spec (UINT64_MAX / penalty_q16 p) base) as [Hlt|]; [|done].
      pose proof (Z.div_le_lower_bound UINT64_MAX (penalty_q16 p) base ltac:(lia) ltac:(lia)). lia.
    + unfold still, registers in S. injection S as S1 S2 S3 S4 S5 S6. rewrite S4. unfold s0. cbn. by rewrite Ep.
    + lia.
    + lia.
    + by apply Hb.
Qed.

(** The clock's 64-bit milliseconds do not run out. *)
Definition clock_fits (s : adj) : Prop := 0 <= ad_clock s /\ ad_clock s + foldr Z.add 0 (ad_ticks s) <= UINT64_MAX.

Lemma ticks_sum l : Forall (fun t => 0 <= t) l -> 0 <= foldr Z.add 0 l.
Proof. induction 1; simpl; lia. Qed.

Lemma wp_monotime_fits s (Q : Z -> adj -> Prop) :
  Forall (fun t => 0 <= t) (ad_ticks s) -> clock_fits s ->
  (forall s', aside s s' -> still s s' -> ad_timers s' = ad_timers s /\ ad_calls s' = ad_calls s ->
     0 <= ad_clock s' <= UINT64_MAX -> Q (ad_clock s') s') ->
  wp monotime Q s.
Proof.
  intros F [C0 C1] HQ. unfold wp. destruct (monotime s) as [[now s1]|] eqn:E; [|revert E; unfold monotime; by case_match].
  pose proof (aside_monotime _ _ _ E) as A. pose proof (still_monotime _ _ _ E) as S.
  assert (now = ad_clock s1 /\ (ad_timers s1 = ad_timers s /\ ad_calls s1 = ad_calls s) /\ 0 <= ad_clock s1 <= UINT64_MAX) as (-> & Et & Hc).
  { revert E. unfold monotime. destruct (ad_ticks s) as [|t ts]; intros [= <- <-]; simpl in *; [split; [done|]; split; [done|lia]|].
    apply Forall_cons in F as [? ?%ticks_sum]. split; [done|]. split; [done|lia]. }
  by apply HQ.
Qed.

Record af_exceeded (limit : eigrp_prefix_limit) (s s' : adj) : Prop := {
  ax_ok : adj_ok s';
  ax_violation : exists now, af_violation limit now (ad_af_penalty s) s';
  ax_kept : forall n, kept <$> ad_nbrs s' !! n = kept <$> ad_nbrs s !! n;
  ax_redist : (ad_redist_state s', ad_redist_penalty s') = (ad_redist_state s, ad_redist_penalty s);
  ax_active : ad_af_pkt_active s' = ad_af_pkt_active s;
  ax_nbrs : if ad_af_pkt_active s then ad_nbrs s' = ad_nbrs s /\ ad_af_cleanup_pending s' = true
            else all_suspended true s' /\ ad_af_cleanup_pending s' = false;
}.

Lemma sweep_still s s' : sweep s s' -> still s s' /\ ad_config s' = ad_config s.
Proof. intros S. pose proof (sw_part _ _ S) as [=]. split; [|done]. unfold still, registers. congruence. Qed.

(** A violation of a hard limit of the topology. *)
Lemma ok_prefix_exceeded limit s :
  adj_ok s -> clock_fits s -> warning_only limit = false -> ad_af_state s = 0 ->
  wp (eigrp_pfxlimits_prefix_exceeded limit) (fun _ s' => af_exceeded limit s s') s.
Proof.
  intros O C Hw H0. unfold eigrp_pfxlimits_prefix_exceeded. apply wp_bind, wp_get. rewrite Hw, H0. cbn [orb negb].
  apply wp_bind. apply wp_monotime_fits; [apply O|done|]. intros s1 A1 S1 [T1 C1] Hc. set (now := ad_clock s1) in *.
  cbv zeta. do 2 (apply wp_bind, wp_modify). apply wp_bind, wp_af_timers_cancel, wp_bind, wp_modify.
  fold (af_counted limit now (ad_af_penalty s1)). apply wp_bind, wp_get.
  assert (registers s1 = registers s) as E by exact S1. injection E as E1 E2 E3 E4 E5 E6. rewrite E4.
  set (p := af_counted limit now (ad_af_penalty s)). set (s2 := {| ad_af_cleanup_pending := true |}).
  assert (aside s s2) as A2.
  { etrans; [exact A1|]. by apply (aside_cancelled t_pfxlimits_af_restart t_pfxlimits_af_reset). }
  pose proof (ok_aside _ _ O A2) as O2. pose proof (ao_timers _ O) as W. rewrite <- T1 in W.
  assert (armed (ad_timers s2) t_pfxlimits_af_restart = None /\ armed (ad_timers s2) t_pfxlimits_af_reset = None) as [N1 N2].
  { by apply (af_cancelled_armed s1). }
  apply wp_bind.
  eapply (wp_mono _ (fun _ s3 => adj_ok s3 /\ ad_af_state s3 = ad_af_state s2 /\ ad_af_penalty s3 = ad_af_penalty s2
    /\ (forall k, slot_nbr k = None -> armed (ad_timers s3) k = armed (ad_timers s2) k)
    /\ ad_af_pkt_active s3 = ad_af_pkt_active s
    /\ (ad_redist_state s3, ad_redist_penalty s3) = (ad_redist_state s, ad_redist_penalty s)
    /\ (forall n, kept <$> ad_nbrs s3 !! n = kept <$> ad_nbrs s !! n)
    /\ if ad_af_pkt_active s then ad_nbrs s3 = ad_nbrs s /\ ad_af_cleanup_pending s3 = true
       else all_suspended true s3 /\ ad_af_cleanup_pending s3 = false)).
  - change (ad_af_pkt_active s2) with (ad_af_pkt_active s1). rewrite E3. apply wp_when.
    destruct (ad_af_pkt_active s); cbn [negb].
    + split; [done|]. split; [done|]. split; [done|]. split; [done|]. split; [done|]. split; [cbn; congruence|].
      cbn. rewrite (as_nbrs _ _ A1). done.
    + eapply wp_mono; [by apply ok_state_cleanup|]. cbn [ad_af_cleanup_pending s2]. intros [] s3 (O3 & S3 & Hall).
      destruct (sweep_still _ _ S3) as [[= F1 F2 F3 F4 F5 F6] _].
      split; [done|]. split; [done|]. split; [done|]. split; [by apply (sw_armed _ _ S3), (ao_timers _ O2)|].
      split; [congruence|]. split; [congruence|]. split; [|done].
      intros n. rewrite (sw_nbrs _ _ S3). cbn. by rewrite (as_nbrs _ _ A1).
  - intros [] s3 (O3 & Es & Ep & Ha & Epk & Er & Hk & Hn).
    eapply wp_mono; [eapply (wp_af_deadlines limit now (ad_af_penalty s)); [apply O3|done|rewrite Ep; done|rewrite Es; done|by rewrite Ha|by rewrite Ha]|].
    intros [] s4 ((A4 & B1 & B2 & B3) & V). split.
    + by eapply ok_aside.
    + by exists now.
    + intros n. by rewrite (as_nbrs _ _ A4).
    + congruence.
    + congruence.
    + unfold all_suspended in *. rewrite (as_nbrs _ _ A4), B1. done.
Qed.

(** ** The timers of the topology's limit *)

(** The suspension of the address family ended between the two states. *)
Record af_released (s s' : adj) : Prop := {
  ar_state : ad_af_state s' = 0;
  ar_nbrs : all_suspended false s';
  ar_kept : forall n, kept <$> ad_nbrs s' !! n = kept <$> ad_nbrs s !! n;
  ar_pending : forall n, quiet n s -> quiet n s';
  ar_redist : (ad_redist_state s', ad_redist_penalty s') = (ad_redist_state s, ad_redist_penalty s);
}.

Lemma wp_af_replay s (Q : unit -> adj -> Prop) : (forall s', said s s' -> Q tt s') -> wp af_replay Q s.
Proof.
  intros HQ. unfold af_replay. apply wp_bind, wp_get, wp_when. case_match; [|apply HQ; reflexivity].
  apply wp_modify, HQ. by eexists.
Qed.

(** The common end of a release: the neighbors are freed and redistribution replayed. *)
Lemma wp_af_free s s0 :
  adj_ok s0 -> aside s s0 -> ad_af_state s0 = 0 ->
  (ad_redist_state s0, ad_redist_penalty s0) = (ad_redist_state s, ad_redist_penalty s) ->
  wp (eigrp_pfxlimits_nbr_update true;; af_replay)
    (fun _ s' => adj_ok s' /\ af_released s s' /\ ad_af_penalty s' = ad_af_penalty s0
       /\ ad_af_cleanup_pending s' = ad_af_cleanup_pending s0
       /\ ad_af_pkt_active s' = ad_af_pkt_active s0
       /\ (Forall (fun t => 0 <= t) (ad_ticks s0) -> ad_clock s0 <= ad_clock s')) s0.
Proof.
  intros O0 A0 E0 Er. apply wp_bind. eapply wp_mono; [by apply ok_nbr_update|]. intros [] s1 (O1 & S1 & Hall).
  destruct (sweep_still _ _ S1) as [[= F1 F2 F3 F4 F5 F6] _]. apply wp_af_replay. intros s2 Sd.
  destruct (said_aside _ _ Sd) as (A2 & [= G1 G2 G3 G4 G5 G6] & _). split; [by eapply ok_aside|]. split; [split|].
  - congruence.
  - unfold all_suspended. rewrite (as_nbrs _ _ A2). done.
  - intros n. rewrite (as_nbrs _ _ A2), (sw_nbrs _ _ S1), (as_nbrs _ _ A0). done.
  - intros n Q. unfold quiet. rewrite (as_nbrs _ _ A2). apply (sw_pending _ _ S1). unfold quiet. by rewrite (as_nbrs _ _ A0).
  - congruence.
  - split; [congruence|]. split; [congruence|]. split; [congruence|]. intros F. destruct (sw_clock _ _ S1 F) as [F' ?].
    destruct (as_clock _ _ A2 F'). lia.
Qed.

Lemma ok_af_restart_expired s :
  adj_ok s -> clock_fits s ->
  wp eigrp_pfxlimits_restart_expired (fun _ s' => adj_ok s' /\
    ((ad_nbrs s' = ad_nbrs s /\ registers s' = registers s)
     \/ (ad_af_state s = 1 /\ restart_due_msec (ad_af_penalty s) <= ad_clock s' /\ af_released s s'
         /\ ad_af_pkt_active s' = ad_af_pkt_active s /\ ad_af_cleanup_pending s' = ad_af_cleanup_pending s))) s.
Proof.
  intros O C. unfold eigrp_pfxlimits_restart_expired. apply wp_bind, wp_get. cbv zeta.
  destruct (Z.eqb_spec (ad_af_state s) 1) as [E1|E1]; cbn [negb orb]; [|apply wp_ret; eauto].
  destruct (Z.eqb_spec (restart_due_msec (ad_af_penalty s)) 0) as [E0|E0]; [apply wp_ret; eauto|].
  apply wp_bind, wp_monotime_fits; [apply O|done|]. intros s1 A1 S1 [T1 C1] Hc.
  pose proof (ok_aside _ _ O A1) as O1.
  destruct (Z.ltb_spec (ad_clock s1) (restart_due_msec (ad_af_penalty s))) as [Hlt|Hge].
  - unfold eigrp_pfxlimits_timer_arm. eapply wp_mono; [apply (wp_arm_deadline t_pfxlimits_af_restart); [apply O1|done]|].
    intros [] s2 [A2 S2 _ _ _]. split; [by eapply ok_aside|]. left. rewrite (as_nbrs _ _ A2), (as_nbrs _ _ A1), S2, S1. done.
  - apply wp_bind, wp_modify. injection S1 as F1 F2 F3 F4 F5 F6.
    eapply wp_mono; [eapply (wp_af_free s)|].
    + by eapply ok_aux.
    + etrans; [exact A1|]. by apply aside_aux.
    + done.
    + cbn. congruence.
    + cbn. intros [] s2 (O2 & R & Ep & Ec & Ea & Hck). split; [done|]. right. split; [done|]. specialize (Hck (ao_ticks _ O1)).
      split; [lia|]. split; [done|]. split; congruence.
Qed.

Lemma ok_af_reset_expired s :
  adj_ok s -> clock_fits s ->
  wp eigrp_pfxlimits_reset_expired (fun _ s' => adj_ok s' /\ aside s s'
    /\ (ad_af_state s', ad_af_cleanup_pending s', ad_af_pkt_active s', (ad_redist_state s', ad_redist_penalty s'))
       = (ad_af_state s, ad_af_cleanup_pending s, ad_af_pkt_active s, (ad_redist_state s, ad_redist_penalty s))) s.
Proof.
  intros O C. eapply (wp_mono _ (fun _ s' => aside s s'
    /\ (ad_af_state s', ad_af_cleanup_pending s', ad_af_pkt_active s', (ad_redist_state s', ad_redist_penalty s'))
       = (ad_af_state s, ad_af_cleanup_pending s, ad_af_pkt_active s, (ad_redist_state s, ad_redist_penalty s)))); cycle 1.
  { intros [] s' [A E]. split; [by eapply ok_aside|done]. }
  unfold eigrp_pfxlimits_reset_expired. apply wp_bind, wp_get. cbv zeta.
  case_match; [by apply wp_ret|]. apply wp_bind, wp_monotime_fits; [apply O|done|]. intros s1 A1 S1 [T1 C1] Hc.
  pose proof (ok_aside _ _ O A1) as O1. case_match.
  - unfold eigrp_pfxlimits_timer_arm. eapply wp_mono; [apply (wp_arm_deadline t_pfxlimits_af_reset); [apply O1|done]|].
    intros [] s2 [A2 S2 _ _ _]. split; [by etrans|]. injection S1 as F1 F2 F3 F4 F5 F6. injection S2 as G1 G2 G3 G4 G5 G6. congruence.
  - injection S1 as F1 F2 F3 F4 F5 F6. apply wp_bind, wp_modify, wp_when. case_match; [apply wp_modify|].
    all: split; [etrans; [exact A1|]; by apply aside_aux|cbn; congruence].
Qed.

Lemma ok_af_state_release reset s :
  adj_ok s ->
  wp (eigrp_pfxlimits_state_release reset) (fun _ s' => adj_ok s' /\ af_released s s'
    /\ ad_af_penalty s' = (let p := undue (ad_af_penalty s) in if reset then forget p else p)
    /\ ad_af_cleanup_pending s' = false /\ ad_af_pkt_active s' = ad_af_pkt_active s) s.
Proof.
  intros O. unfold eigrp_pfxlimits_state_release. apply wp_bind, wp_af_timers_cancel, wp_bind, wp_modify, wp_bind.
  set (s1 := {| ad_af_state := 0 |}). assert (aside s s1) as A1 by (by apply (aside_cancelled t_pfxlimits_af_restart t_pfxlimits_af_reset)).
  eapply (wp_mono _ (fun _ s2 => s2 = if reset then {| s1 with ad_af_penalty := forget (undue (ad_af_penalty s)) |} else s1)).
  { apply wp_when. by destruct reset; [apply wp_modify|]. }
  intros [] s2 ->. assert (aside s (if reset then {| s1 with ad_af_penalty := forget (undue (ad_af_penalty s)) |} else s1)) as A2.
  { destruct reset; [|done]. etrans; [exact A1|]. by apply aside_aux. }
  eapply wp_mono; [eapply (wp_af_free s); [by eapply ok_aside|exact A2|by destruct reset|by destruct reset]|].
  cbn. intros [] s3 (O3 & R & Ep & Ec & Ea & _). split; [done|]. split; [done|]. rewrite Ep, Ec, Ea. by destruct reset.
Qed.

(** [clear]: the address family is released and its history forgotten. *)
Lemma ok_af_state_clear s :
  adj_ok s ->
  wp (eigrp_pfxlimits_state_clear false) (fun b s' => b = true /\ adj_ok s' /\ ad_af_state s' = 0
    /\ ad_af_penalty s' = no_penalty /\ ad_af_pkt_active s' = ad_af_pkt_active s
    /\ (forall n, kept <$> ad_nbrs s' !! n = kept <$> ad_nbrs s !! n)
    /\ (if ad_af_state s =? 0 then ad_nbrs s' = ad_nbrs s /\ ad_af_cleanup_pending s' = ad_af_cleanup_pending s
        else all_suspended false s' /\ ad_af_cleanup_pending s' = false)
    /\ (forall n, quiet n s -> quiet n s')
    /\ (ad_redist_state s', ad_redist_penalty s') = (ad_redist_state s, ad_redist_penalty s)) s.
Proof.
  intros O. unfold eigrp_pfxlimits_state_clear. apply wp_bind, wp_get, wp_bind.
  destruct (Z.eqb_spec (ad_af_state s) 0) as [E|E]; cbn [negb].
  - apply wp_bind, wp_af_timers_cancel, wp_modify, wp_ret. split; [done|].
    split; [eapply ok_aside; [exact O|by apply (aside_cancelled t_pfxlimits_af_restart t_pfxlimits_af_reset)]|]. done.
  - eapply wp_mono; [by apply ok_af_state_release|]. intros [] s' (O' & [R1 R2 R3 R5 R4] & Ep & Ec & Ea). apply wp_ret. done.
Qed.
