(* ===== verification/RedistLimits.v ===== *)
(** * The limit of redistribution

    A violation withdraws the redistributed routes and suspends redistribution, or
    locks it; neighbors are not touched.  The restart timer and the clear command
    replay the routes. *)

From Stdlib Require Import ZArith Lia.
From stdpp Require Import base gmap list.
From S2P Require Import Prelude Types Metric Rtt Timers Neighbor NeighborProps Limits LimitsProps AfLimits.

(** The values of a violation: the limit's, else the topology's, else the defaults. *)
Definition redist_values (config : option limit_config) (limit : eigrp_prefix_limit) : eigrp_prefix_limit :=
  let process := config ≫= lc_topology in
  {| limit with
     restart_minutes := or_default (restart_minutes limit) (inherited restart_minutes None process 5);
     reset_time_minutes := or_default (reset_time_minutes limit) (inherited reset_time_minutes None process 15);
     restart_count := or_default (restart_count limit) (inherited restart_count None process 3);
     dampened := dampened limit || match process with Some l => dampened l | None => false end |}.

Definition redist_counted (eff : eigrp_prefix_limit) (now : Z) (p : penalty) : penalty :=
  let base := u64 (restart_minutes eff * MINUTE_MSEC) in
  count_incident (penalize eigrp_redist_limit_decay (dampened eff) now (u64 (base + base / 2)) p).

Inductive redist_violation (eff : eigrp_prefix_limit) (now : Z) (p0 : penalty) (s' : adj) : Prop :=
  | redist_locked :
      ad_redist_state s' = 2 ->
      armed (ad_timers s') t_redist_limit_restart = None -> armed (ad_timers s') t_redist_limit_reset = None ->
      redist_violation eff now p0 s'
  | redist_suspended base p :
      ad_redist_state s' = 1 ->
      base = u64 (restart_minutes eff * MINUTE_MSEC) ->
      p = redist_counted eff now p0 ->
      restart_cnt p < restart_count eff ->
      ad_redist_penalty s' = {| p with restart_due_msec := u64 (now + suspension (dampened eff) base p);
                                       reset_due_msec := u64 (now + u64 (reset_time_minutes eff * MINUTE_MSEC)) |} ->
      both_armed t_redist_limit_restart t_redist_limit_reset s' ->
      redist_violation eff now p0 s'.

Definition af_registers (s : adj) :=
  (ad_af_state s, ad_af_cleanup_pending s, ad_af_pkt_active s, ad_af_penalty s).

Definition redist_cancelled (s : adj) : adj :=
  let p := ad_redist_penalty s in
  {| s with ad_timers := eigrp_timer_cancel (eigrp_timer_cancel (ad_timers s) t_redist_limit_restart) t_redist_limit_reset;
            ad_redist_penalty := undue p |}.

Lemma wp_redist_timers_cancel s (Q : unit -> adj -> Prop) :
  Q tt (redist_cancelled s) -> wp eigrp_redist_limit_timers_cancel Q s.
Proof. done. Qed.

Lemma redist_cancelled_aside s : aside s (redist_cancelled s).
Proof. by apply (aside_cancelled t_redist_limit_restart t_redist_limit_reset). Qed.

Lemma redist_cancelled_armed s :
  timers_wf (ad_timers s) ->
  armed (ad_timers (redist_cancelled s)) t_redist_limit_restart = None
  /\ armed (ad_timers (redist_cancelled s)) t_redist_limit_reset = None.
Proof.
  intros W. assert (timers_wf (eigrp_timer_cancel (ad_timers s) t_redist_limit_restart)) as W1 by by apply cancel_wf.
  unfold redist_cancelled. simpl. rewrite !armed_cancel by done. by repeat case_decide.
Qed.

(** What every operation on this limit keeps. *)
Definition off_af (s s' : adj) : Prop := aside s s' /\ af_registers s' = af_registers s.

Lemma off_af_trans s s' s'' : off_af s s' -> off_af s' s'' -> off_af s s''.
Proof. intros [A E] [A' E']. split; [by etrans|congruence]. Qed.

Lemma still_off_af s s' : aside s s' -> still s s' -> off_af s s'.
Proof. intros A [= E1 E2 E3 E4 E5 E6]. split; [done|]. unfold af_registers. congruence. Qed.

Lemma wp_redist_exceeded limit s :
  adj_ok s -> clock_fits s -> ad_redist_state s = 0 ->
  wp (eigrp_redist_limit_exceeded limit) (fun _ s' => off_af s s' /\ ad_calls s' = eigrp_redist_routes_withdraw :: ad_calls s
    /\ exists now, redist_violation (redist_values (ad_config s) limit) now (ad_redist_penalty s) s') s.
Proof.
  intros O C H0. unfold eigrp_redist_limit_exceeded. apply wp_bind, wp_get. rewrite H0. cbn [negb]. cbv zeta.
  change (or_default (restart_minutes limit) (inherited restart_minutes None (ad_config s ≫= lc_topology) 5))
    with (restart_minutes (redist_values (ad_config s) limit)).
  change (or_default (reset_time_minutes limit) (inherited reset_time_minutes None (ad_config s ≫= lc_topology) 15))
    with (reset_time_minutes (redist_values (ad_config s) limit)).
  change (or_default (restart_count limit) (inherited restart_count None (ad_config s ≫= lc_topology) 3))
    with (restart_count (redist_values (ad_config s) limit)).
  change (dampened limit || _) with (dampened (redist_values (ad_config s) limit)).
  set (eff := redist_values (ad_config s) limit). apply wp_bind, wp_monotime_fits; [apply O|done|].
  intros s1 A1 S1 [T1 C1] Hc. set (now := ad_clock s1) in *. fold (redist_counted eff now (ad_redist_penalty s1)).
  do 2 (apply wp_bind, wp_modify). apply wp_bind, wp_redist_timers_cancel, wp_bind, wp_modify, wp_bind, wp_get.
  assert (registers s1 = registers s) as E by exact S1. injection E as E1 E2 E3 E4 E5 E6.
  set (s2 := {| ad_calls := eigrp_redist_routes_withdraw :: _ |}).
  pose proof (ao_timers _ O) as W. rewrite <- T1 in W.
  assert (off_af s s2) as F2.
  { eapply off_af_trans; [by apply still_off_af|].
    split; [by apply (aside_cancelled t_redist_limit_restart t_redist_limit_reset)|done]. }
  assert (armed (ad_timers s2) t_redist_limit_restart = None /\ armed (ad_timers s2) t_redist_limit_reset = None) as [N1 N2]
    by by apply (redist_cancelled_armed s1).
  assert (timers_wf (ad_timers s2)) as W2 by (apply (as_timers _ _ (proj1 F2)), O).
  set (p := redist_counted eff now (ad_redist_penalty s)).
  assert (ad_redist_state s2 = if restart_count eff <=? restart_cnt p then 2 else 1) as Hst by (cbn; rewrite E6; done).
  assert (ad_redist_penalty s2 = undue p) as Hp by (cbn; rewrite E6; done).
  assert (ad_calls s2 = eigrp_redist_routes_withdraw :: ad_calls s) as Hcl by (cbn; by rewrite C1).
  clearbody s2. rewrite Hp. destruct (Z.eqb_spec (ad_redist_state s2) 2) as [E2'|E2'].
  { apply wp_ret. split; [done|]. split; [done|]. exists now. by apply redist_locked. }
  assert (restart_cnt p < restart_count eff /\ ad_redist_state s2 = 1) as [Hcnt H1].
  { rewrite Hst in E2' |- *. destruct (Z.leb_spec (restart_count eff) (restart_cnt p)); done. }
  apply wp_bind, wp_modify. unfold eigrp_redist_limit_timer_arm. cbv zeta. rewrite Hp.
  match goal with |- wp _ _ ?x => set (s3 := x) end.
  assert (off_af s s3) as F3.
  { eapply off_af_trans; [exact F2|]. split; [by apply aside_aux|done]. }
  eapply (wp_arm_both t_redist_limit_restart t_redist_limit_reset); [exact W2|done|done|done|].
  intros s' b A S Cs Hb Eb. rewrite <- Eb.
  assert (off_af s s') as F4 by (eapply off_af_trans; [exact F3|by apply still_off_af]).
  assert (ad_calls s' = eigrp_redist_routes_withdraw :: ad_calls s) as Cl by (rewrite Cs; done).
  apply wp_when. destruct b.
  - apply wp_bind, wp_redist_timers_cancel, wp_modify. destruct (as_timers _ _ (proj1 F4) (ao_timers _ O)) as (W' & _).
    destruct (redist_cancelled_armed s' W') as [M1 M2].
    split; [eapply off_af_trans; [exact F4|]; split; [by apply (aside_cancelled t_redist_limit_restart t_redist_limit_reset)|done]|].
    split; [done|]. exists now. by apply redist_locked.
  - split; [done|]. split; [done|]. exists now.
    assert (registers s' = registers s3) as E by exact S. injection E as G1 G2 G3 G4 G5 G6.
    eapply (redist_suspended _ _ _ _ (u64 (restart_minutes eff * MINUTE_MSEC)) p); try done.
    + by rewrite G5.
    + by apply Hb.
Qed.

(** The restart timer: early, it is armed again; due, redistribution resumes. *)
Lemma wp_redist_restart_expired s :
  adj_ok s -> clock_fits s ->
  wp eigrp_redist_limit_restart_expired (fun _ s' => off_af s s' /\
    (registers s' = registers s
     \/ (ad_redist_state s = 1 /\ restart_due_msec (ad_redist_penalty s) <= ad_clock s' /\ ad_redist_state s' = 0
         /\ ad_calls s' = eigrp_redist_routes_replay :: ad_calls s))) s.
Proof.
  intros O C. unfold eigrp_redist_limit_restart_expired. apply wp_bind, wp_get. cbv zeta.
  destruct (Z.eqb_spec (ad_redist_state s) 1) as [E1|E1]; cbn [negb orb]; [|apply wp_ret; split; [by apply still_off_af|by left]].
  case_match; [apply wp_ret; split; [by apply still_off_af|by left]|].
  apply wp_bind, wp_monotime_fits; [apply O|done|]. intros s1 A1 S1 [T1 C1] Hc.
  pose proof (ok_aside _ _ O A1) as O1. destruct (Z.ltb_spec (ad_clock s1) (restart_due_msec (ad_redist_penalty s))).
  - unfold eigrp_redist_limit_timer_arm. eapply wp_mono; [apply (wp_arm_deadline t_redist_limit_restart); [apply O1|done]|].
    intros [] s2 [A2 S2 _ _ _]. split; [apply still_off_af; by etrans|]. left. by rewrite S2, S1.
  - apply wp_bind, wp_modify, wp_modify. split.
    + eapply off_af_trans; [by apply still_off_af|]. split; [by apply aside_aux|done].
    + right. cbn. split; [done|]. split; [done|]. split; [done|]. by rewrite C1.
Qed.

(** The reset timer forgets the history of a limit that is not locked. *)
Lemma wp_redist_reset_expired s :
  adj_ok s -> clock_fits s ->
  wp eigrp_redist_limit_reset_expired (fun _ s' => off_af s s' /\ ad_redist_state s' = ad_redist_state s) s.
Proof.
  intros O C. unfold eigrp_redist_limit_reset_expired. apply wp_bind, wp_get. cbv zeta.
  case_match; [apply wp_ret; split; [by apply still_off_af|done]|].
  apply wp_bind, wp_monotime_fits; [apply O|done|]. intros s1 A1 S1 [T1 C1] Hc.
  pose proof (ok_aside _ _ O A1) as O1. assert (registers s1 = registers s) as E by exact S1. injection E as E1 E2 E3 E4 E5 E6.
  case_match.
  - unfold eigrp_redist_limit_timer_arm. eapply wp_mono; [apply (wp_arm_deadline t_redist_limit_reset); [apply O1|done]|].
    intros [] s2 [A2 S2 _ _ _]. split; [apply still_off_af; by etrans|]. injection S2 as ? ? ? ? F5 ?. congruence.
  - apply wp_bind, wp_modify, wp_when. case_match; [apply wp_modify|].
    all: split; [eapply off_af_trans; [by apply still_off_af|]; split; [by apply aside_aux|done]|done].
Qed.

(** The clear command ends any penalty and forgets the history. *)
Lemma wp_redist_clear s :
  wp (eigrp_redist_limit_clear false) (fun b s' => b = true /\ off_af s s' /\ ad_redist_state s' = 0
    /\ ad_redist_penalty s' = no_penalty) s.
Proof.
  unfold eigrp_redist_limit_clear, eigrp_redist_limit_release. apply wp_bind, wp_get, wp_bind.
  destruct (Z.eqb_spec (ad_redist_state s) 0) as [E|E]; cbn [negb when].
  - apply wp_bind, wp_redist_timers_cancel, wp_modify, wp_ret. split; [done|]. split; [|done].
    split; [by apply (aside_cancelled t_redist_limit_restart t_redist_limit_reset)|done].
  - apply wp_bind, wp_redist_timers_cancel, wp_bind, wp_modify, wp_bind, wp_modify, wp_modify, wp_ret.
    split; [done|]. split; [|done].
    split; [by apply (aside_cancelled t_redist_limit_restart t_redist_limit_reset)|done].
Qed.
