(* ===== verification/Hello.v ===== *)
(** * Reception of Hello packets

    eigrp_hello.c: what a Hello does to the neighbor it comes from: creation, K-value
    comparison, start and end of the adjacency, route codec, conditional receive and
    hold timer.  The payload has passed the validation of Ingress.v, which is repeated
    here as in the code. *)

From Stdlib Require Import ZArith Lia.
From stdpp Require Import base gmap list.
From S2P Require Import Prelude Types Metric Rtt Stream BlockHash Auth Ingress Timers Neighbor Limits.

Definition EIGRP_TLV_SEQ_BASE_LEN : nat := 5.
Definition EIGRP_TLV_PEER_TERMINATION_LEN : nat := 9.

Definition read_be (payload : list Z) (pos n : nat) : Ad Z := nonnull (rd_be payload pos n).
Definition read_bytes (payload : list Z) (pos n : nat) : Ad (list Z) := nonnull (rd payload pos n).

(** ** The Parameter TLV *)

Definition eigrp_hello_k_match (k_values : list Z) (nbr : nbr) : bool :=
  bool_decide (take 5 k_values = take 5 (nb_K nbr)).

Definition eigrp_hello_goodbye (K : list Z) : bool := bool_decide (take 5 K = replicate 5 0xff).

Definition eigrp_hello_k_update (n : ptr) (K : list Z) : Ad unit := upd_nbr n (fun d => {| d with nb_K := K |}).

(** [None]: the neighbor was deleted. *)
Definition eigrp_hello_parameter_decode (n : ptr) (payload : list Z) (tlv : nat) (adjacency_start_allowed : bool)
  : Ad (option ptr) :=
  K ← read_bytes payload (tlv + 4) 6;
  eigrp_hello_k_update n K;;
  hold_time ← read_be payload (tlv + off_hold_time) 2;
  upd_nbr n (fun d => {| d with nb_v_holddown := hold_time |});;
  if eigrp_hello_goodbye K then
    eigrp_nbr_state_update_reason n EIGRP_NEIGHBOR_DOWN;;
    eigrp_nbr_delete n;;
    mret None
  else
    nbr ← get_nbr n;
    k_values ← gets ad_k_values;
    if negb (eigrp_hello_k_match k_values nbr) then
      when (negb (nb_state nbr =? EIGRP_NEIGHBOR_DOWN)) (eigrp_nbr_state_update_reason n EIGRP_NEIGHBOR_DOWN);;
      mret (Some n)
    else if negb adjacency_start_allowed then mret (Some n)
    else
      when (nb_state nbr =? EIGRP_NEIGHBOR_DOWN)
        (record_call (eigrp_hello_send (nb_ei nbr) (Some (nb_src nbr)) false);;
         record_call (eigrp_update_send_init n);;
         eigrp_nbr_state_update n EIGRP_NEIGHBOR_PENDING);;
      mret (Some n).

(** ** The other TLVs *)

Definition eigrp_sw_version_decode (n : ptr) (payload : list Z) (tlv : nat) : Ad unit :=
  vender_major ← read_be payload (tlv + 4) 1;
  vender_minor ← read_be payload (tlv + 5) 1;
  eigrp_major ← read_be payload (tlv + 6) 1;
  eigrp_minor ← read_be payload (tlv + 7) 1;
  upd_nbr n (fun d => {| d with nb_os_rel := (vender_major, vender_minor); nb_tlv_rel := (eigrp_major, eigrp_minor) |});;
  version ← gets ad_metric_version;
  eigrp_nbr_codec_select n (eigrp_metric_version_select version eigrp_major).

(** The addresses from [offset] up to [length]: whether [own] is one of them. *)
Fixpoint peer_termination_walk (fuel : nat) (payload : list Z) (tlv offset length : nat) (own : list Z) : option bool :=
  if (offset <? length)%nat then
    match fuel with
    | O => None
    | S fuel' =>
        encoded ← rd_be payload (tlv + offset) 1;
        if (encoded =? 0) || (Z.of_nat length <? Z.of_nat (offset + 1) + encoded) then Some false
        else
          address ← rd payload (tlv + (offset + 1)) (Z.to_nat encoded);
          if (encoded =? Z.of_nat (List.length own)) && bool_decide (address = own) then Some true
          else peer_termination_walk fuel' payload tlv (offset + 1 + Z.to_nat encoded) length own
    end
  else Some false.

Definition eigrp_peer_termination_contains (payload : list Z) (tlv length : nat) (own : list Z) : Ad bool :=
  nonnull (peer_termination_walk length payload tlv tlv_hdr_size length own).

Definition eigrp_peer_termination_decode (n : ptr) (payload : list Z) (tlv length : nat) (own : list Z) : Ad unit :=
  mine ← eigrp_peer_termination_contains payload tlv length own;
  when mine
    (eigrp_nbr_state_update_reason n EIGRP_NEIGHBOR_DOWN;;
     eigrp_nbr_delete n).

(** The loop of the SEQUENCE TLV: whether this router is listed. *)
Fixpoint sequence_walk (fuel : nat) (payload : list Z) (tlv offset length : nat) (own : list Z) (listed : bool) : option bool :=
  if (offset <? length)%nat then
    match fuel with
    | O => None
    | S fuel' =>
        encoded ← rd_be payload (tlv + offset) 1;
        if (encoded =? 0) || (Z.of_nat length <? Z.of_nat (offset + 1) + encoded) then Some listed
        else
          address ← rd payload (tlv + (offset + 1)) (Z.to_nat encoded);
          sequence_walk fuel' payload tlv (offset + 1 + Z.to_nat encoded) length own
            (listed || ((encoded =? Z.of_nat (List.length own)) && bool_decide (address = own)))
    end
  else Some listed.

(** ** The walk *)

(** The local variables of [eigrp_hello_receive]. *)
Record hello_vars := {
  parameter_seen : bool;
  sequence_seen : bool;
  sequence_listed : bool;
  next_multicast_sequence : Z;
}.

(** One TLV: [None] when the function returns. *)
Definition hello_tlv (n : ptr) (payload : list Z) (tlv : nat) (type : Z) (length : nat) (own : list Z) (v : hello_vars)
  : Ad (option hello_vars) :=
  if type =? EIGRP_TLV_PARAMETER then
    if (length <? EIGRP_TLV_PARAMETER_LEN)%nat then mret None
    else
      alive ← eigrp_hello_parameter_decode n payload tlv true;
      mret (if bool_decide (alive = None) then None else Some {| v with parameter_seen := true |})
  else if type =? EIGRP_TLV_SEQ then
    if (length <? EIGRP_TLV_SEQ_BASE_LEN)%nat
    then mret (Some {| v with sequence_seen := true; sequence_listed := false |})
    else
      listed ← nonnull (sequence_walk length payload tlv tlv_hdr_size length own false);
      mret (Some {| v with sequence_seen := true; sequence_listed := listed |})
  else if type =? EIGRP_TLV_SW_VERSION then
    if (length <? EIGRP_TLV_SW_VERSION_LEN)%nat then mret None
    else eigrp_sw_version_decode n payload tlv;; mret (Some v)
  else if type =? EIGRP_TLV_NEXT_MCAST_SEQ then
    if (length =? EIGRP_NEXT_SEQUENCE_TLV_SIZE)%nat
    then sequence ← read_be payload (tlv + 4) 4; mret (Some {| v with next_multicast_sequence := sequence |})
    else mret (Some v)
  else if type =? EIGRP_TLV_PEER_TERMINATION then
    if (length <? EIGRP_TLV_PEER_TERMINATION_LEN)%nat then mret None
    else eigrp_peer_termination_decode n payload tlv length own;; mret None
  else mret (Some v).

Fixpoint hello_walk (fuel : nat) (n : ptr) (payload : list Z) (tlv size : nat) (own : list Z) (v : hello_vars)
  : Ad (option hello_vars) :=
  match fuel with
  | O => ub
  | S fuel' =>
      type ← read_be payload tlv 2;
      len ← read_be payload (tlv + 2) 2;
      let length := Z.to_nat len in
      if (length <? tlv_hdr_size)%nat || (size <? length)%nat then mret None
      else
        out ← hello_tlv n payload tlv type length own v;
        match out with
        | None => mret None
        | Some v' =>
            if (size - length =? 0)%nat then mret (Some v')
            else hello_walk fuel' n payload (tlv + length) (size - length) own v'
        end
  end.

(** [source_allowed]: the verdict of [eigrp_nbr_static_source_allowed]; [ack]: the
    header's; [payload]: the bytes behind the header. *)
Definition eigrp_hello_receive (i : nat) (src : eigrp_addr) (source_allowed : bool) (ack : Z) (payload : list Z) : Ad unit :=
  ei ← get_intf i;
  let own := ai_address ei in
  valid ← nonnull (eigrp_hello_tlvs_validate payload (List.length own));
  if negb valid || negb source_allowed then mret tt
  else
    found ← eigrp_nbr_lookup i src;
    o ← (match found with Some n => mret (Some n) | None => eigrp_nbr_create i src end);
    let new_nbr := bool_decide (found = None) in
    match o with
    | None => mret tt
    | Some n =>
        when (new_nbr && ai_auth ei)
          (key_sequence ← read_bytes payload (off_key_sequence - header_len) 4;
           upd_nbr n (fun d => {| d with nb_crypt_seqnum := key_sequence |}));;
        out ← hello_walk (S (List.length payload)) n payload 0 (List.length payload) own
                {| parameter_seen := false; sequence_seen := false; sequence_listed := false;
                   next_multicast_sequence := 0 |};
        match out with
        | None => mret tt
        | Some v =>
            if negb (parameter_seen v) then when new_nbr (eigrp_nbr_delete n)
            else
              when (sequence_seen v)
                (let cr := negb (sequence_listed v) && negb (next_multicast_sequence v =? 0) in
                 upd_nbr n (fun d => {| d with nb_cr_mode := cr;
                                               nb_cr_sequence := if cr then next_multicast_sequence v else 0 |}));;
              when (new_nbr && (ack =? 0)) (eigrp_nbr_holddown_update n)
        end
    end.
