(* ===== verification/HelloProps.v ===== *)
(** * Reception of Hello packets: safety

    A Hello of any bytes is handled without undefined behaviour, preserves the
    adjacency invariant and changes no neighbor but the one it comes from. *)

From Stdlib Require Import ZArith Lia.
From stdpp Require Import base gmap list.
From S2P Require Import Prelude Types Metric Rtt Stream BlockHash Auth Ingress IngressProps Timers Neighbor NeighborProps Limits LimitsProps AfLimits Hello.

(** ** Operations on one neighbor *)

Record alone (n : ptr) (s s' : adj) : Prop := {
  al_others : forall m, m <> n -> ad_nbrs s' !! m = ad_nbrs s !! m;
  al_config : config_part s' = config_part s;
}.

#[export] Instance alone_preorder n : PreOrder (alone n).
Proof.
  split; [by intros s|]. intros s s' s'' [A1 A2] [B1 B2]. split; [|congruence].
  intros m Hm. by rewrite B1, A1.
Qed.

Lemma touch_alone n s s' : touch n s s' -> alone n s s'.
Proof. intros T. split; [apply T|by eapply touch_config]. Qed.

Lemma gone_alone n s s' : gone n s s' -> alone n s s'.
Proof. intros [G1 G2 G3 G4 G5 G6]. split; [done|]. injection G4 as ?. unfold config_part. congruence. Qed.

(** Live, and not marked for a prefix-limit cleanup. *)
Definition calm (n : ptr) (s : adj) : Prop := exists d, ad_nbrs s !! n = Some d /\ nb_cleanup_pending d = false.

Lemma calm_quiet n s : calm n s -> quiet n s.
Proof. intros (d & Hn & Hc) d'. rewrite Hn. by intros [= <-]. Qed.
Lemma gone_quiet n s s' : gone n s s' -> quiet n s'.
Proof. intros G d. by rewrite (gn_gone _ _ _ G). Qed.
#[local] Hint Resolve calm_quiet gone_quiet : core.

(** The fields the invariant speaks of. *)
Definition core (d : nbr) :=
  (nb_ei d, nb_published d, nb_state d, nb_limit_state d, nb_af_suspended d, nb_cleanup_pending d, nb_retrans_queue d).

Lemma ok_upd_plain n f d s (Q : unit -> adj -> Prop) :
  adj_ok s -> ad_nbrs s !! n = Some d -> core (f d) = core d ->
  (forall s', adj_ok s' -> touch n s s' -> ad_nbrs s' !! n = Some (f d) -> ad_timers s' = ad_timers s -> Q tt s') ->
  wp (upd_nbr n f) Q s.
Proof.
  intros O Hn Hf HQ. eapply wp_mono; [eapply (wp_ok_op n _ s d (fun _ s' => ad_nbrs s' !! n = Some (f d) /\ ad_timers s' = ad_timers s))|].
  - done.
  - done.
  - apply touch_upd_nbr.
  - unfold upd_nbr, get_nbr. apply wp_bind, wp_bind, wp_gets. rewrite Hn. apply wp_ret, wp_modify. cbn.
    by rewrite lookup_insert_eq.
  - injection Hf as E1 E2 E3 E4 E5 E6 E7. intros [] s' [Hn' Et]. exists (f d). split; [done|]. rewrite Et. split; [done|done| | | |].
    + intros P. rewrite E3. apply (ao_down _ O _ _ Hn). unfold penalized in *. by rewrite <- E4, <- E5, <- E6.
    + rewrite E2, E7. by eapply ok_queue.
    + intros R. apply (ao_hold _ O _ _ Hn). unfold restrained in *. by rewrite <- E4, <- E5.
    + rewrite E6. intros Hp R. apply (ao_pend _ O _ _ Hn Hp). unfold restrained in *. by rewrite <- E4, <- E5.
  - intros [] s' (O' & T & Hn' & Et). by apply HQ.
Qed.

Lemma ok_record_call c s (Q : unit -> adj -> Prop) :
  adj_ok s -> (forall s', adj_ok s' -> said s s' -> Q tt s') -> wp (record_call c) Q s.
Proof. intros O HQ. apply wp_modify, HQ; [by eapply ok_aux|by eexists]. Qed.

Lemma said_alone n s s' : said s s' -> alone n s s'.
Proof. by intros [l ->]. Qed.

Lemma said_calm n s s' : said s s' -> calm n s -> calm n s'.
Proof. by intros [l ->]. Qed.

(** ** The decoders *)

Section payload.
Context (payload : list Z).

Lemma wp_hello_read_be pos n (Q : Z -> adj -> Prop) s :
  (pos + n <= length payload)%nat -> Q (from_be (slice payload pos n)) s -> wp (Hello.read_be payload pos n) Q s.
Proof. intros H HQ. unfold Hello.read_be. rewrite rd_be_some by done. by apply wp_ret. Qed.

Lemma wp_read_bytes pos n (Q : list Z -> adj -> Prop) s :
  (pos + n <= length payload)%nat -> Q (slice payload pos n) s -> wp (read_bytes payload pos n) Q s.
Proof. intros H HQ. unfold read_bytes. rewrite rd_some by done. by apply wp_ret. Qed.

(** The end of the Parameter TLV: the start of an adjacency. *)
Lemma ok_start n d s :
  adj_ok s -> ad_nbrs s !! n = Some d -> nb_cleanup_pending d = false ->
  wp (record_call (eigrp_hello_send (nb_ei d) (Some (nb_src d)) false);;
      record_call (eigrp_update_send_init n);;
      eigrp_nbr_state_update n EIGRP_NEIGHBOR_PENDING)
    (fun _ s' => adj_ok s' /\ alone n s s' /\ calm n s') s.
Proof.
  intros O Hn Hc. apply wp_bind, ok_record_call; [done|]. intros s1 O1 S1. apply wp_bind, ok_record_call; [done|].
  intros s2 O2 S2. assert (said s s2) as S by by etrans.
  assert (ad_nbrs s2 !! n = Some d) as Hn2 by (destruct S as [l ->]; done).
  unfold eigrp_nbr_state_update. eapply wp_mono; [eapply ok_state_update; [done|exact Hn2|by right]|].
  intros [] s3 (O3 & T3 & d3 & Hn3 & _ & Hc3 & _). split; [done|].
  split; [etrans; [by apply said_alone|by apply touch_alone]|]. exists d3. split; [done|congruence].
Qed.

Lemma ok_parameter_decode n tlv allowed s :
  adj_ok s -> calm n s -> (tlv + EIGRP_TLV_PARAMETER_LEN <= length payload)%nat ->
  wp (eigrp_hello_parameter_decode n payload tlv allowed)
    (fun o s' => adj_ok s' /\ alone n s s' /\ quiet n s' /\ (o <> None -> calm n s')) s.
Proof.
  intros O (d & Hn & Hc) Hlen. unfold EIGRP_TLV_PARAMETER_LEN in Hlen. unfold eigrp_hello_parameter_decode.
  apply wp_bind, wp_read_bytes; [lia|]. set (K := slice payload (tlv + 4) 6). apply wp_bind. unfold eigrp_hello_k_update.
  eapply ok_upd_plain; [done|exact Hn|done|]. intros s1 O1 T1 Hn1 _. apply wp_bind, wp_hello_read_be; [unfold off_hold_time; lia|].
  apply wp_bind. eapply ok_upd_plain; [done|exact Hn1|done|]. intros s2 O2 T2 Hn2 _. cbn in Hn2.
  set (d2 := {| nb_ei := _ |}) in Hn2. assert (alone n s s2) as A2 by (etrans; by apply touch_alone).
  destruct (eigrp_hello_goodbye K).
  { eapply wp_mono; [|intros o s' H; exact H].
    assert (wp (eigrp_nbr_state_update_reason n EIGRP_NEIGHBOR_DOWN;; eigrp_nbr_delete n)
      (fun _ s' => adj_ok s' /\ gone n s2 s') s2) as W by by eapply ok_down_delete.
    apply wp_bind in W. apply wp_bind. eapply wp_mono; [exact W|]. intros [] s3 W3. apply wp_bind.
    eapply wp_mono; [exact W3|]. intros [] s4 [O4 G4]. apply wp_ret. split; [done|].
    split; [etrans; [exact A2|by apply gone_alone]|]. split; [by eauto|done]. }
  apply wp_bind. apply (wp_adj_nbr _ _ _ _ (ok_at _ _ _ O2 Hn2)). apply wp_bind, wp_gets.
  assert (forall s3, adj_ok s3 -> alone n s2 s3 -> calm n s3 ->
    adj_ok s3 /\ alone n s s3 /\ quiet n s3 /\ (Some n <> None -> calm n s3)) as Hend.
  { intros s3 O3 A3 C3. split; [done|]. split; [by etrans|]. split; [auto|done]. }
  destruct (eigrp_hello_k_match (ad_k_values s2) d2); cbn [negb].
  - destruct allowed; cbn [negb]; [|apply wp_ret; apply Hend; [done|done|by exists d2]].
    apply wp_bind, wp_when. case_match; [|apply wp_ret; apply Hend; [done|done|by exists d2]].
    eapply wp_mono; [by apply ok_start|]. intros [] s3 (O3 & A3 & C3). apply wp_ret. by apply Hend.
  - apply wp_bind, wp_when. case_match; [|apply wp_ret; apply Hend; [done|done|by exists d2]].
    eapply wp_mono; [eapply ok_state_update; [done|exact Hn2|by left]|].
    intros [] s3 (O3 & T3 & d3 & Hn3 & _ & Hc3 & _). apply wp_ret. apply Hend; [done|by apply touch_alone|].
    exists d3. split; [done|by rewrite Hc3].
Qed.

Lemma ok_codec_select n v d s :
  adj_ok s -> ad_nbrs s !! n = Some d ->
  wp (eigrp_nbr_codec_select n v) (fun _ s' => adj_ok s' /\ touch n s s' /\ exists d', ad_nbrs s' !! n = Some d'
    /\ core d' = core d) s.
Proof.
  intros O Hn. unfold eigrp_nbr_codec_select. apply wp_bind. apply (wp_adj_nbr _ _ _ _ (ok_at _ _ _ O Hn)). case_match.
  - eapply ok_upd_plain; [done|exact Hn|done|]. intros s1 O1 T1 Hn1 _. split; [done|]. split; [done|]. by eexists.
  - apply wp_ret. split; [done|]. split; [reflexivity|]. by exists d.
Qed.

Lemma ok_sw_version_decode n tlv s :
  adj_ok s -> calm n s -> (tlv + EIGRP_TLV_SW_VERSION_LEN <= length payload)%nat ->
  wp (eigrp_sw_version_decode n payload tlv) (fun _ s' => adj_ok s' /\ alone n s s' /\ calm n s') s.
Proof.
  intros O (d & Hn & Hc) Hlen. unfold EIGRP_TLV_SW_VERSION_LEN in Hlen. unfold eigrp_sw_version_decode.
  do 4 (apply wp_bind, wp_hello_read_be; [lia|]). apply wp_bind. eapply ok_upd_plain; [done|exact Hn|done|].
  intros s1 O1 T1 Hn1 _. apply wp_bind, wp_gets. eapply wp_mono; [by eapply ok_codec_select|].
  intros [] s2 (O2 & T2 & d2 & Hn2 & [= E1 E2 E3 E4 E5 E6 E7]). split; [done|].
  split; [etrans; by apply touch_alone|]. exists d2. split; [done|congruence].
Qed.

Lemma peer_termination_walk_total fuel tlv offset len own :
  (len <= offset + fuel)%nat -> (tlv + len <= length payload)%nat ->
  exists b, peer_termination_walk fuel payload tlv offset len own = Some b.
Proof.
  revert offset. induction fuel as [|fuel IH]; intros offset Hf Hl; cbn [peer_termination_walk];
    (destruct (Nat.ltb_spec offset len); [|by eexists]); [lia|].
  rewrite rd_be_some by lia. cbn [mbind option_bind]. set (e := from_be _).
  destruct (Z.eqb_spec e 0); cbn [orb]; [by eexists|]. destruct (Z.ltb_spec (Z.of_nat len) (Z.of_nat (offset + 1) + e)); [by eexists|].
  rewrite rd_some by lia. cbn [mbind option_bind]. case_match; [by eexists|]. apply IH; lia.
Qed.

Lemma sequence_walk_total fuel tlv offset len own listed :
  (len <= offset + fuel)%nat -> (tlv + len <= length payload)%nat ->
  exists b, sequence_walk fuel payload tlv offset len own listed = Some b.
Proof.
  revert offset listed. induction fuel as [|fuel IH]; intros offset listed Hf Hl; cbn [sequence_walk];
    (destruct (Nat.ltb_spec offset len); [|by eexists]); [lia|].
  rewrite rd_be_some by lia. cbn [mbind option_bind]. set (e := from_be _).
  destruct (Z.eqb_spec e 0); cbn [orb]; [by eexists|]. destruct (Z.ltb_spec (Z.of_nat len) (Z.of_nat (offset + 1) + e)); [by eexists|].
  rewrite rd_some by lia. cbn [mbind option_bind]. apply IH; lia.
Qed.

Lemma ok_peer_termination n tlv len own s :
  adj_ok s -> calm n s -> (tlv + len <= length payload)%nat ->
  wp (eigrp_peer_termination_decode n payload tlv len own) (fun _ s' => adj_ok s' /\ alone n s s' /\ quiet n s') s.
Proof.
  intros O (d & Hn & Hc) Hlen. unfold eigrp_peer_termination_decode, eigrp_peer_termination_contains.
  destruct (peer_termination_walk_total len tlv tlv_hdr_size len own) as [b ->]; [lia|lia|].
  apply wp_bind, wp_ret, wp_when. destruct b; [|split; [done|]; split; [done|]; apply calm_quiet; by exists d].
  eapply wp_mono; [by eapply ok_down_delete|]. intros [] s' [O' G]. split; [done|]. split; [by apply gone_alone|by eauto].
Qed.

(** One TLV inside the payload: the neighbor stays unless the walk ends. *)
Lemma ok_hello_tlv n tlv type len own v s :
  adj_ok s -> calm n s -> (4 <= len)%nat -> (tlv + len <= length payload)%nat ->
  wp (hello_tlv n payload tlv type len own v)
    (fun o s' => adj_ok s' /\ alone n s s' /\ quiet n s' /\ (o <> None -> calm n s')) s.
Proof.
  intros O C H4 Hlen. unfold hello_tlv.
  assert (forall o, wp (mret o : Ad (option hello_vars)) (fun o s' => adj_ok s' /\ alone n s s' /\ quiet n s' /\ (o <> None -> calm n s')) s) as Hret.
  { intros o. apply wp_ret. split; [done|]. split; [done|]. split; [auto|done]. }
  case_match.
  { destruct (Nat.ltb_spec len EIGRP_TLV_PARAMETER_LEN); [done|]. apply wp_bind.
    eapply wp_mono; [apply ok_parameter_decode; [done|done|lia]|]. intros o s1 (O1 & A1 & Q1 & C1). apply wp_ret.
    split; [done|]. split; [done|]. split; [done|]. destruct (bool_decide_reflect (o = None)); [done|]. auto. }
  case_match.
  { case_match; [done|]. destruct (sequence_walk_total len tlv tlv_hdr_size len own false) as [b ->]; [lia|lia|].
    apply wp_bind, wp_ret. by apply Hret. }
  case_match.
  { destruct (Nat.ltb_spec len EIGRP_TLV_SW_VERSION_LEN); [done|]. apply wp_bind.
    eapply wp_mono; [apply ok_sw_version_decode; [done|done|lia]|]. intros [] s1 (O1 & A1 & C1). apply wp_ret.
    split; [done|]. split; [done|]. split; [auto|done]. }
  case_match.
  { destruct (Nat.eqb_spec len EIGRP_NEXT_SEQUENCE_TLV_SIZE); [|done]. apply wp_bind, wp_hello_read_be; [|done].
    unfold EIGRP_NEXT_SEQUENCE_TLV_SIZE in *. lia. }
  case_match; [|done]. case_match; [done|]. apply wp_bind. eapply wp_mono; [by apply ok_peer_termination|].
  intros [] s1 (O1 & A1 & Q1). by apply wp_ret.
Qed.

Lemma hello_walk_step fuel cursor remaining expected seen :
  (remaining <> 0)%nat ->
  hello_tlvs_walk fuel payload cursor remaining expected seen = Some true ->
  exists fuel' seen', fuel = S fuel'
    /\ (4 <= Z.to_nat (from_be (slice payload (cursor + 2) 2)) <= remaining)%nat /\ (4 <= remaining)%nat
    /\ hello_tlvs_walk fuel' payload (cursor + Z.to_nat (from_be (slice payload (cursor + 2) 2)))
         (remaining - Z.to_nat (from_be (slice payload (cursor + 2) 2))) expected seen' = Some true.
Proof.
  intros Hr. destruct fuel as [|fuel]; cbn [hello_tlvs_walk]; (destruct (Nat.eqb_spec remaining 0); [done|]); [done|].
  destruct (Nat.ltb_spec remaining tlv_hdr_size) as [?|H4]; [done|]. unfold tlv_hdr_size in *.
  destruct (rd_be payload cursor 2) as [t|] eqn:Et; [|done]. cbn [mbind option_bind].
  destruct (rd_be payload (cursor + 2) 2) as [l|] eqn:El; [|done]. cbn [mbind option_bind].
  assert (l = from_be (slice payload (cursor + 2) 2)) as ->.
  { revert El. unfold rd_be, rd. case_match; [|done]. by intros [= <-]. }
  destruct (Nat.ltb_spec (Z.to_nat (from_be (slice payload (cursor + 2) 2))) 4); cbn [orb]; [done|].
  destruct (Nat.ltb_spec remaining (Z.to_nat (from_be (slice payload (cursor + 2) 2)))); [done|].
  destruct (hello_tlv_check _ _ _ _ _) as [[c|]|]; [|done|done]. cbn [mbind option_bind]. intros E.
  by exists fuel, (seen || c).
Qed.

Lemma ok_hello_walk fuel fuel' n tlv size own v expected seen s :
  adj_ok s -> calm n s -> (size <> 0)%nat -> (size <= fuel)%nat -> (tlv + size = length payload)%nat ->
  hello_tlvs_walk fuel' payload tlv size expected seen = Some true ->
  wp (hello_walk fuel n payload tlv size own v)
    (fun o s' => adj_ok s' /\ alone n s s' /\ quiet n s' /\ (o <> None -> calm n s')) s.
Proof.
  revert fuel' tlv size v seen s. induction fuel as [|fuel IH]; intros fuel' tlv size v seen s O C Hs Hf Hl E; [lia|].
  cbn [hello_walk]. destruct (hello_walk_step _ _ _ _ _ Hs E) as (f' & seen' & -> & [H4 Hle] & Hsz & E').
  do 2 (apply wp_bind, wp_hello_read_be; [lia|]). cbv zeta. set (len := Z.to_nat (from_be (slice payload (tlv + 2) 2))) in *.
  unfold tlv_hdr_size. destruct (Nat.ltb_spec len 4); [lia|]. cbn [orb]. destruct (Nat.ltb_spec size len); [lia|].
  apply wp_bind. eapply wp_mono; [apply ok_hello_tlv; [done|done|lia|lia]|]. intros o s1 (O1 & A1 & Q1 & C1).
  destruct o as [v'|]; [|by apply wp_ret]. specialize (C1 ltac:(done)).
  destruct (Nat.eqb_spec (size - len) 0); [by apply wp_ret|].
  eapply wp_mono; [eapply (IH f'); [done|done|done|lia|lia|exact E']|]. intros o s2 (O2 & A2 & Q2 & C2).
  split; [done|]. split; [by etrans|done].
Qed.
End payload.

(** ** The whole packet *)

(** The first neighbor of a list with the source address. *)
Definition first_match (s : adj) (src : eigrp_addr) (l : list ptr) : option ptr :=
  List.find (fun n => match ad_nbrs s !! n with Some d => bool_decide (src = nb_src d) | None => false end) l.

Lemma wp_lookup i src ei s (Q : option ptr -> adj -> Prop) :
  adj_ok s -> ad_intfs s !! i = Some ei -> Q (first_match s src (ai_nbrs ei)) s ->
  wp (Neighbor.eigrp_nbr_lookup i src) Q s.
Proof.
  intros O Hi HQ. unfold Neighbor.eigrp_nbr_lookup, get_intf. apply wp_bind, wp_bind, wp_gets. rewrite Hi. apply wp_ret.
  assert (forall n, n ∈ ai_nbrs ei -> is_Some (ad_nbrs s !! n)) as Hlive.
  { intros n Hn. destruct (ao_links _ O _ _ _ Hi Hn) as (d & Hd & _). by exists d. }
  revert HQ Hlive. unfold first_match. induction (ai_nbrs ei) as [|n l IH]; intros HQ Hlive; cbn [mfind].
  { by apply wp_ret. }
  destruct (Hlive n) as [d Hd]; [set_solver|]. apply wp_bind, wp_bind. unfold get_nbr.
  apply wp_bind, wp_gets. rewrite Hd. apply wp_ret, wp_ret. cbn [List.find] in HQ. rewrite Hd in HQ.
  unfold eigrp_addr_match. destruct (bool_decide (src = nb_src d)); [by apply wp_ret|].
  apply IH; [done|]. intros m Hm. apply Hlive. set_solver.
Qed.

Lemma first_match_found s src l n :
  first_match s src l = Some n -> n ∈ l /\ exists d, ad_nbrs s !! n = Some d /\ nb_src d = src.
Proof.
  unfold first_match. intros [Hin E]%find_some. split; [by apply list_elem_of_In|].
  destruct (ad_nbrs s !! n) as [d|]; [|done]. apply bool_decide_eq_true in E. by exists d.
Qed.

(** The neighbor a packet of [src] on interface [i] speaks of: the published one with
    that source, or a new one. *)
Definition subject (i : nat) (src : eigrp_addr) (n : ptr) (s : adj) : Prop :=
  (exists ei, ad_intfs s !! i = Some ei /\ first_match s src (ai_nbrs ei) = Some n) \/ ad_nbrs s !! n = None.

Record heard (i : nat) (src : eigrp_addr) (s s' : adj) : Prop := {
  hd_ok : adj_ok s';
  hd_alone : exists n, subject i src n s /\ alone n s s';
  hd_pending : no_pending s';
}.

Lemma heard_same i src s : adj_ok s -> no_pending s -> heard i src s s.
Proof.
  intros O P. split; [done| |done]. exists (ad_next_nbr s). split; [right; by apply next_nbr_free|done].
Qed.

Lemma alone_pending n s s' : no_pending s -> alone n s s' -> quiet n s' -> no_pending s'.
Proof.
  intros P [A _] Q m d. destruct (decide (m = n)) as [->|Hm]; [by apply Q|]. rewrite A by done. by apply P.
Qed.

(** What follows the walk: conditional receive and the hold timer. *)
Lemma ok_hello_finish n new_nbr v ack s :
  adj_ok s -> calm n s ->
  wp (if negb (parameter_seen v) then when new_nbr (eigrp_nbr_delete n)
      else
        when (sequence_seen v)
          (let cr := negb (sequence_listed v) && negb (next_multicast_sequence v =? 0) in
           upd_nbr n (fun d => {| d with nb_cr_mode := cr; nb_cr_sequence := if cr then next_multicast_sequence v else 0 |}));;
        when (new_nbr && (ack =? 0)) (Neighbor.eigrp_nbr_holddown_update n))
    (fun _ s' => adj_ok s' /\ alone n s s' /\ quiet n s') s.
Proof.
  intros O (d & Hn & Hc). destruct (negb (parameter_seen v)).
  { apply wp_when. destruct new_nbr; [|split; [done|]; split; [done|]; apply calm_quiet; by exists d].
    eapply wp_mono; [by eapply ok_delete|]. intros [] s1 [O1 G1]. split; [done|]. split; [by apply gone_alone|by eapply gone_quiet]. }
  apply wp_bind. eapply (wp_mono _ (fun _ s1 => adj_ok s1 /\ alone n s s1 /\ calm n s1)).
  { apply wp_when. destruct (sequence_seen v); [|split; [done|]; split; [done|by exists d]]. cbv zeta.
    eapply ok_upd_plain; [done|exact Hn|done|]. intros s1 O1 T1 Hn1 _. split; [done|]. split; [by apply touch_alone|]. by eexists. }
  intros [] s1 (O1 & A1 & d1 & Hn1 & Hc1). apply wp_when.
  destruct (new_nbr && (ack =? 0)); [|split; [done|]; split; [done|]; apply calm_quiet; by exists d1].
  eapply wp_mono; [by apply ok_holddown_update|]. intros [] s2 (O2 & T2 & Hn2 & _). split; [done|].
  split; [etrans; [done|by apply touch_alone]|]. intros x. rewrite Hn2. by intros [= <-].
Qed.

(** The neighbor of the packet: found, or created. *)
Lemma ok_hello_nbr i ei src s :
  adj_ok s -> no_pending s -> ad_intfs s !! i = Some ei ->
  wp (match first_match s src (ai_nbrs ei) with Some n => mret (Some n) | None => eigrp_nbr_create i src end)
    (fun o s1 => adj_ok s1 /\ no_pending s1 /\ match o with
       | Some n => subject i src n s /\ alone n s s1 /\ calm n s1
       | None => exists n, subject i src n s /\ alone n s s1 end) s.
Proof.
  intros O P Hi. destruct (first_match s src (ai_nbrs ei)) as [n|] eqn:Hfound.
  - apply wp_ret. destruct (first_match_found _ _ _ _ Hfound) as (Hin & d & Hn & Hs). split; [done|]. split; [done|].
    destruct (ao_links _ O _ _ _ Hi Hin) as (x & Hx & _ & Hpub). rewrite Hn in Hx. injection Hx as <-.
    split; [left; by exists ei|]. split; [done|]. exists d. split; [done|by apply (P n)].
  - eapply wp_mono; [by eapply ok_create|]. intros o s1 [C1 C2 C3 C4]. split; [done|].
    assert (alone (ad_next_nbr s) s s1) as A by by split.
    destruct o as [n|]; [destruct C4 as (-> & d & Hn & W)|].
    + assert (calm (ad_next_nbr s) s1) as C.
      { exists d. split; [done|]. destruct (nb_cleanup_pending d) eqn:E; [|done]. exfalso. apply (nw_clean _ _ _ W). right. by right. }
      split; [eapply alone_pending; [done|done|by apply calm_quiet]|]. split; [right; by apply next_nbr_free|done].
    + split; [eapply alone_pending; [done|done|]; intros x; by rewrite C4|].
      exists (ad_next_nbr s). split; [right; by apply next_nbr_free|done].
Qed.

(** A Hello of any bytes. *)
Lemma ok_hello_receive i ei src source_allowed ack payload s :
  adj_ok s -> no_pending s -> ad_intfs s !! i = Some ei -> Forall byte payload ->
  (ai_auth ei = true -> (16 <= length payload)%nat) ->
  wp (eigrp_hello_receive i src source_allowed ack payload) (fun _ s' => heard i src s s') s.
Proof.
  intros O P Hi Hb Hauth. unfold eigrp_hello_receive, get_intf. apply wp_bind, wp_bind, wp_gets. rewrite Hi. apply wp_ret.
  destruct (hello_tlvs_validate_total payload Hb (length (ai_address ei))) as [valid Hv]. rewrite Hv.
  apply wp_bind, wp_ret. case_match eqn:Eg; [apply wp_ret; by apply heard_same|]. apply orb_false_iff in Eg as [Eg _].
  apply negb_false_iff in Eg. subst valid. apply wp_bind. eapply wp_lookup; [done|done|].
  apply wp_bind. eapply wp_mono; [by apply ok_hello_nbr|]. cbv zeta.
  intros o s1 (O1 & P1 & Ho). destruct o as [n|]; [|apply wp_ret; by split]. destruct Ho as (Sub & A1 & d1 & Hn1 & Hc1).
  assert (forall s2, adj_ok s2 -> alone n s1 s2 -> quiet n s2 -> heard i src s s2) as Hend.
  { intros s2 O2 A2 Q2. split; [done| |by eapply alone_pending]. exists n. split; [done|by etrans]. }
  apply wp_bind. eapply (wp_mono _ (fun _ s2 => adj_ok s2 /\ alone n s1 s2 /\ calm n s2)).
  { apply wp_when. destruct (_ && ai_auth ei) eqn:Ea; [|split; [done|]; split; [done|by exists d1]].
    apply andb_true_iff in Ea as [_ Ea]. apply wp_bind, wp_read_bytes; [specialize (Hauth Ea); unfold off_key_sequence, header_len; lia|].
    eapply ok_upd_plain; [done|exact Hn1|done|]. intros s2 O2 T2 Hn2 _. split; [done|]. split; [by apply touch_alone|]. by eexists. }
  intros [] s2 (O2 & A2 & C2). apply wp_bind.
  assert (length payload <> 0)%nat as Hne.
  { intros E0. unfold eigrp_hello_tlvs_validate in Hv. rewrite E0 in Hv. done. }
  eapply wp_mono; [eapply ok_hello_walk; [done|done|done|lia|lia|exact Hv]|]. intros out s3 (O3 & A3 & Q3 & C3).
  destruct out as [v|]; [|apply wp_ret; apply Hend; [done|by etrans|done]].
  eapply wp_mono; [apply ok_hello_finish; [done|by apply C3]|]. intros [] s4 (O4 & A4 & Q4).
  apply Hend; [done| |done]. etrans; [exact A2|]. by etrans.
Qed.
