(* ===== verification/Dispatch.v ===== *)
(** * Packet dispatch and teardown commands

    The address family's side of a received packet (eigrp_packet.c): the checks before
    a handler runs, the handler, and the prefix-limit work that waits for its end; and
    the operations that end adjacencies: the clear command (eigrp_neighbor.c), an
    interface going down (eigrp_interface.c) and the retransmission limit. *)

From Stdlib Require Import ZArith Lia.
From stdpp Require Import base gmap list.
From S2P Require Import Prelude Types Metric Rtt Stream BlockHash Auth Ingress Timers Neighbor Limits Hello.

Definition EIGRP_CR_FLAG : Z := 2.
Definition EIGRP_OPC_PROBE : Z := 7.

(** ** What the handlers do to neighbors *)

(** [unreachable]: the composite of the metric is [EIGRP_MAX_METRIC]. *)
Definition eigrp_nbr_route_admit (n : ptr) (unreachable present known : bool) (count : Z) : Ad bool :=
  if unreachable then mret false
  else
    admitted ← eigrp_nbr_prefix_admit n present;
    if admitted : bool then eigrp_topology_prefix_admit known count else mret false.

(** The INIT of a peer that restarted, in [eigrp_update_receive]. *)
Definition peer_restart (n : ptr) (sequence : Z) : Ad unit :=
  eigrp_nbr_state_update_reason n EIGRP_NEIGHBOR_DOWN;;
  record_call (eigrp_topology_neighbor_down n);;
  upd_nbr n (fun d => {| d with nb_peer_init_sequence := sequence;
                               nb_peer_init_retransmit_eligible := negb (sequence =? 0);
                               nb_recv_sequence := sequence |});;
  eigrp_nbr_state_update n EIGRP_NEIGHBOR_PENDING;;
  Neighbor.eigrp_nbr_holddown_update n;;
  record_call (eigrp_update_send_init n).

(** The end of the three-way handshake in [eigrp_packet_ack]; [init_acked]: the
    transport found the acknowledged packet to be the INIT at the head of the queue. *)
Definition ack_init (n : ptr) (init_acked : bool) (sequence : Z) : Ad unit :=
  nbr ← get_nbr n;
  when (init_acked && (nb_state nbr =? EIGRP_NEIGHBOR_PENDING))
    (eigrp_nbr_state_update n EIGRP_NEIGHBOR_UP;;
     upd_nbr n (fun d => {| d with nb_init_sequence := 0; nb_recv_sequence := sequence |});;
     record_call (eigrp_update_send_EOT n)).

(** ** The dispatcher *)

(** A packet as it is taken from the queue: the interface found for its index, the
    verdict of the header validation, the header's fields and the bytes behind it. *)
Record queued_packet := {
  qp_intf : option nat;
  qp_source : eigrp_addr;
  qp_source_allowed : bool;
  qp_multicast : bool;
  qp_valid : bool;
  qp_authenticated : bool;
  qp_generation : Z;
  qp_opcode : Z;
  qp_flags : Z;
  qp_sequence : Z;
  qp_ack : Z;
  qp_init_acked : bool;
  qp_payload : list Z;
}.

(** [nbr->published && eigrp_auth_discovery_sequence_accept(nbr, eigrph)]. *)
Definition discovery_accept (n : ptr) (auth : bool) (payload : list Z) : Ad bool :=
  nbr ← get_nbr n;
  if negb (nb_published nbr) then mret false
  else if negb auth then mret true
  else
    key_sequence ← read_bytes payload (off_key_sequence - header_len) 4;
    if eigrp_auth_sequence_newer key_sequence (nb_crypt_seqnum nbr)
    then upd_nbr n (fun d => {| d with nb_crypt_seqnum := key_sequence |});; mret true
    else mret false.

(** Conditional receive: whether the packet is for this router. *)
Definition conditional_receive (n : ptr) (p : queued_packet) : Ad bool :=
  let clear := upd_nbr n (fun d => {| d with nb_cr_mode := false; nb_cr_sequence := 0 |}) in
  nbr ← get_nbr n;
  when (negb (qp_multicast p) && nb_cr_mode nbr && (nb_cr_sequence nbr =? qp_sequence p)) clear;;
  if qp_multicast p && (qp_flags p .? EIGRP_CR_FLAG) then
    nbr ← get_nbr n;
    if negb (nb_cr_mode nbr) || (negb (nb_cr_sequence nbr =? 0) && negb (nb_cr_sequence nbr =? qp_sequence p))
    then mret false
    else clear;; mret true
  else mret true.

Definition dual_opcode (opcode : Z) : bool :=
  (opcode =? EIGRP_OPC_QUERY) || (opcode =? EIGRP_OPC_REPLY)
  || (opcode =? EIGRP_OPC_SIAQUERY) || (opcode =? EIGRP_OPC_SIAREPLY).

Section dispatch.
(** The receive function of an opcode. *)
Context (receive : Z -> ptr -> Ad unit).

(** A packet that needs a neighbor. *)
Definition packet_receive (n : ptr) (p : queued_packet) : Ad unit :=
  wanted ← conditional_receive n p;
  if negb wanted then mret tt
  else
    when (negb (qp_ack p =? 0)) (ack_init n (qp_init_acked p) (qp_sequence p));;
    nbr ← get_nbr n;
    if negb (nb_state nbr =? EIGRP_NEIGHBOR_UP) && dual_opcode (qp_opcode p) then mret tt
    else
      modify (fun s => {| s with ad_af_pkt_active := true |});;
      when (dual_opcode (qp_opcode p) || (qp_opcode p =? EIGRP_OPC_UPDATE)) (receive (qp_opcode p) n);;
      modify (fun s => {| s with ad_af_pkt_active := false |});;
      pending ← gets ad_af_cleanup_pending;
      when pending eigrp_pfxlimits_state_cleanup;;
      nbr ← get_nbr n;
      when (nb_cleanup_pending nbr) (eigrp_nbr_limit_cleanup n).

Definition eigrp_packet_input_process (p : queued_packet) : Ad unit :=
  match qp_intf p with
  | None => mret tt
  | Some i =>
      ei ← get_intf i;
      if ai_passive ei || negb (qp_valid p) then mret tt
      else
        af_state ← gets ad_af_state;
        if negb (af_state =? 0) && (qp_opcode p =? EIGRP_OPC_HELLO) then mret tt
        else
          found ← Neighbor.eigrp_nbr_lookup i (qp_source p);
          eligible ← (match found with Some n => Neighbor.eigrp_nbr_is_eligible n | None => mret true end);
          if negb eligible then mret tt
          else
            current ← (match found with
                       | Some n => nbr ← get_nbr n; mret (nb_generation nbr =? qp_generation p)
                       | None => mret false
                       end);
            if negb (qp_authenticated p) || (negb (qp_generation p =? 0) && negb current) then mret tt
            else if qp_opcode p =? EIGRP_OPC_HELLO then
              fresh ← (match found with
                       | Some n => if qp_generation p =? 0 then discovery_accept n (ai_auth ei) (qp_payload p) else mret true
                       | None => mret true
                       end);
              if negb fresh then mret tt
              else if negb (qp_ack p =? 0) then
                match found with Some n => ack_init n (qp_init_acked p) (qp_sequence p) | None => mret tt end
              else eigrp_hello_receive i (qp_source p) (qp_source_allowed p) (qp_ack p) (qp_payload p)
            else
              match found with Some n => packet_receive n p | None => mret tt end
  end.
End dispatch.

(** ** Teardown *)

(** [eigrp_packet_retransmit_limit_exceeded], and the teardown of a neighbor that is
    stuck in active. *)
Definition eigrp_packet_retransmit_limit_exceeded (n : ptr) : Ad unit :=
  eigrp_nbr_state_update_reason n EIGRP_NEIGHBOR_DOWN;;
  eigrp_nbr_delete n.

(** The neighbors of an interface that goes down. *)
Definition intf_nbrs_down (i : nat) : Ad unit :=
  ei ← get_intf i;
  mfor (ai_nbrs ei) (fun n => eigrp_nbr_state_update_reason n EIGRP_NEIGHBOR_DOWN;; eigrp_nbr_delete n);;
  upd_intf i eigrp_intf_encoder_clear.

Definition eigrp_nbr_clear_address_match (nbr : nbr) (address : eigrp_address) : bool :=
  if afi address =? EIGRP_AFI_IPV6
  then (addr_afi (nb_src nbr) =? AF_INET6) && bool_decide (take 16 (addr_ip (nb_src nbr)) = take 16 (bytes address))
  else if afi address =? EIGRP_AFI_IPV4
  then (addr_afi (nb_src nbr) =? AF_INET) && bool_decide (take 4 (addr_ip (nb_src nbr)) = take 4 (bytes address))
  else false.

Definition eigrp_nbr_clear_hard (n : ptr) (peer_termination : bool) : Ad unit :=
  nbr ← get_nbr n;
  when (peer_termination && negb (nb_state nbr =? EIGRP_NEIGHBOR_DOWN))
    (record_call (eigrp_hello_send (nb_ei nbr) (Some (nb_src nbr)) true));;
  eigrp_nbr_state_update_reason n EIGRP_NEIGHBOR_DOWN;;
  eigrp_nbr_delete n.

Definition eigrp_nbr_clear_soft (n : ptr) : Ad unit := record_call (eigrp_update_send_GR n).

(** The loop over one interface: the number of neighbors affected. *)
Fixpoint clear_nbrs (soft : bool) (ns : list ptr) (affected : Z) : Ad Z :=
  match ns with
  | [] => mret affected
  | n :: ns' =>
      nbr ← get_nbr n;
      if negb soft && (nb_state nbr =? EIGRP_NEIGHBOR_DOWN) && bool_decide (nb_limit_state nbr = EIGRP_NBR_LIMIT_NONE)
      then clear_nbrs soft ns' affected
      else
        (if soft then eigrp_nbr_clear_soft n else eigrp_nbr_clear_hard n false);;
        clear_nbrs soft ns' (affected + 1)
  end.

Definition clear_intf (soft : bool) (i : nat) (affected : Z) : Ad Z :=
  when (negb soft) (record_call (eigrp_hello_send i None true));;
  ei ← get_intf i;
  clear_nbrs soft (ai_nbrs ei) affected.

Fixpoint clear_intfs (soft : bool) (indexes : list nat) (affected : Z) : Ad Z :=
  match indexes with
  | [] => mret affected
  | i :: rest => affected ← clear_intf soft i affected; clear_intfs soft rest affected
  end.

(** [cr_interface]: the interface found for the name, when a name was given. *)
Record clear_request := {
  cr_interface : option (option nat);
  cr_address : option eigrp_address;
  cr_soft : bool;
}.

Definition eigrp_nbr_clear (request : clear_request) : Ad (eigrp_result * Z) :=
  match cr_interface request, cr_address request with
  | Some _, Some _ => mret (EIGRP_RESULT_CONFLICT, 0)
  | None, Some address =>
      if negb ((afi address =? EIGRP_AFI_IPV4) || (afi address =? EIGRP_AFI_IPV6))
      then mret (EIGRP_RESULT_INVALID_ARGUMENT, 0)
      else
        s ← get;
        found ← mfind (ad_intfs s ≫= ai_nbrs) (fun n => nbr ← get_nbr n; mret (eigrp_nbr_clear_address_match nbr address));
        match found with
        | None => mret (EIGRP_RESULT_NOT_FOUND, 0)
        | Some n =>
            (if cr_soft request then eigrp_nbr_clear_soft n else eigrp_nbr_clear_hard n true);;
            mret (EIGRP_RESULT_SUCCESS, 1)
        end
  | Some None, None => mret (EIGRP_RESULT_NOT_FOUND, 0)
  | Some (Some i), None => affected ← clear_intf (cr_soft request) i 0; mret (EIGRP_RESULT_SUCCESS, affected)
  | None, None =>
      s ← get;
      affected ← clear_intfs (cr_soft request) (seq 0 (length (ad_intfs s))) 0;
      mret (EIGRP_RESULT_SUCCESS, affected)
  end.
