(* ===== verification/AdjacencyProps.v ===== *)
(** * Adjacencies under any sequence of events

    The events of an address family's thread: packets of any bytes, timer expiries,
    teardown, configuration changes, admission of local and redistributed routes.
    From a settled state every sequence of events is defined and leads to a settled
    state, and penalties last: a locked neighbor is released by command only, a
    suspended one not before its time. *)

From Stdlib Require Import ZArith Lia.
From stdpp Require Import base gmap list.
From S2P Require Import Prelude Types Metric Rtt Stream BlockHash Auth Ingress IngressProps Timers Neighbor NeighborProps Limits LimitsProps AfLimits RedistLimits Hello HelloProps Dispatch.

(** ** The clock *)

Definition ticks_left (s : adj) : Z := foldr Z.add 0 (ad_ticks s).

(** Readings take their time from the ticks that are left. *)
Record spent (s s' : adj) : Prop := {
  sp_total : ad_clock s' + ticks_left s' = ad_clock s + ticks_left s;
  sp_later : Forall (fun t => 0 <= t) (ad_ticks s) -> Forall (fun t => 0 <= t) (ad_ticks s') /\ ad_clock s <= ad_clock s';
}.

#[export] Instance spent_preorder : PreOrder spent.
Proof.
  split; [by intros s|]. intros s s' s'' [A1 A2] [B1 B2]. split; [congruence|]. intros F.
  destruct (A2 F) as [F' ?]. destruct (B2 F') as [F'' ?]. split; [done|lia].
Qed.

Lemma spent_fits s s' : adj_ok s -> clock_fits s -> spent s s' -> clock_fits s'.
Proof.
  intros O [C0 C1] [S1 S2]. destruct (S2 (ao_ticks _ O)) as [F ?]. unfold clock_fits, ticks_left in *. split; lia.
Qed.

Lemma spent_same s s' : ad_clock s' = ad_clock s -> ad_ticks s' = ad_ticks s -> spent s s'.
Proof. intros E1 E2. split; unfold ticks_left; rewrite ?E1, ?E2; [done|]. intros F. split; [done|lia]. Qed.

Lemma spent_modify (f : adj -> adj) : (forall s, ad_clock (f s) = ad_clock s /\ ad_ticks (f s) = ad_ticks s) -> keeps spent (modify f).
Proof. intros Hf s [] s' [= <-]. by apply spent_same; apply Hf. Qed.
#[export] Hint Extern 1 (keeps spent (modify _)) => apply spent_modify; intros; split; reflexivity : keeps.

Lemma spent_calloc : keeps spent a_calloc.
Proof. intros s a s'. unfold a_calloc. destruct (ad_grants s); intros [= _ <-]; by apply spent_same. Qed.
Lemma spent_monotime : keeps spent monotime.
Proof.
  intros s a s'. unfold monotime. destruct (ad_ticks s) as [|t ts] eqn:E; intros [= _ <-]; [done|].
  split; unfold ticks_left; cbn; rewrite E; cbn; [lia|]. intros [? ?]%Forall_cons. split; [done|lia].
Qed.
#[export] Hint Resolve spent_calloc spent_monotime : keeps.

Lemma spent_get_nbr n : keeps spent (get_nbr n).
Proof. unfold get_nbr. solve_keeps. Qed.
Lemma spent_get_intf i : keeps spent (get_intf i).
Proof. unfold get_intf. solve_keeps. Qed.
#[export] Hint Resolve spent_get_nbr spent_get_intf : keeps.
Lemma spent_upd_nbr n f : keeps spent (upd_nbr n f).
Proof. unfold upd_nbr. solve_keeps. Qed.
Lemma spent_upd_intf i f : keeps spent (upd_intf i f).
Proof. unfold upd_intf. solve_keeps. Qed.
Lemma spent_record_call c : keeps spent (record_call c).
Proof. unfold record_call. solve_keeps. Qed.
Lemma spent_cancel k : keeps spent (cancel_timer k).
Proof. unfold cancel_timer. solve_keeps. Qed.
Lemma spent_arm k c delay : keeps spent (arm_timer k c delay).
Proof. unfold arm_timer. solve_keeps. Qed.
Lemma spent_generation : keeps spent generation_next.
Proof. unfold generation_next. solve_keeps. Qed.
#[export] Hint Resolve spent_upd_nbr spent_upd_intf spent_record_call spent_cancel spent_arm spent_generation : keeps.

(** An operation whose definition is unfolded to the primitives above. *)
Ltac spends f := unfold f; solve_keeps.

Lemma spent_state_update n st : keeps spent (eigrp_nbr_state_update_reason n st).
Proof. unfold eigrp_nbr_state_update_reason, nbr_up, nbr_down_reset. solve_keeps. Qed.
Lemma spent_state_update' n st : keeps spent (eigrp_nbr_state_update n st).
Proof. apply spent_state_update. Qed.
#[export] Hint Resolve spent_state_update spent_state_update' : keeps.
Lemma spent_down_deferred n : keeps spent (eigrp_nbr_down_deferred n).
Proof. spends eigrp_nbr_down_deferred. Qed.
#[export] Hint Resolve spent_down_deferred : keeps.
Lemma spent_nbr_down n : keeps spent (eigrp_nbr_down n).
Proof. spends eigrp_nbr_down. Qed.
Lemma spent_limit_timers_cancel n : keeps spent (eigrp_nbr_limit_timers_cancel n).
Proof. spends eigrp_nbr_limit_timers_cancel. Qed.
#[export] Hint Resolve spent_nbr_down spent_limit_timers_cancel : keeps.
Lemma spent_nbr_delete n : keeps spent (eigrp_nbr_delete n).
Proof. unfold eigrp_nbr_delete, unpublish. solve_keeps. Qed.
Lemma spent_is_eligible n : keeps spent (Neighbor.eigrp_nbr_is_eligible n).
Proof. spends Neighbor.eigrp_nbr_is_eligible. Qed.
#[export] Hint Resolve spent_nbr_delete spent_is_eligible : keeps.
Lemma spent_holddown_update n : keeps spent (Neighbor.eigrp_nbr_holddown_update n).
Proof. spends Neighbor.eigrp_nbr_holddown_update. Qed.
Lemma spent_holddown_expired n : keeps spent (eigrp_nbr_holddown_expired n).
Proof. unfold eigrp_nbr_holddown_expired, unpublish. solve_keeps. Qed.
Lemma spent_limit_state_update n st : keeps spent (eigrp_nbr_limit_state_update n st).
Proof. spends eigrp_nbr_limit_state_update. Qed.
Lemma spent_limit_release n : keeps spent (eigrp_nbr_limit_release n).
Proof. spends eigrp_nbr_limit_release. Qed.
#[export] Hint Resolve spent_holddown_update spent_holddown_expired spent_limit_state_update spent_limit_release : keeps.
Lemma spent_limit_exceeded n l : keeps spent (eigrp_nbr_limit_exceeded n l).
Proof. unfold eigrp_nbr_limit_exceeded, upd_penalty, eigrp_nbr_limit_timer_arm. solve_keeps. Qed.
#[export] Hint Resolve spent_limit_exceeded : keeps.
Lemma spent_restart_expired n : keeps spent (eigrp_nbr_limit_restart_expired n).
Proof. unfold eigrp_nbr_limit_restart_expired, upd_penalty, eigrp_nbr_limit_timer_arm. solve_keeps. Qed.
Lemma spent_reset_expired n : keeps spent (eigrp_nbr_limit_reset_expired n).
Proof. unfold eigrp_nbr_limit_reset_expired, upd_penalty, eigrp_nbr_limit_timer_arm. solve_keeps. Qed.
Lemma spent_mark_down n l : keeps spent (eigrp_nbr_limit_mark_down n l).
Proof. spends eigrp_nbr_limit_mark_down. Qed.
Lemma spent_limit_cleanup n : keeps spent (eigrp_nbr_limit_cleanup n).
Proof. spends eigrp_nbr_limit_cleanup. Qed.
#[export] Hint Resolve spent_restart_expired spent_reset_expired spent_mark_down spent_limit_cleanup : keeps.
Lemma spent_pfx_step r b n : keeps spent (pfxlimits_nbr_step r b n).
Proof. unfold pfxlimits_nbr_step, nbr_new_generation. solve_keeps. Qed.
#[export] Hint Resolve spent_pfx_step : keeps.
Lemma spent_nbr_update r : keeps spent (eigrp_pfxlimits_nbr_update r).
Proof. spends eigrp_pfxlimits_nbr_update. Qed.
#[export] Hint Resolve spent_nbr_update : keeps.
Lemma spent_state_cleanup : keeps spent eigrp_pfxlimits_state_cleanup.
Proof. spends eigrp_pfxlimits_state_cleanup. Qed.
Lemma spent_af_cancel : keeps spent eigrp_pfxlimits_timers_cancel.
Proof. spends eigrp_pfxlimits_timers_cancel. Qed.
Lemma spent_redist_cancel : keeps spent eigrp_redist_limit_timers_cancel.
Proof. spends eigrp_redist_limit_timers_cancel. Qed.
Lemma spent_af_replay : keeps spent af_replay.
Proof. spends af_replay. Qed.
#[export] Hint Resolve spent_state_cleanup spent_af_cancel spent_redist_cancel spent_af_replay : keeps.
Lemma spent_prefix_exceeded l : keeps spent (eigrp_pfxlimits_prefix_exceeded l).
Proof. unfold eigrp_pfxlimits_prefix_exceeded, eigrp_pfxlimits_timer_arm. solve_keeps. Qed.
Lemma spent_redist_exceeded l : keeps spent (eigrp_redist_limit_exceeded l).
Proof. unfold eigrp_redist_limit_exceeded, eigrp_redist_limit_timer_arm. solve_keeps. Qed.
#[export] Hint Resolve spent_prefix_exceeded spent_redist_exceeded : keeps.
Lemma spent_create i src : keeps spent (eigrp_nbr_create i src).
Proof. unfold eigrp_nbr_create, eigrp_nbr_admit_locked, nbr_alloc, nbr_publish, eigrp_nbr_admit_locked, nbr_free. solve_keeps. Qed.
Lemma spent_codec_select n v : keeps spent (eigrp_nbr_codec_select n v).
Proof. spends eigrp_nbr_codec_select. Qed.
#[export] Hint Resolve spent_create spent_codec_select : keeps.
Lemma spent_codec_update : keeps spent eigrp_nbr_codec_update.
Proof. unfold eigrp_nbr_codec_update, codec_step. solve_keeps. Qed.
Lemma spent_lookup i src : keeps spent (Neighbor.eigrp_nbr_lookup i src).
Proof. spends Neighbor.eigrp_nbr_lookup. Qed.
Lemma spent_read_be p a b : keeps spent (Hello.read_be p a b).
Proof. spends Hello.read_be. Qed.
Lemma spent_read_bytes p a b : keeps spent (read_bytes p a b).
Proof. spends read_bytes. Qed.
#[export] Hint Resolve spent_codec_update spent_lookup spent_read_be spent_read_bytes : keeps.
Lemma spent_hello_tlv n p tlv t l o v : keeps spent (hello_tlv n p tlv t l o v).
Proof.
  unfold hello_tlv, eigrp_hello_parameter_decode, eigrp_hello_k_update, eigrp_sw_version_decode,
    eigrp_peer_termination_decode, eigrp_peer_termination_contains. solve_keeps.
Qed.
#[export] Hint Resolve spent_hello_tlv : keeps.
Lemma spent_hello_walk fuel n p tlv size o v : keeps spent (hello_walk fuel n p tlv size o v).
Proof. revert tlv size v. induction fuel as [|fuel IH]; intros tlv size v; cbn [hello_walk]; solve_keeps. Qed.
#[export] Hint Resolve spent_hello_walk : keeps.
Lemma spent_hello_receive i src a ack p : keeps spent (eigrp_hello_receive i src a ack p).
Proof. spends eigrp_hello_receive. Qed.
#[export] Hint Resolve spent_hello_receive : keeps.
Lemma spent_topology_admit known count : keeps spent (eigrp_topology_prefix_admit known count).
Proof. spends eigrp_topology_prefix_admit. Qed.
Lemma spent_redist_admit present count : keeps spent (eigrp_redist_prefix_admit present count).
Proof. spends eigrp_redist_prefix_admit. Qed.
Lemma spent_nbr_prefix_admit n present : keeps spent (eigrp_nbr_prefix_admit n present).
Proof. spends eigrp_nbr_prefix_admit. Qed.
#[export] Hint Resolve spent_topology_admit spent_redist_admit spent_nbr_prefix_admit : keeps.
Lemma spent_run_callback c : keeps spent (run_callback c).
Proof.
  unfold run_callback, eigrp_pfxlimits_restart_expired, eigrp_pfxlimits_timer_arm, eigrp_pfxlimits_reset_expired,
    eigrp_redist_limit_restart_expired, eigrp_redist_limit_reset_expired, eigrp_redist_limit_timer_arm. solve_keeps.
Qed.
#[export] Hint Resolve spent_run_callback : keeps.
Lemma spent_timer_service : keeps spent eigrp_instance_timer_service.
Proof. spends eigrp_instance_timer_service. Qed.
Lemma spent_af_clear b : keeps spent (eigrp_pfxlimits_state_clear b).
Proof. unfold eigrp_pfxlimits_state_clear, eigrp_pfxlimits_state_release. solve_keeps. Qed.
Lemma spent_redist_clear b : keeps spent (eigrp_redist_limit_clear b).
Proof. unfold eigrp_redist_limit_clear, eigrp_redist_limit_release. solve_keeps. Qed.
Lemma spent_nbr_clear r : keeps spent (eigrp_nbr_clear r).
Proof.
  assert (forall soft l k, keeps spent (clear_nbrs soft l k)) as Hn.
  { intros soft l. induction l as [|n l IH]; intros k; cbn [clear_nbrs]; unfold eigrp_nbr_clear_soft, eigrp_nbr_clear_hard; solve_keeps. }
  assert (forall soft i k, keeps spent (clear_intf soft i k)) as Hi by (intros; unfold clear_intf; solve_keeps).
  assert (forall soft l k, keeps spent (clear_intfs soft l k)) as Hl.
  { intros soft l. induction l as [|i l IH]; intros k; cbn [clear_intfs]; solve_keeps. }
  unfold eigrp_nbr_clear, eigrp_nbr_clear_soft, eigrp_nbr_clear_hard. solve_keeps.
Qed.
#[export] Hint Resolve spent_timer_service spent_af_clear spent_redist_clear spent_nbr_clear : keeps.

(** ** Events *)

(** What a receive function does to neighbors, call by call. *)
Inductive hop :=
  | hop_route_admit (unreachable present known : bool) (count : Z)
  | hop_prefix_admit (known : bool) (count : Z)
  | hop_peer_restart (sequence : Z)
  | hop_note (f : nbr -> nbr).

Definition run_hop (n : ptr) (h : hop) : Ad unit :=
  match h with
  | hop_route_admit unreachable present known count => _ ← eigrp_nbr_route_admit n unreachable present known count; mret tt
  | hop_prefix_admit known count => _ ← eigrp_topology_prefix_admit known count; mret tt
  | hop_peer_restart sequence => nbr ← get_nbr n; when (nb_state nbr =? EIGRP_NEIGHBOR_UP) (peer_restart n sequence)
  | hop_note f => upd_nbr n f
  end.

Definition handler (hops : list hop) : Z -> ptr -> Ad unit := fun _ n => mfor hops (run_hop n).

(** Field writes of a receive function: sequence numbers, restart marks, prefix lists. *)
Definition hop_fine (h : hop) : Prop :=
  match h with hop_note f => forall d, core (f d) = core d /\ nb_penalty (f d) = nb_penalty d | _ => True end.

Inductive event :=
  | ev_packet (p : queued_packet) (hops : list hop)
  | ev_timer
  | ev_hold (n : ptr)
  | ev_teardown (n : ptr)
  | ev_topology_admit (known : bool) (count : Z)
  | ev_redist_admit (present : bool) (count : Z)
  | ev_codec_update
  | ev_af_clear
  | ev_redist_clear
  | ev_nbr_clear (request : clear_request)
  | ev_intf_down (i : nat).

Definition perform (e : event) : Ad unit :=
  match e with
  | ev_packet p hops => eigrp_packet_input_process (handler hops) p
  | ev_timer => eigrp_instance_timer_service
  | ev_hold n => Neighbor.eigrp_nbr_holddown_update n
  | ev_teardown n => eigrp_packet_retransmit_limit_exceeded n
  | ev_topology_admit known count => _ ← eigrp_topology_prefix_admit known count; mret tt
  | ev_redist_admit present count => _ ← eigrp_redist_prefix_admit present count; mret tt
  | ev_codec_update => eigrp_nbr_codec_update
  | ev_af_clear => _ ← eigrp_pfxlimits_state_clear false; mret tt
  | ev_redist_clear => _ ← eigrp_redist_limit_clear false; mret tt
  | ev_nbr_clear request => _ ← eigrp_nbr_clear request; mret tt
  | ev_intf_down i => intf_nbrs_down i
  end.

(** What the environment guarantees of an event: indexes of existing interfaces,
    payloads of bytes with the authentication TLV ingress checked, live neighbors; a
    neighbor is torn down by the transport or by DUAL only while it is not penalized. *)
Definition enabled (e : event) (s : adj) : Prop :=
  match e with
  | ev_packet p hops =>
      Forall byte (qp_payload p) /\ Forall hop_fine hops
      /\ match qp_intf p with
         | Some i => exists ei, ad_intfs s !! i = Some ei /\ (ai_auth ei = true -> (16 <= length (qp_payload p))%nat)
         | None => True
         end
  | ev_hold n => is_Some (ad_nbrs s !! n)
  | ev_teardown n => exists d, ad_nbrs s !! n = Some d /\ ~ restrained d
  | ev_nbr_clear request => forall i, cr_interface request = Some (Some i) -> is_Some (ad_intfs s !! i)
  | ev_intf_down i => is_Some (ad_intfs s !! i)
  | _ => True
  end.

(** Between events no packet is in work and no violation awaits its work. *)
Record settled (s : adj) : Prop := {
  se_ok : adj_ok s;
  se_pending : no_pending s;
  se_af_pending : ad_af_cleanup_pending s = false;
  se_active : ad_af_pkt_active s = false;
  se_clock : clock_fits s;
}.

(** The penalties that last from [s] to [s']. *)
Definition penalty_lasts (d d' : nbr) : Prop :=
  nb_limit_state d' = nb_limit_state d /\ restart_due_msec (nb_penalty d') = restart_due_msec (nb_penalty d).

Definition lasting (now : Z) (d : nbr) : Prop :=
  nb_limit_state d = EIGRP_NBR_LIMIT_LOCKED
  \/ (nb_limit_state d = EIGRP_NBR_LIMIT_SUSPENDED /\ now < restart_due_msec (nb_penalty d)).

Definition retained (s s' : adj) : Prop :=
  forall n d, ad_nbrs s !! n = Some d -> lasting (ad_clock s') d ->
    exists d', ad_nbrs s' !! n = Some d' /\ penalty_lasts d d'.

(** Operator commands that delete neighbors with their penalties. *)
Definition operator_clear (e : event) : Prop :=
  match e with ev_nbr_clear _ | ev_intf_down _ => True | _ => False end.

(** ** The handlers of a packet *)

Lemma wp_spent {B} (m : Ad B) s (Q : B -> adj -> Prop) :
  keeps spent m -> wp m Q s -> wp m (fun a s' => spent s s' /\ Q a s') s.
Proof. intros K W. unfold wp in *. destruct (m s) as [[a s']|] eqn:E; [|done]. split; [by eapply K|done]. Qed.

Lemma ok_topology_admit known count s :
  adj_ok s -> clock_fits s ->
  wp (eigrp_topology_prefix_admit known count) (fun _ s' => s' = s \/ exists limit, af_exceeded limit s s') s.
Proof.
  intros O C. unfold eigrp_topology_prefix_admit. apply wp_bind, wp_get.
  destruct (Z.eqb_spec (ad_af_state s) 0) as [E|E]; cbn [negb]; [|apply wp_ret; by left].
  destruct known; [apply wp_ret; by left|]. destruct (ad_config s ≫= lc_topology) as [limit|]; [|apply wp_ret; by left].
  case_match eqn:Ew; [|apply wp_ret; by left]. apply andb_true_iff in Ew as [Ew _]. apply negb_true_iff in Ew.
  apply wp_bind. eapply wp_mono; [by apply ok_prefix_exceeded|]. intros [] s' X. apply wp_ret. right. by exists limit.
Qed.

Definition others (n : ptr) (s s' : adj) : Prop := forall m, m <> n -> ad_nbrs s' !! m = ad_nbrs s !! m.

Lemma touch_others n s s' : touch n s s' -> others n s s'.
Proof. intros T. exact (th_nbrs _ _ _ T). Qed.

(** The state while a receive function works on a packet of [n]. *)
Record working (n : ptr) (s : adj) : Prop := {
  wk_ok : adj_ok s;
  wk_active : ad_af_pkt_active s = true;
  wk_clock : clock_fits s;
  wk_others : forall m, m <> n -> quiet m s;
  wk_nbr : exists d, ad_nbrs s !! n = Some d /\ nb_published d = true /\ nb_limit_state d = EIGRP_NBR_LIMIT_NONE;
}.

(** A call that changes only [n] keeps it published and not limited. *)
Lemma working_step n s s' d' :
  working n s -> adj_ok s' -> spent s s' -> others n s s' -> ad_af_pkt_active s' = true ->
  ad_nbrs s' !! n = Some d' -> nb_published d' = true -> nb_limit_state d' = EIGRP_NBR_LIMIT_NONE -> working n s'.
Proof.
  intros [O A C Q N] O' S Ho A' Hn Hp Hl. split; [done|done|by apply (spent_fits s)| |by exists d'].
  intros m Hm x. rewrite Ho by done. by apply Q.
Qed.

Lemma touch_active n s s' : touch n s s' -> ad_af_pkt_active s' = ad_af_pkt_active s.
Proof. intros T. by pose proof (th_part _ _ _ T) as [=]. Qed.

Lemma touch_af_pending n s s' : touch n s s' -> ad_af_cleanup_pending s' = ad_af_cleanup_pending s.
Proof. intros T. by pose proof (th_part _ _ _ T) as [=]. Qed.

Lemma ok_nbr_prefix_admit n present s :
  working n s -> wp (eigrp_nbr_prefix_admit n present) (fun _ s' => working n s' /\ others n s s') s.
Proof.
  intros K. destruct (wk_nbr _ _ K) as (d & Hn & Hp & Hl). pose proof (wk_ok _ _ K) as O.
  pose proof (ok_at _ _ _ O Hn) as H.
  unfold eigrp_nbr_prefix_admit. apply wp_bind. eapply wp_is_eligible; [exact H|].
  case_match; [by apply wp_ret|]. destruct present; [by apply wp_ret|].
  apply wp_bind, (wp_adj_nbr _ _ _ _ H), wp_bind, wp_gets. case_match; [|by apply wp_ret].
  case_match; [|by apply wp_ret]. apply wp_bind.
  eapply wp_mono; [eapply wp_spent; [apply spent_mark_down|by apply ok_mark_down]|].
  intros b s' (S & O' & T & Hb). apply wp_ret. destruct b; [|by subst].
  destruct Hb as (Hn' & _). split; [|by apply touch_others]. eapply working_step; [done|done|done|by apply touch_others| |exact Hn'|done|done].
  rewrite (touch_active _ _ _ T). apply K.
Qed.

Lemma ok_topology_admit_working n known count s :
  working n s -> wp (eigrp_topology_prefix_admit known count) (fun _ s' => working n s' /\ others n s s') s.
Proof.
  intros K. eapply wp_mono; [eapply wp_spent; [apply spent_topology_admit|apply ok_topology_admit; apply K]|].
  intros b s' (S & [->|[limit X]]); [done|]. destruct (wk_nbr _ _ K) as (d & Hn & Hp & Hl).
  pose proof (ax_nbrs _ _ _ X) as Hx. rewrite (wk_active _ _ K) in Hx. destruct Hx as [En _].
  split; [|intros m _; by rewrite En]. eapply working_step; [done|apply X|done| | |by rewrite En|done|done].
  - intros m _. by rewrite En.
  - rewrite (ax_active _ _ _ X). apply K.
Qed.

Lemma ok_state_working n d state s :
  working n s -> ad_nbrs s !! n = Some d -> state = EIGRP_NEIGHBOR_DOWN \/ nb_cleanup_pending d = false ->
  wp (eigrp_nbr_state_update_reason n state) (fun _ s' => working n s' /\ others n s s'
    /\ exists d', ad_nbrs s' !! n = Some d' /\ nb_cleanup_pending d' = nb_cleanup_pending d) s.
Proof.
  intros K Hn Hc. destruct (wk_nbr _ _ K) as (d0 & Hn0 & Hp & Hl). rewrite Hn in Hn0. injection Hn0 as <-.
  eapply wp_mono; [eapply wp_spent; [apply spent_state_update|eapply ok_state_update; [apply K|done|done]]|].
  intros [] s' (S & O' & T & d' & Hn' & Hi & Hc' & _). pose proof Hi as [= E1 E2 E3 E4 E5 E6 E7 E8 E9].
  split; [|split; [by apply touch_others|by exists d']]. eapply working_step; [done|done|done|by apply touch_others| |exact Hn'|congruence|congruence].
  rewrite (touch_active _ _ _ T). apply K.
Qed.

Lemma ok_note_working n d f s (Q : unit -> adj -> Prop) :
  working n s -> ad_nbrs s !! n = Some d -> core (f d) = core d ->
  (forall s', working n s' -> others n s s' -> ad_nbrs s' !! n = Some (f d) -> Q tt s') -> wp (upd_nbr n f) Q s.
Proof.
  intros K Hn Hf HQ. destruct (wk_nbr _ _ K) as (d0 & Hn0 & Hp & Hl). rewrite Hn in Hn0. injection Hn0 as <-.
  assert (wp (upd_nbr n f) (fun _ s' => adj_ok s' /\ touch n s s' /\ ad_nbrs s' !! n = Some (f d)) s) as W.
  { eapply ok_upd_plain; [apply K|done|done|]. by intros s' O' T Hn' _. }
  eapply wp_mono; [eapply wp_spent; [apply spent_upd_nbr|exact W]|]. intros [] s' (S & O' & T & Hn').
  pose proof Hf as [= E1 E2 E3 E4 E5 E6 E7]. apply HQ; [|by apply touch_others|done].
  eapply working_step; [done|done|done|by apply touch_others| |exact Hn'|congruence|congruence].
  rewrite (touch_active _ _ _ T). apply K.
Qed.

Lemma ok_call_working n c s (Q : unit -> adj -> Prop) :
  working n s -> (forall s', working n s' -> ad_nbrs s' = ad_nbrs s -> Q tt s') -> wp (record_call c) Q s.
Proof.
  intros K HQ. destruct (wk_nbr _ _ K) as (d & Hn & Hp & Hl). apply wp_modify, HQ; [|done].
  apply (working_step n s _ d); try done; [eapply ok_aux; [apply K|done..]|apply K].
Qed.

Lemma ok_hold_working n s : working n s -> wp (Neighbor.eigrp_nbr_holddown_update n) (fun _ s' => working n s' /\ others n s s') s.
Proof.
  intros K. destruct (wk_nbr _ _ K) as (d & Hn & Hp & Hl).
  eapply wp_mono; [eapply wp_spent; [apply spent_holddown_update|eapply ok_holddown_update; [apply K|done]]|].
  intros [] s' (S & O' & T & Hn' & _). split; [|by apply touch_others].
  eapply working_step; [done|done|done|by apply touch_others| |exact Hn'|done|done]. rewrite (touch_active _ _ _ T). apply K.
Qed.

Lemma others_trans n s s' s'' : others n s s' -> others n s' s'' -> others n s s''.
Proof. intros A B m Hm. by rewrite B, A. Qed.

Lemma ok_peer_restart n d sequence s :
  working n s -> ad_nbrs s !! n = Some d -> nb_cleanup_pending d = false ->
  wp (peer_restart n sequence) (fun _ s' => working n s' /\ others n s s') s.
Proof.
  intros K Hn Hc. unfold peer_restart, eigrp_nbr_state_update. apply wp_bind.
  eapply wp_mono; [eapply ok_state_working; [done|exact Hn|by left]|]. intros [] s1 (K1 & R1 & d1 & Hn1 & Hc1).
  apply wp_bind, (ok_call_working n); [done|]. intros s2 K2 E2. rewrite <- E2 in Hn1. apply wp_bind.
  eapply (ok_note_working n d1); [done|done|done|]. intros s3 K3 R3 Hn3. apply wp_bind.
  eapply wp_mono; [eapply ok_state_working; [done|exact Hn3|right; cbn; congruence]|]. intros [] s4 (K4 & R4 & _).
  apply wp_bind. eapply wp_mono; [by apply ok_hold_working|]. intros [] s5 (K5 & R5).
  apply (ok_call_working n); [done|]. intros s6 K6 E6. split; [done|]. intros m Hm.
  rewrite E6, R5, R4, R3, E2, R1 by done. done.
Qed.

Lemma ok_hop n h s : working n s -> hop_fine h -> wp (run_hop n h) (fun _ s' => working n s' /\ others n s s') s.
Proof.
  intros K Hf. destruct h as [unreachable present known count|known count|sequence|f]; cbn [run_hop].
  - apply wp_bind. unfold eigrp_nbr_route_admit. destruct unreachable; [apply wp_ret; by apply wp_ret|]. apply wp_bind.
    eapply wp_mono; [by apply ok_nbr_prefix_admit|]. intros b s1 [K1 R1]. destruct b; [|apply wp_ret; by apply wp_ret].
    eapply wp_mono; [by apply ok_topology_admit_working|]. intros b s2 [K2 R2]. apply wp_ret. split; [done|by eapply others_trans].
  - apply wp_bind. eapply wp_mono; [by apply ok_topology_admit_working|]. intros b s2 [K2 R2]. by apply wp_ret.
  - destruct (wk_nbr _ _ K) as (d & Hn & Hp & Hl). apply wp_bind, (wp_adj_nbr _ _ _ _ (ok_at _ _ _ (wk_ok _ _ K) Hn)), wp_when.
    destruct (Z.eqb_spec (nb_state d) EIGRP_NEIGHBOR_UP) as [E|E]; [|done]. eapply ok_peer_restart; [done|exact Hn|].
    destruct (nb_cleanup_pending d) eqn:Ec; [|done]. assert (nb_state d = EIGRP_NEIGHBOR_DOWN) as D.
    { apply (ao_down _ (wk_ok _ _ K) _ _ Hn). right. by right. } rewrite D in E. done.
  - destruct (wk_nbr _ _ K) as (d & Hn & Hp & Hl). eapply ok_note_working; [done|exact Hn|apply Hf|]. done.
Qed.

Lemma ok_handler n opcode hops s :
  working n s -> Forall hop_fine hops -> wp (handler hops opcode n) (fun _ s' => working n s' /\ others n s s') s.
Proof.
  intros K F. unfold handler. revert s K. induction F as [|h hops Hh F IH]; intros s K; cbn [mfor]; [by apply wp_ret|].
  apply wp_bind. eapply wp_mono; [by apply ok_hop|]. intros [] s1 [K1 R1]. eapply wp_mono; [by apply IH|].
  intros [] s2 [K2 R2]. split; [done|by eapply others_trans].
Qed.

(** ** One packet *)

Lemma spent_ack_init n b q : keeps spent (ack_init n b q).
Proof. spends ack_init. Qed.
Lemma spent_conditional n p : keeps spent (conditional_receive n p).
Proof. spends conditional_receive. Qed.
Lemma spent_discovery n b p : keeps spent (discovery_accept n b p).
Proof. spends discovery_accept. Qed.
Lemma spent_run_hop n h : keeps spent (run_hop n h).
Proof. destruct h; cbn [run_hop]; unfold eigrp_nbr_route_admit, peer_restart; solve_keeps. Qed.
#[export] Hint Resolve spent_ack_init spent_conditional spent_discovery spent_run_hop : keeps.
Lemma spent_packet_receive hops n p : keeps spent (packet_receive (handler hops) n p).
Proof. unfold packet_receive, handler. solve_keeps. Qed.
#[export] Hint Resolve spent_packet_receive : keeps.
Lemma spent_input_process hops p : keeps spent (eigrp_packet_input_process (handler hops) p).
Proof. spends eigrp_packet_input_process. Qed.

Lemma touch_conditional n p : keeps (touch n) (conditional_receive n p).
Proof. unfold conditional_receive. solve_keeps. Qed.
Lemma touch_ack_init n b q : keeps (touch n) (ack_init n b q).
Proof. unfold ack_init, eigrp_nbr_state_update. solve_keeps. Qed.

(** What the steps before the handler keep of the neighbor. *)
Definition poised (d d' : nbr) : Prop := identity d' = identity d /\ nb_cleanup_pending d' = nb_cleanup_pending d.

Lemma ok_conditional n d p s :
  adj_ok s -> ad_nbrs s !! n = Some d ->
  wp (conditional_receive n p) (fun _ s' => spent s s' /\ touch n s s' /\ adj_ok s' /\ exists d', ad_nbrs s' !! n = Some d' /\ poised d d') s.
Proof.
  intros O Hn. apply wp_spent; [apply spent_conditional|]. apply wp_touch; [apply touch_conditional|]. unfold conditional_receive. cbv zeta.
  apply wp_bind, (wp_adj_nbr _ _ _ _ (ok_at _ _ _ O Hn)), wp_bind.
  eapply (wp_mono _ (fun _ s' => adj_ok s' /\ exists d', ad_nbrs s' !! n = Some d' /\ poised d d')).
  { apply wp_when. case_match; [|split; [done|by exists d]]. eapply ok_upd_plain; [done|exact Hn|done|].
    intros s1 O1 _ Hn1 _. split; [done|]. by eexists. }
  intros [] s1 (O1 & d1 & Hn1 & P1). case_match; [|apply wp_ret; eauto].
  apply wp_bind, (wp_adj_nbr _ _ _ _ (ok_at _ _ _ O1 Hn1)). case_match; [apply wp_ret; eauto|]. apply wp_bind.
  eapply ok_upd_plain; [done|exact Hn1|done|]. intros s2 O2 _ Hn2 _. apply wp_ret. split; [done|]. eexists. split; [exact Hn2|done].
Qed.

Lemma ok_ack_init n d b q s :
  adj_ok s -> ad_nbrs s !! n = Some d -> nb_cleanup_pending d = false ->
  wp (ack_init n b q) (fun _ s' => spent s s' /\ touch n s s' /\ adj_ok s' /\ exists d', ad_nbrs s' !! n = Some d' /\ poised d d') s.
Proof.
  intros O Hn Hc. apply wp_spent; [apply spent_ack_init|]. apply wp_touch; [apply touch_ack_init|]. unfold ack_init.
  apply wp_bind, (wp_adj_nbr _ _ _ _ (ok_at _ _ _ O Hn)), wp_when. case_match; [|split; [done|by exists d]].
  apply wp_bind. unfold eigrp_nbr_state_update. eapply wp_mono; [eapply ok_state_update; [done|exact Hn|by right]|].
  intros [] s1 (O1 & T1 & d1 & Hn1 & Hi1 & Hc1 & _). apply wp_bind. eapply ok_upd_plain; [done|exact Hn1|done|].
  intros s2 O2 _ Hn2 _. apply wp_modify. split; [by eapply ok_aux|]. cbn. eexists. split; [exact Hn2|]. by split.
Qed.

Definition kept_except (n : ptr) (s s' : adj) : Prop :=
  forall m, m <> n -> kept <$> ad_nbrs s' !! m = kept <$> ad_nbrs s !! m.

(** The end of a packet: the violations it caused take effect. *)
Lemma ok_packet_end n s :
  working n s ->
  wp (modify (fun s => {| s with ad_af_pkt_active := false |});;
      pending ← gets ad_af_cleanup_pending;
      when pending eigrp_pfxlimits_state_cleanup;;
      nbr ← get_nbr n;
      when (nb_cleanup_pending nbr) (eigrp_nbr_limit_cleanup n))
    (fun _ s' => adj_ok s' /\ no_pending s' /\ ad_af_cleanup_pending s' = false /\ ad_af_pkt_active s' = false
       /\ kept_except n s s') s.
Proof.
  intros K. destruct (wk_nbr _ _ K) as (d & Hn & Hp & Hl). apply wp_bind, wp_modify, wp_bind, wp_gets.
  set (s1 := {| ad_af_pkt_active := false |}). assert (adj_ok s1) as O1 by (eapply ok_aux; [apply K|done..]).
  destruct (ad_af_cleanup_pending s1) eqn:Ea; cbn [when].
  - apply wp_bind. eapply wp_mono; [by apply ok_state_cleanup|]. rewrite Ea. intros [] s2 (O2 & S2 & Hall).
    pose proof (suspended_no_pending _ O2 Hall) as P2. pose proof (sw_nbrs _ _ S2 n) as En. cbn in En. rewrite Hn in En.
    destruct (ad_nbrs s2 !! n) as [d2|] eqn:Hn2; [|done]. injection En as _ _ Hp2 _ _.
    apply wp_bind, (wp_adj_nbr _ _ _ _ (ok_at _ _ _ O2 Hn2)). rewrite (P2 n d2 Hn2) by congruence. cbn [when]. apply wp_ret.
    destruct (sweep_still _ _ S2) as [[= F1 F2 F3 F4 F5 F6] _]. do 4 (split; [done|]). intros m _. apply (sw_nbrs _ _ S2).
  - apply wp_bind, wp_ret, wp_bind, (wp_adj_nbr _ _ _ _ (ok_at _ _ _ O1 Hn)), wp_when.
    assert (forall m, m <> n -> quiet m s1) as Q1 by apply K.
    destruct (nb_cleanup_pending d) eqn:Ec.
    + eapply wp_mono; [by eapply ok_limit_cleanup|]. intros [] s2 (O2 & T2 & d2 & now & Hn2 & _ & _ & _ & Hc2). split; [done|].
      split; [|split; [|split]].
      * intros m. destruct (decide (m = n)) as [->|Hm]; intros x; [rewrite Hn2; by intros [= <-]|].
        rewrite (th_nbrs _ _ _ T2) by done. by apply Q1.
      * by rewrite (touch_af_pending _ _ _ T2).
      * by rewrite (touch_active _ _ _ T2).
      * intros m Hm. by rewrite (th_nbrs _ _ _ T2).
    + split; [done|]. split; [|done]. intros m. destruct (decide (m = n)) as [->|Hm]; [|by apply Q1].
      intros x. cbn. rewrite Hn. by intros [= <-].
Qed.

Record eligible (n : ptr) (d : nbr) (s : adj) : Prop := {
  el_live : ad_nbrs s !! n = Some d;
  el_published : nb_published d = true;
  el_limit : nb_limit_state d = EIGRP_NBR_LIMIT_NONE;
}.

Lemma ok_packet_receive hops n d p s :
  settled s -> eligible n d s -> Forall hop_fine hops ->
  wp (packet_receive (handler hops) n p) (fun _ s' => settled s' /\ kept_except n s s') s.
Proof.
  intros E [Hn Hp Hl] F. pose proof (se_ok _ E) as O.
  eapply (wp_mono _ (fun _ s' => spent s s' /\ adj_ok s' /\ no_pending s' /\ ad_af_cleanup_pending s' = false
    /\ ad_af_pkt_active s' = false /\ kept_except n s s')); cycle 1.
  { intros [] s' (S & O' & P' & Ea & Ek & X). split; [|done]. split; try done. apply (spent_fits s); [done|apply E|done]. }
  apply wp_spent; [apply spent_packet_receive|]. unfold packet_receive. apply wp_bind.
  eapply wp_mono; [by apply ok_conditional|]. intros wanted s1 (S1 & T1 & O1 & d1 & Hn1 & Pi1 & Pc1).
  assert (forall s2 d2, adj_ok s2 -> touch n s s2 -> ad_nbrs s2 !! n = Some d2 -> poised d d2 ->
    adj_ok s2 /\ no_pending s2 /\ ad_af_cleanup_pending s2 = false /\ ad_af_pkt_active s2 = false /\ kept_except n s s2) as Hend.
  { intros s2 d2 O2 T2 Hn2 [Pi2 Pc2]. split; [done|]. pose proof (th_part _ _ _ T2) as [= X1 X2 X3 X4 X5 X6 X7 X8 X9 X10].
    pose proof (se_af_pending _ E). pose proof (se_active _ E). split; [|split; [congruence|split; [congruence|]]].
    - intros m x. destruct (decide (m = n)) as [->|Hm].
      + rewrite Hn2. intros [= <-] _. rewrite Pc2. by apply (se_pending _ E n d).
      + rewrite (th_nbrs _ _ _ T2) by done. apply (se_pending _ E).
    - intros m Hm. by rewrite (th_nbrs _ _ _ T2). }
  destruct wanted; cbn [negb]; [|apply wp_ret; by eapply Hend]. apply wp_bind.
  eapply (wp_mono _ (fun _ s2 => spent s s2 /\ touch n s s2 /\ adj_ok s2 /\ exists d2, ad_nbrs s2 !! n = Some d2 /\ poised d d2)).
  { apply wp_when. case_match; [|split; [done|]; split; [done|]; split; [done|]; by exists d1].
    eapply wp_mono; [eapply ok_ack_init; [done|exact Hn1|]|].
    - rewrite Pc1. by apply (se_pending _ E n d).
    - intros [] s2 (S2 & T2 & O2 & d2 & Hn2 & Pi2 & Pc2). split; [by etrans|]. split; [by etrans|]. split; [done|]. exists d2.
      split; [done|]. split; [by rewrite Pi2|by rewrite Pc2]. }
  intros [] s2 (S2 & T2 & O2 & d2 & Hn2 & P2). apply wp_bind, (wp_adj_nbr _ _ _ _ (ok_at _ _ _ O2 Hn2)).
  case_match; [apply wp_ret; by eapply Hend|]. apply wp_bind, wp_modify. set (s3 := {| ad_af_pkt_active := true |}).
  destruct (Hend _ _ O2 T2 Hn2 P2) as (_ & Q2 & _ & _ & _). destruct P2 as [[= Y1 Y2 Y3 Y4 Y5 Y6 Y7 Y8 Y9] _].
  assert (working n s3) as K3.
  { split; [by eapply ok_aux|done| |intros m _; apply Q2|exists d2; split; [done|split; congruence]].
    apply (spent_fits s); [done|apply E|]. destruct S2. by split. }
  apply wp_bind. eapply (wp_mono _ (fun _ s4 => working n s4 /\ others n s3 s4)).
  { apply wp_when. case_match; [by apply ok_handler|done]. }
  intros [] s4 [K4 R4]. eapply wp_mono; [by apply ok_packet_end|]. intros [] s5 (O5 & P5 & A5 & B5 & X5).
  do 4 (split; [done|]). intros m Hm. rewrite X5 by done. rewrite R4 by done. cbn. by rewrite (th_nbrs _ _ _ T2).
Qed.

Lemma retained_except n s s' :
  (forall d, ad_nbrs s !! n = Some d -> nb_limit_state d = EIGRP_NBR_LIMIT_NONE) -> kept_except n s s' -> retained s s'.
Proof.
  intros Hn K m d Hm L. destruct (decide (m = n)) as [->|Hne].
  - specialize (Hn _ Hm). destruct L as [L|[L _]]; congruence.
  - specialize (K m Hne). rewrite Hm in K. destruct (ad_nbrs s' !! m) as [d'|]; [|done]. injection K as E1 E2 E3 E4 E5.
    exists d'. split; [done|]. split; congruence.
Qed.

Lemma retained_kept s s' : (forall n, kept <$> ad_nbrs s' !! n = kept <$> ad_nbrs s !! n) -> retained s s'.
Proof.
  intros K m d Hm L. specialize (K m). rewrite Hm in K. destruct (ad_nbrs s' !! m) as [d'|]; [|done]. injection K as E1 E2 E3 E4 E5.
  exists d'. split; [done|]. split; congruence.
Qed.

Lemma retained_same s s' : ad_nbrs s' = ad_nbrs s -> retained s s'.
Proof. intros E. apply retained_kept. intros n. by rewrite E. Qed.

Lemma first_match_ext s s' src l :
  (forall n, nb_src <$> ad_nbrs s' !! n = nb_src <$> ad_nbrs s !! n) -> first_match s' src l = first_match s src l.
Proof.
  intros E. unfold first_match. induction l as [|n l IH]; [done|]. cbn [List.find]. specialize (E n).
  rewrite IH. destruct (ad_nbrs s' !! n), (ad_nbrs s !! n); try done. injection E as ->. done.
Qed.

Lemma touch_discovery n b p : keeps (touch n) (discovery_accept n b p).
Proof. unfold discovery_accept, read_bytes. solve_keeps. Qed.

Lemma ok_discovery n d auth payload s :
  adj_ok s -> ad_nbrs s !! n = Some d -> (auth = true -> (16 <= length payload)%nat) ->
  wp (discovery_accept n auth payload) (fun _ s' => spent s s' /\ touch n s s' /\ adj_ok s'
    /\ exists d', ad_nbrs s' !! n = Some d' /\ poised d d') s.
Proof.
  intros O Hn Ha. apply wp_spent; [apply spent_discovery|]. apply wp_touch; [apply touch_discovery|].
  unfold discovery_accept. apply wp_bind, (wp_adj_nbr _ _ _ _ (ok_at _ _ _ O Hn)).
  case_match; [apply wp_ret; split; [done|by exists d]|]. destruct auth; cbn [negb]; [|apply wp_ret; split; [done|by exists d]].
  apply wp_bind, wp_read_bytes; [specialize (Ha eq_refl); unfold off_key_sequence, header_len; lia|].
  case_match; [|apply wp_ret; split; [done|by exists d]]. apply wp_bind. eapply ok_upd_plain; [done|exact Hn|done|].
  intros s1 O1 _ Hn1 _. apply wp_ret. split; [done|]. by eexists.
Qed.

(** [settled] after a change of one neighbor that is in no penalty. *)
Lemma settled_touch n d d' s s' :
  settled s -> ad_nbrs s !! n = Some d -> adj_ok s' -> spent s s' -> touch n s s' -> ad_nbrs s' !! n = Some d' ->
  (nb_published d' = true -> nb_cleanup_pending d' = false) -> settled s'.
Proof.
  intros E Hn O' S T Hn' Hc. split; [done| | | |apply (spent_fits s); [apply E|apply E|done]].
  - intros m x. destruct (decide (m = n)) as [->|Hm]; [rewrite Hn'; intros [= <-]; apply Hc|].
    rewrite (th_nbrs _ _ _ T) by done. apply (se_pending _ E).
  - rewrite (touch_af_pending _ _ _ T). apply E.
  - rewrite (touch_active _ _ _ T). apply E.
Qed.

Lemma settled_heard i src s s' : settled s -> spent s s' -> heard i src s s' -> settled s'.
Proof.
  intros E S [O (n & _ & A1 & A2) P]. injection A2 as X1 X2 X3 X4 X5 X6 X7 X8 X9.
  split; [done|done| | |apply (spent_fits s); [apply E|apply E|done]].
  - rewrite X5. apply E.
  - rewrite X6. apply E.
Qed.

(** A Hello that passed the checks of the dispatcher. *)
Lemma ok_hello_event i ei src allowed ack payload s :
  settled s -> ad_intfs s !! i = Some ei -> Forall byte payload -> (ai_auth ei = true -> (16 <= length payload)%nat) ->
  (forall n d, first_match s src (ai_nbrs ei) = Some n -> ad_nbrs s !! n = Some d -> nb_limit_state d = EIGRP_NBR_LIMIT_NONE) ->
  wp (eigrp_hello_receive i src allowed ack payload) (fun _ s' => settled s' /\ retained s s') s.
Proof.
  intros E Hi Hb Ha Hf.
  eapply wp_mono; [eapply wp_spent; [apply spent_hello_receive|eapply ok_hello_receive; [apply E|apply E|exact Hi|done|done]]|].
  intros [] s' (S & H). split; [by eapply settled_heard|]. destruct H as [O' (n & Sub & A) P'].
  apply (retained_except n); [|intros m Hm; by rewrite (al_others _ _ _ A)].
  intros d Hn. destruct Sub as [(ei' & Hi' & Hm)|Hno]; [|congruence]. rewrite Hi in Hi'. injection Hi' as <-. by eapply Hf.
Qed.

Lemma first_match_eligible i ei src s n :
  adj_ok s -> ad_intfs s !! i = Some ei -> first_match s src (ai_nbrs ei) = Some n ->
  exists d, ad_nbrs s !! n = Some d /\ nb_published d = true /\ nb_src d = src.
Proof.
  intros O Hi Hf. destruct (first_match_found _ _ _ _ Hf) as (Hin & d & Hn & Hs).
  destruct (ao_links _ O _ _ _ Hi Hin) as (x & Hx & _ & Hp). exists d. split; [done|]. split; [congruence|done].
Qed.

(** The discovery Hello of a known neighbor: its sequence number, then its TLVs. *)
Lemma ok_hello_known hops p i ei n d s :
  settled s -> enabled (ev_packet p hops) s -> qp_intf p = Some i -> ad_intfs s !! i = Some ei ->
  first_match s (qp_source p) (ai_nbrs ei) = Some n -> eligible n d s ->
  wp (fresh ← (if qp_generation p =? 0 then discovery_accept n (ai_auth ei) (qp_payload p) else mret true);
      if negb fresh then mret tt
      else if negb (qp_ack p =? 0) then ack_init n (qp_init_acked p) (qp_sequence p)
      else eigrp_hello_receive i (qp_source p) (qp_source_allowed p) (qp_ack p) (qp_payload p))
    (fun _ s' => settled s' /\ retained s s') s.
Proof.
  intros E (Hb & _ & Hq) Hpi Hi Hf [Hn Hp Hl]. rewrite Hpi in Hq. destruct Hq as (ei' & Hi' & Ha).
  rewrite Hi in Hi'. injection Hi' as <-. pose proof (se_ok _ E) as O.
  assert (nb_cleanup_pending d = false) as Hc by by apply (se_pending _ E n d).
  apply wp_bind. eapply (wp_mono _ (fun _ s1 => spent s s1 /\ touch n s s1 /\ adj_ok s1
    /\ exists d1, ad_nbrs s1 !! n = Some d1 /\ poised d d1)).
  { case_match; [by apply ok_discovery|]. apply wp_ret. do 3 (split; [done|]). by exists d. }
  intros fresh s1 (S1 & T1 & O1 & d1 & Hn1 & Pi1 & Pc1).
  assert (forall s2 d2, spent s s2 -> touch n s s2 -> adj_ok s2 -> ad_nbrs s2 !! n = Some d2 -> poised d d2 ->
    settled s2 /\ retained s s2) as Hend.
  { intros s2 d2 S2 T2 O2 Hn2 [_ Pc2]. split; [eapply (settled_touch n); try done; congruence|].
    apply (retained_except n); [congruence|]. intros m Hm. by rewrite (th_nbrs _ _ _ T2). }
  destruct fresh; cbn [negb]; [|apply wp_ret; by eapply Hend].
  destruct (qp_ack p =? 0) eqn:Ek; cbn [negb].
  - destruct (Hend s1 d1 S1 T1 O1 Hn1 ltac:(by split)) as [E1 R1].
    destruct (touch_intf_fwd _ _ _ _ _ T1 Hi) as (ei1 & Hi1 & [Enb [= Eo Epv Eau Ead]]).
    eapply wp_mono; [eapply (ok_hello_event i ei1); [done|done|done|by rewrite Eau|]|].
    + intros m x. rewrite Enb. rewrite (first_match_ext s).
      * rewrite Hf. intros [= <-]. rewrite Hn1. intros [= <-]. injection Pi1 as Y1 Y2 Y3 Y4 Y5 Y6 Y7 Y8 Y9. congruence.
      * intros m'. destruct (decide (m' = n)) as [->|Hm]; [|by rewrite (th_nbrs _ _ _ T1)]. rewrite Hn, Hn1. cbn.
        injection Pi1 as Y1 Y2 Y3 Y4 Y5 Y6 Y7 Y8 Y9. by rewrite Y2.
    + intros [] s2 [E2 R2]. split; [done|]. intros m x Hm L.
      destruct (decide (m = n)) as [->|Hne].
      * rewrite Hn in Hm. injection Hm as <-. destruct L as [L|[L _]]; congruence.
      * apply R2; [|done]. by rewrite (th_nbrs _ _ _ T1).
  - eapply wp_mono; [eapply ok_ack_init; [done|exact Hn1|congruence]|].
    intros [] s2 (S2 & T2 & O2 & d2 & Hn2 & Pi2 & Pc2). eapply (Hend s2 d2); [by etrans|by etrans|done|done|].
    split; [by rewrite Pi2|by rewrite Pc2].
Qed.

(** ** Every event *)

(** The outcome of an event. *)
Definition sound (s s' : adj) : Prop := settled s' /\ retained s s'.

Lemma sound_same s : settled s -> sound s s.
Proof. intros E. split; [done|by apply retained_same]. Qed.

Lemma ok_input_process p hops s :
  settled s -> enabled (ev_packet p hops) s -> wp (eigrp_packet_input_process (handler hops) p) (fun _ s' => sound s s') s.
Proof.
  intros E En. pose proof (se_ok _ E) as O. unfold eigrp_packet_input_process.
  destruct (qp_intf p) as [i|] eqn:Hpi; [|apply wp_ret; by apply sound_same].
  destruct (En) as (Hb & Hh & Hq). rewrite Hpi in Hq. destruct Hq as (ei & Hi & Ha).
  unfold get_intf. apply wp_bind, wp_bind, wp_gets. rewrite Hi. apply wp_ret.
  case_match; [apply wp_ret; by apply sound_same|]. apply wp_bind, wp_gets.
  case_match; [apply wp_ret; by apply sound_same|]. apply wp_bind. eapply wp_lookup; [done|exact Hi|].
  destruct (first_match s (qp_source p) (ai_nbrs ei)) as [n|] eqn:Hf.
  - destruct (first_match_eligible _ _ _ _ _ O Hi Hf) as (d & Hn & Hp & Hs). pose proof (ok_at _ _ _ O Hn) as H'.
    apply wp_bind. eapply wp_is_eligible; [exact H'|].
    match goal with |- context [negb (?a && ?b)] => destruct (a && b) eqn:El end; cbn [negb];
      [|apply wp_ret; by apply sound_same].
    assert (eligible n d s) as Eli.
    { repeat (apply andb_true_iff in El as [El ?]). apply bool_decide_eq_true in El. by split. }
    apply wp_bind, wp_bind, (wp_adj_nbr _ _ _ _ H'), wp_ret.
    case_match; [apply wp_ret; by apply sound_same|]. case_match.
    + eapply ok_hello_known; [done|exact En|done|done|done|exact Eli].
    + eapply wp_mono; [by eapply ok_packet_receive|]. intros [] s' [E' K]. split; [done|]. apply (retained_except n); [|done].
      intros x. rewrite Hn. intros [= <-]. apply Eli.
  - apply wp_bind, wp_ret. cbn [negb]. apply wp_bind, wp_ret. case_match; [apply wp_ret; by apply sound_same|].
    case_match; [|apply wp_ret; by apply sound_same]. apply wp_bind, wp_ret. cbn [negb].
    case_match; [apply wp_ret; by apply sound_same|]. eapply ok_hello_event; [done|done|done|done|]. congruence.
Qed.

(** A whole-instance operation that keeps the neighbors' penalties. *)
Lemma sound_kept s s' :
  settled s -> spent s s' -> adj_ok s' -> (forall n, kept <$> ad_nbrs s' !! n = kept <$> ad_nbrs s !! n) ->
  no_pending s' -> ad_af_cleanup_pending s' = false -> ad_af_pkt_active s' = ad_af_pkt_active s -> sound s s'.
Proof.
  intros E S O' K P A B. split; [|by apply retained_kept]. split; [done|done|done|rewrite B; apply E|].
  apply (spent_fits s); [apply E|apply E|done].
Qed.

Lemma sound_aside s s' :
  settled s -> spent s s' -> aside s s' -> ad_af_cleanup_pending s' = ad_af_cleanup_pending s ->
  ad_af_pkt_active s' = ad_af_pkt_active s -> sound s s'.
Proof.
  intros E S A Ea Eb. apply sound_kept; try done.
  - eapply ok_aside; [apply E|done].
  - intros n. by rewrite (as_nbrs _ _ A).
  - intros n d. rewrite (as_nbrs _ _ A). apply (se_pending _ E).
  - rewrite Ea. apply E.
Qed.

Lemma sound_exceeded limit s s' : settled s -> spent s s' -> af_exceeded limit s s' -> sound s s'.
Proof.
  intros E S X. pose proof (ax_nbrs _ _ _ X) as N. rewrite (se_active _ E) in N. destruct N as [N1 N2].
  apply sound_kept; try done; [apply X|apply X| |apply X]. apply suspended_no_pending; [apply X|done].
Qed.

Lemma sound_released s s' :
  settled s -> spent s s' -> adj_ok s' -> af_released s s' -> ad_af_cleanup_pending s' = false ->
  ad_af_pkt_active s' = ad_af_pkt_active s -> sound s s'.
Proof.
  intros E S O' R A B. apply sound_kept; try done; [apply R|]. intros n. by apply (ar_pending _ _ R), (se_pending _ E).
Qed.

Lemma wp_drop {B} (m : Ad B) (Q : unit -> adj -> Prop) s : wp m (fun _ => Q tt) s -> wp (_ ← m; mret tt) Q s.
Proof. intros W. apply wp_bind. eapply wp_mono; [exact W|]. intros a s' H. by apply wp_ret. Qed.

Lemma ok_ev_topology known count s : settled s -> wp (perform (ev_topology_admit known count)) (fun _ s' => sound s s') s.
Proof.
  intros E. apply wp_drop. eapply wp_mono; [eapply wp_spent; [apply spent_topology_admit|apply ok_topology_admit; apply E]|].
  intros b s' (S & [->|[limit X]]); [by apply sound_same|by eapply sound_exceeded].
Qed.

Lemma off_af_sound s s' : settled s -> spent s s' -> off_af s s' -> sound s s'.
Proof. intros E S [A [= E1 E2 E3 E4]]. by apply sound_aside. Qed.

Lemma ok_ev_redist present count s : settled s -> wp (perform (ev_redist_admit present count)) (fun _ s' => sound s s') s.
Proof.
  intros E. apply wp_drop.
  eapply (wp_mono _ (fun _ s' => spent s s' /\ off_af s s')); [apply wp_spent; [apply spent_redist_admit|]|].
  - unfold eigrp_redist_prefix_admit. apply wp_bind, wp_get.
    destruct (Z.eqb_spec (ad_redist_state s) 0) as [E0|E0]; cbn [negb orb]; [|by apply wp_ret].
    case_match; [by apply wp_ret|]. case_match; [|by apply wp_ret]. case_match; [by apply wp_ret|].
    case_match; [|by apply wp_ret]. apply wp_bind. eapply wp_mono; [apply wp_redist_exceeded; [apply E|apply E|done]|].
    intros [] s' (F & _). by apply wp_ret.
  - intros _ s' [S F]. by apply off_af_sound.
Qed.

Lemma ok_ev_af_clear s : settled s -> wp (perform ev_af_clear) (fun _ s' => sound s s') s.
Proof.
  intros E. apply wp_drop. eapply wp_mono; [eapply wp_spent; [apply spent_af_clear|apply ok_af_state_clear; apply E]|].
  intros b s' (S & -> & O' & _ & _ & Ea & K & N & Q & _). apply sound_kept; try done.
  - intros n. by apply Q, (se_pending _ E).
  - destruct (ad_af_state s =? 0); destruct N as [_ ->]; [apply E|done].
Qed.

Lemma ok_ev_redist_clear s : settled s -> wp (perform ev_redist_clear) (fun _ s' => sound s s') s.
Proof.
  intros E. apply wp_drop. eapply wp_mono; [eapply wp_spent; [apply spent_redist_clear|apply wp_redist_clear]|].
  intros b s' (S & _ & F & _). by apply off_af_sound.
Qed.

Lemma sound_gone n s s' :
  settled s -> spent s s' -> adj_ok s' -> gone n s s' ->
  (forall d, ad_nbrs s !! n = Some d -> nb_limit_state d = EIGRP_NBR_LIMIT_NONE) -> sound s s'.
Proof.
  intros E S O' G Hl. pose proof (gn_part _ _ _ G) as [= X1 X2 X3 X4 X5 X6 X7 X8 X9 X10]. split.
  - split; [done| |rewrite X6; apply E|rewrite X7; apply E|apply (spent_fits s); [apply E|apply E|done]].
    intros m x. destruct (decide (m = n)) as [->|Hm]; [by rewrite (gn_gone _ _ _ G)|].
    rewrite (gn_nbrs _ _ _ G) by done. apply (se_pending _ E).
  - apply (retained_except n); [done|]. intros m Hm. by rewrite (gn_nbrs _ _ _ G).
Qed.

Lemma ok_ev_teardown n s : settled s -> enabled (ev_teardown n) s -> wp (perform (ev_teardown n)) (fun _ s' => sound s s') s.
Proof.
  intros E (d & Hn & Hr). cbn [perform]. unfold eigrp_packet_retransmit_limit_exceeded.
  eapply wp_mono; [eapply wp_spent; [solve_keeps|eapply ok_down_delete; [apply E|exact Hn]]|].
  intros [] s' (S & O' & G). eapply sound_gone; try done. intros x. rewrite Hn. intros [= <-].
  destruct (decide (nb_limit_state d = EIGRP_NBR_LIMIT_NONE)); [done|]. exfalso. apply Hr. by left.
Qed.

Lemma ok_ev_hold n s : settled s -> enabled (ev_hold n) s -> wp (perform (ev_hold n)) (fun _ s' => sound s s') s.
Proof.
  intros E [d Hn]. eapply wp_mono; [eapply wp_spent; [apply spent_holddown_update|eapply ok_holddown_update; [apply E|exact Hn]]|].
  intros [] s' (S & O' & T & Hn' & _). split; [eapply (settled_touch n); try done; by apply (se_pending _ E n d)|].
  apply retained_kept. intros m. destruct (decide (m = n)) as [->|Hm]; [by rewrite Hn, Hn'|]. by rewrite (th_nbrs _ _ _ T).
Qed.

(** ** The reconciliation list of a neighbor

    [nbr->peer_init_resync_prefixes] is written by the receive function of UPDATEs and
    dropped when the adjacency resets; no other operation on the adjacencies that a
    receive function calls changes it. *)

(** The list of every neighbor is what it was, or gone. *)
Definition lists_keep : relation adj := fun a a' =>
  forall m d', ad_nbrs a' !! m = Some d' -> exists d, ad_nbrs a !! m = Some d
    /\ (nb_peer_init_resync_prefixes d' = None \/ nb_peer_init_resync_prefixes d' = nb_peer_init_resync_prefixes d).

#[export] Instance lists_keep_preorder : PreOrder lists_keep.
Proof.
  split.
  - intros a m d Hd. exists d. auto.
  - intros a b c H1 H2 m d3 H3. destruct (H2 m d3 H3) as (d2 & Hd2 & E2). destruct (H1 m d2 Hd2) as (d1 & Hd1 & E1).
    exists d1. split; [done|]. destruct E2 as [E2|E2]; [by left|]. rewrite E2. done.
Qed.

Lemma lists_same a a' : ad_nbrs a' = ad_nbrs a -> lists_keep a a'.
Proof. intros E m d. rewrite E. eauto. Qed.

Lemma lists_modify f : (forall a, ad_nbrs (f a) = ad_nbrs a) -> keeps lists_keep (modify f).
Proof. intros H. apply keeps_modify. intros a. by apply lists_same. Qed.

(** A change of a neighbor that keeps or drops its list. *)
Definition drops_only (f : nbr -> nbr) : Prop := forall d,
  nb_peer_init_resync_prefixes (f d) = None \/ nb_peer_init_resync_prefixes (f d) = nb_peer_init_resync_prefixes d.

Lemma lists_upd_nbr n f : drops_only f -> keeps lists_keep (upd_nbr n f).
Proof.
  intros Hf a [] a'. unfold upd_nbr, get_nbr, gets, nonnull, modify, mbind, M_bind.
  destruct (ad_nbrs a !! n) as [d|] eqn:E; [|done]. unfold mret, M_ret. intros [= <-] m d' Hd'. simpl in Hd'.
  destruct (decide (m = n)) as [->|Hne].
  - rewrite lookup_insert_eq in Hd'. injection Hd' as <-. exists d. auto.
  - rewrite lookup_insert_ne in Hd' by done. eauto.
Qed.

#[export] Hint Extern 1 (keeps lists_keep (modify _)) => apply lists_modify; intros; repeat case_match; reflexivity : keeps.
#[export] Hint Extern 1 (keeps lists_keep (upd_nbr _ _)) =>
  apply lists_upd_nbr; intros ?; solve [right; reflexivity | left; reflexivity] : keeps.

Lemma lists_calloc : keeps lists_keep a_calloc.
Proof. intros a x a'. unfold a_calloc. destruct (ad_grants a); intros [= _ <-]; by apply lists_same. Qed.
Lemma lists_monotime : keeps lists_keep monotime.
Proof. intros a x a'. unfold monotime. destruct (ad_ticks a); intros [= _ <-]; by apply lists_same. Qed.
Lemma lists_get n : keeps lists_keep (get_nbr n).
Proof. unfold get_nbr. solve_keeps. Qed.
Lemma lists_get_intf i : keeps lists_keep (get_intf i).
Proof. unfold get_intf. solve_keeps. Qed.
#[export] Hint Resolve lists_calloc lists_monotime lists_get lists_get_intf : keeps.
Lemma lists_upd_intf i f : keeps lists_keep (upd_intf i f).
Proof. unfold upd_intf. solve_keeps. Qed.
Lemma lists_record c : keeps lists_keep (record_call c).
Proof. unfold record_call. solve_keeps. Qed.
Lemma lists_cancel k : keeps lists_keep (cancel_timer k).
Proof. unfold cancel_timer. solve_keeps. Qed.
Lemma lists_arm k c delay : keeps lists_keep (arm_timer k c delay).
Proof. unfold arm_timer. solve_keeps. Qed.
Lemma lists_generation : keeps lists_keep generation_next.
Proof. unfold generation_next. solve_keeps. Qed.
#[export] Hint Resolve lists_upd_intf lists_record lists_cancel lists_arm lists_generation : keeps.

(** ** The operations of a receive function *)

Lemma lists_state_update n st : keeps lists_keep (eigrp_nbr_state_update_reason n st).
Proof. unfold eigrp_nbr_state_update_reason, nbr_up, nbr_down_reset. solve_keeps. Qed.
Lemma lists_eligible n : keeps lists_keep (Neighbor.eigrp_nbr_is_eligible n).
Proof. unfold Neighbor.eigrp_nbr_is_eligible. solve_keeps. Qed.
#[export] Hint Resolve lists_state_update lists_eligible : keeps.
Lemma lists_holddown n : keeps lists_keep (Neighbor.eigrp_nbr_holddown_update n).
Proof. unfold Neighbor.eigrp_nbr_holddown_update. solve_keeps. Qed.
Lemma lists_mark_down n l : keeps lists_keep (eigrp_nbr_limit_mark_down n l).
Proof. unfold eigrp_nbr_limit_mark_down. solve_keeps. Qed.
#[export] Hint Resolve lists_mark_down : keeps.
Lemma lists_prefix_admit n present : keeps lists_keep (eigrp_nbr_prefix_admit n present).
Proof. unfold eigrp_nbr_prefix_admit. solve_keeps. Qed.
#[export] Hint Resolve lists_prefix_admit : keeps.
Lemma lists_pfx_step r b n : keeps lists_keep (pfxlimits_nbr_step r b n).
Proof. unfold pfxlimits_nbr_step, nbr_new_generation. solve_keeps. Qed.
#[export] Hint Resolve lists_pfx_step : keeps.
Lemma lists_nbr_update r : keeps lists_keep (eigrp_pfxlimits_nbr_update r).
Proof. unfold eigrp_pfxlimits_nbr_update. solve_keeps. Qed.
#[export] Hint Resolve lists_nbr_update : keeps.
Lemma lists_topology_admit known count : keeps lists_keep (eigrp_topology_prefix_admit known count).
Proof.
  unfold eigrp_topology_prefix_admit, eigrp_pfxlimits_prefix_exceeded, eigrp_pfxlimits_timer_arm, eigrp_pfxlimits_timers_cancel. solve_keeps.
Qed.
#[export] Hint Resolve lists_topology_admit : keeps.
Lemma lists_route_admit n infinite present known count : keeps lists_keep (eigrp_nbr_route_admit n infinite present known count).
Proof. unfold eigrp_nbr_route_admit. solve_keeps. Qed.
#[export] Hint Resolve lists_route_admit lists_holddown : keeps.
