(* ===== verification/AdjacencyTrace.v ===== *)
(** * Adjacencies: timer expiries, codec changes, operator commands

    The events that the previous file leaves: the service of one due timer, the change
    of route codec, and the commands that delete neighbors; then the theorems over any
    sequence of events. *)

From Stdlib Require Import ZArith Lia.
From stdpp Require Import base gmap list.
From S2P Require Import Prelude Types Metric Rtt Stream BlockHash Auth Ingress IngressProps Timers Neighbor NeighborProps Limits LimitsProps AfLimits RedistLimits Hello HelloProps Dispatch AdjacencyProps.

(** ** Timers *)

Lemma ok_fewer_timers s q :
  adj_ok s -> timers_wf q -> (forall k x, armed q k = Some x -> armed (ad_timers s) k = Some x) ->
  adj_ok {| s with ad_timers := q |}.
Proof.
  intros O W F. destruct (O) as [Ot Ol On Op Of Os Od Oq Oc Oe Oh]. split; cbn; try done.
  - intros k c t E. by eapply Os, F.
  - intros n d Hn R. specialize (Oh n d Hn R). destruct (armed q (t_holddown n)) as [x|] eqn:E; [|done].
    apply F in E. congruence.
Qed.

Lemma sound_sweep s s' : settled s -> spent s s' -> adj_ok s' -> sweep s s' -> sound s s'.
Proof.
  intros E S O' W. destruct (sweep_still _ _ W) as [[= F1 F2 F3 F4 F5 F6] _]. apply sound_kept; try done.
  - apply W.
  - intros n. by apply (sw_pending _ _ W), (se_pending _ E).
  - rewrite F2. apply E.
Qed.

Lemma sound_loosened n d d' s s' :
  settled s -> spent s s' -> adj_ok s' -> touch n s s' -> ad_nbrs s !! n = Some d -> ad_nbrs s' !! n = Some d' ->
  live_same d d' -> (lasting (ad_clock s') d -> penalty_lasts d d') -> sound s s'.
Proof.
  intros E S O' T Hn Hn' (Hs & Hc & _ & P) L. pose proof P as [= E1 E2 E3 E4 E5 E6]. split.
  - eapply (settled_touch n); try done. intros Hp. rewrite Hc. apply (se_pending _ E n d Hn). congruence.
  - intros m x Hm Lx. destruct (decide (m = n)) as [->|Hne].
    + rewrite Hn in Hm. injection Hm as <-. eauto.
    + exists x. rewrite (th_nbrs _ _ _ T) by done. done.
Qed.

(** The callback of a slot, run after its timer has left the queue. *)
Lemma ok_callback k s :
  settled s -> (forall n, slot_nbr k = Some n -> is_Some (ad_nbrs s !! n)) ->
  (forall n d, k = t_holddown n -> ad_nbrs s !! n = Some d -> nb_limit_state d = EIGRP_NBR_LIMIT_NONE) ->
  wp (run_callback (callback_of k)) (fun _ s' => sound s s') s.
Proof.
  intros E L Hh. pose proof (se_ok _ E) as O. pose proof (se_clock _ E) as C.
  eapply (wp_mono _ (fun _ s' => spent s s' /\ (spent s s' -> sound s s'))); [|intros [] s' [S H]; auto].
  apply wp_spent; [apply spent_run_callback|]. destruct k as [n|n|n|n| | | |]; cbn [callback_of run_callback].
  - destruct (L n eq_refl) as [d Hn]. eapply wp_mono; [by eapply ok_holddown_expired|].
    intros [] s' (O' & [->|G]) S; [by apply sound_same|]. eapply (sound_gone n); try done. intros x Hx. by eapply Hh.
  - destruct (L n eq_refl) as [d Hn]. eapply wp_mono; [by eapply ok_restart_expired|].
    intros [] s' (O' & T & d' & Hn' & Hl & Hr) S. eapply (sound_loosened n); try done. intros La.
    destruct Hr as [->|(Hs & _ & Hd & _)]; [done|]. destruct La as [La|[_ La]]; [congruence|lia].
  - destruct (L n eq_refl) as [d Hn]. eapply wp_mono; [by eapply ok_reset_expired|].
    intros [] s' (O' & T & d' & Hn' & Hl & He & Hp) S. eapply (sound_loosened n); try done.
  - destruct (L n eq_refl) as [d Hn]. apply wp_bind, (wp_adj_nbr _ _ _ _ (ok_at _ _ _ O Hn)), wp_modify. intros S.
    by apply sound_aside; [| |apply aside_aux|..].
  - eapply wp_mono; [by apply ok_af_restart_expired|]. intros [] s' (O' & [[En Er]|(_ & _ & R & Ea & Ec)]) S.
    + injection Er as F1 F2 F3 F4 F5 F6. apply sound_kept; try done; [by rewrite En| |rewrite F2; apply E].
      intros n x. rewrite En. apply (se_pending _ E).
    + apply sound_released; try done. rewrite Ec. apply E.
  - eapply wp_mono; [by apply ok_af_reset_expired|]. intros [] s' (O' & A & [= F1 F2 F3 F4 F5]) S. by apply sound_aside.
  - eapply wp_mono; [by apply wp_redist_restart_expired|]. intros [] s' (F & _) S. by apply off_af_sound.
  - eapply wp_mono; [by apply wp_redist_reset_expired|]. intros [] s' (F & _) S. by apply off_af_sound.
Qed.

Lemma sound_after s s1 s' :
  ad_nbrs s1 = ad_nbrs s -> sound s1 s' -> sound s s'.
Proof. intros En [E R]. split; [done|]. intros n d Hn L. apply R; [by rewrite En|done]. Qed.

Lemma ok_ev_timer s : settled s -> wp (perform ev_timer) (fun _ s' => sound s s') s.
Proof.
  intros E. pose proof (se_ok _ E) as O. cbn [perform]. unfold eigrp_instance_timer_service. apply wp_bind.
  eapply (wp_mono _ (fun _ s1 => spent s s1 /\ aside s s1 /\ still s s1 /\ ad_timers s1 = ad_timers s)).
  { apply wp_spent; [apply spent_monotime|]. apply wp_monotime_fits; [apply O|apply E|]. by intros s1 A S [T _] _. }
  intros now s1 (S1 & A1 & Y1 & T1). assert (registers s1 = registers s) as F by exact Y1. injection F as F1 F2 F3 F4 F5 F6.
  assert (settled s1) as E1. { apply (sound_aside s s1); try done. }
  apply wp_bind, wp_get. pose proof (dequeue_spec (ad_timers s1) now (ao_timers _ (se_ok _ E1))) as D.
  destruct (eigrp_instance_timer_due_dequeue (ad_timers s1) now) as [[e|] q'].
  - destruct D as (Hh & Hd & W & _ & Ha). apply wp_bind, wp_modify. set (s2 := {| ad_timers := q' |}).
    assert (armed (ad_timers s1) (te_owner e) = Some (te_callback e, te_due e)) as Hk.
    { apply armed_spec; [apply E1|]. exists e. rewrite Hh. set_solver. }
    destruct (ao_slots _ (se_ok _ E1) _ _ _ Hk) as [-> Hl].
    assert (adj_ok s2) as O2.
    { apply ok_fewer_timers; [apply E1|done|]. intros k x. rewrite Ha. by case_decide. }
    assert (settled s2) as E2 by (destruct E1; by split).
    eapply wp_mono; [apply (ok_callback (te_owner e) s2); [done|done|]|].
    + intros n d Hs Hn. destruct (decide (nb_limit_state d = EIGRP_NBR_LIMIT_NONE)) as [|Hne]; [done|].
      exfalso. assert (armed (ad_timers s1) (t_holddown n) = None) as X by (apply (ao_hold _ (se_ok _ E1) n d); [done|by left]).
      rewrite Hs in Hk. congruence.
    + intros [] s' R. apply (sound_after s s2); [apply A1|done].
  - destruct D as [-> _]. apply wp_bind, wp_modify, wp_ret. apply (sound_aside s); try done.
    + by destruct s1.
    + by destruct s1.
Qed.

(** ** Route codecs *)

Lemma touch_codec_step i n : keeps (touch n) (codec_step i n).
Proof. unfold codec_step. solve_keeps. Qed.

Lemma wp_codec_step n d A s :
  at_nbr n d A s ->
  wp (codec_step (nb_ei d) n) (fun _ s' => exists d', at_nbr n d' A s' /\ core d' = core d /\ kept d' = kept d) s.
Proof.
  intros H. unfold codec_step, eigrp_nbr_codec_select. step_nbr. step_nbr. case_match; [step_nbr; by exists d|].
  step_nbr. step_nbr. cbv zeta. case_match; [step_nbr; by exists d|]. step_nbr.
  eapply (wp_mono _ (fun _ s' => at_nbr n d A s')). { by repeat step_nbr. }
  intros [] s1 H1'. clear H. apply wp_bind.
  eapply (wp_mono _ (fun _ s' => exists d', at_nbr n d' A s' /\ core d' = core d /\ kept d' = kept d)).
  { step_nbr. step_nbr. case_match; [|step_nbr; by exists d]. step_nbr. eexists. split; [exact H1'|done]. }
  intros [] s2 (d2 & H2 & Hc & Hk). pose proof Hc as [= Ei _ _ _ _ _ _]. step_nbr; [|by exists d2].
  step_nbr. step_nbr. apply (wp_upd_intf _ _ _ _ H2); [done|]. intros s3 H3. by exists d2.
Qed.

Lemma ok_codec_step n d s :
  adj_ok s -> ad_nbrs s !! n = Some d -> wp (codec_step (nb_ei d) n) (fun _ s' => adj_ok s' /\ sweep s s') s.
Proof.
  intros O Hn. eapply wp_mono; [eapply (wp_ok_op n)|].
  - done.
  - exact Hn.
  - apply touch_codec_step.
  - apply wp_codec_step. by apply ok_at.
  - intros [] s' (d' & H' & [= E1 E2 E3 E4 E5 E6 E7] & _). exists d'. split; [apply H'|]. split; [done|done| | | |].
    + unfold penalized. rewrite E4, E5, E6, E3. by apply (ao_down _ O _ _ Hn).
    + rewrite E2, E7. by eapply ok_queue.
    + unfold restrained. rewrite E4, E5, (an_armed _ _ _ _ H'). by apply (ao_hold _ O _ _ Hn).
    + unfold restrained. rewrite E4, E5, E6. by apply (ao_pend _ O _ _ Hn).
  - intros [] s' (O' & T & d' & H' & [= E1 E2 E3 E4 E5 E6 E7] & K). split; [done|].
    eapply (touch_sweep n); [done|exact Hn|apply H'|done|by rewrite E6].
Qed.

Lemma ok_codec_steps i ns s :
  adj_ok s -> (forall n, n ∈ ns -> exists d, ad_nbrs s !! n = Some d /\ nb_ei d = i) ->
  wp (mfor ns (codec_step i)) (fun _ s' => adj_ok s' /\ sweep s s') s.
Proof.
  revert s. induction ns as [|n ns IH]; intros s O Hl; cbn [mfor]; [apply wp_ret; by split|].
  destruct (Hl n) as (d & Hn & <-); [set_solver|]. apply wp_bind. eapply wp_mono; [by apply ok_codec_step|].
  intros [] s1 [O1 S1]. eapply wp_mono; [apply IH; [done|]|].
  - intros m Hm. destruct (Hl m) as (x & Hx & Ex); [set_solver|]. pose proof (sw_nbrs _ _ S1 m) as K. rewrite Hx in K.
    destruct (ad_nbrs s1 !! m) as [y|]; [|done]. injection K as K1 _ _ _ _. exists y. split; [done|congruence].
  - intros [] s2 [O2 S2]. split; [done|by etrans].
Qed.

Lemma ok_ev_codec s : settled s -> wp (perform ev_codec_update) (fun _ s' => sound s s') s.
Proof.
  intros E. cbn [perform]. eapply (wp_mono _ (fun _ s' => spent s s' /\ adj_ok s' /\ sweep s s')).
  2: { intros [] s' (S & O' & W). by apply sound_sweep. }
  apply wp_spent; [apply spent_codec_update|]. unfold eigrp_nbr_codec_update. apply wp_bind, wp_gets.
  pose proof (se_ok _ E) as O.
  assert (forall i ei, (i, ei) ∈ zip (seq 0 (length (ad_intfs s))) (ad_intfs s) -> ad_intfs s !! i = Some ei) as Hz.
  { intros i ei [j Hj]%list_elem_of_lookup. apply lookup_zip_Some in Hj as [Hi Hj]. apply lookup_seq in Hi as [-> _]. done. }
  generalize dependent (zip (seq 0 (length (ad_intfs s))) (ad_intfs s)). intros l Hz.
  enough (forall s0, adj_ok s0 -> sweep s s0 ->
    wp (mfor l (fun '(i, ei) => mfor (ai_nbrs ei) (codec_step i))) (fun _ s' => adj_ok s' /\ sweep s s') s0) as W by by apply W.
  induction l as [|[i ei] l IH]; intros s0 O0 W; cbn [mfor]; [by apply wp_ret|].
  apply wp_bind. eapply wp_mono; [apply (ok_codec_steps i (ai_nbrs ei)); [done|]|].
  - intros n Hn. destruct (ao_links _ (se_ok _ E) i ei n) as (d & Hd & Ei & _); [apply Hz; set_solver|done|].
    pose proof (sw_nbrs _ _ W n) as K. rewrite Hd in K. destruct (ad_nbrs s0 !! n) as [y|]; [|done].
    injection K as K1 _ _ _ _. exists y. split; [done|congruence].
  - intros [] s1 [O1 S1]. apply IH; [intros; apply Hz; set_solver|done|by etrans].
Qed.

(** ** Commands that delete neighbors *)

(** Neighbors are deleted, nothing else of them changes. *)
Record shrunk (s s' : adj) : Prop := {
  sk_ok : adj_ok s';
  sk_nbrs : forall n, ad_nbrs s' !! n = ad_nbrs s !! n \/ ad_nbrs s' !! n = None;
  sk_intfs : length (ad_intfs s') = length (ad_intfs s);
  sk_part : instance_part s' = instance_part s;
}.

Lemma shrunk_refl s : adj_ok s -> shrunk s s.
Proof. by split; [|left|..]. Qed.

Lemma shrunk_trans s s' s'' : shrunk s s' -> shrunk s' s'' -> shrunk s s''.
Proof.
  intros [A1 A2 A3 A4] [B1 B2 B3 B4]. split; [done| |congruence|congruence].
  intros n. destruct (B2 n) as [->|?]; [apply A2|by right].
Qed.

Lemma lists_length s s' (f : adj_intf -> list ptr) :
  (forall i, ai_nbrs <$> ad_intfs s' !! i = f <$> ad_intfs s !! i) -> length (ad_intfs s') = length (ad_intfs s).
Proof.
  intros H. assert (forall i, is_Some (ad_intfs s' !! i) <-> is_Some (ad_intfs s !! i)) as K.
  { intros i. specialize (H i). rewrite <- (fmap_is_Some ai_nbrs (ad_intfs s' !! i)), H. by rewrite fmap_is_Some. }
  destruct (Nat.lt_trichotomy (length (ad_intfs s')) (length (ad_intfs s))) as [L|[L|L]]; [|done|].
  - apply lookup_lt_is_Some, K, lookup_lt_is_Some in L. lia.
  - apply lookup_lt_is_Some, K, lookup_lt_is_Some in L. lia.
Qed.

Lemma gone_shrunk n s s' : adj_ok s' -> gone n s s' -> shrunk s s'.
Proof.
  intros O' [G1 G2 G3 G4 G5 G6]. split; [done| |by eapply lists_length|done].
  intros m. destruct (decide (m = n)) as [->|Hm]; [by right|left; auto].
Qed.

Lemma settled_shrunk s s' : settled s -> spent s s' -> shrunk s s' -> settled s'.
Proof.
  intros E S [K1 K2 K3 K4]. pose proof K4 as [= X1 X2 X3 X4 X5 X6 X7 X8 X9 X10]. split; [done| | | |].
  - intros n d. destruct (K2 n) as [->| ->]; [apply (se_pending _ E)|done].
  - rewrite X6. apply E.
  - rewrite X7. apply E.
  - apply (spent_fits s); [apply E|apply E|done].
Qed.

Lemma shrunk_call c s (Q : unit -> adj -> Prop) :
  adj_ok s -> (forall s', shrunk s s' -> ad_nbrs s' = ad_nbrs s -> Q tt s') -> wp (record_call c) Q s.
Proof.
  intros O HQ. apply wp_modify, HQ; [|done]. split; cbn; [by eapply ok_aux|by left|done|done].
Qed.

(** A teardown of [n] and what it leaves of a list of others. *)
Definition torn (n : ptr) (s s' : adj) : Prop := shrunk s s' /\ forall m, m <> n -> ad_nbrs s' !! m = ad_nbrs s !! m.

Lemma ok_torn n d s :
  adj_ok s -> ad_nbrs s !! n = Some d ->
  wp (eigrp_nbr_state_update_reason n EIGRP_NEIGHBOR_DOWN;; eigrp_nbr_delete n) (fun _ s' => torn n s s') s.
Proof.
  intros O Hn. eapply wp_mono; [by eapply ok_down_delete|]. intros [] s' [O' G].
  split; [by eapply gone_shrunk|apply G].
Qed.

Lemma ok_clear_hard n d b s :
  adj_ok s -> ad_nbrs s !! n = Some d -> wp (eigrp_nbr_clear_hard n b) (fun _ s' => torn n s s') s.
Proof.
  intros O Hn. unfold eigrp_nbr_clear_hard. apply wp_bind, (wp_adj_nbr _ _ _ _ (ok_at _ _ _ O Hn)), wp_bind.
  eapply (wp_mono _ (fun _ s1 => shrunk s s1 /\ ad_nbrs s1 = ad_nbrs s)).
  { apply wp_when. case_match; [by apply shrunk_call|]. split; [by apply shrunk_refl|done]. }
  intros [] s1 [K1 E1]. eapply wp_mono; [eapply (ok_torn n d); [apply K1|by rewrite E1]|].
  intros [] s2 [K2 H2]. split; [by eapply shrunk_trans|]. intros m Hm. by rewrite H2, E1.
Qed.

Lemma ok_clear_nbrs soft ns k s :
  adj_ok s -> NoDup ns -> (forall n, n ∈ ns -> is_Some (ad_nbrs s !! n)) ->
  wp (clear_nbrs soft ns k) (fun _ s' => shrunk s s') s.
Proof.
  revert k s. induction ns as [|n ns IH]; intros k s O ND Hl; cbn [clear_nbrs]; [apply wp_ret; by apply shrunk_refl|].
  apply NoDup_cons in ND as [Hni ND]. destruct (Hl n) as [d Hn]; [set_solver|].
  apply wp_bind, (wp_adj_nbr _ _ _ _ (ok_at _ _ _ O Hn)). case_match; [apply IH; [done|done|set_solver]|].
  apply wp_bind. eapply (wp_mono _ (fun _ s1 => torn n s s1)).
  { destruct soft; [|by eapply ok_clear_hard]. apply shrunk_call; [done|]. intros s1 K1 E1. split; [done|by rewrite E1]. }
  intros [] s1 [K1 H1]. eapply wp_mono; [apply IH; [apply K1|done|]|].
  - intros m Hm. rewrite H1; [apply Hl; set_solver|]. by intros ->.
  - intros j s2 K2. by eapply shrunk_trans.
Qed.

Lemma ok_clear_intf soft i k s :
  adj_ok s -> is_Some (ad_intfs s !! i) -> wp (clear_intf soft i k) (fun _ s' => shrunk s s') s.
Proof.
  intros O Hi. unfold clear_intf. apply wp_bind. eapply (wp_mono _ (fun _ s1 => shrunk s s1)).
  { apply wp_when. case_match; [by apply shrunk_call|by apply shrunk_refl]. }
  intros [] s1 K1. destruct Hi as [ei0 Hi]. destruct (lookup_lt_is_Some_2 (ad_intfs s1) i) as [ei Hi1].
  { rewrite (sk_intfs _ _ K1). by eapply lookup_lt_Some. }
  unfold get_intf. apply wp_bind, wp_bind, wp_gets. rewrite Hi1. apply wp_ret.
  eapply wp_mono; [apply ok_clear_nbrs; [apply K1|by eapply (ao_nodup _ (sk_ok _ _ K1))|]|].
  - intros n Hn. destruct (ao_links _ (sk_ok _ _ K1) _ _ _ Hi1 Hn) as (d & Hd & _). by exists d.
  - intros j s2 K2. by eapply shrunk_trans.
Qed.

Lemma ok_clear_intfs soft l k s :
  adj_ok s -> Forall (fun i => i < length (ad_intfs s))%nat l ->
  wp (clear_intfs soft l k) (fun _ s' => shrunk s s') s.
Proof.
  revert k s. induction l as [|i l IH]; intros k s O F; cbn [clear_intfs]; [apply wp_ret; by apply shrunk_refl|].
  apply Forall_cons in F as [Hi F]. apply wp_bind.
  eapply wp_mono; [apply ok_clear_intf; [done|by apply lookup_lt_is_Some_2]|].
  intros j s1 K1. eapply wp_mono; [apply IH; [apply K1|by rewrite (sk_intfs _ _ K1)]|].
  intros j' s2 K2. exact (shrunk_trans _ _ _ K1 K2).
Qed.

Lemma wp_mfind_nbrs (f : nbr -> bool) ns s Q :
  adj_ok s -> (forall n, n ∈ ns -> is_Some (ad_nbrs s !! n)) ->
  (forall o, (forall n, o = Some n -> n ∈ ns) -> Q o s) ->
  wp (mfind ns (fun n => nbr ← get_nbr n; mret (f nbr))) Q s.
Proof.
  intros O. induction ns as [|n ns IH]; intros Hl HQ; cbn [mfind]; [by apply wp_ret, HQ|].
  destruct (Hl n) as [d Hn]; [set_solver|]. apply wp_bind, wp_bind, (wp_adj_nbr _ _ _ _ (ok_at _ _ _ O Hn)), wp_ret.
  case_match; [apply wp_ret, HQ; intros m [= <-]; set_solver|]. apply IH; [set_solver|]. intros o Ho. apply HQ. set_solver.
Qed.

Lemma listed_live s n : adj_ok s -> n ∈ ad_intfs s ≫= ai_nbrs -> is_Some (ad_nbrs s !! n).
Proof.
  intros O (ei & Hn & [i Hi]%list_elem_of_lookup)%list_elem_of_bind.
  destruct (ao_links _ O _ _ _ Hi Hn) as (d & Hd & _). by exists d.
Qed.

Lemma ok_nbr_clear r s :
  adj_ok s -> enabled (ev_nbr_clear r) s -> wp (eigrp_nbr_clear r) (fun _ s' => shrunk s s') s.
Proof.
  intros O En. pose proof (shrunk_refl _ O) as R. unfold eigrp_nbr_clear. cbn in En.
  destruct (cr_interface r) as [[i|]|] eqn:Ei, (cr_address r) as [a|]; try (by apply wp_ret).
  - apply wp_bind. eapply wp_mono; [eapply ok_clear_intf; [done|by apply En]|]. intros k s1 K1. by apply wp_ret.
  - match goal with |- context [negb ?b] => destruct b end; [|by apply wp_ret]. cbn [negb]. apply wp_bind, wp_get, wp_bind.
    apply (wp_mfind_nbrs (fun nbr => eigrp_nbr_clear_address_match nbr a)); [done|intros n; by apply listed_live|].
    intros o Ho. destruct o as [n|]; [|by apply wp_ret]. destruct (listed_live s n O (Ho n eq_refl)) as [d Hn].
    apply wp_bind. eapply (wp_mono _ (fun _ s1 => shrunk s s1)).
    { destruct (cr_soft r); [by apply shrunk_call|]. eapply wp_mono; [by eapply ok_clear_hard|]. by intros [] s1 [K _]. }
    intros [] s1 K1. by apply wp_ret.
  - apply wp_bind, wp_get, wp_bind. eapply wp_mono; [apply ok_clear_intfs; [done|]|].
    + apply Forall_forall. intros i Hi%elem_of_seq. lia.
    + intros k s1 K1. by apply wp_ret.
Qed.

Lemma ok_intf_encoder_clear i s :
  adj_ok s -> is_Some (ad_intfs s !! i) -> wp (upd_intf i eigrp_intf_encoder_clear) (fun _ s' => shrunk s s') s.
Proof.
  intros O [ei Hi]. unfold upd_intf, get_intf. apply wp_bind, wp_bind, wp_gets. rewrite Hi. apply wp_ret, wp_modify.
  assert (forall j, ai_nbrs <$> (<[i := eigrp_intf_encoder_clear ei]> (ad_intfs s)) !! j = ai_nbrs <$> ad_intfs s !! j) as L.
  { intros j. destruct (decide (j = i)) as [->|Hj]; [|by rewrite list_lookup_insert_ne].
    rewrite list_lookup_insert_eq by (by eapply lookup_lt_Some). by rewrite Hi. }
  split; cbn; [|by left|by rewrite length_insert|done]. destruct (O) as [Ot Ol On Op Of Os Od Oq Oc Oe Oh].
  split; cbn; try done.
  - intros j e n Hj Hn. specialize (L j). rewrite Hj in L. destruct (ad_intfs s !! j) as [e0|] eqn:Ej; [|done].
    injection L as L. rewrite L in Hn. by eapply Ol.
  - intros j e Hj. specialize (L j). rewrite Hj in L. destruct (ad_intfs s !! j) as [e0|] eqn:Ej; [|done].
    injection L as ->. by eapply On.
  - intros n d Hn. destruct (Op _ _ Hn) as (e & He & Hin). specialize (L (nb_ei d)). rewrite He in L.
    destruct (<[i:=_]> (ad_intfs s) !! nb_ei d) as [e'|] eqn:Ee; [|done]. injection L as L. exists e'. by rewrite L.
Qed.

Lemma ok_intf_nbrs_down i s :
  adj_ok s -> is_Some (ad_intfs s !! i) -> wp (intf_nbrs_down i) (fun _ s' => shrunk s s') s.
Proof.
  intros O [ei Hi]. unfold intf_nbrs_down, get_intf. apply wp_bind, wp_bind, wp_gets. rewrite Hi. apply wp_ret, wp_bind.
  assert (NoDup (ai_nbrs ei) /\ forall n, n ∈ ai_nbrs ei -> is_Some (ad_nbrs s !! n)) as [ND Hl].
  { split; [by eapply (ao_nodup _ O)|]. intros n Hn. destruct (ao_links _ O _ _ _ Hi Hn) as (d & Hd & _). by exists d. }
  eapply (wp_mono _ (fun _ s1 => shrunk s s1)).
  - clear Hi. revert s O Hl. induction (ai_nbrs ei) as [|n ns IH]; intros s O Hl; cbn [mfor]; [apply wp_ret; by apply shrunk_refl|].
    apply NoDup_cons in ND as [Hni ND]. destruct (Hl n) as [d Hn]; [set_solver|]. apply wp_bind.
    eapply wp_mono; [by eapply ok_torn|]. intros [] s1 [K1 H1]. eapply wp_mono; [apply IH; [done|apply K1|]|].
    + intros m Hm. rewrite H1; [apply Hl; set_solver|]. by intros ->.
    + intros [] s2 K2. by eapply shrunk_trans.
  - intros [] s1 K1. eapply wp_mono; [apply ok_intf_encoder_clear; [apply K1|]|].
    + apply lookup_lt_is_Some. rewrite (sk_intfs _ _ K1). by eapply lookup_lt_Some.
    + intros [] s2 K2. by eapply shrunk_trans.
Qed.

(** ** Sequences of events *)

Lemma spent_perform e : keeps spent (perform e).
Proof.
  destruct e; cbn [perform]; try solve [solve_keeps].
  apply spent_input_process.
Qed.

Lemma ok_event e s :
  settled s -> enabled e s -> wp (perform e) (fun _ s' => settled s' /\ (~ operator_clear e -> retained s s')) s.
Proof.
  intros E En. pose proof (se_ok _ E) as O.
  assert (forall m : Ad unit, wp m (fun _ s' => sound s s') s ->
    wp m (fun _ s' => settled s' /\ (~ operator_clear e -> retained s s')) s) as Hs.
  { intros m W. eapply wp_mono; [exact W|]. intros [] s' [? ?]. by split. }
  assert (forall m : Ad unit, operator_clear e -> keeps spent m -> wp m (fun _ s' => shrunk s s') s ->
    wp m (fun _ s' => settled s' /\ (~ operator_clear e -> retained s s')) s) as Hc.
  { intros m C K W. eapply wp_mono; [by eapply wp_spent|]. intros [] s' [S K']. split; [by eapply settled_shrunk|done]. }
  destruct e as [p hops| |n|n|known count|present count| | | |r|i].
  - apply Hs. by apply ok_input_process.
  - apply Hs. by apply ok_ev_timer.
  - apply Hs. by apply ok_ev_hold.
  - apply Hs. by apply ok_ev_teardown.
  - apply Hs. by apply ok_ev_topology.
  - apply Hs. by apply ok_ev_redist.
  - apply Hs. by apply ok_ev_codec.
  - apply Hs. by apply ok_ev_af_clear.
  - apply Hs. by apply ok_ev_redist_clear.
  - apply Hc; [done|apply spent_perform|]. apply wp_drop. by apply ok_nbr_clear.
  - apply Hc; [done|apply spent_perform|]. by apply ok_intf_nbrs_down.
Qed.

(** [s] leads to the last state through the events, each enabled when it happens. *)
Inductive leads (s : adj) : list event -> adj -> Prop :=
  | leads_none : leads s [] s
  | leads_event es s1 e s2 :
      leads s es s1 -> enabled e s1 -> perform e s1 = Some (tt, s2) -> leads s (es ++ [e]) s2.

Lemma leads_settled s es s' : settled s -> leads s es s' -> settled s'.
Proof.
  intros E. induction 1 as [|es s1 e s2 L IH En P]; [done|].
  pose proof (ok_event e s1 IH En) as W. unfold wp in W. rewrite P in W. apply W.
Qed.

Lemma lasting_earlier now now' d : now <= now' -> lasting now' d -> lasting now d.
Proof. intros Hn [H|[H ?]]; [by left|right; split; [done|lia]]. Qed.

Lemma lasting_same now d d' : penalty_lasts d d' -> lasting now d -> lasting now d'.
Proof. intros [H1 H2]. unfold lasting. by rewrite H1, H2. Qed.

Lemma leads_retained s es s' :
  settled s -> leads s es s' -> Forall (fun e => ~ operator_clear e) es -> retained s s'.
Proof.
  intros E. induction 1 as [|es s1 e s2 L IH En P]; intros F; [by apply retained_same|].
  apply Forall_app in F as [F Fe]. apply Forall_cons in Fe as [Fe _]. specialize (IH F).
  pose proof (leads_settled _ _ _ E L) as E1. pose proof (ok_event e s1 E1 En) as W. unfold wp in W. rewrite P in W.
  destruct W as [_ R]. specialize (R Fe). intros n d Hn La.
  destruct (sp_later _ _ (spent_perform _ _ _ _ P) (ao_ticks _ (se_ok _ E1))) as [_ Hle].
  destruct (IH n d Hn (lasting_earlier _ _ _ Hle La)) as (d1 & Hn1 & H1).
  destruct (R n d1 Hn1 (lasting_same _ _ _ H1 La)) as (d2 & Hn2 & H2). exists d2. split; [done|].
  destruct H1, H2. split; congruence.
Qed.

(** The state of an instance before its first event. *)
Definition fresh_intf : adj_intf :=
  {| ai_nbrs := []; ai_epoch := 0; ai_tlv1_peers := 0; ai_tlv2_peers := 0; ai_encoder := eigrp_packet_encoder_safe;
     ai_operative := true; ai_passive := false; ai_auth := false; ai_address := [10; 0; 0; 1] |}.

Definition started (intfs : nat) (config : option limit_config) (clock : Z) : adj :=
  {| ad_nbrs := ∅; ad_intfs := replicate intfs fresh_intf; ad_next_nbr := 1%nat; ad_next_generation := 0;
     ad_k_values := K_DEFAULT; ad_metric_version := 2; ad_config := config; ad_af_state := 0;
     ad_af_cleanup_pending := false; ad_af_pkt_active := false; ad_af_penalty := no_penalty; ad_redist_state := 0;
     ad_redist_penalty := no_penalty; ad_timers := timers_empty; ad_clock := clock; ad_ticks := []; ad_grants := [];
     ad_calls := [] |}.

Lemma started_settled intfs config clock : 0 <= clock <= UINT64_MAX -> settled (started intfs config clock).
Proof.
  intros Hc. split; cbn; try done; [|by unfold clock_fits; cbn; lia]. split; cbn; try done.
  - apply timers_empty_wf.
  - intros i ei n [-> _]%lookup_replicate Hn. by apply not_elem_of_nil in Hn.
  - intros i ei [-> _]%lookup_replicate. apply NoDup_nil_2.
Qed.
