(* ===== verification/AdjacencyTheorems.v ===== *)
(** * Adjacencies and prefix limits: theorems

    Every reachable state of an address family's thread is sound and every event is
    handled; penalties last; what a violation of a neighbor's limit and of the
    topology's limit does; which packets the dispatcher lets through. *)

From Stdlib Require Import ZArith Lia.
From stdpp Require Import base gmap list.
From S2P Require Import Prelude Types Metric Rtt Stream BlockHash Auth Ingress IngressProps Timers Neighbor NeighborProps Limits LimitsProps AfLimits RedistLimits Hello HelloProps Dispatch AdjacencyProps AdjacencyTrace.

(** ** A concrete run *)

Definition demo_limit : eigrp_prefix_limit :=
  {| maximum := 1; threshold := 0; warning_only := false; dampened := true;
     reset_time_minutes := 15; restart_minutes := 5; restart_count := 3 |}.
Definition demo_config : option limit_config :=
  Some {| lc_topology := None; lc_redistribute := None; lc_neighbor_all := Some demo_limit; lc_neighbors := [] |}.
Definition demo_peer : eigrp_addr := {| addr_afi := AF_INET; addr_ip := [10; 0; 0; 2] |}.

(** A Hello with the default K values and a hold time of 15 seconds. *)
Definition demo_hello : queued_packet :=
  {| qp_intf := Some 0%nat; qp_source := demo_peer; qp_source_allowed := true; qp_multicast := true; qp_valid := true;
     qp_authenticated := true; qp_generation := 0; qp_opcode := EIGRP_OPC_HELLO; qp_flags := 0; qp_sequence := 0;
     qp_ack := 0; qp_init_acked := false; qp_payload := [0; 1; 0; 12; 1; 0; 1; 0; 0; 0; 0; 15] |}.

(** An UPDATE of the second route of a neighbor with a limit of one prefix. *)
Definition demo_update : queued_packet :=
  {| qp_intf := Some 0%nat; qp_source := demo_peer; qp_source_allowed := true; qp_multicast := false; qp_valid := true;
     qp_authenticated := true; qp_generation := 1; qp_opcode := EIGRP_OPC_UPDATE; qp_flags := 0; qp_sequence := 7;
     qp_ack := 1; qp_init_acked := true; qp_payload := [] |}.
Definition demo_hops : list hop :=
  [hop_note (fun d => {| d with nb_prefix_count := 1 |}); hop_route_admit false false false 1].

Definition demo_events : list event := [ev_packet demo_hello []; ev_packet demo_update demo_hops; ev_timer].

Definition demo_start : adj := started 1 demo_config 1000.

Definition after (es : list event) : adj :=
  match mfor es perform demo_start with Some (_, s) => s | None => demo_start end.

Lemma demo_first : perform (ev_packet demo_hello []) demo_start = Some (tt, after [ev_packet demo_hello []]).
Proof. vm_compute. reflexivity. Qed.
Lemma demo_second :
  perform (ev_packet demo_update demo_hops) (after [ev_packet demo_hello []])
  = Some (tt, after [ev_packet demo_hello []; ev_packet demo_update demo_hops]).
Proof. vm_compute. reflexivity. Qed.
Lemma demo_third :
  perform ev_timer (after [ev_packet demo_hello []; ev_packet demo_update demo_hops]) = Some (tt, after demo_events).
Proof. vm_compute. reflexivity. Qed.

Lemma demo_violation_leads :
  leads demo_start [ev_packet demo_hello []; ev_packet demo_update demo_hops]
    (after [ev_packet demo_hello []; ev_packet demo_update demo_hops]).
Proof.
  eapply (leads_event _ [ev_packet demo_hello []]); [| |exact demo_second].
  - eapply (leads_event _ []); [constructor| |exact demo_first].
    split; [repeat (constructor; [unfold byte; lia|]); constructor|]. split; [constructor|].
    exists fresh_intf. split; [vm_compute; reflexivity|discriminate].
  - split; [constructor|]. split; [repeat (constructor; [done|]); constructor|]. eexists. split; [vm_compute; reflexivity|].
    discriminate.
Qed.

Lemma demo_leads : leads demo_start demo_events (after demo_events).
Proof. eapply (leads_event _ [_; _]); [exact demo_violation_leads|exact I|exact demo_third]. Qed.

(** ** Every sequence of events *)

(** C24: The adjacency state machine is sound.  From a settled state, through any
    sequence of packets of any bytes, timer expiries, teardowns, limit violations, releases
    and commands, every handler of the adjacency runs to its end without undefined
    behaviour in the adjacency's own state, and that state stays sound: lists and heap
    agree, armed timers belong to live neighbors, a penalized neighbor is DOWN and has no
    hold timer, no violation is left unfinished.  A receive function is here any sequence
    of the admissions it may ask for, and calls into topology, transport and update are
    recorded, not run; what goes wrong inside those calls is outside the statement. *)
Theorem adjacency_events_sound s es s' :
  settled s -> leads s es s' ->
  settled s' /\ forall e, enabled e s' -> exists s'', perform e s' = Some (tt, s'') /\ settled s''.
Proof.
  intros E L. pose proof (leads_settled _ _ _ E L) as E'. split; [done|]. intros e En.
  pose proof (ok_event e s' E' En) as W. unfold wp in W. destruct (perform e s') as [[[] s'']|]; [|done].
  exists s''. split; [done|apply W].
Qed.

Lemma adjacency_events_sound_witness :
  settled (after demo_events) /\ exists s'', perform ev_timer (after demo_events) = Some (tt, s'') /\ settled s''.
Proof.
  destruct (adjacency_events_sound demo_start demo_events (after demo_events)) as [E H].
  - apply started_settled. unfold UINT64_MAX. lia.
  - exact demo_leads.
  - split; [exact E|]. apply (H ev_timer). exact I.
Defined.

(** C25: Penalties last.  Through any sequence of events in which no operator command
    clears anything and no interface goes down (either ends the neighbor), a neighbor
    locked by its prefix limit stays locked, and a suspended one stays suspended while the
    clock is before its restart time; it keeps its identity, is DOWN and has no hold
    timer. *)
Theorem penalties_last s es s' n d :
  settled s -> leads s es s' -> Forall (fun e => ~ operator_clear e) es ->
  ad_nbrs s !! n = Some d -> lasting (ad_clock s') d ->
  exists d', ad_nbrs s' !! n = Some d' /\ penalty_lasts d d' /\ nb_state d' = EIGRP_NEIGHBOR_DOWN
    /\ armed (ad_timers s') (t_holddown n) = None.
Proof.
  intros E L F Hn La. destruct (leads_retained _ _ _ E L F n d Hn La) as (d' & Hn' & P). exists d'.
  split; [done|]. split; [done|]. pose proof (se_ok _ (leads_settled _ _ _ E L)) as O'.
  assert (nb_limit_state d' <> EIGRP_NBR_LIMIT_NONE) as Hl.
  { destruct P as [-> _]. destruct La as [-> |[-> _]]; done. }
  split; [apply (ao_down _ O' _ _ Hn'); by left|apply (ao_hold _ O' _ _ Hn'); by left].
Qed.

Lemma penalties_last_witness :
  exists d', ad_nbrs (after demo_events) !! 1%nat = Some d' /\ nb_limit_state d' = EIGRP_NBR_LIMIT_SUSPENDED.
Proof.
  set (s2 := after [ev_packet demo_hello []; ev_packet demo_update demo_hops]).
  assert (settled demo_start) as E by (apply started_settled; unfold UINT64_MAX; lia).
  assert (exists d, ad_nbrs s2 !! 1%nat = Some d /\ lasting (ad_clock (after demo_events)) d
    /\ nb_limit_state d = EIGRP_NBR_LIMIT_SUSPENDED) as (d & Hn & La & Hs).
  { eexists. split; [vm_compute; reflexivity|]. split; [right; split; [reflexivity|vm_compute; reflexivity]|reflexivity]. }
  destruct (penalties_last s2 [ev_timer] (after demo_events) 1%nat d) as (d' & Hn' & [Hl _] & _).
  - exact (leads_settled _ _ _ E demo_violation_leads).
  - eapply (leads_event _ []); [constructor|exact I|exact demo_third].
  - constructor; [intros []|constructor].
  - exact Hn.
  - exact La.
  - exists d'. split; [exact Hn'|]. rewrite Hl. exact Hs.
Defined.

(** ** Violations *)

(** A configured limit: 16-bit fields. *)
Definition limit_ok (l : eigrp_prefix_limit) : Prop :=
  0 <= restart_minutes l <= UINT16_MAX /\ 0 <= reset_time_minutes l <= UINT16_MAX /\ 0 <= restart_count l <= UINT16_MAX.
Definition config_ok (config : option limit_config) : Prop :=
  (forall l, config ≫= lc_neighbor_all = Some l -> limit_ok l) /\ (forall l, config ≫= lc_topology = Some l -> limit_ok l).

Lemma effective_ok config limit :
  config_ok config -> limit_ok limit ->
  let eff := eigrp_nbr_limit_values_read config limit in
  0 < restart_minutes eff <= UINT16_MAX /\ 0 < restart_count eff <= UINT16_MAX.
Proof.
  intros [Ca Ct] (L1 & L2 & L3). cbv zeta. unfold eigrp_nbr_limit_values_read, inherited, or_default. cbn.
  destruct (config ≫= lc_neighbor_all) as [a|]; [destruct (Ca a eq_refl) as (A1 & A2 & A3)|];
    (destruct (config ≫= lc_topology) as [t|]; [destruct (Ct t eq_refl) as (T1 & T2 & T3)|]);
    unfold UINT16_MAX in *; split; repeat case_match; lia.
Qed.

(** The neighbor after its violation: down, without a hold timer, and either locked
    without timers, or suspended with both timers armed for an interval between the
    configured time and that time for each recent violation. *)
Record punished (n : ptr) (eff : eigrp_prefix_limit) (p0 : penalty) (d' : nbr) (s' : adj) : Prop := {
  pu_down : nb_state d' = EIGRP_NEIGHBOR_DOWN;
  pu_done : nb_cleanup_pending d' = false;
  pu_hold : armed (ad_timers s') (t_holddown n) = None;
  pu_penalty :
    (nb_limit_state d' = EIGRP_NBR_LIMIT_LOCKED
     /\ armed (ad_timers s') (t_limit_restart n) = None /\ armed (ad_timers s') (t_limit_reset n) = None)
    \/ (nb_limit_state d' = EIGRP_NBR_LIMIT_SUSPENDED
        /\ is_Some (armed (ad_timers s') (t_limit_restart n)) /\ is_Some (armed (ad_timers s') (t_limit_reset n))
        /\ restart_cnt (nb_penalty d') = restart_cnt p0 + 1 /\ restart_cnt p0 + 1 < restart_count eff
        /\ exists now interval, let base := restart_minutes eff * MINUTE_MSEC in
             base <= interval <= base * (restart_cnt p0 + 1)
             /\ restart_due_msec (nb_penalty d') = u64 (now + interval)
             /\ (dampened eff = false -> interval = base));
}.

Lemma violation_punished n eff now p0 d' s' :
  0 < restart_minutes eff <= UINT16_MAX -> restart_count eff <= UINT16_MAX -> counts_ok p0 ->
  nb_state d' = EIGRP_NEIGHBOR_DOWN -> nb_cleanup_pending d' = false ->
  violation n eff now p0 d' (armed (ad_timers s')) -> punished n eff p0 d' s'.
Proof.
  intros Hm Hrc Hc Hs Hp V. split; [done|done|by eapply violation_hold|].
  destruct V as [Hl Hh Hr Ht|base p Hl Hh Hb Hpn Hlt He Hr Ht]; [by left|right]. do 3 (split; [done|]).
  assert (restart_cnt p0 < UINT16_MAX) as Hlt0.
  { subst p. unfold count_incident in Hlt. cbn [restart_cnt] in Hlt. unfold counts_ok in Hc.
    assert (restart_cnt (penalize eigrp_nbr_limit_decay (dampened eff) now (u64 (base + base / 2)) p0) = restart_cnt p0) as E
      by (unfold penalize; by destruct (dampened eff)). rewrite E in Hlt. destruct (Z.ltb_spec (restart_cnt p0) UINT16_MAX); lia. }
  pose proof (violation_interval (dampened eff) (restart_minutes eff) now p0 Hm Hc Hlt0) as K. cbv zeta in K.
  destruct K as (K1 & K2 & K3 & K4). change eigrp_nbr_limit_decay with eigrp_pfxlimits_penalty_decay in Hpn.
  assert (restart_cnt p = restart_cnt p0 + 1) as Ec by (subst; exact K3).
  rewrite He. cbn [restart_cnt restart_due_msec]. split; [done|]. split; [lia|].
  exists now, (suspension (dampened eff) base p). subst base. rewrite <- Hpn in K4. rewrite Ec in K4.
  split; [lia|]. split; [done|]. unfold suspension. by intros ->.
Qed.

(** C26: A violation of a hard prefix limit, at the end of its packet: the neighbor is
    down, without a hold timer, and locked, or suspended for between the configured time
    and that time for each recent violation; other neighbors keep their records. *)
Theorem neighbor_violation n d s :
  adj_ok s -> ad_nbrs s !! n = Some d -> nb_cleanup_pending d = true -> nb_published d = true ->
  config_ok (ad_config s) -> limit_ok (nb_pending_cfg d) -> counts_ok (nb_penalty d) ->
  exists s' d', eigrp_nbr_limit_cleanup n s = Some (tt, s') /\ ad_nbrs s' !! n = Some d' /\ adj_ok s'
    /\ punished n (eigrp_nbr_limit_values_read (ad_config s) (nb_pending_cfg d)) (nb_penalty d) d' s'
    /\ forall m, m <> n -> ad_nbrs s' !! m = ad_nbrs s !! m.
Proof.
  intros O Hn Hc Hp Hcf Hl Hcnt.
  assert (nb_limit_state d = EIGRP_NBR_LIMIT_NONE) as Hnone.
  { destruct (decide (nb_limit_state d = EIGRP_NBR_LIMIT_NONE)); [done|]. exfalso.
    apply (ao_pend _ O _ _ Hn Hc). by left. }
  pose proof (ok_limit_cleanup n d s O Hn Hc Hp Hnone) as W. unfold wp in W.
  destruct (eigrp_nbr_limit_cleanup n s) as [[[] s']|]; [|done].
  destruct W as (O' & T & d' & now & Hn' & _ & V & Hs & Hd). exists s', d'. do 3 (split; [done|]). split; [|apply T].
  destruct (effective_ok _ _ Hcf Hl) as [E1 [_ E2]]. by eapply violation_punished.
Qed.

Definition demo_marked : adj :=
  match eigrp_nbr_limit_mark_down 1%nat demo_limit (after [ev_packet demo_hello []]) with
  | Some (_, s) => s
  | None => demo_start
  end.

Lemma demo_marked_ok : adj_ok demo_marked.
Proof.
  assert (settled (after [ev_packet demo_hello []])) as E.
  { apply (leads_settled demo_start [ev_packet demo_hello []]); [apply started_settled; unfold UINT64_MAX; lia|].
    eapply (leads_event _ []); [constructor| |exact demo_first].
    split; [repeat (constructor; [unfold byte; lia|]); constructor|]. split; [constructor|].
    exists fresh_intf. split; [vm_compute; reflexivity|discriminate]. }
  assert (exists d, ad_nbrs (after [ev_packet demo_hello []]) !! 1%nat = Some d) as [d Hn]
    by (eexists; vm_compute; reflexivity).
  pose proof (ok_mark_down 1%nat d (after [ev_packet demo_hello []]) demo_limit (se_ok _ E) Hn) as W. unfold wp in W.
  unfold demo_marked. destruct (eigrp_nbr_limit_mark_down 1%nat demo_limit (after [ev_packet demo_hello []])) as [[b s']|]; [apply W|done].
Qed.

Lemma neighbor_violation_witness :
  exists s' d', eigrp_nbr_limit_cleanup 1%nat demo_marked = Some (tt, s') /\ ad_nbrs s' !! 1%nat = Some d'
    /\ punished 1%nat demo_limit no_penalty d' s'.
Proof.
  assert (exists d, ad_nbrs demo_marked !! 1%nat = Some d /\ nb_cleanup_pending d = true /\ nb_published d = true
    /\ nb_pending_cfg d = demo_limit /\ nb_penalty d = no_penalty) as (d & Hn & H1 & H2 & H3 & H4).
  { eexists. split; [vm_compute; reflexivity|]. repeat (split; [reflexivity|]). reflexivity. }
  destruct (neighbor_violation 1%nat d demo_marked) as (s' & d' & R & Hn' & _ & P & _).
  - exact demo_marked_ok.
  - exact Hn.
  - exact H1.
  - exact H2.
  - split; intros l; vm_compute; [intros [= <-]|discriminate]. repeat split; discriminate.
  - rewrite H3. vm_compute. repeat split; discriminate.
  - rewrite H4. vm_compute. repeat split; discriminate.
  - exists s', d'. split; [exact R|]. split; [exact Hn'|]. rewrite H3, H4 in P. exact P.
Defined.

(** C27: A violation of the hard limit of the topology outside a packet: the address
    family is locked, or suspended with both timers armed and deadlines that do not wrap;
    every neighbor is suspended with it, DOWN and without a hold timer, keeps its own
    penalty, and no local or redistributed route is admitted any more. *)
Theorem topology_violation limit known count s :
  settled s -> ad_af_state s = 0 -> known = false -> ad_config s ≫= lc_topology = Some limit ->
  warning_only limit = false -> maximum limit <= count ->
  exists s', eigrp_topology_prefix_admit known count s = Some (false, s') /\ settled s'
    /\ (exists now, af_violation limit now (ad_af_penalty s) s')
    /\ (forall n d', ad_nbrs s' !! n = Some d' -> nb_published d' = true ->
          nb_af_suspended d' = true /\ nb_state d' = EIGRP_NEIGHBOR_DOWN /\ armed (ad_timers s') (t_holddown n) = None
          /\ exists d, ad_nbrs s !! n = Some d /\ nb_limit_state d' = nb_limit_state d /\ nb_penalty d' = nb_penalty d)
    /\ (forall k c, eigrp_topology_prefix_admit k c s' = Some (false, s'))
    /\ (forall p c, eigrp_redist_prefix_admit p c s' = Some (false, s')).
Proof.
  intros E H0 -> Hc Hw Hm. pose proof (se_ok _ E) as O.
  assert (wp (eigrp_topology_prefix_admit false count) (fun b s' => spent s s' /\ b = false /\ af_exceeded limit s s') s) as W.
  { apply wp_spent; [apply spent_topology_admit|]. unfold eigrp_topology_prefix_admit. apply wp_bind, wp_get.
    rewrite H0, Hc, Hw. cbn [negb andb]. rewrite (proj2 (Z.leb_le _ _)) by done. apply wp_bind.
    eapply wp_mono; [apply ok_prefix_exceeded; [done|apply E|done|done]|]. intros [] s' X. by apply wp_ret. }
  unfold wp in W. destruct (eigrp_topology_prefix_admit false count s) as [[b s']|]; [|done]. destruct W as (S & -> & X).
  exists s'. split; [done|]. destruct (sound_exceeded _ _ _ E S X) as [E' _]. split; [done|].
  pose proof (ax_nbrs _ _ _ X) as N. rewrite (se_active _ E) in N. destruct N as [N _].
  assert (ad_af_state s' <> 0) as Hst by (destruct (ax_violation _ _ _ X) as (now & [V|? ? ? ? V]); rewrite V; done).
  split; [apply X|]. split; [|split].
  - intros n d' Hn' Hp. pose proof (N _ _ Hn' Hp) as Hs. split; [done|].
    split; [apply (ao_down _ (se_ok _ E') _ _ Hn'); right; by left|].
    split; [apply (ao_hold _ (se_ok _ E') _ _ Hn'); by right|].
    pose proof (ax_kept _ _ _ X n) as K. rewrite Hn' in K. destruct (ad_nbrs s !! n) as [d|]; [|done].
    injection K as K1 K2 K3 K4 K5. by exists d.
  - intros k c. unfold eigrp_topology_prefix_admit, mbind, M_bind, get. rewrite (proj2 (Z.eqb_neq _ _)) by done. done.
  - intros p c. unfold eigrp_redist_prefix_admit, mbind, M_bind, get. rewrite (proj2 (Z.eqb_neq (ad_af_state s') 0)) by done.
    by rewrite orb_true_r.
Qed.

Definition demo_topology : option limit_config :=
  Some {| lc_topology := Some demo_limit; lc_redistribute := None; lc_neighbor_all := None; lc_neighbors := [] |}.

Lemma topology_violation_witness :
  exists s', eigrp_topology_prefix_admit false 1 (started 1 demo_topology 1000) = Some (false, s')
    /\ exists now, af_violation demo_limit now no_penalty s'.
Proof.
  destruct (topology_violation demo_limit false 1 (started 1 demo_topology 1000)) as (s' & R & _ & V & _).
  - apply started_settled. unfold UINT64_MAX. lia.
  - reflexivity.
  - reflexivity.
  - reflexivity.
  - reflexivity.
  - vm_compute. discriminate.
  - exists s'. split; [exact R|exact V].
Defined.

(** ** Which packets reach a receive function *)

Definition states_same (s s' : adj) : Prop := forall m, nb_state <$> ad_nbrs s' !! m = nb_state <$> ad_nbrs s !! m.
#[export] Instance states_same_preorder : PreOrder states_same.
Proof. split; [by intros s m|]. intros s s' s'' A B m. by rewrite B, A. Qed.

Lemma states_same_upd n f : (forall d, nb_state (f d) = nb_state d) -> keeps states_same (upd_nbr n f).
Proof.
  intros Hf s [] s'. unfold upd_nbr, get_nbr, gets, nonnull, modify, mbind, M_bind.
  destruct (ad_nbrs s !! n) as [d|] eqn:E; [|done]. intros [= <-] m. cbn. destruct (decide (m = n)) as [->|Hm].
  - rewrite lookup_insert_eq, E. cbn. by rewrite Hf.
  - by rewrite lookup_insert_ne.
Qed.

Lemma states_same_conditional n p : keeps states_same (conditional_receive n p).
Proof.
  assert (keeps states_same (get_nbr n)) by (unfold get_nbr; solve_keeps).
  assert (keeps states_same (upd_nbr n (fun d => {| d with nb_cr_mode := false; nb_cr_sequence := 0 |})))
    by (by apply states_same_upd). unfold conditional_receive. cbv zeta. solve_keeps; try done. all: solve_keeps; done.
Qed.

Lemma lookup_eq i src ei s :
  adj_ok s -> ad_intfs s !! i = Some ei ->
  Neighbor.eigrp_nbr_lookup i src s = Some (first_match s src (ai_nbrs ei), s).
Proof.
  intros O Hi. assert (wp (Neighbor.eigrp_nbr_lookup i src) (fun o s' => o = first_match s src (ai_nbrs ei) /\ s' = s) s) as W
    by (eapply wp_lookup; [done|exact Hi|done]).
  unfold wp in W. destruct (Neighbor.eigrp_nbr_lookup i src s) as [[o s']|]; [|done]. by destruct W as [-> ->].
Qed.

(** The handshake this packet may complete before its receive function runs. *)
Definition completes_handshake (p : queued_packet) (d : nbr) : Prop :=
  qp_ack p <> 0 /\ qp_init_acked p = true /\ nb_state d = EIGRP_NEIGHBOR_PENDING.

Lemma packet_receive_guard r1 r2 n d p s :
  adj_ok s -> ad_nbrs s !! n = Some d -> dual_opcode (qp_opcode p) = true -> nb_state d <> EIGRP_NEIGHBOR_UP ->
  ~ completes_handshake p d -> packet_receive r1 n p s = packet_receive r2 n p s.
Proof.
  intros O Hn Hd Hu Hc. unfold packet_receive. unfold mbind, M_bind.
  destruct (conditional_receive n p s) as [[wanted s1]|] eqn:E1; [|done]. destruct wanted; cbn [negb]; [|done].
  pose proof (states_same_conditional _ _ _ _ _ E1 n) as K. rewrite Hn in K.
  destruct (ad_nbrs s1 !! n) as [d1|] eqn:Hn1; [|done]. injection K as K.
  assert (when (negb (qp_ack p =? 0)) (ack_init n (qp_init_acked p) (qp_sequence p)) s1 = Some (tt, s1)) as ->.
  { destruct (Z.eqb_spec (qp_ack p) 0) as [E|E]; cbn [negb when]; [done|].
    unfold ack_init, get_nbr, gets, nonnull, mbind, M_bind. rewrite Hn1. unfold mret, M_ret. cbv iota beta.
    destruct (qp_init_acked p) eqn:Ei; cbn [andb when]; [|done].
    destruct (Z.eqb_spec (nb_state d1) EIGRP_NEIGHBOR_PENDING) as [Es|Es]; [|done].
    exfalso. apply Hc. split; [done|]. split; [done|congruence]. }
  unfold get_nbr, gets, nonnull, mbind, M_bind. rewrite Hn1. unfold mret, M_ret. cbv iota beta. rewrite Hd, K.
  rewrite (proj2 (Z.eqb_neq _ _)) by done. done.
Qed.

(** C28: A receive function runs only for a packet that arrived on an active interface,
    passed header validation and authentication, and whose source is a published
    neighbor, of the packet's generation, under no penalty, in an address family that is
    not suspended; QUERY, REPLY and the SIA packets, only when the adjacency is up or the
    packet's acknowledgment completes its handshake. *)
Theorem receive_guarded r1 r2 p s :
  adj_ok s -> (forall i, qp_intf p = Some i -> is_Some (ad_intfs s !! i)) ->
  eigrp_packet_input_process r1 p s <> eigrp_packet_input_process r2 p s ->
  exists i ei n d, qp_intf p = Some i /\ ad_intfs s !! i = Some ei /\ n ∈ ai_nbrs ei /\ ad_nbrs s !! n = Some d
    /\ nb_src d = qp_source p /\ ai_passive ei = false /\ qp_valid p = true /\ qp_authenticated p = true
    /\ ~ penalized d /\ ad_af_state s = 0 /\ (qp_generation p = 0 \/ qp_generation p = nb_generation d)
    /\ qp_opcode p <> EIGRP_OPC_HELLO
    /\ (dual_opcode (qp_opcode p) = true -> nb_state d = EIGRP_NEIGHBOR_UP \/ completes_handshake p d).
Proof.
  intros O Hi Hne. unfold eigrp_packet_input_process in Hne. destruct (qp_intf p) as [i|]; [|done].
  destruct (Hi i eq_refl) as [ei Hei]. unfold get_intf, gets, nonnull, mbind, M_bind, mret, M_ret in Hne. rewrite Hei in Hne. cbv iota beta in Hne.
  destruct (ai_passive ei) eqn:Ep, (qp_valid p) eqn:Ev; cbn [orb negb] in Hne; try done.
  destruct (negb (ad_af_state s =? 0) && (qp_opcode p =? EIGRP_OPC_HELLO)) eqn:Eh; [done|].
  rewrite (lookup_eq _ _ _ _ O Hei) in Hne. destruct (first_match s (qp_source p) (ai_nbrs ei)) as [n|] eqn:Ef.
  2: { cbn [negb] in Hne. by repeat (case_match; try done). }
  destruct (first_match_found _ _ _ _ Ef) as (Hin & d & Hn & Hs).
  unfold Neighbor.eigrp_nbr_is_eligible, get_nbr, gets, nonnull, mbind, M_bind, mret, M_ret in Hne. rewrite Hn in Hne. cbv iota beta in Hne.
  destruct (bool_decide (nb_limit_state d = EIGRP_NBR_LIMIT_NONE)) eqn:El; cbn [negb andb] in Hne; [|done].
  destruct (nb_cleanup_pending d) eqn:Ec; cbn [negb andb] in Hne; [done|].
  destruct (nb_af_suspended d) eqn:Ea; cbn [negb andb] in Hne; [done|].
  destruct (Z.eqb_spec (ad_af_state s) 0) as [E0|E0]; cbn [negb andb] in Hne; [|done].
  destruct (qp_authenticated p) eqn:Eu; cbn [negb orb] in Hne; [|done].
  rewrite Hn in Hne. cbv iota beta in Hne.
  destruct (negb (qp_generation p =? 0) && negb (nb_generation d =? qp_generation p)) eqn:Eg; [done|].
  destruct (Z.eqb_spec (qp_opcode p) EIGRP_OPC_HELLO) as [Eo|Eo]; [done|].
  apply bool_decide_eq_true in El. exists i, ei, n, d. do 8 (split; [done|]).
  split; [intros [?|[?|?]]; congruence|]. split; [done|]. split; [|split; [done|]].
  - destruct (Z.eqb_spec (qp_generation p) 0), (Z.eqb_spec (nb_generation d) (qp_generation p)); try done; auto.
  - intros Hd. destruct (decide (nb_state d = EIGRP_NEIGHBOR_UP)) as [|Hu]; [by left|]. right.
    destruct (Z.eqb_spec (qp_ack p) 0) as [Ek|Ek]; [|destruct (qp_init_acked p) eqn:Ei;
      [destruct (decide (nb_state d = EIGRP_NEIGHBOR_PENDING)); [done|]|]];
      exfalso; apply Hne, (packet_receive_guard r1 r2 n d); try done; unfold completes_handshake; intros (? & ? & ?); congruence.
Qed.

Definition demo_mark (b : bool) : Z -> ptr -> Ad unit := fun _ n => upd_nbr n (fun d => {| d with nb_cr_mode := b |}).

Lemma receive_guarded_witness :
  exists n d, ad_nbrs (after [ev_packet demo_hello []]) !! n = Some d /\ nb_src d = demo_peer /\ ~ penalized d.
Proof.
  assert (adj_ok (after [ev_packet demo_hello []])) as O.
  { apply se_ok, (leads_settled demo_start [ev_packet demo_hello []]); [apply started_settled; unfold UINT64_MAX; lia|].
    eapply (leads_event _ []); [constructor| |exact demo_first].
    split; [repeat (constructor; [unfold byte; lia|]); constructor|]. split; [constructor|].
    exists fresh_intf. split; [vm_compute; reflexivity|discriminate]. }
  destruct (receive_guarded (demo_mark true) (demo_mark false) demo_update (after [ev_packet demo_hello []]))
    as (i & ei & n & d & _ & _ & _ & Hn & Hs & _ & _ & _ & Hp & _).
  - exact O.
  - intros i [= <-]. eexists. vm_compute. reflexivity.
  - vm_compute. discriminate.
  - exists n, d. split; [exact Hn|]. split; [exact Hs|exact Hp].
Defined.
