(* ===== verification/Receive.v ===== *)
(** * Reception of QUERY, REPLY, SIA and UPDATE packets

    The receive functions of eigrp_query.c, eigrp_reply.c, eigrp_siaquery.c,
    eigrp_siareply.c and eigrp_update.c: the walk over the route TLVs of a packet, the
    admission of each route, the local answers to QUERYs, and the events they deliver to
    DUAL.

    A receive function works on the packet's stream, the instance store ([State]) and
    the adjacencies ([Neighbor]).  The fields of a neighbor object are kept by the
    component that writes them; the store's copies of those the adjacency writes are
    renewed after each of its operations. *)

From Stdlib Require Import ZArith Lia.
From stdpp Require Import base gmap list strings.
From S2P Require Import Prelude Types Metric Prefix Rtt Stream AfVectors Tlv1 Tlv2 Filter Auth Timers Neighbor Limits Dispatch State Topology Fsm Summary NeighborDown.

Definition EIGRP_RS_FLAG : Z := 0x04.
Definition EIGRP_EOT_FLAG : Z := 0x08.

(** ** State *)

(** [rx_acks]: the acknowledgements sent, latest first; [rx_gr]: the list [nbr_prefixes]
    of [eigrp_update_receive]; [rx_gr_freed]: the neighbors whose [nbr_gr_prefixes] points
    to a list that was freed. *)
Record rx := {
  rx_store : eigrp_instance;
  rx_adj : adj;
  rx_pkt : eigrp_stream;
  rx_acks : list (ptr * Z);
  rx_gr : option (list ptr);
  rx_gr_freed : list ptr;
}.

Abbreviation Rx := (M rx).

(** What the handlers read of the configuration and of interface [ei]; the evaluation
    of named lists and of leak maps is the host's. *)
Record rx_env := {
  re_codec : tlv2_instance;
  re_policy : policy;
  re_intf : option nat;
  re_ei : ptr;
  re_summaries : option summary_af;
  re_summary_intf : summary_intf;
  re_auto_prefix : eigrp_prefix -> eigrp_prefix + eigrp_result;
  re_evaluate : Z -> string -> eigrp_prefix -> eigrp_result * option eigrp_filter_decision;
  re_leak_map : string -> eigrp_prefix -> eigrp_result * option eigrp_filter_decision;
}.

(** The header's fields. *)
Record rx_header := { rh_flags : Z; rh_sequence : Z }.

Definition limit_code (st : eigrp_nbr_limit_state) : Z :=
  match st with
  | EIGRP_NBR_LIMIT_NONE => 0 | EIGRP_NBR_LIMIT_SUSPENDED => 1 | EIGRP_NBR_LIMIT_LOCKED => 2
  end.

(** The store's copy of a neighbor after an operation on the adjacencies. *)
Definition nbr_refresh (d : nbr) (nb : eigrp_nbr) : eigrp_nbr :=
  {| nb with nbr_published := nb_published d; nbr_state := nb_state d;
     nbr_limit_state := limit_code (nb_limit_state d); af_suspended := nb_af_suspended d;
     limit_cleanup_pending := nb_cleanup_pending d |}.

Definition nbrs_refresh (a : adj) (m : gmap ptr eigrp_nbr) : gmap ptr eigrp_nbr :=
  map_imap (fun n nb => Some (match ad_nbrs a !! n with Some d => nbr_refresh d nb | None => nb end)) m.

Definition on_store {A} (m : St A) : Rx A := fun w =>
  match m (rx_store w) with
  | Some (x, s) => Some (x, {| w with rx_store := s |})
  | None => None
  end.

Definition on_pkt {A} (m : Sm A) : Rx A := fun w =>
  match m (rx_pkt w) with
  | Some (x, s) => Some (x, {| w with rx_pkt := s |})
  | None => None
  end.

Definition on_adj {A} (m : Ad A) : Rx A := fun w =>
  match m (rx_adj w) with
  | Some (x, a) =>
      let s := rx_store w in
      Some (x, {| w with rx_adj := a; rx_store := {| s with nbrs := nbrs_refresh a (nbrs s) |} |})
  | None => None
  end.

Definition rx_nbr (n : ptr) : Rx nbr := o ← gets (fun w => ad_nbrs (rx_adj w) !! n); nonnull o.

(** ** Shared by the handlers *)

(** [eigrp_hello_send_ack_sequence], [eigrp_hello_send_ack]. *)
Definition eigrp_hello_send_ack_sequence (n : ptr) (sequence : Z) : Rx unit :=
  modify (fun w => {| w with rx_acks := (n, sequence) :: rx_acks w |}).
Definition eigrp_hello_send_ack (n : ptr) : Rx unit :=
  nbr ← rx_nbr n;
  eigrp_hello_send_ack_sequence n (nb_recv_sequence nbr).

Definition recv_sequence_set (n : ptr) (sequence : Z) : Rx unit :=
  on_adj (Neighbor.upd_nbr n (fun d => {| d with nb_recv_sequence := sequence |})).

(** [eigrp_nbr_prefix_present], [eigrp_nbr_prefix_count] (eigrp_neighbor.c). *)
Definition eigrp_nbr_prefix_present (prefix : option ptr) (n : ptr) : St bool :=
  match prefix with
  | None => mret false
  | Some p => r ← eigrp_prefix_descriptor_lookup p (Some n); mret (bool_decide (is_Some r))
  end.

Fixpoint present_count (n : ptr) (nodes : list ptr) (count : Z) : St Z :=
  match nodes with
  | [] => mret count
  | t :: nodes' =>
      rn ← get_tnode t;
      present ← eigrp_nbr_prefix_present (tn_info rn) n;
      present_count n nodes' (if present : bool then u32 (count + 1) else count)
  end.

Definition eigrp_nbr_prefix_count (n : ptr) : St Z :=
  nbr ← State.get_nbr n;
  if limit_prefix_count_valid nbr then mret (limit_prefix_count nbr)
  else nodes ← gets topology_table; present_count n nodes 0.

(** [eigrp_topology_prefix_count] (eigrp_topology.c). *)
Definition eigrp_topology_prefix_count : St Z :=
  gets (fun s => Z.min (Z.of_nat (length (topology_table s))) UINT32_MAX).

Definition unreachable (metric : eigrp_metrics) : St bool :=
  p ← gets params; mret (eigrp_metric_calculate p metric =? EIGRP_MAX_METRIC).

(** [eigrp_topology_prefix_admit] and [eigrp_nbr_route_admit] with what they read of the
    topology. *)
Definition topology_prefix_admit (dest : eigrp_prefix) : Rx bool :=
  known ← on_store (eigrp_topology_table_lookup dest);
  count ← on_store eigrp_topology_prefix_count;
  on_adj (eigrp_topology_prefix_admit (bool_decide (is_Some known)) count).

Definition nbr_route_admit (n : ptr) (dest : eigrp_prefix) (metric : eigrp_metrics) : Rx bool :=
  infinite ← on_store (unreachable metric);
  known ← on_store (eigrp_topology_table_lookup dest);
  present ← on_store (eigrp_nbr_prefix_present known n);
  paths ← on_store (eigrp_nbr_prefix_count n);
  on_adj (Neighbor.upd_nbr n (fun d => {| d with nb_prefix_count := paths |}));;
  count ← on_store eigrp_topology_prefix_count;
  on_adj (eigrp_nbr_route_admit n infinite present (bool_decide (is_Some known)) count).

Section handlers.
Context (env : rx_env).

Definition ingress_denied (dest : eigrp_prefix) : bool :=
  eigrp_filter_prefix_update (re_evaluate env) (re_policy env) (re_intf env) EIGRP_FILTER_IN dest.

(** The metric of a received route behind the inbound filter. *)
Definition denied_metric (dest : eigrp_prefix) (metric : eigrp_metrics) : eigrp_metrics :=
  if ingress_denied dest then {| metric with delay := EIGRP_MAX_METRIC |} else metric.

(** In an UPDATE an inbound offset list applies to what the filter lets through. *)
Definition ingress_metric (dest : eigrp_prefix) (metric : eigrp_metrics) : eigrp_metrics :=
  if ingress_denied dest then {| metric with delay := EIGRP_MAX_METRIC |}
  else eigrp_offset_metric_update (re_evaluate env) (re_policy env) (re_intf env) EIGRP_FILTER_IN dest metric.

Definition three_external (type : Z) : bool :=
  (type =? EIGRP_TLV_IPv4_EXT) || (type =? EIGRP_TLV_IPv6_EXT) || (type =? EIGRP_TLV_MP_EXT).
Definition data_class (external : bool) : msg_data_t := if external then EIGRP_EXT else EIGRP_INT.
(** [route->type == eigrp->af_vectors.classic_external_tlv_type || ...]. *)
Definition family_external (type : Z) : bool :=
  (type =? v_external_tlv_type (vectors (re_codec env))) || (type =? EIGRP_TLV_MP_EXT).
Definition prefix_class (external : bool) : Z :=
  if external then EIGRP_TOPOLOGY_TYPE_REMOTE_EXTERNAL else EIGRP_TOPOLOGY_TYPE_REMOTE.

(** ** The walk over the TLVs *)

(** [(nbr->decoder)(eigrp, nbr, pkt, length)]; a neighbor without codec has
    [eigrp_packet_decoder_safe]. *)
Definition nbr_decoder (version : Z) (ei : option ptr) (src : eigrp_addr) : Sm (option eigrp_route_descriptor) :=
  if version =? EIGRP_TLV_32B_VERSION then eigrp_tlv1_decoder (vectors (re_codec env)) ei
  else if version =? EIGRP_TLV_64B_VERSION then eigrp_tlv2_decoder (re_codec env) ei src
  else decode_abort;; mret None.

Definition route_decode (n : ptr) : Rx (option ptr) :=
  nbr ← rx_nbr n;
  nb ← on_store (State.get_nbr n);
  route ← on_pkt (nbr_decoder (nb_tlv_version nbr) (nbr_ei nb) (nb_src nbr));
  match route with
  | None => mret None
  | Some route => on_store (r ← fresh; put_route r route;; mret (Some r))
  end.

Definition pkt_more : Rx bool := on_pkt (gets (fun s => (getp s <? endp s)%nat)).

(** The loop condition of QUERY and UPDATE. *)
Definition more_unlimited (n : ptr) : Rx bool :=
  more ← pkt_more;
  if more : bool then nbr ← rx_nbr n; mret (negb (nb_cleanup_pending nbr)) else mret false.

(** The loop of QUERY, REPLY and UPDATE; [false] when the decoder left its input and the
    handler returns at once.  The fuel is the number of bytes that are left. *)
Fixpoint tlv_walk (fuel : nat) (n : ptr) (more : Rx bool) (body : ptr -> Rx unit) : Rx bool :=
  match fuel with
  | O => ub
  | S fuel' =>
      continue ← more;
      if negb continue then mret true
      else
        tlv_start ← on_pkt (gets getp);
        route ← route_decode n;
        match route with
        | None =>
            now ← on_pkt (gets getp);
            if (now =? tlv_start)%nat then mret false else tlv_walk fuel' n more body
        | Some r => body r;; tlv_walk fuel' n more body
        end
  end.

(** The loop of the SIA packets ends at the first TLV that yields no route. *)
Fixpoint sia_walk (fuel : nat) (n : ptr) (body : ptr -> Rx unit) : Rx unit :=
  match fuel with
  | O => ub
  | S fuel' =>
      continue ← pkt_more;
      if negb continue then mret tt
      else
        route ← route_decode n;
        match route with
        | None => mret tt
        | Some r => body r;; sia_walk fuel' n body
        end
  end.

Definition walk_fuel : Rx nat := on_pkt (gets (fun s => S (endp s - getp s))).

(** ** Events *)

(** The neighbor's path takes the received type, next hop and external data; without a
    path the received route is used.  [true]: there was one. *)
Definition path_adopt (n p r : ptr) : St (ptr * bool) :=
  path ← eigrp_prefix_descriptor_lookup p (Some n);
  received ← get_route r;
  match path with
  | Some t =>
      upd_route t (fun d => {| d with rd_type := rd_type received; rd_nexthop := rd_nexthop received;
                               rd_extdata := rd_extdata received |});;
      mret (t, true)
  | None => put_route r {| received with rd_adv_router := Some n; rd_prefix := Some p |};; mret (r, false)
  end.

Definition route_message (n p r : ptr) (opcode : Z) (external : bool) (metrics : eigrp_metrics) (transient : bool)
    : eigrp_fsm_action_message :=
  let m := zero_message p in
  {| m with packet_type := opcode; data_type := data_class external; msg_adv_router := Some n;
     msg_route := Some r; msg_metrics := metrics; transient_route := transient |}.

(** The event of a route TLV of a QUERY, a REPLY or a SIA-QUERY; [metrics] is the
    received vector behind the filter.  [true]: the received route was not stored. *)
Definition route_event (n p r : ptr) (opcode : Z) (metrics : eigrp_metrics) : Rx bool :=
  received ← on_store (get_route r);
  '(path, owned) ← on_store (path_adopt n p r);
  prefix ← on_store (get_prefix p);
  refused ← (if owned : bool then mret false
             else ok ← nbr_route_admit n (destination prefix) metrics; mret (negb ok));
  msg ← on_store (eigrp_fsm_event (route_message n p path opcode (three_external (rd_type received)) metrics refused));
  mret (owned || transient_route msg).

(** ** QUERY *)

Definition eigrp_query_unknown_reply_send (n r : ptr) : St unit :=
  query ← get_route r;
  p ← eigrp_topology_prefix_create;
  upd_prefix p (fun d => {| d with destination := eigrp_prefix_normalize (rd_dest query) |});;
  nb ← State.get_nbr n;
  reply ← eigrp_topology_route_create (nbr_ei nb);
  let metric := rd_metric query in
  upd_route reply (fun d => {| d with rd_type := rd_type query; rd_dest := rd_dest query; rd_prefix := Some p;
                               rd_adv_router := Some n;
                               rd_metric := {| metric with delay := EIGRP_MAX_METRIC; flags := 0 |} |});;
  eigrp_reply_send_route (Some n) p (Some reply)
    (Z.lor EIGRP_PACKETIZER_WORK_F_OWN_PREFIX EIGRP_PACKETIZER_WORK_F_OWN_ROUTE).

(** [route->distance = eigrp_metric_total_calculate(eigrp, route)] with the reported
    vector [metric]; the distances are [uint32_t]. *)
Definition route_measure (r : ptr) (metric : eigrp_metrics) : St unit :=
  par ← gets params;
  upd_route r (fun d => {| d with rd_reported_metric := metric;
                           rd_reported_distance := u32 (eigrp_metric_calculate par metric) |});;
  route ← get_route r;
  ei ← (match rd_ei route with
        | None => mret None
        | Some i => ei ← State.get_intf i; mret (Some ei)
        end);
  '(total, d) ← nonnull (eigrp_metric_total_calculate par ei metric);
  put_route r {| route with rd_total_metric := total; rd_distance := u32 d |}.

(** The new destination of an unknown prefix that a QUERY or UPDATE carries. *)
Definition destination_create (r : ptr) : St ptr :=
  route ← get_route r;
  p ← eigrp_topology_prefix_create;
  serno ← gets serno;
  upd_prefix p (fun d => {| d with destination := eigrp_prefix_normalize (rd_dest route); pd_serno := serno;
                            pd_state := EIGRP_FSM_STATE_PASSIVE;
                            nt := prefix_class (family_external (rd_type route)) |});;
  mret p.

(** The path of a finite QUERY for an unknown destination is remembered; [true]: the
    received route was stored. *)
Definition eigrp_query_unknown_route_record (n r : ptr) (prefix : option ptr) : Rx bool :=
  route ← on_store (get_route r);
  nb ← on_store (State.get_nbr n);
  if negb (bool_decide (is_Some (nbr_ei nb)))
     || (delay (rd_metric route) =? EIGRP_MAX_METRIC) || (delay (rd_metric route) =? EIGRP_METRIC_MAX)
     || ingress_denied (rd_dest route)
  then mret false
  else
    admitted ← nbr_route_admit n (rd_dest route) (rd_metric route);
    if negb admitted then mret false
    else
      p ← (match prefix with
           | Some p => mret p
           | None =>
               on_store (p ← destination_create r;
                         upd_prefix p (fun d => let m := reported_metric d in
                           {| d with reported_metric := {| m with delay := EIGRP_MAX_METRIC |} |});;
                         mret p)
           end);
      previous ← on_store (eigrp_prefix_descriptor_lookup p (Some n));
      match previous with
      | Some t =>
          on_store
            (upd_route t (fun d => {| d with rd_type := rd_type route; rd_nexthop := rd_nexthop route;
                                      rd_extdata := rd_extdata route |});;
             _ ← eigrp_topology_update_distance
                   (route_message n p t 0 (family_external (rd_type route)) (rd_metric route) false);
             mret false)
      | None =>
          on_store
            (upd_route r (fun d => {| d with rd_adv_router := Some n; rd_prefix := Some p |});;
             route_measure r (rd_metric route);;
             inserted ← eigrp_topology_route_insert p r true;
             if negb inserted then
               when (negb (bool_decide (is_Some prefix))) (eigrp_topology_prefix_free (Some p));;
               mret false
             else
               when (negb (bool_decide (is_Some prefix))) (eigrp_prefix_descriptor_add p);;
               mret true)
      end.

(** The answer at a summary boundary; [true]: the QUERY is answered. *)
Definition summary_answer (n r : ptr) : St bool :=
  route ← get_route r;
  sp ← eigrp_topology_prefix_create;
  sr ← eigrp_topology_route_create (Some (re_ei env));
  built ← eigrp_summary_query_route_build (re_auto_prefix env) (re_leak_map env)
            (v_internal_tlv_type (vectors (re_codec env)))
            (re_summaries env) (re_summary_intf env) sp (rd_dest route);
  match built with
  | Some (d, e) =>
      put_prefix sp d;;
      put_route sr e;;
      eigrp_reply_send_route (Some n) sp (Some sr)
        (Z.lor EIGRP_PACKETIZER_WORK_F_OWN_PREFIX EIGRP_PACKETIZER_WORK_F_OWN_ROUTE);;
      free_route r;;
      mret true
  | None =>
      eigrp_topology_prefix_free (Some sp);;
      free_route sr;;
      mret false
  end.

(** A destination of which nothing is known but retained QUERY paths. *)
Definition unknown_destination (d : eigrp_prefix_descriptor) : bool :=
  bool_decide (pd_state d = EIGRP_FSM_STATE_PASSIVE)
  && (distance d =? EIGRP_MAX_METRIC) && (fdistance d =? EIGRP_MAX_METRIC)
  && (delay (reported_metric d) =? EIGRP_MAX_METRIC).

Definition query_tlv (n r : ptr) : Rx unit :=
  answered ← on_store (summary_answer n r);
  if answered : bool then mret tt
  else
    route ← on_store (get_route r);
    found ← on_store (eigrp_topology_table_lookup (rd_dest route));
    unknown ← on_store (match found with
                        | None => mret true
                        | Some p => d ← get_prefix p; mret (unknown_destination d)
                        end);
    match found with
    | Some p =>
        if negb unknown then
          drop ← route_event n p r EIGRP_OPC_QUERY (denied_metric (rd_dest route) (rd_metric route));
          when drop (on_store (free_route r))
        else
          on_store (eigrp_query_unknown_reply_send n r);;
          stored ← eigrp_query_unknown_route_record n r (Some p);
          when (negb stored) (on_store (free_route r))
    | None =>
        on_store (eigrp_query_unknown_reply_send n r);;
        stored ← eigrp_query_unknown_route_record n r None;
        when (negb stored) (on_store (free_route r))
    end.

Definition eigrp_query_receive (n : ptr) (eigrph : rx_header) : Rx unit :=
  recv_sequence_set n (rh_sequence eigrph);;
  fuel ← walk_fuel;
  finished ← tlv_walk fuel n (more_unlimited n) (query_tlv n);
  if negb finished then mret tt
  else
    eigrp_hello_send_ack n;;
    on_store (_ ← eigrp_query_send_all;
              nb ← State.get_nbr n;
              eigrp_update_send_all (nbr_ei nb)).

(** ** REPLY *)

Definition reply_tlv (n r : ptr) : Rx unit :=
  route ← on_store (get_route r);
  found ← on_store (eigrp_topology_table_lookup (rd_dest route));
  match found with
  | None => on_store (free_route r)
  | Some p =>
      prefix ← on_store (get_prefix p);
      if is_passive (pd_state prefix) then on_store (free_route r)
      else
        drop ← route_event n p r EIGRP_OPC_REPLY (denied_metric (rd_dest route) (rd_metric route));
        when drop (on_store (free_route r))
  end.

Definition eigrp_reply_receive (n : ptr) (eigrph : rx_header) : Rx unit :=
  recv_sequence_set n (rh_sequence eigrph);;
  eigrp_hello_send_ack n;;
  fuel ← walk_fuel;
  finished ← tlv_walk fuel n pkt_more (reply_tlv n);
  if negb finished then mret tt
  else on_store (_ ← eigrp_query_send_all; eigrp_update_send_all (Some (re_ei env))).

(** ** SIA-QUERY and SIA-REPLY *)

Definition siaquery_tlv (n r : ptr) : Rx unit :=
  route ← on_store (get_route r);
  found ← on_store (eigrp_topology_table_lookup (rd_dest route));
  match found with
  | None => on_store (free_route r)
  | Some p =>
      prefix ← on_store (get_prefix p);
      drop ← route_event n p r (if is_passive (pd_state prefix) then EIGRP_OPC_QUERY else EIGRP_OPC_SIAQUERY)
               (rd_metric route);
      after ← on_store (get_prefix p);
      when (negb (is_passive (pd_state after))) (on_store (eigrp_siareply_send (Some n) p true));;
      when drop (on_store (free_route r))
  end.

Definition eigrp_siaquery_receive (n : ptr) (eigrph : rx_header) : Rx unit :=
  recv_sequence_set n (rh_sequence eigrph);;
  eigrp_hello_send_ack n;;
  fuel ← walk_fuel;
  sia_walk fuel n (siaquery_tlv n).

(** [true]: the received route became the neighbor's path. *)
Definition siareply_event (n p r : ptr) : Rx bool :=
  route ← on_store (get_route r);
  path ← on_store (eigrp_prefix_descriptor_lookup p (Some n));
  match path with
  | Some t =>
      _ ← on_store (eigrp_fsm_event (route_message n p t EIGRP_OPC_REPLY (three_external (rd_type route)) (rd_metric route) false));
      mret false
  | None =>
      on_store (put_route r {| route with rd_adv_router := Some n; rd_prefix := Some p |});;
      prefix ← on_store (get_prefix p);
      ok ← nbr_route_admit n (destination prefix) (rd_metric route);
      msg ← on_store (eigrp_fsm_event (route_message n p r EIGRP_OPC_REPLY (three_external (rd_type route)) (rd_metric route) (negb ok)));
      mret (negb (transient_route msg))
  end.

Definition siareply_tlv (n r : ptr) : Rx unit :=
  route ← on_store (get_route r);
  found ← on_store (eigrp_topology_table_lookup (rd_dest route));
  match found with
  | None => on_store (free_route r)
  | Some p =>
      prefix ← on_store (get_prefix p);
      pending ← on_store (eigrp_fsm_reply_status_pending p (Some n));
      retained ←
        (if negb (is_passive (pd_state prefix)) && pending then
           if flags (rd_metric route) .? EIGRP_OPAQUE_ACTIVE
           then on_store (eigrp_fsm_sia_reply_received p (Some n));; mret false
           else siareply_event n p r
         else mret false);
      when (negb retained) (on_store (free_route r))
  end.

Definition eigrp_siareply_receive (n : ptr) (eigrph : rx_header) : Rx unit :=
  recv_sequence_set n (rh_sequence eigrph);;
  eigrp_hello_send_ack n;;
  fuel ← walk_fuel;
  sia_walk fuel n (siareply_tlv n).

(** ** UPDATE *)

(** [remove_received_prefix_gr]; [aliased]: the list is the neighbor's
    [nbr_gr_prefixes] as well. *)
Definition without (p : ptr) (l : list ptr) : list ptr := filter (fun q => q <> p) l.
Definition remove_received_prefix_gr (aliased : bool) (n p : ptr) : Rx unit :=
  modify (fun w => {| w with rx_gr := without p <$> rx_gr w |});;
  when aliased (on_adj (Neighbor.upd_nbr n (fun d => {| d with nb_gr_prefixes := without p <$> nb_gr_prefixes d |}))).

(** A destination the peer advertises again is no longer due for reconciliation. *)
Definition resync_remove (n p : ptr) : Rx unit :=
  nbr ← rx_nbr n;
  when (nb_peer_init_resync_pending nbr)
    (on_adj (Neighbor.upd_nbr n (fun d =>
       {| d with nb_peer_init_resync_prefixes := remove_first (Nat.eqb p) <$> nb_peer_init_resync_prefixes d |}))).

(** The destinations a restarted peer did not advertise are withdrawn. *)
Definition gr_ask_message (n p : ptr) (route : option ptr) (prefix : eigrp_prefix_descriptor) : eigrp_fsm_action_message :=
  let m := zero_message p in
  let metrics := reported_metric prefix in
  {| m with packet_type := EIGRP_OPC_UPDATE; data_type := EIGRP_INT; msg_adv_router := Some n;
     msg_route := route; msg_metrics := {| metrics with delay := EIGRP_MAX_METRIC |} |}.

Definition eigrp_update_receive_GR_ask (n : ptr) (nbr_prefixes : list ptr) : St unit :=
  mfor nbr_prefixes (fun p =>
    prefix ← get_prefix p;
    route ← eigrp_prefix_descriptor_lookup p (Some n);
    _ ← eigrp_fsm_event (gr_ask_message n p route prefix);
    mret tt).

(** A route TLV for a destination of the table. *)
Definition update_known (graceful aliased : bool) (n p r : ptr) : Rx unit :=
  route ← on_store (get_route r);
  when graceful (remove_received_prefix_gr aliased n p);;
  resync_remove n p;;
  path ← on_store (eigrp_prefix_descriptor_lookup p (Some n));
  let metric := ingress_metric (rd_dest route) (rd_metric route) in
  infinite ← on_store (unreachable metric);
  if negb (bool_decide (is_Some path)) && infinite then on_store (free_route r)
  else
    admitted ← (if infinite : bool then mret true
                else match path with
                     | None => nbr_route_admit n (rd_dest route) metric
                     | Some _ => topology_prefix_admit (rd_dest route)
                     end);
    if negb admitted then on_store (free_route r)
    else
      '(path, owned) ← on_store (path_adopt n p r);
      infinite ← on_store (unreachable metric);
      let transient := negb owned && infinite in
      msg ← on_store (eigrp_fsm_event (route_message n p path EIGRP_OPC_UPDATE (family_external (rd_type route)) metric transient));
      when (owned || transient_route msg) (on_store (free_route r)).

(** The storage of a new destination with its first path. *)
Definition destination_learn (n r : ptr) (metric : eigrp_metrics) : St unit :=
  p ← destination_create r;
  upd_route r (fun d => {| d with rd_adv_router := Some n |});;
  route_measure r metric;;
  route ← get_route r;
  upd_prefix p (fun d => {| d with fdistance := rd_distance route; distance := rd_distance route;
                            rdistance := rd_distance route |});;
  upd_route r (fun d => {| d with rd_prefix := Some p; rd_flags := EIGRP_ROUTE_DESCRIPTOR_SUCCESSOR_FLAG |});;
  eigrp_prefix_descriptor_add p;;
  eigrp_route_descriptor_add p r;;
  route ← get_route r;
  upd_prefix p (fun d => {| d with distance := rd_distance route; fdistance := rd_distance route;
                            rdistance := rd_distance route; reported_metric := rd_total_metric route |});;
  eigrp_topology_update_node_flags p;;
  upd_prefix p (fun d => {| d with req_action := Z.lor (req_action d) EIGRP_FSM_NEED_UPDATE |});;
  topology_changes_add p.

(** A route TLV for a destination that is not in the table. *)
Definition update_new (n r : ptr) : Rx unit :=
  route ← on_store (get_route r);
  infinite ← on_store (unreachable (rd_metric route));
  if infinite : bool then on_store (free_route r)
  else
    let metric := ingress_metric (rd_dest route) (rd_metric route) in
    admitted ← nbr_route_admit n (rd_dest route) metric;
    if negb admitted then on_store (free_route r)
    else on_store (destination_learn n r metric).

Definition update_tlv (graceful aliased : bool) (n r : ptr) : Rx unit :=
  route ← on_store (get_route r);
  found ← on_store (eigrp_topology_table_lookup (rd_dest route));
  match found with
  | Some p => update_known graceful aliased n p r
  | None => update_new n r
  end.

(** An INIT that was accepted before: acknowledged again, and the peer's destinations
    noted for reconciliation at its EOT. *)
Definition init_replay (n : ptr) (sequence : Z) : Rx unit :=
  nbr ← rx_nbr n;
  when ((nb_state nbr =? EIGRP_NEIGHBOR_UP) && negb (nb_peer_init_resync_pending nbr))
    (l ← on_store (eigrp_nbr_prefixes_lookup n);
     on_adj (Neighbor.upd_nbr n (fun d =>
       {| d with nb_peer_init_resync_prefixes := l; nb_peer_init_resync_pending := true |})));;
  eigrp_hello_send_ack_sequence n sequence.

(** The INIT of the adjacency is noted; a later EOT closes its window.  [true]: the
    reconciliation is complete. *)
Definition init_note (n : ptr) (flags sequence : Z) : Rx bool :=
  nbr ← rx_nbr n;
  let previously_seen := negb (nb_peer_init_sequence nbr =? 0) in
  if (flags =? EIGRP_INIT_FLAG) && negb previously_seen then
    on_adj (Neighbor.upd_nbr n (fun d => {| d with nb_peer_init_sequence := sequence;
                                            nb_peer_init_retransmit_eligible := negb (sequence =? 0) |}));;
    mret false
  else if (flags =? EIGRP_EOT_FLAG) && previously_seen
          && eigrp_packet_sequence_before (nb_peer_init_sequence nbr) sequence then
    on_adj (Neighbor.upd_nbr n (fun d => {| d with nb_peer_init_retransmit_eligible := false |}));;
    mret (nb_peer_init_resync_pending nbr)
  else mret false.

(** A peer that restarted: its paths are withdrawn and the handshake starts again. *)
Definition peer_restarted (n : ptr) (sequence : Z) : Rx unit :=
  on_adj (eigrp_nbr_state_update_reason n EIGRP_NEIGHBOR_DOWN);;
  on_store (NeighborDown.eigrp_topology_neighbor_down n);;
  on_adj (Neighbor.upd_nbr n (fun d => {| d with nb_peer_init_sequence := sequence;
                                          nb_peer_init_retransmit_eligible := negb (sequence =? 0);
                                          nb_recv_sequence := sequence |}));;
  on_adj (eigrp_nbr_state_update n EIGRP_NEIGHBOR_PENDING);;
  on_adj (Neighbor.eigrp_nbr_holddown_update n);;
  on_adj (record_call (eigrp_update_send_init n)).

(** How the packet takes part in a graceful restart: whether it does, whether it is the
    last one, and whether [nbr_prefixes] is the neighbor's [nbr_gr_prefixes] too.  A
    pointer to a freed list has no value. *)
Definition gr_saved (n : ptr) : Rx (option (list ptr)) :=
  nbr ← rx_nbr n;
  match nb_gr_prefixes nbr with
  | None => mret None
  | Some l => w ← get; if bool_decide (n ∈ rx_gr_freed w) then ub else mret (Some l)
  end.

Definition gr_begin (n : ptr) : Rx (option (list ptr)) :=
  l ← on_store (eigrp_nbr_prefixes_lookup n);
  modify (fun w => {| w with rx_gr := l |});;
  mret l.

Definition update_restart (n : ptr) (flags sequence : Z) (same previously_seen : bool) : Rx (bool * bool * bool) :=
  if (flags =? EIGRP_INIT_FLAG + EIGRP_RS_FLAG + EIGRP_EOT_FLAG) && negb same then
    _ ← gr_begin n;
    mret (true, true, false)
  else if (flags =? EIGRP_INIT_FLAG + EIGRP_RS_FLAG) && negb same then
    l ← gr_begin n;
    on_adj (Neighbor.upd_nbr n (fun d => {| d with nb_gr_prefixes := l |}));;
    modify (fun w => {| w with rx_gr_freed := without n (rx_gr_freed w) |});;
    mret (true, false, true)
  else if (flags =? EIGRP_EOT_FLAG) && negb same then
    l ← gr_saved n;
    match l with
    | None => mret (false, false, false)
    | Some l =>
        modify (fun w => {| w with rx_gr := Some l |});;
        on_adj (Neighbor.upd_nbr n (fun d => {| d with nb_gr_prefixes := None |}));;
        mret (true, true, false)
    end
  else if (flags =? 0) && negb same then
    l ← gr_saved n;
    match l with
    | None => mret (false, false, false)
    | Some l =>
        modify (fun w => {| w with rx_gr := Some l |});;
        mret (true, false, true)
    end
  else if (flags .? EIGRP_INIT_FLAG) && negb same then
    nbr ← rx_nbr n;
    when ((nb_state nbr =? EIGRP_NEIGHBOR_PENDING) && (nb_init_sequence nbr =? 0))
      (on_adj (record_call (eigrp_update_send_init n)));;
    when ((nb_state nbr =? EIGRP_NEIGHBOR_UP) && previously_seen) (peer_restarted n sequence);;
    mret (false, false, false)
  else mret (false, false, false).

(** The end of the reconciliation an INIT replay began. *)
Definition resync_finish (n : ptr) : Rx unit :=
  nbr ← rx_nbr n;
  (match nb_peer_init_resync_prefixes nbr with
   | Some l =>
       on_store (eigrp_update_receive_GR_ask n l);;
       on_adj (Neighbor.upd_nbr n (fun d => {| d with nb_peer_init_resync_prefixes := None |}))
   | None => mret tt
   end);;
  on_adj (Neighbor.upd_nbr n (fun d => {| d with nb_peer_init_resync_pending := false |}));;
  on_adj (record_call (eigrp_update_send_EOT n)).

(** [eigrp_list_delete(&nbr_prefixes)]. *)
Definition gr_list_delete (aliased : bool) (n : ptr) : Rx unit :=
  w ← get;
  match rx_gr w with
  | None => mret tt
  | Some _ =>
      modify (fun w => {| w with rx_gr := None;
                          rx_gr_freed := if aliased then n :: rx_gr_freed w else rx_gr_freed w |})
  end.

(** After the walk. *)
Definition update_finish (final aliased complete : bool) (n : ptr) (sequence : Z) : Rx unit :=
  when final (w ← get; on_store (eigrp_update_receive_GR_ask n (default [] (rx_gr w))));;
  when complete (resync_finish n);;
  when (negb (sequence =? 0)) (eigrp_hello_send_ack n);;
  on_store (_ ← eigrp_query_send_all; eigrp_update_send_all (Some (re_ei env)));;
  gr_list_delete aliased n.

Definition eigrp_update_receive (n : ptr) (eigrph : rx_header) : Rx unit :=
  let flags := rh_flags eigrph in
  let sequence := rh_sequence eigrph in
  modify (fun w => {| w with rx_gr := None |});;
  nbr ← rx_nbr n;
  if (flags =? EIGRP_INIT_FLAG) && negb (sequence =? 0) && nb_peer_init_retransmit_eligible nbr
     && (nb_peer_init_sequence nbr =? sequence)
  then init_replay n sequence
  else
    complete ← init_note n flags sequence;
    recv_sequence_set n sequence;;
    '(graceful, final, aliased) ←
      update_restart n flags sequence (nb_recv_sequence nbr =? sequence) (negb (nb_peer_init_sequence nbr =? 0));
    fuel ← walk_fuel;
    finished ← tlv_walk fuel n (more_unlimited n) (update_tlv graceful aliased n);
    if negb finished then mret tt
    else update_finish final aliased complete n sequence.

(** ** The receive function of an opcode *)

Definition packet_receiver (opcode : Z) (n : ptr) (eigrph : rx_header) : Rx unit :=
  if opcode =? EIGRP_OPC_UPDATE then eigrp_update_receive n eigrph
  else if opcode =? EIGRP_OPC_QUERY then eigrp_query_receive n eigrph
  else if opcode =? EIGRP_OPC_REPLY then eigrp_reply_receive n eigrph
  else if opcode =? EIGRP_OPC_SIAQUERY then eigrp_siaquery_receive n eigrph
  else if opcode =? EIGRP_OPC_SIAREPLY then eigrp_siareply_receive n eigrph
  else mret tt.
End handlers.
