(* ===== verification/Paths.v ===== *)
(** * Paths of neighbors in the store

    The invariant under which the receive functions work: on top of a well-formed store
    with its table, a neighbor has at most one path to a destination, and every
    destination of the table has a path.  Its stability under what a receive function
    does besides DUAL: objects are allocated and freed, a path takes the data of a
    received route, the adjacency changes neighbors; and under DUAL's events. *)

From Stdlib Require Import ZArith Lia.
From stdpp Require Import base gmap list sorting.
From S2P Require Import Prelude Types Metric Prefix State Topology Fsm Store Marking Frame Handlers Invariant Distance Dual DualProps Completion Table Events NeighborDown NeighborDownProps.

(** Every destination of the table has a path. *)
Definition routed (s : eigrp_instance) : Prop :=
  forall p d, in_table s p -> prefixes s !! p = Some d -> topology_routes d <> [].

Record topo_ok (s : eigrp_instance) : Prop := {
  tk_store : store_ok s;
  tk_single : forall m, single_path m s;
  tk_routed : routed s;
}.

(** ** Stability *)

(** What the invariant reads of a route. *)
Definition same_path (e e' : eigrp_route_descriptor) : Prop :=
  rd_distance e' = rd_distance e /\ rd_prefix e' = rd_prefix e
  /\ rd_adv_router e' = rd_adv_router e /\ rd_ei e' = rd_ei e.

(** A destination that holds nothing. *)
Definition blank (d : eigrp_prefix_descriptor) : Prop :=
  internal_routes d = [] /\ external_routes d = [] /\ rij d = [] /\ query_origin d = None.

(** Route [r] is in no queue. *)
Definition loose (r : ptr) (s : eigrp_instance) : Prop :=
  forall p d, prefixes s !! p = Some d -> r ∉ topology_routes d.

Definition hide_paths (s : eigrp_instance) : eigrp_instance :=
  {| s with routes := ∅; prefixes := ∅; nbrs := ∅; next_addr := 0%nat; packetizer_queue := [] |}.

(** Objects were added or dropped that no destination and no node refers to. *)
Record grown (s s' : eigrp_instance) : Prop := {
  gr_hide : hide_paths s' = hide_paths s;
  gr_below : all_below s';
  gr_next : (next_addr s <= next_addr s')%nat;
  gr_prefixes : forall p d, prefixes s' !! p = Some d -> prefixes s !! p = Some d \/ blank d;
  gr_infos : forall t nd p, table_nodes s !! t = Some nd -> tn_info nd = Some p -> prefixes s' !! p = prefixes s !! p;
  gr_changes : forall p, p ∈ topology_changes s -> prefixes s' !! p = prefixes s !! p;
  gr_routes : forall p d x e, prefixes s !! p = Some d -> x ∈ topology_routes d -> routes s !! x = Some e ->
    exists e', routes s' !! x = Some e' /\ same_path e e';
  gr_nbrs : forall n, nbr_ei <$> nbrs s' !! n = nbr_ei <$> nbrs s !! n;
}.

Section stability.
Implicit Types s : eigrp_instance.

Lemma blank_routes d : blank d -> topology_routes d = [].
Proof. unfold topology_routes. by intros (-> & -> & _). Qed.

Lemma blank_wf s p d : blank d -> dest_wf s p d.
Proof.
  intros B. pose proof (blank_routes d B) as E. destruct B as (E1 & E2 & E3 & E4).
  split; rewrite ?E, ?E1, ?E2, ?E3, ?E4; try constructor.
  - by intros r ?%not_elem_of_nil.
  - done.
  - unfold origin_discipline. rewrite E4. by destruct (pd_state d).
Qed.

Lemma grown_fields s s' : grown s s' ->
  topology_table s' = topology_table s /\ table_nodes s' = table_nodes s /\ topology_changes s' = topology_changes s
  /\ intfs s' = intfs s /\ eiflist s' = eiflist s /\ mem s' = mem s.
Proof.
  intros G. pose proof (gr_hide _ _ G) as H.
  repeat split; first [exact (f_equal topology_table H)|exact (f_equal table_nodes H)|exact (f_equal topology_changes H)
    |exact (f_equal intfs H)|exact (f_equal eiflist H)|exact (f_equal mem H)].
Qed.

Lemma grown_live s s' n : grown s s' -> is_Some (nbrs s !! n) -> is_Some (nbrs s' !! n).
Proof. intros G [nb Hn]. pose proof (gr_nbrs _ _ G n) as H. rewrite Hn in H. by destruct (nbrs s' !! n). Qed.

Lemma grown_dest_wf s s' p d : grown s s' -> prefixes s !! p = Some d -> dest_wf s p d -> dest_wf s' p d.
Proof.
  intros G Hd [H1 H2 H3 H4 H5 H6 H7]. destruct (grown_fields _ _ G) as (_ & _ & _ & Ei & _).
  assert (forall r, r ∈ topology_routes d -> route_dist s' r = route_dist s r) as Hdist.
  { intros r Hr. destruct (H2 r Hr) as (e & He & _). destruct (gr_routes _ _ G p d r e Hd Hr He) as (e' & He' & E & _).
    unfold route_dist. by rewrite He, He'. }
  split; try done.
  - intros r Hr. destruct (H2 r Hr) as (e & He & [L1 L2] & Hp).
    destruct (gr_routes _ _ G p d r e Hd Hr He) as (e' & He' & _ & E2 & E3 & E4). exists e'. split; [done|].
    unfold route_links. rewrite E2, E3, E4, Ei. split; [|done]. split; [done|]. intros n Hn. by eapply grown_live, L2.
  - eapply route_dist_sorted; [|exact H3]. intros r Hr. apply Hdist. by apply in_internal.
  - eapply route_dist_sorted; [|exact H4]. intros r Hr. apply Hdist. by apply in_external.
  - intros n Hn. by eapply grown_live, H5.
Qed.

Lemma grown_wf s s' : grown s s' -> instance_wf s -> instance_wf s'.
Proof.
  intros G [W1 W2 W3 W4 W5 W6]. destruct (grown_fields _ _ G) as (_ & _ & Ec & Ei & Ee & _). split.
  - intros p d' Hd'. destruct (gr_prefixes _ _ G p d' Hd') as [Hd|B]; [|by apply blank_wf].
    eapply grown_dest_wf; [done|done|by apply W1].
  - apply G.
  - unfold peers_live in *. rewrite Ee, Ei. eapply Forall_impl; [exact W3|]. intros i (ei & Hi & Hn). exists ei. split; [done|].
    eapply Forall_impl; [exact Hn|]. intros n. by apply grown_live.
  - intros n nb' i Hn Hi. rewrite Ei. pose proof (gr_nbrs _ _ G n) as H. rewrite Hn in H.
    destruct (nbrs s !! n) as [nb|] eqn:E; [|done]. injection H as H. eapply W4; [exact E|congruence].
  - by rewrite Ei.
  - intros p. rewrite Ec. intros Hp. rewrite (gr_changes _ _ G p Hp). by apply W6.
Qed.

Lemma grown_topo s s' : grown s s' -> topo_ok s -> topo_ok s'.
Proof.
  intros G [[W [T1 T2 T3] M] S R]. destruct (grown_fields _ _ G) as (Et & En & _ & _ & _ & Em). split.
  - split; [by eapply grown_wf| |congruence]. split; rewrite ?Et, ?En; [done| |].
    + intros t nd p Hn Hi. rewrite (gr_infos _ _ G t nd p Hn Hi). by eapply T2.
    + intros t Ht. specialize (T3 t Ht). pose proof (gr_next _ _ G). lia.
  - intros m p d' x y ex' ey' Hd' Hx Hy Hex Hey Ax Ay.
    destruct (gr_prefixes _ _ G p d' Hd') as [Hd|B]; [|rewrite (blank_routes _ B) in Hx; by apply not_elem_of_nil in Hx].
    destruct (dw_routes _ _ _ (iw_dests _ W p d' Hd) x Hx) as (ex & Ex & _).
    destruct (dw_routes _ _ _ (iw_dests _ W p d' Hd) y Hy) as (ey & Ey & _).
    destruct (gr_routes _ _ G p d' x ex Hd Hx Ex) as (e1 & F1 & _ & _ & A1 & _).
    destruct (gr_routes _ _ G p d' y ey Hd Hy Ey) as (e2 & F2 & _ & _ & A2 & _).
    rewrite Hex in F1. injection F1 as <-. rewrite Hey in F2. injection F2 as <-.
    eapply (S m p d' x y ex ey); [done..|congruence|congruence].
  - intros p d' (t & nd & Ht & Hn & Hi) Hd'. rewrite Et in Ht. rewrite En in Hn.
    rewrite (gr_infos _ _ G t nd p Hn Hi) in Hd'. eapply (R p d'); [by exists t, nd|done].
Qed.

Lemma same_path_refl e : same_path e e.
Proof. done. Qed.
End stability.
#[export] Hint Resolve same_path_refl : core.

(** Addresses from [next_addr] on are free. *)
Section free_addresses.
Implicit Types s : eigrp_instance.

Lemma free_route_addr s r : topo_ok s -> (next_addr s <= r)%nat -> routes s !! r = None.
Proof.
  intros K Hr. destruct (routes s !! r) eqn:E; [|done].
  destruct (iw_below _ (so_wf _ (tk_store _ K))) as [B _]. specialize (B r (mk_is_Some _ _ E)). lia.
Qed.
Lemma free_prefix_addr s p : topo_ok s -> (next_addr s <= p)%nat -> prefixes s !! p = None.
Proof.
  intros K Hp. destruct (prefixes s !! p) eqn:E; [|done].
  destruct (iw_below _ (so_wf _ (tk_store _ K))) as [_ B]. specialize (B p (mk_is_Some _ _ E)). lia.
Qed.
Lemma free_info s t nd p : topo_ok s -> (next_addr s <= p)%nat -> table_nodes s !! t = Some nd -> tn_info nd <> Some p.
Proof.
  intros K Hp Hn Hi. destruct (tw_info _ (so_table _ (tk_store _ K)) t nd p Hn Hi) as [d Hd].
  by rewrite free_prefix_addr in Hd.
Qed.
Lemma free_change s p : topo_ok s -> (next_addr s <= p)%nat -> p ∉ topology_changes s.
Proof.
  intros K Hp Hc. destruct (iw_changes _ (so_wf _ (tk_store _ K)) p Hc) as [d Hd]. by rewrite free_prefix_addr in Hd.
Qed.
Lemma free_loose s r : topo_ok s -> (next_addr s <= r)%nat -> loose r s.
Proof.
  intros K Hr p d Hd Hx. destruct (dw_routes _ _ _ (iw_dests _ (so_wf _ (tk_store _ K)) p d Hd) r Hx) as (e & He & _).
  by rewrite free_route_addr in He.
Qed.
End free_addresses.

(** The routes map changed at loose addresses. *)
Section loose_routes.
Implicit Types s : eigrp_instance.

Lemma topo_routes s R N :
  topo_ok s -> (next_addr s <= N)%nat -> (forall x, is_Some (R !! x) -> (x < N)%nat) ->
  (forall p d x e, prefixes s !! p = Some d -> x ∈ topology_routes d -> routes s !! x = Some e ->
     exists e', R !! x = Some e' /\ same_path e e') ->
  topo_ok {| s with routes := R; next_addr := N |}.
Proof.
  intros K HN HR Hp. eapply grown_topo; [|exact K]. split; try done; simpl.
  - split; [done|]. intros p Hp'. destruct (iw_below _ (so_wf _ (tk_store _ K))) as [_ B]. specialize (B p Hp'). simpl. lia.
  - auto.
Qed.

Lemma topo_new_route s e : topo_ok s -> topo_ok {| s with routes := <[next_addr s := e]> (routes s); next_addr := S (next_addr s) |}.
Proof.
  intros K. apply topo_routes; [done|lia| |].
  - intros x. destruct (decide (x = next_addr s)) as [->|Hne]; [lia|]. rewrite lookup_insert_ne by done. intros Hx.
    destruct (iw_below _ (so_wf _ (tk_store _ K))) as [B _]. specialize (B x Hx). lia.
  - intros p d x ex Hd Hx He. exists ex. split; [|done]. rewrite lookup_insert_ne; [done|].
    intros <-. by rewrite free_route_addr in He.
Qed.

Lemma topo_set_loose s r e e' : topo_ok s -> loose r s -> routes s !! r = Some e -> topo_ok (set_route s r e').
Proof.
  intros K L Hr. apply (topo_routes s (<[r := e']> (routes s)) (next_addr s)); [done|lia| |].
  - destruct (iw_below _ (so_wf _ (tk_store _ K))) as [B _]. intros x. destruct (decide (x = r)) as [->|Hne].
    + intros _. apply B. eauto.
    + rewrite lookup_insert_ne by done. apply B.
  - intros p d x ex Hd Hx He. exists ex. split; [|done]. rewrite lookup_insert_ne; [done|]. intros <-. by eapply L.
Qed.

Lemma topo_free_loose s r : topo_ok s -> loose r s -> topo_ok {| s with routes := delete r (routes s) |}.
Proof.
  intros K L. apply (topo_routes s (delete r (routes s)) (next_addr s)); [done|lia| |].
  - destruct (iw_below _ (so_wf _ (tk_store _ K))) as [B _]. intros x [ex Hx]. apply lookup_delete_Some in Hx as [_ Hx]. eauto.
  - intros p d x ex Hd Hx He. exists ex. split; [|done]. rewrite lookup_delete_ne; [done|]. intros <-. by eapply L.
Qed.

Lemma topo_set_path s t e e' : topo_ok s -> routes s !! t = Some e -> same_path e e' -> topo_ok (set_route s t e').
Proof.
  intros K Ht E. apply (topo_routes s (<[t := e']> (routes s)) (next_addr s)); [done|lia| |].
  - destruct (iw_below _ (so_wf _ (tk_store _ K))) as [B _]. intros x. destruct (decide (x = t)) as [->|Hne].
    + intros _. apply B. eauto.
    + rewrite lookup_insert_ne by done. apply B.
  - intros p d x ex Hd Hx He. destruct (decide (x = t)) as [->|Hne].
    + rewrite He in Ht. injection Ht as ->. exists e'. by rewrite lookup_insert_eq.
    + exists ex. by rewrite lookup_insert_ne.
Qed.

Lemma topo_queue s q : topo_ok s -> topo_ok (with_queue s q).
Proof.
  intros K. eapply grown_topo; [|exact K]. split; try done; simpl; auto.
  - apply K.
  - intros p d x e _ _ He. by exists e.
Qed.
End loose_routes.

(** ** Events *)

(** The neighbor's path to destination [d], if it has one, is [r]. *)
Definition only_path (n r : ptr) (s : eigrp_instance) (d : eigrp_prefix_descriptor) : Prop :=
  forall y ey, y ∈ topology_routes d -> routes s !! y = Some ey -> rd_adv_router ey = Some n -> y = r.

Section events.
Implicit Types s : eigrp_instance.

(** The paths after an event of [p] whose route [r] is of neighbor [n]. *)
Lemma event_paths p r n d e d' e' s s' q dq' x ex' :
  topo_ok s -> event_frame p r s s' -> prefixes s !! p = Some d -> routes s !! r = Some e -> rd_prefix e = Some p ->
  prefixes s' !! p = Some d' -> routes s' !! r = Some e' -> rd_adv_router e' = Some n ->
  prefixes s' !! q = Some dq' -> x ∈ topology_routes dq' -> routes s' !! x = Some ex' ->
  (q = p /\ x = r /\ rd_adv_router ex' = Some n)
  \/ exists dq ex, prefixes s !! q = Some dq /\ x ∈ topology_routes dq /\ x <> r /\ routes s !! x = Some ex
                   /\ rd_adv_router ex' = rd_adv_router ex.
Proof.
  intros K F Hd He Hp Hd' He' Ha Hq Hx Hx'.
  assert (x <> r -> exists ex, routes s !! x = Some ex /\ rd_adv_router ex' = rd_adv_router ex) as Hother.
  { intros Hne. destruct (routes s !! x) as [ex|] eqn:Ex.
    - destruct (ef_routes _ _ _ _ F x ex Hne Ex) as (e2 & E2 & Es). rewrite Hx' in E2. injection E2 as <-.
      exists ex. split; [done|]. by apply strip_flags_eq in Es as (_ & _ & _ & -> & _).
    - exfalso. assert (exists dq, prefixes s !! q = Some dq /\ x ∈ topology_routes dq) as (dq & Hdq & Hxq).
      { destruct (decide (q = p)) as [->|Hne'].
        - destruct (ef_dest _ _ _ _ F dq' Hq) as (d0 & Hd0 & Hs). exists d0. split; [done|]. by destruct (Hs x Hx).
        - rewrite (ef_others _ _ _ _ F q Hne') in Hq. by exists dq'. }
      destruct (dw_routes _ _ _ (iw_dests _ (so_wf _ (tk_store _ K)) q dq Hdq) x Hxq) as (ex & Hex & _). congruence. }
  destruct (decide (q = p)) as [->|Hne].
  - destruct (ef_dest _ _ _ _ F dq' Hq) as (d0 & Hd0 & Hs). destruct (decide (x = r)) as [->|Hxr].
    + left. rewrite He' in Hx'. by injection Hx' as <-.
    + right. destruct (Hs x Hx) as [->|Hx0]; [done|]. destruct (Hother Hxr) as (ex & Hex & E). by exists d0, ex.
  - rewrite (ef_others _ _ _ _ F q Hne) in Hq. right.
    assert (x <> r) as Hxr.
    { intros ->. destruct (dw_routes _ _ _ (iw_dests _ (so_wf _ (tk_store _ K)) q dq' Hq) r Hx) as (e0 & He0 & _ & Hp0).
      rewrite He in He0. injection He0 as <-. rewrite Hp in Hp0. by injection Hp0. }
    destruct (Hother Hxr) as (ex & Hex & E). by exists dq', ex.
Qed.

Lemma event_single p r n d e d' e' s s' m :
  topo_ok s -> event_frame p r s s' -> prefixes s !! p = Some d -> routes s !! r = Some e -> rd_prefix e = Some p ->
  only_path n r s d -> prefixes s' !! p = Some d' -> routes s' !! r = Some e' -> rd_adv_router e' = Some n -> single_path m s'.
Proof.
  intros K F Hd He Hp Ho Hd' He' Ha q dq' x y ex' ey' Hq Hx Hy Hex Hey Ax Ay.
  destruct (event_paths p r n d e d' e' s s' q dq' x ex' K F Hd He Hp Hd' He' Ha Hq Hx Hex)
    as [(-> & -> & Ex)|(dx & ex & Hdx & Hxd & Hxr & Ex & Exa)];
  destruct (event_paths p r n d e d' e' s s' _ dq' y ey' K F Hd He Hp Hd' He' Ha Hq Hy Hey)
    as [(Eq & -> & Ey)|(dy & ey & Hdy & Hyd & Hyr & Ey & Eya)].
  - done.
  - rewrite Hd in Hdy. injection Hdy as <-. exfalso. apply Hyr. eapply Ho; [done|exact Ey|congruence].
  - subst q. rewrite Hd in Hdx. injection Hdx as <-. exfalso. apply Hxr. eapply Ho; [done|exact Ex|congruence].
  - rewrite Hdx in Hdy. injection Hdy as <-. eapply (tk_single _ K m q dx x y); [done..|congruence|congruence].
Qed.

Lemma event_routed p r d d' s s' :
  topo_ok s -> event_frame p r s s' -> prefixes s !! p = Some d -> prefixes s' !! p = Some d' ->
  (topology_routes d' = [] -> topology_routes d = []) -> routed s'.
Proof.
  intros K F Hd Hd' Hr q dq' (t & nd & Ht & Hn & Hi) Hq. destruct (event_table _ _ _ _ F) as (T1 & T2 & _).
  rewrite T1 in Ht. rewrite T2 in Hn. assert (in_table s q) as HT by (by exists t, nd).
  destruct (decide (q = p)) as [->|Hne].
  - rewrite Hd' in Hq. injection Hq as <-. intros E. by apply (tk_routed _ K p d HT Hd), Hr.
  - rewrite (ef_others _ _ _ _ F q Hne) in Hq. by apply (tk_routed _ K q dq').
Qed.

(** An event of a path of [n], new or known. *)
Lemma wp_path_event msg p n r d e s (Q : eigrp_fsm_action_message -> eigrp_instance -> Prop) :
  topo_ok s -> msg_prefix msg = p -> msg_ok s msg r d e -> rd_adv_router e = Some n -> rd_prefix e = Some p ->
  only_path n r s d ->
  (forall m s' c d1 e1 d' ws, transient_route m = transient_route msg -> topo_ok s' -> event_frame p r s s' -> prefixes s' !! p = Some d' -> r ∈ topology_routes d' ->
     (exists e', routes s' !! r = Some e' /\ rd_adv_router e' = Some n) -> dual_step s msg r d e s' c d1 e1 d' ws -> Q m s') ->
  wp (eigrp_fsm_event msg) Q s.
Proof.
  intros K <- Hok Ha Hp Ho HQ. pose proof (mo_prefix _ _ _ _ _ Hok) as Hd. pose proof (mo_desc _ _ _ _ _ Hok) as He.
  eapply wp_event_ok; [apply K|exact Hok|]. intros m s' c d1 e1 d' ws Et O' F Hs. pose proof Hs as (s1 & Hu & Hout & Hoc).
  pose proof (outcome_routes _ _ _ _ _ _ _ _ Hoc) as Er. pose proof (do_prefix _ _ _ _ _ Hout) as Hd'.
  assert (r ∈ topology_routes d') as Hr by (rewrite Er; apply Hu).
  destruct (df_routes _ _ _ (do_frame _ _ _ _ _ Hout) r e1) as (e' & He' & E); [by eapply du_desc|].
  assert (rd_adv_router e' = Some n) as Ha'.
  { apply strip_flags_eq in E as (_ & _ & _ & -> & _). by eapply du_adv_router. }
  eapply HQ; [exact Et| |exact F|exact Hd'|exact Hr|eauto|exact Hs]. split; [done| |].
  - intros m'. by eapply event_single.
  - eapply (event_routed _ _ _ _ _ _ K F Hd Hd'). intros E'. rewrite E' in Hr. by apply not_elem_of_nil in Hr.
Qed.

(** An event whose route is refused: it stays out of the queues. *)
Lemma wp_refused_event msg p n r d e s (Q : eigrp_fsm_action_message -> eigrp_instance -> Prop) :
  topo_ok s -> msg_prefix msg = p -> in_table s p -> transient_route msg = true -> msg_route msg = Some r ->
  msg_adv_router msg = Some n -> is_Some (nbrs s !! n) ->
  prefixes s !! p = Some d -> routes s !! r = Some e -> rd_adv_router e = Some n -> rd_prefix e = Some p -> loose r s ->
  (forall m s' d' ws, transient_route m = true -> topo_ok s' -> event_frame p r s s' -> prefixes s' !! p = Some d' -> topology_routes d' = topology_routes d ->
     (exists e', routes s' !! r = Some e' /\ rd_adv_router e' = Some n) ->
     dual_out p s s' d' ws -> dual_outcome s p msg METRIC_SAME d e d' ws -> Q m s') ->
  wp (eigrp_fsm_event msg) Q s.
Proof.
  intros K <- Ht Htr Hmr Hma Hn Hd He Ha Hp Hl HQ.
  assert (transient_ok s msg r d e) as Hok.
  { split; try done; [by intros m [= <-]%(eq_trans (eq_sym Hma))|]. intros _. by apply (tk_routed _ K _ _ Ht). }
  eapply wp_event_transient; [apply K|exact Hok|]. intros m s' d' ws Et O' F Er Hout Hoc.
  pose proof (do_prefix _ _ _ _ _ Hout) as Hd'.
  destruct (df_routes _ _ _ (do_frame _ _ _ _ _ Hout) r e He) as (e' & He' & E).
  assert (rd_adv_router e' = Some n) as Ha' by (by apply strip_flags_eq in E as (_ & _ & _ & -> & _)).
  eapply HQ; [exact Et| |done|done|done|eauto|done|done]. split; [done| |].
  - intros m' q dq' x y ex' ey' Hq Hx Hy Hex Hey Ax Ay.
    assert (forall z ez', z ∈ topology_routes dq' -> routes s' !! z = Some ez' ->
      exists dq ez, prefixes s !! q = Some dq /\ z ∈ topology_routes dq /\ routes s !! z = Some ez /\ rd_adv_router ez' = rd_adv_router ez) as Hz.
    { intros z ez' Hz Hez. destruct (event_paths _ r n d e d' e' s s' q dq' z ez' K F Hd He Hp Hd' He' Ha' Hq Hz Hez)
        as [(-> & -> & _)|(dq & ez & ? & ? & _ & ? & ?)]; [|by exists dq, ez].
      exfalso. rewrite Hd' in Hq. injection Hq as <-. rewrite Er in Hz. by eapply Hl. }
    destruct (Hz x ex' Hx Hex) as (dx & ex & Hdx & Hx1 & Ex & E1). destruct (Hz y ey' Hy Hey) as (dy & ey & Hdy & Hy1 & Ey & E2).
    rewrite Hdx in Hdy. injection Hdy as <-. eapply (tk_single _ K m' q dx x y); [done..|congruence|congruence].
  - eapply (event_routed _ _ _ _ _ _ K F Hd Hd'). by rewrite Er.
Qed.

(** Neighbor [n] has a path to [q]. *)
Definition pathed (n q : ptr) s : Prop :=
  exists d x e, prefixes s !! q = Some d /\ x ∈ topology_routes d /\ routes s !! x = Some e /\ rd_adv_router e = Some n.

Lemma event_pathed p r n q s s' :
  event_frame p r s s' -> (exists e', routes s' !! r = Some e' /\ rd_adv_router e' = Some n) -> pathed n q s -> pathed n q s'.
Proof.
  intros F (er & Her & Ear) (d & x & e & Hd & Hx & He & Ha).
  assert (exists d', prefixes s' !! q = Some d' /\ x ∈ topology_routes d') as (d' & Hd' & Hx').
  { destruct (decide (q = p)) as [->|Hne].
    - destruct (ef_kept _ _ _ _ F d Hd) as (d' & Hd' & Hs). exists d'. auto.
    - exists d. by rewrite (ef_others _ _ _ _ F q Hne). }
  destruct (decide (x = r)) as [->|Hne]; [by exists d', r, er|].
  destruct (ef_routes _ _ _ _ F x e Hne He) as (e' & He' & E). exists d', x, e'.
  apply strip_flags_eq in E as (_ & _ & _ & Ea & _). split; [done|]. split; [done|]. split; [done|congruence].
Qed.

(** A loose route stays loose through an event of another route. *)
Lemma loose_event p r x s s' : event_frame p r s s' -> x <> r -> loose x s -> loose x s'.
Proof.
  intros F Hne L q d' Hd' Hx. destruct (decide (q = p)) as [->|Hq].
  - destruct (ef_dest _ _ _ _ F d' Hd') as (d & Hd & Hs). destruct (Hs x Hx) as [->|Hx']; [done|by eapply L].
  - rewrite (ef_others _ _ _ _ F q Hq) in Hd'. by eapply L.
Qed.
End events.

(** ** The route a neighbor advertises *)

(** Neighbor [n] is live and has its interface. *)
Definition hears (n : ptr) (s : eigrp_instance) : Prop :=
  exists nb i, nbrs s !! n = Some nb /\ nbr_ei nb = Some i.

(** Only fields of neighbors changed, and no interface. *)
Definition renewed (s s' : eigrp_instance) : Prop :=
  s' = {| s with nbrs := nbrs s' |} /\ forall n, nbr_ei <$> nbrs s' !! n = nbr_ei <$> nbrs s !! n.

Section advertised.
Implicit Types s : eigrp_instance.

Lemma renewed_refl s : renewed s s.
Proof. split; [by destruct s|done]. Qed.
Lemma renewed_trans s1 s2 s3 : renewed s1 s2 -> renewed s2 s3 -> renewed s1 s3.
Proof. intros [E1 H1] [E2 H2]. split; [by rewrite E2, E1|intros n; by rewrite H2, H1]. Qed.

Lemma renewed_fields s s' : renewed s s' ->
  routes s' = routes s /\ prefixes s' = prefixes s /\ intfs s' = intfs s /\ topology_table s' = topology_table s
  /\ table_nodes s' = table_nodes s /\ params s' = params s /\ packetizer_queue s' = packetizer_queue s
  /\ shutdown s' = shutdown s /\ thread_running s' = thread_running s /\ next_addr s' = next_addr s.
Proof. intros [E _]. rewrite E. done. Qed.

Lemma renewed_topo s s' : renewed s s' -> topo_ok s -> topo_ok s'.
Proof.
  intros R K. destruct (renewed_fields _ _ R) as (E1 & E2 & _ & _ & _ & _ & _ & _ & _ & E3). eapply grown_topo; [|exact K]. destruct R as [E R].
  split; rewrite ?E1, ?E2, ?E3; try done.
  - by rewrite E.
  - split; rewrite ?E1, ?E2, ?E3; apply K.
  - auto.
  - intros p d x e _ _ He. by exists e.
Qed.

Lemma renewed_hears n s s' : renewed s s' -> hears n s -> hears n s'.
Proof.
  intros [_ R] (nb & i & Hn & Hi). specialize (R n). rewrite Hn in R. destruct (nbrs s' !! n) as [nb'|] eqn:E; [|done].
  injection R as R. exists nb', i. split; [done|congruence].
Qed.

Lemma renewed_live n s s' : renewed s s' -> is_Some (nbrs s !! n) -> is_Some (nbrs s' !! n).
Proof. intros [_ R] [nb Hn]. specialize (R n). rewrite Hn in R. by destruct (nbrs s' !! n). Qed.

Lemma renewed_loose r s s' : renewed s s' -> loose r s -> loose r s'.
Proof. intros R L p d. destruct (renewed_fields _ _ R) as (_ & -> & _). apply L. Qed.

Lemma renewed_links s s' e : renewed s s' -> route_links s e -> route_links s' e.
Proof.
  intros R [L1 L2]. destruct (renewed_fields _ _ R) as (_ & _ & Ei & _). split; [by rewrite Ei|].
  intros n Hn. by eapply renewed_live, L2.
Qed.

Lemma renewed_in_table s s' p : renewed s s' -> in_table s p -> in_table s' p.
Proof.
  intros R (t & nd & ?). destruct (renewed_fields _ _ R) as (_ & _ & _ & E1 & E2 & _). exists t, nd. by rewrite E1, E2.
Qed.

Lemma renewed_only n r s s' d : renewed s s' -> only_path n r s d -> only_path n r s' d.
Proof. intros R H y ey Hy. destruct (renewed_fields _ _ R) as (-> & _). by apply H. Qed.

Lemma event_hears p r n s s' : event_frame p r s s' -> hears n s -> hears n s'.
Proof.
  intros F (nb & i & Hn & Hi). destruct (nbrs_keep_ei s s' n nb (ef_nbrs _ _ _ _ F) Hn) as (nb' & Hn' & E).
  exists nb', i. split; [done|congruence].
Qed.

Lemma event_in_table p r s s' q : event_frame p r s s' -> in_table s q -> in_table s' q.
Proof. intros F (t & nd & ?). destruct (event_table _ _ _ _ F) as (E1 & E2 & _). exists t, nd. by rewrite E1, E2. Qed.

(** An interface with a bandwidth gives every vector a distance. *)
Lemma total_some par ei m : if_bandwidth ei <> 0 -> is_Some (eigrp_metric_total_calculate par (Some ei) m).
Proof.
  intros Hb. unfold eigrp_metric_total_calculate. do 2 (case_match; [eauto|]). cbn [mbind option_bind].
  unfold eigrp_bandwidth_to_scaled. destruct (if_bandwidth ei =? EIGRP_BANDWIDTH_MAX); [cbn [mbind option_bind]; eauto|].
  destruct (Z.eqb_spec (if_bandwidth ei) 0) as [E|_]; [done|]. cbn [mbind option_bind]. eauto.
Qed.

Lemma inbound_some s e i : instance_wf s -> rd_ei e = Some i -> is_Some (intfs s !! i) ->
  exists ei, inbound s e = Some ei /\ if_bandwidth ei <> 0.
Proof. intros W Hi [ei He]. exists ei. unfold inbound. rewrite Hi. simpl. split; [done|]. by eapply W. Qed.

Lemma inbound_ok s msg e n :
  instance_wf s -> msg_adv_router msg = Some n -> hears n s -> route_links s e -> is_Some (updated_route s msg (filled s msg e)).
Proof.
  intros W Hm (nb & i & Hn & Hi) [L _].
  assert (exists j, rd_ei (filled s msg e) = Some j /\ is_Some (intfs s !! j)) as (j & Hj & Hl).
  { simpl. destruct (rd_ei e) as [j|] eqn:E; [exists j; by split; [|apply L]|]. unfold msg_ei. rewrite Hm. simpl. rewrite Hn. simpl.
    exists i. split; [done|]. by eapply (iw_nbr_ei _ W). }
  destruct (inbound_some s (filled s msg e) j W Hj Hl) as (ei & He & Hb).
  assert (is_Some (reported_route s (msg_metrics msg) (filled s msg e))) as Hr.
  { unfold reported_route. rewrite He. destruct (total_some (params s) ei (msg_metrics msg) Hb) as [[total x] ->]. simpl. eauto. }
  unfold updated_route. destruct (data_type msg); [eauto|done|]. destruct (is_local _ _); eauto.
Qed.
End advertised.
