(* ===== verification/ReceiveProps.v ===== *)
(** * The receive functions keep every invariant

    For a packet of any bytes the receive functions are defined: the walk over its TLVs
    ends, no freed or missing object is used, and the store, the adjacencies and the
    packet's stream stay well formed. *)

From Stdlib Require Import ZArith Lia.
From stdpp Require Import base gmap list sorting strings.
From S2P Require Import Prelude Types Metric Prefix Stream AfVectors Tlv1 Tlv1Props Tlv2 Tlv2Props Rtt Filter Auth Timers Neighbor NeighborProps Limits LimitsProps AfLimits HelloProps Dispatch AdjacencyProps State Topology Fsm Store Marking Frame Handlers Invariant Distance Dual DualProps Completion Table Events NeighborDown NeighborDownProps Paths Summary SummaryProps Receive.

(** ** Results of a computation *)

Definition yields {S A} (P : A -> Prop) (m : M S A) : Prop := forall s a s', m s = Some (a, s') -> P a.

Section yields.
Context {S : Type}.
Lemma yields_ret {A} (P : A -> Prop) (a : A) : P a -> yields P (mret a : M S A).
Proof. intros H s x s' [= <- _]. done. Qed.
Lemma yields_ub {A} (P : A -> Prop) : yields P (ub : M S A).
Proof. by intros s x s'. Qed.
Lemma yields_bind {A B} (R : A -> Prop) (P : B -> Prop) (m : M S A) (f : A -> M S B) :
  yields R m -> (forall a, R a -> yields P (f a)) -> yields P (m ≫= f).
Proof.
  intros Hm Hf s b s'. unfold mbind, M_bind. destruct (m s) as [[a s1]|] eqn:E; [|done].
  apply Hf. by eapply Hm.
Qed.
Lemma yields_any {A B} (P : B -> Prop) (m : M S A) (f : A -> M S B) :
  (forall a, yields P (f a)) -> yields P (m ≫= f).
Proof. intros H. by apply (yields_bind (fun _ => True)). Qed.
Lemma wp_yields {A} (P : A -> Prop) (m : M S A) (Q : A -> S -> Prop) s :
  yields P m -> wp m Q s -> wp m (fun a s' => P a /\ Q a s') s.
Proof. intros Y W. unfold wp in *. destruct (m s) as [[a s']|] eqn:E; [|done]. split; [by eapply Y|done]. Qed.
End yields.

Ltac solve_yields :=
  repeat first
    [ apply yields_ret | apply yields_ub
    | progress (intros) | case_match | apply yields_any ].

(** ** The decoders *)

(** A decoded route: its interface is that of the neighbor, nobody owns it yet. *)
Definition decoded (ei : option ptr) (route : eigrp_route_descriptor) : Prop :=
  rd_ei route = ei /\ rd_prefix route = None /\ rd_adv_router route = None.
Definition decoded_opt (ei : option ptr) (o : option eigrp_route_descriptor) : Prop :=
  forall route, o = Some route -> decoded ei route.

Section decoders.
Context (ei : option ptr).

Lemma decoded_some r : decoded ei r -> decoded_opt ei (Some r).
Proof. by intros H route [= <-]. Qed.
Lemma decoded_none : decoded_opt ei None.
Proof. by intros route. Qed.
Hint Resolve decoded_some decoded_none : core.

Lemma yields_create : yields (decoded ei) (tlv_route_create ei).
Proof. unfold tlv_route_create. apply yields_any. intros []; [by apply yields_ret|apply yields_ub]. Qed.

Lemma yields_tlv1_sections v external len route : decoded ei route -> yields (decoded_opt ei) (tlv1_sections v external len route).
Proof. intros H. unfold tlv1_sections. apply yields_any. intros [? ?]. solve_yields; auto. Qed.

Lemma yields_tlv1 v : yields (decoded_opt ei) (eigrp_tlv1_decoder v ei).
Proof.
  unfold eigrp_tlv1_decoder. do 2 (apply yields_any; intros). case_match; [solve_yields; auto|].
  do 2 (apply yields_any; intros). cbv zeta.
  destruct (if _ =? v_internal_tlv_type v then _ else _) as [external|]; [|solve_yields; auto]. case_match; [solve_yields; auto|].
  do 2 (apply yields_any; intros). eapply yields_bind; [apply yields_create|]. intros route Hr.
  eapply yields_bind; [by apply yields_tlv1_sections|]. intros o Ho. solve_yields; auto.
Qed.

Lemma yields_addpath eigrp external len route : decoded ei route -> yields (decoded_opt ei) (addpath_decode eigrp external len route).
Proof. intros H. unfold addpath_decode. case_match; [solve_yields; auto|]. apply yields_any. intros [? ?]. solve_yields; auto. Qed.

Lemma yields_extended fuel eigrp external attr_end route :
  decoded ei route -> yields (decoded_opt ei) (extended_loop fuel eigrp external attr_end route).
Proof.
  revert route. induction fuel as [|fuel IH]; intros route H; cbn [extended_loop]; apply yields_any; intros pos; case_match; [solve_yields; auto..|].
  case_match; [solve_yields; auto|]. do 3 (apply yields_any; intros). case_match; [solve_yields; auto|].
  eapply (yields_bind (decoded_opt ei)).
  - case_match; [by apply yields_addpath|]. solve_yields; auto.
  - intros [r|] Hr; [|solve_yields; auto]. apply yields_any. intros. case_match; [solve_yields; auto|]. apply IH. by apply Hr.
Qed.

Lemma yields_tlv2_sections eigrp src external len route :
  decoded ei route -> yields (decoded_opt ei) (tlv2_sections eigrp src external len route).
Proof.
  intros H. unfold tlv2_sections. eapply (yields_bind (fun o => forall r n, o = Some (r, n) -> decoded ei r)).
  - unfold eigrp_tlv2_metric_decode. apply yields_any. intros ok. case_match; [solve_yields; naive_solver|].
    do 12 (apply yields_any; intros). eapply (yields_bind (decoded_opt ei)).
    + unfold eigrp_tlv2_extended_decode. case_match; [solve_yields; auto|]. apply yields_any. intros. case_match; [solve_yields; auto|].
      apply yields_any. intros. by apply yields_extended.
    + intros o Ho. apply yields_ret. intros r n. destruct o; [|done]. intros [= <- <-]. by apply Ho.
  - intros [[r n]|] Hr; [|solve_yields; auto]. specialize (Hr r n eq_refl). apply yields_any. intros [[? ?]|]; [|solve_yields; auto].
    apply yields_any. intros [? ?]. solve_yields; auto.
Qed.

Lemma yields_tlv2 eigrp src : yields (decoded_opt ei) (eigrp_tlv2_decoder eigrp ei src).
Proof.
  unfold eigrp_tlv2_decoder. do 2 (apply yields_any; intros). case_match; [solve_yields; auto|].
  do 2 (apply yields_any; intros). cbv zeta.
  destruct (if _ =? EIGRP_TLV_MP_INT then _ else _) as [[external min_length]|]; [|solve_yields; auto]. case_match; [solve_yields; auto|].
  do 3 (apply yields_any; intros). case_match; [solve_yields; auto|]. do 3 (apply yields_any; intros). case_match; [solve_yields; auto|].
  eapply yields_bind; [apply yields_create|]. intros route Hr. eapply yields_bind; [by apply yields_tlv2_sections|].
  intros o Ho. solve_yields; auto.
Qed.
End decoders.

(** The decoder of a neighbor on a packet of any bytes. *)
Lemma wp_nbr_decoder env version ei src s (Q : option eigrp_route_descriptor -> eigrp_stream -> Prop) :
  tlv2_ok (re_codec env) -> stream_wf s -> grants (heap s) = [] -> (getp s < endp s)%nat ->
  (forall o s', decoded_opt ei o -> stream_wf s' -> grants (heap s') = [] -> endp s' = endp s -> (getp s < getp s')%nat ->
     (forall route, o = Some route -> prefix_ok (vectors (re_codec env)) (rd_dest route)) -> Q o s') ->
  wp (nbr_decoder env version ei src) Q s.
Proof.
  intros L W G Hs HQ.
  assert (unread s <> []) as Hu.
  { intros E. apply (f_equal length) in E. rewrite (unread_length s W) in E. simpl in E. lia. }
  assert (forall o s', decoded_opt ei o /\ consumed (vectors (re_codec env)) s o s' -> Q o s') as HC.
  { intros o s' [Ho (k & -> & Hk & Hk0 & Hd)]. specialize (Hk0 Hu). apply HQ; try done; [by apply advance_wf|simpl; lia]. }
  unfold nbr_decoder. case_match; [|case_match].
  - eapply wp_mono; [apply wp_yields; [apply yields_tlv1|apply tlv1_decoder_safe; [apply L|done|done]]|]. exact HC.
  - eapply wp_mono; [apply wp_yields; [apply yields_tlv2|by apply tlv2_decoder_safe]|]. exact HC.
  - rewrite wp_bind. apply wp_abort; [done|]. rewrite wp_ret. apply HC. split; [by intros r|]. apply consumed_all.
Qed.

(** ** Computations on the parts of the state *)

Definition renew (a : adj) (s : eigrp_instance) : eigrp_instance := {| s with nbrs := nbrs_refresh a (nbrs s) |}.

Lemma wp_on_store {A} (m : St A) (Q : A -> rx -> Prop) w :
  wp (on_store m) Q w <-> wp m (fun x s => Q x {| w with rx_store := s |}) (rx_store w).
Proof. unfold wp, on_store. by destruct (m (rx_store w)) as [[x s]|]. Qed.
Lemma wp_on_pkt {A} (m : Sm A) (Q : A -> rx -> Prop) w :
  wp (on_pkt m) Q w <-> wp m (fun x s => Q x {| w with rx_pkt := s |}) (rx_pkt w).
Proof. unfold wp, on_pkt. by destruct (m (rx_pkt w)) as [[x s]|]. Qed.
Lemma wp_on_adj {A} (m : Ad A) (Q : A -> rx -> Prop) w :
  wp (on_adj m) Q w <-> wp m (fun x a => Q x {| w with rx_adj := a; rx_store := renew a (rx_store w) |}) (rx_adj w).
Proof. unfold wp, on_adj. by destruct (m (rx_adj w)) as [[x a]|]. Qed.
Lemma rx_store_same w : {| w with rx_store := rx_store w |} = w.
Proof. by destruct w. Qed.
Lemma rx_pkt_same w : {| w with rx_pkt := rx_pkt w |} = w.
Proof. by destruct w. Qed.
Lemma wp_rx_nbr n d (Q : nbr -> rx -> Prop) w :
  ad_nbrs (rx_adj w) !! n = Some d -> Q d w -> wp (rx_nbr n) Q w.
Proof. intros Hn HQ. unfold rx_nbr. rewrite wp_bind, wp_gets, Hn. exact HQ. Qed.

Lemma renew_renewed a s : renewed s (renew a s).
Proof.
  split; [done|]. intros n. simpl. unfold nbrs_refresh. rewrite map_lookup_imap.
  destruct (nbrs s !! n) as [nb|]; [|done]. simpl. by destruct (ad_nbrs a !! n).
Qed.

(** ** The state of a receive function *)

(** The handlers of a packet of [n] work on a well-formed store, well-formed adjacencies
    and a well-formed stream. *)
Record rx_ok (n : ptr) (w : rx) : Prop := {
  ro_topo : topo_ok (rx_store w);
  ro_hears : hears n (rx_store w);
  ro_work : working n (rx_adj w);
  ro_pkt : stream_wf (rx_pkt w);
  ro_grants : grants (heap (rx_pkt w)) = [];
}.

(** The route [r] with contents [e] was received from [n] and is not stored yet. *)
Record received (r : ptr) (e : eigrp_route_descriptor) (s : eigrp_instance) : Prop := {
  rc_desc : routes s !! r = Some e;
  rc_loose : loose r s;
  rc_ei : forall i, rd_ei e = Some i -> is_Some (intfs s !! i);
  rc_bound : is_Some (rd_ei e);
}.

(** Everything but the adjacencies, and the store up to fields of neighbors. *)
Definition adj_step (n : ptr) (w w' : rx) : Prop :=
  renewed (rx_store w) (rx_store w') /\ (working n (rx_adj w') /\ lists_keep (rx_adj w) (rx_adj w'))
  /\ w' = {| w with rx_store := rx_store w'; rx_adj := rx_adj w' |}.

Section state.
Context (n : ptr).
Implicit Types w : rx.

Lemma adj_step_refl w : working n (rx_adj w) -> adj_step n w w.
Proof. intros K. split; [apply renewed_refl|]. split; [split; [done|reflexivity]|by destruct w]. Qed.

Lemma adj_step_trans w1 w2 w3 : adj_step n w1 w2 -> adj_step n w2 w3 -> adj_step n w1 w3.
Proof.
  intros (R1 & [_ L1] & E1) (R2 & [K2 L2] & E2). split; [by eapply renewed_trans|].
  split; [split; [done|by etransitivity]|]. by rewrite E2, E1.
Qed.

Lemma adj_step_ok w w' : rx_ok n w -> adj_step n w w' -> rx_ok n w'.
Proof.
  intros [T H K P G] (R & [K' _] & E). split; [by eapply renewed_topo|by eapply renewed_hears|done|by rewrite E|by rewrite E].
Qed.

Lemma received_renewed r e s s' : renewed s s' -> received r e s -> received r e s'.
Proof.
  intros R [H1 H2 H3 H4]. destruct (renewed_fields _ _ R) as (E1 & _ & E3 & _). split; rewrite ?E1, ?E3; [done| |done|done].
  by eapply renewed_loose.
Qed.

(** An operation on the adjacencies. *)
Lemma wp_adj_op {A} (m : Ad A) (Q : A -> rx -> Prop) w :
  wp m (fun _ a => working n a) (rx_adj w) -> keeps lists_keep m -> (forall x w', adj_step n w w' -> Q x w') -> wp (on_adj m) Q w.
Proof.
  intros Hm Hl HQ. rewrite wp_on_adj. unfold wp in *. destruct (m (rx_adj w)) as [[x a]|] eqn:E; [|done]. apply HQ.
  split; [apply renew_renewed|]. split; [|done]. split; [done|]. by eapply Hl.
Qed.

Lemma wp_adj_note f (Q : unit -> rx -> Prop) w :
  working n (rx_adj w) -> (forall d, core (f d) = core d) -> drops_only f ->
  (forall w', adj_step n w w' -> Q tt w') -> wp (on_adj (Neighbor.upd_nbr n f)) Q w.
Proof.
  intros K Hf Hl HQ. apply wp_adj_op; [|by apply lists_upd_nbr|by intros [] w' H; apply HQ].
  destruct (wk_nbr _ _ K) as (d & Hd & _). eapply ok_note_working; [done|exact Hd|apply Hf|]. by intros.
Qed.

(** ** Admission *)

Lemma wp_present p s (Q : bool -> eigrp_instance -> Prop) :
  store_ok s -> (forall q, p = Some q -> is_Some (prefixes s !! q)) -> (forall b, Q b s) ->
  wp (eigrp_nbr_prefix_present p n) Q s.
Proof.
  intros O Hp HQ. unfold eigrp_nbr_prefix_present. destruct p as [q|]; [|apply wp_ret, HQ].
  destruct (Hp q eq_refl) as [d Hd]. rewrite wp_bind. apply (wp_descriptor_lookup q d); [done| |].
  - apply (ok_live _ _ (dest_wf_ok _ _ _ (iw_dests _ (so_wf _ O) q d Hd))).
  - rewrite wp_ret. apply HQ.
Qed.

Lemma wp_present_count l count s (Q : Z -> eigrp_instance -> Prop) :
  store_ok s -> (forall t, t ∈ l -> t ∈ topology_table s) -> (forall c, Q c s) -> wp (present_count n l count) Q s.
Proof.
  intros O. revert count. induction l as [|t l IH]; intros count Hl HQ; cbn [present_count]; [apply wp_ret, HQ|].
  destruct (tw_live _ (so_table _ O) t) as [nd Hnd]; [apply Hl; by left|].
  rewrite wp_bind, wp_get_tnode by exact Hnd. rewrite wp_bind. apply wp_present; [done| |].
  - intros q Hq. by eapply (tw_info _ (so_table _ O)).
  - intros b. apply IH; [|done]. intros u Hu. apply Hl. by right.
Qed.

Lemma wp_prefix_count s (Q : Z -> eigrp_instance -> Prop) :
  store_ok s -> hears n s -> (forall c, Q c s) -> wp (eigrp_nbr_prefix_count n) Q s.
Proof.
  intros O (nb & i & Hn & _) HQ. unfold eigrp_nbr_prefix_count. rewrite wp_bind, wp_get_nbr by exact Hn.
  case_match; [apply wp_ret, HQ|]. rewrite wp_bind, wp_gets. by apply wp_present_count.
Qed.

Lemma wp_topology_admit dest (Q : bool -> rx -> Prop) w :
  rx_ok n w -> (forall b w', adj_step n w w' -> Q b w') -> wp (topology_prefix_admit dest) Q w.
Proof.
  intros K HQ. unfold topology_prefix_admit. rewrite wp_bind, wp_on_store. apply wp_topology_lookup; [apply K|].
  rewrite rx_store_same, wp_bind, wp_on_store. unfold eigrp_topology_prefix_count. rewrite wp_gets, rx_store_same.
  apply wp_adj_op; [|apply lists_topology_admit|done]. eapply wp_mono; [apply ok_topology_admit_working, K|]. by intros b a [K' _].
Qed.

Lemma wp_route_admit dest metric (Q : bool -> rx -> Prop) w :
  rx_ok n w -> (forall b w', adj_step n w w' -> Q b w') -> wp (nbr_route_admit n dest metric) Q w.
Proof.
  intros K HQ. unfold nbr_route_admit. pose proof (tk_store _ (ro_topo _ _ K)) as O.
  rewrite wp_bind, wp_on_store. unfold unreachable. rewrite wp_bind, wp_gets, wp_ret, rx_store_same.
  rewrite wp_bind, wp_on_store. apply wp_topology_lookup; [apply O|]. rewrite rx_store_same.
  rewrite wp_bind, wp_on_store. apply wp_present; [done|by intros q Hq; eapply table_find_live; [apply O|exact Hq]|].
  intros present. rewrite rx_store_same, wp_bind, wp_on_store. apply wp_prefix_count; [done|apply K|].
  intros paths. rewrite rx_store_same, wp_bind. apply wp_adj_note; [apply K|done|by intros ?; right|]. intros w1 S1.
  pose proof (adj_step_ok _ _ K S1) as K1. rewrite wp_bind, wp_on_store. unfold eigrp_topology_prefix_count.
  rewrite wp_gets, rx_store_same. apply wp_adj_op; [|apply lists_route_admit|intros b w' S2; by apply HQ; eapply adj_step_trans].
  unfold eigrp_nbr_route_admit. case_match; [apply wp_ret, K1|]. rewrite wp_bind.
  eapply wp_mono; [apply ok_nbr_prefix_admit, K1|]. intros b a [Ka _]. destruct b; [|by apply wp_ret].
  eapply wp_mono; [apply ok_topology_admit_working, Ka|]. by intros b a' [Ka' _].
Qed.
End state.

(** ** Events *)

(** The address family's thread takes work. *)
Definition running (s : eigrp_instance) : Prop := shutdown s = false /\ thread_running s = true.

(** A REPLY to [n] was queued, or destination [p] owes it one. *)
Definition query_met (n p : ptr) (ws : list eigrp_packetizer_work) (s' : eigrp_instance) : Prop :=
  replies n p ws \/ exists d', prefixes s' !! p = Some d' /\ query_origin d' = Some n.

(** What an event of the packet did besides: the table stands, work was queued. *)
Record event_done (n p : ptr) (opcode : Z) (s s' : eigrp_instance) : Prop := {
  ed_hears : hears n s';
  ed_table : topology_table s' = topology_table s /\ table_nodes s' = table_nodes s;
  ed_intfs : intfs s' = intfs s;
  ed_running : running s -> running s';
  ed_alive : forall q, is_Some (prefixes s !! q) -> is_Some (prefixes s' !! q);
  ed_paths : forall q, pathed n q s -> pathed n q s';
  ed_work : exists ws, packetizer_queue s' = packetizer_queue s ++ ws
    /\ (opcode = EIGRP_OPC_QUERY -> running s -> query_met n p ws s');
}.

Lemma event_frame_done n p r opcode s s' :
  event_frame p r s s' -> hears n s -> (exists e', routes s' !! r = Some e' /\ rd_adv_router e' = Some n) ->
  (exists ws, packetizer_queue s' = packetizer_queue s ++ ws /\ (opcode = EIGRP_OPC_QUERY -> running s -> query_met n p ws s')) ->
  event_done n p opcode s s'.
Proof.
  intros F H He W. destruct (event_table _ _ _ _ F) as (T1 & T2 & _ & Ei & E1 & E2 & _). split; try done.
  - by eapply event_hears.
  - unfold running. by rewrite E1, E2.
  - apply F.
  - intros q. by eapply event_pathed.
Qed.

Section route_events.
Context (n : ptr).
Implicit Types s : eigrp_instance.

Lemma links_ei s e : (forall i, rd_ei e = Some i -> is_Some (intfs s !! i)) -> rd_adv_router e = Some n -> hears n s -> route_links s e.
Proof. intros Hi Ha (nb & i & Hn & _). split; [done|]. rewrite Ha. intros m [= <-]. eauto. Qed.

Lemma running_enqueued s w : running s -> enqueued s w = [w].
Proof. intros [H1 H2]. by apply enqueued_running. Qed.

(** The event of the neighbor's path. *)
Lemma wp_path_message p r opcode external metrics d e s (Q : eigrp_fsm_action_message -> eigrp_instance -> Prop) :
  topo_ok s -> hears n s -> prefixes s !! p = Some d -> routes s !! r = Some e -> rd_adv_router e = Some n ->
  rd_prefix e = Some p -> route_links s e -> only_path n r s d ->
  (forall m s', transient_route m = false -> topo_ok s' -> event_frame p r s s' -> event_done n p opcode s s' -> Q m s') ->
  wp (eigrp_fsm_event (route_message n p r opcode external metrics false)) Q s.
Proof.
  intros K H Hd He Ha Hp Hl Ho HQ. set (msg := route_message n p r opcode external metrics false).
  assert (data_type msg <> EIGRP_CONNECTED) as Hdt by (simpl; by destruct external).
  assert (msg_ok s msg r d e) as Hok.
  { split; try done; [by right| |by eapply (inbound_ok _ _ _ n); [apply K|..]].
    intros m [= <-]. destruct H as (nb & i & Hn & _). eauto. }
  eapply (wp_path_event msg p n r d e); [done|done|done|done|done|done|].
  intros m s' c d1 e1 d' ws Et K' F Hd' Hr Hn' (s1 & Hu & Hout & Hoc). change (msg_prefix msg) with p in *.
  apply HQ; [done|done|done|]. eapply event_frame_done; [done|done|done|]. exists ws.
  split; [rewrite (do_work _ _ _ _ _ Hout), (du_rest _ _ _ _ _ _ _ _ _ Hu); done|]. intros Hq Hrun.
  destruct (outcome_query _ _ _ _ _ _ _ _ n Hoc) as [Hrep|Horg]; [|done|done|by left|right; eauto].
  intros x. rewrite (du_running _ _ _ _ _ _ _ _ _ x Hu). by apply running_enqueued.
Qed.

(** The event of a route that was not admitted. *)
Lemma wp_refused_message p r opcode external metrics d e s (Q : eigrp_fsm_action_message -> eigrp_instance -> Prop) :
  topo_ok s -> hears n s -> in_table s p -> prefixes s !! p = Some d -> routes s !! r = Some e -> rd_adv_router e = Some n ->
  rd_prefix e = Some p -> loose r s ->
  (forall m s' e', transient_route m = true -> topo_ok s' -> event_frame p r s s' -> event_done n p opcode s s' -> loose r s' -> routes s' !! r = Some e' -> Q m s') ->
  wp (eigrp_fsm_event (route_message n p r opcode external metrics true)) Q s.
Proof.
  intros K H Ht Hd He Ha Hp Hl HQ. set (msg := route_message n p r opcode external metrics true).
  eapply (wp_refused_event msg p n r d e); try done; [destruct H as (nb & i & Hn & _); eauto|].
  intros m s' d' ws Et K' F Hd' Er Hn' Hout Hoc.
  destruct (df_routes _ _ _ (do_frame _ _ _ _ _ Hout) r e He) as (e' & He' & _).
  eapply HQ; [done|done|done| | |exact He'].
  - eapply event_frame_done; [done|done|done|]. exists ws. split; [apply Hout|]. intros Hq Hrun.
    destruct (outcome_query _ _ _ _ _ _ _ _ n Hoc) as [Hrep|Horg]; [|done|done|by left|right; eauto].
    intros x. by apply running_enqueued.
  - intros q dq Hq. destruct (decide (q = p)) as [->|Hne].
    + rewrite Hd' in Hq. injection Hq as <-. rewrite Er. by apply (Hl p).
    + rewrite (ef_others _ _ _ _ F q Hne) in Hq. by apply (Hl q).
Qed.

Lemma loose_set_route x r e s : loose x s -> loose x (set_route s r e).
Proof. done. Qed.

(** The path that stands for a received route. *)
Lemma wp_path_adopt p r d e s (Q : ptr * bool -> eigrp_instance -> Prop) :
  topo_ok s -> hears n s -> prefixes s !! p = Some d -> received r e s ->
  (forall path owned e' s', s' = set_route s path e' -> topo_ok s' -> rd_adv_router e' = Some n -> rd_prefix e' = Some p ->
     route_links s' e' -> only_path n path s' d -> (if owned : bool then path <> r else path = r) -> Q (path, owned) s') ->
  wp (path_adopt n p r) Q s.
Proof.
  intros K H Hd [Hr Hl Hi _] HQ. pose proof (iw_dests _ (so_wf _ (tk_store _ K)) p d Hd) as W.
  unfold path_adopt. rewrite wp_bind. apply (wp_descriptor_lookup p d); [done|by apply ok_live; eapply dest_wf_ok|].
  rewrite wp_bind, wp_get_route by exact Hr. destruct (List.find _ _) as [t|] eqn:Ef.
  - apply find_live_some in Ef as (Ht & et & Het & Ea). apply bool_decide_eq_true in Ea.
    destruct (dw_routes _ _ _ W t Ht) as (e0 & He0 & Hlk & Hp). rewrite Het in He0. injection He0 as <-.
    rewrite wp_bind, (wp_upd_route _ _ et) by done. rewrite wp_ret. eapply HQ; [done| |done|done|done| |].
    + eapply topo_set_path; [done|exact Het|done].
    + intros y ey Hy Hey Ey. destruct (decide (y = t)) as [->|Hne]; [done|]. simpl in Hey. rewrite lookup_insert_ne in Hey by done.
      by eapply (tk_single _ K n p d y t); [..|exact Het|exact Ey|].
    + simpl. intros ->. by apply (Hl p d).
  - rewrite wp_bind, wp_put_route, wp_ret. eapply HQ; [done| |done|done| | |done].
    + by eapply topo_set_loose.
    + by apply links_ei.
    + intros y ey Hy Hey Ey. destruct (decide (y = r)) as [->|Hne]; [done|]. simpl in Hey. rewrite lookup_insert_ne in Hey by done.
      apply find_none_forall in Ef. rewrite Forall_forall in Ef. specialize (Ef y Hy). unfold on_route in Ef. rewrite Hey in Ef.
      unfold opt_ptr_eqb in Ef. by apply bool_decide_eq_false in Ef.
Qed.

(** What is left when a route TLV was delivered to DUAL. *)
Definition delivered (p r : ptr) (opcode : Z) (drop : bool) (w w' : rx) : Prop :=
  rx_ok n w' /\ event_done n p opcode (rx_store w) (rx_store w')
  /\ (drop = true -> loose r (rx_store w')) /\ lists_keep (rx_adj w) (rx_adj w')
  /\ w' = {| w with rx_store := rx_store w'; rx_adj := rx_adj w' |}.

Lemma event_done_pre p opcode s0 s s' :
  event_done n p opcode s s' -> running s = running s0 -> topology_table s = topology_table s0 -> table_nodes s = table_nodes s0 ->
  intfs s = intfs s0 -> (forall q, is_Some (prefixes s0 !! q) -> is_Some (prefixes s !! q)) ->
  (forall q, pathed n q s0 -> pathed n q s) -> packetizer_queue s = packetizer_queue s0 -> event_done n p opcode s0 s'.
Proof.
  intros [H1 [H2 H3] H4 H5 H6 H8 H7] E1 E2 E3 E4 E5 E7 E6.
  split; [done|by rewrite <- E2, <- E3|congruence|by rewrite <- E1|auto|auto|].
  by rewrite <- E1, <- E6.
Qed.
End route_events.

Section deliveries.
Context (env : rx_env) (n : ptr).
Implicit Types w : rx.

Lemma wp_route_event p r opcode metrics e (Q : bool -> rx -> Prop) w :
  rx_ok n w -> in_table (rx_store w) p -> received r e (rx_store w) ->
  (forall drop w', delivered n p r opcode drop w w' -> Q drop w') ->
  wp (route_event n p r opcode metrics) Q w.
Proof.
  intros K Ht Hr HQ. destruct (K) as [T H Kw Kp Kg]. destruct Ht as (t & nd & Ht).
  assert (in_table (rx_store w) p) as HT by (by exists t, nd).
  destruct (tw_info _ (so_table _ (tk_store _ T)) t nd p) as [d Hd]; [apply Ht|apply Ht|].
  unfold route_event. rewrite wp_bind, wp_on_store, wp_get_route by apply Hr. rewrite rx_store_same.
  rewrite wp_bind, wp_on_store. eapply wp_path_adopt; [done|done|exact Hd|exact Hr|].
  intros path owned e' s1 E1 T1 Ha Hp Hlk Ho Hown.
  assert (loose r s1) as Hr1 by (subst s1; apply Hr).
  assert (prefixes s1 !! p = Some d) as Hd1 by (by subst s1).
  assert (routes s1 !! path = Some e') as Hpath by (subst s1; simpl; by rewrite lookup_insert_eq).
  assert (hears n s1) as H1 by (by subst s1).
  set (w1 := {| w with rx_store := s1 |}). assert (rx_ok n w1) as K1 by (by split).
  rewrite wp_bind, wp_on_store, wp_get_prefix by exact Hd1. rewrite (rx_store_same w1), wp_bind.
  assert (forall w2 drop s', adj_step n w1 w2 -> topo_ok s' -> event_done n p opcode (rx_store w2) s' ->
    (drop = true -> loose r s') -> Q drop {| w2 with rx_store := s' |}) as Hfin.
  { intros w2 drop s' (R & [Kw2 Lw2] & E2) T' D' L'. apply HQ. split; [split; [done|apply D'|done|by rewrite E2|by rewrite E2]|].
    split; [|split; [done|split; [done|by rewrite E2]]]. destruct (renewed_fields _ _ R) as (F1 & F2 & F3 & F4 & F5 & _ & F6 & F7 & F8 & _). change (rx_store w1) with s1 in *.
    eapply event_done_pre; [exact D'|unfold running; by rewrite F7, F8; subst s1|by rewrite F4; subst s1|by rewrite F5; subst s1
      |by rewrite F3; subst s1|by rewrite F2; subst s1| |by rewrite F6; subst s1].
    intros q (dq & x & ex & Hq & Hx & Hex & Eax). destruct (decide (x = path)) as [->|Hne].
    - exists dq, path, e'. rewrite F1, F2. by subst s1.
    - exists dq, x, ex. rewrite F1, F2. subst s1. simpl. by rewrite lookup_insert_ne. }
  destruct owned.
  - rewrite wp_ret, wp_bind, wp_on_store. eapply (wp_path_message n p path); [done|done|done|done|done|done|done|done|].
    intros m s' Et T' F D. rewrite wp_ret, Et. apply (Hfin w1); [by apply adj_step_refl|done|done|]. intros _.
    by eapply loose_event.
  - subst path. rewrite wp_bind. apply (wp_route_admit n); [done|]. intros ok w2 S2. rewrite wp_ret.
    pose proof (adj_step_ok _ _ _ K1 S2) as K2. destruct (S2) as (R & _ & _).
    destruct (renewed_fields _ _ R) as (F1 & F2 & _). change (rx_store w1) with s1 in *.
    rewrite wp_bind, wp_on_store. destruct ok; cbn [negb].
    + eapply (wp_path_message n p r); [apply K2|apply K2|by rewrite F2|by rewrite F1|done|done|by eapply renewed_links|by eapply renewed_only|].
      intros m s' Et T' F D. rewrite wp_ret, Et. by apply (Hfin w2).
    + eapply (wp_refused_message n p r); [apply K2|apply K2| |by rewrite F2|by rewrite F1|done|done|by eapply renewed_loose|].
      { eapply renewed_in_table; [exact R|]. by subst s1. }
      intros m s' e2 Et T' F D L _. rewrite wp_ret, Et. by apply (Hfin w2).
Qed.

(** The received route is dropped. *)
Lemma wp_free_route r (Q : unit -> rx -> Prop) w :
  rx_ok n w -> loose r (rx_store w) ->
  (forall w', rx_ok n w' -> w' = {| w with rx_store := rx_store w' |} ->
     rx_store w' = (let s := rx_store w in {| s with routes := delete r (routes s) |}) -> Q tt w') ->
  wp (on_store (free_route r)) Q w.
Proof.
  intros [T H K P G] L HQ. rewrite wp_on_store. apply HQ; [|done|done]. split; [by apply topo_free_loose|done..].
Qed.
End deliveries.
