(* ===== verification/ReceiveWalk.v ===== *)
(** * The walk over a packet's TLVs, REPLY and the SIA packets

    The loops of the receive functions end on packets of any bytes: a decoded TLV moves
    the get pointer, and the bodies leave the stream alone.  The receive functions of
    REPLY, SIA-QUERY and SIA-REPLY keep every invariant. *)

From Stdlib Require Import ZArith Lia.
From stdpp Require Import base gmap list sorting strings.
From S2P Require Import Prelude Types Metric Prefix Stream AfVectors Tlv1 Tlv1Props Tlv2 Tlv2Props Rtt Filter Auth Timers Neighbor NeighborProps Limits LimitsProps AfLimits HelloProps Dispatch AdjacencyProps State Topology Fsm Store Marking Frame Handlers Invariant Distance Dual DualProps Completion Table Events NeighborDown NeighborDownProps Paths Summary SummaryProps Receive ReceiveProps.

(** ** Decoding *)

(** The store with one more route. *)
Definition with_new_route (s : eigrp_instance) (e : eigrp_route_descriptor) : eigrp_instance :=
  {| s with routes := <[next_addr s := e]> (routes s); next_addr := S (next_addr s) |}.

(** The stream moved on; the store may hold the decoded route. *)
Definition decode_step (w w' : rx) : Prop :=
  (rx_store w' = rx_store w \/ exists e, rx_store w' = with_new_route (rx_store w) e)
  /\ w' = {| w with rx_store := rx_store w'; rx_pkt := rx_pkt w' |}
  /\ endp (rx_pkt w') = endp (rx_pkt w) /\ (getp (rx_pkt w) < getp (rx_pkt w'))%nat.

Section walk.
Context (env : rx_env) (n : ptr).
Context (Henv : tlv2_ok (re_codec env)).
Implicit Types w : rx.

Lemma received_fresh s e : topo_ok s -> is_Some (rd_ei e) -> (forall i, rd_ei e = Some i -> is_Some (intfs s !! i)) ->
  received (next_addr s) e (with_new_route s e).
Proof.
  intros K Hb Hi. split; [simpl; by rewrite lookup_insert_eq| |done|done].
  intros p d Hd. by apply (free_loose s (next_addr s) K (le_n _) p d).
Qed.

Lemma wp_route_decode (Q : option ptr -> rx -> Prop) w :
  rx_ok n w -> (getp (rx_pkt w) < endp (rx_pkt w))%nat ->
  (forall o w', rx_ok n w' -> decode_step w w' ->
     (forall r, o = Some r -> exists e, received r e (rx_store w') /\ prefix_ok (vectors (re_codec env)) (rd_dest e)) -> Q o w') ->
  wp (route_decode env n) Q w.
Proof.
  intros K Hp HQ. destruct (K) as [T (nb & i & Hnb & Hei) Kw Kp Kg]. unfold route_decode.
  destruct (wk_nbr _ _ Kw) as (dn & Hdn & _). rewrite wp_bind. eapply wp_rx_nbr; [exact Hdn|].
  rewrite wp_bind, wp_on_store, wp_get_nbr by exact Hnb. rewrite rx_store_same, wp_bind, wp_on_pkt.
  apply wp_nbr_decoder; [done..|]. intros o s' Ho W' G' E' Hg Hd. destruct o as [route|].
  - destruct (Ho route eq_refl) as (E1 & E2 & E3). rewrite wp_on_store. wp_simpl. cbn [rx_store].
    assert (topo_ok (with_new_route (rx_store w) route)) as T' by (by apply topo_new_route).
    apply HQ; [split; try done; by exists nb, i|split; [right; by exists route|done]|].
    intros r [= <-]. exists route. split; [|by apply Hd]. apply received_fresh; [done|by rewrite E1, Hei|].
    intros j Hj. rewrite E1, Hei in Hj. injection Hj as <-. by eapply (iw_nbr_ei _ (so_wf _ (tk_store _ T))).
  - rewrite wp_ret. apply HQ; [split; try done; by exists nb, i|split; [by left|done]|done].
Qed.

Lemma wp_pkt_more (Q : bool -> rx -> Prop) w :
  Q (getp (rx_pkt w) <? endp (rx_pkt w))%nat w -> wp pkt_more Q w.
Proof. intros HQ. unfold pkt_more. by rewrite wp_on_pkt, wp_gets, rx_pkt_same. Qed.

(** A loop condition reads only, and asks for bytes. *)
Definition loop_test (more : Rx bool) : Prop := forall w Q,
  rx_ok n w -> (forall b, (b = true -> (getp (rx_pkt w) < endp (rx_pkt w))%nat) -> Q b w) -> wp more Q w.

Lemma test_pkt_more : loop_test pkt_more.
Proof. intros w Q K HQ. apply wp_pkt_more, HQ. apply Nat.ltb_lt. Qed.

Lemma test_unlimited : loop_test (more_unlimited n).
Proof.
  intros w Q K HQ. unfold more_unlimited. rewrite wp_bind. apply wp_pkt_more.
  destruct (getp (rx_pkt w) <? endp (rx_pkt w))%nat eqn:E; [|by apply wp_ret, HQ].
  destruct (wk_nbr _ _ (ro_work _ _ K)) as (dn & Hdn & _). rewrite wp_bind. eapply wp_rx_nbr; [exact Hdn|].
  rewrite wp_ret. apply HQ. intros _. by apply Nat.ltb_lt.
Qed.

(** ** The loops *)

(** [P] is what a receive function keeps besides the invariants. *)
Section loops.
Context (P : rx -> Prop) (body : ptr -> Rx unit).
Context (Pdecode : forall w w', P w -> rx_ok n w' -> decode_step w w' -> P w').
Context (Hbody : forall r e w, rx_ok n w -> P w -> received r e (rx_store w) -> prefix_ok (vectors (re_codec env)) (rd_dest e) ->
  wp (body r) (fun _ w' => rx_ok n w' /\ P w' /\ rx_pkt w' = rx_pkt w) w).

Lemma wp_tlv_walk more fuel w (Q : bool -> rx -> Prop) :
  loop_test more -> rx_ok n w -> P w -> (endp (rx_pkt w) - getp (rx_pkt w) < fuel)%nat ->
  (forall b w', rx_ok n w' -> P w' -> Q b w') -> wp (tlv_walk env fuel n more body) Q w.
Proof.
  intros Hmore. revert w. induction fuel as [|fuel IH]; intros w K HP Hf HQ; [lia|]. cbn [tlv_walk].
  rewrite wp_bind. apply Hmore; [done|]. intros b Hb. destruct b; cbn [negb]; [|by apply wp_ret, HQ]. specialize (Hb eq_refl).
  rewrite wp_bind, wp_on_pkt, wp_gets, rx_pkt_same, wp_bind. apply wp_route_decode; [done|done|].
  intros o w1 K1 S1 Ho. pose proof (Pdecode _ _ HP K1 S1) as P1. destruct S1 as (_ & _ & Ee & Hg). destruct o as [r|].
  - destruct (Ho r eq_refl) as (e & Hr & Hd). rewrite wp_bind. eapply wp_mono; [by eapply Hbody|].
    intros [] w2 (K2 & P2 & Ep). apply IH; [done|done| |done]. rewrite Ep. lia.
  - rewrite wp_bind, wp_on_pkt, wp_gets, rx_pkt_same. case_match; [by apply wp_ret, HQ|]. apply IH; [done|done|lia|done].
Qed.

Lemma wp_sia_walk fuel w (Q : unit -> rx -> Prop) :
  rx_ok n w -> P w -> (endp (rx_pkt w) - getp (rx_pkt w) < fuel)%nat ->
  (forall w', rx_ok n w' -> P w' -> Q tt w') -> wp (sia_walk env fuel n body) Q w.
Proof.
  revert w. induction fuel as [|fuel IH]; intros w K HP Hf HQ; [lia|]. cbn [sia_walk].
  rewrite wp_bind. apply test_pkt_more; [done|]. intros b Hb. destruct b; cbn [negb]; [|by apply wp_ret, HQ]. specialize (Hb eq_refl).
  rewrite wp_bind. apply wp_route_decode; [done|done|].
  intros o w1 K1 S1 Ho. pose proof (Pdecode _ _ HP K1 S1) as P1. destruct S1 as (_ & _ & Ee & Hg). destruct o as [r|]; [|by apply wp_ret, HQ].
  destruct (Ho r eq_refl) as (e & Hr & Hd). rewrite wp_bind. eapply wp_mono; [by eapply Hbody|].
  intros [] w2 (K2 & P2 & Ep). apply IH; [done|done| |done]. rewrite Ep. lia.
Qed.
End loops.

Lemma wp_walk_fuel (Q : nat -> rx -> Prop) w :
  (forall fuel, (endp (rx_pkt w) - getp (rx_pkt w) < fuel)%nat -> Q fuel w) -> wp walk_fuel Q w.
Proof. intros HQ. unfold walk_fuel. rewrite wp_on_pkt, wp_gets, rx_pkt_same. apply HQ. lia. Qed.
End walk.

(** ** Steps the bodies share *)

(** What a body leaves: the invariants, and everything but the store and the
    adjacencies; the neighbor keeps its paths. *)
Record handled (n : ptr) (w w' : rx) : Prop := {
  hd_ok : rx_ok n w';
  hd_rest : w' = {| w with rx_store := rx_store w'; rx_adj := rx_adj w' |};
  hd_paths : forall q, pathed n q (rx_store w) -> pathed n q (rx_store w');
  hd_lists : lists_keep (rx_adj w) (rx_adj w');
}.

Section steps.
Context (n : ptr).
Implicit Types w : rx.

Lemma handled_refl w : rx_ok n w -> handled n w w.
Proof. intros K. split; [done|by destruct w|done|reflexivity]. Qed.

Lemma handled_trans w1 w2 w3 : handled n w1 w2 -> handled n w2 w3 -> handled n w1 w3.
Proof. intros [K1 E1 P1 L1] [K2 E2 P2 L2]. split; [done|by rewrite E2, E1|auto|by etransitivity]. Qed.

Lemma handled_store w s' : rx_ok n w -> topo_ok s' -> hears n s' ->
  (forall q, pathed n q (rx_store w) -> pathed n q s') -> handled n w {| w with rx_store := s' |}.
Proof. intros [T H K P G] T' H' HP. by split; [| | |reflexivity]. Qed.

Lemma handled_pkt w w' : handled n w w' -> rx_pkt w' = rx_pkt w.
Proof. intros H. by rewrite (hd_rest _ _ _ H). Qed.

Lemma delivered_handled p r opcode drop w w' : delivered n p r opcode drop w w' -> handled n w w'.
Proof. intros (K & D & _ & L & E). split; [done|done|apply D|done]. Qed.

Lemma adj_step_handled w w' : rx_ok n w -> adj_step n w w' -> handled n w w'.
Proof.
  intros K S. pose proof (adj_step_ok _ _ _ K S) as K'. destruct S as (R & [_ L] & E). split; [done|done| |done].
  intros q (d & x & e & Hd & Hx & He & Ha). destruct (renewed_fields _ _ R) as (F1 & F2 & _). exists d, x, e. by rewrite F1, F2.
Qed.

Lemma pathed_free r q s : loose r s -> pathed n q s -> pathed n q {| s with routes := delete r (routes s) |}.
Proof.
  intros L (d & x & e & Hd & Hx & He & Ha). exists d, x, e. split; [done|]. split; [done|]. simpl. rewrite lookup_delete_ne; [done|].
  intros <-. by eapply L.
Qed.

Lemma wp_rx_drop r w : rx_ok n w -> loose r (rx_store w) -> wp (on_store (free_route r)) (fun _ w' => handled n w w') w.
Proof.
  intros K L. rewrite wp_on_store. unfold free_route. apply wp_modify. apply handled_store; [done|by apply topo_free_loose, L; apply K|apply K|].
  intros q. by apply pathed_free.
Qed.

Lemma wp_drop_if (b : bool) r w0 w : handled n w0 w -> (b = true -> loose r (rx_store w)) ->
  wp (when b (on_store (free_route r))) (fun _ w' => handled n w0 w') w.
Proof.
  intros H L. destruct b; [|by apply wp_ret]. eapply wp_mono; [apply wp_rx_drop; [apply H|by apply L]|].
  intros [] w' H'. by eapply handled_trans.
Qed.

Lemma table_find_in s dest p : table_find s dest = Some p -> in_table s p.
Proof.
  unfold table_find. destruct (eigrp_topology_table_key dest); [|done]. simpl. destruct (List.find _ _) as [t|] eqn:Ef; [|done]. simpl.
  apply List.find_some in Ef as [Hin _]. destruct (table_nodes s !! t) as [nd|] eqn:En; [|done]. simpl. intros Hi.
  exists t, nd. split; [by apply list_elem_of_In|done].
Qed.

Lemma wp_find dest w (Q : option ptr -> rx -> Prop) :
  rx_ok n w ->
  (forall o, o = table_find (rx_store w) dest ->
     (forall p, o = Some p -> in_table (rx_store w) p /\ is_Some (prefixes (rx_store w) !! p)) -> Q o w) ->
  wp (on_store (eigrp_topology_table_lookup dest)) Q w.
Proof.
  intros K HQ. pose proof (so_table _ (tk_store _ (ro_topo _ _ K))) as T. rewrite wp_on_store. apply wp_topology_lookup; [done|].
  rewrite rx_store_same. apply HQ; [done|]. intros p Hp. split; [by eapply table_find_in|by eapply table_find_live].
Qed.

Lemma wp_rx_route r e w (Q : eigrp_route_descriptor -> rx -> Prop) :
  routes (rx_store w) !! r = Some e -> Q e w -> wp (on_store (get_route r)) Q w.
Proof. intros He HQ. by rewrite wp_on_store, wp_get_route, rx_store_same. Qed.
Lemma wp_rx_prefix p d w (Q : eigrp_prefix_descriptor -> rx -> Prop) :
  prefixes (rx_store w) !! p = Some d -> Q d w -> wp (on_store (get_prefix p)) Q w.
Proof. intros Hd HQ. by rewrite wp_on_store, wp_get_prefix, rx_store_same. Qed.

(** Only the packetizer's queue. *)
Lemma handled_queue w q : rx_ok n w ->
  handled n w {| w with rx_store := with_queue (rx_store w) q |}.
Proof. intros K. apply handled_store; [done|apply topo_queue, K|apply K|done]. Qed.

Lemma handled_ack w m sequence : rx_ok n w -> rx_ok n {| w with rx_acks := (m, sequence) :: rx_acks w |}.
Proof. by intros [T H K P G]. Qed.

Lemma wp_ack_sequence m sequence w (Q : unit -> rx -> Prop) :
  Q tt {| w with rx_acks := (m, sequence) :: rx_acks w |} -> wp (eigrp_hello_send_ack_sequence m sequence) Q w.
Proof. intros HQ. by apply wp_modify. Qed.

Lemma wp_ack_send w (Q : unit -> rx -> Prop) :
  rx_ok n w -> (forall sequence, Q tt {| w with rx_acks := (n, sequence) :: rx_acks w |}) -> wp (eigrp_hello_send_ack n) Q w.
Proof.
  intros K HQ. unfold eigrp_hello_send_ack. destruct (wk_nbr _ _ (ro_work _ _ K)) as (dn & Hdn & _).
  rewrite wp_bind. eapply wp_rx_nbr; [exact Hdn|]. by apply wp_ack_sequence.
Qed.

Lemma wp_recv_sequence sequence w (Q : unit -> rx -> Prop) :
  rx_ok n w -> (forall w', adj_step n w w' -> Q tt w') -> wp (recv_sequence_set n sequence) Q w.
Proof. intros K HQ. unfold recv_sequence_set. apply wp_adj_note; [apply K|done|by intros ?; right|done]. Qed.

(** The pending QUERYs and UPDATEs are scheduled. *)
Lemma wp_send_pending x w (Q : unit -> rx -> Prop) :
  rx_ok n w -> (forall q, Q tt {| w with rx_store := with_queue (rx_store w) q |}) ->
  wp (on_store (_ ← eigrp_query_send_all; eigrp_update_send_all x)) Q w.
Proof.
  intros K HQ. rewrite wp_on_store, wp_bind. apply wp_query_send_all; [apply K|]. intros c ws.
  apply wp_send_all; [apply store_ok_queue, K|]. intros ws'. apply HQ.
Qed.
End steps.

(** ** REPLY, SIA-QUERY, SIA-REPLY *)

Section bodies.
Context (env : rx_env) (n : ptr).
Implicit Types w : rx.

Lemma wp_reply_tlv r e w :
  rx_ok n w -> received r e (rx_store w) -> wp (reply_tlv env n r) (fun _ w' => handled n w w') w.
Proof.
  intros K Hr. unfold reply_tlv. rewrite wp_bind. eapply wp_rx_route; [apply Hr|]. rewrite wp_bind. apply (wp_find n); [done|].
  intros o _ Ho. destruct o as [p|]; [|apply wp_rx_drop; [done|apply Hr]]. destruct (Ho p eq_refl) as [Ht [d Hd]].
  rewrite wp_bind. eapply wp_rx_prefix; [exact Hd|]. destruct (is_passive (pd_state d)); [apply wp_rx_drop; [done|apply Hr]|].
  rewrite wp_bind. eapply wp_route_event; [done|done|exact Hr|]. intros drop w' D.
  apply wp_drop_if; [by eapply delivered_handled|apply D].
Qed.

Lemma wp_siareply_send p (b : bool) w0 w :
  handled n w0 w -> wp (on_store (eigrp_siareply_send (Some n) p b)) (fun _ w' => handled n w0 w' /\ exists q, rx_store w' = with_queue (rx_store w) q) w.
Proof.
  intros H. rewrite wp_on_store. unfold eigrp_siareply_send, eigrp_packetizer_work_create.
  rewrite !wp_bind, wp_calloc by apply (tk_store _ (ro_topo _ _ (hd_ok _ _ _ H))). wp_simpl.
  apply wp_enqueue_plain; [by destruct b..|done|]. split; [|by eexists]. eapply handled_trans; [done|]. apply handled_queue, H.
Qed.

Lemma wp_siaquery_tlv r e w :
  rx_ok n w -> received r e (rx_store w) -> wp (siaquery_tlv n r) (fun _ w' => handled n w w') w.
Proof.
  intros K Hr. unfold siaquery_tlv. rewrite wp_bind. eapply wp_rx_route; [apply Hr|]. rewrite wp_bind. apply (wp_find n); [done|].
  intros o _ Ho. destruct o as [p|]; [|apply wp_rx_drop; [done|apply Hr]]. destruct (Ho p eq_refl) as [Ht [d Hd]].
  rewrite wp_bind. eapply wp_rx_prefix; [exact Hd|].
  rewrite wp_bind. eapply wp_route_event; [done|done|exact Hr|]. intros drop w1 D. pose proof (delivered_handled _ _ _ _ _ _ _ D) as H1.
  destruct D as (_ & D & L & _). destruct (ed_alive _ _ _ _ _ D p (mk_is_Some _ _ Hd)) as [d1 Hd1].
  rewrite wp_bind. eapply wp_rx_prefix; [exact Hd1|]. rewrite wp_bind.
  eapply (wp_mono _ (fun _ w' => handled n w w' /\ (drop = true -> loose r (rx_store w')))).
  - destruct (negb _); [|by apply wp_ret]. eapply wp_mono; [by apply wp_siareply_send|]. intros [] w2 [H2 [q Eq]].
    split; [done|]. rewrite Eq. exact L.
  - intros [] w2 [H2 L2]. by apply wp_drop_if.
Qed.

Lemma wp_status_pending p d m w (Q : bool -> rx -> Prop) :
  prefixes (rx_store w) !! p = Some d -> (forall b, Q b w) -> wp (on_store (eigrp_fsm_reply_status_pending p m)) Q w.
Proof.
  intros Hd HQ. rewrite wp_on_store. unfold eigrp_fsm_reply_status_pending, eigrp_fsm_reply_status_lookup.
  rewrite !wp_bind, wp_get_prefix by exact Hd. wp_simpl. rewrite rx_store_same. apply HQ.
Qed.

(** A change of a destination that keeps its queues. *)
Lemma topo_set_dest s p d d' :
  topo_ok s -> prefixes s !! p = Some d -> topology_routes d' = topology_routes d -> dest_wf s p d' -> topo_ok (set_prefix s p d').
Proof.
  intros K Hd Er W. split.
  - by eapply store_ok_dest; [apply K|..].
  - intros m q dq x y ex ey Hq. simpl in *. destruct (decide (q = p)) as [->|Hne].
    + rewrite lookup_insert_eq in Hq. injection Hq as <-. rewrite Er. by apply (tk_single _ K m p d).
    + rewrite lookup_insert_ne in Hq by done. by apply (tk_single _ K m q dq).
  - intros q dq Ht Hq. simpl in *. destruct (decide (q = p)) as [->|Hne].
    + rewrite lookup_insert_eq in Hq. injection Hq as <-. rewrite Er. by apply (tk_routed _ K p d).
    + rewrite lookup_insert_ne in Hq by done. by apply (tk_routed _ K q dq).
Qed.

Lemma pathed_set_dest q p d d' s :
  prefixes s !! p = Some d -> (forall x, x ∈ topology_routes d -> x ∈ topology_routes d') -> pathed n q s -> pathed n q (set_prefix s p d').
Proof.
  intros Hd Er (dq & x & e & Hq & Hx & He & Ha). destruct (decide (q = p)) as [->|Hne].
  - rewrite Hd in Hq. injection Hq as <-. exists d', x, e. split; [simpl; by rewrite lookup_insert_eq|auto].
  - exists dq, x, e. split; [simpl; by rewrite lookup_insert_ne|done].
Qed.

Lemma alter_first_neighbors m f l : (forall st, rs_neighbor (f st) = rs_neighbor st) ->
  rs_neighbor <$> alter_first (rs_for m) f l = rs_neighbor <$> l.
Proof. intros Hf. induction l as [|st l IH]; [done|]. cbn [alter_first]. destruct (rs_for m st); by rewrite !fmap_cons, ?Hf, ?IH. Qed.

Lemma wp_sia_received p d w :
  rx_ok n w -> prefixes (rx_store w) !! p = Some d ->
  wp (on_store (eigrp_fsm_sia_reply_received p (Some n))) (fun _ w' => handled n w w' /\ forall r, loose r (rx_store w) -> loose r (rx_store w')) w.
Proof.
  intros K Hd. rewrite wp_on_store. unfold eigrp_fsm_sia_reply_received. rewrite (wp_upd_prefix _ _ d) by exact Hd. split.
  - apply handled_store; [done| |apply K|].
    + eapply topo_set_dest; [apply K|exact Hd|done|]. destruct (iw_dests _ (so_wf _ (tk_store _ (ro_topo _ _ K))) p d Hd) as [H1 H2 H3 H4 H5 H6 H7].
      split; try done. simpl. by rewrite alter_first_neighbors.
    + intros q. by eapply pathed_set_dest.
  - intros r L q dq Hq. simpl in *. destruct (decide (q = p)) as [->|Hne].
    + rewrite lookup_insert_eq in Hq. injection Hq as <-. by apply (L p d).
    + rewrite lookup_insert_ne in Hq by done. by apply (L q dq).
Qed.

(** A route that is not stored yet is offered to DUAL. *)
Lemma wp_offered p r opcode external metrics d e w (Q : bool -> rx -> Prop) :
  rx_ok n w -> in_table (rx_store w) p -> prefixes (rx_store w) !! p = Some d -> received r e (rx_store w) ->
  rd_adv_router e = Some n -> rd_prefix e = Some p -> only_path n r (rx_store w) d ->
  (forall ok w', delivered n p r opcode (negb ok) w w' -> Q ok w') ->
  wp (ok ← nbr_route_admit n (destination d) metrics;
      msg ← on_store (eigrp_fsm_event (route_message n p r opcode external metrics (negb ok)));
      mret (negb (transient_route msg))) Q w.
Proof.
  intros K HT Hd [R1 R2 R3 _] Ha Hp Ho HQ. rewrite wp_bind. apply (wp_route_admit n); [done|]. intros ok w2 S2.
  pose proof (adj_step_ok _ _ _ K S2) as K2. destruct (S2) as (R & [_ Lw2] & E2). destruct (renewed_fields _ _ R) as (F1 & F2 & F3 & F4 & F5 & _ & F6 & F7 & F8 & _).
  assert (route_links (rx_store w) e) as Hlk by (apply (links_ei n); [done|done|apply K]).
  assert (forall s', topo_ok s' -> event_done n p opcode (rx_store w2) s' -> (negb ok = true -> loose r s') ->
    Q ok {| w2 with rx_store := s' |}) as Hfin.
  { intros s' T' D' L'. apply HQ. destruct K2 as [_ _ Kw Kp Kg]. split; [split; [done|apply D'|done|done|done]|]. split; [|split; [done|split; [done|by rewrite E2]]].
    eapply event_done_pre; [exact D'|unfold running; by rewrite F7, F8|done|done|done|by rewrite F2| |done].
    intros q (dq & x & ex & Hq & Hx & Hex & Eax). exists dq, x, ex. by rewrite F1, F2. }
  rewrite wp_bind, wp_on_store. destruct ok; cbn [negb].
  - eapply (wp_path_message n p r); [apply K2|apply K2|by rewrite F2|by rewrite F1|done|done|by eapply renewed_links|by eapply renewed_only|].
    intros m s' Et T' F D. rewrite wp_ret, Et. by apply Hfin.
  - eapply (wp_refused_message n p r); [apply K2|apply K2|by eapply renewed_in_table|by rewrite F2|by rewrite F1|done|done|by eapply renewed_loose|].
    intros m s' e2 Et T' F D L _. rewrite wp_ret, Et. by apply Hfin.
Qed.

Lemma find_none_only p d s : prefixes s !! p = Some d -> forall r,
  List.find (on_route s (fun e => opt_ptr_eqb (rd_adv_router e) (Some n))) (topology_routes d) = None -> only_path n r s d.
Proof.
  intros Hd r Ef y ey Hy Hey Ey. apply find_none_forall in Ef. rewrite Forall_forall in Ef. specialize (Ef y Hy).
  unfold on_route in Ef. rewrite Hey in Ef. unfold opt_ptr_eqb in Ef. by apply bool_decide_eq_false in Ef.
Qed.

Lemma wp_siareply_event p r e w :
  rx_ok n w -> in_table (rx_store w) p -> received r e (rx_store w) ->
  wp (siareply_event n p r) (fun retained w' => handled n w w' /\ (negb retained = true -> loose r (rx_store w'))) w.
Proof.
  intros K Ht Hr. destruct (K) as [T H Kw Kp Kg]. destruct (Hr) as [R1 R2 R3 R4].
  destruct (Ht) as (t & nd & Ht1 & Ht2 & Ht3). destruct (tw_info _ (so_table _ (tk_store _ T)) t nd p) as [d Hd]; [done|done|].
  pose proof (iw_dests _ (so_wf _ (tk_store _ T)) p d Hd) as W.
  unfold siareply_event. rewrite wp_bind. eapply wp_rx_route; [exact R1|].
  rewrite wp_bind, wp_on_store. apply (wp_descriptor_lookup p d); [done|by apply ok_live; eapply dest_wf_ok|].
  rewrite rx_store_same. destruct (List.find _ _) as [x|] eqn:Ef.
  - apply find_live_some in Ef as (Hx & ex & Hex & Ea). apply bool_decide_eq_true in Ea.
    destruct (dw_routes _ _ _ W x Hx) as (e0 & He0 & Hlk & Hp). rewrite Hex in He0. injection He0 as <-.
    rewrite wp_bind, wp_on_store. eapply (wp_path_message n p x); [done|done|exact Hd|exact Hex|done|done|done| |].
    + intros y ey Hy Hey Ey. by eapply (tk_single _ T n p d y x); [..|exact Hex|exact Ey|].
    + intros m s' _ T' F D. rewrite wp_ret. split; [apply handled_store; [done|done|apply D|apply D]|]. intros _.
      eapply loose_event; [exact F| |done]. intros ->. by apply (R2 p d).
  - pose proof (find_none_only p d _ Hd r Ef) as Ho. set (e1 := {| e with rd_adv_router := Some n; rd_prefix := Some p |}).
    rewrite wp_bind, wp_on_store, wp_put_route. set (w1 := {| w with rx_store := set_route (rx_store w) r e1 |}).
    assert (handled n w w1) as H1.
    { apply handled_store; [done|by eapply topo_set_loose|done|]. intros q (dq & y & ey & Hq & Hy & Hey & Eay). exists dq, y, ey.
      split; [done|]. split; [done|]. simpl. rewrite lookup_insert_ne; [done|]. intros <-. by apply (R2 q dq). }
    rewrite wp_bind. eapply (wp_rx_prefix p d); [done|].
    eapply (wp_offered p r EIGRP_OPC_REPLY _ _ d e1 w1); [apply H1|done|done| |done|done| |].
    + split; [simpl; by rewrite lookup_insert_eq|done|done|done].
    + intros y ey Hy Hey Ey. destruct (decide (y = r)) as [->|Hne]; [done|]. simpl in Hey. rewrite lookup_insert_ne in Hey by done. by eapply Ho.
    + intros ok w2 D. split; [eapply handled_trans; [done|by eapply delivered_handled]|apply D].
Qed.

Lemma wp_siareply_tlv r e w :
  rx_ok n w -> received r e (rx_store w) -> wp (siareply_tlv n r) (fun _ w' => handled n w w') w.
Proof.
  intros K Hr. unfold siareply_tlv. rewrite wp_bind. eapply wp_rx_route; [apply Hr|]. rewrite wp_bind. apply (wp_find n); [done|].
  intros o _ Ho. destruct o as [p|]; [|apply wp_rx_drop; [done|apply Hr]]. destruct (Ho p eq_refl) as [Ht [d Hd]].
  rewrite wp_bind. eapply wp_rx_prefix; [exact Hd|]. rewrite wp_bind. eapply wp_status_pending; [exact Hd|]. intros pending.
  rewrite wp_bind. eapply (wp_mono _ (fun retained w' => handled n w w' /\ (negb retained = true -> loose r (rx_store w')))).
  - destruct (negb _ && _); [|apply wp_ret; split; [by apply handled_refl|intros _; apply Hr]].
    destruct (has_flag _ _); [|by eapply wp_siareply_event].
    rewrite wp_bind. eapply wp_mono; [by eapply wp_sia_received|]. intros [] w' [H' L']. rewrite wp_ret. split; [done|]. intros _. apply L', Hr.
  - intros retained w' [H' L']. by apply wp_drop_if.
Qed.
End bodies.

(** ** The receive functions *)

Section receive.
Context (env : rx_env) (n : ptr).
Context (Henv : tlv2_ok (re_codec env)).
Implicit Types w : rx.

(** A field of the neighbor is set. *)
Lemma wp_adj_set f d w (Q : unit -> rx -> Prop) :
  rx_ok n w -> ad_nbrs (rx_adj w) !! n = Some d -> core (f d) = core d -> drops_only f ->
  (forall w', adj_step n w w' -> ad_nbrs (rx_adj w') !! n = Some (f d) -> Q tt w') -> wp (on_adj (Neighbor.upd_nbr n f)) Q w.
Proof.
  intros K Hd Hf Hl HQ. rewrite wp_on_adj.
  assert (wp (Neighbor.upd_nbr n f) (fun _ a => working n a /\ ad_nbrs a !! n = Some (f d)) (rx_adj w)) as Hw
    by (eapply ok_note_working; [apply K|exact Hd|done|]; by intros).
  unfold wp in *. destruct (Neighbor.upd_nbr n f (rx_adj w)) as [[[] a]|] eqn:E; [|done]. destruct Hw as [Ka Ha].
  apply HQ; [|done]. split; [apply renew_renewed|]. split; [|done]. split; [done|]. by eapply lists_upd_nbr.
Qed.

(** The sequence is noted and acknowledged. *)
Lemma wp_note_ack sequence w (Q : unit -> rx -> Prop) (m : Rx unit) :
  rx_ok n w -> (forall w', rx_ok n w' -> rx_acks w' = (n, sequence) :: rx_acks w -> wp m Q w') ->
  wp (recv_sequence_set n sequence;; eigrp_hello_send_ack n;; m) Q w.
Proof.
  intros K HQ. destruct (wk_nbr _ _ (ro_work _ _ K)) as (dn & Hdn & _). rewrite wp_bind. unfold recv_sequence_set.
  eapply wp_adj_set; [done|exact Hdn|done|by intros ?; right|]. intros w1 S1 Hd1. pose proof (adj_step_ok _ _ _ K S1) as K1.
  unfold eigrp_hello_send_ack. rewrite !wp_bind. eapply wp_rx_nbr; [exact Hd1|]. apply wp_ack_sequence. apply HQ; [by apply handled_ack|].
  simpl. f_equal. destruct S1 as (_ & _ & E). by rewrite E.
Qed.

(** A receive function left the invariants and acknowledged [sequence]. *)
Definition received_ok (sequence : Z) (w w' : rx) : Prop := rx_ok n w' /\ rx_acks w' = (n, sequence) :: rx_acks w.

Lemma wp_reply_receive h w :
  rx_ok n w -> wp (eigrp_reply_receive env n h) (fun _ w' => received_ok (rh_sequence h) w w') w.
Proof.
  intros K. unfold eigrp_reply_receive. apply wp_note_ack; [done|]. intros w1 K1 E1. rewrite wp_bind. apply wp_walk_fuel. intros fuel Hf.
  rewrite wp_bind. eapply (wp_tlv_walk env n Henv (fun w => rx_acks w = rx_acks w1)); [| |apply test_pkt_more|done|done|done|].
  - intros x x' Ex _ (_ & E & _). by rewrite E.
  - intros r e x Kx Ex Hr _. eapply wp_mono; [by eapply wp_reply_tlv|]. intros [] x' H. split; [apply H|].
    split; [by rewrite (hd_rest _ _ _ H)|by eapply handled_pkt].
  - intros b w2 K2 E2. destruct b; cbn [negb]; [|apply wp_ret; split; [done|by rewrite E2]].
    apply (wp_send_pending n); [done|]. intros q. split; [apply handled_queue, K2|simpl; by rewrite E2].
Qed.

Lemma wp_sia_receive body h w :
  (forall r e w, rx_ok n w -> received r e (rx_store w) -> wp (body r) (fun _ w' => handled n w w') w) ->
  rx_ok n w -> wp (recv_sequence_set n (rh_sequence h);; eigrp_hello_send_ack n;; fuel ← walk_fuel; sia_walk env fuel n body)
                  (fun _ w' => received_ok (rh_sequence h) w w') w.
Proof.
  intros Hb K. apply wp_note_ack; [done|]. intros w1 K1 E1. rewrite wp_bind. apply wp_walk_fuel. intros fuel Hf.
  eapply (wp_sia_walk env n Henv (fun w => rx_acks w = rx_acks w1)); [| |done|done|done|].
  - intros x x' Ex _ (_ & E & _). by rewrite E.
  - intros r e x Kx Ex Hr _. eapply wp_mono; [by eapply Hb|]. intros [] x' H. split; [apply H|].
    split; [by rewrite (hd_rest _ _ _ H)|by eapply handled_pkt].
  - intros w2 K2 E2. split; [done|by rewrite E2].
Qed.

Lemma wp_siaquery_receive h w :
  rx_ok n w -> wp (eigrp_siaquery_receive env n h) (fun _ w' => received_ok (rh_sequence h) w w') w.
Proof. apply wp_sia_receive. apply wp_siaquery_tlv. Qed.

Lemma wp_siareply_receive h w :
  rx_ok n w -> wp (eigrp_siareply_receive env n h) (fun _ w' => received_ok (rh_sequence h) w w') w.
Proof. apply wp_sia_receive. apply wp_siareply_tlv. Qed.
End receive.
