(* ===== verification/Answers.v ===== *)
(** * Answers to a QUERY outside DUAL

    The REPLY at a summary boundary and the REPLY for an unknown destination: objects made
    for the answer belong to the packetizer's work item, and are freed when the thread
    takes no work. *)

From Stdlib Require Import ZArith Lia.
From stdpp Require Import base gmap list sorting strings.
From S2P Require Import Prelude Types Metric Prefix Stream AfVectors Tlv1 Tlv1Props Tlv2 Tlv2Props Rtt Filter Auth Timers Neighbor NeighborProps Limits LimitsProps AfLimits HelloProps Dispatch AdjacencyProps State Topology Fsm Store Marking Frame Handlers Invariant Distance Dual DualProps Completion Table Events NeighborDown NeighborDownProps Paths Summary SummaryProps Receive ReceiveProps ReceiveWalk.

(** ** Objects of an answer *)

Definition OWN_WORK : Z := Z.lor EIGRP_PACKETIZER_WORK_F_OWN_PREFIX EIGRP_PACKETIZER_WORK_F_OWN_ROUTE.

(** The store with a destination and a route that belong to a work item. *)
Definition with_answer (s : eigrp_instance) (d : eigrp_prefix_descriptor) (e : eigrp_route_descriptor) : eigrp_instance :=
  {| s with prefixes := <[next_addr s := d]> (prefixes s); routes := <[S (next_addr s) := e]> (routes s);
     next_addr := S (S (next_addr s)) |}.

Definition answer_work (n : ptr) (s : eigrp_instance) : eigrp_packetizer_work :=
  reply_work n (next_addr s) (Some (S (next_addr s))) OWN_WORK.

(** The destination an answer at a summary boundary is about: the queried one, or the
    aggregate of a component under it. *)
Definition boundary_dest (env : rx_env) (dest dest' : eigrp_prefix) : Prop :=
  dest' = dest
  \/ exists c, prefix_length dest < prefix_length c /\ eigrp_prefix_address_match dest (address c) = true
       /\ summary_destination (re_auto_prefix env) (re_summaries env) (re_summary_intf env) c = Some dest'.

(** The destination [d] at [p] and the route [e] of an answer to a QUERY for [dest]: the
    queried destination, unreachable, or what a summary boundary says of it. *)
Definition named (env : rx_env) (dest : eigrp_prefix) (p : ptr) (d : eigrp_prefix_descriptor) (e : eigrp_route_descriptor) : Prop :=
  rd_prefix e = Some p
  /\ (destination d = eigrp_prefix_normalize dest /\ rd_dest e = dest /\ delay (rd_metric e) = EIGRP_MAX_METRIC
      \/ rd_dest e = destination d /\ boundary_dest env dest (destination d)).

(** A REPLY with objects of its own was queued; a thread that stopped takes none. *)
Definition replied (env : rx_env) (n : ptr) (dest : eigrp_prefix) (s s' : eigrp_instance) : Prop :=
  (exists d e, blank d /\ named env dest (next_addr s) d e /\ s' = with_queue (with_answer s d e) (packetizer_queue s ++ [answer_work n s]))
  \/ (~ running s /\ s' = {| s with next_addr := S (S (next_addr s)) |}).

Section answers.
Context (env : rx_env) (n : ptr) (dest : eigrp_prefix).
Implicit Types s : eigrp_instance.

Lemma topo_next s k : topo_ok s -> (next_addr s <= k)%nat -> topo_ok {| s with next_addr := k |}.
Proof.
  intros K Hk. apply (topo_routes s (routes s) k); [done|done| |].
  - intros x Hx. destruct (iw_below _ (so_wf _ (tk_store _ K))) as [B _]. specialize (B x Hx). lia.
  - intros p d x e _ _ He. by exists e.
Qed.

Lemma topo_answer s d e : topo_ok s -> blank d -> topo_ok (with_answer s d e).
Proof.
  intros K B. pose proof (iw_below _ (so_wf _ (tk_store _ K))) as [B1 B2].
  eapply grown_topo; [|exact K]. split; try done; simpl.
  - split; simpl; intros x; rewrite lookup_insert_is_Some; intros [->|[_ Hx]]; try lia.
    + specialize (B1 x Hx). lia.
    + specialize (B2 x Hx). lia.
  - lia.
  - intros p dp. destruct (decide (p = next_addr s)) as [->|Hne].
    + rewrite lookup_insert_eq. intros [= <-]. by right.
    + rewrite lookup_insert_ne by done. by left.
  - intros t nd p Hn Hi. apply lookup_insert_ne. intros <-. by eapply (free_info s t nd (next_addr s)); [..|exact Hi].
  - intros p Hp. apply lookup_insert_ne. intros <-. by eapply (free_change s (next_addr s)).
  - intros p dp x ex Hd Hx He. exists ex. split; [|done]. rewrite lookup_insert_ne; [done|].
    intros <-. rewrite free_route_addr in He; [done|done|lia].
Qed.

Lemma replied_topo s s' : topo_ok s -> replied env n dest s s' -> topo_ok s'.
Proof.
  intros K [(d & e & B & _ & ->)|[_ ->]]; [by apply topo_queue, topo_answer|]. apply topo_next; [done|lia].
Qed.

Lemma replied_fields s s' : replied env n dest s s' ->
  topology_table s' = topology_table s /\ table_nodes s' = table_nodes s /\ nbrs s' = nbrs s /\ intfs s' = intfs s
  /\ params s' = params s /\ shutdown s' = shutdown s /\ thread_running s' = thread_running s.
Proof. by intros [(d & e & B & _ & ->)|[_ ->]]. Qed.

Lemma replied_prefix s s' p d : topo_ok s -> replied env n dest s s' -> prefixes s !! p = Some d -> prefixes s' !! p = Some d.
Proof.
  intros K [(d0 & e & B & _ & ->)|[_ ->]] Hd; [|done]. simpl. rewrite lookup_insert_ne; [done|].
  intros <-. by rewrite free_prefix_addr in Hd.
Qed.

Lemma replied_route s s' r e : topo_ok s -> replied env n dest s s' -> routes s !! r = Some e -> routes s' !! r = Some e.
Proof.
  intros K [(d0 & e0 & B & _ & ->)|[_ ->]] He; [|done]. simpl. rewrite lookup_insert_ne; [done|].
  intros <-. rewrite free_route_addr in He; [done|done|lia].
Qed.

Lemma replied_paths s s' q : topo_ok s -> replied env n dest s s' -> pathed n q s -> pathed n q s'.
Proof.
  intros K R (d & x & e & Hd & Hx & He & Ha). exists d, x, e. split; [by eapply replied_prefix|]. split; [done|].
  split; [by eapply replied_route|done].
Qed.

Lemma replied_loose s s' r : topo_ok s -> replied env n dest s s' -> loose r s -> loose r s'.
Proof.
  intros K [(d0 & e0 & B & _ & ->)|[_ ->]] L; [|done]. intros p d. simpl. destruct (decide (p = next_addr s)) as [->|Hne].
  - rewrite lookup_insert_eq. intros [= <-]. rewrite (blank_routes _ B). apply not_elem_of_nil.
  - rewrite lookup_insert_ne by done. apply L.
Qed.

Lemma replied_received s s' r e : topo_ok s -> replied env n dest s s' -> received r e s -> received r e s'.
Proof.
  intros K R [H1 H2 H3 H4]. split; [by eapply replied_route|by eapply replied_loose| |done].
  destruct (replied_fields _ _ R) as (_ & _ & _ & -> & _). done.
Qed.

(** The REPLY is handed to the packetizer with its objects. *)
Lemma wp_owned_reply s d e (Q : unit -> eigrp_instance -> Prop) :
  topo_ok s -> is_Some (nbrs s !! n) -> blank d -> active_eigrp d = false -> named env dest (next_addr s) d e ->
  (forall s', replied env n dest s s' -> Q tt s') ->
  wp (eigrp_reply_send_route (Some n) (next_addr s) (Some (S (next_addr s))) OWN_WORK) Q (with_answer s d e).
Proof.
  intros K [nb Hn] B Ha Hnm HQ. unfold eigrp_reply_send_route, eigrp_packetizer_work_create.
  rewrite wp_bind, (wp_get_nbr n nb) by done. rewrite !wp_bind, wp_calloc by apply (tk_store _ K). wp_simpl.
  unfold eigrp_packetizer_enqueue. cbn [work_opcode]. change (eigrp_packetizer_opcode_valid EIGRP_OPC_REPLY) with true. cbn [negb]. wp_simpl.
  simpl. destruct (shutdown s || negb (thread_running s)) eqn:Es.
  - assert (~ running s) as Hr.
    { intros [E1 E2]. by rewrite E1, E2 in Es. }
    unfold eigrp_packetizer_work_free. cbn [work_flags work_route work_prefix].
    change (has_flag OWN_WORK EIGRP_PACKETIZER_WORK_F_OWN_ROUTE) with true.
    change (has_flag OWN_WORK EIGRP_PACKETIZER_WORK_F_OWN_PREFIX) with true. cbv iota.
    unfold free_route, eigrp_topology_prefix_free. wp_simpl.
    destruct B as (B1 & B2 & _). rewrite (wp_get_prefix _ d) by (simpl; by rewrite lookup_insert_eq). rewrite B1, B2. cbn [mfor]. wp_simpl.
    unfold eigrp_timer_cancel_active. rewrite ?wp_bind, (wp_get_prefix _ d) by (simpl; by rewrite lookup_insert_eq). rewrite Ha. wp_simpl.
    apply HQ. right. split; [done|]. simpl.
    assert (routes s !! S (next_addr s) = None) as F1 by (apply free_route_addr; [done|lia]).
    assert (prefixes s !! next_addr s = None) as F2 by (by apply free_prefix_addr).
    unfold free_prefix, with_answer. simpl. by rewrite !delete_insert_id.
  - wp_simpl. apply HQ. left. by exists d, e.
Qed.

Lemma wp_prefix_create s (Q : ptr -> eigrp_instance -> Prop) :
  mem s = [] -> Q (next_addr s) {| s with prefixes := <[next_addr s := new_prefix]> (prefixes s); next_addr := S (next_addr s) |} ->
  wp eigrp_topology_prefix_create Q s.
Proof. intros Hm HQ. unfold eigrp_topology_prefix_create. rewrite !wp_bind, !wp_calloc by done. cbn [andb]. by wp_simpl. Qed.

Lemma wp_topology_route_create ei s (Q : ptr -> eigrp_instance -> Prop) :
  mem s = [] -> Q (next_addr s) {| s with routes := <[next_addr s := new_route ei]> (routes s); next_addr := S (next_addr s) |} ->
  wp (eigrp_topology_route_create ei) Q s.
Proof. intros Hm HQ. unfold eigrp_topology_route_create. rewrite wp_bind, wp_calloc by done. by wp_simpl. Qed.

(** ** The answer for an unknown destination *)

Lemma wp_unknown_reply r e s (Q : unit -> eigrp_instance -> Prop) :
  topo_ok s -> hears n s -> received r e s -> rd_dest e = dest -> (forall s', replied env n dest s s' -> Q tt s') ->
  wp (eigrp_query_unknown_reply_send n r) Q s.
Proof.
  intros K (nb & i & Hn & Hi) Hr Hdest HQ. unfold eigrp_query_unknown_reply_send.
  rewrite wp_bind, wp_get_route by apply Hr. rewrite wp_bind. apply wp_prefix_create; [apply (tk_store _ K)|].
  rewrite wp_bind, (wp_upd_prefix _ _ new_prefix) by (simpl; by rewrite lookup_insert_eq).
  rewrite wp_bind, (wp_get_nbr n nb) by done. rewrite wp_bind. apply wp_topology_route_create; [apply (tk_store _ K)|].
  rewrite wp_bind, (wp_upd_route _ _ (new_route (nbr_ei nb))) by (simpl; by rewrite lookup_insert_eq).
  match goal with |- wp _ _ ?s1 => replace s1 with (with_answer s
    {| new_prefix with destination := eigrp_prefix_normalize (rd_dest e) |} (default e (routes s1 !! S (next_addr s)))) end.
  - apply wp_owned_reply; [done|by rewrite Hn|done|done| |done]. simpl. rewrite lookup_insert_eq. cbn [default].
    split; [done|]. left. cbn. by rewrite Hdest.
  - unfold with_answer, set_route, set_prefix. simpl. by rewrite lookup_insert_eq, !insert_insert_eq.
Qed.

(** ** The answer at a summary boundary *)

Section summary.
Context (Hmetrics : metrics_convertible (re_summaries env)).

Definition summary_made (sp : ptr) (o : option (eigrp_prefix_descriptor * eigrp_route_descriptor)) : Prop :=
  forall d e, o = Some (d, e) -> blank d /\ active_eigrp d = false /\ named env dest sp d e.

Lemma made_objects ty sp dest' id self m x : boundary_dest env dest dest' ->
  summary_made sp (Some (summary_objects ty sp dest' id self m x)).
Proof. intros B d e [= <- <-]. split; [done|]. split; [done|]. split; [done|]. by right. Qed.
Lemma made_unreachable ty sp self : summary_made sp (Some (summary_unreachable ty sp dest self)).
Proof. apply made_objects. by left. Qed.
Lemma made_none sp : summary_made sp None.
Proof. done. Qed.
Hint Resolve made_unreachable made_none : core.

Lemma yields_query_build sp :
  yields (summary_made sp) (eigrp_summary_query_route_build (re_auto_prefix env) (re_leak_map env)
    (v_internal_tlv_type (vectors (re_codec env))) (re_summaries env) (re_summary_intf env) sp dest).
Proof.
  unfold eigrp_summary_query_route_build. apply yields_any. intros self. cbv zeta. destruct (match _ with Some _ => _ | None => _ end).
  - apply yields_any. intros nodes. eapply (yields_bind (summary_made sp)).
    + induction nodes as [|t nodes IH]; cbn [summary_query_walk]; [by apply yields_ret|].
      apply yields_any. intros nd. destruct (tn_info nd) as [p|]; [|done]. apply yields_any. intros c.
      destruct (_ || _) eqn:Eg; [done|]. apply orb_false_iff in Eg as [[_ Eg%Z.leb_gt]%orb_false_iff Em%negb_false_iff].
      apply yields_any. intros [x|]; [|done]. apply yields_any. intros route.
      eapply (yields_bind (summary_made sp)); [|intros [o|] Ho; [by apply yields_ret|done]].
      unfold eigrp_summary_route_build. destruct (summary_destination _ _ _ _) as [dest'|] eqn:Ed; [|by apply yields_ret].
      do 5 (apply yields_any; intros). apply yields_ret, made_objects. right. by exists (destination c).
    + intros [o|] Ho; apply yields_ret; [done|]. auto.
  - destruct (_ || _); apply yields_ret; [done|]. auto.
Qed.

Lemma wp_query_build sp s (Q : option (eigrp_prefix_descriptor * eigrp_route_descriptor) -> eigrp_instance -> Prop) :
  store_ok s -> (forall o, summary_made sp o -> Q o s) ->
  wp (eigrp_summary_query_route_build (re_auto_prefix env) (re_leak_map env)
        (v_internal_tlv_type (vectors (re_codec env))) (re_summaries env) (re_summary_intf env) sp dest) Q s.
Proof.
  intros [W T _] HQ. eapply (wp_mono _ (fun o s' => summary_made sp o /\ s' = s)); [|by intros o s' [Ho ->]; apply HQ].
  apply wp_yields; [apply yields_query_build|]. unfold eigrp_summary_query_route_build. rewrite wp_bind, wp_gets. cbv zeta.
  destruct (match _ with Some _ => _ | None => _ end); [|by destruct (_ || _); wp_simpl].
  rewrite wp_bind, wp_gets, wp_bind. apply wp_summary_query_walk; [done|done|done|apply T|by wp_simpl|by intros; wp_simpl].
Qed.

(** The boundary answers the QUERY and drops its route, or leaves the store as it was. *)
Lemma wp_summary_answer r e s (Q : bool -> eigrp_instance -> Prop) :
  topo_ok s -> is_Some (nbrs s !! n) -> received r e s -> rd_dest e = dest ->
  (forall s1, replied env n dest s s1 -> Q true {| s1 with routes := delete r (routes s1) |}) ->
  Q false {| s with next_addr := S (S (next_addr s)) |} ->
  wp (summary_answer env n r) Q s.
Proof.
  intros K Hn Hr Hdest Hyes Hno. unfold summary_answer. rewrite wp_bind, wp_get_route, Hdest by apply Hr.
  pose proof (so_mem _ (tk_store _ K)) as Hm.
  rewrite wp_bind. apply wp_prefix_create; [done|]. rewrite wp_bind. apply wp_topology_route_create; [done|]. cbn [next_addr routes prefixes].
  match goal with |- wp _ _ ?s1 => change s1 with (with_answer s new_prefix (new_route (Some (re_ei env)))) end.
  assert (topo_ok (with_answer s new_prefix (new_route (Some (re_ei env))))) as K1 by (by apply topo_answer).
  rewrite wp_bind. apply wp_query_build; [apply K1|]. intros [[d x]|] Ho.
  - destruct (Ho d x eq_refl) as (B & Ha & Hnm). rewrite wp_bind, wp_put_prefix, wp_bind, wp_put_route.
    match goal with |- wp _ _ ?s1 => replace s1 with (with_answer s d x) end.
    2:{ unfold with_answer, set_route, set_prefix. simpl. by rewrite !insert_insert_eq. }
    rewrite wp_bind. apply wp_owned_reply; [done|done|done|done|done|]. intros s' R. unfold free_route. wp_simpl. by apply Hyes.
  - unfold eigrp_topology_prefix_free. rewrite !wp_bind, (wp_get_prefix _ new_prefix) by (simpl; by rewrite lookup_insert_eq).
    cbn [mfor new_prefix internal_routes external_routes]. unfold eigrp_timer_cancel_active. wp_simpl.
    rewrite (wp_get_prefix _ new_prefix) by (simpl; by rewrite lookup_insert_eq). cbn [new_prefix active_eigrp].
    unfold free_prefix, free_route. wp_simpl.
    assert (routes s !! S (next_addr s) = None) as F1 by (apply free_route_addr; [done|lia]).
    assert (prefixes s !! next_addr s = None) as F2 by (by apply free_prefix_addr).
    unfold with_answer. simpl. by rewrite !delete_insert_id.
Qed.
End summary.
End answers.
