(* ===== verification/Learning.v ===== *)
(** * Destinations and paths learned from packets

    A path enters the queue of its destination, a destination enters the table: the
    operations QUERY and UPDATE share, and the invariants they keep. *)

From Stdlib Require Import ZArith Lia.
From stdpp Require Import base gmap list sorting strings.
From S2P Require Import Prelude Types Metric Prefix Stream AfVectors Tlv1 Tlv1Props Tlv2 Tlv2Props Rtt Filter Auth Timers Neighbor NeighborProps Limits LimitsProps AfLimits HelloProps Dispatch AdjacencyProps State Topology Fsm Store Marking Frame Handlers Invariant Distance Dual DualProps Completion Table Events NeighborDown NeighborDownProps Paths Summary SummaryProps Receive ReceiveProps ReceiveWalk Answers.

(** ** A path enters its queue *)

(** Destination [d] with route [r] of distance as in [s]. *)
Definition with_path (s : eigrp_instance) (r : ptr) (e : eigrp_route_descriptor) (d : eigrp_prefix_descriptor) : eigrp_prefix_descriptor :=
  set_queue (eigrp_topology_route_external e) (insert_by (route_dist s) r (queue_of (eigrp_topology_route_external e) d)) d.

Section insertion.
Context (n p r : ptr) (d : eigrp_prefix_descriptor) (e : eigrp_route_descriptor).
Implicit Types s : eigrp_instance.

Lemma remove_absent l : r ∉ l -> remove_first (Nat.eqb r) l = l.
Proof.
  induction l as [|x l IH]; [done|]. intros [Hx Hl]%not_elem_of_cons. simpl. destruct (Nat.eqb_spec r x) as [->|_]; [done|]. by rewrite IH.
Qed.

Lemma with_path_requeue s : r ∉ topology_routes d -> with_path s r e d = requeue s r (eigrp_topology_route_external e) d.
Proof.
  unfold topology_routes, with_path, requeue. intros [H1 H2]%not_elem_of_app. rewrite !remove_absent by done. cbv zeta.
  destruct (eigrp_topology_route_external e); by destruct d.
Qed.

Lemma with_path_elem s x : x ∈ topology_routes (with_path s r e d) <-> x = r \/ x ∈ topology_routes d.
Proof.
  unfold with_path, topology_routes. destruct (eigrp_topology_route_external e); simpl; rewrite !elem_of_app, elem_of_insert_by; tauto.
Qed.

Lemma nbrs_keep_nbr_ei s s' m : nbrs_keep s s' -> nbr_ei <$> nbrs s' !! m = nbr_ei <$> nbrs s !! m.
Proof.
  intros K. specialize (K m). destruct (nbrs s' !! m), (nbrs s !! m); simpl in *; try done. injection K as K. congruence.
Qed.

(** The store after the insertion. *)
Record inserted s s' : Prop := {
  in_store : store_ok s';
  in_single : forall m, single_path m s';
  in_prefixes : prefixes s' = <[p := with_path s r e d]> (prefixes s);
  in_rest : s' = {| s with prefixes := prefixes s'; nbrs := nbrs s' |};
  in_nbrs : nbrs_keep s s';
}.

Lemma wp_insert s first (Q : bool -> eigrp_instance -> Prop) :
  store_ok s -> (forall m, single_path m s) -> prefixes s !! p = Some d -> routes s !! r = Some e -> loose r s ->
  route_links s e -> rd_adv_router e = Some n -> rd_prefix e = Some p -> only_path n r s d ->
  (forall s', inserted s s' -> Q true s') -> wp (eigrp_topology_route_insert p r first) Q s.
Proof.
  intros [W T M] S Hd He L Hlk Ha Hp Ho HQ. pose proof (iw_dests _ W p d Hd) as Wd.
  assert (r ∉ topology_routes d) as Hr by (by apply (L p d)).
  eapply (wp_route_insert p r d e); [done|done|done| |done|].
  { apply Forall_forall. intros x Hx. pose proof (ok_live _ _ (dest_wf_ok _ _ _ Wd)) as Hl. unfold live_routes in Hl. rewrite Forall_forall in Hl.
    apply Hl. unfold topology_routes. apply elem_of_app. destruct (eigrp_topology_route_external e); auto. }
  fold (with_path s r e d). intros s' [Hc HN]. apply HQ.
  assert (routes s' = <[r := e]> (routes s)) as HR by (rewrite Hc; simpl; by rewrite insert_id).
  assert (prefixes s' = <[p := with_path s r e d]> (prefixes s)) as HP by (by rewrite Hc).
  assert (s' = {| s with prefixes := prefixes s'; nbrs := nbrs s' |}) as Hrest by (rewrite HP; exact Hc).
  assert (nbrs_keep s s') as HN' by exact HN.
  assert (set_route s r e = s) as Hid by (unfold set_route; rewrite insert_id by done; by destruct s).
  split; [split|..]; try done.
  - eapply (instance_wf_rewrite s s' p r d _ e e); [done|done|done|by right|done|exact HP|done|by rewrite Hrest; simpl|].
    rewrite with_path_requeue by done. eapply (dest_wf_transfer s); [| | |rewrite <- Hid; by apply dest_wf_requeue].
    + intros x ex _ Hx. exists ex. split; [|done]. rewrite HR, insert_id by done. done.
    + intros i. by rewrite Hrest.
    + intros m. by apply nbrs_keep_live.
  - apply (table_wf_keep s); [done|by rewrite Hrest|by rewrite Hrest| |by rewrite Hrest].
    intros q Hq. rewrite HP. apply lookup_insert_is_Some'. by right.
  - by rewrite Hrest.
  - intros m q dq x y ex ey Hq Hx Hy. rewrite HR, insert_id by done. intros Hex Hey Ax Ay. rewrite HP in Hq.
    destruct (decide (q = p)) as [->|Hne]; [|rewrite lookup_insert_ne in Hq by done; by eapply (S m q dq x y ex ey)].
    rewrite lookup_insert_eq in Hq. injection Hq as <-. rewrite with_path_elem in Hx, Hy.
    destruct Hx as [->|Hx], Hy as [->|Hy]; [done| | |by eapply (S m p d x y ex ey)].
    + rewrite He in Hex. injection Hex as <-. rewrite Ha in Ax. injection Ax as <-. symmetry. by eapply Ho.
    + rewrite He in Hey. injection Hey as <-. rewrite Ha in Ay. injection Ay as <-. by eapply Ho.
Qed.
End insertion.

(** ** A destination enters the table *)

Definition at_node (o : option ptr) (d : eigrp_prefix_descriptor) : eigrp_prefix_descriptor := {| d with table_node := o |}.

Record added (p : ptr) (d : eigrp_prefix_descriptor) (s s' : eigrp_instance) : Prop := {
  ap_store : store_ok s';
  ap_dest : exists o, prefixes s' = <[p := at_node o d]> (prefixes s);
  ap_rest : s' = {| s with prefixes := prefixes s'; topology_table := topology_table s'; table_nodes := table_nodes s';
                    next_addr := next_addr s' |};
  ap_next : (next_addr s <= next_addr s')%nat;
  ap_table : forall q, in_table s' q -> in_table s q \/ q = p;
  ap_found : is_Some (eigrp_topology_table_key (destination d)) -> table_find s' (destination d) = Some p;
}.

Section addition.
Implicit Types s : eigrp_instance.

(** The table changed only: a node [t] for [key] holds [p]. *)
Definition with_node s (t : ptr) (node : topology_node) (tbl : list ptr) (next : nat) : eigrp_instance :=
  {| s with table_nodes := <[t := node]> (table_nodes s); topology_table := tbl; next_addr := next |}.

Lemma with_node_twice s t a b l l' k k' : with_node (with_node s t a l k) t b l' k' = with_node s t b l' k'.
Proof. unfold with_node. simpl. by rewrite insert_insert_eq. Qed.

Lemma wf_with_node s t node tbl next : instance_wf s -> (next_addr s <= next)%nat -> instance_wf (with_node s t node tbl next).
Proof.
  intros [W1 W2 W3 W4 W5 W6] Hn. split; try done.
  - intros p d Hd. destruct (W1 p d Hd) as [H1 H2 H3 H4 H5 H6 H7]. by split.
  - destruct W2 as [B1 B2]. split; intros x Hx; [specialize (B1 x Hx)|specialize (B2 x Hx)]; simpl; lia.
Qed.

Lemma added_node p d s t node tbl next :
  store_ok s -> prefixes s !! p = Some d -> tn_info node = Some p -> (next_addr s <= next)%nat -> (t < next)%nat ->
  (forall x, x ∈ tbl -> x = t \/ x ∈ topology_table s) ->
  (forall key, eigrp_topology_table_key (destination d) = Some key -> node_find (with_node s t node tbl next) key = Some t) ->
  added p d s (set_prefix (with_node s t node tbl next) p (at_node (Some t) d)).
Proof.
  intros O Hd Hi Hn Ht Htbl Hf. destruct (O) as [W [T1 T2 T3] M].
  assert (store_ok (with_node s t node tbl next)) as O1.
  { split; [by apply wf_with_node| |done]. split; simpl.
    - intros x Hx. apply lookup_insert_is_Some'. destruct (Htbl x Hx) as [->|Hx']; [by left|right; by apply T1].
    - intros x nd q. destruct (decide (x = t)) as [->|Hne].
      + rewrite lookup_insert_eq. intros [= <-]. rewrite Hi. intros [= <-]. eauto.
      + rewrite lookup_insert_ne by done. apply T2.
    - intros x [->|Hx]%lookup_insert_is_Some'; [done|]. specialize (T3 x Hx). lia. }
  split; try done.
  - apply (store_ok_dest _ p d); [done|done|]. destruct (iw_dests _ (so_wf _ O1) p d Hd) as [H1 H2 H3 H4 H5 H6 H7]. by split.
  - by eexists.
  - intros q (x & nd & Hx & Hnd & Hq). simpl in *. destruct (decide (x = t)) as [->|Hne].
    + rewrite lookup_insert_eq in Hnd. injection Hnd as <-. right. congruence.
    + rewrite lookup_insert_ne in Hnd by done. left. exists x, nd. split; [by destruct (Htbl x Hx)|done].
  - intros [key Hk]. specialize (Hf key Hk). unfold table_find. rewrite Hk. cbn [mbind option_bind].
    change (List.find _ _) with (node_find (with_node s t node tbl next) key). rewrite Hf. simpl. by rewrite lookup_insert_eq.
Qed.

Lemma table_match_refl x : eigrp_table_prefix_match x x = true.
Proof. unfold eigrp_table_prefix_match. rewrite !Z.eqb_refl. unfold bytes_eqb. rewrite !bool_decide_eq_true_2 by done. done. Qed.

Lemma find_agree {A} (f g : A -> bool) l : (forall x, x ∈ l -> f x = g x) -> List.find f l = List.find g l.
Proof.
  induction l as [|x l IH]; intros H; [done|]. simpl. rewrite (H x) by (by left). destruct (g x); [done|].
  apply IH. intros y Hy. apply H. by right.
Qed.
Lemma find_append {A} (f : A -> bool) l x : List.find f l = None -> f x = true -> List.find f (l ++ [x]) = Some x.
Proof. intros Hl Hx. induction l as [|y l IH]; simpl in *; [by rewrite Hx|]. destruct (f y); [done|auto]. Qed.

Lemma wp_new_addr s (Q : ptr -> eigrp_instance -> Prop) : Q (next_addr s) {| s with next_addr := S (next_addr s) |} -> wp fresh Q s.
Proof. done. Qed.

Lemma wp_node_create key s (Q : option ptr -> eigrp_instance -> Prop) :
  table_wf s -> mem s = [] -> eigrp_prefix_valid key = true ->
  (forall t, node_find s key = Some t -> Q (Some t) s) ->
  (node_find s key = None ->
     Q (Some (next_addr s)) (with_node s (next_addr s) {| tn_prefix := eigrp_prefix_normalize key; tn_info := None |}
                               (topology_table s ++ [next_addr s]) (S (next_addr s)))) ->
  wp (topology_node_lookup_or_create key) Q s.
Proof.
  intros T M Hv H1 H2. unfold topology_node_lookup_or_create. rewrite Hv. cbn [negb]. rewrite wp_bind.
  apply wp_node_lookup; [done|done|]. destruct (node_find s key) as [t|]; [by apply wp_ret, H1|].
  rewrite wp_bind, wp_calloc by done. rewrite wp_bind. apply wp_new_addr. unfold put_tnode.
  rewrite !wp_bind, wp_modify, wp_bind, wp_modify, wp_ret. by apply H2.
Qed.

Lemma wp_upd_tnode t nd f s (Q : unit -> eigrp_instance -> Prop) :
  table_nodes s !! t = Some nd -> Q tt (with_node s t (f nd) (topology_table s) (next_addr s)) -> wp (upd_tnode t f) Q s.
Proof. intros Hn HQ. unfold upd_tnode, put_tnode. rewrite wp_bind, wp_get_tnode, wp_modify by exact Hn. exact HQ. Qed.

Lemma wp_descriptor_add p d s (Q : unit -> eigrp_instance -> Prop) :
  store_ok s -> prefixes s !! p = Some d -> (forall s', added p d s s' -> Q tt s') -> wp (eigrp_prefix_descriptor_add p) Q s.
Proof.
  intros O Hd HQ. destruct (O) as [W T M]. unfold eigrp_prefix_descriptor_add. rewrite wp_bind, wp_get_prefix by exact Hd.
  destruct (eigrp_topology_table_key (destination d)) as [key|] eqn:Ek.
  2:{ apply wp_ret, HQ. split; [done|exists (table_node d); by destruct d as []; rewrite insert_id|by destruct s|done|by left|].
      rewrite Ek. by intros []. }
  rewrite wp_bind. apply wp_node_create; [done|done|by eapply table_key_valid| |].
  - intros t Ef. pose proof Ef as Ef'. apply List.find_some in Ef' as [Hin Hm]. apply list_elem_of_In in Hin. destruct (tw_live _ T t Hin) as [nd Hnd].
    rewrite wp_bind, wp_nonnull, wp_bind. eapply wp_upd_tnode; [exact Hnd|]. rewrite (wp_upd_prefix _ _ d) by exact Hd.
    apply HQ. apply (added_node p d s t _ (topology_table s) (next_addr s)); [done|done|done|done|apply T; eauto|by right|].
    intros k [= <-]%(eq_trans (eq_sym Ek)). rewrite <-Ef. apply find_agree. intros x _. simpl. destruct (decide (x = t)) as [->|Hne].
    + by rewrite lookup_insert_eq, Hnd.
    + by rewrite lookup_insert_ne.
  - intros Ef. rewrite wp_bind, wp_nonnull, wp_bind. eapply wp_upd_tnode; [simpl; by rewrite lookup_insert_eq|].
    rewrite (wp_upd_prefix _ _ d) by exact Hd. rewrite with_node_twice.
    assert (forall x, x ∈ topology_table s -> x <> next_addr s) as Hne.
    { intros x Hx ->. pose proof (tw_below _ T _ (tw_live _ T _ Hx)). lia. }
    apply HQ. apply (added_node p d s (next_addr s)); [done|done|done|simpl; lia|simpl; lia| |].
    + intros x [Hx|Hx]%elem_of_app; [by right|]. left. by apply list_elem_of_singleton in Hx.
    + intros k [= <-]%(eq_trans (eq_sym Ek)). apply find_append; simpl; [|by rewrite lookup_insert_eq, table_match_refl].
      rewrite <-Ef. apply find_agree. intros x Hx. simpl. rewrite lookup_insert_ne; [done|]. intros <-. by eapply Hne.
Qed.
End addition.

(** ** The invariant *)

Section invariant.
Context (n : ptr).
Implicit Types s : eigrp_instance.

Lemma pathed_dest q p d d' s s' :
  routes s' = routes s -> prefixes s !! p = Some d -> prefixes s' = <[p := d']> (prefixes s) ->
  (forall x, x ∈ topology_routes d -> x ∈ topology_routes d') -> pathed n q s -> pathed n q s'.
Proof.
  intros ER Hd EP Hs (dq & x & e & Hq & Hx & He & Ha). destruct (decide (q = p)) as [->|Hne].
  - rewrite Hd in Hq. injection Hq as <-. exists d', x, e. rewrite EP, ER, lookup_insert_eq. auto.
  - exists dq, x, e. by rewrite EP, ER, lookup_insert_ne.
Qed.

Lemma in_table_same s s' q : topology_table s' = topology_table s -> table_nodes s' = table_nodes s -> in_table s' q -> in_table s q.
Proof. intros E1 E2 (t & nd & H). exists t, nd. by rewrite <-E1, <-E2. Qed.

Lemma inserted_hears p r d e s s' m : inserted p r d e s s' -> hears m s -> hears m s'.
Proof.
  intros I (nb & i & Hn & Hi). destruct (nbrs_keep_ei s s' m nb (in_nbrs _ _ _ _ _ _ I) Hn) as (nb' & Hn' & E).
  exists nb', i. split; [done|congruence].
Qed.

Lemma topo_inserted p r d e s s' : topo_ok s -> inserted p r d e s s' -> topo_ok s'.
Proof.
  intros K I. destruct (I) as [O S P R _]. split; [done|done|]. intros q dq Ht Hq.
  rewrite P in Hq. destruct (decide (q = p)) as [->|Hne].
  - rewrite lookup_insert_eq in Hq. injection Hq as <-. intros E.
    assert (r ∈ topology_routes (with_path s r e d)) as Hr by (apply with_path_elem; by left).
    rewrite E in Hr. by apply not_elem_of_nil in Hr.
  - rewrite lookup_insert_ne in Hq by done. apply (tk_routed _ K q dq); [|done].
    eapply in_table_same; [..|exact Ht]; by rewrite R.
Qed.

Lemma added_routes p d s s' : added p d s s' -> routes s' = routes s.
Proof. intros A. by rewrite (ap_rest _ _ _ _ A). Qed.

Lemma added_single p d s s' m : prefixes s !! p = Some d -> added p d s s' -> single_path m s -> single_path m s'.
Proof.
  intros Hd A S q dq x y ex ey Hq. rewrite (added_routes _ _ _ _ A). destruct (ap_dest _ _ _ _ A) as [o E]. rewrite E in Hq.
  destruct (decide (q = p)) as [->|Hne].
  - rewrite lookup_insert_eq in Hq. injection Hq as <-. by apply (S p d).
  - rewrite lookup_insert_ne in Hq by done. by apply (S q dq).
Qed.

Lemma topo_added p d s s' : topo_ok s -> prefixes s !! p = Some d -> topology_routes d <> [] -> added p d s s' -> topo_ok s'.
Proof.
  intros K Hd Hne A. split; [apply A|intros m; eapply added_single; [done|exact A|apply K]|]. intros q dq Ht Hq.
  destruct (ap_dest _ _ _ _ A) as [o E]. rewrite E in Hq. destruct (decide (q = p)) as [->|Hqp].
  - rewrite lookup_insert_eq in Hq. by injection Hq as <-.
  - rewrite lookup_insert_ne in Hq by done. destruct (ap_table _ _ _ _ A q Ht) as [Ht'| ->]; [|done]. by apply (tk_routed _ K q dq).
Qed.

Lemma topo_updated msg r d e s s1 c d1 e1 :
  topo_ok s -> msg_ok s msg r d e -> rd_adv_router e = Some n -> rd_prefix e = Some (msg_prefix msg) -> only_path n r s d ->
  distance_updated s msg r d e s1 c d1 e1 ->
  topo_ok s1 /\ event_frame (msg_prefix msg) r s s1 /\ exists e', routes s1 !! r = Some e' /\ rd_adv_router e' = Some n.
Proof.
  intros K Hok Ha Hp Ho Hu. pose proof (mo_prefix _ _ _ _ _ Hok) as Hd. pose proof (mo_desc _ _ _ _ _ Hok) as He.
  pose proof (updated_event_frame _ _ _ _ _ _ _ _ _ Hu Hd He) as F.
  assert (routes s1 !! r = Some e1) as He1 by (by eapply du_desc).
  assert (rd_adv_router e1 = Some n) as Ha1 by (by eapply du_adv_router).
  assert (prefixes s1 !! msg_prefix msg = Some d1) as Hd1 by (by eapply du_prefix).
  split; [|split; [done|by exists e1]]. split.
  - split; [apply Hu|by eapply table_wf_event; [|apply K]|apply Hu].
  - intros m. by eapply (event_single _ r n d e d1 e1).
  - eapply (event_routed _ _ _ _ _ _ K F Hd Hd1). intros E. pose proof (du_stored _ _ _ _ _ _ _ _ _ Hu) as Hr. rewrite E in Hr.
    by apply not_elem_of_nil in Hr.
Qed.
End invariant.

(** ** The vector of a new path *)

(** Route [e] with the distances the vector [metric] has behind interface [ei]. *)
Definition measured (par : metric_params) (ei : eigrp_intf) (metric : eigrp_metrics) (e e' : eigrp_route_descriptor) : Prop :=
  exists total d, eigrp_metric_total_calculate par (Some ei) metric = Some (total, d)
    /\ e' = {| e with rd_reported_metric := metric; rd_reported_distance := u32 (eigrp_metric_calculate par metric);
               rd_total_metric := total; rd_distance := u32 d |}.

Lemma wp_route_measure r metric e i ei s (Q : unit -> eigrp_instance -> Prop) :
  instance_wf s -> routes s !! r = Some e -> rd_ei e = Some i -> intfs s !! i = Some ei ->
  (forall e', measured (params s) ei metric e e' -> Q tt (set_route s r e')) -> wp (route_measure r metric) Q s.
Proof.
  intros W He Hi Hei HQ. destruct (total_some (params s) ei metric) as [[total d] Et]; [by eapply W|].
  unfold route_measure. rewrite wp_bind, wp_gets, wp_bind, (wp_upd_route _ _ e) by done.
  rewrite wp_bind. erewrite wp_get_route by apply set_route_lookup. cbn [rd_ei]. rewrite Hi, !wp_bind, (wp_get_intf i ei) by done. wp_simpl.
  rewrite Et. wp_simpl. rewrite set_route_twice. apply HQ. exists total, d. split; [done|]. simpl. by rewrite Hi.
Qed.

(** The destination made for route [e]. *)
Definition destination_of (env : rx_env) (s : eigrp_instance) (e : eigrp_route_descriptor) : eigrp_prefix_descriptor :=
  let d := new_prefix in
  {| d with destination := eigrp_prefix_normalize (rd_dest e); pd_serno := serno s; pd_state := EIGRP_FSM_STATE_PASSIVE;
     nt := prefix_class (family_external env (rd_type e)) |}.

Definition with_dest (s : eigrp_instance) (d : eigrp_prefix_descriptor) : eigrp_instance :=
  {| s with prefixes := <[next_addr s := d]> (prefixes s); next_addr := S (next_addr s) |}.

Lemma wp_destination_create env r e s (Q : ptr -> eigrp_instance -> Prop) :
  mem s = [] -> routes s !! r = Some e -> Q (next_addr s) (with_dest s (destination_of env s e)) ->
  wp (destination_create env r) Q s.
Proof.
  intros Hm Hr HQ. unfold destination_create. rewrite wp_bind, wp_get_route by exact Hr. rewrite wp_bind. apply wp_prefix_create; [done|].
  rewrite wp_bind, wp_gets, wp_bind, (wp_upd_prefix _ _ new_prefix) by (simpl; by rewrite lookup_insert_eq). rewrite wp_ret.
  unfold set_prefix. cbn [prefixes]. rewrite insert_insert_eq. exact HQ.
Qed.

(** The state with a new, empty destination. *)
Section new_dest.
Implicit Types s : eigrp_instance.

Lemma topo_dest s d : topo_ok s -> blank d -> topo_ok (with_dest s d).
Proof.
  intros K B. pose proof (iw_below _ (so_wf _ (tk_store _ K))) as [B1 B2].
  eapply grown_topo; [|exact K]. split; try done; simpl.
  - split; simpl; intros x.
    + intros Hx. specialize (B1 x Hx). lia.
    + rewrite lookup_insert_is_Some. intros [->|[_ Hx]]; [lia|]. specialize (B2 x Hx). lia.
  - lia.
  - intros p dp. destruct (decide (p = next_addr s)) as [->|Hne].
    + rewrite lookup_insert_eq. intros [= <-]. by right.
    + rewrite lookup_insert_ne by done. by left.
  - intros t nd p Hn Hi. apply lookup_insert_ne. intros <-. by eapply (free_info s t nd (next_addr s)); [..|exact Hi].
  - intros p Hp. apply lookup_insert_ne. intros <-. by eapply (free_change s (next_addr s)).
  - intros p dp x ex Hd Hx He. exists ex. by split.
Qed.

Lemma dest_loose r s d : blank d -> loose r s -> loose r (with_dest s d).
Proof.
  intros B L p dp. simpl. destruct (decide (p = next_addr s)) as [->|Hne].
  - rewrite lookup_insert_eq. intros [= <-]. rewrite (blank_routes _ B). apply not_elem_of_nil.
  - rewrite lookup_insert_ne by done. apply L.
Qed.

Lemma dest_received r e s d : blank d -> received r e s -> received r e (with_dest s d).
Proof. intros B [H1 H2 H3 H4]. split; [done|by apply dest_loose|done|done]. Qed.

Lemma dest_paths n q s d : topo_ok s -> pathed n q s -> pathed n q (with_dest s d).
Proof.
  intros K (dq & x & e & Hq & Hx & He & Ha). exists dq, x, e. split; [|done]. simpl. rewrite lookup_insert_ne; [done|].
  intros <-. by rewrite free_prefix_addr in Hq.
Qed.
End new_dest.

(** ** [eigrp_route_descriptor_add] for the first path of a neighbor *)

Section route_add.
Context (n p r : ptr) (d : eigrp_prefix_descriptor) (e : eigrp_route_descriptor).
Implicit Types s : eigrp_instance.

(** The best path is announced to the host. *)
Lemma wp_announce s d1 e1 (Q : unit -> eigrp_instance -> Prop) :
  prefixes s !! p = Some d1 -> routes s !! r = Some e1 -> route_links s e1 -> live_routes s (topology_routes d1) ->
  (forall s', dual_out p s s' d1 [] -> Q tt s') ->
  wp (best ← eigrp_topology_route_read p;
      if opt_ptr_eqb best (Some r) then
        nh ← eigrp_topology_southbound_nexthop r;
        match nh with
        | None => mret tt
        | Some nh =>
            node ← get_prefix p;
            route ← get_route r;
            d_int ← gets distance_internal;
            d_ext ← gets distance_external;
            let external := eigrp_topology_route_external route in
            result ← eigrp_rib_route_add
              {| rib_prefix := destination node; nexthops := [nh]; rib_metric := distance node;
                 rib_tag := ext_tag (rd_extdata route); admin_dist := if external then d_ext else d_int;
                 rib_type := rib_class external |};
            when (bool_decide (result = EIGRP_RESULT_SUCCESS))
              (upd_route r (fun route =>
                 {| route with rd_flags := Z.lor (rd_flags route) EIGRP_ROUTE_DESCRIPTOR_INTABLE_FLAG |}))
        end
      else mret tt) Q s.
Proof.
  intros Hd He Hlk Hl HQ.
  assert (dual_out p s s d1 []) as Hid by (split; [reflexivity|done|by rewrite app_nil_r]).
  rewrite wp_bind. apply (wp_route_read p d1); [done|done|]. destruct (opt_ptr_eqb _ _); [|by apply wp_ret, HQ].
  rewrite wp_bind. apply wp_southbound_nexthop; [constructor; [by exists e1|constructor]|].
  destruct (nexthop_of _ 0 r) as [nh|]; [|by apply wp_ret, HQ].
  rewrite wp_bind, wp_get_prefix by exact Hd. rewrite wp_bind, wp_get_route by exact He.
  rewrite wp_bind, wp_gets, wp_bind, wp_gets. cbv zeta. rewrite wp_bind. apply wp_rib_route_add. intros a s1 U R _.
  assert (dual_out p s s1 d1 []) as H1.
  { split; [by apply frame_upto_flags|by rewrite (upto_flags_prefixes _ _ U)|]. rewrite app_nil_r.
    apply (f_equal packetizer_queue (uf_rest _ _ U)). }
  destruct (bool_decide _); [|by apply HQ]. unfold when.
  apply (wp_flag_route (fun f => Z.lor f EIGRP_ROUTE_DESCRIPTOR_INTABLE_FLAG) r e1); [by rewrite R|]. intros s2 [U2 _ _].
  apply HQ. rewrite <-(app_nil_r []). eapply dual_out_trans; [exact H1|].
  split; [by apply frame_upto_flags|rewrite (upto_flags_prefixes _ _ U2); apply H1|]. rewrite app_nil_r.
  apply (f_equal packetizer_queue (uf_rest _ _ U2)).
Qed.

Lemma wp_route_add s (Q : unit -> eigrp_instance -> Prop) :
  store_ok s -> (forall m, single_path m s) -> prefixes s !! p = Some d -> routes s !! r = Some e -> loose r s ->
  route_links s e -> rd_adv_router e = Some n -> rd_prefix e = Some p -> is_Some (rd_ei e) -> only_path n r s d ->
  (forall s1 s', inserted p r d e s s1 -> dual_out p s1 s' (with_path s r e d) [] -> Q tt s') ->
  wp (eigrp_route_descriptor_add p r) Q s.
Proof.
  intros O S Hd He L Hlk Ha Hp [i Hi] Ho HQ. pose proof (iw_dests _ (so_wf _ O) p d Hd) as Wd.
  assert (r ∉ topology_routes d) as Hr by (by apply (L p d)).
  unfold eigrp_route_descriptor_add, eigrp_topology_route_class_queue.
  rewrite !wp_bind, wp_get_route by exact He. rewrite wp_ret, wp_bind, wp_get_prefix by exact Hd.
  replace (in_queue r (queue_of (eigrp_topology_route_external e) d)) with false.
  2:{ symmetry. apply bool_decide_eq_false. intros Hx. apply Hr. unfold topology_routes. apply elem_of_app. destruct (eigrp_topology_route_external e); auto. }
  rewrite wp_bind, wp_get_route by exact He. rewrite wp_bind, wp_gets, wp_bind, Ha. cbn [is_Some_dec].
  rewrite bool_decide_true by eauto. apply (wp_descriptor_lookup p d); [done|by apply ok_live; eapply dest_wf_ok|].
  rewrite Hi, (bool_decide_true (is_Some (Some i))) by eauto. cbn [negb]. rewrite andb_false_r. cbn [andb]. rewrite wp_bind, wp_ret.
  rewrite wp_bind. eapply (wp_insert n p r d e); [done..|]. intros s1 I. cbn [negb].
  assert (routes s1 = routes s) as ER by (by rewrite (in_rest _ _ _ _ _ _ I)).
  rewrite wp_bind, (wp_upd_route _ _ e) by (by rewrite ER).
  replace (set_route s1 r {| e with rd_prefix := Some p |}) with s1.
  2:{ unfold set_route. rewrite ER, insert_id; [by rewrite <-ER; destruct s1|]. rewrite He, <-Hp. by destruct e. }
  unfold when. rewrite wp_bind, wp_ret.
  assert (prefixes s1 !! p = Some (with_path s r e d)) as Hd1 by (rewrite (in_prefixes _ _ _ _ _ _ I); by rewrite lookup_insert_eq).
  pose proof (iw_dests _ (so_wf _ (in_store _ _ _ _ _ _ I)) p _ Hd1) as W1.
  eapply wp_announce; [exact Hd1|by rewrite ER| |by apply ok_live; eapply dest_wf_ok|intros s' Hout; by eapply HQ].
  destruct (dw_routes _ _ _ W1 r) as (e1 & He1 & Hl1 & _); [apply with_path_elem; by left|].
  rewrite ER, He in He1. by injection He1 as <-.
Qed.
End route_add.

(** ** A path of a new destination *)

Section learn.
Context (n p r : ptr) (d : eigrp_prefix_descriptor) (e : eigrp_route_descriptor).
Implicit Types s : eigrp_instance.

(** Changes of one destination's fields and of routes' flags keep the paths. *)
Lemma dual_paths_keep s s' d1 d2 ws :
  instance_wf s -> dual_out p s s' d2 ws -> prefixes s !! p = Some d1 -> topology_routes d2 = topology_routes d1 -> paths_keep s s'.
Proof.
  intros W [F Hp _] Hd Er q dq x e' Hq Hx He'.
  assert (exists dq0, prefixes s !! q = Some dq0 /\ x ∈ topology_routes dq0) as (dq0 & Hq0 & Hx0).
  { destruct (decide (q = p)) as [->|Hne].
    - rewrite Hp in Hq. injection Hq as <-. exists d1. split; [done|by rewrite <-Er].
    - rewrite (df_others _ _ _ F q Hne) in Hq. by exists dq. }
  destruct (dw_routes _ _ _ (iw_dests _ W q dq0 Hq0) x Hx0) as (e0 & He0 & _). exists dq0, e0. split; [done|]. split; [done|]. split; [done|].
  destruct (df_routes _ _ _ F x e0 He0) as (e2 & He2 & E). rewrite He' in He2. injection He2 as <-.
  by apply strip_flags_eq in E as (_ & _ & _ & -> & _).
Qed.

Definition learn_fields (e : eigrp_route_descriptor) (d : eigrp_prefix_descriptor) : eigrp_prefix_descriptor :=
  {| d with distance := rd_distance e; fdistance := rd_distance e; rdistance := rd_distance e; reported_metric := rd_total_metric e |}.

(** The destination [p] is in the table with the single path [r], and due for an UPDATE. *)
Record learned s s' : Prop := {
  ld_topo : topo_ok s';
  ld_nbrs : nbrs_keep s s';
  ld_paths : forall q, pathed n q s -> pathed n q s';
  ld_dest : exists o, prefixes s' !! p = Some (add_req EIGRP_FSM_NEED_UPDATE (learn_fields e (with_path s r e (at_node o d))));
  ld_route : exists e', routes s' !! r = Some e' /\ strip_flags e' = strip_flags e;
  ld_change : p ∈ topology_changes s';
  ld_found : is_Some (eigrp_topology_table_key (destination d)) -> table_find s' (destination d) = Some p;
}.

Lemma only_blank s x d' : blank d' -> only_path n x s d'.
Proof. intros B y ey Hy. rewrite (blank_routes _ B) in Hy. by apply not_elem_of_nil in Hy. Qed.

Lemma table_find_same s s' dest : topology_table s' = topology_table s -> table_nodes s' = table_nodes s -> table_find s' dest = table_find s dest.
Proof. intros E1 E2. unfold table_find. by rewrite E1, E2. Qed.

Lemma wp_learn s (Q : unit -> eigrp_instance -> Prop) :
  topo_ok s -> hears n s -> prefixes s !! p = Some d -> blank d -> received r e s -> rd_adv_router e = Some n -> rd_prefix e = Some p ->
  (forall s', learned s s' -> Q tt s') ->
  wp (eigrp_prefix_descriptor_add p;;
      eigrp_route_descriptor_add p r;;
      route ← get_route r;
      upd_prefix p (fun d => {| d with distance := rd_distance route; fdistance := rd_distance route;
                                rdistance := rd_distance route; reported_metric := rd_total_metric route |});;
      eigrp_topology_update_node_flags p;;
      upd_prefix p (fun d => {| d with req_action := Z.lor (req_action d) EIGRP_FSM_NEED_UPDATE |});;
      topology_changes_add p) Q s.
Proof.
  intros K H Hd B [R1 R2 R3 R4] Ha Hp HQ. rewrite wp_bind. eapply wp_descriptor_add; [apply K|exact Hd|]. intros s1 A.
  destruct (ap_dest _ _ _ _ A) as [o Eo]. set (d1 := at_node o d) in *.
  assert (prefixes s1 !! p = Some d1) as Hd1 by (rewrite Eo; by rewrite lookup_insert_eq).
  pose proof (added_routes _ _ _ _ A) as ER1.
  assert (loose r s1) as L1.
  { intros q dq. rewrite Eo. destruct (decide (q = p)) as [->|Hne].
    - rewrite lookup_insert_eq. intros [= <-]. by apply (R2 p d).
    - rewrite lookup_insert_ne by done. apply R2. }
  assert (route_links s1 e) as Hlk.
  { apply (links_ei n); [by rewrite (ap_rest _ _ _ _ A)|done|]. unfold hears. by rewrite (ap_rest _ _ _ _ A). }
  rewrite wp_bind. eapply (wp_route_add n p r d1 e); [apply A|intros m; apply (added_single p d s s1 m Hd A), K|done|by rewrite ER1|done|done|done|done|done| |].
  { apply only_blank. exact B. }
  intros s2 s3 I Hout.
  assert (with_path s1 r e d1 = with_path s r e d1) as Ew by (unfold with_path, route_dist; by rewrite ER1).
  set (d2 := with_path s1 r e d1) in *.
  assert (prefixes s2 !! p = Some d2) as Hd2 by (rewrite (in_prefixes _ _ _ _ _ _ I); by rewrite lookup_insert_eq).
  assert (routes s2 = routes s) as ER2 by (rewrite (in_rest _ _ _ _ _ _ I); simpl; done).
  pose proof (in_store _ _ _ _ _ _ I) as O2. pose proof (iw_dests _ (so_wf _ O2) p d2 Hd2) as W2.
  destruct (df_routes _ _ _ (do_frame _ _ _ _ _ Hout) r e) as (e3 & He3 & E3); [by rewrite ER2|].
  rewrite wp_bind, wp_get_route by exact He3. rewrite wp_bind.
  assert (dest_wf s2 p (learn_fields e3 d2)) as W3 by (destruct W2 as [? ? ? ? ? ? ?]; by split).
  apply (wp_upd_out (learn_fields e3) Hout). intros s4 Hout4. rewrite wp_bind.
  apply (wp_node_flags_out Hout4); [by eapply dest_wf_ok|]. intros s5 Hout5 _.
  apply (wp_add_action_out EIGRP_FSM_NEED_UPDATE Hout5); [apply O2|]. intros s6 Hout6 Hc.
  apply HQ. set (d6 := add_req _ _) in *.
  assert (rd_distance e3 = rd_distance e /\ rd_total_metric e3 = rd_total_metric e) as [F1 F2]
    by (by apply strip_flags_eq in E3 as (? & _ & _ & _ & _ & ? & _)).
  assert (topology_routes d6 = topology_routes d2) as Er by done.
  pose proof (do_frame _ _ _ _ _ Hout6) as Fr. pose proof (do_prefix _ _ _ _ _ Hout6) as Hd6.
  pose proof (dual_paths_keep s2 s6 d2 d6 [] (so_wf _ O2) Hout6 Hd2 Er) as PK.
  pose proof (dual_event_frame p r s2 s6 d2 d6 [] Hout6 Hd2 Er) as EF.
  assert (dest_wf s2 p d6) as W6 by (destruct W3 as [? ? ? ? ? ? ?]; by split).
  assert (topology_table s6 = topology_table s1 /\ table_nodes s6 = table_nodes s1) as [Et1 Et2].
  { rewrite (frame_table _ _ _ Fr), (frame_table_nodes _ _ _ Fr). by rewrite (in_rest _ _ _ _ _ _ I). }
  split.
  - split.
    + split; [eapply instance_wf_frame; [apply O2|exact Fr|by rewrite Hd2|exact Hd6|done]|eapply table_wf_frame; [exact Fr|apply O2]|apply Fr, O2].
    + intros m. eapply single_path_keep; [exact PK|apply I].
    + intros q dq Ht Hq. destruct (decide (q = p)) as [->|Hne].
      * rewrite Hd6 in Hq. injection Hq as <-. rewrite Er. intros E. assert (r ∈ topology_routes d2) as Hx by (apply with_path_elem; by left).
        rewrite E in Hx. by apply not_elem_of_nil in Hx.
      * rewrite (df_others _ _ _ Fr q Hne), (in_prefixes _ _ _ _ _ _ I), lookup_insert_ne, Eo, lookup_insert_ne in Hq by done.
        destruct (ap_table _ _ _ _ A q) as [Ht'| ->]; [by eapply in_table_same|by apply (tk_routed _ K q dq)|done].
  - intros m. rewrite (frame_nbrs _ _ _ Fr). rewrite (in_nbrs _ _ _ _ _ _ I m). by rewrite (ap_rest _ _ _ _ A).
  - intros q Hq. eapply (event_pathed p r); [exact EF|exists (default e (routes s6 !! r))|].
    + destruct (df_routes _ _ _ Fr r e) as (e6 & He6 & E6); [by rewrite ER2|]. rewrite He6. split; [done|].
      simpl. by apply strip_flags_eq in E6 as (_ & _ & _ & -> & _).
    + eapply (pathed_dest n q p d1 d2 s1); [by rewrite ER2|done|by rewrite (in_prefixes _ _ _ _ _ _ I)|intros x Hx; apply with_path_elem; by right|].
      eapply (pathed_dest n q p d d1 s); [done|done|done|done|done].
  - exists o. rewrite Hd6. f_equal. unfold d6, learn_fields, add_req. rewrite F1, F2. by rewrite Ew.
  - destruct (df_routes _ _ _ Fr r e) as (e6 & He6 & E6); [by rewrite ER2|]. eauto.
  - done.
  - intros Hk. rewrite (table_find_same s1 s6) by done. by apply A.
Qed.
End learn.
