(* ===== verification/ReceiveQuery.v ===== *)
(** * Reception of QUERY packets

    Every route TLV of a QUERY is answered: a REPLY is queued (from a summary, for an
    unknown destination, or by DUAL), or the destination owes the neighbor one.  The
    receive function keeps every invariant. *)

From Stdlib Require Import ZArith Lia.
From stdpp Require Import base gmap list sorting strings.
From S2P Require Import Prelude Types Metric Prefix Stream AfVectors Tlv1 Tlv1Props Tlv2 Tlv2Props Rtt Filter Auth Timers Neighbor NeighborProps Limits LimitsProps AfLimits HelloProps Dispatch AdjacencyProps State Topology Fsm Store Marking Frame Handlers Invariant Distance Dual DualProps Completion Table Events NeighborDown NeighborDownProps Paths Summary SummaryProps Receive ReceiveProps ReceiveWalk Answers Learning.

(** ** The path of a QUERY for an unknown destination *)

Section record.
Context (env : rx_env) (n : ptr).
Implicit Types w : rx.

(** A destination and a route in no queue and no table: the objects of an answer. *)
Record held (pa ra : ptr) (da : eigrp_prefix_descriptor) (ea : eigrp_route_descriptor) (s : eigrp_instance) : Prop := {
  he_dest : prefixes s !! pa = Some da;
  he_route : routes s !! ra = Some ea;
  he_blank : blank da;
  he_loose : loose ra s;
}.

(** The objects of an answer other than [p] and [r] are kept. *)
Definition keeps (p : option ptr) (r : ptr) (s s' : eigrp_instance) : Prop :=
  forall pa ra da ea, p <> Some pa -> ra <> r -> held pa ra da ea s -> held pa ra da ea s'.

Lemma keeps_same p r s s' : prefixes s' = prefixes s -> routes s' = routes s -> keeps p r s s'.
Proof. intros E1 E2 pa ra da ea _ _ [H1 H2 H3 H4]. split; rewrite ?E1, ?E2; try done. intros q dq. rewrite E1. apply H4. Qed.

Lemma keeps_trans p r s1 s2 s3 : keeps p r s1 s2 -> keeps p r s2 s3 -> keeps p r s1 s3.
Proof. intros K1 K2 pa ra da ea H1 H2 H. apply K2; [done..|]. by apply K1. Qed.

(** Destination [p] takes no route but [r]; the routes outside its queues stay. *)
Lemma keeps_dest p r d d' s s' :
  prefixes s !! p = Some d -> prefixes s' = <[p := d']> (prefixes s) ->
  (forall x, x ∈ topology_routes d' -> x = r \/ x ∈ topology_routes d) ->
  (forall x ex, loose x s -> x <> r -> routes s !! x = Some ex -> routes s' !! x = Some ex) -> keeps (Some p) r s s'.
Proof.
  intros Hd E1 Hq E2 pa ra da ea Hp Hr [H1 H2 H3 H4]. split; [|by apply E2|done|].
  - rewrite E1, lookup_insert_ne; [done|congruence].
  - intros q dq. rewrite E1. destruct (decide (q = p)) as [->|Hne].
    + rewrite lookup_insert_eq. intros [= <-] Hx. destruct (Hq _ Hx) as [->|Hx']; [done|]. by apply (H4 p d).
    + rewrite lookup_insert_ne by done. apply H4.
Qed.

Lemma keeps_route p r e s : keeps p r s (set_route s r e).
Proof. intros pa ra da ea _ Hr [H1 H2 H3 H4]. split; try done. simpl. by rewrite lookup_insert_ne. Qed.

Lemma keeps_free p r s : keeps p r s {| s with routes := delete r (routes s) |}.
Proof. intros pa ra da ea _ Hr [H1 H2 H3 H4]. split; try done. simpl. by rewrite lookup_delete_ne. Qed.

(** The record left the work queue as it was; the route is stored or still loose. *)
Definition recorded (r : ptr) (p : option ptr) (w : rx) (stored : bool) (w' : rx) : Prop :=
  handled n w w' /\ (stored = false -> loose r (rx_store w')) /\ packetizer_queue (rx_store w') = packetizer_queue (rx_store w)
  /\ (running (rx_store w) -> running (rx_store w')) /\ keeps p r (rx_store w) (rx_store w').

Lemma recorded_same r p w w' : handled n w w' -> loose r (rx_store w') -> packetizer_queue (rx_store w') = packetizer_queue (rx_store w) ->
  (running (rx_store w) -> running (rx_store w')) -> keeps p r (rx_store w) (rx_store w') -> recorded r p w false w'.
Proof. by intros. Qed.

(** The neighbor's path takes the received data and vector. *)
Lemma wp_record_known p t r d e et metric w external :
  rx_ok n w -> prefixes (rx_store w) !! p = Some d -> received r e (rx_store w) ->
  t ∈ topology_routes d -> routes (rx_store w) !! t = Some et -> rd_adv_router et = Some n ->
  wp (on_store (upd_route t (fun d => {| d with rd_type := rd_type e; rd_nexthop := rd_nexthop e; rd_extdata := rd_extdata e |});;
                _ ← eigrp_topology_update_distance (route_message n p t 0 external metric false);
                mret false)) (recorded r (Some p) w) w.
Proof.
  intros K Hd Hr Ht Het Ha. pose proof (ro_topo _ _ K) as T. pose proof (ro_hears _ _ K) as H.
  pose proof (iw_dests _ (so_wf _ (tk_store _ T)) p d Hd) as W.
  destruct (dw_routes _ _ _ W t Ht) as (e0 & He0 & Hlk & Hp). rewrite Het in He0. injection He0 as <-.
  rewrite wp_on_store, wp_bind, (wp_upd_route _ _ et) by exact Het. set (et' := {| et with rd_type := rd_type e; rd_nexthop := rd_nexthop e; rd_extdata := rd_extdata e |}). set (s1 := set_route _ _ _).
  assert (topo_ok s1) as T1 by (by eapply topo_set_path).
  assert (routes s1 !! t = Some et') as Het' by (apply set_route_lookup).
  assert (only_path n t s1 d) as Ho.
  { intros y ey Hy Hey Ey. destruct (decide (y = t)) as [->|Hne]; [done|]. simpl in Hey. rewrite lookup_insert_ne in Hey by done.
    by eapply (tk_single _ T n p d y t); [..|exact Het|exact Ey|]. }
  set (msg := route_message n p t 0 external metric false).
  assert (msg_ok s1 msg t d et') as Hok.
  { split; try done; [by right| |by eapply (inbound_ok _ _ _ n); [apply T1|..]].
    intros m [= <-]. destruct H as (nb & i & Hn & _). eauto. }
  rewrite wp_bind. eapply wp_update_distance; [apply T1|apply T1|exact Hok|]. intros s2 c d2 e2 Hu. rewrite wp_ret.
  destruct (topo_updated n msg t d et' s1 s2 c d2 e2 T1 Hok Ha Hp Ho Hu) as (T2 & F & He').
  pose proof (du_rest _ _ _ _ _ _ _ _ _ Hu) as E2. apply recorded_same.
  - apply handled_store; [done|done|by eapply event_hears|]. intros q Hq. eapply event_pathed; [exact F|done|].
    destruct Hq as (dq & x & ex & Hdq & Hx & Hex & Eax). destruct (decide (x = t)) as [->|Hne].
    + exists dq, t, et'. by rewrite Het in Hex; injection Hex as <-.
    + exists dq, x, ex. split; [done|]. split; [done|]. simpl. by rewrite lookup_insert_ne.
  - eapply (loose_event p t); [exact F| |apply Hr]. intros ->. by apply (rc_loose _ _ _ Hr p d).
  - simpl. by rewrite E2.
  - unfold running. simpl. by rewrite E2.
  - eapply keeps_dest; [exact Hd|exact (du_prefixes _ _ _ _ _ _ _ _ _ Hu)|intros x Hx; right|].
    + destruct (du_queues _ _ _ _ _ _ _ _ _ Hu x Hx) as [->|]; done.
    + intros x ex Hl _ Hex. assert (x <> t) as Hne by (intros ->; by apply (Hl p d)).
      simpl. rewrite (du_routes _ _ _ _ _ _ _ _ _ Hu). simpl. by rewrite !lookup_insert_ne.
Qed.

(** A loose route gets its fields. *)
Lemma loose_route_set r e e' s : topo_ok s -> received r e s -> rd_ei e' = rd_ei e ->
  topo_ok (set_route s r e') /\ received r e' (set_route s r e') /\ (forall q, pathed n q s -> pathed n q (set_route s r e')).
Proof.
  intros T [R1 R2 R3 R4] Ei. split; [by eapply topo_set_loose|]. split.
  - split; [apply set_route_lookup|done|by rewrite Ei|by rewrite Ei].
  - intros q (dq & x & ex & Hdq & Hx & Hex & Eax). exists dq, x, ex. split; [done|]. split; [done|]. simpl. rewrite lookup_insert_ne; [done|].
    intros <-. by apply (R2 q dq).
Qed.

(** The received route becomes the neighbor's path; the destination may be new. *)
Lemma wp_record_new p r d e metric (known : bool) w :
  rx_ok n w -> prefixes (rx_store w) !! p = Some d -> received r e (rx_store w) -> only_path n r (rx_store w) d ->
  wp (on_store (upd_route r (fun d => {| d with rd_adv_router := Some n; rd_prefix := Some p |});;
                route_measure r metric;;
                inserted ← eigrp_topology_route_insert p r true;
                if negb inserted then
                  when (negb known) (eigrp_topology_prefix_free (Some p));;
                  mret false
                else
                  when (negb known) (eigrp_prefix_descriptor_add p);;
                  mret true)) (recorded r (Some p) w) w.
Proof.
  intros K Hd Hr Ho. pose proof (ro_topo _ _ K) as T. pose proof (ro_hears _ _ K) as H.
  rewrite wp_on_store, wp_bind, (wp_upd_route _ _ e) by apply Hr. set (e1 := {| e with rd_adv_router := Some n; rd_prefix := Some p |}).
  destruct (loose_route_set r e e1 (rx_store w) T Hr eq_refl) as (T1 & R1 & P1). set (s1 := set_route _ _ _) in *.
  destruct (rc_bound _ _ _ R1) as [i Hi]. destruct (rc_ei _ _ _ R1 i Hi) as [ei Hei].
  rewrite wp_bind. eapply wp_route_measure; [apply T1|apply R1|exact Hi|exact Hei|]. intros e2 (total & dist & Et & E2).
  assert (rd_adv_router e2 = Some n /\ rd_prefix e2 = Some p /\ rd_ei e2 = rd_ei e1) as (A2 & B2 & C2) by (by subst e2).
  destruct (loose_route_set r e1 e2 s1 T1 R1 C2) as (T2 & R2 & P2). clear E2 Et. set (s2 := set_route s1 r e2) in *.
  assert (only_path n r s2 d) as Ho2.
  { intros y ey Hy Hey Ey. destruct (decide (y = r)) as [->|Hne]; [done|]. simpl in Hey. rewrite !lookup_insert_ne in Hey by done. by eapply Ho. }
  rewrite wp_bind. eapply (wp_insert n p r d e2); [apply T2|apply T2|done|apply R2|apply R2| |done|done|done|].
  { apply (links_ei n); [apply R2|done|done]. }
  intros s3 I. cbn [negb]. pose proof (topo_inserted _ _ _ _ _ _ T2 I) as T3.
  assert (forall q, pathed n q (rx_store w) -> pathed n q s3) as P3.
  { intros q Hq. eapply (pathed_dest n q p d _ s2); [by rewrite (in_rest _ _ _ _ _ _ I)|done|apply I| |by apply P2, P1].
    intros x Hx. apply with_path_elem. by right. }
  assert (prefixes s3 !! p = Some (with_path s2 r e2 d)) as Hd3 by (rewrite (in_prefixes _ _ _ _ _ _ I); by rewrite lookup_insert_eq).
  assert (hears n s3) as H3 by (by eapply inserted_hears).
  assert (packetizer_queue s3 = packetizer_queue (rx_store w) /\ running s3 = running (rx_store w)) as [E3 E4].
  { unfold running. by rewrite (in_rest _ _ _ _ _ _ I). }
  assert (keeps (Some p) r (rx_store w) s3) as G3.
  { do 2 (eapply keeps_trans; [apply keeps_route|]). fold s1 s2. eapply keeps_dest; [exact Hd|apply I|intros x; by rewrite with_path_elem|].
    intros x ex _ _ Hx. by rewrite (in_rest _ _ _ _ _ _ I). }
  destruct known; cbn [negb when]; rewrite wp_bind.
  - rewrite wp_ret, wp_ret. split; [by apply handled_store|]. do 2 (split; [done|]). split; [by simpl; rewrite E4|done].
  - eapply wp_descriptor_add; [apply T3|exact Hd3|]. intros s4 A. rewrite wp_ret.
    assert (topo_ok s4) as T4.
    { eapply topo_added; [exact T3|exact Hd3| |exact A]. intros E. assert (r ∈ topology_routes (with_path s2 r e2 d)) as Hx by (apply with_path_elem; by left).
      rewrite E in Hx. by apply not_elem_of_nil in Hx. }
    destruct (ap_dest _ _ _ _ A) as [o Eo]. split; [|split; [done|]]; simpl.
    2:{ split; [by rewrite (ap_rest _ _ _ _ A)|]. split; [rewrite <-E4; unfold running; by rewrite (ap_rest _ _ _ _ A)|].
        eapply keeps_trans; [exact G3|]. eapply keeps_dest; [exact Hd3|exact Eo|intros x Hx; by right|].
        intros x ex _ _ Hx. by rewrite (added_routes _ _ _ _ A). }
    apply handled_store; [done|done| |].
    + unfold hears. by rewrite (ap_rest _ _ _ _ A).
    + intros q Hq. eapply (pathed_dest n q p); [by eapply added_routes|exact Hd3|exact Eo|done|by apply P3].
Qed.

Lemma handled_dest w d : rx_ok n w -> blank d -> handled n w {| w with rx_store := with_dest (rx_store w) d |}.
Proof.
  intros K B. apply handled_store; [done|apply topo_dest; [apply K|done]|apply K|]. intros q. apply dest_paths, K.
Qed.

(** The destination of the path: the known one, or a new one. *)
Lemma wp_record_dest r e prefix w (Q : ptr -> rx -> Prop) :
  rx_ok n w -> received r e (rx_store w) -> (forall p, prefix = Some p -> is_Some (prefixes (rx_store w) !! p)) ->
  (forall p d w', handled n w w' -> received r e (rx_store w') -> prefixes (rx_store w') !! p = Some d ->
     packetizer_queue (rx_store w') = packetizer_queue (rx_store w) -> (running (rx_store w) -> running (rx_store w')) ->
     keeps prefix r (rx_store w) (rx_store w') -> (prefix = None -> prefixes (rx_store w) !! p = None) -> (is_Some prefix -> prefix = Some p) -> Q p w') ->
  wp (match prefix with
      | Some p => mret p
      | None => on_store (p ← destination_create env r;
                          upd_prefix p (fun d => let m := reported_metric d in
                            {| d with reported_metric := {| m with delay := EIGRP_MAX_METRIC |} |});;
                          mret p)
      end) Q w.
Proof.
  intros K Hr Hp HQ. destruct prefix as [p|].
  - rewrite wp_ret. destruct (Hp p eq_refl) as [d Hd]. eapply HQ; [by apply handled_refl|done|exact Hd|done|done|by apply keeps_same|done|done].
  - rewrite wp_on_store, wp_bind. eapply wp_destination_create; [apply (tk_store _ (ro_topo _ _ K))|apply Hr|].
    set (d0 := destination_of env (rx_store w) e). rewrite wp_bind, (wp_upd_prefix _ _ d0) by (simpl; by rewrite lookup_insert_eq).
    rewrite wp_ret. unfold set_prefix, with_dest. cbn [prefixes]. rewrite insert_insert_eq.
    set (d1 := let m := reported_metric d0 in {| d0 with reported_metric := {| m with delay := EIGRP_MAX_METRIC |} |}).
    change (Q (next_addr (rx_store w)) {| w with rx_store := with_dest (rx_store w) d1 |}).
    assert (blank d1) as B by done.
    assert (prefixes (rx_store w) !! next_addr (rx_store w) = None) as Hf by (apply free_prefix_addr; [apply (ro_topo _ _ K)|done]).
    eapply HQ; [by apply handled_dest|by apply dest_received|simpl; by rewrite lookup_insert_eq|done|done| |done|by intros [? [=]]].
    intros pa ra da ea _ _ [H1 H2 H3 H4]. split; [|done|done|].
    + simpl. rewrite lookup_insert_ne; [done|congruence].
    + intros q dq. simpl. destruct (decide (q = next_addr (rx_store w))) as [->|Hne]; [|rewrite lookup_insert_ne by done; apply H4].
      rewrite lookup_insert_eq. intros [= <-]. rewrite (blank_routes _ B). apply not_elem_of_nil.
Qed.

Lemma wp_unknown_record r e prefix w :
  rx_ok n w -> received r e (rx_store w) -> (forall p, prefix = Some p -> is_Some (prefixes (rx_store w) !! p)) ->
  wp (eigrp_query_unknown_route_record env n r prefix) (recorded r prefix w) w.
Proof.
  intros K Hr Hp. unfold eigrp_query_unknown_route_record. rewrite wp_bind. eapply wp_rx_route; [apply Hr|].
  destruct (ro_hears _ _ K) as (nb & i & Hn & Hi). rewrite wp_bind, wp_on_store, wp_get_nbr, rx_store_same by exact Hn.
  destruct (_ || _); [apply wp_ret, recorded_same; [by apply handled_refl|apply Hr|done|done|by apply keeps_same]|].
  rewrite wp_bind. apply (wp_route_admit n); [done|]. intros ok w1 S1. pose proof (adj_step_handled _ _ _ K S1) as H1.
  destruct (S1) as (R & _ & _). destruct (renewed_fields _ _ R) as (F1 & F2 & _ & _ & _ & _ & F6 & F7 & F8 & _).
  assert (received r e (rx_store w1)) as Hr1 by (by eapply received_renewed).
  assert (running (rx_store w) -> running (rx_store w1)) as Hrun by (unfold running; by rewrite F7, F8).
  destruct ok; cbn [negb]; [|apply wp_ret, recorded_same; [done|apply Hr1|done|done|by apply keeps_same]].
  rewrite wp_bind. eapply wp_record_dest; [apply H1|exact Hr1|by rewrite F2|]. intros p d w2 H2 Hr2 Hd2 E2 Q2 G2 Hnew Hold.
  assert (handled n w w2) as H3 by (by eapply handled_trans).
  pose proof (ro_topo _ _ (hd_ok _ _ _ H3)) as T2. pose proof (iw_dests _ (so_wf _ (tk_store _ T2)) p d Hd2) as W.
  rewrite wp_bind, wp_on_store. apply (wp_descriptor_lookup p d); [done|by apply ok_live; eapply dest_wf_ok|]. rewrite rx_store_same.
  assert (forall b w', recorded r (Some p) w2 b w' -> recorded r prefix w b w') as Hfin.
  { intros b w' (H' & L & E' & R' & G'). split; [by eapply handled_trans|]. split; [done|]. split; [congruence|]. split; [auto|].
    intros pa ra da ea Hpa Hra Hh. assert (held pa ra da ea (rx_store w1)) as Hh1 by (eapply (keeps_same prefix r); [..|exact Hh]; done).
    apply G'; [|done|by apply G2]. intros [= ->]. destruct prefix as [q|]; [by apply Hpa, Hold|].
    rewrite (he_dest _ _ _ _ _ Hh1) in Hnew. by specialize (Hnew eq_refl). }
  destruct (List.find _ _) as [t|] eqn:Ef.
  - apply find_live_some in Ef as (Ht & et & Het & Ea). apply bool_decide_eq_true in Ea.
    eapply wp_mono; [eapply (wp_record_known p t r d e et); [apply H3|done..]|]. apply Hfin.
  - eapply wp_mono; [eapply (wp_record_new p r d e); [apply H3|done|done|by eapply find_none_only]|]. apply Hfin.
Qed.
End record.

(** ** A route TLV of a QUERY *)

(** The REPLY names objects made for it, which the store holds: the destination and route
    are what [named] says of an answer to a QUERY for [dest]. *)
Definition own_answer (env : rx_env) (dest : eigrp_prefix) (p : ptr) (route : option ptr) (s' : eigrp_instance) : Prop :=
  exists d r e, route = Some r /\ prefixes s' !! p = Some d /\ routes s' !! r = Some e /\ named env dest p d e.

(** The QUERY for [dest] is answered: a REPLY to [n] was queued, for the destination of the
    table or with an answer of its own, or the destination owes it one. *)
Definition answered (env : rx_env) (n : ptr) (dest : eigrp_prefix) (s s' : eigrp_instance) : Prop :=
  (exists p route wflags ws, packetizer_queue s' = packetizer_queue s ++ ws /\ reply_work n p route wflags ∈ ws
     /\ (table_find s dest = Some p /\ is_Some (prefixes s' !! p) \/ own_answer env dest p route s'))
  \/ exists p d', table_find s dest = Some p /\ prefixes s' !! p = Some d' /\ query_origin d' = Some n.

Section query.
Context (env : rx_env) (n : ptr).
Context (Hmetrics : metrics_convertible (re_summaries env)).
Implicit Types w : rx.

Lemma replied_queue dest s s' : topo_ok s -> replied env n dest s s' -> running s ->
  exists d e, packetizer_queue s' = packetizer_queue s ++ [answer_work n s] /\ named env dest (next_addr s) d e
    /\ held (next_addr s) (S (next_addr s)) d e s'.
Proof.
  intros T [(d & e & B & N & ->)|[Hr _]] Hrun; [|done]. exists d, e. split; [done|]. split; [done|].
  split; [by simpl; rewrite lookup_insert_eq| |done|]; simpl; [by rewrite lookup_insert_eq|].
  intros q dq. simpl. destruct (decide (q = next_addr s)) as [->|Hne].
  - rewrite lookup_insert_eq. intros [= <-]. rewrite (blank_routes _ B). apply not_elem_of_nil.
  - rewrite lookup_insert_ne by done. intros Hq Hx. pose proof (iw_dests _ (so_wf _ (tk_store _ T)) q dq Hq) as W.
    destruct (dw_routes _ _ _ W _ Hx) as (ex & Hex & _). rewrite free_route_addr in Hex; [done|done|lia].
Qed.

(** An answer made before is still there when its objects are kept. *)
Lemma answer_kept dest s0 s p r wflags ws d e : packetizer_queue s = packetizer_queue s0 ++ ws ->
  reply_work n p (Some r) wflags ∈ ws -> named env dest p d e -> held p r d e s -> answered env n dest s0 s.
Proof.
  intros E Hw N [H1 H2 _ _]. left. exists p, (Some r), wflags, ws. split; [done|]. split; [done|]. right. by exists d, r, e.
Qed.

Lemma handled_replied dest w s' : rx_ok n w -> replied env n dest (rx_store w) s' -> handled n w {| w with rx_store := s' |}.
Proof.
  intros K R. pose proof (ro_topo _ _ K) as T. apply handled_store; [done|by eapply replied_topo| |].
  - destruct (replied_fields _ _ _ _ _ R) as (_ & _ & E & _). unfold hears. rewrite E. apply K.
  - intros q. by eapply replied_paths.
Qed.

(** What is left of a TLV when its route is dropped if [b] says so. *)
Lemma wp_drop_answered (b : bool) r dest w0 w : handled n w0 w -> (b = true -> loose r (rx_store w)) ->
  (running (rx_store w0) -> answered env n dest (rx_store w0) (if b then {| (rx_store w) with routes := delete r (routes (rx_store w)) |} else rx_store w)) ->
  wp (when b (on_store (free_route r)))
     (fun _ w' => handled n w0 w' /\ (running (rx_store w0) -> answered env n dest (rx_store w0) (rx_store w'))) w.
Proof.
  intros H L A. destruct b; [|by apply wp_ret]. unfold when. rewrite wp_on_store. unfold free_route. rewrite wp_modify. split; [|exact A].
  eapply handled_trans; [exact H|]. apply handled_store; [apply H|apply topo_free_loose; [apply H|by apply L]|apply H|].
  intros q. apply pathed_free. by apply L.
Qed.

(** The REPLY and the record for a destination of which nothing is known. *)
Lemma wp_query_unknown r e prefix w0 w :
  handled n w0 w -> packetizer_queue (rx_store w) = packetizer_queue (rx_store w0) ->
  (running (rx_store w0) -> running (rx_store w)) -> received r e (rx_store w) ->
  (forall p, prefix = Some p -> is_Some (prefixes (rx_store w) !! p)) ->
  wp (on_store (eigrp_query_unknown_reply_send n r);;
      stored ← eigrp_query_unknown_route_record env n r prefix;
      when (negb stored) (on_store (free_route r)))
     (fun _ w' => handled n w0 w' /\ (running (rx_store w0) -> answered env n (rd_dest e) (rx_store w0) (rx_store w'))) w.
Proof.
  intros H0 E0 Q0 Hr Hp. pose proof (hd_ok _ _ _ H0) as K. pose proof (ro_topo _ _ K) as T. rewrite wp_bind, wp_on_store.
  eapply (wp_unknown_reply env n (rd_dest e)); [apply K|apply K|exact Hr|done|]. intros s1 R1. pose proof (handled_replied _ w s1 K R1) as H1.
  set (w1 := {| w with rx_store := s1 |}) in *. rewrite wp_bind.
  assert (forall p, prefix = Some p -> is_Some (prefixes s1 !! p)) as Hp1.
  { intros p Ep. destruct (Hp p Ep) as [d Hd]. exists d. by eapply replied_prefix; [apply K|..]. }
  eapply wp_mono; [eapply wp_unknown_record; [apply H1|eapply replied_received; [apply K|exact R1|exact Hr]|exact Hp1]|].
  intros stored w2 (H2 & L2 & E2 & _ & G2). apply wp_drop_answered.
  - by do 2 (eapply handled_trans; [eassumption|]).
  - destruct stored; [done|]. intros _. by apply L2.
  - intros Hrun. destruct (replied_queue _ _ _ T R1 (Q0 Hrun)) as (d & x & Ew & N & Hh).
    assert (S (next_addr (rx_store w)) <> r) as Hne.
    { intros <-. pose proof (rc_desc _ _ _ Hr) as Hx. rewrite free_route_addr in Hx; [done|done|lia]. }
    assert (held (next_addr (rx_store w)) (S (next_addr (rx_store w))) d x (rx_store w2)) as Hh2.
    { apply G2; [|done|exact Hh]. intros Ep. destruct (Hp _ Ep) as [dp Hdp]. by rewrite free_prefix_addr in Hdp. }
    eapply answer_kept; [| |exact N|].
    + rewrite <-E0. destruct stored; cbn [negb packetizer_queue]; rewrite E2; exact Ew.
    + by apply list_elem_of_singleton.
    + destruct stored; cbn [negb]; [done|]. by apply (keeps_free None r).
Qed.

Lemma wp_query_tlv r e w :
  rx_ok n w -> received r e (rx_store w) ->
  wp (query_tlv env n r)
     (fun _ w' => handled n w w' /\ (running (rx_store w) -> answered env n (rd_dest e) (rx_store w) (rx_store w'))) w.
Proof.
  intros K Hr. unfold query_tlv. rewrite wp_bind, wp_on_store. pose proof (ro_topo _ _ K) as T.
  apply (wp_summary_answer env n (rd_dest e) Hmetrics r e); [done|destruct (ro_hears _ _ K) as (nb & i & Hn & _); eauto|done|done| |].
  - intros s1 R1. rewrite wp_ret. split.
    + pose proof (handled_replied _ w s1 K R1) as H1. eapply handled_trans; [exact H1|].
      apply (handled_store n {| w with rx_store := s1 |}); [apply H1| |apply H1|].
      * apply topo_free_loose; [apply H1|eapply replied_loose; [done|exact R1|apply Hr]].
      * intros q. apply pathed_free. eapply replied_loose; [done|exact R1|apply Hr].
    + intros Hrun. destruct (replied_queue _ _ _ T R1 Hrun) as (d & x & Ew & N & Hh).
      eapply answer_kept; [exact Ew|by apply list_elem_of_singleton|exact N|]. apply (keeps_free None r); [done| |exact Hh].
      intros <-. pose proof (rc_desc _ _ _ Hr) as Hx. rewrite free_route_addr in Hx; [done|done|lia].
  - match goal with |- wp _ _ ?x => set (w1 := x) end.
    assert (handled n w w1) as H1 by (apply handled_store; [done|apply topo_next; [done|lia]|apply K|done]).
    assert (received r e (rx_store w1)) as Hr1 by (destruct Hr as [R1 R2 R3 R4]; by split).
    assert (in_table (rx_store w1) = in_table (rx_store w)) as Et by done.
    rewrite wp_bind. eapply wp_rx_route; [apply Hr1|]. rewrite wp_bind. apply (wp_find n); [apply H1|]. intros o Eo Ho.
    destruct o as [p|].
    + destruct (Ho p eq_refl) as [Ht [d Hd]]. rewrite !wp_bind, wp_on_store, wp_bind, wp_get_prefix by exact Hd. rewrite wp_ret, rx_store_same.
      destruct (unknown_destination d); cbn [negb].
      * apply wp_query_unknown; [done|done|done|done|]. intros q [= <-]. eauto.
      * rewrite wp_bind. eapply wp_route_event; [apply H1|done|exact Hr1|]. intros drop w2 D.
        apply wp_drop_answered; [eapply handled_trans; [done|by eapply delivered_handled]|apply D|]. intros Hrun.
        destruct D as (_ & D & _). pose proof (ed_alive _ _ _ _ _ D p ltac:(eauto)) as Hlive. destruct (ed_work _ _ _ _ _ D) as (ws & Ew & Hw).
        destruct (Hw eq_refl Hrun) as [(route & wf & Hrep)|(d' & Hd' & Hq)].
        -- left. exists p, route, wf, ws. split; [by destruct drop|]. split; [done|]. left. split; [by rewrite Eo|by destruct drop].
        -- right. exists p, d'. split; [by rewrite Eo|]. by destruct drop.
    + rewrite wp_bind, wp_on_store, wp_ret, rx_store_same. by apply wp_query_unknown.
Qed.

Context (Henv : tlv2_ok (re_codec env)).

(** The receive function of QUERY packets; a packet that is cut off is not
    acknowledged. *)
Lemma wp_query_receive h w :
  rx_ok n w -> wp (eigrp_query_receive env n h)
    (fun _ w' => rx_ok n w' /\ (rx_acks w' = rx_acks w \/ exists sequence, rx_acks w' = (n, sequence) :: rx_acks w)) w.
Proof.
  intros K. unfold eigrp_query_receive. rewrite wp_bind. apply wp_recv_sequence; [done|]. intros w1 S1.
  pose proof (adj_step_handled _ _ _ K S1) as H1. rewrite wp_bind. apply wp_walk_fuel. intros fuel Hf.
  rewrite wp_bind. eapply (wp_tlv_walk env n Henv (fun x => rx_acks x = rx_acks w)); [| |apply test_unlimited|apply H1| |done|].
  - intros x x' Ex _ (_ & E & _). by rewrite E.
  - intros r e x Kx Ex Hr _. eapply wp_mono; [by eapply wp_query_tlv|]. intros [] x' [H _]. split; [apply H|].
    split; [by rewrite (hd_rest _ _ _ H)|by eapply handled_pkt].
  - by rewrite (hd_rest _ _ _ H1).
  - intros b w2 K2 E2. destruct b; cbn [negb]; [|apply wp_ret; split; [done|by left]].
    rewrite wp_bind. apply wp_ack_send; [done|]. intros sequence. set (w3 := {| w2 with rx_acks := _ |}).
    assert (rx_ok n w3) as K3 by (by apply handled_ack).
    destruct (ro_hears _ _ K3) as (nb & i & Hn & _).
    rewrite wp_on_store, wp_bind. apply wp_query_send_all; [apply K3|]. intros c ws. rewrite wp_bind, (wp_get_nbr n nb) by exact Hn.
    apply wp_send_all; [apply store_ok_queue, K3|]. intros ws'. split; [apply (handled_queue n w3), K3|].
    right. exists sequence. simpl. by rewrite E2.
Qed.
End query.
