(* ===== verification/ReceiveUpdate.v ===== *)
(** * Reception of UPDATE packets

    Known destinations get the event of the neighbor's path, new ones are learned with
    their first path; the lists of destinations due for reconciliation hold destinations
    to which the neighbor has a path. *)

From Stdlib Require Import ZArith Lia.
From stdpp Require Import base gmap list sorting strings.
From S2P Require Import Prelude Types Metric Prefix Stream AfVectors Tlv1 Tlv1Props Tlv2 Tlv2Props Rtt Filter Auth Timers Neighbor NeighborProps Limits LimitsProps AfLimits HelloProps Dispatch AdjacencyProps State Topology Fsm Store Marking Frame Handlers Invariant Distance Dual DualProps Completion Table Events NeighborDown NeighborDownProps Paths Summary SummaryProps Receive ReceiveProps ReceiveWalk Answers Learning ReceiveQuery.

(** ** A new destination *)

Section new.
Context (env : rx_env) (n : ptr).
Implicit Types s : eigrp_instance.

(** The destination and the path as they enter the table. *)
Definition first_dest s (e : eigrp_route_descriptor) (dist : Z) : eigrp_prefix_descriptor :=
  let d := destination_of env s e in
  {| d with fdistance := dist; distance := dist; rdistance := dist |}.
Definition first_path (p : ptr) (e : eigrp_route_descriptor) : eigrp_route_descriptor :=
  {| e with rd_adv_router := Some n; rd_prefix := Some p; rd_flags := EIGRP_ROUTE_DESCRIPTOR_SUCCESSOR_FLAG |}.

(** The store in which the new path is entered: [s] with the new objects. *)
Record staged (r : ptr) (e : eigrp_route_descriptor) (metric : eigrp_metrics) s (e1 : eigrp_route_descriptor) s1 : Prop := {
  sg_topo : topo_ok s1;
  sg_measured : exists i ei, rd_ei e = Some i /\ intfs s !! i = Some ei /\ measured (params s) ei metric e e1;
  sg_route : received r (first_path (next_addr s) e1) s1;
  sg_dest : prefixes s1 = <[next_addr s := first_dest s e (rd_distance e1)]> (prefixes s);
  sg_paths : forall q, pathed n q s -> pathed n q s1;
  sg_rest : s1 = {| s with routes := routes s1; prefixes := prefixes s1; next_addr := next_addr s1 |};
}.

Lemma loose_same r s s' : prefixes s' = prefixes s -> loose r s -> loose r s'.
Proof. intros E L p d. rewrite E. apply L. Qed.

Lemma wp_destination_learn r e metric s (Q : unit -> eigrp_instance -> Prop) :
  topo_ok s -> hears n s -> received r e s ->
  (forall e1 s1 s', staged r e metric s e1 s1 ->
     learned n (next_addr s) r (first_dest s e (rd_distance e1)) (first_path (next_addr s) e1) s1 s' -> Q tt s') ->
  wp (destination_learn env n r metric) Q s.
Proof.
  intros K H Hr HQ. unfold destination_learn. rewrite wp_bind. eapply wp_destination_create; [apply K|apply Hr|].
  set (p := next_addr s). set (d0 := destination_of env s e). assert (blank d0) as B by done.
  pose proof (topo_dest s d0 K B) as K0. pose proof (dest_received r e s d0 B Hr) as Hr0. set (s0 := with_dest s d0) in *.
  rewrite wp_bind, (wp_upd_route _ _ e) by apply Hr0. set (e1 := {| e with rd_adv_router := Some n |}).
  destruct (loose_route_set n r e e1 s0 K0 Hr0 eq_refl) as (K1 & R1 & P1). set (s1 := set_route s0 r e1) in *.
  destruct (rc_bound _ _ _ Hr) as [i Hi]. destruct (rc_ei _ _ _ Hr i Hi) as [ei Hei].
  rewrite wp_bind. eapply (wp_route_measure r metric e1 i ei); [apply K1|apply R1|done|done|]. intros e2 Hm.
  assert (rd_ei e2 = rd_ei e1) as C2 by (by destruct Hm as (? & ? & _ & ->)).
  destruct (loose_route_set n r e1 e2 s1 K1 R1 C2) as (K2 & R2 & P2). set (s2 := set_route s1 r e2) in *.
  rewrite wp_bind, wp_get_route by apply R2.
  assert (prefixes s2 !! p = Some d0) as Hd2 by (simpl; by rewrite lookup_insert_eq).
  rewrite wp_bind, (wp_upd_prefix _ _ d0) by exact Hd2. set (d1 := first_dest s e (rd_distance e2)).
  change {| d0 with fdistance := rd_distance e2; distance := rd_distance e2; rdistance := rd_distance e2 |} with d1.
  assert (topo_ok (set_prefix s2 p d1)) as K3 by (eapply topo_set_dest; [done|exact Hd2|done|by apply blank_wf]).
  set (s3 := set_prefix s2 p d1) in *.
  assert (received r e2 s3) as R3.
  { destruct R2 as [X1 X2 X3 X4]. split; [done| |done|done]. intros q dq. simpl. destruct (decide (q = p)) as [->|Hne].
    - rewrite lookup_insert_eq. intros [= <-]. apply not_elem_of_nil.
    - rewrite lookup_insert_ne by done. apply X2. }
  rewrite wp_bind, (wp_upd_route _ _ e2) by apply R3.
  destruct (loose_route_set n r e2 {| e2 with rd_prefix := Some p; rd_flags := EIGRP_ROUTE_DESCRIPTOR_SUCCESSOR_FLAG |} s3 K3 R3 eq_refl) as (K4 & R4 & P4).
  set (e3 := {| e2 with rd_prefix := Some p; rd_flags := EIGRP_ROUTE_DESCRIPTOR_SUCCESSOR_FLAG |}) in *. set (s4 := set_route s3 r e3) in *.
  eapply (wp_learn n p r d1 e3 s4); [done|done|simpl; by rewrite lookup_insert_eq|done|done| |done|].
  { simpl. destruct Hm as (? & ? & _ & ->). done. }
  intros s' L. destruct Hm as (total & dist & Et & E2).
  set (e2' := {| e with rd_reported_metric := metric; rd_reported_distance := u32 (eigrp_metric_calculate (params s) metric);
                 rd_total_metric := total; rd_distance := u32 dist |}).
  assert (e3 = first_path p e2') as E3 by (unfold e3; rewrite E2; done).
  assert (d1 = first_dest s e (rd_distance e2')) as E1 by (unfold d1; rewrite E2; done).
  rewrite E3, E1 in L. apply (HQ e2' s4 s'); [|exact L]. split; [done| | | | |done].
  - exists i, ei. split; [done|]. split; [done|]. by exists total, dist.
  - rewrite E3 in R4. exact R4.
  - unfold s4, s3, s2, s1, s0, with_dest. cbn [prefixes set_route set_prefix]. rewrite insert_insert_eq. by rewrite E1.
  - intros q Hq. apply P4. eapply (pathed_dest n q p d0 d1 s2); [done|done|done|done|]. apply P2, P1. by apply dest_paths.
Qed.

Lemma learned_hears p r d e s s' : learned n p r d e s s' -> hears n s -> hears n s'.
Proof.
  intros L (nb & i & Hn & Hi). destruct (nbrs_keep_ei s s' n nb (ld_nbrs _ _ _ _ _ _ _ L) Hn) as (nb' & Hn' & E).
  exists nb', i. split; [done|congruence].
Qed.

Lemma wp_learn_handled r e metric w :
  rx_ok n w -> received r e (rx_store w) -> wp (on_store (destination_learn env n r metric)) (fun _ w' => handled n w w') w.
Proof.
  intros K Hr. rewrite wp_on_store. eapply wp_destination_learn; [apply K|apply K|exact Hr|]. intros e1 s1 s' G L.
  apply handled_store; [done|apply L| |].
  - eapply learned_hears; [exact L|]. unfold hears. rewrite (sg_rest _ _ _ _ _ _ G). apply K.
  - intros q Hq. apply L. by apply G.
Qed.

Lemma wp_unreachable metric (Q : bool -> rx -> Prop) w :
  (forall b, b = (eigrp_metric_calculate (params (rx_store w)) metric =? EIGRP_MAX_METRIC) -> Q b w) -> wp (on_store (unreachable metric)) Q w.
Proof. intros HQ. rewrite wp_on_store. unfold unreachable. rewrite wp_bind, wp_gets, wp_ret, rx_store_same. by apply HQ. Qed.

Lemma wp_update_new r e w : rx_ok n w -> received r e (rx_store w) -> wp (update_new env n r) (fun _ w' => handled n w w') w.
Proof.
  intros K Hr. unfold update_new. rewrite wp_bind. eapply wp_rx_route; [apply Hr|]. rewrite wp_bind. apply wp_unreachable. intros b _.
  destruct b; [apply wp_rx_drop; [done|apply Hr]|]. cbv zeta. rewrite wp_bind. apply (wp_route_admit n); [done|]. intros ok w1 S1.
  pose proof (adj_step_handled _ _ _ K S1) as H1. assert (received r e (rx_store w1)) as Hr1 by (eapply received_renewed; [apply S1|done]).
  destruct ok; cbn [negb].
  - eapply wp_mono; [eapply wp_learn_handled; [apply H1|exact Hr1]|]. intros [] w2 H2. by eapply handled_trans.
  - eapply wp_mono; [apply wp_rx_drop; [apply H1|apply Hr1]|]. intros [] w2 H2. by eapply handled_trans.
Qed.

(** ** A known destination *)

(** The path takes the received data, and DUAL the event; a received route that is not
    stored is dropped. *)
Lemma wp_adopted_event p r e metric external w :
  rx_ok n w -> in_table (rx_store w) p -> received r e (rx_store w) ->
  wp ('(path, owned) ← on_store (path_adopt n p r);
      infinite ← on_store (unreachable metric);
      let transient := negb owned && infinite in
      msg ← on_store (eigrp_fsm_event (route_message n p path EIGRP_OPC_UPDATE external metric transient));
      when (owned || transient_route msg) (on_store (free_route r))) (fun _ w' => handled n w w') w.
Proof.
  intros K HT Hr. destruct (K) as [T H Kw Kp Kg]. destruct (HT) as (t & nd & Ht1 & Ht2 & Ht3).
  destruct (tw_info _ (so_table _ (tk_store _ T)) t nd p) as [d Hd]; [done|done|].
  rewrite wp_bind, wp_on_store. eapply wp_path_adopt; [done|done|exact Hd|exact Hr|].
  intros path owned e' s1 E1 T1 Ha Hp Hlk Ho Hown. set (w1 := {| w with rx_store := s1 |}).
  assert (loose r s1) as L1 by (subst s1; apply Hr).
  assert (prefixes s1 !! p = Some d) as Hd1 by (by subst s1).
  assert (routes s1 !! path = Some e') as Hpath by (subst s1; simpl; by rewrite lookup_insert_eq).
  assert (hears n s1) as H1 by (by subst s1). assert (in_table s1 p) as HT1 by (by subst s1).
  assert (handled n w w1) as Hw1.
  { apply handled_store; [done|done|done|]. intros q (dq & x & ex & Hq & Hx & Hex & Eax). destruct (decide (x = path)) as [->|Hne].
    - exists dq, path, e'. by subst s1.
    - exists dq, x, ex. subst s1. simpl. by rewrite lookup_insert_ne. }
  rewrite wp_bind. apply wp_unreachable. intros infinite _. cbv zeta. rewrite wp_bind, wp_on_store.
  assert (forall s', topo_ok s' -> event_done n p EIGRP_OPC_UPDATE s1 s' -> handled n w {| w1 with rx_store := s' |}) as Hfin.
  { intros s' T' D'. eapply handled_trans; [exact Hw1|]. apply handled_store; [apply Hw1|done|apply D'|apply D']. }
  destruct (negb owned && infinite) eqn:Et.
  - apply andb_true_iff in Et as [Eo _]. apply negb_true_iff in Eo. subst owned. subst path.
    eapply (wp_refused_message n p r); [done|done|done|exact Hd1|exact Hpath|done|done|done|].
    intros m s' e2 Em T' F D L _. rewrite Em, orb_true_r. apply wp_drop_if; [by apply Hfin|done].
  - eapply (wp_path_message n p path); [done|done|exact Hd1|exact Hpath|done|done|done|done|].
    intros m s' Em T' F D. rewrite Em, orb_false_r. apply wp_drop_if; [by apply Hfin|]. intros ->.
    by eapply loose_event.
Qed.
End new.


(** ** The lists of a reconciliation *)

(** The neighbor has a path to every destination of its list and of the packet's. *)
Record lists_ok (n : ptr) (w : rx) : Prop := {
  lo_resync : forall d l q, ad_nbrs (rx_adj w) !! n = Some d -> nb_peer_init_resync_prefixes d = Some l -> q ∈ l -> pathed n q (rx_store w);
  lo_gr : forall l q, rx_gr w = Some l -> q ∈ l -> pathed n q (rx_store w);
}.

(** A step on the lists: the invariants, and the store up to fields of neighbors. *)
Record noted (n : ptr) (w w' : rx) : Prop := {
  nt_ok : rx_ok n w';
  nt_lists : lists_ok n w';
  nt_pkt : rx_pkt w' = rx_pkt w;
  nt_store : renewed (rx_store w) (rx_store w');
}.

Section lists.
Context (n : ptr).
Implicit Types w : rx.

Lemma pathed_renewed q s s' : renewed s s' -> pathed n q s -> pathed n q s'.
Proof.
  intros R (d & x & e & Hd & Hx & He & Ha). destruct (renewed_fields _ _ R) as (E1 & E2 & _). exists d, x, e. by rewrite E1, E2.
Qed.

Lemma lists_handled w w' : handled n w w' -> lists_ok n w -> lists_ok n w'.
Proof.
  intros [K E P L] [L1 L2]. split.
  - intros d' l q Hd' Hl Hq. destruct (L n d' Hd') as (d & Hd & [El|El]); [congruence|]. apply P. apply (L1 d l q Hd); [by rewrite <-El|done].
  - intros l q Hl Hq. apply P. apply (L2 l q); [|done]. by rewrite E in Hl.
Qed.

Lemma lists_decode w w' : lists_ok n w -> rx_ok n w' -> topo_ok (rx_store w) -> decode_step w w' -> lists_ok n w'.
Proof.
  intros [L1 L2] _ K (Hs & E & _).
  assert (forall q, pathed n q (rx_store w) -> pathed n q (rx_store w')) as P.
  { intros q Hq. destruct Hs as [->|[e ->]]; [done|]. destruct Hq as (d & x & ex & Hd & Hx & He & Ha). exists d, x, ex.
    split; [done|]. split; [done|]. simpl. rewrite lookup_insert_ne; [done|]. intros <-. by rewrite free_route_addr in He. }
  split; [intros d l q Hd Hl Hq|intros l q Hl Hq]; apply P; rewrite E in *; simpl in *; eauto.
Qed.

Lemma noted_refl w : rx_ok n w -> lists_ok n w -> noted n w w.
Proof. intros K L. split; [done|done|done|apply renewed_refl]. Qed.
Lemma noted_trans w1 w2 w3 : noted n w1 w2 -> noted n w2 w3 -> noted n w1 w3.
Proof. intros [K1 L1 P1 R1] [K2 L2 P2 R2]. split; [done|done|congruence|by eapply renewed_trans]. Qed.
Lemma noted_adj w w' : rx_ok n w -> lists_ok n w -> adj_step n w w' -> noted n w w'.
Proof.
  intros K L S. pose proof (adj_step_handled _ _ _ K S) as H. split; [apply H|by eapply lists_handled|by eapply handled_pkt|apply S].
Qed.

(** The neighbor's list is set to [l']. *)
Lemma wp_list_set f d w (Q : unit -> rx -> Prop) :
  rx_ok n w -> lists_ok n w -> ad_nbrs (rx_adj w) !! n = Some d -> core (f d) = core d ->
  (forall l q, nb_peer_init_resync_prefixes (f d) = Some l -> q ∈ l -> pathed n q (rx_store w)) ->
  (forall w', noted n w w' -> ad_nbrs (rx_adj w') !! n = Some (f d) -> w' = {| w with rx_store := rx_store w'; rx_adj := rx_adj w' |} -> Q tt w') ->
  wp (on_adj (Neighbor.upd_nbr n f)) Q w.
Proof.
  intros [T H Kw Kp Kg] [L1 L2] Hd Hf Hl HQ. rewrite wp_on_adj. eapply ok_note_working; [exact Kw|exact Hd|done|]. intros a Ka _ Ha.
  pose proof (renew_renewed a (rx_store w)) as R. apply HQ; [|done|done].
  split; [split; [by eapply renewed_topo|by eapply renewed_hears|done|done|done]| |done|done].
  split; simpl.
  - intros d' l q Hd' El Hq. rewrite Ha in Hd'. injection Hd' as <-. eapply pathed_renewed; [exact R|by eapply Hl].
  - intros l q El Hq. eapply pathed_renewed; [exact R|by eapply L2].
Qed.

Lemma elem_of_without p q l : q ∈ without p l -> q ∈ l.
Proof. unfold without. by intros [_ ?]%list_elem_of_filter. Qed.

Lemma wp_gr_remove aliased p w (Q : unit -> rx -> Prop) :
  rx_ok n w -> lists_ok n w -> (forall w', noted n w w' -> Q tt w') -> wp (remove_received_prefix_gr aliased n p) Q w.
Proof.
  intros K L HQ. unfold remove_received_prefix_gr. rewrite wp_bind, wp_modify. set (w1 := {| w with rx_gr := without p <$> rx_gr w |}).
  assert (noted n w w1) as N1.
  { destruct K as [T H Kw Kp Kg], L as [L1 L2]. split; [by split| |done|apply renewed_refl]. split; [done|]. simpl. intros l q Hl Hq.
    destruct (rx_gr w) as [l0|]; [|done]. injection Hl as <-. apply (L2 l0 q eq_refl). by eapply elem_of_without. }
  destruct aliased; [|by apply wp_ret, HQ]. unfold when. apply (wp_adj_note n); [apply N1|done|by intros ?; right|].
  intros w2 S2. apply HQ. eapply noted_trans; [exact N1|]. apply noted_adj; [apply N1|apply N1|done].
Qed.

Lemma wp_resync_remove p w (Q : unit -> rx -> Prop) :
  rx_ok n w -> lists_ok n w -> (forall w', noted n w w' -> Q tt w') -> wp (resync_remove n p) Q w.
Proof.
  intros K L HQ. unfold resync_remove. destruct (wk_nbr _ _ (ro_work _ _ K)) as (dn & Hdn & _). rewrite wp_bind. eapply wp_rx_nbr; [exact Hdn|].
  destruct (nb_peer_init_resync_pending dn); [|by apply wp_ret, HQ, noted_refl]. unfold when.
  eapply wp_list_set; [done|done|exact Hdn|done| |by intros w' N _ _; apply HQ]. simpl. intros l q Hl Hq.
  destruct (nb_peer_init_resync_prefixes dn) as [l0|] eqn:E; [|done]. injection Hl as <-. apply (lo_resync _ _ L dn l0 q Hdn E).
  eapply elem_of_sublist; [exact Hq|apply remove_first_sublist].
Qed.
End lists.

(** ** The route TLVs of an UPDATE *)

Section update.
Context (env : rx_env) (n : ptr).
Implicit Types w : rx.

(** What a body leaves. *)
Definition updated_ok (w w' : rx) : Prop := rx_ok n w' /\ lists_ok n w' /\ rx_pkt w' = rx_pkt w.

Lemma handled_updated w0 w w' : noted n w0 w -> handled n w w' -> updated_ok w0 w'.
Proof.
  intros N H. split; [apply H|]. split; [eapply lists_handled; [exact H|apply N]|]. rewrite (handled_pkt _ _ _ H). apply N.
Qed.

Lemma wp_update_known graceful aliased p r e w :
  rx_ok n w -> lists_ok n w -> in_table (rx_store w) p -> received r e (rx_store w) ->
  wp (update_known env graceful aliased n p r) (fun _ w' => updated_ok w w') w.
Proof.
  intros K L HT Hr. unfold update_known. rewrite wp_bind. eapply wp_rx_route; [apply Hr|]. rewrite wp_bind.
  eapply (wp_mono _ (fun _ w' => noted n w w')).
  { destruct graceful; [|by apply wp_ret, noted_refl]. by apply wp_gr_remove. }
  intros [] w1 N1. rewrite wp_bind. apply wp_resync_remove; [apply N1|apply N1|]. intros w2 N2.
  pose proof (noted_trans _ _ _ _ N1 N2) as N. clear w1 N1 N2. destruct (N) as [K2 L2 _ R2].
  pose proof (received_renewed _ _ _ _ R2 Hr) as Hr2. pose proof (renewed_in_table _ _ _ R2 HT) as HT2.
  destruct (HT2) as (t & nd & Ht1 & Ht2 & Ht3). destruct (tw_info _ (so_table _ (tk_store _ (ro_topo _ _ K2))) t nd p) as [d Hd]; [done|done|].
  pose proof (iw_dests _ (so_wf _ (tk_store _ (ro_topo _ _ K2))) p d Hd) as W.
  rewrite wp_bind, wp_on_store. apply (wp_descriptor_lookup p d); [done|by apply ok_live; eapply dest_wf_ok|]. rewrite rx_store_same. cbv zeta.
  rewrite wp_bind. apply wp_unreachable. intros infinite _.
  destruct (negb _ && infinite).
  { eapply wp_mono; [apply wp_rx_drop; [done|apply Hr2]|]. intros [] w' H. by eapply handled_updated. }
  rewrite wp_bind. eapply (wp_mono _ (fun _ w' => adj_step n w2 w')).
  { destruct infinite; [apply wp_ret, adj_step_refl, K2|]. destruct (List.find _ _); [by apply (wp_topology_admit n)|by apply (wp_route_admit n)]. }
  intros ok w3 S3. pose proof (adj_step_handled _ _ _ K2 S3) as H3.
  assert (received r e (rx_store w3)) as Hr3 by (eapply received_renewed; [apply S3|done]).
  destruct ok; cbn [negb].
  - eapply wp_mono; [eapply wp_adopted_event; [apply H3|eapply renewed_in_table; [apply S3|done]|exact Hr3]|].
    intros [] w' H. eapply handled_updated; [exact N|by eapply handled_trans].
  - eapply wp_mono; [apply wp_rx_drop; [apply H3|apply Hr3]|]. intros [] w' H. eapply handled_updated; [exact N|by eapply handled_trans].
Qed.

Lemma wp_update_tlv graceful aliased r e w :
  rx_ok n w -> lists_ok n w -> received r e (rx_store w) -> wp (update_tlv env graceful aliased n r) (fun _ w' => updated_ok w w') w.
Proof.
  intros K L Hr. unfold update_tlv. rewrite wp_bind. eapply wp_rx_route; [apply Hr|]. rewrite wp_bind. apply (wp_find n); [done|].
  intros o _ Ho. destruct o as [p|].
  - destruct (Ho p eq_refl) as [Ht _]. by eapply wp_update_known.
  - eapply wp_mono; [by eapply wp_update_new|]. intros [] w' H. eapply handled_updated; [by apply noted_refl|done].
Qed.
End update.

(** ** Reconciliation *)

(** The store after events of paths of [n]. *)
Record kept (n : ptr) (s s' : eigrp_instance) : Prop := {
  kp_topo : topo_ok s';
  kp_hears : hears n s';
  kp_paths : forall q, pathed n q s -> pathed n q s';
}.

Section reconcile.
Context (n : ptr).
Implicit Types s : eigrp_instance.

Lemma kept_refl s : topo_ok s -> hears n s -> kept n s s.
Proof. by split. Qed.
Lemma kept_trans s1 s2 s3 : kept n s1 s2 -> kept n s2 s3 -> kept n s1 s3.
Proof. intros [A1 A2 A3] [B1 B2 B3]. split; auto. Qed.

Lemma kept_handled w s' : rx_ok n w -> kept n (rx_store w) s' -> handled n w {| w with rx_store := s' |}.
Proof. intros K [A1 A2 A3]. by apply handled_store. Qed.

(** The withdrawal of a destination the peer did not advertise again. *)
Lemma wp_ask_one p s :
  topo_ok s -> hears n s -> pathed n p s ->
  wp (prefix ← get_prefix p;
      route ← eigrp_prefix_descriptor_lookup p (Some n);
      _ ← eigrp_fsm_event (gr_ask_message n p route prefix);
      mret tt) (fun _ s' => kept n s s') s.
Proof.
  intros T H (d & x & e & Hd & Hx & He & Ha). pose proof (iw_dests _ (so_wf _ (tk_store _ T)) p d Hd) as W.
  rewrite wp_bind, wp_get_prefix by exact Hd. rewrite wp_bind.
  apply (wp_descriptor_lookup p d); [done|by apply ok_live; eapply dest_wf_ok|]. destruct (List.find _ _) as [t|] eqn:Ef.
  2:{ exfalso. apply find_none_forall in Ef. rewrite Forall_forall in Ef. specialize (Ef x Hx). unfold on_route in Ef. rewrite He in Ef.
      unfold opt_ptr_eqb in Ef. by apply bool_decide_eq_false in Ef. }
  apply find_live_some in Ef as (Ht & et & Het & Ea). apply bool_decide_eq_true in Ea.
  destruct (dw_routes _ _ _ W t Ht) as (e0 & He0 & Hlk & Hp). rewrite Het in He0. injection He0 as <-.
  set (msg := gr_ask_message n p (Some t) d).
  assert (msg_ok s msg t d et) as Hok.
  { split; try done; [by right|]. intros m [= <-]. destruct H as (nb & i & Hn & _). eauto. }
  rewrite wp_bind. eapply (wp_path_event msg p n t d et); [done|done|exact Hok|done|done| |].
  - intros y ey Hy Hey Ey. by eapply (tk_single _ T n p d y t); [..|exact Het|exact Ey|].
  - intros m s' c d1 e1 d' ws _ T' F Hd' _ Hn' _. rewrite wp_ret. split; [done|by eapply event_hears|]. intros q. by eapply event_pathed.
Qed.

Lemma wp_ask l s (Q : unit -> eigrp_instance -> Prop) :
  topo_ok s -> hears n s -> (forall q, q ∈ l -> pathed n q s) -> (forall s', kept n s s' -> Q tt s') ->
  wp (eigrp_update_receive_GR_ask n l) Q s.
Proof.
  unfold eigrp_update_receive_GR_ask. revert s. induction l as [|p l IH]; intros s T H Hl HQ; cbn [mfor].
  - apply wp_ret, HQ. by apply kept_refl.
  - rewrite wp_bind. eapply wp_mono; [apply wp_ask_one; [done|done|apply Hl; by left]|]. intros [] s1 K1.
    apply IH; [apply K1|apply K1|intros q Hq; apply K1, Hl; by right|]. intros s' K'. apply HQ. by eapply kept_trans.
Qed.

(** The destinations to which the neighbor has a path. *)
Lemma wp_nbr_prefixes nodes s (Q : list ptr -> eigrp_instance -> Prop) :
  store_ok s -> (forall t, t ∈ nodes -> t ∈ topology_table s) ->
  (forall l, (forall q, q ∈ l -> pathed n q s) -> Q l s) -> wp (nbr_prefixes n nodes) Q s.
Proof.
  intros O. revert Q. induction nodes as [|t nodes IH]; intros Q Hl HQ; cbn [nbr_prefixes].
  { apply wp_ret, HQ. by intros q ?%not_elem_of_nil. }
  assert (forall x, x ∈ nodes -> x ∈ topology_table s) as Hl' by (intros x Hx; apply Hl; by right).
  destruct (tw_live _ (so_table _ O) t) as [nd Hnd]; [apply Hl; by left|]. rewrite wp_bind, wp_get_tnode by exact Hnd.
  destruct (tn_info nd) as [p|] eqn:Ei; [|by apply IH]. destruct (tw_info _ (so_table _ O) t nd p Hnd Ei) as [d Hd].
  rewrite wp_bind. apply (wp_descriptor_lookup p d); [done|apply ok_live; eapply dest_wf_ok; by apply O|].
  destruct (List.find _ _) as [x|] eqn:Ef; [|by apply IH].
  apply find_live_some in Ef as (Hx & ex & Hex & Ea). apply bool_decide_eq_true in Ea.
  rewrite wp_bind, wp_calloc by apply O. rewrite wp_bind. apply IH; [done|]. intros l Hq. apply wp_ret, HQ.
  intros q [->|Hq']%elem_of_cons; [by exists d, x, ex|by apply Hq].
Qed.

Lemma wp_prefixes_lookup s (Q : option (list ptr) -> eigrp_instance -> Prop) :
  store_ok s -> (forall l, (forall q, q ∈ l -> pathed n q s) -> Q (Some l) s) -> wp (eigrp_nbr_prefixes_lookup n) Q s.
Proof.
  intros O HQ. unfold eigrp_nbr_prefixes_lookup. rewrite wp_bind, wp_calloc by apply O. rewrite wp_bind, wp_gets, wp_bind.
  apply wp_nbr_prefixes; [done|done|]. intros l Hl. by apply wp_ret, HQ.
Qed.

(** The topology's side of a restarted peer. *)
Lemma wp_down_kept s (Q : unit -> eigrp_instance -> Prop) :
  topo_ok s -> hears n s -> (forall s', kept n s s' -> Q tt s') -> wp (NeighborDown.eigrp_topology_neighbor_down n) Q s.
Proof.
  intros T H HQ. apply wp_neighbor_down_all; [apply T|destruct H as (nb & i & Hn & _); eauto|apply T|].
  intros s' [O' _ _ [E1 E2] _ [P1 P2 P3]]. apply HQ. split.
  - split; [done|intros m; eapply single_path_keep; [exact P1|apply T]|]. intros q dq' Ht Hq'.
    assert (in_table s q) as Ht0 by (eapply in_table_same; [..|exact Ht]; done).
    destruct (Ht0) as (t & nd & _ & Ht2 & Ht3). destruct (tw_info _ (so_table _ (tk_store _ T)) t nd q Ht2 Ht3) as [dq Hq].
    destruct (P2 q dq Hq) as (d2 & Hd2 & Hs). rewrite Hq' in Hd2. injection Hd2 as <-. pose proof (tk_routed _ T q dq Ht0 Hq) as Hne.
    intros E. destruct (topology_routes dq) as [|x l] eqn:Er; [done|]. specialize (Hs x). rewrite E in Hs. apply (not_elem_of_nil x), Hs. by left.
  - destruct H as (nb & i & Hn & Hi). destruct (nbrs_keep_ei s s' n nb P3 Hn) as (nb' & Hn' & E). exists nb', i. split; [done|congruence].
  - intros q (d & x & e & Hd & Hx & He & Ha). destruct (P2 q d Hd) as (d' & Hd' & Hs). specialize (Hs x Hx).
    destruct (dw_routes _ _ _ (iw_dests _ (so_wf _ O') q d' Hd') x Hs) as (e' & He' & _).
    destruct (P1 q d' x e' Hd' Hs He') as (d0 & e0 & _ & _ & He0 & E). exists d', x, e'. split; [done|]. split; [done|]. split; [done|congruence].
Qed.
End reconcile.

(** ** The phases of the receive function *)

Section phases.
Context (env : rx_env) (n : ptr).
Implicit Types w : rx.

(** The invariants of the UPDATE path. *)
Definition upd_ok (w : rx) : Prop := rx_ok n w /\ lists_ok n w.

Lemma upd_ok_noted w w' : noted n w w' -> upd_ok w'.
Proof. intros N. split; apply N. Qed.
Lemma upd_ok_handled w w' : upd_ok w -> handled n w w' -> upd_ok w'.
Proof. intros [_ L] H. split; [apply H|by eapply lists_handled]. Qed.

(** A field of the neighbor other than its list is set. *)
Lemma wp_nbr_set f d w (Q : unit -> rx -> Prop) :
  upd_ok w -> ad_nbrs (rx_adj w) !! n = Some d -> core (f d) = core d -> drops_only f ->
  (forall w', upd_ok w' -> ad_nbrs (rx_adj w') !! n = Some (f d) -> w' = {| w with rx_store := rx_store w'; rx_adj := rx_adj w' |} -> Q tt w') ->
  wp (on_adj (Neighbor.upd_nbr n f)) Q w.
Proof.
  intros [K L] Hd Hc Hf HQ. eapply wp_list_set; [done|done|exact Hd|done| |].
  - intros l q Hl Hq. destruct (Hf d) as [E|E]; [congruence|]. apply (lo_resync _ _ L d l q Hd); [by rewrite <-E|done].
  - intros w' N Hd' E'. apply HQ; [by eapply upd_ok_noted|done|done].
Qed.

Lemma wp_call c w (Q : unit -> rx -> Prop) : upd_ok w -> (forall w', upd_ok w' -> Q tt w') -> wp (on_adj (record_call c)) Q w.
Proof.
  intros [K L] HQ. apply (wp_adj_op n); [|apply lists_record|].
  - apply (ok_call_working n); [apply K|]. by intros.
  - intros [] w' S. apply HQ. eapply upd_ok_noted, noted_adj; [done|done|exact S].
Qed.

Lemma wp_adj_state state d w (Q : unit -> rx -> Prop) :
  upd_ok w -> ad_nbrs (rx_adj w) !! n = Some d -> state = EIGRP_NEIGHBOR_DOWN \/ nb_cleanup_pending d = false ->
  (forall w' d', upd_ok w' -> ad_nbrs (rx_adj w') !! n = Some d' -> nb_cleanup_pending d' = nb_cleanup_pending d -> Q tt w') ->
  wp (on_adj (eigrp_nbr_state_update_reason n state)) Q w.
Proof.
  intros [K L] Hd Hs HQ. rewrite wp_on_adj. pose proof (ok_state_working n d state _ (ro_work _ _ K) Hd Hs) as Hw.
  unfold wp in *. destruct (eigrp_nbr_state_update_reason n state (rx_adj w)) as [[[] a]|] eqn:E; [|done].
  destruct Hw as (Ka & _ & d' & Hd' & Ec). apply (HQ _ d'); [|done|done]. eapply upd_ok_noted, noted_adj; [done|done|].
  split; [apply renew_renewed|]. split; [|done]. split; [done|]. by eapply lists_state_update.
Qed.

Lemma wp_peer_restarted sequence d w (Q : unit -> rx -> Prop) :
  upd_ok w -> ad_nbrs (rx_adj w) !! n = Some d -> nb_cleanup_pending d = false ->
  (forall w', upd_ok w' -> Q tt w') -> wp (peer_restarted n sequence) Q w.
Proof.
  intros K Hd Hc HQ. unfold peer_restarted. rewrite wp_bind. eapply wp_adj_state; [done|exact Hd|by left|]. intros w1 d1 K1 Hd1 Hc1.
  rewrite wp_bind, wp_on_store. apply wp_down_kept; [apply K1|apply K1|]. intros s2 S2.
  pose proof (kept_handled n w1 s2 (proj1 K1) S2) as H2. set (w2 := {| w1 with rx_store := s2 |}) in *.
  pose proof (upd_ok_handled _ _ K1 H2) as K2. rewrite wp_bind. eapply (wp_nbr_set _ d1); [done|done|done|by intros ?; right|].
  intros w3 K3 Hd3 _. rewrite wp_bind. unfold eigrp_nbr_state_update. eapply wp_adj_state; [done|exact Hd3|right; simpl; congruence|].
  intros w4 d4 K4 Hd4 _. rewrite wp_bind. apply (wp_adj_op n); [|apply lists_holddown|].
  - eapply wp_mono; [apply ok_hold_working, K4|]. by intros [] a [Ka _].
  - intros [] w5 S5. apply wp_call; [eapply upd_ok_noted, noted_adj; [apply K4|apply K4|exact S5]|done].
Qed.

Lemma upd_ok_gr w o freed : upd_ok w -> (forall l q, o = Some l -> q ∈ l -> pathed n q (rx_store w)) ->
  upd_ok {| w with rx_gr := o; rx_gr_freed := freed |}.
Proof. intros [[T H K P G] [L1 L2]] Ho. by split. Qed.

Lemma wp_gr_begin w (Q : option (list ptr) -> rx -> Prop) :
  upd_ok w -> (forall o w', upd_ok w' -> rx_adj w' = rx_adj w -> Q o w') -> wp (gr_begin n) Q w.
Proof.
  intros K HQ. unfold gr_begin. rewrite wp_bind, wp_on_store. apply wp_prefixes_lookup; [apply K|]. intros l Hl. rewrite rx_store_same.
  rewrite wp_bind, wp_modify, wp_ret. apply HQ; [|done]. apply (upd_ok_gr w (Some l) (rx_gr_freed w)); [done|]. intros ? q [= <-]. apply Hl.
Qed.

Lemma wp_init_note fl sequence d w (Q : bool -> rx -> Prop) :
  upd_ok w -> ad_nbrs (rx_adj w) !! n = Some d ->
  (forall b w' d', upd_ok w' -> ad_nbrs (rx_adj w') !! n = Some d' -> nb_gr_prefixes d' = nb_gr_prefixes d -> Q b w') ->
  wp (init_note n fl sequence) Q w.
Proof.
  intros K Hd HQ. unfold init_note. rewrite wp_bind. eapply wp_rx_nbr; [exact Hd|]. cbv zeta. destruct (_ && _).
  { rewrite wp_bind. eapply (wp_nbr_set _ d); [done|done|done|by intros ?; right|]. intros w' K' Hd' _. rewrite wp_ret. by eapply HQ. }
  destruct (_ && _); [|rewrite wp_ret; by eapply HQ].
  rewrite wp_bind. eapply (wp_nbr_set _ d); [done|done|done|by intros ?; right|]. intros w' K' Hd' _. rewrite wp_ret. by eapply HQ.
Qed.

Lemma up_not_pending d w : upd_ok w -> ad_nbrs (rx_adj w) !! n = Some d -> nb_state d = EIGRP_NEIGHBOR_UP -> nb_cleanup_pending d = false.
Proof.
  intros [K _] Hd E. destruct (nb_cleanup_pending d) eqn:Ec; [|done]. assert (nb_state d = EIGRP_NEIGHBOR_DOWN) as D.
  { apply (ao_down _ (wk_ok _ _ (ro_work _ _ K)) _ _ Hd). right. by right. } by rewrite D in E.
Qed.

Lemma wp_update_restart fl sequence (same seen : bool) d w (Q : bool * bool * bool -> rx -> Prop) :
  upd_ok w -> ad_nbrs (rx_adj w) !! n = Some d -> nb_gr_prefixes d = None ->
  (forall x w', upd_ok w' -> Q x w') -> wp (update_restart n fl sequence same seen) Q w.
Proof.
  intros K Hd Hg HQ. unfold update_restart. destruct (_ && _).
  { rewrite wp_bind. apply wp_gr_begin; [done|]. intros o w' K' _. by apply wp_ret, HQ. }
  destruct (_ && _).
  { rewrite wp_bind. apply wp_gr_begin; [done|]. intros o w1 K1 E1. rewrite wp_bind.
    eapply (wp_nbr_set _ d); [done|by rewrite E1|done|by intros ?; right|]. intros w2 K2 _ _. rewrite wp_bind, wp_modify, wp_ret. apply HQ.
    destruct K2 as [[T H Kw P G] [L1 L2]]. by split. }
  assert (forall f : list ptr -> Rx (bool * bool * bool), wp (l ← gr_saved n; match l with None => mret (false, false, false) | Some l => f l end) Q w) as Hs.
  { intros f. unfold gr_saved. rewrite !wp_bind. eapply wp_rx_nbr; [exact Hd|]. rewrite Hg. rewrite !wp_ret. by apply HQ. }
  destruct (_ && _); [apply Hs|]. destruct (_ && _); [apply Hs|]. destruct (_ && _); [|by apply wp_ret, HQ].
  rewrite wp_bind. eapply wp_rx_nbr; [exact Hd|]. rewrite wp_bind.
  destruct (Z.eqb_spec (nb_state d) EIGRP_NEIGHBOR_UP) as [E|E].
  - rewrite E. cbn [andb]. unfold when at 1. change (EIGRP_NEIGHBOR_UP =? EIGRP_NEIGHBOR_PENDING) with false. cbn [andb]. rewrite wp_ret, wp_bind.
    destruct seen; unfold when; [|rewrite wp_ret; by apply wp_ret, HQ]. eapply wp_peer_restarted; [done|exact Hd|by eapply up_not_pending|].
    intros w' K'. by apply wp_ret, HQ.
  - cbn [andb]. eapply (wp_mono _ (fun _ w' => upd_ok w')).
    + destruct (_ && _); [by apply wp_call|by apply wp_ret].
    + intros [] w' K'. rewrite wp_bind. unfold when. rewrite wp_ret. by apply wp_ret, HQ.
Qed.

Lemma wp_gr_asked (final : bool) w (Q : unit -> rx -> Prop) :
  upd_ok w -> (forall w', upd_ok w' -> Q tt w') ->
  wp (when final (w ← get; on_store (eigrp_update_receive_GR_ask n (default [] (rx_gr w))))) Q w.
Proof.
  intros K HQ. destruct final; unfold when; [|by apply wp_ret, HQ]. rewrite wp_bind, wp_get, wp_on_store.
  apply wp_ask; [apply K|apply K| |intros s' S; by eapply HQ, upd_ok_handled, kept_handled; [|apply K|]].
  intros q Hq. destruct (rx_gr w) as [l|] eqn:E; [|by apply not_elem_of_nil in Hq]. by apply (lo_gr _ _ (proj2 K) l q).
Qed.

Lemma wp_resync_finish w (Q : unit -> rx -> Prop) : upd_ok w -> (forall w', upd_ok w' -> Q tt w') -> wp (resync_finish n) Q w.
Proof.
  intros K HQ. unfold resync_finish. destruct (wk_nbr _ _ (ro_work _ _ (proj1 K))) as (d & Hd & _). rewrite wp_bind. eapply wp_rx_nbr; [exact Hd|].
  rewrite wp_bind. eapply (wp_mono _ (fun _ w' => upd_ok w')).
  - destruct (nb_peer_init_resync_prefixes d) as [l|] eqn:E; [|by apply wp_ret]. rewrite wp_bind, wp_on_store.
    apply wp_ask; [apply K|apply K|intros q Hq; by apply (lo_resync _ _ (proj2 K) d l q)|]. intros s1 S1.
    pose proof (upd_ok_handled _ _ K (kept_handled n w s1 (proj1 K) S1)) as K1.
    eapply (wp_nbr_set _ d); [exact K1|done|done|by intros ?; left|]. by intros w2 K2 _ _.
  - intros [] w1 K1. destruct (wk_nbr _ _ (ro_work _ _ (proj1 K1))) as (d1 & Hd1 & _). rewrite wp_bind.
    eapply (wp_nbr_set _ d1); [done|done|done|by intros ?; right|]. intros w2 K2 _ _. by apply wp_call.
Qed.

Lemma wp_update_finish final aliased complete sequence w (Q : unit -> rx -> Prop) :
  upd_ok w -> (forall w', upd_ok w' -> Q tt w') -> wp (update_finish env final aliased complete n sequence) Q w.
Proof.
  intros K HQ. unfold update_finish. rewrite wp_bind. apply wp_gr_asked; [done|]. intros w1 K1. rewrite wp_bind.
  eapply (wp_mono _ (fun _ w' => upd_ok w')); [destruct complete; [by apply wp_resync_finish|by apply wp_ret]|]. intros [] w2 K2.
  rewrite wp_bind. eapply (wp_mono _ (fun _ w' => upd_ok w')).
  { destruct (negb _); [|by apply wp_ret]. unfold when. apply wp_ack_send; [apply K2|]. intros s. destruct K2 as [[T H Kw P G] [L1 L2]]. by split. }
  intros [] w3 K3. rewrite wp_bind. apply (wp_send_pending n); [apply K3|]. intros q.
  pose proof (upd_ok_handled _ _ K3 (handled_queue n w3 q (proj1 K3))) as K4. unfold gr_list_delete. rewrite wp_bind, wp_get.
  destruct (rx_gr _) eqn:E; [|by apply wp_ret, HQ]. rewrite wp_modify. apply HQ. apply upd_ok_gr; [done|]. by intros.
Qed.

Lemma wp_init_replay sequence w (Q : unit -> rx -> Prop) : upd_ok w -> (forall w', upd_ok w' -> Q tt w') -> wp (init_replay n sequence) Q w.
Proof.
  intros K HQ. unfold init_replay. destruct (wk_nbr _ _ (ro_work _ _ (proj1 K))) as (d & Hd & _). rewrite wp_bind. eapply wp_rx_nbr; [exact Hd|].
  rewrite wp_bind. eapply (wp_mono _ (fun _ w' => upd_ok w')).
  - destruct (_ && _); unfold when; [|by apply wp_ret]. rewrite wp_bind, wp_on_store. apply wp_prefixes_lookup; [apply K|]. intros l Hl. rewrite rx_store_same.
    eapply wp_list_set; [apply K|apply K|exact Hd|done|simpl; by intros ? q [= <-] ?; apply Hl|]. intros w' N _ _. by eapply upd_ok_noted.
  - intros [] w1 K1. apply wp_ack_sequence, HQ. destruct K1 as [[T H Kw P G] [L1 L2]]. by split.
Qed.

Context (Henv : tlv2_ok (re_codec env)).

(** The receive function of UPDATE packets, when no list of a graceful restart is open. *)
Lemma wp_update_receive h d w :
  rx_ok n w -> (forall l q, nb_peer_init_resync_prefixes d = Some l -> q ∈ l -> pathed n q (rx_store w)) ->
  ad_nbrs (rx_adj w) !! n = Some d -> nb_gr_prefixes d = None ->
  wp (eigrp_update_receive env n h) (fun _ w' => upd_ok w') w.
Proof.
  intros K Hl Hd Hg. unfold eigrp_update_receive. rewrite wp_bind, wp_modify. set (w0 := {| w with rx_gr := None |}).
  assert (upd_ok w0) as K0.
  { destruct K as [T H Kw P G]. split; [by split|]. split; [|done]. simpl. intros d0 l q Hd0. rewrite Hd in Hd0. injection Hd0 as <-. apply Hl. }
  rewrite wp_bind. eapply (wp_rx_nbr n d); [exact Hd|]. destruct (_ && _); [by apply wp_init_replay|].
  rewrite wp_bind. eapply wp_init_note; [exact K0|exact Hd|]. intros complete w1 d1 K1 Hd1 Hg1.
  rewrite wp_bind. unfold recv_sequence_set. eapply (wp_nbr_set _ d1); [done|done|done|by intros ?; right|]. intros w2 K2 Hd2 _.
  rewrite wp_bind. eapply wp_update_restart; [exact K2|exact Hd2|simpl; congruence|]. intros [[graceful final] aliased] w3 K3.
  rewrite wp_bind. apply wp_walk_fuel. intros fuel Hf. rewrite wp_bind.
  eapply (wp_tlv_walk env n Henv (fun x => upd_ok x)); [| |apply test_unlimited|apply K3|done|done|].
  - intros x x' [Kx Lx] K' S. split; [done|]. eapply lists_decode; [done|done|apply Kx|done].
  - intros r e x Kx [_ Lx] Hr _. eapply wp_mono; [by eapply wp_update_tlv|]. by intros [] x' (K' & L' & E').
  - intros b w4 K4 U4. destruct b; cbn [negb]; [by apply wp_update_finish|by apply wp_ret].
Qed.
End phases.
