(* ===== verification/ReceiveTheorems.v ===== *)
(** * Reception of packets: theorems

    A packet of any bytes is handled to its end; every QUERY is answered; new
    destinations are learned. *)

From Stdlib Require Import ZArith Lia.
From stdpp Require Import base gmap list sorting strings.
From S2P Require Import Prelude Types Metric Prefix PrefixProps Stream AfVectors Tlv1 Tlv1Props Tlv2 Tlv2Props Rtt Filter Auth Timers Neighbor NeighborProps Limits LimitsProps AfLimits Hello HelloProps Dispatch AdjacencyProps AdjacencyTrace AdjacencyTheorems State Topology Fsm Store Marking Frame Handlers Invariant Distance Dual Network DualProps Completion Table Events NeighborDown NeighborDownProps Paths Summary SummaryProps Receive ReceiveProps ReceiveWalk Answers Learning ReceiveQuery ReceiveUpdate.

(** ** Any packet *)

(** What holds before a receive function: the invariants; and, for an UPDATE, that the
    neighbor has a path to each destination of its reconciliation list, and that no list of
    a graceful restart is open. *)
Record may_receive (n : ptr) (w : rx) : Prop := {
  mr_ok : rx_ok n w;
  mr_resync : forall d l q, ad_nbrs (rx_adj w) !! n = Some d -> nb_peer_init_resync_prefixes d = Some l -> q ∈ l -> pathed n q (rx_store w);
  mr_gr : forall d, ad_nbrs (rx_adj w) !! n = Some d -> nb_gr_prefixes d = None;
}.

(** The evaluation of the configuration is fine. *)
Record env_ok (env : rx_env) : Prop := {
  en_codec : tlv2_ok (re_codec env);
  en_metrics : metrics_convertible (re_summaries env);
}.

Lemma wp_packet_receiver env n opcode h w :
  env_ok env -> may_receive n w -> wp (packet_receiver env opcode n h) (fun _ w' => rx_ok n w') w.
Proof.
  intros [Hc Hm] [K Hr Hg]. unfold packet_receiver. destruct (wk_nbr _ _ (ro_work _ _ K)) as (d & Hd & _). case_match.
  { eapply wp_mono; [eapply (wp_update_receive env n Hc h d w K); [intros l q; by apply Hr|done|by apply Hg]|]. by intros [] w' [? _]. }
  case_match; [eapply wp_mono; [by apply wp_query_receive|]; by intros [] w' [? _]|].
  case_match; [eapply wp_mono; [by apply wp_reply_receive|]; by intros [] w' [? _]|].
  case_match; [eapply wp_mono; [by apply wp_siaquery_receive|]; by intros [] w' [? _]|].
  case_match; [eapply wp_mono; [by apply wp_siareply_receive|]; by intros [] w' [? _]|].
  by apply wp_ret.
Qed.

(** C7: The receive functions are total.  Let the invariants hold, allocations succeed,
    the neighbor have no prefix list of a graceful restart open and its resynchronisation
    list name destinations it has a path to ([may_receive]).  Then for an UPDATE, QUERY,
    REPLY, SIA-QUERY or SIA-REPLY of any bytes from it the walk over the TLVs ends, every
    event it delivers to DUAL is handled, no freed or missing object is used, and the
    topology, the table, the adjacencies and the stream are well formed afterwards.  The
    next UPDATE of a restart that left its list open is the excluded case
    ([restart_list_freed]). *)
Theorem packet_received env n opcode h w :
  env_ok env -> may_receive n w -> exists w', packet_receiver env opcode n h w = Some (tt, w') /\ rx_ok n w'.
Proof.
  intros He Hw. destruct (wp_some _ _ _ (wp_packet_receiver env n opcode h w He Hw)) as ([] & w' & E & K). eauto.
Qed.

(** ** QUERY *)

(** C8: Every route TLV of a QUERY is answered.  While the invariants hold, allocations
    succeed and the thread takes work, the handler of a decoded route either has queued a
    REPLY to the neighbor, or the destination of the table is left with the neighbor as its
    query origin, to which the REPLY is owed at the end of the diffusing computation.  A
    queued REPLY is about the table's destination for the queried prefix, or carries an
    answer of its own, still in the store: the queried prefix unreachable, or what a summary
    boundary says of it (the queried prefix, or the aggregate of a component under it).  The
    invariants hold afterwards. *)
Theorem query_answered env n r e w :
  env_ok env -> rx_ok n w -> received r e (rx_store w) -> running (rx_store w) ->
  exists w', query_tlv env n r w = Some (tt, w') /\ rx_ok n w' /\ answered env n (rd_dest e) (rx_store w) (rx_store w').
Proof.
  intros [_ Hm] K Hr Hrun. destruct (wp_some _ _ _ (wp_query_tlv env n Hm r e w K Hr)) as ([] & w' & E & H & A).
  exists w'. split; [done|]. split; [apply H|by apply A].
Qed.

(** ** UPDATE *)

(** Destination [p] as it is learned from [e], with its only path [r]. *)
Record learned_from (env : rx_env) (n p r : ptr) (e : eigrp_route_descriptor) (s s' : eigrp_instance) : Prop := {
  lf_found : table_find s' (rd_dest e) = Some p;
  lf_dest : exists d, prefixes s' !! p = Some d /\ topology_routes d = [r] /\ pd_state d = EIGRP_FSM_STATE_PASSIVE
    /\ destination d = eigrp_prefix_normalize (rd_dest e) /\ has_flag (req_action d) EIGRP_FSM_NEED_UPDATE = true
    /\ exists e', routes s' !! r = Some e' /\ rd_adv_router e' = Some n /\ rd_prefix e' = Some p
       /\ rd_reported_metric e' = ingress_metric env (rd_dest e) (rd_metric e)
       /\ fdistance d = rd_distance e' /\ distance d = rd_distance e' /\ rdistance d = rd_distance e'
       /\ exists i ei total x, rd_ei e = Some i /\ intfs s !! i = Some ei
          /\ eigrp_metric_total_calculate (params s) (Some ei) (rd_reported_metric e') = Some (total, x)
          /\ rd_total_metric e' = total /\ rd_distance e' = u32 x;
  lf_change : p ∈ topology_changes s';
}.

Lemma table_find_normalize s dest : prefix_wf dest -> eigrp_prefix_valid dest = true ->
  table_find s (eigrp_prefix_normalize dest) = table_find s dest /\ is_Some (eigrp_topology_table_key (eigrp_prefix_normalize dest)).
Proof.
  intros W V. pose proof (prefix_normalize_idem dest W V) as E. pose proof (normalize_valid dest W V) as V'.
  unfold table_find, eigrp_topology_table_key. rewrite V, V'. split; [|eauto]. cbn [mbind option_bind]. by rewrite !E.
Qed.

Lemma learned_learned_from env n r e e1 s s1 s' :
  prefix_wf (rd_dest e) -> eigrp_prefix_valid (rd_dest e) = true ->
  staged env n r e (ingress_metric env (rd_dest e) (rd_metric e)) s e1 s1 ->
  learned n (next_addr s) r (first_dest env s e (rd_distance e1)) (first_path n (next_addr s) e1) s1 s' ->
  learned_from env n (next_addr s) r e s s'.
Proof.
  intros W V G L. destruct (table_find_normalize s' (rd_dest e) W V) as [F1 F2].
  destruct (sg_measured _ _ _ _ _ _ _ _ G) as (i & ei & Hi & Hei & total & x & Et & E1).
  destruct (ld_dest _ _ _ _ _ _ _ L) as [o Hd]. destruct (ld_route _ _ _ _ _ _ _ L) as (e' & He' & E').
  split; [rewrite <-F1; by apply L| |apply L].
  eexists. split; [exact Hd|]. split; [|split; [|split; [|split]]].
  - unfold with_path. by destruct (eigrp_topology_route_external _).
  - unfold with_path. by destruct (eigrp_topology_route_external _).
  - unfold with_path. by destruct (eigrp_topology_route_external _).
  - unfold with_path. by destruct (eigrp_topology_route_external _).
  - exists e'. split; [done|]. apply strip_flags_eq in E' as (X1 & _ & _ & X2 & X3 & X4 & _ & X5).
    rewrite X1, X2, X3, X4, X5. subst e1. split; [done|]. split; [done|]. split; [done|].
    unfold with_path. split; [by destruct (eigrp_topology_route_external _)|].
    split; [by destruct (eigrp_topology_route_external _)|]. split; [by destruct (eigrp_topology_route_external _)|].
    exists i, ei, total, x. done.
Qed.

(** C9: A destination is learned.  An UPDATE's reachable, admitted route for a destination that
    is not in the table puts the destination into it: it is found under the received prefix, is
    PASSIVE, its only path is the received route of that neighbor, with the vector behind the
    inbound filter and offset list and the distance that vector has behind the interface; its
    feasible distance is that distance, and an UPDATE of it is pending. *)
Theorem update_learns env n r e w w1 graceful aliased :
  rx_ok n w -> received r e (rx_store w) -> prefix_ok (vectors (re_codec env)) (rd_dest e) ->
  table_find (rx_store w) (rd_dest e) = None ->
  eigrp_metric_calculate (params (rx_store w)) (rd_metric e) <> EIGRP_MAX_METRIC ->
  nbr_route_admit n (rd_dest e) (ingress_metric env (rd_dest e) (rd_metric e)) w = Some (true, w1) ->
  exists w' p, update_tlv env graceful aliased n r w = Some (tt, w') /\ rx_ok n w'
    /\ learned_from env n p r e (rx_store w) (rx_store w').
Proof.
  intros K Hr Hp Hf Hm Ha. set (metric := ingress_metric env (rd_dest e) (rd_metric e)) in *.
  assert (wp (update_tlv env graceful aliased n r) (fun _ w' => handled n w w' /\ learned_from env n (next_addr (rx_store w)) r e (rx_store w) (rx_store w')) w) as Hwp.
  { unfold update_tlv. rewrite wp_bind. eapply wp_rx_route; [apply Hr|]. rewrite wp_bind. apply (wp_find n); [done|]. intros o -> _.
    rewrite Hf. unfold update_new. rewrite wp_bind. eapply wp_rx_route; [apply Hr|]. rewrite wp_bind. apply wp_unreachable. intros b ->.
    destruct (Z.eqb_spec (eigrp_metric_calculate (params (rx_store w)) (rd_metric e)) EIGRP_MAX_METRIC) as [E|_]; [done|].
    cbv zeta. fold metric. rewrite wp_bind.
    assert (wp (nbr_route_admit n (rd_dest e) metric) (fun b w2 => b = true /\ w2 = w1 /\ adj_step n w w2) w) as Hadm.
    { pose proof (wp_route_admit n (rd_dest e) metric (fun _ w' => adj_step n w w') w K ltac:(done)) as H. unfold wp in *. by rewrite Ha in *. }
    eapply wp_mono; [exact Hadm|]. intros b w2 (-> & -> & S1). cbn [negb]. pose proof (adj_step_handled _ _ _ K S1) as H1.
    destruct (S1) as (R & _). destruct (renewed_fields _ _ R) as (F1 & F2 & F3 & F4 & F5 & F6 & F7 & F8 & F9 & F10).
    rewrite wp_on_store. eapply wp_destination_learn; [apply H1|apply H1|by eapply received_renewed|]. intros e1 s1 s' G L.
    split.
    - eapply handled_trans; [exact H1|]. apply handled_store; [apply H1|apply L| |].
      + eapply learned_hears; [exact L|]. unfold hears. rewrite (sg_rest _ _ _ _ _ _ _ _ G). apply H1.
      + intros q Hq. apply L. by apply G.
    - pose proof (learned_learned_from env n r e e1 (rx_store w1) s1 s' (po_wf _ _ Hp) (po_valid _ _ Hp) G L) as [X1 X2 X3].
      simpl. rewrite <-F10. split; [done| |done]. destruct X2 as (d & D1 & D2 & D3 & D4 & D5 & e' & D6 & D7 & D8 & D9 & D10 & D11 & D12 & i & ei & total & x & D13 & D14 & D15 & D16).
      exists d. repeat (split; [done|]). exists e'. repeat (split; [done|]). exists i, ei, total, x. by rewrite <-F3, <-F6. }
  destruct (wp_some _ _ _ Hwp) as ([] & w' & E & H & L). exists w', (next_addr (rx_store w)). split; [done|]. split; [apply H|done].
Qed.

(** ** A router with one neighbor on interface 10 *)

Definition demo_adj0 : adj :=
  match perform (ev_packet demo_hello []) (started 1 None 1000) with Some (_, a) => a | None => started 1 None 1000 end.
(** While a packet of it is handled. *)
Definition demo_adj : adj := let a := demo_adj0 in {| a with ad_af_pkt_active := true |}.

Lemma demo_adj_settled : AdjacencyProps.settled demo_adj0.
Proof.
  apply (leads_settled (started 1 None 1000) [ev_packet demo_hello []]); [apply started_settled; unfold UINT64_MAX; lia|].
  eapply (leads_event _ []); [constructor| |vm_compute; reflexivity].
  split; [repeat (constructor; [unfold byte; lia|]); constructor|]. split; [constructor|].
  exists fresh_intf. split; [vm_compute; reflexivity|discriminate].
Qed.

Lemma settled_working n d a :
  AdjacencyProps.settled a -> ad_nbrs a !! n = Some d -> nb_published d = true -> nb_limit_state d = EIGRP_NBR_LIMIT_NONE ->
  working n {| a with ad_af_pkt_active := true |}.
Proof.
  intros E Hd Hp Hl. split; [eapply ok_aux; [apply E|done..]|done|destruct (se_clock _ E); by split| |by exists d].
  intros m Hm x Hx. by apply (se_pending _ E m x).
Qed.

Lemma demo_adj_working : working 1%nat demo_adj.
Proof.
  apply (settled_working 1%nat (default (eigrp_nbr_init 0%nat demo_peer) (ad_nbrs demo_adj0 !! 1%nat)) demo_adj0 demo_adj_settled);
    vm_compute; reflexivity.
Qed.

(** The network with neighbor 1 added; route 30 was just decoded from its packet. *)
Definition rx_net : eigrp_instance :=
  let s := table_net net_passive 4096 in {| s with nbrs := <[1%nat := net_nbr 10]> (nbrs s) |}.
Definition new_target : eigrp_prefix :=
  {| address := {| afi := EIGRP_AFI_IPV4; bytes := [10; 2; 0; 0] ++ zero_bytes 12 |}; prefix_length := 16 |}.
Definition new_received : eigrp_route_descriptor :=
  let e := new_route (Some 10%nat) in {| e with rd_dest := new_target; rd_type := EIGRP_TLV_IPv4_INT; rd_metric := net_metric 1024 |}.
Definition rx_net_route : eigrp_instance := with_new_route rx_net new_received.

Lemma rx_net_topo : topo_ok rx_net.
Proof.
  split.
  - split; [solve_net_wf|apply table_wfb_spec; by vm_compute|done].
  - intros m. by apply net_single_path.
  - intros p d _ Hd. change (prefixes rx_net) with ({[ 1%nat := net_passive ]} : gmap nat eigrp_prefix_descriptor) in Hd.
    by apply lookup_singleton_Some in Hd as [_ <-].
Qed.

Definition demo_rx (s : eigrp_instance) (pkt : eigrp_stream) : rx :=
  {| rx_store := s; rx_adj := demo_adj; rx_pkt := pkt; rx_acks := []; rx_gr := None; rx_gr_freed := [] |}.
Definition demo_env : rx_env :=
  {| re_codec := {| vectors := eigrp_ipv4_init; router_id_host := 1 |};
     re_policy := {| po_filter := {| access_list := [None; None]; prefix_list := [None; None] |}; po_intfs := [];
                     po_config := None; po_calls := []; po_grants := [] |};
     re_intf := None; re_ei := 10%nat; re_summaries := None; re_summary_intf := demo_intf;
     re_auto_prefix := no_auto; re_evaluate := fun _ _ _ => (EIGRP_RESULT_NOT_FOUND, None); re_leak_map := no_leak |}.

Lemma demo_env_ok : env_ok demo_env.
Proof. split; [split; [exact ipv4_laws|simpl; lia]|done]. Qed.

Lemma demo_rx_ok pkt : stream_wf pkt -> grants (heap pkt) = [] -> rx_ok 1%nat (demo_rx rx_net pkt).
Proof.
  intros W G. split; [exact rx_net_topo|by exists (net_nbr 10), 10%nat|exact demo_adj_working|done|done].
Qed.
Lemma demo_route_ok : rx_ok 1%nat (demo_rx rx_net_route empty_stream) /\ received 30%nat new_received rx_net_route.
Proof.
  split.
  - split; [apply topo_new_route, rx_net_topo|by exists (net_nbr 10), 10%nat|exact demo_adj_working|exact empty_stream_wf|done].
  - apply (received_fresh rx_net); [exact rx_net_topo|done|]. intros i [= <-]. by eexists.
Qed.

Lemma packet_received_witness :
  exists w', packet_receiver demo_env EIGRP_OPC_UPDATE 1%nat {| rh_flags := 0; rh_sequence := 7 |} (demo_rx rx_net ex_stream) = Some (tt, w')
    /\ rx_ok 1%nat w'.
Proof.
  apply (packet_received demo_env 1%nat EIGRP_OPC_UPDATE {| rh_flags := 0; rh_sequence := 7 |} (demo_rx rx_net ex_stream)).
  - exact demo_env_ok.
  - split; [apply demo_rx_ok; [exact ex_stream_wf|reflexivity]| |].
    + intros d l q H Hl _. vm_compute in H. injection H as <-. discriminate Hl.
    + intros d H. vm_compute in H. injection H as <-. reflexivity.
Defined.

Lemma query_answered_witness :
  exists w', query_tlv demo_env 1%nat 30%nat (demo_rx rx_net_route empty_stream) = Some (tt, w')
    /\ answered demo_env 1%nat new_target rx_net_route (rx_store w').
Proof.
  destruct demo_route_ok as [K Hr].
  destruct (query_answered demo_env 1%nat 30%nat new_received (demo_rx rx_net_route empty_stream) demo_env_ok K Hr) as (w' & E & _ & A).
  - split; reflexivity.
  - exists w'. split; [exact E|exact A].
Defined.

Lemma update_learns_witness :
  exists w' p, update_tlv demo_env false false 1%nat 30%nat (demo_rx rx_net_route empty_stream) = Some (tt, w')
    /\ table_find (rx_store w') new_target = Some p.
Proof.
  destruct demo_route_ok as [K Hr].
  destruct (update_learns demo_env 1%nat 30%nat new_received (demo_rx rx_net_route empty_stream)
    (match nbr_route_admit 1%nat new_target (ingress_metric demo_env new_target (net_metric 1024)) (demo_rx rx_net_route empty_stream) with
     | Some (_, w1) => w1 | None => demo_rx rx_net empty_stream end) false false) as (w' & p & E & _ & L).
  - exact K.
  - exact Hr.
  - split; [split; [split; [done|]|simpl; lia]|reflexivity|reflexivity]. simpl. repeat (constructor; [unfold byte; lia|]). constructor.
  - vm_compute. reflexivity.
  - vm_compute. discriminate.
  - vm_compute. reflexivity.
  - exists w', p. split; [exact E|exact (lf_found _ _ _ _ _ _ _ L)].
Defined.

(** ** A graceful restart of several packets

    The first UPDATE of a restart (INIT and RS) leaves [nbr->nbr_gr_prefixes] pointing to
    the list that the end of the function frees; the next UPDATE of the restart reads
    it. *)
Lemma restart_list_freed :
  exists w', eigrp_update_receive demo_env 1%nat {| rh_flags := EIGRP_INIT_FLAG + EIGRP_RS_FLAG; rh_sequence := 7 |} (demo_rx rx_net empty_stream) = Some (tt, w')
    /\ eigrp_update_receive demo_env 1%nat {| rh_flags := EIGRP_EOT_FLAG; rh_sequence := 8 |} w' = None.
Proof. eexists. split; [vm_compute; reflexivity|vm_compute; reflexivity]. Qed.
