(* ===== verification/Packetizer.v ===== *)
(** * The packetizer (eigrp_packetizer.c)

    The work queue's consumer: the selection of the route a destination is advertised
    with, summaries, poison reverse and outbound filters, the packing of route TLVs into
    packets within the limit of the interface, the reply-status set of a QUERY, and the
    retirement of settled destinations.

    A packet that is ready is handed to the reliable transport ([Transport]), here the
    list [px_sent].  The stack objects of the C code are values. *)

From Stdlib Require Import ZArith Lia.
From stdpp Require Import base gmap list strings.
From S2P Require Import Prelude Types Metric Prefix Rtt Stream AfVectors Tlv1 Tlv2 Filter Auth Transport Neighbor State Topology Fsm Summary.

Definition EIGRP_HEADER_VERSION : Z := 2.

(** ** State *)

(** A packet as it is given to the transport: to one neighbor, or to the interface. *)
Record built := { bt_intf : ptr; bt_nbr : option ptr; bt_opcode : Z; bt_sequence : Z; bt_stream : eigrp_stream }.

(** [px_heap]: the allocator of the streams; [px_sent]: the packets, latest first. *)
Record px := {
  px_store : eigrp_instance;
  px_sequence : Z;
  px_heap : eigrp_heap;
  px_sent : list built;
}.

Abbreviation Px := (M px).

(** What the packetizer reads of an interface and of the configuration; the evaluation
    of named lists, leak maps and key chains is the host's. *)
Record px_intf := {
  pi_curr_mtu : Z;
  pi_next_hop_self : bool;
  pi_encoder : encoder;
  pi_auth : auth_intf;
  pi_policy : option nat;
  pi_summary : summary_intf;
}.

Record px_env := {
  pe_codec : tlv2_instance;
  pe_AS : Z;
  pe_policy : policy;
  pe_summaries : option summary_af;
  pe_intf : ptr -> px_intf;
  pe_nbr_encoder : ptr -> encoder;
  pe_nbr_queue : ptr -> bool;
  pe_auto_prefix : eigrp_prefix -> eigrp_prefix + eigrp_result;
  pe_evaluate : Z -> string -> eigrp_prefix -> eigrp_result * option eigrp_filter_decision;
  pe_leak_map : string -> eigrp_prefix -> eigrp_result * option eigrp_filter_decision;
  pe_key_lookup : list Z -> nat -> option (Z * list Z);
}.

Definition px_st {A} (m : St A) : Px A := fun w =>
  match m (px_store w) with
  | Some (x, s) => Some (x, {| w with px_store := s |})
  | None => None
  end.

(** An operation on one stream; the allocator is shared. *)
Definition px_stream {A} (s : eigrp_stream) (m : Sm A) : Px (A * eigrp_stream) := fun w =>
  match m {| s with heap := px_heap w |} with
  | Some (x, s') => Some ((x, s'), {| w with px_heap := heap s' |})
  | None => None
  end.

(** [eigrp_stream_create]. *)
Definition stream_create (size : nat) : Sm bool :=
  created ← allocate;
  if negb created then mret false
  else if (size =? 0)%nat then mret true
  else eigrp_stream_ensure size.

Definition px_stream_create (size : nat) : Px (option eigrp_stream) :=
  h ← gets px_heap;
  '(ok, s) ← px_stream {| data := []; getp := 0; endp := 0; heap := h |} (stream_create size);
  mret (if ok : bool then Some s else None).

Definition px_malloc : Px bool :=
  h ← gets px_heap;
  '(ok, _) ← px_stream {| data := []; getp := 0; endp := 0; heap := h |} allocate;
  mret ok.

(** ** Packets *)

(** [eigrp_packet_create]: the packet and its stream. *)
Definition eigrp_packet_create (size : nat) : Px (option eigrp_stream) :=
  ok ← px_malloc;
  if ok : bool then px_stream_create size else mret None.

Definition sequence_reserve : Px Z :=
  w ← get;
  let '(sequence, next) := eigrp_packet_sequence_reserve (px_sequence w) in
  modify (fun w => {| w with px_sequence := next |});;
  mret sequence.

(** The fields of [struct eigrp_header] in network order. *)
Definition header_bytes (type flags sequence ack vrid as_number : Z) : list Z :=
  to_be 1 EIGRP_HEADER_VERSION ++ to_be 1 (u8 type) ++ to_be 2 0 ++ to_be 4 (u32 flags)
  ++ to_be 4 (u32 sequence) ++ to_be 4 (u32 ack) ++ to_be 2 (u16 vrid) ++ to_be 2 (u16 as_number).

Definition eigrp_packet_header_init (type flags sequence ack vrid as_number : Z) : Sm unit :=
  eigrp_stream_clear;;
  stream_write 0 (header_bytes type flags sequence ack vrid as_number);;
  eigrp_stream_forward_endp header_len.

(** [eigrp_packet_encoder_safe], [eigrp_packet_encoder_both] and the two codecs. *)
Definition route_encode (codec : tlv2_instance) (enc : encoder) (filtered : bool) (target : eigrp_prefix)
    (route : eigrp_route_descriptor) : Sm nat :=
  match enc with
  | eigrp_packet_encoder_safe => mret O
  | tlv1_encoder => '(len, _) ← eigrp_tlv1_encoder (vectors codec) filtered target route; mret len
  | tlv2_encoder => '(len, _) ← eigrp_tlv2_encoder codec filtered target route; mret len
  | eigrp_packet_encoder_both =>
      start ← gets endp;
      '(len1, route) ← eigrp_tlv1_encoder (vectors codec) filtered target route;
      '(len2, _) ← eigrp_tlv2_encoder codec filtered target route;
      if (len1 =? 0)%nat || (len2 =? 0)%nat then eigrp_stream_set_endp start;; mret O
      else mret (len1 + len2)%nat
  end.

(** The distances and TLV types of a route to a destination that is not reachable. *)
Definition poison_type (prefix : eigrp_prefix_descriptor) : Z :=
  let external := nt prefix =? EIGRP_TOPOLOGY_TYPE_REMOTE_EXTERNAL in
  if afi (address (destination prefix)) =? EIGRP_AFI_IPV6
  then (if external then EIGRP_TLV_IPv6_EXT else EIGRP_TLV_IPv6_INT)
  else (if external then EIGRP_TLV_IPv4_EXT else EIGRP_TLV_IPv4_INT).

Definition eigrp_packetizer_poison_route_create (p : ptr) : St (option ptr) :=
  prefix ← get_prefix p;
  if negb (eigrp_prefix_valid (destination prefix)) then mret None
  else
    r ← eigrp_topology_route_create None;
    let metric := reported_metric prefix in
    upd_route r (fun d => {| d with rd_prefix := Some p; rd_dest := destination prefix; rd_type := poison_type prefix;
                             rd_metric := {| metric with delay := EIGRP_MAX_METRIC; flags := 0 |} |});;
    mret (Some r).

(** The route to advertise and whether the caller owns it. *)
Definition eigrp_packetizer_route_select (p : ptr) (route_hint : option ptr) (opcode : Z) : St (option ptr * bool) :=
  match route_hint with
  | Some r => mret (Some r, false)
  | None =>
      '(route, owned) ←
        (if opcode =? EIGRP_OPC_QUERY then
           r ← eigrp_packetizer_poison_route_create p; mret (r, bool_decide (is_Some r))
         else r ← eigrp_topology_route_read p; mret (r, false));
      match route with
      | None => r ← eigrp_packetizer_poison_route_create p; mret (r, bool_decide (is_Some r))
      | Some r =>
          if owned : bool then mret (Some r, true)
          else
            d ← get_route r;
            wire_route ← eigrp_topology_route_create (rd_ei d);
            put_route wire_route {| d with rd_metric := rd_total_metric d |};;
            mret (Some wire_route, true)
      end
  end.

Definition eigrp_packetizer_intf_up_neighbors (i : ptr) : St bool :=
  ei ← State.get_intf i;
  up ← mfind (if_nbrs ei) (fun n => nbr ← State.get_nbr n; mret (nbr_state nbr =? EIGRP_NEIGHBOR_UP));
  mret (bool_decide (is_Some up)).

(** [eigrp_nbr_split_horizon] (eigrp_neighbor.c). *)
Definition eigrp_nbr_split_horizon (erd : eigrp_route_descriptor) (i : ptr) (ei : eigrp_intf) : bool :=
  if_split_horizon ei && negb (rd_distance erd =? EIGRP_MAX_METRIC) && opt_ptr_eqb (rd_ei erd) (Some i).

Definition eigrp_packetizer_poison_reverse (i : ptr) (opcode : Z) (route : eigrp_route_descriptor)
    : St eigrp_route_descriptor :=
  if negb (opcode =? EIGRP_OPC_UPDATE) then mret route
  else
    ei ← State.get_intf i;
    if negb (eigrp_nbr_split_horizon route i ei) then mret route
    else
      let metric := rd_metric route in
      mret {| route with rd_metric := {| metric with delay := EIGRP_MAX_METRIC; flags := 0 |} |}.

Definition eigrp_packetizer_query_split_horizon (p i : ptr) : St bool :=
  prefix ← get_prefix p;
  ei ← State.get_intf i;
  if negb (if_split_horizon ei) then mret false
  else match query_origin prefix with
       | None => mret false
       | Some n => nbr ← State.get_nbr n; mret (opt_ptr_eqb (nbr_ei nbr) (Some i))
       end.

(** The neighbors asked join the reply-status set. *)
Definition eigrp_packetizer_query_rij_add (p i : ptr) : St unit :=
  ei ← State.get_intf i;
  mfor (if_nbrs ei) (fun n =>
    nbr ← State.get_nbr n;
    when (nbr_state nbr =? EIGRP_NEIGHBOR_UP) (eigrp_fsm_reply_status_add p (Some n))).

(** [route->prefix ? &route->prefix->destination : &route->dest]. *)
Definition wire_target (route : eigrp_route_descriptor) : St eigrp_prefix :=
  match rd_prefix route with
  | Some p => d ← get_prefix p; mret (destination d)
  | None => mret (rd_dest route)
  end.

Section packetizer.
Context (env : px_env).

Definition outbound_denied (i : ptr) (prefix : eigrp_prefix) : bool :=
  eigrp_filter_prefix_update (pe_evaluate env) (pe_policy env) (pi_policy (pe_intf env i)) EIGRP_FILTER_OUT prefix.

(** The complete TLV set goes to a scratch stream and is appended only when it fits:
    the number of bytes, 0 when there is nothing to send, -1 when it does not fit. *)
Definition eigrp_packet_route_encode_append (i : ptr) (enc : encoder) (pkt : eigrp_stream)
    (route : eigrp_route_descriptor) (target : eigrp_prefix) (packet_limit : Z) : Px (Z * eigrp_stream) :=
  if packet_limit =? 0 then mret (0, pkt)
  else
    created ← px_stream_create (Z.to_nat packet_limit);
    match created with
    | None => mret (0, pkt)
    | Some scratch =>
        '(encoded, scratch) ← px_stream scratch (route_encode (pe_codec env) enc (outbound_denied i target) target route);
        if (encoded =? 0)%nat then mret (0, pkt)
        else if packet_limit <? Z.of_nat (endp pkt + encoded) then mret (-1, pkt)
        else if (encoded <=? length (data scratch))%nat then
          '(_, pkt) ← px_stream pkt (eigrp_stream_put (take encoded (data scratch)));
          mret (Z.of_nat encoded, pkt)
        else ub
    end.

(** ** The builder *)

(** [pb_packet]: the packet under construction with its sequence number. *)
Record eigrp_packetizer_builder := {
  pb_ei : ptr;
  pb_nbr : option ptr;
  pb_encoder : encoder;
  pb_packet : option (Z * eigrp_stream);
  pb_opcode : Z;
  pb_flags : Z;
  pb_packet_limit : Z;
  pb_route_count : Z;
}.

Definition eigrp_packetizer_builder_init (i : ptr) (nbr : option ptr) (opcode flags : Z) : eigrp_packetizer_builder :=
  {| pb_ei := i; pb_nbr := nbr; pb_packet := None; pb_opcode := opcode; pb_flags := flags; pb_route_count := 0;
     pb_encoder := match nbr with Some n => pe_nbr_encoder env n | None => pi_encoder (pe_intf env i) end;
     pb_packet_limit := u16 (eigrp_packet_payload_limit (pi_curr_mtu (pe_intf env i))) |}.

(** The placeholder of the authentication TLV. *)
Definition auth_placeholder (i : ptr) : Sm unit :=
  let ei := pi_auth (pe_intf env i) in
  if (auth_type ei =? EIGRP_AUTH_TYPE_MD5) && eigrp_auth_material_available ei
  then _ ← eigrp_auth_tlv_md5_encode (pe_key_lookup env) ei; mret tt
  else if (auth_type ei =? EIGRP_AUTH_TYPE_SHA256) && eigrp_auth_material_available ei
  then _ ← eigrp_auth_tlv_sha256_encode (pe_key_lookup env) ei; mret tt
  else mret tt.

Definition eigrp_packetizer_builder_start (b : eigrp_packetizer_builder) : Px (bool * eigrp_packetizer_builder) :=
  sequence ← sequence_reserve;
  packet ← eigrp_packet_create (Z.to_nat (pb_packet_limit b));
  match packet with
  | None => mret (false, {| b with pb_packet := None |})
  | Some s =>
      vrid ← px_st (gets vrid);
      '(_, s) ← px_stream s (eigrp_packet_header_init (pb_opcode b) (pb_flags b) sequence 0 vrid (pe_AS env));
      '(_, s) ← px_stream s (auth_placeholder (pb_ei b));
      mret (true, {| b with pb_packet := Some (sequence, s); pb_route_count := 0 |})
  end.

(** A packet without routes is dropped. *)
Definition eigrp_packetizer_builder_flush (b : eigrp_packetizer_builder) : Px eigrp_packetizer_builder :=
  match pb_packet b with
  | None => mret b
  | Some (sequence, s) =>
      when (negb (pb_route_count b =? 0))
        (modify (fun w => {| w with px_sent :=
           {| bt_intf := pb_ei b; bt_nbr := pb_nbr b; bt_opcode := pb_opcode b; bt_sequence := sequence;
              bt_stream := s |} :: px_sent w |}));;
      mret {| b with pb_packet := None |}
  end.

(** The packet of a started builder. *)
Definition builder_append (b : eigrp_packetizer_builder) (route : eigrp_route_descriptor) (target : eigrp_prefix)
    : Px (Z * eigrp_packetizer_builder) :=
  '(sequence, s) ← nonnull (pb_packet b);
  '(encoded, s) ← eigrp_packet_route_encode_append (pb_ei b) (pb_encoder b) s route target (pb_packet_limit b);
  mret (encoded, {| b with pb_packet := Some (sequence, s);
                    pb_route_count := if 0 <? encoded then u32 (pb_route_count b + 1) else pb_route_count b |}).

(** The route as it is written: behind the outbound offset list. *)
Definition offset_route (i : ptr) (route : eigrp_route_descriptor) (target : eigrp_prefix) : eigrp_route_descriptor :=
  {| route with rd_metric := eigrp_offset_metric_update (pe_evaluate env) (pe_policy env) (pi_policy (pe_intf env i))
                               EIGRP_FILTER_OUT target (rd_metric route) |}.

(** The TLV that does not fit goes to a fresh packet. *)
Definition builder_write (b : eigrp_packetizer_builder) (route : eigrp_route_descriptor) (target : eigrp_prefix)
    : Px (Z * eigrp_packetizer_builder) :=
  let wire_route := if pi_next_hop_self (pe_intf env (pb_ei b)) then {| route with rd_nexthop := zero_addr |} else route in
  '(encoded, b) ← builder_append b (offset_route (pb_ei b) wire_route target) target;
  if 0 <=? encoded then mret (encoded, b)
  else if pb_route_count b =? 0 then mret (0, b)
  else
    b ← eigrp_packetizer_builder_flush b;
    '(started, b) ← eigrp_packetizer_builder_start b;
    if negb started then mret (0, b)
    else
      '(encoded, b) ← builder_append b (offset_route (pb_ei b) route target) target;
      mret (if 0 <? encoded then encoded else 0, b).

Definition eigrp_packetizer_builder_route_add (b : eigrp_packetizer_builder) (route : eigrp_route_descriptor)
    (target : eigrp_prefix) : Px (Z * eigrp_packetizer_builder) :=
  '(started, b) ← (match pb_packet b with
                   | Some _ => mret (true, b)
                   | None => eigrp_packetizer_builder_start b
                   end);
  if negb started then mret (0, b) else builder_write b route target.

(** ** Work *)

Definition eigrp_packetizer_prefix_allowed (i : ptr) (destination : eigrp_prefix) : bool :=
  negb (outbound_denied i destination).

(** The aggregate that stands for destination [p] on interface [i]; its objects are on
    the stack. *)
Definition summary_build (i p : ptr) (opcode : Z) (route : eigrp_route_descriptor)
    : St (option (eigrp_prefix_descriptor * eigrp_route_descriptor)) :=
  if negb (opcode =? EIGRP_OPC_UPDATE) then mret None
  else
    prefix ← get_prefix p;
    sp ← gets next_addr;
    eigrp_summary_route_build (pe_auto_prefix env) (v_internal_tlv_type (vectors (pe_codec env)))
      (pe_summaries env) (pi_summary (pe_intf env i)) sp prefix route.

(** A QUERY is not sent over interface [i]. *)
Definition query_suppressed (i p : ptr) (opcode : Z) : St bool :=
  if negb (opcode =? EIGRP_OPC_QUERY) then mret false
  else
    horizon ← eigrp_packetizer_query_split_horizon p i;
    if horizon : bool then mret true
    else
      prefix ← get_prefix p;
      mret (eigrp_summary_covers (pe_auto_prefix env) (pe_summaries env) (pi_summary (pe_intf env i)) (destination prefix)).

(** One TLV: poison reverse, the outbound filter on [filtered], and the builder. *)
Definition wire_add (b : eigrp_packetizer_builder) (route : eigrp_route_descriptor) (filtered target : eigrp_prefix)
    : Px (Z * eigrp_packetizer_builder) :=
  route ← px_st (eigrp_packetizer_poison_reverse (pb_ei b) (pb_opcode b) route);
  if eigrp_packetizer_prefix_allowed (pb_ei b) filtered
  then eigrp_packetizer_builder_route_add b route target
  else mret (0, b).

(** The component of a summary that the leak map lets through. *)
Definition leak_add (b : eigrp_packetizer_builder) (p : ptr) (route : eigrp_route_descriptor)
    : Px eigrp_packetizer_builder :=
  prefix ← px_st (get_prefix p);
  if eigrp_summary_specific_leak (pe_leak_map env) (pe_summaries env) (pi_summary (pe_intf env (pb_ei b))) (destination prefix)
  then
    target ← px_st (wire_target route);
    '(_, b) ← wire_add b route (destination prefix) target;
    mret b
  else mret b.

Definition route_release (route : ptr) (owned : bool) : St unit := when owned (free_route route).

(** The destination itself, when no aggregate stands for it. *)
Definition specific_add (b : eigrp_packetizer_builder) (p : ptr) (route : eigrp_route_descriptor)
    : Px eigrp_packetizer_builder :=
  prefix ← px_st (get_prefix p);
  target ← px_st (wire_target route);
  '(encoded, b) ← wire_add b route (destination prefix) target;
  when ((0 <? encoded) && (pb_opcode b =? EIGRP_OPC_QUERY)) (px_st (eigrp_packetizer_query_rij_add p (pb_ei b)));;
  mret b.

Definition eigrp_packetizer_intf_prefix_send (i : ptr) (work : eigrp_packetizer_work) : Px unit :=
  p ← nonnull (work_prefix work);
  up ← px_st (eigrp_packetizer_intf_up_neighbors i);
  if negb up || opt_ptr_eqb (work_exception work) (Some i) then mret tt
  else
    suppressed ← px_st (query_suppressed i p (work_opcode work));
    if suppressed : bool then mret tt
    else
      '(route, owned) ← px_st (eigrp_packetizer_route_select p (work_route work) (work_opcode work));
      match route with
      | None => mret tt
      | Some r =>
          d ← px_st (get_route r);
          summary ← px_st (summary_build i p (work_opcode work) d);
          let b := eigrp_packetizer_builder_init i None (work_opcode work) 0 in
          b ← (match summary with
               | Some (summary_prefix, summary_route) =>
                   '(_, b) ← wire_add b summary_route (destination summary_prefix) (destination summary_prefix);
                   leak_add b p d
               | None => specific_add b p d
               end);
          _ ← eigrp_packetizer_builder_flush b;
          px_st (route_release r owned)
      end.

(** The answer of a neighbor's own path is unreachable. *)
Definition reply_poisoned (work : eigrp_packetizer_work) (n : ptr) (route : eigrp_route_descriptor) : bool :=
  (work_flags work .? EIGRP_PACKETIZER_WORK_F_POISON)
  || (((work_opcode work =? EIGRP_OPC_REPLY) || (work_opcode work =? EIGRP_OPC_SIAREPLY))
      && opt_ptr_eqb (rd_adv_router route) (Some n)).

Definition neighbor_route_select (work : eigrp_packetizer_work) (n p : ptr) : St (option ptr * bool) :=
  '(route, owned) ← eigrp_packetizer_route_select p (work_route work) (work_opcode work);
  match route with
  | None => mret (None, false)
  | Some r =>
      d ← get_route r;
      if negb (reply_poisoned work n d) then mret (Some r, owned)
      else
        poison ← eigrp_packetizer_poison_route_create p;
        route_release r owned;;
        mret (poison, bool_decide (is_Some poison))
  end.

Definition eigrp_packetizer_neighbor_route_send (work : eigrp_packetizer_work) : Px unit :=
  match work_nbr work, work_prefix work with
  | Some n, Some p =>
      nbr ← px_st (State.get_nbr n);
      match nbr_ei nbr with
      | None => mret tt
      | Some i =>
          if negb (nbr_state nbr =? EIGRP_NEIGHBOR_UP) || negb (pe_nbr_queue env n) then mret tt
          else
            '(route, owned) ← px_st (neighbor_route_select work n p);
            match route with
            | None => mret tt
            | Some r =>
                d ← px_st (get_route r);
                target ← px_st (wire_target d);
                let metric := rd_metric d in
                let wire_route :=
                  if work_flags work .? EIGRP_PACKETIZER_WORK_F_ROUTE_ACTIVE
                  then {| d with rd_metric := {| metric with flags := Z.lor (flags metric) EIGRP_OPAQUE_ACTIVE |} |}
                  else d in
                '(_, b) ← eigrp_packetizer_builder_route_add
                            (eigrp_packetizer_builder_init i (Some n) (work_opcode work) 0) wire_route target;
                _ ← eigrp_packetizer_builder_flush b;
                px_st (route_release r owned)
            end
      end
  | _, _ => mret tt
  end.

(** *** The pending changes *)

(** The aggregates an interface's packets already hold, with the capacity of the array. *)
Record summary_seen := { seen : list eigrp_prefix; seen_capacity : nat }.

(** Whether the aggregate is to be emitted; [None]: the array cannot grow. *)
Definition summary_note (summary : eigrp_prefix) (ss : summary_seen) : Px (option bool * summary_seen) :=
  if bool_decide (summary ∈ seen ss) then mret (Some false, ss)
  else
    let next := {| seen := seen ss ++ [summary]; seen_capacity := seen_capacity ss |} in
    if (length (seen ss) =? seen_capacity ss)%nat then
      grown ← px_malloc;
      if grown : bool then
        mret (Some true, {| next with seen_capacity := if (seen_capacity ss =? 0)%nat then 4 else seen_capacity ss * 2 |})
      else mret (None, ss)
    else mret (Some true, next).

(** One destination of the change list on one interface. *)
Definition change_add (action : Z) (p : ptr) (b : eigrp_packetizer_builder) (ss : summary_seen)
    : Px (eigrp_packetizer_builder * summary_seen) :=
  let i := pb_ei b in
  prefix ← px_st (get_prefix p);
  if negb (req_action prefix .? action) then mret (b, ss)
  else
    suppressed ← px_st (query_suppressed i p (pb_opcode b));
    if suppressed : bool then mret (b, ss)
    else
      '(route, owned) ← px_st (eigrp_packetizer_route_select p None (pb_opcode b));
      match route with
      | None => mret (b, ss)
      | Some r =>
          d ← px_st (get_route r);
          summary ← px_st (summary_build i p (pb_opcode b) d);
          '(b, ss) ←
            (match summary with
             | Some (summary_prefix, summary_route) =>
                 '(emit, ss) ← summary_note (destination summary_prefix) ss;
                 match emit with
                 | None => mret (b, ss)
                 | Some emit =>
                     '(_, b) ← (if emit : bool
                                then wire_add b summary_route (destination summary_prefix) (destination summary_prefix)
                                else mret (0, b));
                     b ← leak_add b p d;
                     mret (b, ss)
                 end
             | None => b ← specific_add b p d; mret (b, ss)
             end);
          px_st (route_release r owned);;
          mret (b, ss)
      end.

Fixpoint changes_add (action : Z) (changes : list ptr) (b : eigrp_packetizer_builder) (ss : summary_seen)
    : Px eigrp_packetizer_builder :=
  match changes with
  | [] => mret b
  | p :: changes' =>
      '(b, ss) ← change_add action p b ss;
      changes_add action changes' b ss
  end.

Definition intf_changes_send (work : eigrp_packetizer_work) (action : Z) (i : ptr) : Px unit :=
  up ← px_st (eigrp_packetizer_intf_up_neighbors i);
  if negb up || (negb (work_opcode work =? EIGRP_OPC_UPDATE) && opt_ptr_eqb (work_exception work) (Some i)) then mret tt
  else
    changes ← px_st (gets topology_changes);
    b ← changes_add action changes (eigrp_packetizer_builder_init i None (work_opcode work) 0)
          {| seen := []; seen_capacity := 0 |};
    _ ← eigrp_packetizer_builder_flush b;
    mret tt.
End packetizer.

(** [eigrp_list_remove(eigrp->topology_changes, pnode)]: the entry at position [k]. *)
Definition changes_remove (k : nat) : St unit :=
  modify (fun s => {| s with topology_changes := take k (topology_changes s) ++ drop (S k) (topology_changes s) |}).

(** The action of the entry [p] at position [k] is done; [retire] lists the settled
    destinations ([None]: the list could not be created).  Returns whether the entry
    left. *)
Definition change_settle (action : Z) (k : nat) (p : ptr) (retire : option (list ptr)) : St (bool * option (list ptr)) :=
  prefix ← get_prefix p;
  if negb (req_action prefix .? action) then
    if req_action prefix =? 0 then changes_remove k;; mret (true, retire) else mret (false, retire)
  else
    when (action =? EIGRP_FSM_NEED_QUERY) (eigrp_fsm_query_sent p);;
    upd_prefix p (fun d => {| d with req_action := Z.land (req_action d) (u32 (Z.lnot action)) |});;
    prefix ← get_prefix p;
    if negb (req_action prefix =? 0) then mret (false, retire)
    else
      changes_remove k;;
      match retire with
      | Some l =>
          if (action =? EIGRP_FSM_NEED_UPDATE) && is_passive (pd_state prefix) && negb (retirement_queued prefix) then
            ok ← calloc;
            if ok : bool then
              upd_prefix p (fun d => {| d with retirement_queued := true |});;
              mret (true, Some (l ++ [p]))
            else mret (true, retire)
          else mret (true, retire)
      | None => mret (true, retire)
      end.

(** The walk holds the next node while it works on the current one: entries appended
    meanwhile are visited unless the current one was the last. *)
Fixpoint changes_settle (fuel : nat) (action : Z) (k : nat) (retire : option (list ptr)) : St (option (list ptr)) :=
  match fuel with
  | O => ub
  | S fuel' =>
      changes ← gets topology_changes;
      match changes !! k with
      | None => mret retire
      | Some p =>
          let last := (length changes <=? S k)%nat in
          '(removed, retire) ← change_settle action k p retire;
          if last then mret retire
          else changes_settle fuel' action (if removed : bool then k else S k) retire
      end
  end.

Definition retire_all (retire : option (list ptr)) : St unit :=
  mfor (default [] retire) (fun p =>
    upd_prefix p (fun d => {| d with retirement_queued := false |});;
    eigrp_update_topology_table_prefix p).

(** Every visited entry appends at most one. *)
Definition settle_fuel (changes : list ptr) : nat := S (2 * length changes).

Section work.
Context (env : px_env).

Definition eigrp_packetizer_changes_send (work : eigrp_packetizer_work) (action : Z) : Px unit :=
  created ← px_st calloc;
  eifs ← px_st (gets eiflist);
  mfor eifs (intf_changes_send env work action);;
  px_st (changes ← gets topology_changes;
         retire ← changes_settle (settle_fuel changes) action 0 (if created : bool then Some [] else None);
         retire_all retire).

Definition eigrp_packetizer_query_send (work : eigrp_packetizer_work) : Px unit :=
  match work_nbr work, work_prefix work with
  | Some _, _ => eigrp_packetizer_neighbor_route_send env work
  | None, None => eigrp_packetizer_changes_send work EIGRP_FSM_NEED_QUERY
  | None, Some p =>
      eifs ← px_st (gets eiflist);
      mfor eifs (fun i => eigrp_packetizer_intf_prefix_send env i work);;
      when (work_opcode work =? EIGRP_OPC_QUERY) (px_st (eigrp_fsm_query_sent p))
  end.

Definition eigrp_packetizer_work_process (work : eigrp_packetizer_work) : Px unit :=
  let opcode := work_opcode work in
  if work_flags work .? EIGRP_PACKETIZER_WORK_F_DEFER_FREE then mret tt
  else if opcode =? EIGRP_OPC_UPDATE then
    match work_nbr work, work_prefix work with
    | Some _, _ => eigrp_packetizer_neighbor_route_send env work
    | None, Some _ => eigrp_packetizer_query_send work
    | None, None => eigrp_packetizer_changes_send work EIGRP_FSM_NEED_UPDATE
    end
  else if opcode =? EIGRP_OPC_QUERY then eigrp_packetizer_query_send work
  else if (opcode =? EIGRP_OPC_SIAQUERY) || (opcode =? EIGRP_OPC_REPLY) || (opcode =? EIGRP_OPC_SIAREPLY)
  then eigrp_packetizer_neighbor_route_send env work
  else mret tt.
End work.
