(* ===== verification/Builder.v ===== *)
(** * The packet builder

    The bytes the four encoders put behind a packet for any route the packetizer hands them:
    reachable or poisoned, with or without a next hop.  What [eigrp_packetizer_builder_start], [_route_add] and [_flush] do to the packet under
    construction, as lists of TLVs, and the packing of a sequence of routes. *)

From Stdlib Require Import ZArith Lia.
From stdpp Require Import base gmap list strings.
From S2P Require Import Prelude Types Metric Prefix PrefixProps Rtt Stream AfVectors Tlv1 Tlv1Props Tlv2 Tlv2Props Filter Auth Neighbor State Packetizer.

(** ** What the route encoders write *)

(** The encoder's filter makes a route unreachable. *)
Definition denied (filtered : bool) (route : eigrp_route_descriptor) : eigrp_route_descriptor :=
  let metric := rd_metric route in
  if filtered then {| route with rd_metric := {| metric with delay := EIGRP_MAX_METRIC |} |} else route.

Definition tlv1_wire (v : eigrp_af_vectors) (target : eigrp_prefix) (route : eigrp_route_descriptor) : list Z :=
  let type := eigrp_tlv1_route_tlv_type v route in
  if type =? 0 then []
  else tlv_frame type (tlv1_body v (type =? v_external_tlv_type v) target route).

Definition tlv2_wire (codec : tlv2_instance) (target : eigrp_prefix) (route : eigrp_route_descriptor) : list Z :=
  let type := eigrp_tlv2_route_tlv_type codec route in
  if type =? 0 then []
  else tlv_frame type (header2_wire codec route ++ sections2_wire codec (type =? EIGRP_TLV_MP_EXT) target route).

(** The bytes of one route under an encoder; none when one of its TLVs cannot be written. *)
Definition route_wire (codec : tlv2_instance) (enc : encoder) (filtered : bool) (target : eigrp_prefix)
    (route : eigrp_route_descriptor) : list Z :=
  let route := denied filtered route in
  let w1 := tlv1_wire (vectors codec) target route in
  let w2 := tlv2_wire codec target route in
  match enc with
  | eigrp_packet_encoder_safe => []
  | tlv1_encoder => w1
  | tlv2_encoder => w2
  | eigrp_packet_encoder_both => if bool_decide (w1 = []) || bool_decide (w2 = []) then [] else w1 ++ w2
  end.

(** The longest wire image: a classic and a multiprotocol TLV. *)
Definition wire_max : nat := 170.

Section encoders.
Context (codec : tlv2_instance).
Hypothesis Hok : tlv2_ok codec.
Let Hlaws : AfLaws (vectors codec) := to_laws _ Hok.
Local Existing Instance Hlaws.

Lemma denied_nexthop b route : rd_nexthop (denied b route) = rd_nexthop route.
Proof. by destruct b. Qed.

Lemma denied_twice b route : denied b (denied b route) = denied b route.
Proof. by destruct b. Qed.

Lemma tlv_frame_length type body : length (tlv_frame type body) = (4 + length body)%nat.
Proof. unfold tlv_frame. by rewrite !length_app, !to_be_length. Qed.

(** An encoder that gives up leaves what was written before it began. *)
Lemma rolled_back s s1 w (Q : unit -> eigrp_stream -> Prop) :
  stream_wf s -> appended s s1 w -> (forall s', appended s s' [] -> Q tt s') -> wp (eigrp_stream_set_endp (endp s)) Q s1.
Proof.
  intros [W1 W2 W3] [[B1 B2 B3] A2 A3 A4 A5] HQ.
  assert (take (endp s) (data s1) = written s) as Hw.
  { transitivity (take (endp s) (written s1)).
    - unfold written. rewrite take_take. f_equal. lia.
    - rewrite A2. rewrite take_app_le; unfold written; rewrite ?length_take; [|lia].
      rewrite take_take. f_equal. lia. }
  apply wp_set_endp; [lia|]. apply HQ. split; simpl.
  - split; simpl; [|lia|done]. destruct (Nat.ltb_spec (endp s) (getp s1)); lia.
  - unfold written at 1. simpl. by rewrite app_nil_r.
  - destruct (Nat.ltb_spec (endp s) (getp s1)); lia.
  - lia.
  - done.
Qed.

Lemma tlv1_type_cases v route : AfLaws v -> eigrp_tlv1_route_tlv_type v route <> 0 ->
  exists external, eigrp_tlv1_route_tlv_type v route = tlv1_type v external
    /\ (eigrp_tlv1_route_tlv_type v route =? v_external_tlv_type v) = external.
Proof.
  intros L H. destruct (al_types (v := v)) as (_ & _ & Hd & _). unfold eigrp_tlv1_route_tlv_type in *.
  destruct (_ || _); [exists false; split; [done|by apply Z.eqb_neq]|].
  destruct (_ || _); [exists true; split; [done|apply Z.eqb_refl]|done].
Qed.

Lemma tlv2_type_cases route : eigrp_tlv2_route_tlv_type codec route <> 0 ->
  exists external, eigrp_tlv2_route_tlv_type codec route = tlv2_type external
    /\ (eigrp_tlv2_route_tlv_type codec route =? EIGRP_TLV_MP_EXT) = external.
Proof.
  intros H. unfold eigrp_tlv2_route_tlv_type in *.
  destruct (_ || _); [by exists true|]. destruct (_ || _); [by exists false|done].
Qed.

Context (target : eigrp_prefix).
Hypothesis Htarget : prefix_ok (vectors codec) target.

Lemma wp_tlv1_any filtered route s (Q : nat * eigrp_route_descriptor -> eigrp_stream -> Prop) :
  nexthop_ok (vectors codec) (rd_nexthop route) -> stream_wf s -> stream_room s 73 ->
  (forall s', let w := tlv1_wire (vectors codec) target (denied filtered route) in
     appended s s' w -> (length w <= 73)%nat -> Q (length w, denied filtered route) s') ->
  wp (eigrp_tlv1_encoder (vectors codec) filtered target route) Q s.
Proof.
  intros Hn W R HQ. set (route' := denied filtered route) in *.
  assert (eigrp_tlv1_encoder (vectors codec) filtered target route
          = eigrp_tlv1_encoder (vectors codec) false target route') as -> by (by destruct filtered).
  assert (nexthop_ok (vectors codec) (rd_nexthop route')) as Hn' by (unfold route'; by rewrite denied_nexthop).
  cbv zeta in HQ. unfold tlv1_wire in HQ.
  destruct (Z.eqb_spec (eigrp_tlv1_route_tlv_type (vectors codec) route') 0) as [E|E].
  - unfold eigrp_tlv1_encoder. rewrite E. simpl. apply HQ; [by apply appended_refl|simpl; lia].
  - destruct (tlv1_type_cases _ _ Hlaws E) as (ext & E1 & E2). rewrite E2, E1 in HQ.
    assert (tlv1_sendable (vectors codec) ext target route') as S by (by split).
    eapply (wp_tlv1_encoder _ ext); [exact S|done|done|]. intros s' w -> A. apply HQ; [done|].
    rewrite tlv_frame_length, (tlv1_body_length _ _ _ _ S).
    pose proof (al_wire_length (v := vectors codec) target Htarget). pose proof (al_width (v := vectors codec)).
    destruct ext; lia.
Qed.

Lemma wp_tlv2_any filtered route s (Q : nat * eigrp_route_descriptor -> eigrp_stream -> Prop) :
  nexthop_ok (vectors codec) (rd_nexthop route) -> stream_wf s -> stream_room s 97 ->
  (forall s', let w := tlv2_wire codec target (denied filtered route) in
     appended s s' w -> (length w <= 97)%nat -> Q (length w, denied filtered route) s') ->
  wp (eigrp_tlv2_encoder codec filtered target route) Q s.
Proof.
  intros Hn W R HQ. set (route' := denied filtered route) in *.
  assert (eigrp_tlv2_encoder codec filtered target route = eigrp_tlv2_encoder codec false target route') as ->
    by (by destruct filtered).
  assert (nexthop_ok (vectors codec) (rd_nexthop route')) as Hn' by (unfold route'; by rewrite denied_nexthop).
  cbv zeta in HQ. unfold tlv2_wire in HQ.
  destruct (Z.eqb_spec (eigrp_tlv2_route_tlv_type codec route') 0) as [E|E].
  - unfold eigrp_tlv2_encoder. rewrite E. simpl. apply HQ; [by apply appended_refl|simpl; lia].
  - destruct (tlv2_type_cases _ E) as (ext & E1 & E2). rewrite E2, E1 in HQ.
    assert (tlv2_sendable codec ext target route') as S by (by split).
    eapply (wp_tlv2_encoder _ ext); [exact S|done|done|]. intros s' w -> A. apply HQ; [done|].
    destruct (sections2_length codec ext target route' S) as (Hl & Ha & Hp).
    rewrite tlv_frame_length, length_app, header2_length, Hl. destruct ext; lia.
Qed.

(** Whatever the encoder, exactly [route_wire] is appended. *)
Lemma wp_route_encode enc filtered route s (Q : nat -> eigrp_stream -> Prop) :
  nexthop_ok (vectors codec) (rd_nexthop route) -> stream_wf s -> stream_room s wire_max ->
  (forall s', let w := route_wire codec enc filtered target route in
     appended s s' w -> (length w <= wire_max)%nat -> Q (length w) s') ->
  wp (route_encode codec enc filtered target route) Q s.
Proof.
  intros Hn W R HQ. unfold wire_max in *. destruct enc; simpl in *.
  - apply HQ; [by apply appended_refl|simpl; lia].
  - rewrite wp_bind. apply wp_tlv1_any; [done|done|eapply room_less; [done|lia]|]. intros s' w A Hl. apply HQ; [done|etransitivity; [exact Hl|lia]].
  - rewrite wp_bind. apply wp_tlv2_any; [done|done|eapply room_less; [done|lia]|]. intros s' w A Hl. apply HQ; [done|etransitivity; [exact Hl|lia]].
  - rewrite wp_bind, wp_gets, wp_bind. apply wp_tlv1_any; [done|done|eapply room_less; [done|lia]|]. intros s1 w1 A1 L1.
    rewrite wp_bind. apply wp_tlv2_any; [by rewrite denied_nexthop|apply A1|eapply appended_room; [exact A1|exact R|lia]|].
    intros s2 w2 A2 L2. subst w1 w2. rewrite denied_twice in *. pose proof (appended_trans _ _ _ _ _ A1 A2) as A.
    set (w1 := tlv1_wire _ _ _) in *. set (w2 := tlv2_wire _ _ _) in *.
    assert (forall w : list Z, (length w =? 0)%nat = bool_decide (w = [])) as Hz by (intros [|]; done).
    rewrite !Hz. destruct (bool_decide (w1 = []) || bool_decide (w2 = [])).
    + rewrite wp_bind. eapply rolled_back; [done|exact A|]. intros s' A'. apply HQ; [done|simpl; lia].
    + rewrite wp_ret, <-length_app. apply HQ; [done|rewrite length_app; lia].
Qed.
End encoders.

(** ** Lifting *)

Section lifting.
Lemma wp_px_st {A} (m : St A) (Q : A -> px -> Prop) w :
  wp (px_st m) Q w <-> wp m (fun x s => Q x {| w with px_store := s |}) (px_store w).
Proof. unfold wp, px_st. by destruct (m (px_store w)) as [[x s]|]. Qed.

Lemma wp_px_stream {A} (m : Sm A) s (Q : A * eigrp_stream -> px -> Prop) w :
  wp (px_stream s m) Q w
  <-> wp m (fun x s' => Q (x, s') {| w with px_heap := heap s' |}) {| s with heap := px_heap w |}.
Proof. unfold wp, px_stream. by destruct (m _) as [[x s']|]. Qed.

Lemma px_store_same w : {| w with px_store := px_store w |} = w.
Proof. by destruct w. Qed.
Lemma px_heap_same w : {| w with px_heap := px_heap w |} = w.
Proof. by destruct w. Qed.
End lifting.

(** ** The head of a packet *)

Definition auth_frame (a_type : Z) (size len : nat) (id : Z) : list Z :=
  to_be 2 EIGRP_TLV_AUTH ++ to_be 2 (Z.of_nat size) ++ to_be 2 a_type
  ++ to_be 2 (Z.of_nat len) ++ to_be 4 id ++ to_be 4 0 ++ replicate 8 0 ++ replicate len 0.

(** The authentication TLV of an interface, when it has one. *)
Definition auth_wire (env : px_env) (i : ptr) : list Z :=
  let ei := pi_auth (pe_intf env i) in
  let key := eigrp_auth_key_get (pe_key_lookup env) ei (PLAINTEXT_LENGTH + 1) in
  if (auth_type ei =? EIGRP_AUTH_TYPE_MD5) && eigrp_auth_material_available ei
  then from_option (fun k => auth_frame EIGRP_AUTH_TYPE_MD5 EIGRP_AUTH_MD5_TLV_SIZE EIGRP_AUTH_TYPE_MD5_LEN (fst k)) [] key
  else if (auth_type ei =? EIGRP_AUTH_TYPE_SHA256) && eigrp_auth_material_available ei
  then from_option (fun _ => auth_frame EIGRP_AUTH_TYPE_SHA256 EIGRP_AUTH_SHA256_TLV_SIZE EIGRP_AUTH_TYPE_SHA256_LEN 0) [] key
  else [].

Definition head_wire (env : px_env) (vrid : Z) (b : eigrp_packetizer_builder) (sequence : Z) : list Z :=
  header_bytes (pb_opcode b) (pb_flags b) sequence 0 vrid (pe_AS env) ++ auth_wire env (pb_ei b).

Definition head_size (env : px_env) (i : ptr) : nat := (header_len + length (auth_wire env i))%nat.

(** [s'] is [s] with [bs] behind what was written. *)
Record extended (s s' : eigrp_stream) (bs : list Z) : Prop := {
  ex_wf : stream_wf s';
  ex_written : written s' = written s ++ bs;
  ex_endp : endp s' = (endp s + length bs)%nat;
}.

Section streams.
Implicit Types (w : px) (s : eigrp_stream).

Lemma header_length type fl sequence ack vrid as_number :
  length (header_bytes type fl sequence ack vrid as_number) = header_len.
Proof. unfold header_bytes. by rewrite !length_app, !to_be_length. Qed.

Lemma header_bytes_ok type fl sequence ack vrid as_number : Forall byte (header_bytes type fl sequence ack vrid as_number).
Proof. unfold header_bytes. rewrite !Forall_app. repeat split; apply to_be_bytes. Qed.

Lemma auth_frame_ok a_type size len id : Forall byte (auth_frame a_type size len id).
Proof.
  unfold auth_frame. rewrite !Forall_app. repeat split; try apply to_be_bytes; apply Forall_replicate; done.
Qed.

Lemma auth_wire_ok env i : Forall byte (auth_wire env i) /\ (length (auth_wire env i) <= 56)%nat.
Proof.
  unfold auth_wire. cbv zeta. split.
  - repeat case_match; try constructor; (destruct (eigrp_auth_key_get _ _ _); [apply auth_frame_ok|constructor]).
  - assert (forall t n len id, (len <= 32)%nat -> (length (auth_frame t n len id) <= 56)%nat) as Hf.
    { intros. unfold auth_frame. rewrite !length_app, !to_be_length, !length_replicate. lia. }
    repeat case_match; cbn [length]; try lia; (destruct (eigrp_auth_key_get _ _ _); cbn [from_option length];
      [apply Hf; unfold EIGRP_AUTH_TYPE_MD5_LEN, EIGRP_AUTH_TYPE_SHA256_LEN|]; lia).
Qed.

Lemma wp_px_create size w (Q : option eigrp_stream -> px -> Prop) :
  grants (px_heap w) = [] -> (0 < size)%nat -> Z.of_nat size <= SIZE_MAX / 2 ->
  (forall s, stream_wf s -> getp s = 0%nat -> endp s = 0%nat -> (size <= length (data s))%nat -> Q (Some s) w) ->
  wp (px_stream_create size) Q w.
Proof.
  intros Hg Hs Hm HQ. unfold px_stream_create. rewrite wp_bind, wp_gets, wp_bind, wp_px_stream. cbn [data getp endp heap].
  unfold stream_create. rewrite wp_bind. apply wp_allocate; [done|]. cbn [negb].
  destruct (Nat.eqb_spec size 0) as [E|_]; [lia|]. apply wp_ensure; [by split; simpl; [lia..|constructor]|done|done|].
  intros extra Hx Hl. cbn [data heap] in *. rewrite app_nil_l, px_heap_same, wp_ret. simpl in Hl.
  apply HQ; [|done..]. by split; simpl; [lia..|].
Qed.

Lemma wp_px_malloc w (Q : bool -> px -> Prop) : grants (px_heap w) = [] -> Q true w -> wp px_malloc Q w.
Proof.
  intros Hg HQ. unfold px_malloc. rewrite wp_bind, wp_gets, wp_bind, wp_px_stream. apply wp_allocate; [done|].
  cbn [heap]. by rewrite px_heap_same, wp_ret.
Qed.

(** A put behind the packet, on the shared allocator. *)
Lemma wp_px_append {A} (m : Sm A) bs s w (Q : A * eigrp_stream -> px -> Prop) :
  (forall P : A -> eigrp_stream -> Prop, let s0 := {| s with heap := px_heap w |} in
     (forall x s', appended s0 s' bs -> P x s') -> wp m P s0) ->
  (forall x s', extended s s' bs -> Q (x, s') w) ->
  wp (px_stream s m) Q w.
Proof.
  intros Hm HQ. rewrite wp_px_stream. apply Hm. intros x s' [A1 A2 A3 A4 A5]. cbn [heap] in A5.
  rewrite A5, px_heap_same. by apply HQ.
Qed.

Lemma extended_trans s1 s2 s3 a b : extended s1 s2 a -> extended s2 s3 b -> extended s1 s3 (a ++ b).
Proof.
  intros [A1 A2 A3] [B1 B2 B3]. split; [done|by rewrite B2, A2, app_assoc|]. rewrite B3, A3, length_app. lia.
Qed.

Lemma stream_heap_wf s h : stream_wf s -> stream_wf {| s with heap := h |}.
Proof. by intros [H1 H2 H3]. Qed.

Lemma wp_header_init type fl sequence ack vrid as_number s w (Q : unit * eigrp_stream -> px -> Prop) :
  stream_wf s -> (header_len <= length (data s))%nat ->
  (forall s', stream_wf s' -> written s' = header_bytes type fl sequence ack vrid as_number -> endp s' = header_len ->
     (length (data s) <= length (data s'))%nat -> Q (tt, s') w) ->
  wp (px_stream s (eigrp_packet_header_init type fl sequence ack vrid as_number)) Q w.
Proof.
  intros [W1 W2 W3] Hl HQ. rewrite wp_px_stream. unfold eigrp_packet_header_init, eigrp_stream_clear.
  set (h := header_bytes _ _ _ _ _ _) in *. assert (length h = header_len) as Hh by apply header_length.
  rewrite wp_bind, wp_modify. cbn [data heap]. unfold stream_write. rewrite !wp_bind, wp_get. cbn [data].
  rewrite (proj2 (Nat.leb_le _ _)) by lia. rewrite wp_modify. cbn [data getp endp heap].
  unfold eigrp_stream_forward_endp, eigrp_stream_ensure. rewrite !wp_bind, wp_get. cbn [data endp].
  rewrite !wp_bind, wp_get. cbn [data]. rewrite Hh, take_0, app_nil_l, !Nat.add_0_l.
  assert (length (h ++ drop header_len (data s)) = length (data s)) as Hd by (rewrite length_app, length_drop, Hh; lia).
  rewrite Hd, (proj2 (Nat.leb_le _ _)), wp_ret, wp_modify by done. cbn [data getp endp heap]. rewrite px_heap_same.
  apply HQ; [| |done|cbn [data]; lia].
  - split; cbn [data getp endp]; [lia|lia|]. apply Forall_app. split; [apply header_bytes_ok|by apply Forall_drop].
  - unfold written. cbn [data endp]. rewrite <-Hh. apply take_app_length.
Qed.
End streams.

(** ** The packet under construction *)

(** What the builder needs of the environment: the codec, and the limit of the interface. *)
Record builds (env : px_env) (b : eigrp_packetizer_builder) (w : px) : Prop := {
  bl_codec : tlv2_ok (pe_codec env);
  bl_memory : grants (px_heap w) = [];
  bl_limit : Z.of_nat header_len <= pb_packet_limit b < 2 ^ 16;
}.

(** The builder's packet holds the TLVs [tl] behind its head; [None]: there is no packet. *)
Definition holds (env : px_env) (vrid : Z) (b : eigrp_packetizer_builder) (tl : option (Z * list (list Z))) : Prop :=
  match pb_packet b, tl with
  | None, None => True
  | Some (sequence, s), Some (sequence', l) =>
      sequence = sequence' /\ stream_wf s /\ written s = head_wire env vrid b sequence ++ concat l
      /\ Forall (fun t => t <> []) l
      /\ (l <> [] -> Z.of_nat (endp s) <= pb_packet_limit b)
      /\ pb_route_count b = Z.of_nat (length l)
  | _, _ => False
  end.

(** The builders of one interface and work item. *)
Definition same_builder (b b' : eigrp_packetizer_builder) : Prop :=
  pb_ei b' = pb_ei b /\ pb_nbr b' = pb_nbr b /\ pb_encoder b' = pb_encoder b /\ pb_opcode b' = pb_opcode b
  /\ pb_flags b' = pb_flags b /\ pb_packet_limit b' = pb_packet_limit b.

Definition px_reserve (w : px) : px := {| w with px_sequence := snd (eigrp_packet_sequence_reserve (px_sequence w)) |}.
Definition px_next (w : px) : Z := fst (eigrp_packet_sequence_reserve (px_sequence w)).

(** The wire image of a route on the builder's interface, at the first and at a second
    attempt. *)
Definition builder_wire (env : px_env) (b : eigrp_packetizer_builder) (route : eigrp_route_descriptor)
    (target : eigrp_prefix) : list Z :=
  route_wire (pe_codec env) (pb_encoder b) (outbound_denied env (pb_ei b) target) target
    (offset_route env (pb_ei b) route target).

Definition first_route (env : px_env) (i : ptr) (route : eigrp_route_descriptor) : eigrp_route_descriptor :=
  if pi_next_hop_self (pe_intf env i) then {| route with rd_nexthop := zero_addr |} else route.

Section building.
Context (env : px_env).
Implicit Types (w : px) (s : eigrp_stream) (b : eigrp_packetizer_builder).

Lemma same_builder_refl b : same_builder b b.
Proof. done. Qed.
Lemma same_builder_trans b1 b2 b3 : same_builder b1 b2 -> same_builder b2 b3 -> same_builder b1 b3.
Proof. intros (A1 & A2 & A3 & A4 & A5 & A6) (B1 & B2 & B3 & B4 & B5 & B6). unfold same_builder. by rewrite B1, B2, B3, B4, B5, B6. Qed.

Lemma same_builder_sym b b' : same_builder b b' -> same_builder b' b.
Proof. unfold same_builder. by intros (-> & -> & -> & -> & -> & ->). Qed.

Lemma builds_same b b' w : same_builder b b' -> builds env b w -> builds env b' w.
Proof. intros (_ & _ & _ & _ & _ & E) [H1 H2 H3]. split; [done|done|]. by rewrite E. Qed.

Lemma wp_auth_placeholder i s w (Q : unit * eigrp_stream -> px -> Prop) :
  grants (px_heap w) = [] -> stream_wf s -> Z.of_nat (endp s) <= 2 ^ 20 ->
  (forall s', extended s s' (auth_wire env i) -> Q (tt, s') w) ->
  wp (px_stream s (auth_placeholder env i)) Q w.
Proof.
  intros Hg W He HQ. eapply (wp_px_append _ (auth_wire env i)); [|intros [] s' X; by apply HQ].
  intros P s0 HP. assert (stream_wf s0) as W0 by (by apply stream_heap_wf).
  destruct (auth_wire_ok env i) as [Hb Hl]. unfold auth_placeholder, auth_wire in *. cbv zeta in *.
  set (ei := pi_auth (pe_intf env i)) in *. set (key := eigrp_auth_key_get _ _ _) in *.
  assert (stream_room s0 56) as R.
  { split; [done|]. change (endp s0) with (endp s). change (SIZE_MAX / 2) with 9223372036854775807. lia. }
  assert (forall t n len id (P : nat -> eigrp_stream -> Prop), Forall byte (auth_frame t n len id) ->
    (length (auth_frame t n len id) <= 56)%nat -> (forall x s', appended s0 s' (auth_frame t n len id) -> P x s') ->
    wp (eigrp_stream_put (auth_frame t n len id);; mret n) P s0) as Hput.
  { intros t n len id P' Hb' Hl' HP'. rewrite wp_bind. eapply wp_put_chain; [by apply appended_refl|exact R|done|done|].
    intros s' A. rewrite wp_ret. by apply HP'. }
  assert (wp (mret tt) P s0 <-> P tt s0) as Hret by apply wp_ret.
  destruct ((auth_type ei =? EIGRP_AUTH_TYPE_MD5) && _).
  { rewrite wp_bind. unfold eigrp_auth_tlv_md5_encode, auth_tlv_encode. rewrite wp_bind. apply wp_allocate; [done|].
    cbn [negb]. fold key. destruct key as [[id k]|]; cbn [from_option fst] in *.
    - apply Hput; [done|done|]. intros x s' A. apply wp_ret. by apply HP.
    - apply wp_ret, wp_ret, HP. by apply appended_refl. }
  destruct ((auth_type ei =? EIGRP_AUTH_TYPE_SHA256) && _).
  { rewrite wp_bind. unfold eigrp_auth_tlv_sha256_encode, auth_tlv_encode. rewrite wp_bind. apply wp_allocate; [done|].
    cbn [negb]. fold key. destruct key as [[id k]|]; cbn [from_option fst] in *.
    - apply Hput; [done|done|]. intros x s' A. apply wp_ret. by apply HP.
    - apply wp_ret, wp_ret, HP. by apply appended_refl. }
  apply wp_ret, HP. by apply appended_refl.
Qed.

(** A started packet is its head. *)
Lemma wp_builder_start b w (Q : bool * eigrp_packetizer_builder -> px -> Prop) :
  builds env b w ->
  (forall b', same_builder b b' -> holds env (vrid (px_store w)) b' (Some (px_next w, [])) ->
     Q (true, b') (px_reserve w)) ->
  wp (eigrp_packetizer_builder_start env b) Q w.
Proof.
  intros [Hc Hg Hl] HQ. unfold eigrp_packetizer_builder_start, sequence_reserve, px_reserve, px_next in *.
  rewrite !wp_bind, wp_get. destruct (eigrp_packet_sequence_reserve (px_sequence w)) as [sequence next] eqn:Es.
  cbn [fst snd] in HQ. rewrite wp_bind, wp_modify, wp_ret. set (w1 := {| w with px_sequence := next |}) in *.
  change (Z.of_nat header_len) with 20 in Hl.
  rewrite wp_bind. unfold eigrp_packet_create. rewrite wp_bind. apply wp_px_malloc; [done|].
  apply wp_px_create; [done|lia|change (SIZE_MAX / 2) with 9223372036854775807; lia|]. intros s W Hg0 He0 Hd.
  rewrite wp_bind, wp_px_st, wp_gets, px_store_same, wp_bind.
  apply wp_header_init; [done|unfold header_len; lia|]. intros s1 W1 E1 H1 _. rewrite wp_bind.
  apply wp_auth_placeholder; [done|done|rewrite H1; unfold header_len; lia|]. intros s2 [X1 X2 X3]. rewrite wp_ret.
  apply HQ; [done|]. unfold holds. cbn [pb_packet pb_route_count pb_packet_limit].
  split; [done|]. split; [done|]. split; [|done].
  unfold head_wire. cbn [pb_opcode pb_flags pb_ei concat]. by rewrite X2, E1, app_nil_r.
Qed.

Lemma wp_encode_append i enc s route target limit w (Q : Z * eigrp_stream -> px -> Prop) :
  let wire := route_wire (pe_codec env) enc (outbound_denied env i target) target route in
  tlv2_ok (pe_codec env) -> grants (px_heap w) = [] -> 0 < limit < 2 ^ 16 -> stream_wf s -> Z.of_nat (endp s) <= 2 ^ 20 ->
  prefix_ok (vectors (pe_codec env)) target -> nexthop_ok (vectors (pe_codec env)) (rd_nexthop route) ->
  (if bool_decide (wire = []) then Q (0, s) w
   else if limit <? Z.of_nat (endp s + length wire) then Q (-1, s) w
   else forall s', extended s s' wire -> Q (Z.of_nat (length wire), s') w) ->
  wp (eigrp_packet_route_encode_append env i enc s route target limit) Q w.
Proof.
  intros wire Hc Hg Hl W He Ht Hn HQ. unfold eigrp_packet_route_encode_append. rewrite (proj2 (Z.eqb_neq _ _)) by lia.
  rewrite wp_bind. apply wp_px_create; [done|lia|change (SIZE_MAX / 2) with 9223372036854775807; lia|].
  intros sc Wsc _ Hsc _. rewrite wp_bind, wp_px_stream.
  apply (wp_route_encode _ Hc _ Ht); [done|by apply stream_heap_wf|split; [done|]|].
  { cbn [endp]. rewrite Hsc. change (SIZE_MAX / 2) with 9223372036854775807. unfold wire_max. lia. }
  intros s1 w1 [A1 A2 A3 A4 A5] Hmax. cbn [heap endp] in A4, A5. rewrite A5, px_heap_same. change w1 with wire in *. clear w1.
  replace (length wire =? 0)%nat with (bool_decide (wire = [])) by (by destruct wire).
  case_bool_decide as Ew; [by apply wp_ret|]. case_match; [by apply wp_ret|].
  assert (take (length wire) (data s1) = wire) as Et.
  { unfold written in A2. cbn [data endp] in A2. rewrite Hsc in A2, A4. rewrite A4 in A2. simpl in A2. done. }
  assert (length wire <= length (data s1))%nat as Hlen.
  { rewrite <-Et at 1. rewrite length_take. lia. }
  rewrite (proj2 (Nat.leb_le _ _)), wp_bind, Et by done.
  eapply (wp_px_append _ wire); [|intros x s' X; apply wp_ret; by apply HQ].
  intros P s0 HP. apply (wp_put_chain _ s0 _ [] (length wire)); [apply appended_refl; by apply stream_heap_wf| |done| |].
  - split; [done|]. change (endp s0) with (endp s). change (SIZE_MAX / 2) with 9223372036854775807. unfold wire_max in Hmax. lia.
  - rewrite <-Et. apply Forall_take, A1.
  - intros s' A. by apply HP.
Qed.
End building.

(** ** The abstract builder *)

(** The open packet with its sequence number and TLVs, the packets that were sent, and the
    sequence counter. *)
Record bstate := {
  bs_open : option (Z * list (list Z));
  bs_closed : list (Z * list (list Z));
  bs_sequence : Z;
}.

Definition bs_start (st : bstate) : bstate :=
  let '(n, next) := eigrp_packet_sequence_reserve (bs_sequence st) in
  {| st with bs_open := Some (n, []); bs_sequence := next |}.

(** A packet without TLVs is dropped. *)
Definition bs_flush (st : bstate) : bstate :=
  {| st with bs_open := None;
     bs_closed := match bs_open st with
                  | Some (n, (_ :: _) as l) => bs_closed st ++ [(n, l)]
                  | _ => bs_closed st
                  end |}.

(** One TLV behind those of the open packet, when the packet stays within [limit]. *)
Definition bs_append (limit head : nat) (wire : list Z) (st : bstate) : option bstate :=
  match bs_open st with
  | Some (n, l) =>
      if bool_decide (wire = []) || (limit <? head + length (concat l) + length wire)%nat then None
      else Some {| st with bs_open := Some (n, l ++ [wire]) |}
  | None => None
  end.

(** [wire] is tried first; in a fresh packet the route is written as [again]. *)
Definition bs_add (limit head : nat) (wire again : list Z) (st : bstate) : nat * bstate :=
  let st := match bs_open st with Some _ => st | None => bs_start st end in
  match bs_append limit head wire st with
  | Some st' => (length wire, st')
  | None =>
      if bool_decide (wire = []) || bool_decide (from_option snd [] (bs_open st) = []) then (0%nat, st)
      else
        let st := bs_start (bs_flush st) in
        match bs_append limit head again st with
        | Some st' => (length again, st')
        | None => (0%nat, st)
        end
  end.

(** A packet of builder [b] with these TLVs. *)
Definition packet_is (env : px_env) (vrid : Z) (b : eigrp_packetizer_builder) (p : Z * list (list Z)) (x : built) : Prop :=
  bt_intf x = pb_ei b /\ bt_nbr x = pb_nbr b /\ bt_opcode x = pb_opcode b /\ bt_sequence x = fst p
  /\ stream_wf (bt_stream x) /\ written (bt_stream x) = head_wire env vrid b (fst p) ++ concat (snd p).

(** The builder and what it sent since [w0]. *)
Record refines (env : px_env) (w0 : px) (b : eigrp_packetizer_builder) (w : px) (st : bstate) : Prop := {
  rf_open : holds env (vrid (px_store w0)) b (bs_open st);
  rf_sequence : px_sequence w = bs_sequence st;
  rf_sent : exists new, px_sent w = new ++ px_sent w0 /\ Forall2 (packet_is env (vrid (px_store w0)) b) (bs_closed st) (rev new);
  rf_heap : px_heap w = px_heap w0;
  rf_vrid : vrid (px_store w) = vrid (px_store w0);
}.

Section refinement.
Context (env : px_env) (w0 : px).
Implicit Types (w : px) (s : eigrp_stream) (b : eigrp_packetizer_builder).

Abbreviation limit b := (Z.to_nat (pb_packet_limit b)).
Abbreviation head b := (head_size env (pb_ei b)).

Lemma concat_length_ge {A} (l : list (list A)) : Forall (fun t => t <> []) l -> (length l <= length (concat l))%nat.
Proof.
  induction 1 as [|t l Ht _ IH]; [done|]. simpl. rewrite length_app. destruct t; [done|]. simpl. lia.
Qed.

Lemma head_wire_length vrid b sequence : length (head_wire env vrid b sequence) = head b.
Proof. unfold head_wire, head_size. by rewrite length_app, header_length. Qed.

Lemma head_size_max i : (head_size env i <= 76)%nat.
Proof. unfold head_size, header_len. destruct (auth_wire_ok env i). lia. Qed.

Lemma same_wire vrid b b' sequence : same_builder b b' -> head_wire env vrid b' sequence = head_wire env vrid b sequence.
Proof. intros (E1 & _ & _ & E4 & E5 & _). unfold head_wire. by rewrite E1, E4, E5. Qed.

Lemma packet_is_same vrid b b' p x : same_builder b b' -> packet_is env vrid b p x -> packet_is env vrid b' p x.
Proof.
  intros S (H1 & H2 & H3 & H4 & H5 & H6). pose proof S as (E1 & E2 & _ & E4 & _).
  repeat split; try congruence; try apply H5. by rewrite (same_wire _ b).
Qed.

(** The refinement with another packet open. *)
Lemma refines_open b b' w st st' :
  refines env w0 b w st -> same_builder b b' -> bs_closed st' = bs_closed st -> bs_sequence st' = bs_sequence st ->
  holds env (vrid (px_store w0)) b' (bs_open st') -> refines env w0 b' w st'.
Proof.
  intros [R1 R2 (new & R3 & R4) R5 R6] S E1 E2 H. split; [done|congruence| |done|done].
  exists new. split; [done|]. rewrite E1. eapply Forall2_impl; [exact R4|]. intros p x. by apply packet_is_same.
Qed.

Lemma holds_size b w st n l : refines env w0 b w st -> bs_open st = Some (n, l) ->
  exists s, pb_packet b = Some (n, s) /\ stream_wf s /\ written s = head_wire env (vrid (px_store w0)) b n ++ concat l
    /\ endp s = (head b + length (concat l))%nat /\ Forall (fun t => t <> []) l
    /\ (l <> [] -> Z.of_nat (endp s) <= pb_packet_limit b) /\ pb_route_count b = Z.of_nat (length l).
Proof.
  intros [R1 _ _ _ _] Eo. unfold holds in R1. rewrite Eo in R1. destruct (pb_packet b) as [[n' s]|]; [|done].
  destruct R1 as (-> & W & E1 & F & L & C). exists s. split; [done|]. split; [done|]. split; [done|]. split; [|done].
  rewrite <-(written_length s W), E1, length_app. by rewrite head_wire_length.
Qed.

(** A TLV that fits is behind the others. *)
Lemma holds_add b w st n l s s' wire count :
  refines env w0 b w st -> builds env b w -> bs_open st = Some (n, l) -> pb_packet b = Some (n, s) -> wire <> [] ->
  (head b + length (concat l) + length wire <= limit b)%nat -> extended s s' wire -> count = u32 (pb_route_count b + 1) ->
  refines env w0 {| b with pb_packet := Some (n, s'); pb_route_count := count |} w {| st with bs_open := Some (n, l ++ [wire]) |}.
Proof.
  intros R [_ _ Hl] Eo Ep Hw Hf [X1 X2 X3] ->. destruct (holds_size _ _ _ _ _ R Eo) as (s1 & Ep1 & W & E1 & E2 & F & _ & C).
  rewrite Ep in Ep1. injection Ep1 as <-. eapply refines_open; [exact R|done|done|done|]. unfold holds. simpl.
  split; [done|]. split; [done|]. rewrite concat_app. cbn [concat]. rewrite app_nil_r.
  split; [by rewrite X2, E1, app_assoc|]. split; [by apply Forall_app_2; [|constructor]|]. split; [intros _; rewrite X3, E2; lia|].
  rewrite C, length_app. pose proof (concat_length_ge l F). change (2 ^ 16) with 65536 in Hl. rewrite u32_small; simpl; lia.
Qed.

Lemma wp_builder_append b w st n l route target (Q : Z * eigrp_packetizer_builder -> px -> Prop) :
  let wire := builder_wire env b route target in
  refines env w0 b w st -> builds env b w -> bs_open st = Some (n, l) ->
  prefix_ok (vectors (pe_codec env)) target -> nexthop_ok (vectors (pe_codec env)) (rd_nexthop route) ->
  (forall b' st', same_builder b b' -> refines env w0 b' w st' ->
     match bs_append (limit b) (head b) wire st with
     | Some st1 => st' = st1 -> Q (Z.of_nat (length wire), b') w
     | None => st' = st -> Q (if bool_decide (wire = []) then 0 else -1, b') w
     end) ->
  wp (builder_append env b (offset_route env (pb_ei b) route target) target) Q w.
Proof.
  intros wire R B Eo Ht Hn HQ. destruct (holds_size _ _ _ _ _ R Eo) as (s & Ep & W & E1 & E2 & F & L & C).
  pose proof B as [Bc Bm Bl]. change (Z.of_nat header_len) with 20 in Bl. change (2 ^ 16) with 65536 in Bl.
  pose proof (head_size_max (pb_ei b)) as Hh. unfold builder_append. rewrite Ep. cbn [nonnull]. rewrite wp_bind, wp_ret, wp_bind.
  unfold bs_append in HQ. rewrite Eo in HQ.
  assert (Z.of_nat (endp s) <= 2 ^ 20) as He.
  { destruct (decide (l = [])) as [->|Hne]; [rewrite E2; cbn [concat length]; lia|specialize (L Hne); lia]. }
  assert (forall m, refines env w0 {| b with pb_packet := Some (n, s);
    pb_route_count := if 0 <? (if m : bool then 0 else -1) then u32 (pb_route_count b + 1) else pb_route_count b |} w st) as Hsame.
  { intros m. replace (0 <? (if m then 0 else -1)) with false by (by destruct m). destruct b. simpl in Ep. by subst. }
  apply wp_encode_append; [done|done|lia|done|done|done|done|]. change (route_wire _ _ _ _ _) with wire. clearbody wire.
  destruct (decide (wire = [])) as [Ew|Ew].
  { rewrite !bool_decide_true in * by done. cbn [orb] in HQ. cbn beta iota; rewrite wp_ret. eapply HQ; [|apply (Hsame true)|reflexivity]; done. }
  rewrite !bool_decide_false in * by done. cbn [orb] in HQ.
  destruct (Z.ltb_spec (pb_packet_limit b) (Z.of_nat (endp s + length wire))) as [Hx|Hx].
  { rewrite (proj2 (Nat.ltb_lt _ _)) in HQ by lia. cbn beta iota; rewrite wp_ret. eapply HQ; [|apply (Hsame false)|reflexivity]; done. }
  rewrite (proj2 (Nat.ltb_ge _ _)) in HQ by lia. intros s' X. cbn beta iota; rewrite wp_ret.
  assert ((0 <? Z.of_nat (length wire)) = true) as -> by (apply Z.ltb_lt; destruct wire; [done|simpl; lia]).
  eapply HQ; [| |reflexivity]; [done|]. eapply holds_add; [done..|lia|done|done].
Qed.

Lemma refines_store b w st (z : eigrp_instance) : refines env w0 b w st -> vrid z = vrid (px_store w) ->
  refines env w0 b {| w with px_store := z |} st.
Proof. intros [R1 R2 R3 R4 R5] E. split; [done|done|done|done|]. simpl. congruence. Qed.

Lemma builds_reserve b w : builds env b w -> builds env b (px_reserve w).
Proof. by intros [H1 H2 H3]. Qed.

Lemma wp_start_refines b w st (Q : bool * eigrp_packetizer_builder -> px -> Prop) :
  refines env w0 b w st -> builds env b w ->
  (forall b', same_builder b b' -> refines env w0 b' (px_reserve w) (bs_start st) -> Q (true, b') (px_reserve w)) ->
  wp (eigrp_packetizer_builder_start env b) Q w.
Proof.
  intros [R1 R2 (new & R3 & R4) R5 R6] B HQ. apply wp_builder_start; [done|]. intros b' S H. apply HQ; [done|].
  unfold bs_start, px_next, px_reserve in *. rewrite R2 in *. destruct (eigrp_packet_sequence_reserve _) as [n next]. cbn [fst snd] in *.
  split; [by rewrite <-R6|done| |done|done]. exists new. split; [done|]. eapply Forall2_impl; [exact R4|]. intros p x. by apply packet_is_same.
Qed.

Lemma wp_flush_refines b w st (Q : eigrp_packetizer_builder -> px -> Prop) :
  refines env w0 b w st ->
  (forall b' w', same_builder b b' -> refines env w0 b' w' (bs_flush st) -> px_store w' = px_store w -> pb_packet b' = None ->
     Q b' w') ->
  wp (eigrp_packetizer_builder_flush b) Q w.
Proof.
  intros R HQ. pose proof R as [R1 R2 (new & R3 & R4) R5 R6]. unfold eigrp_packetizer_builder_flush, bs_flush in *.
  destruct (bs_open st) as [[n l]|] eqn:Eo.
  - destruct (holds_size _ _ _ _ _ R Eo) as (s & Ep & W & E1 & E2 & F & L & C). rewrite Ep, C, wp_bind.
    destruct l as [|t l].
    + cbn [length]. change (Z.of_nat 0 =? 0) with true. cbn [negb]. unfold when. rewrite !wp_ret. apply HQ; [done| |done|done].
      eapply refines_open; [exact R|done|done|done|done].
    + rewrite (proj2 (Z.eqb_neq _ _)) by (simpl; lia). cbn [negb]. unfold when. rewrite wp_modify, wp_ret.
      apply HQ; [done| |done|done]. split; [done|done| |done|done].
      set (x := {| bt_intf := _ |}). exists (x :: new). split; [by simpl; rewrite R3|]. simpl. apply Forall2_app.
      * eapply Forall2_impl; [exact R4|]. intros p y. by apply packet_is_same.
      * constructor; [|constructor]. unfold x. repeat split; try apply W. done.
  - unfold holds in R1. destruct (pb_packet b) as [[]|] eqn:Ep; [done|]. rewrite wp_ret.
    apply HQ; [done| |done|done]. eapply refines_open; [exact R|done|done|done|]. unfold holds. simpl. by rewrite Ep.
Qed.

(** The abstract builder's steps. *)
Lemma bs_start_open st : exists n, bs_open (bs_start st) = Some (n, []).
Proof. unfold bs_start. destruct (eigrp_packet_sequence_reserve _) as [n next]. by exists n. Qed.

Lemma bs_add_start limit head wire again st :
  bs_open st = None -> bs_add limit head wire again st = bs_add limit head wire again (bs_start st).
Proof. intros E. unfold bs_add. rewrite E. destruct (bs_start_open st) as [n ->]. done. Qed.

Lemma same_builder_wire b b' route target : same_builder b b' -> builder_wire env b' route target = builder_wire env b route target.
Proof. intros (E1 & _ & E3 & _). unfold builder_wire. by rewrite E1, E3. Qed.

(** A route is written as the abstract builder adds its wire image. *)
Lemma wp_builder_write b w st o route target (Q : Z * eigrp_packetizer_builder -> px -> Prop) :
  refines env w0 b w st -> builds env b w -> bs_open st = Some o ->
  prefix_ok (vectors (pe_codec env)) target -> nexthop_ok (vectors (pe_codec env)) (rd_nexthop route) ->
  nexthop_ok (vectors (pe_codec env)) zero_addr ->
  (forall b' w' n st', bs_add (limit b) (head b) (builder_wire env b (first_route env (pb_ei b) route) target)
                         (builder_wire env b route target) st = (n, st') ->
     same_builder b b' -> refines env w0 b' w' st' -> px_store w' = px_store w -> Q (Z.of_nat n, b') w') ->
  wp (builder_write env b route target) Q w.
Proof.
  intros R B Eo Ht Hn H0 HQ. destruct o as [n l]. unfold builder_write. cbv zeta. fold (first_route env (pb_ei b) route). rewrite wp_bind.
  assert (nexthop_ok (vectors (pe_codec env)) (rd_nexthop (first_route env (pb_ei b) route))) as Hn1
    by (unfold first_route; by destruct (pi_next_hop_self _)).
  set (again := builder_wire env b route target) in *.
  eapply wp_builder_append; [done..|]. set (wire := builder_wire env b (first_route _ _ _) target) in *.
  intros b1 st1 S1 R1. unfold bs_add in HQ. rewrite Eo in HQ.
  destruct (bs_append (limit b) (head b) wire st) as [st2|] eqn:Ea.
  { intros ->. rewrite (proj2 (Z.leb_le _ _)), wp_ret by lia. by eapply HQ. }
  intros ->. destruct (decide (wire = [])) as [Ew|Ew].
  { rewrite bool_decide_true in HQ |- * by done. cbn [orb Z.leb Z.compare] in *. rewrite wp_ret. by eapply (HQ _ _ 0%nat). }
  rewrite bool_decide_false in HQ |- * by done. rewrite Eo in HQ. cbn [orb Z.leb Z.compare from_option snd] in *.
  destruct (holds_size _ _ _ _ _ R1 Eo) as (s & _ & _ & _ & _ & _ & _ & C). rewrite C.
  destruct l as [|t l]; [cbn [length]; change (Z.of_nat 0 =? 0) with true; cbn iota; rewrite wp_ret; by eapply (HQ _ _ 0%nat)|].
  rewrite (proj2 (Z.eqb_neq _ _)), bool_decide_false in * by (done || (simpl; lia)). rewrite wp_bind.
  eapply wp_flush_refines; [done|]. intros b2 w2 S2 R2 E2 _.
  assert (builds env b2 w2) as B2.
  { destruct B as [? Hm ?]. split; [done| |]; [by rewrite (rf_heap _ _ _ _ _ R2), <-(rf_heap _ _ _ _ _ R)|].
    destruct S1 as (_ & _ & _ & _ & _ & L1), S2 as (_ & _ & _ & _ & _ & L2). by rewrite L2, L1. }
  rewrite wp_bind. eapply wp_start_refines; [done|done|]. intros b3 S3 R3. cbn [negb]. rewrite wp_bind.
  assert (same_builder b b3) as S13 by (eapply same_builder_trans; [|done]; by eapply same_builder_trans).
  destruct (bs_start_open (bs_flush st)) as [n3 Eo3].
  eapply wp_builder_append; [exact R3|by eapply builds_same; [exact S3|apply builds_reserve]|exact Eo3|done|done|].
  pose proof S13 as (P1 & _ & _ & _ & _ & P6). rewrite (same_builder_wire b) by done. rewrite P1, P6. fold again.
  intros b4 st4 S4 R4. assert (same_builder b b4) as S14 by (by eapply same_builder_trans).
  destruct (bs_append (limit b) (head b) again (bs_start (bs_flush st))) as [st5|] eqn:Ea2; intros ->; rewrite wp_ret.
  - assert (again <> []) as Hne.
    { intros E. unfold bs_append in Ea2. rewrite Eo3, E in Ea2. done. }
    rewrite (proj2 (Z.ltb_lt _ _)) by (destruct again; [done|simpl; lia]). by eapply HQ.
  - replace (if 0 <? _ then _ else 0) with 0 by (by case_bool_decide). by eapply (HQ _ _ 0%nat).
Qed.

Lemma wp_builder_route_add b w st route target (Q : Z * eigrp_packetizer_builder -> px -> Prop) :
  refines env w0 b w st -> builds env b w ->
  prefix_ok (vectors (pe_codec env)) target -> nexthop_ok (vectors (pe_codec env)) (rd_nexthop route) ->
  nexthop_ok (vectors (pe_codec env)) zero_addr ->
  (forall b' w' n st', bs_add (limit b) (head b) (builder_wire env b (first_route env (pb_ei b) route) target)
                         (builder_wire env b route target) st = (n, st') ->
     same_builder b b' -> refines env w0 b' w' st' -> px_store w' = px_store w -> Q (Z.of_nat n, b') w') ->
  wp (eigrp_packetizer_builder_route_add env b route target) Q w.
Proof.
  intros R B Ht Hn H0 HQ. unfold eigrp_packetizer_builder_route_add. rewrite wp_bind.
  pose proof (rf_open _ _ _ _ _ R) as Ho. unfold holds in Ho. destruct (bs_open st) as [o|] eqn:Eo; destruct (pb_packet b) as [[n s]|]; try done.
  - rewrite wp_ret. cbn [negb]. by eapply wp_builder_write.
  - eapply wp_start_refines; [done|done|]. intros b1 S1 R1. cbn [negb]. destruct (bs_start_open st) as [n Eo1].
    eapply wp_builder_write; [exact R1|by eapply builds_same; [exact S1|apply builds_reserve]|exact Eo1|done..|].
    pose proof S1 as (P1 & _ & _ & _ & _ & P6). rewrite (same_builder_wire b b1 route target S1), (same_builder_wire b b1 _ target S1), P1, P6.
    intros b' w' m st' E S2 R2 Es. eapply HQ; [rewrite (bs_add_start _ _ _ _ st Eo); exact E|by eapply same_builder_trans|done|done].
Qed.
End refinement.
