(* ===== verification/Packing.v ===== *)
(** * Packing routes into packets

    The packets a sequence of routes is packed into: every TLV once, whole and in order,
    each packet within the limit of its interface and as full as it can be, with
    successive sequence numbers. *)

From Stdlib Require Import ZArith Lia.
From stdpp Require Import base gmap list strings.
From S2P Require Import Prelude Types Metric Prefix PrefixProps Rtt Stream AfVectors Tlv1 Tlv1Props Tlv2 Tlv2Props Filter Auth Neighbor State Summary Network Packetizer Builder.

(** ** The abstract builder on a sequence of TLVs *)

Section packing.
Context (limit head : nat) (start : Z).

(** A TLV that is written the same way at both attempts, as [eigrp_packetizer_builder_route_add]
    does without next-hop-self. *)
Fixpoint bs_adds (ws : list (list Z)) (st : bstate) : bstate :=
  match ws with
  | [] => st
  | w :: ws => bs_adds ws (snd (bs_add limit head w w st))
  end.

Definition bs_packets (st : bstate) : list (Z * list (list Z)) := bs_closed st ++ option_list (bs_open st).

(** The first TLV of a packet did not fit into the one before it. *)
Definition tight (ps : list (list (list Z))) : Prop :=
  forall k l w t, ps !! k = Some l -> ps !! S k = Some (w :: t) -> (limit < head + length (concat l) + length w)%nat.

(** The counter after [k] reservations. *)
Definition counter_after (k : nat) : Z := Nat.iter k (fun n => snd (eigrp_packet_sequence_reserve n)) start.

Record packed (ws : list (list Z)) (st : bstate) : Prop := {
  pk_all : concat (snd <$> bs_packets st) = ws;
  pk_full : Forall (fun p => snd p <> [] /\ (head + length (concat (snd p)) <= limit)%nat) (bs_closed st);
  pk_open : forall n l, bs_open st = Some (n, l) ->
    (l <> [] -> (head + length (concat l) <= limit)%nat) /\ (l = [] -> bs_closed st = []);
  pk_none : bs_open st = None -> bs_closed st = [];
  pk_tight : tight (snd <$> bs_packets st);
  pk_sequence : fst <$> bs_packets st = reserve_many (length (bs_packets st)) start;
  pk_counter : bs_sequence st = counter_after (length (bs_packets st));
}.

Lemma reserve_many_snoc n k : reserve_many (S k) n
  = reserve_many k n ++ [fst (eigrp_packet_sequence_reserve (Nat.iter k (fun n => snd (eigrp_packet_sequence_reserve n)) n))].
Proof.
  revert n. induction k as [|k IH]; intros n.
  - simpl. by destruct (eigrp_packet_sequence_reserve n).
  - cbn [reserve_many]. destruct (eigrp_packet_sequence_reserve n) as [m next] eqn:E. cbn [app]. f_equal.
    specialize (IH next). cbn [reserve_many] in IH. rewrite IH. do 4 f_equal.
    rewrite Nat.iter_succ_r. by rewrite E.
Qed.

(** Opening a packet. *)
Lemma packed_start ws st : packed ws st -> bs_open st = None -> packed ws (bs_start st).
Proof.
  intros [P1 P2 P3 P4 P5 P6 P7] E. specialize (P4 E). unfold bs_packets in *. rewrite E, P4 in *. cbn [app option_list length] in *.
  unfold bs_start. destruct (eigrp_packet_sequence_reserve (bs_sequence st)) as [n next] eqn:Es.
  rewrite P7 in Es. unfold counter_after in *. cbn in Es.
  split; cbn [bs_open bs_closed bs_sequence]; unfold bs_packets; cbn [bs_open bs_closed]; rewrite ?P4; cbn [app option_list].
  - by rewrite <-P1.
  - constructor.
  - intros m l [= <- <-]. done.
  - done.
  - intros k l w t _. by destruct k.
  - change ([n] = reserve_many 1 start). cbn [reserve_many]. by rewrite Es.
  - change (next = snd (eigrp_packet_sequence_reserve start)). by rewrite Es.
Qed.

(** A TLV into the open packet. *)
Lemma packed_append ws st w st' : packed ws st -> bs_append limit head w st = Some st' -> packed (ws ++ [w]) st'.
Proof.
  intros [P1 P2 P3 P4 P5 P6 P7] E. unfold bs_append in E. destruct (bs_open st) as [[n l]|] eqn:Eo; [|done].
  case_bool_decide as Ew; [done|]. cbn [orb] in E. destruct (Nat.ltb_spec limit (head + length (concat l) + length w)) as [|Hf]; [done|].
  injection E as <-. unfold bs_packets in *. rewrite Eo in *. cbn [option_list] in *. destruct (P3 _ _ eq_refl) as [L1 L2].
  split; cbn [bs_open bs_closed bs_sequence]; unfold bs_packets; cbn [bs_open bs_closed option_list].
  - rewrite <-P1, !fmap_app, !concat_app. cbn. rewrite !app_nil_r, <-app_assoc. done.
  - done.
  - intros m l' [= <- <-]. split; [intros _; rewrite concat_app, length_app; cbn; rewrite app_nil_r; lia|by destruct l].
  - done.
  - intros k l' x t H1 H2. rewrite fmap_app in H1, H2. cbn in H1, H2.
    assert (k < length (snd <$> bs_closed st))%nat as Hk.
    { apply lookup_lt_Some in H2. rewrite length_app in H2. cbn in H2. lia. }
    rewrite lookup_app_l in H1 by done. destruct (decide (S k = length (snd <$> bs_closed st))) as [Ek|Hne].
    + rewrite lookup_app_r, Ek, Nat.sub_diag in H2 by lia. cbn in H2. injection H2 as H2.
      destruct l as [|y l]; [rewrite (L2 eq_refl) in Hk; cbn in Hk; lia|]. cbn in H2. injection H2 as <- <-.
      eapply (P5 k l' y l); rewrite fmap_app; [by rewrite lookup_app_l by done|].
      rewrite lookup_app_r, Ek, Nat.sub_diag by lia. done.
    + rewrite lookup_app_l in H2 by lia. eapply (P5 k l' x t); rewrite fmap_app; by rewrite lookup_app_l by lia.
  - rewrite fmap_app, length_app in *. cbn in *. done.
  - rewrite length_app in *. cbn in *. done.
Qed.

(** A TLV that opens the next packet. *)
Lemma packed_next ws st w n l st' :
  packed ws st -> bs_open st = Some (n, l) -> l <> [] -> bs_append limit head w st = None -> w <> [] ->
  bs_append limit head w (bs_start (bs_flush st)) = Some st' -> packed (ws ++ [w]) st'.
Proof.
  intros [P1 P2 P3 P4 P5 P6 P7] Eo Hl En Hw E. destruct l as [|x l]; [done|].
  unfold bs_append in En. rewrite Eo, bool_decide_false in En by done. cbn [orb] in En.
  destruct (Nat.ltb_spec limit (head + length (concat (x :: l)) + length w)) as [Hf|]; [|done].
  unfold bs_flush, bs_start in E. rewrite Eo in E. cbn [bs_sequence] in E.
  destruct (eigrp_packet_sequence_reserve (bs_sequence st)) as [m next] eqn:Es.
  unfold bs_append in E. cbn [bs_open bs_closed bs_sequence] in E. rewrite bool_decide_false in E by done. cbn [orb concat length] in E.
  destruct (Nat.ltb_spec limit (head + 0 + length w)) as [|Hg]; [done|]. injection E as <-.
  unfold bs_packets in *. rewrite Eo in *. change (option_list (Some (n, x :: l))) with [(n, x :: l)] in *. set (old := bs_closed st ++ [(n, x :: l)]) in *.
  split; cbn [bs_open bs_closed bs_sequence]; unfold bs_packets; cbn [bs_open bs_closed option_list]; fold old.
  - rewrite <-P1, fmap_app, concat_app. cbn. done.
  - apply Forall_app_2; [done|]. constructor; [|constructor]. split; [done|]. by apply (P3 n (x :: l)).
  - intros ? ? [= <- <-]. split; [intros _; cbn; rewrite app_nil_r; lia|done].
  - done.
  - intros k l' y t H1 H2. rewrite fmap_app in H1, H2. cbn in H1, H2.
    assert (k < length (snd <$> old))%nat as Hk.
    { apply lookup_lt_Some in H2. rewrite length_app in H2. cbn in H2. lia. }
    rewrite lookup_app_l in H1 by done. destruct (decide (S k = length (snd <$> old))) as [Ek|Hne].
    + rewrite lookup_app_r, Ek, Nat.sub_diag in H2 by lia. cbn in H2. injection H2 as <- <-.
      assert (l' = x :: l) as ->; [|done]. unfold old in H1, Ek. rewrite fmap_app in H1. rewrite length_fmap, length_app in Ek. cbn in Ek.
      rewrite lookup_app_r in H1 by (rewrite length_fmap; lia). replace (k - length (snd <$> bs_closed st))%nat with 0%nat in H1 by (rewrite length_fmap; lia).
      cbn in H1. congruence.
    + rewrite lookup_app_l in H2 by lia. by eapply (P5 k l' y t).
  - rewrite fmap_app, length_app, P6. cbn [fmap list_fmap length Nat.add fst]. rewrite Nat.add_1_r, reserve_many_snoc.
    f_equal. unfold counter_after in P7. rewrite <-P7, Es. done.
  - rewrite length_app. cbn [length]. rewrite Nat.add_1_r.
    change (next = snd (eigrp_packet_sequence_reserve (counter_after (length old)))). by rewrite <-P7, Es.
Qed.

Lemma packed_add ws st w : packed ws st -> w <> [] -> (head + length w <= limit)%nat ->
  packed (ws ++ [w]) (snd (bs_add limit head w w st)).
Proof.
  intros P Hw Hf. unfold bs_add. set (st0 := match bs_open st with Some _ => st | None => _ end).
  assert (packed ws st0 /\ exists n l, bs_open st0 = Some (n, l)) as [P0 (n & l & Eo)].
  { unfold st0. destruct (bs_open st) as [[n l]|] eqn:Eo; [split; [done|eauto]|].
    split; [by apply packed_start|]. destruct (bs_start_open st) as [n H]. eauto. }
  clearbody st0. rewrite Eo. cbn [from_option snd]. rewrite (bool_decide_false (w = [])) by done. cbn [orb].
  destruct (bs_append limit head w st0) as [st1|] eqn:Ea; [by eapply packed_append|].
  destruct (decide (l = [])) as [->|Hl].
  { exfalso. unfold bs_append in Ea. rewrite Eo, bool_decide_false in Ea by done. cbn [orb concat length] in Ea.
    rewrite (proj2 (Nat.ltb_ge _ _)) in Ea by lia. done. }
  rewrite bool_decide_false by done. destruct (bs_append limit head w (bs_start (bs_flush st0))) as [st2|] eqn:E2; [by eapply packed_next|].
  exfalso. unfold bs_append in E2. destruct (bs_start_open (bs_flush st0)) as [m Em]. rewrite Em, bool_decide_false in E2 by done.
  cbn [orb concat length] in E2. rewrite (proj2 (Nat.ltb_ge _ _)) in E2 by lia. done.
Qed.

(** A route without TLV changes nothing but that a packet may be opened. *)
Lemma packed_skip ws st : packed ws st -> packed ws (snd (bs_add limit head [] [] st)).
Proof.
  intros P. unfold bs_add. rewrite bool_decide_true by done. cbn [orb].
  destruct (bs_open st) as [[n l]|] eqn:Eo.
  - unfold bs_append. rewrite Eo. done.
  - unfold bs_append. destruct (bs_start_open st) as [n ->]. cbn. by apply packed_start.
Qed.

Lemma packed_adds ws new st : packed ws st -> Forall (fun w => (head + length w <= limit)%nat) new ->
  packed (ws ++ filter (fun w => w <> []) new) (bs_adds new st).
Proof.
  revert ws st. induction new as [|w new IH]; intros ws st P F; [by rewrite app_nil_r|].
  apply Forall_cons in F as [F1 F2]. cbn [bs_adds]. destruct (decide (w = [])) as [->|Hw].
  - rewrite filter_cons_False by (by intros ?). apply IH; [by apply packed_skip|done].
  - rewrite filter_cons_True by done. rewrite cons_middle, app_assoc. apply IH; [by apply packed_add|done].
Qed.

Lemma packed_init : packed [] {| bs_open := None; bs_closed := []; bs_sequence := start |}.
Proof. split; cbn; try done; try constructor. Qed.
End packing.

(** ** The builder on a sequence of routes *)

(** A builder for interface [i], the routes in turn, and the last packet. *)
Fixpoint builder_adds (env : px_env) (b : eigrp_packetizer_builder) (l : list (eigrp_route_descriptor * eigrp_prefix))
    : Px eigrp_packetizer_builder :=
  match l with
  | [] => mret b
  | (route, target) :: l =>
      '(_, b) ← eigrp_packetizer_builder_route_add env b route target;
      builder_adds env b l
  end.

Definition builder_run (env : px_env) (i : ptr) (nbr : option ptr) (opcode : Z)
    (l : list (eigrp_route_descriptor * eigrp_prefix)) : Px unit :=
  b ← builder_adds env (eigrp_packetizer_builder_init env i nbr opcode 0) l;
  _ ← eigrp_packetizer_builder_flush b;
  mret tt.

(** What can be written: a destination of the family and a next hop of it, or none. *)
Definition ready (env : px_env) (x : eigrp_route_descriptor * eigrp_prefix) : Prop :=
  prefix_ok (vectors (pe_codec env)) (snd x) /\ nexthop_ok (vectors (pe_codec env)) (rd_nexthop (fst x)).

Section runs.
Context (env : px_env) (w0 : px).

Lemma wp_builder_adds l b w st (Q : eigrp_packetizer_builder -> px -> Prop) :
  refines env w0 b w st -> builds env b w -> Forall (ready env) l -> pi_next_hop_self (pe_intf env (pb_ei b)) = false ->
  nexthop_ok (vectors (pe_codec env)) zero_addr ->
  (forall b' w', same_builder b b' ->
     refines env w0 b' w' (bs_adds (Z.to_nat (pb_packet_limit b)) (head_size env (pb_ei b))
       ((fun x => builder_wire env b (fst x) (snd x)) <$> l) st) ->
     px_store w' = px_store w -> Q b' w') ->
  wp (builder_adds env b l) Q w.
Proof.
  revert b w st. induction l as [|[route target] l IH]; intros b w st R B F Hs H0 HQ; cbn [builder_adds].
  { rewrite wp_ret. by apply HQ. }
  apply Forall_cons in F as [[F1 F2] F3]. rewrite wp_bind. eapply wp_builder_route_add; [done..|].
  intros b1 w1 n st1 E S1 R1 Es. unfold first_route in E. rewrite Hs in E. pose proof S1 as (P1 & _ & P3 & _ & _ & P6).
  eapply IH; [exact R1| |done|by rewrite P1|done|].
  { destruct B as [B1 B2 B3]. split; [done|by rewrite (rf_heap _ _ _ _ _ R1), <-(rf_heap _ _ _ _ _ R)|by rewrite P6]. }
  intros b' w' S2 R2 E2. apply HQ; [by eapply same_builder_trans| |congruence].
  cbn [fmap list_fmap bs_adds fst snd]. rewrite E. cbn [snd]. rewrite P1, P6 in R2.
  replace ((fun x => builder_wire env b (fst x) (snd x)) <$> l) with ((fun x => builder_wire env b1 (fst x) (snd x)) <$> l); [done|].
  apply list_fmap_ext. intros k x _. by apply same_builder_wire.
Qed.
End runs.

(** The TLVs [wires] laid out in the packets [ps]. *)
Record laid_out (limit head : nat) (wires : list (list Z)) (start : Z) (ps : list (Z * list (list Z))) : Prop := {
  lay_all : concat (snd <$> ps) = filter (fun wire => wire <> []) wires;
  lay_fits : Forall (fun p => snd p <> [] /\ (head + length (concat (snd p)) <= limit)%nat) ps;
  lay_tight : tight limit head (snd <$> ps);
  lay_sequence : fst <$> ps = reserve_many (length ps) start;
}.

Lemma adds_laid_out limit head wires start : Forall (fun wire => (head + length wire <= limit)%nat) wires ->
  laid_out limit head wires start
    (bs_closed (bs_flush (bs_adds limit head wires {| bs_open := None; bs_closed := []; bs_sequence := start |}))).
Proof.
  intros Hf. set (st := bs_adds limit head wires _).
  assert (packed limit head start (filter (fun wire => wire <> []) wires) st) as P.
  { apply (packed_adds _ _ _ [] wires); [apply packed_init|done]. }
  destruct P as [P1 P2 P3 P4 P5 P6 P7]. unfold bs_packets, bs_flush in *.
  destruct (bs_open st) as [[n [|t ts]]|] eqn:Eo; cbn [option_list bs_closed] in *.
  - rewrite (proj2 (P3 _ _ eq_refl) eq_refl) in *. by split; rewrite <-?P1.
  - split; try done. apply Forall_app_2; [done|]. constructor; [|constructor]. split; [done|]. by apply (P3 n (t :: ts)).
  - rewrite (P4 eq_refl) in *. by split; rewrite <-?P1.
Qed.

(** The packets [ps], in the order they were sent. *)
Definition sent_as (env : px_env) (b : eigrp_packetizer_builder) (ps : list (Z * list (list Z))) (w w' : px) : Prop :=
  exists new, px_sent w' = new ++ px_sent w /\ Forall2 (packet_is env (vrid (px_store w)) b) ps (rev new).

(** C12: Packing loses nothing.  While allocations succeed, next-hop-self is off and each
    TLV fits an empty packet, the routes given to a builder leave as packets of that
    interface and neighbor whose TLVs, taken together, are the wire images of the routes in
    their order: none lost, cut or repeated.  Each packet is the header, the authentication
    TLV and at least one route TLV, within the interface's limit; a packet is closed only
    when the next TLV does not fit; the sequence numbers are reserved one after the other.
    With next-hop-self, and for a TLV longer than a packet, the code loses routes. *)
Theorem builder_packs env i nbr opcode l w :
  let b := eigrp_packetizer_builder_init env i nbr opcode 0 in
  let wires := (fun x => builder_wire env b (fst x) (snd x)) <$> l in
  let limit := Z.to_nat (pb_packet_limit b) in
  builds env b w -> nexthop_ok (vectors (pe_codec env)) zero_addr -> pi_next_hop_self (pe_intf env i) = false ->
  Forall (ready env) l -> Forall (fun wire => (head_size env i + length wire <= limit)%nat) wires ->
  exists ps w', builder_run env i nbr opcode l w = Some (tt, w') /\ px_store w' = px_store w /\ sent_as env b ps w w'
    /\ concat (snd <$> ps) = filter (fun wire => wire <> []) wires
    /\ Forall (fun p => snd p <> [] /\ (head_size env i + length (concat (snd p)) <= limit)%nat) ps
    /\ tight limit (head_size env i) (snd <$> ps)
    /\ fst <$> ps = reserve_many (length ps) (px_sequence w).
Proof.
  intros b wires limit B H0 Hs F Hf.
  set (st0 := {| bs_open := None; bs_closed := []; bs_sequence := px_sequence w |}).
  set (st := bs_adds limit (head_size env i) wires st0).
  assert (refines env w b w st0) as R0 by (by split; [|done|exists []|..]).
  assert (wp (builder_run env i nbr opcode l) (fun _ w' => px_store w' = px_store w /\ sent_as env b (bs_closed (bs_flush st)) w w') w) as Hwp.
  { unfold builder_run. rewrite wp_bind. eapply wp_builder_adds; [exact R0|done..|]. intros b1 w1 S1 R1 E1. rewrite wp_bind.
    eapply wp_flush_refines; [exact R1|]. intros b2 w2 S2 R2 E2 _. rewrite wp_ret. split; [congruence|].
    destruct (rf_sent _ _ _ _ _ R2) as (new & N1 & N2). exists new. split; [done|]. eapply Forall2_impl; [exact N2|].
    intros p x. apply packet_is_same, same_builder_sym. by eapply same_builder_trans. }
  destruct (wp_some _ _ _ Hwp) as ([] & w' & E & Es & Hsent). exists (bs_closed (bs_flush st)), w'. split; [done|]. split; [done|]. split; [done|].
  by destruct (adds_laid_out limit (head_size env i) wires (px_sequence w) Hf).
Qed.

(** An IPv4 interface of 140 bytes with classic peers: room for two TLVs of 47 bytes. *)
Definition send_intf : px_intf :=
  {| pi_curr_mtu := 140; pi_next_hop_self := false; pi_encoder := tlv1_encoder;
     pi_auth := {| auth_type := EIGRP_AUTH_TYPE_NONE; auth_password := None; auth_keychain := None;
                   address_afi := EIGRP_AFI_IPV4; Auth.address_bytes := [] |};
     pi_policy := None;
     pi_summary := {| si_ptr := 10%nat; si_name := None; si_address := zero_prefix |} |}.
Definition send_env : px_env :=
  {| pe_codec := {| vectors := eigrp_ipv4_init; router_id_host := 1 |}; pe_AS := 100;
     pe_policy := {| po_filter := {| access_list := [None; None]; prefix_list := [None; None] |}; po_intfs := [];
                     po_config := None; po_calls := []; po_grants := [] |};
     pe_summaries := None; pe_intf := fun _ => send_intf; pe_nbr_encoder := fun _ => tlv1_encoder; pe_nbr_queue := fun _ => true;
     pe_auto_prefix := fun _ => inr EIGRP_RESULT_UNSUPPORTED;
     pe_evaluate := fun _ _ _ => (EIGRP_RESULT_NOT_FOUND, None); pe_leak_map := fun _ _ => (EIGRP_RESULT_NOT_FOUND, None);
     pe_key_lookup := fun _ _ => None |}.
Definition send_px (s : eigrp_instance) : px :=
  {| px_store := s; px_sequence := 1; px_heap := {| grants := []; garbage := fun _ => 0 |}; px_sent := [] |}.

Lemma zero_nexthop_ok : nexthop_ok eigrp_ipv4_init zero_addr.
Proof. split; [|by left]. split; [done| |done|done]. simpl. solve_bytes. Qed.

Lemma send_builds i nbr opcode s : builds send_env (eigrp_packetizer_builder_init send_env i nbr opcode 0) (send_px s).
Proof. split; [split; [exact ipv4_laws|simpl; lia]|done|]. vm_compute. split; congruence. Qed.

Lemma ex_ready : ready send_env (ex_route, ex_target).
Proof. split; [exact ex_target_ok|]. apply addr_nexthop. apply ex_route_encodable. Qed.

Lemma builder_packs_witness :
  exists (ps : list (Z * list (list Z))) w', builder_run send_env 10 None EIGRP_OPC_UPDATE (replicate 3 (ex_route, ex_target)) (send_px (net net_passive 4096)) = Some (tt, w')
    /\ length (px_sent w') = 2%nat /\ length (concat (snd <$> ps)) = 3%nat /\ length ps = 2%nat.
Proof.
  destruct (builder_packs send_env 10 None EIGRP_OPC_UPDATE (replicate 3 (ex_route, ex_target)) (send_px (net net_passive 4096)))
    as (ps & w' & E & _ & (new & En & Hn) & Ea & Hf & Ht & _).
  - apply send_builds.
  - exact zero_nexthop_ok.
  - reflexivity.
  - apply Forall_replicate, ex_ready.
  - apply Forall_fmap, Forall_replicate. unfold compose. apply Nat.leb_le. vm_compute. reflexivity.
  - exists ps, w'. split; [exact E|].
    assert (length (px_sent w') = 2%nat) as El by (vm_compute in E; by injection E as <-).
    split; [exact El|]. split; [by rewrite Ea|].
    apply Forall2_length in Hn. rewrite length_rev in Hn. rewrite En, length_app in El. simpl in El. rewrite Nat.add_0_r in El.
    by rewrite Hn, El.
Defined.
