(* ===== verification/PacketizerProps.v ===== *)
(** * The packetizer on the instance store

    The routes the packetizer lends itself, and the packets it sends for a neighbor. *)

From Stdlib Require Import ZArith Lia.
From stdpp Require Import base gmap list sorting strings.
From S2P Require Import Prelude Types Metric Prefix PrefixProps Rtt Stream AfVectors Tlv1 Tlv1Props Tlv2 Tlv2Props Filter Auth Neighbor State Topology Fsm Store Marking Frame Handlers Invariant Distance Dual DualProps Completion Table Events NeighborDown NeighborDownProps Paths Summary SummaryProps Answers Network Packetizer Builder Packing.

(** ** Lent routes *)

(** The route of an unreachable destination. *)
Definition poison_route (p : ptr) (d : eigrp_prefix_descriptor) : eigrp_route_descriptor :=
  let e := new_route None in
  let m := reported_metric d in
  {| e with rd_prefix := Some p; rd_dest := destination d; rd_type := poison_type d;
     rd_metric := {| m with delay := EIGRP_MAX_METRIC; flags := 0 |} |}.

(** What a destination is advertised with: a QUERY unreachable, any other packet with the
    accumulated vector of the route in use. *)
Definition advertised (s : eigrp_instance) (p : ptr) (d : eigrp_prefix_descriptor) (opcode : Z) : eigrp_route_descriptor :=
  if opcode =? EIGRP_OPC_QUERY then poison_route p d
  else match r ← read_of s d; routes s !! r with
       | Some e => {| e with rd_metric := rd_total_metric e |}
       | None => poison_route p d
       end.

(** Nothing changed but the addresses that were handed out. *)
Definition idle (s s' : eigrp_instance) : Prop :=
  exists k, (next_addr s <= k)%nat /\ s' = {| s with next_addr := k |}.

(** Route [r] was lent: releasing it leaves the store as it was. *)
Record lent (s : eigrp_instance) (r : ptr) (e : eigrp_route_descriptor) (s' : eigrp_instance) : Prop := {
  ln_route : routes s' !! r = Some e;
  ln_rest : s' = {| s with routes := routes s'; next_addr := next_addr s' |};
  ln_next : (next_addr s <= next_addr s')%nat;
  ln_back : delete r (routes s') = routes s;
  ln_topo : topo_ok s';
}.

Section lending.
Implicit Types s : eigrp_instance.

Lemma idle_refl s : idle s s.
Proof. exists (next_addr s). split; [done|by destruct s]. Qed.
Lemma idle_trans s1 s2 s3 : idle s1 s2 -> idle s2 s3 -> idle s1 s3.
Proof. intros (k1 & H1 & ->) (k2 & H2 & ->). exists k2. split; [simpl in *; lia|done]. Qed.
Lemma idle_topo s s' : idle s s' -> topo_ok s -> topo_ok s'.
Proof. intros (k & H & ->) K. by apply topo_next. Qed.

Lemma lent_release s r e s' : lent s r e s' -> idle s {| s' with routes := delete r (routes s') |}.
Proof. intros [H1 H2 H3 H4 _]. exists (next_addr s'). split; [done|]. rewrite H4, H2. by destruct s. Qed.

Lemma lent_fresh s e : topo_ok s ->
  lent s (next_addr s) e {| s with routes := <[next_addr s := e]> (routes s); next_addr := S (next_addr s) |}.
Proof.
  intros K. split; simpl; [apply lookup_insert_eq|done|lia|apply delete_insert_id, free_route_addr; [done|lia]|by apply topo_new_route].
Qed.

Lemma lent_prefixes s r e s' : lent s r e s' -> prefixes s' = prefixes s /\ nbrs s' = nbrs s /\ intfs s' = intfs s /\ mem s' = mem s.
Proof. intros [_ -> _ _ _]. done. Qed.

Lemma wp_poison_create p d s (Q : option ptr -> eigrp_instance -> Prop) :
  topo_ok s -> prefixes s !! p = Some d -> eigrp_prefix_valid (destination d) = true ->
  (forall s', lent s (next_addr s) (poison_route p d) s' -> Q (Some (next_addr s)) s') ->
  wp (eigrp_packetizer_poison_route_create p) Q s.
Proof.
  intros K Hp Hv HQ. unfold eigrp_packetizer_poison_route_create. rewrite wp_bind, (wp_get_prefix p d), Hv by done. cbn [negb].
  rewrite wp_bind. apply wp_topology_route_create; [apply (tk_store _ K)|]. cbv zeta.
  rewrite wp_bind. unfold upd_route. rewrite wp_bind.
  rewrite (wp_get_route _ (new_route None)) by (simpl; apply lookup_insert_eq). rewrite wp_put_route, wp_ret. unfold set_route. simpl.
  rewrite insert_insert_eq. apply HQ, lent_fresh, K.
Qed.

(** The route that is read is live. *)
Lemma advertised_other s p d opcode : topo_ok s -> prefixes s !! p = Some d -> opcode <> EIGRP_OPC_QUERY ->
  (read_of s d = None /\ advertised s p d opcode = poison_route p d)
  \/ exists r e, read_of s d = Some r /\ routes s !! r = Some e /\ rd_prefix e = Some p
       /\ advertised s p d opcode = {| e with rd_metric := rd_total_metric e |}.
Proof.
  intros K Hp Ho. pose proof (iw_dests _ (so_wf _ (tk_store _ K)) p d Hp) as W. unfold advertised.
  rewrite (proj2 (Z.eqb_neq _ _)) by done. destruct (read_of s d) as [r|] eqn:Er; [right|by left].
  assert (r ∈ topology_routes d) as Hr.
  { unfold read_of in Er. destruct (List.find _ _) eqn:Ef; [injection Er as <-; apply find_some in Ef as [Ef _]; by apply list_elem_of_In|].
    destruct (topology_routes d); [done|]. injection Er as <-. by left. }
  destruct (dw_routes _ _ _ W r Hr) as (e & He & _ & Ep). exists r, e. cbn. rewrite He. done.
Qed.

Lemma wp_select_route p d opcode s (Q : option ptr * bool -> eigrp_instance -> Prop) :
  topo_ok s -> prefixes s !! p = Some d -> eigrp_prefix_valid (destination d) = true ->
  (forall s', lent s (next_addr s) (advertised s p d opcode) s' -> Q (Some (next_addr s), true) s') ->
  wp (eigrp_packetizer_route_select p None opcode) Q s.
Proof.
  intros K Hp Hv HQ. unfold eigrp_packetizer_route_select. rewrite wp_bind. destruct (Z.eqb_spec opcode EIGRP_OPC_QUERY) as [->|Ho].
  - rewrite wp_bind. apply (wp_poison_create p d); [done..|]. intros s' L. rewrite wp_ret. cbn. by apply HQ.
  - rewrite wp_bind. apply (wp_route_read p d); [done| |].
    { apply ok_live, (dest_wf_ok s p). by apply (iw_dests _ (so_wf _ (tk_store _ K))). }
    rewrite wp_ret. destruct (advertised_other s p d opcode K Hp Ho) as [[E1 E2]|(r & e & E1 & E2 & _ & E3)]; rewrite E1.
    + rewrite wp_bind. apply (wp_poison_create p d); [done..|]. intros s' L. rewrite wp_ret. cbn. apply HQ. by rewrite E2.
    + rewrite wp_bind, (wp_get_route r e) by done. rewrite wp_bind. apply wp_topology_route_create; [apply (tk_store _ K)|].
      rewrite wp_bind, wp_put_route, wp_ret. unfold set_route. simpl. rewrite insert_insert_eq. apply HQ. rewrite E3. by apply lent_fresh.
Qed.
End lending.

(** ** Packets for one neighbor *)

(** The answer withholds the path: the work says so, or the path is the neighbor's own. *)
Definition withheld (work : eigrp_packetizer_work) (n : ptr) (e : eigrp_route_descriptor) : Prop :=
  has_flag (work_flags work) EIGRP_PACKETIZER_WORK_F_POISON = true
  \/ (work_opcode work ∈ [EIGRP_OPC_REPLY; EIGRP_OPC_SIAREPLY] /\ rd_adv_router e = Some n).
#[export] Instance withheld_dec work n e : Decision (withheld work n e).
Proof. unfold withheld. apply _. Defined.

Lemma reply_poisoned_spec work n e : reply_poisoned work n e = bool_decide (withheld work n e).
Proof.
  unfold reply_poisoned, withheld. apply eq_true_iff_eq. rewrite bool_decide_eq_true, orb_true_iff, andb_true_iff, orb_true_iff, !Z.eqb_eq.
  unfold opt_ptr_eqb. rewrite bool_decide_eq_true, !elem_of_cons, elem_of_nil. tauto.
Qed.

(** The route of a work item for neighbor [n]: the one it brings, or the one the destination
    is advertised with; unreachable when it is the neighbor's own path. *)
Definition answer_route (s : eigrp_instance) (work : eigrp_packetizer_work) (n p : ptr) (d : eigrp_prefix_descriptor)
    : eigrp_route_descriptor :=
  let e := match h ← work_route work; routes s !! h with
           | Some e => e
           | None => advertised s p d (work_opcode work)
           end in
  if bool_decide (withheld work n e) then poison_route p d else e.

(** The objects of the item are live. *)
Definition work_route_ok (s : eigrp_instance) (work : eigrp_packetizer_work) (p : ptr) : Prop :=
  forall h, work_route work = Some h -> exists e, routes s !! h = Some e /\ rd_prefix e = Some p.

Section neighbor_routes.
Implicit Types s : eigrp_instance.

Lemma lent_poison s p d r1 e1 s1 : topo_ok s -> lent s r1 e1 s1 -> (r1 < next_addr s1)%nat -> loose r1 s -> prefixes s !! p = Some d ->
  forall s2, lent s1 (next_addr s1) (poison_route p d) s2 ->
  lent s (next_addr s1) (poison_route p d) {| s2 with routes := delete r1 (routes s2) |}.
Proof.
  intros K L1 Hr Hl Hp s2 L2. pose proof (ln_rest _ _ _ _ L1) as E1. pose proof (ln_rest _ _ _ _ L2) as E2.
  pose proof (ln_next _ _ _ _ L1). pose proof (ln_next _ _ _ _ L2).
  split; simpl.
  - rewrite lookup_delete_ne by lia. apply L2.
  - clear -E1 E2. destruct s, s1, s2. simpl in *. injection E1; injection E2; intros; by subst.
  - lia.
  - rewrite delete_delete, (ln_back _ _ _ _ L2). apply L1.
  - apply topo_free_loose; [apply L2|]. intros q dq Hq. apply Hl with q. rewrite <-Hq, E2. simpl. rewrite E1. done.
Qed.

Lemma wp_neighbor_select work n p d s (Q : option ptr * bool -> eigrp_instance -> Prop) :
  topo_ok s -> prefixes s !! p = Some d -> eigrp_prefix_valid (destination d) = true -> work_route_ok s work p ->
  (forall r owned s', routes s' !! r = Some (answer_route s work n p d) -> topo_ok s' -> prefixes s' = prefixes s -> vrid s' = vrid s ->
     idle s (if owned : bool then {| s' with routes := delete r (routes s') |} else s') -> Q (Some r, owned) s') ->
  wp (neighbor_route_select work n p) Q s.
Proof.
  intros K Hp Hv Hw HQ. unfold neighbor_route_select, answer_route in *. rewrite wp_bind.
  destruct (work_route work) as [h|] eqn:Eh.
  - destruct (Hw h Eh) as (e & He & _). cbn in HQ. rewrite He in HQ. unfold eigrp_packetizer_route_select. rewrite wp_ret.
    rewrite wp_bind, (wp_get_route h e), reply_poisoned_spec by done. destruct (bool_decide (withheld work n e)); cbn [negb].
    + rewrite wp_bind. apply (wp_poison_create p d); [done..|]. intros s' L. rewrite wp_bind. unfold route_release, when. rewrite !wp_ret.
      destruct (lent_prefixes _ _ _ _ L) as (Ep & _). pose proof (ln_rest _ _ _ _ L) as Er.
      apply HQ; [apply L|apply L|done|by rewrite Er|by apply (lent_release _ _ (poison_route p d))].
    + rewrite wp_ret. apply HQ; [done..|apply idle_refl].
  - cbn in HQ. apply (wp_select_route p d); [done..|]. intros s1 L1. pose proof (lent_prefixes _ _ _ _ L1) as (Ep & _ & _ & Em).
    pose proof (ln_rest _ _ _ _ L1) as Er1. rewrite wp_bind, (wp_get_route _ _ _ _ (ln_route _ _ _ _ L1)), reply_poisoned_spec.
    destruct (bool_decide (withheld work n _)); cbn [negb].
    + rewrite wp_bind. apply (wp_poison_create p d); [apply L1|by rewrite Ep|done|]. intros s2 L2. pose proof (ln_rest _ _ _ _ L2) as Er2.
      rewrite wp_bind. unfold route_release, when, free_route. rewrite wp_modify, wp_ret.
      assert (next_addr s < next_addr s1)%nat as Hlt.
      { destruct (iw_below _ (so_wf _ (tk_store _ (ln_topo _ _ _ _ L1)))) as [B _]. apply B. exists (advertised s p d (work_opcode work)). apply L1. }
      pose proof (lent_poison s p d _ _ s1 K L1 Hlt ltac:(apply free_loose; [done|lia]) Hp s2 L2) as L.
      apply HQ; [apply L|apply L|simpl; rewrite Er2; simpl; by rewrite Er1|simpl; rewrite Er2; simpl; by rewrite Er1|].
      by apply (lent_release _ _ (poison_route p d)).
    + rewrite wp_ret. apply HQ; [apply L1|apply L1|done|by rewrite Er1|by eapply lent_release].
Qed.
End neighbor_routes.

(** The route as the item is sent: a SIA-REPLY of an ACTIVE destination says so. *)
Definition sent_route (s : eigrp_instance) (work : eigrp_packetizer_work) (n p : ptr) (d : eigrp_prefix_descriptor)
    : eigrp_route_descriptor :=
  let e := answer_route s work n p d in
  let m := rd_metric e in
  if work_flags work .? EIGRP_PACKETIZER_WORK_F_ROUTE_ACTIVE
  then {| e with rd_metric := {| m with flags := Z.lor (flags m) EIGRP_OPAQUE_ACTIVE |} |} else e.

(** The next hops of the routes, and "none", can be written. *)
Definition hops_ok (env : px_env) (s : eigrp_instance) : Prop :=
  nexthop_ok (vectors (pe_codec env)) zero_addr
  /\ forall r e, routes s !! r = Some e -> nexthop_ok (vectors (pe_codec env)) (rd_nexthop e).

Section sending.
Context (env : px_env).
Implicit Types s : eigrp_instance.

Lemma wp_wire_target e p d s (Q : eigrp_prefix -> eigrp_instance -> Prop) :
  rd_prefix e = Some p -> prefixes s !! p = Some d -> Q (destination d) s -> wp (wire_target e) Q s.
Proof. intros E Hp HQ. unfold wire_target. rewrite E, wp_bind, (wp_get_prefix p d), wp_ret by done. done. Qed.

Lemma advertised_hop s p d opcode : hops_ok env s -> nexthop_ok (vectors (pe_codec env)) (rd_nexthop (advertised s p d opcode)).
Proof.
  intros [H0 H]. unfold advertised. destruct (opcode =? EIGRP_OPC_QUERY); [done|].
  destruct (r ← read_of s d; routes s !! r) as [e|] eqn:E; [|done]. apply bind_Some in E as (r & _ & E). by apply (H r e).
Qed.

Lemma advertised_prefix s p d opcode : topo_ok s -> prefixes s !! p = Some d -> rd_prefix (advertised s p d opcode) = Some p.
Proof.
  intros K Hp. destruct (Z.eqb_spec opcode EIGRP_OPC_QUERY) as [->|Ho]; [done|].
  destruct (advertised_other s p d opcode K Hp Ho) as [[_ ->]|(r & e & _ & _ & E & ->)]; done.
Qed.

Lemma answer_ready s work n p d : topo_ok s -> prefixes s !! p = Some d -> hops_ok env s -> work_route_ok s work p ->
  nexthop_ok (vectors (pe_codec env)) (rd_nexthop (answer_route s work n p d)) /\ rd_prefix (answer_route s work n p d) = Some p.
Proof.
  intros K Hp Hh Hw. unfold answer_route. destruct (bool_decide _); [by split; [apply Hh|]|].
  destruct (work_route work) as [h|] eqn:Eh; cbn.
  - destruct (Hw h Eh) as (e & He & Ep). rewrite He. split; [by apply (proj2 Hh h)|done].
  - split; [by apply advertised_hop|by apply advertised_prefix].
Qed.

Lemma sent_hop s work n p d : rd_nexthop (sent_route s work n p d) = rd_nexthop (answer_route s work n p d).
Proof. unfold sent_route. by destruct (_ .? _). Qed.

(** A fresh builder with one TLV that fits: one packet. *)
Lemma bs_single limit head wire start :
  wire <> [] -> (head + length wire <= limit)%nat ->
  bs_closed (bs_flush (snd (bs_add limit head wire wire {| bs_open := None; bs_closed := []; bs_sequence := start |})))
  = [(fst (eigrp_packet_sequence_reserve start), [wire])].
Proof.
  intros Hw Hf. unfold bs_add, bs_start, bs_append. cbn [bs_open bs_sequence].
  destruct (eigrp_packet_sequence_reserve start) as [n next]. cbn [bs_open]. rewrite bool_decide_false by done.
  cbn [orb concat length]. by rewrite (proj2 (Nat.ltb_ge _ _)) by lia.
Qed.

Lemma bs_add_again limit head wire again start : wire <> [] -> (head + length wire <= limit)%nat ->
  bs_add limit head wire again {| bs_open := None; bs_closed := []; bs_sequence := start |}
  = bs_add limit head wire wire {| bs_open := None; bs_closed := []; bs_sequence := start |}.
Proof.
  intros Hw Hf. unfold bs_add, bs_start, bs_append. cbn [bs_open bs_sequence].
  destruct (eigrp_packet_sequence_reserve start) as [n next]. cbn [bs_open]. rewrite bool_decide_false by done.
  cbn [orb concat length]. by rewrite (proj2 (Nat.ltb_ge _ _)) by lia.
Qed.

Lemma refines_init b w : pb_packet b = None ->
  refines env w b w {| bs_open := None; bs_closed := []; bs_sequence := px_sequence w |}.
Proof. intros E. split; [unfold holds; by rewrite E|done|by exists []|done|done]. Qed.

(** One route through a builder of its own, before [k]. *)
Lemma wp_single_packet i nbr opcode route target (k : Px unit) w (Q : unit -> px -> Prop) :
  let b := eigrp_packetizer_builder_init env i nbr opcode 0 in
  let wire := builder_wire env b (first_route env i route) target in
  builds env b w -> prefix_ok (vectors (pe_codec env)) target -> nexthop_ok (vectors (pe_codec env)) (rd_nexthop route) ->
  nexthop_ok (vectors (pe_codec env)) zero_addr ->
  wire <> [] -> (head_size env i + length wire <= Z.to_nat (pb_packet_limit b))%nat ->
  (forall w', px_store w' = px_store w -> sent_as env b [(px_next w, [wire])] w w' -> wp k Q w') ->
  wp ('(_, b) ← eigrp_packetizer_builder_route_add env b route target; _ ← eigrp_packetizer_builder_flush b; k) Q w.
Proof.
  intros b wire B Ht Hn H0 Hw Hf HQ. rewrite wp_bind.
  eapply wp_builder_route_add; [by apply refines_init|done..|]. intros b1 w1 n st1 E S1 R1 E1.
  change (pb_ei b) with i in E. fold wire in E. rewrite bs_add_again in E by done. rewrite wp_bind. eapply wp_flush_refines; [exact R1|]. intros b2 w2 S2 R2 E2 _.
  apply HQ; [congruence|]. pose proof (bs_single _ _ _ (px_sequence w) Hw Hf) as Hs.
  rewrite E in Hs. cbn [snd] in Hs. destruct (rf_sent _ _ _ _ _ R2) as (new & N1 & N2). rewrite Hs in N2.
  exists new. split; [done|]. eapply Forall2_impl; [exact N2|]. intros p x. apply packet_is_same, same_builder_sym. by eapply same_builder_trans.
Qed.
End sending.

(** ** The pending changes on an interface *)

(** The interface has a neighbor that is up. *)
Definition intf_up (s : eigrp_instance) (i : ptr) : Prop :=
  exists ei n nb, intfs s !! i = Some ei /\ n ∈ if_nbrs ei /\ nbrs s !! n = Some nb /\ nbr_state nb = EIGRP_NEIGHBOR_UP.

(** Split horizon: the route was learned on the interface. *)
Definition learned_on (ei : eigrp_intf) (i : ptr) (e : eigrp_route_descriptor) : Prop :=
  if_split_horizon ei = true /\ rd_distance e <> EIGRP_MAX_METRIC /\ rd_ei e = Some i.
#[export] Instance learned_on_dec ei i e : Decision (learned_on ei i e).
Proof. unfold learned_on. apply _. Defined.

(** What an UPDATE says of destination [p] on interface [i]: unreachable where its route was
    learned (poison reverse). *)
Definition update_route (s : eigrp_instance) (i : ptr) (ei : eigrp_intf) (p : ptr) (d : eigrp_prefix_descriptor) : eigrp_route_descriptor :=
  let e := advertised s p d EIGRP_OPC_UPDATE in
  let m := rd_metric e in
  if bool_decide (learned_on ei i e) then {| e with rd_metric := {| m with delay := EIGRP_MAX_METRIC; flags := 0 |} |} else e.

(** The pending destinations [l] that the outbound filter lets through, as they are advertised. *)
Fixpoint updates (env : px_env) (s : eigrp_instance) (i : ptr) (ei : eigrp_intf) (l : list ptr) : list (eigrp_route_descriptor * eigrp_prefix) :=
  match l with
  | [] => []
  | p :: l =>
      match prefixes s !! p with
      | Some d => if has_flag (req_action d) EIGRP_FSM_NEED_UPDATE && negb (outbound_denied env i (destination d))
                  then [(update_route s i ei p d, destination d)] else []
      | None => []
      end ++ updates env s i ei l
  end.

(** No aggregate stands for the destination on the interface. *)
Definition unsummarized (env : px_env) (i : ptr) (d : eigrp_prefix_descriptor) : Prop :=
  summary_destination (pe_auto_prefix env) (pe_summaries env) (pi_summary (pe_intf env i)) (destination d) = None.

Section interface.
Context (env : px_env).
Implicit Types s : eigrp_instance.

Lemma wp_intf_up i ei s (Q : bool -> eigrp_instance -> Prop) :
  peers_live s -> i ∈ eiflist s -> intfs s !! i = Some ei ->
  (forall up : bool, (up = true <-> intf_up s i) -> Q up s) -> wp (eigrp_packetizer_intf_up_neighbors i) Q s.
Proof.
  intros L Hi Hei HQ. unfold eigrp_packetizer_intf_up_neighbors. rewrite wp_bind, (wp_get_intf i ei), wp_bind by done.
  assert (Forall (fun n => is_Some (nbrs s !! n)) (if_nbrs ei)) as F.
  { unfold peers_live in L. rewrite Forall_forall in L. destruct (L i Hi) as (ei' & Hei' & F). congruence. }
  assert (forall l, Forall (fun n => is_Some (nbrs s !! n)) l ->
    (forall o : option ptr, (is_Some o <-> exists n nb, n ∈ l /\ nbrs s !! n = Some nb /\ nbr_state nb = EIGRP_NEIGHBOR_UP) -> Q (bool_decide (is_Some o)) s) ->
    wp (mfind l (fun n => nbr ← State.get_nbr n; mret (nbr_state nbr =? EIGRP_NEIGHBOR_UP))) (fun o s' => wp (mret (bool_decide (is_Some o))) Q s') s) as Hfind.
  { clear. induction l as [|n l IH]; intros F HQ; cbn [mfind].
    - rewrite !wp_ret. apply HQ. split; [by intros [? ?]|]. by intros (? & ? & ?%not_elem_of_nil & _).
    - apply Forall_cons in F as [[nb Hnb] F]. rewrite wp_bind, wp_bind, (wp_get_nbr n nb), wp_ret by done.
      destruct (Z.eqb_spec (nbr_state nb) EIGRP_NEIGHBOR_UP) as [Eu|Eu].
      + rewrite !wp_ret. apply HQ. split; [|eauto]. intros _. exists n, nb. split; [by left|done].
      + apply IH; [done|]. intros o Ho. apply HQ. rewrite Ho. split; intros (m & mb & Hm & Hmb & Hs).
        * exists m, mb. split; [by right|done].
        * apply elem_of_cons in Hm as [->|Hm]; [congruence|]. by exists m, mb. }
  apply Hfind; [done|]. intros o Ho. apply HQ. rewrite bool_decide_eq_true, Ho. unfold intf_up. split.
  - intros (n & nb & H1 & H2 & H3). by exists ei, n, nb.
  - intros (ei' & n & nb & H0 & H1 & H2 & H3). exists n, nb. split; [congruence|done].
Qed.

Lemma wp_poison_reverse i ei e s (Q : eigrp_route_descriptor -> eigrp_instance -> Prop) :
  intfs s !! i = Some ei ->
  Q (let m := rd_metric e in if bool_decide (learned_on ei i e) then {| e with rd_metric := {| m with delay := EIGRP_MAX_METRIC; flags := 0 |} |} else e) s ->
  wp (eigrp_packetizer_poison_reverse i EIGRP_OPC_UPDATE e) Q s.
Proof.
  intros Hi HQ. unfold eigrp_packetizer_poison_reverse. change (negb (EIGRP_OPC_UPDATE =? EIGRP_OPC_UPDATE)) with false. cbv iota.
  rewrite wp_bind, (wp_get_intf i ei) by done.
  assert (eigrp_nbr_split_horizon e i ei = bool_decide (learned_on ei i e)) as ->.
  { unfold eigrp_nbr_split_horizon, learned_on, opt_ptr_eqb. apply eq_true_iff_eq.
    rewrite !andb_true_iff, negb_true_iff, Z.eqb_neq, !bool_decide_eq_true. tauto. }
  cbv zeta in HQ. destruct (bool_decide _); cbn [negb]; by rewrite wp_ret.
Qed.

(** Nothing [advertised] reads depends on the addresses handed out. *)
Lemma advertised_idle s s' p d opcode : idle s s' -> advertised s' p d opcode = advertised s p d opcode.
Proof. by intros (k & _ & ->). Qed.

Lemma refines_move w0 b w st s' : refines env w0 b w st -> vrid s' = vrid (px_store w) -> refines env w0 b {| w with px_store := s' |} st.
Proof. intros [R1 R2 R3 R4 R5] E. split; try done. simpl. congruence. Qed.

Lemma builds_store b w s' : builds env b w -> builds env b {| w with px_store := s' |}.
Proof. by intros []. Qed.

Lemma update_route_hop s i ei p d : hops_ok env s -> nexthop_ok (vectors (pe_codec env)) (rd_nexthop (update_route s i ei p d)).
Proof.
  intros H. pose proof (advertised_hop env s p d EIGRP_OPC_UPDATE H) as Ha. unfold update_route. by destruct (bool_decide _).
Qed.

(** The wire images of the pending destinations [l]. *)
Definition update_wires (s : eigrp_instance) (i : ptr) (ei : eigrp_intf) (b : eigrp_packetizer_builder) (l : list ptr) : list (list Z) :=
  (fun x => builder_wire env b (fst x) (snd x)) <$> updates env s i ei l.

(** What the packets of destination [p] need. *)
Definition change_ready (s : eigrp_instance) (i p : ptr) : Prop :=
  exists d, prefixes s !! p = Some d
    /\ (has_flag (req_action d) EIGRP_FSM_NEED_UPDATE = true -> prefix_ok (vectors (pe_codec env)) (destination d) /\ unsummarized env i d).

Lemma wp_summary_none i p d e s (Q : option (eigrp_prefix_descriptor * eigrp_route_descriptor) -> eigrp_instance -> Prop) :
  prefixes s !! p = Some d -> unsummarized env i d -> Q None s -> wp (summary_build env i p EIGRP_OPC_UPDATE e) Q s.
Proof.
  intros Hd Hu HQ. unfold summary_build. change (negb (EIGRP_OPC_UPDATE =? EIGRP_OPC_UPDATE)) with false. cbv iota.
  rewrite wp_bind, (wp_get_prefix p d), wp_bind, wp_gets by done. unfold eigrp_summary_route_build. unfold unsummarized in Hu. by rewrite Hu, wp_ret.
Qed.

(** One TLV for the destination itself. *)
Lemma wp_specific_add w0 p d e ei b w st (Q : eigrp_packetizer_builder -> px -> Prop) :
  let route := let m := rd_metric e in
    if bool_decide (learned_on ei (pb_ei b) e) then {| e with rd_metric := {| m with delay := EIGRP_MAX_METRIC; flags := 0 |} |} else e in
  let wires := if outbound_denied env (pb_ei b) (destination d) then [] else [builder_wire env b route (destination d)] in
  pb_opcode b = EIGRP_OPC_UPDATE -> prefixes (px_store w) !! p = Some d -> rd_prefix e = Some p -> intfs (px_store w) !! pb_ei b = Some ei ->
  prefix_ok (vectors (pe_codec env)) (destination d) -> nexthop_ok (vectors (pe_codec env)) (rd_nexthop e) ->
  nexthop_ok (vectors (pe_codec env)) zero_addr -> pi_next_hop_self (pe_intf env (pb_ei b)) = false -> builds env b w -> refines env w0 b w st ->
  (forall b' w', same_builder b b' -> px_store w' = px_store w ->
     refines env w0 b' w' (bs_adds (Z.to_nat (pb_packet_limit b)) (head_size env (pb_ei b)) wires st) -> Q b' w') ->
  wp (specific_add env b p e) Q w.
Proof.
  intros route wires Ho Hd Hp Hi Ht Hn H0 Hs B R HQ. unfold specific_add.
  rewrite wp_bind, wp_px_st, (wp_get_prefix p d), px_store_same by done.
  rewrite wp_bind, wp_px_st. apply (wp_wire_target _ p d); [done|done|]. rewrite px_store_same.
  unfold wire_add. rewrite Ho, wp_bind, wp_bind, wp_px_st. apply (wp_poison_reverse _ ei); [done|]. rewrite px_store_same. fold route.
  unfold eigrp_packetizer_prefix_allowed. unfold wires in HQ.
  destruct (outbound_denied env (pb_ei b) (destination d)) eqn:Ed; cbn [negb].
  - rewrite wp_ret. cbn [Z.ltb Z.compare andb]. rewrite wp_bind, wp_when, wp_ret. by apply HQ.
  - eapply wp_builder_route_add; [done|done|done| |done|].
    { unfold route. cbv zeta. by destruct (bool_decide _). }
    intros b' w' n st' E S R' Es. unfold first_route in E. rewrite Hs in E.
    pose proof S as (_ & _ & _ & P4 & _). rewrite P4, Ho. change (EIGRP_OPC_UPDATE =? EIGRP_OPC_QUERY) with false.
    rewrite andb_false_r, wp_bind, wp_when, wp_ret. apply HQ; [done|done|].
    cbn [bs_adds]. rewrite E. done.
Qed.

(** The sending side of an interface: its builder in a store that lent nothing. *)
Record sending (w0 : px) (s : eigrp_instance) (i : ptr) (ei : eigrp_intf) (b : eigrp_packetizer_builder) (w : px) (st : bstate) : Prop := {
  sn_idle : idle s (px_store w);
  sn_intf : intfs s !! i = Some ei;
  sn_ei : pb_ei b = i;
  sn_opcode : pb_opcode b = EIGRP_OPC_UPDATE;
  sn_hop_self : pi_next_hop_self (pe_intf env i) = false;
  sn_builds : builds env b w;
  sn_refines : refines env w0 b w st;
}.

Lemma builds_follow w0 b b' w w' st st' : builds env b w -> refines env w0 b w st -> same_builder b b' -> refines env w0 b' w' st' -> builds env b' w'.
Proof.
  intros [B1 B2 B3] R S R'. pose proof S as (_ & _ & _ & _ & _ & P6).
  split; [done|by rewrite (rf_heap _ _ _ _ _ R'), <-(rf_heap _ _ _ _ _ R)|by rewrite P6].
Qed.

Lemma wp_change_add w0 s i ei b ss w st p d (Q : eigrp_packetizer_builder * summary_seen -> px -> Prop) :
  topo_ok s -> hops_ok env s -> sending w0 s i ei b w st -> prefixes s !! p = Some d ->
  (has_flag (req_action d) EIGRP_FSM_NEED_UPDATE = true -> prefix_ok (vectors (pe_codec env)) (destination d) /\ unsummarized env i d) ->
  (forall b' w', same_builder b b' ->
     sending w0 s i ei b' w' (bs_adds (Z.to_nat (pb_packet_limit b)) (head_size env i) (update_wires s i ei b [p]) st) -> Q (b', ss) w') ->
  wp (change_add env EIGRP_FSM_NEED_UPDATE p b ss) Q w.
Proof.
  intros K Hh [I Hi Hb Ho Hs B R] Hd Hok HQ. unfold change_add. cbv zeta. pose proof (idle_topo _ _ I K) as K1. pose proof I as (k & Hk & Ek).
  assert (prefixes (px_store w) !! p = Some d) as Hd1 by (by rewrite Ek).
  rewrite wp_bind, wp_px_st, (wp_get_prefix p d), px_store_same by done.
  unfold update_wires in HQ. cbn [updates] in HQ. rewrite Hd in HQ. cbn [app] in HQ.
  destruct (has_flag (req_action d) EIGRP_FSM_NEED_UPDATE) eqn:Ef; cbn [negb andb] in *.
  2:{ rewrite wp_ret. apply HQ; [by apply same_builder_refl|]. by split. }
  destruct (Hok eq_refl) as [Ht Hu]. rewrite Ho, wp_bind, wp_px_st. unfold query_suppressed.
  change (negb (EIGRP_OPC_UPDATE =? EIGRP_OPC_QUERY)) with true. cbv iota. rewrite wp_ret, px_store_same.
  rewrite wp_bind, wp_px_st. apply (wp_select_route p d); [done|done|apply Ht|]. intros s1 L.
  destruct (lent_prefixes _ _ _ _ L) as (Ep1 & En1 & Ei1 & _). set (r := next_addr (px_store w)) in *.
  set (e := advertised (px_store w) p d EIGRP_OPC_UPDATE) in *.
  assert (e = advertised s p d EIGRP_OPC_UPDATE) as Ee by (by apply advertised_idle).
  set (w1 := {| w with px_store := s1 |}). rewrite wp_bind, wp_px_st. rewrite (wp_get_route r e) by apply L. rewrite px_store_same.
  rewrite wp_bind, wp_px_st. apply (wp_summary_none _ _ d); [simpl; by rewrite Ep1|by rewrite Hb|]. rewrite px_store_same.
  assert (vrid s1 = vrid (px_store w)) as Ev by (by rewrite (ln_rest _ _ _ _ L)).
  rewrite wp_bind, wp_bind. eapply (wp_specific_add w0 p d e ei b w1 st); [done|simpl; by rewrite Ep1| | |done| |apply Hh|by rewrite Hb|by apply builds_store|by apply refines_move|].
  { rewrite Ee. apply advertised_prefix; done. }
  { simpl. by rewrite Ei1, Ek, Hb. }
  { rewrite Ee. apply advertised_hop, Hh. }
  intros b' w2 S E2 R2. rewrite wp_ret, wp_bind, wp_px_st. unfold route_release, free_route. rewrite wp_when, wp_modify, wp_ret.
  pose proof S as (P1 & _ & _ & P4 & _ & P6).
  apply HQ; [done|]. rewrite E2. split.
  - cbn [px_store]. eapply idle_trans; [exact I|]. exact (lent_release _ _ _ _ L).
  - done.
  - congruence.
  - congruence.
  - done.
  - apply builds_store. by eapply (builds_follow w0 b b' w1 w2); [apply builds_store|apply refines_move|..].
  - apply refines_move; [|rewrite E2; done].
    rewrite Ee, Hb in R2. unfold update_route. destruct (outbound_denied env i (destination d)); exact R2.
Qed.

Lemma bs_adds_app limit head l k st : bs_adds limit head (l ++ k) st = bs_adds limit head k (bs_adds limit head l st).
Proof. revert st. induction l as [|x l IH]; intros st; [done|apply IH]. Qed.

Lemma wp_changes_add w0 s i ei l b ss w st (Q : eigrp_packetizer_builder -> px -> Prop) :
  topo_ok s -> hops_ok env s -> sending w0 s i ei b w st -> Forall (change_ready s i) l ->
  (forall b' w', same_builder b b' ->
     sending w0 s i ei b' w' (bs_adds (Z.to_nat (pb_packet_limit b)) (head_size env i) (update_wires s i ei b l) st) -> Q b' w') ->
  wp (changes_add env EIGRP_FSM_NEED_UPDATE l b ss) Q w.
Proof.
  intros K Hh. revert b w st. induction l as [|p l IH]; intros b w st N F HQ; cbn [changes_add].
  { rewrite wp_ret. apply HQ; [apply same_builder_refl|done]. }
  apply Forall_cons in F as [(d & Hd & Hok) F]. rewrite wp_bind. eapply (wp_change_add w0 s i ei b ss w st p d); [done..|].
  intros b1 w1 S1 N1. pose proof S1 as (_ & _ & _ & _ & _ & P6).
  eapply IH; [exact N1|done|]. intros b2 w2 S2 N2. apply HQ; [by eapply same_builder_trans|].
  rewrite P6 in N2. replace (bs_adds _ _ (update_wires s i ei b (p :: l)) st) with
    (bs_adds (Z.to_nat (pb_packet_limit b)) (head_size env i) (update_wires s i ei b1 l) (bs_adds (Z.to_nat (pb_packet_limit b)) (head_size env i) (update_wires s i ei b [p]) st)); [done|].
  rewrite <-bs_adds_app. f_equal. unfold update_wires. cbn [updates]. rewrite app_nil_r, fmap_app. f_equal.
  apply list_fmap_ext. intros k x _. by apply same_builder_wire.
Qed.

(** The packets of an interface. *)
Definition update_builder (i : ptr) : eigrp_packetizer_builder := eigrp_packetizer_builder_init env i None EIGRP_OPC_UPDATE 0.

(** An interface that can carry the pending changes. *)
Record intf_ready (s : eigrp_instance) (i : ptr) : Prop := {
  ir_codec : tlv2_ok (pe_codec env);
  ir_limit : Z.of_nat header_len <= pb_packet_limit (update_builder i) < 2 ^ 16;
  ir_hop_self : pi_next_hop_self (pe_intf env i) = false;
  ir_changes : Forall (change_ready s i) (topology_changes s);
  ir_fits : forall ei, intfs s !! i = Some ei ->
    Forall (fun wire => (head_size env i + length wire <= Z.to_nat (pb_packet_limit (update_builder i)))%nat)
      (update_wires s i ei (update_builder i) (topology_changes s));
}.

(** The packets [x] carry the pending changes of [s] over interface [i]: every TLV once, in
    order, in packets within the limit. *)
Definition carries (s : eigrp_instance) (i : ptr) (x : list built) : Prop :=
  exists ei start ps, intfs s !! i = Some ei /\ Forall2 (packet_is env (vrid s) (update_builder i)) ps x
    /\ laid_out (Z.to_nat (pb_packet_limit (update_builder i))) (head_size env i)
         (update_wires s i ei (update_builder i) (topology_changes s)) start ps.

Lemma intf_up_idle s s' i : idle s s' -> intf_up s' i <-> intf_up s i.
Proof. by intros (k & _ & ->). Qed.

Lemma wp_intf_changes s i work w (Q : unit -> px -> Prop) :
  topo_ok s -> hops_ok env s -> work_opcode work = EIGRP_OPC_UPDATE -> i ∈ eiflist s -> idle s (px_store w) ->
  grants (px_heap w) = [] -> (intf_up s i -> intf_ready s i) ->
  (forall w' x, idle s (px_store w') -> px_heap w' = px_heap w -> px_sent w' = rev x ++ px_sent w ->
     (intf_up s i /\ carries s i x \/ ~ intf_up s i /\ x = []) -> Q tt w') ->
  wp (intf_changes_send env work EIGRP_FSM_NEED_UPDATE i) Q w.
Proof.
  intros K Hh Ho Hin I Hg Hr HQ. pose proof (idle_topo _ _ I K) as K1. pose proof (iw_peers _ (so_wf _ (tk_store _ K))) as L.
  assert (exists ei, intfs s !! i = Some ei) as [ei Hei].
  { unfold peers_live in L. rewrite Forall_forall in L. destruct (L i Hin) as (ei & Hei & _). eauto. }
  assert (peers_live (px_store w) /\ i ∈ eiflist (px_store w) /\ intfs (px_store w) !! i = Some ei /\ topology_changes (px_store w) = topology_changes s
    /\ vrid (px_store w) = vrid s) as (L1 & Hin1 & Hei1 & Ec & Ev) by (destruct I as (k & _ & ->); done).
  unfold intf_changes_send. rewrite wp_bind, wp_px_st. apply (wp_intf_up i ei); [done..|]. intros up Hup. rewrite (intf_up_idle s _ i I) in Hup.
  rewrite px_store_same, Ho. change (negb (EIGRP_OPC_UPDATE =? EIGRP_OPC_UPDATE)) with false. cbn [andb]. rewrite orb_false_r.
  destruct up; cbn [negb].
  - assert (intf_up s i) as Hu by by apply Hup. destruct (Hr Hu) as [R1 R2 R3 R4 R5].
    rewrite wp_bind, wp_px_st, wp_gets, px_store_same, Ec, wp_bind. fold (update_builder i).
    eapply (wp_changes_add w s i ei _ (update_builder i)); [done|done| |done|].
    { split; [done|done|done|done|done|by split|]. by apply refines_init. }
    intros b' w' S [N1 _ _ _ _ _ N7]. rewrite wp_bind. eapply wp_flush_refines; [exact N7|]. intros b2 w2 S2 R' E2 _. rewrite wp_ret.
    destruct (rf_sent _ _ _ _ _ R') as (new & X1 & X2). rewrite Ev in X2.
    eapply (HQ w2 (rev new)); [by rewrite E2|by rewrite (rf_heap _ _ _ _ _ R')|by rewrite rev_involutive|]. left. split; [done|].
    eexists ei, (px_sequence w), _. split; [done|]. split; [|by apply adds_laid_out, R5].
    eapply Forall2_impl; [exact X2|]. intros p x. apply packet_is_same, same_builder_sym. by eapply same_builder_trans.
  - rewrite wp_ret. apply (HQ w []); [done..|]. right. split; [|done]. intros Hu. by apply Hup in Hu.
Qed.
End interface.
