(* ===== verification/Retire.v ===== *)
(** * Retirement of destinations

    What the store keeps when paths and destinations leave it: the relation of a store to
    a thinner one, and the retirement of a settled destination. *)

From Stdlib Require Import ZArith Lia.
From stdpp Require Import base gmap list sorting.
From S2P Require Import Prelude Types Metric Prefix State Topology Fsm Store Marking Frame Handlers Invariant Distance Dual DualProps Completion Table Events NeighborDown NeighborDownProps Paths Packetizer.

(** ** Thinner stores *)

(** The destination lost paths, pending actions or its place in the table. *)
Record thin (d d' : eigrp_prefix_descriptor) : Prop := {
  th_internal : sublist (internal_routes d') (internal_routes d);
  th_external : sublist (external_routes d') (external_routes d);
  th_node : table_node d' = table_node d \/ table_node d' = None;
  th_rest : d' = {| d with internal_routes := internal_routes d'; external_routes := external_routes d';
                    req_action := req_action d'; retirement_queued := retirement_queued d'; table_node := table_node d' |};
}.

Definition hide_thin (s : eigrp_instance) : eigrp_instance :=
  {| s with routes := ∅; prefixes := ∅; nbrs := ∅; table_nodes := ∅; topology_table := []; topology_changes := [];
     packetizer_queue := []; rib_log := []; redist_prefix_count := 0; next_addr := 0%nat |}.

Record thinned (s s' : eigrp_instance) : Prop := {
  td_hide : hide_thin s' = hide_thin s;
  td_next : (next_addr s <= next_addr s')%nat;
  td_prefixes : forall q, option_Forall2 thin (prefixes s !! q) (prefixes s' !! q);
  td_routes : forall x e, routes s' !! x = Some e -> routes s !! x = Some e;
  td_paths : forall q d x, prefixes s' !! q = Some d -> x ∈ topology_routes d -> is_Some (routes s !! x) -> is_Some (routes s' !! x);
  td_nbrs : nbrs_keep s s';
  td_changes : sublist (topology_changes s') (topology_changes s);
  td_nodes : forall t n, table_nodes s' !! t = Some n -> table_nodes s !! t = Some n;
  td_table : sublist (topology_table s') (topology_table s);
  td_live : forall t, t ∈ topology_table s' -> is_Some (table_nodes s !! t) -> is_Some (table_nodes s' !! t);
  td_kept : forall q d t, prefixes s' !! q = Some d -> table_node d = Some t -> t ∈ topology_table s -> t ∈ topology_table s';
  td_left : forall q d d' t, prefixes s !! q = Some d -> prefixes s' !! q = Some d' -> table_node d = Some t ->
    t ∈ topology_table s' -> table_node d' = Some t;
}.

(** The table and the destinations refer to each other; paths are in the queue of their
    class; a PASSIVE destination awaits no REPLY. *)
Record shelved (s : eigrp_instance) : Prop := {
  sh_nodup : NoDup (topology_table s);
  sh_node : forall p d t, prefixes s !! p = Some d -> table_node d = Some t ->
    t ∈ topology_table s /\ exists n, table_nodes s !! t = Some n /\ tn_info n = Some p;
  sh_table : forall t n p d, t ∈ topology_table s -> table_nodes s !! t = Some n -> tn_info n = Some p ->
    prefixes s !! p = Some d -> table_node d = Some t;
  sh_class : forall p d ext r e, prefixes s !! p = Some d -> r ∈ queue_of ext d -> routes s !! r = Some e ->
    eigrp_topology_route_external e = ext;
  sh_quiet : forall p d, prefixes s !! p = Some d -> pd_state d = EIGRP_FSM_STATE_PASSIVE -> rij d = [];
}.

Section thinning.
Implicit Types s : eigrp_instance.

Lemma thin_refl d : thin d d.
Proof. split; [done|done|by left|by destruct d]. Qed.

Lemma thin_trans d1 d2 d3 : thin d1 d2 -> thin d2 d3 -> thin d1 d3.
Proof.
  intros [A1 A2 A3 A4] [B1 B2 B3 B4]. split; [by etrans|by etrans| |].
  - destruct B3 as [->| ->]; [done|by right].
  - rewrite B4. simpl. by rewrite A4.
Qed.

Lemma thin_routes d d' : thin d d' -> sublist (topology_routes d') (topology_routes d).
Proof. intros [H1 H2 _ _]. by apply sublist_app. Qed.

Lemma thin_state d d' : thin d d' ->
  pd_state d' = pd_state d /\ rij d' = rij d /\ query_origin d' = query_origin d /\ destination d' = destination d.
Proof. intros [_ _ _ ->]. done. Qed.

Lemma thin_queue ext d d' : thin d d' -> sublist (queue_of ext d') (queue_of ext d).
Proof. intros [H1 H2 _ _]. by destruct ext. Qed.

Lemma thinned_refl s : thinned s s.
Proof.
  split; try done.
  - intros q. destruct (prefixes s !! q); constructor. apply thin_refl.
  - intros q d d' t Hd Hd'. by simplify_eq.
Qed.

(** The destination before and after. *)
Lemma thinned_back s s' q d' : thinned s s' -> prefixes s' !! q = Some d' -> exists d, prefixes s !! q = Some d /\ thin d d'.
Proof. intros T Hd. pose proof (td_prefixes _ _ T q) as H. rewrite Hd in H. inversion H; subst. eauto. Qed.
Lemma thinned_forth s s' q d : thinned s s' -> prefixes s !! q = Some d -> exists d', prefixes s' !! q = Some d' /\ thin d d'.
Proof. intros T Hd. pose proof (td_prefixes _ _ T q) as H. rewrite Hd in H. inversion H; subst. eauto. Qed.

Lemma thinned_trans s1 s2 s3 : thinned s1 s2 -> thinned s2 s3 -> thinned s1 s3.
Proof.
  intros A B. split.
  - rewrite (td_hide _ _ B). apply A.
  - pose proof (td_next _ _ A). pose proof (td_next _ _ B). lia.
  - intros q. pose proof (td_prefixes _ _ A q) as HA. pose proof (td_prefixes _ _ B q) as HB.
    inversion HA as [d1 d2 H12 E1 E2|E1 E2]; rewrite <-E2 in HB; inversion HB; subst; constructor. by eapply thin_trans.
  - intros x e He. by apply A, B.
  - intros q d3 x Hd Hx Hl. destruct (thinned_back _ _ _ _ B Hd) as (d2 & Hd2 & T).
    eapply (td_paths _ _ B); [done..|]. eapply (td_paths _ _ A); [done| |done]. by eapply elem_of_sublist, thin_routes.
  - intros n. rewrite (td_nbrs _ _ B n). apply A.
  - etrans; [apply B|apply A].
  - intros t n Hn. by apply A, B.
  - etrans; [apply B|apply A].
  - intros t Ht Hl. apply (td_live _ _ B); [done|]. apply (td_live _ _ A); [by eapply elem_of_sublist, B|done].
  - intros q d3 t Hd Ht Hin. destruct (thinned_back _ _ _ _ B Hd) as (d2 & Hd2 & T).
    assert (table_node d2 = Some t) as Ht2 by (destruct (th_node _ _ T); congruence).
    eapply (td_kept _ _ B); [done..|]. by eapply (td_kept _ _ A).
  - intros q d1 d3 t Hd1 Hd3 Ht Hin. destruct (thinned_forth _ _ _ _ A Hd1) as (d2 & Hd2 & T).
    eapply (td_left _ _ B); [done..| |done]. eapply (td_left _ _ A); [done..|]. by eapply elem_of_sublist, B.
Qed.
End thinning.

Section thin_stores.
Implicit Types s : eigrp_instance.

Lemma thinned_fields s s' : thinned s s' ->
  intfs s' = intfs s /\ eiflist s' = eiflist s /\ mem s' = mem s /\ shutdown s' = shutdown s /\ thread_running s' = thread_running s
  /\ vrid s' = vrid s.
Proof.
  intros T. pose proof (td_hide _ _ T) as H.
  repeat split; first [exact (f_equal intfs H)|exact (f_equal eiflist H)|exact (f_equal mem H)|exact (f_equal shutdown H)
    |exact (f_equal thread_running H)|exact (f_equal vrid H)].
Qed.

Lemma thinned_path s s' q d' x : thinned s s' -> instance_wf s -> prefixes s' !! q = Some d' -> x ∈ topology_routes d' ->
  exists d e, prefixes s !! q = Some d /\ thin d d' /\ x ∈ topology_routes d /\ routes s !! x = Some e /\ routes s' !! x = Some e.
Proof.
  intros T W Hd Hx. destruct (thinned_back _ _ _ _ T Hd) as (d & Hd0 & Ht).
  assert (x ∈ topology_routes d) as Hx0 by (by eapply elem_of_sublist, thin_routes).
  destruct (dw_routes _ _ _ (iw_dests _ W q d Hd0) x Hx0) as (e & He & _).
  destruct (td_paths _ _ T q d' x Hd Hx) as [e' He']; [eauto|]. pose proof (td_routes _ _ T x e' He') as E. simplify_eq.
  exists d. eauto 8.
Qed.

Lemma thinned_nbr s s' n : thinned s s' -> is_Some (nbrs s !! n) -> is_Some (nbrs s' !! n).
Proof. intros T. apply nbrs_keep_live, T. Qed.

Lemma thinned_dest s s' q d d' : thinned s s' -> instance_wf s -> prefixes s !! q = Some d -> prefixes s' !! q = Some d' -> thin d d' ->
  dest_wf s' q d'.
Proof.
  intros T W Hd Hd' Ht. pose proof (iw_dests _ W q d Hd) as [H1 H2 H3 H4 H5 H6 H7].
  destruct (thinned_fields _ _ T) as (Ei & _). destruct (thin_state _ _ Ht) as (E1 & E2 & E3 & _).
  assert (forall x, x ∈ topology_routes d' -> route_dist s' x = route_dist s x) as Hdist.
  { intros x Hx. destruct (thinned_path _ _ _ _ _ T W Hd' Hx) as (_ & e & _ & _ & _ & A & B). unfold route_dist. by rewrite A, B. }
  split.
  - eapply sublist_NoDup; [exact H1|by apply thin_routes].
  - intros x Hx. destruct (thinned_path _ _ _ _ _ T W Hd' Hx) as (d0 & e & Hd0 & _ & Hx0 & A & B). simplify_eq.
    destruct (H2 x Hx0) as (e0 & He0 & [L1 L2] & Hp). assert (e0 = e) as -> by congruence. exists e. split; [done|]. split; [|done].
    split; [by rewrite Ei|]. intros n Hn. by eapply thinned_nbr, L2.
  - eapply route_dist_sorted; [intros x Hx; by apply Hdist, in_internal|]. eapply sorted_sublist; [apply Ht|done].
  - eapply route_dist_sorted; [intros x Hx; by apply Hdist, in_external|]. eapply sorted_sublist; [apply Ht|done].
  - rewrite E3. intros n Hn. by eapply thinned_nbr, H5.
  - unfold origin_discipline in *. by rewrite E1, E3.
  - by rewrite E2.
Qed.

Lemma thinned_wf s s' : thinned s s' -> instance_wf s -> instance_wf s'.
Proof.
  intros T W. pose proof W as [W1 W2 W3 W4 W5 W6]. destruct (thinned_fields _ _ T) as (Ei & Ee & _). split.
  - intros q d' Hd'. destruct (thinned_back _ _ _ _ T Hd') as (d & Hd & Ht). by eapply thinned_dest.
  - destruct W2 as [B1 B2]. pose proof (td_next _ _ T). split.
    + intros x [e He]. specialize (B1 x (mk_is_Some _ _ (td_routes _ _ T x e He))). lia.
    + intros q [d' Hd']. destruct (thinned_back _ _ _ _ T Hd') as (d & Hd & _). specialize (B2 q (mk_is_Some _ _ Hd)). lia.
  - unfold peers_live in *. rewrite Ee, Ei. eapply Forall_impl; [exact W3|]. intros i (ei & Hi & Hn). exists ei. split; [done|].
    eapply Forall_impl; [exact Hn|]. intros n. by apply thinned_nbr.
  - intros n nb' i Hn Hi. rewrite Ei. pose proof (td_nbrs _ _ T n) as H. rewrite Hn in H.
    destruct (nbrs s !! n) as [nb|] eqn:E; [|done]. injection H as H. eapply W4; [exact E|]. by rewrite <-Hi.
  - by rewrite Ei.
  - intros q Hq. destruct (W6 q) as [d Hd]; [by eapply elem_of_sublist, T|].
    destruct (thinned_forth _ _ _ _ T Hd) as (d' & Hd' & _). eauto.
Qed.

Lemma thinned_store s s' : thinned s s' -> store_ok s -> store_ok s'.
Proof.
  intros T [W [T1 T2 T3] M]. destruct (thinned_fields _ _ T) as (_ & _ & Em & _). split; [by eapply thinned_wf| |congruence]. split.
  - intros t Ht. apply (td_live _ _ T); [done|]. apply T1. by eapply elem_of_sublist, T.
  - intros t n p Hn Hi. destruct (T2 t n p (td_nodes _ _ T t n Hn) Hi) as [d Hd].
    destruct (thinned_forth _ _ _ _ T Hd) as (d' & Hd' & _). eauto.
  - intros t [n Hn]. specialize (T3 t (mk_is_Some _ _ (td_nodes _ _ T t n Hn))). pose proof (td_next _ _ T). lia.
Qed.

Lemma thinned_single s s' m : thinned s s' -> instance_wf s -> single_path m s -> single_path m s'.
Proof.
  intros T W S q d' x y ex ey Hd' Hx Hy Hex Hey.
  destruct (thinned_path _ _ _ _ _ T W Hd' Hx) as (d & ex' & Hd & _ & Hx0 & A & B).
  destruct (thinned_path _ _ _ _ _ T W Hd' Hy) as (d2 & ey' & Hd2 & _ & Hy0 & A2 & B2). simplify_eq. by eapply S.
Qed.

Lemma thinned_shelved s s' : thinned s s' -> shelved s -> shelved s'.
Proof.
  intros T [S1 S2 S3 S4 S5]. split.
  - eapply sublist_NoDup; [exact S1|apply T].
  - intros p d' t Hd' Ht. destruct (thinned_back _ _ _ _ T Hd') as (d & Hd & Hth).
    assert (table_node d = Some t) as Ht0 by (destruct (th_node _ _ Hth); congruence).
    destruct (S2 p d t Hd Ht0) as (Hin & n & Hn & Hi). assert (t ∈ topology_table s') as Hin' by (by eapply (td_kept _ _ T)).
    split; [done|]. destruct (td_live _ _ T t Hin') as [n' Hn']; [eauto|]. pose proof (td_nodes _ _ T t n' Hn'). simplify_eq. eauto.
  - intros t n p d' Hin Hn Hi Hd'. destruct (thinned_back _ _ _ _ T Hd') as (d & Hd & Hth).
    eapply (td_left _ _ T); [done..| |done]. eapply S3; [by eapply elem_of_sublist, T|by apply T|done|done].
  - intros p d' ext r e Hd' Hr He. destruct (thinned_back _ _ _ _ T Hd') as (d & Hd & Hth).
    eapply S4; [done| |by apply T]. by eapply elem_of_sublist, thin_queue.
  - intros p d' Hd'. destruct (thinned_back _ _ _ _ T Hd') as (d & Hd & Hth). destruct (thin_state _ _ Hth) as (-> & -> & _). by apply (S5 p).
Qed.

Lemma thinned_in_table s s' q : thinned s s' -> in_table s' q -> in_table s q.
Proof. intros T (t & n & Ht & Hn & Hi). exists t, n. split; [by eapply elem_of_sublist, T|]. split; [by apply T|done]. Qed.
End thin_stores.

(** ** Pruning *)

(** The destination without path [r]. *)
Definition unqueued (ext : bool) (r : ptr) (d : eigrp_prefix_descriptor) : eigrp_prefix_descriptor :=
  set_queue ext (remove_first (Nat.eqb r) (queue_of ext d)) d.

(** Path [r] of destination [p] is freed; the peer's count, the count of redistributed
    prefixes and the calls to the host RIB may change with it. *)
Definition route_gone (p r : ptr) (d' : eigrp_prefix_descriptor) (N : gmap ptr eigrp_nbr) (c : Z) (L : list rib_op)
    (s : eigrp_instance) : eigrp_instance :=
  {| s with prefixes := <[p := d']> (prefixes s); routes := delete r (routes s); nbrs := N; redist_prefix_count := c; rib_log := L |}.

Section pruning.
Implicit Types s : eigrp_instance.

Lemma unqueued_thin ext r d : thin d (unqueued ext r d).
Proof.
  unfold unqueued. split; destruct ext; simpl; try done; try apply remove_first_sublist; by left || by destruct d.
Qed.

Lemma unqueued_out ext r d : NoDup (topology_routes d) -> r ∈ queue_of ext d -> r ∉ topology_routes (unqueued ext r d).
Proof.
  unfold topology_routes. intros (N1 & N2 & N3)%NoDup_app Hr. unfold unqueued.
  destruct ext; simpl in *; rewrite elem_of_app; (intros [H|H]; [|]);
    first [by apply (N2 r)|apply elem_of_remove_first in H as [_ H]; [done|done]].
Qed.

(** The neighbors but for their prefix counts. *)
Definition counts_only (N N' : gmap ptr eigrp_nbr) : Prop := forall n, hide_count <$> N' !! n = hide_count <$> N !! n.

Lemma counts_one N n nb c : N !! n = Some nb -> counts_only N (<[n := {| nb with limit_prefix_count := c |}]> N).
Proof.
  intros Hn m. destruct (decide (m = n)) as [->|Hne]; [|by rewrite lookup_insert_ne].
  rewrite lookup_insert_eq, Hn. done.
Qed.

Lemma gone_thinned p r d ext N c L s :
  instance_wf s -> prefixes s !! p = Some d -> r ∈ queue_of ext d -> counts_only (nbrs s) N ->
  thinned s (route_gone p r (unqueued ext r d) N c L s).
Proof.
  intros W Hd Hr HN. pose proof (iw_dests _ W p d Hd) as Wd. pose proof (unqueued_thin ext r d) as Ht.
  assert (r ∈ topology_routes d) as Hrd by (destruct ext; [by apply in_external|by apply in_internal]).
  destruct (dw_routes _ _ _ Wd r Hrd) as (e & He & _ & Hp).
  split; try done; simpl.
  - intros q. destruct (decide (q = p)) as [->|Hne].
    + rewrite lookup_insert_eq, Hd. by constructor.
    + rewrite lookup_insert_ne by done. destruct (prefixes s !! q); constructor. apply thin_refl.
  - intros x ex Hx. by apply lookup_delete_Some in Hx as [_ Hx].
  - intros q dq x Hq Hx Hl. rewrite lookup_delete_ne; [done|]. intros <-. destruct (decide (q = p)) as [->|Hne].
    + rewrite lookup_insert_eq in Hq. injection Hq as <-. by eapply unqueued_out; [apply Wd|..].
    + rewrite lookup_insert_ne in Hq by done. destruct (dw_routes _ _ _ (iw_dests _ W q dq Hq) r Hx) as (e' & He' & _ & Hp'). congruence.
  - intros q d1 d2 t H1 H2 Hn _. destruct (decide (q = p)) as [->|Hne].
    + rewrite lookup_insert_eq in H2. simplify_eq. unfold unqueued. by destruct ext.
    + rewrite lookup_insert_ne in H2 by done. by simplify_eq.
Qed.

Lemma wp_redist_gone p d (b : bool) s (Q : bool -> eigrp_instance -> Prop) :
  prefixes s !! p = Some d -> live_routes s (topology_routes d) -> (forall present, Q present s) ->
  wp (if b then eigrp_topology_redist_present p else mret true) Q s.
Proof.
  intros Hd HL HQ. destruct b; [|by rewrite wp_ret]. unfold eigrp_topology_redist_present.
  rewrite wp_bind, (wp_get_prefix p d), wp_bind, wp_gets by done. destruct (neighbor_self s); [|by rewrite wp_ret].
  rewrite wp_bind. apply wp_mfind_route; [|by rewrite wp_ret]. apply Forall_app in HL as [_ HL]. done.
Qed.

Lemma wp_peer_gone p (owner : option ptr) d s (Q : unit -> eigrp_instance -> Prop) :
  (forall n, owner = Some n -> is_Some (nbrs s !! n)) -> prefixes s !! p = Some d -> live_routes s (topology_routes d) ->
  (forall N, counts_only (nbrs s) N -> Q tt {| s with nbrs := N |}) ->
  wp (match owner with
      | None => mret tt
      | Some n =>
          nbr ← get_nbr n;
          if limit_prefix_count_valid nbr && negb (limit_prefix_count nbr =? 0) then
            other ← eigrp_prefix_descriptor_lookup p owner;
            when (negb (bool_decide (is_Some other)))
              (put_nbr n {| nbr with limit_prefix_count := limit_prefix_count nbr - 1 |})
          else mret tt
      end) Q s.
Proof.
  intros Hn Hd HL HQ. assert (Q tt s) as Hs by (specialize (HQ (nbrs s) ltac:(done)); by destruct s).
  destruct owner as [n|]; [|done]. destruct (Hn n eq_refl) as [nb Hnb]. rewrite wp_bind, (wp_get_nbr n nb) by done.
  destruct (_ && _); [|done]. rewrite wp_bind. apply (wp_descriptor_lookup p d); [done|done|]. rewrite wp_when.
  destruct (negb _); [|done]. rewrite wp_put_nbr. by apply HQ, counts_one.
Qed.

(** Freeing a path of a queue. *)
Lemma wp_route_delete p r d e ext s (Q : unit -> eigrp_instance -> Prop) :
  instance_wf s -> prefixes s !! p = Some d -> r ∈ queue_of ext d -> routes s !! r = Some e -> eigrp_topology_route_external e = ext ->
  (forall N c L, counts_only (nbrs s) N -> Q tt (route_gone p r (unqueued ext r d) N c L s)) ->
  wp (eigrp_route_descriptor_delete p r) Q s.
Proof.
  intros W Hd Hr He Hc HQ. pose proof (iw_dests _ W p d Hd) as Wd.
  assert (r ∈ topology_routes d) as Hrd by (destruct ext; [by apply in_external|by apply in_internal]).
  destruct (dw_routes _ _ _ Wd r Hrd) as (e' & He' & [_ Ln] & _). assert (e' = e) as -> by congruence.
  unfold eigrp_route_descriptor_delete, eigrp_topology_route_class_queue.
  rewrite wp_bind, wp_bind, (wp_get_route r e), wp_ret, Hc by done.
  rewrite wp_bind, (wp_get_prefix p d) by done. unfold in_queue. rewrite bool_decide_true by done. cbn [negb].
  rewrite wp_bind, (wp_get_route r e) by done. rewrite wp_bind, wp_gets. cbv zeta. rewrite wp_bind, wp_put_prefix. fold (unqueued ext r d).
  set (s1 := set_prefix s p (unqueued ext r d)).
  assert (live_routes s1 (topology_routes (unqueued ext r d))) as HL.
  { pose proof (ok_live _ _ (dest_wf_ok _ _ _ Wd)) as HF. unfold live_routes in *. rewrite Forall_forall in HF. apply Forall_forall.
    intros x Hx. apply HF. by eapply elem_of_sublist, thin_routes, unqueued_thin. }
  rewrite wp_bind. apply (wp_redist_gone _ (unqueued ext r d)); [apply set_prefix_lookup|done|]. intros present. rewrite wp_bind, wp_when.
  assert (forall c, wp (match rd_adv_router e with
     | None => mret tt
     | Some n =>
         nbr ← get_nbr n;
         if limit_prefix_count_valid nbr && negb (limit_prefix_count nbr =? 0) then
           other ← eigrp_prefix_descriptor_lookup p (rd_adv_router e);
           when (negb (bool_decide (is_Some other)))
             (put_nbr n {| nbr with limit_prefix_count := limit_prefix_count nbr - 1 |})
         else mret tt
     end;;
    when (rd_flags e .? EIGRP_ROUTE_DESCRIPTOR_INTABLE_FLAG) (eigrp_rib_route_del (destination d));;
    free_route r) Q {| s1 with redist_prefix_count := c |}) as Hrest.
  { intros c. rewrite wp_bind. apply (wp_peer_gone _ _ (unqueued ext r d)); [done|apply set_prefix_lookup|done|]. intros N HN.
    rewrite wp_bind, wp_when. unfold eigrp_rib_route_del, free_route. destruct (_ .? _); rewrite ?wp_modify; by apply (HQ N c). }
  destruct (_ && negb present); [|apply (Hrest (redist_prefix_count s))]. rewrite wp_modify.
  simpl. destruct (redist_prefix_count s =? 0); [apply (Hrest (redist_prefix_count s))|apply Hrest].
Qed.
End pruning.

(** Destination [p] is [d'] now; nothing but paths went. *)
Record pruned (p : ptr) (d' : eigrp_prefix_descriptor) (s s' : eigrp_instance) : Prop := {
  pn_thinned : thinned s s';
  pn_prefixes : prefixes s' = <[p := d']> (prefixes s);
  pn_table : topology_table s' = topology_table s /\ table_nodes s' = table_nodes s;
  pn_changes : topology_changes s' = topology_changes s;
  pn_queue : packetizer_queue s' = packetizer_queue s;
}.

Definition reach (s : eigrp_instance) (l : list ptr) : list ptr := filter (fun r => on_route s reachable r = true) l.

Section retirement.
Implicit Types s : eigrp_instance.

Lemma queue_set ext l d : queue_of ext (set_queue ext l d) = l.
Proof. by destruct ext. Qed.
Lemma set_set_queue ext l l' d : set_queue ext l' (set_queue ext l d) = set_queue ext l' d.
Proof. by destruct ext. Qed.
Lemma set_queue_same ext d : set_queue ext (queue_of ext d) d = d.
Proof. by destruct ext, d. Qed.

Lemma reach_app s l k : reach s (l ++ k) = reach s l ++ reach s k.
Proof. apply filter_app. Qed.
Lemma reach_sublist s l : sublist (reach s l) l.
Proof. apply sublist_filter. Qed.
Lemma elem_of_reach s l x : x ∈ reach s l -> x ∈ l.
Proof. intros. by eapply elem_of_sublist, reach_sublist. Qed.

Lemma pruned_refl p d s : prefixes s !! p = Some d -> pruned p d s s.
Proof. intros Hd. split; try done; [apply thinned_refl|]. by rewrite insert_id. Qed.

(** One more path is gone. *)
Lemma pruned_gone p d1 d2 ext r N c L s s1 :
  instance_wf s -> pruned p d1 s s1 -> r ∈ queue_of ext d1 -> counts_only (nbrs s1) N -> d2 = unqueued ext r d1 ->
  pruned p d2 s (route_gone p r d2 N c L s1).
Proof.
  intros W [P1 P2 P3 P4 P5] Hr HN ->. split; try done.
  - eapply thinned_trans; [exact P1|]. apply gone_thinned; [by eapply thinned_wf|by rewrite P2, lookup_insert_eq|done|done].
  - simpl. by rewrite P2, insert_insert_eq.
Qed.

Lemma remove_middle r (l k : list ptr) : r ∉ l -> remove_first (Nat.eqb r) (l ++ r :: k) = l ++ k.
Proof.
  induction l as [|x l IH]; intros H; simpl; [by rewrite Nat.eqb_refl|]. apply not_elem_of_cons in H as [H1 H2].
  rewrite (proj2 (Nat.eqb_neq _ _)) by done. by rewrite IH.
Qed.

Lemma wp_prune p ext d s (Q : unit -> eigrp_instance -> Prop) :
  instance_wf s -> shelved s -> prefixes s !! p = Some d ->
  (forall s', pruned p (set_queue ext (reach s (queue_of ext d)) d) s s' -> Q tt s') ->
  wp (mfor (queue_of ext d) (fun r => route ← get_route r; when (negb (reachable route)) (eigrp_route_descriptor_delete p r))) Q s.
Proof.
  intros W S Hd HQ. pose proof (iw_dests _ W p d Hd) as Wd.
  assert (NoDup (queue_of ext d)) as ND.
  { pose proof (dw_nodup _ _ _ Wd) as H. apply NoDup_app in H as (H1 & _ & H2). by destruct ext. }
  apply wp_mfor with (I := fun l' s' => exists l0, queue_of ext d = l0 ++ l' /\ pruned p (set_queue ext (reach s l0 ++ l') d) s s').
  - exists []. split; [done|]. simpl. rewrite set_queue_same. by apply pruned_refl.
  - intros r l' s1 (l0 & El & P). rewrite El in ND. apply NoDup_app in ND as (_ & ND & _).
    assert (r ∉ l0) as Hr0 by (intros H; by eapply (ND r); [|left]).
    assert (prefixes s1 !! p = Some (set_queue ext (reach s l0 ++ r :: l') d)) as Hd1 by (rewrite (pn_prefixes _ _ _ _ P); apply lookup_insert_eq).
    assert (r ∈ topology_routes (set_queue ext (reach s l0 ++ r :: l') d)) as Hr.
    { destruct ext; [apply in_external|apply in_internal]; simpl; apply elem_of_app; right; by left. }
    destruct (thinned_path _ _ _ _ _ (pn_thinned _ _ _ _ P) W Hd1 Hr) as (_ & e & _ & _ & _ & He & He1).
    rewrite wp_bind, (wp_get_route r e) by done. rewrite wp_when.
    assert (reach s (l0 ++ [r]) = reach s l0 ++ (if reachable e then [r] else [])) as Er.
    { rewrite reach_app. f_equal. unfold reach. rewrite filter_cons, filter_nil. unfold on_route. rewrite He. by destruct (reachable e). }
    destruct (reachable e); simpl.
    + exists (l0 ++ [r]). rewrite Er, <-!app_assoc. done.
    + eapply (wp_route_delete _ _ _ e ext); [eapply thinned_wf; [apply P|done]|exact Hd1| |done| |].
      * rewrite queue_set. apply elem_of_app. right. by left.
      * eapply (sh_class _ S p d ext r e); [done| |done]. rewrite El. apply elem_of_app. right. by left.
      * intros N c L HN. exists (l0 ++ [r]). split; [by rewrite <-app_assoc|]. rewrite Er, app_nil_r.
        assert (unqueued ext r (set_queue ext (reach s l0 ++ r :: l') d) = set_queue ext (reach s l0 ++ l') d) as Eu.
        { unfold unqueued. rewrite queue_set, set_set_queue, remove_middle; [done|]. by intros ?%elem_of_reach. }
        rewrite <-Eu. eapply pruned_gone; [done|exact P| |done|done]. rewrite queue_set. apply elem_of_app. right. by left.
  - intros s' (l0 & El & P). rewrite app_nil_r in *. subst. by apply HQ.
Qed.

(** Destination [p] left the table; its entries of the change list and its node went. *)
Definition detached (p t : ptr) (d : eigrp_prefix_descriptor) (s : eigrp_instance) : eigrp_instance :=
  {| s with topology_changes := filter (fun q => q <> p) (topology_changes s); rib_log := rib_log s ++ [RibDel (destination d)];
     table_nodes := delete t (table_nodes s); prefixes := <[p := {| d with table_node := None |}]> (prefixes s);
     topology_table := remove_first (Nat.eqb t) (topology_table s) |}.

Lemma detached_thinned p t d s : shelved s -> prefixes s !! p = Some d -> table_node d = Some t -> thinned s (detached p t d s).
Proof.
  intros S Hd Ht. destruct (sh_node _ S p d t Hd Ht) as (Hin & n & Hn & Hi).
  assert (forall x, x ∈ remove_first (Nat.eqb t) (topology_table s) -> x ∈ topology_table s /\ x <> t) as Hrm.
  { intros x Hx. by apply elem_of_remove_first in Hx; [|apply S]. }
  split; try done; simpl.
  - intros q. destruct (decide (q = p)) as [->|Hne].
    + rewrite lookup_insert_eq, Hd. constructor. split; [done|done|by right|done].
    + rewrite lookup_insert_ne by done. destruct (prefixes s !! q); constructor. apply thin_refl.
  - apply sublist_filter.
  - intros x nx Hx. by apply lookup_delete_Some in Hx as [_ Hx].
  - apply remove_first_sublist.
  - intros x [_ Hx]%Hrm Hl. by rewrite lookup_delete_ne.
  - intros q dq x Hq Hx Hin'. apply elem_of_remove_first; [apply S|]. split; [done|]. intros ->.
    destruct (decide (q = p)) as [->|Hne]; [by rewrite lookup_insert_eq in Hq; simplify_eq|]. rewrite lookup_insert_ne in Hq by done.
    destruct (sh_node _ S q dq t Hq Hx) as (_ & n' & Hn' & Hi'). congruence.
  - intros q d1 d2 x H1 H2 Hx [_ Hxt]%Hrm. destruct (decide (q = p)) as [->|Hne]; [congruence|]. rewrite lookup_insert_ne in H2 by done. congruence.
Qed.

Lemma detached_out p t d s : shelved s -> prefixes s !! p = Some d -> table_node d = Some t -> ~ in_table (detached p t d s) p.
Proof.
  intros S Hd Ht (x & n & Hx & Hn & Hi). simpl in *. apply elem_of_remove_first in Hx as [Hx Hne]; [|apply S].
  rewrite lookup_delete_ne in Hn by done. pose proof (sh_table _ S x n p d Hx Hn Hi Hd). congruence.
Qed.

Lemma wp_node_out p t d n s (Q : bool -> eigrp_instance -> Prop) :
  prefixes s !! p = Some d -> table_nodes s !! t = Some n ->
  Q true {| s with table_nodes := delete t (table_nodes s); prefixes := <[p := {| d with table_node := None |}]> (prefixes s);
            topology_table := remove_first (Nat.eqb t) (topology_table s) |} ->
  wp (upd_tnode t (fun n => {| n with tn_info := None |});;
      upd_prefix p (fun d => {| d with table_node := None |});;
      topology_node_remove t;;
      mret true) Q s.
Proof.
  intros Hd Hn HQ. rewrite <-(delete_insert_eq (table_nodes s) t {| n with tn_info := None |}) in HQ.
  rewrite wp_bind. unfold upd_tnode. rewrite wp_bind, (wp_get_tnode t n) by done.
  unfold put_tnode. rewrite wp_modify, wp_bind, (wp_upd_prefix p _ d) by done. exact HQ.
Qed.

Lemma wp_detach p d s (Q : bool -> eigrp_instance -> Prop) :
  shelved s -> table_wf s -> prefixes s !! p = Some d -> eigrp_prefix_valid (destination d) = true ->
  (~ in_table s p -> Q false s) -> (forall t, table_node d = Some t -> Q true (detached p t d s)) -> wp (eigrp_topology_prefix_detach p) Q s.
Proof.
  intros S T Hd Hv Hf Ht. unfold eigrp_topology_prefix_detach. rewrite wp_bind, (wp_get_prefix p d) by done.
  destruct (eigrp_topology_table_key (destination d)) as [key|] eqn:Ek; [|unfold eigrp_topology_table_key in Ek; by rewrite Hv in Ek].
  rewrite wp_bind. unfold prefix_table_node. destruct (table_node d) as [t|] eqn:En.
  - destruct (sh_node _ S p d t Hd En) as (Hin & n & Hn & Hi). rewrite wp_ret, wp_bind, (wp_get_tnode t n), Hi by done.
    unfold opt_ptr_eqb at 1. rewrite bool_decide_true by done. cbn [negb]. rewrite wp_bind, wp_modify. unfold eigrp_rib_route_del. rewrite wp_bind, wp_modify.
    eapply wp_node_out; [exact Hd|exact Hn|]. by apply (Ht t).
  - assert (~ in_table s p) as Hout.
    { intros (x & n & Hx & Hn & Hi). pose proof (sh_table _ S x n p d Hx Hn Hi Hd). congruence. }
    apply wp_node_lookup; [done|by eapply table_key_valid|]. destruct (node_find s key) as [t|] eqn:Ef; [|by rewrite wp_ret; apply Hf].
    apply List.find_some in Ef as [Hx Ef]. apply list_elem_of_In in Hx. destruct (table_nodes s !! t) as [n|] eqn:Hn; [|done].
    rewrite wp_bind, (wp_get_tnode t n) by done. destruct (opt_ptr_eqb (tn_info n) (Some p)) eqn:Ei; cbn [negb]; [|by rewrite wp_ret; apply Hf].
    destruct Hout. exists t, n. split; [done|]. split; [done|]. by apply bool_decide_eq_true in Ei.
Qed.

Lemma reach_ext s s' l : (forall x, x ∈ l -> on_route s' reachable x = on_route s reachable x) -> reach s' l = reach s l.
Proof.
  intros H. induction l as [|x l IH]; [done|]. unfold reach in *. rewrite !filter_cons, IH by (intros y Hy; apply H; by right).
  pose proof (H x ltac:(by left)) as Hx. repeat case_decide; congruence.
Qed.

(** Paths of destinations that stayed have their data. *)
Lemma reach_thinned s s' q d' ext : thinned s s' -> instance_wf s -> prefixes s' !! q = Some d' ->
  reach s' (queue_of ext d') = reach s (queue_of ext d').
Proof.
  intros T W Hd. apply reach_ext. intros x Hx.
  assert (x ∈ topology_routes d') as Hx' by (destruct ext; [by apply in_external|by apply in_internal]).
  destruct (thinned_path _ _ _ _ _ T W Hd Hx') as (_ & e & _ & _ & _ & A & B). unfold on_route. by rewrite A, B.
Qed.

Lemma reach_idem s l : reach s (reach s l) = reach s l.
Proof.
  unfold reach. induction l as [|x l IH]; [done|]. rewrite filter_cons. destruct (decide _); [|done].
  rewrite filter_cons, decide_True by done. by rewrite IH.
Qed.

Lemma with_queue_thinned s q : thinned s (with_queue s q).
Proof.
  split; try done; simpl; eauto.
  - intros x. destruct (prefixes s !! x); constructor. apply thin_refl.
  - intros x d d' t H1 H2. by simplify_eq.
Qed.

(** What retirement leaves of destination [p]: the reachable paths. *)
Record retired (p : ptr) (d : eigrp_prefix_descriptor) (s s' : eigrp_instance) : Prop := {
  rt_thinned : thinned s s';
  rt_dest : exists d', prefixes s' !! p = Some d' /\ internal_routes d' = reach s (internal_routes d)
    /\ external_routes d' = reach s (external_routes d) /\ req_action d' = req_action d;
  rt_others : forall q, q <> p -> prefixes s' !! q = prefixes s !! q;
  rt_routed : routed s -> routed s';
}.

Lemma retired_intro p d d' s s' :
  thinned s s' -> prefixes s !! p = Some d -> prefixes s' !! p = Some d' -> internal_routes d' = reach s (internal_routes d) ->
  external_routes d' = reach s (external_routes d) -> req_action d' = req_action d ->
  (forall q, q <> p -> prefixes s' !! q = prefixes s !! q) -> (topology_routes d' = [] -> ~ in_table s' p) -> retired p d s s'.
Proof.
  intros T Hd Hd' E1 E2 E3 Ho Hout. split; [done|by exists d'|done|]. intros R q dq Hin Hq.
  destruct (decide (q = p)) as [->|Hne].
  - rewrite Hd' in Hq. injection Hq as <-. intros E. by apply Hout.
  - rewrite Ho in Hq by done. eapply (R q dq); [by eapply thinned_in_table|done].
Qed.

Lemma wp_defer_free p s (Q : unit -> eigrp_instance -> Prop) :
  mem s = [] -> shutdown s = false -> thread_running s = true -> (forall q, Q tt (with_queue s q)) ->
  wp (eigrp_packetizer_prefix_defer_free p) Q s.
Proof.
  intros Hm Hs Hr HQ. unfold eigrp_packetizer_prefix_defer_free, eigrp_packetizer_work_create.
  rewrite wp_bind, wp_bind, wp_calloc, wp_ret by done. unfold eigrp_packetizer_enqueue.
  match goal with |- context [eigrp_packetizer_opcode_valid ?x] => change (eigrp_packetizer_opcode_valid x) with true end.
  cbn [negb]. rewrite wp_bind, wp_get, Hs, Hr. cbn [orb negb]. rewrite wp_modify. apply HQ.
Qed.

(** The pruned destination stays, or leaves the table without paths. *)
Lemma wp_retire p d s (Q : unit -> eigrp_instance -> Prop) :
  store_ok s -> shelved s -> shutdown s = false -> thread_running s = true ->
  prefixes s !! p = Some d -> pd_state d = EIGRP_FSM_STATE_PASSIVE -> req_action d = 0 -> eigrp_prefix_valid (destination d) = true ->
  (forall s', retired p d s s' -> Q tt s') -> wp (eigrp_update_topology_table_prefix p) Q s.
Proof.
  intros [W T M] S Hsh Hr Hd Hpa Hra Hv HQ. unfold eigrp_update_topology_table_prefix.
  rewrite wp_bind, (wp_get_prefix p d), Hra by done. change (has_flag 0 EIGRP_FSM_NEED_UPDATE) with false. cbv iota zeta.
  rewrite wp_bind. apply (wp_prune p false d); [done..|]. intros s1 P1.
  set (d1 := set_queue false (reach s (queue_of false d)) d) in *.
  assert (prefixes s1 !! p = Some d1) as Hd1 by (rewrite (pn_prefixes _ _ _ _ P1); apply lookup_insert_eq).
  pose proof (thinned_wf _ _ (pn_thinned _ _ _ _ P1) W) as W1. pose proof (thinned_shelved _ _ (pn_thinned _ _ _ _ P1) S) as S1.
  rewrite wp_bind, (wp_get_prefix p d1) by done. rewrite wp_bind. apply (wp_prune p true d1); [done..|]. intros s2 P2.
  rewrite (reach_thinned s s1 p d1 true) in P2 by (done || apply P1).
  set (d2 := set_queue true (reach s (queue_of true d1)) d1) in *.
  assert (prefixes s2 !! p = Some d2) as Hd2 by (rewrite (pn_prefixes _ _ _ _ P2); apply lookup_insert_eq).
  pose proof (thinned_trans _ _ _ (pn_thinned _ _ _ _ P1) (pn_thinned _ _ _ _ P2)) as T2.
  assert (forall q, q <> p -> prefixes s2 !! q = prefixes s !! q) as Ho.
  { intros q Hq. rewrite (pn_prefixes _ _ _ _ P2), lookup_insert_ne, (pn_prefixes _ _ _ _ P1), lookup_insert_ne by done. done. }
  rewrite wp_bind, (wp_get_prefix p d2) by done.
  assert (query_origin d = None) as Eo.
  { pose proof (dw_discipline _ _ _ (iw_dests _ W p d Hd)) as H. unfold origin_discipline in H. by rewrite Hpa in H. }
  change (pd_state d2) with (pd_state d). change (req_action d2) with (req_action d). change (rij d2) with (rij d).
  change (query_origin d2) with (query_origin d). rewrite Hpa, Hra, Eo, (sh_quiet _ S p d Hd Hpa). rewrite !bool_decide_true by done. cbn [andb Z.eqb].
  assert (forall s3, thinned s s3 -> prefixes s3 = prefixes s2 -> (topology_routes d2 = [] -> ~ in_table s3 p) -> Q tt s3) as Hstay.
  { intros s3 T3 E3 Hout. apply HQ. eapply (retired_intro p d d2); [done|done|by rewrite E3|done..|by rewrite E3|done]. }
  destruct (bool_decide (internal_routes d2 = []) && bool_decide (external_routes d2 = [])) eqn:Ee.
  - apply andb_true_iff in Ee as [E1%bool_decide_eq_true E2%bool_decide_eq_true].
    pose proof (thinned_shelved _ _ T2 S) as S2. destruct (thinned_fields _ _ T2) as (_ & _ & Em & Es & Er & _).
    pose proof (so_table _ (thinned_store _ _ T2 {| so_wf := W; so_table := T; so_mem := M |})) as W2.
    rewrite wp_bind. apply (wp_detach p d2); [done|done|done|done| |].
    + intros Hout. rewrite wp_when. by apply Hstay.
    + intros t Ht. rewrite wp_when. apply wp_defer_free; simpl; [congruence..|]. intros q.
      pose proof (detached_thinned p t d2 s2 S2 Hd2 Ht) as T3.
      apply HQ. eapply (retired_intro p d {| d2 with table_node := None |}); [|done|simpl; apply lookup_insert_eq|done..| |].
      * eapply thinned_trans; [exact T2|]. eapply thinned_trans; [exact T3|apply with_queue_thinned].
      * intros x Hx. simpl. rewrite lookup_insert_ne by done. by apply Ho.
      * intros _ Hin. by apply (detached_out p t d2 s2 S2 Hd2 Ht).
  - rewrite wp_ret. apply Hstay; [done|done|]. intros E. exfalso. unfold topology_routes in E.
    apply app_eq_nil in E as [E1 E2]. rewrite E1, E2 in Ee. by rewrite !bool_decide_true in Ee by done.
Qed.
End retirement.

(** ** The settled changes *)

(** Only the pending actions and the mark of the retirement list changed. *)
Definition quiet (d d' : eigrp_prefix_descriptor) : Prop :=
  d' = {| d with req_action := req_action d'; retirement_queued := retirement_queued d' |}.

(** The queues of a destination, [reach]ed when it was retired. *)
Definition queues_kept (s : eigrp_instance) (b : bool) (d d' : eigrp_prefix_descriptor) : Prop :=
  forall ext, queue_of ext d' = if b then reach s (queue_of ext d) else queue_of ext d.

(** The destinations of [l] were retired. *)
Record cleared (l : list ptr) (s s' : eigrp_instance) : Prop := {
  cd_thinned : thinned s s';
  cd_routed : routed s -> routed s';
  cd_dests : forall q d, prefixes s !! q = Some d -> exists d', prefixes s' !! q = Some d' /\ req_action d' = req_action d
    /\ pd_state d' = pd_state d /\ destination d' = destination d /\ queues_kept s (bool_decide (q ∈ l)) d d';
}.

Section settling.
Implicit Types s : eigrp_instance.

Lemma quiet_thinned p d d' s : prefixes s !! p = Some d -> quiet d d' -> thinned s (set_prefix s p d').
Proof.
  intros Hd E. unfold quiet in E. split; try done; simpl; eauto.
  - intros q. destruct (decide (q = p)) as [->|Hne].
    + rewrite lookup_insert_eq, Hd. constructor. rewrite E. split; [done|done|by left|done].
    + rewrite lookup_insert_ne by done. destruct (prefixes s !! q); constructor. apply thin_refl.
  - intros q d1 d2 t H1 H2 Ht. destruct (decide (q = p)) as [->|Hne].
    + rewrite lookup_insert_eq in H2. simplify_eq. by rewrite E.
    + rewrite lookup_insert_ne in H2 by done. by simplify_eq.
Qed.

Lemma quiet_routed p d d' s : prefixes s !! p = Some d -> quiet d d' -> routed s -> routed (set_prefix s p d').
Proof.
  intros Hd E R q dq Hin Hq. simpl in Hq. destruct (decide (q = p)) as [->|Hne].
  - rewrite lookup_insert_eq in Hq. injection Hq as <-. rewrite E. exact (R p d Hin Hd).
  - rewrite lookup_insert_ne in Hq by done. by apply (R q).
Qed.

Lemma cleared_nil s : cleared [] s s.
Proof. split; [apply thinned_refl|done|]. intros q d Hd. exists d. repeat (split; [done|]). by intros ext. Qed.

Lemma queues_kept_same s b d d' : quiet d d' -> forall d0, queues_kept s b d0 d -> queues_kept s b d0 d'.
Proof. intros E d0 H ext. rewrite E. rewrite <-H. by destruct ext. Qed.

(** One more destination. *)
Lemma cleared_snoc l p d d1 d1' s s1 s2 :
  instance_wf s -> cleared l s s1 -> prefixes s !! p = Some d -> prefixes s1 !! p = Some d1 -> quiet d1 d1' -> req_action d1' = req_action d1 ->
  retired p d1' (set_prefix s1 p d1') s2 -> cleared (l ++ [p]) s s2.
Proof.
  intros W [C1 C2 C3] Hd Hd1 Hq Er R. pose proof (quiet_thinned p d1 d1' s1 Hd1 Hq) as Tq. split.
  - eapply thinned_trans; [exact C1|]. eapply thinned_trans; [exact Tq|apply R].
  - intros H. apply R. eapply quiet_routed; [exact Hd1|done|by apply C2].
  - intros q dq Hdq. destruct (C3 q dq Hdq) as (dq1 & Hdq1 & Q1 & Q2 & Q3 & Q4). destruct (decide (q = p)) as [->|Hne].
    + destruct (rt_dest _ _ _ _ R) as (d2 & Hd2 & F1 & F2 & F3). simplify_eq.
      destruct (thinned_back _ _ _ _ (rt_thinned _ _ _ _ R) Hd2) as (x & Hx & Tx). simpl in Hx. rewrite lookup_insert_eq in Hx. injection Hx as <-.
      destruct (thin_state _ _ Tx) as (E1 & _ & _ & E2). exists d2. split; [done|]. split; [congruence|].
      split; [rewrite E1, Hq; exact Q2|]. split; [rewrite E2, Hq; exact Q3|].
      intros ext. rewrite bool_decide_true by (apply elem_of_app; right; by left).
      assert (queue_of ext d2 = reach (set_prefix s1 p d1') (queue_of ext d1')) as -> by (destruct ext; [exact F2|exact F1]).
      rewrite (reach_thinned s _ p d1' ext); [|by eapply thinned_trans|done|simpl; apply lookup_insert_eq].
      rewrite (queues_kept_same s _ d1 d1' Hq d Q4 ext). case_bool_decide; [apply reach_idem|done].
    + exists dq1. split; [rewrite (rt_others _ _ _ _ R q Hne); simpl; by rewrite lookup_insert_ne|]. repeat (split; [done|]).
      intros ext. rewrite (Q4 ext). replace (bool_decide (q ∈ l ++ [p])) with (bool_decide (q ∈ l)); [done|]. apply bool_decide_ext. rewrite elem_of_app, list_elem_of_singleton. tauto.
Qed.

(** A destination that is ready to be retired. *)
Definition settled_out (s : eigrp_instance) (p : ptr) : Prop :=
  exists d, prefixes s !! p = Some d /\ pd_state d = EIGRP_FSM_STATE_PASSIVE /\ req_action d = 0
    /\ eigrp_prefix_valid (destination d) = true.

Lemma wp_retire_all l s (Q : unit -> eigrp_instance -> Prop) :
  store_ok s -> shelved s -> shutdown s = false -> thread_running s = true -> Forall (settled_out s) l ->
  (forall s', cleared l s s' -> Q tt s') -> wp (retire_all (Some l)) Q s.
Proof.
  intros O S Hsh Hr F HQ. unfold retire_all. cbn [default]. rewrite Forall_forall in F.
  apply wp_mfor with (I := fun l' s1 => exists l0, l = l0 ++ l' /\ cleared l0 s s1).
  - exists []. split; [done|apply cleared_nil].
  - intros p l' s1 (l0 & El & C). destruct (F p) as (d & Hd & Hp & Ha & Hv); [rewrite El; apply elem_of_app; right; by left|].
    destruct (cd_dests _ _ _ C p d Hd) as (d1 & Hd1 & Q1 & Q2 & Q3 & _). pose proof (cd_thinned _ _ _ C) as T.
    rewrite wp_bind, (wp_upd_prefix p _ d1) by done. set (d1' := {| d1 with retirement_queued := false |}).
    assert (quiet d1 d1') as Hq by done. pose proof (quiet_thinned p d1 d1' s1 Hd1 Hq) as Tq.
    pose proof (thinned_trans _ _ _ T Tq) as T1. destruct (thinned_fields _ _ T1) as (_ & _ & _ & E1 & E2 & _).
    apply (wp_retire p d1'); [by eapply thinned_store|by eapply thinned_shelved|congruence|congruence|apply set_prefix_lookup| | | |].
    + simpl. congruence.
    + simpl. congruence.
    + simpl. congruence.
    + intros s2 R. exists (l0 ++ [p]). split; [by rewrite <-app_assoc|]. by eapply (cleared_snoc l0 p d d1 d1'); [apply O|..].
  - intros s' (l0 & El & C). rewrite app_nil_r in El. subst. by apply HQ.
Qed.

(** *** The walk over the change list *)

(** The pending actions once the UPDATE went out. *)
Definition served (r : Z) : Z :=
  if has_flag r EIGRP_FSM_NEED_UPDATE then Z.land r (u32 (Z.lnot EIGRP_FSM_NEED_UPDATE)) else r.

Lemma served_done r : has_flag (served r) EIGRP_FSM_NEED_UPDATE = false.
Proof.
  unfold served. destruct (has_flag r EIGRP_FSM_NEED_UPDATE) eqn:E; [|done].
  unfold has_flag. rewrite <-Z.land_assoc. change (Z.land (u32 (Z.lnot EIGRP_FSM_NEED_UPDATE)) EIGRP_FSM_NEED_UPDATE) with 0. by rewrite Z.land_0_r.
Qed.

Lemma served_again r : served (served r) = served r.
Proof. unfold served at 1. by rewrite served_done. Qed.

(** The walk stands at entry [k] of the list, with the destinations [l] to retire. *)
Record walked (s : eigrp_instance) (k : nat) (l : list ptr) (s' : eigrp_instance) : Prop := {
  wk_thinned : thinned s s';
  wk_routed : routed s -> routed s';
  wk_index : (k <= length (topology_changes s'))%nat;
  wk_dests : forall q d, prefixes s !! q = Some d -> exists d', prefixes s' !! q = Some d' /\ quiet d d'
    /\ ((d' = d /\ (q ∈ topology_changes s -> q ∈ drop k (topology_changes s')))
        \/ (req_action d' = served (req_action d) /\ q ∈ topology_changes s
            /\ (has_flag (req_action d) EIGRP_FSM_NEED_UPDATE = true -> req_action d' = 0 -> pd_state d = EIGRP_FSM_STATE_PASSIVE ->
                retirement_queued d = false -> q ∈ l)));
  wk_kept : forall q, q ∈ take k (topology_changes s') -> exists d, prefixes s !! q = Some d /\ served (req_action d) <> 0;
  wk_retire : forall q, q ∈ l -> q ∈ topology_changes s /\ exists d, prefixes s !! q = Some d /\ pd_state d = EIGRP_FSM_STATE_PASSIVE /\ served (req_action d) = 0;
}.
End settling.

Section walk.
Implicit Types s : eigrp_instance.

(** The list without entry [k], or as it is. *)
Definition changes_cut (removed : bool) (k : nat) (l : list ptr) : list ptr :=
  if removed then take k l ++ drop (S k) l else l.
Definition cut_index (removed : bool) (k : nat) : nat := if removed then k else S k.

Lemma cut_take removed k l p : l !! k = Some p ->
  forall q, q ∈ take (cut_index removed k) (changes_cut removed k l) -> q ∈ take k l \/ (removed = false /\ q = p).
Proof.
  intros Hk q. pose proof (lookup_lt_Some _ _ _ Hk) as Hl. unfold cut_index, changes_cut. destruct removed.
  - rewrite take_app_length' by (rewrite length_take; lia). by left.
  - rewrite (take_S_r _ _ p) by done. rewrite elem_of_app, list_elem_of_singleton. tauto.
Qed.

Lemma cut_drop removed k l p : l !! k = Some p ->
  drop (cut_index removed k) (changes_cut removed k l) = drop (S k) l /\ (cut_index removed k <= length (changes_cut removed k l))%nat.
Proof.
  intros Hk. pose proof (lookup_lt_Some _ _ _ Hk) as Hl. unfold cut_index, changes_cut. destruct removed; [|split; [done|lia]].
  rewrite drop_app_length' by (rewrite length_take; lia). split; [done|]. rewrite length_app, length_take. lia.
Qed.

Lemma cut_sublist removed k (l : list ptr) : sublist (changes_cut removed k l) l.
Proof.
  destruct removed; [|done]. unfold changes_cut. rewrite <-(take_drop k l) at 3. apply sublist_app; [done|].
  replace (drop (S k) l) with (drop 1 (drop k l)) by (rewrite drop_drop; f_equal; lia).
  destruct (drop k l); simpl; [constructor|by constructor].
Qed.

(** The state after a visit. *)
Definition visited (p : ptr) (d' : eigrp_prefix_descriptor) (removed : bool) (k : nat) (s : eigrp_instance) : eigrp_instance :=
  let s1 := set_prefix s p d' in {| s1 with topology_changes := changes_cut removed k (topology_changes s) |}.

Lemma visited_thinned p d d' removed k s : prefixes s !! p = Some d -> quiet d d' -> thinned s (visited p d' removed k s).
Proof.
  intros Hd E. destruct (quiet_thinned p d d' s Hd E) as [H1 H2 H3 H4 H5 H6 H7 H8 H9 H10 H11 H12].
  split; try assumption. apply cut_sublist.
Qed.

Lemma walked_visit s k l l' s1 p d1 d1' removed :
  instance_wf s -> walked s k l s1 -> topology_changes s1 !! k = Some p -> prefixes s1 !! p = Some d1 -> quiet d1 d1' ->
  req_action d1' = served (req_action d1) -> (has_flag (req_action d1) EIGRP_FSM_NEED_UPDATE = false -> d1' = d1) ->
  removed = bool_decide (req_action d1' = 0) ->
  ((l' = l ++ [p] /\ pd_state d1 = EIGRP_FSM_STATE_PASSIVE /\ req_action d1' = 0)
   \/ (l' = l /\ (has_flag (req_action d1) EIGRP_FSM_NEED_UPDATE = true -> req_action d1' = 0 -> pd_state d1 = EIGRP_FSM_STATE_PASSIVE ->
        retirement_queued d1 = false -> False))) ->
  walked s (cut_index removed k) l' (visited p d1' removed k s1).
Proof.
  intros W [K1 K2 K3 K4 K5 K6] Hk Hd1 Hq Er Hsame -> Hl. set (removed := bool_decide (req_action d1' = 0)).
  pose proof (visited_thinned p d1 d1' removed k s1 Hd1 Hq) as Tv.
  assert (p ∈ topology_changes s) as Hps by (eapply elem_of_sublist; [by eapply list_elem_of_lookup_2|apply K1]).
  destruct (thinned_back _ _ _ _ K1 Hd1) as (d & Hd & _). destruct (K4 p d Hd) as (x & Hx & Hqd & Hcase). assert (x = d1) as -> by congruence. clear Hx.
  assert (req_action d1' = served (req_action d)) as Es.
  { rewrite Er. destruct Hcase as [[-> _]|[-> _]]; [done|apply served_again]. }
  assert (quiet d d1') as Hq' by (unfold quiet in *; rewrite Hq, Hqd; done).
  assert (pd_state d1 = pd_state d) as Ep by (by rewrite Hqd).
  assert (forall q, q ∈ l -> q ∈ l') as Hll by (intros q H; destruct Hl as [[-> _]|[-> _]]; [apply elem_of_app; by left|done]).
  split.
  - by eapply thinned_trans.
  - intros R. exact (quiet_routed p d1 d1' s1 Hd1 Hq (K2 R)).
  - exact (proj2 (cut_drop removed k _ p Hk)).
  - intros q dq Hdq. destruct (decide (q = p)) as [->|Hne].
    + rewrite Hd in Hdq. injection Hdq as <-. exists d1'. split; [apply lookup_insert_eq|]. split; [done|]. right. split; [done|]. split; [done|].
      intros Hf H0 Hpas Hrq. destruct Hcase as [[Ed _]|(Esd & _ & Hin)].
      * destruct Hl as [[-> _]|[_ Hno]]; [apply elem_of_app; right; by left|]. destruct Hno; by rewrite ?Ed.
      * apply Hll, Hin; [done| |done|done]. rewrite <-(Hsame ltac:(rewrite Esd; apply served_done)). done.
    + destruct (K4 q dq Hdq) as (y & Hy & Hqy & Hc). exists y. split; [simpl; by rewrite lookup_insert_ne|]. split; [done|].
      destruct Hc as [[Ey Hin]|(Ey & Hin & Hm)]; [left|right].
      * split; [done|]. intros Hin'%Hin. change (q ∈ drop (cut_index removed k) (changes_cut removed k (topology_changes s1))).
        rewrite (proj1 (cut_drop removed k _ p Hk)). erewrite drop_S in Hin' by exact Hk. by apply elem_of_cons in Hin' as [?|?].
      * split; [done|]. split; [done|]. intros. by apply Hll, Hm.
  - intros q Hin. destruct (cut_take removed k _ p Hk q Hin) as [Hin'|[Hf ->]]; [by apply K5|].
    exists d. split; [done|]. rewrite <-Es. unfold removed in Hf. by apply bool_decide_eq_false in Hf.
  - intros q Hin. destruct Hl as [(-> & Hp & H0)|[-> _]]; [|by apply K6].
    apply elem_of_app in Hin as [Hin|Hin%list_elem_of_singleton]; [by apply K6|]. subst q. split; [done|]. exists d.
    split; [done|]. split; [by rewrite <-Ep|by rewrite <-Es].
Qed.

(** One entry of the list. *)
Lemma wp_change_settle s k l s1 p (Q : bool * option (list ptr) -> eigrp_instance -> Prop) :
  store_ok s -> walked s k l s1 -> topology_changes s1 !! k = Some p ->
  (forall removed l' s2, walked s (cut_index removed k) l' s2 -> topology_changes s2 = changes_cut removed k (topology_changes s1) ->
     Q (removed, Some l') s2) ->
  wp (change_settle EIGRP_FSM_NEED_UPDATE k p (Some l)) Q s1.
Proof.
  intros O K Hk HQ. pose proof (so_wf _ O) as W. destruct (thinned_fields _ _ (wk_thinned _ _ _ _ K)) as (_ & _ & Em & _).
  rewrite (so_mem _ O) in Em. pose proof (thinned_wf _ _ (wk_thinned _ _ _ _ K) W) as W1.
  destruct (iw_changes _ W1 p) as [d1 Hd1]; [by eapply list_elem_of_lookup_2|].
  assert (forall d1' l' removed, quiet d1 d1' -> req_action d1' = served (req_action d1) ->
    (has_flag (req_action d1) EIGRP_FSM_NEED_UPDATE = false -> d1' = d1) -> removed = bool_decide (req_action d1' = 0) ->
    ((l' = l ++ [p] /\ pd_state d1 = EIGRP_FSM_STATE_PASSIVE /\ req_action d1' = 0)
     \/ (l' = l /\ (has_flag (req_action d1) EIGRP_FSM_NEED_UPDATE = true -> req_action d1' = 0 -> pd_state d1 = EIGRP_FSM_STATE_PASSIVE ->
        retirement_queued d1 = false -> False))) -> Q (removed, Some l') (visited p d1' removed k s1)) as Hend.
  { intros d1' l' removed H1 H2 H3 -> H5. apply HQ; [|done]. by eapply walked_visit. }
  unfold change_settle. rewrite wp_bind, (wp_get_prefix p d1) by done.
  destruct (has_flag (req_action d1) EIGRP_FSM_NEED_UPDATE) eqn:Ef; cbn [negb].
  - set (d2 := {| d1 with req_action := served (req_action d1) |}).
    assert ({| d1 with req_action := Z.land (req_action d1) (u32 (Z.lnot EIGRP_FSM_NEED_UPDATE)) |} = d2) as E2 by (unfold d2, served; by rewrite Ef).
    rewrite wp_bind, wp_when. change (EIGRP_FSM_NEED_UPDATE =? EIGRP_FSM_NEED_QUERY) with false. cbv iota.
    rewrite wp_bind, (wp_upd_prefix p _ d1), E2 by done. rewrite wp_bind, (wp_get_prefix p d2) by apply set_prefix_lookup.
    destruct (req_action d2 =? 0) eqn:E0; cbn [negb].
    + apply Z.eqb_eq in E0. rewrite wp_bind. unfold changes_remove. rewrite wp_modify. rewrite Z.eqb_refl. cbn [andb].
      change (pd_state d2) with (pd_state d1). change (retirement_queued d2) with (retirement_queued d1).
      destruct (is_passive (pd_state d1) && negb (retirement_queued d1)) eqn:Ep.
      * apply andb_true_iff in Ep as [Ep%bool_decide_eq_true Eq].
        rewrite wp_bind, wp_calloc by done. cbv iota. rewrite wp_bind, (wp_upd_prefix p _ d2) by (simpl; apply lookup_insert_eq). rewrite wp_ret.
        unfold set_prefix. cbn [prefixes]. rewrite insert_insert_eq.
        apply (Hend {| d2 with retirement_queued := true |} (l ++ [p]) true); [done|done|congruence| |left; by split].
        symmetry. by apply bool_decide_eq_true.
      * rewrite wp_ret. apply (Hend d2 l true); [done|done|congruence| |right].
        { symmetry. by apply bool_decide_eq_true. }
        split; [done|]. intros _ _ Hpa Hrq. by rewrite Hpa, Hrq in Ep.
    + apply Z.eqb_neq in E0. rewrite wp_ret. apply (Hend d2 l false); [done|done|congruence| |right].
      { symmetry. by apply bool_decide_eq_false. }
      by split.
  - assert (served (req_action d1) = req_action d1) as Es by (unfold served; by rewrite Ef).
    assert (forall r, visited p d1 r k s1 = {| s1 with topology_changes := changes_cut r k (topology_changes s1) |}) as Ev.
    { intros r. unfold visited, set_prefix. cbv zeta. by rewrite insert_id. }
    destruct (Z.eqb_spec (req_action d1) 0) as [E0|E0].
    + rewrite wp_bind. unfold changes_remove. rewrite wp_modify, wp_ret. specialize (Hend d1 l true). rewrite Ev in Hend.
      apply Hend; [by destruct d1|done|done| |right; by split]. symmetry. by apply bool_decide_eq_true.
    + rewrite wp_ret. specialize (Hend d1 l false). rewrite Ev in Hend. cbn [changes_cut] in Hend.
      replace {| s1 with topology_changes := topology_changes s1 |} with s1 in Hend by (by destruct s1).
      apply Hend; [by destruct d1|done|done| |right; by split]. symmetry. by apply bool_decide_eq_false.
Qed.

Lemma wp_changes_settle fuel s k l s1 (Q : option (list ptr) -> eigrp_instance -> Prop) :
  store_ok s -> walked s k l s1 -> (length (drop k (topology_changes s1)) < fuel)%nat ->
  (forall l' s', walked s (length (topology_changes s')) l' s' -> Q (Some l') s') ->
  wp (changes_settle fuel EIGRP_FSM_NEED_UPDATE k (Some l)) Q s1.
Proof.
  intros O K Hf HQ. revert k l s1 K Hf. induction fuel as [|fuel IH]; intros k l s1 K Hf; [lia|]. cbn [changes_settle].
  rewrite wp_bind, wp_gets. destruct (topology_changes s1 !! k) as [p|] eqn:Hk.
  - cbv zeta. rewrite wp_bind. eapply (wp_change_settle s k l s1 p); [done..|]. intros removed l' s2 K2 E2.
    destruct (cut_drop removed k _ p Hk) as [D1 D2]. rewrite <-E2 in D1, D2. pose proof (lookup_lt_Some _ _ _ Hk) as Hlt.
    assert (length (drop (S k) (topology_changes s1)) = length (topology_changes s1) - S k)%nat as L by apply length_drop.
    destruct (Nat.leb_spec (length (topology_changes s1)) (S k)) as [Hl|Hl].
    + rewrite wp_ret. apply HQ. apply (f_equal length) in D1. rewrite length_drop in D1.
      replace (length (topology_changes s2)) with (cut_index removed k) by lia. done.
    + apply IH; [exact K2|]. change (if removed then k else S k) with (cut_index removed k). rewrite D1, L. rewrite length_drop in Hf. lia.
  - rewrite wp_ret. apply HQ. apply lookup_ge_None in Hk. pose proof (wk_index _ _ _ _ K).
    replace (length (topology_changes s1)) with k by lia. done.
Qed.

Lemma walked_init s : walked s 0 [] s.
Proof.
  split; [apply thinned_refl|done|lia| | |].
  - intros q d Hd. exists d. split; [done|]. split; [by destruct d|]. by left.
  - intros q Hq. by apply not_elem_of_nil in Hq.
  - intros q Hq. by apply not_elem_of_nil in Hq.
Qed.

(** The changes of [s] are served: no listed destination wants its UPDATE, only those with
    another action stay listed, and a PASSIVE destination with no other action kept its
    reachable paths and is in the table only with one. *)
Record changes_served (s s' : eigrp_instance) : Prop := {
  cs_topo : topo_ok s';
  cs_shelved : shelved s';
  cs_done : forall p d', p ∈ topology_changes s -> prefixes s' !! p = Some d' -> has_flag (req_action d') EIGRP_FSM_NEED_UPDATE = false;
  cs_listed : forall p, p ∈ topology_changes s' -> exists d, prefixes s !! p = Some d /\ served (req_action d) <> 0;
  cs_retired : forall p d, p ∈ topology_changes s -> prefixes s !! p = Some d -> req_action d = EIGRP_FSM_NEED_UPDATE ->
    pd_state d = EIGRP_FSM_STATE_PASSIVE -> retirement_queued d = false ->
    exists d', prefixes s' !! p = Some d' /\ queues_kept s true d d' /\ (reach s (topology_routes d) = [] -> ~ in_table s' p);
  cs_others : forall p d, prefixes s !! p = Some d -> (p ∉ topology_changes s \/ pd_state d <> EIGRP_FSM_STATE_PASSIVE) ->
    exists d', prefixes s' !! p = Some d' /\ queues_kept s false d d';
}.

Lemma queues_reach s d d' : queues_kept s true d d' -> topology_routes d' = reach s (topology_routes d).
Proof. intros H. unfold topology_routes. rewrite reach_app. f_equal; [apply (H false)|apply (H true)]. Qed.

(** Where the walk ended every listed destination was visited. *)
Lemma walked_end s l s1 q d : walked s (length (topology_changes s1)) l s1 -> prefixes s !! q = Some d ->
  exists d1, prefixes s1 !! q = Some d1 /\ quiet d d1 /\ (q ∈ topology_changes s -> req_action d1 = served (req_action d)
    /\ (has_flag (req_action d) EIGRP_FSM_NEED_UPDATE = true -> req_action d1 = 0 -> pd_state d = EIGRP_FSM_STATE_PASSIVE ->
        retirement_queued d = false -> q ∈ l)).
Proof.
  intros K Hd. destruct (wk_dests _ _ _ _ K q d Hd) as (d1 & Hd1 & Hq & Hc). exists d1. split; [done|]. split; [done|]. intros Hin.
  destruct Hc as [[_ H]|(H1 & _ & H2)]; [|done]. specialize (H Hin). rewrite drop_all in H. by apply not_elem_of_nil in H.
Qed.

Lemma quiet_keeps d d' : quiet d d' -> pd_state d' = pd_state d /\ destination d' = destination d /\ forall ext, queue_of ext d' = queue_of ext d.
Proof. intros ->. split; [done|]. split; [done|]. by intros []. Qed.

Lemma walked_settled s l s1 : walked s (length (topology_changes s1)) l s1 ->
  (forall p d, p ∈ topology_changes s -> prefixes s !! p = Some d -> eigrp_prefix_valid (destination d) = true) ->
  Forall (settled_out s1) l.
Proof.
  intros K Hv. apply Forall_forall. intros q Hq. destruct (wk_retire _ _ _ _ K q Hq) as (Hin & d & Hd & Hp & H0).
  destruct (walked_end _ _ _ q d K Hd) as (d1 & Hd1 & Hqd & H). destruct (H Hin) as [Er _]. destruct (quiet_keeps _ _ Hqd) as (E1 & E2 & _).
  exists d1. split; [done|]. rewrite E1, E2, Er, H0. split; [done|]. split; [done|]. by eapply Hv.
Qed.

Lemma served_queues s s1 s2 l q d : instance_wf s -> thinned s s1 -> cleared l s1 s2 -> prefixes s !! q = Some d ->
  (exists d1, prefixes s1 !! q = Some d1 /\ quiet d d1) ->
  exists d2, prefixes s2 !! q = Some d2 /\ queues_kept s (bool_decide (q ∈ l)) d d2.
Proof.
  intros W T C Hd (d1 & Hd1 & Hq). destruct (cd_dests _ _ _ C q d1 Hd1) as (d2 & Hd2 & _ & _ & _ & Hk). exists d2. split; [done|].
  intros ext. rewrite (Hk ext). destruct (quiet_keeps _ _ Hq) as (_ & _ & E). rewrite (reach_thinned s s1 q d1 ext T W Hd1), E. done.
Qed.

Lemma served_intro s l s1 s2 : topo_ok s -> shelved s -> walked s (length (topology_changes s1)) l s1 -> cleared l s1 s2 -> changes_served s s2.
Proof.
  intros O S K C. pose proof (so_wf _ (tk_store _ O)) as W. pose proof (wk_thinned _ _ _ _ K) as T1. pose proof (thinned_trans _ _ _ T1 (cd_thinned _ _ _ C)) as T.
  assert (routed s2) as R by (apply C, K, O).
  assert (forall q d, prefixes s !! q = Some d -> exists d2, prefixes s2 !! q = Some d2 /\ queues_kept s (bool_decide (q ∈ l)) d d2) as HQ.
  { intros q d Hd. eapply served_queues; [exact W|exact T1|exact C|exact Hd|]. destruct (walked_end _ _ _ q d K Hd) as (d1 & ? & ? & _). eauto. }
  split.
  - split; [eapply thinned_store; [exact T|apply O]|intros m; eapply thinned_single; [exact T|exact W|apply O]|done].
  - by eapply thinned_shelved.
  - intros p d2 Hin Hd2. destruct (iw_changes _ W p Hin) as [d Hd]. destruct (walked_end _ _ _ p d K Hd) as (d1 & Hd1 & _ & H).
    destruct (cd_dests _ _ _ C p d1 Hd1) as (d2' & Hd2' & Er & _). assert (d2' = d2) as -> by congruence.
    rewrite Er, (proj1 (H Hin)). apply served_done.
  - intros p Hin. apply (wk_kept _ _ _ _ K). rewrite take_ge by done. by eapply elem_of_sublist, (cd_thinned _ _ _ C).
  - intros p d Hin Hd Hr Hp Hrq. destruct (HQ p d Hd) as (d2 & Hd2 & Hk). destruct (walked_end _ _ _ p d K Hd) as (d1 & Hd1 & _ & H).
    destruct (H Hin) as [H1 H2]. rewrite bool_decide_true in Hk by (apply H2; rewrite ?H1, ?Hr; done). exists d2. split; [done|]. split; [done|].
    intros Hno Ht. apply (R p d2 Ht Hd2). by rewrite (queues_reach s d d2).
  - intros p d Hd Hno. destruct (HQ p d Hd) as (d2 & Hd2 & Hk). exists d2. split; [done|].
    rewrite bool_decide_false in Hk; [done|]. intros Hl. destruct (wk_retire _ _ _ _ K p Hl) as (Hin & d' & Hd' & Hp & _).
    destruct Hno as [Hno|Hno]; [done|]. congruence.
Qed.

Lemma wp_serve s (Q : unit -> eigrp_instance -> Prop) :
  topo_ok s -> shelved s -> shutdown s = false -> thread_running s = true ->
  (forall p d, p ∈ topology_changes s -> prefixes s !! p = Some d -> eigrp_prefix_valid (destination d) = true) ->
  (forall s', changes_served s s' -> Q tt s') ->
  wp (changes ← gets topology_changes;
      retire ← changes_settle (settle_fuel changes) EIGRP_FSM_NEED_UPDATE 0 (Some []);
      retire_all retire) Q s.
Proof.
  intros O S Hs Hr Hv HQ. rewrite wp_bind, wp_gets, wp_bind. eapply (wp_changes_settle _ s); [apply O|apply walked_init| |].
  - unfold settle_fuel. rewrite drop_0. lia.
  - intros l s1 K. pose proof (wk_thinned _ _ _ _ K) as T. destruct (thinned_fields _ _ T) as (_ & _ & _ & E1 & E2 & _).
    apply wp_retire_all; [eapply thinned_store; [exact T|apply O]|by eapply thinned_shelved|congruence|congruence|by eapply walked_settled|].
    intros s2 C. apply HQ. by eapply served_intro.
Qed.
End walk.
