(* ===== verification/PacketizerTheorems.v ===== *)
(** * The packetizer's promises

    What the work of a neighbor and the answers it owes come to, on the wire and in the store. *)

From Stdlib Require Import ZArith Lia.
From stdpp Require Import base gmap list sorting strings.
From S2P Require Import Prelude Types Metric Prefix PrefixProps Rtt Stream AfVectors Tlv1 Tlv1Props Tlv2 Tlv2Props Filter Auth Neighbor State Topology Fsm Store Marking Frame Handlers Invariant Distance Dual DualProps Completion Table Events NeighborDown NeighborDownProps Paths Summary SummaryProps Answers Network Packetizer Builder Packing PacketizerProps Retire ReceiveTheorems.

(** C11: A REPLY reaches its neighbor.  Queued REPLY, SIA-QUERY and SIA-REPLY work for a
    neighbor that is up leaves as exactly one packet to that neighbor with one route TLV: the
    destination with the vector of its route in use, and as unreachable when there is none or
    when that route goes through the neighbor itself.  The topology is left as it was. *)
Theorem answer_sent env work n p d nb i w :
  let s := px_store w in
  let b := eigrp_packetizer_builder_init env i (Some n) (work_opcode work) 0 in
  let wire := builder_wire env b (first_route env i (sent_route s work n p d)) (destination d) in
  work_nbr work = Some n -> work_prefix work = Some p -> work_route_ok s work p ->
  has_flag (work_flags work) EIGRP_PACKETIZER_WORK_F_DEFER_FREE = false ->
  work_opcode work ∈ [EIGRP_OPC_SIAQUERY; EIGRP_OPC_REPLY; EIGRP_OPC_SIAREPLY] ->
  topo_ok s -> hops_ok env s -> prefixes s !! p = Some d -> prefix_ok (vectors (pe_codec env)) (destination d) ->
  nbrs s !! n = Some nb -> nbr_ei nb = Some i -> nbr_state nb = EIGRP_NEIGHBOR_UP -> pe_nbr_queue env n = true ->
  builds env b w -> wire <> [] -> (head_size env i + length wire <= Z.to_nat (pb_packet_limit b))%nat ->
  exists w', eigrp_packetizer_work_process env work w = Some (tt, w') /\ idle s (px_store w')
    /\ sent_as env b [(px_next w, [wire])] w w'.
Proof.
  intros s b wire; subst s; intros Hn Hp Hw Hd Ho K Hh Ep Ht En Ei Eu Eq B Hne Hf.
  assert (wp (eigrp_packetizer_neighbor_route_send env work) (fun _ w' => idle (px_store w) (px_store w') /\ sent_as env b [(px_next w, [wire])] w w') w) as Hwp.
  { unfold eigrp_packetizer_neighbor_route_send. rewrite Hn, Hp, wp_bind, wp_px_st, (wp_get_nbr n nb), px_store_same, Ei, Eu, Eq by done.
    rewrite Z.eqb_refl. cbn [negb orb]. rewrite wp_bind, wp_px_st. apply (wp_neighbor_select work n p d); [done..|apply Ht|done|].
    intros r owned s' Er K' Epx Ev I.
    destruct (answer_ready env (px_store w) work n p d K Ep Hh Hw) as [Ha1 Ha2].
    rewrite wp_bind, wp_px_st. cbn [px_store]. rewrite (wp_get_route r _ _ s' Er). rewrite wp_bind, wp_px_st. cbn [px_store].
    apply (wp_wire_target _ p d); [done|by rewrite Epx|]. cbv zeta.
    match goal with |- context [eigrp_packetizer_builder_route_add env _ ?r _] => change r with (sent_route (px_store w) work n p d) end.
    apply wp_single_packet; [by destruct B|done|by rewrite sent_hop|apply Hh|done|done|]. intros w' E1 (new & N1 & N2).
    rewrite wp_px_st. cbn [px_store] in E1. unfold route_release. simpl in N2. rewrite Ev in N2.
    destruct owned; unfold when; [unfold free_route; rewrite wp_modify|rewrite wp_ret]; rewrite E1; split; [exact I|by exists new|exact I|by exists new]. }
  assert (eigrp_packetizer_work_process env work = eigrp_packetizer_neighbor_route_send env work) as ->.
  { unfold eigrp_packetizer_work_process. rewrite Hd. rewrite !elem_of_cons in Ho. destruct Ho as [->|[->|[->|Ho]]]; [done..|].
    by apply elem_of_nil in Ho. }
  destruct (wp_some _ _ _ Hwp) as ([] & w' & E & H1 & H2). eauto.
Qed.

(** Neighbor 20 asks for the destination it is the path of. *)
Definition poison_work : eigrp_packetizer_work :=
  {| work_opcode := EIGRP_OPC_REPLY; work_prefix := Some 1%nat; work_route := None; work_exception := None; work_nbr := Some 20%nat; work_flags := 0 |}.

Lemma answer_sent_witness :
  exists w', eigrp_packetizer_work_process send_env poison_work (send_px rx_net) = Some (tt, w')
    /\ prefixes (px_store w') = prefixes rx_net /\ length (px_sent w') = 1%nat.
Proof.
  destruct (answer_sent send_env poison_work 20 1 net_passive (net_nbr 10) 10 (send_px rx_net))
    as (w' & E & (k & _ & I) & (new & En & Hn)).
  - reflexivity.
  - reflexivity.
  - intros h [=].
  - reflexivity.
  - right. left.
  - exact rx_net_topo.
  - split; [exact zero_nexthop_ok|]. intros r e Hr.
    assert (rd_nexthop e = zero_addr) as ->; [|exact zero_nexthop_ok].
    change (routes (px_store (send_px rx_net))) with ({[ 2%nat := net_best 512; 3%nat := net_alt 4096 ]} : gmap nat eigrp_route_descriptor) in Hr.
    apply lookup_insert_Some in Hr as [[_ <-]|[_ Hr]]; [done|]. by apply lookup_singleton_Some in Hr as [_ <-].
  - reflexivity.
  - split; [|done|done]. split; [|simpl; lia]. split; [done|]. simpl. solve_bytes.
  - reflexivity.
  - reflexivity.
  - reflexivity.
  - reflexivity.
  - apply send_builds.
  - vm_compute. discriminate.
  - apply Nat.leb_le. vm_compute. reflexivity.
  - exists w'. split; [exact E|]. split; [by rewrite I|].
    apply Forall2_length in Hn. rewrite length_rev in Hn. rewrite En, length_app. simpl in *. by rewrite <- Hn.
Defined.

(** ** The pending changes *)

(** The packets [xs] of the interfaces [l]: those of an interface without a neighbor that is up
    are none. *)
Definition carried (env : px_env) (s : eigrp_instance) (l : list ptr) (xs : list (list built)) : Prop :=
  Forall2 (fun i x => intf_up s i /\ carries env s i x \/ ~ intf_up s i /\ x = []) l xs.

Section changes.
Context (env : px_env).
Implicit Types s : eigrp_instance.

Lemma wp_all_intfs s work w (Q : unit -> px -> Prop) :
  topo_ok s -> hops_ok env s -> work_opcode work = EIGRP_OPC_UPDATE -> px_store w = s -> grants (px_heap w) = [] ->
  (forall i, i ∈ eiflist s -> intf_up s i -> intf_ready env s i) ->
  (forall w' xs, idle s (px_store w') -> px_sent w' = rev (concat xs) ++ px_sent w -> carried env s (eiflist s) xs -> Q tt w') ->
  wp (mfor (eiflist s) (intf_changes_send env work EIGRP_FSM_NEED_UPDATE)) Q w.
Proof.
  intros K Hh Ho Ew Hg Hr HQ.
  apply wp_mfor with (I := fun l w1 => exists l0 xs, eiflist s = l0 ++ l /\ idle s (px_store w1) /\ grants (px_heap w1) = []
    /\ px_sent w1 = rev (concat xs) ++ px_sent w /\ carried env s l0 xs).
  - exists [], []. split; [done|]. split; [rewrite Ew; apply idle_refl|]. split; [done|]. split; [done|constructor].
  - intros i l w1 (l0 & xs & El & I & G & Es & C).
    assert (i ∈ eiflist s) as Hin by (rewrite El; apply elem_of_app; right; by left).
    apply (wp_intf_changes env s i); [done..|by apply Hr|]. intros w2 x I2 H2 S2 C2. exists (l0 ++ [i]), (xs ++ [x]).
    split; [by rewrite <-app_assoc|]. split; [done|]. split; [by rewrite H2|]. split.
    + rewrite S2, Es, concat_app, rev_app_distr, <-app_assoc. cbn. by rewrite app_nil_r.
    + apply Forall2_app; [done|]. constructor; [done|constructor].
  - intros w' (l0 & xs & El & I & _ & Es & C). rewrite app_nil_r in El. subst l0. by eapply HQ.
Qed.

Lemma served_idle s s1 s2 : idle s s1 -> changes_served s1 s2 -> changes_served s s2.
Proof. intros (k & _ & ->) [H1 H2 H3 H4 H5 H6]. by split. Qed.

Lemma shelved_idle s s' : idle s s' -> shelved s -> shelved s'.
Proof. intros (k & _ & ->) [H1 H2 H3 H4 H5]. by split. Qed.
End changes.


(** Neighbor 20's path is in use and neighbor 21's is lost; the destination is pending. *)
Definition lost_route : eigrp_route_descriptor :=
  let e := net_alt 4096 in {| e with rd_type := EIGRP_TLV_IPv4_INT; rd_distance := EIGRP_MAX_METRIC |}.
Definition used_route : eigrp_route_descriptor := let e := net_best 512 in {| e with rd_type := EIGRP_TLV_IPv4_INT |}.
Definition pending_dest : eigrp_prefix_descriptor :=
  {| net_passive with req_action := EIGRP_FSM_NEED_UPDATE; table_node := Some 25%nat |}.
Definition pending_net : eigrp_instance :=
  let s := table_net pending_dest 4096 in
  {| s with routes := {[ 2%nat := used_route; 3%nat := lost_route ]}; topology_changes := [1%nat] |}.
Definition update_work : eigrp_packetizer_work :=
  {| work_opcode := EIGRP_OPC_UPDATE; work_prefix := None; work_route := None; work_exception := None; work_nbr := None; work_flags := 0 |}.

Lemma pending_route r e : routes pending_net !! r = Some e -> (r = 2%nat /\ e = used_route) \/ (r = 3%nat /\ e = lost_route).
Proof.
  change (routes pending_net) with ({[ 2%nat := used_route; 3%nat := lost_route ]} : gmap nat eigrp_route_descriptor).
  intros [[<- <-]|[_ H]]%lookup_insert_Some; [by left|right]. by apply lookup_singleton_Some in H as [<- <-].
Qed.
Lemma pending_prefix p d : prefixes pending_net !! p = Some d -> p = 1%nat /\ d = pending_dest.
Proof. intros H. by apply (lookup_singleton_Some (M := gmap nat) 1%nat p pending_dest d) in H as [<- <-]. Qed.

Lemma pending_topo : topo_ok pending_net.
Proof.
  split.
  - split; [solve_net_wf|apply table_wfb_spec; by vm_compute|done].
  - intros m p d x y ex ey Hd Hx Hy [[-> ->]|[-> ->]]%pending_route [[-> ->]|[-> ->]]%pending_route; try done; intros [= <-] [=].
  - intros p d _ [_ ->]%pending_prefix. done.
Qed.

Lemma pending_shelved : shelved pending_net.
Proof.
  split.
  - apply NoDup_singleton.
  - intros p d t [-> ->]%pending_prefix [= <-]. split; [by left|]. eexists. split; [vm_compute; reflexivity|done].
  - intros t n p d Ht _ _ [_ ->]%pending_prefix. by apply list_elem_of_singleton in Ht as ->.
  - intros p d ext r e [_ ->]%pending_prefix Hr [[_ ->]|[_ ->]]%pending_route; destruct ext; try done; by apply not_elem_of_nil in Hr.
  - intros p d [_ ->]%pending_prefix. done.
Qed.

Lemma pending_target : prefix_ok eigrp_ipv4_init net_prefix.
Proof. split; [|done|done]. split; [|simpl; lia]. split; [done|]. simpl. solve_bytes. Qed.

(** A checker for the sizes. *)
Lemma fits_check (limit head : nat) wires : forallb (fun wire : list Z => (head + length wire <=? limit)%nat) wires = true ->
  Forall (fun wire => (head + length wire <= limit)%nat) wires.
Proof. rewrite forallb_forall. intros H. apply Forall_forall. intros x Hx. by apply Nat.leb_le, H, list_elem_of_In. Qed.

Lemma pending_ready i : i ∈ eiflist pending_net -> intf_ready send_env pending_net i.
Proof.
  intros Hi. split.
  - split; [exact ipv4_laws|simpl; lia].
  - vm_compute. split; congruence.
  - done.
  - constructor; [|constructor]. exists pending_dest. split; [done|]. intros _. split; [exact pending_target|done].
  - intros ei Hei. apply fits_check.
    change (eiflist pending_net) with [10; 11]%nat in Hi. apply elem_of_cons in Hi as [->|Hi%list_elem_of_singleton]; [|subst i];
      vm_compute in Hei; injection Hei as <-; vm_compute; reflexivity.
Qed.

Lemma pending_hops : hops_ok send_env pending_net.
Proof. split; [exact zero_nexthop_ok|]. intros r e [[_ ->]|[_ ->]]%pending_route; exact zero_nexthop_ok. Qed.


(** A REPLY that arrives before the QUERY of an ACTIVE destination left ends the computation,
    but the QUERY stays pending: it is sent for the PASSIVE destination, whose neighbors then
    join a reply-status set that nothing empties ([shelved] is lost: the destination cannot be
    retired). *)
Definition asking_dest : eigrp_prefix_descriptor :=
  let d := net_dest EIGRP_FSM_STATE_ACTIVE_1 [] None in {| d with req_action := EIGRP_FSM_NEED_QUERY; table_node := Some 25%nat |}.
Definition asking_net : eigrp_instance := let s := table_net asking_dest 4096 in {| s with topology_changes := [1%nat] |}.
Definition query_work : eigrp_packetizer_work := {| update_work with work_opcode := EIGRP_OPC_QUERY |}.

Lemma early_reply_strands :
  exists m s1 d1 w' d', eigrp_fsm_event (net_msg EIGRP_OPC_REPLY 20 2 100000) asking_net = Some (m, s1)
    /\ prefixes s1 !! 1%nat = Some d1 /\ pd_state d1 = EIGRP_FSM_STATE_PASSIVE /\ rij d1 = []
    /\ eigrp_packetizer_work_process send_env query_work (send_px s1) = Some (tt, w')
    /\ prefixes (px_store w') !! 1%nat = Some d' /\ pd_state d' = EIGRP_FSM_STATE_PASSIVE /\ rij d' <> [].
Proof.
  eexists _, _, _, _, _. split; [vm_compute; reflexivity|]. split; [vm_compute; reflexivity|].
  split; [vm_compute; reflexivity|]. split; [vm_compute; reflexivity|]. split; [vm_compute; reflexivity|].
  split; [vm_compute; reflexivity|]. split; [vm_compute; reflexivity|]. vm_compute. discriminate.
Qed.
